(* ===== verification/_CoqProject ===== *)
-Q . S2P
Prelude.v
RoutePolicy.v
Hex.v
RouteMatch.v
CacheUrl.v
CacheRange.v
CacheRangeResponse.v
CcProtection.v
OriginHealth.v
OriginSelection.v
RequestExpression.v
MatchList.v
ExpressionProgram.v
CacheSettings.v
CachePolicy.v
CacheKey.v
BufferBudget.v
SecurityPolicy.v
RouteProgram.v
WebsiteValidation.v
CompiledConfig.v
ReloadWorker.v
StateStore.v
DesiredState.v
ReloadTransaction.v
RouteRules.v
CacheRecord.v
CacheControl.v
ResponseCache.v
CacheRoot.v
CacheInvariant.v
CacheFreshness.v
CacheFill.v
CacheDisk.v
Utf8.v
TextEncoding.v
Redaction.v
JsonExcerpt.v
RedactedBody.v
TraceDocument.v
AttemptRecorder.v
ResponseCompression.v
CacheMatch.v
CacheLookup.v
OriginRequest.v
OriginResponse.v
RequestReader.v
XdbDatabase.v
AccessLog.v
AccessCapture.v
LogProducer.v
LogDelivery.v
DnsRecord.v
DnsSync.v
WebsiteInput.v
WebsitePublish.v
SyncTask.v
SyncRuntime.v
