(* ===== verification/Prelude.v ===== *)
(** * A verification library for flexedge

    flexedge is an edge platform in C++20: edge nodes (src/node) terminate HTTP and HTTPS, match requests
    against compiled routes and security rules, choose origins by weight and health, cache responses in
    memory and on disk, limit request rates, record accesses and take new configurations while they serve;
    a management service (src/service) keeps websites, DNS zones and certificates in PostgreSQL, publishes
    website configurations to the nodes and drives background work; src/common holds what both planes
    share. This library models the parts that carry the program's own decisions, and proves what makes
    them correct. This file is also the prelude of the others: bytes, machine integers, exceptions,
    decimal text, shared lemmas and tactics.

    ** Parts and files

    Text that both planes agree on (src/common): RoutePolicy (route_policy.h: names, tokens, hosts, paths),
    Hex (hex.h), RouteMatch (route_match.h: patterns, capture templates, UTF-8, query strings), CacheUrl
    (cache_url.h), CacheSettings (cache_settings.h and its protocol form), CachePolicy (cache_policy.h,
    cache_defaults.h), RequestExpression (request_expression.h: the parser of rule expressions).

    Routing and security on a node (src/node/data, src/node/proto): MatchList (request_match_list.h:
    address and value lists), ExpressionProgram (request_expression.h: compiling and evaluating rule
    expressions), SecurityPolicy (security_validation.cpp, security_program.h: the checks of a policy, its
    program and its verdict), RouteProgram (route_program.h: compiling a website's rules), RouteRules
    (route_rules.h: the three phases that redirect, rewrite and choose origins), WebsiteValidation
    (website_validation.h: the protocol checks of a published website).

    Origins and protection: OriginHealth (origin_health.h), OriginSelection (origin_selection.h: the plan and
    the cursor that tries origins), CcProtection (cc_protection.h: rate windows of a worker and their
    merge), BufferBudget (buffered_bytes_budget.h, cache_capacity.h).

    The response cache: CacheKey (cache_key.h, cache_vary.h, cache_deception.h), CacheRange and
    CacheRangeResponse (cache_range.h, cache_range_response.h), CacheControl (the header and directive
    functions of response_cache.h), CacheRecord (cache_disk_record.h), ResponseCache (the shared root of
    response_cache.h and every operation on it), CacheRoot (the workers' operations as a step function:
    fences, fills, invalidation), CacheInvariant (the invariant of the root), CacheFreshness (what may be
    stored, for how long, and the merge of a 304), CacheFill (a fill and what it stores), CacheDisk
    (persisting and restoring objects), CacheMatch (the rule of a request), CacheLookup (the key of a
    request and the lookup as a whole).

    Messages of a session: RequestReader (http1_request_reader.h), OriginRequest
    (origin_request_codec.h), OriginResponse (origin_response_codec.h), ResponseCompression
    (response_compression.h: the choice of a coding).

    Access logs: AccessLog (the record and the batches: log_contract.h, envelope.h), AccessCapture
    (access_log_capture.h: what a session records), LogProducer (log_producer.h: a worker's staging),
    LogDelivery (log_delivery.h: queues and acknowledged deliveries to the service).

    Configurations of a node: CompiledConfig (compiled_config.h, security_config.h, country_database.h,
    runtime_state.h: from delivered bytes to the snapshot the workers run), ReloadWorker (data_worker.h: a
    worker's part in a reload), StateStore (state_store.h, state_cipher.h, secure_file.h: the encrypted
    bootstrap and control files and the versioned content of a state), DesiredState (control_channel.h:
    receiving a desired state and restoring the persisted one), ReloadTransaction (data_plane.h,
    config_activation.h: the coordinator of a reload, its workers, their channels and the disk, as one
    step relation).

    The management service: WebsiteInput (website_config/validation.h, mapper.h: the console's input, its
    checks and its stored form), WebsitePublish (deployment_source.h, protocol.h: the website object of a
    release), DnsRecord (names, records and the plans of their changes), DnsSync (dns_sync/sync_engine.h:
    one synchronization attempt against a provider), XdbDatabase (geoip/xdb_database.h), TextEncoding
    (text.h, base64.h, json_text.h, percent_encoding.h), Utf8 (utf8.h and the bounded texts of an attempt),
    SyncTask (sync_runtime/state.h and worker.h: the task table, the result writer, claims and
    maintenance), SyncRuntime (their interleavings).

    Traces of attempts (src/service/features/attempt_trace): Redaction and RedactedBody (redaction.h: the
    secrets, the requests, the bodies and the answers), JsonExcerpt (json_excerpt.h: a JSON value within
    bounds), TraceDocument (model.h, mapper.h: the stored document and the sums of its calls),
    AttemptRecorder (recorder.h: the recorder of one attempt).

    The console's input goes through WebsiteInput and WebsitePublish into the bytes of a release;
    CompiledConfig reads these, with the checks of WebsiteValidation and SecurityPolicy, and gives the
    workers what RouteProgram and SecurityPolicy compile; DesiredState orders the states a node receives;
    ReloadTransaction takes one through the workers of ReloadWorker and into StateStore, whose files
    DesiredState and CompiledConfig load after a restart.

    ** How the state is modelled

    A struct is a record, an enum an inductive type, a class its fields and one definition per member
    function; a string is its bytes. Exceptions are [throwing]; an access the code would make out of
    bounds is the outer [None] of an option. Integers are [Z] with the wrap-around written where the code
    can reach it ([u64], [plus_seconds]). Shared state is passed explicitly: the cache root and the task
    tables change by whole atomic operations (a compare-and-swap, a transaction), so an interleaving of
    workers is a list of operations, folded by CacheRoot.perform and SyncRuntime.perform; origin
    memberships, listeners and byte budgets, which several owners refer to, live in a store. Coroutines
    are cut at their suspensions: LogDelivery's are a place and a resumption per event, and
    ReloadTransaction's coordinator and workers are a relation between states of the whole plane, with
    their messages in its channels, so a property of it holds of every reachable plane. Clocks, and the
    answers of disks, channels and allocators, are arguments. A claim about a history holds of every list
    of operations, whatever they say.

    ** What is not in the repository

    Linked libraries are interfaces, arguments of the definitions that use them, with the documented laws
    the theorems need: [RouteMatch.Re2] and ExpressionProgram's rules for regular expressions, the address
    parser of asio and [std::ranges::sort] in MatchList, ruvia's HTTP dates ([CacheFreshness.HttpDate]),
    JSON objects ([Utf8.JsonDetail]), request parser ([RequestReader.RequestLibrary]) and validator
    ([WebsiteInput.RuviaValidator]), protobuf's messages and OpenSSL's digests
    ([CompiledConfig.Artifacts], [SecurityPolicy.SecurityLibraries]), the managed rules engine
    ([CompiledConfig.ManagedDetectors]), TLS ([ReloadWorker.TlsContexts]), the authenticated cipher of the
    stored files ([StateStore.CipherLibrary], with its laws [CipherLaws]), their messages
    ([StateStore.StateMessages]) and the parsing of endpoints ([EndpointAddresses]), and of the traces
    the JSON parser ([JsonExcerpt.JsonLibrary]), the reading of certificates
    ([RedactedBody.CertificateReader]) and the serializer ([TraceDocument.TraceSerializer]). The SQL of the service is
    read as PostgreSQL defines it, a DNS provider as a world of records with failing calls
    ([DnsSync.DnsWorld]).

    ** The theorems

    Routing: a compiled website evaluates as a reference semantics of its rules says; a written expression
    means its boolean reading; address lists decide membership of the listed networks; security rules
    decide in order, and every request gets a verdict. The cache: an invariant of every reachable root; a
    fill started before an invalidation never stores after it; one worker fills a key; a lookup serves
    only fresh objects of its key, epochs and variant; keys separate exactly what the rules name; what is
    stored is the whole body, within the limits; a restart gives the objects back. Messages: requests and
    responses are framed and relayed byte for byte, whatever the pieces they come in. Logs: no event is
    lost, duplicated or overtaken between the staging and the acknowledgement, no wakeup is lost, and
    queues drain. Configurations: what the console accepts is stored, published, passes the nodes' checks
    and compiles on their workers; a configuration is exactly its release; a host finds the one website
    that names it; a worker's part in a reload is the protocol's, a reload takes place on every worker or
    on none, and it is published only when it has; an apply that fails leaves the stored state as it
    was. The service: task tables are
    well formed under every history, stale leases are fenced, at most one result per claim, no task is
    lost; synchronizations delete only what is FlexEdge's own and converge. The traces: registered
    secrets are redacted, an excerpt tells nothing of the values its policy does not list, a recorder
    accounts for every call of its history within its bounds, and a stored trace fits its column.

    ** Fuel

    Loops over text carry its length, or one more, as fuel, and each step consumes at least one character
    (RequestExpression nests at most as deep as the source's limit); binary searches carry the length of
    what they search. The theorems about results are stated for the definitions with that fuel, and
    OriginResponse.reading_terminates, XdbDatabase.database_in_bounds and LogDelivery's drains state that
    it is never exhausted. The eviction loops are recursions on the list of candidates.

    ** Not modelled, and the plan

    Sockets, TLS handshakes and the coroutines of the sessions over them (http_session.h,
    http2_session.h, origin_transport.h, edge_listener.h), the bytes of protocol buffers, the service's
    database handlers, schedulers and certificate issuance over the network, and the web console are not
    modelled: they are I/O around the decisions that are. Of data_worker.h and data_plane.h the reports, the
    drain, the cache commands and the lease queue are left out, and of control_channel.h the sessions of the
    control stream. *)
From stdpp Require Export prelude gmap strings list sorting.
From Stdlib Require Export ZArith Lia Ascii.
From Stdlib Require String.

(** * Bytes: [std::string] and [std::string_view] *)

Abbreviation bytes := (list ascii).

Declare Scope bytes_scope.
Delimit Scope bytes_scope with bytes.
Notation "a == b" := (bool_decide (a = b)) (at level 70, no associativity) : bytes_scope.
Notation "a != b" := (negb (bool_decide (a = b))) (at level 70, no associativity) : bytes_scope.
#[global] Open Scope bytes_scope.

(** A string literal of the source, as bytes. *)
Definition lit (s : string) : bytes := String.list_ascii_of_string s.

(** The value of a character as [unsigned char]. *)
Definition code (c : ascii) : Z := Z.of_N (N_of_ascii c).
(** [static_cast<char>] of an integer: the low eight bits. *)
Definition chr (z : Z) : ascii := ascii_of_N (Z.to_N (z mod 256)).

Definition in_range (lo hi c : ascii) : bool :=
  (code lo <=? code c)%Z && (code c <=? code hi)%Z.
Definition is_digit (c : ascii) : bool := in_range "0" "9" c.
Definition is_lower (c : ascii) : bool := in_range "a" "z" c.
Definition is_upper (c : ascii) : bool := in_range "A" "Z" c.

Definition size {A} (s : list A) : Z := Z.of_nat (length s).
Definition empty {A} (s : list A) : bool := match s with [] => true | _ => false end.
Definition mem_char (c : ascii) (s : bytes) : bool := existsb (fun x => x == c) s.

(** [find], [find_first_of], [rfind] and [find] of a substring, with [None] for [npos]. *)
Fixpoint find_if (P : ascii -> bool) (s : bytes) : option nat :=
  match s with
  | [] => None
  | x :: s' => if P x then Some 0%nat else S <$> find_if P s'
  end.
Definition find_char (c : ascii) : bytes -> option nat := find_if (fun x => x == c).
Definition find_first_of (set : bytes) : bytes -> option nat :=
  find_if (fun x => mem_char x set).
Fixpoint rfind_char (c : ascii) (s : bytes) : option nat :=
  match s with
  | [] => None
  | x :: s' =>
      match rfind_char c s' with
      | Some n => Some (S n)
      | None => if x == c then Some 0%nat else None
      end
  end.
Fixpoint starts_with (s prefix : bytes) {struct prefix} : bool :=
  match prefix, s with
  | [], _ => true
  | p :: prefix', x :: s' => (x == p) && starts_with s' prefix'
  | _ :: _, [] => false
  end.
Definition ends_with (s suffix : bytes) : bool :=
  (length suffix <=? length s)%nat && (drop (length s - length suffix) s == suffix).
Fixpoint find_sub (sub s : bytes) : option nat :=
  if starts_with s sub then Some 0%nat
  else match s with [] => None | _ :: s' => S <$> find_sub sub s' end.

(** [s.substr(0, pos)] where [pos] may be [npos]. *)
Definition upto (pos : option nat) (s : bytes) : bytes :=
  match pos with Some n => take n s | None => s end.
(** [pos == npos ? {} : s.substr(pos + 1)]. *)
Definition after (pos : option nat) (s : bytes) : bytes :=
  match pos with Some n => drop (S n) s | None => [] end.
Definition present {A} (o : option A) : bool := match o with Some _ => true | None => false end.

(** * Order *)

(** [std::string]'s [operator<]: unsigned bytes, a proper prefix first. *)
Fixpoint bytes_compare (a b : bytes) : comparison :=
  match a, b with
  | [], [] => Eq
  | [], _ :: _ => Lt
  | _ :: _, [] => Gt
  | x :: a', y :: b' =>
      match (code x ?= code y)%Z with Eq => bytes_compare a' b' | c => c end
  end.

Definition then_compare (c d : comparison) : comparison := match c with Eq => d | _ => c end.

(** * Machine integers *)

Definition two64 : Z := 18446744073709551616.
(** Arithmetic of [std::size_t] and [std::uint64_t], with its wrap-around. *)
Definition u64 (z : Z) : Z := z mod two64.
Definition is_u64 (z : Z) : Prop := (0 <= z < two64)%Z.

(** [std::to_string] of an unsigned integer. *)
Definition digit (d : Z) : ascii := chr (48 + d).
Fixpoint dec_go (fuel : nat) (n : Z) (acc : bytes) : bytes :=
  match fuel with
  | O => acc
  | S fuel' =>
      let acc := digit (n mod 10) :: acc in
      if (n <? 10)%Z then acc else dec_go fuel' (n / 10) acc
  end.
Definition dec (n : Z) : bytes := dec_go (S (Z.to_nat (Z.log2 n))) n [].
(** The value of a string of decimal digits. *)
Definition undec_from (v : Z) (s : bytes) : Z :=
  fold_left (fun v c => (v * 10 + (code c - 48))%Z) s v.
Definition undec : bytes -> Z := undec_from 0.

(** The longest prefix of characters that pass [ok], and the rest. *)
Fixpoint take_while (ok : ascii -> bool) (text : bytes) : bytes * bytes :=
  match text with
  | c :: text' => if ok c then let '(a, b) := take_while ok text' in (c :: a, b) else ([], text)
  | [] => ([], [])
  end.

(** [std::from_chars] to an unsigned integer type: the value of the leading digits and what
    follows them; an error without digits or when the value exceeds the type. *)
Definition from_chars (maximum : Z) (text : bytes) : option (Z * bytes) :=
  let '(digits, rest) := take_while is_digit text in
  if empty digits || (maximum <? undec digits)%Z then None else Some (undec digits, rest).

(** * Exceptions *)

Inductive throwing (A : Type) := Returns (a : A) | Throws (message : bytes).
Arguments Returns {A}. Arguments Throws {A}.
Definition throwing_bind {A B} (x : throwing A) (f : A -> throwing B) : throwing B :=
  match x with Returns a => f a | Throws m => Throws m end.
(** A loop whose body may throw. *)
Fixpoint throwing_fold {A S} (f : S -> A -> throwing S) (s : S) (l : list A) : throwing S :=
  match l with
  | [] => Returns s
  | x :: l' => throwing_bind (f s x) (fun s' => throwing_fold f s' l')
  end.

(** * Splitting and joining at a delimiter *)

Fixpoint split_on (c : ascii) (s : bytes) : list bytes :=
  match s with
  | [] => [[]]
  | x :: s' =>
      if x == c then [] :: split_on c s'
      else match split_on c s' with [] => [[x]] | t :: ts => (x :: t) :: ts end
  end.
Fixpoint join (sep : bytes) (parts : list bytes) : bytes :=
  match parts with
  | [] => []
  | [p] => p
  | p :: ps => p ++ sep ++ join sep ps
  end.

(** * Automation *)

Create HintDb flexedge.

(** Turn boolean connectives and comparisons of the code into propositions. *)
Ltac reflect_bool :=
  repeat match goal with
  | H : (_ && _)%bool = true |- _ => apply andb_true_iff in H; destruct H
  | H : (_ || _)%bool = false |- _ => apply orb_false_iff in H; destruct H
  | H : (_ || _)%bool = true |- _ => apply orb_true_iff in H
  | H : (_ && _)%bool = false |- _ => apply andb_false_iff in H
  | H : negb _ = true |- _ => apply negb_true_iff in H
  | H : negb _ = false |- _ => apply negb_false_iff in H
  | H : bool_decide _ = true |- _ => apply bool_decide_eq_true in H
  | H : bool_decide _ = false |- _ => apply bool_decide_eq_false in H
  | H : (_ <? _)%Z = true |- _ => apply Z.ltb_lt in H
  | H : (_ <? _)%Z = false |- _ => apply Z.ltb_ge in H
  | H : (_ <=? _)%Z = true |- _ => apply Z.leb_le in H
  | H : (_ <=? _)%Z = false |- _ => apply Z.leb_gt in H
  | H : (_ =? _)%Z = true |- _ => apply Z.eqb_eq in H
  | H : (_ =? _)%Z = false |- _ => apply Z.eqb_neq in H
  | H : (_ <? _)%nat = true |- _ => apply Nat.ltb_lt in H
  | H : (_ <? _)%nat = false |- _ => apply Nat.ltb_ge in H
  | H : (_ <=? _)%nat = true |- _ => apply Nat.leb_le in H
  | H : (_ <=? _)%nat = false |- _ => apply Nat.leb_gt in H
  end.

(** Case analysis on the test of the outermost [if] or [match]. *)
Ltac step_if := case_match; reflect_bool; simplify_eq/=.

(** A closed decidable proposition, by evaluation of its decision procedure. *)
Ltac by_decision := refine (bool_decide_unpack _ _); vm_compute; exact I.

(** * Characters *)

Lemma code_range c : (0 <= code c < 256)%Z.
Proof.
  unfold code. pose proof (N_ascii_bounded c). lia.
Qed.

Lemma chr_code c : chr (code c) = c.
Proof.
  unfold chr. rewrite Z.mod_small by apply code_range.
  unfold code. rewrite N2Z.id. apply ascii_N_embedding.
Qed.

Lemma code_chr z : (0 <= z < 256)%Z -> code (chr z) = z.
Proof.
  intros H. unfold code, chr. rewrite Z.mod_small by lia.
  rewrite N_ascii_embedding by lia. lia.
Qed.

Lemma code_inj a b : code a = code b -> a = b.
Proof. intros H. rewrite <- (chr_code a), <- (chr_code b). by rewrite H. Qed.

(** A property of characters that holds of all 256 of them by evaluation. *)
Definition all_chars : list ascii := map (fun n => ascii_of_nat n) (seq 0 256).

Lemma all_chars_complete c : In c all_chars.
Proof.
  unfold all_chars. apply in_map_iff. exists (nat_of_ascii c). split.
  - apply ascii_nat_embedding.
  - apply in_seq. pose proof (nat_ascii_bounded c). lia.
Qed.

Lemma forall_chars (P : ascii -> bool) :
  forallb P all_chars = true -> forall c, P c = true.
Proof. intros H c. rewrite forallb_forall in H. apply H, all_chars_complete. Qed.

(** * Tests over lists *)

Lemma existsb_false {A} (P : A -> bool) l :
  existsb P l = false <-> Forall (fun x => P x = false) l.
Proof.
  induction l as [|x l IH]; simpl; [done|].
  rewrite orb_false_iff, IH, Forall_cons. done.
Qed.

Lemma forallb_Forall {A} (P : A -> bool) l : forallb P l = true <-> Forall (fun x => P x = true) l.
Proof.
  induction l as [|x l IH]; simpl; [done|].
  rewrite andb_true_iff, IH, Forall_cons. done.
Qed.

(** * Order of strings *)

Lemma then_compare_opp c d : then_compare (CompOpp c) (CompOpp d) = CompOpp (then_compare c d).
Proof. by destruct c. Qed.

Lemma bytes_compare_opp a b : bytes_compare b a = CompOpp (bytes_compare a b).
Proof.
  revert b. induction a as [|x a IH]; intros [|y b]; try done. simpl.
  rewrite (Z.compare_antisym (code x) (code y)). destruct (code x ?= code y)%Z; simpl; auto.
Qed.

Lemma bytes_compare_eq a b : bytes_compare a b = Eq -> a = b.
Proof.
  revert b. induction a as [|x a IH]; intros [|y b]; try done. simpl.
  destruct (code x ?= code y)%Z eqn:E; try done. intros H.
  apply Z.compare_eq, code_inj in E as ->. by rewrite (IH b).
Qed.

Lemma bytes_compare_refl a : bytes_compare a a = Eq.
Proof. induction a; [done|]. simpl. by rewrite Z.compare_refl. Qed.

Lemma bytes_compare_trans a b c :
  bytes_compare a b = Lt -> bytes_compare b c = Lt -> bytes_compare a c = Lt.
Proof.
  revert b c. induction a as [|x a IH]; intros [|y b] [|z c]; try done. simpl.
  destruct (Z.compare_spec (code x) (code y)) as [E1|E1|E1], (Z.compare_spec (code y) (code z)) as [E2|E2|E2];
    try done; intros; rewrite ?E1, ?E2, ?Z.compare_refl; eauto;
    first [by rewrite (proj2 (Z.compare_lt_iff _ _)) by lia
          |by rewrite <- E1, (proj2 (Z.compare_lt_iff _ _)) by lia].
Qed.

(** * Positions *)

Lemma find_if_Some P s n :
  find_if P s = Some n ->
  exists a x b, s = a ++ x :: b /\ length a = n /\ P x = true /\ Forall (fun y => P y = false) a.
Proof.
  revert n. induction s as [|y s IH]; intros n; simpl; [done|].
  destruct (P y) eqn:Hy; intros H.
  - simplify_eq. exists [], y, s. auto.
  - destruct (find_if P s) as [m|] eqn:E; simplify_eq/=.
    destruct (IH m eq_refl) as (a & x & b & -> & Hl & Hx & Ha).
    exists (y :: a), x, b. simpl. rewrite Hl. auto.
Qed.

Lemma find_if_None P s : find_if P s = None <-> Forall (fun y => P y = false) s.
Proof.
  induction s as [|y s IH]; simpl; [done|].
  rewrite Forall_cons, <- IH. destruct (P y); [naive_solver|].
  destruct (find_if P s); naive_solver.
Qed.

Lemma find_if_app P a x b :
  Forall (fun y => P y = false) a -> P x = true -> find_if P (a ++ x :: b) = Some (length a).
Proof.
  induction 1 as [|y a Hy _ IH]; simpl; intros Hx; [by rewrite Hx|].
  by rewrite Hy, IH.
Qed.

Lemma Forall_not_char (c : ascii) (a : bytes) :
  Forall (fun y => (y == c) = false) a <-> c ∉ a.
Proof.
  rewrite Forall_forall. setoid_rewrite bool_decide_eq_false. naive_solver.
Qed.

Lemma find_char_Some c s n :
  find_char c s = Some n <-> exists a b, s = a ++ c :: b /\ length a = n /\ c ∉ a.
Proof.
  unfold find_char. split.
  - intros (a & x & b & -> & Hl & Hx & Ha)%find_if_Some. reflect_bool. subst x.
    exists a, b. by rewrite <- Forall_not_char.
  - intros (a & b & -> & <- & Ha). apply find_if_app; [by apply Forall_not_char|].
    by apply bool_decide_eq_true.
Qed.

Lemma find_char_None c s : find_char c s = None <-> c ∉ s.
Proof. unfold find_char. by rewrite find_if_None, Forall_not_char. Qed.

Lemma find_char_lt c s n : find_char c s = Some n -> (n < length s)%nat.
Proof.
  intros (a & b & -> & <- & _)%find_char_Some. rewrite length_app. simpl. lia.
Qed.

Lemma drop_S_lt {A} n (s : list A) : (n < length s)%nat -> (length (drop (S n) s) < length s)%nat.
Proof. rewrite length_drop. lia. Qed.

Lemma drop_S_app {A} (c : A) a b : drop (S (length a)) (a ++ c :: b) = b.
Proof.
  replace (S (length a)) with (length (a ++ [c])) by (rewrite length_app; simpl; lia).
  change (c :: b) with ([c] ++ b). by rewrite app_assoc, drop_app_length.
Qed.

Lemma find_char_app_upto c a b : c ∉ a -> upto (find_char c (a ++ c :: b)) (a ++ c :: b) = a.
Proof.
  intros Ha. rewrite (proj2 (find_char_Some c _ (length a))) by eauto.
  simpl. by rewrite take_app_length.
Qed.

Lemma find_char_app_after c a b : c ∉ a -> after (find_char c (a ++ c :: b)) (a ++ c :: b) = b.
Proof.
  intros Ha. rewrite (proj2 (find_char_Some c _ (length a))) by eauto.
  simpl. by rewrite drop_S_app.
Qed.

Lemma starts_with_spec s p : starts_with s p = true <-> exists r, s = p ++ r.
Proof.
  revert s. induction p as [|x p IH]; intros s; simpl.
  { split; [eauto|]. by destruct s. }
  destruct s as [|y s]; simpl; [split; [done|by intros [? ?]]|].
  rewrite andb_true_iff, IH, bool_decide_eq_true. naive_solver.
Qed.

Lemma starts_with_app p r : starts_with (p ++ r) p = true.
Proof. apply starts_with_spec. eauto. Qed.

Lemma ends_with_spec s p : ends_with s p = true <-> exists r, s = r ++ p.
Proof.
  unfold ends_with. rewrite andb_true_iff, Nat.leb_le, bool_decide_eq_true. split.
  - intros [_ H]. exists (take (length s - length p) s). rewrite <- H at 2. by rewrite take_drop.
  - intros [r ->]. rewrite length_app. split; [lia|].
    rewrite Nat.add_sub. by rewrite drop_app_length.
Qed.

(** * Splitting *)

Lemma split_on_not_nil c s : split_on c s <> [].
Proof. destruct s; simpl; [done|]. repeat case_match; done. Qed.

Lemma split_on_none c s : c ∉ s -> split_on c s = [s].
Proof.
  induction s as [|x s IH]; [done|]. intros [Hx Hs]%not_elem_of_cons. simpl.
  rewrite bool_decide_eq_false_2 by done. by rewrite IH.
Qed.

Lemma split_on_app c a b : c ∉ a -> split_on c (a ++ c :: b) = a :: split_on c b.
Proof.
  induction a as [|x a IH]; simpl.
  - by rewrite bool_decide_eq_true_2.
  - intros [Hx Ha]%not_elem_of_cons. rewrite bool_decide_eq_false_2 by done. by rewrite IH.
Qed.

(** One step of the loops that cut a string at its next delimiter. *)
Lemma split_on_step c s :
  split_on c s =
  match find_char c s with
  | None => [s]
  | Some n => take n s :: split_on c (drop (S n) s)
  end.
Proof.
  destruct (find_char c s) as [n|] eqn:E.
  - pose proof E as E'. apply find_char_Some in E' as (a & b & -> & Hl & Ha). subst n.
    rewrite split_on_app by done. by rewrite take_app_length, drop_S_app.
  - apply find_char_None in E. by apply split_on_none.
Qed.

Lemma join_split c s : join [c] (split_on c s) = s.
Proof.
  induction s as [|x s IH]; simpl; [done|].
  pose proof (split_on_not_nil c s). case_match eqn:E.
  - reflect_bool. subst x. destruct (split_on c s) as [|t ts] eqn:F; [done|].
    change (join [c] ([] :: t :: ts)) with (c :: join [c] (t :: ts)). by rewrite IH.
  - destruct (split_on c s) as [|t [|u ts]] eqn:F; [done| |]; simpl in *; by rewrite IH.
Qed.

Lemma split_join c parts :
  parts <> [] -> Forall (fun p => c ∉ p) parts -> split_on c (join [c] parts) = parts.
Proof.
  intros Hne Hall. induction Hall as [|p ps Hp Hps IH]; [done|].
  destruct ps as [|q ps]; simpl; [by apply split_on_none|].
  rewrite split_on_app by done. f_equal. by apply IH.
Qed.

Lemma split_on_parts c s : Forall (fun p => c ∉ p) (split_on c s).
Proof.
  induction s as [|x s IH]; simpl; [constructor; [apply not_elem_of_nil|done]|].
  case_match eqn:E; reflect_bool.
  - constructor; [apply not_elem_of_nil|done].
  - destruct (split_on c s) as [|t ts]; [repeat constructor; set_solver|].
    inversion IH; subst. constructor; [set_solver|done].
Qed.

(** * Decimal numbers *)

Lemma digit_code d : (0 <= d < 10)%Z -> code (digit d) = (48 + d)%Z.
Proof. intros H. apply code_chr. lia. Qed.

Lemma is_digit_spec c : is_digit c = true <-> (48 <= code c <= 57)%Z.
Proof.
  unfold is_digit, in_range. rewrite andb_true_iff, !Z.leb_le.
  change (code "0") with 48%Z. change (code "9") with 57%Z. lia.
Qed.

Lemma digit_is_digit d : (0 <= d < 10)%Z -> is_digit (digit d) = true.
Proof. intros H. apply is_digit_spec. rewrite digit_code by done. lia. Qed.

Lemma undec_app v a b : undec_from v (a ++ b) = undec_from (undec_from v a) b.
Proof. unfold undec_from. by rewrite fold_left_app. Qed.

(** Each step of [dec_go] leaves a smaller number, so [log2 n + 1] steps finish. *)
Lemma dec_go_spec fuel n acc :
  (0 <= n < 2 ^ Z.of_nat fuel)%Z -> (0 < fuel)%nat ->
  exists ds, dec_go fuel n acc = ds ++ acc /\ undec ds = n /\
    Forall (fun c => is_digit c = true) ds /\ ds <> [] /\
    (n <> 0%Z -> hd_error ds <> Some "0"%char).
Proof.
  revert n acc. induction fuel as [|fuel IH]; intros n acc Hn Hf; [lia|]. simpl.
  assert (0 <= n mod 10 < 10)%Z as Hd by (apply Z.mod_pos_bound; lia).
  pose proof (Z.div_mod n 10 ltac:(lia)) as Hdm.
  destruct (n <? 10)%Z eqn:Hlt; reflect_bool.
  - exists [digit (n mod 10)]. rewrite (Z.mod_small n 10) in * by lia.
    split_and!; [done|unfold undec, undec_from; simpl; rewrite digit_code; lia| |done|].
    + repeat constructor. by apply digit_is_digit.
    + intros Hn0 [= Hz]. apply (f_equal code) in Hz. rewrite digit_code in Hz by lia.
      change (code "0") with 48%Z in Hz. lia.
  - assert (0 < n / 10)%Z by (apply Z.div_str_pos; lia).
    destruct fuel as [|fuel]; [change (2 ^ Z.of_nat 1)%Z with 2%Z in Hn; lia|].
    destruct (IH (n / 10)%Z (digit (n mod 10) :: acc)) as (ds & -> & Hv & Hds & Hne & Hh); [|lia|].
    + rewrite Nat2Z.inj_succ, Z.pow_succ_r in Hn by lia.
      split; [lia|]. apply Z.div_lt_upper_bound; lia.
    + exists (ds ++ [digit (n mod 10)]). split_and!.
      * by rewrite <- app_assoc.
      * unfold undec in *. rewrite undec_app, Hv. unfold undec_from; simpl. rewrite digit_code; lia.
      * apply Forall_app; split; [done|]. repeat constructor. by apply digit_is_digit.
      * by destruct ds.
      * intros _. destruct ds as [|x ds]; [done|]. simpl in *. apply Hh. lia.
Qed.

Lemma dec_spec n :
  (0 <= n)%Z -> undec (dec n) = n /\ Forall (fun c => is_digit c = true) (dec n) /\
  dec n <> [] /\ (n <> 0%Z -> hd_error (dec n) <> Some "0"%char).
Proof.
  intros Hn. unfold dec.
  destruct (dec_go_spec (S (Z.to_nat (Z.log2 n))) n []) as (ds & -> & H); [|lia|].
  - split; [done|]. rewrite Nat2Z.inj_succ, Z2Nat.id by apply Z.log2_nonneg.
    destruct (decide (n = 0%Z)) as [->|]; [done|]. apply Z.log2_spec. lia.
  - by rewrite app_nil_r.
Qed.

Lemma undec_dec n : (0 <= n)%Z -> undec (dec n) = n.
Proof. intros H. by apply dec_spec. Qed.

Lemma dec_digits n : (0 <= n)%Z -> Forall (fun c => is_digit c = true) (dec n).
Proof. intros H. by apply dec_spec. Qed.

Lemma dec_not_nil n : (0 <= n)%Z -> dec n <> [].
Proof. intros H. by apply dec_spec. Qed.

Lemma undec_from_bound v s :
  (0 <= v)%Z -> Forall (fun c => is_digit c = true) s ->
  (v * 10 ^ size s <= undec_from v s < (v + 1) * 10 ^ size s)%Z.
Proof.
  intros Hv Hs. revert v Hv. induction Hs as [|c s Hc _ IH]; intros v Hv.
  - change (size (A:=ascii) []) with 0%Z. unfold undec_from. simpl. lia.
  - apply is_digit_spec in Hc. unfold undec_from in *. simpl.
    specialize (IH (v * 10 + (code c - 48))%Z ltac:(lia)).
    replace (size (c :: s)) with (Z.succ (size s)) by (unfold size; simpl; lia).
    rewrite Z.pow_succ_r by (unfold size; lia).
    assert (0 < 10 ^ size s)%Z by (apply Z.pow_pos_nonneg; unfold size; lia). nia.
Qed.

Lemma undec_nonneg s : Forall (fun c => is_digit c = true) s -> (0 <= undec s)%Z.
Proof. intros H. pose proof (undec_from_bound 0 s ltac:(lia) H). unfold undec. lia. Qed.

Lemma not_digit_notin c s :
  is_digit c = false -> Forall (fun x => is_digit x = true) s -> c ∉ s.
Proof. rewrite Forall_forall. intros Hc Hs Hin. apply Hs in Hin. congruence. Qed.

#[export] Hint Resolve code_range digit_is_digit dec_digits dec_not_nil undec_nonneg
  starts_with_app not_digit_notin : flexedge.

Lemma take_while_spec ok text a b :
  take_while ok text = (a, b) -> text = a ++ b /\ Forall (fun c => ok c = true) a.
Proof.
  revert a b. induction text as [|c text IH]; simpl; intros a b; [by intros [= <- <-]|].
  destruct (ok c) eqn:Hc; [|by intros [= <- <-]]. destruct (take_while ok text) as [x y].
  intros [= <- <-]. destruct (IH x y eq_refl) as [-> Hx]. auto.
Qed.

Lemma take_while_length ok text a b : take_while ok text = (a, b) -> (length a + length b = length text)%nat.
Proof. intros [-> _]%take_while_spec. by rewrite length_app. Qed.

Lemma from_chars_bound maximum text v rest : from_chars maximum text = Some (v, rest) -> (0 <= v <= maximum)%Z.
Proof.
  unfold from_chars. destruct (take_while is_digit text) as [a b] eqn:E. apply take_while_spec in E as [_ Ha].
  destruct (empty a); [done|]. simpl. step_if; [done|]. intros [= <- <-].
  pose proof (undec_nonneg a Ha). lia.
Qed.

(** * Machine-integer facts *)

Lemma u64_small z : is_u64 z -> u64 z = z.
Proof. intros H. by apply Z.mod_small. Qed.

Lemma size_app {A} (a b : list A) : size (a ++ b) = (size a + size b)%Z.
Proof. unfold size. rewrite length_app. lia. Qed.
Lemma u64_add a b : u64 (u64 a + b) = u64 (a + b).
Proof. unfold u64. apply Zplus_mod_idemp_l. Qed.
Lemma u64_range z : is_u64 (u64 z).
Proof. by apply Z.mod_pos_bound. Qed.

(** Remove the wrap-arounds that the context shows cannot happen, innermost first. *)
Ltac u64_simpl :=
  repeat match goal with
  | |- context [u64 ?z] =>
      lazymatch z with context [u64 _] => fail | _ => idtac end;
      rewrite (u64_small z) by (unfold is_u64, two64, size in *; lia)
  end.

#[export] Hint Resolve u64_range : flexedge.
#[export] Hint Rewrite u64_small using (unfold is_u64, two64 in *; lia) : flexedge.

(** * Loops over delimited text *)

(** The loop of the validators that cut a text at a delimiter and require each part to pass a
    test: an empty text and a trailing delimiter are refused. *)
Fixpoint parts_loop (c : ascii) (ok : bytes -> bool) (fuel : nat) (value : bytes) : bool :=
  match fuel with
  | O => false
  | S fuel' =>
      if empty value then false
      else
        let pos := find_char c value in
        if negb (ok (upto pos value)) then false
        else match pos with
             | None => true
             | Some _ =>
                 let value := after pos value in
                 if empty value then false else parts_loop c ok fuel' value
             end
  end.

Lemma empty_spec {A} (s : list A) : empty s = true <-> s = [].
Proof. by destruct s. Qed.

Lemma parts_loop_spec c ok fuel value :
  (length value < fuel)%nat -> ok [] = false ->
  parts_loop c ok fuel value = forallb ok (split_on c value).
Proof.
  intros Hf Hok. revert value Hf. induction fuel as [|fuel IH]; intros value Hf; [lia|].
  simpl. destruct value as [|x value]; [simpl; by rewrite Hok|].
  change (empty (x :: value)) with false. cbv iota.
  remember (x :: value) as v eqn:Hv. clear Hv x value.
  rewrite (split_on_step c v). destruct (find_char c v) as [n|] eqn:E; cbn [upto after forallb].
  - destruct (ok (take n v)); simpl; [|done].
    pose proof (find_char_lt _ _ _ E). pose proof (drop_S_lt n v ltac:(lia)).
    destruct (drop (S n) v) as [|y w]; [simpl; by rewrite Hok|].
    rewrite <- (IH (y :: w)) by (simpl in *; lia). done.
  - destruct (ok v); done.
Qed.

(** Filling the low bits that a shift left free adds. *)
Lemma lor_shiftl_add h l k :
  (0 <= k)%Z -> (0 <= l < 2 ^ k)%Z -> Z.lor (Z.shiftl h k) l = (h * 2 ^ k + l)%Z.
Proof.
  intros Hk Hl. rewrite Z.shiftl_mul_pow2 by done.
  pose proof (Z.add_lor_land (h * 2 ^ k) l) as E.
  assert (Z.land (h * 2 ^ k) l = 0)%Z as E0; [|lia].
  rewrite <- (Z.mod_small l (2 ^ k)) by done.
  rewrite <- Z.land_ones, (Z.land_comm l), Z.land_assoc, Z.land_ones by done.
  rewrite Z.mod_mul by lia. apply Z.land_0_l.
Qed.

(** * Loops that may throw *)

(** What holds of the state after each prefix holds after the whole list. *)
Lemma throwing_fold_inv {A S} (I : list A -> S -> Prop) (f : S -> A -> throwing S) s l s' :
  I [] s -> (forall done x t t', I done t -> f t x = Returns t' -> I (done ++ [x]) t') ->
  throwing_fold f s l = Returns s' -> I l s'.
Proof.
  intros H0 Hstep. assert (forall done s, I done s -> throwing_fold f s l = Returns s' -> I (done ++ l) s') as Hgo.
  { induction l as [|x l IH]; intros done t Ht Hf; simpl in Hf.
    - simplify_eq. by rewrite app_nil_r.
    - destruct (f t x) as [t'|] eqn:E; [|done]. cbn in Hf.
      rewrite (app_assoc done [x] l : done ++ x :: l = _). eapply IH; eauto. }
  by apply (Hgo []).
Qed.

Lemma throwing_fold_total {A S} (f : S -> A -> throwing S) s l :
  (forall s x, x ∈ l -> exists s', f s x = Returns s') -> exists s', throwing_fold f s l = Returns s'.
Proof.
  revert s. induction l as [|x l IH]; intros s Hf; cbn [throwing_fold]; [eauto|].
  destruct (Hf s x) as [s' ->]; [by constructor|]. cbn [throwing_bind]. apply IH. intros ? ? ?. apply Hf. by right.
Qed.

Lemma throwing_bind_returns {A B} (x : throwing A) (f : A -> throwing B) b :
  throwing_bind x f = Returns b -> exists a, x = Returns a /\ f a = Returns b.
Proof. destruct x; simpl; [eauto|done]. Qed.
