(* ===== verification/RoutePolicy.v ===== *)
(** Text policies of request routing: src/common/route_policy.h.

    ASCII case folding, optional white space, HTTP tokens, hostnames with their wildcard
    bindings, and the checks on rewrite modes, query strings and paths. *)
From S2P Require Import Prelude.
Open Scope Z_scope.

Definition lower_ascii (c : ascii) : ascii :=
  if is_upper c then chr (code c + (code "a" - code "A")) else c.

Fixpoint ascii_equal_from (left right : bytes) : bool :=
  match left, right with
  | x :: left', y :: right' =>
      if lower_ascii x != lower_ascii y then false else ascii_equal_from left' right'
  | _, _ => true
  end.
Definition ascii_equal (left right : bytes) : bool :=
  if negb (size left =? size right) then false else ascii_equal_from left right.

Definition ascii_starts_with (value prefix : bytes) : bool :=
  (size prefix <=? size value) && ascii_equal (take (length prefix) value) prefix.

Definition is_ows (c : ascii) : bool := (c == " "%char) || (c == chr 9).
Fixpoint trim_front (value : bytes) : bytes :=
  match value with
  | x :: value' => if is_ows x then trim_front value' else value
  | [] => []
  end.
(** [remove_suffix] while the last character is optional white space. *)
Definition trim_back (value : bytes) : bytes := rev (trim_front (rev value)).
Definition trim_ows (value : bytes) : bytes := trim_back (trim_front value).

Definition is_http_token_char (c : ascii) : bool :=
  is_lower c || is_upper c || is_digit c || mem_char c (lit "!#$%&'*+-.^_`|~").

Definition http_token (value : bytes) (maximum : Z) : bool :=
  if empty value || (maximum <? size value) then false
  else forallb is_http_token_char value.

(** [std::iscntrl] of the "C" locale. *)
Definition iscntrl (c : ascii) : bool := (code c <? 32) || (code c =? 127).
Definition clean_text (value : bytes) (maximum : Z) : bool :=
  (size value <=? maximum) && negb (existsb iscntrl value).

Definition strip_dot (value : bytes) : bytes :=
  if ends_with value (lit ".") then take (length value - 1) value else value.

Definition hostname (value : bytes) : bytes :=
  let value := upto (find_char ":" value) value in
  map lower_ascii (strip_dot value).

Definition last_is (c : ascii) (s : bytes) : bool :=
  match last s with Some x => x == c | None => false end.
Definition first_is (c : ascii) (s : bytes) : bool :=
  match s with x :: _ => x == c | [] => false end.

Definition label_char (c : ascii) : bool :=
  is_lower c || is_upper c || is_digit c || (c == "-"%char).
(** The test of one label in the loop of [exact_hostname]. *)
Definition label_ok (label : bytes) : bool :=
  negb (empty label || (63 <? size label) || first_is "-" label || last_is "-" label
        || existsb (fun c => negb (label_char c)) label).

Definition exact_hostname (value : bytes) : bool :=
  if empty value || (253 <? size value) then false
  else
    let value := strip_dot value in
    parts_loop "." label_ok (S (length value)) value.

Section FindHostname.
Context {A : Type}.
(** [index] is a map from normalized bindings; the result is the entry the iterator names. *)
Definition find_hostname (index : gmap bytes A) (host : bytes) : option (bytes * A) :=
  if negb (exact_hostname host) then None
  else match index !! host with
       | Some v => Some (host, v)
       | None =>
           match find_char "." host with
           | None => None
           | Some dot =>
               let host := lit "*" ++ drop dot host in
               (fun v => (host, v)) <$> index !! host
           end
       end.
End FindHostname.

Definition rewrite_mode (mode : bytes) : bool :=
  empty mode || (mode == lit "none") || (mode == lit "replace_path") ||
  (mode == lit "strip_prefix") || (mode == lit "replace_prefix").

Definition query_mode (mode : bytes) : bool :=
  empty mode || (mode == lit "preserve") || (mode == lit "drop") || (mode == lit "replace").

Definition query_string (value : bytes) : bool :=
  (size value <=? 2048) && negb (first_is "?" value) &&
  negb (existsb (fun c => (code c <=? 32) || (code c =? 127) || (c == "#"%char)) value).

Definition path_only (value : bytes) : bool :=
  negb (empty value) && first_is "/" value && (size value <=? 2048) &&
  negb (present (find_first_of (lit "?#") value)) &&
  negb (existsb (fun c => (code c <=? 32) || (code c =? 127)) value).

(** * Case folding *)

Lemma lower_ascii_idem c : lower_ascii (lower_ascii c) = lower_ascii c.
Proof.
  pose proof (forall_chars (fun c => lower_ascii (lower_ascii c) == lower_ascii c) eq_refl c)
    as H. by apply bool_decide_eq_true in H.
Qed.

(** [ascii_equal] decides equality of the lower-cased texts. *)
Lemma ascii_equal_spec a b :
  ascii_equal a b = true <-> map lower_ascii a = map lower_ascii b.
Proof.
  unfold ascii_equal. destruct (size a =? size b) eqn:Hs; reflect_bool; simpl.
  - revert b Hs. induction a as [|x a IH]; intros [|y b] Hs; try done.
    simpl. destruct (lower_ascii x != lower_ascii y) eqn:E; reflect_bool.
    + split; [done|]. congruence.
    + rewrite IH; [|unfold size in *; simpl in Hs; lia]. split; congruence.
  - split; [done|]. intros H%(f_equal length). rewrite !length_map in H.
    unfold size in Hs. lia.
Qed.

#[export] Instance ascii_equal_equivalence :
  Equivalence (fun a b => ascii_equal a b = true).
Proof.
  split.
  - intros a. by apply ascii_equal_spec.
  - intros a b. rewrite !ascii_equal_spec. congruence.
  - intros a b c. rewrite !ascii_equal_spec. congruence.
Qed.

(** * White space *)

Lemma trim_front_spec s :
  exists w, s = w ++ trim_front s /\ Forall (fun c => is_ows c = true) w /\
    match trim_front s with x :: _ => is_ows x = false | [] => True end.
Proof.
  induction s as [|x s IH]; simpl; [by exists []|].
  destruct (is_ows x) eqn:E; [|by exists []].
  destruct IH as (w & Hw & Hall & Hx). exists (x :: w). rewrite Hw at 1. auto.
Qed.

(** The declarative reading of [trim_ows]: white space off both ends, none left there. *)
Lemma trim_ows_spec s :
  exists w1 w2, s = w1 ++ trim_ows s ++ w2 /\
    Forall (fun c => is_ows c = true) (w1 ++ w2) /\
    match trim_ows s with x :: _ => is_ows x = false | [] => True end /\
    match last (trim_ows s) with Some x => is_ows x = false | None => True end.
Proof.
  unfold trim_ows, trim_back.
  destruct (trim_front_spec s) as (w1 & H1 & Hw1 & Hf).
  destruct (trim_front_spec (rev (trim_front s))) as (w2 & H2 & Hw2 & Hb).
  set (t := trim_front (rev (trim_front s))) in *.
  apply (f_equal (@rev ascii)) in H2. rewrite rev_involutive, rev_app_distr in H2.
  exists w1, (rev w2). split_and!.
  - by rewrite <- H2.
  - apply Forall_app; split; [done|]. by apply Forall_rev.
  - destruct (rev t) as [|x r] eqn:E; [done|]. rewrite H2 in Hf. exact Hf.
  - destruct t as [|x r]; [done|]. simpl. by rewrite last_snoc.
Qed.

Lemma trim_ows_clean s :
  match s with x :: _ => is_ows x = false | [] => True end ->
  match last s with Some x => is_ows x = false | None => True end ->
  trim_ows s = s.
Proof.
  intros Hf Hl. unfold trim_ows, trim_back.
  assert (trim_front s = s) as -> by (destruct s; simpl; [done|by rewrite Hf]).
  destruct s as [|c s _] using rev_ind; [done|].
  rewrite last_snoc in Hl. rewrite rev_app_distr. simpl. rewrite Hl.
  simpl. by rewrite rev_involutive.
Qed.

Lemma trim_ows_idem s : trim_ows (trim_ows s) = trim_ows s.
Proof. destruct (trim_ows_spec s) as (w1 & w2 & _ & _ & H1 & H2). by apply trim_ows_clean. Qed.

(** * Hostnames *)

(** A DNS label: 1 to 63 letters, digits and hyphens, with no hyphen at either end. *)
Record valid_label (l : bytes) : Prop := {
  label_size : 1 <= size l <= 63;
  label_chars : Forall (fun c => label_char c = true) l;
  label_first : hd_error l <> Some "-"%char;
  label_last : last l <> Some "-"%char
}.

Lemma label_ok_spec l : label_ok l = true <-> valid_label l.
Proof.
  unfold label_ok. rewrite negb_true_iff, !orb_false_iff.
  assert (existsb (fun c => negb (label_char c)) l = false <->
          Forall (fun c => label_char c = true) l) as Hch.
  { rewrite Forall_forall. rewrite <- not_true_iff_false, existsb_exists. split.
    - intros H c Hc. destruct (label_char c) eqn:E; [done|]. exfalso. apply H.
      exists c. rewrite E. by rewrite <- list_elem_of_In.
    - intros H (c & Hc%list_elem_of_In & Hn). rewrite H in Hn by done. done. }
  rewrite Hch. unfold last_is, first_is, size. split.
  - intros [[[[H1 H2] H3] H4] H5]. reflect_bool. split; [| done | |].
    + unfold size. destruct l; simpl in *; [done|lia].
    + destruct l; simpl in *; [done|]. reflect_bool. congruence.
    + destruct (last l) eqn:E; [|done]. reflect_bool. congruence.
  - intros [H1 H2 H3 H4]. unfold size in *. split_and!; [| | | |done].
    + destruct l; simpl in *; [lia|done].
    + apply Z.ltb_ge. lia.
    + destruct l; [done|]. apply bool_decide_eq_false. simpl in H3. congruence.
    + destruct (last l); [|done]. apply bool_decide_eq_false. congruence.
Qed.

Lemma label_char_not c l :
  label_char c = false -> valid_label l -> c ∉ l.
Proof.
  intros Hc [_ Hl _ _] Hin. rewrite Forall_forall in Hl. apply Hl in Hin. congruence.
Qed.

Lemma ends_dot_spec v : ends_with v (lit ".") = true -> v = strip_dot v ++ lit ".".
Proof.
  intros H. unfold strip_dot. rewrite H. apply ends_with_spec in H as [r ->].
  rewrite length_app. simpl. rewrite Nat.add_sub. by rewrite take_app_length.
Qed.

Lemma strip_dot_cases v :
  v = strip_dot v \/ v = strip_dot v ++ lit ".".
Proof.
  destruct (ends_with v (lit ".")) eqn:E; [right; by apply ends_dot_spec|].
  left. unfold strip_dot. by rewrite E.
Qed.

Lemma strip_dot_app v : strip_dot (v ++ lit ".") = v.
Proof.
  unfold strip_dot. rewrite (proj2 (ends_with_spec _ _)) by eauto.
  rewrite length_app. simpl. rewrite Nat.add_sub. apply take_app_length.
Qed.

Lemma strip_dot_id v : last v <> Some "."%char -> strip_dot v = v.
Proof.
  intros H. destruct (strip_dot_cases v) as [E|E]; [done|].
  exfalso. apply H. rewrite E. apply last_snoc.
Qed.

Lemma exact_hostname_labels v :
  exact_hostname v = true <->
  size v <= 253 /\ Forall valid_label (split_on "." (strip_dot v)).
Proof.
  unfold exact_hostname. rewrite parts_loop_spec by (done || lia).
  destruct v as [|x v]; [split; [done|]|].
  - intros [_ H]. inversion H as [|? ? [Hs _ _ _]]. unfold size in Hs; simpl in Hs; lia.
  - simpl empty. rewrite orb_false_l. destruct (253 <? size (x :: v)) eqn:E; reflect_bool.
    + split; [done|lia].
    + rewrite forallb_forall, Forall_forall. setoid_rewrite list_elem_of_In.
      setoid_rewrite label_ok_spec. naive_solver.
Qed.

Lemma join_labels_last labels :
  labels <> [] -> Forall valid_label labels -> last (join (lit ".") labels) <> Some "."%char.
Proof.
  induction labels as [|l ls IH]; [done|]. intros _ H. inversion H as [|? ? Hl Hls]; subst.
  destruct ls as [|m ls].
  - simpl. intros E. apply last_Some in E as [l' ->].
    pose proof (label_char_not "." _ eq_refl Hl). set_solver.
  - change (join (lit ".") (l :: m :: ls)) with (l ++ lit "." ++ join (lit ".") (m :: ls)).
    rewrite app_assoc, last_app. specialize (IH ltac:(done) Hls).
    destruct (join (lit ".") (m :: ls)) as [|c t] eqn:E; [|].
    + exfalso. inversion Hls as [|? ? Hm _]; subst.
      destruct (label_size _ Hm) as [Hs _].
      destruct m; [unfold size in Hs; simpl in Hs; lia|]. simpl in E. by destruct ls.
    + destruct (last (c :: t)) eqn:F; [done|]. by apply last_None in F.
Qed.

(** [exact_hostname] accepts exactly the DNS names: one or more labels of 1 to 63 letters,
    digits and hyphens (none at a label's end), joined by dots, with at most one trailing dot,
    at most 253 characters in all. *)
Theorem exact_hostname_spec v :
  exact_hostname v = true <->
  size v <= 253 /\
  exists labels, labels <> [] /\ Forall valid_label labels /\
    (v = join (lit ".") labels \/ v = join (lit ".") labels ++ lit ".").
Proof.
  rewrite exact_hostname_labels. split; intros [Hs H]; (split; [done|]).
  - exists (split_on "." (strip_dot v)). split_and!; [apply split_on_not_nil|done|].
    change (lit ".") with ["."%char]. rewrite join_split. apply strip_dot_cases.
  - destruct H as (labels & Hne & Hl & Hv).
    assert (strip_dot v = join (lit ".") labels) as ->.
    { destruct Hv as [-> | ->]; [|apply strip_dot_app].
      by apply strip_dot_id, join_labels_last. }
    change (lit ".") with ["."%char]. rewrite split_join; [done|done|].
    eapply Forall_impl; [done|]. intros l. by apply label_char_not.
Qed.

Lemma label_char_lower c : label_char (lower_ascii c) = label_char c.
Proof.
  apply Bool.eqb_prop.
  exact (forall_chars (fun c => Bool.eqb (label_char (lower_ascii c)) (label_char c)) eq_refl c).
Qed.

Lemma lower_ascii_is d c : is_upper d = false -> is_lower d = false -> lower_ascii c = d -> c = d.
Proof.
  intros Hu Hl H. unfold lower_ascii in H. destruct (is_upper c) eqn:E; [|done].
  exfalso. subst d.
  pose proof (forall_chars (fun c => implb (is_upper c)
    (is_lower (chr (code c + (code "a" - code "A"))))) eq_refl c) as H.
  cbv beta in H. rewrite E in H. simpl implb in H. congruence.
Qed.

Lemma lower_not_char d s :
  is_upper d = false -> is_lower d = false -> d ∉ s -> d ∉ map lower_ascii s.
Proof.
  intros Hu Hl Hs Hin. apply list_elem_of_In, in_map_iff in Hin as (c & Hc & Hin).
  apply lower_ascii_is in Hc; [|done..]. subst. by apply Hs, list_elem_of_In.
Qed.

Lemma valid_label_lower l : valid_label l -> valid_label (map lower_ascii l).
Proof.
  intros [Hs Hc Hf Hl]. split.
  - unfold size in *. by rewrite length_map.
  - rewrite Forall_forall in *. intros c (d & -> & Hd)%list_elem_of_fmap.
    rewrite label_char_lower. by apply Hc.
  - destruct l as [|c l]; simpl in *; [done|]. intros [= H].
    apply lower_ascii_is in H; [congruence|done..].
  - change (map lower_ascii l) with (lower_ascii <$> l). rewrite fmap_last.
    destruct (last l) as [c|]; simpl; [|done]. intros [= H].
    apply lower_ascii_is in H; [congruence|done..].
Qed.

Lemma map_join f sep parts :
  map f (join sep parts) = join (map f sep) (map (map f) parts).
Proof.
  induction parts as [|p [|q ps] IH]; [done..|].
  change (join sep (p :: q :: ps)) with (p ++ sep ++ join sep (q :: ps)).
  rewrite !map_app, IH. done.
Qed.

Lemma exact_hostname_no_colon v : exact_hostname v = true -> ":"%char ∉ v.
Proof.
  intros (_ & labels & _ & Hl & Hv)%exact_hostname_spec.
  assert (":"%char ∉ join (lit ".") labels) as Hj.
  { clear Hv. induction Hl as [|l ls Hl Hls IH]; [apply not_elem_of_nil|].
    pose proof (label_char_not ":" _ eq_refl Hl). destruct ls; simpl in *; set_solver. }
  destruct Hv as [-> | ->]; [done|]. set_solver.
Qed.

(** A text that [exact_hostname] accepts is normalized to another one it accepts, in lower case,
    with no trailing dot; normalizing again changes nothing. *)
Lemma hostname_normal v :
  exact_hostname v = true ->
  hostname v = map lower_ascii (strip_dot v) /\
  exact_hostname (hostname v) = true /\ hostname (hostname v) = hostname v.
Proof.
  intros Hv. pose proof Hv as Hv'. apply exact_hostname_labels in Hv' as [Hs Hl].
  assert (hostname v = map lower_ascii (strip_dot v)) as Hh.
  { unfold hostname. rewrite (proj2 (find_char_None _ _)); [done|].
    by apply exact_hostname_no_colon. }
  set (labels := map (map lower_ascii) (split_on "." (strip_dot v))).
  assert (hostname v = join (lit ".") labels) as Hj.
  { rewrite Hh. rewrite <- (join_split "." (strip_dot v)) at 1. by rewrite map_join. }
  assert (labels <> []) as Hne.
  { unfold labels. pose proof (split_on_not_nil "." (strip_dot v)).
    by destruct (split_on "." (strip_dot v)). }
  assert (Forall valid_label labels) as Hlab.
  { unfold labels. apply Forall_forall. intros l (m & -> & Hm)%list_elem_of_fmap.
    apply valid_label_lower. rewrite Forall_forall in Hl. by apply Hl. }
  assert (exact_hostname (hostname v) = true) as He.
  { apply exact_hostname_spec. split; [|exists labels; auto].
    rewrite Hh. unfold size in *. rewrite length_map.
    destruct (strip_dot_cases v) as [E|E]; apply (f_equal length) in E;
      rewrite ?length_app in E; simpl in E; lia. }
  split_and!; [done|done|].
  unfold hostname at 1. rewrite (proj2 (find_char_None _ _)) by (by apply exact_hostname_no_colon).
  simpl upto. rewrite Hj, strip_dot_id by (by apply join_labels_last).
  rewrite <- Hj, Hh, map_map. apply map_ext. apply lower_ascii_idem.
Qed.

Lemma find_char_dot_drop c (a b : bytes) : c ∉ a -> find_char c (a ++ c :: b) = Some (length a).
Proof. intros H. apply find_char_Some. eauto. Qed.

(** Hostname bindings: a lookup succeeds only for a valid hostname; the exact binding wins;
    otherwise the only other candidate is the wildcard of the host with its first label
    replaced, so a wildcard stands for exactly one label. *)
Theorem find_hostname_spec {A} (index : gmap bytes A) host key v :
  find_hostname index host = Some (key, v) <->
  exact_hostname host = true /\ index !! key = Some v /\
  (key = host \/
   index !! host = None /\
   exists label rest, host = label ++ lit "." ++ rest /\ "."%char ∉ label /\
     key = lit "*." ++ rest).
Proof.
  unfold find_hostname. destruct (exact_hostname host); simpl; [|naive_solver].
  split.
  - destruct (index !! host) as [w|] eqn:E; [intros [= -> ->]; auto|].
    destruct (find_char "." host) as [dot|] eqn:F; [|done].
    intros H. split; [done|]. apply fmap_Some in H as (w & Hw & [= -> ->]).
    split; [done|]. right. split; [done|].
    apply find_char_Some in F as (a & b & -> & <- & Ha). exists a, b.
    split_and!; [done|done|]. by rewrite drop_app_length.
  - intros (_ & Hk & H). destruct H as [-> | (E & label & rest & -> & Hl & ->)]; [by rewrite Hk|].
    rewrite E. change (lit ".") with ["."%char]. simpl app.
    rewrite find_char_dot_drop by done. simpl.
    rewrite drop_app_length. simpl in Hk |- *. by rewrite Hk.
Qed.

(** One binding at most can answer a host, exact before wildcard. *)
Lemma find_hostname_exact {A} (index : gmap bytes A) host v :
  exact_hostname host = true -> index !! host = Some v ->
  find_hostname index host = Some (host, v).
Proof. intros He Hv. apply find_hostname_spec. auto. Qed.
