(* ===== verification/Hex.v ===== *)
(** Hexadecimal text: src/common/hex.h. *)
From S2P Require Import Prelude RoutePolicy.
Open Scope Z_scope.

Definition hex_digits : bytes := lit "0123456789abcdef".
Definition hex_digit (n : Z) : ascii := nth (Z.to_nat n) hex_digits zero.

Definition hex_encode (value : bytes) : bytes :=
  concat (map (fun c =>
    [hex_digit (Z.shiftr (code c) 4); hex_digit (Z.land (code c) 15)]) value).

(** The [nibble] lambda; -1 for a character that is no hexadecimal digit. *)
Definition nibble (ch : ascii) : Z :=
  if is_digit ch then code ch - code "0"
  else if in_range "a" "f" ch then code ch - code "a" + 10
  else if in_range "A" "F" ch then code ch - code "A" + 10
  else -1.

Fixpoint hex_decode_from (value : bytes) : option bytes :=
  match value with
  | h :: l :: rest =>
      let high := nibble h in
      let low := nibble l in
      if (high <? 0) || (low <? 0) then None
      else (fun result => chr (Z.lor (Z.shiftl high 4) low) :: result) <$> hex_decode_from rest
  | _ => Some []
  end.

Definition hex_decode (value : bytes) : option bytes :=
  if negb (size value mod 2 =? 0) then None else hex_decode_from value.

(** Induction two characters at a time, as the loop of [hex_decode] goes. *)
Lemma pairs_ind {A} (P : list A -> Prop) :
  P [] -> (forall x, P [x]) -> (forall x y l, P l -> P (x :: y :: l)) -> forall l, P l.
Proof.
  intros H0 H1 H2 l. enough (P l /\ forall x, P (x :: l)) by tauto.
  induction l as [|y l [IH1 IH2]]; auto.
Qed.

Lemma hex_digit_lower c :
  nibble (hex_digit (Z.shiftr (code c) 4)) = Z.shiftr (code c) 4 /\
  nibble (hex_digit (Z.land (code c) 15)) = Z.land (code c) 15 /\
  Z.lor (Z.shiftl (Z.shiftr (code c) 4) 4) (Z.land (code c) 15) = code c /\
  0 <= Z.shiftr (code c) 4 /\ 0 <= Z.land (code c) 15.
Proof.
  pose proof (forall_chars (fun c =>
    (nibble (hex_digit (Z.shiftr (code c) 4)) =? Z.shiftr (code c) 4) &&
    (nibble (hex_digit (Z.land (code c) 15)) =? Z.land (code c) 15) &&
    (Z.lor (Z.shiftl (Z.shiftr (code c) 4) 4) (Z.land (code c) 15) =? code c) &&
    (0 <=? Z.shiftr (code c) 4) && (0 <=? Z.land (code c) 15)) eq_refl c) as H.
  cbv beta in H. reflect_bool. auto.
Qed.

Lemma nibble_range c : 0 <= nibble c -> nibble c < 16 /\ hex_digit (nibble c) = lower_ascii c.
Proof.
  pose proof (forall_chars (fun c => (nibble c <? 0) ||
    (nibble c <? 16) && (hex_digit (nibble c) == lower_ascii c)) eq_refl c) as H.
  cbv beta in H. intros Hn. reflect_bool. destruct H as [H|H]; reflect_bool; [lia|auto].
Qed.

Lemma nibbles_join h l :
  0 <= h < 16 -> 0 <= l < 16 ->
  Z.lor (Z.shiftl h 4) l = h * 16 + l /\
  Z.shiftr (h * 16 + l) 4 = h /\ Z.land (h * 16 + l) 15 = l.
Proof.
  intros Hh Hl.
  rewrite lor_shiftl_add, Z.shiftr_div_pow2 by lia.
  change 15 with (Z.ones 4). rewrite Z.land_ones by lia. change (2 ^ 4) with 16.
  split_and!; [done|Z.div_mod_to_equations; lia..].
Qed.

Lemma hex_encode_cons c b :
  hex_encode (c :: b) =
  hex_digit (Z.shiftr (code c) 4) :: hex_digit (Z.land (code c) 15) :: hex_encode b.
Proof. done. Qed.

Lemma hex_encode_length b : length (hex_encode b) = (2 * length b)%nat.
Proof. induction b as [|c b IH]; [done|]. rewrite hex_encode_cons. simpl. lia. Qed.

(** Encoding is inverted by decoding, on every byte string. *)
Theorem hex_decode_encode b : hex_decode (hex_encode b) = Some b.
Proof.
  unfold hex_decode, size. rewrite hex_encode_length.
  replace (Z.of_nat (2 * length b) mod 2) with 0
    by (rewrite Nat2Z.inj_mul, Z.mul_comm, Z_mod_mult; done).
  simpl. induction b as [|c b IH]; [done|]. rewrite hex_encode_cons.
  destruct (hex_digit_lower c) as (H1 & H2 & H3 & H4 & H5).
  cbn [hex_decode_from]. rewrite H1, H2, H3, IH.
  rewrite (proj2 (Z.ltb_ge _ _) H4), (proj2 (Z.ltb_ge _ _) H5). simpl.
  by rewrite chr_code.
Qed.

(** Decoding accepts exactly the lower-case renderings, up to case. *)
Lemma hex_decode_spec v b :
  hex_decode v = Some b <-> map lower_ascii v = hex_encode b.
Proof.
  split.
  - unfold hex_decode. destruct (size v mod 2 =? 0) eqn:Hs; simpl; [|done]. reflect_bool.
    revert b Hs. induction v as [|x|x y v IH] using pairs_ind; intros b Hs; simpl.
    + by intros [= <-].
    + unfold size in Hs. simpl in Hs. done.
    + destruct ((nibble x <? 0) || (nibble y <? 0)) eqn:E; [done|]. reflect_bool.
      intros Hd. apply fmap_Some in Hd as (r & Hr & ->). rewrite hex_encode_cons.
      destruct (nibble_range x) as [Hx Ex]; [lia|]. destruct (nibble_range y) as [Hy Ey]; [lia|].
      destruct (nibbles_join (nibble x) (nibble y)) as (J1 & J2 & J3); [lia..|].
      rewrite J1, code_chr by lia. rewrite J2, J3, Ex, Ey. f_equal. f_equal. apply IH; [|done].
      unfold size in *. simpl length in Hs. rewrite !Nat2Z.inj_succ in Hs.
      Z.div_mod_to_equations; lia.
  - intros H. rewrite <- (hex_decode_encode b), <- H. clear H. unfold hex_decode, size.
    rewrite length_map. destruct (Z.of_nat (length v) mod 2 =? 0); [simpl|done].
    induction v as [|x|x y v IH] using pairs_ind; [done..|].
    assert (forall c, nibble (lower_ascii c) = nibble c) as Hn.
    { intros c. apply Z.eqb_eq.
      exact (forall_chars (fun c => nibble (lower_ascii c) =? nibble c) eq_refl c). }
    simpl. by rewrite !Hn, IH.
Qed.
