(* ===== verification/RouteMatch.v ===== *)
(** Route matching text: src/common/route_match.h.

    Compiled patterns (an RE2 engine given as an interface), capture templates, route
    conditions, UTF-8 validation and the decoding of query strings. *)
From S2P Require Import Prelude RoutePolicy Hex.
Open Scope Z_scope.

(** * The RE2 engine

    RE2 is a library the program links; the operations it uses are an interface, and the laws
    are what RE2 documents: a match reports the whole match and one (possibly empty) text per
    capturing group, and a partial match is a match without its captures. *)
Class Re2 := {
  re2 : Type;
  (** [RE2(pattern)], [None] when [ok()] is false. *)
  re2_new : bytes -> option re2;
  (** [NumberOfCapturingGroups()]. *)
  re2_groups : re2 -> nat;
  (** [Match(text, 0, size, UNANCHORED, captures, groups + 1)]. *)
  re2_match : re2 -> bytes -> option (list bytes)
}.

Class Re2Laws `{Re2} := {
  re2_match_length p s cs : re2_match p s = Some cs -> length cs = S (re2_groups p);
  re2_match_sub p s cs c : re2_match p s = Some cs -> c ∈ cs -> exists a b, s = a ++ c ++ b
}.

Definition re2_partial_match `{Re2} (p : re2) (s : bytes) : bool := present (re2_match p s).

Definition redirect_status (status : Z) : bool :=
  (status =? 301) || (status =? 302) || (status =? 307) || (status =? 308).

Definition valid_match_type (type : bytes) : bool :=
  (type == lit "exact") || (type == lit "prefix") || (type == lit "suffix") ||
  (type == lit "regex").

Definition compile_pattern `{Re2} (pattern : bytes) : option re2 :=
  if empty pattern || (512 <? size pattern) || negb (clean_text pattern 512) ||
     present (find_sub (lit "\C") pattern)
  then None
  else match re2_new pattern with
       | Some result => if (9 <? re2_groups result)%nat then None else Some result
       | None => None
       end.

(** The loop over [value]; each case consumes what the index skips. *)
Fixpoint capture_template (value : bytes) (groups : Z) : bool :=
  match value with
  | [] => true
  | c :: rest =>
      if (c != "$"%char) || empty rest then capture_template rest groups
      else match rest with
           | d :: rest1 =>
               if d == "$"%char then capture_template rest1 groups
               else if d != "{"%char then capture_template rest groups
               else match rest1 with
                    | n :: e :: rest2 =>
                        if (code n <? code "0") || (code "9" <? code n) || (e != "}"%char) ||
                           (groups <? code n - code "0")
                        then false
                        else capture_template rest2 groups
                    | _ => false
                    end
           | [] => true
           end
  end.

Definition condition_options (source name op value : bytes) : bool :=
  if ((source != lit "header") && (source != lit "query")) || empty name ||
     negb (clean_text name 256) || negb (clean_text value 2048) ||
     ((op != lit "equals") && (op != lit "not_equals") && (op != lit "exists") &&
      (op != lit "absent")) ||
     (((op == lit "exists") || (op == lit "absent")) && negb (empty value))
  then false
  else if (source == lit "header") && negb (http_token name 256) then false
  else true.

(** * UTF-8 *)

(** [while (remaining-- > 0)]: the continuation bytes, and what is left of the input. *)
Fixpoint utf8_tail (remaining : nat) (point : Z) (value : bytes) : option (Z * bytes) :=
  match remaining with
  | O => Some (point, value)
  | S remaining' =>
      match value with
      | [] => None
      | next :: value' =>
          if negb (Z.land (code next) 192 =? 128) then None
          else utf8_tail remaining' (Z.lor (Z.shiftl point 6) (Z.land (code next) 63)) value'
      end
  end.

(** The initial code, the number of continuation bytes and the least code of a lead byte. *)
Definition utf8_lead (first : Z) : option (Z * nat * Z) :=
  if (194 <=? first) && (first <=? 223) then Some (Z.land first 31, 1%nat, 128)
  else if (224 <=? first) && (first <=? 239) then Some (Z.land first 15, 2%nat, 2048)
  else if (240 <=? first) && (first <=? 244) then Some (Z.land first 7, 3%nat, 65536)
  else None.

Fixpoint valid_utf8_from (fuel : nat) (value : bytes) : bool :=
  match fuel with
  | O => false
  | S fuel' =>
      match value with
      | [] => true
      | c :: value' =>
          let first := code c in
          if first <? 128 then valid_utf8_from fuel' value'
          else match utf8_lead first with
               | None => false
               | Some (point, remaining, minimum) =>
                   if (length value' <? remaining)%nat then false
                   else match utf8_tail remaining point value' with
                        | None => false
                        | Some (point, value'') =>
                            if (point <? minimum) || (1114111 <? point) ||
                               ((55296 <=? point) && (point <=? 57343))
                            then false
                            else valid_utf8_from fuel' value''
                        end
               end
      end
  end.
Definition valid_utf8 (value : bytes) : bool := valid_utf8_from (S (length value)) value.

(** * Query strings *)

Fixpoint decode_query_bytes (input : bytes) : option bytes :=
  match input with
  | [] => Some []
  | c :: rest =>
      if c == "+"%char then cons " "%char <$> decode_query_bytes rest
      else if c == "%"%char then
        match rest with
        | h :: l :: rest' =>
            if (nibble h <? 0) || (nibble l <? 0) then None
            else cons (chr (nibble h * 16 + nibble l)) <$> decode_query_bytes rest'
        | _ => None
        end
      else cons c <$> decode_query_bytes rest
  end.

Definition decode_query (input : bytes) : option bytes :=
  match decode_query_bytes input with
  | Some result => if valid_utf8 result then Some result else None
  | None => None
  end.

Abbreviation query_values := (list (bytes * bytes)).

(** One [name=value] part of a query. *)
Definition decode_part (part : bytes) : option (bytes * bytes) :=
  let equal := find_char "=" part in
  match decode_query (upto equal part), decode_query (after equal part) with
  | Some name, Some value => Some (name, value)
  | _, _ => None
  end.

Fixpoint query_loop (fuel : nat) (query : bytes) (result : query_values) : option query_values :=
  match fuel with
  | O => None
  | S fuel' =>
      if empty query then Some result
      else
        let amp := find_char "&" query in
        let part := upto amp query in
        let next result :=
          match amp with
          | None => Some result
          | Some _ => query_loop fuel' (after amp query) result
          end in
        if empty part then next result
        else
          match decode_part part with
          | Some value => next (result ++ [value])
          | None => None
          end
  end.

Definition get_query_values (target : bytes) : option query_values :=
  match find_char "?" target with
  | None => Some []
  | Some question =>
      let query := drop (S question) target in
      query_loop (S (length query)) query []
  end.

(** * UTF-8: the reference encoder *)

Definition scalar (p : Z) : Prop := 0 <= p <= 1114111 /\ ~ (55296 <= p <= 57343).

(** The UTF-8 form of a code point, as RFC 3629 lays it out. *)
Definition utf8_encode (p : Z) : bytes :=
  if p <? 128 then [chr p]
  else if p <? 2048 then [chr (192 + p / 64); chr (128 + p mod 64)]
  else if p <? 65536 then
    [chr (224 + p / 4096); chr (128 + p / 64 mod 64); chr (128 + p mod 64)]
  else
    [chr (240 + p / 262144); chr (128 + p / 4096 mod 64); chr (128 + p / 64 mod 64);
     chr (128 + p mod 64)].

Lemma continuation_spec c :
  negb (Z.land (code c) 192 =? 128) = false <-> 128 <= code c < 192.
Proof.
  pose proof (forall_chars (fun c => Bool.eqb (negb (Z.land (code c) 192 =? 128))
    (negb ((128 <=? code c) && (code c <? 192)))) eq_refl c) as H.
  apply Bool.eqb_prop in H. rewrite H.
  rewrite negb_false_iff, andb_true_iff, Z.leb_le, Z.ltb_lt. done.
Qed.

Lemma continuation_bits c p :
  128 <= code c < 192 ->
  Z.lor (Z.shiftl p 6) (Z.land (code c) 63) = p * 64 + (code c - 128).
Proof.
  intros H. change 63 with (Z.ones 6). rewrite Z.land_ones by lia.
  rewrite lor_shiftl_add by (try apply Z.mod_pos_bound; lia).
  change (2 ^ 6) with 64. Z.div_mod_to_equations; lia.
Qed.

Lemma utf8_tail_cons n p c v :
  128 <= code c < 192 ->
  utf8_tail (S n) p (c :: v) = utf8_tail n (p * 64 + (code c - 128)) v.
Proof.
  intros H. cbn [utf8_tail]. rewrite (proj2 (continuation_spec c) H).
  by rewrite continuation_bits.
Qed.

Lemma utf8_tail_inv n p v q r :
  utf8_tail (S n) p v = Some (q, r) ->
  exists c v', v = c :: v' /\ 128 <= code c < 192 /\
    utf8_tail n (p * 64 + (code c - 128)) v' = Some (q, r).
Proof.
  destruct v as [|c v']; [done|]. cbn [utf8_tail].
  destruct (negb (Z.land (code c) 192 =? 128)) eqn:E; [done|].
  apply continuation_spec in E. rewrite continuation_bits by done. eauto.
Qed.

Lemma utf8_lead_inv first p n m :
  utf8_lead first = Some (p, n, m) ->
  194 <= first <= 223 /\ p = first - 192 /\ n = 1%nat /\ m = 128 \/
  224 <= first <= 239 /\ p = first - 224 /\ n = 2%nat /\ m = 2048 \/
  240 <= first <= 244 /\ p = first - 240 /\ n = 3%nat /\ m = 65536.
Proof.
  unfold utf8_lead. change 31 with (Z.ones 5). change 15 with (Z.ones 4).
  change 7 with (Z.ones 3). rewrite !Z.land_ones by lia.
  intros H. repeat step_if; [left|right; left|right; right];
    (split_and!; [lia|lia| |done|done]); Z.div_mod_to_equations; lia.
Qed.

Lemma utf8_lead_eq first p n m :
  (194 <= first <= 223 /\ p = first - 192 /\ n = 1%nat /\ m = 128 \/
   224 <= first <= 239 /\ p = first - 224 /\ n = 2%nat /\ m = 2048 \/
   240 <= first <= 244 /\ p = first - 240 /\ n = 3%nat /\ m = 65536) ->
  utf8_lead first = Some (p, n, m).
Proof.
  unfold utf8_lead. change 31 with (Z.ones 5). change 15 with (Z.ones 4).
  change 7 with (Z.ones 3). rewrite !Z.land_ones by lia.
  intros H. repeat step_if; try lia; f_equal; f_equal; try f_equal; try lia;
    Z.div_mod_to_equations; lia.
Qed.

(** The loop consumes exactly one encoded code point at a time. *)
Lemma valid_utf8_encode fuel p rest :
  scalar p -> valid_utf8_from (S fuel) (utf8_encode p ++ rest) = valid_utf8_from fuel rest.
Proof.
  intros [Hp Hs]. unfold utf8_encode.
  assert (forall point minimum, point = p -> minimum <= p ->
    (point <? minimum) || (1114111 <? point) || ((55296 <=? point) && (point <=? 57343)) = false)
    as Hok.
  { intros point minimum -> Hm. rewrite !orb_false_iff, andb_false_iff, !Z.ltb_ge, !Z.leb_gt. lia. }
  repeat case_match; reflect_bool; cbn [app valid_utf8_from].
  - rewrite code_chr, (proj2 (Z.ltb_lt p 128)) by lia. done.
  - rewrite code_chr, (proj2 (Z.ltb_ge _ 128)) by (Z.div_mod_to_equations; lia).
    erewrite utf8_lead_eq by (left; split_and!; try done; Z.div_mod_to_equations; lia).
    simpl length. cbn [Nat.ltb Nat.leb].
    rewrite utf8_tail_cons by (rewrite code_chr by (Z.div_mod_to_equations; lia);
      Z.div_mod_to_equations; lia). cbn [utf8_tail].
    rewrite code_chr by (Z.div_mod_to_equations; lia).
    rewrite Hok by (Z.div_mod_to_equations; lia). done.
  - rewrite code_chr, (proj2 (Z.ltb_ge _ 128)) by (Z.div_mod_to_equations; lia).
    erewrite utf8_lead_eq by (right; left; split_and!; try done; Z.div_mod_to_equations; lia).
    simpl length. cbn [Nat.ltb Nat.leb].
    rewrite !utf8_tail_cons by (rewrite code_chr by (Z.div_mod_to_equations; lia);
      Z.div_mod_to_equations; lia). cbn [utf8_tail].
    rewrite !code_chr by (Z.div_mod_to_equations; lia).
    rewrite Hok by (Z.div_mod_to_equations; lia). done.
  - rewrite code_chr, (proj2 (Z.ltb_ge _ 128)) by (Z.div_mod_to_equations; lia).
    erewrite utf8_lead_eq by (right; right; split_and!; try done; Z.div_mod_to_equations; lia).
    simpl length. cbn [Nat.ltb Nat.leb].
    rewrite !utf8_tail_cons by (rewrite code_chr by (Z.div_mod_to_equations; lia);
      Z.div_mod_to_equations; lia). cbn [utf8_tail].
    rewrite !code_chr by (Z.div_mod_to_equations; lia).
    rewrite Hok by (Z.div_mod_to_equations; lia). done.
Qed.

Lemma chr_eq c z : code c = z -> chr z = c.
Proof. intros <-. apply chr_code. Qed.

Lemma scalar_test point minimum :
  (point <? minimum) || (1114111 <? point) || ((55296 <=? point) && (point <=? 57343)) = false ->
  0 <= minimum -> scalar point /\ minimum <= point.
Proof.
  rewrite !orb_false_iff, andb_false_iff, !Z.ltb_ge, !Z.leb_gt. unfold scalar. lia.
Qed.

Lemma valid_utf8_inv fuel c v :
  valid_utf8_from (S fuel) (c :: v) = true ->
  exists p rest, scalar p /\ c :: v = utf8_encode p ++ rest /\ valid_utf8_from fuel rest = true.
Proof.
  cbn [valid_utf8_from]. pose proof (code_range c) as Hc.
  destruct (code c <? 128) eqn:E; reflect_bool.
  { intros H. exists (code c), v. split_and!; [split; lia| |done].
    unfold utf8_encode. rewrite (proj2 (Z.ltb_lt _ _)) by done. by rewrite chr_code. }
  destruct (utf8_lead (code c)) as [[[p n] m]|] eqn:L; [|done].
  destruct (length v <? n)%nat; [done|].
  destruct (utf8_tail n p v) as [[q r]|] eqn:T; [|done].
  destruct ((q <? m) || _ || _) eqn:V; [done|]. intros Hr.
  apply utf8_lead_inv in L as L'.
  apply scalar_test in V as [Hs Hm]; [|lia]. clear L.
  exists q, r. split_and!; [done| |done]. unfold utf8_encode.
  destruct L' as [(H1 & -> & -> & ->)|[(H1 & -> & -> & ->)|(H1 & -> & -> & ->)]].
  - apply utf8_tail_inv in T as (c1 & v1 & -> & B1 & [= <- <-]).
    rewrite (proj2 (Z.ltb_ge _ 128)), (proj2 (Z.ltb_lt _ 2048)) by lia. simpl.
    rewrite !(chr_eq c), !(chr_eq c1) by (Z.div_mod_to_equations; lia). done.
  - apply utf8_tail_inv in T as (c1 & v1 & -> & B1 & T).
    apply utf8_tail_inv in T as (c2 & v2 & -> & B2 & [= <- <-]).
    rewrite (proj2 (Z.ltb_ge _ 128)), (proj2 (Z.ltb_ge _ 2048)), (proj2 (Z.ltb_lt _ 65536)) by lia.
    simpl.
    rewrite !(chr_eq c), !(chr_eq c1), !(chr_eq c2) by (Z.div_mod_to_equations; lia). done.
  - apply utf8_tail_inv in T as (c1 & v1 & -> & B1 & T).
    apply utf8_tail_inv in T as (c2 & v2 & -> & B2 & T).
    apply utf8_tail_inv in T as (c3 & v3 & -> & B3 & [= <- <-]).
    rewrite (proj2 (Z.ltb_ge _ 128)), (proj2 (Z.ltb_ge _ 2048)), (proj2 (Z.ltb_ge _ 65536)) by lia.
    simpl.
    rewrite !(chr_eq c), !(chr_eq c1), !(chr_eq c2), !(chr_eq c3)
      by (Z.div_mod_to_equations; lia). done.
Qed.

Lemma utf8_encode_length p : (1 <= length (utf8_encode p))%nat.
Proof. unfold utf8_encode. repeat case_match; simpl; lia. Qed.

Lemma valid_utf8_from_spec fuel v :
  (length v < fuel)%nat ->
  valid_utf8_from fuel v = true <->
  exists ps, Forall scalar ps /\ v = concat (map utf8_encode ps).
Proof.
  revert v. induction fuel as [|fuel IH]; intros v Hf; [lia|]. split.
  - destruct v as [|c v]; [by exists []|].
    intros (p & rest & Hp & Hv & Hr)%valid_utf8_inv.
    pose proof (utf8_encode_length p). pose proof (f_equal length Hv) as Hl.
    rewrite length_app in Hl. apply IH in Hr as (ps & Hps & Hc); [|lia].
    exists (p :: ps). split; [by constructor|]. simpl. by rewrite <- Hc.
  - intros (ps & Hps & ->). destruct Hps as [|p ps Hp Hps]; [done|].
    change (concat (map utf8_encode (p :: ps))) with (utf8_encode p ++ concat (map utf8_encode ps)) in *.
    rewrite valid_utf8_encode by done. apply IH; [|eauto].
    rewrite length_app in Hf. pose proof (utf8_encode_length p). lia.
Qed.

(** The validator accepts a text exactly when it is a sequence of encoded Unicode scalar
    values: overlong forms, surrogates, values past U+10FFFF and cut sequences are refused. *)
Theorem valid_utf8_spec v :
  valid_utf8 v = true <-> exists ps, Forall scalar ps /\ v = concat (map utf8_encode ps).
Proof. apply valid_utf8_from_spec. lia. Qed.

(** * Query strings: the reference encoder *)

(** Percent-encoding of every byte. *)
Definition percent_encode (s : bytes) : bytes :=
  concat (map (fun c => ["%"%char; hex_digit (Z.shiftr (code c) 4); hex_digit (Z.land (code c) 15)]) s).

Lemma decode_percent s : decode_query_bytes (percent_encode s) = Some s.
Proof.
  induction s as [|c s IH]; [done|].
  destruct (hex_digit_lower c) as (H1 & H2 & H3 & H4 & H5).
  change (percent_encode (c :: s)) with
    ("%"%char :: hex_digit (Z.shiftr (code c) 4) :: hex_digit (Z.land (code c) 15) :: percent_encode s).
  cbn [decode_query_bytes]. rewrite (bool_decide_eq_false_2 ("%"%char = "+"%char)) by done.
  rewrite (bool_decide_eq_true_2 ("%"%char = "%"%char)) by done.
  rewrite H1, H2, IH.
  rewrite (proj2 (Z.ltb_ge _ _) H4), (proj2 (Z.ltb_ge _ _) H5).
  cbn [orb fmap option_fmap option_map]. do 2 f_equal. apply chr_eq.
  rewrite <- H3 at 1. apply (lor_shiftl_add _ _ 4); [lia|].
  change 15 with (Z.ones 4). rewrite Z.land_ones by lia. by apply Z.mod_pos_bound.
Qed.

Lemma decode_query_percent s : valid_utf8 s = true -> decode_query (percent_encode s) = Some s.
Proof. intros H. unfold decode_query. by rewrite decode_percent, H. Qed.

(** What decoding yields is always valid UTF-8, and never longer than the input. *)
Lemma decode_query_valid s r : decode_query s = Some r -> valid_utf8 r = true.
Proof. unfold decode_query. repeat case_match; naive_solver. Qed.

Lemma percent_encode_clean d s :
  d ∉ hex_digits -> d <> "%"%char -> d ∉ percent_encode s.
Proof.
  intros Hd Hp. unfold percent_encode. induction s as [|c s IH]; [apply not_elem_of_nil|].
  simpl. rewrite !elem_of_cons.
  assert (forall c, hex_digit (Z.shiftr (code c) 4) ∈ hex_digits /\
                    hex_digit (Z.land (code c) 15) ∈ hex_digits) as Hh.
  { intros x. pose proof (forall_chars (fun c => bool_decide (
      hex_digit (Z.shiftr (code c) 4) ∈ hex_digits /\
      hex_digit (Z.land (code c) 15) ∈ hex_digits)) eq_refl x) as Hx.
    by apply bool_decide_eq_true in Hx. }
  destruct (Hh c) as [Hh1 Hh2]. intros [->|[->|[->|Hin]]]; try done; by apply IH.
Qed.

Definition nonempty (s : bytes) : Prop := empty s = false.
#[export] Instance nonempty_dec s : Decision (nonempty s) := decide (empty s = false).

Lemma query_loop_spec fuel q acc :
  (length q < fuel)%nat ->
  query_loop fuel q acc = app acc <$> mapM decode_part (filter nonempty (split_on "&" q)).
Proof.
  revert q acc. induction fuel as [|fuel IH]; intros q acc Hf; [lia|].
  cbn [query_loop]. destruct q as [|x q]; [simpl; by rewrite app_nil_r|].
  change (empty (x :: q)) with false. cbv iota.
  remember (x :: q) as v eqn:Hv. clear Hv x q.
  rewrite (split_on_step "&" v).
  assert (forall n, find_char "&" v = Some n -> (length (drop (S n) v) < fuel)%nat) as Hlt.
  { intros n E%find_char_lt. rewrite length_drop. lia. }
  destruct (find_char "&" v) as [n|] eqn:E; cbn [upto after].
  - rewrite filter_cons. specialize (Hlt n eq_refl).
    destruct (empty (take n v)) eqn:P.
    + rewrite decide_False by (unfold nonempty; congruence). by apply IH.
    + rewrite decide_True by done. simpl.
      destruct (decode_part (take n v)); [|done]. rewrite IH by done. simpl.
      destruct (mapM _ _); simpl; [|done]. by rewrite <- app_assoc.
  - rewrite filter_cons. destruct (empty v) eqn:P.
    + rewrite decide_False by (unfold nonempty; congruence). simpl. by rewrite app_nil_r.
    + rewrite decide_True by done. simpl. by destruct (decode_part v).
Qed.

(** The query of a target is the list of its non-empty parts, decoded in order. *)
Lemma get_query_values_spec target :
  get_query_values target =
  match find_char "?" target with
  | None => Some []
  | Some q => mapM decode_part (filter nonempty (split_on "&" (drop (S q) target)))
  end.
Proof.
  unfold get_query_values. destruct (find_char "?" target); [|done].
  rewrite query_loop_spec by lia. by destruct (mapM _ _).
Qed.

Definition render_pair (p : bytes * bytes) : bytes :=
  percent_encode (p.1) ++ lit "=" ++ percent_encode (p.2).

Lemma render_pair_part p :
  valid_utf8 (p.1) = true -> valid_utf8 (p.2) = true ->
  decode_part (render_pair p) = Some p /\ "&"%char ∉ render_pair p /\ nonempty (render_pair p).
Proof.
  destruct p as [n v]. unfold render_pair, decode_part. cbn [fst snd]. intros Hn Hv.
  change (lit "=" ++ percent_encode v) with ("="%char :: percent_encode v).
  rewrite find_char_app_upto, find_char_app_after by (by apply percent_encode_clean; [vm_compute; set_solver|]).
  rewrite !decode_query_percent by done. split_and!; [done| |].
  - rewrite not_elem_of_app, not_elem_of_cons.
    split_and!; [|done|]; apply percent_encode_clean; try done; vm_compute; set_solver.
  - unfold nonempty. by destruct (percent_encode n).
Qed.

(** Parsing the query of a target inverts rendering it: any list of UTF-8 names and values,
    percent-encoded after any path without a question mark, is read back unchanged. *)
Theorem get_query_values_render path pairs :
  "?"%char ∉ path ->
  Forall (fun p => valid_utf8 (p.1) = true /\ valid_utf8 (p.2) = true) pairs ->
  get_query_values (path ++ lit "?" ++ join (lit "&") (map render_pair pairs)) = Some pairs.
Proof.
  intros Hp Hall. rewrite get_query_values_spec.
  change (lit "?" ++ ?r) with ("?"%char :: r). rewrite find_char_dot_drop by done.
  rewrite drop_S_app.
  destruct pairs as [|p pairs]; [done|]. set (ps := p :: pairs) in *.
  assert (Forall (fun s => "&"%char ∉ s) (map render_pair ps)) as Hamp.
  { apply Forall_forall. intros s (q & -> & Hq)%list_elem_of_fmap.
    rewrite Forall_forall in Hall. destruct (Hall q Hq). by apply render_pair_part. }
  change (lit "&") with ["&"%char]. rewrite split_join by done.
  clearbody ps. clear Hamp. induction Hall as [|q qs [H1 H2] _ IH]; [done|].
  destruct (render_pair_part q H1 H2) as (Hd & _ & Hne). simpl map.
  rewrite filter_cons, decide_True by done. simpl. rewrite Hd. simpl. by rewrite IH.
Qed.

Lemma get_query_values_render_witness :
  get_query_values (lit "/a" ++ lit "?" ++ join (lit "&")
    (map render_pair [(lit "k&", lit "v=1"); (lit "", lit "é")])) =
  Some [(lit "k&", lit "v=1"); (lit "", lit "é")].
Proof.
  apply (get_query_values_render (lit "/a") [(lit "k&", lit "v=1"); (lit "", lit "é")]).
  - by_decision.
  - repeat constructor.
Defined.

(** * An engine for concrete inputs

    Patterns are plain texts matched anywhere; the one group captures what follows the text. *)
Definition text_engine : Re2 := {|
  re2 := bytes;
  re2_new := Some;
  re2_groups _ := 1%nat;
  re2_match p s := (fun n => [p; drop (n + length p) s]) <$> find_sub p s
|}.

Lemma find_sub_spec sub s n : find_sub sub s = Some n -> exists a, s = a ++ sub ++ drop (n + length sub) s.
Proof.
  revert n. induction s as [|x s IH]; intros n; cbn [find_sub].
  - destruct (starts_with [] sub) eqn:E; [|done]. intros [= <-]. exists [].
    apply starts_with_spec in E as [r Hr]. cbn [app Nat.add]. by rewrite Hr, drop_app_length.
  - destruct (starts_with (x :: s) sub) eqn:E.
    + intros [= <-]. exists []. apply starts_with_spec in E as [r Hr]. cbn [app Nat.add].
      by rewrite Hr, drop_app_length.
    + destruct (find_sub sub s) as [m|] eqn:Em; [|done]. intros [= <-].
      destruct (IH m eq_refl) as [a Ha]. exists (x :: a). cbn. by rewrite <- Ha.
Qed.

Lemma text_engine_laws : @Re2Laws text_engine.
Proof.
  split; intros p s cs; cbn.
  - destruct (find_sub p s); [|done]. by intros [= <-].
  - intros c Hm Hc. destruct (find_sub p s) as [n|] eqn:E; [|done]. simplify_eq/=.
    destruct (find_sub_spec p s n E) as [a Ha]. apply elem_of_cons in Hc as [->|Hc%elem_of_cons].
    + eauto.
    + destruct Hc as [->|[]%not_elem_of_nil]. exists (a ++ p), []. by rewrite app_nil_r, <- app_assoc.
Qed.
