(* ===== verification/CacheUrl.v ===== *)
(** Absolute URLs of cache operations: src/common/cache_url.h. *)
From S2P Require Import Prelude RoutePolicy.
Open Scope Z_scope.

Record url := {
  scheme_ : bytes;
  authority_ : bytes;
  hostname_ : bytes;
  target_ : bytes;
  value_ : bytes
}.

(** [std::stoi] of at most five decimal digits. *)
Definition port_number (port : bytes) : Z := undec port.

Definition port_ok (port : bytes) : bool :=
  negb (empty port || (5 <? size port) || negb (forallb is_digit port) ||
        (port_number port <? 1) || (65535 <? port_number port)).

Definition default_port (scheme : bytes) (port : Z) : bool :=
  ((scheme == lit "http") && (port =? 80)) || ((scheme == lit "https") && (port =? 443)).

Definition forbidden_char (c : ascii) : bool := (code c <=? 32) || (code c =? 127).

Definition parse_url (value : bytes) : option url :=
  if (4096 <? size value) || present (find_char "#" value) || existsb forbidden_char value
  then None
  else match find_sub (lit "://") value with
  | None => None
  | Some separator =>
      let scheme := take separator value in
      if (scheme != lit "http") && (scheme != lit "https") then None
      else
        let rest := drop (separator + 3) value in
        let stop := find_first_of (lit "/?") rest in
        let authority := upto stop rest in
        if empty authority || present (find_first_of (lit "@\") authority) then None
        else
          let colon := find_char ":" authority in
          let host := upto colon authority in
          if negb (exact_hostname host) then None
          else if present colon && negb (port_ok (after colon authority)) then None
          else
            let target := match stop with None => lit "/" | Some n => drop n rest end in
            let target := if first_is "?" target then lit "/" ++ target else target in
            let authority' :=
              match colon with
              | None => hostname host
              | Some _ =>
                  let port := port_number (after colon authority) in
                  if negb (default_port scheme port)
                  then hostname host ++ lit ":" ++ dec port
                  else hostname host
              end in
            Some {| scheme_ := scheme; authority_ := authority'; hostname_ := hostname host;
                    target_ := target; value_ := scheme ++ lit "://" ++ authority' ++ target |}
  end.

(** * Normal form *)

Lemma not_mem_char c s : mem_char c s = false <-> c ∉ s.
Proof.
  unfold mem_char. rewrite <- not_true_iff_false, existsb_exists.
  split.
  - intros H Hin. apply H. exists c. split; [by apply list_elem_of_In|]. by apply bool_decide_eq_true.
  - intros H (x & Hx & E). reflect_bool. subst. by apply H, list_elem_of_In.
Qed.

(** The characters of a hostname: label characters and dots. *)
Definition host_char (c : ascii) : bool := label_char c || (c == "."%char).

Lemma exact_hostname_chars v :
  exact_hostname v = true -> Forall (fun c => host_char c = true) v.
Proof.
  intros (_ & labels & _ & Hl & Hv)%exact_hostname_spec.
  assert (Forall (fun c => host_char c = true) (join (lit ".") labels)) as Hj.
  { clear Hv. induction Hl as [|l ls Hl Hls IH]; [constructor|].
    assert (Forall (fun c => host_char c = true) l).
    { apply (Forall_impl _ _ _ (label_chars _ Hl)).
      intros c Hc. cbv beta in Hc. unfold host_char. by rewrite Hc. }
    destruct ls as [|m ls]; simpl in *; [done|].
    apply Forall_app; split; [done|]. by constructor. }
  destruct Hv as [-> | ->]; [done|]. apply Forall_app; split; [done|]. by repeat constructor.
Qed.

Lemma exact_hostname_not_nil v : exact_hostname v = true -> v <> [].
Proof. by intros H ->. Qed.

Lemma host_char_ok c :
  host_char c = true ->
  forbidden_char c = false /\ mem_char c (lit "/?") = false /\ mem_char c (lit "@\") = false /\
  c <> ":"%char /\ c <> "#"%char.
Proof.
  intros H. pose proof (forall_chars (fun c => implb (host_char c)
    (negb (forbidden_char c) && negb (mem_char c (lit "/?")) && negb (mem_char c (lit "@\")) &&
     (c != ":"%char) && (c != "#"%char))) eq_refl c) as Hc.
  cbv beta in Hc. rewrite H in Hc. cbn [implb] in Hc. reflect_bool. by split_and!.
Qed.

Lemma digit_char_ok c :
  is_digit c = true -> host_char c = true.
Proof.
  intros H. pose proof (forall_chars (fun c => implb (is_digit c) (host_char c)) eq_refl c) as Hc.
  cbv beta in Hc. by rewrite H in Hc.
Qed.

(** An authority: a hostname, perhaps with a port. *)
Definition authority_of (h : bytes) (port : option Z) : bytes :=
  h ++ match port with None => [] | Some p => lit ":" ++ dec p end.

Lemma authority_chars h port :
  Forall (fun c => host_char c = true) h -> (forall p, port = Some p -> 0 <= p) ->
  Forall (fun c => host_char c = true \/ c = ":"%char) (authority_of h port).
Proof.
  intros Hh Hp. apply Forall_app; split; [eapply Forall_impl; [done|]; auto|].
  destruct port as [p|]; [|constructor]. constructor; [by right|].
  eapply Forall_impl; [by apply dec_digits, Hp|]. intros c Hc. left. by apply digit_char_ok.
Qed.

Lemma find_first_of_authority auth target :
  Forall (fun c => host_char c = true \/ c = ":"%char) auth -> first_is "/" target = true ->
  find_first_of (lit "/?") (auth ++ target) = Some (length auth).
Proof.
  intros Ha Ht. destruct target as [|t target]; [done|]. simpl in Ht. reflect_bool. subst t.
  unfold find_first_of. apply find_if_app; [|done].
  eapply Forall_impl; [done|]. intros c [Hc| ->]; [|done]. by apply host_char_ok in Hc as (_ & H & _).
Qed.

Lemma dec_port p : 1 <= p <= 65535 -> port_ok (dec p) = true.
Proof.
  intros Hp. unfold port_ok, port_number. rewrite undec_dec by lia.
  rewrite negb_true_iff, !orb_false_iff, !Z.ltb_ge, negb_false_iff.
  pose proof (dec_spec p ltac:(lia)) as (Hv & Hd & Hn & Hh). split_and!; [| | |lia|lia].
  - by destruct (dec p).
  - (* no leading zero, so six digits would make 100000 *)
    destruct (dec p) as [|c ds] eqn:E; [done|].
    specialize (Hh ltac:(lia)). simpl in Hh.
    apply Forall_cons in Hd as [Hc Hds]. apply is_digit_spec in Hc as Hc'.
    pose proof (undec_from_bound (code c - 48) ds ltac:(lia) Hds) as Hb.
    change (undec_from (code c - 48) ds) with (undec (c :: ds)) in Hb. rewrite Hv in Hb.
    assert (code c <> 48) by (intros Hc0; apply Hh; f_equal; by apply code_inj).
    destruct (Z.le_gt_cases (size (c :: ds)) 5); [done|].
    assert (5 <= size ds) by (unfold size in *; simpl in *; lia).
    assert (10 ^ 5 <= 10 ^ size ds) by (apply Z.pow_le_mono_r; lia).
    change (10 ^ 5) with 100000 in *. nia.
  - by apply forallb_Forall.
Qed.

(** What a parsed URL is made of. *)
Record url_parts (u : url) (port : option Z) : Prop := {
  parts_scheme : scheme_ u = lit "http" \/ scheme_ u = lit "https";
  parts_host : exact_hostname (hostname_ u) = true;
  parts_host_normal : hostname (hostname_ u) = hostname_ u;
  parts_port : forall p, port = Some p -> 1 <= p <= 65535 /\ default_port (scheme_ u) p = false;
  parts_authority : authority_ u = authority_of (hostname_ u) port;
  parts_target : first_is "/" (target_ u) = true;
  parts_target_chars : Forall (fun c => forbidden_char c = false /\ c <> "#"%char) (target_ u);
  parts_value : value_ u = scheme_ u ++ lit "://" ++ authority_ u ++ target_ u
}.

Lemma parse_url_parts v u : parse_url v = Some u -> exists port, url_parts u port.
Proof.
  unfold parse_url. intros H.
  destruct (_ || existsb forbidden_char v) eqn:Hchars; [done|].
  rewrite !orb_false_iff in Hchars. destruct Hchars as [[_ Hhash] Hforb].
  destruct (find_sub (lit "://") v) as [sep|]; [|done].
  destruct (_ && (take sep v != lit "https")) eqn:Hscheme; [done|].
  set (rest := drop (sep + 3) v) in *.
  set (stop := find_first_of (lit "/?") rest) in *.
  destruct (empty (upto stop rest) || _) eqn:Hauth; [done|].
  set (colon := find_char ":" (upto stop rest)) in *.
  destruct (exact_hostname (upto colon (upto stop rest))) eqn:Hhost; simpl negb in H; [|done].
  destruct (present colon && _) eqn:Hport; [done|]. simplify_eq/=.
  exists (match colon with None => None | Some _ =>
    let p := port_number (after colon (upto stop rest)) in
    if default_port (take sep v) p then None else Some p end).
  destruct (hostname_normal _ Hhost) as (_ & He & Hi).
  assert (Forall (fun c => forbidden_char c = false /\ c <> "#"%char) v) as Hv.
  { apply Forall_and; split; [by apply existsb_false|].
    apply Forall_forall. intros c Hc ->. destruct (find_char "#" v) eqn:E; [done|].
    by apply find_char_None in E. }
  split; simpl.
  - apply andb_false_iff in Hscheme. destruct Hscheme as [Hs|Hs]; reflect_bool; auto.
  - done.
  - done.
  - intros p Hp. destruct colon as [n|]; [|done]. simpl in Hport. reflect_bool.
    destruct (default_port _ _) eqn:Hd; simplify_eq/=.
    unfold port_ok in Hport. reflect_bool. split; [lia|done].
  - unfold authority_of. destruct colon; simpl; [|by rewrite app_nil_r].
    destruct (default_port _ _); simpl; by rewrite ?app_nil_r.
  - destruct stop as [n|] eqn:Hs; [|done].
    apply find_if_Some in Hs as (a & x & b & Hr & Hl & Hx & _).
    rewrite Hr, <- Hl, drop_app_length. simpl.
    destruct (decide (x = "?"%char)) as [->|Hq]; [done|].
    rewrite bool_decide_eq_false_2 by done. unfold mem_char in Hx. simpl in *.
    rewrite orb_false_r, orb_true_iff in Hx. destruct Hx as [Hx|Hx]; reflect_bool; subst; done.
  - assert (Forall (fun c => forbidden_char c = false /\ c <> "#"%char)
      (match stop with None => lit "/" | Some n => drop n rest end)) as Ht.
    { destruct stop; [|repeat constructor; done]. by apply Forall_drop, Forall_drop. }
    destruct (first_is "?" _); [|done]. by constructor.
  - done.
Qed.

Lemma find_separator u r :
  scheme_ u = lit "http" \/ scheme_ u = lit "https" ->
  find_sub (lit "://") (scheme_ u ++ lit "://" ++ r) = Some (length (scheme_ u)) /\
  drop (length (scheme_ u) + 3) (scheme_ u ++ lit "://" ++ r) = r.
Proof. intros [-> | ->]; split; vm_compute; reflexivity. Qed.

Lemma parse_authority (h : bytes) port :
  exact_hostname h = true -> (forall p, port = Some p -> 1 <= p <= 65535) ->
  upto (find_char ":" (authority_of h port)) (authority_of h port) = h /\
  (present (find_char ":" (authority_of h port)) = present port) /\
  (forall p, port = Some p -> after (find_char ":" (authority_of h port)) (authority_of h port) = dec p).
Proof.
  intros Hh Hp. unfold authority_of. destruct port as [p|].
  - assert (":"%char ∉ h) by by apply exact_hostname_no_colon.
    change (lit ":" ++ dec p) with (":"%char :: dec p).
    rewrite find_char_app_upto, find_char_app_after by done.
    split_and!; [done| |intros ? [= <-]; done].
    by rewrite find_char_dot_drop.
  - rewrite app_nil_r. rewrite (proj2 (find_char_None _ _)) by (by apply exact_hostname_no_colon).
    done.
Qed.

(** Parsing yields a normal form: the rendered value of a parsed URL, when it is still within
    the size limit, parses to the same URL. Purge requests that spell a resource differently
    therefore name one cache entry. *)
Theorem parse_url_normal v u :
  parse_url v = Some u -> size (value_ u) <= 4096 -> parse_url (value_ u) = Some u.
Proof.
  intros [port H]%parse_url_parts Hsize.
  destruct u as [scheme authority host target value].
  destruct H as [Hs He Hn Hp Ha Ht Htc Hv];
    cbn [scheme_ authority_ hostname_ target_ value_] in *. subst value.
  destruct (find_separator {| scheme_ := scheme; authority_ := authority; hostname_ := host;
    target_ := target; value_ := [] |} (authority ++ target) Hs) as [Hsep Hdrop]. cbn [scheme_] in Hsep, Hdrop.
  assert (forall p, port = Some p -> 1 <= p <= 65535) as Hp1 by naive_solver.
  pose proof (authority_chars host port (exact_hostname_chars _ He)) as Hac.
  specialize (Hac ltac:(intros p E; specialize (Hp1 p E); lia)).
  destruct (parse_authority host port He Hp1) as (Hup & Hpres & Haft).
  rewrite <- Ha in Hac, Hup, Hpres, Haft.
  unfold parse_url. rewrite Hsep, Hdrop. rewrite take_app_length.
  rewrite (proj2 (Z.ltb_ge _ _)) by done.
  assert (Forall (fun c => forbidden_char c = false /\ c <> "#"%char)
    (scheme ++ lit "://" ++ authority ++ target)) as Hall.
  { rewrite !Forall_app. split_and!; [| by repeat constructor | | done].
    - destruct Hs as [-> | ->]; repeat constructor; done.
    - eapply Forall_impl; [done|]. intros c [Hc| ->]; [|done].
      apply host_char_ok in Hc. naive_solver. }
  apply Forall_and in Hall as [Hf Hh].
  rewrite (proj2 (existsb_false _ _)) by done.
  rewrite (proj2 (find_char_None _ _)).
  2:{ intros Hin. rewrite Forall_forall in Hh. by apply (Hh _ Hin). }
  cbn [orb present].
  assert ((scheme != lit "http") && (scheme != lit "https") = false) as -> by
    (destruct Hs as [-> | ->]; reflexivity).
  rewrite find_first_of_authority by done. cbn [upto]. rewrite take_app_length.
  assert (empty authority = false) as ->.
  { apply exact_hostname_not_nil in He. rewrite Ha. by destruct host. }
  assert (find_first_of (lit "@\") authority = None) as ->.
  { apply find_if_None. eapply Forall_impl; [done|]. intros c [Hc| ->]; [|done].
    by apply host_char_ok in Hc as (_ & _ & H & _). }
  cbn [orb present]. rewrite Hup, He, Hpres. simpl negb.
  assert (present port && negb (port_ok (after (find_char ":" authority) authority)) = false) as ->.
  { destruct port as [p|]; [|done]. rewrite (Haft p) by done. by rewrite dec_port by auto. }
  rewrite drop_app_length.
  assert (first_is "?" target = false) as ->.
  { destruct target; [done|]. simpl in *. by reflect_bool; subst. }
  rewrite Hn.
  assert (match find_char ":" authority with
    | Some _ => if negb (default_port scheme (port_number (after (find_char ":" authority) authority)))
        then host ++ lit ":" ++ dec (port_number (after (find_char ":" authority) authority)) else host
    | None => host end = authority) as E.
  { destruct port as [p|].
    - specialize (Hp p eq_refl) as [Hr Hd]. rewrite (Haft p) by done.
      destruct (find_char ":" authority) eqn:E; [|done].
      unfold port_number. rewrite undec_dec by lia. by rewrite Hd.
    - destruct (find_char ":" authority); [done|]. rewrite Ha. unfold authority_of. by rewrite app_nil_r. }
  by rewrite E.
Qed.

Lemma parse_url_normal_witness :
  exists u, parse_url (lit "http://EXAMPLE.com.:080?q=1") = Some u /\
    value_ u = lit "http://example.com/?q=1" /\ parse_url (value_ u) = Some u.
Proof.
  destruct (parse_url (lit "http://EXAMPLE.com.:080?q=1")) as [u|] eqn:E; [|vm_compute in E; discriminate].
  exists u. pose proof (parse_url_normal _ _ E) as H. vm_compute in E. injection E as E. subst u.
  split; [reflexivity|]. split; [reflexivity|]. apply H. vm_compute. discriminate.
Defined.
