(* ===== verification/CacheRange.v ===== *)
(** Byte ranges of cached and streamed responses: src/node/data/cache_range.h and
    src/node/data/cache_range_response.h. *)
From S2P Require Import Prelude RoutePolicy.
Open Scope Z_scope.

Record cache_byte_range := mk_range {
  offset_ : Z;
  length_ : Z;
  satisfiable_ : bool
}.
#[export] Instance cache_byte_range_eq_dec : EqDecision cache_byte_range.
Proof. solve_decision. Defined.

Definition unsatisfiable : cache_byte_range := mk_range 0 0 false.

(** [std::from_chars] of an unsigned 64-bit number: the leading digits and what follows them,
    [None] for an error code (no digits, or a value out of range). *)
Fixpoint digit_prefix (value : bytes) : bytes * bytes :=
  match value with
  | c :: value' =>
      if is_digit c then let '(ds, rest) := digit_prefix value' in (c :: ds, rest)
      else ([], value)
  | [] => ([], [])
  end.
Definition from_chars (value : bytes) : option (Z * bytes) :=
  let '(ds, rest) := digit_prefix value in
  if empty ds then None
  else if two64 <=? undec ds then None else Some (undec ds, rest).

Definition range_number (value : bytes) : option Z :=
  match from_chars value with
  | None => None
  | Some (number, rest) => if empty value || negb (empty rest) then None else Some number
  end.

Definition parse_cache_range (field : bytes) (total : Z) : option cache_byte_range :=
  if negb (starts_with field (lit "bytes=")) || present (find_char "," field) then None
  else
    let field := drop 6 field in
    if empty field then Some unsatisfiable
    else match find_char "-" field with
    | None => None
    | Some O =>
        match range_number (drop 1 field) with
        | None => None
        | Some suffix =>
            let length := Z.min suffix total in
            Some (mk_range (u64 (total - length)) length (negb (length =? 0)))
        end
    | Some dash =>
        let start := range_number (take dash field) in
        let tail := drop (S dash) field in
        let stop := if empty tail then Some (if total =? 0 then 0 else total - 1)
                    else range_number tail in
        match start, stop with
        | Some start, Some stop =>
            if (total <=? start) || (stop <? start) then Some unsatisfiable
            else Some (mk_range start (u64 (u64 (Z.min stop (u64 (total - 1)) - start) + 1)) true)
        | _, _ => None
        end
    end.

Record cache_range_selection := mk_selection {
  ranges_ : list cache_byte_range;
  ignore_ : bool;
  multipart_ : bool
}.

(** The [do] loop; [previous] is [previous_end] once a range has been kept. *)
Fixpoint select_loop (fuel : nat) (value : bytes) (total : Z) (partial_file : bool)
    (count : Z) (previous : option Z) (ranges : list cache_byte_range) : cache_range_selection :=
  match fuel with
  | O => mk_selection ranges true false
  | S fuel' =>
      let count := count + 1 in
      if (300 <? count) || (negb partial_file && (count =? 300)) then mk_selection ranges true false
      else
        let comma := find_char "," value in
        let item := trim_ows (upto comma value) in
        match parse_cache_range (lit "bytes=" ++ item) total with
        | None => mk_selection ranges true false
        | Some range =>
            let overlap :=
              match previous with
              | Some previous_end => offset_ range <? previous_end
              | None => false
              end in
            if satisfiable_ range && overlap then mk_selection [] (negb partial_file) false
            else
              let '(previous, ranges) :=
                if satisfiable_ range
                then (Some (u64 (offset_ range + length_ range)), ranges ++ [range])
                else (previous, ranges) in
              match comma with
              | None =>
                  mk_selection ranges false
                    ((1 <? size ranges) || (partial_file && (1 <? count) && negb (empty ranges)))
              | Some _ =>
                  select_loop fuel' (after comma value) total partial_file count previous ranges
              end
        end
  end.

Definition select_cache_ranges (value : bytes) (total : Z) (partial_file : bool) :
    cache_range_selection :=
  if negb (starts_with value (lit "bytes=")) then mk_selection [] true false
  else
    let value := drop 6 value in
    select_loop (S (length value)) value total partial_file 0 None [].

Record origin_content_range := mk_content_range { first_ : Z; last_ : Z; total_ : Z }.

Definition parse_origin_content_range (value : bytes) : option origin_content_range :=
  if negb (starts_with value (lit "bytes ")) then None
  else
    let value := drop 6 value in
    match find_char "-" value, find_char "/" value with
    | Some dash, Some slash =>
        if (slash <=? dash)%nat then None
        else
          match range_number (take dash value),
                range_number (take (slash - dash - 1) (drop (S dash) value)),
                range_number (drop (S slash) value) with
          | Some first, Some last, Some total =>
              if (last <? first) || (total <=? last) then None
              else Some (mk_content_range first last total)
          | _, _, _ => None
          end
    | _, _ => None
    end.

(** * Numbers *)

Lemma digit_prefix_app ds rest :
  Forall (fun c => is_digit c = true) ds ->
  match rest with c :: _ => is_digit c = false | [] => True end ->
  digit_prefix (ds ++ rest) = (ds, rest).
Proof.
  intros Hd Hr. induction Hd as [|c ds Hc _ IH]; simpl.
  - destruct rest as [|c rest]; [done|]. simpl. by rewrite Hr.
  - by rewrite Hc, IH.
Qed.

Lemma digit_prefix_spec value :
  let '(ds, rest) := digit_prefix value in
  value = ds ++ rest /\ Forall (fun c => is_digit c = true) ds.
Proof.
  induction value as [|c value IH]; simpl; [done|].
  destruct (is_digit c) eqn:E; [|done]. destruct (digit_prefix value) as [ds rest].
  destruct IH as [-> H]. split; [done|]. by constructor.
Qed.

Lemma range_number_spec value n :
  range_number value = Some n <->
  value <> [] /\ Forall (fun c => is_digit c = true) value /\ undec value = n /\ n < two64.
Proof.
  unfold range_number, from_chars. split.
  - pose proof (digit_prefix_spec value) as H. destruct (digit_prefix value) as [ds rest].
    destruct H as [-> Hd]. destruct ds as [|c ds]; [done|]. simpl empty at 1. cbv iota.
    destruct (two64 <=? undec (c :: ds)) eqn:E; [done|]. reflect_bool. simpl orb.
    destruct rest; [|done]. intros [= <-]. by rewrite app_nil_r.
  - intros (Hne & Hd & <- & Hlt). rewrite <- (app_nil_r value) at 1.
    rewrite digit_prefix_app by done. destruct value as [|c value]; [done|].
    simpl empty at 1. cbv iota. rewrite (proj2 (Z.leb_gt _ _)) by done. done.
Qed.

Lemma range_number_range value n : range_number value = Some n -> is_u64 n.
Proof. intros (_ & Hd & <- & H)%range_number_spec. split; auto with flexedge. Qed.

Lemma range_number_dec n : is_u64 n -> range_number (dec n) = Some n.
Proof.
  intros [H0 H1]. apply range_number_spec. rewrite undec_dec by done. auto with flexedge.
Qed.

(** * Parsed ranges *)

(** A range that lies inside a representation of [total] bytes. *)
Definition in_bounds (total : Z) (r : cache_byte_range) : Prop :=
  satisfiable_ r = true /\ 0 <= offset_ r /\ 0 < length_ r /\ offset_ r + length_ r <= total.

(** A satisfiable range is a non-empty piece of the representation; no subtraction or addition
    wraps around. *)
Lemma parse_cache_range_bounds field total r :
  is_u64 total -> parse_cache_range field total = Some r -> satisfiable_ r = true ->
  in_bounds total r.
Proof.
  intros Ht H Hs. unfold parse_cache_range in H. unfold in_bounds, is_u64 in *.
  destruct (_ || _); [done|]. destruct (empty _); [by simplify_eq/=|].
  destruct (find_char "-" (drop 6 field)) as [[|dash]|]; [| |done].
  - destruct (range_number _) as [suffix|] eqn:E; [|done]. simplify_eq/=.
    apply range_number_range in E. unfold is_u64 in E. reflect_bool.
    u64_simpl. lia.
  - destruct (range_number (take _ _)) as [start|] eqn:E; [|done].
    apply range_number_range in E. unfold is_u64 in E.
    assert (forall v stop, (if empty v then Some (if total =? 0 then 0 else total - 1)
      else range_number v) = Some stop -> is_u64 stop) as Hstop.
    { intros v stop Hv. unfold is_u64. destruct (empty v).
      - destruct (total =? 0) eqn:E0; simplify_eq/=; reflect_bool; lia.
      - by apply range_number_range in Hv. }
    destruct (if empty _ then _ else _) as [stop|] eqn:F; [|done].
    apply Hstop in F. unfold is_u64 in F. destruct (_ || _) eqn:G; simplify_eq/=.
    reflect_bool. u64_simpl. lia.
Qed.

(** Kept ranges are in bounds, in order and disjoint; [e] bounds the end of the last one. *)
Inductive ascending (total : Z) : Z -> list cache_byte_range -> Prop :=
| ascending_nil s : ascending total s []
| ascending_cons s r rs :
    in_bounds total r -> s <= offset_ r -> ascending total (offset_ r + length_ r) rs ->
    ascending total s (r :: rs).

Fixpoint end_of (s : Z) (rs : list cache_byte_range) : Z :=
  match rs with [] => s | r :: rs => end_of (offset_ r + length_ r) rs end.

Lemma ascending_snoc total s rs r :
  ascending total s rs -> in_bounds total r -> end_of s rs <= offset_ r ->
  ascending total s (rs ++ [r]) /\ end_of s (rs ++ [r]) = offset_ r + length_ r.
Proof.
  induction 1 as [s|s q rs Hq Hs _ IH]; simpl; intros Hr He.
  - split; [|done]. by constructor; [| |constructor].
  - destruct IH as [IH1 IH2]; [done..|]. split; [by constructor|done].
Qed.

Lemma select_loop_ascending fuel value total partial count previous ranges :
  is_u64 total -> ascending total 0 ranges -> size ranges <= count ->
  match previous with Some e => e = end_of 0 ranges | None => ranges = [] end ->
  let r := select_loop fuel value total partial count previous ranges in
  ascending total 0 (ranges_ r) /\ size (ranges_ r) <= 300 `max` count.
Proof.
  intros Ht. revert value count previous ranges.
  induction fuel as [|fuel IH]; intros value count previous ranges Ha Hsz Hp.
  { simpl. split; [done|lia]. }
  cbn [select_loop].
  destruct (_ || (negb partial && _)) eqn:Ec; [simpl; split; [done|lia]|].
  apply orb_false_iff in Ec as [Ec _]. reflect_bool.
  destruct (parse_cache_range _ total) as [r|] eqn:Er; [|simpl; split; [done|lia]].
  destruct (satisfiable_ r && _) eqn:Eo; [simpl; split; [constructor|unfold size; simpl; lia]|].
  destruct (satisfiable_ r) eqn:Es.
  - pose proof (parse_cache_range_bounds _ _ _ Ht Er Es) as Hb.
    assert (end_of 0 ranges <= offset_ r) as He.
    { destruct previous as [e|]; simpl in Eo; reflect_bool; [lia|].
      subst ranges. destruct Hb as (_ & Hb & _). simpl. lia. }
    destruct (ascending_snoc _ _ _ _ Ha Hb He) as [Ha' He'].
    assert (size (ranges ++ [r]) = size ranges + 1) as Hsz'
      by (unfold size; rewrite length_app; simpl; lia).
    destruct (find_char "," value).
    + destruct (IH (after (Some n) value) (count + 1) (Some (u64 (offset_ r + length_ r)))
        (ranges ++ [r])) as [H1 H2]; [done|lia| |split; [done|lia]].
      rewrite He'. apply u64_small. unfold in_bounds, is_u64 in *. lia.
    + simpl. split; [done|lia].
  - destruct (find_char "," value).
    + destruct (IH (after (Some n) value) (count + 1) previous ranges) as [H1 H2];
        [done|lia|done|split; [done|lia]].
    + simpl. split; [done|lia].
Qed.

(** The ranges selected from a request header, whatever its text, are non-empty pieces of
    the representation in increasing order without overlap, and at most 300. *)
Theorem select_cache_ranges_sound value total partial :
  is_u64 total ->
  ascending total 0 (ranges_ (select_cache_ranges value total partial)) /\
  size (ranges_ (select_cache_ranges value total partial)) <= 300.
Proof.
  intros Ht. unfold select_cache_ranges. destruct (negb _); simpl; [split; [constructor|done]|].
  apply (select_loop_ascending (S (length (drop 6 value))) (drop 6 value) total partial 0 None []);
    [done|constructor|done|done].
Qed.

Lemma select_cache_ranges_sound_witness :
  ascending 100 0 (ranges_ (select_cache_ranges (lit "bytes=0-9, 20-29,-5") 100 false)) /\
  map (fun r => (offset_ r, length_ r))
    (ranges_ (select_cache_ranges (lit "bytes=0-9, 20-29,-5") 100 false)) =
    [(0, 10); (20, 10); (95, 5)].
Proof.
  split; [|vm_compute; reflexivity].
  apply (select_cache_ranges_sound (lit "bytes=0-9, 20-29,-5") 100 false).
  unfold is_u64, two64. lia.
Defined.

(** The canonical single ranges parse to what RFC 9110 says they mean. *)
Lemma dec_no_char c n : is_digit c = false -> 0 <= n -> c ∉ dec n.
Proof. intros Hc Hn. eapply not_digit_notin; [done|]. by apply dec_digits. Qed.

(** A [first-last] range inside the representation selects exactly these bytes, cut at the
    end of the representation; one that starts at or past the end, or ends before it starts, is
    unsatisfiable. *)
Theorem parse_cache_range_first_last total first last :
  is_u64 total -> is_u64 first -> is_u64 last ->
  parse_cache_range (lit "bytes=" ++ dec first ++ lit "-" ++ dec last) total =
  Some (if decide (first < total /\ first <= last)
        then mk_range first (Z.min last (total - 1) - first + 1) true
        else unsatisfiable).
Proof.
  intros Ht Hf Hl. unfold parse_cache_range. rewrite starts_with_app.
  assert (find_char "," (lit "bytes=" ++ dec first ++ lit "-" ++ dec last) = None) as ->.
  { apply find_char_None. pose proof (dec_no_char "," first eq_refl (proj1 Hf)).
    pose proof (dec_no_char "," last eq_refl (proj1 Hl)).
    rewrite !not_elem_of_app. split_and!; try done; by_decision. }
  change (drop 6 (lit "bytes=" ++ ?x)) with x. simpl negb. cbn [orb present].
  assert (exists c ds, dec first = c :: ds) as (c & ds & Ed).
  { pose proof (dec_not_nil first (proj1 Hf)). destruct (dec first); [done|eauto]. }
  assert (empty (dec first ++ lit "-" ++ dec last) = false) as -> by by rewrite Ed.
  change (lit "-" ++ dec last) with ("-"%char :: dec last).
  rewrite find_char_dot_drop by (apply dec_no_char; [done|apply Hf]).
  rewrite take_app_length, drop_S_app. rewrite range_number_dec by done.
  assert (empty (dec last) = false) as ->.
  { pose proof (dec_not_nil last (proj1 Hl)). by destruct (dec last). }
  rewrite range_number_dec by done. rewrite Ed. cbn [length].
  unfold is_u64 in *. destruct (_ || _) eqn:E.
  - rewrite decide_False; [done|]. intros [H1 H2]. apply orb_true_iff in E as [E|E]; reflect_bool; lia.
  - reflect_bool. rewrite decide_True by lia.
    u64_simpl. done.
Qed.

Lemma parse_cache_range_first_last_witness :
  parse_cache_range (lit "bytes=" ++ dec 10 ++ lit "-" ++ dec 500) 100 =
  Some (mk_range 10 90 true).
Proof.
  rewrite (parse_cache_range_first_last 100 10 500) by (unfold is_u64, two64; lia). reflexivity.
Defined.

(** * Rendering a header *)

Definition render_range (r : cache_byte_range) : bytes :=
  dec (offset_ r) ++ lit "-" ++ dec (u64 (offset_ r + length_ r - 1)).
Definition render_ranges (rs : list cache_byte_range) : bytes :=
  lit "bytes=" ++ join (lit ",") (map render_range rs).

Lemma render_range_parse total r :
  is_u64 total -> in_bounds total r ->
  parse_cache_range (lit "bytes=" ++ render_range r) total = Some r.
Proof.
  intros Ht Hb. unfold in_bounds, is_u64 in *. destruct r as [o l s].
  unfold render_range. cbn [offset_ length_ satisfiable_] in *.
  destruct Hb as (-> & Ho & Hl & He).
  rewrite parse_cache_range_first_last by (unfold is_u64; u64_simpl; lia).
  u64_simpl. rewrite decide_True by lia. do 2 f_equal. lia.
Qed.

Lemma render_range_chars r c :
  is_digit c = false -> c <> "-"%char -> 0 <= offset_ r -> c ∉ render_range r.
Proof.
  intros Hc Hd Ho. unfold render_range. rewrite !not_elem_of_app. split_and!.
  - by apply dec_no_char.
  - change (lit "-") with ["-"%char]. set_solver.
  - apply dec_no_char; [done|]. apply u64_range.
Qed.

Lemma render_range_trim r : 0 <= offset_ r -> trim_ows (render_range r) = render_range r.
Proof.
  intros Ho. assert (forall c, c ∈ render_range r -> is_ows c = false) as H.
  { intros c Hc. destruct (is_ows c) eqn:E; [|done]. unfold is_ows in E. exfalso.
    apply orb_true_iff in E as [E|E]; reflect_bool; subst c; revert Hc;
      by apply render_range_chars. }
  apply trim_ows_clean.
  - destruct (render_range r) as [|c s]; [done|]. apply H. set_solver.
  - destruct (last (render_range r)) as [c|] eqn:E; [|done].
    apply last_Some in E as [s E]. apply H. rewrite E. set_solver.
Qed.

(** The loop never needs more steps than the text has characters. *)
Lemma select_loop_fuel f1 f2 value total partial count previous ranges :
  (length value < f1)%nat -> (length value < f2)%nat ->
  select_loop f1 value total partial count previous ranges =
  select_loop f2 value total partial count previous ranges.
Proof.
  revert f2 value count previous ranges.
  induction f1 as [|f1 IH]; intros [|f2] value count previous ranges H1 H2; try lia.
  cbn [select_loop]. destruct (_ || (negb partial && _)); [done|].
  destruct (parse_cache_range _ total) as [r|]; [|done].
  destruct (satisfiable_ r && _); [done|].
  destruct (if satisfiable_ r then _ else _) as [p rs].
  destruct (find_char "," value) as [n|] eqn:E; [|done].
  apply find_char_lt in E. cbn [after]. pose proof (drop_S_lt n value E). apply IH; lia.
Qed.

Lemma select_loop_render fuel rs total partial count previous ranges :
  is_u64 total -> rs <> [] -> ascending total (default 0 previous) rs ->
  (match previous with Some e => 0 <= e | None => True end) ->
  count + size rs < 300 ->
  (length (join (lit ",") (map render_range rs)) < fuel)%nat ->
  select_loop fuel (join (lit ",") (map render_range rs)) total partial count previous ranges =
  mk_selection (ranges ++ rs) false
    ((1 <? size (ranges ++ rs)) || (partial && (1 <? count + size rs) && negb (empty (ranges ++ rs)))).
Proof.
  intros Ht. revert rs count previous ranges.
  induction fuel as [|fuel IH]; intros rs count previous ranges Hne Ha Hp Hc Hf; [lia|].
  inversion Ha as [|s r rs' Hr Hs Ha']; [congruence|]. subst s rs.
  assert (0 <= offset_ r) as Ho by (unfold in_bounds in Hr; lia).
  assert (size (r :: rs') = size rs' + 1) as Hsz by (unfold size; simpl; lia).
  assert (0 <= size rs') by (unfold size; lia).
  cbn [select_loop].
  assert ((300 <? count + 1) || (negb partial && (count + 1 =? 300)) = false) as ->.
  { rewrite orb_false_iff, andb_false_iff, Z.ltb_ge, Z.eqb_neq. lia. }
  assert (","%char ∉ render_range r) as Hcomma by by apply render_range_chars.
  assert (satisfiable_ r = true) as Hsat by apply Hr.
  assert (upto (find_char "," (join (lit ",") (map render_range (r :: rs'))))
    (join (lit ",") (map render_range (r :: rs'))) = render_range r) as ->.
  { destruct rs' as [|q rs']; cbn [map join].
    - by rewrite (proj2 (find_char_None _ _)).
    - by apply find_char_app_upto. }
  rewrite render_range_trim, render_range_parse by done. rewrite Hsat.
  assert (match previous with Some e => offset_ r <? e | None => false end = false) as ->.
  { destruct previous; [|done]. simpl in Hs. by apply Z.ltb_ge. }
  cbn [andb]. assert (u64 (offset_ r + length_ r) = offset_ r + length_ r) as ->.
  { apply u64_small. unfold in_bounds, is_u64 in *. lia. }
  destruct rs' as [|q rs'].
  - cbn [map join]. rewrite (proj2 (find_char_None _ _)) by done. done.
  - set (rest := q :: rs') in *. assert (rest <> []) as Hrest by done.
    assert (join (lit ",") (map render_range (r :: rest)) =
      render_range r ++ ","%char :: join (lit ",") (map render_range rest)) as Hj by done.
    rewrite Hj in *. clear Hj.
    rewrite find_char_dot_drop, <- (find_char_dot_drop "," (render_range r)
      (join (lit ",") (map render_range rest))), find_char_app_after by done.
    rewrite IH; [|done|done|simpl; unfold in_bounds in Hr; lia|lia|].
    + rewrite <- app_assoc. cbn [app]. rewrite Hsz. do 3 f_equal. f_equal. f_equal. lia.
    + rewrite length_app in Hf. cbn [length] in Hf. lia.
Qed.

(** Selecting inverts rendering: a header that lists fewer than 300 ascending, disjoint
    pieces of the representation selects exactly these pieces, as a multipart response when there
    are several. *)
Theorem select_cache_ranges_render rs total partial :
  is_u64 total -> rs <> [] -> ascending total 0 rs -> size rs < 300 ->
  select_cache_ranges (render_ranges rs) total partial = mk_selection rs false (1 <? size rs).
Proof.
  intros Ht Hne Ha Hs. unfold select_cache_ranges, render_ranges.
  rewrite starts_with_app. change (drop 6 (lit "bytes=" ++ ?x)) with x. cbn [negb].
  rewrite select_loop_render by (done || lia). cbn [app]. f_equal.
  destruct (1 <? size rs) eqn:E; [done|]. rewrite Z.add_0_l, E. by destruct partial.
Qed.

Lemma select_cache_ranges_render_witness :
  select_cache_ranges (render_ranges [mk_range 0 2 true; mk_range 5 5 true]) 10 true =
  mk_selection [mk_range 0 2 true; mk_range 5 5 true] false true.
Proof.
  rewrite (select_cache_ranges_render [mk_range 0 2 true; mk_range 5 5 true] 10 true).
  - reflexivity.
  - unfold is_u64, two64. lia.
  - discriminate.
  - repeat constructor; simpl; lia.
  - unfold size. simpl. lia.
Defined.
