(* ===== verification/CacheRangeResponse.v ===== *)
(** Framing of range responses: src/node/data/cache_range_response.h.

    A response is fed pieces of the representation and yields the client's body: the whole
    representation, one slice of it, or a multipart message. *)
From S2P Require Import Prelude RoutePolicy Hex CacheRange.
Open Scope Z_scope.

Record cache_range_response := mk_response {
  selection_ : cache_range_selection;
  total_ : Z;
  content_type_ : bytes;
  boundary_ : bytes;
  body_length_ : Z;
  index_ : nat;
  consumed_ : Z
}.

Definition crlf : bytes := [chr 13; chr 10].

Section Framing.
(** The members the framing reads; they never change after construction. *)
Variables (boundary content_type : bytes) (total : Z).

Definition prefix_of (index : nat) (range : cache_byte_range) : bytes :=
  (match index with O => lit "--" | S _ => crlf ++ lit "--" end) ++ boundary ++ crlf ++
  (if empty content_type then [] else lit "Content-Type: " ++ content_type ++ crlf) ++
  lit "Content-Range: bytes " ++ dec (offset_ range) ++ lit "-" ++
  dec (u64 (u64 (offset_ range + length_ range) - 1)) ++ lit "/" ++ dec total ++ crlf ++ crlf.

Definition ending_of : bytes := crlf ++ lit "--" ++ boundary ++ lit "--" ++ crlf.

(** The loop of the constructor over [selection_.ranges_]. *)
Fixpoint length_loop (ranges : list cache_byte_range) (index : nat) (multipart : bool) (acc : Z) : Z :=
  match ranges with
  | [] => acc
  | range :: ranges' =>
      let acc := u64 (acc + length_ range) in
      let acc := if multipart then u64 (acc + size (prefix_of index range)) else acc in
      length_loop ranges' (S index) multipart acc
  end.

(** The loop of [consume]; [ranges] is the selection from [index] on. Returns the output, the
    new [index_] and the new [consumed_]. *)
Fixpoint consume_loop (ranges : list cache_byte_range) (index : nat) (consumed : Z)
    (multipart : bool) (input : bytes) (offset : Z) : bytes * nat * Z :=
  match ranges with
  | [] => ([], index, consumed)
  | range :: ranges' =>
      let stop := u64 (offset + size input) in
      let first := Z.max offset (offset_ range) in
      let last := Z.min stop (u64 (offset_ range + length_ range)) in
      if last <=? first then ([], index, consumed)
      else
        let output := if (first =? offset_ range) && multipart then prefix_of index range else [] in
        let output := output ++
          take (Z.to_nat (u64 (last - first))) (drop (Z.to_nat (u64 (first - offset))) input) in
        if negb (last =? u64 (offset_ range + length_ range)) then (output, index, last)
        else
          let output := if empty ranges' && multipart then output ++ ending_of else output in
          let '(rest, index', consumed') :=
            consume_loop ranges' (S index) last multipart input offset in
          (output ++ rest, index', consumed')
  end.
End Framing.

Definition prefix (r : cache_range_response) (index : nat) : bytes :=
  match ranges_ (selection_ r) !! index with
  | Some range => prefix_of (boundary_ r) (content_type_ r) (total_ r) index range
  | None => []
  end.
Definition ending (r : cache_range_response) : bytes := ending_of (boundary_ r).

(** The constructor; [random] is what [RAND_bytes] filled in. *)
Definition new_response (request : bytes) (total : Z) (partial_file : bool) (content_type random : bytes) :
    cache_range_response :=
  let selection := select_cache_ranges request total partial_file in
  let boundary := if multipart_ selection then lit "flexedge-" ++ hex_encode random else [] in
  let length :=
    if ignore_ selection then total
    else
      let n := length_loop boundary content_type total (ranges_ selection) 0 (multipart_ selection) 0 in
      if multipart_ selection then u64 (n + size (ending_of boundary)) else n in
  mk_response selection total content_type boundary length 0 0.

Definition status (r : cache_range_response) : Z :=
  if ignore_ (selection_ r) then 200
  else if empty (ranges_ (selection_ r)) then 416 else 206.
Definition multipart (r : cache_range_response) : bool := multipart_ (selection_ r).
Definition ignored (r : cache_range_response) : bool := ignore_ (selection_ r).
Definition content_type (r : cache_range_response) : bytes :=
  if multipart r then lit "multipart/byteranges; boundary=" ++ boundary_ r else content_type_ r.
Definition content_range (r : cache_range_response) : bytes :=
  if status r =? 416 then lit "bytes */" ++ dec (total_ r)
  else if negb (status r =? 206) || multipart r then []
  else match ranges_ (selection_ r) with
       | range :: _ =>
           lit "bytes " ++ dec (offset_ range) ++ lit "-" ++
           dec (u64 (u64 (offset_ range + length_ range) - 1)) ++ lit "/" ++ dec (total_ r)
       | [] => []
       end.
Definition done (r : cache_range_response) : bool :=
  if ignored r then total_ r <=? consumed_ r
  else (index_ r =? length (ranges_ (selection_ r)))%nat.
Definition next_offset (r : cache_range_response) : Z :=
  if ignored r then consumed_ r
  else match ranges_ (selection_ r) !! index_ r with
       | Some range => Z.max (consumed_ r) (offset_ range)
       | None => total_ r
       end.

Definition consume (r : cache_range_response) (input : bytes) (offset : Z) :
    bytes * cache_range_response :=
  let with_state index consumed :=
    mk_response (selection_ r) (total_ r) (content_type_ r) (boundary_ r) (body_length_ r)
      index consumed in
  if ignored r then (input, with_state (index_ r) (u64 (offset + size input)))
  else
    let '(output, index, consumed) :=
      consume_loop (boundary_ r) (content_type_ r) (total_ r)
        (drop (index_ r) (ranges_ (selection_ r))) (index_ r) (consumed_ r) (multipart r)
        input offset in
    (output, with_state index consumed).

(** * The specification: what the client must receive *)

Definition slice (body : bytes) (first last : Z) : bytes :=
  take (Z.to_nat (last - first)) (drop (Z.to_nat first) body).

Section Rendering.
Context (boundary content_type : bytes) (multipart : bool) (body : bytes).
Abbreviation total := (size body).

(** The rendering of the ranges from [index] on. *)
Fixpoint render_from (ranges : list cache_byte_range) (index : nat) : bytes :=
  match ranges with
  | [] => []
  | r :: ranges' =>
      (if multipart then prefix_of boundary content_type total index r else []) ++
      slice body (offset_ r) (offset_ r + length_ r) ++
      (if empty ranges' && multipart then ending_of boundary else []) ++
      render_from ranges' (S index)
  end.

(** What is still to come when [consumed] bytes have been looked at. *)
Definition remaining (ranges : list cache_byte_range) (index : nat) (consumed : Z) : bytes :=
  match ranges with
  | r :: ranges' =>
      if offset_ r <? consumed then
        slice body consumed (offset_ r + length_ r) ++
        (if empty ranges' && multipart then ending_of boundary else []) ++
        render_from ranges' (S index)
      else render_from ranges index
  | [] => []
  end.
End Rendering.

Lemma slice_app body a b c :
  0 <= a <= b -> b <= c -> c <= size body -> slice body a b ++ slice body b c = slice body a c.
Proof.
  intros H1 H2 H3. unfold slice, size in *.
  replace (Z.to_nat (c - a)) with (Z.to_nat (b - a) + Z.to_nat (c - b))%nat by lia.
  replace (Z.to_nat b) with (Z.to_nat a + Z.to_nat (b - a))%nat by lia.
  rewrite <- drop_drop, take_take_drop. done.
Qed.

Lemma slice_slice body a b c d :
  0 <= a -> a <= c -> c <= d -> d <= b -> 
  slice (slice body a b) (c - a) (d - a) = slice body c d.
Proof.
  intros. unfold slice.
  replace (d - a - (c - a)) with (d - c) by lia.
  rewrite skipn_firstn_comm, drop_drop, take_take.
  f_equal; [lia|]. f_equal. lia.
Qed.

Lemma slice_size body a b : 0 <= a <= b -> b <= size body -> size (slice body a b) = b - a.
Proof. intros. unfold slice, size in *. rewrite length_take, length_drop. lia. Qed.

Lemma slice_all body : slice body 0 (size body) = body.
Proof. unfold slice, size. rewrite drop_0. apply take_ge. lia. Qed.

Lemma slice_nil body a : slice body a a = [].
Proof. unfold slice. by rewrite Z.sub_diag. Qed.

Section Loop.
Context (boundary content_type : bytes) (multipart : bool) (body : bytes).
Abbreviation total := (size body).
Abbreviation loop ranges index consumed := (consume_loop boundary content_type total ranges index consumed multipart).
Abbreviation rem := (remaining boundary content_type multipart body).

(** [consumed] lies before the end of the current range, so the range is not finished. *)
Definition unfinished (ranges : list cache_byte_range) (consumed : Z) : Prop :=
  match ranges with [] => True | r :: _ => consumed < offset_ r + length_ r end.

(** The next byte wanted. *)
Definition wanted (ranges : list cache_byte_range) (consumed : Z) : Z :=
  match ranges with [] => total | r :: _ => Z.max consumed (offset_ r) end.

Hypothesis Htotal : is_u64 total.

Lemma consume_loop_spec ranges s index consumed input offset out index' consumed' :
  ascending total s ranges -> 0 <= s ->
  0 <= offset -> offset + size input <= total ->
  input = slice body offset (offset + size input) ->
  consumed <= offset + size input -> unfinished ranges consumed ->
  (forall r rs, ranges = r :: rs -> Z.max offset (offset_ r) = Z.max consumed (offset_ r)) ->
  loop ranges index consumed input offset = (out, index', consumed') ->
  exists skipped ranges', ranges = skipped ++ ranges' /\ index' = (index + length skipped)%nat /\
    out ++ rem ranges' index' consumed' = rem ranges index consumed /\
    unfinished ranges' consumed' /\ consumed' <= offset + size input /\
    offset + size input <= wanted ranges' consumed' /\ consumed <= consumed'.
Proof.
  intros Ha. revert index consumed out index' consumed'.
  induction Ha as [s|s r rs Hr Hs Ha IH];
    intros index consumed out index' consumed' Hs0 Ho Hstop Hinput Hc Hu Hmax; cbn [consume_loop].
  { intros [= <- <- <-]. exists [], []. split_and!; try done; simpl; lia. }
  destruct Hr as (Hsat & Hr0 & Hrl & Hre). specialize (Hmax r rs eq_refl). cbn [unfinished] in Hu.
  u64_simpl. set (stop := offset + size input) in *.
  set (fin := offset_ r + length_ r) in *. rewrite Hmax.
  set (first := Z.max consumed (offset_ r)) in *.
  destruct (Z.min stop fin <=? first) eqn:E1; reflect_bool.
  { intros [= <- <- <-]. exists [], (r :: rs).
    split_and!; try done; cbn [wanted length]; lia. }
  u64_simpl.
  assert (take (Z.to_nat (Z.min stop fin - first)) (drop (Z.to_nat (first - offset)) input) =
    slice body first (Z.min stop fin)) as ->.
  { rewrite <- (slice_slice body offset stop first (Z.min stop fin)), <- Hinput by lia.
    unfold slice. f_equal. lia. }
  assert ((if (first =? offset_ r) && multipart then prefix_of boundary content_type total index r else []) ++
    slice body first fin ++ (if empty rs && multipart then ending_of boundary else []) ++
    render_from boundary content_type multipart body rs (S index) = rem (r :: rs) index consumed) as Hrem.
  { cbn [remaining]. destruct (Z.ltb_spec (offset_ r) consumed).
    - rewrite (proj2 (Z.eqb_neq _ _)) by lia. cbn [andb app].
      by replace first with consumed by lia.
    - replace first with (offset_ r) by lia. rewrite Z.eqb_refl. done. }
  destruct (negb (Z.min stop fin =? fin)) eqn:E2; reflect_bool.
  - intros [= <- <- <-]. exists [], (r :: rs).
    split_and!; [done|done| |cbn [unfinished]; lia|lia|cbn [wanted]; lia|lia].
    rewrite <- Hrem. cbn [remaining]. rewrite (proj2 (Z.ltb_lt _ _)) by lia.
    rewrite <- !app_assoc. f_equal. rewrite app_assoc. f_equal. apply slice_app; lia.
  - rewrite E2. destruct (loop rs (S index) fin input offset) as [[rest i'] c'] eqn:L.
    intros [= <- <- <-].
    assert (forall q qs, rs = q :: qs -> fin <= offset_ q /\ 0 < length_ q) as Hnext.
    { intros q qs Hq. rewrite Hq in Ha. inversion Ha as [|? ? ? Hqb Hfq]. split; [done|]. apply Hqb. }
    destruct (IH (S index) fin rest i' c') as (skipped & rs' & Hrs & Hi' & Hout & Hu' & Hc' & Hw & Hcc);
      [lia|done|done|done|lia| | |done|].
    { destruct rs as [|q qs]; [done|]. destruct (Hnext q qs eq_refl). cbn [unfinished]. lia. }
    { intros q qs Hq. destruct (Hnext q qs Hq). lia. }
    rewrite Hrs in Hnext, Hrem, Hout |- *. clear Hrs. subst i'.
    exists (r :: skipped), rs'. split_and!; [done|simpl; lia| |done|lia|lia|lia].
    rewrite <- Hrem.
    replace (index + length (r :: skipped))%nat with (S index + length skipped)%nat by (simpl; lia).
    assert (rem (skipped ++ rs') (S index) fin =
      render_from boundary content_type multipart body (skipped ++ rs') (S index)) as E.
    { destruct (skipped ++ rs') as [|q qs]; [done|]. destruct (Hnext q qs eq_refl).
      cbn [remaining]. by rewrite (proj2 (Z.ltb_ge _ _)) by lia. }
    rewrite <- E, <- Hout. destruct (empty (skipped ++ rs') && multipart);
      rewrite <- ?app_assoc, ?app_nil_l; done.
Qed.

Lemma ascending_app s l1 l2 :
  ascending total s (l1 ++ l2) -> exists s', s <= s' /\ ascending total s' l2.
Proof.
  revert s. induction l1 as [|r l1 IH]; simpl; intros s H; [exists s; split; [lia|done]|].
  inversion H as [|? ? ? Hr Hs Ha]; subst. destruct (IH _ Ha) as (s' & H1 & H2).
  exists s'. unfold in_bounds in Hr. split; [lia|done].
Qed.
End Loop.

(** * The response as an object *)

Section Response.
Context (body : bytes).
Hypothesis Htotal : is_u64 (size body).

(** What the client still has to receive. *)
Definition to_come (r : cache_range_response) : bytes :=
  if ignored r then slice body (consumed_ r) (size body)
  else remaining (boundary_ r) (content_type_ r) (multipart r) body
         (drop (index_ r) (ranges_ (selection_ r))) (index_ r) (consumed_ r).

Record response_ok (r : cache_range_response) : Prop := {
  ok_total : total_ r = size body;
  ok_consumed : 0 <= consumed_ r <= size body;
  ok_ranges : ascending (size body) 0 (ranges_ (selection_ r));
  ok_index : (index_ r <= length (ranges_ (selection_ r)))%nat;
  ok_unfinished : ignored r = false -> unfinished (drop (index_ r) (ranges_ (selection_ r))) (consumed_ r)
}.

Lemma next_offset_wanted r :
  response_ok r -> ignored r = false ->
  next_offset r = wanted body (drop (index_ r) (ranges_ (selection_ r))) (consumed_ r).
Proof.
  intros Hok Hi. unfold next_offset, wanted. rewrite Hi.
  destruct (ranges_ (selection_ r) !! index_ r) as [q|] eqn:E.
  - by rewrite (drop_S _ _ _ E).
  - apply lookup_ge_None in E. rewrite drop_ge by done. apply Hok.
Qed.

(** One call of [consume] with a piece of the representation that starts at or before the
    next byte wanted (and not before what was consumed): its output followed by what is still to
    come is what was to come before, the invariant holds again, and reading may go on where the
    piece ended. *)
Theorem consume_step r input offset out r' :
  response_ok r -> consumed_ r <= offset <= next_offset r ->
  offset + size input <= size body -> input = slice body offset (offset + size input) ->
  consume r input offset = (out, r') ->
  out ++ to_come r' = to_come r /\ response_ok r' /\
  consumed_ r' <= offset + size input <= next_offset r'.
Proof.
  intros Hok Ho Hstop Hin. pose proof Hok as [Hto Hc Ha Hi Hu].
  unfold consume. destruct (ignored r) eqn:Hig.
  - intros [= <- <-]. assert (0 <= size input) by (unfold size; lia). u64_simpl.
    unfold next_offset in Ho. rewrite Hig in Ho. assert (offset = consumed_ r) as -> by lia.
    unfold to_come, next_offset, ignored in *. cbn [selection_ consumed_] in *. rewrite Hig.
    split_and!; [|split; unfold ignored; cbn [selection_ consumed_ total_ index_]; try done; try lia;
      congruence|lia|lia].
    rewrite Hin at 1. apply slice_app; lia.
  - specialize (Hu eq_refl). rewrite (next_offset_wanted r) in Ho by done.
    set (rs := drop (index_ r) (ranges_ (selection_ r))) in *.
    rewrite Hto. destruct (consume_loop _ _ _ _ _ _ _ _ _) as [[o i'] c'] eqn:L.
    intros [= <- <-].
    destruct (ascending_app body 0 (take (index_ r) (ranges_ (selection_ r))) rs) as (s & Hs & Has).
    { unfold rs. by rewrite take_drop. }
    destruct (consume_loop_spec (boundary_ r) (content_type_ r) (multipart r) body Htotal
      rs s (index_ r) (consumed_ r) input offset o i' c')
      as (skipped & rs' & Hsk & -> & Hout & Hu' & Hc' & Hw & Hcc); try done; try lia.
    { unfold size in *. lia. }
    { intros q qs Hq. rewrite Hq in Ho. cbn [wanted] in Ho. lia. }
    assert (drop (index_ r + length skipped) (ranges_ (selection_ r)) = rs') as Hd.
    { rewrite <- drop_drop. fold rs. rewrite Hsk. apply drop_app_length. }
    assert (length (ranges_ (selection_ r)) = (index_ r + length (skipped ++ rs'))%nat) as Hlen.
    { rewrite <- Hsk. unfold rs. rewrite length_drop. lia. }
    rewrite length_app in Hlen.
    assert (response_ok (mk_response (selection_ r) (total_ r) (content_type_ r) (boundary_ r)
      (body_length_ r) (index_ r + length skipped) c')) as Hok'.
    { split; unfold ignored; cbn [selection_ consumed_ total_ index_]; try done; try lia.
      rewrite Hd. done. }
    rewrite <- Hto. split_and!; [|done|cbn [consumed_]; lia|].
    + unfold to_come, ignored, multipart in *. cbn [selection_ consumed_ boundary_ content_type_ index_] in *.
      rewrite Hig, Hd. fold rs. exact Hout.
    + rewrite next_offset_wanted by done. cbn [selection_ consumed_ index_]. by rewrite Hd.
Qed.

Lemma select_loop_multipart fuel value total partial count previous ranges :
  multipart_ (select_loop fuel value total partial count previous ranges) = true ->
  ranges_ (select_loop fuel value total partial count previous ranges) <> [].
Proof.
  revert value count previous ranges. induction fuel as [|fuel IH]; [done|].
  intros value count previous ranges. cbn [select_loop].
  destruct (_ || (negb partial && _)); [done|].
  destruct (parse_cache_range _ total) as [r|]; [|done].
  destruct (satisfiable_ r && _); [done|].
  destruct (if satisfiable_ r then _ else _) as [p rs].
  destruct (find_char "," value); [apply IH|]. cbn [multipart_ ranges_].
  destruct rs; [|done]. cbn [empty negb]. by rewrite andb_false_r.
Qed.

Lemma multipart_nonempty request total partial :
  multipart_ (select_cache_ranges request total partial) = true ->
  negb (empty (ranges_ (select_cache_ranges request total partial))) = true.
Proof.
  unfold select_cache_ranges. destruct (negb _); [done|].
  intros H%select_loop_multipart. by destruct (ranges_ _).
Qed.

Lemma new_response_ok request partial ctype random :
  response_ok (new_response request (size body) partial ctype random).
Proof.
  destruct (select_cache_ranges_sound request (size body) partial Htotal) as [Ha _].
  split; cbn [new_response total_ consumed_ selection_ index_]; try done; [unfold size; lia|lia|].
  intros _. rewrite drop_0. destruct (ranges_ _) as [|q qs]; [done|].
  inversion Ha as [|? ? ? Hq Hfq]. unfold in_bounds in Hq. cbn [unfinished]. lia.
Qed.

(** The body the specification gives the client. *)
Definition client_body (r : cache_range_response) : bytes :=
  if ignored r then body
  else render_from (boundary_ r) (content_type_ r) (multipart r) body (ranges_ (selection_ r)) 0.

Lemma to_come_new request partial ctype random :
  to_come (new_response request (size body) partial ctype random) =
  client_body (new_response request (size body) partial ctype random).
Proof.
  pose proof (new_response_ok request partial ctype random) as [_ _ Ha _ _].
  unfold to_come, client_body. set (r := new_response _ _ _ _ _) in *.
  change (consumed_ r) with 0. change (index_ r) with 0%nat. rewrite drop_0.
  destruct (ignored r); [apply slice_all|].
  destruct (ranges_ (selection_ r)) as [|q qs]; [done|]. cbn [remaining].
  inversion Ha as [|? ? ? Hq Hfq]. unfold in_bounds in Hq.
  by rewrite (proj2 (Z.ltb_ge _ _)) by lia.
Qed.

(** Feeding consecutive pieces, the first one at [offset]. *)
Fixpoint feed (r : cache_range_response) (pieces : list bytes) (offset : Z) :
    bytes * cache_range_response :=
  match pieces with
  | [] => ([], r)
  | piece :: pieces' =>
      let '(out, r) := consume r piece offset in
      let '(rest, r) := feed r pieces' (offset + size piece) in
      (out ++ rest, r)
  end.

Lemma feed_spec r pieces offset :
  response_ok r -> consumed_ r <= offset <= next_offset r ->
  concat pieces = slice body offset (size body) -> offset <= size body ->
  let '(out, r') := feed r pieces offset in
  out ++ to_come r' = to_come r /\ response_ok r' /\ size body <= next_offset r'.
Proof.
  revert r offset. induction pieces as [|piece pieces IH]; intros r offset Hok Ho Hcat Hle; cbn [feed].
  - pose proof (ok_consumed r Hok). simpl in Hcat. apply (f_equal size) in Hcat.
    rewrite slice_size in Hcat by lia. unfold size in Hcat at 1. simpl in Hcat.
    split_and!; [done|done|lia].
  - destruct (consume r piece offset) as [out r1] eqn:E.
    pose proof (ok_consumed r Hok). simpl in Hcat.
    assert (size piece + size (concat pieces) = size body - offset) as Hsz.
    { apply (f_equal size) in Hcat. rewrite slice_size in Hcat by lia.
      unfold size in *. rewrite length_app in Hcat. lia. }
    assert (0 <= size piece /\ 0 <= size (concat pieces)) by (unfold size; lia).
    rewrite <- (slice_app body offset (offset + size piece) (size body)) in Hcat by lia.
    apply app_inj_1 in Hcat as [Hp Hrest].
    2:{ pose proof (slice_size body offset (offset + size piece)). unfold size in *. lia. }
    destruct (consume_step r piece offset out r1) as (H1 & H2 & H3); [done|done|lia|done|done|].
    specialize (IH r1 (offset + size piece) H2 ltac:(lia) Hrest ltac:(lia)).
    destruct (feed r1 pieces (offset + size piece)) as [rest r2].
    destruct IH as (I1 & I2 & I3). split_and!; [|done|done].
    rewrite <- app_assoc, I1. exact H1.
Qed.

Lemma finished_done r :
  response_ok r -> size body <= next_offset r -> done r = true /\ to_come r = [].
Proof.
  intros Hok Hn. pose proof Hok as [Ht Hc Ha Hi Hu]. unfold done, to_come.
  destruct (ignored r) eqn:Hig.
  - unfold next_offset in Hn. rewrite Hig in Hn. split; [apply Z.leb_le; lia|].
    assert (consumed_ r = size body) as -> by lia. apply slice_nil.
  - rewrite next_offset_wanted in Hn by done. specialize (Hu eq_refl).
    destruct (ascending_app body 0 (take (index_ r) (ranges_ (selection_ r)))
      (drop (index_ r) (ranges_ (selection_ r)))) as (s & Hs & Has); [by rewrite take_drop|].
    destruct (drop (index_ r) (ranges_ (selection_ r))) as [|q qs] eqn:E.
    + split; [|done]. apply Nat.eqb_eq. apply (f_equal length) in E. rewrite length_drop in E.
      simpl in E. lia.
    + inversion Has as [|? ? ? Hq Hfq]. unfold in_bounds in Hq. cbn [wanted unfinished] in *. lia.
Qed.

(** Feeding the whole representation. *)
Lemma feed_whole request partial ctype random pieces :
  concat pieces = body ->
  let r := new_response request (size body) partial ctype random in
  let '(out, r') := feed r pieces 0 in out = client_body r /\ done r' = true.
Proof.
  intros Hp r. pose proof (new_response_ok request partial ctype random) as Hok. fold r in Hok.
  assert (0 <= next_offset r) as Hn.
  { pose proof (ok_consumed r Hok). unfold next_offset.
    destruct (ignored r); [lia|]. destruct (_ !! _); [lia|]. rewrite (ok_total r Hok). unfold size. lia. }
  pose proof (feed_spec r pieces 0 Hok) as H.
  destruct (feed r pieces 0) as [out r'].
  destruct H as (H1 & H2 & H3);
    [split; [apply Z.le_refl|done]|by rewrite slice_all|unfold size; lia|].
  destruct (finished_done r' H2 H3) as [H4 H5].
  rewrite H5, app_nil_r in H1. split; [|done]. rewrite H1. apply to_come_new.
Qed.

(** However the representation is cut into consecutive pieces, feeding all of them yields
    exactly the client's body and leaves the response done. *)
Theorem feed_complete request partial ctype random pieces :
  concat pieces = body ->
  let r := new_response request (size body) partial ctype random in
  let '(out, r') := feed r pieces 0 in out = client_body r /\ done r' = true.
Proof. exact (feed_whole request partial ctype random pieces). Qed.

(** The length of a rendering without the multipart ending. *)
Fixpoint plain_length (boundary ctype : bytes) (mp : bool) (ranges : list cache_byte_range)
    (index : nat) : Z :=
  match ranges with
  | [] => 0
  | r :: ranges' =>
      length_ r + (if mp then size (prefix_of boundary ctype (size body) index r) else 0) +
      plain_length boundary ctype mp ranges' (S index)
  end.

Lemma render_from_size boundary ctype mp ranges s index :
  ascending (size body) s ranges ->
  size (render_from boundary ctype mp body ranges index) =
  plain_length boundary ctype mp ranges index +
  (if mp && negb (empty ranges) then size (ending_of boundary) else 0).
Proof.
  intros Ha. revert index. induction Ha as [s|s r rs Hr Hs Ha IH]; intros index.
  { cbn. by rewrite andb_false_r. }
  cbn [render_from plain_length empty negb]. unfold in_bounds in Hr. specialize (IH (S index)).
  pose proof (slice_size body (offset_ r) (offset_ r + length_ r)) as Hsl.
  unfold size in *. rewrite !length_app.
  destruct mp, rs as [|q qs]; cbn [empty andb negb length] in *; lia.
Qed.

Lemma length_loop_spec boundary ctype mp ranges index acc :
  u64 (length_loop boundary ctype (size body) ranges index mp acc) =
  u64 (acc + plain_length boundary ctype mp ranges index).
Proof.
  revert index acc. induction ranges as [|r rs IH]; intros index acc;
    cbn [length_loop plain_length]; [by rewrite Z.add_0_r|].
  rewrite IH. unfold u64. destruct mp; rewrite ?Zplus_mod_idemp_l; [|f_equal; lia].
  rewrite <- Z.add_assoc, Zplus_mod_idemp_l. f_equal. lia.
Qed.

Lemma length_loop_range boundary ctype mp ranges index acc :
  is_u64 acc -> is_u64 (length_loop boundary ctype (size body) ranges index mp acc).
Proof.
  revert index acc. induction ranges as [|r rs IH]; intros index acc Hacc; [done|].
  cbn [length_loop]. apply IH. destruct mp; apply u64_range.
Qed.

(** The length announced to the client is the length of the body it receives, as long as
    that length fits the 64-bit counter. *)
Theorem body_length_exact request partial ctype random :
  let r := new_response request (size body) partial ctype random in
  is_u64 (size (client_body r)) -> body_length_ r = size (client_body r).
Proof.
  intros r Hfit. unfold client_body in *. pose proof (new_response_ok request partial ctype random) as Hok.
  fold r in Hok. destruct (ignored r) eqn:Hig.
  - unfold r, ignored in *. cbn [new_response body_length_ selection_] in *. by rewrite Hig.
  - rewrite (render_from_size _ _ _ _ _ _ (ok_ranges r Hok)) in Hfit |- *.
    rewrite <- (u64_small _ Hfit) at 1. clear Hfit.
    unfold r, ignored, multipart in *. cbn [new_response body_length_ selection_ boundary_ content_type_] in *.
    rewrite Hig. set (sel := select_cache_ranges request (size body) partial) in *.
    set (b := if multipart_ sel then lit "flexedge-" ++ hex_encode random else []).
    pose proof (length_loop_spec b ctype (multipart_ sel) (ranges_ sel) 0 0) as HL.
    rewrite Z.add_0_l in HL. destruct (multipart_ sel) eqn:Hmp; cbn [andb].
    + assert (negb (empty (ranges_ sel)) = true) as ->.
      { revert Hmp. unfold sel. apply multipart_nonempty. }
      unfold u64 in *. by rewrite <- (Zplus_mod_idemp_l (length_loop _ _ _ _ _ _ _)), HL, Zplus_mod_idemp_l.
    + rewrite Z.add_0_r, <- HL. symmetry. apply u64_small, length_loop_range.
      unfold is_u64, two64. lia.
Qed.
End Response.

(** A ten-byte representation asked for its first two and its last five bytes. *)
Definition sample_body : bytes := lit "0123456789".
Definition sample_response : cache_range_response :=
  new_response (lit "bytes=0-1,-5") (size sample_body) false (lit "text/plain") [].

Lemma sample_u64 : is_u64 (size sample_body).
Proof. by_decision. Qed.

Lemma consume_step_witness :
  let '(out, r') := consume sample_response (lit "01234") 0 in
  out ++ to_come sample_body r' = to_come sample_body sample_response /\
  response_ok sample_body r' /\ consumed_ r' <= 0 + size (lit "01234") <= next_offset r'.
Proof.
  apply (consume_step sample_body sample_u64 sample_response (lit "01234") 0).
  - apply new_response_ok, sample_u64.
  - split; vm_compute; discriminate.
  - vm_compute. discriminate.
  - reflexivity.
  - vm_compute. reflexivity.
Defined.

Lemma feed_complete_witness :
  let '(out, r') := feed sample_response [lit "012"; lit ""; lit "3456789"] 0 in
  out = client_body sample_body sample_response /\ done r' = true.
Proof.
  exact (feed_complete sample_body sample_u64 (lit "bytes=0-1,-5") false (lit "text/plain") []
    [lit "012"; lit ""; lit "3456789"] eq_refl).
Defined.

Lemma body_length_exact_witness :
  body_length_ sample_response = size (client_body sample_body sample_response) /\
  body_length_ sample_response = 166.
Proof.
  split; [|vm_compute; reflexivity].
  apply (body_length_exact sample_body sample_u64 (lit "bytes=0-1,-5") false (lit "text/plain") []).
  by_decision.
Defined.
