(* ===== verification/CcProtection.v ===== *)
(** Request-rate protection: src/node/data/cc_protection.h.

    Each data worker counts requests per client key in a ring of time buckets ([cc_worker]); the
    control loop merges the workers' reports and decides mitigations ([cc_aggregator]), which it
    publishes back to the workers. *)
From S2P Require Import Prelude.
Open Scope Z_scope.

(** * Data *)

Record cc_key := mk_cc_key { website_ : bytes; policy_ : bytes; rule_ : bytes; address_ : bytes }.
#[export] Instance cc_key_eq_dec : EqDecision cc_key.
Proof. solve_decision. Defined.
#[export] Instance cc_key_countable : Countable cc_key.
Proof.
  apply (inj_countable' (fun k => (website_ k, policy_ k, rule_ k, address_ k))
    (fun '(w, p, r, a) => mk_cc_key w p r a)). by intros [].
Defined.

Record cc_limits := mk_limits { requests_ : Z; window_ms_ : Z; mitigation_ms_ : Z }.
#[export] Instance cc_limits_eq_dec : EqDecision cc_limits.
Proof. solve_decision. Defined.

(** [validate] throws when this is false. *)
Definition limits_valid (l : cc_limits) : bool :=
  negb ((requests_ l =? 0) || (1000000000 <? requests_ l) || (window_ms_ l <? 1000) ||
        (3600000 <? window_ms_ l) || (mitigation_ms_ l <? 1000) || (86400000 <? mitigation_ms_ l)).

Record cc_count := mk_count { key_ : cc_key; limits_ : cc_limits; bucket_ : Z; count_ : Z }.
Record cc_batch := mk_batch { instance_ : Z; sequence_ : Z; observed_ms_ : Z; counts_ : list cc_count }.
Record cc_dispositions := mk_dispositions {
  disposition_sequence_ : Z;
  saturated_until_ : Z;
  blocked_until_ : gmap cc_key Z
}.
Inductive cc_decision := allow | block | overloaded.
(** The two exceptions of the component. *)
Inductive cc_error := invalid_limits | conflicting_limits.

Definition bucket_count : Z := 64.
Definition ring_size : nat := 65.
Definition width (l : cc_limits) : Z := (window_ms_ l + bucket_count - 1) / bucket_count.
Definition add (left right : Z) : Z :=
  if (two64 - 1 - right <? left) then two64 - 1 else left + right.
Definition live (slot now : Z) (l : cc_limits) : bool :=
  now <? u64 (u64 (u64 (slot + 1) * width l) + window_ms_ l).

(** * The worker *)

Record bucket := mk_bucket { slot_ : Z; hits_ : Z }.
Record worker_entry := mk_entry {
  entry_limits_ : cc_limits;
  buckets_ : list bucket;
  last_seen_ : Z;
  entry_blocked_until_ : Z;
  dirty_ : bool
}.
Record cc_worker := mk_worker {
  worker_instance_ : Z;
  worker_sequence_ : Z;
  worker_capacity_ : Z;
  worker_entries_ : gmap cc_key worker_entry;
  dispositions_ : option cc_dispositions
}.

Definition new_worker (instance capacity : Z) : cc_worker :=
  mk_worker instance 0 capacity ∅ None.
Definition new_entry (l : cc_limits) : worker_entry :=
  mk_entry l (replicate ring_size (mk_bucket 0 0)) 0 0 false.

Definition map_size {V} (m : gmap cc_key V) : Z := Z.of_nat (base.size m).

Definition slot_at (now : Z) (l : cc_limits) : Z := now / width l.
Definition ring_index (slot : Z) : nat := Z.to_nat (slot mod Z.of_nat ring_size).

(** Counting one request in the ring: the bucket of the current slot is reset when it still
    holds an older slot. *)
Definition hit (buckets : list bucket) (slot : Z) : list bucket :=
  match buckets !! ring_index slot with
  | Some b =>
      let b := if slot_ b =? slot then b else mk_bucket slot 0 in
      <[ring_index slot := mk_bucket (slot_ b) (add (hits_ b) 1)]> buckets
  | None => buckets
  end.

Definition window_sum (buckets : list bucket) (now : Z) (l : cc_limits) : Z :=
  fold_left (fun sum item => if live (slot_ item) now l then add sum (hits_ item) else sum) buckets 0.

Definition set_entry (w : cc_worker) (k : cc_key) (e : worker_entry) : cc_worker :=
  mk_worker (worker_instance_ w) (worker_sequence_ w) (worker_capacity_ w)
    (<[k := e]> (worker_entries_ w)) (dispositions_ w).

(** The rest of [check] once the entry is at hand. *)
Definition check_entry (w : cc_worker) (k : cc_key) (l : cc_limits) (now : Z) (e : worker_entry) :
    cc_worker * (cc_decision + cc_error) :=
  if entry_limits_ e != l then (w, inr conflicting_limits)
  else if now <? entry_blocked_until_ e then (set_entry w k e, inl block)
  else
    let buckets := hit (buckets_ e) (slot_at now l) in
    if requests_ l <? window_sum buckets now l
    then (set_entry w k (mk_entry (entry_limits_ e) buckets now (u64 (now + mitigation_ms_ l)) true), inl block)
    else (set_entry w k (mk_entry (entry_limits_ e) buckets now (entry_blocked_until_ e) true), inl allow).

Definition check (w : cc_worker) (k : cc_key) (l : cc_limits) (now : Z) :
    cc_worker * (cc_decision + cc_error) :=
  let saturated := match dispositions_ w with Some d => now <? saturated_until_ d | None => false end in
  let published :=
    match dispositions_ w with
    | Some d => match blocked_until_ d !! k with Some until => now <? until | None => false end
    | None => false
    end in
  if saturated then (w, inl overloaded)
  else if published then (w, inl block)
  else match worker_entries_ w !! k with
       | Some e => check_entry w k l now e
       | None =>
           if worker_capacity_ w <=? map_size (worker_entries_ w) then (w, inl overloaded)
           else if negb (limits_valid l) then (w, inr invalid_limits)
           else check_entry w k l now (new_entry l)
       end.

Definition expired (now : Z) (e : worker_entry) : bool :=
  negb (dirty_ e) && (entry_blocked_until_ e <=? now) &&
  (u64 (u64 (last_seen_ e + window_ms_ (entry_limits_ e)) + width (entry_limits_ e)) <=? now).

Definition report_entry (now : Z) (ke : cc_key * worker_entry) : list cc_count :=
  let '(k, e) := ke in
  if negb (dirty_ e) then []
  else flat_map (fun b =>
    if negb (hits_ b =? 0) && live (slot_ b) now (entry_limits_ e)
    then [mk_count k (entry_limits_ e) (slot_ b) (hits_ b)] else []) (buckets_ e).

Definition report (w : cc_worker) (now : Z) : cc_worker * cc_batch :=
  let sequence := u64 (worker_sequence_ w + 1) in
  let entries := filter (fun ke => expired now (ke.2) = false) (worker_entries_ w) in
  (mk_worker (worker_instance_ w) sequence (worker_capacity_ w) entries (dispositions_ w),
   mk_batch (worker_instance_ w) sequence now (flat_map (report_entry now) (map_to_list entries))).

Definition clean (e : worker_entry) : worker_entry :=
  mk_entry (entry_limits_ e) (buckets_ e) (last_seen_ e) (entry_blocked_until_ e) false.
Definition acknowledge (w : cc_worker) : cc_worker :=
  mk_worker (worker_instance_ w) (worker_sequence_ w) (worker_capacity_ w)
    (clean <$> worker_entries_ w) (dispositions_ w).

Definition publish (w : cc_worker) (value : option cc_dispositions) : cc_worker :=
  match value with
  | Some v =>
      let newer := match dispositions_ w with
                   | None => true
                   | Some d => disposition_sequence_ d <? disposition_sequence_ v
                   end in
      if newer then mk_worker (worker_instance_ w) (worker_sequence_ w) (worker_capacity_ w)
                      (worker_entries_ w) (Some v)
      else w
  | None => w
  end.

(** * The aggregator *)

Record source_bucket := mk_source_bucket { agg_slot_ : Z; agg_total_ : Z; agg_sources_ : gmap Z Z }.
Definition empty_source_bucket : source_bucket := mk_source_bucket 0 0 ∅.
Record agg_entry := mk_agg_entry {
  agg_limits_ : cc_limits;
  agg_buckets_ : list source_bucket;
  agg_blocked_until_ : Z;
  changed_ : bool
}.
Record cc_aggregator := mk_aggregator {
  worker_count_ : Z;
  agg_capacity_ : Z;
  agg_sequence_ : Z;
  agg_saturated_until_ : Z;
  agg_sequences_ : gmap Z Z;
  agg_entries_ : gmap cc_key agg_entry
}.

Definition new_aggregator (worker_count capacity : Z) : cc_aggregator :=
  mk_aggregator worker_count capacity 0 0 ∅ ∅.

Definition with_entries (a : cc_aggregator) (entries : gmap cc_key agg_entry) : cc_aggregator :=
  mk_aggregator (worker_count_ a) (agg_capacity_ a) (agg_sequence_ a) (agg_saturated_until_ a)
    (agg_sequences_ a) entries.
Definition with_saturated (a : cc_aggregator) (until : Z) : cc_aggregator :=
  mk_aggregator (worker_count_ a) (agg_capacity_ a) (agg_sequence_ a) until
    (agg_sequences_ a) (agg_entries_ a).
Definition with_sequence (a : cc_aggregator) (instance sequence : Z) : cc_aggregator :=
  mk_aggregator (worker_count_ a) (agg_capacity_ a) (agg_sequence_ a) (agg_saturated_until_ a)
    (<[instance := sequence]> (agg_sequences_ a)) (agg_entries_ a).

Definition new_agg_entry (l : cc_limits) : agg_entry :=
  mk_agg_entry l (replicate ring_size empty_source_bucket) 0 false.

(** Recording one worker's absolute count in its bucket. *)
Definition count_source (instance : Z) (c : cc_count) (e : agg_entry) : agg_entry :=
  let index := ring_index (bucket_ c) in
  match agg_buckets_ e !! index with
  | None => e
  | Some b =>
      let b := if agg_slot_ b =? bucket_ c then b else mk_source_bucket (bucket_ c) 0 ∅ in
      let previous := default 0 (agg_sources_ b !! instance) in
      if previous <? count_ c
      then mk_agg_entry (agg_limits_ e)
             (<[index := mk_source_bucket (agg_slot_ b) (add (agg_total_ b) (u64 (count_ c - previous)))
                           (<[instance := count_ c]> (agg_sources_ b))]> (agg_buckets_ e))
             (agg_blocked_until_ e) true
      else mk_agg_entry (agg_limits_ e)
             (<[index := mk_source_bucket (agg_slot_ b) (agg_total_ b)
                           (<[instance := previous]> (agg_sources_ b))]> (agg_buckets_ e))
             (agg_blocked_until_ e) (changed_ e)
  end.

(** One iteration of the loop of [merge]; an exception leaves the updates made so far. *)
Definition merge_count (instance observed now : Z) (a : cc_aggregator) (c : cc_count) :
    cc_aggregator * option cc_error :=
  if negb (limits_valid (limits_ c)) then (a, Some invalid_limits)
  else if negb (live (bucket_ c) now (limits_ c)) || (observed / width (limits_ c) <? bucket_ c)
  then (a, None)
  else
    match agg_entries_ a !! key_ c with
    | Some e =>
        if agg_limits_ e != limits_ c then (a, Some conflicting_limits)
        else (with_entries a (<[key_ c := count_source instance c e]> (agg_entries_ a)), None)
    | None =>
        if agg_capacity_ a <=? map_size (agg_entries_ a)
        then (with_saturated a (u64 (now + window_ms_ (limits_ c))), None)
        else (with_entries a (<[key_ c := count_source instance c (new_agg_entry (limits_ c))]>
                                (agg_entries_ a)), None)
    end.

Fixpoint merge_counts (instance observed now : Z) (a : cc_aggregator) (counts : list cc_count) :
    cc_aggregator * option cc_error :=
  match counts with
  | [] => (a, None)
  | c :: counts' =>
      match merge_count instance observed now a c with
      | (a, Some e) => (a, Some e)
      | (a, None) => merge_counts instance observed now a counts'
      end
  end.

Definition merge (a : cc_aggregator) (batch : cc_batch) (now : Z) : cc_aggregator * option cc_error :=
  if worker_count_ a <=? instance_ batch then (a, None)
  else if now <? observed_ms_ batch then (a, None)
  else
    (* [sequences_[instance]] default-inserts a zero before the comparison *)
    let known := default 0 (agg_sequences_ a !! instance_ batch) in
    if sequence_ batch <=? known then (with_sequence a (instance_ batch) known, None)
    else merge_counts (instance_ batch) (observed_ms_ batch) now
           (with_sequence a (instance_ batch) (sequence_ batch)) (counts_ batch).

(** The loop of [snapshot] over the buckets of one entry. *)
Definition sweep (now : Z) (l : cc_limits) (b : source_bucket) : source_bucket :=
  if live (agg_slot_ b) now l then b else empty_source_bucket.
Definition live_total (now : Z) (l : cc_limits) (buckets : list source_bucket) : Z :=
  fold_left (fun sum b => if live (agg_slot_ b) now l then add sum (agg_total_ b) else sum) buckets 0.

(** One entry of the loop of [snapshot]: the kept entry, if any. *)
Definition snapshot_entry (now : Z) (e : agg_entry) : option agg_entry :=
  let sum := live_total now (agg_limits_ e) (agg_buckets_ e) in
  let blocked :=
    if changed_ e && (requests_ (agg_limits_ e) <? sum) && (agg_blocked_until_ e <=? now)
    then u64 (now + mitigation_ms_ (agg_limits_ e)) else agg_blocked_until_ e in
  if (sum =? 0) && (blocked <=? now) then None
  else Some (mk_agg_entry (agg_limits_ e) (map (sweep now (agg_limits_ e)) (agg_buckets_ e)) blocked false).

(** The mitigation an entry shows to the workers. *)
Definition entry_block (now : Z) (e : agg_entry) : option Z :=
  if now <? agg_blocked_until_ e then Some (agg_blocked_until_ e) else None.

Definition snapshot (a : cc_aggregator) (now : Z) : cc_aggregator * cc_dispositions :=
  let sequence := u64 (agg_sequence_ a + 1) in
  let entries := omap (snapshot_entry now) (agg_entries_ a) in
  (mk_aggregator (worker_count_ a) (agg_capacity_ a) sequence (agg_saturated_until_ a)
     (agg_sequences_ a) entries,
   mk_dispositions sequence
     (if now <? agg_saturated_until_ a then agg_saturated_until_ a else 0)
     (omap (entry_block now) entries)).

(** * The ring as a sliding window *)

(** Timestamps far below the 64-bit range, so that the sums of a check do not wrap around. *)
Definition sane_time (now : Z) : Prop := 0 <= now < 2 ^ 62.
Definition sane_limits (l : cc_limits) : Prop := limits_valid l = true.

Lemma window_bounds l : sane_limits l -> 1000 <= window_ms_ l <= 3600000.
Proof. unfold sane_limits, limits_valid. intros H. reflect_bool. lia. Qed.

(** 64 buckets cover the window, and a bucket is at most a 64th of it, rounded up. *)
Lemma width_bounds l :
  sane_limits l -> 16 <= width l <= 56250 /\ window_ms_ l <= 64 * width l.
Proof.
  intros H%window_bounds. unfold width, bucket_count. Z.div_mod_to_equations; lia.
Qed.

Lemma slot_at_bounds now l :
  sane_limits l -> sane_time now ->
  0 <= slot_at now l < 2 ^ 62 /\ slot_at now l * width l <= now < (slot_at now l + 1) * width l.
Proof.
  intros Hl%width_bounds [H0 H1]. unfold slot_at.
  pose proof (Z.div_mod now (width l) ltac:(lia)). pose proof (Z.mod_pos_bound now (width l) ltac:(lia)).
  assert (0 <= now / width l) by (apply Z.div_pos; lia). nia.
Qed.

(** The liveness test, without wrap-around. *)
Lemma live_spec slot now l :
  sane_limits l -> sane_time now -> 0 <= slot <= slot_at now l ->
  live slot now l = true <-> now < (slot + 1) * width l + window_ms_ l.
Proof.
  intros Hl Hn Hs. pose proof (slot_at_bounds now l Hl Hn) as [H1 H2].
  pose proof (width_bounds l Hl) as [H3 H4]. pose proof (window_bounds l Hl).
  unfold sane_time in Hn. unfold live.
  assert ((slot + 1) * width l <= now + width l) by nia.
  assert (0 <= (slot + 1) * width l) by nia.
  rewrite (u64_small (slot + 1)) by (unfold is_u64, two64; lia).
  u64_simpl. by rewrite Z.ltb_lt.
Qed.

(** A recent request is always in a live bucket: rounding never drops it. *)
Lemma recent_live t now l :
  sane_limits l -> sane_time t -> sane_time now -> t <= now -> now - window_ms_ l < t ->
  live (slot_at t l) now l = true.
Proof.
  intros Hl Ht Hn Hle Hrecent. pose proof (slot_at_bounds t l Hl Ht).
  pose proof (width_bounds l Hl).
  apply live_spec; [done|done| |lia]. split; [lia|]. apply Z.div_le_mono; lia.
Qed.

(** A slot one turn of the ring behind the current one is no longer live. *)
Lemma old_slot_dead slot now l :
  sane_limits l -> sane_time now -> 0 <= slot -> slot + 65 <= slot_at now l ->
  live slot now l = false.
Proof.
  intros Hl Hn H0 Hs. apply not_true_iff_false. rewrite live_spec by (done || lia).
  pose proof (slot_at_bounds now l Hl Hn). pose proof (width_bounds l Hl). nia.
Qed.

Lemma ring_index_lt slot : (ring_index slot < ring_size)%nat.
Proof.
  unfold ring_index. pose proof (Z.mod_pos_bound slot (Z.of_nat ring_size) ltac:(done)).
  unfold ring_size in *. lia.
Qed.

Lemma ring_index_eq s s' :
  ring_index s = ring_index s' -> s < s' -> s + 65 <= s'.
Proof.
  unfold ring_index. change (Z.of_nat ring_size) with 65. intros H Hlt.
  pose proof (Z.mod_pos_bound s 65 ltac:(done)). pose proof (Z.mod_pos_bound s' 65 ltac:(done)).
  apply Z2Nat.inj in H; [|lia..]. Z.div_mod_to_equations. lia.
Qed.

(** Sums over the ring. *)
Definition contribution (now : Z) (l : cc_limits) (b : bucket) : Z :=
  if live (slot_ b) now l then hits_ b else 0.
Fixpoint total_of {A} (f : A -> Z) (l : list A) : Z :=
  match l with [] => 0 | x :: l => f x + total_of f l end.

Lemma total_of_insert {A} (f : A -> Z) (l : list A) i x y :
  l !! i = Some x -> total_of f (<[i := y]> l) = total_of f l - f x + f y.
Proof.
  revert i. induction l as [|z l IH]; intros [|i] H; simplify_eq/=; [lia|].
  rewrite (IH i) by done. lia.
Qed.

Lemma total_of_nonneg {A} (f : A -> Z) (l : list A) :
  Forall (fun x => 0 <= f x) l -> 0 <= total_of f l.
Proof. induction 1; simpl; lia. Qed.

Lemma total_of_ge {A} (f : A -> Z) (l : list A) i x :
  Forall (fun x => 0 <= f x) l -> l !! i = Some x -> f x <= total_of f l.
Proof.
  intros Hl. revert i. induction Hl as [|y l Hy Hl IH]; intros [|i] H; simplify_eq/=.
  - pose proof (total_of_nonneg f l Hl). lia.
  - specialize (IH i H). lia.
Qed.

Lemma add_small a b : 0 <= a -> 0 <= b -> a + b < two64 -> add a b = a + b.
Proof. intros. unfold add. rewrite (proj2 (Z.ltb_ge _ _)) by lia. done. Qed.

(** Saturating accumulation is exact while the exact sum fits. *)
Lemma fold_add_exact {A} (f g : A -> Z) (P : A -> bool) (l : list A) acc :
  (forall x, f x = if P x then g x else 0) ->
  Forall (fun x => 0 <= f x) l -> 0 <= acc -> acc + total_of f l < two64 ->
  fold_left (fun sum x => if P x then add sum (g x) else sum) l acc = acc + total_of f l.
Proof.
  intros Hf Hl. revert acc. induction Hl as [|x l Hx Hl IH]; intros acc Ha Hb; simpl in *; [lia|].
  pose proof (total_of_nonneg f l Hl). rewrite Hf in *. destruct (P x).
  - rewrite add_small by lia. rewrite IH by lia. lia.
  - rewrite IH by lia. lia.
Qed.

(** The ring after the requests at the times [ts], the latest first. *)
Fixpoint ring (l : cc_limits) (ts : list Z) : list bucket :=
  match ts with
  | [] => replicate ring_size (mk_bucket 0 0)
  | t :: ts => hit (ring l ts) (slot_at t l)
  end.

(** Non-increasing times, none later than [now]. *)
Fixpoint history (now : Z) (ts : list Z) : Prop :=
  match ts with [] => True | t :: ts => 0 <= t <= now /\ history t ts end.

(** How many of the requests [P] holds of. *)
Definition count_of (P : Z -> bool) (ts : list Z) : Z := size (List.filter P ts).

(** Bucket [i] is empty or holds a slot of its own index, no later than the latest request. *)
Definition bucket_ok (latest : Z) (i : nat) (b : bucket) : Prop :=
  0 <= hits_ b /\ (hits_ b = 0 \/ ring_index (slot_ b) = i /\ 0 <= slot_ b <= latest).

Record ring_ok (l : cc_limits) (latest : Z) (bs : list bucket) : Prop := {
  ring_length : length bs = ring_size;
  ring_buckets : forall i b, bs !! i = Some b -> bucket_ok latest i b
}.

Lemma hit_lookup (bs : list bucket) slot :
  length bs = ring_size -> exists b, bs !! ring_index slot = Some b.
Proof. intros H. apply lookup_lt_is_Some_2. rewrite H. apply ring_index_lt. Qed.

Lemma hit_ok l latest bs slot :
  ring_ok l latest bs -> latest <= slot -> 0 <= slot -> total_of hits_ bs < two64 - 1 ->
  ring_ok l slot (hit bs slot) /\ total_of hits_ (hit bs slot) <= total_of hits_ bs + 1.
Proof.
  intros [Hlen Hb] Hle H0 Hsum. destruct (hit_lookup bs slot Hlen) as [b Eb].
  unfold hit. rewrite Eb. destruct (Hb _ _ Eb) as [Hpos Hcase].
  assert (hits_ b <= total_of hits_ bs) as Hmax.
  { apply (total_of_ge hits_ bs (ring_index slot)); [|done].
    apply Forall_lookup. intros i x Hx. by apply (Hb i x). }
  set (b' := if slot_ b =? slot then b else mk_bucket slot 0).
  assert (slot_ b' = slot /\ 0 <= hits_ b' <= hits_ b) as [Hs' Hh'].
  { unfold b'. destruct (slot_ b =? slot) eqn:E; reflect_bool; simpl; lia. }
  rewrite add_small by lia. split; [split|].
  - by rewrite length_insert.
  - intros i x Hx. apply list_lookup_insert_Some in Hx as [(<- & <- & _)|(Hne & Hx)].
    + split; cbn [hits_ slot_]; [lia|]. right. rewrite Hs'. split; [done|lia].
    + destruct (Hb i x Hx) as [H1 [H2|[H2 H3]]]; (split; [done|]); [by left|right; split; [done|lia]].
  - rewrite (total_of_insert hits_ bs _ b) by done. cbn [hits_]. lia.
Qed.

(** Recording a request adds one to the window sum at any later time that still sees its slot,
    and nothing else: what the reset drops was no longer live. *)
Lemma hit_contribution l latest bs slot now :
  ring_ok l latest bs -> latest <= slot -> 0 <= slot -> slot <= slot_at now l ->
  sane_limits l -> sane_time now -> total_of hits_ bs < two64 - 1 ->
  total_of (contribution now l) (hit bs slot) =
  total_of (contribution now l) bs + (if live slot now l then 1 else 0).
Proof.
  intros Hok Hle H0 Hslot Hl Hn Hsum. pose proof Hok as [Hlen Hb].
  destruct (hit_lookup bs slot Hlen) as [b Eb].
  destruct (Hb _ _ Eb) as [Hpos Hcase]. unfold hit. rewrite Eb.
  assert (hits_ b < two64 - 1) as Hsmall.
  { enough (hits_ b <= total_of hits_ bs) by lia.
    apply (total_of_ge hits_ bs (ring_index slot)); [|done].
    apply Forall_lookup. intros i x Hx. by apply (Hb i x). }
  destruct (slot_ b =? slot) eqn:E; reflect_bool.
  - rewrite (total_of_insert _ bs _ b) by done. unfold contribution at 2 3. cbn [slot_ hits_].
    rewrite E, add_small by lia. destruct (live slot now l); lia.
  - rewrite (total_of_insert _ bs _ b) by done. unfold contribution at 2 3. cbn [slot_ hits_].
    rewrite add_small by (unfold two64; lia).
    assert ((if live (slot_ b) now l then hits_ b else 0) = 0) as ->.
    { destruct Hcase as [->|[Hi Hs]]; [by destruct (live _ _ _)|].
      rewrite old_slot_dead; [done|done|done|lia|].
      pose proof (ring_index_eq (slot_ b) slot Hi). lia. }
    destruct (live slot now l); lia.
Qed.

Lemma count_of_cons P t ts : count_of P (t :: ts) = (if P t then 1 else 0) + count_of P ts.
Proof. unfold count_of, size. simpl. destruct (P t); simpl length; lia. Qed.

Lemma count_of_mono (P Q : Z -> bool) ts :
  (forall t, t ∈ ts -> P t = true -> Q t = true) -> count_of P ts <= count_of Q ts.
Proof.
  induction ts as [|t ts IH]; intros H; [done|]. rewrite !count_of_cons.
  assert (count_of P ts <= count_of Q ts) by (apply IH; set_solver).
  specialize (H t ltac:(set_solver)). destruct (P t); [rewrite H by done|destruct (Q t)]; lia.
Qed.

Lemma slot_at_mono t t' l : sane_limits l -> t <= t' -> slot_at t l <= slot_at t' l.
Proof. intros H%width_bounds Ht. apply Z.div_le_mono; lia. Qed.

Lemma history_weaken now now' ts : history now ts -> now <= now' -> history now' ts.
Proof. destruct ts; simpl; [done|]. intros [? ?] ?. split; [lia|done]. Qed.

Lemma history_in now ts t : history now ts -> t ∈ ts -> 0 <= t <= now.
Proof.
  revert now. induction ts as [|u ts IH]; intros now H Hin; [by apply elem_of_nil in Hin|].
  destruct H as [Hu Hts]. apply elem_of_cons in Hin as [->|Hin]; [done|].
  specialize (IH u Hts Hin). lia.
Qed.

Lemma empty_ring l now :
  ring_ok l 0 (ring l []) /\ total_of hits_ (ring l []) = 0 /\
  total_of (contribution now l) (ring l []) = 0.
Proof.
  split_and!; [split|done|].
  - done.
  - intros i b Hb. apply lookup_replicate in Hb as [-> _]. split; [done|]. by left.
  - cbn [ring]. generalize ring_size. intros n. induction n as [|n IH]; [done|]. simpl.
    rewrite IH. unfold contribution. simpl. by destruct (live 0 now l).
Qed.

Lemma ring_invariant l ts now :
  sane_limits l -> history now ts -> sane_time now -> size ts < two64 - 1 ->
  ring_ok l (slot_at now l) (ring l ts) /\ total_of hits_ (ring l ts) <= size ts /\
  total_of (contribution now l) (ring l ts) = count_of (fun t => live (slot_at t l) now l) ts.
Proof.
  intros Hl Hh Hn. pose proof (slot_at_bounds now l Hl Hn) as [Hs0 _].
  enough (forall at', history at' ts -> 0 <= at' <= now -> size ts < two64 - 1 ->
    ring_ok l (slot_at at' l) (ring l ts) /\ total_of hits_ (ring l ts) <= size ts /\
    total_of (contribution now l) (ring l ts) = count_of (fun t => live (slot_at t l) now l) ts)
    as H.
  { intros Hsz. apply H; [done|unfold sane_time in Hn; lia|done]. }
  clear Hh. induction ts as [|t ts IH]; intros at' Hh Hat Hsz.
  - destruct (empty_ring l now) as (H1 & H2 & H3). split_and!; [|by rewrite H2|done].
    destruct H1 as [Hlen Hb]. split; [done|]. intros i b Hib.
    destruct (Hb i b Hib) as [Hp [Hz|(Hi & Hs)]]; (split; [done|]); [by left|right].
    split; [done|]. pose proof (slot_at_mono 0 at' l Hl ltac:(lia)) as Hm.
    change (slot_at 0 l) with (0 / width l) in Hm. rewrite Z.div_0_l in Hm
      by (pose proof (width_bounds l Hl); lia). lia.
  - destruct Hh as [Ht Hh]. assert (size (t :: ts) = 1 + size ts) as Hc by (unfold size; simpl; lia).
    destruct (IH t Hh) as (H1 & H2 & H3); [lia|lia|].
    assert (sane_time t) as Hts by (unfold sane_time in *; lia).
    pose proof (slot_at_bounds t l Hl Hts) as [Ht0 _].
    pose proof (slot_at_mono t now l Hl ltac:(lia)). pose proof (slot_at_mono t at' l Hl ltac:(lia)).
    destruct (hit_ok l (slot_at t l) (ring l ts) (slot_at t l)) as [H4 H5]; [done|lia..|].
    cbn [ring]. split_and!.
    + destruct H4 as [Hlen Hb]. split; [done|]. intros i b Hib.
      destruct (Hb i b Hib) as [Hp [Hz|(Hi & Hs)]]; (split; [done|]); [by left|right].
      split; [done|lia].
    + lia.
    + rewrite (hit_contribution l (slot_at t l)) by (done || lia).
      rewrite count_of_cons, H3. lia.
Qed.

Lemma count_of_bound P ts : 0 <= count_of P ts <= size ts.
Proof. unfold count_of, size. pose proof (filter_length_le P ts). lia. Qed.

(** The window sum a check computes is the number of recorded requests whose bucket has not
    left the window: however often the ring was reused, no live request is lost and none is
    counted twice. *)
Theorem window_sum_exact l ts now :
  sane_limits l -> history now ts -> sane_time now -> size ts < two64 - 1 ->
  window_sum (ring l ts) now l = count_of (fun t => live (slot_at t l) now l) ts.
Proof.
  intros Hl Hh Hn Hsz. destruct (ring_invariant l ts now Hl Hh Hn Hsz) as ([_ Hb] & _ & H3).
  pose proof (count_of_bound (fun t => live (slot_at t l) now l) ts) as Hc.
  unfold window_sum.
  rewrite (fold_add_exact (contribution now l) hits_ (fun b => live (slot_ b) now l) (ring l ts) 0);
    [lia|done| |done|lia].
  apply Forall_lookup. intros i b Hib. destruct (Hb i b Hib) as [Hp _].
  unfold contribution. destruct (live _ _ _); lia.
Qed.

(** No request of the last [window_ms_] milliseconds escapes the count. *)
Lemma window_sum_recent l ts now :
  sane_limits l -> history now ts -> sane_time now -> size ts < two64 - 1 ->
  count_of (fun t => now - window_ms_ l <? t) ts <= window_sum (ring l ts) now l.
Proof.
  intros Hl Hh Hn Hsz. rewrite window_sum_exact by done. apply count_of_mono.
  intros t Ht Hr. reflect_bool. pose proof (history_in now ts t Hh Ht).
  apply recent_live; try done; unfold sane_time in *; lia.
Qed.

(** * The worker admits at most [requests_] requests per window *)

Section Run.
Context (k : cc_key) (l : cc_limits).
Hypothesis Hl : sane_limits l.

(** The entry of [k] is absent and nothing was recorded, or holds the ring of the history. *)
Definition tracks (w : cc_worker) (ts : list Z) : Prop :=
  match worker_entries_ w !! k with
  | None => ts = []
  | Some e => entry_limits_ e = l /\ buckets_ e = ring l ts
  end.

Lemma tracks_set w e ts :
  entry_limits_ e = l -> buckets_ e = ring l ts -> tracks (set_entry w k e) ts.
Proof. intros H1 H2. unfold tracks. cbn. by rewrite lookup_insert_eq. Qed.

(** A check either records the request or leaves the history as it is; if it allows the request,
    it recorded it and the window holds at most [requests_] requests, this one included. *)
Lemma check_tracks w ts now w' r :
  tracks w ts -> history now ts -> sane_time now -> size ts < two64 - 2 ->
  check w k l now = (w', r) ->
  exists ts', (ts' = ts \/ ts' = now :: ts) /\ tracks w' ts' /\
    (r = inl allow -> ts' = now :: ts /\
      count_of (fun t => now - window_ms_ l <? t) ts' <= requests_ l).
Proof.
  intros Htr Hh Hn Hsz. unfold check.
  destruct (match dispositions_ w with Some d => _ | None => false end).
  { intros [= <- <-]. exists ts. naive_solver. }
  destruct (match dispositions_ w with Some d => _ | None => false end).
  { intros [= <- <-]. exists ts. naive_solver. }
  assert (forall e, entry_limits_ e = l -> buckets_ e = ring l ts ->
    check_entry w k l now e = (w', r) ->
    exists ts', (ts' = ts \/ ts' = now :: ts) /\ tracks w' ts' /\
      (r = inl allow -> ts' = now :: ts /\
        count_of (fun t => now - window_ms_ l <? t) ts' <= requests_ l)) as Hentry.
  { intros e Hle Hbe. unfold check_entry. rewrite Hle, Hbe.
    rewrite bool_decide_eq_true_2 by done. cbn [negb].
    destruct (now <? entry_blocked_until_ e).
    { intros [= <- <-]. exists ts. split_and!; [by left|by apply tracks_set|done]. }
    change (hit (ring l ts) (slot_at now l)) with (ring l (now :: ts)).
    assert (size (now :: ts) = 1 + size ts) by (unfold size; simpl; lia).
    pose proof (window_sum_recent l (now :: ts) now Hl) as Hw. cbn [history] in Hw.
    unfold sane_time in *. destruct (requests_ l <? _) eqn:E; reflect_bool; intros [= <- <-];
      exists (now :: ts); (split_and!; [by right|by apply tracks_set|]); [done|].
    intros _. specialize (Hw ltac:(split; [lia|done]) Hn ltac:(lia)). split; [done|lia]. }
  unfold tracks in Htr. destruct (worker_entries_ w !! k) as [e|] eqn:Ek; [apply Hentry; tauto|].
  subst ts.
  destruct (_ <=? _); [intros [= <- <-]; exists []; split_and!; [by left|unfold tracks; by rewrite Ek|done]|].
  rewrite Hl. cbn [negb]. apply Hentry; done.
Qed.

(** A run of checks at the times [times]; the result lists the requests that were allowed, the
    latest first. *)
Fixpoint run (w : cc_worker) (times : list Z) (allowed : list Z) : cc_worker * list Z :=
  match times with
  | [] => (w, allowed)
  | now :: times' =>
      let '(w, r) := check w k l now in
      run w times' (match r with inl allow => now :: allowed | _ => allowed end)
  end.

(** The times of a run come in order. *)
Fixpoint in_order (from : Z) (times : list Z) : Prop :=
  match times with [] => True | t :: ts => from <= t /\ sane_time t /\ in_order t ts end.

(** At most [requests_] of the allowed requests fall into the window that ends at any of them. *)
Fixpoint limited (allowed : list Z) : Prop :=
  match allowed with
  | [] => True
  | now :: earlier =>
      count_of (fun t => now - window_ms_ l <? t) allowed <= requests_ l /\ limited earlier
  end.

Lemma count_of_sublist P (ts1 ts2 : list Z) :
  ts1 `sublist_of` ts2 -> count_of P ts1 <= count_of P ts2.
Proof.
  induction 1 as [|t ts1 ts2 _ IH|t ts1 ts2 _ IH]; [done| |]; rewrite ?count_of_cons;
    destruct (P t); lia.
Qed.

Lemma run_limited w times ts allowed from :
  tracks w ts -> history from ts -> in_order from times -> allowed `sublist_of` ts ->
  limited allowed -> size ts + size times < two64 - 2 ->
  limited (snd (run w times allowed)).
Proof.
  revert w ts allowed from. induction times as [|now times IH];
    intros w ts allowed from Htr Hh Hord Hsub Hlim Hsz; [done|].
  destruct Hord as (Hle & Hn & Hord). cbn [run].
  destruct (check w k l now) as [w' r] eqn:E.
  assert (size (now :: times) = 1 + size times) by (unfold size; simpl; lia).
  assert (0 <= size times) by (unfold size; lia).
  destruct (check_tracks w ts now w' r Htr) as (ts' & Hts' & Htr' & Hallow);
    [by eapply history_weaken|done|lia|done|].
  assert (history now ts' /\ size ts' <= 1 + size ts /\ allowed `sublist_of` ts') as (Hh' & Hsz' & Hsub').
  { destruct Hts' as [-> | ->].
    - split_and!; [by eapply history_weaken|lia|done].
    - split_and!; [split; [unfold sane_time in Hn; lia|by eapply history_weaken]|
        unfold size; simpl; lia|by apply sublist_cons]. }
  destruct r as [[]|]; try (apply (IH w' ts' _ now); done || lia).
  destruct Hallow as [-> Hcount]; [done|].
  apply (IH w' (now :: ts) _ now); try done; [by apply sublist_skip| |lia].
  split; [|done]. etrans; [|exact Hcount]. apply count_of_sublist. by apply sublist_skip.
Qed.

End Run.

(** Rate limiting: whatever the arrival times, a worker that starts without an entry for a
    client never allows more than [requests_] requests of this client within [window_ms_]
    milliseconds. *)
Theorem worker_rate_limit k l w times :
  sane_limits l -> worker_entries_ w !! k = None -> in_order 0 times ->
  size times < two64 - 2 -> limited l (snd (run k l w times [])).
Proof.
  intros Hl Hw Hord Hsz. apply (run_limited k l Hl w times [] [] 0); try done.
  unfold tracks. by rewrite Hw.
Qed.

Definition sample_key : cc_key := mk_cc_key (lit "site") (lit "cc") (lit "login") (lit "192.0.2.1").
Definition sample_limits : cc_limits := mk_limits 2 1000 1000.

Lemma window_sum_exact_witness :
  window_sum (ring sample_limits [5000; 4900; 1000]) 5000 sample_limits = 2.
Proof.
  rewrite (window_sum_exact sample_limits [5000; 4900; 1000] 5000).
  - vm_compute. reflexivity.
  - reflexivity.
  - simpl. lia.
  - unfold sane_time. lia.
  - unfold size. simpl. unfold two64. lia.
Defined.

Lemma worker_rate_limit_witness :
  limited sample_limits (snd (run sample_key sample_limits (new_worker 0 8) [10; 20; 30; 40; 1500] [])) /\
  snd (run sample_key sample_limits (new_worker 0 8) [10; 20; 30; 40; 1500] []) = [1500; 20; 10].
Proof.
  split; [|vm_compute; reflexivity].
  apply (worker_rate_limit sample_key sample_limits (new_worker 0 8) [10; 20; 30; 40; 1500]).
  - reflexivity.
  - reflexivity.
  - simpl. unfold sane_time. lia.
  - unfold size. simpl. unfold two64. lia.
Defined.

(** * The aggregator: reports as a join

    What an entry has recorded is a function of the slot and the worker: the largest absolute
    count this worker reported for this slot. Merging joins a report into it, so repeated and
    reordered reports do no harm. *)
Definition recorded (e : agg_entry) (slot instance : Z) : Z :=
  match agg_buckets_ e !! ring_index slot with
  | Some b => if agg_slot_ b =? slot then default 0 (agg_sources_ b !! instance) else 0
  | None => 0
  end.

Definition recorded_at (a : cc_aggregator) (k : cc_key) (slot instance : Z) : Z :=
  match agg_entries_ a !! k with Some e => recorded e slot instance | None => 0 end.

(** A slot that a report at [now] may still mention. *)
Definition current (now : Z) (l : cc_limits) (slot : Z) : Prop :=
  0 <= slot <= slot_at now l /\ live slot now l = true.

Lemma current_unique now l s s' :
  sane_limits l -> sane_time now -> current now l s -> current now l s' ->
  ring_index s = ring_index s' -> s = s'.
Proof.
  intros Hl Hn [Hs Hls] [Hs' Hls'] Hi.
  destruct (Z.lt_trichotomy s s') as [H|[H|H]]; [|done|].
  - pose proof (ring_index_eq s s' Hi H).
    rewrite (old_slot_dead s now l) in Hls by (done || lia). done.
  - pose proof (ring_index_eq s' s (eq_sym Hi) H).
    rewrite (old_slot_dead s' now l) in Hls' by (done || lia). done.
Qed.

Lemma count_source_length i c e :
  length (agg_buckets_ (count_source i c e)) = length (agg_buckets_ e).
Proof.
  unfold count_source. destruct (_ !! _) as [b|]; [|done].
  case_match; cbn [agg_buckets_]; by rewrite length_insert.
Qed.

Lemma count_source_limits i c e : agg_limits_ (count_source i c e) = agg_limits_ e.
Proof. unfold count_source. repeat case_match; done. Qed.

Lemma default_insert (m : gmap Z Z) i j v :
  default 0 (<[i := v]> m !! j) = if decide (i = j) then v else default 0 (m !! j).
Proof.
  destruct (decide (i = j)) as [->|H]; [by rewrite lookup_insert_eq|by rewrite lookup_insert_ne].
Qed.

Lemma recorded_insert e bs idx nb slot inst :
  length bs = ring_size -> (idx < ring_size)%nat -> agg_buckets_ e = <[idx := nb]> bs ->
  recorded e slot inst =
  if decide (ring_index slot = idx)
  then if agg_slot_ nb =? slot then default 0 (agg_sources_ nb !! inst) else 0
  else match bs !! ring_index slot with
       | Some b => if agg_slot_ b =? slot then default 0 (agg_sources_ b !! inst) else 0
       | None => 0
       end.
Proof.
  intros Hlen Hi He. unfold recorded. rewrite He.
  destruct (decide (ring_index slot = idx)) as [->|Hne].
  - by rewrite list_lookup_insert_eq by lia.
  - by rewrite list_lookup_insert_ne by congruence.
Qed.

(** Merging one count joins it at its own slot and worker and leaves every other current slot
    as it was. *)
Lemma recorded_count_source now l i c e slot inst :
  sane_limits l -> sane_time now -> length (agg_buckets_ e) = ring_size ->
  0 <= count_ c < two64 -> current now l (bucket_ c) -> current now l slot ->
  recorded (count_source i c e) slot inst =
  if decide (slot = bucket_ c /\ inst = i) then Z.max (recorded e slot inst) (count_ c)
  else recorded e slot inst.
Proof.
  intros Hl Hn Hlen Hc Hcur Hslot.
  assert (exists b, agg_buckets_ e !! ring_index (bucket_ c) = Some b) as [b Eb].
  { apply lookup_lt_is_Some_2. rewrite Hlen. apply ring_index_lt. }
  unfold count_source. rewrite Eb.
  set (b' := if agg_slot_ b =? bucket_ c then b else mk_source_bucket (bucket_ c) 0 ∅).
  assert (agg_slot_ b' = bucket_ c) as Hb'.
  { unfold b'. destruct (_ =? _) eqn:E; reflect_bool; done. }
  set (previous := default 0 (agg_sources_ b' !! i)).
  assert (forall j, recorded e (bucket_ c) j = default 0 (agg_sources_ b' !! j)) as Hrec.
  { intros j. unfold recorded, b'. rewrite Eb. by destruct (_ =? _). }
  assert (forall tot v bl ch, recorded (mk_agg_entry (agg_limits_ e)
      (<[ring_index (bucket_ c) := mk_source_bucket (agg_slot_ b') tot (<[i := v]> (agg_sources_ b'))]>
         (agg_buckets_ e)) bl ch) slot inst =
    if decide (slot = bucket_ c /\ inst = i) then v else recorded e slot inst) as Hnew.
  { intros tot v bl ch.
    erewrite (recorded_insert _ (agg_buckets_ e) (ring_index (bucket_ c)));
      [|done|apply ring_index_lt|reflexivity].
    cbn [agg_slot_ agg_sources_]. rewrite Hb', default_insert.
    destruct (decide (ring_index slot = ring_index (bucket_ c))) as [Hi|Hi].
    - apply (current_unique now l) in Hi as ->; [|done..]. rewrite Z.eqb_refl, Hrec.
      repeat case_decide; naive_solver.
    - rewrite decide_False by naive_solver. done. }
  destruct (previous <? count_ c) eqn:E; reflect_bool; rewrite Hnew;
    (case_decide as Hd; [destruct Hd as [-> ->]; rewrite Hrec; fold previous; lia|done]).
Qed.

(** Every entry has a full ring. *)
Definition agg_ok (a : cc_aggregator) : Prop :=
  forall k e, agg_entries_ a !! k = Some e ->
    length (agg_buckets_ e) = ring_size /\ sane_limits (agg_limits_ e).

Definition count_ok (c : cc_count) : Prop := 0 <= count_ c < two64 /\ 0 <= bucket_ c.

(** Whether the loop of [merge] takes a count into account. *)
Definition accepted (observed now : Z) (c : cc_count) : bool :=
  live (bucket_ c) now (limits_ c) && (bucket_ c <=? observed / width (limits_ c)).

Lemma accepted_current observed now c :
  sane_limits (limits_ c) -> observed <= now -> count_ok c -> accepted observed now c = true ->
  current now (limits_ c) (bucket_ c).
Proof.
  intros Hl Ho [_ Hb] Ha. unfold accepted in Ha. reflect_bool. split; [|done].
  split; [done|]. etrans; [done|]. apply Z.div_le_mono; [|done]. pose proof (width_bounds _ Hl). lia.
Qed.

(** Nothing is left to do for [c]: it is not acceptable, already joined, or there is no room. *)
Definition settled (i observed now : Z) (a : cc_aggregator) (c : cc_count) : Prop :=
  sane_limits (limits_ c) /\
  (accepted observed now c = false \/
   (exists e, agg_entries_ a !! key_ c = Some e /\ agg_limits_ e = limits_ c /\
      count_ c <= recorded e (bucket_ c) i) \/
   agg_entries_ a !! key_ c = None /\ agg_capacity_ a <= map_size (agg_entries_ a)).

Lemma merge_count_guard observed now c :
  negb (live (bucket_ c) now (limits_ c)) || (observed / width (limits_ c) <? bucket_ c) =
  negb (accepted observed now c).
Proof.
  unfold accepted. rewrite negb_andb. f_equal. rewrite Z.ltb_antisym. done.
Qed.

Lemma new_agg_entry_recorded l slot inst : recorded (new_agg_entry l) slot inst = 0.
Proof.
  unfold recorded. cbn [new_agg_entry agg_buckets_].
  destruct (replicate _ _ !! _) as [b|] eqn:E; [|done].
  apply lookup_replicate in E as [-> _]. cbn. by case_match.
Qed.

(** The effect of one count on what is recorded, by cases. *)
Lemma merge_count_spec i observed now a c a' :
  sane_time now -> observed <= now -> agg_ok a -> count_ok c ->
  merge_count i observed now a c = (a', None) ->
  agg_ok a' /\ agg_capacity_ a' = agg_capacity_ a /\
  map_size (agg_entries_ a) <= map_size (agg_entries_ a') /\ settled i observed now a' c /\
  (forall k e, agg_entries_ a !! k = Some e ->
     exists e', agg_entries_ a' !! k = Some e' /\ agg_limits_ e' = agg_limits_ e) /\
  (agg_capacity_ a <= map_size (agg_entries_ a) -> map_size (agg_entries_ a') = map_size (agg_entries_ a) /\
     forall k, agg_entries_ a !! k = None -> agg_entries_ a' !! k = None) /\
  (forall k slot inst e, agg_entries_ a !! k = Some e -> current now (agg_limits_ e) slot ->
     recorded_at a k slot inst <= recorded_at a' k slot inst).
Proof.
  intros Hn Ho Hok Hc. unfold merge_count. destruct (limits_valid (limits_ c)) eqn:Hl; [|done].
  cbn [negb]. rewrite merge_count_guard.
  destruct (accepted observed now c) eqn:Hacc; cbn [negb].
  2:{ intros [= <-]. split_and!; try done; [split; [done|by left]|naive_solver]. }
  pose proof (accepted_current observed now c Hl Ho Hc Hacc) as Hcur.
  destruct (agg_entries_ a !! key_ c) as [e|] eqn:Ee.
  - destruct (agg_limits_ e != limits_ c) eqn:Hlim; [done|]. reflect_bool. intros [= <-].
    destruct (Hok _ _ Ee) as [Hlen Hel].
    assert (forall slot inst, current now (agg_limits_ e) slot ->
      recorded (count_source i c e) slot inst = if decide (slot = bucket_ c /\ inst = i)
        then Z.max (recorded e slot inst) (count_ c) else recorded e slot inst) as Hrec.
    { intros slot inst Hs. rewrite Hlim in Hs.
      apply (recorded_count_source now (limits_ c)); try done; apply Hc. }
    split_and!; try done.
    + intros k e' Hk. cbn in Hk. apply lookup_insert_Some in Hk as [(_ & <-)|(_ & Hk)]; [|by apply (Hok k)].
      by rewrite count_source_length, count_source_limits.
    + cbn. unfold map_size. rewrite map_size_insert_Some by eauto. lia.
    + split; [done|]. right. left. exists (count_source i c e). cbn.
      rewrite lookup_insert_eq, count_source_limits. split_and!; [done|done|].
      rewrite Hrec by (by rewrite Hlim). rewrite decide_True by done. lia.
    + intros k e' Hk. cbn. destruct (decide (key_ c = k)) as [<-|Hne].
      * rewrite lookup_insert_eq. eexists. split; [done|]. rewrite count_source_limits. congruence.
      * rewrite lookup_insert_ne by done. eauto.
    + intros _. cbn. split; [unfold map_size; by rewrite map_size_insert_Some by eauto|].
      intros k Hk. rewrite lookup_insert_ne; [done|congruence].
    + intros k slot inst e' Hk Hs. unfold recorded_at. cbn.
      destruct (decide (key_ c = k)) as [<-|Hne].
      * rewrite lookup_insert_eq, Ee. simplify_eq. rewrite Hrec by done. case_decide; lia.
      * by rewrite lookup_insert_ne by done.
  - destruct (agg_capacity_ a <=? map_size (agg_entries_ a)) eqn:Hcap; reflect_bool; intros [= <-].
    + split_and!; try done; [split; [done|]; right; right; done|naive_solver].
    + set (e := new_agg_entry (limits_ c)).
      assert (length (agg_buckets_ e) = ring_size) as Hlen by done.
      split_and!; try done.
      * intros k e' Hk. cbn in Hk. apply lookup_insert_Some in Hk as [(_ & <-)|(_ & Hk)];
          [|by apply (Hok k)]. by rewrite count_source_length, count_source_limits.
      * cbn. unfold map_size. rewrite map_size_insert_None by done. lia.
      * split; [done|]. right. left. exists (count_source i c e). cbn.
        rewrite lookup_insert_eq, count_source_limits. split_and!; [done|done|].
        rewrite (recorded_count_source now (limits_ c)) by (done || apply Hc).
        rewrite decide_True by done. lia.
      * intros k e' Hk. cbn. rewrite lookup_insert_ne by congruence. eauto.
      * lia.
      * intros k slot inst e' Hk Hs. unfold recorded_at. cbn. by rewrite lookup_insert_ne by congruence.
Qed.

(** States that differ in no decision: same entries, and in each of them the same limits,
    mitigation and change mark, and the same records of all slots still current at [now]. *)
Definition entry_equiv (now : Z) (e e' : agg_entry) : Prop :=
  agg_limits_ e = agg_limits_ e' /\ agg_blocked_until_ e = agg_blocked_until_ e' /\
  changed_ e = changed_ e' /\
  forall slot inst, current now (agg_limits_ e) slot -> recorded e slot inst = recorded e' slot inst.

Definition agg_equiv (now : Z) (a a' : cc_aggregator) : Prop :=
  forall k, match agg_entries_ a !! k, agg_entries_ a' !! k with
            | Some e, Some e' => entry_equiv now e e'
            | None, None => True
            | _, _ => False
            end.

#[export] Instance entry_equiv_equivalence now : Equivalence (entry_equiv now).
Proof.
  split.
  - intros e. by split_and!.
  - intros e e' (H1 & H2 & H3 & H4). split_and!; try done. intros. rewrite H4; [done|congruence].
  - intros e e' e'' (H1 & H2 & H3 & H4) (G1 & G2 & G3 & G4). split_and!; try congruence.
    intros slot inst Hs. rewrite H4, G4; [done|congruence|done].
Qed.

#[export] Instance agg_equiv_equivalence now : Equivalence (agg_equiv now).
Proof.
  split.
  - intros a k. by destruct (agg_entries_ a !! k).
  - intros a a' H k. specialize (H k). destruct (agg_entries_ a !! k), (agg_entries_ a' !! k); try done;
      by symmetry.
  - intros a a' a'' H G k. specialize (H k). specialize (G k).
    destruct (agg_entries_ a !! k), (agg_entries_ a' !! k), (agg_entries_ a'' !! k); try done;
      by etrans.
Qed.

Lemma settled_later i observed observed' now now' a c :
  (accepted observed' now' c = true -> accepted observed now c = true) ->
  settled i observed now a c -> settled i observed' now' a c.
Proof.
  intros Himp [Hl H]. split; [done|].
  destruct (accepted observed' now' c) eqn:E; [|by left]. rewrite Himp in H by done.
  destruct H as [H|[H|H]]; [done|right; by left|right; by right].
Qed.

Section Settled.
Context (i observed now : Z).
Hypothesis Hn : sane_time now.
Hypothesis Ho : observed <= now.

Lemma settled_preserved a a' c c' :
  agg_ok a -> count_ok c -> count_ok c' -> settled i observed now a c ->
  merge_count i observed now a c' = (a', None) -> settled i observed now a' c.
Proof.
  intros Hok Hc Hc' [Hl Hs] Hm. destruct (accepted observed now c) eqn:Hacc; [|split; [done|by left]].
  pose proof (accepted_current observed now c Hl Ho Hc Hacc) as Hcur.
  destruct (merge_count_spec i observed now a c' a' Hn Ho Hok Hc' Hm)
    as (_ & Hcap & Hsize & _ & Hkeep & Hfull & Hmono).
  split; [done|]. destruct Hs as [?|[(e & He & Hlim & Hrec)|(Hnone & Hroom)]]; [done| |].
  - right. left. destruct (Hkeep _ _ He) as (e' & He' & Hlim'). exists e'.
    split_and!; [done|congruence|].
    specialize (Hmono (key_ c) (bucket_ c) i e He). unfold recorded_at in Hmono.
    rewrite He, He', Hlim in Hmono. specialize (Hmono Hcur). lia.
  - right. right. destruct (Hfull Hroom) as [Hsz Hnk]. rewrite Hcap, Hsz. split; [by apply Hnk|done].
Qed.

(** A settled count changes no decision. *)
Lemma settled_noop a c :
  agg_ok a -> count_ok c -> settled i observed now a c ->
  exists a', merge_count i observed now a c = (a', None) /\ agg_equiv now a a'.
Proof.
  intros Hok Hc [Hl Hs]. unfold merge_count. rewrite Hl. cbn [negb]. rewrite merge_count_guard.
  destruct (accepted observed now c) eqn:Hacc; cbn [negb]; [|by exists a].
  pose proof (accepted_current observed now c Hl Ho Hc Hacc) as Hcur.
  destruct Hs as [?|[(e & He & Hlim & Hrec)|(Hnone & Hroom)]]; [done| |].
  - rewrite He, Hlim, bool_decide_eq_true_2 by done. cbn [negb]. eexists. split; [done|].
    intros k. cbn. destruct (Hok _ _ He) as [Hlen Hel].
    destruct (decide (key_ c = k)) as [<-|Hne].
    2:{ rewrite lookup_insert_ne by done. by destruct (agg_entries_ a !! k). }
    rewrite He, lookup_insert_eq.
    split_and!; [by rewrite count_source_limits| | |].
    1,2: unfold count_source; destruct (agg_buckets_ e !! _) as [b|] eqn:Eb; [|done];
      unfold recorded in Hrec; rewrite Eb in Hrec; destruct (agg_slot_ b =? bucket_ c) eqn:E;
      cbn [agg_sources_]; rewrite ?lookup_empty; cbn [default];
      rewrite (proj2 (Z.ltb_ge _ _)) by done; done.
    intros slot inst Hslot. rewrite Hlim in Hslot.
    rewrite (recorded_count_source now (limits_ c)) by (done || apply Hc).
    case_decide as Hd; [|done]. destruct Hd as [-> ->]. lia.
  - rewrite Hnone, (proj2 (Z.leb_le _ _)) by done. eexists. split; [done|].
    intros k. cbn. by destruct (agg_entries_ a !! k).
Qed.

Lemma merge_counts_settles counts a a' :
  agg_ok a -> Forall count_ok counts -> merge_counts i observed now a counts = (a', None) ->
  agg_ok a' /\ Forall (settled i observed now a') counts /\
  forall c, count_ok c -> settled i observed now a c -> settled i observed now a' c.
Proof.
  intros Hok Hall. revert a Hok. induction Hall as [|c counts Hc Hall IH]; intros a Hok Hm; cbn in Hm.
  { by simplify_eq. }
  destruct (merge_count i observed now a c) as [a1 [e|]] eqn:E; [done|].
  destruct (merge_count_spec i observed now a c a1 Hn Ho Hok Hc E) as (Hok1 & _ & _ & Hs & _).
  destruct (IH a1 Hok1 Hm) as (Hok' & Hset & Hpres). split_and!; [done| |].
  - constructor; [by apply Hpres|done].
  - intros c' Hc' Hs'. apply Hpres; [done|]. by apply (settled_preserved a a1 c' c).
Qed.

Lemma merge_counts_noop counts a :
  agg_ok a -> Forall count_ok counts -> Forall (settled i observed now a) counts ->
  exists a', merge_counts i observed now a counts = (a', None) /\ agg_equiv now a a'.
Proof.
  intros Hok Hall. revert a Hok. induction Hall as [|c counts Hc Hall IH]; intros a Hok Hset.
  { by exists a. }
  apply Forall_cons in Hset as [Hs Hset]. cbn.
  destruct (settled_noop a c Hok Hc Hs) as (a1 & E & Heq). rewrite E.
  destruct (merge_count_spec i observed now a c a1 Hn Ho Hok Hc E) as (Hok1 & _).
  destruct (IH a1 Hok1) as (a2 & E2 & Heq2).
  { rewrite Forall_forall in Hset, Hall |- *. intros c' Hc'.
    eapply (settled_preserved a a1 c' c); eauto. }
  exists a2. split; [done|]. by etrans.
Qed.
End Settled.

(** Retries are idempotent: when a worker reports the same absolute counts again, under
    another sequence number and at any later time, merging them raises no exception and changes
    no decision: same entries, mitigations and change marks, same records of the current slots. *)
Theorem merge_retry a a1 instance sequence sequence' observed observed' now now' counts :
  agg_ok a -> sane_time now -> sane_time now' -> now <= now' ->
  observed <= now -> observed' <= now' ->
  Forall count_ok counts ->
  Forall (fun c => sane_limits (limits_ c) /\ bucket_ c <= observed / width (limits_ c)) counts ->
  instance < worker_count_ a -> default 0 (agg_sequences_ a !! instance) < sequence ->
  merge a (mk_batch instance sequence observed counts) now = (a1, None) ->
  exists a2, merge a1 (mk_batch instance sequence' observed' counts) now' = (a2, None) /\
    agg_equiv now' a1 a2.
Proof.
  intros Hok Hn Hn' Hle Ho Ho' Hcs Hhonest Hinst Hseq Hm.
  unfold merge in Hm. cbn [instance_ sequence_ observed_ms_ counts_] in Hm.
  rewrite (proj2 (Z.leb_gt _ _)), (proj2 (Z.ltb_ge _ _)), (proj2 (Z.leb_gt _ _)) in Hm by done.
  destruct (merge_counts_settles instance observed now Hn Ho counts
    (with_sequence a instance sequence) a1 Hok Hcs Hm) as (Hok1 & Hset & _).
  unfold merge. cbn [instance_ sequence_ observed_ms_ counts_].
  destruct (_ <=? instance); [by exists a1|]. rewrite (proj2 (Z.ltb_ge _ _)) by done.
  destruct (sequence' <=? _).
  { eexists. split; [done|]. intros k. cbn. by destruct (agg_entries_ a1 !! k). }
  destruct (merge_counts_noop instance observed' now' Hn' Ho' counts
    (with_sequence a1 instance sequence') Hok1 Hcs) as (a2 & E & Heq).
  - rewrite Forall_forall in Hset, Hhonest, Hcs |- *. intros c Hc.
    apply (settled_later instance observed observed' now now'); [|by apply Hset].
    destruct (Hhonest c Hc) as [Hl Hb]. destruct (Hcs c Hc) as [_ Hb0]. unfold accepted. intros Ha.
    reflect_bool. apply andb_true_iff. split; [|by apply Z.leb_le].
    pose proof (width_bounds _ Hl).
    assert (bucket_ c <= slot_at now (limits_ c)) by (etrans; [exact Hb|]; apply Z.div_le_mono; lia).
    apply live_spec; [done|done|lia|].
    pose proof (slot_at_mono now now' (limits_ c) Hl Hle).
    match goal with H : live _ _ _ = true |- _ => rewrite live_spec in H by (done || lia) end. lia.
  - exists a2. split; [done|]. etrans; [|exact Heq]. intros k. cbn.
    by destruct (agg_entries_ a1 !! k).
Qed.

Lemma snapshot_entries a now k :
  agg_entries_ (fst (snapshot a now)) !! k = agg_entries_ a !! k ≫= snapshot_entry now.
Proof. cbn. apply lookup_omap. Qed.

Lemma snapshot_blocked a now k :
  blocked_until_ (snd (snapshot a now)) !! k =
  agg_entries_ (fst (snapshot a now)) !! k ≫= entry_block now.
Proof. cbn. by rewrite lookup_omap. Qed.

Lemma snapshot_entry_kept now e e' :
  snapshot_entry now e = Some e' ->
  changed_ e' = false /\ agg_limits_ e' = agg_limits_ e /\
  (changed_ e = false -> agg_blocked_until_ e' = agg_blocked_until_ e).
Proof.
  unfold snapshot_entry. case_match; intros [= <-]. cbn. split_and!; [done|done|].
  by intros ->.
Qed.

(** A mitigation is not renewed because the same counters are sent again: after a snapshot,
    any merge that changes no decision (such as a retry) is followed by a snapshot that publishes
    no mitigation the first one did not publish with the same end. *)
Theorem snapshot_no_renewal a now a' now' k until :
  now <= now' -> agg_equiv now' (fst (snapshot a now)) a' ->
  blocked_until_ (snd (snapshot a' now')) !! k = Some until ->
  blocked_until_ (snd (snapshot a now)) !! k = Some until.
Proof.
  intros Hle Heq. rewrite !snapshot_blocked. rewrite (snapshot_entries a').
  specialize (Heq k). destruct (agg_entries_ (fst (snapshot a now)) !! k) as [e|] eqn:E1;
    destruct (agg_entries_ a' !! k) as [e'|] eqn:E2; try done. cbn [mbind option_bind].
  destruct Heq as (Hlim & Hbl & Hch & _).
  rewrite snapshot_entries in E1. destruct (agg_entries_ a !! k) as [e0|]; [|done].
  cbn [mbind option_bind] in E1. apply snapshot_entry_kept in E1 as (Hc & _ & _).
  destruct (snapshot_entry now' e') as [e2|] eqn:E3; [|done].
  apply snapshot_entry_kept in E3 as (_ & _ & Hb). cbn [mbind option_bind].
  unfold entry_block. rewrite Hb, <- Hbl by congruence.
  destruct (now' <? agg_blocked_until_ e) eqn:E4; [|done]. reflect_bool. intros [= <-].
  by rewrite (proj2 (Z.ltb_lt _ _)) by lia.
Qed.

(** Mitigations take effect: once the live counts of all workers exceed the limit, the next
    snapshot publishes a mitigation, and every worker that receives it blocks the client until
    the mitigation ends, whatever its own counters say. *)
Theorem mitigation_enforced a now k e w l' now' :
  agg_entries_ a !! k = Some e -> changed_ e = true -> sane_limits (agg_limits_ e) ->
  requests_ (agg_limits_ e) < live_total now (agg_limits_ e) (agg_buckets_ e) ->
  agg_blocked_until_ e <= now -> sane_time now -> agg_saturated_until_ a <= now ->
  (forall d, dispositions_ w = Some d ->
     disposition_sequence_ d < disposition_sequence_ (snd (snapshot a now))) ->
  now <= now' < now + mitigation_ms_ (agg_limits_ e) ->
  snd (check (publish w (Some (snd (snapshot a now)))) k l' now') = inl block.
Proof.
  intros He Hch Hl Hsum Hbl Hn Hsat Hnew Hnow'.
  assert (1000 <= mitigation_ms_ (agg_limits_ e) <= 86400000) as Hm.
  { unfold sane_limits, limits_valid in Hl. reflect_bool. lia. }
  assert (blocked_until_ (snd (snapshot a now)) !! k = Some (now + mitigation_ms_ (agg_limits_ e))) as Hd.
  { rewrite snapshot_blocked, snapshot_entries, He. cbn [mbind option_bind].
    unfold snapshot_entry. rewrite Hch, (proj2 (Z.ltb_lt (requests_ _) _)),
      (proj2 (Z.leb_le (agg_blocked_until_ e) now)) by done.
    cbn [andb]. unfold sane_time in Hn. rewrite u64_small by (unfold is_u64, two64; lia).
    rewrite (proj2 (Z.leb_gt (now + _) now)), andb_false_r by lia.
    cbn [mbind option_bind]. unfold entry_block. cbn [agg_blocked_until_].
    by rewrite (proj2 (Z.ltb_lt now _)) by lia. }
  assert (dispositions_ (publish w (Some (snd (snapshot a now)))) = Some (snd (snapshot a now))) as Hp.
  { unfold publish. destruct (dispositions_ w) as [d|] eqn:E; [|done].
    by rewrite (proj2 (Z.ltb_lt _ _)) by auto. }
  unfold check. rewrite Hp, Hd.
  assert (saturated_until_ (snd (snapshot a now)) = 0) as ->.
  { cbn. by rewrite (proj2 (Z.ltb_ge _ _)) by done. }
  unfold sane_time in Hn. rewrite (proj2 (Z.ltb_ge now' 0)) by lia.
  by rewrite (proj2 (Z.ltb_lt now' _)) by lia.
Qed.

(** Two workers, two requests each, a limit of two: each one alone stays within the limit. *)
Definition sample_counts (now : Z) : list cc_count :=
  [mk_count sample_key sample_limits (slot_at now sample_limits) 2].
Definition sample_merged : cc_aggregator :=
  fst (merge (fst (merge (new_aggregator 2 8) (mk_batch 0 1 5000 (sample_counts 5000)) 5000))
         (mk_batch 1 1 5000 (sample_counts 5000)) 5000).

Lemma merge_retry_witness :
  exists a2, merge (fst (merge (new_aggregator 2 8) (mk_batch 0 1 5000 (sample_counts 5000)) 5000))
      (mk_batch 0 2 5100 (sample_counts 5000)) 5100 = (a2, None) /\
    agg_equiv 5100 (fst (merge (new_aggregator 2 8) (mk_batch 0 1 5000 (sample_counts 5000)) 5000)) a2.
Proof.
  apply (merge_retry (new_aggregator 2 8) _ 0 1 2 5000 5100 5000 5100 (sample_counts 5000));
    try (unfold sane_time; lia).
  - intros k e H. cbn in H. by rewrite lookup_empty in H.
  - repeat constructor; vm_compute; congruence.
  - repeat constructor; vm_compute; congruence.
  - vm_compute. reflexivity.
  - vm_compute. reflexivity.
  - vm_compute. reflexivity.
Defined.

Lemma snapshot_no_renewal_witness :
  blocked_until_ (snd (snapshot sample_merged 5000)) !! sample_key = Some 6000 /\
  blocked_until_ (snd (snapshot (fst (snapshot sample_merged 5000)) 5500)) !! sample_key = Some 6000.
Proof.
  assert (blocked_until_ (snd (snapshot (fst (snapshot sample_merged 5000)) 5500)) !! sample_key
    = Some 6000) as H by (vm_compute; reflexivity).
  split; [|exact H].
  apply (snapshot_no_renewal sample_merged 5000 (fst (snapshot sample_merged 5000)) 5500); [lia| |exact H].
  reflexivity.
Defined.

Lemma mitigation_enforced_witness :
  snd (check (publish (new_worker 0 8) (Some (snd (snapshot sample_merged 5000)))) sample_key
         sample_limits 5999) = inl block.
Proof.
  destruct (agg_entries_ sample_merged !! sample_key) as [e|] eqn:E; [|vm_compute in E; discriminate].
  pose proof (mitigation_enforced sample_merged 5000 sample_key e (new_worker 0 8) sample_limits 5999 E) as H.
  vm_compute in E. injection E as E. subst e.
  apply H; try reflexivity.
  - vm_compute. discriminate.
  - unfold sane_time. lia.
  - vm_compute. discriminate.
  - intros d Hd. discriminate.
  - vm_compute. split; [discriminate|reflexivity].
Defined.
