(* ===== verification/OriginHealth.v ===== *)
(** Health of origins: src/node/data/origin_health.h.

    Streak counting of one origin, the owner loop's state with its pending memberships (entries
    are shared between the active and the prepared state, so they live in a store), the immutable
    snapshots and their merge into a control report. *)
From S2P Require Import Prelude.
Open Scope Z_scope.

(** [origin_health_key] and its borrowed view compare by the two identifiers. *)
Abbreviation origin_health_key := (bytes * bytes)%type.

(** * Snapshots *)

Record origin := mk_origin {
  id_ : Z;
  healthy_ : bool;
  checked_at_unix_millis_ : Z;
  latency_millis_ : Z;
  last_error_ : bytes
}.
Abbreviation origin_health_snapshot := (gmap origin_health_key origin).

Definition healthy (s : origin_health_snapshot) (key : origin_health_key) : bool :=
  match s !! key with None => true | Some value => healthy_ value end.

Definition all_healthy (s : origin_health_snapshot) : bool :=
  forallb (fun entry => healthy_ (entry.2)) (map_to_list s).

Record origin_health_report := mk_report {
  report_key_ : origin_health_key;
  status_ : bytes;
  report_checked_at_ : Z;
  report_latency_ : Z;
  report_error_ : bytes
}.
Definition report_of (entry : origin_health_key * origin) : origin_health_report :=
  let '(key, value) := entry in
  mk_report key
    (if negb (healthy_ value) then lit "unhealthy"
     else if checked_at_unix_millis_ value =? 0 then lit "unknown" else lit "healthy")
    (checked_at_unix_millis_ value) (latency_millis_ value) (last_error_ value).
Definition reports (s : origin_health_snapshot) : list origin_health_report :=
  map report_of (map_to_list s).

(** [std::tie(checked_at, last_error, latency)], compared lexicographically. *)
Definition diagnostic_compare (a b : origin) : comparison :=
  then_compare (checked_at_unix_millis_ a ?= checked_at_unix_millis_ b)
    (then_compare (bytes_compare (last_error_ a) (last_error_ b))
       (latency_millis_ a ?= latency_millis_ b)).

Definition with_id (id : Z) (o : origin) : origin :=
  mk_origin id (healthy_ o) (checked_at_unix_millis_ o) (latency_millis_ o) (last_error_ o).
Definition with_healthy (h : bool) (o : origin) : origin :=
  mk_origin (id_ o) h (checked_at_unix_millis_ o) (latency_millis_ o) (last_error_ o).

(** The body of the inner loop of [merge] for a key that is already there. *)
Definition merge_origin (merged value : origin) : origin :=
  let healthy := healthy_ merged && healthy_ value in
  let unknown := (checked_at_unix_millis_ merged =? 0) || (checked_at_unix_millis_ value =? 0) in
  let greater := match diagnostic_compare value merged with Gt => true | _ => false end in
  let merged :=
    if (healthy_ merged && negb (healthy_ value)) ||
       (Bool.eqb (healthy_ merged) (healthy_ value) && greater)
    then value else merged in
  let merged := with_healthy healthy merged in
  let merged := if healthy && unknown then mk_origin (id_ merged) healthy 0 0 [] else merged in
  with_id 0 merged.

(** Keys are independent of each other, so the order of the inner loop does not matter. *)
Definition merge_into (origins snapshot : origin_health_snapshot) : origin_health_snapshot :=
  merge (fun merged value =>
    match merged, value with
    | Some merged, Some value => Some (merge_origin merged value)
    | None, Some value => Some (with_id 0 value)
    | merged, None => merged
    end) origins snapshot.
Definition merge_snapshots (snapshots : list origin_health_snapshot) : origin_health_snapshot :=
  fold_left merge_into snapshots ∅.

(** * Entries *)

Definition max_u32 : Z := 4294967295.

Record origin_health_entry := mk_entry {
  entry_id_ : Z;
  entry_healthy_ : bool;
  last_success_ : bool;
  streak_ : Z;
  last_probe_ : Z;
  probed_ : bool;
  entry_checked_at_ : Z;
  entry_latency_ : Z;
  entry_error_ : bytes
}.

Definition new_entry (id : Z) : origin_health_entry :=
  mk_entry id true true 0 0 false 0 0 [].

Definition record_entry (e : origin_health_entry) (success : bool) (threshold : Z) :
    origin_health_entry * bool :=
  let same := Bool.eqb success (last_success_ e) in
  let streak := if same then (if streak_ e =? max_u32 then streak_ e else streak_ e + 1) else 1 in
  let healthy := if threshold <=? streak then success else entry_healthy_ e in
  (mk_entry (entry_id_ e) healthy success streak (last_probe_ e) (probed_ e)
     (entry_checked_at_ e) (entry_latency_ e) (entry_error_ e),
   negb (Bool.eqb healthy (entry_healthy_ e))).

(** * The owner loop's state

    [heap_] holds the shared entries; the entry maps of the active and of a prepared state hold
    locations, so both see a result recorded through either. *)
Record origin_health_state := mk_state {
  heap_ : gmap nat origin_health_entry;
  next_ : nat;
  entries_ : gmap origin_health_key nat;
  last_id_ : Z
}.
Abbreviation prepared := (gmap origin_health_key nat).

Definition new_state : origin_health_state := mk_state ∅ 0 ∅ 0.

(** One iteration of [prepare]; [next] is the map under construction. *)
Definition prepare_key (replaced : gset origin_health_key)
    (acc : origin_health_state * prepared) (key : origin_health_key) : origin_health_state * prepared :=
  let '(s, next) := acc in
  match entries_ s !! key with
  | Some loc =>
      if bool_decide (key ∈ replaced) then
        let id := u64 (last_id_ s + 1) in
        (mk_state (<[next_ s := new_entry id]> (heap_ s)) (S (next_ s)) (entries_ s) id,
         <[key := next_ s]> next)
      else (s, <[key := loc]> next)
  | None =>
      let id := u64 (last_id_ s + 1) in
      (mk_state (<[next_ s := new_entry id]> (heap_ s)) (S (next_ s)) (entries_ s) id,
       <[key := next_ s]> next)
  end.

(** [keys] lists the key set in its iteration order. *)
Definition prepare (s : origin_health_state) (keys : list origin_health_key)
    (replaced : gset origin_health_key) : origin_health_state * prepared :=
  fold_left (prepare_key replaced) keys (s, ∅).

Definition activate (s : origin_health_state) (next : prepared) : origin_health_state * prepared :=
  (mk_state (heap_ s) (next_ s) next (last_id_ s), entries_ s).

Definition set_heap (s : origin_health_state) (loc : nat) (e : origin_health_entry) : origin_health_state :=
  mk_state (<[loc := e]> (heap_ s)) (next_ s) (entries_ s) (last_id_ s).

Definition record (s : origin_health_state) (key : origin_health_key) (id : Z) (success : bool)
    (threshold : Z) : origin_health_state * bool :=
  match entries_ s !! key with
  | None => (s, false)
  | Some loc =>
      match heap_ s !! loc with
      | None => (s, false)
      | Some e =>
          if negb (entry_id_ e =? id) then (s, false)
          else let '(e, changed) := record_entry e success threshold in (set_heap s loc e, changed)
      end
  end.

(** [probe_target]: the entry a probe result will land on. *)
Definition probe_target (s : origin_health_state) (key : origin_health_key) : option nat := entries_ s !! key.

(** [now_millis] is the wall clock read when the result is recorded. *)
Definition record_probe (s : origin_health_state) (target : option nat) (success : bool)
    (threshold latency : Z) (error : bytes) (now_millis : Z) : origin_health_state :=
  match target with
  | None => s
  | Some loc =>
      match heap_ s !! loc with
      | None => s
      | Some e =>
          let e := fst (record_entry e success threshold) in
          set_heap s loc (mk_entry (entry_id_ e) (entry_healthy_ e) (last_success_ e) (streak_ e)
            (last_probe_ e) (probed_ e) now_millis latency error)
      end
  end.

Definition claim_due (s : origin_health_state) (key : origin_health_key) (interval now : Z) :
    origin_health_state * bool :=
  match entries_ s !! key with
  | None => (s, false)
  | Some loc =>
      match heap_ s !! loc with
      | None => (s, false)
      | Some e =>
          if probed_ e && (now - last_probe_ e <? interval) then (s, false)
          else (set_heap s loc (mk_entry (entry_id_ e) (entry_healthy_ e) (last_success_ e) (streak_ e)
                  now true (entry_checked_at_ e) (entry_latency_ e) (entry_error_ e)), true)
      end
  end.

Definition origin_of (e : origin_health_entry) : origin :=
  mk_origin (entry_id_ e) (entry_healthy_ e) (entry_checked_at_ e) (entry_latency_ e) (entry_error_ e).
Definition snapshot (s : origin_health_state) : origin_health_snapshot :=
  omap (fun loc => origin_of <$> heap_ s !! loc) (entries_ s).

(** * Streaks *)

(** The first [n] outcomes all equal [b]. *)
Fixpoint run_of (n : nat) (b : bool) (outcomes : list bool) : bool :=
  match n with
  | O => true
  | S n' => match outcomes with o :: os => Bool.eqb o b && run_of n' b os | [] => false end
  end.

(** The health after a list of outcomes, the latest first: what the latest run of [threshold]
    equal outcomes said, and healthy before any. *)
Fixpoint settled_health (threshold : nat) (outcomes : list bool) : bool :=
  match outcomes with
  | [] => true
  | o :: os => if run_of threshold o outcomes then o else settled_health threshold os
  end.

(** The length of the current run. *)
Fixpoint run_length (b : bool) (outcomes : list bool) : nat :=
  match outcomes with o :: os => if Bool.eqb o b then S (run_length b os) else 0%nat | [] => 0%nat end.

Lemma run_of_length n b os : run_of n b os = (n <=? run_length b os)%nat.
Proof.
  revert os. induction n as [|n IH]; intros os; [done|].
  destruct os as [|o os]; [done|]. simpl. destruct (Bool.eqb o b); [apply IH|done].
Qed.

Fixpoint outcomes_entry (e : origin_health_entry) (threshold : Z) (outcomes : list bool) :
    origin_health_entry :=
  match outcomes with
  | [] => e
  | o :: os => fst (record_entry (outcomes_entry e threshold os) o threshold)
  end.

Lemma run_length_le b os : (run_length b os <= length os)%nat.
Proof. induction os as [|o os IH]; simpl; [lia|]. destruct (Bool.eqb o b); lia. Qed.

Lemma outcomes_invariant id threshold os :
  1 <= threshold -> size os <= max_u32 ->
  let e := outcomes_entry (new_entry id) threshold os in
  entry_healthy_ e = settled_health (Z.to_nat threshold) os /\ entry_id_ e = id /\
  last_success_ e = hd true os /\ streak_ e = Z.of_nat (run_length (hd true os) os).
Proof.
  intros Ht. induction os as [|o os IH]; intros Hs e; [done|].
  assert (size (o :: os) = 1 + size os) as Hsz by (unfold size; simpl; lia).
  destruct IH as (H1 & H2 & H3 & H4); [lia|]. unfold e. cbn [outcomes_entry].
  set (p := outcomes_entry (new_entry id) threshold os) in *.
  assert ((if Bool.eqb o (last_success_ p) then if streak_ p =? max_u32 then streak_ p else streak_ p + 1
    else 1) = Z.of_nat (run_length o (o :: os))) as Hstreak.
  { rewrite H3, H4. cbn [run_length]. rewrite Bool.eqb_reflx.
    pose proof (run_length_le (hd true os) os). unfold size, max_u32 in *.
    destruct os as [|x os]; cbn [hd] in *.
    - destruct o; simpl; lia.
    - destruct (Bool.eqb o x) eqn:E.
      + apply Bool.eqb_prop in E as ->. rewrite (proj2 (Z.eqb_neq _ _)) by lia. lia.
      + cbn [run_length]. by replace (Bool.eqb x o) with false by (destruct x, o; done). }
  unfold record_entry. rewrite Hstreak. cbn [fst entry_healthy_ entry_id_ last_success_ streak_ hd].
  split_and!; [|done|done|done].
  cbn [settled_health]. rewrite run_of_length, <- H1.
  destruct (Z.leb_spec threshold (Z.of_nat (run_length o (o :: os)))).
  - by rewrite (proj2 (Nat.leb_le _ _)) by lia.
  - by rewrite (proj2 (Nat.leb_gt _ _)) by lia.
Qed.

(** Hysteresis: the health of an origin is what its latest run of [threshold] equal outcomes
    said (healthy before the first such run), so fewer than [threshold] contrary outcomes in a
    row never change it. *)
Theorem health_is_settled id threshold outcomes :
  1 <= threshold -> size outcomes <= max_u32 ->
  entry_healthy_ (outcomes_entry (new_entry id) threshold outcomes) =
  settled_health (Z.to_nat threshold) outcomes.
Proof. intros Ht Hs. by apply outcomes_invariant. Qed.

Lemma health_is_settled_witness :
  entry_healthy_ (outcomes_entry (new_entry 1) 2 [false; true; false; false; true]) = false /\
  entry_healthy_ (outcomes_entry (new_entry 1) 3 [false; true; false; false; true]) = true.
Proof.
  split.
  - rewrite (health_is_settled 1 2 [false; true; false; false; true]);
      [reflexivity|lia|vm_compute; discriminate].
  - rewrite (health_is_settled 1 3 [false; true; false; false; true]);
      [reflexivity|lia|vm_compute; discriminate].
Defined.

(** * Merged reports *)

(** What a report shows of an origin: all but its membership. *)
Definition shown (o : origin) : Z * Z * bytes :=
  (checked_at_unix_millis_ o, latency_millis_ o, last_error_ o).

Lemma diagnostic_opp a b : diagnostic_compare b a = CompOpp (diagnostic_compare a b).
Proof.
  unfold diagnostic_compare.
  rewrite (Z.compare_antisym (checked_at_unix_millis_ a)), (bytes_compare_opp (last_error_ a)),
    (Z.compare_antisym (latency_millis_ a)), !then_compare_opp. done.
Qed.

Lemma diagnostic_eq a b : diagnostic_compare a b = Eq -> shown a = shown b.
Proof.
  unfold diagnostic_compare, shown. intros H.
  destruct (checked_at_unix_millis_ a ?= checked_at_unix_millis_ b) eqn:E1; try done.
  destruct (bytes_compare (last_error_ a) (last_error_ b)) eqn:E2; try done. simpl in H.
  apply Z.compare_eq in E1, H. apply bytes_compare_eq in E2. congruence.
Qed.

Lemma diagnostic_trans a b c :
  diagnostic_compare a b = Lt -> diagnostic_compare b c = Lt -> diagnostic_compare a c = Lt.
Proof.
  unfold diagnostic_compare.
  destruct (Z.compare_spec (checked_at_unix_millis_ a) (checked_at_unix_millis_ b)) as [E1|E1|E1];
  destruct (Z.compare_spec (checked_at_unix_millis_ b) (checked_at_unix_millis_ c)) as [E2|E2|E2];
    simpl; try done;
    first [rewrite (proj2 (Z.compare_lt_iff (checked_at_unix_millis_ a) (checked_at_unix_millis_ c))) by lia;
           done | rewrite (proj2 (Z.compare_eq_iff _ (checked_at_unix_millis_ c))) by lia; simpl].
  destruct (bytes_compare (last_error_ a) (last_error_ b)) eqn:F1; try done;
  destruct (bytes_compare (last_error_ b) (last_error_ c)) eqn:F2; try done; intros H1 H2; simpl in *.
  - apply bytes_compare_eq in F1, F2. rewrite F1, F2, bytes_compare_refl. simpl.
    exact (Z.lt_trans _ _ _ H1 H2).
  - apply bytes_compare_eq in F1. by rewrite F1, F2.
  - apply bytes_compare_eq in F2. by rewrite <- F2, F1.
  - by rewrite (bytes_compare_trans _ _ _ F1 F2).
Qed.

(** A total order on what is shown, so the greater of two is the same whichever comes first. *)
Lemma diagnostic_refl a b : shown a = shown b -> diagnostic_compare a b = Eq.
Proof.
  unfold shown, diagnostic_compare. intros [= -> -> ->].
  by rewrite !Z.compare_refl, bytes_compare_refl.
Qed.

Lemma diagnostic_shown a a' b b' :
  shown a = shown a' -> shown b = shown b' -> diagnostic_compare a b = diagnostic_compare a' b'.
Proof. unfold shown, diagnostic_compare. by intros [= -> -> ->] [= -> -> ->]. Qed.

Lemma origin_ext a b : id_ a = id_ b -> healthy_ a = healthy_ b -> shown a = shown b -> a = b.
Proof. unfold shown. destruct a, b; simpl. congruence. Qed.

(** The merge of two values, by cases: an unhealthy one wins, two unhealthy ones and two probed
    healthy ones show the greater, and an unprobed healthy one hides a healthy one. *)
Definition top (a b : origin) : origin :=
  match diagnostic_compare b a with Gt => b | _ => a end.
Definition unprobed (o : origin) : bool := checked_at_unix_millis_ o =? 0.

Lemma merge_origin_cases a b :
  merge_origin a b =
  match healthy_ a, healthy_ b with
  | false, false => with_id 0 (top a b)
  | false, true => with_id 0 a
  | true, false => with_id 0 b
  | true, true => if unprobed a || unprobed b then mk_origin 0 true 0 0 [] else with_id 0 (top a b)
  end.
Proof.
  unfold merge_origin, top, unprobed. destruct a as [ia ha ca la ea], b as [ib hb cb lb eb].
  simpl. destruct ha, hb; simpl; try done;
    destruct (diagnostic_compare _ _); simpl; try done; by destruct (_ || _)%bool.
Qed.

Lemma top_comm a b : shown (top a b) = shown (top b a).
Proof.
  unfold top. rewrite (diagnostic_opp a b).
  destruct (diagnostic_compare a b) eqn:E; simpl; [|done|done]. by apply diagnostic_eq.
Qed.

(** The order as a relation: total, transitive, antisymmetric on what is shown. *)
Definition diag_le (a b : origin) : Prop := diagnostic_compare a b <> Gt.

Lemma diag_le_trans a b c : diag_le a b -> diag_le b c -> diag_le a c.
Proof.
  unfold diag_le. destruct (diagnostic_compare a b) eqn:E1; [| |done].
  - by rewrite (diagnostic_shown a b c c) by (done || by apply diagnostic_eq).
  - intros _. destruct (diagnostic_compare b c) eqn:E2; [| |done]; intros _.
    + by rewrite <- (diagnostic_shown a a b c), E1 by (done || by apply diagnostic_eq).
    + by rewrite (diagnostic_trans _ _ _ E1 E2).
Qed.

Lemma diag_le_antisym a b : diag_le a b -> diag_le b a -> shown a = shown b.
Proof.
  unfold diag_le. rewrite (diagnostic_opp a b).
  destruct (diagnostic_compare a b) eqn:E; simpl; try done. by intros; apply diagnostic_eq.
Qed.

Lemma top_spec a b : diag_le a (top a b) /\ diag_le b (top a b) /\ (top a b = a \/ top a b = b).
Proof.
  unfold top, diag_le. rewrite (diagnostic_opp a b).
  assert (forall x, diagnostic_compare x x <> Gt) by (intros x; by rewrite diagnostic_refl).
  destruct (diagnostic_compare a b) eqn:E; cbn [CompOpp]; rewrite ?(diagnostic_opp a b), ?E;
    (split; [auto; done|split; [auto; done|auto]]).
Qed.

Lemma top_swap m a b : shown (top (top m a) b) = shown (top (top m b) a).
Proof.
  destruct (top_spec (top m a) b) as (H1 & H2 & H3), (top_spec m a) as (H4 & H5 & H6).
  destruct (top_spec (top m b) a) as (G1 & G2 & G3), (top_spec m b) as (G4 & G5 & G6).
  apply diag_le_antisym.
  - destruct H3 as [->| ->]; [destruct H6 as [->| ->]|]; eauto using diag_le_trans.
  - destruct G3 as [->| ->]; [destruct G6 as [->| ->]|]; eauto using diag_le_trans.
Qed.

Lemma top_shown a a' b b' :
  shown a = shown a' -> shown b = shown b' -> shown (top a b) = shown (top a' b').
Proof.
  intros Ha Hb. unfold top. rewrite (diagnostic_shown b b' a a') by done.
  by destruct (diagnostic_compare b' a').
Qed.

(** Merging a further value into either order of two gives the same. *)
Lemma merge_origin_comm a b : merge_origin a b = merge_origin b a.
Proof.
  rewrite !merge_origin_cases, orb_comm.
  destruct (healthy_ a) eqn:Ha, (healthy_ b) eqn:Hb; try done; [destruct (_ || _)%bool; [done|]|];
    (apply origin_ext; [done| |]; [|apply top_comm]); cbn [healthy_ with_id];
    unfold top; destruct (diagnostic_compare _ _), (diagnostic_compare _ _); simpl; congruence.
Qed.

Lemma healthy_top a b : healthy_ a = healthy_ b -> healthy_ (top a b) = healthy_ a.
Proof. unfold top. by destruct (diagnostic_compare b a). Qed.

Lemma merge_origin_with_id i j a b : merge_origin (with_id i a) (with_id j b) = merge_origin a b.
Proof.
  rewrite !merge_origin_cases. change (unprobed (with_id i a)) with (unprobed a).
  change (unprobed (with_id j b)) with (unprobed b). cbn [healthy_ with_id].
  assert (healthy_ a = healthy_ b ->
    with_id 0 (top (with_id i a) (with_id j b)) = with_id 0 (top a b)) as Htop.
  { intros H. apply origin_ext; [done| |by apply top_shown]. cbn [with_id healthy_].
    by rewrite !healthy_top. }
  destruct (healthy_ a) eqn:Ha, (healthy_ b) eqn:Hb; try done; [|by apply Htop].
  destruct (_ || _)%bool; [done|by apply Htop].
Qed.

Lemma unprobed_top a b : unprobed a = false -> unprobed b = false -> unprobed (top a b) = false.
Proof. unfold top. by destruct (diagnostic_compare b a). Qed.

Lemma with_id_top_swap m a b :
  healthy_ m = healthy_ a -> healthy_ m = healthy_ b ->
  with_id 0 (top (with_id 0 (top m a)) b) = with_id 0 (top (with_id 0 (top m b)) a).
Proof.
  intros Ha Hb. apply origin_ext; [done| |].
  - cbn [with_id healthy_]. rewrite !healthy_top; cbn [with_id healthy_]; rewrite ?healthy_top; congruence.
  - transitivity (shown (top (top m a) b)); [by apply top_shown|].
    rewrite top_swap. by apply top_shown.
Qed.

Lemma top_with_id a b : healthy_ a = healthy_ b -> with_id 0 (top (with_id 0 a) b) = with_id 0 (top a b).
Proof.
  intros H. apply origin_ext; [done| |by apply top_shown]. cbn [with_id healthy_].
  rewrite !healthy_top; done.
Qed.

Lemma merge_healthy_swap m a b :
  healthy_ m = true -> healthy_ a = true -> healthy_ b = true ->
  merge_origin (merge_origin m a) b = merge_origin (merge_origin m b) a.
Proof.
  intros Hm Ha Hb. rewrite (merge_origin_cases m a), (merge_origin_cases m b), Hm, Ha, Hb.
  assert (forall x y, unprobed (with_id 0 x) = unprobed x) as Hid by done.
  destruct (unprobed m) eqn:Um, (unprobed a) eqn:Ua, (unprobed b) eqn:Ub; cbn [orb];
    rewrite !merge_origin_cases; cbn [healthy_ with_id]; rewrite ?healthy_top, ?Hm, ?Ha, ?Hb by congruence;
    repeat match goal with |- context [unprobed (with_id 0 ?x)] => change (unprobed (with_id 0 x)) with (unprobed x) end;
    rewrite ?unprobed_top, ?orb_true_r, ?Ua, ?Ub by done; try done.
  apply with_id_top_swap; congruence.
Qed.

Lemma merge_origin_swap m a b :
  merge_origin (merge_origin m a) b = merge_origin (merge_origin m b) a.
Proof.
  destruct (healthy_ m) eqn:Hm, (healthy_ a) eqn:Ha, (healthy_ b) eqn:Hb;
    [by apply merge_healthy_swap|..];
    rewrite (merge_origin_cases m a), (merge_origin_cases m b), Hm, Ha, Hb;
    try (destruct (unprobed m || unprobed _)%bool);
    rewrite !merge_origin_cases; cbn [healthy_ with_id]; rewrite ?healthy_top, ?Hm, ?Ha, ?Hb by congruence;
    try done; try (apply with_id_top_swap; congruence);
    rewrite ?(top_with_id m b), ?(top_with_id m a), ?(top_with_id a b), ?(top_with_id b a) by congruence;
    try done.
  apply origin_ext; [done| |apply top_comm]. cbn [healthy_ with_id]. rewrite !healthy_top; congruence.
Qed.

(** ** The fold over the snapshots, one key at a time *)

Definition merge_value (merged : option origin) (value : option origin) : option origin :=
  match merged, value with
  | Some merged, Some value => Some (merge_origin merged value)
  | None, Some value => Some (with_id 0 value)
  | merged, None => merged
  end.

Lemma merge_into_lookup (origins s : origin_health_snapshot) (key : origin_health_key) :
  merge_into origins s !! key = merge_value (origins !! key) (s !! key).
Proof. unfold merge_into. rewrite lookup_merge. by destruct (origins !! key), (s !! key). Qed.

Lemma merge_value_swap m a b : merge_value (merge_value m a) b = merge_value (merge_value m b) a.
Proof.
  destruct m as [m|], a as [a|], b as [b|]; try done; simpl; f_equal.
  - apply merge_origin_swap.
  - rewrite <- (merge_origin_with_id 0 0 (with_id 0 a) b), <- (merge_origin_with_id 0 0 (with_id 0 b) a).
    apply merge_origin_comm.
Qed.

Lemma merge_into_swap (m a b : origin_health_snapshot) :
  merge_into (merge_into m a) b = merge_into (merge_into m b) a.
Proof. apply map_eq. intros key. rewrite !merge_into_lookup. apply merge_value_swap. Qed.

Lemma merge_from_permutation (m : origin_health_snapshot) (l l' : list origin_health_snapshot) :
  l ≡ₚ l' -> fold_left merge_into l m = fold_left merge_into l' m.
Proof.
  intros Hp. revert m.
  induction Hp as [|s l l' _ IH|a b l|l l' l'' _ IH1 _ IH2]; intros m; simpl;
    [done|apply IH|by rewrite merge_into_swap|by rewrite IH1, IH2].
Qed.

(** The merged report does not depend on the order in which the workers' snapshots arrive. *)
Theorem merge_order_independent (snapshots snapshots' : list origin_health_snapshot) :
  snapshots ≡ₚ snapshots' -> merge_snapshots snapshots = merge_snapshots snapshots'.
Proof. apply merge_from_permutation. Qed.

Lemma merge_order_independent_witness :
  let key := (lit "w", lit "o") in
  let a := {[ key := mk_origin 7 false 10 3 (lit "refused") ]} in
  let b := {[ key := mk_origin 9 true 20 1 [] ]} in
  merge_snapshots [a; b] = merge_snapshots [b; a] /\
  merge_snapshots [b; a] !! key = Some (mk_origin 0 false 10 3 (lit "refused")).
Proof.
  split; [apply merge_order_independent; apply Permutation_swap|by vm_compute].
Defined.

Lemma healthy_merge_origin a b : healthy_ (merge_origin a b) = healthy_ a && healthy_ b.
Proof.
  unfold merge_origin. set (m := if (_ || _)%bool then b else a). simpl.
  by destruct (_ && (_ || _))%bool.
Qed.

Lemma healthy_merge_into (m s : origin_health_snapshot) key :
  healthy (merge_into m s) key = healthy m key && healthy s key.
Proof.
  unfold healthy. rewrite merge_into_lookup.
  destruct (m !! key), (s !! key); simpl; rewrite ?andb_true_r; try done. apply healthy_merge_origin.
Qed.

(** The merged report is conservative: an origin is healthy in it exactly when no worker
    holds it unhealthy. *)
Theorem merge_conservative (snapshots : list origin_health_snapshot) (key : origin_health_key) :
  healthy (merge_snapshots snapshots) key = forallb (fun s => healthy s key) snapshots.
Proof.
  unfold merge_snapshots. change (forallb _ snapshots) with (healthy ∅ key && forallb (fun s => healthy s key) snapshots).
  generalize (∅ : origin_health_snapshot). induction snapshots as [|s l IH]; intros m; simpl.
  - by rewrite andb_true_r.
  - by rewrite IH, healthy_merge_into, andb_assoc.
Qed.

(** * Membership changes *)

(** What the owner loop does to the shared entries between two membership changes; a probe result
    may land on any entry a probe target holds. *)
Inductive health_op :=
  | Outcome (key : origin_health_key) (id : Z) (success : bool) (threshold : Z)
  | Probe (target : option nat) (success : bool) (threshold latency : Z) (error : bytes) (now : Z)
  | Claim (key : origin_health_key) (interval now : Z).

Definition apply_op (s : origin_health_state) (op : health_op) : origin_health_state :=
  match op with
  | Outcome key id success threshold => fst (record s key id success threshold)
  | Probe target success threshold latency error now =>
      record_probe s target success threshold latency error now
  | Claim key interval now => fst (claim_due s key interval now)
  end.
Definition apply_ops (s : origin_health_state) (ops : list health_op) : origin_health_state :=
  fold_left apply_op ops s.

(** Locations are allocated below [next_], the active ones hold entries, identities do not exceed
    the last one given. *)
Record state_inv (s : origin_health_state) : Prop := {
  inv_alloc : forall loc e, heap_ s !! loc = Some e -> (loc < next_ s)%nat /\ entry_id_ e <= last_id_ s;
  inv_active : forall key loc, entries_ s !! key = Some loc -> is_Some (heap_ s !! loc);
  inv_id : 0 <= last_id_ s
}.

Lemma new_state_inv : state_inv new_state.
Proof. split; simpl; intros *; rewrite ?lookup_empty; naive_solver. Qed.

(** [s'] has the entries of [s], changed in place, and its memberships. *)
Record same_members (s s' : origin_health_state) : Prop := {
  same_next : next_ s' = next_ s;
  same_entries : entries_ s' = entries_ s;
  same_last : last_id_ s' = last_id_ s;
  same_ids : forall loc, entry_id_ <$> heap_ s' !! loc = entry_id_ <$> heap_ s !! loc
}.

Lemma same_refl s : same_members s s.
Proof. by split. Qed.

Lemma same_trans a b c : same_members a b -> same_members b c -> same_members a c.
Proof.
  intros [A1 A2 A3 A4] [B1 B2 B3 B4]. split; [congruence..|]. intros loc. by rewrite B4, A4.
Qed.

Lemma same_set_heap s loc (e e' : origin_health_entry) :
  heap_ s !! loc = Some e -> entry_id_ e' = entry_id_ e -> same_members s (set_heap s loc e').
Proof.
  intros He Hid. split; try done. intros l. cbn [heap_ set_heap].
  destruct (decide (l = loc)) as [->|].
  - by rewrite lookup_insert_eq, He; simpl; rewrite Hid.
  - by rewrite lookup_insert_ne by done.
Qed.

Lemma apply_op_same s op : same_members s (apply_op s op).
Proof.
  destruct op as [key id ok t|[loc|] ok t l er now|key interval now]; simpl; [| |apply same_refl|];
    unfold record, claim_due; try (destruct (entries_ s !! key) as [loc|]; [|apply same_refl]);
    (destruct (heap_ s !! loc) eqn:He; [|apply same_refl]).
  - destruct (negb _); [apply same_refl|]. by apply (same_set_heap s loc o).
  - by apply (same_set_heap s loc o).
  - destruct (_ && _)%bool; [apply same_refl|]. by apply (same_set_heap s loc o).
Qed.

Lemma apply_ops_same s ops : same_members s (apply_ops s ops).
Proof.
  revert s. induction ops as [|op ops IH]; intros s; [apply same_refl|].
  apply (same_trans _ (apply_op s op)); [apply apply_op_same|apply IH].
Qed.

Lemma same_members_inv s s' : same_members s s' -> state_inv s -> state_inv s'.
Proof.
  intros [E1 E2 E3 E4] [I1 I2 I3]. split; rewrite ?E1, ?E2, ?E3; [| |done].
  - intros loc e He. specialize (E4 loc). rewrite He in E4.
    destruct (heap_ s !! loc) as [e0|] eqn:He0; simplify_eq/=.
    apply I1 in He0. by rewrite E4.
  - intros key loc Hl. apply I2 in Hl as [e He]. specialize (E4 loc). rewrite He in E4.
    destruct (heap_ s' !! loc); [eauto|done].
Qed.

(** What [prepare] has built after some keys: kept members share their entry, the others have a
    new one at a new location with a new identity. *)
Record prepared_ok (s : origin_health_state) (keys : list origin_health_key)
    (replaced : gset origin_health_key) (s' : origin_health_state) (next : prepared) : Prop := {
  ok_entries : entries_ s' = entries_ s;
  ok_next : (next_ s <= next_ s')%nat;
  ok_last : last_id_ s <= last_id_ s' <= last_id_ s + size keys;
  ok_heap : forall loc e, heap_ s !! loc = Some e -> heap_ s' !! loc = Some e;
  ok_alloc : forall loc e, heap_ s' !! loc = Some e -> (loc < next_ s')%nat /\ entry_id_ e <= last_id_ s';
  ok_kept : forall key loc, key ∈ keys -> key ∉ replaced -> entries_ s !! key = Some loc ->
    next !! key = Some loc;
  ok_fresh : forall key, key ∈ keys -> key ∈ replaced \/ entries_ s !! key = None ->
    exists loc id, next !! key = Some loc /\ heap_ s' !! loc = Some (new_entry id) /\ last_id_ s < id;
  ok_gone : forall key, key ∉ keys -> next !! key = None
}.

Lemma prepare_snoc (s : origin_health_state) (keys : list origin_health_key) (key : origin_health_key)
    (replaced : gset origin_health_key) :
  prepare s (keys ++ [key]) replaced = prepare_key replaced (prepare s keys replaced) key.
Proof. unfold prepare. by rewrite fold_left_app. Qed.

Lemma elem_of_snoc_ne {A} (x : A) l y : x ∈ l ++ [y] -> x <> y -> x ∈ l.
Proof. by intros [H|H%list_elem_of_singleton]%elem_of_app ?. Qed.

Lemma prepare_kept_step (s s' : origin_health_state) (keys : list origin_health_key)
    (replaced : gset origin_health_key) (next : prepared) (key : origin_health_key) (loc : nat) :
  prepared_ok s keys replaced s' next -> entries_ s !! key = Some loc -> key ∉ replaced ->
  prepared_ok s (keys ++ [key]) replaced s' (<[key := loc]> next).
Proof.
  intros [O1 O2 O3 O4 O5 O6 O7 O8] Hl Hr.
  assert (size (keys ++ [key]) = size keys + 1) by (unfold size; rewrite length_app; simpl; lia).
  split; try done; [lia|..].
  - intros k l Hk Hkr Hkl. destruct (decide (k = key)) as [->|]; [rewrite lookup_insert_eq; congruence|].
    rewrite lookup_insert_ne by done. apply (elem_of_snoc_ne _ _ key) in Hk; auto.
  - intros k Hk Hf. destruct (decide (k = key)) as [->|]; [destruct Hf; congruence|].
    rewrite lookup_insert_ne by done. apply (elem_of_snoc_ne _ _ key) in Hk; auto.
  - intros k Hk. apply not_elem_of_app in Hk as [Hk Hne%not_elem_of_cons].
    rewrite lookup_insert_ne by (intros ->; by destruct Hne). auto.
Qed.

Lemma prepare_fresh_step (s s' : origin_health_state) (keys : list origin_health_key)
    (replaced : gset origin_health_key) (next : prepared) (key : origin_health_key) :
  prepared_ok s keys replaced s' next -> 0 <= last_id_ s -> last_id_ s' + 1 < two64 ->
  key ∈ replaced \/ entries_ s !! key = None ->
  let id := u64 (last_id_ s' + 1) in
  prepared_ok s (keys ++ [key]) replaced
    (mk_state (<[next_ s' := new_entry id]> (heap_ s')) (S (next_ s')) (entries_ s') id)
    (<[key := next_ s']> next).
Proof.
  intros [O1 O2 O3 O4 O5 O6 O7 O8] H0 Hw Hfresh id.
  assert (id = last_id_ s' + 1) as Hid by (unfold id; by rewrite u64_small by (unfold is_u64; lia)).
  assert (size (keys ++ [key]) = size keys + 1) by (unfold size; rewrite length_app; simpl; lia).
  assert (forall loc e, heap_ s' !! loc = Some e -> loc <> next_ s') as Hne
    by (intros loc e He ->; apply O5 in He; lia).
  split; cbn [entries_ heap_ next_ last_id_]; try done; try lia.
  - intros loc e He. rewrite lookup_insert_ne by (apply not_eq_sym; eauto). auto.
  - intros loc e. destruct (decide (loc = next_ s')) as [->|].
    + rewrite lookup_insert_eq. intros [= <-]. simpl. lia.
    + rewrite lookup_insert_ne by done. intros He%O5. lia.
  - intros k loc Hk Hkr Hkl. destruct (decide (k = key)) as [->|]; [destruct Hfresh; congruence|].
    rewrite lookup_insert_ne by done. apply (elem_of_snoc_ne _ _ key) in Hk; auto.
  - intros k Hk Hf. destruct (decide (k = key)) as [->|].
    + exists (next_ s'), id. rewrite !lookup_insert_eq. split_and!; [done|done|lia].
    + rewrite lookup_insert_ne by done. apply (elem_of_snoc_ne _ _ key) in Hk; [|done].
      destruct (O7 k Hk Hf) as (loc & i & H1 & H2 & H3).
      exists loc, i. rewrite lookup_insert_ne by (apply not_eq_sym; eauto). done.
  - intros k Hk. apply not_elem_of_app in Hk as [Hk Hnk%not_elem_of_cons].
    rewrite lookup_insert_ne by (intros ->; by destruct Hnk). auto.
Qed.

Lemma prepare_ok (s : origin_health_state) (keys : list origin_health_key)
    (replaced : gset origin_health_key) :
  state_inv s -> last_id_ s + size keys < two64 ->
  prepared_ok s keys replaced (fst (prepare s keys replaced)) (snd (prepare s keys replaced)).
Proof.
  intros [I1 I2 I3]. induction keys as [|key keys IH] using rev_ind; intros Hw.
  { split; simpl; try done; [change (size (A:=origin_health_key) []) with 0; lia|by intros * []%elem_of_nil..]. }
  assert (size (keys ++ [key]) = size keys + 1) by (unfold size; rewrite length_app; simpl; lia).
  specialize (IH ltac:(lia)). rewrite prepare_snoc.
  destruct (prepare s keys replaced) as [s' next]. cbn [fst snd] in IH. unfold prepare_key.
  pose proof (ok_entries _ _ _ _ _ IH) as He. pose proof (ok_last _ _ _ _ _ IH) as Hlast. rewrite He.
  destruct (entries_ s !! key) as [loc|] eqn:Hl.
  - destruct (decide (key ∈ replaced)).
    + rewrite bool_decide_eq_true_2 by done. cbn [fst snd]. rewrite <- He.
      apply prepare_fresh_step; auto; lia.
    + rewrite bool_decide_eq_false_2 by done. by apply prepare_kept_step.
  - cbn [fst snd]. rewrite <- He. apply prepare_fresh_step; auto; lia.
Qed.

(** ** The whole change: prepare, results that arrive meanwhile, activation *)

Definition change_members (s : origin_health_state) (keys : list origin_health_key)
    (replaced : gset origin_health_key) (ops : list health_op) : origin_health_state :=
  let '(s1, next) := prepare s keys replaced in
  let s2 := apply_ops s1 ops in
  fst (activate s2 next).

Lemma snapshot_lookup (s : origin_health_state) (key : origin_health_key) :
  snapshot s !! key =
  match entries_ s !! key with Some loc => origin_of <$> heap_ s !! loc | None => None end.
Proof. unfold snapshot. rewrite lookup_omap. by destruct (entries_ s !! key). Qed.

Lemma change_members_inv (s : origin_health_state) (keys : list origin_health_key)
    (replaced : gset origin_health_key) (ops : list health_op) :
  state_inv s -> last_id_ s + size keys < two64 -> state_inv (change_members s keys replaced ops).
Proof.
  intros Hs Hw. pose proof (prepare_ok s keys replaced Hs Hw) as Hp. unfold change_members.
  destruct (prepare s keys replaced) as [s1 next]. cbn [fst snd] in Hp.
  destruct Hp as [O1 O2 O3 O4 O5 O6 O7 O8].
  destruct (apply_ops_same s1 ops) as [S1 S2 S3 S4]. destruct Hs as [I1 I2 I3].
  split; cbn [activate fst heap_ next_ entries_ last_id_]; rewrite ?S1, ?S3; [| |lia].
  - intros loc e He. specialize (S4 loc). rewrite He in S4.
    destruct (heap_ s1 !! loc) as [e0|] eqn:He0; simplify_eq/=. apply O5 in He0. by rewrite S4.
  - intros key loc Hl. specialize (S4 loc).
    assert (is_Some (heap_ s1 !! loc)) as [e He].
    { destruct (decide (key ∈ keys)) as [Hk|Hk]; [|by rewrite O8 in Hl].
      destruct (decide (key ∈ replaced)) as [Hr|Hr].
      { destruct (O7 key Hk (or_introl Hr)) as (l & i & H1 & H2 & _). naive_solver. }
      destruct (entries_ s !! key) as [l|] eqn:El.
      - rewrite (O6 key l) in Hl by done. simplify_eq. destruct (I2 _ _ El) as [e He]. eauto.
      - destruct (O7 key Hk (or_intror El)) as (l & i & H1 & H2 & _). naive_solver. }
    rewrite He in S4. destruct (heap_ (apply_ops s1 ops) !! loc); [eauto|done].
Qed.

(** Results recorded while a configuration is pending survive its activation: for an origin
    that the new membership keeps, the snapshot after activation shows what the snapshot right
    before activation shows. *)
Theorem pending_results_survive (s : origin_health_state) (keys : list origin_health_key)
    (replaced : gset origin_health_key) (ops : list health_op) (key : origin_health_key) :
  state_inv s -> last_id_ s + size keys < two64 ->
  key ∈ keys -> key ∉ replaced -> is_Some (entries_ s !! key) ->
  snapshot (change_members s keys replaced ops) !! key =
  snapshot (apply_ops (fst (prepare s keys replaced)) ops) !! key.
Proof.
  intros Hs Hw Hk Hr [loc Hl]. pose proof (prepare_ok s keys replaced Hs Hw) as Hp.
  unfold change_members. destruct (prepare s keys replaced) as [s1 next]. cbn [fst snd] in *.
  destruct Hp as [O1 _ _ _ _ O6 _ _]. destruct (apply_ops_same s1 ops) as [_ S2 _ _].
  rewrite !snapshot_lookup. cbn [activate fst heap_ entries_].
  by rewrite (O6 key loc), S2, O1, Hl.
Qed.

(** A replaced origin starts anew: an outcome that carries the identity the origin had before
    the change is discarded after it. *)
Theorem stale_outcome_discarded (s : origin_health_state) (keys : list origin_health_key)
    (replaced : gset origin_health_key) (ops : list health_op) (key : origin_health_key)
    (old : origin) (success : bool) (threshold : Z) :
  state_inv s -> last_id_ s + size keys < two64 ->
  key ∈ replaced -> snapshot s !! key = Some old ->
  let s' := change_members s keys replaced ops in
  record s' key (id_ old) success threshold = (s', false).
Proof.
  intros Hs Hw Hr Hold s'. pose proof (prepare_ok s keys replaced Hs Hw) as Hp.
  unfold s', change_members. destruct (prepare s keys replaced) as [s1 next]. cbn [fst snd] in *.
  destruct Hp as [O1 _ _ _ _ _ O7 O8]. destruct (apply_ops_same s1 ops) as [_ _ _ S4].
  unfold record. cbn [activate fst heap_ entries_].
  destruct (decide (key ∈ keys)) as [Hk|Hk]; [|by rewrite O8].
  destruct (O7 key Hk (or_introl Hr)) as (loc & id & -> & H2 & H3).
  specialize (S4 loc). rewrite H2 in S4.
  destruct (heap_ (apply_ops s1 ops) !! loc) as [e|]; simplify_eq/=.
  rewrite snapshot_lookup in Hold. destruct (entries_ s !! key) as [l|]; [|done].
  destruct (heap_ s !! l) as [e0|] eqn:He0; simplify_eq/=.
  apply (inv_alloc s Hs) in He0. rewrite (proj2 (Z.eqb_neq _ _)) by lia. done.
Qed.

(** A state with one origin that one outcome of two was recorded against. *)
Definition health_example : origin_health_state :=
  change_members new_state [(lit "w", lit "a"); (lit "w", lit "b")] ∅ [].

Lemma health_example_inv : state_inv health_example.
Proof. apply change_members_inv; [apply new_state_inv|by vm_compute]. Qed.

Lemma pending_results_survive_witness :
  let key := (lit "w", lit "a") in
  snapshot (change_members health_example [key] ∅ [Outcome key 1 false 1]) !! key =
    Some (mk_origin 1 false 0 0 []).
Proof.
  intros key.
  rewrite (pending_results_survive health_example [key] ∅ [Outcome key 1 false 1] key health_example_inv);
    [by vm_compute|by vm_compute|by_decision|by_decision|by vm_compute; eauto].
Defined.

Lemma stale_outcome_discarded_witness :
  let key := (lit "w", lit "a") in
  let s' := change_members health_example [key] {[ key ]} [] in
  record s' key 1 false 1 = (s', false) /\ snd (record s' key 3 false 1) = true.
Proof.
  intros key s'. split; [|by vm_compute].
  apply (stale_outcome_discarded health_example [key] {[ key ]} [] key (mk_origin 1 true 0 0 []) false 1
    health_example_inv); [by vm_compute|by_decision|by vm_compute].
Defined.
