(* ===== verification/OriginSelection.v ===== *)
(** Weighted origin selection: src/node/data/origin_selection.h.

    The compiled plan of a website's origins (primaries, then backups, with cumulative weights) and
    the request-local cursor that tries every candidate once: the healthy ones first, starting in
    each role at the candidate the request's sequence number picks. *)
From S2P Require Import Prelude OriginHealth.
Open Scope Z_scope.

(** * The website's origins, as the plan reads them *)

Record website_origin := mk_website_origin {
  origin_id : bytes;
  group : bytes;
  role : bytes;
  weight : Z;
  enabled : bool
}.
Record website := mk_website { website_id : bytes; website_origins : list website_origin }.

(** * The plan *)

Record candidate := mk_candidate {
  origin_ : website_origin;
  weight_end_ : Z;
  health_key_ : origin_health_key
}.
Record origin_plan := mk_plan { primary_ : list candidate; backup_ : list candidate }.

Definition roles_ (plan : origin_plan) (r : nat) : list candidate :=
  match r with 0%nat => primary_ plan | 1%nat => backup_ plan | _ => [] end.
Definition roles_size : nat := 2.

Definition role_index (r : bytes) : nat :=
  if r == lit "primary" then 0%nat else if r == lit "backup" then 1%nat else 2%nat.

Definition or_default (g : bytes) : bytes := if empty g then lit "default" else g.

Definition selected (target_group : bytes) (ids : list bytes) (o : website_origin) : bool :=
  if empty ids then or_default (group o) == target_group
  else existsb (fun id => id == origin_id o) ids.

Definition push_candidate (website_id : bytes) (compiled : list candidate) (o : website_origin) :
    list candidate :=
  let total := match last compiled with Some c => weight_end_ c | None => 0 end in
  compiled ++ [mk_candidate o (u64 (total + weight o)) (website_id, origin_id o)].

(** One iteration of the constructor. *)
Definition plan_step (website_id target_group : bytes) (ids : list bytes) (plan : origin_plan)
    (o : website_origin) : origin_plan :=
  if negb (enabled o) || (weight o =? 0) then plan
  else
    let r := role_index (role o) in
    if (r =? roles_size)%nat then plan
    else if negb (selected target_group ids o) then plan
    else if (r =? 0)%nat then mk_plan (push_candidate website_id (primary_ plan) o) (backup_ plan)
    else mk_plan (primary_ plan) (push_candidate website_id (backup_ plan) o).

Definition new_plan (w : website) (group : bytes) (ids : list bytes) : origin_plan :=
  fold_left (plan_step (website_id w) (or_default group) ids) (website_origins w) (mk_plan [] []).

Definition plan_empty (plan : origin_plan) : bool := empty (primary_ plan) && empty (backup_ plan).

(** * The cursor *)

Record origin_cursor := mk_cursor {
  plan_ : option origin_plan;
  health_ : option origin_health_snapshot;
  pivots_ : nat * nat;
  role_ : nat;
  index_ : nat;
  remaining_ : nat;
  unhealthy_pass_ : bool;
  saw_unhealthy_ : bool
}.

(** [std::upper_bound] over the increasing cumulative weights: the first end above [selected]. *)
Fixpoint upper_bound (candidates : list candidate) (selected : Z) : nat :=
  match candidates with
  | [] => 0%nat
  | c :: cs => if selected <? weight_end_ c then 0%nat else S (upper_bound cs selected)
  end.

Definition pivot_of (candidates : list candidate) (sequence : Z) : nat :=
  match last candidates with
  | None => 0%nat
  | Some c => upper_bound candidates (sequence mod weight_end_ c)
  end.

Definition pivot (c : origin_cursor) (r : nat) : nat :=
  match r with 0%nat => fst (pivots_ c) | _ => snd (pivots_ c) end.

(** [reset_role], after [role_] was set to [r]. *)
Definition reset_role (plan : origin_plan) (c : origin_cursor) (r : nat) (pass : bool) : origin_cursor :=
  mk_cursor (plan_ c) (health_ c) (pivots_ c) r (pivot c r) (length (roles_ plan r)) pass (saw_unhealthy_ c).

Definition new_cursor (plan : origin_plan) (sequence : Z) (health : option origin_health_snapshot) :
    origin_cursor :=
  let pivots := (pivot_of (primary_ plan) sequence, pivot_of (backup_ plan) sequence) in
  reset_role plan (mk_cursor (Some plan) health pivots 0 0 0 false false) 0 false.

Definition is_healthy (health : option origin_health_snapshot) (cand : candidate) : bool :=
  match health with None => true | Some h => healthy h (health_key_ cand) end.

(** One turn of the loop of [next]: continue, or return. *)
Definition next_turn (plan : origin_plan) (c : origin_cursor) :
    origin_cursor * option (option website_origin) :=
  match remaining_ c with
  | O =>
      let r := S (role_ c) in
      if (r =? roles_size)%nat then
        if unhealthy_pass_ c || negb (saw_unhealthy_ c) then
          (mk_cursor None (health_ c) (pivots_ c) r (index_ c) 0 (unhealthy_pass_ c) (saw_unhealthy_ c),
           Some None)
        else (reset_role plan c 0 true, None)
      else (reset_role plan c r (unhealthy_pass_ c), None)
  | S remaining =>
      let candidates := roles_ plan (role_ c) in
      match candidates !! index_ c with
      | None => (c, Some None) (* out of range: excluded by the invariant of the cursor *)
      | Some cand =>
          let index := if (S (index_ c) =? length candidates)%nat then 0%nat else S (index_ c) in
          let is_healthy := is_healthy (health_ c) cand in
          let c' := mk_cursor (plan_ c) (health_ c) (pivots_ c) (role_ c) index remaining
                      (unhealthy_pass_ c) (saw_unhealthy_ c || negb is_healthy) in
          if negb (Bool.eqb is_healthy (unhealthy_pass_ c)) then (c', Some (Some (origin_ cand)))
          else (c', None)
      end
  end.

Fixpoint next_loop (fuel : nat) (plan : origin_plan) (c : origin_cursor) :
    option (origin_cursor * option website_origin) :=
  match fuel with
  | O => None
  | S fuel' =>
      match next_turn plan c with
      | (c', Some result) => Some (c', result)
      | (c', None) => next_loop fuel' plan c'
      end
  end.

(** Two passes over both roles, with a turn at the end of each role. *)
Definition next_fuel (plan : origin_plan) : nat :=
  2 * (length (primary_ plan) + length (backup_ plan)) + 5.

Definition next (c : origin_cursor) : option (origin_cursor * option website_origin) :=
  match plan_ c with
  | None => Some (c, None)
  | Some plan => next_loop (next_fuel plan) plan c
  end.

(** The origins a client gets that calls [next] until it returns null, at most [calls] times. *)
Fixpoint drain (calls : nat) (c : origin_cursor) : option (list website_origin) :=
  match calls with
  | O => None
  | S calls' =>
      match next c with
      | None => None
      | Some (_, None) => Some []
      | Some (c', Some o) => (o ::.) <$> drain calls' c'
      end
  end.

(** * Compiled plans *)

(** The weight ends of a role: the running totals of the weights. *)
Fixpoint running (from : Z) (ws : list Z) : list Z :=
  match ws with [] => [] | w :: ws' => (from + w) :: running (from + w) ws' end.

Definition total (ws : list Z) : Z := fold_right Z.add 0 ws.

Record role_ok (cands : list candidate) : Prop := {
  role_ends : map weight_end_ cands = running 0 (map (fun c => weight (origin_ c)) cands);
  role_weights : Forall (fun c => 0 < weight (origin_ c)) cands
}.

Lemma running_app from ws vs : running from (ws ++ vs) = running from ws ++ running (from + total ws) vs.
Proof.
  revert from. induction ws as [|w ws IH]; intros from; simpl; [by rewrite Z.add_0_r|].
  rewrite IH. do 3 f_equal. lia.
Qed.

Lemma total_app a b : total (a ++ b) = total a + total b.
Proof. unfold total. induction a as [|x a IH]; simpl; [done|]. rewrite IH. lia. Qed.

Lemma running_last from ws d : List.last (from :: running from ws) d = from + total ws.
Proof.
  revert from. induction ws as [|w ws IH]; intros from; [simpl; lia|].
  change (List.last (from + w :: running (from + w) ws) d = from + total (w :: ws)).
  rewrite IH. simpl. lia.
Qed.

Definition cand_total (cands : list candidate) : Z := total (map (fun c => weight (origin_ c)) cands).

Lemma role_last cands :
  role_ok cands ->
  match last cands with Some c => weight_end_ c | None => 0 end = cand_total cands.
Proof.
  intros [He _]. destruct cands as [|c cands _] using rev_ind; [done|].
  rewrite last_snoc. rewrite !map_app, running_app in He.
  change (map weight_end_ [c]) with [weight_end_ c] in He. apply app_inj_tail in He as [_ He']. unfold cand_total. rewrite He', map_app, total_app. simpl; lia.
Qed.

Lemma total_bound ws b : Forall (fun w => 0 <= w <= b) ws -> 0 <= total ws <= size ws * b.
Proof.
  induction 1 as [|w ws Hw _ IH]; [by vm_compute|].
  replace (size (w :: ws)) with (1 + size ws) by (unfold size; simpl; lia). simpl. nia.
Qed.

Lemma push_candidate_ok wid cands o :
  role_ok cands -> 0 < weight o -> 0 <= cand_total cands -> cand_total cands + weight o < two64 ->
  role_ok (push_candidate wid cands o).
Proof.
  intros Hok Hw H0 Hb. unfold push_candidate. rewrite (role_last _ Hok), u64_small by (unfold is_u64; lia).
  destruct Hok as [He Hp]. split; [|apply Forall_app; auto].
  rewrite !map_app, running_app, He. done.
Qed.

(** What makes an origin a candidate of a role. *)
Definition eligible (target_group : bytes) (ids : list bytes) (r : nat) (o : website_origin) : bool :=
  enabled o && negb (weight o =? 0) && (role_index (role o) =? r)%nat && selected target_group ids o.

Definition origin_weight_ok (o : website_origin) : Prop := 0 <= weight o < 4294967296.

Record plan_ok (wid : bytes) (target_group : bytes) (ids : list bytes) (origins : list website_origin)
    (plan : origin_plan) : Prop := {
  plan_roles : forall r, (r < 2)%nat -> role_ok (roles_ plan r) /\
    map origin_ (roles_ plan r) = List.filter (eligible target_group ids r) origins /\
    Forall (fun c => health_key_ c = (wid, origin_id (origin_ c))) (roles_ plan r)
}.

Lemma filter_snoc {A} (P : A -> bool) l x :
  List.filter P (l ++ [x]) = List.filter P l ++ (if P x then [x] else []).
Proof. by rewrite List.filter_app. Qed.

Lemma length_filter_le {A} (P : A -> bool) l : (length (List.filter P l) <= length l)%nat.
Proof. induction l as [|x l IH]; simpl; [lia|]. destruct (P x); simpl; lia. Qed.

Lemma Forall_filter {A} (P : A -> bool) (Q : A -> Prop) l : Forall Q l -> Forall Q (List.filter P l).
Proof. induction 1; simpl; [done|]. destruct (P _); auto. Qed.

(** The weights of a role stay below 2^64. *)
Lemma role_total_bound tg ids r cands origins :
  map origin_ cands = List.filter (eligible tg ids r) origins ->
  Forall origin_weight_ok origins -> size origins < 4294967296 ->
  0 <= cand_total cands <= size origins * 4294967295.
Proof.
  intros Hm Hw Hs. unfold cand_total. rewrite <- (map_map origin_ weight), Hm.
  set (l := List.filter _ origins).
  pose proof (length_filter_le (eligible tg ids r) origins) as Hl. fold l in Hl.
  assert (Forall (fun w => 0 <= w <= 4294967295) (map weight l)) as HF.
  { apply Forall_map, (Forall_impl _ _ _ (Forall_filter _ _ _ Hw)). unfold origin_weight_ok. simpl. lia. }
  apply total_bound in HF. unfold size in *. rewrite length_map in HF. nia.
Qed.

Lemma role_index_le r : (role_index r <= 2)%nat.
Proof. unfold role_index. repeat case_match; lia. Qed.

Lemma new_plan_ok_step wid tg ids origins o plan :
  plan_ok wid tg ids origins plan -> Forall origin_weight_ok (origins ++ [o]) ->
  size (origins ++ [o]) < 4294967296 ->
  plan_ok wid tg ids (origins ++ [o]) (plan_step wid tg ids plan o).
Proof.
  intros [Hr] [Hw Hwo]%Forall_app Hs. apply Forall_cons_1 in Hwo as [Hwo _].
  assert (size (origins ++ [o]) = size origins + 1) as Hsz by (unfold size; rewrite length_app; simpl; lia).
  split. intros r Hlt. rewrite filter_snoc. unfold plan_step.
  destruct (Hr r Hlt) as (Hok & Hm & Hk).
  destruct (negb (enabled o) || (weight o =? 0)) eqn:E1.
  { unfold eligible. replace (enabled o && negb (weight o =? 0)) with false
      by (destruct (enabled o), (weight o =? 0); done). simpl. by rewrite app_nil_r. }
  assert (0 < weight o) as Hpos by (unfold origin_weight_ok in Hwo; reflect_bool; lia).
  assert (eligible tg ids r o = (role_index (role o) =? r)%nat && selected tg ids o) as He
    by (unfold eligible; destruct (enabled o), (weight o =? 0); done).
  rewrite He. clear He.
  destruct (role_index (role o) =? roles_size)%nat eqn:E2.
  { apply Nat.eqb_eq in E2. rewrite E2. rewrite (proj2 (Nat.eqb_neq _ _)) by (unfold roles_size; lia).
    simpl. by rewrite app_nil_r. }
  destruct (selected tg ids o); simpl; [|rewrite andb_false_r, app_nil_r; done].
  pose proof (role_total_bound _ _ _ _ _ Hm Hw ltac:(lia)) as Hb.
  assert (role_index (role o) < 2)%nat as Hri
    by (apply Nat.eqb_neq in E2; pose proof (role_index_le (role o)); unfold roles_size in *; lia).
  rewrite andb_true_r.
  assert (forall r', (r' < 2)%nat -> roles_ (if (role_index (role o) =? 0)%nat
    then mk_plan (push_candidate wid (primary_ plan) o) (backup_ plan)
    else mk_plan (primary_ plan) (push_candidate wid (backup_ plan) o)) r' =
    if (role_index (role o) =? r')%nat then push_candidate wid (roles_ plan r') o else roles_ plan r') as Hroles.
  { intros r' Hr'. destruct (role_index (role o)) as [|[|?]], r' as [|[|?]]; done || lia. }
  rewrite Hroles by done. destruct (role_index (role o) =? r)%nat; [|by rewrite app_nil_r].
  split_and!.
  - apply push_candidate_ok; [done|done|lia|]. unfold origin_weight_ok, two64 in *. lia.
  - unfold push_candidate. by rewrite map_app, Hm.
  - unfold push_candidate. apply Forall_app. auto.
Qed.

Lemma new_plan_ok w g ids :
  Forall origin_weight_ok (website_origins w) -> size (website_origins w) < 4294967296 ->
  plan_ok (website_id w) (or_default g) ids (website_origins w) (new_plan w g ids).
Proof.
  unfold new_plan. induction (website_origins w) as [|o os IH] using rev_ind; intros Hw Hs.
  - split. intros [|[|r]] Hr; [split_and!; done|split_and!; done|lia].
  - rewrite fold_left_app. apply new_plan_ok_step; [|done|done].
    apply IH; [by apply Forall_app in Hw as [? _]|]. unfold size in *. rewrite length_app in Hs. lia.
Qed.

(** The compiled plan holds, for each role and in the website's order, exactly the enabled
    origins of positive weight that the group or the identifiers select, with cumulative weights. *)
Theorem plan_compiles_eligible (w : website) (g : bytes) (ids : list bytes) (r : nat) :
  Forall origin_weight_ok (website_origins w) -> size (website_origins w) < 4294967296 -> (r < 2)%nat ->
  let cands := roles_ (new_plan w g ids) r in
  map origin_ cands = List.filter (eligible (or_default g) ids r) (website_origins w) /\
  map weight_end_ cands = running 0 (map weight (map origin_ cands)) /\
  Forall (fun c => health_key_ c = (website_id w, origin_id (origin_ c))) cands.
Proof.
  intros Hw Hs Hr cands. destruct (plan_roles _ _ _ _ _ (new_plan_ok w g ids Hw Hs) r Hr) as ([He _] & Hm & Hk).
  split_and!; [done| |done]. by rewrite map_map.
Qed.

(** * Rotations *)

Definition rotate {A} (n : nat) (l : list A) : list A := drop n l ++ take n l.

(** The [m] elements from position [i] on, wrapping around. *)
Definition segment {A} (l : list A) (i m : nat) : list A := take m (rotate i l).

Lemma segment_step {A} (l : list A) i m x :
  l !! i = Some x -> (S m <= length l)%nat ->
  segment l i (S m) = x :: segment l (if (S i =? length l)%nat then 0%nat else S i) m.
Proof.
  intros Hx Hm. unfold segment, rotate. rewrite (drop_S l x i Hx).
  change (x :: take m (drop (S i) l ++ take i l) =
    x :: take m (rotate (if (S i =? length l)%nat then 0%nat else S i) l)).
  f_equal. unfold rotate. pose proof (lookup_lt_Some _ _ _ Hx) as Hi. destruct (S i =? length l)%nat eqn:E.
  - apply Nat.eqb_eq in E. rewrite drop_ge, drop_0, app_nil_r by lia. simpl.
    rewrite take_take. f_equal. lia.
  - apply Nat.eqb_neq in E. rewrite !take_app, !length_drop, !take_take. f_equal. f_equal. lia.
Qed.

Lemma segment_full {A} (l : list A) i : segment l i (length l) = rotate i l.
Proof. unfold segment, rotate. apply take_ge. rewrite length_app, length_drop, length_take. lia. Qed.

Lemma rotate_permutation {A} n (l : list A) : rotate n l ≡ₚ l.
Proof. unfold rotate. rewrite Permutation_app_comm. by rewrite take_drop. Qed.

Lemma length_segment {A} (l : list A) i m : (m <= length l)%nat -> length (segment l i m) = m.
Proof.
  intros H. unfold segment. rewrite length_take, (Permutation_length (rotate_permutation i l)). lia.
Qed.

(** * The cursor visits every candidate once *)

Lemma upper_bound_total from ws cands s :
  map weight_end_ cands = running from ws -> from <= s < from + total ws ->
  (upper_bound cands s < length cands)%nat.
Proof.
  revert from ws. induction cands as [|c cands IH]; intros from [|w ws]; simpl; try done.
  - lia.
  - intros [= -> He] Hs. destruct (s <? from + w) eqn:E; reflect_bool; [lia|].
    specialize (IH _ _ He ltac:(lia)). lia.
Qed.

Lemma role_total_pos cands : role_ok cands -> cands <> [] -> 0 < cand_total cands.
Proof.
  intros [_ Hw] Hne. unfold cand_total. destruct Hw as [|c cands Hc Hw]; [done|]. simpl.
  assert (0 <= total (map (fun c => weight (origin_ c)) cands)); [|lia].
  clear Hne. induction Hw; simpl; lia.
Qed.

Lemma pivot_of_lt cands s : role_ok cands -> cands <> [] -> (pivot_of cands s < length cands)%nat.
Proof.
  intros Hok Hne. pose proof (role_last _ Hok) as Hl. pose proof (role_total_pos _ Hok Hne) as Hp.
  unfold pivot_of. destruct (last cands) as [c|]; [|lia]. rewrite Hl.
  apply (upper_bound_total 0 (map (fun c => weight (origin_ c)) cands)); [apply Hok|].
  apply Z.mod_pos_bound. done.
Qed.

Section Traversal.
Context (plan : origin_plan) (health : option origin_health_snapshot) (p0 p1 : nat).
Hypothesis Hp0 : primary_ plan <> [] -> (p0 < length (primary_ plan))%nat.
Hypothesis Hp1 : backup_ plan <> [] -> (p1 < length (backup_ plan))%nat.

(** One traversal: both roles from their pivots. *)
Definition traversal : list candidate := rotate p0 (primary_ plan) ++ rotate p1 (backup_ plan).

(** What is left of the current traversal. *)
Definition left_of (c : origin_cursor) : list candidate :=
  segment (roles_ plan (role_ c)) (index_ c) (remaining_ c) ++
  (if (role_ c =? 0)%nat then rotate p1 (backup_ plan) else []).

Definition sick (cand : candidate) : bool := negb (is_healthy health cand).

Definition expected (c : origin_cursor) : list candidate :=
  if unhealthy_pass_ c then List.filter sick (left_of c)
  else List.filter (is_healthy health) (left_of c) ++
       (if saw_unhealthy_ c || existsb sick (left_of c) then List.filter sick traversal else []).

(** An upper bound of the turns left. *)
Definition turns (c : origin_cursor) : nat :=
  length (left_of c) + (2 - role_ c) + (if unhealthy_pass_ c then 0 else length traversal + 2).

Record cursor_ok (c : origin_cursor) : Prop := {
  ok_plan : plan_ c = Some plan;
  ok_health : health_ c = health;
  ok_pivots : pivots_ c = (p0, p1);
  ok_role : (role_ c < 2)%nat;
  ok_remaining : (remaining_ c <= length (roles_ plan (role_ c)))%nat;
  ok_index : roles_ plan (role_ c) <> [] -> (index_ c < length (roles_ plan (role_ c)))%nat
}.

Lemma reset_ok c r pass :
  plan_ c = Some plan -> health_ c = health -> pivots_ c = (p0, p1) -> (r < 2)%nat ->
  cursor_ok (reset_role plan c r pass).
Proof.
  intros H1 H2 H3 Hr. split; try done. unfold reset_role, pivot. cbn [index_ role_].
  rewrite H3. destruct r as [|[|r]]; [exact Hp0|exact Hp1|lia].
Qed.

Lemma length_traversal : length traversal = (length (primary_ plan) + length (backup_ plan))%nat.
Proof. unfold traversal. by rewrite length_app, !(Permutation_length (rotate_permutation _ _)). Qed.

Lemma left_of_reset c r pass :
  pivots_ c = (p0, p1) -> (r < 2)%nat ->
  left_of (reset_role plan c r pass) = if (r =? 0)%nat then traversal else rotate p1 (backup_ plan).
Proof.
  intros H3 Hr. unfold left_of, reset_role, pivot. cbn [role_ index_ remaining_]. rewrite H3, segment_full.
  destruct r as [|[|r]]; [done|by rewrite app_nil_r|lia].
Qed.

(** A turn either makes progress towards the same answers, or returns the first of them, or
    returns null when there is none. *)
Definition turn_ok (c : origin_cursor) (turn : origin_cursor * option (option website_origin)) : Prop :=
  match turn with
  | (c', None) => cursor_ok c' /\ expected c' = expected c /\ (turns c' < turns c)%nat
  | (c', Some (Some o)) => cursor_ok c' /\ map origin_ (expected c) = o :: map origin_ (expected c')
  | (c', Some None) => expected c = []
  end.

(** At the end of a role. *)
Lemma role_end_ok c : cursor_ok c -> remaining_ c = 0%nat -> turn_ok c (next_turn plan c).
Proof.
  intros [H1 H2 H3 H4 H5 H6] Hm. unfold next_turn. rewrite Hm.
  destruct (S (role_ c) =? roles_size)%nat eqn:E.
  - apply Nat.eqb_eq in E. assert (role_ c = 1%nat) as Hr by (unfold roles_size in E; lia).
    assert (left_of c = []) as Hl by (unfold left_of; by rewrite Hm, Hr).
    destruct (unhealthy_pass_ c) eqn:Ep, (saw_unhealthy_ c) eqn:Es; cbn [orb negb turn_ok];
      unfold expected, turns; rewrite ?left_of_reset, ?Hl, ?Ep, ?Es, ?Hr by (done || lia); try done.
    split_and!; [by apply reset_ok; auto with lia|done|simpl; lia].
  - apply Nat.eqb_neq in E. assert (role_ c = 0%nat) as Hr by (unfold roles_size in E; lia).
    assert (left_of c = rotate p1 (backup_ plan)) as Hl by (unfold left_of; by rewrite Hm, Hr).
    cbn [turn_ok]. unfold expected, turns. rewrite Hr, !left_of_reset, Hl by (done || lia).
    split_and!; [by apply reset_ok; auto with lia|done|]. cbn [role_ unhealthy_pass_ reset_role Nat.eqb]. lia.
Qed.

(** At a candidate. *)
Lemma candidate_ok c m : cursor_ok c -> remaining_ c = S m -> turn_ok c (next_turn plan c).
Proof.
  intros [H1 H2 H3 H4 H5 H6] Hm. unfold next_turn. rewrite Hm.
  assert (roles_ plan (role_ c) <> []) as Hne by (intros E; rewrite E, Hm in H5; simpl in H5; lia).
  destruct (lookup_lt_is_Some_2 _ _ (H6 Hne)) as [cand Hc]. rewrite Hc.
  set (c' := mk_cursor (plan_ c) _ _ _ _ _ _ _).
  assert (cursor_ok c') as Hok.
  { split; try done; cbn [c' remaining_ index_ role_]; [lia|].
    intros _. specialize (H6 Hne). case_match eqn:E; [lia|]. apply Nat.eqb_neq in E. lia. }
  assert (left_of c = cand :: left_of c') as Hl.
  { unfold left_of. rewrite Hm, (segment_step _ _ _ _ Hc) by lia. done. }
  assert (sick cand = negb (is_healthy health cand)) as Hsick by done.
  assert (turns c' < turns c)%nat as Ht by (unfold turns; rewrite Hl; simpl; lia).
  assert (unhealthy_pass_ c' = unhealthy_pass_ c) as Hp by done.
  assert (saw_unhealthy_ c' = saw_unhealthy_ c || negb (is_healthy health cand)) as Hs by (rewrite <- H2; done).
  clearbody c'. rewrite H2. destruct (is_healthy health cand) eqn:Eh, (unhealthy_pass_ c) eqn:Ep;
    cbn [negb Bool.eqb turn_ok] in *; unfold expected; rewrite Hl, ?Ep, Hp, ?Hs;
    cbn [existsb List.filter]; rewrite Hsick, ?Eh; cbn [negb orb]; rewrite ?orb_true_r, ?orb_false_r; done.
Qed.

Lemma next_turn_ok c : cursor_ok c -> turn_ok c (next_turn plan c).
Proof.
  intros Hc. destruct (remaining_ c) eqn:E; [by apply role_end_ok|by eapply candidate_ok].
Qed.

Lemma next_loop_ok fuel c :
  cursor_ok c -> (turns c < fuel)%nat ->
  exists c' result, next_loop fuel plan c = Some (c', result) /\
    match result with
    | None => expected c = []
    | Some o => cursor_ok c' /\ map origin_ (expected c) = o :: map origin_ (expected c')
    end.
Proof.
  revert c. induction fuel as [|fuel IH]; intros c Hc Ht; [lia|]. simpl.
  pose proof (next_turn_ok c Hc) as Hturn.
  destruct (next_turn plan c) as [c' [result|]]; unfold turn_ok in Hturn.
  - exists c', result. split; [done|]. by destruct result.
  - destruct Hturn as (Hc' & He & Hlt). destruct (IH c' Hc' ltac:(lia)) as (c2 & r & Hn & Hr).
    exists c2, r. rewrite <- He. done.
Qed.

Lemma turns_le c : cursor_ok c -> (turns c < next_fuel plan)%nat.
Proof.
  intros [H1 H2 H3 H4 H5 H6]. unfold turns, next_fuel. rewrite <- length_traversal.
  assert (length (left_of c) <= length traversal)%nat; [|destruct (unhealthy_pass_ c); lia].
  unfold left_of. rewrite length_traversal, length_app, length_segment by done.
  destruct (role_ c) as [|[|?]]; simpl in *; [|lia|lia].
  rewrite (Permutation_length (rotate_permutation _ _)). lia.
Qed.

Lemma drain_ok c n :
  cursor_ok c -> (length (expected c) < n)%nat -> drain n c = Some (map origin_ (expected c)).
Proof.
  revert c. induction n as [|n IH]; intros c Hc Hn; [lia|]. simpl. unfold next. rewrite (ok_plan c Hc).
  destruct (next_loop_ok _ c Hc (turns_le c Hc)) as (c' & [o|] & -> & Hr); [|by rewrite Hr].
  destruct Hr as [Hc' He]. rewrite He.
  assert (length (expected c) = S (length (expected c'))) as Hlen
    by (rewrite <- (length_map origin_), He; simpl; by rewrite length_map).
  by rewrite IH by (done || lia).
Qed.
End Traversal.

(** The order in which a request tries the candidates: primaries then backups, each from the pivot
    its sequence number picks; the healthy ones first. *)
Definition attempt_order (plan : origin_plan) (sequence : Z) (health : option origin_health_snapshot) :
    list candidate :=
  let all := rotate (pivot_of (primary_ plan) sequence) (primary_ plan) ++
             rotate (pivot_of (backup_ plan) sequence) (backup_ plan) in
  List.filter (is_healthy health) all ++ List.filter (fun c => negb (is_healthy health c)) all.

Lemma filter_none {A} (P : A -> bool) l : existsb P l = false -> List.filter P l = [].
Proof.
  induction l as [|x l IH]; simpl; [done|]. intros [-> H]%orb_false_iff. auto.
Qed.

(** A request tries every candidate of the plan exactly once, in [attempt_order], and then
    gets null: no candidate is skipped or tried twice, each call returns, and the unhealthy
    candidates come after all the healthy ones in the same relative order. *)
Theorem cursor_tries_each_once (w : website) (g : bytes) (ids : list bytes) (sequence : Z)
    (health : option origin_health_snapshot) :
  Forall origin_weight_ok (website_origins w) -> size (website_origins w) < 4294967296 ->
  let plan := new_plan w g ids in
  let order := attempt_order plan sequence health in
  drain (S (length order)) (new_cursor plan sequence health) = Some (map origin_ order) /\
  order ≡ₚ primary_ plan ++ backup_ plan.
Proof.
  intros Hw Hs plan order. pose proof (new_plan_ok w g ids Hw Hs) as [Hr].
  set (p0 := pivot_of (primary_ plan) sequence). set (p1 := pivot_of (backup_ plan) sequence).
  assert (primary_ plan <> [] -> (p0 < length (primary_ plan))%nat) as Hp0
    by (apply pivot_of_lt, (Hr 0%nat); lia).
  assert (backup_ plan <> [] -> (p1 < length (backup_ plan))%nat) as Hp1
    by (apply pivot_of_lt, (Hr 1%nat); lia).
  set (c := new_cursor plan sequence health).
  assert (cursor_ok plan health p0 p1 c) as Hc by (apply (reset_ok plan health p0 p1); auto with lia).
  assert (expected plan health p0 p1 c = order) as He.
  { unfold expected, c, new_cursor. rewrite (left_of_reset plan p0 p1) by (done || lia). cbn [unhealthy_pass_ reset_role saw_unhealthy_ orb Nat.eqb].
    unfold order, attempt_order. fold p0 p1. fold (traversal plan p0 p1). unfold sick.
    destruct (existsb _ _) eqn:E; [done|]. by rewrite (filter_none _ _ E). }
  split.
  - rewrite <- He. apply (drain_ok plan health p0 p1); auto with lia.
  - unfold order, attempt_order. fold p0 p1. set (all := rotate p0 _ ++ rotate p1 _).
    transitivity all; [|unfold all; by rewrite !rotate_permutation].
    clear. induction all as [|x l IH]; simpl; [done|].
    destruct (is_healthy health x); simpl; [by rewrite IH|]. rewrite <- Permutation_middle. by rewrite IH.
Qed.

(** * Weighted fairness *)

Definition count {A} (P : A -> bool) (l : list A) : Z := size (List.filter P l).

Lemma count_app {A} (P : A -> bool) l k : count P (l ++ k) = count P l + count P k.
Proof. unfold count, size. rewrite List.filter_app, length_app. lia. Qed.

Lemma count_ext {A} (P Q : A -> bool) l : (forall x, In x l -> P x = Q x) -> count P l = count Q l.
Proof. intros H. unfold count. f_equal. by apply filter_ext_in. Qed.

Lemma count_all {A} (P : A -> bool) b l : (forall x, In x l -> P x = b) -> count P l = if b then size l else 0.
Proof.
  intros H. rewrite (count_ext P (fun _ => b)) by done. clear H. unfold count. induction l as [|x l IH]; [by destruct b|].
  simpl. destruct b; [|done]. unfold size in *. simpl. lia.
Qed.

Lemma in_seqZ x m n : In x (seqZ m n) <-> m <= x < m + n.
Proof. rewrite <- list_elem_of_In, elem_of_seqZ. done. Qed.

Lemma length_seqZ' m n : 0 <= n -> size (seqZ m n) = n.
Proof. intros H. unfold size. rewrite length_seqZ. lia. Qed.

Lemma count_window (P : Z -> bool) W k :
  0 < W -> (forall s, P (s + W) = P s) -> 0 <= k -> count P (seqZ k W) = count P (seqZ 0 W).
Proof.
  intros HW HP Hk. pattern k. apply natlike_ind; [done| |done]. clear k Hk. intros k Hk IH.
  rewrite <- IH, (seqZ_cons k W) by lia. change (k :: ?l) with ([k] ++ l).
  replace (seqZ (Z.succ k) W) with (seqZ (Z.succ k) (Z.pred W) ++ [k + W]).
  - assert (count P [k + W] = count P [k]) by (unfold count; cbn [List.filter]; rewrite HP; by destruct (P k)).
    rewrite !count_app. lia.
  - replace (seqZ (Z.succ k) W) with (seqZ (Z.succ k) (Z.pred W + 1)) by (f_equal; lia).
    rewrite seqZ_app by lia. f_equal. replace (Z.succ k + Z.pred W) with (k + W) by lia.
    by rewrite seqZ_cons.
Qed.

Lemma count_upper_bound cands from ws i w :
  map weight_end_ cands = running from ws -> Forall (fun w => 0 < w) ws -> ws !! i = Some w ->
  count (fun s => (upper_bound cands s =? i)%nat) (seqZ from (total ws)) = w.
Proof.
  intros He Hw. revert cands from i He.
  induction Hw as [|v ws Hv Hws IH]; intros [|c cands] from i; simpl; try done.
  intros [= He1 He2] Hi.
  assert (0 <= total ws) by (clear -Hws; induction Hws; simpl; lia).
  change (fold_right Z.add 0 ws) with (total ws). rewrite seqZ_app, count_app by lia.
  assert (forall s, In s (seqZ from v) -> upper_bound (c :: cands) s = 0%nat) as H1.
  { intros s Hs%in_seqZ. simpl. rewrite He1. by rewrite (proj2 (Z.ltb_lt _ _)) by lia. }
  assert (forall s, In s (seqZ (from + v) (total ws)) ->
    upper_bound (c :: cands) s = S (upper_bound cands s)) as H2.
  { intros s Hs%in_seqZ. simpl. rewrite He1. by rewrite (proj2 (Z.ltb_ge _ _)) by lia. }
  simpl in H1, H2. destruct i as [|i]; simpl in Hi.
  - simplify_eq. rewrite (count_all _ true), (count_all _ false).
    + rewrite length_seqZ'; lia.
    + intros s Hs. by rewrite H2.
    + intros s Hs. by rewrite H1.
  - rewrite (count_all _ false) by (intros s Hs; by rewrite H1).
    rewrite (count_ext _ (fun s => (upper_bound cands s =? i)%nat)) by (intros s Hs; by rewrite H2).
    by rewrite IH.
Qed.

(** Weighted fairness: over any run of as many consecutive sequence numbers as the role's
    total weight, each candidate is the first choice of its role exactly [weight] times. *)
Theorem weighted_fairness (w : website) (g : bytes) (ids : list bytes) (r i : nat) (c : candidate) (k : Z) :
  Forall origin_weight_ok (website_origins w) -> size (website_origins w) < 4294967296 ->
  0 <= k ->
  let cands := roles_ (new_plan w g ids) r in
  cands !! i = Some c ->
  count (fun sequence => (pivot_of cands sequence =? i)%nat) (seqZ k (cand_total cands)) =
  weight (origin_ c).
Proof.
  intros Hw Hs Hk cands Hi.
  assert (r < 2)%nat as Hr by (unfold cands in Hi; destruct r as [|[|r]]; [lia|lia|done]).
  destruct (plan_roles _ _ _ _ _ (new_plan_ok w g ids Hw Hs) r Hr) as (Hok & _). fold cands in Hok.
  assert (cands <> []) as Hne by (intros E; by rewrite E in Hi).
  pose proof (role_total_pos _ Hok Hne) as Hpos. pose proof (role_last _ Hok) as Hl.
  assert (forall s, pivot_of cands s = upper_bound cands (s mod cand_total cands)) as Hp.
  { intros s. unfold pivot_of. destruct (last cands) as [l|]; [by rewrite Hl|lia]. }
  rewrite count_window; [|done| |done].
  - rewrite (count_ext _ (fun s => (upper_bound cands s =? i)%nat)).
    + destruct Hok as [He HF]. apply (count_upper_bound cands 0 (map (fun c => weight (origin_ c)) cands));
        [done|by apply Forall_map|]. rewrite list_lookup_fmap. by rewrite Hi.
    + intros s Hin%in_seqZ. by rewrite Hp, Z.mod_small by lia.
  - intros s. rewrite !Hp. do 2 f_equal. rewrite <- (Z.mul_1_l (cand_total cands)) at 1. by rewrite Z.mod_add by lia.
Qed.

(** A website with two primaries and a backup; the first primary is unhealthy. *)
Definition example_website : website :=
  mk_website (lit "w")
    [mk_website_origin (lit "a") [] (lit "primary") 3 true;
     mk_website_origin (lit "x") [] (lit "primary") 0 true;
     mk_website_origin (lit "b") (lit "default") (lit "primary") 1 true;
     mk_website_origin (lit "c") [] (lit "backup") 1 true].
Definition example_health : origin_health_snapshot :=
  {[ (lit "w", lit "a") := mk_origin 1 false 5 0 [] ]}.

Lemma plan_compiles_eligible_witness :
  map weight_end_ (roles_ (new_plan example_website [] []) 0) = [3; 4].
Proof.
  destruct (plan_compiles_eligible example_website [] [] 0) as (H1 & H2 & _);
    [by_decision|by_decision|lia|]. rewrite H2, H1. by vm_compute.
Defined.

Lemma cursor_tries_each_once_witness :
  map origin_id <$> drain 4 (new_cursor (new_plan example_website [] []) 2 (Some example_health)) =
    Some [lit "b"; lit "c"; lit "a"].
Proof.
  destruct (cursor_tries_each_once example_website [] [] 2 (Some example_health)) as [H _];
    [by_decision|by_decision|].
  transitivity (map origin_id <$>
    Some (map origin_ (attempt_order (new_plan example_website [] []) 2 (Some example_health))));
    [rewrite <- H; by vm_compute|by vm_compute].
Defined.

Lemma weighted_fairness_witness :
  count (fun s => (pivot_of (roles_ (new_plan example_website [] []) 0) s =? 0)%nat) (seqZ 10 4) = 3.
Proof.
  apply (weighted_fairness example_website [] [] 0 0
    (mk_candidate (mk_website_origin (lit "a") [] (lit "primary") 3 true) 3 (lit "w", lit "a")) 10);
    [by_decision|by_decision|lia|by vm_compute].
Defined.
