(* ===== verification/RequestExpression.v ===== *)
(** The expression language of cache and security rules: src/common/request_expression.h.

    The parser is a state and error monad over the text that is left and the program emitted so
    far; recursion is bounded by the nesting limit of the source, loops by the text left. *)
From S2P Require Import Prelude RoutePolicy RouteMatch.
Open Scope Z_scope.

Inductive expression_context := cache | security.

Inductive expression_op :=
  | compare | logical_not | logical_and | logical_xor | logical_or | constant.

#[export] Instance expression_context_eq_dec : EqDecision expression_context.
Proof. solve_decision. Defined.
#[export] Instance expression_op_eq_dec : EqDecision expression_op.
Proof. solve_decision. Defined.

Record expression_instruction := mk_instruction {
  op_ : expression_op;
  field_ : bytes;
  header_ : bytes;
  comparison_ : bytes;
  values_ : list bytes;
  lower_ : bool;
  list_ : bytes
}.
Definition plain (op : expression_op) (values : list bytes) : expression_instruction :=
  mk_instruction op [] [] [] values false [].

(** * The parser's state and effects *)

(** [rest_] is [text_.substr(position_)]; the position is what was consumed of [size_] bytes. *)
Record parser_state := mk_parser { size_ : Z; rest_ : bytes; program_ : list expression_instruction }.

Inductive outcome (A : Type) :=
  | Ok (a : A) (s : parser_state)
  | Fail (message : bytes)
  | NoFuel.
Arguments Ok {A}. Arguments Fail {A}. Arguments NoFuel {A}.

Definition parser (A : Type) : Type := parser_state -> outcome A.
Definition ret {A} (a : A) : parser A := fun s => Ok a s.
Definition bind {A B} (p : parser A) (f : A -> parser B) : parser B := fun s =>
  match p s with Ok a s' => f a s' | Fail m => Fail m | NoFuel => NoFuel end.

Declare Scope parser_scope.
Delimit Scope parser_scope with parser.
Notation "'let*' x := p 'in' q" := (bind p (fun x => q))
  (at level 200, x pattern, p at level 100, q at level 200) : parser_scope.
Notation "p ;; q" := (bind p (fun _ => q)) (at level 100, q at level 200, right associativity) : parser_scope.
#[local] Open Scope parser_scope.

Definition position_ (s : parser_state) : Z := size_ s - size (rest_ s).
Definition set_rest (s : parser_state) (rest : bytes) : parser_state := mk_parser (size_ s) rest (program_ s).

Definition fail {A} (message : string) : parser A := fun s =>
  Fail (lit message ++ lit "（位置 " ++ dec (position_ s + 1) ++ lit "）").

Definition is_space (c : ascii) : bool :=
  (c == " "%char) || (c == chr 9) || (c == chr 13) || (c == chr 10).
Fixpoint skip_space (text : bytes) : bytes :=
  match text with c :: text' => if is_space c then skip_space text' else text | [] => [] end.
Definition whitespace : parser unit := fun s => Ok tt (set_rest s (skip_space (rest_ s))).

Definition symbol (value : ascii) : parser bool :=
  whitespace;; fun s =>
    match rest_ s with
    | c :: text => if c == value then Ok true (set_rest s text) else Ok false s
    | [] => Ok false s
    end.

Definition require (value : ascii) : parser unit :=
  let* found := symbol value in if found then ret tt else fail "缺少分隔符".

Definition word_char (c : ascii) : bool :=
  is_lower c || is_upper c || is_digit c || (c == "_"%char) || (c == "."%char).
Definition keyword (word : string) : parser bool :=
  whitespace;; fun s =>
    if negb (starts_with (rest_ s) (lit word)) then Ok false s
    else
      let next := drop (length (lit word)) (rest_ s) in
      match next with
      | c :: _ => if word_char c then Ok false s else Ok true (set_rest s next)
      | [] => Ok true (set_rest s next)
      end.

Definition identifier_char (c : ascii) : bool :=
  is_lower c || is_digit c || (c == "_"%char) || (c == "."%char).
Definition identifier : parser bytes :=
  whitespace;; fun s =>
    let '(name, rest) := take_while identifier_char (rest_ s) in
    if empty name then fail "需要字段或运算符" s else Ok name (set_rest s rest).

(** * String literals *)

Fixpoint hash_loop (text : bytes) (hashes : nat) : option (nat * bytes) * bytes :=
  match text with
  | c :: text' =>
      if c == "#"%char then
        if (8 <? S hashes)%nat then (None, text') else hash_loop text' (S hashes)
      else (Some (hashes, text), text)
  | [] => (Some (hashes, text), text)
  end.

Definition dquote : ascii := chr 34.
Definition backslash : ascii := "\"%char.

(** The body of a literal after its opening quote. *)
Fixpoint literal_loop (raw : bool) (hashes : nat) (text value : bytes) (s : parser_state) : outcome bytes :=
  match text with
  | [] => fail "字符串未结束" (set_rest s [])
  | byte :: text =>
      if (byte == dquote) && (negb raw || (take hashes text == repeat "#"%char hashes)) then
        let s := set_rest s (drop hashes text) in
        if (512 <? size value) || negb (valid_utf8 value) then fail "字符串无效或超过512字节" s
        else Ok value s
      else if negb raw && (byte == backslash) then
        match text with
        | [] => fail "字符串转义不完整" (set_rest s [])
        | byte :: text =>
            if (byte != backslash) && (byte != dquote) then
              fail "不支持的字符串转义，请使用原始字符串" (set_rest s text)
            else literal_loop raw hashes text (value ++ [byte]) s
        end
      else if iscntrl byte then fail "字符串不能包含控制字符" (set_rest s text)
      else literal_loop raw hashes text (value ++ [byte]) s
  end.

Definition open_quote (raw : bool) (hashes : nat) : parser bytes := fun s =>
  match rest_ s with
  | [] => fail "需要双引号字符串" s
  | c :: text =>
      if c != dquote then fail "需要双引号字符串" (set_rest s text)
      else literal_loop raw hashes text [] s
  end.

Definition literal : parser bytes :=
  whitespace;; fun s =>
    match rest_ s with
    | c :: text =>
        if c == "r"%char then
          match hash_loop text 0 with
          | (None, text) => fail "原始字符串分隔符过长" (set_rest s text)
          | (Some (hashes, _), text) => open_quote true hashes (set_rest s text)
          end
        else open_quote false 0 s
    | [] => open_quote false 0 s
    end.

Definition emit (instruction : expression_instruction) : parser unit := fun s =>
  if 256 <=? size (program_ s) then fail "表达式条件过多" s
  else Ok tt (mk_parser (size_ s) (rest_ s) (program_ s ++ [instruction])).

(** * Fields *)

Definition fields : list bytes :=
  map lit ["http.request.uri.path.extension"; "http.request.uri.path"; "raw.http.request.uri.path";
    "http.host"; "http.cookie"; "http.user_agent"; "http.request.full_uri"; "http.request.uri.query";
    "raw.http.request.uri.query"; "http.referer"; "http.request.method"]%string.
Definition security_fields : list bytes := map lit ["ip.src"; "ip.src.country"; "ip.src.asnum"]%string.
Definition contains (l : list bytes) (x : bytes) : bool := existsb (fun y => y == x) l.

(** What [field] sets of the instruction. *)
Record field_ref := mk_field { ref_field : bytes; ref_header : bytes; ref_lower : bool }.

Definition header_index : parser bytes :=
  require "["%char;;
  let* header := literal in
  require "]"%char;;
  require "["%char;;
  let* zero := symbol "0"%char in
  (if zero then ret tt else fail "请求头仅支持索引0");;
  require "]"%char;;
  if negb (http_token header 128) || existsb is_upper header then fail "请求头名称必须使用小写"
  else ret header.

Definition field (context : expression_context) : parser field_ref :=
  let* lower := keyword "lower" in
  (if lower then require "("%char else ret tt);;
  let* name := identifier in
  let* header :=
    (if name == lit "http.request.headers" then header_index
     else if contains fields name || ((context == security) && contains security_fields name) then ret []
     else fail "不支持此匹配字段") in
  (if lower then require ")"%char else ret tt);;
  ret (mk_field name header lower).

Definition address_char (c : ascii) : bool :=
  is_digit c || in_range "a" "f" c || in_range "A" "F" c || (c == ":"%char) || (c == "."%char) || (c == "/"%char).
Definition scalar (context : expression_context) (field : bytes) : parser bytes :=
  whitespace;; fun s =>
    if (context != security) || ((field != lit "ip.src") && (field != lit "ip.src.asnum")) ||
       match rest_ s with [] => true | c :: _ => c == dquote end
    then literal s
    else
      let '(value, rest) := take_while address_char (rest_ s) in
      if empty value then fail "需要 IP、CIDR 或 ASN" s else Ok value (set_rest s rest).

(** * Comparisons *)

(** The check of a wildcard pattern; the message of its first error. *)
Fixpoint wildcard_error (escaped star : bool) (pattern : bytes) : option string :=
  match pattern with
  | [] => if escaped then Some "通配符转义不完整"%string else None
  | byte :: pattern =>
      if escaped then
        if (byte != "*"%char) && (byte != backslash) then Some "通配符转义只支持星号和反斜线"%string
        else wildcard_error false false pattern
      else if byte == backslash then wildcard_error true false pattern
      else if byte == "*"%char then
        if star then Some "通配符不能包含连续星号"%string else wildcard_error false true pattern
      else wildcard_error false false pattern
  end.

Definition comparisons : list bytes :=
  map lit ["eq"; "ne"; "contains"; "wildcard"; "strict wildcard"; "matches"; "in"]%string.

Definition comparison : parser bytes :=
  let* equal := symbol "="%char in
  if equal then require "="%char;; ret (lit "eq")
  else
    let* not_equal := symbol "!"%char in
    if not_equal then require "="%char;; ret (lit "ne")
    else
      let* tilde := symbol "~"%char in
      if tilde then ret (lit "matches")
      else
        let* name := identifier in
        if name == lit "strict" then
          let* wild := keyword "wildcard" in
          if wild then ret (lit "strict wildcard") else fail "strict后需要wildcard"
        else ret name.

(** [while (!symbol('}'))] *)
Fixpoint value_list (fuel : nat) (context : expression_context) (field : bytes) (values : list bytes) :
    parser (list bytes) :=
  match fuel with
  | O => fun _ => NoFuel
  | S fuel' =>
      let* closed := symbol "}"%char in
      if closed then ret values
      else if 100 <=? size values then fail "列表最多100项"
      else
        let* value := scalar context field in
        value_list fuel' context field (values ++ [value])
  end.

Definition with_rest_fuel {A} (p : nat -> parser A) : parser A := fun s => p (S (length (rest_ s))) s.

Section Parser.
Context `{Re2}.
Context (context : expression_context).

Definition check_values (comparison : bytes) (values : list bytes) : parser unit :=
  let front := hd [] values in
  (if (comparison == lit "matches") && negb (present (compile_pattern front))
   then fail "正则表达式不受支持" else ret tt);;
  if ends_with comparison (lit "wildcard") then
    match wildcard_error false false front with Some message => fail message | None => ret tt end
  else ret tt.

Definition comparison_of (f : field_ref) (comparison : bytes) (values : list bytes) (list : bytes) :
    expression_instruction :=
  mk_instruction compare (ref_field f) (ref_header f) comparison values (ref_lower f) list.

(** [starts_with(field, literal)] and [ends_with(field, literal)]. *)
Definition call (comparison : bytes) : parser unit :=
  require "("%char;;
  let* f := field context in
  require ","%char;;
  let* value := literal in
  require ")"%char;;
  emit (comparison_of f comparison [value] []).

(** [field operator value]. *)
Definition comparison_primary : parser unit :=
  let* f := field context in
  let* name := comparison in
  if negb (contains comparisons name) then fail "不支持此运算符"
  else if name == lit "in" then
    let* list := (if context == security then symbol "$"%char else ret false) in
    if list then
      let* list := identifier in
      emit (comparison_of f name [] list)
    else
      require "{"%char;;
      let* values := with_rest_fuel (fun fuel => value_list fuel context (ref_field f) []) in
      emit (comparison_of f name values [])
  else
    let* value := scalar context (ref_field f) in
    check_values name [value];;
    emit (comparison_of f name [value] []).

(** * Logic *)

(** [keyword(word) || (text_.substr(position_, 2) == mark && (position_ += 2))] *)
Definition connective (word : string) (mark : bytes) : parser bool :=
  let* found := keyword word in
  if found then ret true
  else fun s =>
    if negb (empty mark) && starts_with (rest_ s) mark then Ok true (set_rest s (drop 2 (rest_ s)))
    else Ok false s.

(** [while (connective) { operand; emit(op); }] *)
Fixpoint connective_loop (fuel : nat) (word : string) (mark : bytes) (operand : parser unit)
    (op : expression_op) : parser unit :=
  match fuel with
  | O => fun _ => NoFuel
  | S fuel' =>
      let* found := connective word mark in
      if found then
        operand;;
        emit (plain op []);;
        connective_loop fuel' word mark operand op
      else ret tt
  end.
Definition chain (word : string) (mark : bytes) (operand : parser unit) (op : expression_op) : parser unit :=
  operand;;
  with_rest_fuel (fun fuel => connective_loop fuel word mark operand op).

Definition parse_and (primary : parser unit) : parser unit := chain "and" (lit "&&") primary logical_and.
Definition parse_xor (primary : parser unit) : parser unit := chain "xor" [] (parse_and primary) logical_xor.
Definition parse_or (primary : parser unit) : parser unit := chain "or" (lit "||") (parse_xor primary) logical_or.

(** [room] is 25 minus the depth. *)
Fixpoint primary (room : nat) : parser unit :=
  match room with
  | O => fail "表达式嵌套过深"
  | S room =>
      let* group := symbol "("%char in
      if group then parse_or (primary room);; require ")"%char
      else
        let* negated := keyword "not" in
        let* negated := (if negated then ret true else symbol "!"%char) in
        if negated then primary room;; emit (plain logical_not [])
        else
          let* yes := keyword "true" in
          if yes then emit (plain constant [lit "true"])
          else
            let* no := keyword "false" in
            if no then emit (plain constant [])
            else
              let* starts := keyword "starts_with" in
              if starts then call (lit "starts_with")
              else
                let* ends := keyword "ends_with" in
                if ends then call (lit "ends_with") else comparison_primary
  end.

Definition max_room : nat := 25.

Definition parse (text : bytes) : outcome (list expression_instruction) :=
  let s := mk_parser (size text) text [] in
  (let maximum := if context == security then 8000 else 4096 in
   (if empty text || (maximum <? size text) then fail "表达式为空或超过长度上限" else ret tt);;
   parse_or (primary max_room);;
   whitespace;;
   fun s => if negb (empty (rest_ s)) then fail "表达式有未识别的内容" s else Ok (program_ s) s) s.

(** The caught exception's text, empty when there is none. *)
Definition validate_expression (text : bytes) : option bytes :=
  match parse text with Ok _ _ => Some [] | Fail message => Some message | NoFuel => None end.
End Parser.

(** * Reasoning about parsers

    [spec p s Q]: from [s], [p] does not run out of fuel, and when it succeeds its result and the
    new state satisfy [Q]. *)
Definition spec {A} (p : parser A) (s : parser_state) (Q : A -> parser_state -> Prop) : Prop :=
  match p s with Ok a s' => Q a s' | Fail _ => True | NoFuel => False end.

Lemma spec_ret {A} (a : A) s (Q : A -> parser_state -> Prop) : Q a s -> spec (ret a) s Q.
Proof. done. Qed.

Lemma spec_fail {A} m s (Q : A -> parser_state -> Prop) : spec (fail m) s Q.
Proof. done. Qed.

Lemma spec_bind {A B} (p : parser A) (f : A -> parser B) s (Q : B -> parser_state -> Prop) :
  spec p s (fun a s' => spec (f a) s' Q) -> spec (bind p f) s Q.
Proof. unfold spec, bind. by destruct (p s). Qed.

Lemma spec_mono {A} (p : parser A) s (P Q : A -> parser_state -> Prop) :
  spec p s P -> (forall a s', P a s' -> Q a s') -> spec p s Q.
Proof. unfold spec. destruct (p s); auto. Qed.

(** [s'] is [s] with at least [n] more bytes consumed. *)
Definition adv (n : nat) (s s' : parser_state) : Prop :=
  program_ s' = program_ s /\ (length (rest_ s') + n <= length (rest_ s))%nat.

Lemma adv_refl s : adv 0 s s.
Proof. split; [done|lia]. Qed.

Lemma adv_trans n m k s1 s2 s3 : adv n s1 s2 -> adv m s2 s3 -> (k <= n + m)%nat -> adv k s1 s3.
Proof. intros [A1 A2] [B1 B2] Hk. split; [congruence|lia]. Qed.

(** Use a specification of the first parser of a sequence. *)
Lemma spec_seq {A B} (p : parser A) (f : A -> parser B) s (P : A -> parser_state -> Prop)
    (Q : B -> parser_state -> Prop) :
  spec p s P -> (forall a s', P a s' -> spec (f a) s' Q) -> spec (bind p f) s Q.
Proof. intros Hp Hf. apply spec_bind. by apply (spec_mono _ _ P). Qed.

Lemma skip_space_length text : (length (skip_space text) <= length text)%nat.
Proof. induction text as [|c text IH]; simpl; [lia|]. destruct (is_space c); simpl; lia. Qed.

Lemma whitespace_spec s : spec whitespace s (fun _ s' => adv 0 s s').
Proof. split; [done|]. simpl. pose proof (skip_space_length (rest_ s)). lia. Qed.

Definition found (s : parser_state) (b : bool) (s' : parser_state) : Prop :=
  adv (if b then 1 else 0)%nat s s'.

Lemma symbol_spec c s : spec (symbol c) s (found s).
Proof.
  unfold symbol. eapply spec_seq; [apply whitespace_spec|]. intros u s1 H1. unfold spec, found.
  destruct (rest_ s1) as [|x text] eqn:E; [done|]. destruct (x == c).
  - apply (adv_trans 0 1 1 s s1); [done| |lia]. split; [done|]. simpl. rewrite E. simpl. lia.
  - done.
Qed.

Lemma require_spec c s : spec (require c) s (fun _ s' => adv 1 s s').
Proof. eapply spec_seq; [apply symbol_spec|]. by intros [] s'. Qed.

Lemma keyword_spec word s : lit word <> [] -> spec (keyword word) s (found s).
Proof.
  intros Hw. unfold keyword. eapply spec_seq; [apply whitespace_spec|]. intros u s1 H1. unfold spec, found.
  destruct (starts_with (rest_ s1) (lit word)) eqn:Hs; simpl; [|done].
  assert (adv 1 s (set_rest s1 (drop (length (lit word)) (rest_ s1)))) as Hadv.
  { apply (adv_trans 0 1 1 s s1); [done| |lia]. split; [done|]. simpl. rewrite length_drop.
    apply starts_with_spec in Hs as [r ->]. rewrite length_app. destruct (lit word); [done|simpl; lia]. }
  destruct (drop _ _); [done|]. by destruct (word_char _).
Qed.

(** The common ending of [identifier] and [scalar]: a nonempty run of accepted characters. *)
Lemma take_while_adv ok s s1 a b :
  adv 0 s s1 -> take_while ok (rest_ s1) = (a, b) -> empty a = false -> adv 1 s (set_rest s1 b).
Proof.
  intros [H1 H2] Ht%take_while_length Ha. split; [done|]. simpl. destruct a; [done|]. simpl in Ht. lia.
Qed.

Lemma identifier_spec s : spec identifier s (fun _ s' => adv 1 s s').
Proof.
  unfold identifier. eapply spec_seq; [apply whitespace_spec|]. intros u s1 H1. unfold spec.
  destruct (take_while _ _) as [a b] eqn:E. destruct (empty a) eqn:Ha; [done|]. by eapply take_while_adv.
Qed.

Lemma literal_loop_spec raw hashes text value s s0 :
  (length text < length (rest_ s0))%nat -> program_ s = program_ s0 ->
  match literal_loop raw hashes text value s with Ok _ s' => adv 1 s0 s' | Fail _ => True | NoFuel => False end.
Proof.
  revert value. induction text as [text IH] using (induction_ltof1 _ (@length ascii)). unfold ltof in IH.
  intros value Hl Hp. destruct text as [|c text]; simpl in *; [done|].
  destruct (_ && _)%bool.
  { destruct (_ || _)%bool; [done|]. split; [done|]. simpl. rewrite length_drop. lia. }
  destruct (_ && _)%bool.
  { destruct text as [|d text]; [done|]. destruct (_ && _)%bool; [done|]. simpl in *. apply IH; simpl in *; auto; lia. }
  destruct (iscntrl c); [done|]. apply IH; auto; lia.
Qed.

Lemma open_quote_spec raw hashes s : spec (open_quote raw hashes) s (fun _ s' => adv 1 s s').
Proof.
  unfold spec, open_quote. destruct (rest_ s) as [|c text] eqn:E; [done|]. destruct (negb _); [done|].
  apply literal_loop_spec; [rewrite E; simpl; lia|done].
Qed.

Lemma hash_loop_length text n o rest : hash_loop text n = (o, rest) -> (length rest <= length text)%nat.
Proof.
  revert n. induction text as [|c text IH]; simpl; intros n; [by intros [= _ <-]|].
  destruct (_ == _); [|intros [= _ <-]; simpl; lia].
  destruct (_ <? _)%nat; [intros [= _ <-]; lia|]. intros H%IH. lia.
Qed.

Lemma literal_spec s : spec literal s (fun _ s' => adv 1 s s').
Proof.
  unfold literal. eapply spec_seq; [apply whitespace_spec|]. intros u s1 H1. unfold spec.
  assert (forall raw hashes s2, adv 0 s s2 -> match open_quote raw hashes s2 with
    Ok _ s' => adv 1 s s' | Fail _ => True | NoFuel => False end) as Hopen.
  { intros raw hashes s2 H2. apply (spec_mono _ _ _ _ (open_quote_spec raw hashes s2)).
    intros v s3 H3. by apply (adv_trans 0 1 1 s s2). }
  destruct (rest_ s1) as [|c text] eqn:E; [by apply Hopen|]. destruct (_ == _); [|by apply Hopen].
  destruct (hash_loop text 0) as [[[hashes ?]|] rest] eqn:Eh; [|done]. apply Hopen.
  apply hash_loop_length in Eh. destruct H1 as [P1 P2]. split; [done|]. rewrite E in P2. simpl in *. lia.
Qed.

(** Run the next parser of the goal by its specification, in a state already reached by [adv]. *)
Ltac seq lem := eapply spec_seq; [apply lem|]; cbv beta; intros.
Ltac adv := unfold found in *; repeat match goal with b : bool |- _ => destruct b end;
  first [assumption | eapply adv_trans; [eassumption|eassumption|lia]
        | eapply adv_trans; [eassumption|eapply adv_trans; [eassumption|eassumption|apply le_n]|lia]].

Lemma adv_weaken n m s s' : adv n s s' -> (m <= n)%nat -> adv m s s'.
Proof. intros [H1 H2] H. split; [done|lia]. Qed.

(** Sequencing of parsers that only consume. *)
Lemma spec_adv {A B} n m k (p : parser A) (f : A -> parser B) s :
  spec p s (fun _ s' => adv n s s') -> (forall a s', spec (f a) s' (fun _ s'' => adv m s' s'')) ->
  (k <= n + m)%nat -> spec (bind p f) s (fun _ s' => adv k s s').
Proof.
  intros Hp Hf Hk. eapply spec_seq; [apply Hp|]. cbv beta. intros a s1 H1.
  apply (spec_mono _ _ _ _ (Hf a s1)). intros b s2 H2. by apply (adv_trans n m k s s1 s2).
Qed.

Lemma spec_weaken {A} n m (p : parser A) s :
  spec p s (fun _ s' => adv n s s') -> (m <= n)%nat -> spec p s (fun _ s' => adv m s s').
Proof. intros H Hm. apply (spec_mono _ _ _ _ H). intros. by apply (adv_weaken n). Qed.

Lemma found_adv (p : parser bool) s : spec p s (found s) -> spec p s (fun _ s' => adv 0 s s').
Proof. intros Hp. apply (spec_mono _ _ _ _ Hp). intros b s' H. apply (adv_weaken _ _ _ _ H). lia. Qed.

Lemma ret_adv {A} (a : A) s : spec (ret a) s (fun _ s' => adv 0 s s').
Proof. apply adv_refl. Qed.

(** Discharge a specification of consumption along the structure of the parser. *)
Ltac advance :=
  repeat first
    [ apply ret_adv | apply spec_fail | apply literal_spec | apply require_spec | apply identifier_spec
    | apply found_adv, symbol_spec | apply found_adv, keyword_spec; done
    | eapply (spec_weaken 1 0); [|lia]; first [apply literal_spec | apply require_spec | apply identifier_spec]
    | eapply (spec_adv 0 0 0); [|intros|lia] | case_match ].

Lemma header_index_spec s : spec header_index s (fun _ s' => adv 0 s s').
Proof. unfold header_index. advance. Qed.

Lemma field_spec context s : spec (field context) s (fun _ s' => adv 0 s s').
Proof.
  unfold field. repeat first [apply header_index_spec | progress advance].
Qed.

Lemma scalar_spec context name s : spec (scalar context name) s (fun _ s' => adv 1 s s').
Proof.
  unfold scalar. seq whitespace_spec. unfold spec.
  destruct (_ || _)%bool.
  - apply (spec_mono _ _ _ _ (literal_spec s')). intros. by apply (adv_trans 0 1 1 s s').
  - destruct (take_while _ _) as [x y] eqn:E. destruct (empty x) eqn:Hx; [done|]. by eapply take_while_adv.
Qed.

Lemma comparison_spec s : spec comparison s (fun _ s' => adv 0 s s').
Proof. unfold comparison. advance. Qed.

Lemma value_list_spec fuel context name values s :
  (length (rest_ s) < fuel)%nat -> spec (value_list fuel context name values) s (fun _ s' => adv 0 s s').
Proof.
  revert values s. induction fuel as [|fuel IH]; intros values s Hf; [lia|]. simpl.
  eapply spec_seq; [apply symbol_spec|]. intros [] s1 H1; unfold found in H1; cbv beta iota.
  { apply spec_ret. apply (adv_weaken 1 0 s s1); [done|lia]. }
  destruct (100 <=? size values); [done|].
  eapply spec_seq; [apply scalar_spec|]. intros v s2 H2. cbv beta in *.
  assert (adv 1 s s2) as H12 by by apply (adv_trans 0 1 1 s s1).
  eapply spec_mono; [apply IH; destruct H12; lia|]. cbv beta. intros l s3 H3.
  apply (adv_trans 1 0 0 s s2); [done|done|lia].
Qed.

(** * The stack discipline of the emitted programs *)

(** The size of the evaluation stack after a program, [None] when it would underflow. *)
Fixpoint run_size (n : nat) (program : list expression_instruction) : option nat :=
  match program with
  | [] => Some n
  | i :: program =>
      match op_ i with
      | compare | constant => run_size (S n) program
      | logical_not => if (n <? 1)%nat then None else run_size n program
      | _ => if (n <? 2)%nat then None else run_size (n - 1) program
      end
  end.

Section InstructionSpec.
Context `{Re2}.

(** A regular expression of a [matches] compiles, and the pattern of a wildcard is well formed. *)
Definition regex_ok (comparison value : bytes) : Prop :=
  (comparison = lit "matches" -> is_Some (compile_pattern value)) /\
  (ends_with comparison (lit "wildcard") = true -> wildcard_error false false value = None).

(** Comparisons are known; other than [in] they have a value, and only [in] names a list. *)
Definition known_comparisons : list bytes := map lit ["starts_with"; "ends_with"]%string ++ comparisons.
Definition instruction_ok (i : expression_instruction) : Prop :=
  if bool_decide (op_ i = compare) then
    In (comparison_ i) known_comparisons /\
    (comparison_ i <> lit "in" -> values_ i <> [] /\ list_ i = [] /\ regex_ok (comparison_ i) (hd [] (values_ i)))
  else i = plain (op_ i) (values_ i).

Lemma instruction_compare i : instruction_ok i -> op_ i = compare -> In (comparison_ i) known_comparisons /\
  (comparison_ i <> lit "in" -> values_ i <> [] /\ list_ i = [] /\ regex_ok (comparison_ i) (hd [] (values_ i))).
Proof. unfold instruction_ok. intros Hi Ho. by rewrite bool_decide_eq_true_2 in Hi. Qed.
Lemma plain_ok op values : op <> compare -> instruction_ok (plain op values).
Proof. intros Ho. unfold instruction_ok. by rewrite bool_decide_eq_false_2. Qed.

Lemma contains_In l x : contains l x = true <-> In x l.
Proof.
  unfold contains. rewrite existsb_exists. setoid_rewrite bool_decide_eq_true. naive_solver.
Qed.

Lemma comparison_ok f name values list :
  In name known_comparisons -> (name <> lit "in" -> values <> [] /\ list = [] /\ regex_ok name (hd [] values)) ->
  instruction_ok (comparison_of f name values list).
Proof. by intros ? ?. Qed.

(** [s'] is [s] with input consumed and a program emitted that pushes one value. *)
Definition pushes (s s' : parser_state) : Prop :=
  exists pushed,
    program_ s' = program_ s ++ pushed /\
    (forall n, run_size n pushed = Some (S n)) /\
    Forall instruction_ok pushed /\
    (length (program_ s) <= 256 -> length (program_ s') <= 256)%nat /\
    (length (rest_ s') < length (rest_ s))%nat.

Lemma run_size_app n a b :
  run_size n (a ++ b) = match run_size n a with Some m => run_size m b | None => None end.
Proof.
  revert n. induction a as [|i a IH]; intros n; simpl; [done|].
  destruct (op_ i); auto; by case_match.
Qed.

Lemma adv_pushes n s s1 s2 : adv n s s1 -> pushes s1 s2 -> pushes s s2.
Proof.
  intros [H1 H2] (added & P1 & P2 & P3 & P4 & P5). exists added.
  rewrite <- H1. split_and!; auto. lia.
Qed.

Lemma pushes_adv n s s1 s2 : pushes s s1 -> adv n s1 s2 -> pushes s s2.
Proof.
  intros (added & P1 & P2 & P3 & P4 & P5) [H1 H2]. exists added. rewrite H1. split_and!; auto. lia.
Qed.

(** After some input, emitting an instruction that pushes. *)
Lemma emit_pushes n i s s1 :
  adv (S n) s s1 -> (op_ i = compare \/ op_ i = constant) -> instruction_ok i ->
  spec (emit i) s1 (fun _ s' => pushes s s').
Proof.
  intros [H1 H2] Hop Hi. unfold spec, emit. destruct (256 <=? size (program_ s1)) eqn:E; [done|].
  reflect_bool. exists [i]. cbn [program_ rest_]. rewrite H1. split_and!; [done| | |..].
  - intros m. simpl. by destruct Hop as [-> | ->].
  - auto.
  - unfold size in E. rewrite H1 in E. rewrite length_app. simpl. lia.
  - lia.
Qed.

Lemma length_emit i s :
  spec (emit i) s (fun _ s' => program_ s' = program_ s ++ [i] /\ rest_ s' = rest_ s /\
    (length (program_ s') <= 256)%nat).
Proof.
  unfold spec, emit. destruct (256 <=? size (program_ s)) eqn:E; [done|]. reflect_bool.
  split_and!; [done|done|]. cbn [program_]. rewrite length_app. unfold size in E. simpl. lia.
Qed.

(** Emitting an operator after its operands. *)
Lemma emit_operator (op : expression_op) s s1 :
  (exists added, program_ s1 = program_ s ++ added /\ Forall instruction_ok added /\
     (forall n, run_size n (added ++ [plain op []]) = Some (S n)) /\
     (length (rest_ s1) < length (rest_ s))%nat) ->
  op <> compare ->
  spec (emit (plain op [])) s1 (fun _ s' => pushes s s' /\ rest_ s' = rest_ s1).
Proof.
  intros (added & P1 & P2 & P3 & P4) Hop. eapply spec_mono; [apply length_emit|].
  intros u s2 (E1 & E2 & E3). split; [|done]. exists (added ++ [plain op []]). rewrite E1, P1, E2 in *.
  split_and!; [by rewrite app_assoc|done| |done|done].
  apply Forall_app. split; [done|]. constructor; [|done]. by apply plain_ok.
Qed.

End InstructionSpec.

Section ParserSpec.
Context `{Re2}.
Context (context : expression_context).

Lemma call_spec comparison n s s0 :
  adv n s0 s -> In comparison (map lit ["starts_with"; "ends_with"]%string) ->
  spec (call context comparison) s (fun _ s' => pushes s0 s').
Proof.
  intros H0 Hin. unfold call.
  eapply spec_seq; [apply require_spec|]. cbv beta. intros u s1 H1.
  eapply spec_seq; [apply field_spec|]. cbv beta. intros f s2 H2.
  eapply spec_seq; [apply require_spec|]. cbv beta. intros u3 s3 H3.
  eapply spec_seq; [apply literal_spec|]. cbv beta. intros v s4 H4.
  eapply spec_seq; [apply require_spec|]. cbv beta. intros u5 s5 H5.
  apply (emit_pushes 0); [|by left|].
  - unfold adv in *. intuition (congruence || lia).
  - apply comparison_ok; [by apply in_or_app; left|]. intros _. split_and!; [done|done|].
    destruct Hin as [<- | [<- | []]]; by split; intros ?.
Qed.

Lemma check_values_spec comparison values s :
  spec (check_values comparison values) s (fun _ s' => adv 0 s s' /\ regex_ok comparison (hd [] values)).
Proof.
  unfold check_values. eapply (spec_seq _ _ _ (fun _ s' => s' = s /\ (comparison = lit "matches" -> is_Some (compile_pattern (hd [] values))))).
  - destruct (comparison == lit "matches") eqn:E; reflect_bool; cbn [andb]; [|apply spec_ret; done].
    destruct (compile_pattern _) as [p|] eqn:Ep; cbn [present negb]; [|done]. apply spec_ret. eauto.
  - cbv beta. intros u s1 [-> Hm]. destruct (ends_with comparison (lit "wildcard")) eqn:E.
    + destruct (wildcard_error _ _ _) eqn:Ew; [done|]. apply spec_ret. split; [apply adv_refl|]. by split.
    + apply spec_ret. split; [apply adv_refl|]. split; [done|]. by rewrite E.
Qed.

Lemma comparison_primary_spec n s s0 :
  adv n s0 s -> spec (comparison_primary context) s (fun _ s' => pushes s0 s').
Proof.
  intros H0. unfold comparison_primary.
  eapply spec_seq; [apply field_spec|]. cbv beta. intros f s1 H1.
  eapply spec_seq; [apply comparison_spec|]. cbv beta. intros name s2 H2.
  destruct (contains comparisons name) eqn:Hname; [|done]. cbn [negb].
  apply contains_In in Hname. assert (In name known_comparisons) as Hin by (apply in_or_app; by right).
  destruct (name == lit "in") eqn:Ein; reflect_bool.
  - eapply (spec_seq _ _ _ (found s2)).
    { destruct (_ == _); [apply symbol_spec|]. apply spec_ret. apply adv_refl. }
    intros [] s3 H3; unfold found in H3.
    + eapply spec_seq; [apply identifier_spec|]. cbv beta. intros l s4 H4.
      apply (emit_pushes 0); [|by left|by apply comparison_ok]. unfold adv in *. intuition (congruence || lia).
    + eapply spec_seq; [apply require_spec|]. cbv beta. intros u s4 H4.
      eapply spec_seq; [apply value_list_spec; lia|]. cbv beta. intros l s5 H5.
      apply (emit_pushes 0); [|by left|by apply comparison_ok]. unfold adv in *. intuition (congruence || lia).
  - eapply spec_seq; [apply scalar_spec|]. cbv beta. intros v s3 H3.
    eapply spec_seq; [apply check_values_spec|]. cbv beta. intros u s4 [H4 Hv].
    apply (emit_pushes 0); [|by left|by apply comparison_ok]. unfold adv in *. intuition (congruence || lia).
Qed.

Lemma connective_spec word mark s : lit word <> [] -> (mark = [] \/ length mark = 2%nat) ->
  spec (connective word mark) s (found s).
Proof.
  intros Hw Hm. unfold connective. eapply spec_seq; [by apply keyword_spec|]. intros [] s1 H1; [by apply spec_ret|].
  unfold spec, found in *. destruct (_ && _)%bool eqn:E; [|done]. reflect_bool.
  destruct Hm as [-> |Hm]; [done|]. apply starts_with_spec in H2 as [r Hr].
  destruct H1 as [P1 P2]. split; [done|]. cbn [rest_ set_rest]. rewrite length_drop.
  rewrite Hr, length_app in *. lia.
Qed.

Definition binary (op : expression_op) : Prop := op = logical_and \/ op = logical_or \/ op = logical_xor.

Lemma connective_loop_spec fuel word mark operand op s0 s :
  lit word <> [] -> (mark = [] \/ length mark = 2%nat) -> binary op ->
  (forall s, (length (rest_ s) < fuel)%nat -> spec operand s (fun _ s' => pushes s s')) ->
  (length (rest_ s) < fuel)%nat -> pushes s0 s ->
  spec (connective_loop fuel word mark operand op) s (fun _ s' => pushes s0 s').
Proof.
  intros Hw Hm Hop. revert s. induction fuel as [|fuel IH]; intros s Hoperand Hf H0; [lia|]. simpl.
  eapply spec_seq; [by apply connective_spec|]. intros [] s1 H1; unfold found in H1; cbv beta iota.
  2: { apply spec_ret. by apply (pushes_adv 0 s0 s). }
  eapply spec_seq; [apply Hoperand; destruct H1; lia|]. cbv beta. intros u s2 H2.
  assert (length (rest_ s2) < length (rest_ s1))%nat as Hs2 by (destruct H2 as (? & _ & _ & _ & _ & ?); done).
  eapply spec_seq; [apply (emit_operator op s0)|].
  - pose proof (pushes_adv _ _ _ _ H0 H1) as (a & A1 & A2 & A3 & A4 & A5).
    destruct H2 as (b & B1 & B2 & B3 & B4 & B5). exists (a ++ b). split_and!.
    + by rewrite B1, A1, app_assoc.
    + by apply Forall_app.
    + intros n. rewrite !run_size_app, A2, B2. simpl. by destruct Hop as [-> |[-> | ->]].
    + lia.
  - by destruct Hop as [-> |[-> | ->]].
  - cbv beta. intros v s3 [H3 H3r]. apply IH; [|destruct H1; rewrite H3r; lia|done].
    intros s4 Hs4. apply Hoperand. lia.
Qed.

Lemma chain_spec word mark operand op fuel s :
  lit word <> [] -> (mark = [] \/ length mark = 2%nat) -> binary op ->
  (forall s, (length (rest_ s) < fuel)%nat -> spec operand s (fun _ s' => pushes s s')) ->
  (length (rest_ s) < fuel)%nat ->
  spec (chain word mark operand op) s (fun _ s' => pushes s s').
Proof.
  intros Hw Hm Hop Hoperand Hf. unfold chain. eapply spec_seq; [by apply Hoperand|]. cbv beta. intros u s1 H1.
  apply connective_loop_spec; [done|done|done| |lia|done]. intros s2 Hs2. apply Hoperand.
  destruct H1 as (? & _ & _ & _ & _ & ?). lia.
Qed.

Lemma parse_or_spec operand fuel s :
  (forall s, (length (rest_ s) < fuel)%nat -> spec operand s (fun _ s' => pushes s s')) ->
  (length (rest_ s) < fuel)%nat -> spec (parse_or operand) s (fun _ s' => pushes s s').
Proof.
  intros Ho Hf. apply (chain_spec _ _ _ _ fuel); [done|by right|by right; left| |done].
  intros s1 H1. apply (chain_spec _ _ _ _ fuel); [done|by left|by right; right| |done].
  intros s2 H2. apply (chain_spec _ _ _ _ fuel); [done|by right|by left|done|done].
Qed.

Lemma primary_spec room s : spec (primary context room) s (fun _ s' => pushes s s').
Proof.
  revert s. induction room as [|room IH]; intros s; [done|]. cbn [primary].
  eapply spec_seq; [apply symbol_spec|]. intros [] s1 H1; unfold found in H1; cbv beta iota.
  { eapply spec_seq; [apply (parse_or_spec _ (S (length (rest_ s1)))); [auto|lia]|]. cbv beta. intros u s2 H2.
    eapply spec_mono; [apply require_spec|]. cbv beta. intros v s3 H3.
    apply (adv_pushes 1 s s1); [done|]. by apply (pushes_adv 1 s1 s2). }
  eapply spec_seq; [apply keyword_spec; done|]. intros b s2 H2.
  eapply (spec_seq _ _ _ (found s)).
  { destruct b; unfold found in H2.
    - apply spec_ret. by apply (adv_trans 0 1 1 s s1).
    - eapply spec_mono; [apply symbol_spec|]. intros [] s3 H3; unfold found in *;
        unfold adv in *; intuition (congruence || lia). }
  intros [] s3 H3; unfold found in H3; cbv beta iota.
  { eapply spec_seq; [apply IH|]. cbv beta. intros u s4 H4.
    eapply spec_mono; [apply (emit_operator logical_not s)|].
    - destruct (adv_pushes _ _ _ _ H3 H4) as (a & A1 & A2 & A3 & A4 & A5). exists a. split_and!; [done|done| |done].
      intros n. by rewrite run_size_app, A2.
    - done.
    - by intros v s5 [H5 _]. }
  eapply spec_seq; [apply keyword_spec; done|]. intros [] s4 H4; unfold found in H4; cbv beta iota.
  { apply (emit_pushes 0); [|by right|by apply plain_ok]. by apply (adv_trans 0 1 1 s s3). }
  assert (adv 0 s s4) as Hs4 by by apply (adv_trans 0 0 0 s s3).
  eapply spec_seq; [apply keyword_spec; done|]. intros [] s5 H5; unfold found in H5; cbv beta iota.
  { apply (emit_pushes 0); [|by right|by apply plain_ok]. by apply (adv_trans 0 1 1 s s4). }
  assert (adv 0 s s5) as Hs5 by by apply (adv_trans 0 0 0 s s4).
  eapply spec_seq; [apply keyword_spec; done|]. intros [] s6 H6; unfold found in H6; cbv beta iota.
  { apply (call_spec _ 1); [by apply (adv_trans 0 1 1 s s5)|simpl; tauto]. }
  assert (adv 0 s s6) as Hs6 by by apply (adv_trans 0 0 0 s s5).
  eapply spec_seq; [apply keyword_spec; done|]. intros [] s7 H7; unfold found in H7; cbv beta iota.
  { apply (call_spec _ 1); [by apply (adv_trans 0 1 1 s s6)|simpl; tauto]. }
  apply (comparison_primary_spec 0). by apply (adv_trans 0 0 0 s s6).
Qed.

(** What the parser returns: a program of at most 256 instructions that pushes exactly one value
    and never underflows. *)
Definition program_ok (program : list expression_instruction) : Prop :=
  (length program <= 256)%nat /\ run_size 0 program = Some 1%nat /\ Forall instruction_ok program.

Lemma parse_spec text :
  match parse context text with Ok p _ => program_ok p | Fail _ => True | NoFuel => False end.
Proof.
  unfold parse. set (s := mk_parser (size text) text []).
  change (spec ((if empty text || ((if context == security then 8000 else 4096) <? size text)
     then fail "表达式为空或超过长度上限" else ret tt);;
    parse_or (primary context max_room);;
    whitespace;;
    fun s => if negb (empty (rest_ s)) then fail "表达式有未识别的内容" s else Ok (program_ s) s) s
    (fun p _ => program_ok p)).
  eapply (spec_seq _ _ _ (fun _ s' => s' = s)); [by destruct (_ || _)%bool|]. intros u s1 ->.
  eapply spec_seq; [apply (parse_or_spec _ (S (length (rest_ s)))); [intros; apply primary_spec|lia]|].
  cbv beta. intros v s2 H2.
  eapply spec_seq; [apply whitespace_spec|]. cbv beta. intros w s3 H3. unfold spec.
  destruct (negb _); [done|]. destruct (pushes_adv _ _ _ _ H2 H3) as (a & A1 & A2 & A3 & A4 & _).
  simpl in A1. rewrite A1. unfold program_ok. rewrite A2. split_and!; [|done|done].
  rewrite <- A1. apply A4. simpl. lia.
Qed.
End ParserSpec.

(** * Written expressions

    Boolean combinations of equality tests in the form the management pages write them: every
    connective in parentheses, literals quoted with their backslashes and quotes escaped. *)
Inductive connector := CAnd | CXor | COr.
Inductive expr :=
  | EConst (b : bool)
  | ECompare (f v : bytes)
  | ENot (e : expr)
  | EBin (c : connector) (a b : expr).

Definition connector_word (c : connector) : string :=
  match c with CAnd => "and" | CXor => "xor" | COr => "or" end.
Definition connector_op (c : connector) : expression_op :=
  match c with CAnd => logical_and | CXor => logical_xor | COr => logical_or end.

Definition escape (c : ascii) : bytes := if (c == backslash) || (c == dquote) then [backslash; c] else [c].
Definition quote (v : bytes) : bytes := dquote :: flat_map escape v ++ [dquote].

Fixpoint render (e : expr) : bytes :=
  match e with
  | EConst b => if b then lit "true" else lit "false"
  | ECompare f v => f ++ lit " eq " ++ quote v
  | ENot e => lit "not " ++ render e
  | EBin c a b => lit "(" ++ render a ++ lit " " ++ lit (connector_word c) ++ lit " " ++ render b ++ lit ")"
  end.

Fixpoint postfix (e : expr) : list expression_instruction :=
  match e with
  | EConst b => [plain constant (if b then [lit "true"] else [])]
  | ECompare f v => [mk_instruction compare f [] (lit "eq") [v] false []]
  | ENot e => postfix e ++ [plain logical_not []]
  | EBin c a b => postfix a ++ postfix b ++ [plain (connector_op c) []]
  end.

Fixpoint depth (e : expr) : nat :=
  match e with
  | EConst _ | ECompare _ _ => 1
  | ENot e => S (depth e)
  | EBin _ a b => S (Nat.max (depth a) (depth b))
  end.

Definition literal_ok (v : bytes) : Prop :=
  size v <= 512 /\ valid_utf8 v = true /\ Forall (fun c => iscntrl c = false) v.
Fixpoint expr_ok (e : expr) : Prop :=
  match e with
  | EConst _ => True
  | ECompare f v => In f fields /\ literal_ok v
  | ENot e => expr_ok e
  | EBin _ a b => expr_ok a /\ expr_ok b
  end.

(** ** Computing the parser on known text *)

Lemma bind_Ok {A B} (p : parser A) (f : A -> parser B) s a s' : p s = Ok a s' -> bind p f s = f a s'.
Proof. unfold bind. by intros ->. Qed.

Lemma skip_space_idem x : skip_space (skip_space x) = skip_space x.
Proof. induction x as [|c x IH]; simpl; [done|]. destruct (is_space c) eqn:E; [done|]. simpl. by rewrite E. Qed.

Lemma symbol_hit c s t : skip_space (rest_ s) = c :: t -> symbol c s = Ok true (set_rest s t).
Proof. intros E. unfold symbol, bind, whitespace. simpl. rewrite E. by rewrite bool_decide_eq_true_2. Qed.

Lemma symbol_miss c s x t : skip_space (rest_ s) = x :: t -> x <> c -> symbol c s = Ok false (set_rest s (x :: t)).
Proof. intros E Hx. unfold symbol, bind, whitespace. simpl. rewrite E. by rewrite bool_decide_eq_false_2. Qed.

Lemma require_hit c s t : skip_space (rest_ s) = c :: t -> require c s = Ok tt (set_rest s t).
Proof. intros E. unfold require. by rewrite (bind_Ok _ _ _ _ _ (symbol_hit _ _ _ E)). Qed.

Definition delimited (t : bytes) : Prop := match t with [] => True | c :: _ => word_char c = false end.

Lemma keyword_hit w s t : skip_space (rest_ s) = lit w ++ t -> delimited t -> keyword w s = Ok true (set_rest s t).
Proof.
  intros E Ht. unfold keyword, bind, whitespace. simpl. rewrite E, starts_with_app, drop_app_length. simpl.
  destruct t; [done|]. simpl in Ht. by rewrite Ht.
Qed.

Lemma keyword_miss w s t : skip_space (rest_ s) = t -> starts_with t (lit w) = false -> keyword w s = Ok false (set_rest s t).
Proof. intros E Ht. unfold keyword, bind, whitespace. simpl. by rewrite E, Ht. Qed.

Lemma take_while_app ok a b : Forall (fun c => ok c = true) a ->
  match b with [] => True | c :: _ => ok c = false end -> take_while ok (a ++ b) = (a, b).
Proof.
  intros Ha Hb. induction Ha as [|c a Hc Ha IH]; simpl.
  - destruct b as [|d b]; [done|]. simpl. by rewrite Hb.
  - by rewrite Hc, IH.
Qed.

Lemma identifier_hit s a b : skip_space (rest_ s) = a ++ b -> a <> [] ->
  Forall (fun c => identifier_char c = true) a -> match b with [] => True | c :: _ => identifier_char c = false end ->
  identifier s = Ok a (set_rest s b).
Proof.
  intros E Hne Ha Hb. unfold identifier, bind, whitespace. simpl. rewrite E, take_while_app by done. by destruct a.
Qed.

Lemma emit_hit i s : (length (program_ s) < 256)%nat -> emit i s = Ok tt (mk_parser (size_ s) (rest_ s) (program_ s ++ [i])).
Proof. intros Hl. unfold emit. rewrite (proj2 (Z.leb_gt _ _)); [done|]. unfold size. lia. Qed.

Lemma literal_loop_quote v acc rest s :
  Forall (fun c => iscntrl c = false) v -> size (acc ++ v) <= 512 -> valid_utf8 (acc ++ v) = true ->
  literal_loop false 0 (flat_map escape v ++ dquote :: rest) acc s = Ok (acc ++ v) (set_rest s rest).
Proof.
  intros Hv. revert acc. induction Hv as [|c v Hc Hv IH]; intros acc Hs Hu.
  - rewrite app_nil_r in *. cbn [flat_map app literal_loop]. rewrite bool_decide_eq_true_2 by done.
    cbn [andb negb orb]. rewrite (proj2 (Z.ltb_ge _ _)), Hu by lia. by rewrite drop_0.
  - cbn [flat_map]. rewrite <- app_assoc. unfold escape at 1.
    assert (forall x, acc ++ c :: x = (acc ++ [c]) ++ x) as Happ by (intros; by rewrite <- app_assoc).
    rewrite Happ in *. rewrite <- (IH _ Hs Hu). clear IH.
    destruct (decide (c = backslash)) as [->|Hb].
    { rewrite bool_decide_eq_true_2 by done. done. }
    destruct (decide (c = dquote)) as [->|Hq].
    { done. }
    rewrite !bool_decide_eq_false_2 by done. cbn [orb app literal_loop].
    rewrite (bool_decide_eq_false_2 (c = dquote)), (bool_decide_eq_false_2 (c = backslash)) by done.
    cbn [andb negb]. by rewrite Hc.
Qed.

Lemma literal_hit s v rest : skip_space (rest_ s) = quote v ++ rest -> literal_ok v -> literal s = Ok v (set_rest s rest).
Proof.
  intros E (Hs & Hu & Hc). unfold literal, bind, whitespace. cbn [rest_ set_rest]. rewrite E.
  unfold quote. cbn [app]. rewrite bool_decide_eq_false_2 by done. unfold open_quote. cbn [rest_ set_rest].
  rewrite bool_decide_eq_true_2 by done. cbn [negb]. rewrite <- app_assoc.
  change ([dquote] ++ rest) with (dquote :: rest). by rewrite (literal_loop_quote v [] rest).
Qed.

Lemma connective_miss w m s t :
  skip_space (rest_ s) = t -> starts_with t (lit w) = false -> (m = [] \/ starts_with t m = false) ->
  connective w m s = Ok false (set_rest s t).
Proof.
  intros E Hw Hm. unfold connective. rewrite (bind_Ok _ _ _ _ _ (keyword_miss w s t E Hw)). cbn [rest_ set_rest].
  destruct Hm as [->| ->]; [done|]. by rewrite andb_false_r.
Qed.

Lemma connective_hit w m s t :
  skip_space (rest_ s) = lit w ++ t -> delimited t -> connective w m s = Ok true (set_rest s t).
Proof. intros E Ht. unfold connective. by rewrite (bind_Ok _ _ _ _ _ (keyword_hit w s t E Ht)). Qed.

Lemma chain_single w m operand op s s1 s2 :
  operand s = Ok tt s1 -> connective w m s1 = Ok false s2 -> chain w m operand op s = Ok tt s2.
Proof.
  intros H1 H2. unfold chain. rewrite (bind_Ok _ _ _ _ _ H1). unfold with_rest_fuel. cbn [connective_loop].
  by rewrite (bind_Ok _ _ _ _ _ H2).
Qed.

Lemma chain_pair w m operand op s s1 s2 s3 s4 s5 :
  operand s = Ok tt s1 -> rest_ s1 <> [] -> connective w m s1 = Ok true s2 -> operand s2 = Ok tt s3 ->
  emit (plain op []) s3 = Ok tt s4 -> connective w m s4 = Ok false s5 -> chain w m operand op s = Ok tt s5.
Proof.
  intros H1 Hr H2 H3 H4 H5. unfold chain. rewrite (bind_Ok _ _ _ _ _ H1). unfold with_rest_fuel.
  destruct (rest_ s1) as [|c t]; [done|]. cbn [length connective_loop]. rewrite (bind_Ok _ _ _ _ _ H2). cbv iota.
  rewrite (bind_Ok _ _ _ _ _ H3), (bind_Ok _ _ _ _ _ H4). by rewrite (bind_Ok _ _ _ _ _ H5).
Qed.

(** ** Parsing what was written *)

Section Written.
Context `{Re2}.
Context (context : expression_context).

(** What follows an operand: the end, a space or a closing parenthesis. *)
Definition follows (t : bytes) : Prop := match t with [] => True | c :: _ => c = " "%char \/ c = ")"%char end.

Lemma follows_delimited t : follows t -> delimited t.
Proof. destruct t as [|c t]; [done|]. by intros [->| ->]. Qed.

(** [s] with [rest] left and a program emitted. *)
Definition moved (s : parser_state) (rest : bytes) (program : list expression_instruction) : parser_state :=
  mk_parser (size_ s) rest (program_ s ++ program).

Definition parses (p : parser unit) (e : expr) : Prop :=
  forall s rest, skip_space (rest_ s) = render e ++ rest -> follows rest ->
    (length (program_ s) + length (postfix e) <= 256)%nat ->
    p s = Ok tt (moved s rest (postfix e)).

Lemma field_names f : In f fields ->
  f <> [] /\ Forall (fun c => identifier_char c = true) f /\ f <> lit "http.request.headers" /\
  exists c t, f = c :: t /\ (c = "h"%char \/ c = "r"%char).
Proof.
  intros Hf. unfold fields in Hf. simpl in Hf.
  repeat (destruct Hf as [<-|Hf];
    [split; [done|]; split; [by_decision|]; split; [done|]; eexists _, _; split; [reflexivity|auto]|]). done.
Qed.

Lemma field_hit f s t : In f fields -> skip_space (rest_ s) = f ++ " "%char :: t ->
  field context s = Ok (mk_field f [] false) (set_rest s (" "%char :: t)).
Proof.
  intros Hf E. destruct (field_names f Hf) as (Hne & Hid & Hh & c & u & Hfu & Hc). unfold field.
  assert (starts_with (f ++ " "%char :: t) (lit "lower") = false) as Hl by (rewrite Hfu; by destruct Hc as [->| ->]).
  rewrite (bind_Ok _ _ _ _ _ (keyword_miss "lower" s _ E Hl)). cbv iota. rewrite (bind_Ok _ _ _ _ _ eq_refl).
  assert (skip_space (f ++ " "%char :: t) = f ++ " "%char :: t) as Hsk by (rewrite <- E; apply skip_space_idem).
  rewrite (bind_Ok _ _ _ _ _ (identifier_hit (set_rest s (f ++ " "%char :: t)) f (" "%char :: t) Hsk Hne Hid eq_refl)).
  rewrite bool_decide_eq_false_2 by done. rewrite (proj2 (contains_In fields f) Hf). cbn [orb].
  by rewrite (bind_Ok _ _ _ _ _ eq_refl).
Qed.

(** A text that starts with a field name reaches the comparison. *)
Lemma primary_comparison room s c u :
  skip_space (rest_ s) = c :: u -> (c = "h"%char \/ c = "r"%char) ->
  primary context (S room) s = comparison_primary context (set_rest s (c :: u)).
Proof.
  intros E Hc. cbn [primary].
  assert (skip_space (c :: u) = c :: u) as Hsk by (rewrite <- E; apply skip_space_idem).
  assert (c <> "("%char /\ c <> "!"%char) as [Hp Hb] by (by destruct Hc as [->| ->]).
  rewrite (bind_Ok _ _ _ _ _ (symbol_miss _ s _ _ E Hp)). cbv iota.
  assert (forall w s', skip_space (rest_ s') = c :: u -> starts_with (c :: u) (lit w) = false ->
    set_rest s' (c :: u) = set_rest s (c :: u) -> keyword w s' = Ok false (set_rest s (c :: u))) as Hk.
  { intros w s' E' Hw <-. by apply keyword_miss. }
  rewrite (bind_Ok _ _ _ _ _ (Hk "not"%string (set_rest s (c :: u)) Hsk ltac:(by destruct Hc as [->| ->]) eq_refl)).
  rewrite (bind_Ok _ _ _ _ _ (symbol_miss "!"%char (set_rest s (c :: u)) _ _ Hsk Hb)). cbv iota.
  do 4 (erewrite bind_Ok; [|apply Hk; [exact Hsk|by destruct Hc as [->| ->]|reflexivity]]; cbv iota).
  done.
Qed.

Lemma comparison_eq s t : skip_space (rest_ s) = lit "eq " ++ t -> comparison s = Ok (lit "eq") (set_rest s (" "%char :: t)).
Proof.
  intros E. unfold comparison.
  rewrite (bind_Ok _ _ _ _ _ (symbol_miss "="%char s _ _ E ltac:(done))). cbv iota.
  rewrite (bind_Ok _ _ _ _ _ (symbol_miss "!"%char (set_rest s (lit "eq " ++ t)) _ _ eq_refl ltac:(done))). cbv iota.
  rewrite (bind_Ok _ _ _ _ _ (symbol_miss "~"%char (set_rest s (lit "eq " ++ t)) _ _ eq_refl ltac:(done))). cbv iota.
  erewrite bind_Ok; [|apply (identifier_hit (set_rest s (lit "eq " ++ t)) (lit "eq") (" "%char :: t)); [done|done|by_decision|done]].
  done.
Qed.

Lemma scalar_hit f s v t : skip_space (rest_ s) = quote v ++ t -> literal_ok v ->
  scalar context f s = Ok v (set_rest s t).
Proof.
  intros E Hv. unfold scalar, bind, whitespace. cbn [rest_ set_rest]. rewrite E. unfold quote at 1. cbn [app].
  change (dquote == dquote) with true. rewrite orb_true_r. rewrite (literal_hit _ v t); [done| |done].
  cbn [rest_ set_rest]. done.
Qed.

Lemma parses_compare room f v : In f fields -> literal_ok v -> parses (primary context (S room)) (ECompare f v).
Proof.
  intros Hf Hv s rest E Hrest Hsize. cbn [render postfix length] in *.
  destruct (field_names f Hf) as (_ & _ & _ & c & u & Hfu & Hc).
  assert (skip_space (rest_ s) = c :: (u ++ lit " eq " ++ quote v) ++ rest) as E' by (by rewrite E, Hfu).
  rewrite (primary_comparison room s c _ E' Hc), <- E'. clear E' Hfu Hc. set (s1 := set_rest s _).
  assert (skip_space (rest_ s1) = f ++ " "%char :: (lit "eq " ++ quote v ++ rest)) as E1.
  { unfold s1. cbn [rest_ set_rest]. rewrite skip_space_idem, E. by rewrite <- app_assoc. }
  unfold comparison_primary. rewrite (bind_Ok _ _ _ _ _ (field_hit f s1 _ Hf E1)).
  rewrite (bind_Ok _ _ _ _ _ (comparison_eq (set_rest s1 (" "%char :: lit "eq " ++ quote v ++ rest)) (quote v ++ rest) eq_refl)).
  change (contains comparisons (lit "eq")) with true. change (lit "eq" == lit "in") with false. cbn [negb].
  rewrite (bind_Ok _ _ _ _ _ (scalar_hit (ref_field (mk_field f [] false)) (set_rest s1 (" "%char :: quote v ++ rest)) v rest eq_refl Hv)).
  rewrite (bind_Ok _ _ _ tt (set_rest s1 rest) eq_refl). rewrite emit_hit; [done|]. cbn [program_ set_rest s1]. simpl in *. lia.
Qed.

Lemma parses_const room b : parses (primary context (S room)) (EConst b).
Proof.
  intros s rest E Hrest%follows_delimited Hsize. cbn [render postfix length primary] in *.
  assert (exists c u, skip_space (rest_ s) = c :: u /\ (c = "t"%char \/ c = "f"%char)) as (c & u & Ec & Hc)
    by (rewrite E; destruct b; eexists _, _; split; [reflexivity|auto|reflexivity|auto]).
  assert (c <> "("%char /\ c <> "!"%char) as [Hp Hb] by (by destruct Hc as [->| ->]).
  assert (skip_space (c :: u) = c :: u) as Hsk by (rewrite <- Ec; apply skip_space_idem).
  rewrite (bind_Ok _ _ _ _ _ (symbol_miss _ s _ _ Ec Hp)). cbv iota.
  rewrite (bind_Ok _ _ _ _ _ (keyword_miss "not" (set_rest s (c :: u)) (c :: u) Hsk ltac:(by destruct Hc as [->| ->]))).
  cbv iota. rewrite (bind_Ok _ _ _ _ _ (symbol_miss "!"%char (set_rest (set_rest s (c :: u)) (c :: u)) _ _ Hsk Hb)). cbv iota.
  rewrite Ec in E. rewrite E in *. destruct b.
  - rewrite (bind_Ok _ _ _ _ _ (keyword_hit "true" (set_rest _ _) rest Hsk Hrest)). cbv iota.
    rewrite emit_hit; [done|]. simpl in *. lia.
  - rewrite (bind_Ok _ _ _ _ _ (keyword_miss "true" (set_rest _ _) _ Hsk eq_refl)). cbv iota.
    rewrite (bind_Ok _ _ _ _ _ (keyword_hit "false" (set_rest _ _) rest Hsk Hrest)). cbv iota.
    rewrite emit_hit; [done|]. simpl in *. lia.
Qed.

Lemma render_head e t : expr_ok e -> skip_space (render e ++ t) = render e ++ t.
Proof.
  intros He. destruct e as [[]|f v|e|c a b]; try done.
  destruct (field_names f (proj1 He)) as (_ & _ & _ & c & u & -> & [->| ->]); done.
Qed.

Lemma parses_not room e : expr_ok e -> parses (primary context room) e -> parses (primary context (S room)) (ENot e).
Proof.
  intros He Hp s rest E Hrest Hsize. cbn [render postfix primary] in *. rewrite length_app in Hsize.
  change ((lit "not " ++ render e) ++ rest) with ("n"%char :: lit "ot" ++ " "%char :: render e ++ rest) in E.
  rewrite (bind_Ok _ _ _ _ _ (symbol_miss "("%char s _ _ E ltac:(done))). cbv iota.
  rewrite (bind_Ok _ _ _ _ _ (keyword_hit "not" (set_rest s ("n"%char :: lit "ot" ++ " "%char :: render e ++ rest))
    (" "%char :: render e ++ rest) eq_refl eq_refl)). cbv iota.
  rewrite (bind_Ok _ _ _ _ _ eq_refl). cbv iota.
  erewrite bind_Ok; [|apply Hp; [cbn [rest_ set_rest skip_space]; by apply render_head|done|cbn [program_ set_rest]; lia]].
  unfold moved. cbn [size_ rest_ program_ set_rest]. rewrite emit_hit; [cbn [size_ rest_ program_]; by rewrite <- app_assoc|].
  cbn [program_]. rewrite length_app. simpl in *. lia.
Qed.

(** ** Connectives *)

(** The text after the left operand, and after the right one. *)
Lemma connective_at s (c : connector) w m t :
  rest_ s = lit " " ++ lit (connector_word c) ++ " "%char :: t ->
  (w, m) = ("and"%string, lit "&&") \/ (w, m) = ("xor"%string, []) \/ (w, m) = ("or"%string, lit "||") ->
  connective w m s =
    if decide (w = connector_word c) then Ok true (set_rest s (" "%char :: t))
    else Ok false (set_rest s (lit (connector_word c) ++ " "%char :: t)).
Proof.
  intros E Hwm. assert (skip_space (rest_ s) = lit (connector_word c) ++ " "%char :: t) as E' by (rewrite E; by destruct c).
  destruct (decide _) as [->|Hne]; [by apply connective_hit|].
  apply connective_miss; [done| |]; destruct c, Hwm as [[= -> ->]|[[= -> ->]|[= -> ->]]]; try done; by (left + right).
Qed.

Lemma connective_closed s w m t :
  rest_ s = ")"%char :: t \/ rest_ s = [] ->
  (w, m) = ("and"%string, lit "&&") \/ (w, m) = ("xor"%string, []) \/ (w, m) = ("or"%string, lit "||") ->
  connective w m s = Ok false s.
Proof.
  intros E Hwm. destruct s as [z r p]. cbn [rest_] in E.
  rewrite (connective_miss w m _ r); [done| | |]; destruct E as [->| ->]; try done;
    destruct Hwm as [[= -> ->]|[[= -> ->]|[= -> ->]]]; try done; by (left + right).
Qed.

(** A single operand before a closing parenthesis or the end. *)
Lemma parse_or_single primary s s1 t :
  primary s = Ok tt s1 -> rest_ s1 = ")"%char :: t \/ rest_ s1 = [] -> parse_or primary s = Ok tt s1.
Proof.
  intros Hp Hr. do 3 (eapply chain_single; [|eapply connective_closed; [eassumption|tauto]]). done.
Qed.

Lemma parse_or_pair primary (c : connector) s s1 s3 t u :
  primary s = Ok tt s1 ->
  rest_ s1 = lit " " ++ lit (connector_word c) ++ " "%char :: t ->
  primary (set_rest s1 (" "%char :: t)) = Ok tt s3 -> rest_ s3 = ")"%char :: u ->
  (length (program_ s3) < 256)%nat ->
  parse_or primary s = Ok tt (mk_parser (size_ s3) (rest_ s3) (program_ s3 ++ [plain (connector_op c) []])).
Proof.
  intros Hp Hr Hp3 Hr3 Hl. set (s4 := mk_parser _ _ _).
  assert (rest_ s4 = ")"%char :: u \/ rest_ s4 = []) as Hr4 by (by left).
  assert (rest_ s3 = ")"%char :: u \/ rest_ s3 = []) as Hr3' by (by left).
  assert (rest_ s1 <> []) as Hne by (by rewrite Hr).
  set (mid := set_rest s1 (lit (connector_word c) ++ " "%char :: t)).
  assert (forall w m, (w, m) = ("and"%string, lit "&&") \/ (w, m) = ("xor"%string, []) \/ (w, m) = ("or"%string, lit "||") ->
    w <> connector_word c -> connective w m s1 = Ok false mid /\ connective w m mid = Ok false mid) as Hmiss.
  { intros w m Hwm Hw. split; [rewrite (connective_at s1 c w m t Hr Hwm); by rewrite decide_False|].
    apply (connective_miss w m mid (lit (connector_word c) ++ " "%char :: t)); [by destruct c| |];
      destruct c, Hwm as [[= -> ->]|[[= -> ->]|[= -> ->]]]; try done; by (left + right). }
  assert (forall w m, (w, m) = ("and"%string, lit "&&") \/ (w, m) = ("xor"%string, []) \/ (w, m) = ("or"%string, lit "||") ->
    w = connector_word c -> connective w m s1 = Ok true (set_rest s1 (" "%char :: t)) /\
      connective w m mid = Ok true (set_rest s1 (" "%char :: t))) as Hhit.
  { intros w m Hwm Hw. split; [rewrite (connective_at s1 c w m t Hr Hwm); by rewrite decide_True|].
    subst w. by apply (connective_hit _ _ mid (" "%char :: t)); [destruct c|]. }
  assert (emit (plain (connector_op c) []) s3 = Ok tt s4) as He by (by apply emit_hit).
  assert (parse_xor primary (set_rest s1 (" "%char :: t)) = Ok tt s3 /\ parse_and primary (set_rest s1 (" "%char :: t)) = Ok tt s3)
    as [Hx3 Ha3].
  { assert (parse_and primary (set_rest s1 (" "%char :: t)) = Ok tt s3) as Ha3
      by (eapply chain_single; [done|eapply connective_closed; [exact Hr3'|tauto]]).
    split; [|done]. eapply chain_single; [exact Ha3|eapply connective_closed; [exact Hr3'|tauto]]. }
  destruct c; cbn [connector_op] in *.
  - do 2 (eapply chain_single; [|eapply connective_closed; [exact Hr4|tauto]]).
    eapply chain_pair; [exact Hp|done|apply Hhit; [tauto|done]|exact Hp3|exact He|eapply connective_closed; [exact Hr4|tauto]].
  - eapply chain_single; [|eapply connective_closed; [exact Hr4|tauto]].
    eapply (chain_pair _ _ _ _ _ mid); [|done|apply Hhit; [tauto|done]|exact Ha3|exact He|eapply connective_closed; [exact Hr4|tauto]].
    eapply chain_single; [exact Hp|apply Hmiss; [tauto|done]].
  - eapply (chain_pair _ _ _ _ _ mid); [|done|apply Hhit; [tauto|done]|exact Hx3|exact He|eapply connective_closed; [exact Hr4|tauto]].
    eapply chain_single; [|apply Hmiss; [tauto|done]].
    eapply chain_single; [exact Hp|apply Hmiss; [tauto|done]].
Qed.

Lemma parses_bin room c a b : expr_ok a -> expr_ok b ->
  parses (primary context room) a -> parses (primary context room) b ->
  parses (primary context (S room)) (EBin c a b).
Proof.
  intros Ha Hb Pa Pb s rest E Hrest Hsize. cbn [render postfix primary] in *. rewrite !length_app in Hsize. simpl length in Hsize.
  set (tail_b := render b ++ ")"%char :: rest).
  assert (skip_space (rest_ s) = "("%char :: render a ++ lit " " ++ lit (connector_word c) ++ " "%char :: tail_b) as E1.
  { rewrite E. unfold tail_b. cbn [app]. f_equal. rewrite <- !app_assoc. done. }
  rewrite (bind_Ok _ _ _ _ _ (symbol_hit "("%char s _ E1)). cbv iota. set (s0 := set_rest s _).
  assert (primary context room s0 = Ok tt (moved s0 (lit " " ++ lit (connector_word c) ++ " "%char :: tail_b) (postfix a))) as H1.
  { apply Pa; [by apply render_head|by left|cbn [program_ set_rest s0]; lia]. }
  set (s1 := moved s0 _ _) in H1.
  assert (primary context room (set_rest s1 (" "%char :: tail_b)) =
    Ok tt (moved (set_rest s1 (" "%char :: tail_b)) (")"%char :: rest) (postfix b))) as H3.
  { apply Pb; [by apply render_head|by right|]. cbn [program_ set_rest s1 moved s0]. rewrite length_app. lia. }
  erewrite bind_Ok; [|eapply (parse_or_pair _ c s0 s1 _ tail_b rest); [exact H1|done|exact H3|done|]].
  - rewrite (require_hit ")"%char _ rest) by done. unfold moved, set_rest. cbn [size_ rest_ program_ s1 moved s0 set_rest].
    by rewrite <- !app_assoc.
  - cbn [program_ moved set_rest s1 s0]. rewrite !length_app. lia.
Qed.

Lemma parses_expr e room : expr_ok e -> (depth e <= room)%nat -> parses (primary context room) e.
Proof.
  revert room. induction e as [b|f v|e IH|c a IHa b IHb]; intros [|room] He Hd; simpl in Hd; try lia.
  - apply parses_const.
  - apply parses_compare; apply He.
  - apply parses_not; [done|]. apply IH; [done|lia].
  - destruct He. apply parses_bin; auto; [apply IHa|apply IHb]; (done || lia).
Qed.

Definition maximum : Z := if context == security then 8000 else 4096.

(** The parser's result on a written expression. *)
Lemma parse_written e :
  expr_ok e -> (depth e <= 25)%nat -> (length (postfix e) <= 256)%nat -> size (render e) <= maximum ->
  exists s, parse context (render e) = Ok (postfix e) s.
Proof.
  intros He Hd Hp Hs. unfold parse, maximum in *. set (s := mk_parser (size (render e)) (render e) []).
  assert (empty (render e) = false) as Hne.
  { pose proof (render_head e [] He) as Hh. destruct (render e) eqn:E; [|done].
    destruct e as [[]|f v|e|c a b]; try done. simpl in E. destruct (field_names f (proj1 He)) as (_ & _ & _ & c & u & -> & _). done. }
  rewrite Hne, (proj2 (Z.ltb_ge _ _)) by done. cbn [orb]. rewrite (bind_Ok _ _ _ tt s eq_refl).
  assert (primary context max_room s = Ok tt (moved s [] (postfix e))) as H1.
  { apply (parses_expr e max_room He Hd); [|done|done]. rewrite app_nil_r. cbn [rest_ s].
    pose proof (render_head e [] He) as Hh. by rewrite app_nil_r in Hh. }
  rewrite (bind_Ok _ _ _ _ _ (parse_or_single _ s _ [] H1 (or_intror eq_refl))).
  unfold bind. simpl. eauto.
Qed.
End Written.
