(* ===== verification/MatchList.v ===== *)
(** Security lists: src/node/data/request_match_list.h.

    Address lists are interval trees over sorted, merged ranges of 16-byte keys, held in a vector
    whose nodes refer to each other by index; other lists are maps with an expiry. The address type
    and its parser belong to asio, a linked library, and are an interface. *)
From S2P Require Import Prelude.
Open Scope Z_scope.

(** * Addresses *)

Class Asio := {
  address : Type;
  (** [make_address], [None] when it reports an error. *)
  make_address : bytes -> option address;
  is_v4 : address -> bool;
  (** [to_v4().to_bytes()] or [to_v6().to_bytes()]. *)
  address_bytes : address -> list Z;
  scope_id : address -> Z;
  is_v4_mapped : address -> bool;
  (** [make_address_v4(v4_mapped, to_v6())]. *)
  unmap : address -> address
}.

Definition byte (z : Z) : Prop := 0 <= z < 256.

(** An IPv4 address has four bytes, an IPv6 address sixteen, and unmapping gives an IPv4 address. *)
Class AsioLaws `{Asio} := {
  v4_bytes a : is_v4 a = true -> length (address_bytes a) = 4%nat;
  v6_bytes a : is_v4 a = false -> length (address_bytes a) = 16%nat;
  bytes_range a : Forall byte (address_bytes a);
  unmap_v4 a : is_v4_mapped a = true -> is_v4 a = false -> is_v4 (unmap a) = true
}.

(** * Ranges and the tree *)

Abbreviation key_bytes := (list Z).

(** [operator<] of [std::array<std::uint8_t, 16>]: lexicographic. *)
Fixpoint array_lt (a b : key_bytes) : bool :=
  match a, b with
  | _, [] => false
  | [], _ :: _ => true
  | x :: a', y :: b' => if x <? y then true else if y <? x then false else array_lt a' b'
  end.
Definition array_le (a b : key_bytes) : bool := negb (array_lt b a).
Definition array_max (a b : key_bytes) : key_bytes := if array_lt a b then b else a.

Record range := mk_range { first_ : key_bytes; last_ : key_bytes; expires_ : Z }.

Record tree_node := mk_node {
  value_ : range;
  maximum_end_ : key_bytes;
  maximum_expiry_ : Z;
  left_ : option nat;
  right_ : option nat
}.

Definition max_u64 : Z := two64 - 1.

(** The maxima of a node and one of its children. *)
Definition absorb (tree : list tree_node) (node : tree_node) (child : option nat) : tree_node :=
  match child with
  | None => node
  | Some c =>
      match tree !! c with
      | None => node
      | Some n =>
          mk_node (value_ node) (array_max (maximum_end_ node) (maximum_end_ n))
            (Z.max (maximum_expiry_ node) (maximum_expiry_ n)) (left_ node) (right_ node)
      end
  end.

(** The recursion halves the interval; [fuel] bounds its depth. *)
Fixpoint build_tree (fuel : nat) (ranges : list range) (tree : list tree_node) (begin_ end_ : nat) :
    list tree_node * option nat :=
  match fuel with
  | O => (tree, None)
  | S fuel =>
      if (begin_ =? end_)%nat then (tree, None)
      else
        let middle := (begin_ + (end_ - begin_) / 2)%nat in
        let index := length tree in
        match ranges !! middle with
        | None => (tree, None)
        | Some value =>
            let tree := tree ++ [mk_node value (last_ value) (expires_ value) None None] in
            let '(tree, lc) := build_tree fuel ranges tree begin_ middle in
            let '(tree, rc) := build_tree fuel ranges tree (S middle) end_ in
            let node := mk_node value (last_ value) (expires_ value) lc rc in
            let node := absorb tree (absorb tree node lc) rc in
            (<[index := node]> tree, Some index)
        end
  end.

Fixpoint in_tree (fuel : nat) (tree : list tree_node) (index : option nat) (value : key_bytes) (now : Z) : bool :=
  match fuel with
  | O => false
  | S fuel =>
      match index with
      | None => false
      | Some index =>
          match tree !! index with
          | None => false
          | Some node =>
              if array_lt (maximum_end_ node) value || (maximum_expiry_ node <=? now) then false
              else if in_tree fuel tree (left_ node) value now then true
              else if array_lt value (first_ (value_ node)) then false
              else (array_le value (last_ (value_ node)) && (now <? expires_ (value_ node))) ||
                   in_tree fuel tree (right_ node) value now
          end
      end
  end.

(** One turn of the merge of the sorted ranges; [merged] is the output, reversed. *)
Definition merge_range (merged : list range) (item : range) : list range :=
  match merged with
  | back :: rest =>
      if (expires_ item =? expires_ back) && array_le (first_ item) (last_ back)
      then mk_range (first_ back) (array_max (last_ back) (last_ item)) (expires_ back) :: rest
      else item :: merged
  | [] => [item]
  end.
Definition merge_ranges (ranges : list range) : list range := rev (fold_left merge_range ranges []).

(** [std::ranges::sort] by the first address: some sorted permutation. *)
Class SortRanges := sort_ranges : list range -> list range.
Definition first_le (a b : range) : Prop := array_le (first_ a) (first_ b) = true.
Class SortRangesLaws `{SortRanges} := {
  sort_permutation l : sort_ranges l ≡ₚ l;
  sort_sorted l : StronglySorted first_le (sort_ranges l)
}.

(** * Networks *)

Section Networks.
Context `{Asio}.

Definition key (a : address) : key_bytes :=
  if is_v4 a then address_bytes a ++ repeat 0 12 else address_bytes a.

(** One turn of the loop over the host bits. *)
Definition clear_bit (a : key_bytes) (bit : nat) : key_bytes :=
  let mask := Z.shiftl 1 (7 - Z.of_nat (bit mod 8)) in
  alter (fun b => Z.land b (Z.lnot mask)) (bit / 8)%nat a.
Definition set_bit (a : key_bytes) (bit : nat) : key_bytes :=
  let mask := Z.shiftl 1 (7 - Z.of_nat (bit mod 8)) in
  alter (fun b => Z.lor b mask) (bit / 8)%nat a.

(** The address, its prefix length and width after the mapped addresses are normalised. *)
Record network := mk_network { net_address : address; net_prefix : nat; net_width : nat }.

Definition refused (a : address) : bool := negb (is_v4 a) && negb (scope_id a =? 0).

Definition parse_network (input : bytes) : throwing network :=
  let slash := find_char "/"%char input in
  match make_address (upto slash input) with
  | None => Throws (lit "invalid IP or CIDR")
  | Some a =>
      if refused a then Throws (lit "invalid IP or CIDR")
      else
        let width := if is_v4 a then 32 else 128 in
        let prefix :=
          match slash with
          | None => Some width
          | Some _ =>
              match from_chars 4294967295 (after slash input) with
              | Some (prefix, []) => if width <? prefix then None else Some prefix
              | _ => None
              end
          end in
        match prefix with
        | None => Throws (lit "invalid CIDR prefix")
        | Some prefix =>
            if negb (is_v4 a) && is_v4_mapped a && (96 <=? prefix)
            then Returns (mk_network (unmap a) (Z.to_nat (prefix - 96)) 32)
            else Returns (mk_network a (Z.to_nat prefix) (Z.to_nat width))
        end
  end.

Definition network_range (n : network) (expires : Z) : range :=
  let host := seq (net_prefix n) (net_width n - net_prefix n) in
  let k := key (net_address n) in
  mk_range (fold_left clear_bit host k) (fold_left set_bit host k) expires.

(** * Lists *)

Record request_list_value := mk_value { list_value_ : bytes; expires_unix_ms_ : Z }.

Record request_match_list := mk_list {
  type_ : bytes;
  strings_ : gmap bytes Z;
  ipv4_tree_ : list tree_node;
  ipv6_tree_ : list tree_node;
  has_expiration_ : bool
}.

(** What the constructor's loop fills. *)
Record filling := mk_filling {
  fill_strings : gmap bytes Z; fill_ipv4 : list range; fill_ipv6 : list range; fill_expiration : bool
}.

Definition add_network (f : filling) (input : bytes) (expires : Z) : throwing filling :=
  throwing_bind (parse_network input) (fun n =>
    let r := network_range n expires in
    if is_v4 (net_address n)
    then Returns (mk_filling (fill_strings f) (fill_ipv4 f ++ [r]) (fill_ipv6 f) (fill_expiration f))
    else Returns (mk_filling (fill_strings f) (fill_ipv4 f) (fill_ipv6 f ++ [r]) (fill_expiration f))).

Definition country_ok (item : bytes) : bool :=
  match item with [a; b] => is_upper a && is_upper b | _ => false end.
Definition asn_ok (item : bytes) : bool :=
  match from_chars 4294967295 item with
  | Some (value, []) => negb (value =? 0) && (dec value == item)
  | _ => false
  end.

Definition expiry_of (source : request_list_value) : Z :=
  if expires_unix_ms_ source =? 0 then max_u64 else expires_unix_ms_ source.

(** One turn of the constructor's loop. *)
Definition add_entry (type : bytes) (f : filling) (source : request_list_value) : throwing filling :=
  let item := list_value_ source in
  let expires := expiry_of source in
  let f := mk_filling (fill_strings f) (fill_ipv4 f) (fill_ipv6 f)
             (fill_expiration f || negb (expires_unix_ms_ source =? 0)) in
  if type == lit "ip" then add_network f item expires
  else if empty item || (2048 <? size item) then Throws (lit "invalid security list entry")
  else if (type == lit "country") && negb (country_ok item) then Throws (lit "invalid country code")
  else if (type == lit "asn") && negb (asn_ok item) then Throws (lit "invalid ASN")
  else
    let expires := match fill_strings f !! item with Some e => Z.max e expires | None => expires end in
    Returns (mk_filling (<[item := expires]> (fill_strings f)) (fill_ipv4 f) (fill_ipv6 f) (fill_expiration f)).

Context `{SortRanges}.

Definition tree_of (ranges : list range) : list tree_node :=
  let merged := merge_ranges (sort_ranges ranges) in
  fst (build_tree (S (length merged)) merged [] 0 (length merged)).

Definition new_match_list (type : bytes) (entries : list request_list_value) : throwing request_match_list :=
  throwing_bind (throwing_fold (add_entry type) (mk_filling ∅ [] [] false) entries) (fun f =>
    if (type != lit "ip") && (type != lit "asn") && (type != lit "country") && (type != lit "user_agent")
    then Throws (lit "invalid security list type")
    else Returns (mk_list type (fill_strings f) (tree_of (fill_ipv4 f)) (tree_of (fill_ipv6 f)) (fill_expiration f))).

Definition permanent_values (entries : list bytes) : list request_list_value :=
  map (fun item => mk_value item 0) entries.

(** [clock] is the wall clock in milliseconds. *)
Definition list_contains (l : request_match_list) (input : bytes) (clock : Z) : bool :=
  let now := if has_expiration_ l then clock else 0 in
  if type_ l != lit "ip" then
    match strings_ l !! input with Some e => now <? e | None => false end
  else
    match make_address input with
    | None => false
    | Some a =>
        if refused a then false
        else
          let a := if negb (is_v4 a) && is_v4_mapped a then unmap a else a in
          let tree := if is_v4 a then ipv4_tree_ l else ipv6_tree_ l in
          negb (empty tree) && in_tree (S (length tree)) tree (Some 0%nat) (key a) now
    end.
End Networks.

(** * Arrays as numbers *)

(** The number a string of bits writes, the most significant first. *)
Fixpoint bnum (bits : list bool) : Z :=
  match bits with [] => 0 | b :: bits' => Z.b2z b * 2 ^ size bits' + bnum bits' end.

Definition byte_bits (z : Z) : list bool := map (fun j => Z.testbit z (7 - Z.of_nat j)) (seq 0 8).
Definition bits (a : key_bytes) : list bool := flat_map byte_bits a.
Definition num (a : key_bytes) : Z := bnum (bits a).

Lemma bnum_range l : 0 <= bnum l < 2 ^ size l.
Proof.
  induction l as [|b l IH]; [by vm_compute|]. cbn [bnum].
  replace (size (b :: l)) with (Z.succ (size l)) by (unfold size; simpl; lia).
  rewrite Z.pow_succ_r by (unfold size; lia). destruct b; simpl Z.b2z; lia.
Qed.

Lemma bnum_app x y : bnum (x ++ y) = bnum x * 2 ^ size y + bnum y.
Proof.
  induction x as [|b x IH]; [done|]. cbn [bnum app]. rewrite IH.
  assert (size (x ++ y) = size x + size y) as -> by (unfold size; rewrite length_app; lia).
  rewrite Z.pow_add_r by (unfold size; lia). lia.
Qed.

Lemma bnum_inj x y : length x = length y -> bnum x = bnum y -> x = y.
Proof.
  revert y. induction x as [|b x IH]; intros [|c y]; simpl; try done. intros [= Hl] He.
  assert (size x = size y) as Hs by (unfold size; lia). rewrite Hs in He.
  pose proof (bnum_range x). pose proof (bnum_range y). rewrite Hs in *.
  destruct b, c; simpl in He; try lia; f_equal; apply IH; lia.
Qed.

Lemma bnum_byte z : byte z -> bnum (byte_bits z) = z.
Proof.
  intros Hz. assert (forallb (fun n => bnum (byte_bits (Z.of_nat n)) =? Z.of_nat n) (seq 0 256) = true) as H
    by by vm_compute.
  rewrite forallb_forall in H. specialize (H (Z.to_nat z)). rewrite Z2Nat.id in H by (unfold byte in Hz; lia).
  apply Z.eqb_eq, H, in_seq. unfold byte in Hz. lia.
Qed.

Lemma size_bits a : size (bits a) = 8 * size a.
Proof.
  induction a as [|x a IH]; [done|]. cbn [bits flat_map]. unfold size in *. rewrite length_app. simpl length.
  fold (bits a). lia.
Qed.

Lemma num_cons x a : byte x -> num (x :: a) = x * 2 ^ (8 * size a) + num a.
Proof.
  intros Hx. unfold num. cbn [bits flat_map]. fold (bits a). by rewrite bnum_app, bnum_byte, size_bits.
Qed.

Lemma num_range a : 0 <= num a < 2 ^ (8 * size a).
Proof. unfold num. rewrite <- size_bits. apply bnum_range. Qed.

(** Comparing arrays of the same length compares the numbers they write. *)
Lemma array_lt_num a b :
  length a = length b -> Forall byte a -> Forall byte b -> array_lt a b = (num a <? num b).
Proof.
  intros Hl Ha. revert b Hl. induction Ha as [|x a Hx Ha IH]; intros [|y b] Hl Hb; try done.
  apply Forall_cons_1 in Hb as [Hy Hb]. simpl in Hl. simplify_eq.
  rewrite !num_cons by done. cbn [array_lt].
  assert (size a = size b) as Hs by (unfold size; lia).
  pose proof (num_range a). pose proof (num_range b). rewrite Hs in *.
  assert (0 < 2 ^ (8 * size b)) by (apply Z.pow_pos_nonneg; unfold size; lia).
  destruct (Z.ltb_spec x y); [symmetry; apply Z.ltb_lt; nia|].
  destruct (Z.ltb_spec y x); [symmetry; apply Z.ltb_ge; nia|].
  replace y with x by lia. rewrite IH by done.
  destruct (Z.ltb_spec (num a) (num b)); symmetry; [apply Z.ltb_lt|apply Z.ltb_ge]; lia.
Qed.

(** A 16-byte key. *)
Definition key_ok (a : key_bytes) : Prop := length a = 16%nat /\ Forall byte a.

Lemma key_lt a b : key_ok a -> key_ok b -> array_lt a b = (num a <? num b).
Proof. intros [Ha Fa] [Hb Fb]. apply array_lt_num; congruence. Qed.

Lemma key_le a b : key_ok a -> key_ok b -> array_le a b = (num a <=? num b).
Proof. intros Ha Hb. unfold array_le. rewrite key_lt by done. lia. Qed.

Lemma key_max a b : key_ok a -> key_ok b -> key_ok (array_max a b) /\ num (array_max a b) = Z.max (num a) (num b).
Proof.
  intros Ha Hb. unfold array_max. rewrite key_lt by done. destruct (Z.ltb_spec (num a) (num b)); split; try done; lia.
Qed.

(** * The tree *)

Definition range_ok (r : range) : Prop := key_ok (first_ r) /\ key_ok (last_ r).

(** Membership in one range at a time. *)
Definition covers (value : key_bytes) (now : Z) (r : range) : bool :=
  array_le (first_ r) value && array_le value (last_ r) && (now <? expires_ r).

(** The subtree at an index holds the ranges [rs] in order, below nodes that bound them. *)
Inductive repr (tree : list tree_node) (lo : nat) : option nat -> list range -> Prop :=
  | repr_none : repr tree lo None []
  | repr_node i n ls rs :
      tree !! i = Some n -> (lo <= i)%nat ->
      repr tree lo (left_ n) ls -> repr tree lo (right_ n) rs ->
      key_ok (maximum_end_ n) ->
      Forall (fun r => num (last_ r) <= num (maximum_end_ n) /\ expires_ r <= maximum_expiry_ n)
        (ls ++ value_ n :: rs) ->
      repr tree lo (Some i) (ls ++ value_ n :: rs).

Lemma repr_ext tree tree' lo idx rs :
  repr tree lo idx rs -> (forall i n, (lo <= i)%nat -> tree !! i = Some n -> tree' !! i = Some n) ->
  repr tree' lo idx rs.
Proof. intros H He. induction H; econstructor; eauto. Qed.

Lemma repr_weaken tree lo lo' idx rs : repr tree lo idx rs -> (lo' <= lo)%nat -> repr tree lo' idx rs.
Proof. intros H Hl. induction H; econstructor; eauto; lia. Qed.

Lemma covers_num value now r : range_ok r -> key_ok value ->
  covers value now r = (num (first_ r) <=? num value) && (num value <=? num (last_ r)) && (now <? expires_ r).
Proof. intros [H1 H2] Hv. unfold covers. by rewrite !key_le. Qed.

Lemma covers_false_max value now n rs :
  key_ok value -> Forall range_ok rs ->
  Forall (fun r => num (last_ r) <= num (maximum_end_ n) /\ expires_ r <= maximum_expiry_ n) rs ->
  num (maximum_end_ n) < num value \/ maximum_expiry_ n <= now ->
  existsb (covers value now) rs = false.
Proof.
  intros Hv Hok Hm Hc. apply existsb_false. rewrite Forall_forall in *. intros r Hr.
  rewrite covers_num by auto. destruct (Hm r Hr). destruct (Hok r Hr).
  destruct (Z.leb_spec (num value) (num (last_ r))), (Z.ltb_spec now (expires_ r)); rewrite ?andb_false_r; try done; lia.
Qed.

Lemma first_le_num a b : range_ok a -> range_ok b -> first_le a b -> num (first_ a) <= num (first_ b).
Proof. intros [Ha _] [Hb _]. unfold first_le. rewrite key_le by done. lia. Qed.

Lemma in_tree_spec fuel tree lo idx rs value now :
  repr tree lo idx rs -> (length rs < fuel)%nat -> key_ok value -> Forall range_ok rs ->
  StronglySorted first_le rs ->
  in_tree fuel tree idx value now = existsb (covers value now) rs.
Proof.
  intros Hr. revert fuel. induction Hr as [|i n ls rs Hi Hlo Hl IHl Hr IHr Hk Hm]; intros fuel Hf Hv Hok Hs.
  { by destruct fuel. }
  destruct fuel as [|fuel]; [lia|]. cbn [in_tree]. rewrite Hi. rewrite length_app in Hf. simpl in Hf.
  rewrite existsb_app. cbn [existsb].
  pose proof Hok as [Hokl [Hokn Hokr]%Forall_cons_1]%Forall_app.
  rewrite key_lt by done.
  destruct ((num (maximum_end_ n) <? num value) || (maximum_expiry_ n <=? now)) eqn:Emax.
  { symmetry. pose proof (covers_false_max value now n _ Hv Hok Hm) as Hc. rewrite existsb_app in Hc. apply Hc.
    reflect_bool. destruct Emax; reflect_bool; auto. }
  apply StronglySorted_app in Hs as (Hcross & Hsl & Hsr).
  apply StronglySorted_inv in Hsr as [Hsr Hfirst].
  rewrite IHl by (done || lia). destruct (existsb (covers value now) ls); [done|].
  rewrite covers_num by done. rewrite (key_lt value) by (done || apply Hokn).
  destruct (Z.ltb_spec (num value) (num (first_ (value_ n)))) as [Hlt|Hge].
  - rewrite (proj2 (Z.leb_gt _ _)) by done. simpl. symmetry. apply existsb_false.
    rewrite Forall_forall in *. intros r Hin. specialize (Hfirst r Hin). specialize (Hokr r Hin).
    apply first_le_num in Hfirst; [|done|done]. rewrite covers_num by done.
    by rewrite (proj2 (Z.leb_gt (num (first_ r)) _)) by lia.
  - rewrite (proj2 (Z.leb_le (num (first_ (value_ n))) _)) by done.
    rewrite key_le by (done || apply Hokn). rewrite IHr by (done || lia). done.
Qed.

(** ** Construction *)

Definition slice {A} (b e : nat) (l : list A) : list A := take (e - b) (drop b l).

Lemma slice_split {A} (l : list A) b m e x :
  (b <= m)%nat -> (m < e)%nat -> l !! m = Some x -> slice b e l = slice b m l ++ x :: slice (S m) e l.
Proof.
  intros Hbm Hme Hx. unfold slice. replace (e - b)%nat with ((m - b) + S (e - S m))%nat by lia.
  rewrite <- (take_drop (m - b) (drop b l)) at 1. rewrite take_app_add'.
  - f_equal. rewrite drop_drop. replace (b + (m - b))%nat with m by lia. by rewrite (drop_S l x m Hx).
  - rewrite length_take, length_drop. apply lookup_lt_Some in Hx. lia.
Qed.

Lemma absorb_value tree n c : value_ (absorb tree n c) = value_ n /\ left_ (absorb tree n c) = left_ n /\
  right_ (absorb tree n c) = right_ n.
Proof. unfold absorb. destruct c as [c|]; [|done]. by destruct (tree !! c). Qed.

(** Absorbing a child bounds the ranges of its subtree, and keeps what was bounded. *)
Lemma absorb_bounds tree lo n c rs :
  repr tree lo c rs -> key_ok (maximum_end_ n) ->
  let n' := absorb tree n c in
  key_ok (maximum_end_ n') /\
  num (maximum_end_ n) <= num (maximum_end_ n') /\ maximum_expiry_ n <= maximum_expiry_ n' /\
  Forall (fun r => num (last_ r) <= num (maximum_end_ n') /\ expires_ r <= maximum_expiry_ n') rs.
Proof.
  intros Hr Hk n'. unfold n', absorb. destruct Hr as [|i m ls rs Hi _ _ _ Hkm Hm]; [split_and!; (done || lia)|].
  rewrite Hi. cbn [maximum_end_ maximum_expiry_]. destruct (key_max _ _ Hk Hkm) as [H1 H2]. rewrite H2.
  split_and!; [done|lia|lia|]. apply (Forall_impl _ _ _ Hm). simpl. lia.
Qed.

Lemma build_tree_spec fuel ranges tree b e tree' idx :
  build_tree fuel ranges tree b e = (tree', idx) ->
  (b <= e)%nat -> (e <= length ranges)%nat -> (e - b < fuel)%nat -> Forall range_ok ranges ->
  (exists ext, tree' = tree ++ ext /\ length ext = (e - b)%nat) /\ repr tree' (length tree) idx (slice b e ranges).
Proof.
  revert tree b e tree' idx. induction fuel as [|fuel IH]; intros tree b e tree' idx Hb Hbe He Hf Hok; [lia|].
  cbn [build_tree] in Hb. destruct (b =? e)%nat eqn:Ebe.
  { apply Nat.eqb_eq in Ebe as ->. simplify_eq. unfold slice. rewrite Nat.sub_diag, take_0.
    split; [exists []; rewrite app_nil_r; split; [done|simpl; lia]|constructor]. }
  apply Nat.eqb_neq in Ebe. set (m := (b + (e - b) / 2)%nat) in *.
  assert ((e - b) / 2 < e - b)%nat by (apply Nat.div_lt; lia).
  assert (b <= m < e)%nat as Hm by (unfold m; lia).
  destruct (lookup_lt_is_Some_2 ranges m) as [value Hv]; [lia|]. rewrite Hv in Hb.
  destruct (build_tree fuel ranges (tree ++ _) b m) as [tree2 lc] eqn:E2.
  destruct (build_tree fuel ranges tree2 (S m) e) as [tree3 rc] eqn:E3. simplify_eq.
  apply IH in E2 as [(ext2 & -> & N2) R2]; [|lia..|done].
  apply IH in E3 as [(ext3 & -> & N3) R3]; [|lia..|done].
  rewrite !length_app in R3. rewrite length_app in R2. cbn [length] in R2, R3.
  set (tree3 := (((tree ++ _) ++ ext2) ++ ext3)) in *. set (n0 := mk_node value _ _ lc rc).
  assert (key_ok (maximum_end_ n0)) as Hk0 by (rewrite Forall_lookup in Hok; apply (Hok _ _ Hv)).
  assert (repr tree3 (S (length tree)) lc (slice b m ranges)) as L3.
  { apply (repr_weaken _ (length tree + 1)); [|lia]. apply (repr_ext _ _ _ _ _ R2). intros i n _ Hi.
    unfold tree3. by apply lookup_app_l_Some. }
  assert (repr tree3 (S (length tree)) rc (slice (S m) e ranges)) as R3' by (apply (repr_weaken _ _ _ _ _ R3); lia).
  destruct (absorb_bounds _ _ n0 _ _ L3 Hk0) as (K1 & B1 & X1 & F1).
  destruct (absorb_bounds _ _ (absorb tree3 n0 lc) _ _ R3' K1) as (K2 & B2 & X2 & F2).
  set (n2 := absorb tree3 (absorb tree3 n0 lc) rc) in *.
  assert (value_ n2 = value /\ left_ n2 = lc /\ right_ n2 = rc) as (V2 & L2 & R2').
  { unfold n2. destruct (absorb_value tree3 (absorb tree3 n0 lc) rc) as (-> & -> & ->).
    by destruct (absorb_value tree3 n0 lc) as (-> & -> & ->). }
  split.
  - unfold tree3. rewrite <- !app_assoc. rewrite insert_app_r_alt by lia. eexists. split; [done|].
    rewrite length_insert, !length_app, N2, N3. simpl. lia.
  - rewrite (slice_split _ b m e value) by (done || lia). rewrite <- V2.
    assert (length tree < length tree3)%nat as Hlt by (unfold tree3; rewrite !length_app; simpl; lia).
    assert (forall c rs, repr tree3 (S (length tree)) c rs ->
      repr (<[length tree := n2]> tree3) (length tree) c rs) as Hup.
    { intros c rs Hc. apply (repr_weaken _ (S (length tree))); [|lia]. apply (repr_ext _ _ _ _ _ Hc).
      intros i n Hi Hin. by rewrite list_lookup_insert_ne by lia. }
    apply (repr_node _ _ _ n2); [by apply list_lookup_insert_eq|done|rewrite L2; auto|rewrite R2'; auto|done|].
    apply Forall_app. split; [|apply Forall_cons; split].
    + apply (Forall_impl _ _ _ F1). simpl. lia.
    + rewrite V2. simpl in B1, X1. lia.
    + done.
Qed.

(** * Merging *)

Definition first_ge (a b : range) : Prop := first_le b a.

(** The reversed output of the merge: sorted downwards, and covering what was read. *)
Record merge_inv (seen merged : list range) : Prop := {
  inv_ok : Forall range_ok merged;
  inv_sorted : StronglySorted first_ge merged;
  inv_below : forall r, Forall (fun x => first_le x r) seen -> Forall (fun x => first_le x r) merged;
  inv_cover : forall value now, key_ok value ->
    existsb (covers value now) merged = existsb (covers value now) seen
}.

Lemma covers_join value now a b :
  range_ok a -> range_ok b -> key_ok value -> expires_ b = expires_ a ->
  num (first_ a) <= num (first_ b) -> num (first_ b) <= num (last_ a) ->
  covers value now (mk_range (first_ a) (array_max (last_ a) (last_ b)) (expires_ a)) =
  covers value now a || covers value now b.
Proof.
  intros [A1 A2] [B1 B2] Hv He H1 H2. unfold covers. cbn [first_ last_ expires_].
  destruct (key_max _ _ A2 B2) as [K1 K2]. rewrite !key_le by done. rewrite K2, He.
  destruct (now <? expires_ a); rewrite ?andb_false_r, ?andb_true_r; [|done].
  destruct (Z.leb_spec (num (first_ a)) (num value)), (Z.leb_spec (num (first_ b)) (num value)),
    (Z.leb_spec (num value) (num (last_ a))), (Z.leb_spec (num value) (num (last_ b)));
    simpl; rewrite ?(proj2 (Z.leb_le _ _)) by lia; rewrite ?(proj2 (Z.leb_gt _ _)) by lia; try done; lia.
Qed.

Lemma first_le_trans a b c : range_ok a -> range_ok b -> range_ok c ->
  first_le a b -> first_le b c -> first_le a c.
Proof.
  intros [Ha _] [Hb _] [Hc _]. unfold first_le. rewrite !key_le by done. rewrite !Z.leb_le. lia.
Qed.

Lemma merge_range_inv seen merged item :
  merge_inv seen merged -> range_ok item -> Forall range_ok seen -> Forall (fun x => first_le x item) seen ->
  merge_inv (seen ++ [item]) (merge_range merged item).
Proof.
  intros [I1 I2 I3 I4] Hi Hseen Hle. pose proof (I3 item Hle) as Hm.
  assert (forall value now, existsb (covers value now) (seen ++ [item]) =
    existsb (covers value now) seen || covers value now item) as Hex
    by (intros; by rewrite existsb_app; simpl; rewrite orb_false_r).
  destruct merged as [|back rest]; cbn [merge_range].
  { split; [auto|repeat constructor|..].
    - intros r [_ Hr%Forall_cons_1]%Forall_app. constructor; [apply Hr|done].
    - intros value now Hv. rewrite Hex, <- I4 by done. simpl. by rewrite orb_false_r. }
  apply Forall_cons_1 in I1 as [Hb Hrest], Hm as [Hmb Hmr]. apply StronglySorted_inv in I2 as [Hs Hfb].
  destruct ((expires_ item =? expires_ back) && array_le (first_ item) (last_ back)) eqn:E; reflect_bool.
  - rewrite key_le in H0 by (apply Hi || apply Hb). reflect_bool. apply first_le_num in Hmb; [|done|done].
    split.
    + constructor; [|done]. split; [apply Hb|]. apply key_max; [apply Hb|apply Hi].
    + by constructor.
    + intros r [Hr _]%Forall_app. apply I3, Forall_cons_1 in Hr as [Hr1 Hr2]. by constructor.
    + intros value now Hv. rewrite Hex, <- I4 by done. cbn [existsb]. rewrite covers_join by done.
      destruct (covers value now back), (covers value now item), (existsb _ rest); done.
  - split.
    + constructor; [done|]. by constructor.
    + constructor; [by constructor|]. by constructor.
    + intros r Hr. apply Forall_app in Hr as [Hr Hri%Forall_cons_1]. constructor; [apply Hri|]. by apply I3.
    + intros value now Hv. rewrite Hex, <- I4 by done. cbn [existsb].
      destruct (covers value now back), (covers value now item), (existsb _ rest); done.
Qed.

Lemma merge_inv_fold l : Forall range_ok l -> StronglySorted first_le l ->
  merge_inv l (fold_left merge_range l []).
Proof.
  induction l as [|item l IH] using rev_ind; intros Hok Hs.
  { split; [done|constructor|done|done]. }
  apply StronglySorted_app in Hs as (Hc & Hs & _). apply Forall_app in Hok as [Hok Hi%Forall_cons_1].
  rewrite fold_left_app. apply merge_range_inv; [by apply IH|apply Hi|done|].
  rewrite Forall_forall. intros x Hx. apply Hc; [done|apply list_elem_of_here].
Qed.

Lemma StronglySorted_rev l : StronglySorted first_ge l -> StronglySorted first_le (rev l).
Proof.
  induction 1 as [|x l Hs IH Hx]; simpl; [constructor|]. apply StronglySorted_app. split_and!; [|done|repeat constructor].
  intros a b Ha Hb. apply list_elem_of_singleton in Hb as ->. rewrite Forall_forall in Hx. apply Hx.
  apply list_elem_of_In, in_rev in Ha. by apply list_elem_of_In.
Qed.

(** * Prefixes *)

Lemma byte_bits_lookup z j : (j < 8)%nat -> byte_bits z !! j = Some (Z.testbit z (7 - Z.of_nat j)).
Proof. intros H. unfold byte_bits. rewrite list_lookup_fmap, lookup_seq_lt by done. done. Qed.

Lemma bits_lookup a i :
  bits a !! i = (fun z => Z.testbit z (7 - Z.of_nat (i mod 8))) <$> a !! (i / 8)%nat.
Proof.
  revert i. induction a as [|z a IH]; intros i; [done|]. cbn [bits flat_map]. fold (bits a).
  destruct (decide (i < 8)%nat) as [Hi|Hi].
  - rewrite lookup_app_l by (simpl; lia). rewrite byte_bits_lookup by done.
    rewrite Nat.mod_small, Nat.div_small by done. done.
  - rewrite lookup_app_r by (simpl; lia). change (length (byte_bits z)) with 8%nat. rewrite IH.
    assert (exists k, i = k + 1 * 8)%nat as [k ->] by (exists (i - 8)%nat; lia).
    rewrite Nat.Div0.mod_add, Nat.div_add, Nat.mul_1_l, Nat.add_sub by lia. by rewrite Nat.add_1_r.
Qed.

Definition bit_op (b : bool) (z : Z) (j : nat) : Z :=
  let mask := Z.shiftl 1 (7 - Z.of_nat j) in
  if b then Z.lor z mask else Z.land z (Z.lnot mask).

(** Clearing or setting one bit of a byte, over all bytes and bits. *)
Lemma bit_op_spec b z j i : byte z -> (j < 8)%nat -> (i < 8)%nat ->
  byte (bit_op b z j) /\
  Z.testbit (bit_op b z j) (7 - Z.of_nat i) = if (i =? j)%nat then b else Z.testbit z (7 - Z.of_nat i).
Proof.
  set (ok b z j i := (0 <=? bit_op b z j) && (bit_op b z j <? 256) &&
    Bool.eqb (Z.testbit (bit_op b z j) (7 - Z.of_nat i))
      (if (i =? j)%nat then b else Z.testbit z (7 - Z.of_nat i))).
  assert (forallb (fun b => forallb (fun z => forallb (fun j => forallb (fun i => ok b (Z.of_nat z) j i)
    (seq 0 8)) (seq 0 8)) (seq 0 256)) [true; false] = true) as Hall by by vm_compute.
  intros Hz Hj Hi. unfold byte in *. rewrite forallb_forall in Hall.
  specialize (Hall b ltac:(destruct b; simpl; auto)). rewrite forallb_forall in Hall.
  specialize (Hall (Z.to_nat z) ltac:(apply in_seq; lia)). rewrite forallb_forall in Hall.
  specialize (Hall j ltac:(apply in_seq; lia)). rewrite forallb_forall in Hall.
  specialize (Hall i ltac:(apply in_seq; lia)). rewrite Z2Nat.id in Hall by lia.
  unfold ok in Hall. reflect_bool. split; [lia|]. by apply Bool.eqb_prop.
Qed.

Definition alter_bit (b : bool) (a : key_bytes) (bit : nat) : key_bytes :=
  alter (fun z => bit_op b z (bit mod 8)) (bit / 8)%nat a.

Lemma alter_bit_spec b a bit : Forall byte a ->
  Forall byte (alter_bit b a bit) /\ length (alter_bit b a bit) = length a /\
  bits (alter_bit b a bit) = <[bit := b]> (bits a).
Proof.
  intros Ha. assert (bit mod 8 < 8)%nat as Hm by (apply Nat.mod_upper_bound; lia).
  unfold alter_bit. split_and!.
  - apply Forall_alter; [done|]. intros z _ Hz. by apply (bit_op_spec b z _ 0%nat); lia || done.
  - by rewrite length_alter.
  - apply list_eq. intros i. rewrite bits_lookup.
    assert (i mod 8 < 8)%nat as Hi by (apply Nat.mod_upper_bound; lia).
    destruct (decide (i = bit)) as [->|Hne].
    + rewrite list_lookup_alter_eq. destruct (a !! (bit / 8)%nat) as [z|] eqn:E; cbn [fmap option_fmap option_map].
      * rewrite list_lookup_insert_eq.
        -- f_equal. rewrite Forall_lookup in Ha. specialize (Ha _ _ E).
           destruct (bit_op_spec b z (bit mod 8) (bit mod 8) Ha Hm Hm) as [_ ->]. by rewrite Nat.eqb_refl.
        -- apply lookup_lt_Some in E. pose proof (size_bits a). unfold size in *.
           pose proof (Nat.div_mod bit 8). lia.
      * symmetry. apply lookup_ge_None. rewrite length_insert.
        apply lookup_ge_None in E. pose proof (size_bits a). unfold size in *. pose proof (Nat.div_mod bit 8). lia.
    + rewrite list_lookup_insert_ne, bits_lookup by done.
      destruct (decide (i / 8 = bit / 8)%nat) as [Hd|Hd].
      * rewrite Hd, list_lookup_alter_eq. destruct (a !! (bit / 8)%nat) as [z|] eqn:E; [|done]. cbn [fmap option_fmap option_map]. f_equal.
        rewrite Forall_lookup in Ha. specialize (Ha _ _ E).
        destruct (bit_op_spec b z (bit mod 8) (i mod 8) Ha Hm Hi) as [_ ->].
        rewrite (proj2 (Nat.eqb_neq _ _)); [done|]. pose proof (Nat.div_mod bit 8). pose proof (Nat.div_mod i 8). lia.
      * by rewrite list_lookup_alter_ne by done.
Qed.

(** All the bits from [lo] on, [n] of them. *)
Lemma fold_alter_bits b lo n a : Forall byte a -> (lo + n <= length (bits a))%nat ->
  let r := fold_left (alter_bit b) (seq lo n) a in
  Forall byte r /\ length r = length a /\
  bits r = take lo (bits a) ++ repeat b n ++ drop (lo + n) (bits a).
Proof.
  intros Ha. induction n as [|n IH]; intros Hn.
  { simpl. split_and!; [done|done|]. by rewrite Nat.add_0_r, take_drop. }
  rewrite seq_S, fold_left_app. destruct IH as (I1 & I2 & I3); [lia|]. cbn [fold_left].
  destruct (alter_bit_spec b (fold_left (alter_bit b) (seq lo n) a) (lo + n) I1) as (J1 & J2 & J3).
  split_and!; [done|congruence|]. rewrite J3, I3.
  assert (length (take lo (bits a)) = lo) as Hlo by (rewrite length_take; lia).
  rewrite insert_app_r_alt by lia. rewrite Hlo, insert_app_r_alt by (rewrite repeat_length; lia).
  rewrite repeat_length. replace (lo + n - lo - n)%nat with 0%nat by lia.
  destruct (lookup_lt_is_Some_2 (bits a) (lo + n)) as [x Hx]; [lia|].
  rewrite (drop_S _ x _ Hx). cbn [insert list_insert]. replace (lo + S n)%nat with (S (lo + n)) by lia.
  change (b :: drop (S (lo + n)) (bits a)) with ([b] ++ drop (S (lo + n)) (bits a)).
  rewrite (app_assoc (repeat b n)). f_equal. f_equal.
  change [b] with (repeat b 1). rewrite <- repeat_app. by rewrite Nat.add_1_r.
Qed.

Lemma bnum_repeat b n : bnum (repeat b n) = if b then 2 ^ Z.of_nat n - 1 else 0.
Proof.
  induction n as [|n IH]; [by destruct b|]. cbn [repeat bnum]. rewrite IH.
  unfold size. rewrite repeat_length, Nat2Z.inj_succ, Z.pow_succ_r by lia. destruct b; simpl; lia.
Qed.

(** Between the least and the greatest completion of a prefix lie exactly its completions. *)
Lemma prefix_between (A V : list bool) p w :
  (p <= w)%nat -> (w <= length A)%nat -> length V = length A -> drop w V = drop w A ->
  (bnum (take p A ++ repeat false (w - p) ++ drop w A) <=? bnum V) &&
  (bnum V <=? bnum (take p A ++ repeat true (w - p) ++ drop w A)) =
  bool_decide (take p V = take p A).
Proof.
  intros Hpw Hw Hl Hd.
  assert (V = take p V ++ take (w - p) (drop p V) ++ drop w A) as HV.
  { rewrite <- Hd. rewrite <- (take_drop p V) at 1. f_equal. rewrite <- (take_drop (w - p) (drop p V)) at 1.
    f_equal. rewrite drop_drop. f_equal. lia. }
  set (q := take p V) in *. set (m := take (w - p) (drop p V)) in *. set (t := drop w A) in *.
  assert (length m = (w - p)%nat) as Hm by (unfold m; rewrite length_take, length_drop; lia).
  rewrite HV, !bnum_app, !bnum_repeat.
  assert (forall b, size (repeat b (w - p) ++ t) = size m + size t) as Hs
    by (intros b; unfold size; rewrite length_app, repeat_length; lia).
  rewrite !Hs. replace (size (m ++ t)) with (size m + size t) by (unfold size; rewrite length_app; lia).
  assert (Z.of_nat (w - p) = size m) as -> by (unfold size; lia).
  rewrite Z.pow_add_r by (unfold size; lia).
  pose proof (bnum_range m) as Rm. pose proof (bnum_range t) as Rt.
  assert (0 < 2 ^ size t) by lia. assert (0 < 2 ^ size m) by lia.
  case_bool_decide as Hq.
  - rewrite Hq. rewrite !(proj2 (Z.leb_le _ _)); [done|nia|nia].
  - assert (bnum q <> bnum (take p A)) as Hne.
    { intros E. apply Hq, bnum_inj; [|done]. unfold q. rewrite !length_take. lia. }
    apply andb_false_iff. rewrite !Z.leb_gt. clear Hq HV Hs.
    set (M := 2 ^ size m) in *. set (T := 2 ^ size t) in *.
    destruct (Z.lt_trichotomy (bnum q) (bnum (take p A))) as [Hlt|[?|Hgt]]; [left|done|right].
    + assert (bnum q * M + bnum m < bnum (take p A) * M) by nia. nia.
    + assert (bnum (take p A) * M + (M - 1) < bnum q * M + bnum m) by nia. nia.
Qed.

Section NetworkSpec.
Context `{AsioLaws}.

Lemma key_key_ok a : key_ok (key a).
Proof.
  unfold key, key_ok. destruct (is_v4 a) eqn:E.
  - rewrite length_app, (v4_bytes a E). split; [done|]. apply Forall_app. split; [apply bytes_range|].
    repeat constructor; done.
  - split; [by apply v6_bytes|apply bytes_range].
Qed.

Lemma length_bits_key a : length (bits (key a)) = 128%nat.
Proof. pose proof (size_bits (key a)) as E. destruct (key_key_ok a) as [Hl _]. unfold size in E. lia. Qed.

(** Prefix and width of a network fit its family. *)
Record network_ok (n : network) : Prop := {
  net_width_ok : net_width n = if is_v4 (net_address n) then 32%nat else 128%nat;
  net_prefix_ok : (net_prefix n <= net_width n)%nat
}.

Lemma parse_network_ok input n : parse_network input = Returns n -> network_ok n.
Proof.
  unfold parse_network. destruct (make_address _) as [a|]; [|done]. destruct (refused a); [done|].
  set (width := if is_v4 a then 32 else 128).
  set (prefix := match find_char _ _ with None => _ | Some _ => _ end).
  destruct prefix as [prefix'|] eqn:Hp; [|done].
  assert (0 <= prefix' <= width) as Hb.
  { unfold prefix in Hp. destruct (find_char _ _); [|injection Hp as <-; unfold width; destruct (is_v4 a); lia].
    destruct (from_chars _ _) as [[v [|? ?]]|] eqn:E; [|done|done]. apply from_chars_bound in E.
    destruct (width <? v) eqn:Ew; [done|]. reflect_bool. injection Hp as <-. lia. }
  destruct (negb (is_v4 a) && is_v4_mapped a && (96 <=? prefix')) eqn:Em; intros [= <-]; reflect_bool;
    split; cbn [net_width net_address net_prefix]; unfold width in *.
  - by rewrite unmap_v4.
  - rewrite H1 in Hb. lia.
  - by destruct (is_v4 a).
  - destruct (is_v4 a); lia.
Qed.

(** The address shares the network's first [net_prefix] bits. *)
Definition address_bits (a : address) : list bool := bits (address_bytes a).
Definition network_matches (n : network) (a : address) : bool :=
  Bool.eqb (is_v4 (net_address n)) (is_v4 a) &&
  bool_decide (take (net_prefix n) (address_bits a) = take (net_prefix n) (address_bits (net_address n))).

Lemma bits_app a b : bits (a ++ b) = bits a ++ bits b.
Proof. unfold bits. by rewrite flat_map_app. Qed.

Lemma take_key_bits a p : (p <= if is_v4 a then 32 else 128)%nat -> take p (bits (key a)) = take p (address_bits a).
Proof.
  unfold key, address_bits. destruct (is_v4 a) eqn:E; [|done]. intros Hp. rewrite bits_app, take_app_le; [done|].
  pose proof (size_bits (address_bytes a)) as Hs. unfold size in Hs. rewrite (v4_bytes a E) in Hs. lia.
Qed.

Lemma drop_key_bits a b :
  is_v4 a = is_v4 b -> let w := if is_v4 a then 32%nat else 128%nat in drop w (bits (key a)) = drop w (bits (key b)).
Proof.
  intros He w. unfold w. destruct (is_v4 a) eqn:E; [|rewrite !drop_ge by (rewrite length_bits_key; lia); done].
  unfold key. rewrite E, <- He, !bits_app.
  assert (forall x, is_v4 x = true -> length (bits (address_bytes x)) = 32%nat) as Hl.
  { intros x Hx. pose proof (size_bits (address_bytes x)) as Hs. unfold size in Hs. rewrite (v4_bytes x Hx) in Hs. lia. }
  by rewrite !drop_app_length' by (symmetry; auto).
Qed.

Lemma network_range_ok n e : network_ok n -> range_ok (network_range n e).
Proof.
  intros [Hw Hp]. destruct (key_key_ok (net_address n)) as [Kl Kb].
  assert (forall b, let r := fold_left (alter_bit b) (seq (net_prefix n) (net_width n - net_prefix n)) (key (net_address n)) in key_ok r) as Hr.
  { intros b. destruct (fold_alter_bits b (net_prefix n) (net_width n - net_prefix n) _ Kb) as (R1 & R2 & _).
    - rewrite length_bits_key, Hw in *. destruct (is_v4 _); lia.
    - split; [congruence|done]. }
  split; [apply (Hr false)|apply (Hr true)].
Qed.

Lemma network_range_covers n e a now :
  network_ok n -> is_v4 (net_address n) = is_v4 a ->
  covers (key a) now (network_range n e) = network_matches n a && (now <? e).
Proof.
  intros Hn Hv. pose proof Hn as [Hw Hp]. destruct (key_key_ok (net_address n)) as [Kl Kb].
  rewrite covers_num by (apply key_key_ok || by apply network_range_ok).
  cbn [network_range first_ last_ expires_]. unfold num.
  assert (net_width n <= 128)%nat as Hw128 by (rewrite Hw; destruct (is_v4 _); lia).
  assert (net_prefix n + (net_width n - net_prefix n) <= length (bits (key (net_address n))))%nat as Hlen
    by (rewrite length_bits_key; lia).
  change (fold_left clear_bit) with (fold_left (alter_bit false)). change (fold_left set_bit) with (fold_left (alter_bit true)).
  destruct (fold_alter_bits false _ _ _ Kb Hlen) as (_ & _ & ->), (fold_alter_bits true _ _ _ Kb Hlen) as (_ & _ & ->).
  replace (net_prefix n + (net_width n - net_prefix n))%nat with (net_width n) by lia.
  rewrite prefix_between; [|done|by rewrite length_bits_key|by rewrite !length_bits_key|].
  - unfold network_matches. rewrite Hv, Bool.eqb_reflx. cbn [andb]. f_equal.
    rewrite !take_key_bits by (rewrite ?Hv in *; lia || congruence). done.
  - rewrite Hw, Hv. by apply drop_key_bits.
Qed.
End NetworkSpec.

(** * Lists *)

Section ListSpec.
Context `{AsioLaws} `{SortRangesLaws}.

Lemma StronglySorted_repr_fuel (l : list range) : (length l - 0 < S (length l))%nat.
Proof. lia. Qed.

Lemma tree_slice_all {A} (l : list A) : slice 0 (length l) l = l.
Proof. unfold slice. rewrite drop_0, Nat.sub_0_r. by rewrite firstn_all. Qed.

(** A tree answers as its unsorted ranges do. *)
Lemma tree_of_spec ranges value now :
  Forall range_ok ranges -> key_ok value ->
  negb (empty (tree_of ranges)) && in_tree (S (length (tree_of ranges))) (tree_of ranges) (Some 0%nat) value now =
  existsb (covers value now) ranges.
Proof.
  intros Hok Hv. unfold tree_of. set (sorted := sort_ranges ranges). set (merged := merge_ranges sorted).
  assert (Forall range_ok sorted) as Hoks by (unfold sorted; by rewrite sort_permutation).
  destruct (merge_inv_fold sorted Hoks (sort_sorted ranges)) as [M1 M2 _ M4].
  assert (Forall range_ok merged) as Hokm by (unfold merged, merge_ranges; by apply Forall_rev).
  assert (StronglySorted first_le merged) as Hsm by by apply StronglySorted_rev.
  assert (existsb (covers value now) merged = existsb (covers value now) ranges) as <-.
  { transitivity (existsb (covers value now) sorted).
    - rewrite <- M4 by done. unfold merged, merge_ranges. apply Bool.eq_iff_eq_true. rewrite !existsb_exists.
      setoid_rewrite <- in_rev. done.
    - apply Bool.eq_iff_eq_true. rewrite !existsb_exists. setoid_rewrite <- list_elem_of_In.
      unfold sorted. by setoid_rewrite sort_permutation. }
  destruct (build_tree _ merged [] 0 _) as [tree idx] eqn:E. cbn [fst].
  pose proof E as E'. apply build_tree_spec in E' as [_ Hr]; [|lia|lia|lia|done]. rewrite tree_slice_all in Hr.
  destruct merged as [|r0 rest] eqn:Em; [simpl in E; simplify_eq; done|].
  assert (idx = Some 0%nat) as ->.
  { cbn [build_tree] in E. rewrite (proj2 (Nat.eqb_neq _ _)) in E by (simpl; lia).
    destruct (_ !! _); [|simplify_eq; by inversion Hr].
    destruct (build_tree _ _ _ _ _), (build_tree _ _ _ _ _). by simplify_eq. }
  pose proof E as (( ext & Hext & Hlen) & _)%build_tree_spec; [|lia..|done].
  simpl in Hext. subst tree. destruct ext as [|n0 ext]; [simpl in Hlen; lia|].
  apply (in_tree_spec _ _ 0); [done|simpl in *; lia|done|done|done].
Qed.

(** What the constructor's loop has collected after some entries. *)
Definition ranges_of (f : filling) (v4 : bool) : list range := if v4 then fill_ipv4 f else fill_ipv6 f.

Record filled (entries : list request_list_value) (f : filling) : Prop := {
  filled_ok : forall v4, Forall range_ok (ranges_of f v4);
  filled_parsed : forall e, e ∈ entries -> exists n, parse_network (list_value_ e) = Returns n;
  filled_ranges : forall v4 r, r ∈ ranges_of f v4 <-> exists e n, e ∈ entries /\
    parse_network (list_value_ e) = Returns n /\ is_v4 (net_address n) = v4 /\ r = network_range n (expiry_of e);
  filled_expiration : fill_expiration f = existsb (fun e => negb (expires_unix_ms_ e =? 0)) entries
}.

Lemma add_entry_filled entries f e f' :
  filled entries f -> add_entry (lit "ip") f e = Returns f' -> filled (entries ++ [e]) f'.
Proof.
  intros [F1 F2 F3 F4]. unfold add_entry. rewrite bool_decide_eq_true_2 by done. unfold add_network.
  destruct (parse_network (list_value_ e)) as [n|] eqn:En; [|done]. cbn [throwing_bind].
  assert (forall v4, ranges_of f' v4 = ranges_of f v4 ++
    (if Bool.eqb (is_v4 (net_address n)) v4 then [network_range n (expiry_of e)] else []) ->
    Forall range_ok (ranges_of f' v4) /\ forall r, r ∈ ranges_of f' v4 <-> exists e' n', e' ∈ entries ++ [e] /\
      parse_network (list_value_ e') = Returns n' /\ is_v4 (net_address n') = v4 /\ r = network_range n' (expiry_of e'))
    as Hstep.
  { intros v4 ->. split.
    - apply Forall_app. split; [done|]. destruct (Bool.eqb _ _); [|done]. constructor; [|done].
      by apply network_range_ok, (parse_network_ok (list_value_ e)).
    - intros r. rewrite elem_of_app, F3. split.
      + intros [(e' & n' & G1 & G2)|Hr]; [exists e', n'; split; [apply elem_of_app; auto|done]|].
        destruct (Bool.eqb _ _) eqn:Eb; [|by apply elem_of_nil in Hr]. apply list_elem_of_singleton in Hr as ->.
        apply Bool.eqb_prop in Eb. exists e, n. split; [apply elem_of_app; right; by apply list_elem_of_singleton|done].
      + intros (e' & n' & [G1|G1%list_elem_of_singleton]%elem_of_app & G2 & G3 & ->); [left; eauto 10|]. subst e'.
        rewrite En in G2. simplify_eq. right. rewrite Bool.eqb_reflx. by apply list_elem_of_singleton. }
  destruct (is_v4 (net_address n)) eqn:Ev; intros [= <-]; split; try (intros v4; apply Hstep; destruct v4; cbn; by rewrite ?app_nil_r).
  1,3: (intros e' [G|G%list_elem_of_singleton]%elem_of_app; [by apply F2|subst; eauto]).
  all: cbn [fill_expiration]; rewrite F4, existsb_app; cbn [existsb]; by rewrite orb_false_r.
Qed.

Lemma throwing_fold_snoc {A S} (f : S -> A -> throwing S) s l x :
  throwing_fold f s (l ++ [x]) = throwing_bind (throwing_fold f s l) (fun s' => f s' x).
Proof.
  revert s. induction l as [|y l IH]; intros s; simpl; [by destruct (f s x)|]. destruct (f s y); simpl; auto.
Qed.

Lemma fold_filled entries f :
  throwing_fold (add_entry (lit "ip")) (mk_filling ∅ [] [] false) entries = Returns f -> filled entries f.
Proof.
  revert f. induction entries as [|e entries IH] using rev_ind; intros f.
  - intros [= <-]. split; [by intros []|by intros e []%elem_of_nil| |done].
    intros v4 r. split; [by destruct v4; intros []%elem_of_nil|]. by intros (? & ? & []%elem_of_nil & _).
  - rewrite throwing_fold_snoc. destruct (throwing_fold _ _ entries) as [f0|]; [|done]. cbn [throwing_bind].
    intros He. by apply (add_entry_filled _ f0); [apply IH|].
Qed.

(** The address as lists compare it: an IPv4-mapped one as the IPv4 address it stands for. *)
Definition normal (a : address) : address := if negb (is_v4 a) && is_v4_mapped a then unmap a else a.

(** Membership in an address list, whatever sorting, merging and tree did: an address is in
    the list exactly when it shares the prefix of one of the listed networks of its family whose
    expiry (if any) has not passed. *)
Theorem address_list_contains (entries : list request_list_value) (l : request_match_list)
    (input : bytes) (clock : Z) :
  new_match_list (lit "ip") entries = Returns l -> 0 <= clock < max_u64 ->
  list_contains l input clock = true <->
  exists a e n, make_address input = Some a /\ refused a = false /\ e ∈ entries /\
    parse_network (list_value_ e) = Returns n /\ network_matches n (normal a) = true /\
    (expires_unix_ms_ e = 0 \/ clock < expires_unix_ms_ e).
Proof.
  unfold new_match_list. destruct (throwing_fold _ _ entries) as [f|] eqn:Ef; [|done]. cbn [throwing_bind].
  intros [= <-] Hclock. apply fold_filled in Ef as [F1 F2 F3 F4]. unfold list_contains. cbn [type_ has_expiration_].
  rewrite bool_decide_eq_true_2 by done. cbn [negb ipv4_tree_ ipv6_tree_].
  destruct (make_address input) as [a|] eqn:Ea; [|naive_solver].
  destruct (refused a) eqn:Er; [naive_solver|]. fold (normal a). rewrite F4.
  set (now := if existsb _ entries then clock else 0).
  assert (forall e, e ∈ entries -> (now <? expiry_of e) = true <-> expires_unix_ms_ e = 0 \/ clock < expires_unix_ms_ e) as Hnow.
  { intros e He. unfold expiry_of, now. destruct (existsb _ entries) eqn:Ex.
    - destruct (Z.eqb_spec (expires_unix_ms_ e) 0); rewrite Z.ltb_lt; unfold max_u64 in *; lia.
    - rewrite existsb_false, Forall_forall in Ex. specialize (Ex e He). reflect_bool.
      rewrite Ex, Z.eqb_refl. split; [by left|done]. }
  set (b := is_v4 (normal a)). set (tree := if b then _ else _).
  assert (tree = tree_of (ranges_of f b)) as -> by (unfold tree; by destruct b).
  rewrite tree_of_spec by (done || apply key_key_ok). rewrite existsb_exists. setoid_rewrite <- list_elem_of_In.
  setoid_rewrite F3. split.
  - intros (r & (e & n & G1 & G2 & G3 & ->) & Hc). exists a, e, n.
    rewrite network_range_covers in Hc by (done || by eapply parse_network_ok).
    apply andb_true_iff in Hc as [Hc1 Hc2]. apply Hnow in Hc2; [|done]. done.
  - intros (a' & e & n & [= <-] & G1 & G2 & G3 & G4 & G5). exists (network_range n (expiry_of e)).
    assert (is_v4 (net_address n) = b) as Hb.
    { unfold network_matches in G4. apply andb_true_iff in G4 as [G4 _]. by apply Bool.eqb_prop. }
    split; [by exists e, n|]. rewrite network_range_covers by (done || by eapply parse_network_ok).
    rewrite G4. by apply Hnow.
Qed.
End ListSpec.

(** * Instances of the interfaces *)

Lemma array_lt_asym a b : array_lt a b = true -> array_lt b a = false.
Proof.
  revert b. induction a as [|x a IH]; intros [|y b]; simpl; try done.
  destruct (Z.ltb_spec x y), (Z.ltb_spec y x); try done; try lia. auto.
Qed.

Lemma array_le_trans a b c : array_le a b = true -> array_le b c = true -> array_le a c = true.
Proof.
  unfold array_le. revert b c. induction a as [|x a IH]; intros [|y b] [|z c]; simpl; try done.
  destruct (Z.ltb_spec y x), (Z.ltb_spec x y), (Z.ltb_spec z y), (Z.ltb_spec y z), (Z.ltb_spec z x), (Z.ltb_spec x z);
    simpl; try done; try lia. apply IH.
Qed.

#[export] Instance first_le_dec : RelDecision first_le.
Proof. intros a b. unfold first_le. apply _. Defined.
#[export] Instance first_le_total : Total first_le.
Proof.
  intros a b. unfold first_le, array_le. destruct (array_lt (first_ b) (first_ a)) eqn:E; [right|by left].
  by rewrite (array_lt_asym _ _ E).
Qed.
#[export] Instance first_le_transitive : Transitive first_le.
Proof. intros a b c. apply array_le_trans. Qed.

Definition merge_sort_ranges : SortRanges := merge_sort first_le.
Definition merge_sort_laws : @SortRangesLaws merge_sort_ranges.
Proof. split; intros l; [apply merge_sort_Permutation|apply (StronglySorted_merge_sort first_le)]. Defined.

(** Dotted quads: four numbers below 256. *)
Definition quad_bytes (input : bytes) : list Z :=
  map (fun part => match from_chars 255 part with Some (v, []) => v | _ => 256 end) (split_on "."%char input).

Definition dotted_quads : Asio := {|
  address := Z * Z * Z * Z;
  make_address input :=
    match quad_bytes input with
    | [a; b; c; d] => if forallb (fun z => z <? 256) [a; b; c; d] then Some (a, b, c, d) else None
    | _ => None
    end;
  is_v4 _ := true;
  address_bytes q := let '(a, b, c, d) := q in map (fun z => z mod 256) [a; b; c; d];
  scope_id _ := 0;
  is_v4_mapped _ := false;
  unmap a := a
|}.
Definition dotted_quads_laws : @AsioLaws dotted_quads.
Proof.
  split; try done; intros [[[a b] c] d]; [done|]. apply Forall_map, Forall_forall. intros z _.
  by apply Z.mod_pos_bound.
Defined.

Lemma address_list_contains_witness :
  exists l, @new_match_list dotted_quads merge_sort_ranges (lit "ip")
      [mk_value (lit "10.1.0.0/16") 0; mk_value (lit "10.1.2.0/24") 5000; mk_value (lit "192.0.2.7") 900] = Returns l /\
    @list_contains dotted_quads l (lit "10.1.200.3") 7000 = true /\
    @list_contains dotted_quads l (lit "192.0.2.7") 1000 = false.
Proof.
  eexists. split; [by vm_compute|]. split; [|by vm_compute].
  apply (@address_list_contains dotted_quads dotted_quads_laws merge_sort_ranges merge_sort_laws
    [mk_value (lit "10.1.0.0/16") 0; mk_value (lit "10.1.2.0/24") 5000; mk_value (lit "192.0.2.7") 900]);
    [by vm_compute|by vm_compute|].
  exists (10, 1, 200, 3), (mk_value (lit "10.1.0.0/16") 0), (@mk_network dotted_quads (10, 1, 0, 0) 16 32).
  split; [by vm_compute|]. split; [by vm_compute|]. split; [apply list_elem_of_here|].
  split; [by vm_compute|]. split; [by vm_compute|by left].
Defined.
