(* ===== verification/ExpressionProgram.v ===== *)
(** Compiled rule expressions: src/node/data/request_expression.h.

    Compilation resolves security lists and builds regular expressions; evaluation runs the program
    on a stack of at most 256 booleans. An access the source would make outside the stack, of the
    first value of an empty list, or through a null pattern is [None] here. *)
From S2P Require Import Prelude RoutePolicy RouteMatch RequestExpression MatchList.
Open Scope Z_scope.

(** The other RE2 operations: construction with [dot_nl] and a case option, and a full match. *)
Class Re2Rules `{Re2} := {
  re2_rule_new : bool -> bytes -> option re2;
  re2_full_match : re2 -> bytes -> bool
}.

Record rule_match_request := mk_request {
  target_ : bytes;
  method_ : bytes;
  host_ : bytes;
  secure_ : bool;
  headers_ : list (bytes * bytes);
  client_ip_ : bytes;
  country_ : bytes;
  asn_ : bytes
}.

Section Program.
Context `{Re2Rules} `{Asio} `{SortRanges}.

Record compiled_instruction := mk_compiled {
  source_ : expression_instruction;
  pattern_ : option re2;
  compiled_list_ : option request_match_list
}.

(** The pattern of a wildcard: a star matches anything, other special characters are escaped. *)
Definition special_chars : bytes := lit "\.^$|()[]{}*+?".
Fixpoint wildcard_pattern (escaped : bool) (value : bytes) : bytes :=
  match value with
  | [] => []
  | byte :: value =>
      if negb escaped && (byte == backslash) then wildcard_pattern true value
      else if negb escaped && (byte == "*"%char) then lit ".*" ++ wildcard_pattern false value
      else (if mem_char byte special_chars then [backslash] else []) ++ byte :: wildcard_pattern false value
  end.

Definition list_fits (field type : bytes) : bool :=
  ((field == lit "ip.src") && (type == lit "ip")) ||
  ((field == lit "ip.src.asnum") && (type == lit "asn")) ||
  ((field == lit "ip.src.country") && (type == lit "country")) ||
  ((field == lit "http.user_agent") && (type == lit "user_agent")).

Definition compile_list (condition : expression_instruction) (lists : gmap bytes request_match_list) :
    throwing (option request_match_list) :=
  if negb (empty (list_ condition)) then
    match lists !! list_ condition with
    | None => Throws (lit "security list does not exist")
    | Some found =>
        if list_fits (field_ condition) (type_ found) then Returns (Some found)
        else Throws (lit "security list type does not match field")
    end
  else if field_ condition == lit "ip.src" then
    if (comparison_ condition != lit "eq") && (comparison_ condition != lit "ne") && (comparison_ condition != lit "in")
    then Throws (lit "unsupported IP comparison")
    else throwing_bind (new_match_list (lit "ip") (permanent_values (values_ condition))) (fun l => Returns (Some l))
  else Returns None.

Definition compile_regex (condition : expression_instruction) : throwing (option re2) :=
  let comparison := comparison_ condition in
  if (comparison == lit "matches") || ends_with comparison (lit "wildcard") then
    let front := hd [] (values_ condition) in
    let pattern := if comparison == lit "matches" then front else wildcard_pattern false front in
    match re2_rule_new (comparison != lit "wildcard") pattern with
    | None => Throws (lit "匹配表达式正则编译失败")
    | Some p => Returns (Some p)
    end
  else Returns None.

(** One turn of the constructor's loop. *)
Definition compile_step (lists : gmap bytes request_match_list) (program : list compiled_instruction)
    (condition : expression_instruction) : throwing (list compiled_instruction) :=
  throwing_bind (compile_list condition lists) (fun l =>
    throwing_bind (compile_regex condition) (fun p =>
      Returns (program ++ [mk_compiled condition p l]))).

(** [parse_spec] excludes the last case. *)
Definition new_program (expression : bytes) (context : expression_context)
    (lists : gmap bytes request_match_list) : throwing (list compiled_instruction) :=
  match parse context expression with
  | Ok source _ => throwing_fold (compile_step lists) [] source
  | Fail message => Throws message
  | NoFuel => Throws []
  end.

(** * Evaluation *)

Fixpoint first_header (headers : list (bytes * bytes)) (name : bytes) : option bytes :=
  match headers with
  | [] => None
  | (n, v) :: headers => if ascii_equal n name then Some v else first_header headers name
  end.

Definition extension_of (path : bytes) : bytes :=
  match rfind_char "."%char path with
  | None => []
  | Some dot =>
      match rfind_char "/"%char path with
      | Some slash => if (dot <? slash)%nat then [] else drop (S dot) path
      | None => drop (S dot) path
      end
  end.

Definition value_or (o : option bytes) (d : bytes) : bytes := match o with Some v => v | None => d end.

Definition field_value (condition : expression_instruction) (request : rule_match_request) : option bytes :=
  let field := field_ condition in
  let question := find_char "?"%char (target_ request) in
  let path := upto question (target_ request) in
  if field == lit "ip.src" then Some (client_ip_ request)
  else if field == lit "ip.src.country" then Some (country_ request)
  else if field == lit "ip.src.asnum" then Some (asn_ request)
  else if field == lit "http.host" then Some (host_ request)
  else if field == lit "http.request.method" then Some (method_ request)
  else if (field == lit "http.request.uri.path") || (field == lit "raw.http.request.uri.path") then Some path
  else if (field == lit "http.request.uri.query") || (field == lit "raw.http.request.uri.query") then
    Some (after question (target_ request))
  else if field == lit "http.request.uri.path.extension" then Some (extension_of path)
  else if field == lit "http.cookie" then Some (value_or (first_header (headers_ request) (lit "Cookie")) [])
  else if field == lit "http.user_agent" then Some (value_or (first_header (headers_ request) (lit "User-Agent")) [])
  else if field == lit "http.referer" then Some (value_or (first_header (headers_ request) (lit "Referer")) [])
  else if field == lit "http.request.headers" then first_header (headers_ request) (header_ condition)
  else if field == lit "http.request.full_uri" then
    Some ((if secure_ request then lit "https://" else lit "http://") ++
          value_or (first_header (headers_ request) (lit "Host")) (host_ request) ++ target_ request)
  else None.

(** [clock] is the wall clock the lists read. *)
Definition compare_value (instruction : compiled_instruction) (value : bytes) (clock : Z) : option bool :=
  let condition := source_ instruction in
  let op := comparison_ condition in
  match compiled_list_ instruction with
  | Some l =>
      let matched := list_contains l value clock in
      Some (if op == lit "ne" then negb matched else matched)
  | None =>
      if op == lit "in" then Some (contains (values_ condition) value)
      else match values_ condition with
      | [] => None
      | expected :: _ =>
          if op == lit "eq" then Some (value == expected)
          else if op == lit "ne" then Some (value != expected)
          else if op == lit "contains" then Some (present (find_sub expected value))
          else if op == lit "starts_with" then Some (starts_with value expected)
          else if op == lit "ends_with" then Some (ends_with value expected)
          else match pattern_ instruction with
          | None => None
          | Some p => Some (if op == lit "matches" then re2_partial_match p value else re2_full_match p value)
          end
      end
  end.

Definition compare_instruction (instruction : compiled_instruction) (request : rule_match_request)
    (clock : Z) : option bool :=
  let condition := source_ instruction in
  match field_value condition request with
  | None => Some false
  | Some value =>
      let value := if lower_ condition then map lower_ascii value else value in
      compare_value instruction value clock
  end.

Definition push (b : bool) (stack : list bool) : option (list bool) :=
  if (length stack <? 256)%nat then Some (b :: stack) else None.

(** One instruction; the stack is the used part of the array, its top first. *)
Definition evaluate (request : rule_match_request) (clock : Z) (stack : list bool)
    (instruction : compiled_instruction) : option (list bool) :=
  match op_ (source_ instruction) with
  | constant => push (negb (empty (values_ (source_ instruction)))) stack
  | compare =>
      match compare_instruction instruction request clock with None => None | Some b => push b stack end
  | logical_not => match stack with b :: stack => Some (negb b :: stack) | [] => None end
  | logical_and => match stack with b :: a :: stack => Some ((a && b) :: stack) | _ => None end
  | logical_xor => match stack with b :: a :: stack => Some (xorb a b :: stack) | _ => None end
  | logical_or => match stack with b :: a :: stack => Some ((a || b) :: stack) | _ => None end
  end.

Fixpoint evaluate_all (request : rule_match_request) (clock : Z) (program : list compiled_instruction)
    (stack : list bool) : option (list bool) :=
  match program with
  | [] => Some stack
  | i :: program =>
      match evaluate request clock stack i with
      | None => None
      | Some stack => evaluate_all request clock program stack
      end
  end.

Definition matches (program : list compiled_instruction) (request : rule_match_request) (clock : Z) : option bool :=
  match evaluate_all request clock program [] with
  | None => None
  | Some [b] => Some b
  | Some _ => Some false
  end.

(** * Safety *)

(** What compilation establishes of an instruction: its operands are there when it is evaluated. *)
Definition compiled_ok (i : compiled_instruction) : Prop :=
  op_ (source_ i) = compare -> forall value clock, is_Some (compare_value i value clock).

Lemma regex_present condition p :
  compile_regex condition = Returns p -> In (comparison_ condition) known_comparisons ->
  ~ In (comparison_ condition) (map lit ["starts_with"; "ends_with"; "eq"; "ne"; "contains"; "in"]%string) ->
  is_Some p.
Proof.
  unfold compile_regex. generalize (comparison_ condition). intros c Hp Hin Hout.
  assert ((c == lit "matches") || ends_with c (lit "wildcard") = true) as Hc.
  { clear Hp. simpl in Hin, Hout. destruct Hin as [<-|[<-|[<-|[<-|[<-|[<-|[<-|[<-|[<-|[]]]]]]]]]];
      try (by vm_compute); exfalso; apply Hout; tauto. }
  rewrite Hc in Hp. destruct (re2_rule_new _ _); [|done]. simplify_eq. eauto.
Qed.

Lemma compile_step_ok lists program condition program' :
  instruction_ok condition -> Forall compiled_ok program ->
  compile_step lists program condition = Returns program' ->
  Forall compiled_ok program' /\ map source_ program' = map source_ program ++ [condition].
Proof.
  intros Hok Hp. unfold compile_step.
  destruct (compile_list condition lists) as [l|]; [|done]. cbn [throwing_bind].
  destruct (compile_regex condition) as [p|] eqn:Ep; [|done]. cbn [throwing_bind]. intros [= <-].
  split; [|by rewrite map_app]. apply Forall_app. split; [done|]. constructor; [|done].
  intros Hop value clock. cbn [source_] in Hop. destruct (instruction_compare _ Hok Hop) as [Hin Hv].
  unfold compare_value. cbn [compiled_list_ source_ pattern_].
  destruct l as [l|]; [eauto|]. destruct (comparison_ condition == lit "in") eqn:E0; [eauto|]. reflect_bool.
  destruct (Hv E0) as [Hne _]. destruct (values_ condition) as [|v vs]; [done|].
  repeat (match goal with |- is_Some (if ?b then _ else _) => destruct b eqn:?; [by eauto|] end). reflect_bool.
  destruct (regex_present condition p Ep Hin) as [q ->]; [|eauto].
  cbn [map In]. intros Hc. repeat (destruct Hc as [Hc|Hc]; [congruence|]). done.
Qed.

Lemma compile_all_ok lists conditions program program' :
  Forall instruction_ok conditions -> Forall compiled_ok program ->
  throwing_fold (compile_step lists) program conditions = Returns program' ->
  Forall compiled_ok program' /\ map source_ program' = map source_ program ++ conditions.
Proof.
  intros Hc. revert program. induction Hc as [|c cs Hc Hcs IH]; intros program Hp; simpl.
  - intros [= <-]. by rewrite app_nil_r.
  - destruct (compile_step lists program c) as [p1|] eqn:E; [|done]. cbn [throwing_bind].
    apply compile_step_ok in E as [Hp1 E1]; [|done|done]. intros Hall%IH; [|done]. destruct Hall as [G1 G2].
    split; [done|]. by rewrite G2, E1, <- app_assoc.
Qed.

Lemma compare_instruction_ok i request clock :
  compiled_ok i -> op_ (source_ i) = compare -> is_Some (compare_instruction i request clock).
Proof.
  intros Hi Hop. unfold compare_instruction. destruct (field_value _ _); [by apply Hi|eauto].
Qed.

(** The sizes that [run_size] predicts are the sizes of the stack, and stay within it. *)
Lemma evaluate_all_size request clock program stack n m :
  Forall compiled_ok program -> length stack = n -> (n + length program <= 256)%nat ->
  run_size n (map source_ program) = Some m ->
  exists stack', evaluate_all request clock program stack = Some stack' /\ length stack' = m.
Proof.
  intros Hok. revert stack n. induction Hok as [|i program Hi Hok IH]; intros stack n Hn Hb Hr; simpl in *.
  - simplify_eq. eauto.
  - assert (forall b, push b stack = Some (b :: stack)) as Hpush
      by (intros b; unfold push; by rewrite (proj2 (Nat.ltb_lt _ _)) by lia).
    unfold evaluate. destruct (op_ (source_ i)) eqn:Eop.
    + destruct (compare_instruction_ok i request clock Hi Eop) as [b ->]. rewrite Hpush.
      apply (IH _ (S n)); simpl; (done || lia).
    + destruct stack as [|b stack]; simpl in *; subst; [done|]. simpl in Hr. apply (IH _ (S (length stack))); simpl; (done || lia).
    + destruct stack as [|b [|a stack]]; simpl in *; subst; [done|done|]. simpl in Hr. apply (IH _ (S (length stack))); simpl; (done || lia).
    + destruct stack as [|b [|a stack]]; simpl in *; subst; [done|done|]. simpl in Hr. apply (IH _ (S (length stack))); simpl; (done || lia).
    + destruct stack as [|b [|a stack]]; simpl in *; subst; [done|done|]. simpl in Hr. apply (IH _ (S (length stack))); simpl; (done || lia).
    + rewrite Hpush. apply (IH _ (S n)); simpl; (done || lia).
Qed.

(** A compiled program ends with one result. *)
Lemma program_runs expression context lists program request clock :
  new_program expression context lists = Returns program ->
  exists b, evaluate_all request clock program [] = Some [b] /\ matches program request clock = Some b.
Proof.
  unfold new_program. pose proof (parse_spec context expression) as Hparse.
  destruct (parse context expression) as [source s|m|]; [|done|done]. destruct Hparse as (Hl & Hr & Hok).
  intros Hp. apply compile_all_ok in Hp as [G1 G2]; [|done|done]. simpl in G2.
  destruct (evaluate_all_size request clock program [] 0 1) as (stack & He & Hs); [done|done| |by rewrite G2|].
  - rewrite <- G2, length_map in Hl. lia.
  - destruct stack as [|b [|? ?]]; [done| |done]. exists b. unfold matches. by rewrite He.
Qed.

(** Whatever expression compiles, its evaluation on any request stays within the 256 slots of
    the stack, never pops an empty stack, never reads a missing value or pattern, and leaves
    exactly one result. *)
Theorem matches_defined expression context lists program request clock :
  new_program expression context lists = Returns program ->
  exists b, evaluate_all request clock program [] = Some [b] /\ matches program request clock = Some b.
Proof. apply program_runs. Qed.

(** * Meaning of written expressions *)

(** The boolean an expression denotes on a request. *)
Fixpoint holds (request : rule_match_request) (e : expr) : bool :=
  match e with
  | EConst b => b
  | ECompare f v =>
      match field_value (mk_instruction compare f [] (lit "eq") [v] false []) request with
      | Some value => value == v
      | None => false
      end
  | ENot e => negb (holds request e)
  | EBin CAnd a b => holds request a && holds request b
  | EBin CXor a b => xorb (holds request a) (holds request b)
  | EBin COr a b => holds request a || holds request b
  end.

Definition compiled_plain (i : expression_instruction) : compiled_instruction := mk_compiled i None None.

Lemma not_ip_field f : In f fields -> (f == lit "ip.src") = false.
Proof.
  intros Hf. unfold fields in Hf. simpl in Hf.
  repeat (destruct Hf as [<-|Hf]; [by vm_compute|]). done.
Qed.

Definition plain_condition (condition : expression_instruction) : Prop :=
  list_ condition = [] /\ (field_ condition == lit "ip.src") = false /\
  (comparison_ condition = [] \/ comparison_ condition = lit "eq").

Lemma postfix_plain e : expr_ok e -> Forall plain_condition (postfix e).
Proof.
  induction e as [b|f v|e IH|c a IHa b IHb]; cbn [expr_ok postfix]; intros He.
  - repeat constructor; auto.
  - destruct He as [Hf _]. constructor; [|done]. split; [done|]. split; [exact (not_ip_field f Hf)|by right].
  - apply Forall_app. split; [auto|]. repeat constructor; auto.
  - destruct He. repeat (apply Forall_app; split; auto). repeat constructor; auto.
Qed.

Lemma compile_plain lists program conditions : Forall plain_condition conditions ->
  throwing_fold (compile_step lists) program conditions = Returns (program ++ map compiled_plain conditions).
Proof.
  intros Hc. revert program. induction Hc as [|c cs (Hl & Hf & Hcmp) Hcs IH]; intros program; cbn [throwing_fold map].
  - by rewrite app_nil_r.
  - assert (compile_list c lists = Returns None) as E1 by (unfold compile_list; by rewrite Hl, Hf).
    assert (compile_regex c = Returns None) as E2 by (unfold compile_regex; by destruct Hcmp as [->| ->]).
    unfold compile_step. rewrite E1, E2. cbn [throwing_bind]. by rewrite IH, <- app_assoc.
Qed.

Lemma evaluate_postfix request clock e program stack :
  expr_ok e -> (length stack + length (postfix e) <= 256)%nat ->
  evaluate_all request clock (map compiled_plain (postfix e) ++ program) stack =
  evaluate_all request clock program (holds request e :: stack).
Proof.
  revert program stack. induction e as [b|f v|e IH|c a IHa b IHb]; intros program stack He Hl; cbn [expr_ok postfix] in *;
    rewrite ?length_app in Hl; simpl length in Hl.
  - cbn [map app evaluate_all]. unfold evaluate. cbn [op_ source_ compiled_plain plain]. unfold push.
    rewrite (proj2 (Nat.ltb_lt _ _)) by lia. by destruct b.
  - cbn [map app evaluate_all]. unfold evaluate. cbn [op_ source_ compiled_plain]. unfold compare_instruction.
    cbn [source_ compiled_plain]. cbn [holds]. set (fv := field_value _ _).
    assert (forall b, push b stack = Some (b :: stack)) as Hpush
      by (intros b; unfold push; by rewrite (proj2 (Nat.ltb_lt _ _)) by lia).
    destruct fv as [value|]; [|by rewrite Hpush]. cbn [lower_].
    change (compare_value _ value clock) with (Some (value == v)). cbv iota. by rewrite Hpush.
  - rewrite map_app, <- app_assoc, IH by (done || lia). done.
  - destruct He as [Ha Hb]. rewrite !map_app, <- !app_assoc, IHa by (done || lia).
    rewrite IHb by (done || (simpl; lia)). by destruct c.
Qed.

End Program.

(** * Witnesses *)

Definition text_rules : @Re2Rules text_engine := {|
  re2_rule_new _ p := Some p : option (@re2 text_engine);
  re2_full_match (p : @re2 text_engine) s := p == s
|}.

Definition example_request : rule_match_request :=
  mk_request (lit "/a/b.png?x=1") (lit "GET") (lit "example.com") true [(lit "User-Agent", lit "curl")] (lit "10.1.200.3") (lit "FR") (lit "64500").

Definition text_program (e : bytes) : throwing (list (@compiled_instruction text_engine)) :=
  @new_program text_engine text_rules dotted_quads merge_sort_ranges e security ∅.

Definition quoted (v : string) : bytes := quote (lit v).

Definition example_expression : bytes :=
  lit "ip.src in {10.1.0.0/16} && not (http.user_agent contains " ++ quoted "bot" ++ lit ")".

Lemma matches_defined_witness :
  match text_program example_expression with
  | Returns program =>
      exists b, @matches text_engine text_rules dotted_quads program example_request 0 = Some b
  | Throws _ => False
  end.
Proof.
  destruct (text_program example_expression) as [program|m] eqn:E; [|vm_compute in E; discriminate].
  destruct (@matches_defined text_engine text_rules dotted_quads merge_sort_ranges example_expression security ∅
    program example_request 0 E) as (b & _ & Hb). by exists b.
Defined.

Definition example_expr : expr :=
  EBin CAnd (ENot (EConst false)) (EBin COr (ECompare (lit "http.host") (lit "a")) (ECompare (lit "http.request.uri.path.extension") (lit "png"))).

