(* ===== verification/CacheSettings.v ===== *)
(** Advanced cache settings: src/common/cache_settings.h and src/common/cache_settings_proto.h.

    The settings of a rule, their validation with its messages, and their wire form. *)
From S2P Require Import Prelude RoutePolicy.
Open Scope Z_scope.

Record status_ttl := mk_status_ttl { from_ : Z; to_ : Z; seconds_ : Z }.
Record header_key := mk_header_key { header_name_ : bytes; header_values : list bytes }.
Record cache_key := mk_cache_key {
  query_mode_ : bytes;
  query_parameters_ : list bytes;
  headers_ : list bytes;
  header_presence_ : list bytes;
  header_values_ : list header_key;
  cookies_ : list bytes;
  cookie_presence_ : list bytes;
  include_origin_ : bool;
  host_ : bytes;
  country_ : bool;
  language_ : bool
}.
Record vary_header := mk_vary_header { vary_name_ : bytes; action_ : bytes; vary_values_ : list bytes }.
Record rule_settings := mk_rule_settings {
  enabled_ : list bytes;
  status_ttl_ : list status_ttl;
  key_ : cache_key;
  armor_ : bool;
  device_ : bool;
  sort_query_ : bool;
  serve_stale_ : bool;
  strong_etags_ : bool;
  origin_control_ : bool;
  vary_default_ : bytes;
  vary_headers_ : list vary_header;
  origin_range_ : bytes;
  ports_ : list Z;
  read_timeout_ : Z;
  error_passthrough_ : bool
}.

(** The member initializers. *)
Definition default_cache_key : cache_key :=
  mk_cache_key (lit "all") [] [] [] [] [] [] true (lit "original") false false.
Definition default_settings : rule_settings :=
  mk_rule_settings [] [] default_cache_key false false false true false true (lit "bypass") []
    (lit "default") [] 120 false.

Definition listed (l : list bytes) (x : bytes) : bool := existsb (fun y => y == x) l.
Definition has_setting (settings : rule_settings) (name : bytes) : bool := listed (enabled_ settings) name.

(** * Validation *)

(** The first error of a sequence of checks; no error is the empty text. *)
Definition or_else (error next : bytes) : bytes := if empty error then next else error.
Infix "<||>" := or_else (at level 60, right associativity).
Definition check (bad : bool) (error : string) : bytes := if bad then lit error else [].
(** The first error of a loop whose body also sees the elements before the current one. *)
Fixpoint loop_errors {A} (body : list A -> A -> bytes) (before l : list A) : bytes :=
  match l with
  | [] => []
  | x :: l' => body before x <||> loop_errors body (before ++ [x]) l'
  end.

Definition setting_names : list bytes :=
  map lit ["edge"; "status"; "browser"; "key"; "armor"; "device"; "sort"; "stale"; "etag"; "origin"; "vary"; "range"; "ports"; "timeout"; "errors"]%string.
Definition restricted_headers : list bytes :=
  map lit ["accept"; "accept-charset"; "accept-encoding"; "accept-datetime"; "accept-language"; "referer"; "user-agent"]%string.
Definition forbidden_vary : list bytes :=
  map lit ["connection"; "host"; "cache-control"; "transfer-encoding"; "keep-alive"; "proxy-authenticate"; "proxy-authorization"; "te"; "trailer"; "upgrade"; "cdn-cache-control"; "surrogate-control"]%string.

Definition one_of (x : bytes) (names : list string) : bool := existsb (fun n => lit n == x) names.

Definition overlaps (a b : status_ttl) : bool := (from_ a <=? to_ b) && (from_ b <=? to_ a).
Definition status_errors (before : list status_ttl) (status : status_ttl) : bytes :=
  check ((from_ status <? 100) || (999 <? to_ status) || (to_ status <? from_ status) ||
         (seconds_ status <? -1) || (31536000 <? seconds_ status)) "状态码缓存范围或时间不正确" <||>
  check (existsb (overlaps status) before) "状态码缓存范围不能重叠".

(** One of the five lists of names; only query parameters need not be header or cookie tokens. *)
Definition key_field_errors (tokens : bool) (fields : list bytes) : bytes :=
  check (100 <? size fields) "缓存键字段过多" <||>
  loop_errors (fun before name =>
    check (empty name || negb (clean_text name 128) || listed before name || (tokens && negb (http_token name 256)))
      "缓存键字段名称不正确或重复") [] fields.

Definition header_value_errors (before : list header_key) (field : header_key) : bytes :=
  check (negb (http_token (header_name_ field) 256) || listed (map header_name_ before) (header_name_ field) ||
         empty (header_values field) || (3 <? size (header_values field)) ||
         negb (forallb (fun text => negb (empty text) && clean_text text 1024) (header_values field)))
    "缓存键请求头值配置不正确".

Definition vary_name_char (c : ascii) : bool := is_lower c || is_digit c || (c == "_"%char) || (c == "-"%char).
Definition printable (c : ascii) : bool := (32 <=? code c) && (code c <=? 126).
Definition vary_errors (before : list vary_header) (header : vary_header) : bytes :=
  let name := vary_name_ header in
  check (negb (http_token name 256) || (128 <? size name) || negb (forallb vary_name_char name) ||
         starts_with name (lit "cf-") || starts_with name (lit "cf_") || listed forbidden_vary name ||
         listed (map vary_name_ before) name || negb (one_of (action_ header) ["normalize"; "passthrough"; "bypass"]%string) ||
         ((if name == lit "accept" then 10 else 20) <? size (vary_values_ header))) "Vary字段或处理方式不正确" <||>
  loop_errors (fun _ item =>
    check (empty item || (128 <? size item) || negb (forallb printable item)) "Vary标准化允许值不正确") [] (vary_values_ header).

Definition key_errors (key : cache_key) : bytes :=
  check (negb (one_of (query_mode_ key) ["all"; "ignore"; "include"; "exclude"]%string) ||
         negb (one_of (host_ key) ["original"; "resolved"]%string) || (100 <? size (query_parameters_ key)) ||
         (one_of (query_mode_ key) ["include"; "exclude"]%string && empty (query_parameters_ key))) "自定义缓存键配置不正确" <||>
  key_field_errors false (query_parameters_ key) <||> key_field_errors true (headers_ key) <||>
  key_field_errors true (header_presence_ key) <||> key_field_errors true (cookies_ key) <||>
  key_field_errors true (cookie_presence_ key) <||>
  check (50 <? size (header_values_ key)) "缓存键请求头条件过多" <||>
  check (existsb (fun name => existsb (ascii_equal name) restricted_headers) (headers_ key))
    "此请求头必须使用1至3个指定值区分缓存" <||>
  loop_errors header_value_errors [] (header_values_ key).

Definition validate_settings (value : rule_settings) : bytes :=
  loop_errors (fun before name => check (negb (listed setting_names name) || listed before name) "缓存配置项不正确或重复") [] (enabled_ value) <||>
  check ((32 <? size (status_ttl_ value)) || (read_timeout_ value <? 1) || (6000 <? read_timeout_ value) ||
         negb (one_of (origin_range_ value) ["default"; "on"; "off"]%string) ||
         negb (one_of (vary_default_ value) ["bypass"; "passthrough"; "normalize"]%string) ||
         (50 <? size (vary_headers_ value)) || (64 <? size (ports_ value))) "缓存高级设置不正确" <||>
  loop_errors status_errors [] (status_ttl_ value) <||>
  check (existsb (fun port => (port <? 1) || (65535 <? port)) (ports_ value)) "缓存端口必须在1至65535之间" <||>
  key_errors (key_ value) <||>
  loop_errors vary_errors [] (vary_headers_ value).

(** * Wire form

    The messages of the generated protocol code, with their fields as the source reads and writes
    them; every number is a 64-bit integer there. *)
Record proto_status_ttl := mk_proto_status_ttl { pb_from : Z; pb_to : Z; pb_seconds : Z }.
Record proto_header_key := mk_proto_header_key { pb_header_name : bytes; pb_header_value_list : list bytes }.
Record proto_cache_key := mk_proto_cache_key {
  pb_query_mode : bytes; pb_query_parameters : list bytes; pb_headers : list bytes;
  pb_header_presence : list bytes; pb_header_values : list proto_header_key; pb_cookies : list bytes;
  pb_cookie_presence : list bytes; pb_include_origin : bool; pb_host : bytes; pb_country : bool; pb_language : bool
}.
Record proto_vary_header := mk_proto_vary_header { pb_vary_name : bytes; pb_action : bytes; pb_vary_values : list bytes }.
Record proto_rule_settings := mk_proto_rule_settings {
  pb_enabled : list bytes; pb_status_ttl : list proto_status_ttl; pb_key : proto_cache_key; pb_armor : bool;
  pb_device : bool; pb_sort_query : bool; pb_serve_stale : bool; pb_strong_etags : bool;
  pb_origin_control : bool; pb_vary_default : bytes; pb_vary_headers : list proto_vary_header;
  pb_origin_range : bytes; pb_ports : list Z; pb_read_timeout : Z; pb_error_passthrough : bool
}.

Definition status_ttl_to_proto (input : status_ttl) : proto_status_ttl :=
  mk_proto_status_ttl (from_ input) (to_ input) (seconds_ input).
Definition status_ttl_from_proto (input : proto_status_ttl) : status_ttl :=
  mk_status_ttl (pb_from input) (pb_to input) (pb_seconds input).
Definition header_key_to_proto (input : header_key) : proto_header_key :=
  mk_proto_header_key (header_name_ input) (header_values input).
Definition header_key_from_proto (input : proto_header_key) : header_key :=
  mk_header_key (pb_header_name input) (pb_header_value_list input).
Definition cache_key_to_proto (input : cache_key) : proto_cache_key :=
  mk_proto_cache_key (query_mode_ input) (query_parameters_ input) (headers_ input) (header_presence_ input)
    (map header_key_to_proto (header_values_ input)) (cookies_ input) (cookie_presence_ input)
    (include_origin_ input) (host_ input) (country_ input) (language_ input).
Definition cache_key_from_proto (input : proto_cache_key) : cache_key :=
  mk_cache_key (pb_query_mode input) (pb_query_parameters input) (pb_headers input) (pb_header_presence input)
    (map header_key_from_proto (pb_header_values input)) (pb_cookies input) (pb_cookie_presence input)
    (pb_include_origin input) (pb_host input) (pb_country input) (pb_language input).
Definition vary_header_to_proto (input : vary_header) : proto_vary_header :=
  mk_proto_vary_header (vary_name_ input) (action_ input) (vary_values_ input).
Definition vary_header_from_proto (input : proto_vary_header) : vary_header :=
  mk_vary_header (pb_vary_name input) (pb_action input) (pb_vary_values input).
Definition settings_to_proto (input : rule_settings) : proto_rule_settings :=
  mk_proto_rule_settings (enabled_ input) (map status_ttl_to_proto (status_ttl_ input))
    (cache_key_to_proto (key_ input)) (armor_ input) (device_ input) (sort_query_ input) (serve_stale_ input)
    (strong_etags_ input) (origin_control_ input) (vary_default_ input)
    (map vary_header_to_proto (vary_headers_ input)) (origin_range_ input) (ports_ input)
    (read_timeout_ input) (error_passthrough_ input).
Definition rule_settings_from_proto (input : proto_rule_settings) : rule_settings :=
  mk_rule_settings (pb_enabled input) (map status_ttl_from_proto (pb_status_ttl input))
    (cache_key_from_proto (pb_key input)) (pb_armor input) (pb_device input) (pb_sort_query input)
    (pb_serve_stale input) (pb_strong_etags input) (pb_origin_control input) (pb_vary_default input)
    (map vary_header_from_proto (pb_vary_headers input)) (pb_origin_range input) (pb_ports input)
    (pb_read_timeout input) (pb_error_passthrough input).

(** * Properties of the settings *)

Lemma or_else_nil a b : a <||> b = [] <-> a = [] /\ b = [].
Proof. unfold or_else. destruct a; simpl; naive_solver. Qed.

Lemma check_nil bad error : error <> ""%string -> check bad error = [] <-> bad = false.
Proof. intros He. unfold check. destruct bad; [|done]. by destruct error. Qed.

Lemma loop_errors_nil {A} (body : list A -> A -> bytes) before l :
  loop_errors body before l = [] <-> forall pre x post, l = pre ++ x :: post -> body (before ++ pre) x = [].
Proof.
  revert before. induction l as [|y l IH]; intros before; simpl.
  - split; [intros _ [|? ?] x post; done|done].
  - rewrite or_else_nil, IH. split.
    + intros [H1 H2] [|z pre] x post; simpl; intros [= -> ->]; [by rewrite app_nil_r|].
      specialize (H2 pre x post eq_refl). by rewrite <- app_assoc in H2.
    + intros H. split; [by rewrite <- (app_nil_r before); apply (H [] y l)|].
      intros pre x post ->. rewrite <- app_assoc. exact (H (y :: pre) x post eq_refl).
Qed.

Lemma listed_spec l x : listed l x = true <-> x ∈ l.
Proof.
  unfold listed. rewrite existsb_exists. setoid_rewrite bool_decide_eq_true. rewrite list_elem_of_In. naive_solver.
Qed.

Lemma listed_false l x : listed l x = false <-> x ∉ l.
Proof. rewrite <- listed_spec. by destruct (listed l x). Qed.

(** A loop that refuses an element seen before accepts only lists without duplicates. *)
Lemma NoDup_before {A B} (f : A -> B) (l : list A) :
  (forall pre x post, l = pre ++ x :: post -> f x ∉ map f pre) <-> NoDup (map f l).
Proof.
  induction l as [|x l IH] using rev_ind.
  { split; [constructor|]. intros _ [|? ?]; done. }
  rewrite map_app, NoDup_app. simpl. split.
  - intros H. split_and!; [|by intros y Hy Hx%list_elem_of_singleton; subst y; apply (H l x [])|apply NoDup_singleton].
    apply IH. intros pre y post ->. apply (H pre y (post ++ [x])). by rewrite <- app_assoc.
  - intros (Hl & Hx & _) pre y post E. destruct post as [|z post _] using rev_ind.
    + apply app_inj_tail in E as [-> ->]. intros Hin. apply (Hx _ Hin), list_elem_of_here.
    + rewrite app_comm_cons, app_assoc in E. apply app_inj_tail in E as [-> ->]. by apply (proj2 IH Hl _ _ post).
Qed.

Lemma status_ttl_roundtrip v : status_ttl_from_proto (status_ttl_to_proto v) = v.
Proof. by destruct v. Qed.
Lemma header_key_roundtrip v : header_key_from_proto (header_key_to_proto v) = v.
Proof. by destruct v. Qed.
Lemma vary_header_roundtrip v : vary_header_from_proto (vary_header_to_proto v) = v.
Proof. by destruct v. Qed.

Lemma map_roundtrip {A B} (f : A -> B) (g : B -> A) l : (forall x, g (f x) = x) -> map g (map f l) = l.
Proof. intros H. rewrite map_map. induction l; simpl; [done|]. by rewrite H, IHl. Qed.

Lemma settings_roundtrip v : rule_settings_from_proto (settings_to_proto v) = v.
Proof.
  destruct v as [en st k ar de so ss se oc vd vh ora po rt ep]. unfold rule_settings_from_proto, settings_to_proto. cbn.
  rewrite (map_roundtrip _ _ _ status_ttl_roundtrip), (map_roundtrip _ _ _ vary_header_roundtrip).
  destruct k. unfold cache_key_from_proto, cache_key_to_proto. cbn. by rewrite (map_roundtrip _ _ _ header_key_roundtrip).
Qed.
