(* ===== verification/CachePolicy.v ===== *)
(** Cache policies: src/common/cache_policy.h and src/common/cache_defaults.h.

    Rules and policies, how a later matching rule overrides an earlier one, the bounds that the
    management plane and the node both enforce, the wire form, and the default static rules. *)
From S2P Require Import Prelude RoutePolicy RouteMatch RequestExpression CacheSettings.
Open Scope Z_scope.

Definition maximum_object_bytes : Z := 512 * 1024 * 1024.

Record rule := mk_rule {
  rule_id_ : bytes;
  rule_name_ : bytes;
  rule_enabled_ : bool;
  match_type_ : bytes;
  patterns_ : list bytes;
  rule_action_ : bytes;
  ttl_mode_ : bytes;
  ttl_seconds_ : Z;
  ignore_query_ : bool;
  methods_ : list bytes;
  status_codes_ : list Z;
  min_object_bytes_ : Z;
  rule_max_object_bytes_ : Z;
  skip_set_cookie_ : bool;
  browser_ttl_seconds_ : Z;
  skip_no_cache_ : bool;
  respect_request_no_cache_ : bool;
  skip_request_cookie_ : bool;
  browser_ttl_mode_ : bytes;
  settings_ : option rule_settings
}.

(** The member initializers of [rule] for the fields a designated initializer leaves out. *)
Definition default_rule (id name : bytes) (patterns : list bytes) : rule :=
  mk_rule id name true (lit "extension") patterns (lit "cache") (lit "origin") 86400 false
    [lit "GET"; lit "HEAD"] [] 0 0 true 0 true false false (lit "default") None.

Record policy := mk_policy {
  policy_id_ : bytes;
  revision_ : Z;
  policy_enabled_ : bool;
  storage_ : bytes;
  memory_bytes_ : Z;
  disk_bytes_ : Z;
  memory_percent_ : Z;
  disk_percent_ : Z;
  memory_reserved_bytes_ : Z;
  disk_reserved_bytes_ : Z;
  max_object_bytes_ : Z;
  directory_ : bytes;
  rules_ : list rule
}.
Definition default_policy : policy :=
  mk_policy [] 1 true (lit "tiered") (64 * 1024 * 1024) (1024 * 1024 * 1024) 0 0 0 0 (512 * 1024 * 1024) (lit "cache") [].

Definition configured (value : rule) (setting : bytes) : bool :=
  match settings_ value with Some s => has_setting s setting | None => false end.

Fixpoint first_ttl (l : list status_ttl) (status : Z) : option Z :=
  match l with
  | [] => None
  | item :: l => if (from_ item <=? status) && (status <=? to_ item) then Some (seconds_ item) else first_ttl l status
  end.
Definition status_cache_ttl (value : rule) (status : Z) : option Z :=
  match settings_ value with
  | Some s => if has_setting s (lit "status") then first_ttl (status_ttl_ s) status else None
  | None => None
  end.
Definition overrides_origin (value : rule) (status : Z) : bool :=
  (ttl_mode_ value == lit "fixed") || present (status_cache_ttl value status).
Definition origin_control_enabled (value : rule) : bool :=
  match settings_ value with
  | Some s => negb (has_setting s (lit "origin")) || origin_control_ s
  | None => true
  end.

(** * Applying a rule over another *)

(** [target] and [result], the settings being updated. *)
Definition apply_setting (source : rule) (settings : rule_settings) (acc : rule * rule_settings) (name : bytes) :
    rule * rule_settings :=
  let '(mk_rule id nm en mt pa ac tm ts iq me sc mi ma ss bs sn rr sk bm se as target, r) := acc in
  let enabled := if has_setting r name then enabled_ r else enabled_ r ++ [name] in
  let '(mk_rule_settings _ st k ar de so sv sg oc vd vh ora po rt ep) := r in
  let keep := mk_rule_settings enabled st k ar de so sv sg oc vd vh ora po rt ep in
  if name == lit "edge" then
    (mk_rule id nm en mt pa ac (ttl_mode_ source) (ttl_seconds_ source) iq me sc mi ma ss bs sn rr sk bm se, keep)
  else if name == lit "browser" then
    (mk_rule id nm en mt pa ac tm ts iq me sc mi ma ss (browser_ttl_seconds_ source) sn rr sk (browser_ttl_mode_ source) se, keep)
  else if name == lit "status" then
    (target, mk_rule_settings enabled (status_ttl_ settings) k ar de so sv sg oc vd vh ora po rt ep)
  else if name == lit "key" then
    (mk_rule id nm en mt pa ac tm ts false me sc mi ma ss bs sn rr sk bm se,
     mk_rule_settings enabled st (key_ settings) ar de so sv sg oc vd vh ora po rt ep)
  else if name == lit "armor" then (target, mk_rule_settings enabled st k (armor_ settings) de so sv sg oc vd vh ora po rt ep)
  else if name == lit "device" then (target, mk_rule_settings enabled st k ar (device_ settings) so sv sg oc vd vh ora po rt ep)
  else if name == lit "sort" then (target, mk_rule_settings enabled st k ar de (sort_query_ settings) sv sg oc vd vh ora po rt ep)
  else if name == lit "stale" then (target, mk_rule_settings enabled st k ar de so (serve_stale_ settings) sg oc vd vh ora po rt ep)
  else if name == lit "etag" then (target, mk_rule_settings enabled st k ar de so sv (strong_etags_ settings) oc vd vh ora po rt ep)
  else if name == lit "origin" then (target, mk_rule_settings enabled st k ar de so sv sg (origin_control_ settings) vd vh ora po rt ep)
  else if name == lit "vary" then
    (target, mk_rule_settings enabled st k ar de so sv sg oc (vary_default_ settings) (vary_headers_ settings) ora po rt ep)
  else if name == lit "range" then (target, mk_rule_settings enabled st k ar de so sv sg oc vd vh (origin_range_ settings) po rt ep)
  else if name == lit "ports" then (target, mk_rule_settings enabled st k ar de so sv sg oc vd vh ora (ports_ settings) rt ep)
  else if name == lit "timeout" then (target, mk_rule_settings enabled st k ar de so sv sg oc vd vh ora po (read_timeout_ settings) ep)
  else if name == lit "errors" then (target, mk_rule_settings enabled st k ar de so sv sg oc vd vh ora po rt (error_passthrough_ settings))
  else (target, keep).

(** The fields that a rule with settings always takes from [source]. *)
Definition take_common (target source : rule) : rule :=
  mk_rule (rule_id_ source) (rule_name_ source) (rule_enabled_ target) (match_type_ target) (patterns_ target)
    (rule_action_ source) (ttl_mode_ target) (ttl_seconds_ target) (ignore_query_ target) (methods_ source)
    (status_codes_ target) (min_object_bytes_ source) (rule_max_object_bytes_ source) (skip_set_cookie_ target)
    (browser_ttl_seconds_ target) (skip_no_cache_ target) (respect_request_no_cache_ target)
    (skip_request_cookie_ source) (browser_ttl_mode_ target) (settings_ target).

Definition with_settings (r : rule) (s : rule_settings) : rule :=
  mk_rule (rule_id_ r) (rule_name_ r) (rule_enabled_ r) (match_type_ r) (patterns_ r) (rule_action_ r) (ttl_mode_ r)
    (ttl_seconds_ r) (ignore_query_ r) (methods_ r) (status_codes_ r) (min_object_bytes_ r) (rule_max_object_bytes_ r)
    (skip_set_cookie_ r) (browser_ttl_seconds_ r) (skip_no_cache_ r) (respect_request_no_cache_ r)
    (skip_request_cookie_ r) (browser_ttl_mode_ r) (Some s).

Definition apply_rule (target source : rule) : rule :=
  match settings_ source with
  | None => source
  | Some settings =>
      let target := take_common target source in
      let result := match settings_ target with Some s => s | None => default_settings end in
      let '(target, result) := fold_left (apply_setting source settings) (enabled_ settings) (target, result) in
      with_settings target result
  end.

(** * Directories *)

Definition part_char (c : ascii) : bool := is_lower c || is_upper c || is_digit c || (c == "_"%char) || (c == "-"%char).
Definition part_ok (part : bytes) : bool :=
  negb (empty part || (part == lit ".") || (part == lit "..") || negb (forallb part_char part)).

Definition safe_directory (value : bytes) : bool :=
  if empty value || (128 <? size value) || first_is "/"%char value || first_is "\"%char value ||
     present (find_first_of (lit ":\") value)
  then false
  else parts_loop "/"%char part_ok (S (length value)) value.

(** * Validation *)

Definition maximum_capacity : Z := Z.shiftl 1 50.

Definition policy_bad (value : policy) : bool :=
  let memory := storage_ value == lit "memory" in
  negb (one_of (storage_ value) ["memory"; "disk"; "tiered"]%string) ||
  (memory_bytes_ value <? 0) || (maximum_capacity <? memory_bytes_ value) ||
  (disk_bytes_ value <? 0) || (maximum_capacity <? disk_bytes_ value) ||
  (memory_percent_ value <? 0) || (100 <? memory_percent_ value) ||
  (disk_percent_ value <? 0) || (100 <? disk_percent_ value) ||
  (memory_reserved_bytes_ value <? 0) || (maximum_capacity <? memory_reserved_bytes_ value) ||
  (disk_reserved_bytes_ value <? 0) || (maximum_capacity <? disk_reserved_bytes_ value) ||
  (max_object_bytes_ value <? 1) || (maximum_object_bytes <? max_object_bytes_ value) ||
  (memory && (memory_percent_ value =? 0) && (memory_bytes_ value <? max_object_bytes_ value)) ||
  (negb memory && (disk_percent_ value =? 0) && (disk_bytes_ value <? max_object_bytes_ value)) ||
  ((storage_ value == lit "tiered") && (memory_percent_ value =? 0) && (memory_bytes_ value <? 1)) ||
  negb (safe_directory (directory_ value)).

Definition rule_bad (value : policy) (before : list rule) (item : rule) : bool :=
  empty (rule_id_ item) || (64 <? size (rule_id_ item)) || listed (map rule_id_ before) (rule_id_ item) ||
  empty (rule_name_ item) || negb (clean_text (rule_name_ item) 100) ||
  negb (one_of (rule_action_ item) ["cache"; "bypass"]%string) ||
  negb (one_of (ttl_mode_ item) ["origin"; "fixed"; "origin_strict"]%string) ||
  negb (one_of (browser_ttl_mode_ item) ["default"; "respect_origin"; "override_origin"; "bypass"]%string) ||
  (ttl_seconds_ item <? 0) || (31536000 <? ttl_seconds_ item) ||
  (browser_ttl_seconds_ item <? 0) || (31536000 <? browser_ttl_seconds_ item) ||
  (min_object_bytes_ item <? 0) || (rule_max_object_bytes_ item <? 0) ||
  (max_object_bytes_ value <? min_object_bytes_ item) || (max_object_bytes_ value <? rule_max_object_bytes_ item) ||
  (negb (rule_max_object_bytes_ item =? 0) && (rule_max_object_bytes_ item <? min_object_bytes_ item)).

Section Validation.
Context `{Re2}.

Definition pattern_bad (match_type pattern : bytes) : bool :=
  empty pattern || negb (clean_text pattern 512) ||
  (one_of match_type ["exact"; "prefix"; "wildcard"]%string && negb (first_is "/"%char pattern)) ||
  ((match_type == lit "extension") && (negb (first_is "."%char pattern) || (size pattern <? 2) ||
     present (find_first_of (lit "/?#* ") pattern))) ||
  ((match_type == lit "regex") && negb (present (compile_pattern pattern))).

(** [validate_expression] always returns (its [None] is excluded by [parse_spec]). *)
Definition expression_errors (pattern : bytes) : bytes :=
  match validate_expression cache pattern with Some error => error | None => [] end.

Definition pattern_errors (item : rule) (pattern : bytes) : bytes :=
  if match_type_ item == lit "expression" then
    check (negb (size (patterns_ item) =? 1)) "每条缓存规则只接受一个组合表达式" <||> expression_errors pattern
  else check (pattern_bad (match_type_ item) pattern) "缓存匹配内容不正确".

Definition status_code_ok (code : Z) : bool := (200 <=? code) && (code <=? 599) && negb (code =? 206) && negb (code =? 304).

Definition rule_errors (value : policy) (before : list rule) (item : rule) : bytes :=
  match settings_ item with Some s => validate_settings s | None => [] end <||>
  check (rule_bad value before item) "缓存规则名称、标识、时长或内容大小不正确" <||>
  check (negb (one_of (match_type_ item) ["all"; "exact"; "prefix"; "extension"; "wildcard"; "regex"; "expression"]%string))
    "缓存匹配方式不正确" <||>
  check ((128 <? size (patterns_ item)) ||
         (if match_type_ item == lit "all" then negb (empty (patterns_ item)) else empty (patterns_ item)))
    "请填写匹配内容，全站匹配无需填写" <||>
  loop_errors (fun _ => pattern_errors item) [] (patterns_ item) <||>
  check (empty (methods_ item) || (2 <? size (methods_ item)) ||
         negb (forallb (fun m => one_of m ["GET"; "HEAD"]%string) (methods_ item)) ||
         (32 <? size (status_codes_ item)) || negb (forallb status_code_ok (status_codes_ item)))
    "缓存仅支持GET/HEAD及完整响应，请检查方法和状态码".

Definition validate (value : policy) : bytes :=
  check (policy_bad value) "缓存存储配置不正确，单对象上限为512MiB且不能超过所选存储容量" <||>
  check (128 <? size (rules_ value)) "每个策略最多128条规则" <||>
  loop_errors (rule_errors value) [] (rules_ value).
End Validation.

(** * Wire form *)

Definition u32 (z : Z) : Z := z mod 4294967296.

Record proto_rule := mk_proto_rule {
  pb_rule_id : bytes; pb_rule_name : bytes; pb_rule_enabled : bool; pb_match_type : bytes; pb_patterns : list bytes;
  pb_rule_action : bytes; pb_ttl_mode : bytes; pb_ttl_seconds : Z; pb_ignore_query : bool; pb_methods : list bytes;
  pb_status_codes : list Z; pb_min_object_bytes : Z; pb_rule_max_object_bytes : Z; pb_skip_set_cookie : bool;
  pb_browser_ttl_seconds : Z; pb_skip_no_cache : option bool; pb_respect_request_no_cache : option bool;
  pb_skip_request_cookie : option bool; pb_browser_ttl_mode : option bytes; pb_settings : option proto_rule_settings
}.
Record proto_policy := mk_proto_policy {
  pb_id : bytes; pb_revision : Z; pb_policy_enabled : bool; pb_storage : bytes; pb_memory_bytes : Z; pb_disk_bytes : Z;
  pb_memory_percent : Z; pb_disk_percent : Z; pb_memory_reserved_bytes : Z; pb_disk_reserved_bytes : Z;
  pb_max_object_bytes : Z; pb_directory : bytes; pb_rules : list proto_rule
}.

Definition rule_to_proto (source : rule) : proto_rule :=
  mk_proto_rule (rule_id_ source) (rule_name_ source) (rule_enabled_ source) (match_type_ source) (patterns_ source)
    (rule_action_ source) (ttl_mode_ source) (ttl_seconds_ source) (ignore_query_ source) (methods_ source)
    (map u32 (status_codes_ source)) (min_object_bytes_ source) (rule_max_object_bytes_ source) (skip_set_cookie_ source)
    (browser_ttl_seconds_ source) (Some (skip_no_cache_ source)) (Some (respect_request_no_cache_ source))
    (Some (skip_request_cookie_ source)) (Some (browser_ttl_mode_ source)) (settings_to_proto <$> settings_ source).
Definition to_proto (input : policy) : proto_policy :=
  mk_proto_policy (policy_id_ input) (revision_ input) (policy_enabled_ input) (storage_ input) (memory_bytes_ input)
    (disk_bytes_ input) (memory_percent_ input) (disk_percent_ input) (memory_reserved_bytes_ input)
    (disk_reserved_bytes_ input) (max_object_bytes_ input) (directory_ input) (map rule_to_proto (rules_ input)).

Definition or_bool (o : option bool) (d : bool) : bool := match o with Some b => b | None => d end.
Definition rule_from_proto (source : proto_rule) : rule :=
  mk_rule (pb_rule_id source) (pb_rule_name source) (pb_rule_enabled source) (pb_match_type source) (pb_patterns source)
    (pb_rule_action source) (pb_ttl_mode source) (pb_ttl_seconds source) (pb_ignore_query source) (pb_methods source)
    (pb_status_codes source) (pb_min_object_bytes source) (pb_rule_max_object_bytes source) (pb_skip_set_cookie source)
    (pb_browser_ttl_seconds source) (or_bool (pb_skip_no_cache source) true)
    (or_bool (pb_respect_request_no_cache source) false) (or_bool (pb_skip_request_cookie source) false)
    (match pb_browser_ttl_mode source with
     | Some mode => mode
     | None => if 0 <? pb_browser_ttl_seconds source then lit "override_origin" else lit "default"
     end)
    (rule_settings_from_proto <$> pb_settings source).
Definition from_proto (input : proto_policy) : policy :=
  mk_policy (pb_id input) (pb_revision input) (pb_policy_enabled input) (pb_storage input) (pb_memory_bytes input)
    (pb_disk_bytes input) (pb_memory_percent input) (pb_disk_percent input) (pb_memory_reserved_bytes input)
    (pb_disk_reserved_bytes input) (pb_max_object_bytes input) (pb_directory input) (map rule_from_proto (pb_rules input)).

(** * Defaults *)

Definition default_static_rule : rule :=
  default_rule (lit "cache-static") (lit "静态资源")
    (map lit [".7z"; ".avi"; ".avif"; ".apk"; ".bin"; ".bmp"; ".bz"; ".bz2";
      ".class"; ".css"; ".csv"; ".doc"; ".docx"; ".dmg"; ".ejs"; ".eot"; ".eps"; ".exe";
      ".flac"; ".gif"; ".gz"; ".ico"; ".iso"; ".jar"; ".jpg"; ".jpeg"; ".js"; ".mid";
      ".midi"; ".mkv"; ".mp3"; ".mp4"; ".ogg"; ".otf"; ".pdf"; ".pict"; ".pls"; ".png";
      ".ppt"; ".pptx"; ".ps"; ".rar"; ".svg"; ".svgz"; ".swf"; ".tar"; ".tif"; ".tiff";
      ".ttf"; ".webm"; ".webp"; ".woff"; ".woff2"; ".xls"; ".xlsx"; ".zip"; ".zst"]%string).

Definition additions : list bytes :=
  map lit [".mjs"; ".wasm"; ".apng"; ".jxl"; ".heic"; ".heif"; ".jfif"; ".cur";
    ".ttc"; ".otc"; ".sfnt"; ".aac"; ".wav"; ".m4a"; ".opus"; ".oga"; ".weba"; ".m4v"; ".mov";
    ".mpeg"; ".mpg"; ".ogv"; ".m3u8"; ".mpd"; ".m4s"; ".xz"; ".txz"; ".tgz"; ".deb"; ".rpm";
    ".cab"; ".msi"; ".msix"; ".msixbundle"; ".appx"; ".appxbundle"; ".epub"; ".rtf"; ".odp"; ".ods"; ".odt"]%string.

Definition safe_static_rules : list rule :=
  let assets := default_static_rule in
  let patterns := List.filter (fun p => p != lit ".ejs") (patterns_ assets) ++ additions in
  let settings := mk_rule_settings (map lit ["edge"; "browser"; "armor"; "origin"]%string) [] default_cache_key
    true false false true false true (lit "bypass") [] (lit "default") [] 120 false in
  [mk_rule (rule_id_ assets) (rule_name_ assets) (rule_enabled_ assets) (match_type_ assets) patterns
     (rule_action_ assets) (ttl_mode_ assets) (ttl_seconds_ assets) (ignore_query_ assets) (methods_ assets)
     (status_codes_ assets) (min_object_bytes_ assets) (rule_max_object_bytes_ assets) (skip_set_cookie_ assets)
     (browser_ttl_seconds_ assets) (skip_no_cache_ assets) (respect_request_no_cache_ assets)
     (skip_request_cookie_ assets) (lit "respect_origin") (Some settings)].

(** * Inheritance *)

(** The value a named setting has in a rule. *)
Inductive setting_value :=
  | VTtl (mode : bytes) (seconds : Z)
  | VStatus (ranges : list status_ttl)
  | VKey (key : cache_key)
  | VFlag (b : bool)
  | VVary (default : bytes) (headers : list vary_header)
  | VText (text : bytes)
  | VPorts (ports : list Z)
  | VNumber (n : Z).

Definition setting_in (r : rule) (s : rule_settings) (name : bytes) : option setting_value :=
  if name == lit "edge" then Some (VTtl (ttl_mode_ r) (ttl_seconds_ r))
  else if name == lit "browser" then Some (VTtl (browser_ttl_mode_ r) (browser_ttl_seconds_ r))
  else if name == lit "status" then Some (VStatus (status_ttl_ s))
  else if name == lit "key" then Some (VKey (key_ s))
  else if name == lit "armor" then Some (VFlag (armor_ s))
  else if name == lit "device" then Some (VFlag (device_ s))
  else if name == lit "sort" then Some (VFlag (sort_query_ s))
  else if name == lit "stale" then Some (VFlag (serve_stale_ s))
  else if name == lit "etag" then Some (VFlag (strong_etags_ s))
  else if name == lit "origin" then Some (VFlag (origin_control_ s))
  else if name == lit "vary" then Some (VVary (vary_default_ s) (vary_headers_ s))
  else if name == lit "range" then Some (VText (origin_range_ s))
  else if name == lit "ports" then Some (VPorts (ports_ s))
  else if name == lit "timeout" then Some (VNumber (read_timeout_ s))
  else if name == lit "errors" then Some (VFlag (error_passthrough_ s))
  else None.
Definition effective_settings (r : rule) : rule_settings :=
  match settings_ r with Some s => s | None => default_settings end.
Definition setting_of (r : rule) (name : bytes) : option setting_value := setting_in r (effective_settings r) name.

Lemma listed_snoc l x y : listed (l ++ [x]) y = listed l y || (x == y).
Proof. unfold listed. rewrite existsb_app. simpl. by rewrite orb_false_r. Qed.

Lemma bool_decide_sym (x y : bytes) : (x == y) = (y == x).
Proof. by apply bool_decide_ext. Qed.

(** One setting is taken from the source, the others are kept. *)
Lemma apply_setting_step source settings t r n name :
  let '(t', r') := apply_setting source settings (t, r) n in
  setting_in t' r' name = (if n == name then setting_in source settings name else setting_in t r name) /\
  has_setting r' name = has_setting r name || (n == name).
Proof.
  assert (forall r', enabled_ r' = (if has_setting r n then enabled_ r else enabled_ r ++ [n]) ->
    has_setting r' name = has_setting r name || (n == name)) as Hhas.
  { intros r' E. unfold has_setting in *. rewrite E. destruct (listed (enabled_ r) n) eqn:En; [|apply listed_snoc].
    case_bool_decide; [subst; by rewrite En|by rewrite orb_false_r]. }
  destruct t as [id nm en mt pa ac tm ts iq me sc mi ma ss bs sn rr sk bm se].
  destruct r as [e0 st k ar de so sv sg oc vd vh ora po rt ep]. unfold apply_setting.
  repeat (match goal with |- context [bool_decide (n = lit ?w)] =>
    destruct (decide (n = lit w)) as [->|?];
    [rewrite (bool_decide_eq_true_2 (lit w = lit w)) by done;
     split; [unfold setting_in; rewrite (bool_decide_sym (lit w) name); cbn [ttl_mode_ ttl_seconds_ browser_ttl_mode_
       browser_ttl_seconds_ status_ttl_ key_ armor_ device_ sort_query_ serve_stale_ strong_etags_ origin_control_
       vary_default_ vary_headers_ origin_range_ ports_ read_timeout_ error_passthrough_];
       repeat case_match; try done; reflect_bool; congruence | by eapply Hhas]
    |rewrite (bool_decide_eq_false_2 (n = lit w)) by done] end).
  split; [|by eapply Hhas]. case_bool_decide; [subst name|done].
  unfold setting_in. repeat rewrite bool_decide_eq_false_2 by done. done.
Qed.

Lemma apply_settings_fold source settings names t r name :
  let '(t', r') := fold_left (apply_setting source settings) names (t, r) in
  setting_in t' r' name = (if listed names name then setting_in source settings name else setting_in t r name) /\
  has_setting r' name = has_setting r name || listed names name.
Proof.
  revert t r. induction names as [|n names IH]; intros t r; [by rewrite orb_false_r|]. cbn [fold_left].
  pose proof (apply_setting_step source settings t r n name) as Hs.
  destruct (apply_setting source settings (t, r) n) as [t1 r1]. destruct Hs as [S1 S2].
  specialize (IH t1 r1). destruct (fold_left _ names (t1, r1)) as [t' r']. destruct IH as [I1 I2].
  rewrite I1, I2, S1, S2. unfold listed. cbn [existsb]. fold (listed names name). split.
  - by destruct (listed names name), (n == name).
  - by rewrite orb_assoc.
Qed.

(** A rule with settings changes exactly the settings it lists: each takes the rule's value
    and becomes configured; every other setting keeps the value and the state it had. *)
Theorem apply_rule_inherits (target source : rule) (settings : rule_settings) (name : bytes) :
  settings_ source = Some settings ->
  let result := apply_rule target source in
  setting_of result name = (if configured source name then setting_of source name else setting_of target name) /\
  configured result name = configured target name || configured source name.
Proof.
  intros Hs result. unfold result, apply_rule. rewrite Hs. cbn [settings_ take_common].
  set (t0 := take_common target source). fold (effective_settings target).
  pose proof (apply_settings_fold source settings (enabled_ settings) t0 (effective_settings target) name) as Hf.
  destruct (fold_left _ _ _) as [t' r']. destruct Hf as [F1 F2].
  assert (setting_of (with_settings t' r') name = setting_in t' r' name) as ->
    by (unfold setting_of, effective_settings; by destruct t').
  assert (configured (with_settings t' r') name = has_setting r' name) as -> by done.
  rewrite F1, F2. unfold configured, setting_of, effective_settings. rewrite Hs.
  split; [done|]. by destruct (settings_ target).
Qed.

Lemma apply_rule_inherits_witness :
  let target := default_rule (lit "a") (lit "a") [] in
  let settings := mk_rule_settings [lit "timeout"] [] default_cache_key true false false true false true
    (lit "bypass") [] (lit "default") [] 30 false in
  let result := apply_rule target (with_settings target settings) in
  setting_of result (lit "timeout") = Some (VNumber 30) /\ setting_of result (lit "armor") = Some (VFlag false).
Proof.
  intros target settings result. unfold result. split.
  - rewrite (proj1 (apply_rule_inherits target (with_settings target settings) settings (lit "timeout") eq_refl)). by vm_compute.
  - rewrite (proj1 (apply_rule_inherits target (with_settings target settings) settings (lit "armor") eq_refl)). by vm_compute.
Defined.

(** * Validated settings *)

(** The ranges of validated settings do not overlap. *)
Lemma validated_status s : validate_settings s = [] ->
  forall pre x post, status_ttl_ s = pre ++ x :: post ->
    100 <= from_ x <= to_ x /\ to_ x <= 999 /\ -1 <= seconds_ x <= 31536000 /\ existsb (overlaps x) pre = false.
Proof.
  unfold validate_settings. rewrite !or_else_nil. intros (_ & _ & Hst & _) pre x post E.
  rewrite loop_errors_nil in Hst. specialize (Hst pre x post E). cbn [app] in Hst. unfold status_errors in Hst.
  apply or_else_nil in Hst as [H1 H2]. rewrite check_nil in H1, H2 by done. reflect_bool. split_and!; (done || lia).
Qed.

Lemma first_ttl_unique l item status :
  (forall pre x post, l = pre ++ x :: post -> existsb (overlaps x) pre = false) ->
  item ∈ l -> from_ item <= status <= to_ item -> first_ttl l status = Some (seconds_ item).
Proof.
  intros Hd (pre & post & ->)%list_elem_of_split Hr. pose proof (Hd pre item post eq_refl) as Hpre.
  clear Hd. induction pre as [|x pre IH]; cbn [app first_ttl].
  - by rewrite !(proj2 (Z.leb_le _ _)) by lia.
  - cbn [existsb] in Hpre. apply orb_false_iff in Hpre as [Hx Hpre].
    replace ((from_ x <=? status) && (status <=? to_ x)) with false; [by apply IH|].
    symmetry. apply andb_false_iff. unfold overlaps in Hx. apply andb_false_iff in Hx as [Hx|Hx]; reflect_bool;
      [right|left]; apply Z.leb_gt; lia.
Qed.

(** In validated settings the ranges of the status table do not overlap, so the lifetime of a
    status does not depend on their order: every range that contains the status gives its own. *)
Theorem status_ttl_unambiguous (value : rule) (s : rule_settings) (item : status_ttl) (status : Z) :
  settings_ value = Some s -> validate_settings s = [] -> has_setting s (lit "status") = true ->
  item ∈ status_ttl_ s -> from_ item <= status <= to_ item ->
  status_cache_ttl value status = Some (seconds_ item) /\ -1 <= seconds_ item <= 31536000.
Proof.
  intros Hs Hv He Hin Hr. pose proof (validated_status s Hv) as Hst.
  unfold status_cache_ttl. rewrite Hs, He. split.
  - apply first_ttl_unique; [|done|done]. intros pre x post E. by apply (Hst pre x post E).
  - apply list_elem_of_split in Hin as (pre & post & E). apply (Hst pre item post E).
Qed.

Lemma status_ttl_unambiguous_witness :
  let s := mk_rule_settings [lit "status"] [mk_status_ttl 200 299 60; mk_status_ttl 404 404 5] default_cache_key false false false
    true false true (lit "bypass") [] (lit "default") [] 120 false in
  status_cache_ttl (with_settings (default_rule [] [] []) s) 404 = Some 5.
Proof.
  intros s. destruct (status_ttl_unambiguous (with_settings (default_rule [] [] []) s) s (mk_status_ttl 404 404 5) 404) as [H _];
    [done|by vm_compute|by vm_compute| |simpl; lia|done].
  apply list_elem_of_further, list_elem_of_here.
Defined.

(** * Directories *)

Definition safe_part (part : bytes) : Prop := part <> [] /\ Forall (fun c => part_char c = true) part.

Lemma part_ok_spec part : part_ok part = true <-> safe_part part.
Proof.
  unfold part_ok, safe_part. rewrite negb_true_iff, !orb_false_iff, negb_false_iff, forallb_Forall, !bool_decide_eq_false.
  split.
  - intros [[[H1 _] _] H2]. split; [|done]. by intros ->.
  - intros [H1 H2]. split_and!; [by destruct part| | |done]; intros ->; by apply Forall_cons_1 in H2 as [? _].
Qed.

Lemma part_char_not c part : part_char c = false -> Forall (fun x => part_char x = true) part -> c ∉ part.
Proof. rewrite Forall_forall. intros Hc Hp Hin. apply Hp in Hin. congruence. Qed.

(** A directory is accepted exactly when it is a relative path of at most 128 bytes whose parts
    are nonempty and use only letters, digits, hyphens and underscores; no part can be a dot or a
    parent reference. *)
Theorem safe_directory_spec value :
  safe_directory value = true <->
  size value <= 128 /\ exists parts, parts <> [] /\ value = join (lit "/") parts /\ Forall safe_part parts.
Proof.
  unfold safe_directory. split.
  - destruct (_ || _)%bool eqn:E; [done|]. intros Hp. rewrite parts_loop_spec in Hp by (done || lia).
    reflect_bool. split; [lia|]. exists (split_on "/"%char value). split; [apply split_on_not_nil|].
    split; [symmetry; apply join_split|]. apply forallb_Forall in Hp. apply (Forall_impl _ _ _ Hp). intros p. by apply part_ok_spec.
  - intros (Hs & parts & Hne & -> & Hall).
    assert (Forall (fun p => "/"%char ∉ p) parts) as Hslash.
    { apply (Forall_impl _ _ _ Hall). intros p [_ Hp]. by apply part_char_not. }
    assert (exists p ps, parts = p :: ps /\ safe_part p) as (p & ps & Ep & [Hpne Hpc]).
    { destruct Hall as [|p ps Hp _]; [done|eauto]. }
    assert (exists c t, join (lit "/") parts = c :: t /\ part_char c = true) as (c & t & Ej & Hc).
    { rewrite Ep. destruct Hpc as [|c p' Hc _]; [done|]. destruct ps; simpl; eauto. }
    assert (find_first_of (lit ":\") (join (lit "/") parts) = None) as Hf.
    { apply find_if_None. clear -Hall. induction Hall as [|q qs [_ Hq] Hqs IH]; [constructor|].
      assert (Forall (fun y => mem_char y (lit ":\") = false) q) as Hqf.
      { apply (Forall_impl _ _ _ Hq). intros y Hy. apply not_true_is_false. intros Hm.
        apply existsb_exists in Hm as (z & Hz & Ez). reflect_bool. subst z. by destruct Hz as [<-|[<-|[]]]. }
      destruct qs; [done|]. apply Forall_app. split; [done|]. by constructor. }
    rewrite Hf. rewrite parts_loop_spec by (done || lia). change (lit "/") with ["/"%char] in *.
    rewrite split_join by done. rewrite Ej in *. cbn [empty present orb].
    rewrite (proj2 (Z.ltb_ge _ _)) by done.
    assert (first_is "/"%char (c :: t) = false) as -> by (apply bool_decide_eq_false; intros ->; done).
    assert (first_is "\"%char (c :: t) = false) as -> by (apply bool_decide_eq_false; intros ->; done).
    cbn [orb]. apply forallb_Forall. apply (Forall_impl _ _ _ Hall). intros q. by apply part_ok_spec.
Qed.

(** * Round trip and defaults *)

Lemma rule_roundtrip r : Forall (fun c => 0 <= c < 4294967296) (status_codes_ r) -> rule_from_proto (rule_to_proto r) = r.
Proof.
  destruct r as [id nm en mt pa ac tm ts iq me sc mi ma ss bs sn rr sk bm se]. cbn [status_codes_]. intros Hsc.
  unfold rule_from_proto, rule_to_proto. cbn.
  assert (map u32 sc = sc) as -> by (induction Hsc as [|c l Hc _ IH]; [done|]; cbn [map]; rewrite IH; unfold u32; by rewrite Z.mod_small).
  assert (rule_settings_from_proto <$> (settings_to_proto <$> se) = se) as Hse by (destruct se; simpl; by rewrite ?settings_roundtrip).
  by rewrite <- Hse at 2.
Qed.

(** A policy whose status codes fit 32 bits survives the trip over the wire unchanged. *)
Theorem policy_roundtrip p :
  Forall (fun r => Forall (fun c => 0 <= c < 4294967296) (status_codes_ r)) (rules_ p) -> from_proto (to_proto p) = p.
Proof.
  destruct p as [id rev en st mb db mp dp mr dr mo dir rules]. cbn [rules_]. intros Hr. unfold from_proto, to_proto. cbn. f_equal.
  induction Hr as [|r rules Hr _ IH]; simpl; [done|]. by rewrite rule_roundtrip, IH.
Qed.

Lemma policy_roundtrip_witness :
  let p := mk_policy (lit "p") 3 true (lit "memory") 5 6 7 8 9 10 11 (lit "cache") safe_static_rules in
  from_proto (to_proto p) = p.
Proof. intros p. apply policy_roundtrip. repeat constructor. Defined.

(** The default policy with the default static rules passes validation. *)
Theorem default_rules_valid `{Re2} :
  validate (mk_policy (lit "default") 1 true (storage_ default_policy) (memory_bytes_ default_policy) (disk_bytes_ default_policy)
    0 0 0 0 (max_object_bytes_ default_policy) (directory_ default_policy) safe_static_rules) = [].
Proof. by vm_compute. Qed.
