(* ===== verification/CacheKey.v ===== *)
(** Cache keys and variants: src/node/data/cache_key.h, cache_vary.h and cache_deception.h.

    The query part of a key, its length-prefixed parts, the device class, the normalisation of
    negotiated headers, and the check of a response's type against the extension it was asked for. *)
From S2P Require Import Prelude RoutePolicy RouteMatch RequestExpression CacheSettings CachePolicy.
Open Scope Z_scope.

(** * Keys *)

Record parameter := mk_parameter { raw_ : bytes; name_ : bytes; value_ : bytes }.

(** The order of the sort: by decoded name, then by decoded value. *)
Definition parameter_compare (a b : parameter) : Datatypes.comparison :=
  then_compare (bytes_compare (name_ a) (name_ b)) (bytes_compare (value_ a) (value_ b)).
Definition parameter_lt (a b : parameter) : bool := match parameter_compare a b with Lt => true | _ => false end.

(** [std::ranges::stable_sort]: insertion after the elements that are not greater. *)
Fixpoint insert_stable (x : parameter) (l : list parameter) : list parameter :=
  match l with
  | [] => [x]
  | y :: l' => if parameter_lt x y then x :: l else y :: insert_stable x l'
  end.
Definition stable_sort (l : list parameter) : list parameter := fold_left (fun acc x => insert_stable x acc) l [].

(** Which parameters the key keeps. *)
Definition keeps (key : option cache_key) (name : bytes) : bool :=
  match key with
  | None => true
  | Some k =>
      let is_listed := listed (query_parameters_ k) name in
      (query_mode_ k == lit "all") || ((query_mode_ k == lit "include") && is_listed) ||
      ((query_mode_ k == lit "exclude") && negb is_listed)
  end.

(** The decoded parameter of a part of the query. *)
Definition parse_parameter (raw : bytes) : option parameter :=
  let equal := find_char "="%char raw in
  match decode_query (upto equal raw), decode_query (after equal raw) with
  | Some name, Some value => Some (mk_parameter raw name value)
  | _, _ => None
  end.

(** [while (!query.empty())], [None] when a part does not decode. *)
Fixpoint parameters_loop (fuel : nat) (key : option cache_key) (query : bytes) (parameters : list parameter) :
    option (list parameter) :=
  match fuel with
  | O => None
  | S fuel =>
      if empty query then Some parameters
      else
        let ampersand := find_char "&"%char query in
        match parse_parameter (upto ampersand query) with
        | None => None
        | Some p =>
            parameters_loop fuel key (after ampersand query)
              (if keeps key (name_ p) then parameters ++ [p] else parameters)
        end
  end.

Definition render_query (path : bytes) (parameters : list parameter) : bytes :=
  match parameters with
  | [] => path
  | p :: ps => path ++ "?"%char :: raw_ p ++ concat (map (fun q => "&"%char :: raw_ q) ps)
  end.

Definition key_settings (r : rule) : option cache_key :=
  match settings_ r with
  | Some s => if has_setting s (lit "key") then Some (key_ s) else None
  | None => None
  end.
Definition sorts_query (r : rule) : bool :=
  match settings_ r with Some s => has_setting s (lit "sort") && sort_query_ s | None => false end.

Definition cache_query_target (target : bytes) (r : rule) : bytes :=
  match find_char "?"%char target with
  | None => target
  | Some question =>
      let key := key_settings r in
      let ignored := match key with Some k => query_mode_ k == lit "ignore" | None => false end in
      if ignore_query_ r || ignored then take question target
      else
        let sort := sorts_query r in
        let all := match key with Some k => query_mode_ k == lit "all" | None => true end in
        if negb sort && all then target
        else
          let query := drop (S question) target in
          match parameters_loop (S (length query)) key query [] with
          | None => target
          | Some parameters =>
              render_query (take question target) (if sort then stable_sort parameters else parameters)
          end
  end.

Definition append_cache_key_part (key part : bytes) : bytes := key ++ dec (size part) ++ lit ":" ++ part.

Definition has_word (text : bytes) (word : string) : bool := present (find_sub (lit word) text).
Definition cache_device_type (agent : bytes) : bytes :=
  let lower := map lower_ascii agent in
  if has_word lower "ipad" || has_word lower "tablet" || (has_word lower "android" && negb (has_word lower "mobile"))
  then lit "tablet"
  else if has_word lower "mobile" || has_word lower "iphone" || has_word lower "ipod" || has_word lower "windows phone"
  then lit "mobile"
  else lit "desktop".

(** * Variants *)

Definition cache_vary_header (r : rule) (name : bytes) : option vary_header :=
  match settings_ r with
  | Some s => if has_setting s (lit "vary") then List.find (fun h => ascii_equal (vary_name_ h) name) (vary_headers_ s) else None
  | None => None
  end.
Definition cache_vary_action (r : rule) (name : bytes) : bytes :=
  match cache_vary_header r name with
  | Some h => action_ h
  | None =>
      match settings_ r with
      | Some s =>
          if has_setting s (lit "vary") then vary_default_ s
          else if ascii_equal name (lit "accept-encoding") then lit "normalize" else lit "ignore"
      | None => if ascii_equal name (lit "accept-encoding") then lit "normalize" else lit "ignore"
      end
  end.

Record token := mk_token { token_name_ : bytes; quality_ : Z }.

(** The digits after the point; a digit that is refused makes the quality 0. *)
Fixpoint quality_digits (one : bool) (text : bytes) (quality scale : Z) : Z :=
  match text with
  | [] => quality
  | c :: text =>
      if negb (is_digit c) || (one && (c != "0"%char)) then 0
      else quality_digits one text (quality + (code c - 48) * scale) (scale / 10)
  end.
(** The value of a [q=] parameter. *)
Definition quality_of (text : bytes) : Z :=
  match text with
  | [] => 0
  | c :: rest =>
      if (c != "0"%char) && (c != "1"%char) then 0
      else
        let quality := if c == "1"%char then 1000 else 0 in
        match rest with
        | [] => quality
        | d :: digits =>
            if (d != "."%char) || (5 <? size text) then 0 else quality_digits (c == "1"%char) digits quality 100
        end
  end.
Fixpoint quality_loop (fuel : nat) (parameters : bytes) (quality : Z) : Z :=
  match fuel with
  | O => quality
  | S fuel =>
      if empty parameters then quality
      else
        let next := find_char ";"%char parameters in
        let parameter := trim_ows (upto next parameters) in
        quality_loop fuel (after next parameters)
          (if starts_with parameter (lit "q=") then quality_of (drop 2 parameter) else quality)
  end.

(** The token of one element of the list, [None] when it is skipped. *)
Definition token_of (name : bytes) (allowed : list bytes) (element : bytes) : option token :=
  let part := trim_ows element in
  let semicolon := find_char ";"%char part in
  let value := map lower_ascii (trim_ows (upto semicolon part)) in
  if empty value then None
  else
    let quality := match semicolon with
                   | None => 1000
                   | Some _ => let p := after semicolon part in quality_loop (S (length p)) p 1000
                   end in
    let value := if (name == lit "accept-language") && (empty allowed || negb (listed allowed value))
                 then upto (find_char "-"%char value) value else value in
    if negb (empty allowed) && negb (listed allowed value) then None else Some (mk_token value quality).

(** [std::ranges::find] by name, then an update in place or a push. *)
Fixpoint add_token (tokens : list token) (t : token) : list token :=
  match tokens with
  | [] => [t]
  | x :: tokens =>
      if token_name_ x == token_name_ t then mk_token (token_name_ x) (Z.max (quality_ x) (quality_ t)) :: tokens
      else x :: add_token tokens t
  end.

(** The loop over the comma-separated elements. *)
Fixpoint tokens_loop (fuel : nat) (name : bytes) (allowed : list bytes) (input : bytes) (tokens : list token) : list token :=
  match fuel with
  | O => tokens
  | S fuel =>
      if empty input then tokens
      else
        let comma := find_char ","%char input in
        tokens_loop fuel name allowed (after comma input)
          (match token_of name allowed (upto comma input) with Some t => add_token tokens t | None => tokens end)
  end.

(** Greater quality first, then by name. *)
Definition token_compare (a b : token) : Datatypes.comparison :=
  then_compare (quality_ b ?= quality_ a) (bytes_compare (token_name_ a) (token_name_ b)).
Definition token_le (a b : token) : Prop := token_compare a b <> Gt.
#[export] Instance token_le_dec : RelDecision token_le.
Proof. intros a b. unfold token_le. destruct (token_compare a b); [left|left|right]; auto; congruence. Defined.

Definition render_token (t : token) : bytes := token_name_ t ++ (if quality_ t =? 0 then lit ";q=0" else []).

(** A comma goes before a token unless the result is still empty. *)
Definition render_step (result : bytes) (t : token) : bytes :=
  (if empty result then result else result ++ lit ",") ++ render_token t.

(** The source sorts names that are all different, so the order has no ties and every sorting
    algorithm gives this result. *)
Definition normalize_cache_vary (input name : bytes) (allowed : list bytes) : bytes :=
  if negb (one_of name ["accept"; "accept-language"; "accept-encoding"]%string) then trim_ows input
  else
    let tokens := tokens_loop (S (length input)) name allowed input [] in
    fold_left render_step (merge_sort token_le tokens) [].

Definition cache_vary_value (r : rule) (name raw encoding : bytes) : bytes :=
  let strong := match settings_ r with Some s => has_setting s (lit "etag") && strong_etags_ s | None => false end in
  if (name == lit "accept-encoding") && (cache_vary_action r name == lit "normalize") && negb strong then encoding
  else
    let allowed := match cache_vary_header r name with Some h => vary_values_ h | None => [] end in
    if cache_vary_action r name == lit "normalize" then normalize_cache_vary raw name allowed else raw.

(** * Response types *)

(** The extension table; each entry lists the accepted types, separated by bars. *)
Definition mappings : list (string * string) :=
  [ (".js", "application/javascript|text/javascript|application/x-javascript");
    (".css", "text/css");
    (".csv", "text/csv|application/csv");
    (".png", "image/png|image/webp|image/avif");
    (".jpg", "image/jpeg|image/webp|image/avif");
    (".jpeg", "image/jpeg|image/webp|image/avif");
    (".gif", "image/gif|image/webp|image/avif|video/webm");
    (".webp", "image/webp|image/avif");
    (".avif", "image/avif");
    (".svg", "image/svg+xml");
    (".svgz", "image/svg+xml");
    (".ico", "image/x-icon|image/vnd.microsoft.icon");
    (".bmp", "image/bmp|image/x-ms-bmp");
    (".tif", "image/tiff");
    (".tiff", "image/tiff");
    (".pict", "image/x-pict");
    (".woff", "font/woff|application/font-woff");
    (".woff2", "font/woff2");
    (".ttf", "font/ttf|application/x-font-ttf");
    (".otf", "font/otf|application/x-font-opentype");
    (".eot", "application/vnd.ms-fontobject");
    (".pdf", "application/pdf");
    (".mp3", "audio/mpeg");
    (".mp4", "video/mp4|audio/mp4");
    (".webm", "video/webm|audio/webm");
    (".avi", "video/x-msvideo|video/avi");
    (".mkv", "video/x-matroska");
    (".ogg", "audio/ogg|video/ogg|application/ogg");
    (".flac", "audio/flac|audio/x-flac");
    (".mid", "audio/midi|audio/x-midi");
    (".midi", "audio/midi|audio/x-midi");
    (".pls", "audio/x-scpls|application/pls+xml");
    (".zip", "application/zip|application/x-zip-compressed");
    (".7z", "application/x-7z-compressed");
    (".rar", "application/vnd.rar|application/x-rar-compressed");
    (".gz", "application/gzip|application/x-gzip");
    (".tar", "application/x-tar");
    (".bz", "application/x-bzip");
    (".bz2", "application/x-bzip2");
    (".zst", "application/zstd");
    (".doc", "application/msword");
    (".docx", "application/vnd.openxmlformats-officedocument.wordprocessingml.document");
    (".xls", "application/vnd.ms-excel");
    (".xlsx", "application/vnd.openxmlformats-officedocument.spreadsheetml.sheet");
    (".ppt", "application/vnd.ms-powerpoint");
    (".pptx", "application/vnd.openxmlformats-officedocument.presentationml.presentation");
    (".apk", "application/vnd.android.package-archive");
    (".jar", "application/java-archive|application/x-java-archive");
    (".class", "application/java-vm");
    (".swf", "application/x-shockwave-flash");
    (".eps", "application/postscript");
    (".ps", "application/postscript");
    (".dmg", "application/x-apple-diskimage");
    (".iso", "application/x-iso9660-image");
    (".exe", "application/vnd.microsoft.portable-executable|application/x-msdownload");
    (".ejs", "text/html|application/javascript|text/javascript");
    (".bin", "application/octet-stream");
    (".mjs", "application/javascript|text/javascript|application/x-javascript");
    (".wasm", "application/wasm");
    (".apng", "image/apng|image/png");
    (".jxl", "image/jxl");
    (".heic", "image/heic|image/heif");
    (".heif", "image/heif|image/heic");
    (".jfif", "image/jpeg");
    (".cur", "image/x-icon|image/vnd.microsoft.icon");
    (".ttc", "font/collection|application/x-font-ttf");
    (".otc", "font/collection");
    (".sfnt", "font/sfnt|application/font-sfnt");
    (".aac", "audio/aac|audio/x-aac");
    (".wav", "audio/wav|audio/x-wav|audio/vnd.wave");
    (".m4a", "audio/mp4|audio/x-m4a");
    (".opus", "audio/opus|audio/ogg");
    (".oga", "audio/ogg");
    (".weba", "audio/webm");
    (".m4v", "video/mp4|video/x-m4v");
    (".mov", "video/quicktime");
    (".mpeg", "video/mpeg");
    (".mpg", "video/mpeg");
    (".ogv", "video/ogg");
    (".m3u8", "application/vnd.apple.mpegurl|application/x-mpegurl|audio/mpegurl");
    (".mpd", "application/dash+xml|application/xml");
    (".m4s", "video/iso.segment|video/mp4|audio/mp4");
    (".xz", "application/x-xz");
    (".txz", "application/x-xz");
    (".tgz", "application/gzip|application/x-gzip|application/x-compressed-tar");
    (".deb", "application/vnd.debian.binary-package|application/x-debian-package");
    (".rpm", "application/x-rpm");
    (".cab", "application/vnd.ms-cab-compressed");
    (".msi", "application/x-msi|application/x-msdownload");
    (".msix", "application/msix");
    (".msixbundle", "application/msixbundle");
    (".appx", "application/appx");
    (".appxbundle", "application/appxbundle");
    (".epub", "application/epub+zip");
    (".rtf", "application/rtf|text/rtf");
    (".odp", "application/vnd.oasis.opendocument.presentation");
    (".ods", "application/vnd.oasis.opendocument.spreadsheet");
    (".odt", "application/vnd.oasis.opendocument.text") ]%string.

(** [while (!values.empty())] over the types of an entry. *)
Fixpoint types_loop (fuel : nat) (type values : bytes) : bool :=
  match fuel with
  | O => false
  | S fuel =>
      if empty values then false
      else
        let separator := find_char "|"%char values in
        if ascii_equal type (upto separator values) then true else types_loop fuel type (after separator values)
  end.
Fixpoint mappings_loop (table : list (string * string)) (extension type : bytes) : bool :=
  match table with
  | [] => true
  | (ext, types) :: table =>
      if ascii_equal extension (lit ext) then types_loop (S (length (lit types))) type (lit types)
      else mappings_loop table extension type
  end.

Definition cache_content_type_matches (target content_type : bytes) : bool :=
  let target := upto (find_char "?"%char target) target in
  match rfind_char "."%char target with
  | None => true
  | Some dot =>
      let extension := drop dot target in
      if present (find_char "/"%char extension) then true
      else
        let type := trim_ows (upto (find_char ";"%char content_type) content_type) in
        if empty type || ascii_equal type (lit "application/octet-stream") then true
        else mappings_loop mappings extension type
  end.

(** * Keys are unambiguous *)

Definition encode_parts (parts : list bytes) : bytes := fold_left append_cache_key_part parts [].

Lemma encode_parts_app acc parts :
  fold_left append_cache_key_part parts acc = acc ++ concat (map (fun p => dec (size p) ++ lit ":" ++ p) parts).
Proof.
  revert acc. induction parts as [|p parts IH]; intros acc; simpl; [by rewrite app_nil_r|].
  rewrite IH. unfold append_cache_key_part. by rewrite <- !app_assoc.
Qed.

Lemma dec_inj a b : 0 <= a -> 0 <= b -> dec a = dec b -> a = b.
Proof. intros Ha Hb E. rewrite <- (undec_dec a Ha), <- (undec_dec b Hb). by rewrite E. Qed.

(** A text before the first colon is determined by the whole. *)
Lemma colon_inj a b x y : ":"%char ∉ a -> ":"%char ∉ b -> a ++ ":"%char :: x = b ++ ":"%char :: y -> a = b /\ x = y.
Proof.
  intros Ha Hb E. split.
  - rewrite <- (find_char_app_upto ":"%char a x Ha), <- (find_char_app_upto ":"%char b y Hb). by rewrite E.
  - rewrite <- (find_char_app_after ":"%char a x Ha), <- (find_char_app_after ":"%char b y Hb). by rewrite E.
Qed.

(** Length-prefixed cache keys are unambiguous: two lists of parts write the same key only if
    they are the same list. *)
Theorem cache_key_injective parts parts' :
  encode_parts parts = encode_parts parts' <-> parts = parts'.
Proof.
  split; [|by intros ->]. unfold encode_parts. rewrite !encode_parts_app. cbn [app]. revert parts'.
  assert (forall p : bytes, ":"%char ∉ dec (size p)) as Hcolon.
  { intros p. apply not_digit_notin; [done|]. apply dec_digits. unfold size. lia. }
  assert (forall p x : bytes, dec (size p) ++ lit ":" ++ x <> []) as Hne by (intros p x; by destruct (dec (size p))).
  induction parts as [|p parts IH]; intros [|q parts']; cbn [map concat]; try done.
  - intros E. symmetry in E. rewrite <- app_assoc in E. by apply Hne in E.
  - intros E. rewrite <- app_assoc in E. by apply Hne in E.
  - rewrite <- !app_assoc. cbn [app lit]. intros E. apply colon_inj in E as [Ed E]; [|done|done].
    apply dec_inj in Ed; [|unfold size; lia..].
    assert (length p = length q) as Hl by (unfold size in Ed; lia).
    apply app_inj_1 in E as [-> E]; [|done]. f_equal. by apply IH.
Qed.

(** * Normalised variants do not depend on the order of the list *)

(** The greatest quality given to a name. *)
Fixpoint best (n : bytes) (ts : list token) : option Z :=
  match ts with
  | [] => None
  | t :: ts =>
      if token_name_ t == n
      then Some (match best n ts with Some q => Z.max q (quality_ t) | None => quality_ t end)
      else best n ts
  end.

Lemma best_permutation n ts ts' : ts ≡ₚ ts' -> best n ts = best n ts'.
Proof.
  induction 1 as [|t ts ts' _ IH|t u ts|ts ts' ts'' _ IH1 _ IH2]; simpl; [done|by rewrite IH| |congruence].
  destruct (token_name_ t == n), (token_name_ u == n), (best n ts); try done; f_equal; lia.
Qed.

Lemma best_None n ts : best n ts = None <-> n ∉ map token_name_ ts.
Proof.
  induction ts as [|t ts IH]; simpl; [by split; [intros _ ?%elem_of_nil|]|].
  rewrite not_elem_of_cons. case_bool_decide; [naive_solver|]. rewrite IH. naive_solver.
Qed.

Lemma best_add n ts t :
  best n (add_token ts t) =
  if token_name_ t == n then Some (match best n ts with Some q => Z.max q (quality_ t) | None => quality_ t end)
  else best n ts.
Proof.
  induction ts as [|x ts IH]; simpl; [done|].
  destruct (decide (token_name_ x = token_name_ t)) as [Hx|Hx].
  - rewrite (bool_decide_eq_true_2 (token_name_ x = token_name_ t)) by done. cbn [best token_name_ quality_]. rewrite Hx.
    case_bool_decide; [|done]. f_equal. destruct (best n ts); lia.
  - rewrite (bool_decide_eq_false_2 (token_name_ x = token_name_ t)) by done. cbn [best]. rewrite IH.
    destruct (token_name_ x == n) eqn:E1, (token_name_ t == n) eqn:E2; reflect_bool; congruence || done.
Qed.

Lemma add_token_names ts t : NoDup (map token_name_ ts) -> NoDup (map token_name_ (add_token ts t)).
Proof.
  assert (forall n, n ∈ map token_name_ (add_token ts t) -> n ∈ map token_name_ ts \/ n = token_name_ t) as Hn.
  { induction ts as [|x ts IH]; simpl; intros n; [rewrite list_elem_of_singleton; auto|].
    case_bool_decide; cbn [map]; rewrite !elem_of_cons; [naive_solver|]. intros [->|H1]; [auto|]. apply IH in H1. naive_solver. }
  induction ts as [|x ts IH]; simpl; intros Hd; [apply NoDup_singleton|].
  apply NoDup_cons in Hd as [Hx Hd]. case_bool_decide as E; cbn [map]; apply NoDup_cons; [done|].
  assert (forall n, n ∈ map token_name_ (add_token ts t) -> n ∈ map token_name_ ts \/ n = token_name_ t) as Hn'.
  { clear IH Hn Hx Hd E. induction ts as [|y ts IH]; simpl; intros n; [rewrite list_elem_of_singleton; auto|].
    case_bool_decide; cbn [map]; rewrite !elem_of_cons; [naive_solver|]. intros [->|H1]; [auto|]. apply IH in H1. naive_solver. }
  split; [|by apply IH]. intros [H1|H1]%Hn'; [done|]. by apply E.
Qed.

Definition merge_tokens (ts : list token) : list token := fold_left add_token ts [].

Lemma merge_tokens_spec ts : NoDup (map token_name_ (merge_tokens ts)) /\ forall n, best n (merge_tokens ts) = best n ts.
Proof.
  unfold merge_tokens. induction ts as [|t ts IH] using rev_ind; [by split; [constructor|]|].
  rewrite fold_left_app. cbn [fold_left]. destruct IH as [I1 I2]. split; [by apply add_token_names|].
  intros n. rewrite best_add, I2. rewrite (best_permutation n (ts ++ [t]) (t :: ts)) by (by rewrite Permutation_app_comm). done.
Qed.

(** With distinct names, the list is its lookup function. *)
Lemma elem_of_best ts t : NoDup (map token_name_ ts) -> t ∈ ts <-> best (token_name_ t) ts = Some (quality_ t).
Proof.
  induction ts as [|x ts IH]; simpl; intros Hd; [by split; [intros ?%elem_of_nil|]|].
  apply NoDup_cons in Hd as [Hx Hd]. rewrite elem_of_cons, IH by done. case_bool_decide as E.
  - rewrite <- E in *. rewrite (proj2 (best_None _ _) Hx). destruct t, x. simpl in *. naive_solver.
  - split; [intros [->|?]; [done|done]|auto].
Qed.

Lemma NoDup_names ts : NoDup (map token_name_ ts) -> NoDup ts.
Proof. apply NoDup_fmap_1. Qed.

Lemma merge_tokens_permutation ts ts' : ts ≡ₚ ts' -> merge_tokens ts ≡ₚ merge_tokens ts'.
Proof.
  intros Hp. destruct (merge_tokens_spec ts) as [N1 B1], (merge_tokens_spec ts') as [N2 B2].
  apply NoDup_Permutation; [by apply NoDup_names|by apply NoDup_names|]. intros t.
  rewrite !elem_of_best by done. by rewrite B1, B2, (best_permutation _ _ _ Hp).
Qed.

(** ** A total order on tokens *)

Lemma token_compare_opp a b : token_compare b a = CompOpp (token_compare a b).
Proof.
  unfold token_compare. by rewrite (Z.compare_antisym (quality_ b)), (bytes_compare_opp (token_name_ a)), then_compare_opp.
Qed.

#[export] Instance token_le_total : Total token_le.
Proof.
  intros a b. unfold token_le. rewrite (token_compare_opp a b). destruct (token_compare a b); naive_solver.
Qed.

#[export] Instance token_le_antisym : AntiSymm (=) token_le.
Proof.
  intros a b. unfold token_le. rewrite (token_compare_opp a b). destruct (token_compare a b) eqn:E; try done.
  intros _ _. unfold token_compare in E. destruct (quality_ b ?= quality_ a) eqn:E1; try done.
  simpl in E. apply Z.compare_eq in E1. apply bytes_compare_eq in E. destruct a, b; simpl in *; congruence.
Qed.

Lemma token_le_spec a b : token_le a b <->
  quality_ b < quality_ a \/ quality_ b = quality_ a /\ bytes_compare (token_name_ a) (token_name_ b) <> Gt.
Proof.
  unfold token_le, token_compare. destruct (Z.compare_spec (quality_ b) (quality_ a)) as [E|E|E]; simpl.
  - split; [intros ?; by right|intros [?|[_ ?]]; [lia|done]].
  - split; [intros _; by left|done].
  - split; [done|intros [?|[? _]]; lia].
Qed.

#[export] Instance token_le_transitive : Transitive token_le.
Proof.
  intros a b c. rewrite !token_le_spec. intros [H1|[H1 L1]] [H2|[H2 L2]]; [left; lia|left; lia|left; lia|right].
  split; [lia|]. destruct (bytes_compare (token_name_ a) (token_name_ b)) eqn:E1; [| |done].
  - apply bytes_compare_eq in E1. by rewrite E1.
  - destruct (bytes_compare (token_name_ b) (token_name_ c)) eqn:E2; [| |done].
    + apply bytes_compare_eq in E2. by rewrite <- E2, E1.
    + by rewrite (bytes_compare_trans _ _ _ E1 E2).
Qed.

Lemma merge_sort_permutation ts ts' : ts ≡ₚ ts' -> merge_sort token_le ts = merge_sort token_le ts'.
Proof.
  intros Hp. apply (StronglySorted_unique token_le); [apply (StronglySorted_merge_sort token_le)|apply (StronglySorted_merge_sort token_le)|].
  transitivity ts; [apply merge_sort_Permutation|]. transitivity ts'; [done|]. symmetry. apply merge_sort_Permutation.
Qed.

(** The loop collects the tokens of the elements between commas. *)
Lemma tokens_loop_split fuel name allowed input acc : (length input < fuel)%nat ->
  tokens_loop fuel name allowed input acc =
  fold_left add_token (omap (token_of name allowed) (split_on ","%char input)) acc.
Proof.
  assert (token_of name allowed [] = None) as Hnil by done.
  revert input acc. induction fuel as [|fuel IH]; intros input acc Hf; [lia|]. cbn [tokens_loop].
  destruct input as [|c input].
  { cbn [empty]. change (split_on ","%char []) with ([[]] : list bytes). cbn [omap list_omap]. by rewrite Hnil. }
  cbn [empty]. rewrite (split_on_step ","%char (c :: input)).
  destruct (find_char ","%char (c :: input)) as [n|] eqn:E; cbn [upto after].
  - apply find_char_lt in E. pose proof (drop_S_lt n (c :: input) E). rewrite IH by (simpl in *; lia).
    cbn [omap list_omap]. by destruct (token_of name allowed (take n (c :: input))).
  - rewrite IH by (simpl in *; lia). change (split_on ","%char []) with ([[]] : list bytes).
    cbn [omap list_omap]. rewrite Hnil. by destruct (token_of name allowed (c :: input)).
Qed.

(** Requests that list the same preferences in a different order share a variant: the
    normalised value of a negotiated header does not depend on the order of its elements. *)
Theorem normalize_order_independent (elements elements' : list bytes) (name : bytes) (allowed : list bytes) :
  elements ≡ₚ elements' -> Forall (fun e => ","%char ∉ e) elements ->
  one_of name ["accept"; "accept-language"; "accept-encoding"]%string = true ->
  normalize_cache_vary (join (lit ",") elements) name allowed = normalize_cache_vary (join (lit ",") elements') name allowed.
Proof.
  intros Hp Hc Hn. unfold normalize_cache_vary. rewrite Hn. cbn [negb].
  destruct elements as [|e es]; [by apply Permutation_nil in Hp as ->|].
  assert (elements' <> []) as Hne by (intros ->; by apply Permutation_sym, Permutation_nil in Hp).
  rewrite !tokens_loop_split by lia. change (lit ",") with [","%char].
  rewrite !split_join by (done || by rewrite <- Hp). f_equal. apply merge_sort_permutation.
  apply merge_tokens_permutation. by rewrite Hp.
Qed.

Lemma normalize_order_independent_witness :
  normalize_cache_vary (lit "gzip;q=0.8,br") (lit "accept-encoding") [] =
    normalize_cache_vary (lit "br,gzip;q=0.8") (lit "accept-encoding") [] /\
  normalize_cache_vary (lit "br,gzip;q=0.8") (lit "accept-encoding") [] = lit "br,gzip".
Proof.
  split; [|by vm_compute].
  apply (normalize_order_independent [lit "gzip;q=0.8"; lit "br"] [lit "br"; lit "gzip;q=0.8"] (lit "accept-encoding") []);
    [apply Permutation_swap|by_decision|by vm_compute].
Defined.

(** * The extension table *)

Definition table_entries : list (bytes * bytes) := map (fun e => (lit (fst e), lit (snd e))) mappings.

(** Well-formed entries: a dot first and no other, no separator, and no two for one extension. *)
Definition extension_ok (ext : bytes) : bool :=
  match ext with
  | c :: rest => (c == "."%char) && forallb (fun x => is_lower x || is_digit x) rest
  | [] => false
  end.

Lemma mappings_well_formed :
  forallb (fun e => extension_ok (fst e)) table_entries = true /\
  forallb (fun e => (size (List.filter (fun e' => ascii_equal (fst e) (fst e')) table_entries) =? 1)%Z) table_entries = true.
Proof. by split; vm_compute. Qed.

Lemma rfind_char_app c a b : c ∉ b -> rfind_char c (a ++ c :: b) = Some (length a).
Proof.
  intros Hb. assert (forall s, c ∉ s -> rfind_char c s = None) as Hnone.
  { induction s as [|x s IH]; simpl; [done|]. intros [Hx Hs]%not_elem_of_cons. rewrite IH by done.
    by rewrite bool_decide_eq_false_2. }
  induction a as [|x a IH]; simpl; [by rewrite Hnone, bool_decide_eq_true_2|]. by rewrite IH.
Qed.

Lemma types_loop_split fuel type values : (length values < fuel)%nat -> type <> [] ->
  types_loop fuel type values = existsb (ascii_equal type) (split_on "|"%char values).
Proof.
  intros Hf Ht. assert (ascii_equal type [] = false) as Hnil by by destruct type.
  revert values Hf. induction fuel as [|fuel IH]; intros values Hf; [lia|]. cbn [types_loop].
  destruct values as [|c values]; [cbn; by rewrite Hnil|]. cbn [empty]. rewrite (split_on_step "|"%char (c :: values)).
  destruct (find_char "|"%char (c :: values)) as [n|] eqn:E; cbn [upto after existsb].
  - apply find_char_lt in E. pose proof (drop_S_lt n (c :: values) E). rewrite IH by (simpl in *; lia).
    by destruct (ascii_equal type _).
  - rewrite orb_false_r. destruct (ascii_equal type (c :: values)); [done|]. destruct fuel; [done|]. done.
Qed.

Lemma mappings_lookup table extension ext types type :
  In (ext, types) table -> ascii_equal extension (lit ext) = true ->
  size (List.filter (fun e => ascii_equal extension (lit (fst e))) table) = 1 ->
  mappings_loop table extension type = types_loop (S (length (lit types))) type (lit types).
Proof.
  induction table as [|[e ts] table IH]; cbn [In mappings_loop List.filter fst]; [done|]. intros Hin He Hs.
  destruct (ascii_equal extension (lit e)) eqn:E.
  - destruct Hin as [[= -> ->]|Hin]; [done|]. exfalso.
    assert (In (ext, types) (List.filter (fun e => ascii_equal extension (lit (fst e))) table)) as Hf by by apply filter_In.
    unfold size in Hs. simpl in Hs. destruct (List.filter _ table); [done|simpl in Hs; lia].
  - destruct Hin as [[= -> ->]|Hin]; [congruence|]. by apply IH.
Qed.

(** Cache deception check: a response to a path with a listed extension is cacheable only if it
    has no type, is an unspecific byte stream, or has one of the types listed for the extension. *)
Theorem content_type_listed (ext types : string) (stem content_type : bytes) :
  In (ext, types) mappings -> "?"%char ∉ stem ->
  let type := trim_ows (upto (find_char ";"%char content_type) content_type) in
  cache_content_type_matches (stem ++ lit ext) content_type =
  empty type || ascii_equal type (lit "application/octet-stream") ||
  existsb (ascii_equal type) (split_on "|"%char (lit types)).
Proof.
  intros Hin Hq type. destruct mappings_well_formed as [W1 W2]. rewrite forallb_forall in W1, W2.
  assert (In (lit ext, lit types) table_entries) as Hin' by (by apply (in_map (fun e => (lit (fst e), lit (snd e))) _ (ext, types))).
  specialize (W1 _ Hin'). specialize (W2 _ Hin'). cbn [fst] in W1, W2. apply Z.eqb_eq in W2.
  destruct (lit ext) as [|c rest] eqn:Eext; [done|]. unfold extension_ok in W1. apply andb_true_iff in W1 as [Hc Hrest].
  reflect_bool. subst c. apply forallb_Forall in Hrest.
  assert (forall x, is_lower x || is_digit x = false -> x ∉ rest) as Hnot.
  { intros x Hx Hi. rewrite Forall_forall in Hrest. apply Hrest in Hi. congruence. }
  unfold cache_content_type_matches.
  assert (find_char "?"%char (stem ++ "."%char :: rest) = None) as ->.
  { apply find_char_None. rewrite elem_of_app, elem_of_cons. intros [?|[?|?]]; [done|done|]. by apply (Hnot "?"%char). }
  cbn [upto]. rewrite rfind_char_app by by apply Hnot. rewrite drop_app_length.
  assert (find_char "/"%char ("."%char :: rest) = None) as ->.
  { apply find_char_None. rewrite elem_of_cons. intros [?|?]; [done|]. by apply (Hnot "/"%char). }
  cbn [present]. fold type. destruct (empty type) eqn:Ee; [done|]. cbn [orb].
  destruct (ascii_equal type (lit "application/octet-stream")); [done|]. cbn [orb].
  rewrite (mappings_lookup mappings _ ext types type Hin).
  - apply types_loop_split; [lia|]. by intros E; rewrite E in Ee.
  - rewrite Eext. by apply ascii_equal_spec.
  - rewrite <- W2. unfold table_entries, size. f_equal. clear. induction mappings as [|[e ts] t IH]; [done|].
    cbn [List.filter map fst snd]. destruct (ascii_equal ("."%char :: rest) (lit e)); simpl; by rewrite IH.
Qed.

Lemma content_type_listed_witness :
  cache_content_type_matches (lit "/account/settings" ++ lit ".css") (lit "text/html; charset=utf-8") = false /\
  cache_content_type_matches (lit "/site" ++ lit ".css") (lit "text/css") = true.
Proof.
  assert (In (".css", "text/css")%string mappings) as Hin by (unfold mappings; right; left; reflexivity).
  split; rewrite (content_type_listed ".css" "text/css" _ _ Hin) by by_decision; by vm_compute.
Defined.

(** Every extension that the default rules cache has its types listed. *)
Theorem default_extensions_listed pattern :
  In pattern (concat (map patterns_ safe_static_rules)) -> exists types, In (pattern, types) table_entries.
Proof.
  assert (forallb (fun p => existsb (fun e => fst e == p) table_entries) (concat (map patterns_ safe_static_rules)) = true)
    as Hall by by vm_compute.
  intros Hp. rewrite forallb_forall in Hall. specialize (Hall _ Hp). apply existsb_exists in Hall as ([e ts] & Hin & E).
  reflect_bool. simpl in E. subst e. by exists ts.
Qed.

Lemma default_extensions_listed_witness : exists types, In (lit ".wasm", types) table_entries.
Proof. apply default_extensions_listed, list_elem_of_In. by_decision. Defined.

(** * Query targets *)

(** All or nothing. *)
Fixpoint parse_all (raws : list bytes) : option (list parameter) :=
  match raws with
  | [] => Some []
  | raw :: raws =>
      match parse_parameter raw, parse_all raws with Some p, Some ps => Some (p :: ps) | _, _ => None end
  end.

Lemma parameters_loop_parts fuel key raws acc : raws <> [] ->
  (length (join (lit "&") raws) < fuel)%nat -> Forall (fun p => p <> [] /\ "&"%char ∉ p) raws ->
  parameters_loop fuel key (join (lit "&") raws) acc =
  (fun ps => acc ++ List.filter (fun p => keeps key (name_ p)) ps) <$> parse_all raws.
Proof.
  intros Hne Hf Hr. revert fuel acc Hne Hf. induction Hr as [|raw raws [Hraw Hamp] Hraws IH]; intros fuel acc Hne Hf; [done|].
  destruct fuel as [|fuel]; [lia|]. destruct Hraws as [|raw2 raws Hr2 Hraws].
  - cbn [join parameters_loop parse_all]. destruct raw as [|c raw]; [done|]. cbn [empty].
    rewrite (proj2 (find_char_None _ _) Hamp). cbn [upto after].
    destruct (parse_parameter (c :: raw)) as [p|]; [|done]. destruct fuel as [|fuel]; [simpl in Hf; lia|].
    cbn [parameters_loop empty fmap option_fmap option_map List.filter]. by destruct (keeps key (name_ p)); rewrite ?app_nil_r.
  - change (join (lit "&") (raw :: raw2 :: raws)) with (raw ++ "&"%char :: join (lit "&") (raw2 :: raws)) in *.
    cbn [parameters_loop]. assert (empty (raw ++ "&"%char :: join (lit "&") (raw2 :: raws)) = false) as -> by by destruct raw.
    rewrite find_char_app_upto, find_char_app_after by done. change (parse_all (raw :: raw2 :: raws)) with
      (match parse_parameter raw, parse_all (raw2 :: raws) with Some p, Some ps => Some (p :: ps) | _, _ => None end).
    destruct (parse_parameter raw) as [p|]; [|done]. rewrite IH; [|done|rewrite length_app in Hf; simpl in *; lia].
    destruct (parse_all (raw2 :: raws)) as [ps|]; [|done]. cbn [fmap option_fmap option_map List.filter]. f_equal.
    destruct (keeps key (name_ p)); [by rewrite <- app_assoc|done].
Qed.

Lemma insert_stable_permutation x l : insert_stable x l ≡ₚ x :: l.
Proof.
  induction l as [|y l IH]; simpl; [done|]. destruct (parameter_lt x y); [done|]. rewrite IH. by constructor.
Qed.

Lemma stable_sort_permutation l : stable_sort l ≡ₚ l.
Proof.
  unfold stable_sort. induction l as [|x l IH] using rev_ind; [done|]. rewrite fold_left_app. cbn [fold_left].
  rewrite insert_stable_permutation, IH. by rewrite Permutation_app_comm.
Qed.

Definition parameter_le (a b : parameter) : Prop := parameter_lt b a = false.

Lemma insert_stable_sorted x l : Sorted parameter_le l -> Sorted parameter_le (insert_stable x l).
Proof.
  assert (forall a b, parameter_lt a b = true -> parameter_le a b) as Hlt.
  { intros a b. unfold parameter_le, parameter_lt, parameter_compare.
    rewrite (bytes_compare_opp (name_ a) (name_ b)), (bytes_compare_opp (value_ a) (value_ b)), then_compare_opp.
    by destruct (then_compare _ _). }
  induction 1 as [|y l Hl IH Hy]; simpl; [by repeat constructor|]. destruct (parameter_lt x y) eqn:E.
  - constructor; [by constructor|]. constructor. by apply Hlt.
  - constructor; [done|]. destruct l as [|z l]; simpl; [by constructor|].
    destruct (parameter_lt x z); constructor; [done|]. by inversion Hy.
Qed.

Lemma stable_sort_sorted l : Sorted parameter_le (stable_sort l).
Proof.
  unfold stable_sort. induction l as [|x l IH] using rev_ind; [constructor|]. rewrite fold_left_app.
  by apply insert_stable_sorted.
Qed.

(** The query of a cache key: when the rule selects or sorts parameters and every parameter
    decodes, the key's target holds exactly the selected parameters, as they were written, in their
    order or sorted by decoded name and value. *)
Theorem query_target_selected (path : bytes) (raws : list bytes) (ps : list parameter) (r : rule) :
  "?"%char ∉ path -> raws <> [] -> Forall (fun p => p <> [] /\ "&"%char ∉ p) raws -> parse_all raws = Some ps ->
  ignore_query_ r = false ->
  match key_settings r with
  | Some k => query_mode_ k = lit "include" \/ query_mode_ k = lit "exclude" \/ query_mode_ k = lit "all" /\ sorts_query r = true
  | None => sorts_query r = true
  end ->
  exists kept, cache_query_target (path ++ lit "?" ++ join (lit "&") raws) r = render_query path kept /\
    kept ≡ₚ List.filter (fun p => keeps (key_settings r) (name_ p)) ps /\
    (if sorts_query r then Sorted parameter_le kept else kept = List.filter (fun p => keeps (key_settings r) (name_ p)) ps).
Proof.
  intros Hpath Hne Hraws Hps Hi Hmode. unfold cache_query_target. change (lit "?" ++ ?x) with ("?"%char :: x).
  rewrite (proj2 (find_char_Some "?"%char _ (length path))) by eauto. rewrite Hi, drop_S_app, take_app_length. cbn [orb].
  assert (match key_settings r with Some k => query_mode_ k == lit "ignore" | None => false end = false) as ->.
  { destruct (key_settings r) as [k|]; [|done]. by destruct Hmode as [->|[->|[-> _]]]. }
  assert (negb (sorts_query r) && match key_settings r with Some k => query_mode_ k == lit "all" | None => true end = false) as ->.
  { destruct (key_settings r) as [k|]; [|by rewrite Hmode]. destruct Hmode as [->|[->|[_ ->]]]; by rewrite ?andb_false_r. }
  rewrite parameters_loop_parts by (done || lia). rewrite Hps. cbn [fmap option_fmap option_map app].
  set (kept := List.filter _ ps). destruct (sorts_query r).
  - exists (stable_sort kept). split_and!; [done|apply stable_sort_permutation|apply stable_sort_sorted].
  - exists kept. done.
Qed.

Definition sorting_rule : rule :=
  with_settings (default_rule [] [] [])
    (mk_rule_settings (map lit ["key"; "sort"]%string) []
       (mk_cache_key (lit "exclude") [lit "utm"] [] [] [] [] [] true (lit "original") false false)
       false false true true false true (lit "bypass") [] (lit "default") [] 120 false).

Lemma query_target_selected_witness :
  exists kept, cache_query_target (lit "/p" ++ lit "?" ++ join (lit "&") [lit "b=1"; lit "utm=x"; lit "a=%32"]) sorting_rule =
    render_query (lit "/p") kept /\ length kept = 2%nat.
Proof.
  destruct (query_target_selected (lit "/p") [lit "b=1"; lit "utm=x"; lit "a=%32"]
    [mk_parameter (lit "b=1") (lit "b") (lit "1"); mk_parameter (lit "utm=x") (lit "utm") (lit "x"); mk_parameter (lit "a=%32") (lit "a") (lit "2")]
    sorting_rule) as (kept & E & Hp & _); [by_decision|done|by_decision|by vm_compute|done|by right; left|].
  exists kept. split; [done|]. rewrite Hp. by vm_compute.
Defined.
