(* ===== verification/BufferBudget.v ===== *)
(** Byte budgets: src/node/data/buffered_bytes_budget.h and the capacity rule of
    src/node/data/cache_capacity.h.

    Budgets and the leases drawn on them live in a store, since a lease refers to its budget and is
    moved between owners; an operation names the leases it works on. *)
From S2P Require Import Prelude.
Open Scope Z_scope.

Record buffered_bytes_budget := mk_budget {
  maximum_bytes_ : Z;
  used_bytes_ : Z;
  rejected_reservations_ : Z
}.
Record buffered_bytes_lease := mk_lease { budget_ : option nat; bytes_ : Z }.

Record store := mk_store {
  budgets : gmap nat buffered_bytes_budget;
  leases : gmap nat buffered_bytes_lease
}.

Definition new_budget (maximum : Z) : buffered_bytes_budget := mk_budget maximum 0 0.

Definition reserve (b : buffered_bytes_budget) (bytes : Z) : buffered_bytes_budget * bool :=
  if bytes =? 0 then (b, true)
  else if (maximum_bytes_ b <? bytes) || (u64 (maximum_bytes_ b - bytes) <? used_bytes_ b) then
    (mk_budget (maximum_bytes_ b) (used_bytes_ b) (u64 (rejected_reservations_ b + 1)), false)
  else (mk_budget (maximum_bytes_ b) (u64 (used_bytes_ b + bytes)) (rejected_reservations_ b), true).

Definition release (b : buffered_bytes_budget) (bytes : Z) : buffered_bytes_budget :=
  if negb (bytes =? 0) then mk_budget (maximum_bytes_ b) (u64 (used_bytes_ b - bytes)) (rejected_reservations_ b)
  else b.

Definition set_budget (s : store) (id : nat) (b : buffered_bytes_budget) : store :=
  mk_store (<[id := b]> (budgets s)) (leases s).
Definition set_lease (s : store) (id : nat) (l : buffered_bytes_lease) : store :=
  mk_store (budgets s) (<[id := l]> (leases s)).

(** [lease()]: a new lease [id] on budget [b]. *)
Definition lease (s : store) (b id : nat) : store := set_lease s id (mk_lease (Some b) 0).

Definition try_grow (s : store) (id : nat) (bytes : Z) : store * bool :=
  match leases s !! id with
  | Some (mk_lease (Some bid) held) =>
      match budgets s !! bid with
      | Some b =>
          let '(b, granted) := reserve b bytes in
          let s := set_budget s bid b in
          if granted then (set_lease s id (mk_lease (Some bid) (u64 (held + bytes))), true) else (s, false)
      | None => (s, false)
      end
  | _ => (s, true)
  end.

Definition shrink (s : store) (id : nat) (bytes : Z) : store :=
  match leases s !! id with
  | Some (mk_lease (Some bid) held) =>
      if bytes =? 0 then s
      else
        match budgets s !! bid with
        | Some b =>
            let released := Z.min bytes held in
            set_budget (set_lease s id (mk_lease (Some bid) (u64 (held - released)))) bid (release b released)
        | None => s
        end
  | _ => s
  end.

Definition reset (s : store) (id : nat) : store :=
  match leases s !! id with
  | Some (mk_lease (Some bid) held) =>
      match budgets s !! bid with
      | Some b => set_lease (set_budget s bid (release b held)) id (mk_lease None 0)
      | None => s
      end
  | Some (mk_lease None held) => set_lease s id (mk_lease None held)
  | None => s
  end.

(** Both members of [other] are exchanged for null and zero. *)
Definition move_from (s : store) (id other : nat) : store :=
  match leases s !! other with
  | Some l => set_lease (set_lease s other (mk_lease None 0)) id l
  | None => s
  end.

(** The move constructor makes [id]; move assignment first resets it. *)
Definition move_construct (s : store) (id other : nat) : store := move_from s id other.
Definition move_assign (s : store) (id other : nat) : store :=
  if (id =? other)%nat then s else move_from (reset s id) id other.

Definition destroy (s : store) (id : nat) : store :=
  let s := reset s id in mk_store (budgets s) (delete id (leases s)).

(** * Histories *)

Inductive operation :=
  | Lease (budget id : nat)
  | TryGrow (id : nat) (bytes : Z)
  | Shrink (id : nat) (bytes : Z)
  | MoveConstruct (id other : nat)
  | MoveAssign (id other : nat)
  | Destroy (id : nat).

(** Operations on live objects: a new lease has a new name, the others exist, sizes are [size_t]. *)
Definition allowed (s : store) (op : operation) : Prop :=
  match op with
  | Lease b id => is_Some (budgets s !! b) /\ leases s !! id = None
  | TryGrow id bytes | Shrink id bytes => is_Some (leases s !! id) /\ is_u64 bytes
  | MoveConstruct id other => leases s !! id = None /\ is_Some (leases s !! other)
  | MoveAssign id other => is_Some (leases s !! id) /\ is_Some (leases s !! other)
  | Destroy id => is_Some (leases s !! id)
  end.

Definition perform (s : store) (op : operation) : store :=
  match op with
  | Lease b id => lease s b id
  | TryGrow id bytes => fst (try_grow s id bytes)
  | Shrink id bytes => shrink s id bytes
  | MoveConstruct id other => move_construct s id other
  | MoveAssign id other => move_assign s id other
  | Destroy id => destroy s id
  end.

Inductive reachable (maxima : gmap nat Z) : store -> Prop :=
  | reach_init : reachable maxima (mk_store (new_budget <$> maxima) ∅)
  | reach_step s op : reachable maxima s -> allowed s op -> reachable maxima (perform s op).

(** * The accounting invariant *)

(** What the leases on a budget hold together. *)
Definition share (b : nat) (l : buffered_bytes_lease) : Z :=
  if bool_decide (budget_ l = Some b) then bytes_ l else 0.
Definition held_in (m : gmap nat buffered_bytes_lease) (b : nat) : Z :=
  map_fold (fun _ l total => share b l + total) 0 m.
Definition held (s : store) (b : nat) : Z := held_in (leases s) b.

Lemma held_insert_new (m : gmap nat buffered_bytes_lease) b id l : m !! id = None ->
  held_in (<[id := l]> m) b = share b l + held_in m b.
Proof.
  intros Hm. apply (map_fold_insert_L (fun (_ : nat) l total => share b l + total)); [intros; lia|done].
Qed.

Lemma held_delete (m : gmap nat buffered_bytes_lease) b id l : m !! id = Some l ->
  held_in m b = share b l + held_in (delete id m) b.
Proof.
  intros Hm. apply (map_fold_delete_L (fun (_ : nat) l total => share b l + total)); [intros; lia|done].
Qed.

Lemma held_insert (m : gmap nat buffered_bytes_lease) b id l :
  held_in (<[id := l]> m) b =
  held_in m b + share b l - match m !! id with Some old => share b old | None => 0 end.
Proof.
  destruct (m !! id) as [old|] eqn:E; [|rewrite held_insert_new by done; lia].
  rewrite (held_delete m b id old E), <- insert_delete_eq. rewrite held_insert_new by (by rewrite lookup_delete_eq). lia.
Qed.

Lemma held_nonneg (m : gmap nat buffered_bytes_lease) b :
  (forall id l, m !! id = Some l -> 0 <= bytes_ l) -> 0 <= held_in m b.
Proof.
  induction m as [|id l m Hm IH] using map_ind; intros Hl; [unfold held_in; rewrite map_fold_empty; lia|].
  rewrite held_insert_new by done.
  assert (0 <= share b l) by (unfold share; case_bool_decide; [apply (Hl id), lookup_insert_eq|lia]).
  enough (0 <= held_in m b) by lia.
  apply IH. intros id' l' H'. apply (Hl id'). rewrite lookup_insert_ne; [done|]. intros ->. congruence.
Qed.

Record accounted (s : store) : Prop := {
  acc_used : forall b v, budgets s !! b = Some v -> used_bytes_ v = held s b;
  acc_bound : forall b v, budgets s !! b = Some v -> 0 <= used_bytes_ v <= maximum_bytes_ v /\ maximum_bytes_ v < two64;
  acc_lease : forall id l, leases s !! id = Some l -> 0 <= bytes_ l /\
    match budget_ l with Some b => is_Some (budgets s !! b) | None => bytes_ l = 0 end
}.

(** A lease holds no more than its budget has in use. *)
Lemma lease_le_used s id l b v : accounted s -> leases s !! id = Some l -> budget_ l = Some b ->
  budgets s !! b = Some v -> 0 <= bytes_ l <= used_bytes_ v.
Proof.
  intros Hs Hid Hb Hv. split; [by apply (acc_lease s Hs id l Hid)|].
  rewrite (acc_used s Hs b v Hv). unfold held. rewrite (held_delete _ b id l Hid). unfold share.
  rewrite bool_decide_eq_true_2 by done. enough (0 <= held_in (delete id (leases s)) b) by lia.
  apply held_nonneg. intros id' l' [_ Hl]%lookup_delete_Some. by apply (acc_lease s Hs id' l').
Qed.

(** A budget and one of its leases change together. *)
Lemma accounted_update s id l b v l' v' :
  accounted s -> leases s !! id = Some l -> budget_ l = Some b -> budgets s !! b = Some v ->
  maximum_bytes_ v' = maximum_bytes_ v -> 0 <= used_bytes_ v' <= maximum_bytes_ v ->
  used_bytes_ v' - used_bytes_ v = share b l' - bytes_ l -> 0 <= bytes_ l' ->
  (budget_ l' = Some b \/ budget_ l' = None /\ bytes_ l' = 0) ->
  accounted (mk_store (<[b := v']> (budgets s)) (<[id := l']> (leases s))).
Proof.
  intros Hs Hid Hb Hv Hmax Hused Hdiff Hpos Hl'. pose proof (acc_used s Hs b v Hv) as Hu.
  assert (forall b', held_in (<[id := l']> (leases s)) b' = held s b' + share b' l' - share b' l) as Hheld
    by (intros b'; rewrite held_insert, Hid; done).
  assert (share b l = bytes_ l) as Hsl by (unfold share; by rewrite bool_decide_eq_true_2).
  split; cbn [budgets leases]; unfold held; cbn [leases].
  - intros b' w. rewrite Hheld. destruct (decide (b' = b)) as [->|Hne].
    + rewrite lookup_insert_eq. intros [= <-]. lia.
    + rewrite lookup_insert_ne by done. intros Hw. rewrite (acc_used s Hs b' w Hw).
      assert (share b' l = 0) as -> by (unfold share; rewrite Hb; rewrite bool_decide_eq_false_2; congruence).
      assert (share b' l' = 0) as ->; [|lia]. unfold share.
      destruct Hl' as [->|[-> _]]; rewrite bool_decide_eq_false_2; congruence.
  - intros b' w. destruct (decide (b' = b)) as [->|Hne].
    + rewrite lookup_insert_eq. intros [= <-]. rewrite Hmax. destruct (acc_bound s Hs b v Hv). lia.
    + rewrite lookup_insert_ne by done. apply Hs.
  - intros id' m. assert (forall c, is_Some (budgets s !! c) -> is_Some (<[b := v']> (budgets s) !! c)) as Hsome
      by (intros c Hc; apply lookup_insert_is_Some'; by right).
    destruct (decide (id' = id)) as [->|Hne].
    + rewrite lookup_insert_eq. intros [= <-]. split; [done|].
      destruct Hl' as [->|[-> ?]]; [apply Hsome; eauto|done].
    + rewrite lookup_insert_ne by done. intros Hm. destruct (acc_lease s Hs id' m Hm) as [H1 H2]. split; [done|].
      destruct (budget_ m); [by apply Hsome|done].
Qed.

(** A change of the leases that keeps every budget's share, and of the budgets' counters of refusals. *)
Lemma accounted_same s s' :
  accounted s ->
  (forall b v', budgets s' !! b = Some v' -> exists v, budgets s !! b = Some v /\
    maximum_bytes_ v' = maximum_bytes_ v /\ used_bytes_ v' = used_bytes_ v) ->
  (forall b, is_Some (budgets s !! b) -> is_Some (budgets s' !! b)) ->
  (forall b, held s' b = held s b) ->
  (forall id l, leases s' !! id = Some l -> (exists id0, leases s !! id0 = Some l) \/
    bytes_ l = 0 /\ match budget_ l with Some b => is_Some (budgets s !! b) | None => True end) ->
  accounted s'.
Proof.
  intros Hs Hb Hsome Hh Hl. split.
  - intros b v' Hv'. destruct (Hb b v' Hv') as (v & Hv & _ & Hu). rewrite Hu, Hh. by apply Hs.
  - intros b v' Hv'. destruct (Hb b v' Hv') as (v & Hv & -> & ->). by apply (acc_bound s Hs b).
  - intros id l Hid. destruct (Hl id l Hid) as [[id0 H0]|[H0 H1]].
    + destruct (acc_lease s Hs id0 l H0) as [? H2]. split; [done|]. destruct (budget_ l); auto.
    + split; [lia|]. destruct (budget_ l); auto.
Qed.

Lemma share_zero b l : bytes_ l = 0 -> share b l = 0.
Proof. intros H. unfold share. by case_bool_decide. Qed.

Lemma reserve_granted v bytes v' : reserve v bytes = (v', true) -> 0 <= used_bytes_ v <= maximum_bytes_ v ->
  maximum_bytes_ v < two64 -> is_u64 bytes ->
  maximum_bytes_ v' = maximum_bytes_ v /\ used_bytes_ v' = used_bytes_ v + bytes /\ used_bytes_ v + bytes <= maximum_bytes_ v.
Proof.
  unfold reserve, is_u64. intros Hr Hu Hm Hb. destruct (Z.eqb_spec bytes 0); [simplify_eq; lia|].
  destruct (_ || _) eqn:E; [done|]. simplify_eq. reflect_bool. rewrite u64_small in H0 by (unfold is_u64; lia).
  cbn [maximum_bytes_ used_bytes_]. rewrite u64_small by (unfold is_u64; lia). lia.
Qed.

Lemma reserve_refused v bytes v' : reserve v bytes = (v', false) ->
  maximum_bytes_ v' = maximum_bytes_ v /\ used_bytes_ v' = used_bytes_ v.
Proof.
  unfold reserve. destruct (bytes =? 0); [done|]. destruct (_ || _); [|done]. by intros [= <-].
Qed.

Lemma try_grow_accounted s id bytes : accounted s -> is_u64 bytes -> accounted (fst (try_grow s id bytes)).
Proof.
  intros Hs Hb. unfold try_grow. destruct (leases s !! id) as [[[b|] n]|] eqn:Hid; [|done..].
  destruct (acc_lease s Hs id _ Hid) as [Hn [v Hv]]. cbn [budget_ bytes_] in *. rewrite Hv.
  destruct (acc_bound s Hs b v Hv) as [Hu Hm]. destruct (reserve v bytes) as [v' []] eqn:Er; cbn [fst].
  - apply reserve_granted in Er as (E1 & E2 & E3); [|done..]. pose proof (lease_le_used s id _ b v Hs Hid eq_refl Hv) as Hle.
    cbn [bytes_] in Hle. rewrite (u64_small (n + bytes)) by (unfold is_u64 in *; lia).
    apply (accounted_update s id (mk_lease (Some b) n) b v); [done|done|done|done|done|unfold is_u64 in *; lia| |cbn [bytes_]; unfold is_u64 in *; lia|by left].
    unfold share. rewrite bool_decide_eq_true_2 by done. cbn [bytes_]. lia.
  - apply reserve_refused in Er as [E1 E2]. apply (accounted_same s); cbn [budgets leases set_budget]; [done| | |done|eauto].
    + intros c w. destruct (decide (c = b)) as [->|]; [rewrite lookup_insert_eq; intros [= <-]; eauto|].
      rewrite lookup_insert_ne by done. eauto.
    + intros c Hc. apply lookup_insert_is_Some'. by right.
Qed.

Lemma release_spec v bytes : 0 <= bytes <= used_bytes_ v -> used_bytes_ v < two64 ->
  maximum_bytes_ (release v bytes) = maximum_bytes_ v /\ used_bytes_ (release v bytes) = used_bytes_ v - bytes.
Proof.
  intros H1 H2. unfold release. destruct (Z.eqb_spec bytes 0); cbn [negb]; [subst; split; [done|lia]|].
  cbn [maximum_bytes_ used_bytes_]. by rewrite u64_small by (unfold is_u64; lia).
Qed.

Lemma shrink_accounted s id bytes : accounted s -> is_u64 bytes -> accounted (shrink s id bytes).
Proof.
  intros Hs Hb. unfold shrink. destruct (leases s !! id) as [[[b|] n]|] eqn:Hid; [|done..].
  destruct (bytes =? 0); [done|]. destruct (acc_lease s Hs id _ Hid) as [Hn [v Hv]]. cbn [budget_ bytes_] in *. rewrite Hv.
  destruct (acc_bound s Hs b v Hv) as [Hu Hm]. pose proof (lease_le_used s id _ b v Hs Hid eq_refl Hv) as Hle.
  cbn [bytes_] in Hle. unfold is_u64 in Hb. destruct (release_spec v (Z.min bytes n)) as [R1 R2]; [lia|lia|].
  rewrite u64_small by (unfold is_u64; lia).
  apply (accounted_update s id (mk_lease (Some b) n) b v); [done|done|done|done|done|lia| |cbn [bytes_]; lia|by left].
  unfold share. rewrite bool_decide_eq_true_2 by done. cbn [bytes_]. lia.
Qed.

(** After [reset] the lease refers to no budget and holds nothing. *)
Lemma reset_accounted s id : accounted s -> is_Some (leases s !! id) ->
  accounted (reset s id) /\ leases (reset s id) = <[id := mk_lease None 0]> (leases s) /\
  (forall b, is_Some (budgets s !! b) <-> is_Some (budgets (reset s id) !! b)).
Proof.
  intros Hs [[[b|] n] Hid]; unfold reset; rewrite Hid; destruct (acc_lease s Hs id _ Hid) as [Hn Hb]; cbn [budget_ bytes_] in *.
  - destruct Hb as [v Hv]. rewrite Hv. destruct (acc_bound s Hs b v Hv) as [Hu Hm].
    pose proof (lease_le_used s id _ b v Hs Hid eq_refl Hv) as Hle. cbn [bytes_] in Hle.
    destruct (release_spec v n) as [R1 R2]; [lia|lia|]. split_and!; [|done|].
    + apply (accounted_update s id (mk_lease (Some b) n) b v); [done|done|done|done|done|lia| |cbn; lia|by right].
      unfold share. rewrite bool_decide_eq_false_2 by done. cbn [bytes_]. lia.
    + intros c. cbn [budgets set_lease set_budget]. rewrite lookup_insert_is_Some'. naive_solver.
  - subst n. split_and!; [|done|done]. unfold set_lease. rewrite insert_id by done. by destruct s.
Qed.

(** Handing a lease over to a name that holds nothing. *)
Lemma move_from_accounted s id other l : accounted s -> leases s !! other = Some l -> id <> other ->
  (leases s !! id = None \/ leases s !! id = Some (mk_lease None 0)) -> accounted (move_from s id other).
Proof.
  intros Hs Ho Hne Hid. unfold move_from. rewrite Ho. apply (accounted_same s); cbn [budgets leases set_lease]; [done|eauto|done| |].
  - intros b. unfold held. cbn [leases set_lease]. rewrite !held_insert, lookup_insert_ne, Ho by done.
    rewrite (share_zero b (mk_lease None 0)) by done. destruct Hid as [->| ->]; [lia|].
    rewrite (share_zero b (mk_lease None 0)) by done. lia.
  - intros i m. destruct (decide (i = id)) as [->|]; [rewrite lookup_insert_eq; intros [= <-]; eauto|].
    rewrite lookup_insert_ne by done. destruct (decide (i = other)) as [->|]; [rewrite lookup_insert_eq; intros [= <-]; by right|].
    rewrite lookup_insert_ne by done. eauto.
Qed.

Lemma perform_accounted s op : accounted s -> allowed s op -> accounted (perform s op).
Proof.
  intros Hs Ha. destruct op as [b id|id n|id n|id other|id other|id]; cbn [perform allowed] in *.
  - destruct Ha as [Hb Hid]. apply (accounted_same s); [done|cbn; eauto|done| |].
    + intros c. unfold held. cbn [leases lease set_lease]. rewrite held_insert, Hid. rewrite share_zero by done. lia.
    + intros i l. cbn [leases lease set_lease]. destruct (decide (i = id)) as [->|].
      * rewrite lookup_insert_eq. intros [= <-]. right. done.
      * rewrite lookup_insert_ne by done. eauto.
  - destruct Ha. by apply try_grow_accounted.
  - destruct Ha. by apply shrink_accounted.
  - destruct Ha as [Hid [l Ho]]. unfold move_construct. apply (move_from_accounted s id other l); auto. intros ->. congruence.
  - destruct Ha as [Hid [l Ho]]. unfold move_assign. destruct (Nat.eqb_spec id other); [done|].
    destruct (reset_accounted s id Hs Hid) as (H1 & H2 & _).
    apply (move_from_accounted _ id other l); [done| |done|right; by rewrite H2, lookup_insert_eq].
    by rewrite H2, lookup_insert_ne.
  - destruct (reset_accounted s id Hs Ha) as (H1 & H2 & _). unfold destroy.
    apply (accounted_same (reset s id)); [done|cbn; eauto|done| |].
    + intros b. unfold held. cbn [leases]. rewrite H2. rewrite (held_delete (<[id := mk_lease None 0]> (leases s)) b id (mk_lease None 0))
        by apply lookup_insert_eq. rewrite share_zero by done. lia.
    + intros i l. cbn [leases]. intros [_ Hl]%lookup_delete_Some. eauto.
Qed.

(** No operation changes a budget's maximum. *)
Definition same_maxima (s s' : store) : Prop := maximum_bytes_ <$> budgets s' = maximum_bytes_ <$> budgets s.

Lemma set_budget_maxima s b v v' : budgets s !! b = Some v -> maximum_bytes_ v' = maximum_bytes_ v ->
  same_maxima s (set_budget s b v').
Proof.
  intros Hv Hm. unfold same_maxima. cbn [budgets set_budget]. rewrite fmap_insert, Hm. apply insert_id.
  by rewrite lookup_fmap, Hv.
Qed.

Lemma reserve_maximum v n : maximum_bytes_ (fst (reserve v n)) = maximum_bytes_ v.
Proof. unfold reserve. by repeat case_match. Qed.
Lemma release_maximum v n : maximum_bytes_ (release v n) = maximum_bytes_ v.
Proof. unfold release. by case_match. Qed.

Lemma reset_maxima s id : same_maxima s (reset s id).
Proof.
  unfold reset. destruct (leases s !! id) as [[[b|] n]|]; [|done|done]. destruct (budgets s !! b) as [v|] eqn:Hv; [|done].
  apply (set_budget_maxima s b v _ Hv), release_maximum.
Qed.

Lemma move_from_maxima s id other : same_maxima s (move_from s id other).
Proof. unfold move_from. by destruct (leases s !! other). Qed.

Lemma perform_maxima s op : same_maxima s (perform s op).
Proof.
  destruct op as [b id|id n|id n|id other|id other|id]; cbn [perform].
  - done.
  - unfold try_grow. destruct (leases s !! id) as [[[b|] m]|]; [|done|done]. destruct (budgets s !! b) as [v|] eqn:Hv; [|done].
    pose proof (reserve_maximum v n) as Hr. destruct (reserve v n) as [v' []]; by apply (set_budget_maxima s b v v' Hv).
  - unfold shrink. destruct (leases s !! id) as [[[b|] m]|]; [|done|done]. destruct (n =? 0); [done|].
    destruct (budgets s !! b) as [v|] eqn:Hv; [|done]. apply (set_budget_maxima s b v _ Hv), release_maximum.
  - apply move_from_maxima.
  - unfold move_assign. destruct (id =? other)%nat; [done|]. unfold same_maxima. rewrite move_from_maxima. apply reset_maxima.
  - apply reset_maxima.
Qed.

Lemma reachable_accounted maxima s :
  (forall b m, maxima !! b = Some m -> is_u64 m) -> reachable maxima s ->
  accounted s /\ maximum_bytes_ <$> budgets s = maxima.
Proof.
  intros Hm Hr. induction Hr as [|s op Hr [IH1 IH2] Ha].
  - split; [split|]; cbn [budgets leases].
    + intros b v. rewrite lookup_fmap. destruct (maxima !! b) as [m|]; [|done]. intros [= <-]. done.
    + intros b v. rewrite lookup_fmap. destruct (maxima !! b) as [m|] eqn:E; [|done]. intros [= <-]. apply Hm in E.
      unfold is_u64 in E. cbn. lia.
    + intros id l. by rewrite lookup_empty.
    + apply map_eq. intros b. rewrite !lookup_fmap. by destruct (maxima !! b).
  - split; [by apply perform_accounted|]. by rewrite perform_maxima.
Qed.

(** However buffers grow, shrink, move between owners and end, a budget's use is exactly what
    its live leases hold together, never exceeds its maximum, and is zero when no lease is left. *)
Theorem budget_accounts (maxima : gmap nat Z) (s : store) (b : nat) (v : buffered_bytes_budget) :
  (forall b m, maxima !! b = Some m -> is_u64 m) -> reachable maxima s -> budgets s !! b = Some v ->
  used_bytes_ v = held s b /\ 0 <= used_bytes_ v <= maximum_bytes_ v /\ maxima !! b = Some (maximum_bytes_ v) /\
  (leases s = ∅ -> used_bytes_ v = 0).
Proof.
  intros Hm Hr Hv. destruct (reachable_accounted maxima s Hm Hr) as [Hs Hmax].
  assert (used_bytes_ v = held s b) as Hu by by apply Hs. split; [done|]. split; [by apply (acc_bound s Hs b)|]. split.
  - rewrite <- Hmax, lookup_fmap, Hv. done.
  - intros He. rewrite Hu. unfold held, held_in. by rewrite He, map_fold_empty.
Qed.

(** A reservation is granted exactly when it fits what is left of the budget; a refusal changes
    nothing but the count of refusals. *)
Theorem try_grow_exact (maxima : gmap nat Z) (s : store) (id b : nat) (n bytes : Z) (v : buffered_bytes_budget) :
  (forall b m, maxima !! b = Some m -> is_u64 m) -> reachable maxima s -> is_u64 bytes ->
  leases s !! id = Some (mk_lease (Some b) n) -> budgets s !! b = Some v ->
  let '(s', granted) := try_grow s id bytes in
  granted = (used_bytes_ v + bytes <=? maximum_bytes_ v) /\
  leases s' !! id = Some (mk_lease (Some b) (if granted then n + bytes else n)) /\
  (used_bytes_ <$> budgets s' !! b) = Some (if granted then used_bytes_ v + bytes else used_bytes_ v).
Proof.
  intros Hm Hr Hb Hid Hv. destruct (reachable_accounted maxima s Hm Hr) as [Hs _].
  destruct (acc_bound s Hs b v Hv) as [Hu Hmax]. pose proof (lease_le_used s id _ b v Hs Hid eq_refl Hv) as Hle.
  cbn [bytes_] in Hle. unfold try_grow. rewrite Hid, Hv. destruct (reserve v bytes) as [v' []] eqn:Er.
  - apply reserve_granted in Er as (E1 & E2 & E3); [|done..]. cbn [leases budgets set_lease set_budget].
    rewrite !lookup_insert_eq, u64_small by (unfold is_u64 in *; lia). cbn. rewrite E2. split_and!; [|done|done].
    symmetry. apply Z.leb_le. lia.
  - pose proof (reserve_refused v bytes v' Er) as [E1 E2]. cbn [leases budgets set_budget].
    rewrite Hid, lookup_insert_eq. cbn. rewrite E2. split_and!; [|done|done]. symmetry. apply Z.leb_gt.
    unfold reserve in Er. destruct (Z.eqb_spec bytes 0); [done|]. destruct (_ || _) eqn:E; [|done].
    unfold is_u64 in *. apply orb_true_iff in E as [E|E]; reflect_bool; [lia|].
    destruct (Z.le_gt_cases bytes (maximum_bytes_ v)); [|lia]. rewrite u64_small in E by (unfold is_u64; lia). lia.
Qed.

(** A budget of 100 with two leases: 60 of 100 held, 50 more refused, then handed over. *)
Definition example_start : store := mk_store (new_budget <$> ({[ 0%nat := 100 ]} : gmap nat Z)) ∅.
Definition example_history : list operation :=
  [Lease 0 1; Lease 0 2; TryGrow 1 60; TryGrow 2 50; MoveAssign 2 1].

Lemma example_maxima (b : nat) m : ({[ 0%nat := 100 ]} : gmap nat Z) !! b = Some m -> is_u64 m.
Proof. intros [_ <-]%lookup_singleton_Some. by split. Qed.

Lemma example_reachable : reachable {[ 0%nat := 100 ]} (fold_left perform example_history example_start).
Proof.
  cbn [fold_left example_history].
  repeat (apply reach_step; [|cbn [allowed]; split; try (by vm_compute; eauto); by split]). apply reach_init.
Qed.

Lemma budget_accounts_witness :
  let s := fold_left perform example_history example_start in
  exists v, budgets s !! 0%nat = Some v /\ used_bytes_ v = held s 0 /\ used_bytes_ v = 60 /\ rejected_reservations_ v = 1.
Proof.
  intros s. exists (mk_budget 100 60 1). split; [by vm_compute|]. split; [|done].
  apply (budget_accounts {[ 0%nat := 100 ]} s 0 (mk_budget 100 60 1) example_maxima example_reachable). by vm_compute.
Defined.

Lemma try_grow_exact_witness :
  let s := fold_left perform example_history example_start in
  snd (try_grow s 2 40) = true /\ snd (try_grow s 2 41) = false.
Proof.
  intros s.
  assert (leases s !! 2%nat = Some (mk_lease (Some 0%nat) 60)) as Hl by by vm_compute.
  assert (budgets s !! 0%nat = Some (mk_budget 100 60 1)) as Hb by by vm_compute.
  pose proof (try_grow_exact {[ 0%nat := 100 ]} s 2 0 60 40 _ example_maxima example_reachable ltac:(by split) Hl Hb) as H1.
  pose proof (try_grow_exact {[ 0%nat := 100 ]} s 2 0 60 41 _ example_maxima example_reachable ltac:(by split) Hl Hb) as H2.
  destruct (try_grow s 2 40) as [s1 g1], (try_grow s 2 41) as [s2 g2]. split; [apply H1|apply H2].
Defined.

(** * Capacity *)

Record cache_resource_capacity := mk_capacity { total_ : Z; available_ : Z }.

Definition cache_capacity_limit (resource : option cache_resource_capacity) (used fixed percent reserved : Z) : Z :=
  match resource with
  | None => if negb (percent =? 0) || negb (reserved =? 0) then 0 else fixed
  | Some r =>
      let configured :=
        if negb (percent =? 0)
        then u64 (u64 (total_ r / 100 * percent) + u64 (total_ r mod 100 * percent) / 100) else fixed in
      let available := Z.min (available_ r) (total_ r) in
      let recoverable := Z.min (total_ r) (u64 (available + Z.min used (u64 (total_ r - available)))) in
      Z.min configured (if reserved <? recoverable then u64 (recoverable - reserved) else 0)
  end.

(** The limit is the configured share of the resource, computed exactly and without overflow,
    cut to what is available or already used by the cache, less the reserve; in particular the
    cache's own use never shrinks its limit. *)
Theorem capacity_limit_exact (r : cache_resource_capacity) (used fixed percent reserved : Z) :
  is_u64 (total_ r) -> is_u64 (available_ r) -> is_u64 used -> is_u64 fixed -> is_u64 reserved -> 0 <= percent <= 100 ->
  cache_capacity_limit (Some r) used fixed percent reserved =
    Z.min (if percent =? 0 then fixed else total_ r * percent / 100)
      (Z.max 0 (Z.min (total_ r) (Z.min (available_ r) (total_ r) + used) - reserved)).
Proof.
  unfold is_u64. intros Ht Ha Hu Hf Hr Hp. unfold cache_capacity_limit.
  pose proof (Z.div_mod (total_ r) 100 ltac:(lia)) as Hdm. pose proof (Z.mod_pos_bound (total_ r) 100 ltac:(lia)) as Hmod.
  assert (total_ r / 100 * percent + total_ r mod 100 * percent / 100 = total_ r * percent / 100) as Hexact.
  { rewrite Hdm at 3. replace ((100 * (total_ r / 100) + total_ r mod 100) * percent) with
      (total_ r mod 100 * percent + total_ r / 100 * percent * 100) by lia. rewrite Z.div_add by lia. lia. }
  assert (0 <= total_ r / 100) as Hd0 by (apply Z.div_pos; lia).
  assert (total_ r / 100 * percent <= total_ r / 100 * 100) by (apply Z.mul_le_mono_nonneg_l; lia).
  assert (0 <= total_ r / 100 * percent) by (apply Z.mul_nonneg_nonneg; lia).
  assert (total_ r mod 100 * percent <= total_ r mod 100 * 100) by (apply Z.mul_le_mono_nonneg_l; lia).
  assert (0 <= total_ r mod 100 * percent) by (apply Z.mul_nonneg_nonneg; lia).
  assert (0 <= total_ r * percent / 100 <= total_ r) as Hq
    by (split; [apply Z.div_pos; nia|apply Z.div_le_upper_bound; nia]).
  assert (0 <= total_ r mod 100 * percent / 100) by (apply Z.div_pos; lia).
  unfold two64 in *.
  rewrite (u64_small (total_ r / 100 * percent)), (u64_small (total_ r mod 100 * percent)) by (unfold is_u64, two64; lia).
  rewrite Hexact, (u64_small (total_ r * percent / 100)) by (unfold is_u64, two64; lia).
  set (available := Z.min (available_ r) (total_ r)).
  assert (0 <= available <= total_ r) as Hav by lia. clearbody available.
  rewrite (u64_small (total_ r - available)) by (unfold is_u64, two64; lia).
  rewrite (u64_small (available + _)) by (unfold is_u64, two64; lia).
  set (recoverable := Z.min (total_ r) (available + Z.min used (total_ r - available))).
  assert (recoverable = Z.min (total_ r) (available + used)) as Hrec by lia. rewrite <- Hrec.
  assert (0 <= recoverable <= total_ r) by lia. clearbody recoverable.
  destruct (Z.ltb_spec reserved recoverable); [rewrite (u64_small (recoverable - reserved)) by (unfold is_u64, two64; lia)|];
    destruct (Z.eqb_spec percent 0); cbn [negb]; lia.
Qed.

Lemma capacity_limit_exact_witness :
  cache_capacity_limit (Some (mk_capacity 18446744073709551615 7)) 100 0 50 10 = 97.
Proof.
  rewrite (capacity_limit_exact (mk_capacity 18446744073709551615 7) 100 0 50 10); [by vm_compute|by split..].
Defined.
