(* ===== verification/SecurityPolicy.v ===== *)
(** Security policies: src/node/proto/security_validation.cpp and src/node/data/security_program.h.

    The protocol rules of a policy, checked by the control plane before it publishes and by the node
    before it serves; the program a data worker compiles from the policies of its configuration; and
    the evaluation of a request, which consults the worker's request counters. *)
From S2P Require Import Prelude RoutePolicy RouteMatch RequestExpression MatchList ExpressionProgram CcProtection.
Open Scope Z_scope.

(** * The messages of edge_control.proto *)

Record security_list_entry := SecurityListEntry { entry_value : bytes; entry_expires_unix_ms : Z }.
Record security_list := SecurityList { list_name : bytes; list_type : bytes; list_entries : list bytes; list_members : list security_list_entry }.
Record security_rule := SecurityRule {
  rule_id : bytes; rule_enabled : bool; rule_expression : bytes; rule_action : bytes; rule_response_status : Z;
  rule_response_content_type : bytes; rule_response_body : bytes; rule_name : bytes; skip_stages : list bytes }.
Record cc_rule := CcRule {
  cc_id : bytes; cc_enabled : bool; cc_expression : bytes; cc_requests : Z; cc_window_seconds : Z; cc_mitigation_seconds : Z;
  cc_action : bytes; cc_name : bytes; cc_response_status : Z; cc_response_content_type : bytes; cc_response_body : bytes }.
Record managed_security := ManagedSecurity {
  managed_enabled : bool; paranoia_level : Z; inbound_threshold : Z; body_limit_bytes : Z; detection_only : bool; excluded_rules : list Z }.
Record security_policy := SecurityPolicy {
  policy_id : bytes; policy_name : bytes; policy_revision : Z; custom_rules : list security_rule; cc_rules : list cc_rule;
  managed : option managed_security; policy_lists : list security_list }.

(** The protobuf library: the encoded size of a policy, whether a text is a JSON value, and the
    digest of the deterministic encoding of a policy. *)
Class SecurityLibraries := {
  byte_size : security_policy -> Z;
  json_value : bytes -> bool;
  policy_digest : security_policy -> bytes
}.

(** * Loops that insert into a set

    [for (value : values) if (!ok(value) || !seen.emplace(key(value)).second) return false;] *)

Section Distinct.
Context {A K : Type} `{EqDecision K}.
Fixpoint distinct_loop (ok : A -> bool) (key : A -> K) (seen : list K) (values : list A) : bool :=
  match values with
  | [] => true
  | value :: values =>
      if negb (ok value) || bool_decide (key value ∈ seen) then false
      else distinct_loop ok key (key value :: seen) values
  end.

Lemma distinct_loop_spec ok key seen values :
  distinct_loop ok key seen values = true <->
  Forall (fun v => ok v = true) values /\ NoDup (map key values) /\ (forall k, k ∈ map key values -> k ∉ seen).
Proof.
  revert seen. induction values as [|v values IH]; intros seen; cbn [distinct_loop map].
  - split; [|done]. intros _. split_and!; [by constructor|by constructor|by intros k ?%not_elem_of_nil].
  - destruct (ok v) eqn:Ev; cbn [negb orb].
    + case_bool_decide as Hin.
      * split; [done|]. intros (_ & _ & Hn). exfalso. apply (Hn (key v)); [by left|done].
      * rewrite IH, NoDup_cons, Forall_cons. split.
        -- intros (Hf & Hd & Hn). split_and!; [done..| |done|].
           ++ intros Hk. apply (Hn _ Hk). by left.
           ++ intros k [->|Hk]%elem_of_cons; [done|]. intros Hs. apply (Hn k Hk). by right.
        -- intros ([_ Hf] & [Hnk Hd] & Hn). split_and!; [done..|].
           intros k Hk [->|Hs]%elem_of_cons; [done|]. by apply (Hn k); [right|].
    + split; [done|]. intros [Hf _]. apply Forall_cons in Hf as [? _]. congruence.
Qed.
End Distinct.

Lemma distinct_loop_nil {A K} `{EqDecision K} ok (key : A -> K) values :
  distinct_loop ok key [] values = true <-> Forall (fun v => ok v = true) values /\ NoDup (map key values).
Proof. rewrite distinct_loop_spec. split; [tauto|]. intros [? ?]. split_and!; [done..|]. by intros k _ ?%not_elem_of_nil. Qed.

(** [for (value : values) check(value);] where [check] throws. *)
Definition check_all {A} (check : A -> throwing unit) (values : list A) : throwing unit :=
  throwing_fold (fun _ value => check value) tt values.

Lemma check_all_spec {A} (check : A -> throwing unit) values :
  check_all check values = Returns tt <-> Forall (fun v => check v = Returns tt) values.
Proof.
  unfold check_all. induction values as [|v values IH]; cbn [throwing_fold]; [done|].
  rewrite Forall_cons. destruct (check v) as [[]|m]; cbn [throwing_bind]; [|by split; [|intros [? _]]].
  rewrite IH. naive_solver.
Qed.

(** * Validation: security_validation.cpp *)

Section Validation.
Context `{Re2} `{Asio} `{SecurityLibraries}.

Definition reject {A} (message : string) : throwing A := Throws (lit message).

Definition validate_ip (item : bytes) : throwing unit :=
  let slash := find_char "/" item in
  match make_address (upto slash item) with
  | None => reject "invalid IP or CIDR"
  | Some ip =>
      if refused ip then reject "invalid IP or CIDR"
      else match slash with
           | None => Returns tt
           | Some _ =>
               match from_chars 4294967295 (after slash item) with
               | Some (prefix, []) => if (if is_v4 ip then 32 else 128) <? prefix then reject "invalid CIDR prefix" else Returns tt
               | _ => reject "invalid CIDR prefix"
               end
           end
  end.

Definition list_name_char (c : ascii) : bool := is_lower c || is_digit c || (c == "_"%char).
Definition known_list_type (type : bytes) : bool :=
  (type == lit "ip") || (type == lit "asn") || (type == lit "country") || (type == lit "user_agent").
Definition validate_item (type item : bytes) : throwing unit :=
  if empty item || (2048 <? size item) || negb (clean_text item 2048) then reject "invalid security list value"
  else throwing_bind (if type == lit "ip" then validate_ip item else Returns tt) (fun _ =>
    if (type == lit "country") && negb (country_ok item) then reject "invalid security country code"
    else if (type == lit "asn") && negb (asn_ok item) then reject "invalid ASN"
    else Returns tt).
(** The names with their types, and the number of entries so far. *)
Definition validate_list (state : gmap bytes bytes * Z) (l : security_list) : throwing (gmap bytes bytes * Z) :=
  let '(lists, entries) := state in
  if empty (list_name l) || (100 <? size (list_name l)) || negb (forallb list_name_char (list_name l)) ||
     present (lists !! list_name l) || negb (known_list_type (list_type l))
  then reject "invalid security list"
  else
    let entries := entries + (size (list_entries l) + size (list_members l)) in
    if 100000 <? entries then reject "too many security list entries"
    else
      throwing_bind (check_all (validate_item (list_type l)) (list_entries l)) (fun _ =>
      throwing_bind (check_all (fun item => validate_item (list_type l) (entry_value item)) (list_members l)) (fun _ =>
      Returns (<[list_name l := list_type l]> lists, entries))).

Definition list_type_of (field : bytes) : bytes :=
  if field == lit "ip.src" then lit "ip"
  else if field == lit "ip.src.asnum" then lit "asn"
  else if field == lit "ip.src.country" then lit "country"
  else if field == lit "http.user_agent" then lit "user_agent"
  else [].
Definition validate_instruction (lists : gmap bytes bytes) (i : expression_instruction) : throwing unit :=
  if field_ i == lit "ip.src.asnum" then reject "ASN matching is unavailable: no ASN database is configured"
  else if negb (empty (list_ i)) && match lists !! list_ i with None => true | Some type => type != list_type_of (field_ i) end
  then reject "security list field/type mismatch"
  else if field_ i == lit "ip.src" then
    if lower_ i || ((comparison_ i != lit "eq") && (comparison_ i != lit "ne") && (comparison_ i != lit "in"))
    then reject "invalid IP comparison"
    else check_all validate_ip (values_ i)
  else Returns tt.
(** [parse_spec] excludes the last case. *)
Definition validate_rule_expression (lists : gmap bytes bytes) (text : bytes) : throwing unit :=
  match parse security text with
  | Ok program _ => check_all (validate_instruction lists) program
  | Fail message => Throws message
  | NoFuel => Throws []
  end.

Definition skip_stage (stage : bytes) : bool := (stage == lit "custom") || (stage == lit "rate") || (stage == lit "managed").
Definition valid_response_status (status : Z) : bool := (status =? 0) || ((400 <=? status) && (status <=? 499)).
Definition valid_response_type (type : bytes) : bool :=
  empty type || (type == lit "text/plain") || (type == lit "text/html") || (type == lit "application/json") || (type == lit "application/xml").
Definition validate_custom_rule (lists : gmap bytes bytes) (ids : gset bytes) (rule : security_rule) : throwing (gset bytes) :=
  if negb (clean_text (rule_name rule) 256) then reject "invalid rule name"
  else if negb (distinct_loop skip_stage id [] (skip_stages rule)) then reject "invalid skip stage"
  else
    throwing_bind (validate_rule_expression lists (rule_expression rule)) (fun _ =>
    if (rule_response_content_type rule == lit "application/json") && negb (empty (rule_response_body rule)) && negb (json_value (rule_response_body rule))
    then reject "invalid custom JSON response"
    else if empty (rule_id rule) || (100 <? size (rule_id rule)) || bool_decide (rule_id rule ∈ ids) ||
       ((rule_action rule != lit "block") && (rule_action rule != lit "log") && (rule_action rule != lit "skip")) ||
       (2048 <? size (rule_response_body rule)) || negb (valid_utf8 (rule_response_body rule)) ||
       negb (valid_response_status (rule_response_status rule)) || negb (valid_response_type (rule_response_content_type rule))
    then reject "invalid custom security rule"
    else Returns ({[rule_id rule]} ∪ ids)).
Definition validate_cc_rule (lists : gmap bytes bytes) (ids : gset bytes) (rule : cc_rule) : throwing (gset bytes) :=
  if negb (clean_text (cc_name rule) 256) then reject "invalid CC rule name"
  else
    throwing_bind (validate_rule_expression lists (cc_expression rule)) (fun _ =>
    if (2048 <? size (cc_response_body rule)) || negb (valid_utf8 (cc_response_body rule)) ||
       negb (valid_response_status (cc_response_status rule)) || negb (valid_response_type (cc_response_content_type rule))
    then reject "invalid CC response"
    else if (cc_response_content_type rule == lit "application/json") && negb (empty (cc_response_body rule)) && negb (json_value (cc_response_body rule))
    then reject "invalid CC JSON response"
    else if empty (cc_id rule) || (100 <? size (cc_id rule)) || bool_decide (cc_id rule ∈ ids) ||
       ((cc_action rule != lit "block") && (cc_action rule != lit "log")) ||
       (cc_requests rule =? 0) || (1000000000 <? cc_requests rule) || (cc_window_seconds rule =? 0) ||
       (3600 <? cc_window_seconds rule) || (cc_mitigation_seconds rule =? 0) || (86400 <? cc_mitigation_seconds rule)
    then reject "invalid CC security rule"
    else Returns ({[cc_id rule]} ∪ ids)).
Definition excluded_rule (rule : Z) : bool := (910000 <=? rule) && (rule <=? 949999).
Definition validate_managed (m : managed_security) : throwing unit :=
  if (paranoia_level m <? 1) || (4 <? paranoia_level m) || (inbound_threshold m <? 1) || (1000 <? inbound_threshold m) ||
     (body_limit_bytes m <? 1024) || (8 * 1024 * 1024 <? body_limit_bytes m) || (512 <? size (excluded_rules m))
  then reject "invalid managed security settings"
  else if negb (distinct_loop excluded_rule id [] (excluded_rules m)) then reject "invalid managed security rule exclusion"
  else Returns tt.

Definition validate_security (p : security_policy) : throwing unit :=
  if empty (policy_id p) || (100 <? size (policy_id p)) || (policy_revision p <? 1) || (256 <? size (policy_name p)) ||
     (100 <? size (custom_rules p)) || (100 <? size (cc_rules p))
  then reject "invalid security policy"
  else if (100 <? size (policy_lists p)) || (4 * 1024 * 1024 <? byte_size p) then reject "security policy exceeds limits"
  else
    throwing_bind (throwing_fold validate_list (∅, 0) (policy_lists p)) (fun '(lists, _) =>
    throwing_bind (throwing_fold (validate_custom_rule lists) ∅ (custom_rules p)) (fun ids =>
    throwing_bind (throwing_fold (validate_cc_rule lists) ids (cc_rules p)) (fun _ =>
    match managed p with Some m => validate_managed m | None => Returns tt end))).
End Validation.

(** * The program of a worker: security_program.h *)

Section Program.
Context `{Re2Rules} `{Asio} `{SortRanges} `{SecurityLibraries}.

Record security_decision := SecurityDecision {
  status_ : Z; content_type_ : bytes; body_ : bytes; decided_rule_ : bytes; skip_cc_ : bool; skip_managed_ : bool; logged_rules_ : list bytes }.
Definition no_decision : security_decision := SecurityDecision 0 [] [] [] false false [].

Record compiled_policy := CompiledPolicy {
  fingerprint_ : bytes;
  policy_lists_ : gmap bytes request_match_list;
  custom_ : list (security_rule * list compiled_instruction);
  cc_ : list (cc_rule * list compiled_instruction)
}.

(** The policy without the entries of its lists, which the counters do not depend on. *)
Definition counter_source (source : security_policy) : security_policy :=
  SecurityPolicy (policy_id source) (policy_name source) (policy_revision source) (custom_rules source) (cc_rules source) (managed source)
    (map (fun l => SecurityList (list_name l) (list_type l) [] []) (policy_lists source)).

Definition list_values (l : security_list) : list request_list_value :=
  map (fun item => mk_value item 0) (list_entries l) ++ map (fun item => mk_value (entry_value item) (entry_expires_unix_ms item)) (list_members l).
Definition compile_security_list (lists : gmap bytes request_match_list) (l : security_list) : throwing (gmap bytes request_match_list) :=
  if (100000 <? size (list_entries l)) || empty (list_name l) || (100 <? size (list_name l)) then reject "invalid security list"
  else throwing_bind (new_match_list (list_type l) (list_values l)) (fun compiled =>
    if present (lists !! list_name l) then reject "invalid security list" else Returns (<[list_name l := compiled]> lists)).
Definition compile_rules {R} (expression : R -> bytes) (lists : gmap bytes request_match_list) (rules : list R) : throwing (list (R * list compiled_instruction)) :=
  throwing_fold (fun compiled rule => throwing_bind (new_program (expression rule) security lists) (fun program => Returns (compiled ++ [(rule, program)]))) [] rules.
Definition compile_security_policy (source : security_policy) : throwing compiled_policy :=
  throwing_bind (throwing_fold compile_security_list ∅ (policy_lists source)) (fun lists =>
  throwing_bind (compile_rules rule_expression lists (custom_rules source)) (fun custom =>
  throwing_bind (compile_rules cc_expression lists (cc_rules source)) (fun cc =>
  Returns (CompiledPolicy (policy_digest (counter_source source)) lists custom cc)))).

(** The policies by identity, and the policy of each website. *)
Record security_program := SecurityProgram { policies_ : gmap bytes compiled_policy; websites_ : gmap bytes compiled_policy }.
Definition policy_identity (source : security_policy) : bytes := policy_id source ++ lit ":" ++ dec (policy_revision source).
Definition compile_website (program : security_program) (website : bytes * option security_policy) : throwing security_program :=
  match snd website with
  | None => Returns program
  | Some source =>
      throwing_bind
        (match policies_ program !! policy_identity source with
         | Some found => Returns found
         | None => compile_security_policy source
         end) (fun found =>
      let policies := <[policy_identity source := found]> (policies_ program) in
      let websites := match websites_ program !! fst website with Some _ => websites_ program | None => <[fst website := found]> (websites_ program) end in
      Returns (SecurityProgram policies websites))
  end.
Definition new_security_program (websites : list (bytes * option security_policy)) : throwing security_program :=
  throwing_fold compile_website (SecurityProgram ∅ ∅) websites.

(** ** Evaluation

    The loop over the custom rules: [Some (d, true)] when it returns, [Some (d, false)] when the
    evaluation goes on to the counters. *)
Definition matched_status (status fallback : Z) : Z := if status =? 0 then fallback else status mod 65536.
Definition log_rule (d : security_decision) (id : bytes) : security_decision :=
  SecurityDecision (status_ d) (content_type_ d) (body_ d) (decided_rule_ d) (skip_cc_ d) (skip_managed_ d) (logged_rules_ d ++ [id]).
Definition block_with (d : security_decision) (status : Z) (type body rule : bytes) : security_decision :=
  SecurityDecision status type body rule (skip_cc_ d) (skip_managed_ d) (logged_rules_ d).
Definition mem_stage (stage : string) (stages : list bytes) : bool := existsb (fun s => s == lit stage) stages.
Definition apply_skip (d : security_decision) (source : security_rule) : security_decision :=
  let stages := skip_stages source in
  SecurityDecision (status_ d) (content_type_ d) (body_ d) (rule_id source)
    (skip_cc_ d || empty stages || mem_stage "rate" stages) (skip_managed_ d || empty stages || mem_stage "managed" stages)
    (logged_rules_ d ++ [rule_id source]).
Definition skips_custom (source : security_rule) : bool := empty (skip_stages source) || mem_stage "custom" (skip_stages source).

Section Evaluate.
Context (request : rule_match_request) (clock : Z).

Fixpoint custom_loop (rules : list (security_rule * list compiled_instruction)) (d : security_decision) : option (security_decision * bool) :=
  match rules with
  | [] => Some (d, false)
  | (source, expression) :: rules =>
      if negb (rule_enabled source) then custom_loop rules d
      else
        match matches expression request clock with
        | None => None
        | Some false => custom_loop rules d
        | Some true =>
            if rule_action source == lit "skip" then
              let d := apply_skip d source in
              if skips_custom source then Some (d, false) else custom_loop rules d
            else if rule_action source == lit "block" then
              Some (block_with d (matched_status (rule_response_status source) 403) (rule_response_content_type source) (rule_response_body source) (rule_id source), true)
            else custom_loop rules (log_rule d (rule_id source))
        end
  end.

Definition u32 (z : Z) : Z := z mod 4294967296.
Definition rule_limits (source : cc_rule) : cc_limits :=
  mk_limits (cc_requests source) (u32 (cc_window_seconds source * 1000)) (u32 (cc_mitigation_seconds source * 1000)).
Definition counter_key (website fingerprint : bytes) (source : cc_rule) : cc_key := mk_cc_key website fingerprint (cc_id source) (client_ip_ request).

(** The loop over the rate rules, with the counters it changes and the error one of them throws. *)
Fixpoint cc_loop (website fingerprint : bytes) (now : Z) (rules : list (cc_rule * list compiled_instruction)) (d : security_decision) (counters : cc_worker) :
    option (cc_worker * (security_decision + cc_error)) :=
  match rules with
  | [] => Some (counters, inl d)
  | (source, expression) :: rules =>
      if skip_cc_ d then Some (counters, inl d)
      else if negb (cc_enabled source) then cc_loop website fingerprint now rules d counters
      else
        match matches expression request clock with
        | None => None
        | Some false => cc_loop website fingerprint now rules d counters
        | Some true =>
            match CcProtection.check counters (counter_key website fingerprint source) (rule_limits source) now with
            | (counters, inr error) => Some (counters, inr error)
            | (counters, inl outcome) =>
                match outcome with
                | overloaded =>
                    if cc_action source == lit "block" then Some (counters, inl (block_with d 503 (content_type_ d) (body_ d) (cc_id source)))
                    else cc_loop website fingerprint now rules (log_rule d (cc_id source)) counters
                | block =>
                    if cc_action source == lit "block" then
                      Some (counters, inl (block_with d (matched_status (cc_response_status source) 429) (cc_response_content_type source) (cc_response_body source) (cc_id source)))
                    else cc_loop website fingerprint now rules (log_rule d (cc_id source)) counters
                | allow => cc_loop website fingerprint now rules d counters
                end
            end
        end
  end.

Definition evaluate_policy (website : bytes) (policy : compiled_policy) (counters : cc_worker) (now : Z) : option (cc_worker * (security_decision + cc_error)) :=
  match custom_loop (custom_ policy) no_decision with
  | None => None
  | Some (d, true) => Some (counters, inl d)
  | Some (d, false) => cc_loop website (fingerprint_ policy) now (cc_ policy) d counters
  end.
Definition evaluate_security (program : security_program) (website : bytes) (counters : cc_worker) (now : Z) : option (cc_worker * (security_decision + cc_error)) :=
  match websites_ program !! website with
  | None => Some (counters, inl no_decision)
  | Some policy => evaluate_policy website policy counters now
  end.
End Evaluate.
End Program.

(** * Validated policies compile *)

(** [dot_nl] does not make a pattern invalid that compiles without it. *)
Class RulePatterns `{Re2Rules} := { rule_pattern p r : re2_new p = Some r -> is_Some (re2_rule_new true p) }.

Section Compiles.
Context `{Re2Rules} `{!RulePatterns} `{Asio} `{SortRanges} `{SecurityLibraries}.

Lemma validate_ip_network item : validate_ip item = Returns tt -> exists n, parse_network item = Returns n.
Proof.
  unfold validate_ip, parse_network. destruct (make_address _) as [ip|]; [|done]. destruct (refused ip); [done|].
  destruct (find_char "/" item) as [slash|].
  - destruct (from_chars _ _) as [[prefix [|? ?]]|]; [|done..]. destruct (_ <? prefix) eqn:E; [done|]. intros _.
    destruct (_ && _ && _)%bool; eauto.
  - intros _. destruct (_ && _ && _)%bool; eauto.
Qed.

Lemma validate_item_entry type f item expires :
  validate_item type item = Returns tt -> exists f', add_entry type f (mk_value item expires) = Returns f'.
Proof.
  unfold validate_item, add_entry. cbn [list_value_ expires_unix_ms_]. destruct (_ || _ || _)%bool eqn:E1; [done|].
  apply orb_false_iff in E1 as [E1 _]. rewrite E1. destruct (type == lit "ip") eqn:Et.
  - intros Hv. destruct (validate_ip item) as [[]|] eqn:Ei; [|done]. apply validate_ip_network in Ei as [n Hn].
    unfold add_network. rewrite Hn. cbn [throwing_bind]. destruct (is_v4 _); eauto.
  - cbn [throwing_bind]. destruct ((type == lit "country") && _)%bool; [done|].
    destruct ((type == lit "asn") && _)%bool; [done|]. eauto.
Qed.

Lemma new_list_type type entries l : new_match_list type entries = Returns l -> type_ l = type.
Proof. unfold new_match_list. intros (f & _ & E)%throwing_bind_returns. by destruct (_ && _)%bool; simplify_eq. Qed.

Lemma known_type type : known_list_type type = true -> (type != lit "ip") && (type != lit "asn") && (type != lit "country") && (type != lit "user_agent") = false.
Proof. unfold known_list_type. destruct (type == lit "ip"), (type == lit "asn"), (type == lit "country"), (type == lit "user_agent"); done. Qed.

Lemma validated_list_compiles l :
  known_list_type (list_type l) = true -> check_all (validate_item (list_type l)) (list_entries l) = Returns tt ->
  check_all (fun item => validate_item (list_type l) (entry_value item)) (list_members l) = Returns tt ->
  exists compiled, new_match_list (list_type l) (list_values l) = Returns compiled /\ type_ compiled = list_type l.
Proof.
  intros Ht He%check_all_spec Hm%check_all_spec. rewrite Forall_forall in He. rewrite Forall_forall in Hm.
  destruct (throwing_fold_total (add_entry (list_type l)) (mk_filling ∅ [] [] false) (list_values l)) as [f Hf].
  - intros f value [Hin|Hin]%elem_of_app; apply list_elem_of_fmap in Hin as (item & -> & Hin); apply validate_item_entry; auto.
  - assert (exists compiled, new_match_list (list_type l) (list_values l) = Returns compiled) as [compiled E].
    { unfold new_match_list. rewrite Hf. cbn [throwing_bind]. rewrite known_type by done. eauto. }
    exists compiled. split; [done|]. by eapply new_list_type.
Qed.

(** The compiled lists have the names and the types that were validated. *)
Definition types_agree (types : gmap bytes bytes) (compiled : gmap bytes request_match_list) : Prop := type_ <$> compiled = types.

Lemma validated_lists_compile ls : forall types entries types' entries' compiled,
  throwing_fold validate_list (types, entries) ls = Returns (types', entries') -> 0 <= entries -> types_agree types compiled ->
  exists compiled', throwing_fold compile_security_list compiled ls = Returns compiled' /\ types_agree types' compiled'.
Proof.
  induction ls as [|l ls IH]; intros types entries types' entries' compiled; cbn [throwing_fold]; [intros [= -> ->]; eauto|].
  intros ([types1 entries1] & Hl & Hrest)%throwing_bind_returns He Hag. unfold validate_list in Hl.
  destruct (_ || _)%bool eqn:E1 in Hl; [done|]. rewrite !orb_false_iff in E1. destruct E1 as [[[[Ename Esize] _] Enew] Etype].
  destruct (100000 <? _) eqn:E2 in Hl; [done|]. apply Z.ltb_ge in E2.
  apply throwing_bind_returns in Hl as ([] & Hentries & Hl). apply throwing_bind_returns in Hl as ([] & Hmembers & [= <- <-]).
  apply negb_false_iff in Etype. destruct (validated_list_compiles l Etype Hentries Hmembers) as (c & Hc & Hct).
  pose proof (Nat2Z.is_nonneg (length (list_members l))) as Hnm. pose proof (Nat2Z.is_nonneg (length (list_entries l))) as Hne.
  assert (compile_security_list compiled l = Returns (<[list_name l := c]> compiled)) as ->.
  { unfold compile_security_list. rewrite (proj2 (Z.ltb_ge 100000 _)) by (unfold size in *; lia). rewrite Ename, Esize. cbn [orb].
    rewrite Hc. cbn [throwing_bind]. unfold types_agree in Hag. rewrite <- Hag, lookup_fmap in Enew. by destruct (compiled !! list_name l). }
  cbn [throwing_bind]. eapply IH; [exact Hrest|unfold size in *; lia|]. unfold types_agree in *. by rewrite fmap_insert, Hct, Hag.
Qed.

(** The patterns of the wildcard comparisons of a rule: RE2 builds each of them within its memory. *)
Definition wildcards_build (text : bytes) : Prop :=
  forall program s i, parse security text = Ok program s -> i ∈ program -> ends_with (comparison_ i) (lit "wildcard") = true ->
  is_Some (re2_rule_new (comparison_ i != lit "wildcard") (wildcard_pattern false (hd [] (values_ i)))).

Lemma list_field_fits field type : type = list_type_of field -> type <> [] -> list_fits field type = true.
Proof.
  intros ->. unfold list_type_of, list_fits. destruct (field == lit "ip.src"); [done|]. destruct (field == lit "ip.src.asnum"); [done|].
  destruct (field == lit "ip.src.country"); [done|]. by destruct (field == lit "http.user_agent").
Qed.

Lemma instruction_list_compiles types compiled i :
  types_agree types compiled -> (forall name type, types !! name = Some type -> type <> []) ->
  validate_instruction types i = Returns tt -> exists l, compile_list i compiled = Returns l.
Proof.
  intros Hag Hne. unfold validate_instruction, compile_list. destruct (field_ i == lit "ip.src.asnum"); [done|].
  destruct (empty (list_ i)); cbn [negb andb].
  - destruct (field_ i == lit "ip.src"); [|eauto]. destruct (lower_ i); [done|]. cbn [orb]. destruct (_ && _ && _)%bool; [done|].
    intros Hall. rewrite check_all_spec, Forall_forall in Hall.
    destruct (throwing_fold_total (add_entry (lit "ip")) (mk_filling ∅ [] [] false) (permanent_values (values_ i))) as [f Hf].
    { intros f v (item & -> & Hin)%list_elem_of_fmap. destruct (validate_ip_network item (Hall item Hin)) as [n Hn].
      unfold add_entry. cbn [list_value_]. change (lit "ip" == lit "ip") with true. cbv iota. unfold add_network. rewrite Hn. cbn [throwing_bind]. destruct (is_v4 _); eauto. }
    unfold new_match_list. rewrite Hf. cbn. eauto.
  - unfold types_agree in Hag. rewrite <- Hag, lookup_fmap. destruct (compiled !! list_ i) as [found|] eqn:Ef; [|done]. cbn [fmap option_fmap option_map].
    intros Hrest. destruct (type_ found != list_type_of (field_ i)) eqn:Et in Hrest; [done|]. reflect_bool.
    rewrite (list_field_fits (field_ i) (type_ found)) by (done || (apply (Hne (list_ i)); by rewrite <- Hag, lookup_fmap, Ef)). eauto.
Qed.

Lemma instruction_regex_compiles i :
  instruction_ok i ->
  (ends_with (comparison_ i) (lit "wildcard") = true -> is_Some (re2_rule_new (comparison_ i != lit "wildcard") (wildcard_pattern false (hd [] (values_ i))))) ->
  exists p, compile_regex i = Returns p.
Proof.
  intros Hok Hwild. unfold compile_regex. destruct (comparison_ i == lit "matches") eqn:Em; cbn [orb].
  - apply bool_decide_eq_true in Em. rewrite Em. change (lit "matches" != lit "wildcard") with true.
    destruct (decide (op_ i = compare)) as [Hop|Hop].
    + destruct (instruction_compare i Hok Hop) as [_ Hv]. rewrite Em in Hv. destruct Hv as (_ & _ & [Hre _]); [done|]. destruct (Hre eq_refl) as [r Hr].
      unfold compile_pattern in Hr. destruct (_ || _)%bool; [done|]. destruct (re2_new (hd [] (values_ i))) as [r'|] eqn:En; [|done].
      destruct (rule_pattern _ _ En) as [p ->]. eauto.
    + unfold instruction_ok in Hok. rewrite bool_decide_eq_false_2 in Hok by done. rewrite Hok in Em. done.
  - destruct (ends_with (comparison_ i) (lit "wildcard")); [|eauto]. destruct (Hwild eq_refl) as [p ->]. eauto.
Qed.

Lemma validated_expression_compiles types compiled text :
  types_agree types compiled -> (forall name type, types !! name = Some type -> type <> []) -> wildcards_build text ->
  validate_rule_expression types text = Returns tt -> exists program, new_program text security compiled = Returns program.
Proof.
  intros Hag Hne Hwild. unfold validate_rule_expression, new_program. pose proof (parse_spec security text) as Hparse.
  destruct (parse security text) as [program s|m|] eqn:Ep; [|done..]. destruct Hparse as (_ & _ & Hok). rewrite check_all_spec, !Forall_forall in *. intros Hall.
  apply throwing_fold_total. intros acc i Hin. unfold compile_step.
  destruct (instruction_list_compiles types compiled i) as [l ->]; [done..|by apply Hall|]. cbn [throwing_bind].
  destruct (instruction_regex_compiles i) as [p ->]; [by apply Hok|intros Hw; by eapply Hwild|]. cbn [throwing_bind]. eauto.
Qed.

End Compiles.

Section Validated.
Context `{Re2} `{Asio} `{SecurityLibraries}.

(** What validation leaves of a rule. *)
Definition custom_ok (types : gmap bytes bytes) (r : security_rule) : Prop :=
  validate_rule_expression types (rule_expression r) = Returns tt /\ valid_response_status (rule_response_status r) = true.
Definition cc_ok (types : gmap bytes bytes) (r : cc_rule) : Prop :=
  validate_rule_expression types (cc_expression r) = Returns tt /\ valid_response_status (cc_response_status r) = true /\
  cc_requests r <> 0 /\ cc_requests r <= 1000000000 /\ cc_window_seconds r <> 0 /\ cc_window_seconds r <= 3600 /\
  cc_mitigation_seconds r <> 0 /\ cc_mitigation_seconds r <= 86400.

Lemma custom_rules_validated types rules : forall ids ids',
  throwing_fold (validate_custom_rule types) ids rules = Returns ids' -> Forall (custom_ok types) rules.
Proof.
  induction rules as [|r rules IH]; intros ids ids'; cbn [throwing_fold]; [by constructor|].
  intros (ids1 & Hr & Hrest)%throwing_bind_returns. constructor; [|by eapply IH]. unfold validate_custom_rule in Hr.
  destruct (negb (clean_text _ _)); [done|]. destruct (negb (distinct_loop _ _ _ _)); [done|].
  apply throwing_bind_returns in Hr as ([] & He & Hr). destruct (_ && _ && _)%bool; [done|].
  destruct (_ || _)%bool eqn:E; [done|]. rewrite !orb_false_iff in E. split; [done|]. destruct E as [[_ Es] _]. by apply negb_false_iff in Es.
Qed.

Lemma cc_rules_validated types rules : forall ids ids',
  throwing_fold (validate_cc_rule types) ids rules = Returns ids' ->
  Forall (cc_ok types) rules /\ NoDup (map cc_id rules) /\ (forall r, r ∈ rules -> cc_id r ∉ ids).
Proof.
  induction rules as [|r rules IH]; intros ids ids'; cbn [throwing_fold map].
  { intros _. split_and!; [constructor|constructor|by intros r ?%not_elem_of_nil]. }
  intros (ids1 & Hr & Hrest)%throwing_bind_returns. destruct (IH _ _ Hrest) as (Hall & Hdup & Hids). unfold validate_cc_rule in Hr.
  destruct (negb (clean_text _ _)); [done|]. apply throwing_bind_returns in Hr as ([] & He & Hr).
  destruct (_ || _)%bool eqn:E1 in Hr; [done|]. destruct (_ && _ && _)%bool; [done|].
  destruct (_ || _)%bool eqn:E2 in Hr; [done|]. injection Hr as <-. rewrite !orb_false_iff in E1. rewrite !orb_false_iff in E2.
  destruct E1 as [[_ Es] _], E2 as [[[[[[[[_ Enew] _] ?] ?] ?] ?] ?] ?]. reflect_bool.
  split_and!.
  - constructor; [|done]. unfold cc_ok. split_and!; done || lia.
  - constructor; [|done]. intros (r' & Er & Hin)%list_elem_of_fmap. apply (Hids r' Hin). rewrite <- Er. set_solver.
  - intros r' [->|Hin]%elem_of_cons; [done|]. specialize (Hids r' Hin). set_solver.
Qed.

Lemma validated_types ls : forall state state',
  throwing_fold validate_list state ls = Returns state' -> (forall name type, fst state !! name = Some type -> type <> []) ->
  forall name type, fst state' !! name = Some type -> type <> [].
Proof.
  induction ls as [|l ls IH]; intros [types n] state'; cbn [throwing_fold]; [by intros [= <-]|].
  intros ([types1 n1] & Hl & Hrest)%throwing_bind_returns Hne. apply (IH _ _ Hrest). unfold validate_list in Hl.
  destruct (_ || _)%bool eqn:E1 in Hl; [done|]. rewrite !orb_false_iff in E1. destruct E1 as [_ Etype]. apply negb_false_iff in Etype.
  destruct (_ <? _); [done|]. apply throwing_bind_returns in Hl as (_ & _ & Hl). apply throwing_bind_returns in Hl as (_ & _ & [= <- <-]).
  cbn [fst] in *. intros name type. destruct (decide (name = list_name l)) as [->|Hn].
  - rewrite lookup_insert_eq. intros [= <-] Ht. by rewrite Ht in Etype.
  - rewrite lookup_insert_ne by done. apply Hne.
Qed.

(** A validated policy: its lists with their types, and what holds of its rules. *)
Record policy_ok (types : gmap bytes bytes) (p : security_policy) : Prop := {
  ok_lists : exists entries, throwing_fold validate_list (∅, 0) (policy_lists p) = Returns (types, entries);
  ok_types : forall name type, types !! name = Some type -> type <> [];
  ok_custom : Forall (custom_ok types) (custom_rules p);
  ok_cc : Forall (cc_ok types) (cc_rules p);
  ok_cc_ids : NoDup (map cc_id (cc_rules p))
}.
Lemma validate_security_ok p : validate_security p = Returns tt -> exists types, policy_ok types p.
Proof.
  unfold validate_security. destruct (_ || _)%bool; [done|]. destruct (_ || _)%bool; [done|].
  intros ([types n] & Hl & (ids & Hc & (ids' & Hcc & _)%throwing_bind_returns)%throwing_bind_returns)%throwing_bind_returns.
  exists types. destruct (cc_rules_validated _ _ _ _ Hcc) as (Hcc1 & Hcc2 & _). split.
  - by exists n.
  - by apply (validated_types _ _ _ Hl).
  - by eapply custom_rules_validated.
  - done.
  - done.
Qed.

End Validated.

Section PolicyCompiles.
Context `{Re2Rules} `{!RulePatterns} `{Asio} `{SortRanges} `{SecurityLibraries}.

Lemma compile_rules_total {R} (expression : R -> bytes) types compiled rules :
  types_agree types compiled -> (forall name type, types !! name = Some type -> type <> []) ->
  Forall (fun r => validate_rule_expression types (expression r) = Returns tt) rules -> Forall (fun r => wildcards_build (expression r)) rules ->
  exists programs, compile_rules expression compiled rules = Returns programs.
Proof.
  rewrite !Forall_forall. intros Hag Hne Hv Hw. apply throwing_fold_total. intros acc r Hin.
  destruct (validated_expression_compiles types compiled (expression r)) as [program ->]; [by auto..|]. cbn [throwing_bind]. eauto.
Qed.

(** Every expression of the policy. *)
Definition expressions (p : security_policy) : list bytes := map rule_expression (custom_rules p) ++ map cc_expression (cc_rules p).

Lemma policy_compiles types p : policy_ok types p -> Forall wildcards_build (expressions p) -> exists compiled, compile_security_policy p = Returns compiled.
Proof.
  intros [[n Hl] Hne Hc Hcc _] Hw. unfold expressions in Hw. apply Forall_app in Hw as [Hw1 Hw2]. apply (proj1 (Forall_map rule_expression _ _)) in Hw1. apply (proj1 (Forall_map cc_expression _ _)) in Hw2.
  destruct (validated_lists_compile _ _ _ _ _ ∅ Hl) as (lists & El & Hag); [done|by unfold types_agree; rewrite fmap_empty|].
  destruct (compile_rules_total rule_expression types lists (custom_rules p)) as [custom E1]; [done..|apply (Forall_impl _ _ _ Hc); by intros r []|exact Hw1|].
  destruct (compile_rules_total cc_expression types lists (cc_rules p)) as [cc E2]; [done..|apply (Forall_impl _ _ _ Hcc); by intros r []|exact Hw2|].
  unfold compile_security_policy. rewrite El. cbn [throwing_bind]. rewrite E1. cbn [throwing_bind]. rewrite E2. cbn [throwing_bind]. eauto.
Qed.

(** A security policy that the protocol checks accept compiles on every data worker: its lists
    build, with the types the rules use them at, its regular expressions are those the parser
    compiled, and no rule of it throws. Only RE2 itself can still refuse a wildcard whose pattern
    does not fit its memory. *)
Theorem validated_policy_compiles p :
  validate_security p = Returns tt -> Forall wildcards_build (expressions p) -> exists compiled, compile_security_policy p = Returns compiled.
Proof. intros [types Hok]%validate_security_ok. by apply (policy_compiles types). Qed.
End PolicyCompiles.

(** * The verdict on a request *)

Section Verdict.
Context `{Re2Rules} `{Asio} `{SortRanges} `{SecurityLibraries}.

(** A compiled expression answers every request. *)
Definition answers (expression : list compiled_instruction) : Prop := forall request clock, exists b, matches expression request clock = Some b.

Lemma compile_rules_spec {R} (expression : R -> bytes) lists rules compiled :
  compile_rules expression lists rules = Returns compiled -> map fst compiled = rules /\ Forall (fun re => answers (snd re)) compiled.
Proof.
  apply (throwing_fold_inv (fun seen (acc : list (R * list compiled_instruction)) => map fst acc = seen /\ Forall (fun re => answers (snd re)) acc)); [done|].
  intros seen r acc acc' [Hm Hf] (program & Hp & [= <-])%throwing_bind_returns. split; [by rewrite map_app, Hm|].
  apply Forall_app. split; [done|]. constructor; [|done]. intros request clock. destruct (program_runs _ _ _ _ request clock Hp) as (b & _ & Hb). eauto.
Qed.

Lemma compiled_policy_spec p policy :
  compile_security_policy p = Returns policy ->
  fingerprint_ policy = policy_digest (counter_source p) /\ map fst (custom_ policy) = custom_rules p /\ map fst (cc_ policy) = cc_rules p /\
  Forall (fun re => answers (snd re)) (custom_ policy) /\ Forall (fun re => answers (snd re)) (cc_ policy).
Proof.
  unfold compile_security_policy. intros (lists & _ & (custom & Hc & (cc & Hcc & [= <-])%throwing_bind_returns)%throwing_bind_returns)%throwing_bind_returns.
  apply compile_rules_spec in Hc as [? ?], Hcc as [? ?]. done.
Qed.

Section Request.
Context (request : rule_match_request) (clock : Z).

(** The enabled custom rules whose expression matches, in order, up to the first that decides. *)
Definition matching (rules : list (security_rule * list compiled_instruction)) : list security_rule :=
  map fst (List.filter (fun '(source, expression) => rule_enabled source && default false (matches expression request clock)) rules).
Lemma matching_cons r e rules b :
  matches e request clock = Some b -> matching ((r, e) :: rules) = if rule_enabled r && b then r :: matching rules else matching rules.
Proof. intros Hb. unfold matching. cbn [List.filter]. rewrite Hb. change (default false (Some b)) with b. by destruct (rule_enabled r && b). Qed.
Definition is_block (r : security_rule) : bool := rule_action r == lit "block".
Definition is_skip (r : security_rule) : bool := rule_action r == lit "skip".
Definition decides (r : security_rule) : bool := is_block r || (is_skip r && skips_custom r).
Fixpoint considered (rules : list security_rule) : list security_rule :=
  match rules with
  | [] => []
  | r :: rules => if decides r then [r] else r :: considered rules
  end.
Definition skips_rate (r : security_rule) : bool := is_skip r && (empty (skip_stages r) || mem_stage "rate" (skip_stages r)).
Definition skips_managed (r : security_rule) : bool := is_skip r && (empty (skip_stages r) || mem_stage "managed" (skip_stages r)).

Lemma skip_not_block r : is_skip r = true -> is_block r = false.
Proof. unfold is_skip, is_block. intros ->%bool_decide_eq_true. done. Qed.

Lemma last_In {A} (l : list A) x : last l = Some x -> In x l.
Proof. intros Hl. apply last_Some in Hl as [l' ->]. apply in_or_app. right. by left. Qed.
Lemma considered_in rules r : r ∈ considered rules -> r ∈ rules.
Proof.
  induction rules as [|r' rules IH]; [done|]. cbn [considered]. destruct (decides r').
  - intros ->%list_elem_of_singleton. by left.
  - intros [->|Hr]%elem_of_cons; [by left|right; auto].
Qed.
Lemma matching_source rules r : r ∈ matching rules -> r ∈ map fst rules.
Proof. intros ([r' e] & -> & [Hin _]%list_elem_of_In%filter_In)%list_elem_of_fmap. apply list_elem_of_In, in_map_iff. by exists (r', e). Qed.

(** What the loop over the custom rules adds to a decision. *)
Definition custom_outcome (seen : list security_rule) (d d' : security_decision) (returned : bool) : Prop :=
  skip_cc_ d' = skip_cc_ d || existsb skips_rate seen /\
  skip_managed_ d' = skip_managed_ d || existsb skips_managed seen /\
  logged_rules_ d' = logged_rules_ d ++ map rule_id (List.filter (fun r => negb (is_block r)) seen) /\
  returned = existsb is_block seen /\
  match (if returned then last seen else None) with
  | Some r =>
      is_block r = true /\ status_ d' = matched_status (rule_response_status r) 403 /\ content_type_ d' = rule_response_content_type r /\
      body_ d' = rule_response_body r /\ decided_rule_ d' = rule_id r
  | None => returned = false /\ status_ d' = status_ d /\ content_type_ d' = content_type_ d /\ body_ d' = body_ d
  end.

Lemma outcome_skip r seen d d' returned :
  is_skip r = true -> (seen = [] -> returned = false) -> custom_outcome seen (apply_skip d r) d' returned -> custom_outcome (r :: seen) d d' returned.
Proof.
  intros Hs Hnil (H1' & H2' & H3' & H4' & H5'). unfold custom_outcome, apply_skip in *. cbn [status_ content_type_ body_ decided_rule_ skip_cc_ skip_managed_ logged_rules_ existsb List.filter] in *.
  assert (skips_rate r = empty (skip_stages r) || mem_stage "rate" (skip_stages r)) as -> by (unfold skips_rate; by rewrite Hs).
  assert (skips_managed r = empty (skip_stages r) || mem_stage "managed" (skip_stages r)) as -> by (unfold skips_managed; by rewrite Hs).
  rewrite (skip_not_block r Hs). cbn [negb map orb].
  split_and!; [by rewrite H1', !orb_assoc|by rewrite H2', !orb_assoc|by rewrite H3', <- app_assoc|done|].
  destruct returned; [|done]. destruct seen as [|r' seen]; [by specialize (Hnil eq_refl)|]. done.
Qed.

Lemma outcome_log r seen d d' returned :
  is_skip r = false -> is_block r = false -> (seen = [] -> returned = false) ->
  custom_outcome seen (log_rule d (rule_id r)) d' returned -> custom_outcome (r :: seen) d d' returned.
Proof.
  intros Hs Hb Hnil (H1' & H2' & H3' & H4' & H5'). unfold custom_outcome, log_rule in *. cbn [status_ content_type_ body_ decided_rule_ skip_cc_ skip_managed_ logged_rules_ existsb List.filter] in *.
  assert (skips_rate r = false) as -> by (unfold skips_rate; by rewrite Hs). assert (skips_managed r = false) as -> by (unfold skips_managed; by rewrite Hs).
  rewrite Hb. cbn [negb map orb]. split_and!; [done|done|by rewrite H3', <- app_assoc|done|].
  destruct returned; [|done]. destruct seen as [|r' seen]; [by specialize (Hnil eq_refl)|]. done.
Qed.

Lemma custom_loop_spec rules d :
  Forall (fun re => answers (snd re)) rules ->
  exists d' returned, custom_loop request clock rules d = Some (d', returned) /\ custom_outcome (considered (matching rules)) d d' returned.
Proof.
  intros Hall. revert d. induction Hall as [|[r e] rules He Hall IH]; intros d; cbn [custom_loop].
  { exists d, false. split; [done|]. unfold custom_outcome. cbn. by rewrite !orb_false_r, app_nil_r. }
  cbn [snd] in He. destruct (He request clock) as [b Hb]. rewrite (matching_cons r e rules b Hb), Hb.
  destruct (rule_enabled r); cbn [negb andb]; [|apply IH]. destruct b; [|apply IH].
  cbn [considered]. unfold decides. fold (is_skip r). fold (is_block r).
  destruct (is_skip r) eqn:Es.
  - rewrite (skip_not_block r Es). cbn [orb andb]. destruct (skips_custom r).
    + exists (apply_skip d r), false. split; [done|]. apply outcome_skip; [done..|]. unfold custom_outcome. cbn [existsb List.filter map]. by rewrite !orb_false_r, app_nil_r.
    + destruct (IH (apply_skip d r)) as (d' & returned & -> & Ho). exists d', returned. split; [done|]. apply outcome_skip; [done| |done].
      intros E. rewrite E in Ho. by destruct Ho as (_ & _ & _ & -> & _).
  - destruct (is_block r) eqn:Eb; cbn [orb andb].
    + do 2 eexists. split; [done|]. unfold custom_outcome, block_with. cbn [existsb List.filter last status_ content_type_ body_ decided_rule_ skip_cc_ skip_managed_ logged_rules_].
      assert (skips_rate r = false) as -> by (unfold skips_rate; by rewrite Es). assert (skips_managed r = false) as -> by (unfold skips_managed; by rewrite Es).
      rewrite Eb. cbn. by rewrite !orb_false_r, app_nil_r.
    + destruct (IH (log_rule d (rule_id r))) as (d' & returned & -> & Ho). exists d', returned. split; [done|]. apply outcome_log; [done|done| |done].
      intros E. rewrite E in Ho. by destruct Ho as (_ & _ & _ & -> & _).
Qed.

(** C18. The custom rules decide in order: of the enabled rules whose expression matches, those up to
    the first block, or the first skip of the custom rules, count and nothing after them does. When
    the last of them is a block the request is answered with its status (403 by default, always a
    client error), its body and its identifier, and the counters are not touched. When none is, and
    one of them skips the rate rules, the request passes without a counter being consulted. Every
    other counted rule is logged once, in order. *)
Theorem custom_rules_decide website p policy counters now :
  validate_security p = Returns tt -> compile_security_policy p = Returns policy ->
  let seen := considered (matching (custom_ policy)) in
  let logged := map rule_id (List.filter (fun r => negb (is_block r)) seen) in
  (forall r, last seen = Some r -> is_block r = true ->
     let status := if rule_response_status r =? 0 then 403 else rule_response_status r in
     400 <= status <= 499 /\
     evaluate_policy request clock website policy counters now =
       Some (counters, inl (SecurityDecision status (rule_response_content_type r) (rule_response_body r) (rule_id r) (existsb skips_rate seen) (existsb skips_managed seen) logged))) /\
  (existsb is_block seen = false -> existsb skips_rate seen = true ->
     exists d, evaluate_policy request clock website policy counters now = Some (counters, inl d) /\
       status_ d = 0 /\ skip_managed_ d = existsb skips_managed seen /\ logged_rules_ d = logged).
Proof.
  intros [types Hok]%validate_security_ok (_ & Hrules & _ & Hcustom & _)%compiled_policy_spec seen logged.
  destruct (custom_loop_spec (custom_ policy) no_decision Hcustom) as (d & returned & Hloop & Hskip & Hmanaged & Hlogged & Hret & Hd).
  fold seen in Hskip, Hmanaged, Hlogged, Hret, Hd. fold logged in Hlogged. cbn in Hskip, Hmanaged, Hlogged. unfold evaluate_policy. rewrite Hloop. split.
  - intros r Hlast Hb. set (status := if rule_response_status r =? 0 then 403 else rule_response_status r).
    assert (valid_response_status (rule_response_status r) = true) as Hs.
    { pose proof (ok_custom _ _ Hok) as Hall. rewrite Forall_forall in Hall. apply Hall. rewrite <- Hrules.
      apply matching_source. eapply considered_in. rewrite list_elem_of_In. by apply last_In. }
    assert (returned = true) as -> by (rewrite Hret; apply existsb_exists; exists r; split; [by apply last_In|done]).
    rewrite Hlast in Hd. destruct Hd as (_ & Hst & Hct & Hbody & Hid). unfold valid_response_status in Hs. unfold matched_status in Hst.
    assert (400 <= status <= 499 /\ status_ d = status) as [Hrange Hstatus].
    { subst status. destruct (rule_response_status r =? 0) eqn:E; [lia|]. reflect_bool. rewrite Z.mod_small in Hst by lia. lia. }
    split; [done|]. rewrite <- Hstatus, <- Hct, <- Hbody, <- Hid, <- Hskip, <- Hmanaged, <- Hlogged. by destruct d.
  - intros Hnb Hsr. rewrite Hnb in Hret. subst returned. destruct Hd as (_ & Hst & _). exists d. rewrite Hsr in Hskip.
    split; [|done]. destruct (cc_ policy) as [|[r e] rules]; cbn [cc_loop]; [done|]. by rewrite Hskip.
Qed.
End Request.
End Verdict.

(** * The rate rules never throw *)

Section Rates.
Context `{Re2Rules} `{Asio} `{SortRanges} `{SecurityLibraries}.
(** Every policy whose counters a worker keeps, over all the configurations it has served. *)
Context (sources : list security_policy).

(** The digests tell the policies apart, as far as the rate rules go. *)
Definition digests_separate : Prop :=
  forall p q, p ∈ sources -> q ∈ sources -> policy_digest (counter_source p) = policy_digest (counter_source q) -> cc_rules p = cc_rules q.

(** The limits a rule of the policies gives a counter. *)
Definition limits_of (k : cc_key) (l : cc_limits) : Prop :=
  exists p r, p ∈ sources /\ r ∈ cc_rules p /\ policy_ k = policy_digest (counter_source p) /\ rule_ k = cc_id r /\ l = rule_limits r.

Definition counters_match (w : cc_worker) : Prop := forall k e l, worker_entries_ w !! k = Some e -> limits_of k l -> entry_limits_ e = l.

(** What a data worker does with its counters. *)
Inductive served : cc_worker -> Prop :=
  | served_new instance capacity : served (new_worker instance capacity)
  | served_request w k l now w' outcome : served w -> limits_of k l -> CcProtection.check w k l now = (w', inl outcome) -> served w'
  | served_report w now w' batch : served w -> report w now = (w', batch) -> served w'
  | served_acknowledge w : served w -> served (acknowledge w)
  | served_publish w value : served w -> served (publish w value).

(** The message fields are unsigned 32-bit integers. *)
Definition uint32 (z : Z) : Prop := 0 <= z < 4294967296.
Definition cc_fields (r : cc_rule) : Prop := uint32 (cc_requests r) /\ uint32 (cc_window_seconds r) /\ uint32 (cc_mitigation_seconds r) /\ uint32 (cc_response_status r).
Definition source_valid (p : security_policy) : Prop := validate_security p = Returns tt /\ Forall cc_fields (cc_rules p).

Context (Hvalid : Forall source_valid sources) (Hdigests : digests_separate).

Lemma source_ok p : p ∈ sources -> exists types, policy_ok types p.
Proof. intros Hin. rewrite Forall_forall in Hvalid. by apply validate_security_ok, (Hvalid p). Qed.
Lemma source_fields p r : p ∈ sources -> r ∈ cc_rules p -> cc_fields r.
Proof. intros Hp Hr. rewrite Forall_forall in Hvalid. destruct (Hvalid p Hp) as [_ Hf]. rewrite Forall_forall in Hf. auto. Qed.

Lemma limits_unique k l l' : limits_of k l -> limits_of k l' -> l = l'.
Proof.
  intros (p & r & Hp & Hr & Hd & Hk & ->) (q & r' & Hq & Hr' & Hd' & Hk' & ->). destruct (source_ok p Hp) as [types Hok].
  rewrite (Hdigests q p Hq Hp) in Hr' by congruence. f_equal. pose proof (ok_cc_ids _ _ Hok) as Hdup.
  change (map cc_id (cc_rules p)) with (cc_id <$> cc_rules p) in Hdup.
  apply list_elem_of_lookup in Hr as [i Hi]. apply list_elem_of_lookup in Hr' as [j Hj].
  assert (i = j) as ->; [|congruence]. eapply (NoDup_lookup _ _ _ (cc_id r) Hdup); rewrite list_lookup_fmap, ?Hi, ?Hj; cbn; congruence.
Qed.

Lemma limits_are_valid k l : limits_of k l -> limits_valid l = true.
Proof.
  intros (p & r & Hp & Hr & _ & _ & ->). destruct (source_ok p Hp) as [types Hok]. pose proof (ok_cc _ _ Hok) as Hall. rewrite Forall_forall in Hall.
  destruct (Hall r Hr) as (_ & _ & H1' & H2' & H3' & H4' & H5' & H6'). destruct (source_fields p r Hp Hr) as (F1 & F2 & F3 & _). unfold uint32 in *.
  unfold rule_limits, limits_valid, u32. cbn [requests_ window_ms_ mitigation_ms_]. rewrite !Z.mod_small by lia.
  rewrite negb_true_iff, !orb_false_iff. repeat split; lia.
Qed.

Lemma check_matches w k l now :
  limits_of k l -> counters_match w -> exists w' outcome, CcProtection.check w k l now = (w', inl outcome) /\ counters_match w'.
Proof.
  intros Hl Hw. unfold CcProtection.check. destruct (match dispositions_ w with Some d => _ | None => false end); [eauto|].
  destruct (match dispositions_ w with Some d => _ | None => false end); [eauto|].
  assert (Hentry : forall e, entry_limits_ e = l -> exists w' outcome, check_entry w k l now e = (w', inl outcome) /\ counters_match w').
  { intros e He. assert (Hset : forall e', entry_limits_ e' = l -> counters_match (set_entry w k e')).
    { intros e' He' k' e1 l'. cbn. destruct (decide (k' = k)) as [->|Hne].
      - rewrite lookup_insert_eq. intros [= <-] Hl'. rewrite He'. by eapply limits_unique.
      - rewrite lookup_insert_ne by done. apply Hw. }
    unfold check_entry. rewrite He. rewrite bool_decide_eq_true_2 by done. cbn [negb].
    destruct (now <? _); [do 2 eexists; split; [done|by apply Hset]|].
    destruct (requests_ l <? _); do 2 eexists; (split; [done|by apply Hset]). }
  destruct (worker_entries_ w !! k) as [e|] eqn:Ee; [by apply Hentry, (Hw k)|].
  destruct (_ <=? _); [eauto|]. rewrite (limits_are_valid k l Hl). cbn [negb]. by apply Hentry.
Qed.

Lemma served_matches w : served w -> counters_match w.
Proof.
  induction 1 as [instance capacity|w k l now w' outcome _ IH Hl Hc|w now w' batch _ IH Hr|w _ IH|w value _ IH].
  - by intros k e l.
  - destruct (check_matches w k l now Hl IH) as (w1 & o1 & Hc1 & Hm). rewrite Hc in Hc1. by simplify_eq.
  - unfold report in Hr. simplify_eq. intros k e l. cbn. intros [He _]%map_lookup_filter_Some. by apply IH.
  - intros k e l. cbn. rewrite lookup_fmap_Some. intros (e' & <- & He) Hl. exact (IH k e' l He Hl).
  - unfold publish. destruct value as [v|]; [|done]. cbv zeta. destruct (match dispositions_ w with None => true | Some d => _ end); exact IH.
Qed.

Definition answer_status (d : security_decision) : Prop := status_ d = 0 \/ status_ d = 503 \/ 400 <= status_ d <= 499.

Lemma matched_status_range status fallback : valid_response_status status = true -> 400 <= fallback <= 499 -> 400 <= matched_status status fallback <= 499.
Proof.
  unfold valid_response_status, matched_status. destruct (status =? 0) eqn:E; [lia|]. cbn [orb]. intros Hs Hf. reflect_bool.
  rewrite Z.mod_small by lia. lia.
Qed.

(** What the loop over the rate rules needs of a compiled rule. *)
Definition rate_rule_ok (request : rule_match_request) (website fingerprint : bytes) (re : cc_rule * list compiled_instruction) : Prop :=
  answers (snd re) /\ limits_of (counter_key request website fingerprint (fst re)) (rule_limits (fst re)) /\ valid_response_status (cc_response_status (fst re)) = true.

Lemma cc_loop_spec request clock website fingerprint now rules :
  Forall (rate_rule_ok request website fingerprint) rules -> forall d counters, served counters -> answer_status d ->
  exists counters' d', cc_loop request clock website fingerprint now rules d counters = Some (counters', inl d') /\ served counters' /\ answer_status d'.
Proof.
  induction 1 as [|[r e] rules (Ha & Hl & Hs) Hall IH]; intros d counters Hc Hd; cbn [cc_loop]; [eauto|]. cbn [fst snd] in *.
  destruct (skip_cc_ d); [eauto|]. destruct (cc_enabled r); cbn [negb]; [|by apply IH].
  destruct (Ha request clock) as [b ->]. destruct b; [|by apply IH].
  destruct (check_matches counters _ _ now Hl (served_matches _ Hc)) as (w & outcome & Hcheck & _). rewrite Hcheck.
  assert (served w) as Hw by (by eapply served_request). destruct outcome.
  - by apply IH.
  - destruct (cc_action r == lit "block"); [|by apply IH]. do 2 eexists. split; [done|]. split; [done|]. do 2 right. by apply matched_status_range.
  - destruct (cc_action r == lit "block"); [|by apply IH]. do 2 eexists. split; [done|]. split; [done|]. right. by left.
Qed.

(** The policies a program holds were compiled from the configured ones. *)
Definition compiled_from (policy : compiled_policy) : Prop := exists p, p ∈ sources /\ compile_security_policy p = Returns policy.
Definition program_sources (program : security_program) : Prop :=
  (forall identity policy, policies_ program !! identity = Some policy -> compiled_from policy) /\
  (forall website policy, websites_ program !! website = Some policy -> compiled_from policy).
Lemma new_program_sources websites program :
  (forall website p, (website, Some p) ∈ websites -> p ∈ sources) -> new_security_program websites = Returns program -> program_sources program.
Proof.
  intros Hin Hnew. unfold new_security_program in Hnew.
  assert (Forall (fun wp => forall p, snd wp = Some p -> p ∈ sources) websites) as Hall.
  { apply Forall_forall. intros [website o] Hw p Ho. cbn in Ho. subst o. by eapply Hin. }
  revert Hnew. assert (program_sources (SecurityProgram ∅ ∅)) as H0' by (by split). revert H0'. generalize (SecurityProgram ∅ ∅). clear Hin.
  induction Hall as [|[website o] websites Ho Hall IH]; intros program0 Hp; cbn [throwing_fold]; [by intros [= <-]|].
  intros (program1 & Hstep & Hrest)%throwing_bind_returns. apply (IH program1); [|done]. unfold compile_website in Hstep. cbn [fst snd] in *.
  destruct o as [p|]; [|by simplify_eq]. apply throwing_bind_returns in Hstep as (found & Hfound & [= <-]). destruct Hp as [Hp1 Hp2].
  assert (compiled_from found) as Hf.
  { destruct (policies_ program0 !! policy_identity p) as [f|] eqn:Ef; [simplify_eq; by eapply Hp1|]. exists p. auto. }
  split; cbn [policies_ websites_].
  - intros identity policy [[_ <-]|[_ Hl]]%lookup_insert_Some; [done|by eapply Hp1].
  - destruct (websites_ program0 !! website); [done|]. intros w policy [[_ <-]|[_ Hl]]%lookup_insert_Some; [done|by eapply Hp2].
Qed.

(** C17. A request to a node that serves validated policies always gets a verdict: no expression
    fails to evaluate, no counter is met with other limits than those it was made with, whatever
    the worker counted, reported and published before and under whatever configurations, so the
    counters throw no error; and the verdict is to let the request pass, a client error, or 503
    when the counters are full. *)
Theorem request_always_decided websites program website request clock counters now :
  (forall name p, (name, Some p) ∈ websites -> p ∈ sources) -> new_security_program websites = Returns program -> served counters ->
  exists counters' d, evaluate_security request clock program website counters now = Some (counters', inl d) /\ served counters' /\ answer_status d.
Proof.
  intros Hin Hprogram Hserved. destruct (new_program_sources _ _ Hin Hprogram) as [_ Hweb]. unfold evaluate_security.
  destruct (websites_ program !! website) as [policy|] eqn:Ew; [|do 2 eexists; split; [done|]; split; [done|by left]].
  destruct (Hweb _ _ Ew) as (p & Hp & Hc). destruct (compiled_policy_spec _ _ Hc) as (Hf & Hrules & Hccs & Hcustom & Hcc). destruct (source_ok p Hp) as [types Hok].
  unfold evaluate_policy. destruct (custom_loop_spec request clock (custom_ policy) no_decision Hcustom) as (d & returned & -> & Ho).
  destruct Ho as (_ & _ & _ & Hret & Hd). destruct returned.
  - do 2 eexists. split; [done|]. split; [done|]. destruct (last _) as [r|] eqn:El; [|by destruct Hd]. destruct Hd as (_ & Hst & _). do 2 right. rewrite Hst.
    apply matched_status_range; [|lia]. pose proof (ok_custom _ _ Hok) as Hall. rewrite Forall_forall in Hall. apply Hall. rewrite <- Hrules.
    eapply matching_source, considered_in, list_elem_of_In, last_In, El.
  - apply cc_loop_spec; [|done|left; by destruct Hd as (_ & -> & _)]. rewrite Forall_forall in Hcc. apply Forall_forall. intros [r e] Hre.
    assert (r ∈ cc_rules p) as Hr by (rewrite <- Hccs; apply list_elem_of_fmap; by exists (r, e)).
    split; [by apply (Hcc (r, e))|]. cbn [fst]. split.
    + exists p, r. cbn. auto.
    + pose proof (ok_cc _ _ Hok) as Hall. rewrite Forall_forall in Hall. by apply Hall.
Qed.
End Rates.

(** * Witnesses *)

Section Samples.
#[local] Existing Instance text_engine.
#[local] Existing Instance text_rules.
#[local] Existing Instance dotted_quads.
#[local] Existing Instance merge_sort_ranges.

Definition sample_libraries : SecurityLibraries := {| byte_size p := size (policy_name p); json_value text := negb (empty text); policy_digest p := policy_identity p |}.
#[local] Existing Instance sample_libraries.
Definition sample_patterns : RulePatterns.
Proof. split. intros p r _. by eexists. Defined.
#[local] Existing Instance sample_patterns.

Definition custom_rule (id action : string) (expression : bytes) (status : Z) (stages : list bytes) : security_rule :=
  SecurityRule (lit id) true expression (lit action) status (lit "text/plain") (lit "no") (lit id) stages.
Definition host_is (host : string) : bytes := lit "http.host eq " ++ quoted host.
Definition sample_policy : security_policy :=
  SecurityPolicy (lit "p") (lit "Policy") 3
    [custom_rule "watch" "log" (host_is "example.com") 0 [];
     custom_rule "trust" "skip" (lit "http.user_agent wildcard " ++ quoted "curl*") 0 [lit "managed"];
     custom_rule "deny" "block" (lit "ip.src in $bad") 451 [];
     custom_rule "late" "block" (host_is "example.com") 0 []]
    [CcRule (lit "rate") true (host_is "example.com") 1 10 60 (lit "block") (lit "rate") 0 [] []]
    (Some (ManagedSecurity true 1 5 4096 false [910100]))
    [SecurityList (lit "bad") (lit "ip") [lit "10.1.0.0/16"] [SecurityListEntry (lit "192.0.2.7") 5000]].

Lemma sample_valid : validate_security sample_policy = Returns tt.
Proof. by vm_compute. Qed.
Lemma sample_wildcards : Forall wildcards_build (expressions sample_policy).
Proof. apply Forall_forall. intros text _ program s i _ _ _. by eexists. Qed.

Lemma validated_policy_compiles_witness : exists compiled, compile_security_policy sample_policy = Returns compiled.
Proof. exact (validated_policy_compiles sample_policy sample_valid sample_wildcards). Defined.

Definition sample_compiled : compiled_policy :=
  match compile_security_policy sample_policy with Returns c => c | Throws _ => CompiledPolicy [] ∅ [] [] end.
Definition blocked_request : rule_match_request := mk_request (lit "/") (lit "GET") (lit "example.com") true [(lit "User-Agent", lit "wget")] (lit "10.1.200.3") (lit "FR") [].
Definition counted_request : rule_match_request := mk_request (lit "/") (lit "GET") (lit "example.org") true [] (lit "192.0.2.9") (lit "FR") [].

Lemma custom_rules_decide_witness :
  evaluate_policy blocked_request 0 (lit "site") sample_compiled (new_worker 0 10) 0 =
  Some (new_worker 0 10, inl (SecurityDecision 451 (lit "text/plain") (lit "no") (lit "deny") false false [lit "watch"])).
Proof.
  destruct (custom_rules_decide blocked_request 0 (lit "site") sample_policy sample_compiled (new_worker 0 10) 0 sample_valid ltac:(by vm_compute)) as [Hblock _].
  destruct (Hblock (custom_rule "deny" "block" (lit "ip.src in $bad") 451 [])) as [_ ->]; by vm_compute.
Defined.

Lemma request_always_decided_witness :
  exists program, new_security_program [(lit "site", Some sample_policy); (lit "open", None)] = Returns program /\
  exists counters d, evaluate_security counted_request 0 program (lit "site") (new_worker 0 10) 0 = Some (counters, inl d) /\ answer_status d.
Proof.
  destruct (new_security_program [(lit "site", Some sample_policy); (lit "open", None)]) as [program|m] eqn:E; [|vm_compute in E; discriminate].
  exists program. split; [done|].
  destruct (request_always_decided [sample_policy]) with (websites := [(lit "site", Some sample_policy); (lit "open", None : option security_policy)])
    (program := program) (website := lit "site") (request := counted_request) (clock := 0) (counters := new_worker 0 10) (now := 0) as (w & d & Hev & _ & Hd).
  - constructor; [|constructor]. split; [exact sample_valid|]. constructor; [|constructor]. by repeat split.
  - intros p q ->%list_elem_of_singleton ->%list_elem_of_singleton. done.
  - intros name p [[= _ <-]|[[=]|[]%not_elem_of_nil]%elem_of_cons]%elem_of_cons. by left.
  - exact E.
  - constructor.
  - eauto.
Defined.
End Samples.
