(* ===== verification/RouteProgram.v ===== *)
(** Compiled routes: src/node/data/route_program.h.

    The rules of a website resolved once: enums for the modes, regular expressions and capture
    templates, one origin plan per origin choice, and the rule indices of the three phases. *)
From S2P Require Import Prelude RoutePolicy RouteMatch OriginSelection.
Open Scope Z_scope.

(** * The website as the compiler reads it *)

Record header_mutation := mk_mutation { mutation_name : bytes; mutation_value : bytes }.
Record route_condition := mk_condition { c_source : bytes; c_name : bytes; c_op : bytes; c_value : bytes }.
Record route_rule := mk_route {
  r_id : bytes;
  r_enabled : bool;
  r_match_type : bytes;
  r_path : bytes;
  r_methods : list bytes;
  r_action : bytes;
  r_rewrite_path : bytes;
  r_redirect_url : bytes;
  r_redirect_status : Z;
  r_request_headers : list header_mutation;
  r_response_headers : list header_mutation;
  r_origin_ids : list bytes;
  r_origin_group : bytes;
  r_hostnames : list bytes;
  r_rewrite_mode : bytes;
  r_query_mode : bytes;
  r_query_string : bytes;
  r_conditions : list route_condition
}.
Record routed_website := mk_routed { site : website; default_origin_group : bytes; route_rules : list route_rule }.

(** * Compiled form *)

Inductive route_action := proxy | redirect | rewrite.
Inductive route_match_kind := prefix | exact | suffix | regex.
Inductive route_rewrite_kind := rewrite_none | replace_path | strip_prefix | replace_prefix.
Inductive route_query_kind := preserve | drop_query | replace_query.
Inductive route_condition_source := header | query.
Inductive route_condition_op := equals | not_equals | exists_ | absent.

#[export] Instance route_action_eq_dec : EqDecision route_action.
Proof. solve_decision. Defined.
#[export] Instance route_rewrite_kind_eq_dec : EqDecision route_rewrite_kind.
Proof. solve_decision. Defined.
#[export] Instance route_query_kind_eq_dec : EqDecision route_query_kind.
Proof. solve_decision. Defined.

Record compiled_route_condition := mk_compiled_condition {
  source_ : route_condition_source;
  op_ : route_condition_op;
  cond_name_ : bytes;
  cond_value_ : bytes
}.

(** [std::variant<std::string, std::uint8_t>] *)
Inductive route_capture_piece := Literal (text : bytes) | Capture (group : nat).
Abbreviation route_capture_template := (list route_capture_piece).

(** [literal] is the text collected so far; each case consumes what the index skips. *)
Definition flush (literal : bytes) (rest : route_capture_template) : route_capture_template :=
  if empty literal then rest else Literal literal :: rest.
Fixpoint capture_pieces (text literal : bytes) : route_capture_template :=
  match text with
  | [] => flush literal []
  | c :: t =>
      match t with
      | d :: t1 =>
          if (c == "$"%char) && (d == "$"%char) then capture_pieces t1 (literal ++ ["$"%char])
          else
            match t1 with
            | n :: e :: t2 =>
                if (c == "$"%char) && (d == "{"%char) && is_digit n && (e == "}"%char)
                then flush literal (Capture (Z.to_nat (code n - 48)) :: capture_pieces t2 [])
                else capture_pieces t (literal ++ [c])
            | _ => capture_pieces t (literal ++ [c])
            end
      | [] => flush (literal ++ [c]) []
      end
  end.
Definition compile_capture_template (text : bytes) (groups : Z) : throwing route_capture_template :=
  if negb (capture_template text groups) then Throws (lit "invalid route capture template")
  else Returns (capture_pieces text []).

Section Routes.
Context `{Re2}.

Record compiled_route_rule := mk_rule {
  id_ : bytes;
  action_ : route_action;
  match_ : route_match_kind;
  rewrite_ : route_rewrite_kind;
  query_ : route_query_kind;
  path_ : bytes;
  prefix_open_ : bool;
  pattern_ : option re2;
  methods_ : list bytes;
  hostnames_ : list bytes;
  conditions_ : list compiled_route_condition;
  rewrite_path_ : bytes;
  query_string_ : bytes;
  redirect_url_ : bytes;
  rewrite_template_ : route_capture_template;
  redirect_template_ : route_capture_template;
  redirect_status_ : Z;
  origin_group_ : bytes;
  origin_ids_ : list bytes;
  origin_plan_index_ : nat;
  request_headers_ : list header_mutation;
  response_headers_ : list header_mutation
}.

Record compiled_website_routes := mk_routes {
  default_origin_group_ : bytes;
  origin_plans_ : list origin_plan;
  rules_ : list compiled_route_rule;
  redirects_ : list nat;
  transforms_ : list nat;
  proxies_ : list nat
}.

Definition parse_action (action : bytes) : throwing route_action :=
  if action == lit "proxy" then Returns proxy
  else if action == lit "redirect" then Returns redirect
  else if action == lit "rewrite" then Returns rewrite
  else Throws (lit "invalid route action").

(** The match kind with its pattern and templates. *)
Definition parse_match (source : route_rule) :
    throwing (route_match_kind * option re2 * route_capture_template * route_capture_template) :=
  let type := r_match_type source in
  if type == lit "prefix" then Returns (prefix, None, [], [])
  else if type == lit "exact" then Returns (exact, None, [], [])
  else if type == lit "suffix" then Returns (suffix, None, [], [])
  else if type == lit "regex" then
    match compile_pattern (r_path source) with
    | None => Throws (lit "invalid route regex")
    | Some p =>
        let groups := Z.of_nat (re2_groups p) in
        throwing_bind (compile_capture_template (r_rewrite_path source) groups) (fun rewrite_template =>
          throwing_bind (compile_capture_template (r_redirect_url source) groups) (fun redirect_template =>
            Returns (regex, Some p, rewrite_template, redirect_template)))
    end
  else Throws (lit "invalid route match type").

Definition parse_rewrite (source : route_rule) : throwing route_rewrite_kind :=
  let mode := r_rewrite_mode source in
  if (mode == lit "none") || (empty mode && empty (r_rewrite_path source)) then Returns rewrite_none
  else if (mode == lit "replace_path") || empty mode then Returns replace_path
  else if mode == lit "strip_prefix" then Returns strip_prefix
  else if mode == lit "replace_prefix" then Returns replace_prefix
  else Throws (lit "invalid route rewrite mode").

Definition parse_query (source : route_rule) : throwing route_query_kind :=
  let mode := r_query_mode source in
  if empty mode || (mode == lit "preserve") then Returns preserve
  else if mode == lit "drop" then Returns drop_query
  else if mode == lit "replace" then Returns replace_query
  else Throws (lit "invalid route query mode").

Definition parse_condition (condition : route_condition) : throwing compiled_route_condition :=
  throwing_bind
    (if c_source condition == lit "header" then Returns header
     else if c_source condition == lit "query" then Returns query
     else Throws (lit "invalid route condition source")) (fun source =>
  throwing_bind
    (if c_op condition == lit "equals" then Returns equals
     else if c_op condition == lit "not_equals" then Returns not_equals
     else if c_op condition == lit "exists" then Returns exists_
     else if c_op condition == lit "absent" then Returns absent
     else Throws (lit "invalid route condition operator")) (fun op =>
  Returns (mk_compiled_condition source op
    (match source with header => map lower_ascii (c_name condition) | query => c_name condition end)
    (c_value condition)))).

Definition effective_group (default_group group : bytes) : bytes :=
  let group := if empty group then default_group else group in
  if empty group then lit "default" else group.

(** [std::ranges::find_if] over the compiled rules: a proxy rule with the same choice of origins. *)
Definition same_choice (default_group group : bytes) (ids : list bytes) (candidate : compiled_route_rule) : bool :=
  match action_ candidate with
  | proxy =>
      bool_decide (origin_ids_ candidate = ids) &&
      (negb (empty ids) || (effective_group default_group (origin_group_ candidate) == group))
  | _ => false
  end.

(** The index of the rule's origin plan, and the plans with a new one when it needs it. *)
Definition choose_plan (w : routed_website) (result : compiled_website_routes) (action : route_action)
    (origin_group : bytes) (ids : list bytes) : nat * list origin_plan :=
  let plans := origin_plans_ result in
  match action with
  | proxy =>
      let default_group := default_origin_group_ result in
      let group := effective_group default_group origin_group in
      if negb (empty ids) || (group != effective_group default_group []) then
        match List.find (same_choice default_group group ids) (rules_ result) with
        | Some previous => (origin_plan_index_ previous, plans)
        | None => (length plans, plans ++ [new_plan (site w) group ids])
        end
      else (0%nat, plans)
  | _ => (0%nat, plans)
  end.

(** One turn of the loop over the rules. *)
Definition compile_rule (w : routed_website) (result : compiled_website_routes) (source : route_rule) :
    throwing compiled_website_routes :=
  if negb (r_enabled source) then Returns result
  else
    throwing_bind (parse_action (r_action source)) (fun action =>
    throwing_bind (parse_match source) (fun '(kind, pattern, rewrite_template, redirect_template) =>
    throwing_bind (parse_rewrite source) (fun rewrite_mode =>
    throwing_bind (parse_query source) (fun query_mode =>
    throwing_bind (throwing_fold (fun acc c => throwing_bind (parse_condition c) (fun x => Returns (acc ++ [x]))) [] (r_conditions source)) (fun conditions =>
    let '(plan_index, plans) := choose_plan w result action (r_origin_group source) (r_origin_ids source) in
    let path := r_path source in
    let rule := mk_rule (r_id source) action kind rewrite_mode query_mode path
                  ((path == lit "/") || ends_with path (lit "/")) pattern (r_methods source)
                  (map hostname (r_hostnames source)) conditions (r_rewrite_path source) (r_query_string source)
                  (r_redirect_url source) rewrite_template redirect_template (r_redirect_status source)
                  (r_origin_group source) (r_origin_ids source) plan_index (r_request_headers source)
                  (r_response_headers source) in
    let index := length (rules_ result) in
    let is_redirect := bool_decide (action = redirect) in
    let transforms := negb (bool_decide (rewrite_mode = rewrite_none)) || negb (bool_decide (query_mode = preserve)) in
    Returns (mk_routes (default_origin_group_ result) plans (rules_ result ++ [rule])
      (if is_redirect then redirects_ result ++ [index] else redirects_ result)
      (if negb is_redirect && transforms then transforms_ result ++ [index] else transforms_ result)
      (if bool_decide (action = proxy) then proxies_ result ++ [index] else proxies_ result))))))).

Definition compile_website_routes (w : routed_website) : throwing compiled_website_routes :=
  let group := default_origin_group w in
  throwing_fold (compile_rule w) (mk_routes group [new_plan (site w) group []] [] [] [] []) (route_rules w).

(** The program of a worker: the compiled routes of each enabled website, by the website object. *)
Definition route_program : Type := gmap nat compiled_website_routes.
Definition new_route_program (websites : list (nat * bool * routed_website)) : throwing route_program :=
  throwing_fold (fun (program : route_program) '(object, is_enabled, w) =>
    if is_enabled : bool then throwing_bind (compile_website_routes w) (fun routes =>
      Returns (match program !! object with Some _ => program | None => <[object := routes]> program end))
    else Returns program) ∅ websites.
Definition program_website (program : route_program) (object : nat) : throwing compiled_website_routes :=
  match program !! object with
  | Some routes => Returns routes
  | None => Throws (lit "website does not belong to route program")
  end.
End Routes.

(** * Capture templates *)

(** The text of a template: a dollar of a literal doubled, a reference as [${n}]. *)
Definition escape_literal (text : bytes) : bytes :=
  concat (map (fun c => if c == "$"%char then ["$"%char; "$"%char] else [c]) text).
Definition render_piece (piece : route_capture_piece) : bytes :=
  match piece with
  | Literal text => escape_literal text
  | Capture group => lit "${" ++ [digit (Z.of_nat group)] ++ lit "}"
  end.
Definition render_template (pieces : route_capture_template) : bytes := concat (map render_piece pieces).

Definition piece_ok (groups : Z) (piece : route_capture_piece) : bool :=
  match piece with
  | Literal text => negb (empty text)
  | Capture group => (group <=? 9)%nat && (Z.of_nat group <=? groups)
  end.
(** No two literals follow each other. *)
Fixpoint separated (pieces : route_capture_template) : bool :=
  match pieces with
  | Literal _ :: ((Literal _ :: _) as rest) => false
  | _ :: rest => separated rest
  | [] => true
  end.

Lemma capture_pieces_plain c text literal :
  c <> "$"%char -> capture_pieces (c :: text) literal = capture_pieces text (literal ++ [c]).
Proof.
  intros Hc. assert ((c == "$"%char) = false) as E by by apply bool_decide_eq_false.
  destruct text as [|d text]; [done|]. cbn [capture_pieces]. rewrite E. cbn [andb].
  destruct text as [|n [|e text]]; done.
Qed.

Lemma capture_pieces_escape t rest literal :
  capture_pieces (escape_literal t ++ rest) literal = capture_pieces rest (literal ++ t).
Proof.
  revert literal. induction t as [|c t IH]; intros literal; [by rewrite app_nil_r|].
  unfold escape_literal in *. cbn [map concat]. rewrite <- app_assoc.
  destruct (c == "$"%char) eqn:E; reflect_bool; subst.
  - cbn [app]. change (capture_pieces ("$"%char :: "$"%char :: ?x) literal)
      with (capture_pieces x (literal ++ ["$"%char])).
    rewrite IH, <- app_assoc. done.
  - cbn [app]. rewrite capture_pieces_plain by done. rewrite IH, <- app_assoc. done.
Qed.

Lemma capture_template_escape t rest groups :
  capture_template rest groups = true -> capture_template (escape_literal t ++ rest) groups = true.
Proof.
  intros Hr. induction t as [|c t IH]; [done|].
  unfold escape_literal in *. cbn [map concat]. rewrite <- app_assoc.
  destruct (c == "$"%char) eqn:E; reflect_bool; subst; [exact IH|].
  cbn [app capture_template]. by rewrite (bool_decide_eq_false_2 _ E).
Qed.

Lemma digit_small n : (n <= 9)%nat -> code (digit (Z.of_nat n)) = 48 + Z.of_nat n.
Proof. intros. apply digit_code. lia. Qed.

Lemma capture_pieces_reference n rest literal :
  (n <= 9)%nat ->
  capture_pieces (render_piece (Capture n) ++ rest) literal = flush literal (Capture n :: capture_pieces rest []).
Proof.
  intros Hn. do 10 (destruct n as [|n]; [reflexivity|]). lia.
Qed.

Lemma capture_template_reference n rest groups :
  (n <= 9)%nat -> Z.of_nat n <= groups ->
  capture_template (render_piece (Capture n) ++ rest) groups = capture_template rest groups.
Proof.
  intros Hn Hg. pose proof (digit_small n Hn) as Hd.
  change (render_piece (Capture n) ++ rest)
    with ("$"%char :: "{"%char :: digit (Z.of_nat n) :: "}"%char :: rest).
  cbn [capture_template]. change ("$"%char != "$"%char) with false.
  change ("{"%char == "$"%char) with false. change ("{"%char != "{"%char) with false.
  change ("}"%char != "}"%char) with false. cbn [empty orb].
  change (code "0") with 48. change (code "9") with 57. rewrite Hd.
  repeat (rewrite (proj2 (Z.ltb_ge _ _)) by lia). done.
Qed.

Lemma render_template_valid pieces groups :
  Forall (fun p => piece_ok groups p = true) pieces -> capture_template (render_template pieces) groups = true.
Proof.
  unfold render_template. induction 1 as [|[t|n] pieces Hp _ IH]; [done| |]; cbn [map concat].
  - by apply capture_template_escape.
  - cbn in Hp. reflect_bool. by rewrite capture_template_reference.
Qed.

Lemma capture_pieces_render pieces literal groups :
  Forall (fun p => piece_ok groups p = true) pieces -> separated pieces = true ->
  (literal = [] \/ match pieces with Literal _ :: _ => False | _ => True end) ->
  capture_pieces (render_template pieces) literal = flush literal pieces.
Proof.
  unfold render_template. intros Hok. revert literal.
  induction Hok as [|[t|n] pieces Hp Hok IH]; intros literal Hs Hl; [done| |]; cbn [map concat].
  - destruct Hl as [->|[]]. cbn [render_piece]. rewrite capture_pieces_escape. cbn [app].
    destruct pieces as [|[u|n] pieces]; [|done|]; rewrite IH; try done; try (by right);
      by destruct t.
  - cbn in Hp. reflect_bool. rewrite capture_pieces_reference by done. f_equal. f_equal.
    rewrite IH; auto.
Qed.

(** Writing a template's pieces out (dollars of literals doubled, references as dollar and
    braces) and compiling the text gives the same pieces, for every list of nonempty literals that
    are separated by references to groups the pattern has. *)
Theorem capture_template_roundtrip pieces groups :
  Forall (fun p => piece_ok groups p = true) pieces -> separated pieces = true ->
  compile_capture_template (render_template pieces) groups = Returns pieces.
Proof.
  intros Hok Hs. unfold compile_capture_template. rewrite render_template_valid by done. cbn [negb].
  rewrite (capture_pieces_render _ _ groups) by auto. done.
Qed.

Lemma capture_template_roundtrip_witness :
  compile_capture_template (lit "/a$$b/${1}${2}/c") 2 =
  Returns [Literal (lit "/a$b/"); Capture 1; Capture 2; Literal (lit "/c")].
Proof.
  exact (capture_template_roundtrip [Literal (lit "/a$b/"); Capture 1; Capture 2; Literal (lit "/c")] 2
    ltac:(by_decision) eq_refl).
Defined.

Lemma capture_template_plain c text groups :
  c <> "$"%char -> capture_template (c :: text) groups = capture_template text groups.
Proof. intros Hc. cbn [capture_template]. by rewrite (bool_decide_eq_false_2 _ Hc). Qed.

Lemma capture_template_dollar d text groups :
  d <> "$"%char -> d <> "{"%char ->
  capture_template ("$"%char :: d :: text) groups = capture_template (d :: text) groups.
Proof.
  intros H1 H2. rewrite (capture_template_plain d) by done. cbn [capture_template].
  by rewrite (bool_decide_eq_false_2 _ H1), (bool_decide_eq_false_2 _ H2).
Qed.

Lemma capture_pieces_dollar d text literal :
  d <> "$"%char -> d <> "{"%char ->
  capture_pieces ("$"%char :: d :: text) literal = capture_pieces (d :: text) (literal ++ ["$"%char]).
Proof.
  intros H1 H2. rewrite (capture_pieces_plain d) by done. cbn [capture_pieces].
  rewrite (bool_decide_eq_false_2 _ H1), (bool_decide_eq_false_2 _ H2), !andb_false_r. cbn [andb].
  destruct text as [|n [|e [|? ?]]]; reflexivity.
Qed.

(** Every reference of a compiled template names a group the pattern has. *)
Definition references_bounded (groups : Z) (pieces : route_capture_template) : Prop :=
  Forall (fun p => match p with Capture n => Z.of_nat n <= groups /\ (n <= 9)%nat | Literal _ => True end) pieces.

Lemma references_flush groups literal pieces :
  references_bounded groups pieces -> references_bounded groups (flush literal pieces).
Proof. intros Hr. unfold flush. destruct (empty literal); [done|]. by constructor. Qed.

Lemma capture_pieces_bounded groups text literal :
  capture_template text groups = true -> references_bounded groups (capture_pieces text literal).
Proof.
  revert literal. induction text as [text IH] using (well_founded_induction (well_founded_ltof _ (@length ascii))).
  unfold ltof in IH. intros literal Hc.
  destruct text as [|c [|d t1]]; [by apply references_flush; constructor|by apply references_flush; constructor|].
  destruct (decide (c = "$"%char)) as [->|Ec].
  2: { rewrite capture_pieces_plain by done. rewrite capture_template_plain in Hc by done.
       apply IH; [simpl; lia|done]. }
  destruct (decide (d = "$"%char)) as [->|Ed].
  { apply (IH t1); [simpl; lia|exact Hc]. }
  destruct (decide (d = "{"%char)) as [->|Eb].
  - cbn [capture_pieces]. change ("{"%char == "$"%char) with false. change ("$"%char == "$"%char) with true.
    cbn [capture_template] in Hc. change ("$"%char != "$"%char) with false in Hc.
    change ("{"%char == "$"%char) with false in Hc. change ("{"%char != "{"%char) with false in Hc.
    cbn [orb empty] in Hc. destruct t1 as [|n [|e t2]]; try done.
    change ("{"%char == "{"%char) with true. cbn [andb].
    step_if. change (code "0") with 48 in *. change (code "9") with 57 in *.
    assert (is_digit n = true) as -> by (apply is_digit_spec; lia).
    change ("}"%char == "}"%char) with true. cbn [andb].
    apply references_flush, Forall_cons. split; [lia|apply IH; [simpl; lia|done]].
  - rewrite capture_template_dollar in Hc by done. rewrite capture_pieces_dollar by done.
    apply IH; [simpl; lia|done].
Qed.

Lemma compile_template_bounded text groups pieces :
  compile_capture_template text groups = Returns pieces -> references_bounded groups pieces.
Proof.
  unfold compile_capture_template. intros Hc. step_if. by apply capture_pieces_bounded.
Qed.

(** * Well-formed programs *)

(** The indices of the rules that pass [P], in order. *)
Definition indices {A} (P : A -> bool) (rules : list A) : list nat :=
  List.filter (fun i => match rules !! i with Some r => P r | None => false end) (seq 0 (length rules)).

Lemma indices_snoc {A} (P : A -> bool) rules r :
  indices P (rules ++ [r]) = indices P rules ++ (if P r then [length rules] else []).
Proof.
  unfold indices. rewrite length_app, seq_app, List.filter_app. f_equal.
  - apply List.filter_ext_in. intros i Hi%in_seq. by rewrite lookup_app_l by lia.
  - cbn. rewrite lookup_app_r, Nat.sub_diag by lia. cbn. by destruct (P r).
Qed.

Lemma indices_step {A} (P : A -> bool) rules r b :
  P r = b -> (if b then indices P rules ++ [length rules] else indices P rules) = indices P (rules ++ [r]).
Proof. intros <-. rewrite indices_snoc. destruct (P r); [done|by rewrite app_nil_r]. Qed.

Lemma indices_lookup {A} (P : A -> bool) rules i :
  i ∈ indices P rules -> exists r, rules !! i = Some r /\ P r = true.
Proof.
  intros [_ Hp]%list_elem_of_In%List.filter_In. destruct (rules !! i) as [r|]; [eauto|done].
Qed.

(** Reading the rules back at the indices of a phase. *)
Lemma indices_rules {A} (P : A -> bool) rules :
  omap (fun i => rules !! i) (indices P rules) = List.filter P rules.
Proof.
  induction rules as [|r rules IH] using rev_ind; [done|].
  rewrite indices_snoc, omap_app, List.filter_app. f_equal.
  - rewrite <- IH. apply list_omap_ext, Forall_Forall2_diag, Forall_forall.
    intros i (x & Hi & _)%indices_lookup. rewrite lookup_app_l; [done|]. by eapply lookup_lt_Some.
  - cbn [List.filter]. destruct (P r); [|done]. cbn. by rewrite lookup_app_r, Nat.sub_diag by lia.
Qed.

Lemma new_plan_ids w g g' ids : empty ids = false -> new_plan w g ids = new_plan w g' ids.
Proof.
  intros He. unfold new_plan. generalize (mk_plan [] []). generalize (website_origins w) as l.
  induction l as [|o l IH]; intros p; [done|]. cbn [fold_left]. rewrite IH. f_equal.
  unfold plan_step, selected. by rewrite He.
Qed.

Lemma new_plan_default w d : new_plan w d [] = new_plan w (effective_group d []) [].
Proof.
  unfold new_plan. f_equal. unfold effective_group, or_default. by destruct d.
Qed.

Section WellFormed.
Context `{Re2}.

Definition is_redirect (r : compiled_route_rule) : bool := bool_decide (action_ r = redirect).
Definition is_transform (r : compiled_route_rule) : bool :=
  negb (is_redirect r) &&
  (negb (bool_decide (rewrite_ r = rewrite_none)) || negb (bool_decide (query_ r = preserve))).
Definition is_proxy (r : compiled_route_rule) : bool := bool_decide (action_ r = proxy).

(** A regular expression rule has its pattern, of at most nine groups, and its templates refer to
    groups of that pattern. *)
Definition pattern_ok (r : compiled_route_rule) : Prop :=
  match_ r = regex ->
  exists p, pattern_ r = Some p /\ (re2_groups p <= 9)%nat /\
    references_bounded (Z.of_nat (re2_groups p)) (rewrite_template_ r) /\
    references_bounded (Z.of_nat (re2_groups p)) (redirect_template_ r).

(** The plan of a proxy rule is the plan of its own group and origins. *)
Definition plan_ok (w : routed_website) (plans : list origin_plan) (r : compiled_route_rule) : Prop :=
  action_ r = proxy ->
  plans !! origin_plan_index_ r =
    Some (new_plan (site w) (effective_group (default_origin_group w) (origin_group_ r)) (origin_ids_ r)).

Record routes_ok (w : routed_website) (sources : list route_rule) (routes : compiled_website_routes) : Prop := {
  ok_group : default_origin_group_ routes = default_origin_group w;
  ok_front : origin_plans_ routes !! 0%nat = Some (new_plan (site w) (default_origin_group w) []);
  ok_ids : map id_ (rules_ routes) = map r_id (List.filter r_enabled sources);
  ok_patterns : Forall pattern_ok (rules_ routes);
  ok_plans : Forall (plan_ok w (origin_plans_ routes)) (rules_ routes);
  ok_redirects : redirects_ routes = indices is_redirect (rules_ routes);
  ok_transforms : transforms_ routes = indices is_transform (rules_ routes);
  ok_proxies : proxies_ routes = indices is_proxy (rules_ routes)
}.

Lemma plan_ok_app w plans more r : plan_ok w plans r -> plan_ok w (plans ++ more) r.
Proof. intros Hp Ha. by apply lookup_app_l_Some, Hp. Qed.

Lemma parse_match_ok source kind pattern t1 t2 :
  parse_match source = Returns (kind, pattern, t1, t2) ->
  kind = regex -> exists p, pattern = Some p /\ (re2_groups p <= 9)%nat /\
    references_bounded (Z.of_nat (re2_groups p)) t1 /\ references_bounded (Z.of_nat (re2_groups p)) t2.
Proof.
  unfold parse_match. intros Hp ->. repeat case_match; try done.
  apply throwing_bind_returns in Hp as (u1 & Hu1 & (u2 & Hu2 & Hr)%throwing_bind_returns). simplify_eq.
  eexists. split_and!; [done| |by eapply compile_template_bounded..].
  match goal with E : compile_pattern _ = Some _ |- _ => unfold compile_pattern in E end.
  repeat case_match; try done. simplify_eq. reflect_bool. lia.
Qed.

Lemma choose_plan_ok w sources routes action group ids i plans :
  routes_ok w sources routes -> choose_plan w routes action group ids = (i, plans) ->
  (exists more, plans = origin_plans_ routes ++ more) /\
  (action = proxy ->
   plans !! i = Some (new_plan (site w) (effective_group (default_origin_group w) group) ids)).
Proof.
  intros Hok Hc. unfold choose_plan in Hc. rewrite (ok_group _ _ _ Hok) in Hc.
  destruct action; try (simplify_eq; split; [exists []; by rewrite app_nil_r|done]).
  destruct (negb (empty ids) || _) eqn:Ed; cycle 1.
  - simplify_eq. split; [exists []; by rewrite app_nil_r|]. intros _.
    apply orb_false_iff in Ed as [Eids Eg]. reflect_bool.
    apply empty_spec in Eids as ->. rewrite (ok_front _ _ _ Hok), Eg. f_equal. apply new_plan_default.
  - destruct (List.find _ _) as [previous|] eqn:Ef; simplify_eq.
    + split; [exists []; by rewrite app_nil_r|]. intros _.
      apply List.find_some in Ef as [Hin Hsame]. unfold same_choice in Hsame.
      destruct (action_ previous) eqn:Ea; try done. apply andb_true_iff in Hsame as [Hids Hg]. reflect_bool. subst.
      pose proof (ok_plans _ _ _ Hok) as Hall. rewrite Forall_forall in Hall.
      rewrite (Hall previous) by (try done; by apply list_elem_of_In). f_equal.
      destruct (empty (origin_ids_ previous)) eqn:Ee.
      * destruct Hg as [?|Hg]; [done|]. reflect_bool. by rewrite Hg.
      * by apply new_plan_ids.
    + split; [eauto|]. intros _. by rewrite lookup_app_r, Nat.sub_diag by lia.
Qed.

Lemma compile_rule_ok w done routes source routes' :
  routes_ok w done routes -> compile_rule w routes source = Returns routes' -> routes_ok w (done ++ [source]) routes'.
Proof.
  intros Hok Hc. unfold compile_rule in Hc. destruct (r_enabled source) eqn:Ee; cbn [negb] in Hc; cycle 1.
  { simplify_eq. destruct Hok. split; try done. rewrite List.filter_app. cbn. by rewrite Ee, app_nil_r. }
  apply throwing_bind_returns in Hc as (action & _ & Hc).
  apply throwing_bind_returns in Hc as ([[[kind pattern] t1] t2] & Hm & Hc).
  apply throwing_bind_returns in Hc as (rewrite_mode & _ & Hc).
  apply throwing_bind_returns in Hc as (query_mode & _ & Hc).
  apply throwing_bind_returns in Hc as (conditions & _ & Hc).
  destruct (choose_plan _ _ _ _ _) as [i plans] eqn:Ep.
  destruct (choose_plan_ok _ _ _ _ _ _ _ _ Hok Ep) as [[more ->] Hplan].
  injection Hc as <-. destruct Hok as [Hgroup Hfront Hids Hpat Hplans Hr Ht Hp]. split; cbn -[indices].
  - done.
  - by apply lookup_app_l_Some.
  - rewrite map_app, List.filter_app, map_app, Hids. cbn. by rewrite Ee.
  - apply Forall_app. split; [done|]. apply Forall_singleton. intros Hk. cbn in Hk. by eapply parse_match_ok.
  - apply Forall_app. split; [eapply Forall_impl; [exact Hplans|]; intros; by apply plan_ok_app|].
    apply Forall_singleton. intros Ha. by apply Hplan.
  - rewrite Hr. by apply indices_step.
  - rewrite Ht. by apply indices_step.
  - rewrite Hp. by apply indices_step.
Qed.

Lemma compile_routes_ok w routes :
  compile_website_routes w = Returns routes -> routes_ok w (route_rules w) routes.
Proof.
  unfold compile_website_routes. apply throwing_fold_inv.
  - split; cbn; try done; by constructor.
  - intros done source t t'. apply compile_rule_ok.
Qed.

(** The program compiled from a website is well formed: the rules are the enabled ones in
    order; every regular-expression rule owns a pattern of at most nine groups and its templates
    refer only to those; every proxy rule's shared plan is the plan of its own effective group and
    origin list; and the three phases hold, in order and without overlap of redirects with the
    rest, exactly the rules they are for. *)
Theorem compile_website_routes_ok w routes :
  compile_website_routes w = Returns routes ->
  routes_ok w (route_rules w) routes /\
  (forall i, i ∈ redirects_ routes -> i ∉ transforms_ routes /\ i ∉ proxies_ routes).
Proof.
  intros Hok%compile_routes_ok. split; [done|]. destruct Hok as [_ _ _ _ _ -> -> ->].
  intros i (r & Hi & Hr)%indices_lookup. split; intros (r' & Hi' & Hr')%indices_lookup; simplify_eq.
  - unfold is_transform in Hr'. by rewrite Hr in Hr'.
  - unfold is_redirect, is_proxy in *. reflect_bool. congruence.
Qed.
End WellFormed.

(** * Witness *)

Definition example_origins : website :=
  mk_website (lit "site") [mk_website_origin (lit "a") (lit "") (lit "primary") 2 true;
                           mk_website_origin (lit "b") (lit "eu") (lit "primary") 1 true;
                           mk_website_origin (lit "c") (lit "eu") (lit "backup") 1 true].
Definition proxy_rule (id : bytes) (path group : bytes) (ids : list bytes) (headers : list header_mutation) : route_rule :=
  mk_route id true (lit "prefix") path [] (lit "proxy") [] [] 0 headers [] ids group [] [] [] [] [].
Definition example_routes : routed_website :=
  mk_routed example_origins (lit "") [
    mk_route (lit "r1") true (lit "regex") (lit "/old/") [] (lit "redirect") [] (lit "/new/${1}") 301 [] [] [] [] [] [] [] [] [];
    mk_route (lit "r2") true (lit "prefix") (lit "/api") [] (lit "rewrite") (lit "/v2") [] 0 [] [] [] [] [] (lit "replace_prefix") [] [] [];
    mk_route (lit "r3") true (lit "prefix") (lit "/") [] (lit "rewrite") [] [] 0 [] [] [] [] [] (lit "none") (lit "replace") (lit "k=1")
      [mk_condition (lit "header") (lit "X-Debug") (lit "absent") []];
    proxy_rule (lit "r4") (lit "/") (lit "") [] [mk_mutation (lit "X-A") (lit "1")];
    proxy_rule (lit "r5") (lit "/v2") (lit "eu") [] [mk_mutation (lit "x-a") (lit "2"); mk_mutation (lit "X-B") (lit "3")];
    proxy_rule (lit "r6") (lit "/none") (lit "eu") [] []].
Definition example_program : compiled_website_routes (H:=text_engine) :=
  match @compile_website_routes text_engine example_routes with
  | Returns routes => routes
  | Throws _ => @mk_routes text_engine [] [] [] [] [] []
  end.

Lemma compile_website_routes_ok_witness :
  length (origin_plans_ example_program) = 2%nat /\ @routes_ok text_engine example_routes (route_rules example_routes) example_program.
Proof.
  split; [by vm_compute|].
  apply (@compile_website_routes_ok text_engine example_routes example_program). by vm_compute.
Defined.
