(* ===== verification/WebsiteValidation.v ===== *)
(** Protocol rules of a published website: src/node/proto/website_validation.h.

    The control plane checks them before it publishes a website, the node before it serves one. A
    check that throws [invalid_website] is [Throws]. *)
From S2P Require Import Prelude RoutePolicy RouteMatch OriginSelection CachePolicy SecurityPolicy RouteProgram.
Open Scope Z_scope.

(** * The website of edge_control.proto *)

Record domain := Domain { domain_hostname : bytes; domain_https : bool; certificate_digest : bytes }.
Record published_origin := PublishedOrigin { origin : website_origin; origin_host : bytes; origin_port : Z; origin_protocol : bytes }.
Record published_rule := PublishedRule { route : route_rule; route_name : bytes; route_description : bytes }.
Record health_check := HealthCheck {
  health_check_enabled : bool; health_check_path : bytes; health_check_interval_seconds : Z; health_check_timeout_seconds : Z;
  health_check_expected_status : Z; healthy_threshold : Z; unhealthy_threshold : Z }.
Record response_compression := ResponseCompression {
  compression_enabled : bool; compression_min_bytes : Z; compression_max_bytes : Z; compression_algorithms : list bytes;
  compression_mime_types : list bytes; compression_extensions : list bytes; compression_excluded_extensions : list bytes }.
(** What the access log of a website records. *)
Record log_fields := LogFields {
  access_log_enabled : bool; access_log_request_headers : bool; access_log_request_body : bool; access_log_response_headers : bool;
  access_log_query_params : bool; access_log_cookies : bool; access_log_referer : bool; access_log_user_agent : bool; access_log_client_abort : bool }.
Record published_website := PublishedWebsite {
  published_id : bytes;
  published_revision : Z;
  published_enabled : bool;
  domains : list domain;
  origins : list published_origin;
  default_group : bytes;
  origin_host_header : bytes;
  origin_http_version : bytes;
  origin_connect_timeout_seconds : Z;
  origin_read_timeout_seconds : Z;
  pass_client_ip : bool;
  health : health_check;
  access_log : log_fields;
  status_code_ranges : list bytes;
  https_enabled : bool;
  minimum_tls_version : bytes;
  force_https : bool;
  hsts_enabled : bool;
  compression : response_compression;
  rules : list published_rule;
  security_ : option security_policy;
  response_cache : option proto_policy
}.
(** What the route compiler reads of it. *)
Definition routed (w : published_website) : routed_website :=
  mk_routed (mk_website (published_id w) (map origin (origins w))) (default_group w) (map route (rules w)).

(** * Limits and fields *)

Definition max_route_rules : Z := 100.
Definition max_route_conditions : Z := 20.
Definition max_route_hostnames : Z := 100.
Definition max_route_methods : Z := 8.
Definition max_route_headers : Z := 20.
Definition max_route_header_value_bytes : Z := 4096.
Definition max_route_path_bytes : Z := 2048.
Definition max_route_name_bytes : Z := 100.
Definition max_route_description_bytes : Z := 1000.
Definition min_response_compression_bytes : Z := 256.
Definition max_response_compression_min_bytes : Z := 1024 * 1024.
Definition max_response_compression_bytes : Z := 64 * 1024 * 1024.
Definition max_response_compression_match_values : Z := 32.
Definition max_response_compression_match_value_bytes : Z := 127.
Definition max_hostname_bytes : Z := 253.

(** [std::isspace] of the "C" locale. *)
Definition isspace (c : ascii) : bool := ((9 <=? code c) && (code c <=? 13)) || (code c =? 32).
Definition one_of (values : list string) (value : bytes) : bool := existsb (fun v => value == lit v) values.
Definition token (value : bytes) : bool := http_token value (size value).

Definition forbidden_headers : list string :=
  ["Connection"; "Content-Length"; "Host"; "Keep-Alive"; "Proxy-Connection"; "TE"; "Strict-Transport-Security"; "Trailer"; "Transfer-Encoding"; "Upgrade"].
Definition route_header_name (value : bytes) : bool := token value && negb (existsb (fun name => ascii_equal value (lit name)) forbidden_headers).
Definition cr : ascii := chr 13.
Definition lf : ascii := chr 10.
Definition no_line_break (value : bytes) : bool := negb (mem_char cr value) && negb (mem_char lf value).
Definition route_header_value (value : bytes) : bool := (size value <=? max_route_header_value_bytes) && no_line_break value.
Definition route_path (value : bytes) : bool :=
  negb (empty value) && (size value <=? max_route_path_bytes) && first_is "/" value && no_line_break value.
Definition route_suffix (value : bytes) : bool :=
  negb (empty value) && clean_text value max_route_path_bytes && negb (present (find_first_of (lit " ?#") value)).
Definition route_redirect_url (value : bytes) : bool :=
  negb (empty value) && (size value <=? max_route_path_bytes) &&
  (first_is "/" value || starts_with value (lit "http://") || starts_with value (lit "https://")) && negb (existsb isspace value).
Definition route_method (value : bytes) : bool := one_of ["GET"; "HEAD"; "POST"; "PUT"; "PATCH"; "DELETE"; "OPTIONS"] value.
Definition compression_algorithm (value : bytes) : bool := one_of ["br"; "zstd"; "gzip"] value.
Definition compression_mime_type (value : bytes) : bool :=
  match find_char "/" value with
  | None => false
  | Some slash =>
      let subtype := drop (S slash) value in
      if present (find_char "/" subtype) then false
      else token (take slash value) && ((subtype == lit "*") || token subtype)
  end.
Inductive compression_match_kind := mime_type | extension.
Definition compression_match_value (kind : compression_match_kind) (value : bytes) : bool :=
  negb (empty value) && (size value <=? max_response_compression_match_value_bytes) && negb (existsb isspace value) &&
  match kind with extension => first_is "." value | mime_type => compression_mime_type value end.
Definition access_log_status_code_range (value : bytes) : bool := one_of ["1xx"; "2xx"; "3xx"; "4xx"; "5xx"] value.

(** * The checks *)

Definition ensure (ok : bool) (message : string) : throwing unit := if ok then Returns tt else Throws (lit message).
Definition route_methods (methods : list bytes) : bool := (size methods <=? max_route_methods) && distinct_loop route_method id [] methods.
Definition route_header (h : header_mutation) : bool := route_header_name (mutation_name h) && route_header_value (mutation_value h).
Definition route_headers (headers : list header_mutation) : bool :=
  (size headers <=? max_route_headers) && distinct_loop route_header (fun h => map lower_ascii (mutation_name h)) [] headers.

Section Checks.
Context `{Re2} `{MatchList.Asio} `{SecurityLibraries}.

Definition validate_access_log (w : published_website) : throwing unit :=
  ensure (distinct_loop access_log_status_code_range id [] (status_code_ranges w)) "invalid access log status code range".
Definition validate_compression_match_values (values : list bytes) (kind : compression_match_kind) : throwing unit :=
  if max_response_compression_match_values <? size values then Throws (lit "too many response compression match values")
  else ensure (distinct_loop (compression_match_value kind) id [] values) "invalid response compression match value".
Definition validate_response_compression (w : published_website) : throwing unit :=
  let c := compression w in
  if compression_enabled c &&
     ((compression_min_bytes c <? min_response_compression_bytes) || (max_response_compression_min_bytes <? compression_min_bytes c) ||
      (negb (compression_max_bytes c =? 0) && (compression_max_bytes c <? compression_min_bytes c)) ||
      (max_response_compression_bytes <? compression_max_bytes c) || empty (compression_algorithms c))
  then Throws (lit "invalid response compression policy")
  else
    throwing_bind (ensure (distinct_loop compression_algorithm id [] (compression_algorithms c)) "invalid response compression algorithm") (fun _ =>
    throwing_bind (validate_compression_match_values (compression_mime_types c) mime_type) (fun _ =>
    throwing_bind (validate_compression_match_values (compression_extensions c) extension) (fun _ =>
    validate_compression_match_values (compression_excluded_extensions c) extension))).

Definition invalid_health_check (h : health_check) : bool :=
  health_check_enabled h &&
  (empty (health_check_path h) || negb (first_is "/" (health_check_path h)) || (health_check_interval_seconds h =? 0) ||
   (health_check_timeout_seconds h =? 0) || (negb (health_check_expected_status h =? 0) && (health_check_expected_status h <? 100)) ||
   (599 <? health_check_expected_status h) || (healthy_threshold h =? 0) || (unhealthy_threshold h =? 0)).
Definition validate_website_basics (w : published_website) : throwing unit :=
  if negb (empty (origin_http_version w)) && negb (one_of ["auto"; "http1"; "http2"] (origin_http_version w)) then Throws (lit "invalid origin HTTP version")
  else if empty (published_id w) || (published_revision w <=? 0) || empty (domains w) then Throws (lit "invalid enabled website")
  else if (origin_connect_timeout_seconds w =? 0) || (origin_read_timeout_seconds w =? 0) then Throws (lit "enabled website requires finite origin timeouts")
  else if invalid_health_check (health w) then Throws (lit "invalid origin health check policy")
  else if force_https w && negb (https_enabled w) then Throws (lit "force_https requires https_enabled")
  else if hsts_enabled w && negb (https_enabled w) then Throws (lit "HTTPS feature requires https_enabled")
  else if https_enabled w && (minimum_tls_version w != lit "1.2") && (minimum_tls_version w != lit "1.3") then Throws (lit "unsupported minimum TLS version")
  else throwing_bind (validate_access_log w) (fun _ => validate_response_compression w).

Definition enabled_ids (w : published_website) : list bytes := map origin_id (List.filter enabled (map origin (origins w))).
Definition route_origin_id (w : published_website) (id : bytes) : bool := negb (empty id) && bool_decide (id ∈ enabled_ids w).
Definition route_origin_ids (ids : list bytes) (w : published_website) : bool := (size ids <=? 20) && distinct_loop (route_origin_id w) id [] ids.
Definition route_origin_group (rule : route_rule) (w : published_website) : bool :=
  if negb (empty (r_origin_ids rule)) then route_origin_ids (r_origin_ids rule) w
  else if empty (r_origin_group rule) then false
  else existsb (fun o => (or_default (group (origin o)) == r_origin_group rule) && enabled (origin o) && (role (origin o) == lit "primary")) (origins w).

Definition validate_route_pattern (rule : route_rule) : throwing unit :=
  if r_match_type rule == lit "regex" then
    ensure match compile_pattern (r_path rule) with
           | Some pattern =>
               capture_template (r_rewrite_path rule) (Z.of_nat (re2_groups pattern)) && capture_template (r_redirect_url rule) (Z.of_nat (re2_groups pattern))
           | None => false
           end "invalid route regex or capture template"
  else Returns tt.
Definition invalid_route_policy (rule : published_rule) : bool :=
  let r := route rule in
  let mode := r_rewrite_mode r in
  negb (clean_text (route_name rule) max_route_name_bytes) || (max_route_description_bytes <? size (route_description rule)) ||
  (max_route_hostnames <? size (r_hostnames r)) || negb (rewrite_mode mode) || negb (query_mode (r_query_mode r)) ||
  negb (query_string (r_query_string r)) || ((r_query_mode r != lit "replace") && negb (empty (r_query_string r))) ||
  (((mode == lit "none") || (mode == lit "strip_prefix")) && negb (empty (r_rewrite_path r))) ||
  (((mode == lit "replace_path") || (mode == lit "replace_prefix")) && empty (r_rewrite_path r)) ||
  (((mode == lit "strip_prefix") || (mode == lit "replace_prefix")) &&
   ((r_match_type r != lit "prefix") || negb (path_only (r_path r)) || ((mode == lit "replace_prefix") && negb (path_only (r_rewrite_path r))))) ||
  ((r_action r == lit "redirect") && negb (empty mode) && (mode != lit "none")).
Definition invalid_route_rule (ids : gset bytes) (r : route_rule) : bool :=
  empty (r_id r) || bool_decide (r_id r ∈ ids) || negb (valid_match_type (r_match_type r)) ||
  (if r_match_type r == lit "suffix" then negb (route_suffix (r_path r)) else (r_match_type r != lit "regex") && negb (route_path (r_path r))) ||
  negb (route_methods (r_methods r)) ||
  ((r_action r != lit "proxy") && (r_action r != lit "redirect") && (r_action r != lit "rewrite")) ||
  negb (route_headers (r_request_headers r)) || negb (route_headers (r_response_headers r)).
Definition invalid_rewrite_path (r : route_rule) : bool := negb (empty (r_rewrite_path r)) && negb (path_only (r_rewrite_path r)).
Definition validate_route_action (w : published_website) (r : route_rule) : throwing unit :=
  if r_action r == lit "rewrite" then
    ensure (negb (negb (empty (r_origin_ids r)) || negb (empty (r_origin_group r)) || negb (empty (r_redirect_url r)) || negb (r_redirect_status r =? 0) ||
            negb (empty (r_request_headers r)) || negb (empty (r_response_headers r)) || invalid_rewrite_path r)) "invalid rewrite route rule"
  else if r_action r == lit "proxy" then
    ensure (negb (negb (route_origin_group r w) || invalid_rewrite_path r || negb (empty (r_redirect_url r)) || negb (r_redirect_status r =? 0)))
      "invalid proxy route rule"
  else
    ensure (negb (negb (empty (r_origin_ids r)) || negb (empty (r_origin_group r)) || negb (empty (r_rewrite_path r)) || negb (route_redirect_url (r_redirect_url r)) ||
            negb (redirect_status (r_redirect_status r)))) "invalid redirect route rule".
Definition valid_condition (c : route_condition) : bool := condition_options (c_source c) (c_name c) (c_op c) (c_value c).
(** One turn of the loop over the rules. *)
Definition validate_route_rule (w : published_website) (ids : gset bytes) (rule : published_rule) : throwing (gset bytes) :=
  let r := route rule in
  throwing_bind (validate_route_pattern r) (fun _ =>
  if max_route_conditions <? size (r_conditions r) then Throws (lit "too many route conditions")
  else
    throwing_bind (check_all (fun c => ensure (valid_condition c) "invalid route condition") (r_conditions r)) (fun _ =>
    if invalid_route_policy rule then Throws (lit "invalid route policy options")
    else
      throwing_bind (ensure (distinct_loop exact_hostname hostname [] (r_hostnames r)) "invalid route hostname filter") (fun _ =>
      if invalid_route_rule ids r then Throws (lit "invalid website route rule")
      else throwing_bind (validate_route_action w r) (fun _ => Returns ({[r_id r]} ∪ ids))))).
Definition validate_route_rules (w : published_website) : throwing unit :=
  if max_route_rules <? size (rules w) then Throws (lit "too many website route rules")
  else throwing_bind (throwing_fold (validate_route_rule w) ∅ (rules w)) (fun _ => Returns tt).

(** The groups with an enabled origin, and those with an enabled primary. *)
Definition validate_origin (state : gset bytes * gset bytes) (o : published_origin) : throwing (gset bytes * gset bytes) :=
  let '(enabled_groups, primary_groups) := state in
  let base := origin o in
  if negb (enabled base) then Returns state
  else if empty (origin_id base) || empty (origin_host o) || (origin_port o =? 0) || (65535 <? origin_port o) ||
          negb (one_of ["http"; "https"] (origin_protocol o)) || negb (one_of ["primary"; "backup"] (role base)) || (weight base =? 0)
  then Throws (lit "invalid enabled website origin")
  else
    let group := or_default (group base) in
    Returns ({[group]} ∪ enabled_groups, if role base == lit "primary" then {[group]} ∪ primary_groups else primary_groups).
Definition validate_website_origins (w : published_website) : throwing unit :=
  throwing_bind (throwing_fold validate_origin (∅, ∅) (origins w)) (fun '(enabled_groups, primary_groups) =>
  ensure (negb (bool_decide (enabled_groups = ∅) || negb (bool_decide (enabled_groups = primary_groups)) || negb (bool_decide (or_default (default_group w) ∈ enabled_groups))))
    "enabled website requires an enabled origin").

Definition validate_domain (w : published_website) (has_https : bool) (d : domain) : throwing bool :=
  let name := hostname (domain_hostname d) in
  if empty name || (max_hostname_bytes <? size name) then Throws (lit "hostname is empty or exceeds 253 bytes after normalization")
  else if domain_https d && negb (https_enabled w) then Throws (lit "HTTPS domain requires HTTPS website")
  else if domain_https d && empty (certificate_digest d) then Throws (lit "HTTPS domain requires certificate material")
  else Returns (has_https || domain_https d).
Definition validate_website_domains (w : published_website) : throwing unit :=
  throwing_bind (throwing_fold (validate_domain w) false (domains w)) (fun has_https =>
  ensure (negb (https_enabled w && negb has_https)) "HTTPS website requires an HTTPS domain").

Definition validate_website (w : published_website) : throwing unit :=
  throwing_bind (match security_ w with Some policy => validate_security policy | None => Returns tt end) (fun _ =>
  throwing_bind
    (match response_cache w with
     | Some policy => ensure (negb (negb (empty (CachePolicy.validate (from_proto policy))) || empty (pb_id policy) || (pb_revision policy <? 1))) "invalid response cache policy"
     | None => Returns tt
     end) (fun _ =>
  if negb (published_enabled w) then Returns tt
  else
    throwing_bind (validate_website_basics w) (fun _ =>
    throwing_bind (validate_route_rules w) (fun _ =>
    throwing_bind (validate_website_origins w) (fun _ =>
    validate_website_domains w))))).
End Checks.

(** * What validation leaves of a website *)

Section Validated.
Context `{Re2} `{MatchList.Asio} `{SecurityLibraries}.

Lemma ensure_returns ok message : ensure ok message = Returns tt <-> ok = true.
Proof. unfold ensure. by destruct ok. Qed.

Record rule_ok (w : published_website) (rule : published_rule) : Prop := {
  ok_pattern : validate_route_pattern (route rule) = Returns tt;
  ok_conditions : Forall (fun c => valid_condition c = true) (r_conditions (route rule));
  ok_policy : invalid_route_policy rule = false;
  ok_hostnames : distinct_loop exact_hostname hostname [] (r_hostnames (route rule)) = true;
  ok_fields : exists ids, invalid_route_rule ids (route rule) = false;
  ok_action : validate_route_action w (route rule) = Returns tt
}.

Lemma validate_rule_ok w ids rule ids' : validate_route_rule w ids rule = Returns ids' -> rule_ok w rule /\ ids' = {[r_id (route rule)]} ∪ ids /\ r_id (route rule) ∉ ids.
Proof.
  unfold validate_route_rule. intros ([] & Hp & Hrest)%throwing_bind_returns. destruct (_ <? _); [done|].
  apply throwing_bind_returns in Hrest as ([] & Hc & Hrest). destruct (invalid_route_policy rule) eqn:Ei; [done|].
  apply throwing_bind_returns in Hrest as ([] & Hh & Hrest). destruct (invalid_route_rule ids (route rule)) eqn:Er; [done|].
  apply throwing_bind_returns in Hrest as ([] & Ha & [= <-]). rewrite check_all_spec in Hc. rewrite ensure_returns in Hh.
  split; [split; try done|split; [done|]].
  - eapply Forall_impl; [exact Hc|]. intros c. cbv beta. by rewrite ensure_returns.
  - by exists ids.
  - unfold invalid_route_rule in Er. rewrite !orb_false_iff in Er. destruct Er as [[[[[[[_ Hin] _] _] _] _] _] _]. by apply bool_decide_eq_false in Hin.
Qed.

Lemma validate_rules_ok w l : forall ids ids',
  throwing_fold (validate_route_rule w) ids l = Returns ids' -> Forall (rule_ok w) l.
Proof.
  induction l as [|rule l IH]; intros ids ids'; cbn [throwing_fold]; [by constructor|].
  intros (ids1 & Hr & Hrest)%throwing_bind_returns. constructor; [by apply validate_rule_ok in Hr as [? _]|by eapply IH].
Qed.

(** A rule that was validated gives the compiler nothing to throw on. *)
Lemma parse_action_ok rule w : rule_ok w rule -> exists action, parse_action (r_action (route rule)) = Returns action.
Proof.
  intros [_ _ _ _ [ids Hr] _]. unfold invalid_route_rule in Hr. rewrite !orb_false_iff in Hr. destruct Hr as [[[_ Ha] _] _].
  unfold parse_action. destruct (r_action (route rule) == lit "proxy"); [eauto|]. destruct (_ == lit "redirect"); [eauto|].
  destruct (_ == lit "rewrite"); [eauto|done].
Qed.
Lemma parse_match_total rule w : rule_ok w rule -> exists result, parse_match (route rule) = Returns result.
Proof.
  intros [Hp _ _ _ [ids Hr] _]. unfold invalid_route_rule in Hr. rewrite !orb_false_iff in Hr. destruct Hr as [[[[[[[_ _] Hm] _] _] _] _] _].
  unfold validate_route_pattern in Hp. unfold parse_match, valid_match_type in *.
  destruct (r_match_type (route rule) == lit "prefix"); [eauto|]. destruct (_ == lit "exact"); [eauto|]. destruct (_ == lit "suffix"); [eauto|].
  destruct (_ == lit "regex"); [|done]. rewrite ensure_returns in Hp. destruct (compile_pattern _) as [p|]; [|done].
  apply andb_true_iff in Hp as [H1' H2']. unfold compile_capture_template. rewrite H1', H2'. cbn. eauto.
Qed.
Lemma policy_fields rule : invalid_route_policy rule = false -> rewrite_mode (r_rewrite_mode (route rule)) = true /\ query_mode (r_query_mode (route rule)) = true.
Proof.
  unfold invalid_route_policy. rewrite !orb_false_iff. intros [[[[[[[[_ Hr] Hq] _] _] _] _] _] _].
  split; by apply negb_false_iff.
Qed.
Lemma parse_rewrite_total rule w : rule_ok w rule -> exists mode, parse_rewrite (route rule) = Returns mode.
Proof.
  intros [_ _ Hi _ _ _]. apply policy_fields in Hi as [Hr _]. unfold parse_rewrite, rewrite_mode in *.
  destruct (r_rewrite_mode (route rule) == lit "none"); [eauto|]. destruct (empty (r_rewrite_mode (route rule))).
  - cbn [orb andb]. destruct (empty (r_rewrite_path _)); [eauto|]. rewrite orb_true_r. eauto.
  - cbn [orb andb] in *. destruct (_ == lit "replace_path"); [eauto|]. destruct (_ == lit "strip_prefix"); [eauto|]. destruct (_ == lit "replace_prefix"); [eauto|done].
Qed.
Lemma parse_query_total rule w : rule_ok w rule -> exists mode, parse_query (route rule) = Returns mode.
Proof.
  intros [_ _ Hi _ _ _]. apply policy_fields in Hi as [_ Hq]. unfold parse_query, query_mode in *.
  destruct (empty _ || _)%bool; [eauto|]. destruct (_ == lit "drop"); [eauto|]. destruct (_ == lit "replace"); [eauto|done].
Qed.
Lemma parse_condition_total c : valid_condition c = true -> exists compiled, parse_condition c = Returns compiled.
Proof.
  unfold valid_condition, condition_options, parse_condition. destruct (_ || _)%bool eqn:E; [done|]. intros _.
  rewrite !orb_false_iff in E. destruct E as [[[[[Hs _] _] _] Ho] _].
  destruct (c_source c == lit "header"); [|destruct (c_source c == lit "query"); [|done]]; cbn [throwing_bind];
    (destruct (c_op c == lit "equals"); [cbn; eauto|]; destruct (c_op c == lit "not_equals"); [cbn; eauto|];
     destruct (c_op c == lit "exists"); [cbn; eauto|]; destruct (c_op c == lit "absent"); [cbn; eauto|done]).
Qed.

Lemma compile_rule_total w rule routes : rule_ok w rule -> exists routes', compile_rule (routed w) routes (route rule) = Returns routes'.
Proof.
  intros Hok. unfold compile_rule. destruct (r_enabled (route rule)); cbn [negb]; [|eauto].
  destruct (parse_action_ok _ _ Hok) as [action ->]. destruct (parse_match_total _ _ Hok) as [[[[kind pattern] t1] t2] ->].
  destruct (parse_rewrite_total _ _ Hok) as [mode ->]. destruct (parse_query_total _ _ Hok) as [query ->]. cbn [throwing_bind].
  destruct (throwing_fold_total (fun acc c => throwing_bind (parse_condition c) (fun x => Returns (acc ++ [x]))) [] (r_conditions (route rule))) as [conditions ->].
  { intros acc c Hc. pose proof (ok_conditions _ _ Hok) as Hall. rewrite Forall_forall in Hall.
    destruct (parse_condition_total c (Hall c Hc)) as [compiled ->]. cbn. eauto. }
  cbn [throwing_bind]. destruct (choose_plan _ _ _ _ _) as [i plans]. eauto.
Qed.

Lemma validated_routes_compile w : validate_route_rules w = Returns tt -> exists routes, compile_website_routes (routed w) = Returns routes.
Proof.
  unfold validate_route_rules. destruct (_ <? _); [done|]. intros (ids & Hfold & _)%throwing_bind_returns. apply validate_rules_ok in Hfold.
  unfold compile_website_routes. apply throwing_fold_total. intros routes source Hin. cbn [routed route_rules] in Hin.
  apply list_elem_of_fmap in Hin as (rule & -> & Hin). rewrite Forall_forall in Hfold. by apply compile_rule_total, Hfold.
Qed.
End Validated.

(** * Every plan of a validated website has an origin *)

Definition origin_ok (o : published_origin) : Prop :=
  enabled (origin o) = true -> weight (origin o) <> 0 /\ (role (origin o) = lit "primary" \/ role (origin o) = lit "backup").
Definition enabled_primary (g : bytes) (o : published_origin) : Prop :=
  enabled (origin o) = true /\ role (origin o) = lit "primary" /\ or_default (group (origin o)) = g.

Lemma validate_origins_ok l : forall state state',
  throwing_fold validate_origin state l = Returns state' ->
  Forall origin_ok l /\ (forall g, g ∈ snd state' -> g ∈ snd state \/ Exists (enabled_primary g) l).
Proof.
  induction l as [|o l IH]; intros [eg pg] state'; cbn [throwing_fold]; [intros [= <-]; split; [constructor|auto]|].
  intros (state1 & Ho & Hrest)%throwing_bind_returns. destruct (IH _ _ Hrest) as [Hall Hg]. unfold validate_origin in Ho.
  destruct (enabled (origin o)) eqn:Ee; cbn [negb] in Ho.
  - destruct (_ || _)%bool eqn:Ev in Ho; [done|]. rewrite !orb_false_iff in Ev. destruct Ev as [[[_ _] Hrole] Hw]. injection Ho as <-. cbn [snd] in Hg |- *.
    apply negb_false_iff in Hrole. unfold one_of in Hrole. cbn [existsb] in Hrole. rewrite orb_false_r in Hrole. split.
    + constructor; [|done]. intros _. split; [lia|]. apply orb_true_iff in Hrole as [Hr|Hr]; reflect_bool; auto.
    + intros g Hin. destruct (Hg g Hin) as [Hold|Hex]; [|right; by apply Exists_cons_tl].
      case_bool_decide as Er; [|by left]. apply elem_of_union in Hold as [->%elem_of_singleton|Hold]; [|by left].
      right. by apply Exists_cons_hd.
  - injection Ho as <-. split; [constructor; [intros E; congruence|done]|]. intros g Hin. destruct (Hg g Hin) as [?|?]; [by left|right; by apply Exists_cons_tl].
Qed.

(** The widths of the fields: the weights are unsigned 32-bit integers, the list has fewer than 2^32. *)
Definition origin_fields (w : published_website) : Prop := Forall (fun o => origin_weight_ok (origin o)) (origins w) /\ size (origins w) < 4294967296.

Lemma plan_has w g ids o r :
  origin_fields w -> o ∈ origins w -> (r < 2)%nat -> eligible (or_default g) ids r (origin o) = true ->
  plan_empty (new_plan (mk_website (published_id w) (map origin (origins w))) g ids) = false.
Proof.
  intros [Hf Hs] Hin Hr He. set (site := mk_website _ _).
  assert (OriginSelection.plan_ok (published_id w) (or_default g) ids (map origin (origins w)) (new_plan site g ids)) as [Hroles].
  { apply (new_plan_ok site g ids); cbn; [by apply Forall_map|]. unfold size in *. by rewrite length_map. }
  destruct (Hroles r Hr) as (_ & Hm & _).
  assert (origin o ∈ map origin_ (roles_ (new_plan site g ids) r)) as Hc.
  { rewrite Hm. apply list_elem_of_In, filter_In. split; [|done]. apply list_elem_of_In, list_elem_of_fmap. by exists o. }
  unfold plan_empty. destruct r as [|[|r]]; [| |lia]; cbn [roles_] in Hc.
  - destruct (primary_ _); [by apply not_elem_of_nil in Hc|done].
  - destruct (backup_ _); [by apply not_elem_of_nil in Hc|apply andb_false_r].
Qed.

Lemma primary_eligible g o : origin_ok o -> enabled_primary g o -> eligible g [] 0 (origin o) = true.
Proof.
  intros Hok (He & Hr & Hg). destruct (Hok He) as [Hw _]. unfold eligible, selected, role_index. rewrite He, Hr, Hg.
  rewrite (proj2 (Z.eqb_neq _ _) Hw). cbn. by apply bool_decide_eq_true.
Qed.

Section RulePlans.
Context `{Re2} `{MatchList.Asio} `{SecurityLibraries}.

(** Where a compiled rule comes from. *)
Definition comes_from (sources : list route_rule) (r : compiled_route_rule) : Prop :=
  exists source, source ∈ sources /\ parse_action (r_action source) = Returns (action_ r) /\ origin_group_ r = r_origin_group source /\ origin_ids_ r = r_origin_ids source.
Lemma compiled_sources w routes : compile_website_routes w = Returns routes -> Forall (comes_from (route_rules w)) (rules_ routes).
Proof.
  unfold compile_website_routes. apply (throwing_fold_inv (fun seen (t : compiled_website_routes) => Forall (comes_from seen) (rules_ t))); [constructor|].
  intros seen source t t' IH Hc. assert (Forall (comes_from (seen ++ [source])) (rules_ t)) as IH'.
  { eapply Forall_impl; [exact IH|]. intros r (s & Hs & Hr). exists s. split; [|done]. apply elem_of_app. by left. }
  unfold compile_rule in Hc. destruct (r_enabled source); cbn [negb] in Hc; [|by simplify_eq].
  apply throwing_bind_returns in Hc as (action & Ha & Hc). apply throwing_bind_returns in Hc as ([[[kind pattern] t1] t2] & _ & Hc).
  apply throwing_bind_returns in Hc as (mode & _ & Hc). apply throwing_bind_returns in Hc as (query & _ & Hc). apply throwing_bind_returns in Hc as (conditions & _ & Hc).
  destruct (choose_plan _ _ _ _ _) as [i plans]. injection Hc as <-. cbn [rules_]. apply Forall_app. split; [done|]. constructor; [|done].
  exists source. split; [apply elem_of_app; right; by left|]. by cbn.
Qed.

Lemma parse_action_proxy action : parse_action action = Returns proxy -> action = lit "proxy".
Proof. unfold parse_action. destruct (action == lit "proxy") eqn:E; [by apply bool_decide_eq_true in E|]. repeat case_match; done. Qed.

(** The plan of a proxy rule that was validated. *)
Lemma rule_plan_has w source :
  origin_fields w -> Forall origin_ok (origins w) -> route_origin_group source w = true ->
  plan_empty (new_plan (site (routed w)) (effective_group (default_group w) (r_origin_group source)) (r_origin_ids source)) = false.
Proof.
  intros Hf Hok. unfold route_origin_group. cbn [routed site]. rewrite Forall_forall in Hok. destruct (empty (r_origin_ids source)) eqn:Ei; cbn [negb].
  - destruct (empty (r_origin_group source)) eqn:Eg; [done|]. intros (o & Hin & Ho)%existsb_exists. apply list_elem_of_In in Hin.
    apply andb_true_iff in Ho as [[Hg He]%andb_true_iff Hr]. apply bool_decide_eq_true in Hg, Hr. apply empty_spec in Ei as ->.
    apply (plan_has w _ _ o 0%nat Hf Hin); [lia|]. unfold effective_group. rewrite Eg, Eg. unfold or_default at 1. rewrite Eg.
    apply primary_eligible; [by apply Hok|by split_and!].
  - unfold route_origin_ids. intros [_ Hd]%andb_true_iff. apply distinct_loop_nil in Hd as [Hall _].
    destruct (r_origin_ids source) as [|id ids] eqn:Eids; [done|]. apply Forall_cons in Hall as [Hid _]. unfold route_origin_id, enabled_ids in Hid.
    apply andb_true_iff in Hid as [_ Hid%bool_decide_eq_true]. apply list_elem_of_fmap in Hid as (b & -> & [Hb He]%list_elem_of_In%filter_In).
    apply list_elem_of_In, list_elem_of_fmap in Hb as (o & -> & Hin). destruct (Hok o Hin He) as [Hw Hr].
    assert (forall r, role_index (role (origin o)) = r -> eligible (or_default (effective_group (default_group w) (r_origin_group source))) (origin_id (origin o) :: ids) r (origin o) = true) as Hel.
    { intros r Hri. unfold eligible, selected. rewrite He, (proj2 (Z.eqb_neq _ _) Hw), Hri, Nat.eqb_refl. cbn [empty existsb negb andb]. by rewrite bool_decide_eq_true_2. }
    destruct Hr as [Hr|Hr].
    + apply (plan_has w _ _ o 0%nat Hf Hin); [lia|]. apply Hel. by rewrite Hr.
    + apply (plan_has w _ _ o 1%nat Hf Hin); [lia|]. apply Hel. by rewrite Hr.
Qed.

(** An enabled website that the protocol checks accept compiles on every data worker, and no
    request to it is without an origin: the plan of the default group, and the plan of every proxy
    rule, hold at least one enabled origin of positive weight. *)
Theorem validated_website_compiles w :
  validate_website w = Returns tt -> published_enabled w = true -> origin_fields w ->
  exists routes, compile_website_routes (routed w) = Returns routes /\
    (exists plan, origin_plans_ routes !! 0%nat = Some plan /\ plan_empty plan = false) /\
    Forall (fun r => action_ r = proxy -> exists plan, origin_plans_ routes !! origin_plan_index_ r = Some plan /\ plan_empty plan = false) (rules_ routes).
Proof.
  unfold validate_website. intros (_ & _ & (_ & _ & Hw)%throwing_bind_returns)%throwing_bind_returns He Hf. rewrite He in Hw. cbn [negb] in Hw.
  apply throwing_bind_returns in Hw as (_ & _ & ([] & Hrules & ([] & Horigins & _)%throwing_bind_returns)%throwing_bind_returns).
  destruct (validated_routes_compile w Hrules) as [routes Hc]. exists routes. split; [done|]. pose proof (compile_routes_ok _ _ Hc) as Hok.
  unfold validate_website_origins in Horigins. apply throwing_bind_returns in Horigins as ([eg pg] & Hfold & Hg).
  apply ensure_returns, negb_true_iff in Hg. rewrite !orb_false_iff in Hg. destruct Hg as [[_ Hsame] Hdef].
  apply negb_false_iff, bool_decide_eq_true in Hsame, Hdef. subst eg. destruct (validate_origins_ok _ _ _ Hfold) as [Horig Hprimary]. cbn [snd] in Hprimary.
  split.
  - eexists. split; [apply (ok_front _ _ _ Hok)|]. destruct (Hprimary _ Hdef) as [[]%elem_of_empty|Hex]. apply Exists_exists in Hex as (o & Hin & Ho).
    rewrite Forall_forall in Horig. apply (plan_has w (default_group w) [] o 0%nat Hf Hin); [lia|]. apply primary_eligible; [by apply Horig|done].
  - pose proof (ok_plans _ _ _ Hok) as Hplans. rewrite Forall_forall in Hplans |- *. intros r Hr Ha. eexists. split; [by apply Hplans|].
    pose proof (compiled_sources _ _ Hc) as Hsrc. rewrite Forall_forall in Hsrc. destruct (Hsrc r Hr) as (source & Hin & Hpa & -> & ->).
    rewrite Ha in Hpa. apply parse_action_proxy in Hpa. cbn [routed route_rules] in Hin. apply list_elem_of_fmap in Hin as (rule & -> & Hin).
    unfold validate_route_rules in Hrules. destruct (_ <? _); [done|]. apply throwing_bind_returns in Hrules as (ids & Hrules & _).
    apply validate_rules_ok in Hrules. rewrite Forall_forall in Hrules. pose proof (ok_action _ _ (Hrules rule Hin)) as Hact.
    unfold validate_route_action in Hact. rewrite Hpa in Hact. apply ensure_returns, negb_true_iff in Hact. rewrite !orb_false_iff in Hact.
    destruct Hact as [[[Hact _] _] _]. apply negb_false_iff in Hact. by apply rule_plan_has.
Qed.
End RulePlans.

(** * Witness *)

Section Samples.
#[local] Existing Instance text_engine.
#[local] Existing Instance MatchList.dotted_quads.
#[local] Existing Instance sample_libraries.

Definition sample_origin (id group role : string) : published_origin :=
  PublishedOrigin (mk_website_origin (lit id) (lit group) (lit role) 10 true) (lit "origin.example.com") 443 (lit "https").
Definition sample_published : published_website :=
  PublishedWebsite (lit "site") 4 true [Domain (lit "Example.com.") true (lit "digest")]
    [sample_origin "a" "" "primary"; sample_origin "b" "eu" "primary"; sample_origin "c" "eu" "backup"] []
    (lit "$host") (lit "auto") 5 60 true (HealthCheck true (lit "/health") 10 5 200 2 3)
    (LogFields true false false false true false true true false) [lit "5xx"] true (lit "1.2") true true
    (ResponseCompression true 256 0 [lit "br"; lit "gzip"] [lit "text/*"] [lit ".js"] [])
    [PublishedRule (mk_route (lit "r1") true (lit "regex") (lit "/old/") [lit "GET"] (lit "redirect") [] (lit "/new/${1}") 301 [] [] [] [] [] [] [] [] []) (lit "old") [];
     PublishedRule (mk_route (lit "r2") true (lit "prefix") (lit "/api") [] (lit "rewrite") (lit "/v2") [] 0 [] [] [] [] [] (lit "replace_prefix") [] [] []) [] [];
     PublishedRule (mk_route (lit "r3") true (lit "prefix") (lit "/v2") [] (lit "proxy") [] [] 0 [mk_mutation (lit "X-Edge") (lit "1")] [] [] (lit "eu") [lit "example.com"] [] [] []
       [mk_condition (lit "header") (lit "X-Debug") (lit "absent") []]) [] [];
     PublishedRule (mk_route (lit "r4") true (lit "exact") (lit "/one") [] (lit "proxy") [] [] 0 [] [] [lit "c"] [] [] [] [] [] []) [] []]
    (Some sample_policy) None.

Lemma sample_website_valid : validate_website sample_published = Returns tt.
Proof. by vm_compute. Qed.
Lemma sample_website_fields : origin_fields sample_published.
Proof. split; [|done]. cbn. repeat constructor; cbn; lia. Qed.
Lemma validated_website_compiles_witness :
  exists routes, compile_website_routes (routed sample_published) = Returns routes /\ length (origin_plans_ routes) = 3%nat /\
    Forall (fun r => action_ r = proxy -> exists plan, origin_plans_ routes !! origin_plan_index_ r = Some plan /\ plan_empty plan = false) (rules_ routes).
Proof.
  destruct (validated_website_compiles sample_published sample_website_valid eq_refl sample_website_fields) as (routes & Hc & _ & Hall).
  exists routes. split; [exact Hc|]. split; [|exact Hall]. clear Hall. vm_compute in Hc. injection Hc as <-. reflexivity.
Defined.
End Samples.
