(* ===== verification/CompiledConfig.v ===== *)
(** The configuration a node runs: src/node/runtime/compiled_config.h, with artifact.h and
    schema_version.h of src/node/proto, and country_database.h, security_config.h and the worker
    view of runtime_state.h of src/node/runtime.

    A state is two content-addressed artifacts, the node's specification and the manifest of the
    release, and the objects of the manifest. Compiling it verifies every digest against the bytes,
    parses them, checks them and indexes the host names. Pointers to websites and domains are their
    positions. *)
From S2P Require Import Prelude RoutePolicy RouteMatch OriginSelection CachePolicy MatchList ExpressionProgram SecurityPolicy RouteProgram WebsiteValidation.
Open Scope Z_scope.

(** * Artifacts *)

(** [NodeSpec], [ClusterReleaseManifest] and [DeliveryObject]: content bytes and their digest. *)
Record artifact := Artifact { digest_sha256 : bytes; content : bytes }.
Record endpoint := Endpoint { endpoint_id : bytes; ip_address : bytes; line_code : bytes; line_name : bytes; http_port : Z; https_port : Z }.
Record node_spec_content := NodeSpecContent {
  node_id : bytes; spec_schema_version : Z; spec_revision : Z; node_name : bytes; node_enabled : bool; endpoints : list endpoint }.
Record country_range := CountryRange { range_first : bytes; range_last : bytes; country : bytes }.
Record country_database := CountryDatabase { ipv4 : list country_range; ipv6 : list country_range }.
Inductive reference_kind := kind_unspecified | kind_website | kind_certificate.
#[export] Instance reference_kind_eq_dec : EqDecision reference_kind.
Proof. solve_decision. Defined.
Record object_reference := ObjectReference { reference_kind_ : reference_kind; reference_digest : bytes }.
Record cluster_release := ClusterRelease {
  cluster_id : bytes; release_id : bytes; generation : Z; access_domain : bytes; release_enabled : bool; objects : list object_reference;
  release_schema_version : Z; countries : country_database }.
Record certificate := Certificate { certificate_id : bytes; certificate_chain_pem : bytes; private_key_pem : bytes }.
(** The payload of a delivered object. *)
Inductive object_content := website_object (w : published_website) | certificate_object (c : certificate) | no_payload.
(** A part that is not set has an empty digest and no bytes. *)
Record active_state := ActiveState { state_node_spec : option artifact; state_release : option artifact }.

(** SHA-256 in hexadecimal, and protobuf's parser. *)
Class Artifacts := {
  artifact_digest : bytes -> bytes;
  parse_node_spec : bytes -> option node_spec_content;
  parse_release : bytes -> option cluster_release;
  parse_object : bytes -> option object_content
}.
(** The managed rules engine, and protobuf's serialization of a policy. *)
Class ManagedDetectors := {
  managed_detector : Type;
  new_managed_detector : managed_security -> throwing managed_detector;
  serialize_policy : security_policy -> bytes
}.

Definition node_spec_schema_version : Z := 2.
Definition cluster_release_schema_version : Z := 7.
Definition supported_cluster_release_schema (version : Z) : bool := (2 <=? version) && (version <=? cluster_release_schema_version).
Definition is_sha256_digest (value : bytes) : bool :=
  (size value =? 64) && forallb (fun c => is_digit c || ((code "a" <=? code c) && (code c <=? code "f"))) value.

Section Artifact.
Context `{Artifacts}.

Definition artifact_matches (digest bytes : bytes) : bool := artifact_digest bytes == digest.
Definition parse_artifact {A} (parse : bytes -> option A) (bytes : bytes) : option A := if 2147483647 <? size bytes then None else parse bytes.
Definition open_artifact {A} (parse : bytes -> option A) (a : artifact) : option A :=
  if artifact_matches (digest_sha256 a) (content a) then parse_artifact parse (content a) else None.
Definition part (a : option artifact) : artifact := match a with Some a => a | None => Artifact [] [] end.
Definition open_state (s : active_state) : option (node_spec_content * cluster_release) :=
  spec ← open_artifact parse_node_spec (part (state_node_spec s)); release ← open_artifact parse_release (part (state_release s)); Some (spec, release).
End Artifact.

(** * Countries *)

Section Countries.
Context `{MatchList.Asio}.

(** [a < b] and [a <= b] of strings. *)
Definition bytes_less (a b : bytes) : bool := match bytes_compare a b with Lt => true | _ => false end.
Definition bytes_at_most (a b : bytes) : bool := negb (bytes_less b a).
Definition validate_range (width : Z) (previous : bytes) (range : country_range) : throwing bytes :=
  if negb (size (range_first range) =? width) || negb (size (range_last range) =? width) || bytes_less (range_last range) (range_first range) ||
     (negb (empty previous) && bytes_at_most (range_first range) previous) || empty (country range) || (128 <? size (country range))
  then Throws (lit "invalid country database range")
  else Returns (range_last range).
Definition validate_ranges (ranges : list country_range) (width : Z) : throwing unit :=
  throwing_bind (throwing_fold (validate_range width) [] ranges) (fun _ => Returns tt).
Definition validate_country_database (d : country_database) : throwing unit :=
  throwing_bind (validate_ranges (ipv4 d) 4) (fun _ => validate_ranges (ipv6 d) 16).

(** [std::upper_bound]: the binary search over a range of [count] elements from [first]. *)
Fixpoint upper_bound (fuel : nat) (ranges : list country_range) (key : bytes) (first count : nat) : nat :=
  match fuel with
  | O => first
  | S fuel =>
      match count with
      | O => first
      | _ =>
          let half := Nat.div2 count in
          match ranges !! (first + half)%nat with
          | Some range =>
              if bytes_less key (range_first range) then upper_bound fuel ranges key first half
              else upper_bound fuel ranges key (first + half + 1) (count - half - 1)
          | None => first
          end
      end
  end.
Definition unknown_country : bytes := lit "XX".
Definition find_country (ranges : list country_range) (key : bytes) : bytes :=
  match upper_bound (S (length ranges)) ranges key 0 (length ranges) with
  | O => unknown_country
  | S found => match ranges !! found with Some range => if bytes_at_most key (range_last range) then country range else unknown_country | None => unknown_country end
  end.
Definition byte_text (bs : list Z) : bytes := map chr bs.
Definition country_for_address (d : country_database) (text : bytes) : bytes :=
  match MatchList.make_address text with
  | None => unknown_country
  | Some a => find_country (if MatchList.is_v4 a then ipv4 d else ipv6 d) (byte_text (MatchList.address_bytes a))
  end.
End Countries.

(** * The configuration *)

Section Config.
Context `{Artifacts} `{ManagedDetectors} `{Re2} `{MatchList.Asio} `{SecurityLibraries}.

(** The policies by identity, with their serialization, and the policy of each website. *)
Record security_entry := SecurityEntry { source_ : bytes; managed_ : option managed_detector }.
Record security_config := SecurityConfig { security_policies_ : gmap bytes security_entry; security_websites_ : gmap bytes bytes }.
Definition add_security (config : security_config) (w : published_website) : throwing security_config :=
  match security_ w with
  | None => Returns config
  | Some policy =>
      throwing_bind (validate_security policy) (fun _ =>
      let identity := policy_identity policy in
      let websites := match security_websites_ config !! published_id w with Some _ => security_websites_ config | None => <[published_id w := identity]> (security_websites_ config) end in
      match security_policies_ config !! identity with
      | Some found =>
          if source_ found != serialize_policy policy then Throws (lit "conflicting security policy revision")
          else Returns (SecurityConfig (security_policies_ config) websites)
      | None =>
          throwing_bind
            (match managed policy with
             | Some m => if managed_enabled m then throwing_bind (new_managed_detector m) (fun d => Returns (Some d)) else Returns None
             | None => Returns None
             end) (fun detector =>
          Returns (SecurityConfig (<[identity := SecurityEntry (serialize_policy policy) detector]> (security_policies_ config)) websites))
      end)
  end.
Definition new_security_config (websites : list published_website) : throwing security_config := throwing_fold add_security (SecurityConfig ∅ ∅) websites.
Definition managed_of (config : security_config) (website : bytes) : option managed_detector :=
  identity ← security_websites_ config !! website; entry ← security_policies_ config !! identity; managed_ entry.

(** A route: the positions of a website and of its domain. *)
Record compiled_route := CompiledRoute { route_website : nat; route_domain : nat }.
Record compiled_config := CompiledConfig {
  node_spec_digest_ : bytes;
  node_spec_ : node_spec_content;
  release_digest_ : bytes;
  release_ : cluster_release;
  config_websites_ : list published_website;
  certificates_ : gmap bytes certificate;
  routes_ : gmap bytes compiled_route;
  config_security_ : security_config
}.

Definition open_config_state (s : active_state) : throwing (node_spec_content * cluster_release) :=
  if negb (present (state_node_spec s)) || negb (present (state_release s)) then Throws (lit "node active state is incomplete")
  else
    match open_state s with
    | None => Throws (lit "invalid node active state")
    | Some (spec, release) =>
        if empty (node_id spec) || negb (spec_schema_version spec =? node_spec_schema_version) || (spec_revision spec <=? 0) then Throws (lit "invalid node spec")
        else if empty (cluster_id release) || empty (release_id release) || (generation release <=? 0) ||
                negb (supported_cluster_release_schema (release_schema_version release)) || empty (access_domain release)
        then Throws (lit "invalid cluster release manifest")
        else throwing_bind (validate_country_database (countries release)) (fun _ => Returns (spec, release))
    end.

Definition expect_object (expected : gmap bytes reference_kind) (r : object_reference) : throwing (gmap bytes reference_kind) :=
  if negb (is_sha256_digest (reference_digest r)) || bool_decide (reference_kind_ r = kind_unspecified) || present (expected !! reference_digest r)
  then Throws (lit "invalid object reference in release manifest")
  else Returns (<[reference_digest r := reference_kind_ r]> expected).
(** What is indexed so far: the digests received, the websites and the certificates. *)
Record indexed := Indexed { received : gset bytes; indexed_websites : list published_website; indexed_certificates : gmap bytes certificate }.
Definition index_object (expected : gmap bytes reference_kind) (i : indexed) (object : artifact) : throwing indexed :=
  let digest := digest_sha256 object in
  match expected !! digest with
  | None => Throws (lit "invalid content-addressed release object")
  | Some kind =>
      match open_artifact parse_object object with
      | None => Throws (lit "invalid content-addressed release object")
      | Some payload =>
          if bool_decide (digest ∈ received i) then Throws (lit "invalid content-addressed release object")
          else
            let received := {[digest]} ∪ received i in
            match payload, kind with
            | website_object w, kind_website => Returns (Indexed received (indexed_websites i ++ [w]) (indexed_certificates i))
            | certificate_object c, kind_certificate => Returns (Indexed received (indexed_websites i) (<[digest := c]> (indexed_certificates i)))
            | _, _ => Throws (lit "release object kind does not match manifest")
            end
      end
  end.
Definition index_objects (release : cluster_release) (delivered : list artifact) : throwing indexed :=
  throwing_bind (throwing_fold expect_object ∅ (objects release)) (fun expected =>
  if negb (Z.of_nat (base.size expected) =? size delivered) then Throws (lit "release object set is incomplete")
  else throwing_fold (index_object expected) (Indexed ∅ [] ∅) delivered).

Definition endpoint_binding (e : endpoint) (port : Z) : bytes := ip_address e ++ lit ":" ++ dec port.
Definition insert_binding (bindings : gset bytes) (binding : bytes) : throwing (gset bytes) :=
  if bool_decide (binding ∈ bindings) then Throws (lit "duplicate node endpoint binding") else Returns ({[binding]} ∪ bindings).
Definition validate_endpoint (bindings : gset bytes) (e : endpoint) : throwing (gset bytes) :=
  if empty (endpoint_id e) || empty (ip_address e) || (http_port e =? 0) || (65535 <? http_port e) || (https_port e =? 0) || (65535 <? https_port e) ||
     (http_port e =? https_port e)
  then Throws (lit "invalid node endpoint")
  else throwing_bind (insert_binding bindings (endpoint_binding e (http_port e))) (fun bindings => insert_binding bindings (endpoint_binding e (https_port e))).
Definition validate_endpoints (spec : node_spec_content) : throwing unit :=
  throwing_bind (throwing_fold validate_endpoint ∅ (endpoints spec)) (fun _ => Returns tt).

Definition index_domain (certificates : gmap bytes certificate) (website : nat) (routes : gmap bytes compiled_route) (d : nat * domain) : throwing (gmap bytes compiled_route) :=
  if domain_https (snd d) && negb (present (certificates !! certificate_digest (snd d))) then Throws (lit "HTTPS domain requires certificate material")
  else
    let name := hostname (domain_hostname (snd d)) in
    match routes !! name with
    | Some _ => Throws (lit "duplicate hostname in node config")
    | None => Returns (<[name := CompiledRoute website (fst d)]> routes)
    end.
Definition numbered {A} (l : list A) : list (nat * A) := imap pair l.
Definition index_website_domains (certificates : gmap bytes certificate) (routes : gmap bytes compiled_route) (w : nat * published_website) : throwing (gmap bytes compiled_route) :=
  throwing_fold (index_domain certificates (fst w)) routes (numbered (domains (snd w))).
Definition validate_config_website (certificates : gmap bytes certificate) (routes : gmap bytes compiled_route) (w : nat * published_website) : throwing (gmap bytes compiled_route) :=
  if negb (published_enabled (snd w)) then Returns routes
  else throwing_bind (validate_website (snd w)) (fun _ => index_website_domains certificates routes w).

(** The constructor of [compiled_config]. *)
Definition compile_config (s : active_state) (delivered : list artifact) : throwing compiled_config :=
  throwing_bind (open_config_state s) (fun '(spec, release) =>
  throwing_bind (index_objects release delivered) (fun i =>
  throwing_bind (validate_endpoints spec) (fun _ =>
  throwing_bind (throwing_fold (validate_config_website (indexed_certificates i)) ∅ (numbered (indexed_websites i))) (fun routes =>
  throwing_bind (new_security_config (indexed_websites i)) (fun security =>
  Returns (CompiledConfig (digest_sha256 (part (state_node_spec s))) spec (digest_sha256 (part (state_release s))) release (indexed_websites i) (indexed_certificates i)
    routes security)))))).

Definition config_enabled (c : compiled_config) : bool := node_enabled (node_spec_ c) && release_enabled (release_ c).
Definition config_endpoints (c : compiled_config) : list endpoint := endpoints (node_spec_ c).
Definition config_certificate (c : compiled_config) (digest : bytes) : option certificate := certificates_ c !! digest.
Definition config_route (c : compiled_config) (host : bytes) : option compiled_route := snd <$> find_hostname (routes_ c) (hostname host).
Definition config_website (c : compiled_config) (host : bytes) : option published_website := r ← config_route c host; config_websites_ c !! route_website r.
Definition config_domain (c : compiled_config) (host : bytes) : option domain :=
  r ← config_route c host; w ← config_websites_ c !! route_website r; domains w !! route_domain r.

(** ** What a worker executes: runtime_state.h *)

Context `{!Re2Rules} `{SortRanges}.

Record worker_execution_view := ExecutionView { view_config : compiled_config; view_routes : route_program; view_security : security_program }.
Definition program_sources_of (c : compiled_config) : list (nat * bool * routed_website) := imap (fun i w => (i, published_enabled w, routed w)) (config_websites_ c).
Definition new_execution_view (c : compiled_config) : throwing worker_execution_view :=
  throwing_bind (new_route_program (program_sources_of c)) (fun routes =>
  throwing_bind (new_security_program (map (fun w => (published_id w, security_ w)) (config_websites_ c))) (fun security =>
  Returns (ExecutionView c routes security))).

(** [runtime_state::validate_next] against the configuration that is published. *)
Definition validate_next (current : option compiled_config) (next : compiled_config) : throwing unit :=
  match current with
  | None => Returns tt
  | Some current =>
      let revision := spec_revision (node_spec_ next) in let active := spec_revision (node_spec_ current) in
      if (revision <? active) || ((revision =? active) && (node_spec_digest_ next != node_spec_digest_ current)) then Throws (lit "stale or conflicting node spec")
      else
        let gen := generation (release_ next) in let active := generation (release_ current) in
        if (gen <? active) ||
           ((gen =? active) && ((release_id (release_ next) != release_id (release_ current)) || (release_digest_ next != release_digest_ current)))
        then Throws (lit "stale or conflicting cluster release")
        else Returns tt
  end.
End Config.

(** * Countries: the binary search finds the range of an address *)

Definition before (a b : bytes) : Prop := bytes_compare a b = Lt.
Lemma bytes_less_spec a b : bytes_less a b = true <-> before a b.
Proof. unfold bytes_less, before. destruct (bytes_compare a b); split; congruence. Qed.
Lemma before_irrefl a : ~ before a a.
Proof. unfold before. by rewrite bytes_compare_refl. Qed.
Lemma before_trans a b c : before a b -> before b c -> before a c.
Proof. unfold before. apply bytes_compare_trans. Qed.
Lemma at_most_spec a b : bytes_at_most a b = true <-> a = b \/ before a b.
Proof.
  unfold bytes_at_most, bytes_less, before. rewrite negb_true_iff. rewrite (bytes_compare_opp a b). split.
  - destruct (bytes_compare a b) eqn:E; cbn; try done; auto using bytes_compare_eq.
  - intros [->| ->]; [by rewrite bytes_compare_refl|done].
Qed.
Lemma less_at_most_trans a b c : before a b -> bytes_at_most b c = true -> before a c.
Proof. rewrite at_most_spec. intros Hab [->|Hbc]; [done|by eapply before_trans]. Qed.
Lemma at_most_less_trans a b c : bytes_at_most a b = true -> before b c -> before a c.
Proof. rewrite at_most_spec. intros [->|Hab] Hbc; [done|by eapply before_trans]. Qed.
Lemma not_less a b : bytes_less a b = false <-> bytes_at_most b a = true.
Proof. unfold bytes_at_most. by rewrite negb_true_iff. Qed.

(** Ranges in order: each one is not empty and ends before the next one begins. *)
Record ordered (ranges : list country_range) : Prop := {
  range_order i r : ranges !! i = Some r -> bytes_at_most (range_first r) (range_last r) = true;
  range_next i j r t : (i < j)%nat -> ranges !! i = Some r -> ranges !! j = Some t -> before (range_last r) (range_first t)
}.
Lemma validated_ranges_ordered ranges width : 0 < width -> validate_ranges ranges width = Returns tt -> ordered ranges.
Proof.
  intros Hw. unfold validate_ranges. intros (last & Hfold & _)%throwing_bind_returns.
  assert (ordered ranges /\ (forall i r, ranges !! i = Some r -> last <> [] /\ (range_last r = last \/ before (range_last r) last))) as [Ho _]; [|done].
  revert Hfold. apply (throwing_fold_inv (fun (seen : list country_range) (last : bytes) =>
    ordered seen /\ (forall i r, seen !! i = Some r -> last <> [] /\ (range_last r = last \/ before (range_last r) last)))); [by split; [split|]|].
  intros seen r previous next [[Ho1 Ho2] Hlast]. unfold validate_range. destruct (_ || _)%bool eqn:E; [done|]. intros [= <-].
  rewrite !orb_false_iff in E. destruct E as [[[[[_ Hsize] Hfirst] Hprev] _] _]. apply negb_false_iff, Z.eqb_eq in Hsize. apply not_less in Hfirst.
  assert (range_last r <> []) as Hne by (intros E'; rewrite E' in Hsize; change (size []) with 0 in Hsize; lia).
  assert (forall i t, seen !! i = Some t -> before (range_last t) (range_first r)) as Hbefore.
  { intros i t Ht. destruct (Hlast i t Ht) as [Hp Hl]. assert (before previous (range_first r)) as Hpr.
    { apply andb_false_iff in Hprev as [Hprev|Hprev]; [by destruct previous|]. unfold bytes_at_most in Hprev. by apply negb_false_iff, bytes_less_spec in Hprev. }
    destruct Hl as [->|Hl]; [done|by eapply before_trans]. }
  split; [split|].
  - intros i t [[_ Ht]|[_ <-]]%lookup_snoc_Some; [by eapply Ho1|done].
  - intros i j t u Hij Ht Hu. apply lookup_snoc_Some in Ht as [[Hi Ht]|[-> <-]], Hu as [[Hj Hu]|[-> <-]]; [by eapply (Ho2 i j)|by eapply Hbefore|lia|lia].
  - intros i t [[_ Ht]|[_ <-]]%lookup_snoc_Some; (split; [done|]); [|by left]. right. eapply less_at_most_trans; [by eapply Hbefore|done].
Qed.

Lemma match_nonzero {A} (n : nat) (a b : A) : n <> 0%nat -> match n with O => a | _ => b end = b.
Proof. by destruct n. Qed.
Lemma upper_bound_spec ranges key : ordered ranges ->
  forall fuel first count, (count < fuel)%nat -> (first + count <= length ranges)%nat ->
  (forall i r, (i < first)%nat -> ranges !! i = Some r -> bytes_less key (range_first r) = false) ->
  (forall i r, (first + count <= i)%nat -> ranges !! i = Some r -> bytes_less key (range_first r) = true) ->
  let k := upper_bound fuel ranges key first count in
  (k <= first + count)%nat /\ (forall i r, (i < k)%nat -> ranges !! i = Some r -> bytes_less key (range_first r) = false) /\
  (forall i r, (k <= i)%nat -> ranges !! i = Some r -> bytes_less key (range_first r) = true).
Proof.
  intros [Ho1 Ho2]. assert (forall i j r t, (i < j)%nat -> ranges !! i = Some r -> ranges !! j = Some t -> before (range_first r) (range_first t)) as Hmono.
  { intros i j r t Hij Hr Ht. eapply at_most_less_trans; [by eapply Ho1|by eapply Ho2]. }
  induction fuel as [|fuel IH]; intros first count Hfuel Hlen Hlow Hhigh; [lia|]. destruct (decide (count = 0%nat)) as [->|Hcount].
  { cbn [upper_bound]. rewrite Nat.add_0_r in *. by split. }
  assert (Nat.div2 count < count)%nat as Hhalf by (apply Nat.lt_div2; lia). cbn [upper_bound]. rewrite (match_nonzero count) by done.
  revert Hhalf. generalize (Nat.div2 count). intros half Hhalf.
  destruct (ranges !! (first + half)%nat) as [m|] eqn:Em; [|apply lookup_ge_None in Em; lia].
  destruct (bytes_less key (range_first m)) eqn:El.
  - destruct (IH first (half)) as [Hk Hrest]; [lia|lia|done| |split; [lia|exact Hrest]]. intros i r Hi Hr. destruct (decide (i = first + half)%nat) as [->|Hne]; [by simplify_eq|].
    apply bytes_less_spec in El. apply bytes_less_spec. eapply before_trans; [exact El|]. eapply (Hmono (first + half)%nat i); [lia|done..].
  - destruct (IH (first + half + 1)%nat (count - half - 1)%nat) as [Hk Hrest]; [lia|lia| | |split; [lia|exact Hrest]].
    + intros i r Hi Hr. destruct (decide (i = first + half)%nat) as [->|Hne]; [by simplify_eq|]. apply not_less in El. apply not_less. apply at_most_spec. right.
      eapply less_at_most_trans; [eapply (Hmono i (first + half)%nat); [lia|done..]|done].
    + intros i r Hi Hr. apply (Hhigh i r); [lia|done].
Qed.

Definition in_country (key : bytes) (r : country_range) : Prop := bytes_at_most (range_first r) key = true /\ bytes_at_most key (range_last r) = true.
Lemma find_country_spec ranges key : ordered ranges ->
  (forall r, r ∈ ranges -> in_country key r -> find_country ranges key = country r) /\
  ((forall r, r ∈ ranges -> ~ in_country key r) -> find_country ranges key = unknown_country).
Proof.
  intros Ho. destruct (upper_bound_spec ranges key Ho (S (length ranges)) 0 (length ranges)) as (Hk & Hlow & Hhigh); [lia|lia|intros; lia| |].
  { intros i r Hi Hr. apply lookup_lt_Some in Hr. lia. }
  destruct Ho as [Ho1 Ho2]. unfold find_country. revert Hk Hlow Hhigh. generalize (upper_bound (S (length ranges)) ranges key 0 (length ranges)). intros k Hk Hlow Hhigh.
  assert (forall i r, ranges !! i = Some r -> in_country key r -> k = S i) as Hfound.
  { intros i r Hr [Hf Hl]. apply not_less in Hf. assert (i < k)%nat as Hik. { destruct (decide (k <= i)%nat) as [Hk'|]; [|lia]. by rewrite (Hhigh i r Hk' Hr) in Hf. }
    destruct (decide (k = S i)) as [|Hne]; [done|]. destruct (lookup_lt_is_Some_2 ranges (S i)) as [t Et]; [lia|].
    pose proof (Ho2 i (S i) r t ltac:(lia) Hr Et) as Hn. pose proof (Hlow (S i) t ltac:(lia) Et) as Hm. apply not_less in Hm.
    assert (before (range_last r) key) as Hc by (by eapply less_at_most_trans). apply at_most_spec in Hl as [->|Hl]; [by apply before_irrefl in Hc|].
    by destruct (before_irrefl key (before_trans _ _ _ Hl Hc)). }
  split.
  - intros r [i Hr]%list_elem_of_lookup Hin. rewrite (Hfound i r Hr Hin), Hr. destruct Hin as [_ Hl]. by rewrite Hl.
  - intros Hnone. destruct k as [|k]; [done|]. destruct (ranges !! k) as [r|] eqn:Er; [|done]. destruct (bytes_at_most key (range_last r)) eqn:El; [|done].
    destruct (Hnone r); [by eapply list_elem_of_lookup_2|]. split; [|done]. apply not_less. by eapply Hlow; [|exact Er]; lia.
Qed.

(** On a database that validation accepted, the binary search is the search for the range that
    holds the address: the country is that of the range, and unknown when no range holds it. *)
Theorem country_lookup_exact `{MatchList.Asio} (d : country_database) text address :
  validate_country_database d = Returns tt -> MatchList.make_address text = Some address ->
  let ranges := if MatchList.is_v4 address then ipv4 d else ipv6 d in
  let key := byte_text (MatchList.address_bytes address) in
  (forall r, r ∈ ranges -> in_country key r -> country_for_address d text = country r) /\
  ((forall r, r ∈ ranges -> ~ in_country key r) -> country_for_address d text = unknown_country).
Proof.
  intros Hv Ha ranges key. unfold validate_country_database in Hv. apply throwing_bind_returns in Hv as ([] & H4 & H6). unfold country_for_address. rewrite Ha. fold ranges. fold key.
  apply find_country_spec. unfold ranges. destruct (MatchList.is_v4 address); eapply validated_ranges_ordered; [|exact H4| |exact H6]; lia.
Qed.

(** * The index of the host names *)

Section Compiled.
Context `{Artifacts} `{ManagedDetectors} `{Re2} `{MatchList.Asio} `{SecurityLibraries}.

(** A domain of an enabled website, at its position. *)
Definition binds (ws : list (nat * published_website)) (name : bytes) (r : compiled_route) : Prop :=
  exists w d, (route_website r, w) ∈ ws /\ published_enabled w = true /\ domains w !! route_domain r = Some d /\ hostname (domain_hostname d) = name.
Definition index_of (ws : list (nat * published_website)) (routes : gmap bytes compiled_route) : Prop := forall name r, routes !! name = Some r <-> binds ws name r.

Lemma numbered_in {A} (l : list A) i x : (i, x) ∈ numbered l <-> l !! i = Some x.
Proof.
  unfold numbered. rewrite elem_of_lookup_imap. split.
  - intros (j & y & [= -> ->] & Hl). done.
  - intros Hl. exists i, x. done.
Qed.

Lemma domains_indexed certificates website routes (l : list domain) routes' :
  throwing_fold (index_domain certificates website) routes (numbered l) = Returns routes' ->
  forall name r, routes' !! name = Some r <-> routes !! name = Some r \/ (route_website r = website /\ exists d, l !! route_domain r = Some d /\ hostname (domain_hostname d) = name).
Proof.
  intros Hf. assert (forall name r, routes' !! name = Some r <-> routes !! name = Some r \/ (route_website r = website /\ exists d, (route_domain r, d) ∈ numbered l /\ hostname (domain_hostname d) = name)) as Hgo.
  { revert Hf. apply (throwing_fold_inv (fun (seen : list (nat * domain)) (t : gmap bytes compiled_route) => forall name r, t !! name = Some r <-> routes !! name = Some r \/ (route_website r = website /\ exists d, (route_domain r, d) ∈ seen /\ hostname (domain_hostname d) = name))).
    { intros name r. split; [auto|]. intros [Hr|(_ & d & []%not_elem_of_nil & _)]. done. }
    intros seen [i d] t t' IH. unfold index_domain. cbn [fst snd]. destruct (_ && _); [done|]. destruct (t !! hostname (domain_hostname d)) eqn:E; [done|]. intros [= <-] name r.
    rewrite lookup_insert_Some, IH. split.
    - intros [[<- <-]|[Hne [Hr|(Hw & d' & Hd & Hn)]]]; [right|by left|right].
      + split; [done|]. exists d. split; [apply elem_of_app; right; by left|done].
      + split; [done|]. exists d'. split; [apply elem_of_app; by left|done].
    - intros [Hr|(Hw & d' & [Hd|[= Hi ->]%list_elem_of_singleton]%elem_of_app & Hn)].
      + right. split; [|by left]. intros <-. pose proof (proj2 (IH _ r) (or_introl Hr)) as Hx. congruence.
      + right. split; [|right; eauto]. intros <-. pose proof (proj2 (IH _ r) (or_intror (conj Hw (ex_intro _ d' (conj Hd Hn))))) as Hx. congruence.
      + left. split; [done|]. destruct r as [rw rd]. cbn in *. by subst. }
  intros name r. rewrite Hgo. setoid_rewrite numbered_in. done.
Qed.

Lemma websites_indexed certificates ws routes :
  throwing_fold (validate_config_website certificates) ∅ (numbered ws) = Returns routes ->
  index_of (numbered ws) routes /\ Forall (fun w => published_enabled w = true -> validate_website w = Returns tt) ws.
Proof.
  intros Hf. assert (index_of (numbered ws) routes /\ Forall (fun iw => published_enabled (snd iw) = true -> validate_website (snd iw) = Returns tt) (numbered ws)) as [Hi Hv].
  { revert Hf. apply (throwing_fold_inv (fun seen t => index_of seen t /\ Forall (fun iw => published_enabled (snd iw) = true -> validate_website (snd iw) = Returns tt) seen)).
    { split; [|constructor]. intros name r. rewrite lookup_empty. split; [done|]. by intros (w & d & []%not_elem_of_nil & _). }
    intros seen [i w] t t' [IH Hv]. unfold index_of in IH |- *. unfold validate_config_website. cbn [fst snd]. destruct (published_enabled w) eqn:Ee; cbn [negb].
    - intros ([] & Hw & Hd)%throwing_bind_returns. split; [|apply Forall_app; split; [done|]; by constructor]. intros name r. rewrite (domains_indexed _ _ _ _ _ Hd), IH. cbn [fst snd].
      unfold binds. setoid_rewrite elem_of_app. setoid_rewrite list_elem_of_singleton. split.
      + intros [(w' & d & Hin & Hrest)|(Hi & d & Hd' & Hn)]; [exists w', d; auto|]. exists w, d. split_and!; [right; by rewrite Hi|done..].
      + intros (w' & d & [Hin|[= Hi ->]] & He & Hd' & Hn); [left; by exists w', d|right]. split; [done|by exists d].
    - intros [= <-]. split; [|apply Forall_app; split; [done|]; constructor; [|done]; cbn; congruence]. intros name r. rewrite IH.
      unfold binds. setoid_rewrite elem_of_app. setoid_rewrite list_elem_of_singleton. split.
      + intros (w' & d & Hin & Hrest). exists w', d. auto.
      + intros (w' & d & [Hin|[= Hi ->]] & He & Hrest); [by exists w', d|congruence]. }
  split; [done|]. apply Forall_forall. intros w [i Hw]%list_elem_of_lookup. rewrite Forall_forall in Hv. apply (Hv (i, w)). by apply numbered_in.
Qed.

(** What compiling leaves of its parts. *)
Lemma compile_config_parts s delivered c :
  compile_config s delivered = Returns c ->
  exists i, index_objects (release_ c) delivered = Returns i /\ config_websites_ c = indexed_websites i /\ certificates_ c = indexed_certificates i /\
    throwing_fold (validate_config_website (certificates_ c)) ∅ (numbered (config_websites_ c)) = Returns (routes_ c) /\
    new_security_config (config_websites_ c) = Returns (config_security_ c) /\ open_config_state s = Returns (node_spec_ c, release_ c) /\
    node_spec_digest_ c = digest_sha256 (part (state_node_spec s)) /\ release_digest_ c = digest_sha256 (part (state_release s)).
Proof.
  unfold compile_config. intros ([spec release] & Ho & (i & Hi & (_ & _ & (routes & Hr & (security & Hs & [= <-])%throwing_bind_returns)%throwing_bind_returns)%throwing_bind_returns)%throwing_bind_returns)%throwing_bind_returns.
  exists i. cbn. by split_and!.
Qed.

Lemma domains_certified certificates website (l : list (nat * domain)) : forall routes routes',
  throwing_fold (index_domain certificates website) routes l = Returns routes' ->
  Forall (fun d => domain_https (snd d) = true -> is_Some (certificates !! certificate_digest (snd d))) l.
Proof.
  induction l as [|[i d] l IH]; intros routes routes'; cbn [throwing_fold]; [constructor|]. intros (t & Hd & Hrest)%throwing_bind_returns. constructor; [|by eapply IH].
  unfold index_domain in Hd. cbn [fst snd] in *. intros He. rewrite He in Hd. destruct (certificates !! certificate_digest d); [by eexists|done].
Qed.
Lemma websites_certified certificates (l : list (nat * published_website)) : forall routes routes',
  throwing_fold (validate_config_website certificates) routes l = Returns routes' ->
  Forall (fun w => published_enabled (snd w) = true -> Forall (fun d => domain_https d = true -> is_Some (certificates !! certificate_digest d)) (domains (snd w))) l.
Proof.
  induction l as [|[i w] l IH]; intros routes routes'; cbn [throwing_fold]; [constructor|]. intros (t & Hw & Hrest)%throwing_bind_returns. constructor; [|by eapply IH].
  unfold validate_config_website in Hw. cbn [fst snd] in *. intros He. rewrite He in Hw. cbn [negb] in Hw. apply throwing_bind_returns in Hw as ([] & _ & Hw).
  apply domains_certified in Hw. rewrite Forall_forall in Hw. apply Forall_forall. intros d [j Hd]%list_elem_of_lookup. apply (Hw (j, d)). by apply numbered_in.
Qed.

(** A name of the configuration: a domain of an enabled website normalizes to it. *)
Definition bound (c : compiled_config) (name : bytes) (r : compiled_route) : Prop :=
  exists w d, config_websites_ c !! route_website r = Some w /\ published_enabled w = true /\ domains w !! route_domain r = Some d /\ hostname (domain_hostname d) = name.
(** [*.rest] for a host [label.rest]. *)
Definition wildcard_of (host key : bytes) : Prop := exists label rest, host = label ++ lit "." ++ rest /\ "."%char ∉ label /\ key = lit "*." ++ rest.
Lemma config_index s delivered c : compile_config s delivered = Returns c -> forall name r, routes_ c !! name = Some r <-> bound c name r.
Proof.
  intros (i & _ & _ & _ & Hf & _)%compile_config_parts name r. apply websites_indexed in Hf as [Hi _]. unfold index_of, binds in Hi. rewrite Hi. unfold bound. by setoid_rewrite numbered_in.
Qed.

(** C20. A host resolves to the enabled website that names it: a name of the configuration belongs to
    one domain of one enabled website; a request's host finds the domain of exactly its name, or
    else that of the wildcard for its first label, and no other; and the website it finds passed the
    protocol checks, its domain is one of the website's, and an HTTPS domain has its certificate. *)
Theorem hosts_resolve s delivered c host :
  compile_config s delivered = Returns c ->
  (forall name r r', bound c name r -> bound c name r' -> r = r') /\
  (forall r, config_route c host = Some r <->
     exact_hostname (hostname host) = true /\
     (bound c (hostname host) r \/ (forall r', ~ bound c (hostname host) r') /\ exists key, wildcard_of (hostname host) key /\ bound c key r)) /\
  (forall r, config_route c host = Some r ->
     exists w d, config_website c host = Some w /\ config_domain c host = Some d /\ published_enabled w = true /\ validate_website w = Returns tt /\
       d ∈ domains w /\ (domain_https d = true -> is_Some (config_certificate c (certificate_digest d)))).
Proof.
  intros Hc. pose proof (config_index _ _ _ Hc) as Hindex. assert (forall r, config_route c host = Some r <->
     exact_hostname (hostname host) = true /\ (bound c (hostname host) r \/ (forall r', ~ bound c (hostname host) r') /\ exists key, wildcard_of (hostname host) key /\ bound c key r)) as Hroute.
  { intros r. unfold config_route. rewrite fmap_Some. setoid_rewrite <- Hindex. split.
    - intros ([key v] & Hf & ->). apply find_hostname_spec in Hf as (He & Hk & [->|(Hn & Hw)]); (split; [done|]); [by left|]. right. cbn [snd]. split; [intros r'; rewrite Hn; done|by exists key].
    - intros [He [Hb|(Hn & key & Hw & Hb)]]; [exists (hostname host, r)|exists (key, r)]; (split; [|done]); apply find_hostname_spec; split_and!; try done; [by left|]. right. split; [|done].
      destruct (routes_ c !! hostname host) as [r'|] eqn:E; [by destruct (Hn r')|done]. }
  split_and!; [|done|].
  - intros name r r' Hr Hr'. apply Hindex in Hr, Hr'. congruence.
  - intros r Hr. pose proof Hr as Hb. apply Hroute in Hb as [_ Hb]. assert (exists name, bound c name r) as (name & w & d & Hw & He & Hd & _) by (destruct Hb as [Hb|(_ & key & _ & Hb)]; by eexists).
    exists w, d. unfold config_website, config_domain. rewrite Hr. cbn [mbind option_bind]. rewrite Hw. cbn [mbind option_bind]. rewrite Hd.
    apply compile_config_parts in Hc as (i & _ & _ & _ & Hf & _). pose proof (websites_certified _ _ _ _ Hf) as Hcert. apply websites_indexed in Hf as [_ Hv].
    rewrite Forall_forall in Hv. rewrite Forall_forall in Hcert. split_and!; try done; [by apply Hv; [eapply list_elem_of_lookup_2|]|by eapply list_elem_of_lookup_2|].
    intros Hs. specialize (Hcert (route_website r, w) (proj2 (numbered_in _ _ _) Hw) He). cbn [snd] in Hcert. rewrite Forall_forall in Hcert. apply Hcert; [by eapply list_elem_of_lookup_2|done].
Qed.
End Compiled.

(** * The release a configuration was compiled from *)

Section Objects.
Context `{Artifacts} `{ManagedDetectors} `{Re2} `{MatchList.Asio} `{SecurityLibraries}.

Lemma expected_objects (l : list object_reference) expected :
  throwing_fold expect_object ∅ l = Returns expected ->
  NoDup (map reference_digest l) /\ base.size expected = length l /\ (forall digest, is_Some (expected !! digest) <-> digest ∈ map reference_digest l) /\
  (forall digest kind, expected !! digest = Some kind -> kind <> kind_unspecified /\ is_sha256_digest digest = true).
Proof.
  apply (throwing_fold_inv (fun (seen : list object_reference) (t : gmap bytes reference_kind) =>
    NoDup (map reference_digest seen) /\ base.size t = length seen /\ (forall digest, is_Some (t !! digest) <-> digest ∈ map reference_digest seen) /\
    (forall digest kind, t !! digest = Some kind -> kind <> kind_unspecified /\ is_sha256_digest digest = true))).
  { split_and!; [constructor|done|intros digest; rewrite lookup_empty; cbn [map]; rewrite elem_of_nil; split; [intros [? ?]; done|done]|intros digest kind; by rewrite lookup_empty]. }
  intros seen r t t' (Hnd & Hsize & Hdom & Hkind). unfold expect_object. destruct (_ || _)%bool eqn:E; [done|]. intros [= <-]. rewrite !orb_false_iff in E. destruct E as [[Hs Hk] Hp].
  apply negb_false_iff in Hs. apply bool_decide_eq_false in Hk. assert (t !! reference_digest r = None) as Hnone by (by destruct (t !! reference_digest r)).
  split_and!.
  - rewrite map_app. apply NoDup_app. split; [done|]. split; [|by apply NoDup_singleton]. intros digest Hd [= ->]%list_elem_of_singleton. apply Hdom in Hd as [k Hk']. congruence.
  - rewrite map_size_insert, Hnone, Hsize, length_app. cbn. lia.
  - intros digest. rewrite map_app, elem_of_app, <- Hdom. cbn [map]. rewrite list_elem_of_singleton, lookup_insert_is_Some'. split; intros [?|?]; auto.
  - intros digest kind [[<- <-]|[_ Hl]]%lookup_insert_Some; [done|by apply Hkind].
Qed.

(** An object that was indexed: the bytes hash to its digest and hold what the manifest says. *)
Definition verified (expected : gmap bytes reference_kind) (i : indexed) (o : artifact) : Prop :=
  artifact_digest (content o) = digest_sha256 o /\ is_Some (expected !! digest_sha256 o) /\
  exists payload, parse_object (content o) = Some payload /\
    match payload with
    | website_object w => expected !! digest_sha256 o = Some kind_website /\ w ∈ indexed_websites i
    | certificate_object c => expected !! digest_sha256 o = Some kind_certificate /\ indexed_certificates i !! digest_sha256 o = Some c
    | no_payload => False
    end.
Record index_ok (expected : gmap bytes reference_kind) (seen : list artifact) (i : indexed) : Prop := {
  io_nodup : NoDup (map digest_sha256 seen);
  io_received : forall digest, digest ∈ received i <-> digest ∈ map digest_sha256 seen;
  io_verified : Forall (verified expected i) seen;
  io_websites : forall w, w ∈ indexed_websites i -> exists o, o ∈ seen /\ parse_object (content o) = Some (website_object w)
}.
Lemma open_artifact_spec {A} (parse : bytes -> option A) a x : open_artifact parse a = Some x -> artifact_digest (content a) = digest_sha256 a /\ parse (content a) = Some x.
Proof. unfold open_artifact, artifact_matches, parse_artifact. case_bool_decide as E; [|done]. destruct (_ <? _); [done|]. done. Qed.

Lemma index_object_ok expected seen i o i' : index_ok expected seen i -> index_object expected i o = Returns i' -> index_ok expected (seen ++ [o]) i'.
Proof.
  intros [Hnd Hrec Hver Hweb]. unfold index_object. destruct (expected !! digest_sha256 o) as [kind|] eqn:Ek; [|done].
  destruct (open_artifact parse_object o) as [payload|] eqn:Eo; [|done]. apply open_artifact_spec in Eo as [Hdigest Hparse]. case_bool_decide as Hin; [done|]. rewrite Hrec in Hin.
  assert (NoDup (map digest_sha256 (seen ++ [o]))) as Hnd'.
  { rewrite map_app. apply NoDup_app. split; [done|]. split; [|by apply NoDup_singleton]. by intros digest Hd ->%list_elem_of_singleton. }
  assert (forall digest, digest ∈ ({[digest_sha256 o]} ∪ received i : gset bytes) <-> digest ∈ map digest_sha256 (seen ++ [o])) as Hrec'.
  { intros digest. rewrite elem_of_union, elem_of_singleton, map_app, elem_of_app, Hrec. cbn [map]. rewrite list_elem_of_singleton. naive_solver. }
  destruct payload as [w|c|], kind; try done; intros [= <-]; (split; cbn [received indexed_websites indexed_certificates]; [done|done|apply Forall_app; split|]).
  - eapply Forall_impl; [exact Hver|]. intros x (Hx & Hs & payload & Hp & Hm). split_and!; [done|done|]. exists payload. split; [done|]. destruct payload; cbn [indexed_certificates indexed_websites]; [|done..].
    destruct Hm. split; [done|]. apply elem_of_app. by left.
  - constructor; [|done]. split_and!; [done|by eexists|]. exists (website_object w). split_and!; [done|done|]. cbn [indexed_websites]. apply elem_of_app. right. by left.
  - intros x [Hx| ->%list_elem_of_singleton]%elem_of_app; [destruct (Hweb x Hx) as (y & Hy & Hp); exists y; split; [apply elem_of_app; by left|done]|].
    exists o. split; [apply elem_of_app; right; by left|done].
  - rewrite Forall_forall in Hver |- *. intros x Hxin. destruct (Hver x Hxin) as (Hx & Hs & payload & Hp & Hm). split_and!; [done|done|]. exists payload. split; [done|].
    destruct payload; cbn [indexed_certificates indexed_websites]; [done| |done]. destruct Hm. split; [done|]. rewrite lookup_insert_ne; [done|]. intros Heq. apply Hin. rewrite Heq. by apply list_elem_of_fmap_2.
  - constructor; [|done]. split_and!; [done|by eexists|]. exists (certificate_object c). split_and!; [done|done|]. cbn [indexed_certificates]. by rewrite lookup_insert_eq.
  - intros x Hx. destruct (Hweb x Hx) as (y & Hy & Hp). exists y. split; [apply elem_of_app; by left|done].
Qed.

Lemma open_config_parts s spec release :
  open_config_state s = Returns (spec, release) ->
  open_artifact parse_node_spec (part (state_node_spec s)) = Some spec /\ open_artifact parse_release (part (state_release s)) = Some release.
Proof.
  unfold open_config_state. destruct (_ || _)%bool; [done|]. unfold open_state.
  destruct (open_artifact parse_node_spec _) as [spec'|]; [|done]. cbn [mbind option_bind]. destruct (open_artifact parse_release _) as [release'|]; [|done]. cbn [mbind option_bind].
  destruct (_ || _)%bool; [done|]. destruct (_ || _)%bool; [done|]. by intros ([] & _ & [= -> ->])%throwing_bind_returns.
Qed.

Lemma indexed_objects release delivered i : index_objects release delivered = Returns i ->
  exists expected, index_ok expected delivered i /\ (forall digest kind, expected !! digest = Some kind -> is_sha256_digest digest = true) /\
    map digest_sha256 delivered ≡ₚ map reference_digest (objects release).
Proof.
  unfold index_objects. intros (expected & (Hnd & Hsize & Hdom & Hkind)%expected_objects & Hi)%throwing_bind_returns. exists expected. destruct (negb _) eqn:El in Hi; [done|]. apply negb_false_iff, Z.eqb_eq in El.
  assert (index_ok expected delivered i) as Hok.
  { revert Hi. apply (throwing_fold_inv (index_ok expected)); [|by intros; eapply index_object_ok]. split; [constructor|by intros; set_solver|constructor|by intros w []%not_elem_of_nil]. }
  split; [exact Hok|]. split; [intros digest kind Hd; by apply Hkind in Hd as [_ ?]|]. destruct Hok as [Hnd' _ Hver _]. rewrite Forall_forall in Hver.
  apply submseteq_length_Permutation; [|unfold size in El; rewrite !length_map; lia]. apply NoDup_submseteq; [done|]. intros digest (o & -> & Ho)%list_elem_of_fmap.
  destruct (Hver o Ho) as (_ & Hd & _). by apply Hdom.
Qed.

(** C21. A configuration is made of the release it was sent and nothing else: the objects are those
    the manifest names, each once, whatever their order; every part, the node's specification and
    the manifest included, hashes to the digest it is known by; each object is of the kind the
    manifest gives; and the websites and certificates of the configuration are theirs. *)
Theorem config_is_the_release s delivered c :
  compile_config s delivered = Returns c ->
  map digest_sha256 delivered ≡ₚ map reference_digest (objects (release_ c)) /\
  (forall o, o ∈ delivered -> artifact_digest (content o) = digest_sha256 o /\
     exists payload, parse_object (content o) = Some payload /\
       match payload with
       | website_object w => w ∈ config_websites_ c
       | certificate_object cert => config_certificate c (digest_sha256 o) = Some cert
       | no_payload => False
       end) /\
  (forall w, w ∈ config_websites_ c -> exists o, o ∈ delivered /\ parse_object (content o) = Some (website_object w)) /\
  artifact_digest (content (part (state_node_spec s))) = node_spec_digest_ c /\ artifact_digest (content (part (state_release s))) = release_digest_ c /\
  parse_node_spec (content (part (state_node_spec s))) = Some (node_spec_ c) /\ parse_release (content (part (state_release s))) = Some (release_ c).
Proof.
  intros (i & (expected & [_ _ Hver Hweb] & _ & Hperm)%indexed_objects & Hw & Hcert & _ & _ & Hopen & Hs & Hr)%compile_config_parts.
  rewrite Forall_forall in Hver. apply open_config_parts in Hopen as [Hspec%open_artifact_spec Hrel%open_artifact_spec]. split_and!.
  - exact Hperm.
  - intros o Ho. destruct (Hver o Ho) as (Hd & _ & payload & Hp & Hm). split; [done|]. exists payload. split; [done|]. unfold config_certificate. rewrite Hw, Hcert. destruct payload; [apply Hm..|done].
  - intros w. rewrite Hw. apply Hweb.
  - rewrite Hs. apply Hspec.
  - rewrite Hr. apply Hrel.
  - apply Hspec.
  - apply Hrel.
Qed.
End Objects.

(** * A compiled configuration runs on every worker *)

Section Views.
Context `{Artifacts} `{ManagedDetectors} `{Re2} `{!Re2Rules} `{!RulePatterns} `{MatchList.Asio} `{SortRanges} `{SecurityLibraries}.

Lemma security_validated ws : forall config config',
  throwing_fold add_security config ws = Returns config' -> Forall (fun w => forall p, security_ w = Some p -> validate_security p = Returns tt) ws.
Proof.
  induction ws as [|w ws IH]; intros config config'; cbn [throwing_fold]; [constructor|]. intros (t & Hw & Hrest)%throwing_bind_returns. constructor; [|by eapply IH].
  intros p Hp. unfold add_security in Hw. rewrite Hp in Hw. by apply throwing_bind_returns in Hw as ([] & Hv & _).
Qed.
Lemma security_program_total (l : list (bytes * option security_policy)) :
  Forall (fun wp => forall p, snd wp = Some p -> validate_security p = Returns tt /\ Forall wildcards_build (expressions p)) l -> exists program, new_security_program l = Returns program.
Proof.
  intros Hall. apply throwing_fold_total. intros program [website o] Hin. rewrite Forall_forall in Hall. specialize (Hall _ Hin). cbn [snd] in Hall. unfold compile_website. cbn [fst snd].
  destruct o as [p|]; [|eauto]. destruct (Hall p eq_refl) as [[types Hok]%validate_security_ok Hw]. destruct (policies_ program !! policy_identity p); cbn [throwing_bind]; [eauto|].
  destruct (policy_compiles types p Hok Hw) as [compiled ->]. cbn. eauto.
Qed.

(** [emplace] *)
Definition emplaced {A} (t : gmap nat A) (i : nat) (x : A) : gmap nat A := match t !! i with Some _ => t | None => <[i := x]> t end.
Lemma emplaced_spec {A} (t : gmap nat A) i x j y : emplaced t i x !! j = Some y <-> t !! j = Some y \/ (j = i /\ t !! i = None /\ y = x).
Proof.
  unfold emplaced. destruct (t !! i) eqn:E; [naive_solver|]. rewrite lookup_insert_Some. destruct (decide (i = j)) as [->|]; naive_solver.
Qed.
Lemma routes_program_total (ws : list published_website) :
  Forall (fun w => published_enabled w = true -> exists routes, compile_website_routes (routed w) = Returns routes) ws ->
  exists program, new_route_program (imap (fun i w => (i, published_enabled w, routed w)) ws) = Returns program /\
    forall i w, ws !! i = Some w -> published_enabled w = true -> exists routes, compile_website_routes (routed w) = Returns routes /\ program_website program i = Returns routes.
Proof.
  intros Hall. unfold new_route_program. set (f := fun (program : route_program) '(object, is_enabled, w) => _).
  set (l := imap _ ws). assert (forall i b w, (i, b, w) ∈ l -> exists site, ws !! i = Some site /\ b = published_enabled site /\ w = routed site) as Hl.
  { intros i b w. unfold l. rewrite elem_of_lookup_imap. intros (j & y & [= -> -> ->] & Hy). by exists y. }
  destruct (throwing_fold_total f ∅ l) as [program Hp].
  { intros program [[i b] w] Hin. destruct (Hl _ _ _ Hin) as (site & Hs & -> & ->). unfold f. destruct (published_enabled site) eqn:E; [|eauto]. rewrite Forall_forall in Hall.
    destruct (Hall site (list_elem_of_lookup_2 _ _ _ Hs) E) as [routes ->]. cbn. eauto. }
  exists program. split; [done|].
  assert ((forall i w, (i, true, w) ∈ l -> exists routes, compile_website_routes w = Returns routes /\ is_Some (program !! i)) /\
    (forall i routes, program !! i = Some routes -> exists w, (i, true, w) ∈ l /\ compile_website_routes w = Returns routes)) as [H1' H2'].
  { revert Hp. apply (throwing_fold_inv (fun (seen : list (nat * bool * routed_website)) (t : gmap nat compiled_website_routes) =>
      (forall i w, (i, true, w) ∈ seen -> exists routes, compile_website_routes w = Returns routes /\ is_Some (t !! i)) /\
      (forall i routes, t !! i = Some routes -> exists w, (i, true, w) ∈ seen /\ compile_website_routes w = Returns routes))).
    { split; [by intros i w []%not_elem_of_nil|intros i routes E; destruct (lookup_empty_Some (M:=gmap nat) i routes E)]. }
    intros seen [[i b] w] t t' [Hin Hout]. unfold f. destruct b.
    - intros (routes & Hc & [= <-])%throwing_bind_returns. change (match t !! i with Some _ => t | None => <[i := routes]> t end) with (emplaced t i routes). split.
      + intros j v [Hj|[= -> ->]%list_elem_of_singleton]%elem_of_app.
        * destruct (Hin j v Hj) as (r & Hr & x & Hx). exists r. split; [done|]. exists x. apply emplaced_spec. by left.
        * exists routes. split; [done|]. destruct (t !! i) as [x|] eqn:E; [exists x|exists routes]; apply emplaced_spec; auto.
      + intros j r [Ht|(-> & _ & ->)]%emplaced_spec.
        * destruct (Hout j r Ht) as (v & Hv & Hcv). exists v. split; [apply elem_of_app; by left|done].
        * exists w. split; [apply elem_of_app; right; by left|done].
    - intros [= <-]. split; [intros j v [Hj|[=]%list_elem_of_singleton]%elem_of_app; by apply Hin|].
      intros j r Hr. destruct (Hout j r Hr) as (v & Hv & Hcv). exists v. split; [apply elem_of_app; by left|done]. }
  intros i w Hw He. destruct (H1' i (routed w)) as (routes & Hc & [r Hr]).
  { unfold l. apply elem_of_lookup_imap. exists i, w. by rewrite He. }
  exists routes. split; [done|]. unfold program_website. rewrite Hr. destruct (H2' i r Hr) as (v & Hv & Hcv). destruct (Hl _ _ _ Hv) as (site & Hs & _ & ->). congruence.
Qed.

(** C8. A configuration that compiles on the control loop gives every data worker an execution view:
    the route rules of each enabled website and the security policies of all websites compile
    there, and a website the host index finds has its routes. Only RE2 may still refuse a wildcard
    of a security rule that does not fit its memory. *)
Theorem config_runs_on_workers s delivered c :
  compile_config s delivered = Returns c ->
  Forall (fun w => forall p, security_ w = Some p -> Forall wildcards_build (expressions p)) (config_websites_ c) ->
  exists view, new_execution_view c = Returns view /\ view_config view = c /\
    forall host r, config_route c host = Some r ->
      exists w routes, config_website c host = Some w /\ compile_website_routes (routed w) = Returns routes /\ program_website (view_routes view) (route_website r) = Returns routes.
Proof.
  intros Hc Hwild. pose proof Hc as (i & _ & _ & _ & Hf & Hs & _)%compile_config_parts. apply security_validated in Hs. pose proof (config_index _ _ _ Hc) as Hindex.
  apply websites_indexed in Hf as [_ Hv]. destruct (routes_program_total (config_websites_ c)) as (routes & Er & Hroutes).
  { eapply Forall_impl; [exact Hv|]. intros w Hw He. specialize (Hw He). unfold validate_website in Hw. apply throwing_bind_returns in Hw as (_ & _ & (_ & _ & Hw)%throwing_bind_returns).
    rewrite He in Hw. cbn [negb] in Hw. apply throwing_bind_returns in Hw as (_ & _ & ([] & Hrules & _)%throwing_bind_returns). by apply validated_routes_compile. }
  destruct (security_program_total (map (fun w => (published_id w, security_ w)) (config_websites_ c))) as [security Es].
  { apply Forall_map. rewrite Forall_forall in Hs, Hwild. apply Forall_forall. intros w Hw p Hp. split; [by eapply Hs|by eapply Hwild]. }
  exists (ExecutionView c routes security). unfold new_execution_view, program_sources_of. rewrite Er. cbn [throwing_bind]. rewrite Es. split; [done|]. split; [done|].
  intros host r Hr. assert (exists name, bound c name r) as (name & w & d & Hw & He & _).
  { unfold config_route in Hr. apply fmap_Some in Hr as ([key v] & Hk & ->). apply find_hostname_spec in Hk as (_ & Hk & _). exists key. by apply Hindex. }
  destruct (Hroutes _ _ Hw He) as (rs & Hcomp & Hp). exists w, rs. unfold config_website. rewrite Hr. cbn [mbind option_bind view_routes]. by rewrite Hw.
Qed.
End Views.

(** * Witnesses *)

Section Samples.
#[local] Existing Instance text_engine.
#[local] Existing Instance text_rules.
#[local] Existing Instance MatchList.dotted_quads.
#[local] Existing Instance merge_sort_ranges.
#[local] Existing Instance sample_libraries.
#[local] Existing Instance sample_patterns.

Definition sample_digest (c : ascii) : bytes := replicate 64 c.
Definition sample_countries : country_database := CountryDatabase [CountryRange (byte_text [1; 2; 0; 0]) (byte_text [1; 2; 255; 255]) (lit "NL"); CountryRange (byte_text [9; 9; 9; 0]) (byte_text [9; 9; 9; 255]) (lit "CH")] [].
Definition sample_site : published_website :=
  let w := sample_published in
  PublishedWebsite (published_id w) 4 true [Domain (lit "Example.com.") true (sample_digest "4"); Domain (lit "*.example.com") false []] (origins w) (default_group w) (lit "$host") (lit "auto") 5 60 true
    (health w) (access_log w) (status_code_ranges w) true (lit "1.2") true true (compression w) (rules w) (security_ w) None.
Definition sample_spec : node_spec_content := NodeSpecContent (lit "node") 2 7 (lit "edge") true [Endpoint (lit "e") (lit "10.0.0.1") (lit "default") (lit "default") 80 443].
Definition sample_release : cluster_release :=
  ClusterRelease (lit "cluster") (lit "release") 3 (lit "access.example.com") true [ObjectReference kind_website (sample_digest "3"); ObjectReference kind_certificate (sample_digest "4")] 7 sample_countries.
(** Contents of one character, and their digest. *)
#[local] Instance sample_artifacts : Artifacts := {|
  artifact_digest b := sample_digest (hd "0"%char b);
  parse_node_spec b := if b == lit "1" then Some sample_spec else None;
  parse_release b := if b == lit "2" then Some sample_release else None;
  parse_object b := if b == lit "3" then Some (website_object sample_site) else if b == lit "4" then Some (certificate_object (Certificate (lit "c") (lit "pem") (lit "key"))) else None
|}.
#[local] Instance sample_detectors : ManagedDetectors := {| managed_detector := unit; new_managed_detector _ := Returns tt; serialize_policy p := policy_identity p |}.
Definition sealed (c : ascii) : artifact := Artifact (sample_digest c) [c].
Definition sample_state : active_state := ActiveState (Some (sealed "1")) (Some (sealed "2")).
Definition sample_delivered : list artifact := [sealed "4"; sealed "3"].
(** What the sample's configuration shows of itself. *)
Definition of_sample {A} (f : compiled_config -> A) : option A := match compile_config sample_state sample_delivered with Returns c => Some (f c) | Throws _ => None end.
Lemma of_sample_spec {A} (f : compiled_config -> A) x : of_sample f = Some x -> exists c, compile_config sample_state sample_delivered = Returns c /\ f c = x.
Proof. unfold of_sample. destruct (compile_config _ _) as [c|]; [|done]. intros [= <-]. by exists c. Qed.

Lemma sample_countries_valid : validate_country_database sample_countries = Returns tt.
Proof. by vm_compute. Qed.
Lemma country_lookup_exact_witness : country_for_address sample_countries (lit "1.2.3.4") = lit "NL".
Proof.
  destruct (@country_lookup_exact MatchList.dotted_quads sample_countries (lit "1.2.3.4") (1, 2, 3, 4) sample_countries_valid eq_refl) as [Hin _].
  apply (Hin (CountryRange (byte_text [1; 2; 0; 0]) (byte_text [1; 2; 255; 255]) (lit "NL"))); [by left|]. split; reflexivity.
Defined.

Lemma hosts_resolve_witness :
  exists c, compile_config sample_state sample_delivered = Returns c /\ config_route c (lit "WWW.example.com:443") = Some (CompiledRoute 0 1) /\
    exists w d, config_website c (lit "WWW.example.com:443") = Some w /\ config_domain c (lit "WWW.example.com:443") = Some d /\ published_enabled w = true.
Proof.
  destruct (of_sample_spec (fun c => config_route c (lit "WWW.example.com:443")) (Some (CompiledRoute 0 1)) ltac:(by vm_compute)) as (c & Hc & Hr). exists c. split; [exact Hc|]. split; [exact Hr|]. destruct (hosts_resolve sample_state sample_delivered c (lit "WWW.example.com:443") Hc) as (_ & _ & Hw).
  destruct (Hw _ Hr) as (w & d & H1' & H2' & H3' & _). exists w, d. auto.
Defined.

Lemma config_is_the_release_witness :
  exists c, compile_config sample_state sample_delivered = Returns c /\ [sample_digest "4"; sample_digest "3"] ≡ₚ map reference_digest (objects (release_ c)).
Proof.
  destruct (of_sample_spec config_enabled true ltac:(by vm_compute)) as (c & Hc & _). exists c. split; [exact Hc|]. exact (proj1 (config_is_the_release sample_state sample_delivered c Hc)).
Defined.

Lemma sample_wildcard_policies c : compile_config sample_state sample_delivered = Returns c -> Forall (fun w => forall p, security_ w = Some p -> Forall wildcards_build (expressions p)) (config_websites_ c).
Proof.
  intros Hc. destruct (of_sample_spec (fun c => map security_ (config_websites_ c)) [Some sample_policy] ltac:(by vm_compute)) as (c' & Hc' & Hs). rewrite Hc in Hc'. injection Hc' as <-.
  apply Forall_forall. intros w Hw p Hp. assert (Some p ∈ [Some sample_policy]) as Hin by (rewrite <- Hs, <- Hp; by apply list_elem_of_fmap_2). apply list_elem_of_singleton in Hin. injection Hin as ->. exact sample_wildcards.
Qed.
Lemma config_runs_on_workers_witness :
  exists c view, compile_config sample_state sample_delivered = Returns c /\ new_execution_view c = Returns view /\ view_config view = c.
Proof.
  destruct (of_sample_spec config_enabled true ltac:(by vm_compute)) as (c & Hc & _). destruct (config_runs_on_workers sample_state sample_delivered c Hc (sample_wildcard_policies c Hc)) as (view & Hv & Hview & _).
  exists c, view. auto.
Defined.
End Samples.
