(* ===== verification/ReloadWorker.v ===== *)
(** A data worker's part in a configuration reload: the runtime of src/node/data/data_worker.h that
    the requests of the control loop change, with the key sets of health_supervisor.h and the probe
    configuration of health_probe.h.

    A reload is prepared beside the running configuration, exchanged with it when the control loop
    says so, and then kept or exchanged back. Listeners are objects with an identity; what the
    environment decides - the clock, whether an address can be bound, which listeners have
    finished - is given to each request. *)
From S2P Require Import Prelude RoutePolicy RouteMatch OriginSelection MatchList OriginHealth ExpressionProgram SecurityPolicy RouteProgram WebsiteValidation CompiledConfig.
Open Scope Z_scope.

(** The TLS contexts of a configuration, which may fail to load. *)
Class TlsContexts `{ManagedDetectors} := {
  tls_context_set : Type;
  new_tls_contexts : compiled_config -> throwing tls_context_set;
  tls_empty : tls_context_set -> bool
}.
(** [asio::ip::make_address] and [is_v6] of an endpoint's address. *)
Class EndpointAddresses := address_is_v6 : bytes -> option bool.

(** * Health checks of a configuration *)

Record origin_probe_config := ProbeConfig {
  probe_protocol : bytes; probe_http_version : bytes; probe_host : bytes; probe_port : Z; probe_path : bytes; probe_timeout : Z; probe_status : Z;
  probe_healthy : Z; probe_unhealthy : Z }.
#[export] Instance probe_config_eq_dec : EqDecision origin_probe_config.
Proof. solve_decision. Defined.
Definition make_origin_probe_config (w : published_website) (o : published_origin) : origin_probe_config :=
  ProbeConfig (origin_protocol o) (origin_http_version w) (origin_host o) (origin_port o mod 65536) (health_check_path (health w))
    (health_check_timeout_seconds (health w)) (if health_check_expected_status (health w) =? 0 then 200 else health_check_expected_status (health w))
    (healthy_threshold (health w)) (unhealthy_threshold (health w)).

Section Health.
Context `{ManagedDetectors}.

Definition config_origins (c : compiled_config) : list (published_website * published_origin) := concat (map (fun w => map (pair w) (origins w)) (config_websites_ c)).
Definition key_of (wo : published_website * published_origin) : origin_health_key := (published_id (fst wo), origin_id (origin (snd wo))).
(** The first origin of the active configuration with the key. *)
Definition previous_origin (active : option compiled_config) (key : origin_health_key) : option (published_website * published_origin) :=
  c ← active; List.find (fun wo => bool_decide (key_of wo = key)) (config_origins c).
Definition probe_changed (old new : published_website * published_origin) : bool :=
  negb (Bool.eqb (published_enabled (fst new)) (published_enabled (fst old))) || negb (Bool.eqb (enabled (origin (snd new))) (enabled (origin (snd old)))) ||
  negb (Bool.eqb (health_check_enabled (health (fst new))) (health_check_enabled (health (fst old)))) ||
  negb (health_check_interval_seconds (health (fst new)) =? health_check_interval_seconds (health (fst old))) ||
  negb (bool_decide (make_origin_probe_config (fst new) (snd new) = make_origin_probe_config (fst old) (snd old))).
(** The keys of the next configuration, each once, and those whose history starts anew. *)
Definition health_keys (next : compiled_config) : list origin_health_key := remove_dups (map key_of (config_origins next)).
Definition replaced_keys (active : option compiled_config) (next : compiled_config) : gset origin_health_key :=
  list_to_set (omap (fun wo => old ← previous_origin active (key_of wo); if probe_changed old wo then Some (key_of wo) else None) (config_origins next)).
Definition prepare_health (s : origin_health_state) (active : option compiled_config) (next : compiled_config) : origin_health_state * prepared :=
  prepare s (health_keys next) (replaced_keys active next).

End Health.

(** * Requests *)

Inductive data_worker_operation := op_prepare | op_activate | op_finalize | op_rollback | op_discard | op_report | op_stop_accepting.
#[export] Instance operation_eq_dec : EqDecision data_worker_operation.
Proof. solve_decision. Defined.
Section Requests.
Context `{ManagedDetectors}.
Record data_worker_request := WorkerRequest {
  operation_ : data_worker_operation; sequence_ : Z; committed_sequence_ : Z; config_ : option compiled_config; deadline_ : Z }.
Record data_worker_result := WorkerResult {
  result_operation : data_worker_operation; result_sequence : Z; ok_ : bool; error_ : bytes; added_listeners_ : nat; retired_listeners_ : nat;
  reported_config : option compiled_config }.
End Requests.
(** What the environment says while a request is handled. *)
Record moment := Moment {
  now_ : Z;              (* the clock at the first check *)
  later_ : Z;            (* the clock at the second check of a prepare *)
  loop_accepting : bool;
  binds : bytes -> bool; (* the address of a listener's key can be bound *)
  stopped : nat -> bool  (* the listener has stopped and retired its connections *)
}.

(** * The worker *)

Record listener := Listener { listener_key : bytes; start_requested : bool; activated : bool; stop_requested : bool }.
Inductive reload_phase := phase_prepared | phase_tentative.
#[export] Instance reload_phase_eq_dec : EqDecision reload_phase.
Proof. solve_decision. Defined.

Section Worker.
Context `{ManagedDetectors} `{Re2} `{!Re2Rules} `{MatchList.Asio} `{SortRanges} `{SecurityLibraries} `{!TlsContexts} `{EndpointAddresses}.

Record replacement_resources := Replacement {
  replacement_tls : option tls_context_set; replacement_health : prepared; replacement_listeners : gmap bytes nat; additions_ : list nat; retired_ : list nat }.
(** [resources_] is [None] for [retained_resources]. *)
Record reload_participant := Participant {
  reload_sequence : Z; reload_execution : option worker_execution_view; resources_ : option replacement_resources; phase_ : reload_phase }.
Record worker := DataWorker {
  execution_ : option worker_execution_view;
  tls_ : option tls_context_set;
  health_ : origin_health_state;
  objects_ : gmap nat listener;
  next_listener_ : nat;
  owned_ : list nat;
  listeners_ : gmap bytes nat;
  reload_ : option reload_participant;
  settled_sequence_ : Z;
  stopping_ : bool
}.
Definition new_worker : worker := DataWorker None None new_state ∅ 0 [] ∅ None 0 false.
Definition active_config (w : worker) : option compiled_config := view_config <$> execution_ w.

Definition set_objects (w : worker) (objects : gmap nat listener) : worker :=
  DataWorker (execution_ w) (tls_ w) (health_ w) objects (next_listener_ w) (owned_ w) (listeners_ w) (reload_ w) (settled_sequence_ w) (stopping_ w).
Definition set_reload (w : worker) (r : option reload_participant) : worker :=
  DataWorker (execution_ w) (tls_ w) (health_ w) (objects_ w) (next_listener_ w) (owned_ w) (listeners_ w) r (settled_sequence_ w) (stopping_ w).
Definition set_settled (w : worker) (sequence : Z) : worker :=
  DataWorker (execution_ w) (tls_ w) (health_ w) (objects_ w) (next_listener_ w) (owned_ w) (listeners_ w) (reload_ w) sequence (stopping_ w).

(** Changes of each listener of a list. *)
Definition update_listeners (f : listener -> listener) (l : list nat) (w : worker) : worker := set_objects w (fold_left (fun objects id => alter f id objects) l (objects_ w)).
Definition request_start (l : listener) : listener := Listener (listener_key l) true (activated l) (stop_requested l).
Definition activate_listener (l : listener) : listener := Listener (listener_key l) (start_requested l) true (stop_requested l).
Definition request_stop (l : listener) : listener := Listener (listener_key l) (start_requested l) (activated l) true.

(** The destructor of a participant: an undecided one stops the listeners it added. *)
Definition drop_participant (r : reload_participant) (w : worker) : worker :=
  match phase_ r, resources_ r with
  | phase_prepared, Some replacement => update_listeners request_stop (additions_ replacement) w
  | _, _ => w
  end.
Definition reset_reload (w : worker) : worker := match reload_ w with Some r => set_reload (drop_participant r w) None | None => w end.

Definition require_accepting (m : moment) (w : worker) : throwing unit := if stopping_ w || negb (loop_accepting m) then Throws (lit "data worker is stopping") else Returns tt.
Definition require_current (now : Z) (request : data_worker_request) (w : worker) : throwing unit :=
  if sequence_ request <=? settled_sequence_ w then Throws (lit "data worker reload is already settled")
  else if deadline_ request <=? now then Throws (lit "data worker reload deadline expired")
  else Returns tt.

(** ** Preparing *)

Definition listener_key_of (secure v6 : bool) (port : Z) : bytes := (if secure then lit "https:" else lit "http:") ++ (if v6 then lit "v6:" else lit "v4:") ++ dec port.
(** The worker and the resources so far, and the error that ended it. *)
Definition prepare_listener (m : moment) (address : bytes) (port : Z) (secure : bool) (state : worker * replacement_resources) : (worker * replacement_resources) * option bytes :=
  let '(w, r) := state in
  match address_is_v6 address with
  | None => (state, Some (lit "invalid address"))
  | Some v6 =>
      let key := listener_key_of secure v6 port in
      if present (replacement_listeners r !! key) then (state, None)
      else
        match listeners_ w !! key with
        | Some existing => ((w, Replacement (replacement_tls r) (replacement_health r) (<[key := existing]> (replacement_listeners r)) (additions_ r) (retired_ r)), None)
        | None =>
            if negb (binds m key) then (state, Some (lit "address in use"))
            else
              let id := next_listener_ w in
              ((DataWorker (execution_ w) (tls_ w) (health_ w) (<[id := Listener key false false false]> (objects_ w)) (S id) (owned_ w ++ [id]) (listeners_ w) (reload_ w)
                  (settled_sequence_ w) (stopping_ w),
                Replacement (replacement_tls r) (replacement_health r) (<[key := id]> (replacement_listeners r)) (additions_ r ++ [id]) (retired_ r)), None)
        end
  end.
(** The listeners an enabled configuration asks for, in order. *)
Definition wanted (tls : tls_context_set) (c : compiled_config) : list (bytes * Z * bool) :=
  if config_enabled c then
    concat (map (fun e => (ip_address e, http_port e, false) :: (if tls_empty tls then [] else [(ip_address e, https_port e, true)])) (config_endpoints c))
  else [].
Fixpoint prepare_listeners (m : moment) (l : list (bytes * Z * bool)) (state : worker * replacement_resources) : (worker * replacement_resources) * option bytes :=
  match l with
  | [] => (state, None)
  | (address, port, secure) :: l =>
      match prepare_listener m address port secure state with
      | (state, None) => prepare_listeners m l state
      | (state, Some error) => (state, Some error)
      end
  end.
(** The running listeners that the replacement does not keep. *)
Definition not_kept (w : worker) (r : replacement_resources) : list nat :=
  map snd (List.filter (fun kl => negb (present (replacement_listeners r !! fst kl))) (map_to_list (listeners_ w))).

Definition same_digests (a b : compiled_config) : bool := (node_spec_digest_ a == node_spec_digest_ b) && (release_digest_ a == release_digest_ b).
(** Once the candidate's view is built; [None] and the new participant, or the error. *)
Definition prepare_resources (m : moment) (request : data_worker_request) (c : compiled_config) (view : worker_execution_view) (w : worker) : worker * option bytes :=
  let participant resources := Participant (sequence_ request) (Some view) resources phase_prepared in
  if match active_config w with Some active => same_digests active c | None => false end then
    match require_current (later_ m) request w with
    | Returns _ => (set_reload w (Some (participant None)), None)
    | Throws error => (w, Some error)
    end
  else
    match new_tls_contexts c with
    | Throws error => (w, Some error)
    | Returns tls =>
        let '(health, next) := prepare_health (health_ w) (active_config w) c in
        let w := DataWorker (execution_ w) (tls_ w) health (objects_ w) (next_listener_ w) (owned_ w) (listeners_ w) (reload_ w) (settled_sequence_ w) (stopping_ w) in
        match prepare_listeners m (wanted tls c) (w, Replacement (Some tls) next ∅ [] []) with
        | ((w, r), Some error) => (update_listeners request_stop (additions_ r) w, Some error)
        | ((w, r), None) =>
            let r := Replacement (replacement_tls r) (replacement_health r) (replacement_listeners r) (additions_ r) (not_kept w r) in
            let w := update_listeners request_start (additions_ r) w in
            match require_current (later_ m) request w with
            | Returns _ => (set_reload w (Some (participant (Some r))), None)
            | Throws error => (update_listeners request_stop (additions_ r) w, Some error)
            end
        end
    end.
Definition prepare_worker (m : moment) (request : data_worker_request) (w : worker) : worker * option bytes :=
  match throwing_bind (require_accepting m w) (fun _ => require_current (now_ m) request w) with
  | Throws error => (w, Some error)
  | Returns _ =>
      if match reload_ w with Some r => bool_decide (phase_ r = phase_tentative) | None => false end then (w, Some (lit "data worker reload decision is missing"))
      else
        match config_ request with
        | None => (w, Some (lit "data worker config cannot be empty"))
        | Some c =>
            if match reload_ w with Some r => sequence_ request <=? reload_sequence r | None => false end then (w, Some (lit "stale data worker reload"))
            else
              let w := reset_reload w in
              match throwing_bind (validate_next (active_config w) c) (fun _ => new_execution_view c) with
              | Throws error => (w, Some error)
              | Returns view => prepare_resources m request c view w
              end
        end
  end.

(** ** Deciding *)

Definition exchange_runtime (w : worker) (r : reload_participant) : worker * reload_participant :=
  let '(w, resources) :=
    match resources_ r with
    | None => (w, None)
    | Some x =>
        let '(health, displaced) := OriginHealth.activate (health_ w) (replacement_health x) in
        (DataWorker (execution_ w) (replacement_tls x) health (objects_ w) (next_listener_ w) (owned_ w) (replacement_listeners x) (reload_ w) (settled_sequence_ w) (stopping_ w),
         Some (Replacement (tls_ w) displaced (listeners_ w) (additions_ x) (retired_ x)))
    end in
  (DataWorker (reload_execution r) (tls_ w) (health_ w) (objects_ w) (next_listener_ w) (owned_ w) (listeners_ w) (reload_ w) (settled_sequence_ w) (stopping_ w),
   Participant (reload_sequence r) (execution_ w) resources (phase_ r)).
Definition tentative (r : reload_participant) : reload_participant := Participant (reload_sequence r) (reload_execution r) (resources_ r) phase_tentative.
Definition added (r : reload_participant) : list nat := match resources_ r with Some x => additions_ x | None => [] end.
Definition retired (r : reload_participant) : list nat := match resources_ r with Some x => retired_ x | None => [] end.

Definition activate_worker (sequence : Z) (w : worker) : worker * option bytes :=
  match reload_ w with
  | Some r =>
      if negb (reload_sequence r =? sequence) || negb (bool_decide (phase_ r = phase_prepared)) then (w, Some (lit "data worker reload is not prepared"))
      else
        let '(w, r) := exchange_runtime w r in
        (update_listeners activate_listener (added r) (set_reload w (Some (tentative r))), None)
  | None => (w, Some (lit "data worker reload is not prepared"))
  end.
Definition finalize_worker (sequence : Z) (w : worker) : worker :=
  match reload_ w with
  | Some r =>
      if (reload_sequence r =? sequence) && bool_decide (phase_ r = phase_tentative) then
        set_settled (set_reload (update_listeners request_stop (retired r) w) None) (Z.max (settled_sequence_ w) sequence)
      else w
  | None => w
  end.
Definition rollback_worker (sequence : Z) (w : worker) : worker :=
  if sequence <=? settled_sequence_ w then w
  else
    let w := set_settled w sequence in
    match reload_ w with
    | Some r =>
        if negb (reload_sequence r =? sequence) then w
        else
          match phase_ r with
          | phase_tentative => let '(w, r) := exchange_runtime w r in set_reload (update_listeners request_stop (added r) w) None
          | phase_prepared => reset_reload w
          end
    | None => w
    end.
Definition stop_accepting (w : worker) : worker :=
  let w := match reload_ w with Some r => if bool_decide (phase_ r = phase_prepared) then reset_reload w else w | None => w end in
  let w := update_listeners request_stop (owned_ w) w in
  DataWorker (execution_ w) (tls_ w) (health_ w) (objects_ w) (next_listener_ w) (owned_ w) ∅ (reload_ w) (settled_sequence_ w) true.

(** ** One request *)

Definition finish_stopped (m : moment) (w : worker) : worker :=
  DataWorker (execution_ w) (tls_ w) (health_ w) (objects_ w) (next_listener_ w) (List.filter (fun id => negb (stopped m id)) (owned_ w)) (listeners_ w) (reload_ w)
    (settled_sequence_ w) (stopping_ w).
(** A decision the worker missed: every later request carries the last committed sequence. *)
Definition catch_up (committed : Z) (w : worker) : worker :=
  match reload_ w with
  | Some r => if bool_decide (phase_ r = phase_tentative) && (reload_sequence r <=? committed) then finalize_worker (reload_sequence r) w else w
  | None => w
  end.
Definition result_of (request : data_worker_request) (error : option bytes) (added retired : nat) (reported : option compiled_config) : data_worker_result :=
  WorkerResult (operation_ request) (sequence_ request) (negb (present error)) (match error with Some e => e | None => [] end) added retired reported.
(** The worker and its reply, if it sends one. *)
Definition handle (m : moment) (request : data_worker_request) (w : worker) : worker * option data_worker_result :=
  let w := catch_up (committed_sequence_ request) (finish_stopped m w) in
  match operation_ request with
  | op_prepare =>
      let '(w, error) := prepare_worker m request w in
      let r := match error with Some _ => None | None => reload_ w end in
      (w, Some (result_of request error (match r with Some r => length (added r) | None => 0 end) (match r with Some r => length (retired r) | None => 0 end) None))
  | op_activate =>
      match throwing_bind (require_accepting m w) (fun _ => require_current (now_ m) request w) with
      | Throws error => (w, Some (result_of request (Some error) 0 0 None))
      | Returns _ => let '(w, error) := activate_worker (sequence_ request) w in (w, Some (result_of request error 0 0 None))
      end
  | op_finalize => (finalize_worker (sequence_ request) w, None)
  | op_rollback => (rollback_worker (sequence_ request) w, Some (result_of request None 0 0 None))
  | op_discard => (rollback_worker (sequence_ request) w, None)
  | op_report => (w, Some (result_of request None 0 0 (active_config w)))
  | op_stop_accepting => (stop_accepting w, None)
  end.

(** The loop of the worker stops: it serves nothing any more. *)
Definition retire_worker (w : worker) : worker :=
  let w := reset_reload (stop_accepting w) in
  DataWorker None None (health_ w) (objects_ w) (next_listener_ w) [] (listeners_ w) None (settled_sequence_ w) true.

(** * What a request does to the configurations of a worker

    The specification the control loop relies on: the configuration that is served, the one that
    waits or was displaced, and the last sequence that was decided. *)
Record participant := ParticipantView { serving : option compiled_config; slot : option (Z * reload_phase * option compiled_config); settled : Z }.
Definition slot_of (r : reload_participant) : Z * reload_phase * option compiled_config := (reload_sequence r, phase_ r, view_config <$> reload_execution r).
Definition view_of (w : worker) : participant := ParticipantView (active_config w) (slot_of <$> reload_ w) (settled_sequence_ w).

Definition keep (sequence : Z) (p : participant) : participant :=
  match slot p with
  | Some (s, phase_tentative, _) => if s =? sequence then ParticipantView (serving p) None (Z.max (settled p) sequence) else p
  | _ => p
  end.
Definition undo (sequence : Z) (p : participant) : participant :=
  if sequence <=? settled p then p
  else
    match slot p with
    | Some (s, phase, c) =>
        if s =? sequence then match phase with phase_tentative => ParticipantView c None sequence | phase_prepared => ParticipantView (serving p) None sequence end
        else ParticipantView (serving p) (slot p) sequence
    | None => ParticipantView (serving p) None sequence
    end.
Definition learn (committed : Z) (p : participant) : participant :=
  match slot p with Some (s, phase_tentative, _) => if s <=? committed then keep s p else p | _ => p end.
Definition release_slot (p : participant) : participant := match slot p with Some (_, phase_prepared, _) => ParticipantView (serving p) None (settled p) | _ => p end.

(** A worker may refuse to prepare or to activate; it may not do it otherwise. *)
Inductive participant_step (request : data_worker_request) : participant -> participant -> option bool -> Prop :=
  | prepares p c : operation_ request = op_prepare -> config_ request = Some c -> settled p < sequence_ request ->
      match slot p with Some (s, phase_tentative, _) => False | Some (s, phase_prepared, _) => s < sequence_ request | None => True end ->
      participant_step request p (ParticipantView (serving p) (Some (sequence_ request, phase_prepared, Some c)) (settled p)) (Some true)
  | refuses_prepare p : operation_ request = op_prepare -> participant_step request p p (Some false)
  | refuses_and_releases p : operation_ request = op_prepare -> participant_step request p (release_slot p) (Some false)
  | activates p c : operation_ request = op_activate -> settled p < sequence_ request -> slot p = Some (sequence_ request, phase_prepared, c) ->
      participant_step request p (ParticipantView c (Some (sequence_ request, phase_tentative, serving p)) (settled p)) (Some true)
  | refuses_activate p : operation_ request = op_activate -> participant_step request p p (Some false)
  | finalizes p : operation_ request = op_finalize -> participant_step request p (keep (sequence_ request) p) None
  | rolls_back p : operation_ request = op_rollback -> participant_step request p (undo (sequence_ request) p) (Some true)
  | discards p : operation_ request = op_discard -> participant_step request p (undo (sequence_ request) p) None
  | reports p : operation_ request = op_report -> participant_step request p p (Some true)
  | stops p : operation_ request = op_stop_accepting -> participant_step request p (release_slot p) None.

(** Requests one after another. *)
Fixpoint handle_all (l : list (moment * data_worker_request)) (w : worker) : worker * list (option data_worker_result) :=
  match l with
  | [] => (w, [])
  | (m, request) :: l => let '(w, reply) := handle m request w in let '(w, replies) := handle_all l w in (w, reply :: replies)
  end.
Inductive participant_run : list data_worker_request -> participant -> list (option bool) -> participant -> Prop :=
  | run_nil p : participant_run [] p [] p
  | run_cons request requests p p1 p2 out outs : participant_step request (learn (committed_sequence_ request) p) p1 out -> participant_run requests p1 outs p2 ->
      participant_run (request :: requests) p (out :: outs) p2.

(** ** Only a few operations change them *)

Lemma view_update f l w : view_of (update_listeners f l w) = view_of w.
Proof. done. Qed.
Lemma view_drop r w : view_of (drop_participant r w) = view_of w.
Proof. unfold drop_participant. destruct (phase_ r), (resources_ r); done. Qed.
Lemma view_reset w : view_of (reset_reload w) = ParticipantView (active_config w) None (settled_sequence_ w).
Proof. unfold reset_reload. destruct (reload_ w) as [r|] eqn:E; [|unfold view_of; by rewrite E]. unfold drop_participant. destruct (phase_ r), (resources_ r); done. Qed.
Lemma view_keep sequence w : view_of (finalize_worker sequence w) = keep sequence (view_of w).
Proof.
  destruct w as [execution tls health objects next owned listeners reload settled stopping]. unfold finalize_worker, keep, view_of. cbn.
  destruct reload as [[s e x []]|]; cbn; [by rewrite andb_false_r| |done]. rewrite andb_true_r. by destruct (s =? sequence).
Qed.
Lemma exchange_view w r : forall w' r', exchange_runtime w r = (w', r') ->
  active_config w' = view_config <$> reload_execution r /\ reload_execution r' = execution_ w /\ reload_sequence r' = reload_sequence r /\ phase_ r' = phase_ r /\
  settled_sequence_ w' = settled_sequence_ w /\ added r' = added r /\ retired r' = retired r.
Proof. intros w' r'. unfold exchange_runtime, added, retired. destruct (resources_ r); intros [= <- <-]; cbn; by split_and!. Qed.
Lemma view_undo sequence w : view_of (rollback_worker sequence w) = undo sequence (view_of w).
Proof.
  destruct w as [execution tls health objects next owned listeners reload settled stopping]. unfold rollback_worker, undo, view_of. cbn.
  destruct (sequence <=? settled); [done|]. destruct reload as [[s e x []]|]; cbn; [| |done]; destruct (s =? sequence); cbn; try done.
  - by destruct x.
  - by destruct x.
Qed.
Lemma view_learn m committed w : view_of (catch_up committed (finish_stopped m w)) = learn committed (view_of w).
Proof.
  destruct w as [execution tls health objects next owned listeners reload settled stopping]. unfold catch_up, learn, finish_stopped, view_of. cbn.
  destruct reload as [[s e x []]|]; cbn; [done| |done]. destruct (s <=? committed); [|done]. unfold finalize_worker, keep. cbn. by rewrite Z.eqb_refl.
Qed.

Lemma prepare_listener_views m address port secure w r w' r' error : prepare_listener m address port secure (w, r) = ((w', r'), error) -> view_of w' = view_of w.
Proof.
  unfold prepare_listener. destruct (address_is_v6 address) as [v6|]; [|by intros [= <- <- <-]]. cbn zeta.
  destruct (present _); [by intros [= <- <- <-]|]. destruct (listeners_ w !! _); [by intros [= <- <- <-]|]. destruct (negb (binds m _)); by intros [= <- <- <-].
Qed.
Lemma prepare_listeners_views m l : forall w r w' r' error, prepare_listeners m l (w, r) = ((w', r'), error) -> view_of w' = view_of w.
Proof.
  induction l as [|[[address port] secure] l IH]; intros w r w' r' error; cbn [prepare_listeners]; [by intros [= <- <- <-]|].
  destruct (prepare_listener m address port secure (w, r)) as [[w1 r1] [e|]] eqn:E; [intros [= <- <- <-]; by eapply prepare_listener_views|].
  intros E'. rewrite (IH _ _ _ _ _ E'). by eapply prepare_listener_views.
Qed.
Lemma require_current_spec now request w u : require_current now request w = Returns u -> settled_sequence_ w < sequence_ request.
Proof. unfold require_current. destruct (Z.leb_spec (sequence_ request) (settled_sequence_ w)); [done|lia]. Qed.
(** The resources of a candidate are built beside what the worker serves. *)
Lemma prepare_resources_views m request c view w w' error : view_config view = c -> prepare_resources m request c view w = (w', error) ->
  match error with
  | None => view_of w' = ParticipantView (active_config w) (Some (sequence_ request, phase_prepared, Some c)) (settled_sequence_ w)
  | Some _ => view_of w' = view_of w
  end.
Proof.
  intros Hc. unfold prepare_resources. destruct (match active_config w with Some active => same_digests active c | None => false end).
  - destruct (require_current (later_ m) request w); intros [= <- <-]; [|done]. unfold view_of, slot_of. cbn. by rewrite Hc.
  - destruct (new_tls_contexts c) as [tls|e]; [|by intros [= <- <-]]. destruct (prepare_health (health_ w) (active_config w) c) as [health next]. cbn zeta.
    match goal with |- context [prepare_listeners m ?l (?w0, ?r0)] => destruct (prepare_listeners m l (w0, r0)) as [[w1 r1] [e|]] eqn:E end; apply prepare_listeners_views in E.
    + intros [= <- <-]. rewrite view_update. exact E.
    + destruct (require_current (later_ m) request _); intros [= <- <-]; [|rewrite !view_update; exact E].
      injection E as E1 E2 E3. unfold view_of, slot_of. cbn. rewrite Hc. by f_equal.
Qed.
Lemma new_execution_view_config c view : new_execution_view c = Returns view -> view_config view = c.
Proof. unfold new_execution_view. intros (routes & _ & (security & _ & [= <-])%throwing_bind_returns)%throwing_bind_returns. done. Qed.
Lemma prepare_worker_step m request w w' error : operation_ request = op_prepare -> prepare_worker m request w = (w', error) ->
  participant_step request (view_of w) (view_of w') (Some (negb (present error))).
Proof.
  intros Ho. unfold prepare_worker. destruct (throwing_bind (require_accepting m w) _) as [u|e] eqn:Eq; [|intros [= <- <-]; by apply refuses_prepare].
  apply throwing_bind_returns in Eq as (_ & _ & Hs%require_current_spec). destruct (match reload_ w with Some r => bool_decide _ | None => false end) eqn:Et; [intros [= <- <-]; by apply refuses_prepare|].
  destruct (config_ request) as [c|] eqn:Ec; [|intros [= <- <-]; by apply refuses_prepare].
  destruct (match reload_ w with Some r => sequence_ request <=? _ | None => false end) eqn:Est; [intros [= <- <-]; by apply refuses_prepare|].
  cbn zeta. pose proof (view_reset w) as Hr. set (w0 := reset_reload w) in *.
  assert (ParticipantView (active_config w) None (settled_sequence_ w) = release_slot (view_of w)) as Hg.
  { unfold release_slot, view_of, slot_of. cbn. destruct (reload_ w) as [r|]; cbn; [|done]. destruct (phase_ r); [done|discriminate]. }
  destruct (throwing_bind (validate_next _ _) _) as [view|e] eqn:Ev; [|intros [= <- <-]; rewrite Hr, Hg; by apply refuses_and_releases].
  apply throwing_bind_returns in Ev as (_ & _ & Hv%new_execution_view_config). intros E. apply (prepare_resources_views _ _ _ _ _ _ _ Hv) in E.
  destruct error as [e|]; cbn [present negb]; [rewrite E, Hr, Hg; by apply refuses_and_releases|].
  injection Hr as Ha _ Hse. rewrite E, Ha, Hse. apply (prepares request (view_of w) c); [done|done|exact Hs|].
  unfold view_of, slot_of. cbn. destruct (reload_ w) as [r|]; [|done]. cbn. destruct (phase_ r); [lia|discriminate].
Qed.
Lemma activate_worker_step request w w' error : operation_ request = op_activate -> settled_sequence_ w < sequence_ request -> activate_worker (sequence_ request) w = (w', error) ->
  participant_step request (view_of w) (view_of w') (Some (negb (present error))).
Proof.
  intros Ho Hs. unfold activate_worker. destruct (reload_ w) as [r|] eqn:Er; [|intros [= <- <-]; by apply refuses_activate].
  destruct (negb (reload_sequence r =? sequence_ request) || _) eqn:Eq; [intros [= <- <-]; by apply refuses_activate|].
  apply orb_false_iff in Eq as [Eq%negb_false_iff%Z.eqb_eq Ep%negb_false_iff%bool_decide_eq_true].
  destruct (exchange_runtime w r) as [w1 r1] eqn:Ex. apply exchange_view in Ex as (Ha & He & Hq & _ & Hse & _). intros [= <- <-].
  pose proof (activates request (view_of w) (view_config <$> reload_execution r) Ho Hs) as Hstep. rewrite view_update. unfold view_of in *. cbn in *. unfold slot_of in *. cbn in *. rewrite Er in Hstep. cbn in Hstep.
  rewrite Eq, Ep in Hstep. specialize (Hstep eq_refl). rewrite Hq, He, Hse, Eq. unfold active_config in *. cbn in *. rewrite Ha, Er. cbn. rewrite Eq, Ep. exact Hstep.
Qed.

Lemma view_stop w : view_of (stop_accepting w) = release_slot (view_of w).
Proof.
  unfold stop_accepting. assert (view_of (match reload_ w with Some r => if bool_decide (phase_ r = phase_prepared) then reset_reload w else w | None => w end) = release_slot (view_of w)) as Hg; [|exact Hg].
  unfold release_slot, view_of, slot_of. cbn. destruct (reload_ w) as [r|] eqn:Er; cbn; [|by rewrite Er]. destruct (phase_ r) eqn:Ep; cbn; [exact (view_reset w)|].
  rewrite bool_decide_eq_false_2 by done. by rewrite Er, <- Ep.
Qed.
Lemma handle_step m request w w' reply : handle m request w = (w', reply) ->
  participant_step request (learn (committed_sequence_ request) (view_of w)) (view_of w') (ok_ <$> reply).
Proof.
  rewrite <- (view_learn m). unfold handle. set (w0 := catch_up _ _). destruct (operation_ request) eqn:Ho.
  - destruct (prepare_worker m request w0) as [w1 error] eqn:E. intros [= <- <-]. by apply (prepare_worker_step m).
  - destruct (throwing_bind (require_accepting m w0) _) as [u|e] eqn:Eq; [|intros [= <- <-]; by apply refuses_activate].
    apply throwing_bind_returns in Eq as (_ & _ & Hs%require_current_spec). destruct (activate_worker _ w0) as [w1 error] eqn:E. intros [= <- <-]. by apply activate_worker_step.
  - intros [= <- <-]. rewrite view_keep. by apply finalizes.
  - intros [= <- <-]. rewrite view_undo. by apply rolls_back.
  - intros [= <- <-]. rewrite view_undo. by apply discards.
  - intros [= <- <-]. by apply reports.
  - intros [= <- <-]. rewrite view_stop. by apply stops.
Qed.
(** The reply names the request it answers. *)
Lemma handle_reply m request w w' r : handle m request w = (w', Some r) -> result_operation r = operation_ request /\ result_sequence r = sequence_ request.
Proof.
  unfold handle. set (w0 := catch_up _ _). destruct (operation_ request) eqn:Ho.
  - destruct (prepare_worker m request w0). intros [= _ <-]. done.
  - destruct (throwing_bind _ _); [destruct (activate_worker _ w0)|]; intros [= _ <-]; done.
  - done.
  - intros [= _ <-]. done.
  - done.
  - intros [= _ <-]. done.
  - done.
Qed.

(** C9. Every request a data worker handles, in any history, does what the control loop's protocol says: a prepare
    either leaves the served configuration alone and retains the candidate under its sequence, later
    than everything decided, or refuses, dropping at most an undecided candidate; an activate
    exchanges exactly the prepared candidate with what was served, keeping that for a rollback; a
    finalize keeps the candidate; a rollback - also a late or a repeated one - restores what was
    served and fences every request of its sequence that is still on its way; and a request that
    carries a later decision than the worker has heard of applies that decision first. *)
Theorem handle_refines l w w' replies : handle_all l w = (w', replies) -> participant_run (map snd l) (view_of w) (map (fmap ok_) replies) (view_of w').
Proof.
  revert w replies. induction l as [|[m request] l IH]; intros w replies; cbn [handle_all]; [intros [= <- <-]; constructor|].
  destruct (handle m request w) as [w1 reply] eqn:E1. destruct (handle_all l w1) as [w2 rest] eqn:E2. intros [= <- <-]. econstructor; [by eapply handle_step|by apply IH].
Qed.
End Worker.

(** * Witnesses *)

Section Samples.
#[local] Existing Instance text_engine.
#[local] Existing Instance text_rules.
#[local] Existing Instance MatchList.dotted_quads.
#[local] Existing Instance merge_sort_ranges.
#[local] Existing Instance sample_libraries.
#[local] Existing Instance sample_artifacts.
#[local] Existing Instance sample_detectors.
#[local] Instance sample_tls : TlsContexts := {| tls_context_set := nat; new_tls_contexts c := Returns 1%nat; tls_empty n := Nat.eqb n 0 |}.
#[local] Instance sample_addresses : EndpointAddresses := fun a => if a == lit "10.0.0.1" then Some false else None.

Definition sample_moment : moment := Moment 0 0 true (fun _ => true) (fun _ => false).
Definition sample_prepare (c : compiled_config) : data_worker_request := WorkerRequest op_prepare 1 0 (Some c) 10.
Definition sample_activate : data_worker_request := WorkerRequest op_activate 1 0 None 10.
(** A fresh worker that prepared the sample and then activated it. *)
Definition sample_history (c : compiled_config) : list (moment * data_worker_request) := [(sample_moment, sample_prepare c); (sample_moment, sample_activate)].
Definition sample_served (c : compiled_config) : worker * list (option data_worker_result) := handle_all (sample_history c) new_worker.
Lemma sample_serves : of_sample (fun c => (map (fmap ok_) (snd (sample_served c)), length (owned_ (fst (sample_served c))))) = Some ([Some true; Some true], 2%nat).
Proof. by vm_compute. Qed.
Lemma handle_refines_witness :
  exists c, compile_config sample_state sample_delivered = Returns c /\ length (owned_ (fst (sample_served c))) = 2%nat /\
    participant_run [sample_prepare c; sample_activate] (view_of new_worker) [Some true; Some true] (view_of (fst (sample_served c))).
Proof.
  destruct (of_sample_spec _ _ sample_serves) as (c & Hc & Hs). cbn beta in Hs. apply pair_equal_spec in Hs as [Hok Hlen]. exists c. split; [exact Hc|]. split; [exact Hlen|].
  rewrite <- Hok. apply (handle_refines (sample_history c)). apply surjective_pairing.
Defined.
End Samples.
