(* ===== verification/StateStore.v ===== *)
(** The local copy of a node's applied state: src/node/runtime/state_store.h over secure_file.h and
    state_cipher.h.

    The disk is a map from paths, relative to the store's directory, to bytes. A file is written
    beside its place and renamed into it, so a write replaces the whole file or nothing; which reads,
    writes and removals fail, and the nonces, are arguments. The cipher and protobuf are interfaces. *)
From S2P Require Import Prelude RoutePolicy RouteMatch OriginSelection MatchList ExpressionProgram SecurityPolicy RouteProgram WebsiteValidation CompiledConfig.
Open Scope Z_scope.

(** SHA-256 and AES-256-GCM of OpenSSL; encryption gives the ciphertext and the tag. *)
Class CipherLibrary := {
  cipher_digest : bytes -> option bytes;
  gcm_encrypt : bytes -> bytes -> bytes -> option (bytes * bytes);
  gcm_decrypt : bytes -> bytes -> bytes -> bytes -> option bytes
}.
Class CipherLaws `{CipherLibrary} := {
  gcm_tag key nonce plaintext ciphertext tag : gcm_encrypt key nonce plaintext = Some (ciphertext, tag) -> length tag = 16%nat;
  gcm_size key nonce plaintext ciphertext tag : gcm_encrypt key nonce plaintext = Some (ciphertext, tag) -> length ciphertext = length plaintext;
  gcm_roundtrip key nonce plaintext ciphertext tag : gcm_encrypt key nonce plaintext = Some (ciphertext, tag) -> gcm_decrypt key nonce ciphertext tag = Some plaintext
}.
(** Protobuf's serialization of [ActiveState] and [DeliveryObject], and its parser. *)
Class StateMessages := {
  serialize_active : active_state -> bytes;
  parse_active : bytes -> option active_state;
  serialize_object : artifact -> bytes;
  parse_stored_object : bytes -> option artifact
}.
Class StateMessagesLaws `{StateMessages} := {
  parse_active_serialize a : parse_active (serialize_active a) = Some a;
  parse_object_serialize o : parse_stored_object (serialize_object o) = Some o
}.

(** * Files *)

Abbreviation disk := (gmap bytes bytes).
(** [stored_state_unusable], or any other [runtime_error]. *)
Inductive store_error := Unusable (message : bytes) | Failure (message : bytes).
Inductive result (A : Type) := Value (a : A) | Error (e : store_error).
Arguments Value {A} a.
Arguments Error {A} e.
Definition result_bind {A B} (x : result A) (f : A -> result B) : result B := match x with Value a => f a | Error e => Error e end.
Definition succeeded {A} (x : result A) : bool := match x with Value _ => true | Error _ => false end.
Record faults := Faults { unreadable : bytes -> bool; unwritable : bytes -> bool; unremovable : bytes -> bool; nonce_of : bytes -> option bytes }.

Definition read_secure_file (io : faults) (path : bytes) (d : disk) : result (option bytes) :=
  if unreadable io path then Error (Failure (lit "could not read secure node state")) else Value (d !! path).
Definition write_secure_file_atomic (io : faults) (path bytes : bytes) (d : disk) : disk * result unit :=
  if unwritable io path then (d, Error (Failure (lit "could not persist secure node state"))) else (<[path := bytes]> d, Value tt).
Definition remove_file (io : faults) (path : bytes) (d : disk) : disk * result unit :=
  if unremovable io path then (d, Error (Failure (lit "filesystem error"))) else (delete path d, Value tt).

(** * The cipher *)

Section Cipher.
Context `{CipherLibrary}.

Definition magic : bytes := lit "FES1".
Definition nonce_size : nat := 12.
Definition tag_size : nat := 16.
Definition too_large (text : bytes) : bool := 2147483647 <? size text.
Definition new_cipher (device_key_material : bytes) : throwing bytes :=
  if empty device_key_material then Throws (lit "node device key material is empty")
  else match cipher_digest (lit "flexedge-node-state-v1:" ++ device_key_material) with Some key => Returns key | None => Throws (lit "could not derive node state key") end.
Definition seal (key : bytes) (nonce : option bytes) (plaintext : bytes) : throwing bytes :=
  match nonce with
  | None => Throws (lit "could not generate node state nonce")
  | Some nonce =>
      if too_large plaintext then Throws (lit "node state is too large")
      else
        match gcm_encrypt key nonce plaintext with
        | None => Throws (lit "could not encrypt node state")
        | Some (ciphertext, tag) => Returns (magic ++ nonce ++ tag ++ ciphertext)
        end
  end.
Definition open_envelope (key envelope : bytes) : throwing bytes :=
  if negb (starts_with envelope magic) || (length envelope <? length magic + nonce_size + tag_size)%nat then Throws (lit "stored node state is not an encrypted v1 envelope")
  else
    let nonce := take nonce_size (drop (length magic) envelope) in
    let tag := take tag_size (drop (length magic + nonce_size) envelope) in
    let ciphertext := drop (length magic + nonce_size + tag_size) envelope in
    if too_large ciphertext then Throws (lit "node state is too large")
    else match gcm_decrypt key nonce ciphertext tag with Some plaintext => Returns plaintext | None => Throws (lit "stored node state authentication failed") end.
End Cipher.

(** * The store *)

Section Store.
Context `{CipherLibrary} `{StateMessages} `{Artifacts}.
Variable key_ : bytes.

Definition active_path : bytes := lit "active/state.pb".
Definition previous_path : bytes := lit "previous/state.pb".
Definition staged_path : bytes := lit "staged/state.pb".
Definition object_path (digest : bytes) : bytes := lit "objects/" ++ digest ++ lit ".pb".

Definition read_encrypted (io : faults) (path : bytes) (d : disk) : result (option bytes) :=
  result_bind (read_secure_file io path d) (fun stored =>
  match stored with
  | None => Value None
  | Some stored => match open_envelope key_ stored with Returns plaintext => Value (Some plaintext) | Throws message => Error (Unusable message) end
  end).
Definition write_encrypted (io : faults) (path bytes : bytes) (d : disk) : disk * result unit :=
  match seal key_ (nonce_of io path) bytes with
  | Throws message => (d, Error (Failure message))
  | Returns sealed => write_secure_file_atomic io path sealed d
  end.

Record persistent_state := PersistentState { active_ : active_state; contents_ : option (node_spec_content * cluster_release); stored_objects_ : list artifact }.
Definition no_state : persistent_state := PersistentState (ActiveState None None) None [].

Definition load_object (io : faults) (digest : bytes) (d : disk) : result (option artifact) :=
  if negb (is_sha256_digest digest) then Error (Failure (lit "invalid release object digest"))
  else
    result_bind (read_encrypted io (object_path digest) d) (fun stored =>
    match stored with
    | None => Value None
    | Some stored =>
        match parse_stored_object stored with
        | Some object =>
            if (digest_sha256 object == digest) && artifact_matches digest (content object) then Value (Some object)
            else Error (Unusable (lit "stored release object " ++ digest ++ lit " failed content verification"))
        | None => Error (Unusable (lit "stored release object " ++ digest ++ lit " failed content verification"))
        end
    end).
Fixpoint load_references (io : faults) (references : list object_reference) (d : disk) : result (list artifact) :=
  match references with
  | [] => Value []
  | reference :: references =>
      let digest := reference_digest reference in
      if negb (is_sha256_digest digest) then Error (Unusable (lit "stored active release references an invalid digest"))
      else
        result_bind (load_object io digest d) (fun object =>
        match object with
        | None => Error (Unusable (lit "stored active release object " ++ digest ++ lit " is missing"))
        | Some object => result_bind (load_references io references d) (fun objects => Value (object :: objects))
        end)
  end.
(** Both parts of a state are set. *)
Definition complete (s : active_state) : bool := present (state_node_spec s) && present (state_release s).
Definition supported (contents : node_spec_content * cluster_release) : bool :=
  (spec_schema_version (fst contents) =? node_spec_schema_version) && supported_cluster_release_schema (release_schema_version (snd contents)).
Definition load (io : faults) (d : disk) : result persistent_state :=
  result_bind (read_encrypted io active_path d) (fun stored =>
  match stored with
  | None => Value no_state
  | Some stored =>
      match parse_active stored with
      | None => Error (Unusable (lit "stored active state is not valid protobuf"))
      | Some active =>
          if negb (complete active) then Error (Unusable (lit "stored active state is incomplete"))
          else
            match open_state active with
            | None => Error (Unusable (lit "stored active state failed content verification"))
            | Some contents =>
                if negb (supported contents) then Value no_state
                else result_bind (load_references io (objects (snd contents)) d) (fun objects => Value (PersistentState active (Some contents) objects))
            end
      end
  end).

(** The file moves to the single previous slot. *)
Definition discard_active (io : faults) (d : disk) : disk * result unit :=
  match read_secure_file io active_path d with
  | Error e => (d, Error e)
  | Value stored =>
      let '(d, written) := match stored with Some stored => write_secure_file_atomic io previous_path stored d | None => (d, Value tt) end in
      match written with Error e => (d, Error e) | Value _ => remove_file io active_path d end
  end.
Definition discard_object (io : faults) (digest : bytes) (d : disk) : disk * result unit :=
  if negb (is_sha256_digest digest) then (d, Error (Failure (lit "invalid release object digest"))) else remove_file io (object_path digest) d.

Fixpoint stage_objects (io : faults) (l : list artifact) (d : disk) : disk * result unit :=
  match l with
  | [] => (d, Value tt)
  | object :: l =>
      if negb (is_sha256_digest (digest_sha256 object)) || negb (artifact_matches (digest_sha256 object) (content object)) then (d, Error (Failure (lit "cannot stage an invalid release object")))
      else
        let '(d, written) := write_encrypted io (object_path (digest_sha256 object)) (serialize_object object) d in
        match written with Error e => (d, Error e) | Value _ => stage_objects io l d end
  end.
Definition stage (io : faults) (active : active_state) (l : list artifact) (d : disk) : disk * result unit :=
  if negb (complete active) then (d, Error (Failure (lit "cannot stage an incomplete node state")))
  else
    let '(d, written) := stage_objects io l d in
    match written with Error e => (d, Error e) | Value _ => write_encrypted io staged_path (serialize_active active) d end.
(** The bytes that were active, for a rollback. *)
Definition activate_staged (io : faults) (d : disk) : disk * result (option bytes) :=
  match read_secure_file io staged_path d with
  | Error e => (d, Error e)
  | Value None => (d, Error (Failure (lit "staged node state does not exist")))
  | Value (Some staged) =>
      match read_secure_file io active_path d with
      | Error e => (d, Error e)
      | Value active =>
          let '(d, kept) := match active with Some active => write_secure_file_atomic io previous_path active d | None => (d, Value tt) end in
          match kept with
          | Error e => (d, Error e)
          | Value _ =>
              let '(d, written) := write_secure_file_atomic io active_path staged d in
              match written with Error e => (d, Error e) | Value _ => (fst (remove_file io staged_path d), Value active) end
          end
      end
  end.
Definition rollback_active (io : faults) (previous : option bytes) (d : disk) : disk * result unit :=
  match previous with Some previous => write_secure_file_atomic io active_path previous d | None => remove_file io active_path d end.
End Store.

(** * What is written is read *)

Section Files.
Context `{CipherLaws}.

(** A nonce fills its array. *)
Definition nonces_fit (io : faults) : Prop := forall path nonce, nonce_of io path = Some nonce -> length nonce = nonce_size.
Lemma open_seal key nonce plaintext envelope : (forall n, nonce = Some n -> length n = nonce_size) ->
  seal key nonce plaintext = Returns envelope -> open_envelope key envelope = Returns plaintext.
Proof.
  unfold seal. destruct nonce as [nonce|]; [|done]. intros Hn. specialize (Hn nonce eq_refl). destruct (too_large plaintext) eqn:El; [done|].
  destruct (gcm_encrypt key nonce plaintext) as [[ciphertext tag]|] eqn:Ee; [|done]. intros E. assert (envelope = magic ++ nonce ++ tag ++ ciphertext) as -> by congruence. clear E. pose proof (gcm_tag _ _ _ _ _ Ee) as Ht. pose proof (gcm_size _ _ _ _ _ Ee) as Hs.
  unfold open_envelope. rewrite starts_with_app. assert (length magic = 4%nat) as Hm by done. rewrite !length_app, Hm, Hn, Ht. unfold nonce_size, tag_size in *.
  destruct (Nat.ltb_spec (4 + (12 + (16 + length ciphertext))) (4 + 12 + 16)); [lia|]. cbn [negb orb]. 
  assert (drop 4 (magic ++ nonce ++ tag ++ ciphertext) = nonce ++ tag ++ ciphertext) as -> by (apply drop_app_length'; lia).
  assert (drop (4 + 12) (magic ++ nonce ++ tag ++ ciphertext) = tag ++ ciphertext) as -> by (rewrite app_assoc; apply drop_app_length'; rewrite length_app; lia).
  assert (drop (4 + 12 + 16) (magic ++ nonce ++ tag ++ ciphertext) = ciphertext) as -> by (rewrite !app_assoc; apply drop_app_length'; rewrite !length_app; lia).
  rewrite (take_app_length' nonce), (take_app_length' tag) by lia. unfold too_large, size in *. rewrite Hs, El. by rewrite (gcm_roundtrip _ _ _ _ _ Ee).
Qed.

Variable key_ : bytes.
Lemma write_encrypted_spec io path text d d' r : write_encrypted key_ io path text d = (d', r) ->
  (forall other, other <> path -> d' !! other = d !! other) /\ match r with Value _ => exists sealed, seal key_ (nonce_of io path) text = Returns sealed /\ d' !! path = Some sealed | Error _ => d' = d end.
Proof.
  unfold write_encrypted. destruct (seal key_ (nonce_of io path) text) as [sealed|m]; [|by intros [= <- <-]]. unfold write_secure_file_atomic. destruct (unwritable io path); intros [= <- <-]; [done|].
  split; [intros other Ho; by rewrite lookup_insert_ne by done|]. exists sealed. by rewrite lookup_insert_eq.
Qed.
Lemma read_sealed io io' path text sealed d : nonces_fit io -> unreadable io' path = false -> seal key_ (nonce_of io path) text = Returns sealed -> d !! path = Some sealed ->
  read_encrypted key_ io' path d = Value (Some text).
Proof. intros Hn Hr Hs Hd. unfold read_encrypted, read_secure_file. rewrite Hr. cbn [result_bind]. rewrite Hd. by rewrite (open_seal _ _ _ _ (Hn path) Hs). Qed.
End Files.

(** * Paths *)

Section Paths.
Lemma object_path_inj a b : object_path a = object_path b -> a = b.
Proof. unfold object_path. by intros ?%app_inv_head%app_inv_tail. Qed.
Lemma object_path_other digest : object_path digest <> active_path /\ object_path digest <> previous_path /\ object_path digest <> staged_path.
Proof. by split_and!. Qed.
Lemma state_paths : active_path <> previous_path /\ active_path <> staged_path /\ previous_path <> staged_path.
Proof. by split_and!. Qed.
End Paths.

Section Stored.
Context `{CipherLaws} `{!StateMessages} `{!StateMessagesLaws} `{Artifacts}.
Variable key_ : bytes.

(** The files a load reads. *)
Definition same_files (d d' : disk) : Prop := d' !! active_path = d !! active_path /\ forall digest, d' !! object_path digest = d !! object_path digest.
Lemma read_encrypted_same io path d d' : d' !! path = d !! path -> read_encrypted key_ io path d' = read_encrypted key_ io path d.
Proof. intros E. unfold read_encrypted, read_secure_file. by rewrite E. Qed.
Lemma load_references_same io l d d' : (forall r, r ∈ l -> load_object key_ io (reference_digest r) d' = load_object key_ io (reference_digest r) d) ->
  load_references key_ io l d' = load_references key_ io l d.
Proof.
  induction l as [|r l IH]; intros E; cbn [load_references]; [done|]. destruct (negb _); [done|]. rewrite (E r) by (by left).
  destruct (load_object key_ io (reference_digest r) d) as [[o|]|]; cbn [result_bind]; [|done..]. rewrite IH; [done|]. intros r' Hr'. apply E. by right.
Qed.
Lemma load_same io d d' : same_files d d' -> load key_ io d' = load key_ io d.
Proof.
  intros [Ha Ho]. unfold load. rewrite (read_encrypted_same _ _ d d' Ha). destruct (read_encrypted key_ io active_path d) as [[stored|]|]; cbn [result_bind]; [|done..].
  destruct (parse_active stored) as [active|]; [|done]. destruct (negb _); [done|]. destruct (open_state active) as [contents|]; [|done]. destruct (negb _); [done|].
  rewrite (load_references_same io _ d d'); [done|]. intros r _. unfold load_object. by rewrite (read_encrypted_same _ _ d d' (Ho _)).
Qed.

(** A stored object: what a load of its digest gives. *)
Lemma load_object_spec io digest d o : load_object key_ io digest d = Value (Some o) -> is_sha256_digest digest = true /\ digest_sha256 o = digest /\ artifact_digest (content o) = digest.
Proof.
  unfold load_object. destruct (negb (is_sha256_digest digest)) eqn:E; [done|]. apply negb_false_iff in E. destruct (read_encrypted _ _ _ _) as [[stored|]|]; cbn [result_bind]; [|done..].
  destruct (parse_stored_object stored) as [x|]; [|done]. destruct (_ && _) eqn:Ex; [|done]. intros [= ->]. apply andb_true_iff in Ex as [Hd%bool_decide_eq_true Hm%bool_decide_eq_true]. done.
Qed.
Definition object_fits (o : artifact) : Prop := is_sha256_digest (digest_sha256 o) = true /\ artifact_digest (content o) = digest_sha256 o.
Lemma load_object_read io o d : object_fits o -> read_encrypted key_ io (object_path (digest_sha256 o)) d = Value (Some (serialize_object o)) -> load_object key_ io (digest_sha256 o) d = Value (Some o).
Proof.
  intros [Hd Hm] E. unfold load_object. rewrite Hd, E. cbn [negb result_bind]. rewrite parse_object_serialize. unfold artifact_matches. rewrite !bool_decide_eq_true_2 by done. done.
Qed.

(** Staging writes objects, each under its own name and whole, and the staged state. *)
Definition staged_by (io : faults) (l : list artifact) (d d' : disk) : Prop :=
  (forall path, (forall o, o ∈ l -> path <> object_path (digest_sha256 o)) -> d' !! path = d !! path) /\
  (forall digest, d' !! object_path digest = d !! object_path digest \/
     exists o sealed, o ∈ l /\ object_fits o /\ digest_sha256 o = digest /\ seal key_ (nonce_of io (object_path digest)) (serialize_object o) = Returns sealed /\ d' !! object_path digest = Some sealed).
Lemma stage_objects_spec io l : forall d d' r, stage_objects key_ io l d = (d', r) ->
  staged_by io l d d' /\
  (succeeded r = true -> forall o, o ∈ l -> exists o' sealed, o' ∈ l /\ object_fits o' /\ digest_sha256 o' = digest_sha256 o /\
     seal key_ (nonce_of io (object_path (digest_sha256 o))) (serialize_object o') = Returns sealed /\ d' !! object_path (digest_sha256 o) = Some sealed).
Proof.
  induction l as [|x l IH]; intros d d' r; cbn [stage_objects].
  { intros [= <- <-]. split; [split; auto|]. by intros _ o []%not_elem_of_nil. }
  destruct (negb (is_sha256_digest _) || _) eqn:Ev; [intros [= <- <-]; split; [split; auto|done]|].
  apply orb_false_iff in Ev as [Ed%negb_false_iff Em%negb_false_iff%bool_decide_eq_true].
  destruct (write_encrypted key_ io _ _ d) as [d1 w] eqn:Ew. apply write_encrypted_spec in Ew as [Hother Hw]. destruct w as [u|e].
  2:{ intros [= <- <-]. subst d1. split; [split; auto|done]. }
  destruct Hw as (sealed & Hseal & Hat). intros Hl. apply IH in Hl as [[Hframe Hobj] Hall].
  assert (forall digest, d' !! object_path digest = d !! object_path digest \/
     exists o sealed, o ∈ x :: l /\ object_fits o /\ digest_sha256 o = digest /\ seal key_ (nonce_of io (object_path digest)) (serialize_object o) = Returns sealed /\ d' !! object_path digest = Some sealed) as Hobj'.
  { intros digest. destruct (Hobj digest) as [E|(o & s & Ho & Hfit & Hdg & Hs & Hd)]; [|right; exists o, s; split_and!; try done; by right].
    destruct (decide (digest = digest_sha256 x)) as [->|Hne]; [right; exists x, sealed; split_and!; [by left|by split|done|done|by rewrite E]|left].
    rewrite E. apply Hother. by intros ?%object_path_inj. }
  split; [split; [|done]|].
  - intros path Hp. rewrite Hframe, Hother; [done| |]; [apply Hp; by left|]. intros o Ho. apply Hp. by right.
  - intros Hr o [->|Ho]%elem_of_cons.
    + destruct (Hobj (digest_sha256 x)) as [E|(o & s & Ho & Hfit & Hdg & Hs & Hd)]; [exists x, sealed; split_and!; [by left|by split|done|done|by rewrite E]|].
      exists o, s. split_and!; try done. by right.
    + destruct (Hall Hr o Ho) as (o' & s & Ho' & Hrest). exists o', s. split; [by right|exact Hrest].
Qed.

Lemma activate_staged_spec io d d' r : activate_staged io d = (d', r) ->
  (forall digest, d' !! object_path digest = d !! object_path digest) /\
  match r with Value previous => previous = d !! active_path /\ d' !! active_path = d !! staged_path /\ is_Some (d !! staged_path) | Error _ => d' !! active_path = d !! active_path end.
Proof.
  unfold activate_staged, read_secure_file. destruct (unreadable io staged_path); [by intros [= <- <-]|]. destruct (d !! staged_path) as [staged|] eqn:Es; [|by intros [= <- <-]].
  destruct (unreadable io active_path); [by intros [= <- <-]|].
  set (kept := match d !! active_path with Some _ => _ | None => _ end). destruct kept as [d1 k] eqn:Ek.
  assert (d1 !! active_path = d !! active_path /\ forall digest, d1 !! object_path digest = d !! object_path digest) as [Ha Ho].
  { subst kept. destruct (d !! active_path) as [active|] eqn:Ea; [|by injection Ek as <- <-]. unfold write_secure_file_atomic in Ek. destruct (unwritable io previous_path); injection Ek as <- <-; [done|].
    split; [|intros digest]; by rewrite lookup_insert_ne by done. }
  destruct k; [|by intros [= <- <-]]. unfold write_secure_file_atomic. destruct (unwritable io active_path); intros E; injection E as <- <-; [done|]. unfold remove_file.
  destruct (unremovable io staged_path); cbn [fst]; (split; [intros digest|split; [done|split; [|by eexists]]]); rewrite ?lookup_delete_ne by done; by rewrite ?lookup_insert_eq, ?lookup_insert_ne by done.
Qed.
Lemma rollback_active_spec io previous d d' r : rollback_active io previous d = (d', r) ->
  (forall digest, d' !! object_path digest = d !! object_path digest) /\ match r with Value _ => d' !! active_path = previous | Error _ => d' = d end.
Proof.
  unfold rollback_active, write_secure_file_atomic, remove_file. destruct previous as [previous|]; [destruct (unwritable io active_path)|destruct (unremovable io active_path)]; intros E; injection E as <- <-; try done;
    (split; [intros digest|]); by rewrite ?lookup_insert_eq, ?lookup_delete_eq, ?lookup_insert_ne, ?lookup_delete_ne by done.
Qed.
Lemma stage_spec io s l d d' r : stage key_ io s l d = (d', r) ->
  staged_by io l d d' \/ exists d1, staged_by io l d d1 /\ (forall path, path <> staged_path -> d' !! path = d1 !! path) /\
    (succeeded r = true -> exists sealed, seal key_ (nonce_of io staged_path) (serialize_active s) = Returns sealed /\ d' !! staged_path = Some sealed).
Proof.
  unfold stage. destruct (negb (complete s)); [intros [= <- <-]; left; split; auto|]. destruct (stage_objects key_ io l d) as [d1 w] eqn:E. apply stage_objects_spec in E as [Hs _].
  destruct w; [|intros [= <- <-]; by left]. intros (Hother & Hr)%write_encrypted_spec. right. exists d1. split_and!; [done|done|]. by destruct r.
Qed.
Lemma stage_keeps_files io s l d d' r : stage key_ io s l d = (d', r) ->
  d' !! active_path = d !! active_path /\
  forall digest, d' !! object_path digest = d !! object_path digest \/
    exists o sealed, o ∈ l /\ object_fits o /\ digest_sha256 o = digest /\ seal key_ (nonce_of io (object_path digest)) (serialize_object o) = Returns sealed /\ d' !! object_path digest = Some sealed.
Proof.
  intros [[Hf Ho]|(d1 & [Hf Ho] & Hd & _)]%stage_spec; [split; [by apply Hf|exact Ho]|]. split; [rewrite Hd by done; by apply Hf|].
  intros digest. rewrite Hd by done. exact (Ho digest).
Qed.

Lemma load_references_spec io l d : forall os, load_references key_ io l d = Value os <->
  Forall2 (fun r o => is_sha256_digest (reference_digest r) = true /\ load_object key_ io (reference_digest r) d = Value (Some o)) l os.
Proof.
  induction l as [|r l IH]; intros os; cbn [load_references].
  - split; [intros [= <-]; constructor|intros Hf; by inversion Hf].
  - split.
    + destruct (negb _) eqn:Ed; [done|]. apply negb_false_iff in Ed. destruct (load_object _ _ _ _) as [[o|]|] eqn:Eo; cbn [result_bind]; [|done..].
      destruct (load_references key_ io l d) as [os'|] eqn:El; cbn [result_bind]; [|done]. intros [= <-]. constructor; [done|]. by apply IH.
    + intros Hf. inversion Hf as [|? o ? os' [Hd Ho] Hrest E1 E2]; subst. rewrite Hd, Ho. cbn [negb result_bind]. apply IH in Hrest as ->. done.
Qed.

(** A load depends on the active file and on the objects of its release. *)
Lemma load_frame io d d' p : load key_ io d = Value p -> d' !! active_path = d !! active_path ->
  (forall digest o, (o ∈ stored_objects_ p -> load_object key_ io digest d = Value (Some o) -> load_object key_ io digest d' = Value (Some o))) -> load key_ io d' = Value p.
Proof.
  intros Hload Ha Ho. unfold load in *. rewrite (read_encrypted_same _ _ d d' Ha). destruct (read_encrypted key_ io active_path d) as [[stored|]|]; cbn [result_bind] in *; [|done..].
  destruct (parse_active stored) as [active|]; [|done]. destruct (negb (complete active)); [done|]. destruct (open_state active) as [contents|]; [|done]. destruct (negb (supported contents)); [done|].
  destruct (load_references key_ io _ d) as [os|] eqn:El; [|done]. cbn [result_bind] in *. injection Hload as <-. cbn [stored_objects_] in Ho.
  enough (load_references key_ io (objects (snd contents)) d' = Value os) as -> by done. apply load_references_spec in El. apply load_references_spec.
  clear Ha. revert Ho. induction El as [|reference o references os [Hd Hl] El IH]; intros Ho; constructor; [|apply IH; intros; apply Ho; [by right|done]].
  split; [exact Hd|]. apply Ho; [by left|exact Hl].
Qed.
(** No two different contents of one digest meet. *)
Definition collision_free (l l' : list artifact) : Prop := forall o o', o ∈ l -> o' ∈ l' -> artifact_digest (content o) = artifact_digest (content o') -> content o = content o'.
Lemma load_staged io io0 s l d d' r p : nonces_fit io -> stage key_ io s l d = (d', r) -> load key_ io0 d = Value p ->
  collision_free l (stored_objects_ p) -> load key_ io0 d' = Value p.
Proof.
  intros Hn (Ha & Ho)%stage_keeps_files Hload Hsame. apply (load_frame _ d); [done..|]. intros digest o Hin Hl.
  destruct (load_object_spec _ _ _ _ Hl) as (Hd & Hdo & Hco). destruct (Ho digest) as [E|(x & sealed & Hx & Hfit & Hdx & Hseal & Hat)].
  - unfold load_object in *. by rewrite (read_encrypted_same _ _ d d' E).
  - assert (x = o) as ->. { pose proof (Hsame x o Hx Hin ltac:(destruct Hfit; congruence)). destruct x, o; cbn in *; congruence. }
    rewrite <- Hdx. apply load_object_read; [exact Hfit|]. rewrite Hdx. apply (read_sealed key_ io io0 _ _ sealed); [done| |done|done].
    unfold load_object in Hl. rewrite Hd in Hl. unfold read_encrypted, read_secure_file in Hl. cbn [negb] in Hl. by destruct (unreadable io0 (object_path digest)).
Qed.

(** C10. An apply that fails leaves the applied state as it was: whatever fails, and wherever - in
    the middle of the staged objects, between the two writes of the activation, before the decision of
    the workers - a later start loads the same state with the same objects, once the active file is
    rolled back where it was replaced. Staging may rewrite an object that the applied state uses, but
    only with content of the same digest. *)
Theorem failed_apply_keeps_state io0 io io1 io2 s l d d1 r1 d2 r2 p :
  nonces_fit io -> load key_ io0 d = Value p ->
  collision_free l (stored_objects_ p) ->
  stage key_ io s l d = (d1, r1) -> activate_staged io1 d1 = (d2, r2) ->
  load key_ io0 d1 = Value p /\
  match r2 with
  | Error _ => load key_ io0 d2 = Value p
  | Value previous => forall d3 u, rollback_active io2 previous d2 = (d3, Value u) -> load key_ io0 d3 = Value p
  end.
Proof.
  intros Hn Hload Hsame Hstage Hactivate. pose proof (load_staged _ _ _ _ _ _ _ _ Hn Hstage Hload Hsame) as H1'. split; [exact H1'|].
  apply activate_staged_spec in Hactivate as [Ho Hr]. destruct r2 as [previous|e].
  - intros d3 u [Ho' Ha']%rollback_active_spec. destruct Hr as (-> & _). rewrite <- H1'. apply load_same. split; [done|]. intros digest. by rewrite Ho'.
  - rewrite <- H1'. by apply load_same.
Qed.
End Stored.

(** * A restart *)

Section Restart.
Context `{CipherLaws} `{!StateMessages} `{!StateMessagesLaws} `{Artifacts} `{ManagedDetectors} `{Re2} `{MatchList.Asio} `{SecurityLibraries}.
Variable key_ : bytes.

Lemma open_config_complete s contents : open_config_state s = Returns contents -> complete s = true /\ open_state s = Some contents /\ supported contents = true.
Proof.
  unfold open_config_state, complete. destruct (negb (present (state_node_spec s)) || _) eqn:Ep; [done|]. apply orb_false_iff in Ep as [Ha%negb_false_iff Hb%negb_false_iff].
  destruct (open_state s) as [[spec release]|]; [|done]. destruct (_ || (spec_revision spec <=? 0)) eqn:E1; [done|]. destruct (_ || empty (access_domain release)) eqn:E2; [done|].
  intros (_ & _ & [= <-])%throwing_bind_returns. rewrite Ha, Hb. split; [done|]. split; [done|]. unfold supported. cbn [fst snd].
  rewrite !orb_false_iff, !negb_false_iff in E1, E2. by rewrite (proj2 (proj1 E1)), (proj2 (proj1 E2)).
Qed.
(** What a configuration was compiled from can be stored: every object once, under its digest. *)
Lemma compiled_objects s l c : compile_config s l = Returns c ->
  NoDup (map digest_sha256 l) /\ Forall object_fits l /\ map digest_sha256 l ≡ₚ map reference_digest (objects (release_ c)).
Proof.
  intros (i & (expected & [Hnd _ Hver _] & Hsha & Hperm)%indexed_objects & _)%compile_config_parts. split; [exact Hnd|]. split; [|exact Hperm].
  eapply Forall_impl; [exact Hver|]. intros o (Hd & [kind Hk] & _). split; [by apply Hsha in Hk|exact Hd].
Qed.
Lemma objects_by_digest l a b : NoDup (map digest_sha256 l) -> a ∈ l -> b ∈ l -> digest_sha256 a = digest_sha256 b -> a = b.
Proof.
  intros Hnd [i Hi]%list_elem_of_lookup [j Hj]%list_elem_of_lookup E. assert (i = j) as <-; [|congruence].
  apply (NoDup_lookup (map digest_sha256 l) i j (digest_sha256 a) Hnd); rewrite list_lookup_fmap; [by rewrite Hi|rewrite Hj; cbn; by f_equal].
Qed.

(** What a node applied is what it serves again after a restart: a state that compiled, was
    staged and was activated is loaded as the same state, with the contents the configuration was
    compiled from and the same objects - decrypted, parsed and verified again - in the order of the
    manifest. *)
Lemma staged_state_loads io io1 io2 s l c d d1 d2 previous :
  compile_config s l = Returns c -> nonces_fit io -> stage key_ io s l d = (d1, Value tt) -> activate_staged io1 d1 = (d2, Value previous) ->
  (forall path, unreadable io2 path = false) ->
  previous = d !! active_path /\ exists os, load key_ io2 d2 = Value (PersistentState s (Some (node_spec_ c, release_ c)) os) /\ os ≡ₚ l /\ map digest_sha256 os = map reference_digest (objects (release_ c)).
Proof.
  intros Hc Hn Hstage Hactivate Hread. pose proof (compiled_objects _ _ _ Hc) as (Hnd & Hfit & Hperm). apply compile_config_parts in Hc as (_ & _ & _ & _ & _ & _ & (Hcomplete & Hopen & Hsup)%open_config_complete & _).
  pose proof (stage_keeps_files _ _ _ _ _ _ _ Hstage) as [Hactive _]. apply activate_staged_spec in Hactivate as (Hobjects & -> & Ha & _). split; [exact Hactive|].
  unfold stage in Hstage. rewrite Hcomplete in Hstage. cbn [negb] in Hstage. destruct (stage_objects key_ io l d) as [dm w] eqn:El. apply stage_objects_spec in El as [_ Hall]. destruct w; [|done].
  apply write_encrypted_spec in Hstage as (Hother & sealed & Hseal & Hat). specialize (Hall eq_refl).
  assert (forall o, o ∈ l -> load_object key_ io2 (digest_sha256 o) d2 = Value (Some o)) as Hloads.
  { intros o Ho. destruct (Hall o Ho) as (o' & sealed' & Ho' & Hfit' & Hd & Hs & Hat'). pose proof (objects_by_digest l o' o Hnd Ho' Ho Hd) as ->.
    apply load_object_read; [exact Hfit'|]. apply (read_sealed key_ io io2 _ _ sealed'); [done|done|done|]. rewrite Hobjects, Hother by done. exact Hat'. }
  apply Permutation_sym in Hperm. destruct (Permutation_map_inv _ _ Hperm) as (os & Hdigests & Hos). exists os. split; [|split; [by symmetry|by symmetry]].
  unfold load, read_encrypted, read_secure_file. rewrite Hread. cbn [result_bind]. rewrite Ha, Hat, (open_seal _ _ _ _ (Hn staged_path) Hseal). cbn [result_bind].
  rewrite parse_active_serialize, Hcomplete, Hopen, Hsup. cbn [negb snd]. enough (load_references key_ io2 (objects (release_ c)) d2 = Value os) as -> by done.
  apply load_references_spec. assert (forall o, o ∈ os -> o ∈ l) as Hin by (intros o; by rewrite Hos). clear -Hdigests Hloads Hin Hfit. revert os Hdigests Hin.
  induction (objects (release_ c)) as [|reference references IH]; intros os Hd Hin; destruct os as [|o os]; cbn [map] in Hd; [constructor|done|done|].
  injection Hd as Hd Hrest. constructor; [|apply IH; [exact Hrest|intros; apply Hin; by right]]. assert (o ∈ l) as Ho by (apply Hin; by left). rewrite Hd. split; [|by apply Hloads].
  rewrite Forall_forall in Hfit. by apply Hfit in Ho as [? _].
Qed.
End Restart.

(** * Witnesses *)

Section Samples.
#[local] Existing Instance text_engine.
#[local] Existing Instance MatchList.dotted_quads.
#[local] Existing Instance sample_libraries.
#[local] Existing Instance sample_artifacts.
#[local] Existing Instance sample_detectors.

(** A cipher that seals nothing, and messages whose bytes are marked one by one. *)
#[local] Instance sample_cipher : CipherLibrary := {| cipher_digest b := Some b; gcm_encrypt key nonce plaintext := Some (plaintext, replicate 16 "t"%char); gcm_decrypt key nonce ciphertext tag := Some ciphertext |}.
#[local] Instance sample_cipher_laws : CipherLaws.
Proof. split; [by intros ????? [= <- <-]|by intros ????? [= <- <-]|by intros ????? [= <- <-]]. Qed.
Fixpoint mark (text : bytes) : bytes := match text with [] => ["e"%char] | c :: text => "x"%char :: c :: mark text end.
Fixpoint unmark (text : bytes) : option (bytes * bytes) :=
  match text with
  | "e"%char :: rest => Some ([], rest)
  | "x"%char :: c :: text => '(value, rest) ← unmark text; Some (c :: value, rest)
  | _ => None
  end.
Lemma unmark_mark text rest : unmark (mark text ++ rest) = Some (text, rest).
Proof. induction text as [|c text IH]; [done|]. cbn [mark app unmark]. by rewrite IH. Qed.
Definition mark_artifact (a : artifact) : bytes := mark (digest_sha256 a) ++ mark (content a).
Definition unmark_artifact (text : bytes) : option (artifact * bytes) := '(digest, text) ← unmark text; '(content, text) ← unmark text; Some (Artifact digest content, text).
Lemma unmark_artifact_mark a rest : unmark_artifact (mark_artifact a ++ rest) = Some (a, rest).
Proof. unfold unmark_artifact, mark_artifact. rewrite <- app_assoc, unmark_mark. cbn [mbind option_bind]. rewrite unmark_mark. by destruct a. Qed.
Definition mark_part (a : option artifact) : bytes := match a with None => ["n"%char] | Some a => "s"%char :: mark_artifact a end.
Definition unmark_part (text : bytes) : option (option artifact * bytes) :=
  match text with "n"%char :: rest => Some (None, rest) | "s"%char :: text => '(a, rest) ← unmark_artifact text; Some (Some a, rest) | _ => None end.
Lemma unmark_part_mark a rest : unmark_part (mark_part a ++ rest) = Some (a, rest).
Proof. destruct a as [a|]; [|done]. cbn [mark_part app unmark_part]. by rewrite unmark_artifact_mark. Qed.
#[local] Instance sample_messages : StateMessages := {|
  serialize_active s := mark_part (state_node_spec s) ++ mark_part (state_release s);
  parse_active text := '(a, text) ← unmark_part text; '(b, _) ← unmark_part text; Some (ActiveState a b);
  serialize_object := mark_artifact;
  parse_stored_object text := fst <$> unmark_artifact text |}.
#[local] Instance sample_messages_laws : StateMessagesLaws.
Proof.
  split.
  - intros [a b]. cbn. rewrite unmark_part_mark. cbn [mbind option_bind]. pose proof (unmark_part_mark b []) as E. rewrite app_nil_r in E. by rewrite E.
  - intros o. change (fst <$> unmark_artifact (mark_artifact o) = Some o). pose proof (unmark_artifact_mark o []) as E. rewrite app_nil_r in E. by rewrite E.
Qed.

Definition no_faults : faults := Faults (fun _ => false) (fun _ => false) (fun _ => false) (fun _ => Some (replicate 12 "n"%char)).
Definition no_activation : faults := Faults (fun _ => false) (fun path => path == active_path) (fun _ => false) (fun _ => Some (replicate 12 "n"%char)).
Lemma no_faults_nonces : nonces_fit no_faults.
Proof. by intros path nonce [= <-]. Qed.
Definition sample_key : bytes := lit "key".
Definition sample_staged : disk * result unit := stage sample_key no_faults sample_state sample_delivered ∅.
Definition sample_applied : disk * result (option bytes) := activate_staged no_faults (fst sample_staged).
Lemma sample_store_works : snd sample_staged = Value tt /\ snd sample_applied = Value None.
Proof. by vm_compute. Qed.
Lemma sample_staged_eq : sample_staged = (fst sample_staged, Value tt).
Proof. rewrite <- (proj1 sample_store_works). apply surjective_pairing. Qed.
Lemma sample_applied_eq : sample_applied = (fst sample_applied, Value None).
Proof. rewrite <- (proj2 sample_store_works). apply surjective_pairing. Qed.

Lemma staged_state_loads_example :
  exists c os, compile_config sample_state sample_delivered = Returns c /\
    load sample_key no_faults (fst sample_applied) = Value (PersistentState sample_state (Some (node_spec_ c, release_ c)) os) /\ os ≡ₚ sample_delivered.
Proof.
  destruct (of_sample_spec config_enabled true ltac:(by vm_compute)) as (c & Hc & _).
  destruct (staged_state_loads sample_key no_faults no_faults no_faults sample_state sample_delivered c ∅ _ _ _ Hc no_faults_nonces sample_staged_eq sample_applied_eq ltac:(done)) as (_ & os & Hload & Hos & _).
  exists c, os. auto.
Defined.

(** The same state again, on a disk that refuses the active file. *)
Definition sample_restaged : disk * result unit := stage sample_key no_faults sample_state [sealed "4"] (fst sample_applied).
Definition sample_refused : disk * result (option bytes) := activate_staged no_activation (fst sample_restaged).
Definition objects_of (r : result persistent_state) : option (list artifact) := match r with Value p => Some (stored_objects_ p) | Error _ => None end.
Lemma sample_objects : objects_of (load sample_key no_faults (fst sample_applied)) = Some [sealed "3"; sealed "4"].
Proof. by vm_compute. Qed.
Lemma sample_refuses : succeeded (snd sample_refused) = false.
Proof. by vm_compute. Qed.
Lemma failed_apply_keeps_state_witness :
  exists p, load sample_key no_faults (fst sample_applied) = Value p /\ succeeded (snd sample_refused) = false /\ load sample_key no_faults (fst sample_refused) = Value p.
Proof.
  pose proof sample_objects as Hos. destruct (load sample_key no_faults (fst sample_applied)) as [p|] eqn:El; [|done]. cbn [objects_of] in Hos. injection Hos as Hos.
  exists p. split; [done|]. split; [exact sample_refuses|].
  destruct (failed_apply_keeps_state sample_key no_faults no_faults no_activation no_faults sample_state [sealed "4"] (fst sample_applied) (fst sample_restaged) (snd sample_restaged) (fst sample_refused) (snd sample_refused) p no_faults_nonces El) as [_ Hr].
  - intros o o' ->%list_elem_of_singleton. rewrite Hos. intros [->| ->%list_elem_of_singleton]%elem_of_cons; [|done]. intros E. exfalso. revert E. by vm_compute.
  - apply surjective_pairing.
  - apply surjective_pairing.
  - pose proof sample_refuses as Hs. destruct (snd sample_refused); [done|exact Hr].
Defined.
End Samples.
