(* ===== verification/DesiredState.v ===== *)
(** The state a node is told to apply, and the one it restores: receive_desired_state,
    load_cached_object and restore_persisted_state of src/node/control/control_channel.h.

    The objects of a release are taken from the local copies that verify, the others are asked for
    in batches; what the service answers is an argument. *)
From S2P Require Import Prelude RoutePolicy RouteMatch OriginSelection MatchList ExpressionProgram SecurityPolicy RouteProgram WebsiteValidation CompiledConfig StateStore.
Open Scope Z_scope.

Section Desired.
Context `{CipherLibrary} `{StateMessages} `{Artifacts}.
Variable key_ : bytes.
(** What the standard leaves of an object that was moved from. *)
Variable moved_from : artifact.

(** An unusable copy is removed, to be fetched again; the flag says so. *)
Definition load_cached_object (io : faults) (digest : bytes) (d : disk) : disk * result (option artifact * bool) :=
  match load_object key_ io digest d with
  | Value object => (d, Value (object, false))
  | Error (Failure message) => (d, Error (Failure message))
  | Error (Unusable _) => let '(d, r) := discard_object io digest d in (d, result_bind r (fun _ => Value (None, true)))
  end.
Record collected := Collected { by_digest : gmap bytes artifact; missing : list bytes; discarded_objects : Z }.
Definition emplace_object (digest : bytes) (object : artifact) (m : gmap bytes artifact) : gmap bytes artifact := if present (m !! digest) then m else <[digest := object]> m.
Fixpoint collect_cached (io : faults) (references : list object_reference) (d : disk) (c : collected) : disk * result collected :=
  match references with
  | [] => (d, Value c)
  | reference :: references =>
      let digest := reference_digest reference in
      let '(d, r) := load_cached_object io digest d in
      match r with
      | Error e => (d, Error e)
      | Value (object, discarded) =>
          let count := discarded_objects c + (if discarded then 1 else 0) in
          collect_cached io references d
            match object with
            | Some object => Collected (emplace_object digest object (by_digest c)) (missing c) count
            | None => Collected (by_digest c) (missing c ++ [digest]) count
            end
      end
  end.

Fixpoint add_objects (l : list artifact) (m : gmap bytes artifact) : result (gmap bytes artifact) :=
  match l with
  | [] => Value m
  | object :: l =>
      if present (m !! digest_sha256 object) then Error (Failure (lit "control plane returned a duplicate release object"))
      else add_objects l (<[digest_sha256 object := object]> m)
  end.
(** Requests of 64 digests; [answers] is the batch of the release that answers the n-th, if one does. *)
Fixpoint fetch_objects (fuel : nat) (answers : nat -> list bytes -> option (list artifact)) (n : nat) (digests : list bytes) (m : gmap bytes artifact) : result (gmap bytes artifact) :=
  match fuel, digests with
  | O, _ | _, [] => Value m
  | S fuel, _ =>
      match answers n (take 64 digests) with
      | None => Error (Failure (lit "control plane did not return requested objects"))
      | Some l => result_bind (add_objects l m) (fetch_objects fuel answers (S n) (drop 64 digests))
      end
  end.
(** In the order of the manifest. *)
Fixpoint ordered_objects (references : list object_reference) (m : gmap bytes artifact) : result (list artifact) :=
  match references with
  | [] => Value []
  | reference :: references =>
      match m !! reference_digest reference with
      | None => Error (Failure (lit "control plane omitted a requested release object"))
      | Some object => result_bind (ordered_objects references (<[reference_digest reference := moved_from]> m)) (fun l => Value (object :: l))
      end
  end.
Definition receive_objects (io : faults) (answers : nat -> list bytes -> option (list artifact)) (release : cluster_release) (d : disk) : disk * result (list artifact) :=
  let '(d, r) := collect_cached io (objects release) d (Collected ∅ [] 0) in
  (d, result_bind r (fun c => result_bind (fetch_objects (length (missing c)) answers 0 (missing c) (by_digest c)) (ordered_objects (objects release)))).
(** A desired state and the objects of its release, to be applied. *)
Definition receive_desired_state (io : faults) (answers : nat -> list bytes -> option (list artifact)) (node : bytes) (desired : active_state) (d : disk) : disk * result (list artifact) :=
  match open_state desired with
  | None => (d, Error (Failure (lit "control plane sent invalid desired state")))
  | Some (spec, release) => if node_id spec != node then (d, Error (Failure (lit "control plane sent invalid desired state"))) else receive_objects io answers release d
  end.
End Desired.

Section Restore.
Context `{CipherLibrary} `{StateMessages} `{Artifacts} `{ManagedDetectors} `{Re2} `{MatchList.Asio} `{SecurityLibraries}.
Variable key_ : bytes.

Definition discard_unusable (io : faults) (startup_pending : bool) (message : bytes) (d : disk) : disk * result (option compiled_config) :=
  if startup_pending then (d, Error (Unusable message)) else let '(d, r) := discard_active io d in (d, result_bind r (fun _ => Value None)).
(** The configuration of the stored state, to be activated; a state this build cannot use is moved aside. *)
Definition restore_persisted_state (io : faults) (startup_pending : bool) (d : disk) : disk * result (option compiled_config) :=
  match load key_ io d with
  | Value p =>
      if present (state_node_spec (active_ p)) then
        match compile_config (active_ p) (stored_objects_ p) with
        | Returns c => (d, Value (Some c))
        | Throws message => discard_unusable io startup_pending (lit "stored active state does not compile: " ++ message) d
        end
      else (d, Value None)
  | Error (Unusable message) => discard_unusable io startup_pending message d
  | Error (Failure message) => (d, Error (Failure message))
  end.
End Restore.

(** * The objects come in the order of the manifest *)

Section Received.
Context `{CipherLibrary} `{StateMessages} `{Artifacts}.
Variable key_ : bytes.
Variable moved_from : artifact.

Definition keyed (m : gmap bytes artifact) : Prop := forall digest o, m !! digest = Some o -> digest_sha256 o = digest.
Lemma keyed_emplace m o : keyed m -> keyed (emplace_object (digest_sha256 o) o m).
Proof. intros Hm. unfold emplace_object. destruct (present _); [done|]. intros digest x [[<- <-]|[_ Hx]]%lookup_insert_Some; [done|by apply Hm]. Qed.
Lemma collect_keyed io references : forall d c d' c', keyed (by_digest c) -> collect_cached key_ io references d c = (d', Value c') -> keyed (by_digest c').
Proof.
  induction references as [|reference references IH]; intros d c d' c' Hc; cbn [collect_cached]; [by intros [= <- <-]|].
  unfold load_cached_object. destruct (load_object key_ io (reference_digest reference) d) as [[o|]|[m|m]] eqn:El; [| | |done].
  - apply IH. cbn [by_digest]. apply load_object_spec in El as (_ & <- & _). by apply keyed_emplace.
  - by apply IH.
  - destruct (discard_object io (reference_digest reference) d) as [d1 [u|e]]; [|done]. by apply IH.
Qed.
Lemma add_keyed l : forall m m', keyed m -> add_objects l m = Value m' -> keyed m'.
Proof.
  induction l as [|o l IH]; intros m m' Hm; cbn [add_objects]; [by intros [= <-]|]. destruct (present _); [done|]. apply IH.
  intros digest x [[<- <-]|[_ Hx]]%lookup_insert_Some; [done|by apply Hm].
Qed.
Lemma fetch_keyed fuel answers : forall n digests m m', keyed m -> fetch_objects fuel answers n digests m = Value m' -> keyed m'.
Proof.
  induction fuel as [|fuel IH]; intros n digests m m' Hm; cbn [fetch_objects]; [by intros [= <-]|]. destruct digests as [|digest digests]; [by intros [= <-]|].
  destruct (answers n _) as [l|]; [|done]. destruct (add_objects l m) as [m1|] eqn:Ea; [|done]. cbn [result_bind]. apply IH. by eapply add_keyed.
Qed.
(** The bound of the loop of requests is never met. *)
Lemma fetch_fuel answers fuel fuel' : forall n digests m, (length digests <= fuel)%nat -> (length digests <= fuel')%nat -> fetch_objects fuel answers n digests m = fetch_objects fuel' answers n digests m.
Proof.
  revert fuel'. induction fuel as [|fuel IH]; intros fuel' n digests m Hf Hf'; destruct digests as [|digest digests]; cbn [length] in *; try lia; destruct fuel' as [|fuel']; try lia; try done.
  cbn [fetch_objects]. destruct (answers n _) as [l|]; [|done]. destruct (add_objects l m) as [m1|]; [|done]. cbn [result_bind]. apply IH; rewrite length_drop; cbn [length]; lia.
Qed.
Lemma ordered_digests references : forall m l, NoDup (map reference_digest references) ->
  (forall reference o, reference ∈ references -> m !! reference_digest reference = Some o -> digest_sha256 o = reference_digest reference) ->
  ordered_objects moved_from references m = Value l -> map digest_sha256 l = map reference_digest references.
Proof.
  induction references as [|reference references IH]; intros m l Hnd Hm; cbn [ordered_objects]; [by intros [= <-]|].
  destruct (m !! reference_digest reference) as [o|] eqn:Eo; [|done]. destruct (ordered_objects _ _ _) as [l'|] eqn:El; [|done]. cbn [result_bind]. intros [= <-].
  cbn [map] in *. apply NoDup_cons in Hnd as [Hnot Hnd]. f_equal; [apply Hm; [by left|done]|]. apply (IH _ _ Hnd) in El; [done|].
  intros r x Hr. rewrite lookup_insert_ne; [apply Hm; by right|]. intros E. apply Hnot. rewrite E. by apply list_elem_of_fmap_2.
Qed.
Lemma receive_ordered io answers node s d d' l spec release : receive_desired_state key_ moved_from io answers node s d = (d', Value l) -> open_state s = Some (spec, release) ->
  NoDup (map reference_digest (objects release)) -> map digest_sha256 l = map reference_digest (objects release).
Proof.
  unfold receive_desired_state. intros E Hopen Hnd. rewrite Hopen in E. destruct (negb _); [done|]. unfold receive_objects in E.
  destruct (collect_cached key_ io _ d _) as [d1 [c|]] eqn:Ec; [|done]. apply collect_keyed in Ec; [|by intros ? ?]. cbn [result_bind] in E.
  destruct (fetch_objects _ _ _ _ _) as [m|] eqn:Ef; [|done]. apply fetch_keyed in Ef; [|done]. cbn [result_bind] in E. injection E as _ E.
  apply (ordered_digests _ m); [done|intros r o _ Ho; by apply Ef|exact E].
Qed.
End Received.

(** * What is stored is kept *)

Section Keeps.
Context `{CipherLibrary} `{StateMessages} `{Artifacts}.
Variable key_ : bytes.
Definition reliable : faults := Faults (fun _ => false) (fun _ => false) (fun _ => false) (fun _ => None).
(** The same result on a disk whose files can be read. *)
Definition agrees {A} (r r' : result A) : Prop := match r with Error (Failure _) => True | _ => r' = r end.
Lemma agrees_refl {A} (r : result A) : agrees r r.
Proof. by destruct r as [|[]]. Qed.
Lemma agrees_bind {A B} (r r' : result A) (f f' : A -> result B) : agrees r r' -> (forall a, agrees (f a) (f' a)) -> agrees (result_bind r f) (result_bind r' f').
Proof. destruct r as [a|[m|m]]; cbn [agrees result_bind]; [intros ->|intros ->|]; cbn [result_bind]; auto. Qed.
Lemma read_agrees io path d : agrees (read_encrypted key_ io path d) (read_encrypted key_ reliable path d).
Proof. unfold read_encrypted. apply agrees_bind; [unfold read_secure_file; by destruct (unreadable io path)|]. intros. apply agrees_refl. Qed.
Lemma load_object_agrees io digest d : agrees (load_object key_ io digest d) (load_object key_ reliable digest d).
Proof. unfold load_object. destruct (negb _); [done|]. apply agrees_bind; [apply read_agrees|]. intros. apply agrees_refl. Qed.
Lemma load_references_agrees io references d : agrees (load_references key_ io references d) (load_references key_ reliable references d).
Proof.
  induction references as [|r references IH]; cbn [load_references]; [done|]. destruct (negb _); [done|]. apply agrees_bind; [apply load_object_agrees|].
  intros [o|]; [|apply agrees_refl]. apply agrees_bind; [exact IH|]. intros. apply agrees_refl.
Qed.
Lemma load_agrees io d : agrees (load key_ io d) (load key_ reliable d).
Proof.
  unfold load. apply agrees_bind; [apply read_agrees|]. intros [stored|]; [|apply agrees_refl]. destruct (parse_active stored) as [active|]; [|done]. destruct (negb _); [done|].
  destruct (open_state active); [|done]. destruct (negb _); [done|]. apply agrees_bind; [apply load_references_agrees|]. intros. apply agrees_refl.
Qed.

(** Only copies that no load uses are removed. *)
Lemma cached_keeps io digest d d' r p : load_cached_object key_ io digest d = (d', r) -> load key_ reliable d = Value p -> load key_ reliable d' = Value p.
Proof.
  unfold load_cached_object. pose proof (load_object_agrees io digest d) as Ha. destruct (load_object key_ io digest d) as [o|[m|m]]; cbn [agrees] in Ha; [by intros [= <- _]| |by intros [= <- _]].
  unfold discard_object, remove_file. destruct (negb _); [by intros [= <- _]|]. destruct (unremovable io _); [by intros [= <- _]|]. intros E Hl. assert (d' = delete (object_path digest) d) as -> by congruence.
  apply (load_frame _ _ d); [done|by rewrite lookup_delete_ne by done|]. intros digest' o _ Ho. destruct (decide (digest' = digest)) as [->|Hne]; [congruence|].
  unfold load_object in *. rewrite (read_encrypted_same _ _ _ d); [done|]. rewrite lookup_delete_ne; [done|]. by intros ?%object_path_inj.
Qed.
Lemma receive_keeps moved_from io answers node s d d' r p : receive_desired_state key_ moved_from io answers node s d = (d', r) -> load key_ reliable d = Value p -> load key_ reliable d' = Value p.
Proof.
  unfold receive_desired_state. destruct (open_state s) as [[spec release]|]; [|by intros [= <- _]]. destruct (negb _); [by intros [= <- _]|]. unfold receive_objects.
  destruct (collect_cached key_ io (objects release) d _) as [d1 c] eqn:Ec. intros [= <- _]. revert Ec. generalize (Collected ∅ [] 0). revert d.
  induction (objects release) as [|reference references IH]; intros d c0; cbn [collect_cached]; [by intros [= <- _]|].
  destruct (load_cached_object key_ io (reference_digest reference) d) as [d2 [[o u]|e]] eqn:El; intros E Hl; eapply cached_keeps in El; try exact Hl; [|by injection E as <- _].
  by eapply IH.
Qed.
End Keeps.
