(* ===== verification/ReloadTransaction.v ===== *)
(** The reload of a whole node: the coordinator of src/node/data/data_plane.h and
    src/node/runtime/config_activation.h, the data workers (ReloadWorker) with the channels between
    them, and the state on the disk (StateStore, DesiredState).

    The coordinator is one coroutine of the control loop, cut where it waits; a worker takes one
    request after another from its channel. What the channels refuse, what the loops accept, which
    files fail, and when a worker stops, fails or retires, is not under the program's control: it is
    an argument of the actions, and a step of the system. *)
From S2P Require Import Prelude RoutePolicy RouteMatch OriginSelection MatchList OriginHealth ExpressionProgram SecurityPolicy RouteProgram WebsiteValidation CompiledConfig ReloadWorker StateStore DesiredState.
Open Scope Z_scope.

Section Plane.
Context `{CipherLibrary} `{StateMessages} `{Artifacts} `{ManagedDetectors} `{Re2} `{!Re2Rules} `{MatchList.Asio} `{SortRanges} `{SecurityLibraries} `{!TlsContexts} `{EndpointAddresses}.
Variable key_ : bytes.
Variable moved_from : artifact.

(** A worker, the requests in its channel, whether its loop takes them, and whether it has retired. *)
Record site := Site { site_worker : worker; site_queue : list data_worker_request; running : bool; retired_site : bool }.
Inductive message := Answered (r : data_worker_result) | Retired.
(** [data_plane_reload]. *)
Record transaction := Transaction { number : Z; candidate : compiled_config; staged : bool }.
Abbreviation answers_so_far := (list (nat * data_worker_result)).
(** Where the coordinator is; [durable] is the active file that was replaced, if one was. *)
Inductive position :=
  | Idle
  | Preparing (t : transaction) (replies : answers_so_far)
  | Prepared (t : transaction)
  | Activating (t : transaction) (durable : option (option bytes)) (replies : answers_so_far)
  | RollingBack (t : transaction) (durable : option (option bytes)) (replies : answers_so_far).
Record plane := Plane {
  plane_sequence : Z; committed_number : Z; published : option compiled_config; plane_stopping : bool; retired_workers : gset nat; place : position;
  sites : list site; results : list (nat * message); files : disk }.
Definition new_plane (workers : nat) (d : disk) : plane := Plane 0 0 None false ∅ Idle (replicate workers (Site new_worker [] true false)) [] d.

Record circumstances := Circumstances {
  rejects : data_worker_operation -> nat -> bool; (* a channel does not take the request *)
  accepting : bool;                               (* every data loop accepts work *)
  deadline : Z;                                   (* the deadline of the transaction *)
  expired : bool;                                 (* it has passed *)
  storage : faults }.

Definition set_place (x : position) (p : plane) : plane :=
  Plane (plane_sequence p) (committed_number p) (published p) (plane_stopping p) (retired_workers p) x (sites p) (results p) (files p).
Definition set_files (d : disk) (p : plane) : plane :=
  Plane (plane_sequence p) (committed_number p) (published p) (plane_stopping p) (retired_workers p) (place p) (sites p) (results p) d.
Definition set_stopping (b : bool) (p : plane) : plane :=
  Plane (plane_sequence p) (committed_number p) (published p) b (retired_workers p) (place p) (sites p) (results p) (files p).
Definition set_sites (l : list site) (p : plane) : plane :=
  Plane (plane_sequence p) (committed_number p) (published p) (plane_stopping p) (retired_workers p) (place p) l (results p) (files p).

(** ** Sending *)

(** [time_point::max()]. *)
Definition no_deadline : Z := 9223372036854775807.
Definition enqueue (request : data_worker_request) (s : site) : site := Site (site_worker s) (site_queue s ++ [request]) (running s) (retired_site s).
(** Sends to every worker whose channel takes the request, except those of [skipped]. *)
Definition broadcast (refuses : nat -> bool) (skipped : gset nat) (request : data_worker_request) (l : list site) : list site :=
  imap (fun i s => if bool_decide (i ∈ skipped) || refuses i then s else enqueue request s) l.
(** [send]: also whether it did not throw. *)
Definition send (refuses : nat -> bool) (allow_retired : bool) (operation : data_worker_operation) (sequence : Z) (config : option compiled_config) (deadline : Z) (p : plane) : plane * bool :=
  let request := WorkerRequest operation sequence (committed_number p) config deadline in
  (set_sites (broadcast refuses (retired_workers p) request (sites p)) p,
   forallb (fun i => if bool_decide (i ∈ retired_workers p) then allow_retired else negb (refuses i)) (seq 0 (length (sites p)))).

(** ** Receiving *)

(** Every worker answered or has retired. *)
Definition all_answered (replies : answers_so_far) (p : plane) : bool :=
  forallb (fun i => existsb (fun x => Nat.eqb (fst x) i) replies || bool_decide (i ∈ retired_workers p)) (seq 0 (length (sites p))).
Definition all_agreed (replies : answers_so_far) : bool := forallb (fun x => ok_ (snd x)) replies.
Definition any_retired (p : plane) : bool := negb (bool_decide (retired_workers p = ∅)).

(** ** The decision *)

(** The end of [rollback_workers] and of [compensate]. *)
Definition finish_rollback (e : circumstances) (durable : option (option bytes)) (confirmed : bool) (p : plane) : plane :=
  let p := set_stopping (plane_stopping p || negb confirmed || any_retired p) p in
  let p :=
    match durable with
    | None => p
    | Some previous => let '(d, r) := rollback_active (storage e) previous (files p) in set_stopping (plane_stopping p || negb (succeeded r)) (set_files d p)
    end in
  set_place Idle p.
Definition compensate (e : circumstances) (t : transaction) (durable : option (option bytes)) (p : plane) : plane :=
  let p := fst (send (rejects e op_rollback) true op_rollback (number t) None no_deadline p) in
  if all_answered [] p then finish_rollback e durable true p else set_place (RollingBack t durable []) p.
Definition commit_reload (e : circumstances) (t : transaction) (p : plane) : plane :=
  let request := WorkerRequest op_finalize (number t) (number t) None no_deadline in
  Plane (plane_sequence p) (number t) (Some (candidate t)) (plane_stopping p) (retired_workers p) Idle (broadcast (rejects e op_finalize) ∅ request (sites p)) (results p) (files p).
Definition may_commit (e : circumstances) (p : plane) : bool := negb (plane_stopping p) && accepting e && negb (expired e).
(** After a reply, or at once when nobody has to answer. *)
Definition settle (e : circumstances) (p : plane) : plane :=
  match place p with
  | Preparing t replies =>
      if all_answered replies p then if all_agreed replies then set_place (Prepared t) p else compensate e t None p
      else if any_retired p then compensate e t None p else p
  | Activating t durable replies =>
      if all_answered replies p then if all_agreed replies && may_commit e p then commit_reload e t p else compensate e t durable p
      else if any_retired p then compensate e t durable p else p
  | RollingBack t durable replies => if all_answered replies p then finish_rollback e durable (all_agreed replies) p else p
  | Idle | Prepared _ => p
  end.

(** [begin_reload] and [prepare_workers]. *)
Definition begin_reload (e : circumstances) (staged : bool) (c : compiled_config) (p : plane) : plane :=
  if plane_stopping p || negb (accepting e) then p
  else
    match validate_next (published p) c with
    | Throws _ => p
    | Returns _ =>
        let n := plane_sequence p + 1 in
        let t := Transaction n c staged in
        let p := Plane n (committed_number p) (published p) (plane_stopping p) (retired_workers p) (Preparing t []) (sites p) (results p) (files p) in
        let '(p, sent) := send (rejects e op_prepare) false op_prepare n (Some c) (deadline e) p in
        if sent then settle e p else compensate e t None p
    end.
(** [decide]: the durable step, if the state was staged, and [activate_workers]. *)
Definition decide_reload (e : circumstances) (t : transaction) (p : plane) : plane :=
  let '(p, durable) :=
    if staged t then
      let '(d, r) := activate_staged (storage e) (files p) in
      (set_files d p, match r with Value previous => Some (Some previous) | Error _ => None end)
    else (p, Some None) in
  match durable with
  | None => compensate e t None p
  | Some durable =>
      if plane_stopping p || negb (accepting e) then compensate e t durable p
      else
        let '(p, sent) := send (rejects e op_activate) false op_activate (number t) None (deadline e) p in
        if sent then settle e (set_place (Activating t durable []) p) else compensate e t durable p
  end.
(** The destructor of a prepared reload. *)
Definition abandon_reload (e : circumstances) (t : transaction) (p : plane) : plane :=
  set_place Idle (set_sites (broadcast (rejects e op_discard) ∅ (WorkerRequest op_discard (number t) 0 None no_deadline) (sites p)) p).

(** The next message while the coordinator waits. *)
Definition expected_operation (x : position) : option (data_worker_operation * transaction * option (option bytes) * answers_so_far) :=
  match x with
  | Preparing t replies => Some (op_prepare, t, None, replies)
  | Activating t durable replies => Some (op_activate, t, durable, replies)
  | RollingBack t durable replies => Some (op_rollback, t, durable, replies)
  | Idle | Prepared _ => None
  end.
Definition with_replies (x : position) (replies : answers_so_far) : position :=
  match x with
  | Preparing t _ => Preparing t replies
  | Activating t durable _ => Activating t durable replies
  | RollingBack t durable _ => RollingBack t durable replies
  | x => x
  end.
(** The wait ended with an exception. *)
Definition fail_wait (e : circumstances) (p : plane) : plane :=
  match place p with
  | Preparing t _ => compensate e t None p
  | Activating t durable _ => compensate e t durable p
  | RollingBack t durable _ => finish_rollback e durable false p
  | Idle | Prepared _ => p
  end.
Definition receive (e : circumstances) (p : plane) : plane :=
  match expected_operation (place p), results p with
  | Some (operation, t, _, replies), (i, m) :: rest =>
      let p := Plane (plane_sequence p) (committed_number p) (published p) (plane_stopping p) (retired_workers p) (place p) (sites p) rest (files p) in
      match m with
      | Retired =>
          let p := Plane (plane_sequence p) (committed_number p) (published p) (plane_stopping p) ({[i]} ∪ retired_workers p) (place p) (sites p) rest (files p) in
          if bool_decide (operation = op_rollback) then settle e p else fail_wait e p
      | Answered r =>
          if negb (result_sequence r =? number t) || negb (bool_decide (result_operation r = operation)) then p
          else if existsb (fun x => Nat.eqb (fst x) i) replies then fail_wait e p
          else settle e (set_place (with_replies (place p) (replies ++ [(i, r)])) p)
      end
  | _, _ => p
  end.

(** ** What the control loop asks for *)

(** receive_desired_state and apply_desired_config up to the prepared workers. *)
Definition apply_desired (e : circumstances) (answers : nat -> list bytes -> option (list artifact)) (node : bytes) (desired : active_state) (p : plane) : plane :=
  let '(d, received) := receive_desired_state key_ moved_from (storage e) answers node desired (files p) in
  match received with
  | Error _ => set_files d p
  | Value l =>
      let '(d, r) := stage key_ (storage e) desired l d in
      let p := set_files d p in
      match r with
      | Error _ => p
      | Value _ => match compile_config desired l with Throws _ => p | Returns c => begin_reload e true c p end
      end
  end.
Definition restore (e : circumstances) (startup_pending : bool) (p : plane) : plane :=
  let '(d, r) := restore_persisted_state key_ (storage e) startup_pending (files p) in
  let p := set_files d p in
  match r with Value (Some c) => begin_reload e false c p | _ => p end.

(** ** Steps of the system *)

(** What a worker does by itself: take a request and answer, or fail with or without the answer,
    stop, or retire. *)
Inductive site_step : site -> site -> option message -> Prop :=
  | site_handles m request queue w w' reply : handle m request w = (w', reply) ->
      site_step (Site w (request :: queue) true false) (Site w' queue true false) (Answered <$> reply)
  | site_loses m request queue w w' reply : handle m request w = (w', reply) -> site_step (Site w (request :: queue) true false) (Site w' queue false false) None
  | site_stops w queue running : site_step (Site w queue running false) (Site (stop_accepting w) queue running false) None
  | site_fails w queue running : site_step (Site w queue running false) (Site w queue false false) None
  | site_retires w queue running heard : site_step (Site w queue running false) (Site (retire_worker w) queue false true) (if heard : bool then Some Retired else None).
Definition report (i : nat) (m : option message) : list (nat * message) := match m with Some m => [(i, m)] | None => [] end.

(** No two different contents of one digest meet: what is received, and what the applied state uses. *)
Definition no_collision (e : circumstances) (answers : nat -> list bytes -> option (list artifact)) (node : bytes) (desired : active_state) (d : disk) : Prop :=
  forall p d' l, load key_ reliable d = Value p -> receive_desired_state key_ moved_from (storage e) answers node desired d = (d', Value l) -> collision_free l (stored_objects_ p).

Inductive plane_step : plane -> plane -> Prop :=
  | step_apply e answers node desired p : place p = Idle -> nonces_fit (storage e) -> no_collision e answers node desired (files p) -> plane_step p (apply_desired e answers node desired p)
  | step_restore e startup_pending p : place p = Idle -> plane_step p (restore e startup_pending p)
  | step_decide e t p : place p = Prepared t -> plane_step p (decide_reload e t p)
  | step_abandon e t p : place p = Prepared t -> plane_step p (abandon_reload e t p)
  | step_receive e p : plane_step p (receive e p)
  | step_timeout e p : plane_step p (fail_wait e p)
  | step_stop p : plane_step p (set_stopping true p)
  | step_site i s s' m p : sites p !! i = Some s -> site_step s s' m ->
      plane_step p (Plane (plane_sequence p) (committed_number p) (published p) (plane_stopping p) (retired_workers p) (place p) (<[i := s']> (sites p)) (results p ++ report i m) (files p)).
Inductive reachable_plane (workers : nat) (d : disk) : plane -> Prop :=
  | reach_new : reachable_plane workers d (new_plane workers d)
  | reach_next p p' : reachable_plane workers d p -> plane_step p p' -> reachable_plane workers d p'.
End Plane.

(** * What a worker may serve while a transaction is under way

    [C] is the committed number, [P] what is published, [n] the transaction that is under way, or the
    next one, and [c] its candidate. *)
Section Worker.
Context `{ManagedDetectors}.
Implicit Types (v : participant) (r : data_worker_request).

Section Numbers.
Variables (C n : Z) (P : option compiled_config) (c : compiled_config).
Hypothesis earlier : C < n.

(** The worker serves what is published; it may have prepared. *)
Definition base v : Prop := serving v = P /\ settled v < n /\
  match slot v with None => True | Some (s, phase_tentative, _) => s = C | Some (s, phase_prepared, x) => C < s <= n /\ (s = n -> x = Some c) end.
(** It serves the candidate and keeps what is published. *)
Definition moved v : Prop := serving v = Some c /\ settled v < n /\ slot v = Some (n, phase_tentative, P).
(** Requests that decide nothing: of earlier transactions, or the prepare of this one. *)
Definition old r : Prop := committed_sequence_ r <= C /\
  match operation_ r with
  | op_finalize => sequence_ r = C
  | op_discard => C < sequence_ r < n
  | op_prepare => C < sequence_ r <= n /\ (sequence_ r = n -> config_ r = Some c)
  | _ => False
  end.
Definition asks (operation : data_worker_operation) r : Prop := committed_sequence_ r <= C /\ operation_ r = operation /\ sequence_ r = n.

Ltac fields := unfold base, moved in *; cbn; repeat match goal with |- _ /\ _ => split end; try done; try lia; try tauto.
Lemma base_learn v k : base v -> k <= C -> base (learn k v).
Proof.
  intros (Hs & Hd & Hslot) Hk. unfold learn. destruct (slot v) as [[[s []] x]|] eqn:E; [fields; by rewrite E| |fields; by rewrite E]. subst s.
  destruct (Z.leb_spec C k); [|fields; by rewrite E]. unfold keep. rewrite E, Z.eqb_refl. fields.
Qed.
Lemma base_release v : base v -> base (release_slot v).
Proof. intros (Hs & Hd & Hslot). unfold release_slot. destruct (slot v) as [[[s []] x]|] eqn:E; fields; by rewrite E. Qed.
Lemma moved_learn v k : moved v -> k <= C -> learn k v = v.
Proof. intros (_ & _ & E) Hk. unfold learn. rewrite E. destruct (Z.leb_spec n k); [lia|done]. Qed.
Lemma moved_release v : moved v -> release_slot v = v.
Proof. intros (_ & _ & E). unfold release_slot. by rewrite E. Qed.
Lemma moved_undo v s : moved v -> C < s < n -> moved (undo s v).
Proof. intros (Hs & Hd & E) Hlt. unfold undo. destruct (Z.leb_spec s (settled v)); [done|]. rewrite E. destruct (Z.eqb_spec n s); [lia|]. fields. Qed.
Lemma base_undo v s : base v -> C < s < n -> base (undo s v).
Proof.
  intros (Hs & Hd & Hslot) Hlt. unfold undo. destruct (Z.leb_spec s (settled v)); [done|]. destruct (slot v) as [[[s' []] x]|] eqn:E; [| |fields].
  - destruct (Z.eqb_spec s' s); fields.
  - destruct (Z.eqb_spec s' s); [lia|]. fields.
Qed.

Lemma base_step v v' r out : base v -> old r -> participant_step r (learn (committed_sequence_ r) v) v' out -> base v'.
Proof.
  intros Hb [Hk Ho]. apply (base_learn _ (committed_sequence_ r)) in Hb; [|done]. revert Hb. generalize (learn (committed_sequence_ r) v). clear v. intros v Hb Hstep.
  inversion Hstep as [? x Hop Hx Hlt Hslot|? Hop|? Hop|? ? Hop|? Hop|? Hop|? Hop|? Hop|? Hop|? Hop]; subst; rewrite Hop in Ho; try done; try (by apply base_release).
  - destruct Ho as [Hr Hc]. destruct Hb as (Hs & Hd & _). fields. intros E. rewrite <- Hx. by apply Hc.
  - unfold keep. destruct Hb as (Hs & Hd & Hslot). destruct (slot v) as [[[s []] x]|] eqn:E; [fields; by rewrite E| |fields; by rewrite E].
    destruct (s =? sequence_ r); fields. by rewrite E.
  - by apply base_undo.
Qed.
Lemma moved_step v v' r out : moved v -> old r -> participant_step r (learn (committed_sequence_ r) v) v' out -> moved v'.
Proof.
  intros Hm [Hk Ho]. rewrite (moved_learn _ _ Hm Hk). intros Hstep.
  inversion Hstep as [? x Hop Hx Hlt Hslot|? Hop|? Hop|? ? Hop|? Hop|? Hop|? Hop|? Hop|? Hop|? Hop]; subst; rewrite Hop in Ho; try done; try (by rewrite moved_release).
  - destruct Hm as (_ & _ & E). by rewrite E in Hslot.
  - unfold keep. pose proof Hm as (_ & _ & E). rewrite E. destruct (Z.eqb_spec n (sequence_ r)); [lia|done].
  - by apply moved_undo.
Qed.
Lemma activate_step v v' r out : base v -> asks op_activate r -> participant_step r (learn (committed_sequence_ r) v) v' out -> (out <> Some true /\ base v') \/ moved v'.
Proof.
  intros Hb (Hk & Ho & Hn). apply (base_learn _ (committed_sequence_ r)) in Hb; [|done]. revert Hb. generalize (learn (committed_sequence_ r) v). clear v. intros v (Hs & Hd & Hslot) Hstep.
  inversion Hstep as [|? ?|? ?|? x Hop Hlt Hat|? Hop|? Hop|? Hop|? Hop|? Hop|? Hop]; subst; try congruence; [right|left; by split_and!].
  rewrite Hat in Hslot. destruct Hslot as [_ Hx]. fields. congruence.
Qed.
Lemma rollback_step v v' r out c' : base v \/ moved v -> asks op_rollback r -> participant_step r (learn (committed_sequence_ r) v) v' out ->
  serving v' = P /\ settled v' < n + 1 /\ match slot v' with None => True | Some (s, phase_tentative, _) => s = C | Some (s, phase_prepared, x) => C < s <= n + 1 /\ (s = n + 1 -> x = Some c') end.
Proof.
  intros Hv (Hk & Ho & Hn) Hstep. assert (base (learn (committed_sequence_ r) v) \/ moved (learn (committed_sequence_ r) v)) as Hv'.
  { destruct Hv as [Hv|Hv]; [left; by apply base_learn|right; by rewrite moved_learn]. }
  revert Hv' Hstep. generalize (learn (committed_sequence_ r) v). clear v Hv. intros v Hv Hstep. inversion Hstep; subst; try congruence. unfold undo.
  destruct Hv as [(Hs & Hd & Hslot)|(Hs & Hd & Hslot)]; (destruct (Z.leb_spec (sequence_ r) (settled v)); [lia|]).
  - destruct (slot v) as [[[s []] x]|]; cbn; [| |fields]; (destruct (Z.eqb_spec s (sequence_ r)); [|fields]); fields.
  - rewrite Hslot. cbn. destruct (Z.eqb_spec n (sequence_ r)); [fields|lia].
Qed.

(** A worker that may have the prepare of the transaction before it, one that may have voted, and one
    that is told to roll back. *)
Definition waiting v (q : list data_worker_request) : Prop := base v /\ Forall old q.
Definition in_doubt v (q : list data_worker_request) : Prop := exists o a, q = o ++ a /\ Forall old o /\ ((a = [] /\ (base v \/ moved v)) \/ exists r, a = [r] /\ asks op_activate r /\ base v).
Definition undone v (q : list data_worker_request) : Prop :=
  q = [] /\ forall c', serving v = P /\ settled v < n + 1 /\ match slot v with None => True | Some (s, phase_tentative, _) => s = C | Some (s, phase_prepared, x) => C < s <= n + 1 /\ (s = n + 1 -> x = Some c') end.
Definition rolling v (q : list data_worker_request) : Prop :=
  (exists q' b, q = q' ++ b /\ in_doubt v q' /\ (b = [] \/ exists r, b = [r] /\ asks op_rollback r)) \/ undone v q.

Lemma waiting_in_doubt v q : waiting v q -> in_doubt v q.
Proof. intros [Hb Ho]. exists q, []. rewrite app_nil_r. split_and!; [done|done|]. left. auto. Qed.
Lemma in_doubt_rolling v q : in_doubt v q -> rolling v q.
Proof. intros Hd. left. exists q, []. rewrite app_nil_r. auto. Qed.
Lemma old_operation r : old r -> operation_ r <> op_activate /\ operation_ r <> op_rollback.
Proof. intros [_ Ho]. split; intros E; by rewrite E in Ho. Qed.

Lemma waiting_handle v v' r q out : waiting v (r :: q) -> participant_step r (learn (committed_sequence_ r) v) v' out -> waiting v' q /\ operation_ r <> op_activate /\ operation_ r <> op_rollback.
Proof. intros [Hb Ho] Hstep. apply Forall_cons in Ho as [Hr Ho]. split; [split; [by eapply base_step|done]|by apply old_operation]. Qed.
Lemma in_doubt_handle v v' r q out : in_doubt v (r :: q) -> participant_step r (learn (committed_sequence_ r) v) v' out ->
  in_doubt v' q /\ operation_ r <> op_rollback /\ (operation_ r = op_activate -> out = Some true -> q = [] /\ moved v').
Proof.
  intros (o & a & Hq & Ho & Ha) Hstep. destruct o as [|r' o].
  - destruct Ha as [[-> _]|(r' & -> & Hr & Hb)]; [done|]. injection Hq as <- ->. pose proof (activate_step _ _ _ _ Hb Hr Hstep) as Hv. destruct Hr as (_ & Hop & _).
    split; [exists [], []; split_and!; [done|constructor|left; split; [done|naive_solver]]|]. split; [congruence|]. intros _ ->. split; [done|]. naive_solver.
  - injection Hq as <- ->. apply Forall_cons in Ho as [Hr Ho]. pose proof (old_operation _ Hr) as [Hna Hnr]. split; [|split; [done|intros; done]]. exists o, a. split; [done|]. split; [done|].
    destruct Ha as [[-> [Hb|Hm]]|(x & -> & Hx & Hb)]; [left; split; [done|left; by eapply base_step]|left; split; [done|right; by eapply moved_step]|right; exists x; split_and!; [done|done|by eapply base_step]].
Qed.
Lemma undone_of_base v : (forall c', serving v = P /\ settled v < n + 1 /\ match slot v with None => True | Some (s, phase_tentative, _) => s = C | Some (s, phase_prepared, x) => C < s <= n + 1 /\ (s = n + 1 -> x = Some c') end) -> undone v [].
Proof. by split. Qed.
Lemma rolling_handle v v' r q out : rolling v (r :: q) -> participant_step r (learn (committed_sequence_ r) v) v' out -> rolling v' q /\ (operation_ r = op_rollback -> undone v' q).
Proof.
  intros [(q' & b & Hq & Hd & Hb)|[? _]] Hstep; [|done]. destruct q' as [|r' q'].
  - destruct Hb as [->|(x & -> & Hx)]; [done|]. injection Hq as <- ->. destruct Hd as (o & a & Hnil & _ & Ha). symmetry in Hnil. apply app_eq_nil in Hnil as [-> ->].
    assert (undone v' []) as Hu; [|by split; [right|]]. apply undone_of_base. intros c'. eapply rollback_step; [|exact Hx|exact Hstep]. destruct Ha as [[_ Ha]|(? & ? & _)]; [exact Ha|done].
  - injection Hq as <- ->. pose proof (in_doubt_handle _ _ _ _ _ Hd Hstep) as (Hd' & Hne & _). split; [left; exists q', b; auto|done].
Qed.
Lemma waiting_release v q : waiting v q -> waiting (release_slot v) q.
Proof. intros [Hb Ho]. split; [by apply base_release|done]. Qed.
Lemma in_doubt_release v q : in_doubt v q -> in_doubt (release_slot v) q.
Proof.
  intros (o & a & Hq & Ho & Ha). exists o, a. split; [done|]. split; [done|].
  destruct Ha as [[-> [Hb|Hm]]|(x & -> & Hx & Hb)]; [left; split; [done|left; by apply base_release]|left; split; [done|right; by rewrite moved_release]|right; exists x; split_and!; [done|done|by apply base_release]].
Qed.
Lemma undone_release v q : undone v q -> undone (release_slot v) q.
Proof.
  intros [-> Hb]. split; [done|]. intros c'. specialize (Hb c'). unfold release_slot. destruct (slot v) as [[[s []] x]|] eqn:E; rewrite ?E; [|done..]. cbn. tauto.
Qed.
Lemma rolling_release v q : rolling v q -> rolling (release_slot v) q.
Proof. intros [(q' & b & Hq & Hd & Hb)|Hu]; [left; exists q', b; split_and!; [done|by apply in_doubt_release|done]|right; by apply undone_release]. Qed.
End Numbers.
End Worker.

(** * The invariant of the plane *)

Section Invariant.
Context `{CipherLibrary} `{StateMessages} `{Artifacts} `{ManagedDetectors} `{Re2} `{!Re2Rules} `{MatchList.Asio} `{SortRanges} `{SecurityLibraries} `{!TlsContexts} `{EndpointAddresses}.

Definition site_view (s : site) : participant := view_of (site_worker s).
(** Numbers only grow, and who is known to have retired has. *)
Record wired (p : plane) : Prop := {
  wired_order : 0 <= committed_number p <= plane_sequence p;
  wired_queues : forall i s, sites p !! i = Some s -> Forall (fun r => sequence_ r <= plane_sequence p) (site_queue s);
  wired_results : forall i r, (i, Answered r) ∈ results p -> result_sequence r <= plane_sequence p;
  wired_retired : forall i s, i ∈ retired_workers p \/ (i, Retired) ∈ results p -> sites p !! i = Some s -> retired_site s = true
}.
Definition under_way (x : position) : option transaction :=
  match x with Idle => None | Preparing t _ | Prepared t | Activating t _ _ | RollingBack t _ _ => Some t end.
(** What the place says of a worker that has not retired. *)
Definition site_ok (p : plane) (s : site) : Prop :=
  let C := committed_number p in
  let P := published p in
  match place p with
  | Idle => plane_stopping p = false -> forall c, waiting C (plane_sequence p + 1) P c (site_view s) (site_queue s)
  | Preparing t _ | Prepared t => waiting C (number t) P (candidate t) (site_view s) (site_queue s)
  | Activating t _ _ => in_doubt C (number t) P (candidate t) (site_view s) (site_queue s)
  | RollingBack t _ _ => rolling C (number t) P (candidate t) (site_view s) (site_queue s)
  end.
(** What an answer to the transaction under way says of its worker. *)
Definition vote_ok (p : plane) (s : site) (r : data_worker_result) : Prop :=
  match place p with
  | Idle => True
  | Preparing _ _ | Prepared _ => result_operation r <> op_activate /\ result_operation r <> op_rollback
  | Activating t _ _ => result_operation r <> op_rollback /\ (result_operation r = op_activate -> ok_ r = true -> site_queue s = [] /\ moved (number t) (published p) (candidate t) (site_view s))
  | RollingBack t _ _ => result_operation r = op_rollback -> undone (committed_number p) (number t) (published p) (site_view s) (site_queue s)
  end.
Definition replies_of (x : position) : list (nat * data_worker_result) := match x with Preparing _ l | Activating _ _ l | RollingBack _ _ l => l | Idle | Prepared _ => [] end.
Definition operation_of (x : position) : option data_worker_operation :=
  match x with Preparing _ _ => Some op_prepare | Activating _ _ _ => Some op_activate | RollingBack _ _ _ => Some op_rollback | Idle | Prepared _ => None end.
Definition live (p : plane) (i : nat) (s : site) : Prop := sites p !! i = Some s /\ retired_site s = false.
Record plane_ok (p : plane) : Prop := {
  ok_wired : wired p;
  ok_number : forall t, under_way (place p) = Some t -> number t = plane_sequence p /\ committed_number p < number t;
  ok_sites : forall i s, live p i s -> site_ok p s;
  ok_votes : forall i r s, (i, Answered r) ∈ results p -> result_sequence r = plane_sequence p -> live p i s -> vote_ok p s r;
  ok_replies : forall i r s, (i, r) ∈ replies_of (place p) -> live p i s -> operation_of (place p) = Some (result_operation r) /\ vote_ok p s r
}.

(** ** Sending *)

Lemma broadcast_lookup refuses skipped request l i s' : broadcast refuses skipped request l !! i = Some s' -> exists s, l !! i = Some s /\ (s' = s \/ s' = enqueue request s).
Proof.
  unfold broadcast. rewrite list_lookup_imap. destruct (l !! i) as [s|]; [|done]. cbn. intros [= <-]. exists s. split; [done|]. destruct (_ || _); auto.
Qed.
Lemma broadcast_length refuses skipped request l : length (broadcast refuses skipped request l) = length l.
Proof. apply length_imap. Qed.
Lemma wired_broadcast p refuses skipped request : wired p -> sequence_ request <= plane_sequence p -> wired (set_sites (broadcast refuses skipped request (sites p)) p).
Proof.
  intros [Ho Hq Hr Hret] Hs. split; cbn; [done| |done|].
  - intros i s' (s & Hl & [->| ->])%broadcast_lookup; [by eapply Hq|]. cbn. apply Forall_app. split; [by eapply Hq|]. by constructor.
  - intros i s' Hi (s & Hl & [->| ->])%broadcast_lookup; exact (Hret i s Hi Hl).
Qed.

(** ** The end of a transaction *)

Lemma plane_idle p : wired p -> place p = Idle -> (plane_stopping p = false -> forall i s, live p i s -> forall c, waiting (committed_number p) (plane_sequence p + 1) (published p) c (site_view s) (site_queue s)) -> plane_ok p.
Proof.
  intros Hw Hp Hs. split; [done|by rewrite Hp| | |].
  - intros i s Hl. unfold site_ok. rewrite Hp. intros Hst. by eapply Hs.
  - intros. unfold vote_ok. by rewrite Hp.
  - intros i r s. rewrite Hp. by intros ?%not_elem_of_nil.
Qed.
Lemma undone_waiting C n P v q : C < n -> undone C n P v q -> forall c, waiting C (n + 1) P c v q.
Proof. intros Hn [-> Hb] c. split; [|constructor]. exact (Hb c). Qed.
(** The parts of a plane that a change of the files, or of whether it is stopping, leaves. *)
Definition same_but_files (p p' : plane) : Prop :=
  plane_sequence p' = plane_sequence p /\ committed_number p' = committed_number p /\ published p' = published p /\ retired_workers p' = retired_workers p /\ sites p' = sites p /\ results p' = results p.
Lemma wired_same p p' : same_but_files p p' -> wired p -> wired p'.
Proof. intros (E1 & E2 & E3 & E4 & E5 & E6) [Ho Hq Hr Hret]. split; rewrite ?E1, ?E2, ?E4, ?E5, ?E6; done. Qed.
Lemma finish_same e durable confirmed p : same_but_files p (finish_rollback e durable confirmed p) /\ place (finish_rollback e durable confirmed p) = Idle /\
  (plane_stopping (finish_rollback e durable confirmed p) = false -> confirmed = true /\ retired_workers p = ∅).
Proof.
  unfold finish_rollback. assert (forall b, plane_stopping p || negb confirmed || any_retired p || b = false -> confirmed = true /\ retired_workers p = ∅) as Hstop.
  { intros b. rewrite !orb_false_iff. intros [[[_ Hc] Ha] _]. unfold any_retired in Ha. apply negb_false_iff in Hc, Ha. by apply bool_decide_eq_true in Ha. }
  destruct durable as [previous|]; cbn; [destruct (rollback_active (storage e) previous (files p)) as [d r]; cbn|]; (split; [by split_and!|]); (split; [done|]); [apply Hstop|].
  intros Hf. apply (Hstop false). by rewrite orb_false_r.
Qed.
Lemma finish_ok e durable confirmed p : wired p -> committed_number p < plane_sequence p ->
  (confirmed = true -> retired_workers p = ∅ -> forall i s, live p i s -> undone (committed_number p) (plane_sequence p) (published p) (site_view s) (site_queue s)) ->
  plane_ok (finish_rollback e durable confirmed p).
Proof.
  intros Hw Hn Hs. destruct (finish_same e durable confirmed p) as (Hsame & Hplace & Hstop). apply plane_idle; [by eapply wired_same|done|].
  intros Hst i s [Hi Hlive] c. apply Hstop in Hst as [Hc Hr]. destruct Hsame as (E1 & E2 & E3 & E4 & E5 & E6). rewrite E1, E2, E3. apply undone_waiting; [done|]. apply (Hs Hc Hr i). split; [by rewrite <- E5|done].
Qed.

Lemma all_answered_spec replies p i s : all_answered replies p = true -> wired p -> live p i s -> exists r, (i, r) ∈ replies.
Proof.
  unfold all_answered. rewrite forallb_forall. intros Hall Hw [Hi Hs]. specialize (Hall i ltac:(apply in_seq; apply lookup_lt_Some in Hi; lia)).
  apply orb_true_iff in Hall as [Hex|Hr%bool_decide_eq_true].
  - apply existsb_exists in Hex as ([j r] & Hin%list_elem_of_In & E%Nat.eqb_eq). cbn in E. subst j. by exists r.
  - assert (retired_site s = true) as Hrs; [|congruence]. eapply (wired_retired _ Hw); [by left|done].
Qed.

(** ** Compensation *)

Lemma compensate_ok e t durable p : wired p -> number t = plane_sequence p -> committed_number p < number t ->
  (forall i s, live p i s -> in_doubt (committed_number p) (number t) (published p) (candidate t) (site_view s) (site_queue s)) ->
  (forall i r s, (i, Answered r) ∈ results p -> result_sequence r = plane_sequence p -> live p i s -> result_operation r <> op_rollback) ->
  plane_ok (compensate e t durable p).
Proof.
  intros Hw Ht Hn Hs Hv. unfold compensate, send. cbn [fst]. set (request := WorkerRequest op_rollback (number t) (committed_number p) None no_deadline).
  pose proof (wired_broadcast p (rejects e op_rollback) (retired_workers p) request Hw ltac:(cbn; lia)) as Hw'. set (p' := set_sites _ p) in *.
  assert (forall i s, live p' i s -> rolling (committed_number p) (number t) (published p) (candidate t) (site_view s) (site_queue s)) as Hs'.
  { intros i s' [(s & Hl & [->| ->])%broadcast_lookup Hr]; [apply in_doubt_rolling; exact (Hs i s (conj Hl Hr))|]. left. exists (site_queue s), [request]. split; [done|]. split; [exact (Hs i s (conj Hl Hr))|].
    right. exists request. split; [done|]. split_and!; cbn; [lia|done|done]. }
  destruct (all_answered [] p') eqn:Ea.
  - apply finish_ok; [done|cbn; lia|]. intros _ _ i s Hl. destruct (all_answered_spec _ _ _ _ Ea Hw' Hl) as [r Hr%not_elem_of_nil]. done.
  - split; [by eapply wired_same; [|exact Hw']|intros ? [= <-]; by split| | |].
    + intros i s Hl. exact (Hs' i s Hl).
    + intros i r s Hr Hq [(s0 & Hl & Hs0)%broadcast_lookup Hret]. unfold vote_ok. cbn. intros Hop. exfalso. apply (Hv i r s0); [done|done|split; [done|]|done]. by destruct Hs0 as [->| ->].
    + by intros i r s ?%not_elem_of_nil.
Qed.

(** ** The coordinator's actions *)

(** Wherever it waits, the coordinator can compensate. *)
Lemma in_doubt_sites p t : plane_ok p -> (exists replies, place p = Preparing t replies) \/ place p = Prepared t \/ (exists durable replies, place p = Activating t durable replies) ->
  number t = plane_sequence p /\ committed_number p < number t /\
  (forall i s, live p i s -> in_doubt (committed_number p) (number t) (published p) (candidate t) (site_view s) (site_queue s)) /\
  (forall i r s, (i, Answered r) ∈ results p -> result_sequence r = plane_sequence p -> live p i s -> result_operation r <> op_rollback).
Proof.
  intros [Hw Hn Hs Hv _] Hp. assert (under_way (place p) = Some t) as Ht by (destruct Hp as [[? E]|[E|(? & ? & E)]]; by rewrite E). destruct (Hn _ Ht). split; [done|]. split; [done|]. split.
  - intros i s Hl. specialize (Hs i s Hl). unfold site_ok in Hs. destruct Hp as [[? E]|[E|(? & ? & E)]]; rewrite E in Hs; [by apply waiting_in_doubt..|done].
  - intros i r s Hr Hq Hl. specialize (Hv i r s Hr Hq Hl). unfold vote_ok in Hv. destruct Hp as [[? E]|[E|(? & ? & E)]]; rewrite E in Hv; apply Hv.
Qed.
Lemma compensate_from p e t durable p' : plane_ok p -> (exists replies, place p = Preparing t replies) \/ place p = Prepared t \/ (exists durable replies, place p = Activating t durable replies) ->
  same_but_files p p' -> plane_ok (compensate e t durable p').
Proof.
  intros Hok Hp Hsame. destruct (in_doubt_sites _ _ Hok Hp) as (Ht & Hn & Hs & Hv). pose proof (wired_same _ _ Hsame (ok_wired _ Hok)) as Hw'. destruct Hsame as (E1 & E2 & E3 & E4 & E5 & E6).
  apply compensate_ok; [done|by rewrite E1|by rewrite E2| |]; unfold live; rewrite ?E1, ?E2, ?E3, ?E5, ?E6; [exact Hs|exact Hv].
Qed.
Lemma same_files_refl p : same_but_files p p.
Proof. by split_and!. Qed.

Lemma commit_ok e t durable replies p : plane_ok p -> place p = Activating t durable replies -> all_answered replies p = true -> all_agreed replies = true -> plane_ok (commit_reload e t p).
Proof.
  intros [Hw Hn Hs Hv Hr] Hp Ha Hagreed. assert (under_way (place p) = Some t) as Ht by (by rewrite Hp). destruct (Hn _ Ht) as [Hnum Hlt]. unfold commit_reload.
  set (request := WorkerRequest op_finalize (number t) (number t) None no_deadline). pose proof (wired_broadcast p (rejects e op_finalize) ∅ request Hw ltac:(cbn; lia)) as [Hwo Hwq Hwr Hwret].
  apply plane_idle; [split; cbn in *; [lia|exact Hwq|exact Hwr|exact Hwret]|done|]. cbn [plane_stopping]. intros _ i s' [(s & Hl & Hs')%broadcast_lookup Hlive] c. cbn [committed_number plane_sequence published].
  assert (live p i s) as Hls by (split; [done|by destruct Hs' as [->| ->]]). destruct (all_answered_spec _ _ _ _ Ha Hw Hls) as [r Hin].
  destruct (Hr i r s) as [Hop Hvote]; [by rewrite Hp|done|]. rewrite Hp in Hop. injection Hop as Hop. unfold vote_ok in Hvote. rewrite Hp in Hvote.
  destruct Hvote as [_ Hvote]. destruct Hvote as [Hq (Hserve & Hset & Hslot)]; [done|..].
  { unfold all_agreed in Hagreed. rewrite forallb_forall in Hagreed. by apply list_elem_of_In, Hagreed in Hin. }
  rewrite <- Hnum. assert (waiting (number t) (number t + 1) (Some (candidate t)) c (site_view s) []) as [Hb _].
  { split; [|constructor]. unfold base. rewrite Hserve, Hslot. split_and!; [done|lia|done]. }
  destruct Hs' as [->| ->]; [by rewrite Hq; split|]. cbn. rewrite Hq. split; [exact Hb|]. constructor; [|constructor]. split; cbn; [lia|done].
Qed.
Lemma settle_ok e p : plane_ok p -> plane_ok (settle e p).
Proof.
  intros Hok. unfold settle. destruct (place p) as [|t replies|t|t durable replies|t durable replies] eqn:Hp; [done| |done| |].
  - assert ((exists replies, place p = Preparing t replies) \/ place p = Prepared t \/ (exists durable replies, place p = Activating t durable replies)) as Hpre by eauto.
    destruct (all_answered replies p); [destruct (all_agreed replies)|destruct (any_retired p)]; try (by eapply compensate_from; [exact Hok|exact Hpre|apply same_files_refl]); [|done].
    destruct Hok as [Hw Hn Hs Hv Hr]. split; [by eapply wired_same; [|exact Hw]|intros t' Ht'; apply Hn; by rewrite Hp| | |by intros ? ? ? ?%not_elem_of_nil].
    + intros i s Hl. specialize (Hs i s Hl). unfold site_ok in *. by rewrite Hp in Hs.
    + intros i r s Hin Hq Hl. specialize (Hv i r s Hin Hq Hl). unfold vote_ok in *. by rewrite Hp in Hv.
  - destruct (all_answered replies p) eqn:Ea; [destruct (all_agreed replies) eqn:Eg; cbn [andb]; [destruct (may_commit e p)|]|destruct (any_retired p)]; [by eapply commit_ok| | | |done];
      (eapply compensate_from; [exact Hok|right; right; eauto|apply same_files_refl]).
  - destruct (all_answered replies p) eqn:Ea; [|done]. destruct Hok as [Hw Hn Hs Hv Hr]. destruct (Hn t) as [Hnum Hlt]; [by rewrite Hp|]. apply finish_ok; [done|lia|]. intros _ _ i s Hl.
    destruct (all_answered_spec _ _ _ _ Ea Hw Hl) as [r Hin]. destruct (Hr i r s) as [Hop Hvote]; [by rewrite Hp|done|]. rewrite Hp in Hop. injection Hop as Hop. unfold vote_ok in Hvote. rewrite Hp in Hvote.
    rewrite <- Hnum. by apply Hvote.
Qed.
Lemma fail_wait_ok e p : plane_ok p -> plane_ok (fail_wait e p).
Proof.
  intros Hok. unfold fail_wait. destruct (place p) as [|t replies|t|t durable replies|t durable replies] eqn:Hp; [done| |done| |].
  - eapply compensate_from; [exact Hok|eauto|apply same_files_refl].
  - eapply compensate_from; [exact Hok|right; right; eauto|apply same_files_refl].
  - destruct Hok as [Hw Hn Hs Hv Hr]. destruct (Hn t) as [Hnum Hlt]; [by rewrite Hp|]. apply finish_ok; [done|lia|done].
Qed.

(** Taking a message from the channel. *)
Lemma taken_ok p i m rest : plane_ok p -> results p = (i, m) :: rest ->
  plane_ok (Plane (plane_sequence p) (committed_number p) (published p) (plane_stopping p) (match m with Retired => {[i]} ∪ retired_workers p | Answered _ => retired_workers p end) (place p) (sites p) rest (files p)).
Proof.
  intros [[Ho Hq Hr Hret] Hn Hs Hv Hrep] E. split; [split; cbn|exact Hn|exact Hs| |exact Hrep].
  - done.
  - done.
  - intros j r Hin. apply (Hr j). rewrite E. by right.
  - intros j s Hj Hl. apply (Hret j s); [|done]. rewrite E. destruct Hj as [Hj|Hj]; [|right; by right]. destruct m; [by left|]. apply elem_of_union in Hj as [->%elem_of_singleton|Hj]; [right; by left|by left].
  - intros j r s Hin. apply (Hv j r s). rewrite E. by right.
Qed.
Lemma receive_ok e p : plane_ok p -> plane_ok (receive e p).
Proof.
  intros Hok. unfold receive. destruct (expected_operation (place p)) as [[[[operation t] durable] replies]|] eqn:Eo; [|done]. destruct (results p) as [|[i m] rest] eqn:Er; [done|].
  pose proof (taken_ok _ _ _ _ Hok Er) as Hok'. destruct m as [r|].
  2:{ cbn [place sites files]. case_bool_decide; [by apply settle_ok|by apply fail_wait_ok]. }
  set (p1 := Plane _ _ _ _ _ _ _ rest _) in *. assert (place p1 = place p) as Hplace by done. destruct (negb _ || negb _) eqn:Em; [done|]. apply orb_false_iff in Em as [Eq%negb_false_iff%Z.eqb_eq Eop%negb_false_iff%bool_decide_eq_true].
  destruct (existsb _ replies); [by apply fail_wait_ok|]. apply settle_ok. cbn [place].
  assert (forall s, live p i s -> vote_ok p s r) as Hvote.
  { intros s Hl. apply (ok_votes _ Hok i r s); [rewrite Er; by left| |done]. destruct (ok_number _ Hok t) as [<- _]; [|done]. unfold expected_operation in Eo. by destruct (place p); try done; injection Eo as _ <- _ _. }
  destruct Hok' as [Hw Hn Hs Hv Hr]. rewrite Hplace.
  assert (under_way (with_replies (place p) (replies ++ [(i, r)])) = under_way (place p)) as Hu by (by destruct (place p)).
  split; [by eapply wired_same; [|exact Hw]|intros t'; cbn; rewrite Hu; apply Hn| | |].
  - intros j s Hl. specialize (Hs j s Hl). unfold site_ok in *. cbn in *. by destruct (place p).
  - intros j r' s Hin Hsq Hl. specialize (Hv j r' s Hin Hsq Hl). unfold vote_ok in *. cbn in *. by destruct (place p).
  - intros j r' s Hin Hl. cbn [place set_place] in Hin |- *.
    assert (operation_of (place p) = Some operation /\ replies_of (place p) = replies /\ replies_of (with_replies (place p) (replies ++ [(i, r)])) = replies ++ [(i, r)] /\
      operation_of (with_replies (place p) (replies ++ [(i, r)])) = operation_of (place p)) as (Ha & Hb & Hc & Hd) by (unfold expected_operation in Eo; destruct (place p); try done; by injection Eo as <- <- <- <-).
    rewrite Hc in Hin. rewrite Hd, Ha. assert (Some operation = Some (result_operation r') /\ vote_ok p s r') as [? Hvo].
    { apply elem_of_app in Hin as [Hin|[= -> ->]%list_elem_of_singleton]; [|split; [by rewrite Eop|by apply Hvote]]. rewrite <- Ha. apply (Hr j r' s); [cbn; by rewrite Hb|done]. }
    split; [done|]. unfold vote_ok in *. cbn. by destruct (place p).
Qed.

Lemma plane_ok_files d p : plane_ok p -> plane_ok (set_files d p).
Proof. intros [Hw Hn Hs Hv Hr]. split; [by eapply wired_same; [|exact Hw]|exact Hn|exact Hs|exact Hv|exact Hr]. Qed.
Lemma plane_ok_stop p : plane_ok p -> plane_ok (set_stopping true p).
Proof.
  intros [Hw Hn Hs Hv Hr]. split; [by eapply wired_same; [|exact Hw]|exact Hn| |exact Hv|exact Hr]. intros i s Hl. specialize (Hs i s Hl). unfold site_ok in *. cbn. by destruct (place p).
Qed.
Lemma waiting_next C n P c v q : waiting C n P c v q -> C < n -> forall c', waiting C (n + 1) P c' v q.
Proof.
  intros [(Hs & Hd & Hslot) Ho] Hlt c'. split; [split_and!; [done|lia|]|].
  - destruct (slot v) as [[[s []] x]|]; [split; [lia|]; intros; lia|done|done].
  - eapply Forall_impl; [exact Ho|]. intros r [Hk Hop]. split; [done|]. destruct (operation_ r); try done; lia.
Qed.
Lemma waiting_enqueue C n P c s request : waiting C n P c (site_view s) (site_queue s) -> old C n c request -> waiting C n P c (site_view (enqueue request s)) (site_queue (enqueue request s)).
Proof. intros [Hb Ho] Hr. split; [exact Hb|]. cbn. apply Forall_app. split; [done|by constructor]. Qed.

Lemma begin_ok e staged c p : plane_ok p -> place p = Idle -> plane_ok (begin_reload e staged c p).
Proof.
  intros Hok Hp. unfold begin_reload. destruct (plane_stopping p || negb (accepting e)) eqn:Est; [done|]. apply orb_false_iff in Est as [Est _]. destruct (validate_next (published p) c); [|done].
  set (n := plane_sequence p + 1). set (t := Transaction n c staged). unfold send.
  set (p2 := set_sites _ (Plane n _ _ _ _ (Preparing t []) _ _ _)). pose proof (ok_wired _ Hok) as [Ho Hq Hr Hret].
  assert (plane_ok p2) as Hok2.
  { assert (wired (Plane n (committed_number p) (published p) (plane_stopping p) (retired_workers p) (Preparing t []) (sites p) (results p) (files p))) as Hw.
    { split; cbn; [subst n; lia| |intros i r Hin; specialize (Hr i r Hin); subst n; lia|exact Hret]. intros i s Hl. eapply Forall_impl; [by eapply Hq|]. cbn. intros; subst n; lia. }
    split.
    - apply (wired_broadcast _ (rejects e op_prepare) (retired_workers p) (WorkerRequest op_prepare n (committed_number p) (Some c) (deadline e))) in Hw; [exact Hw|cbn; lia].
    - intros t' [= <-]. cbn. subst n. lia.
    - intros i s' [(s & Hl & Hs')%broadcast_lookup Hlive]. unfold site_ok. cbn. assert (live p i s) as Hls by (split; [done|by destruct Hs' as [->| ->]]).
      pose proof (ok_sites _ Hok i s Hls) as Hs. unfold site_ok in Hs. rewrite Hp in Hs. specialize (Hs Est c).
      destruct Hs' as [->| ->]; [exact Hs|]. apply waiting_enqueue; [exact Hs|]. split; cbn; [lia|]. split; [subst n; lia|done].
    - intros i r s Hin Hseq. cbn in Hin, Hseq. specialize (Hr i r Hin). subst n. lia.
    - by intros i r s ?%not_elem_of_nil. }
  destruct (forallb _ _); [by apply settle_ok|]. eapply compensate_from; [exact Hok2|left; by eexists|apply same_files_refl].
Qed.

Lemma decide_ok e t p : plane_ok p -> place p = Prepared t -> plane_ok (decide_reload e t p).
Proof.
  intros Hok Hp. unfold decide_reload.
  assert (forall d durable, plane_ok (if plane_stopping (set_files d p) || negb (accepting e) then compensate e t durable (set_files d p)
    else let '(p, sent) := send (rejects e op_activate) false op_activate (number t) None (deadline e) (set_files d p) in
      if sent then settle e (set_place (Activating t durable []) p) else compensate e t durable p)) as Hgo.
  { intros d durable. apply (plane_ok_files d) in Hok as Hok'. assert (place (set_files d p) = Prepared t) as Hp' by done. destruct (_ || _); [eapply compensate_from; [exact Hok'|right; by left|apply same_files_refl]|].
    unfold send. set (request := WorkerRequest op_activate _ _ _ _). destruct (in_doubt_sites _ t Hok') as (Ht & Hn & Hs & Hv); [right; by left|].
    pose proof (wired_broadcast (set_files d p) (rejects e op_activate) (retired_workers p) request (ok_wired _ Hok') ltac:(cbn in *; lia)) as Hw. set (p1 := set_sites _ _) in *.
    assert (plane_ok (set_place (Activating t durable []) p1)) as Hok2.
    { split; [by eapply wired_same; [|exact Hw]|by intros ? [= <-]| | |by intros ? ? ? ?%not_elem_of_nil].
      - intros i s' [(s & Hl & Hs')%broadcast_lookup Hlive]. unfold site_ok. cbn. assert (live p i s) as Hls by (split; [done|by destruct Hs' as [->| ->]]).
        pose proof (ok_sites _ Hok i s Hls) as Hws. unfold site_ok in Hws. rewrite Hp in Hws. destruct Hs' as [->| ->]; [by apply waiting_in_doubt|]. destruct Hws as [Hb Ho].
        exists (site_queue s), [request]. split; [done|]. split; [done|]. right. exists request. split; [done|]. split; [|done]. split_and!; cbn; [lia|done|done].
      - intros i r s' Hin Hq [(s & Hl & Hs')%broadcast_lookup Hlive]. assert (live p i s) as Hls by (split; [done|by destruct Hs' as [->| ->]]).
        pose proof (ok_votes _ Hok i r s Hin Hq Hls) as Hvote. unfold vote_ok in *. rewrite Hp in Hvote. cbn. split; [apply Hvote|]. intros E. by apply Hvote in E. }
    destruct (forallb _ _); [by apply settle_ok|]. change (compensate e t durable p1) with (compensate e t durable (set_place (place p1) p1)).
    eapply compensate_from; [exact Hok2|right; right; by repeat eexists|by split_and!]. }
  destruct (staged t); [|apply (Hgo (files p))]. destruct (activate_staged (storage e) (files p)) as [d [previous|x]]; [apply Hgo|].
  eapply compensate_from; [exact Hok|right; by left|by split_and!].
Qed.

Lemma abandon_reload_ok e t p : plane_ok p -> place p = Prepared t -> plane_ok (abandon_reload e t p).
Proof.
  intros Hok Hp. unfold abandon_reload. set (request := WorkerRequest op_discard _ _ _ _). destruct (ok_number _ Hok t) as [Hnum Hlt]; [by rewrite Hp|]. pose proof (ok_wired _ Hok) as Hw.
  assert (0 <= committed_number p) as H0c by apply Hw.
  apply plane_idle; [eapply wired_same; [|apply (wired_broadcast p (rejects e op_discard) ∅ request Hw); cbn; lia]; by split_and!|done|].
  intros _ i s' [(s & Hl & Hs')%broadcast_lookup Hlive] c. cbn [committed_number plane_sequence published set_place set_sites]. assert (live p i s) as Hls by (split; [done|by destruct Hs' as [->| ->]]).
  pose proof (ok_sites _ Hok i s Hls) as Hs. unfold site_ok in Hs. rewrite Hp in Hs. rewrite <- Hnum. pose proof (waiting_next _ _ _ _ _ _ Hs Hlt c) as Hs2.
  destruct Hs' as [->| ->]; [exact Hs2|]. apply waiting_enqueue; [exact Hs2|]. split; cbn; lia.
Qed.

Lemma apply_ok key moved_from e answers node desired p : plane_ok p -> place p = Idle -> plane_ok (apply_desired key moved_from e answers node desired p).
Proof.
  intros Hok Hp. unfold apply_desired. destruct (receive_desired_state _ _ _ _ _ _ _) as [d [l|x]]; [|by apply plane_ok_files]. destruct (stage _ _ _ _ _) as [d' [u|x]]; [|by apply plane_ok_files].
  destruct (compile_config desired l) as [c|]; [|by apply plane_ok_files]. apply begin_ok; [by apply plane_ok_files|done].
Qed.
Lemma restore_ok key e startup_pending p : plane_ok p -> place p = Idle -> plane_ok (restore key e startup_pending p).
Proof.
  intros Hok Hp. unfold restore. destruct (restore_persisted_state _ _ _ _) as [d [[c|]|x]]; [|by apply plane_ok_files..]. apply begin_ok; [by apply plane_ok_files|done].
Qed.

(** ** What the workers do *)

Lemma plane_put p i s s' m : plane_ok p -> sites p !! i = Some s ->
  Forall (fun r => sequence_ r <= plane_sequence p) (site_queue s') -> (retired_site s' = false -> retired_site s = false /\ site_ok p s') ->
  match m with
  | Some (Answered r) => result_sequence r <= plane_sequence p /\ (retired_site s' = false -> vote_ok p s' r)
  | Some Retired => retired_site s' = true
  | None => True
  end ->
  (retired_site s' = false -> forall r, vote_ok p s r -> vote_ok p s' r) ->
  plane_ok (Plane (plane_sequence p) (committed_number p) (published p) (plane_stopping p) (retired_workers p) (place p) (<[i := s']> (sites p)) (results p ++ report i m) (files p)).
Proof.
  intros Hok Hi Hqueue Hsite Hm Hmono. pose proof Hok as [[Ho Hq Hr Hret] Hn Hs Hv Hrep].
  assert (forall j x, <[i := s']> (sites p) !! j = Some x -> (j = i /\ x = s') \/ (j <> i /\ sites p !! j = Some x)) as Hput.
  { intros j x. destruct (decide (j = i)) as [->|Hne]; [rewrite list_lookup_insert_eq by (by eapply lookup_lt_Some); intros [= <-]; by left|rewrite list_lookup_insert_ne by done; by right]. }
  assert (forall j r, (j, Answered r) ∈ results p ++ report i m -> (j, Answered r) ∈ results p \/ (j = i /\ m = Some (Answered r))) as Hreport.
  { intros j r [Hin|Hin]%elem_of_app; [by left|]. destruct m as [m|]; cbn in Hin; [|by apply not_elem_of_nil in Hin]. apply list_elem_of_singleton in Hin as [= -> <-]. by right. }
  split; [split; cbn| | | |].
  - done.
  - intros j x [[-> ->]|[_ Hx]]%Hput; [done|by eapply Hq].
  - intros j r [Hin|[-> ->]]%Hreport; [by apply (Hr j)|apply Hm].
  - intros j x Hj Hx. apply Hput in Hx. assert (retired_site x = true \/ retired_site x = false) as [Hx'|Hx'] by (destruct (retired_site x); auto); [done|exfalso].
    assert (j ∈ retired_workers p \/ (j, Retired) ∈ results p \/ (j = i /\ m = Some Retired)) as Hj'.
    { destruct Hj as [Hj|[Hj|Hj]%elem_of_app]; [by left|right; by left|]. destruct m as [m|]; cbn in Hj; [|by apply not_elem_of_nil in Hj]. apply list_elem_of_singleton in Hj as [= -> <-]. right; by right. }
    destruct Hx as [[-> ->]|[Hne Hx]].
    + destruct (Hsite Hx') as [Hlive _]. assert (retired_site s = true); [|congruence]. destruct Hj' as [Hj'|[Hj'|[_ ->]]]; [by apply (Hret i s); [left|]|by apply (Hret i s); [right|]|congruence].
    + assert (retired_site x = true); [|congruence]. destruct Hj' as [Hj'|[Hj'|[-> _]]]; [by apply (Hret j x); [left|]|by apply (Hret j x); [right|]|done].
  - exact Hn.
  - intros j x [[[-> ->]|[_ Hx]]%Hput Hl]; [apply (Hsite Hl)|by apply (Hs j)].
  - intros j r x Hin Hseq [Hx Hl]. cbn in Hin, Hseq, Hx. apply Hreport in Hin. apply Hput in Hx as [[-> ->]|[Hne Hx]].
    + destruct Hin as [Hin|[_ ->]]; [|by apply Hm]. apply (Hmono Hl). apply (Hv i r s Hin Hseq). split; [done|]. by apply Hsite.
    + destruct Hin as [Hin|[-> _]]; [|done]. by apply (Hv j).
  - intros j r x Hin [Hx Hl]. cbn in Hin, Hx. apply Hput in Hx as [[-> ->]|[Hne Hx]].
    + assert (live p i s) as Hls by (split; [done|by apply Hsite]). destruct (Hrep i r s Hin Hls) as [E Hvo]. split; [done|]. by apply (Hmono Hl).
    + by apply (Hrep j).
Qed.

Lemma site_handles_ok p i w w' request queue reply m run : plane_ok p -> sites p !! i = Some (Site w (request :: queue) true false) -> handle m request w = (w', reply) ->
  let s' := Site w' queue run false in
  site_ok p s' /\ (forall r, reply = Some r -> vote_ok p s' r) /\ (forall r, vote_ok p (Site w (request :: queue) true false) r -> vote_ok p s' r).
Proof.
  intros Hok Hi Hh s'. pose proof (handle_step _ _ _ _ _ Hh) as Hstep. pose proof (ok_sites _ Hok i _ (conj Hi eq_refl)) as Hs. pose proof (wired_order _ (ok_wired _ Hok)) as Ho.
  assert (forall r, reply = Some r -> result_operation r = operation_ request /\ ok_ <$> reply = Some (ok_ r)) as Hreply by (intros r ->; apply handle_reply in Hh as [? _]; done).
  unfold site_ok, vote_ok in *. destruct (place p) as [|t l|t|t d l|t d l] eqn:Hp; cbn [site_queue site_view site_worker] in *.
  - split; [|done]. intros Hst c. specialize (Hs Hst c). eapply waiting_handle in Hs; [apply Hs|lia|exact Hstep].
  - destruct (ok_number _ Hok t) as [_ Hlt]; [by rewrite Hp|]. eapply waiting_handle in Hs as (Hs & Ha & Hb); [|exact Hlt|exact Hstep]. split; [exact Hs|]. split; [|done]. intros r Hr. by destruct (Hreply r Hr) as [-> _].
  - destruct (ok_number _ Hok t) as [_ Hlt]; [by rewrite Hp|]. eapply waiting_handle in Hs as (Hs & Ha & Hb); [|exact Hlt|exact Hstep]. split; [exact Hs|]. split; [|done]. intros r Hr. by destruct (Hreply r Hr) as [-> _].
  - destruct (ok_number _ Hok t) as [_ Hlt]; [by rewrite Hp|]. eapply in_doubt_handle in Hs as (Hs & Hb & Ha); [|exact Hlt|exact Hstep]. split; [exact Hs|]. split.
    + intros r Hr. destruct (Hreply r Hr) as [Hop Hout]. rewrite Hop. split; [done|]. intros E1 E2. apply Ha; [done|]. by rewrite Hout, E2.
    + intros r [Hr1 Hr2]. split; [done|]. intros E1 E2. by destruct (Hr2 E1 E2) as [? _].
  - destruct (ok_number _ Hok t) as [_ Hlt]; [by rewrite Hp|]. eapply rolling_handle in Hs as (Hs & Ha); [|exact Hlt|exact Hstep]. split; [exact Hs|]. split.
    + intros r Hr E. apply Ha. by destruct (Hreply r Hr) as [<- _].
    + intros r Hr E. by destruct (Hr E) as [? _].
Qed.
Lemma site_ok_step p i s s' m : plane_ok p -> sites p !! i = Some s -> site_step s s' m ->
  plane_ok (Plane (plane_sequence p) (committed_number p) (published p) (plane_stopping p) (retired_workers p) (place p) (<[i := s']> (sites p)) (results p ++ report i m) (files p)).
Proof.
  intros Hok Hi Hstep. pose proof (wired_queues _ (ok_wired _ Hok) i s Hi) as Hq. apply (plane_put p i s s' m Hok Hi); destruct Hstep as [x request queue w w' reply Hh|x request queue w w' reply Hh|w queue run|w queue run|w queue run heard]; cbn in *; try done.
  - by apply Forall_cons in Hq as [_ Hq].
  - by apply Forall_cons in Hq as [_ Hq].
  - intros _. split; [done|]. by eapply site_handles_ok.
  - intros _. split; [done|]. by eapply site_handles_ok.
  - intros _. split; [done|]. pose proof (ok_sites _ Hok i _ (conj Hi eq_refl)) as Hs. unfold site_ok, site_view in *. cbn in *. rewrite view_stop.
    destruct (place p); [intros Hst c; specialize (Hs Hst c)|..]; by (apply waiting_release || apply in_doubt_release || apply rolling_release).
  - intros _. split; [done|]. exact (ok_sites _ Hok i _ (conj Hi eq_refl)).
  - destruct reply as [r|]; cbn; [|done]. split; [|intros _; destruct (site_handles_ok p i w w' request queue _ x true Hok Hi Hh) as (_ & Hv & _); by apply Hv]. pose proof (handle_reply _ _ _ _ _ Hh) as [_ ->]. by apply Forall_cons in Hq as [Hq _].
  - by destruct heard.
  - intros _. by destruct (site_handles_ok p i w w' request queue _ x true Hok Hi Hh) as (_ & _ & Hv).
  - intros _. by destruct (site_handles_ok p i w w' request queue _ x false Hok Hi Hh) as (_ & _ & Hv).
  - intros _ r Hr. unfold vote_ok, site_view in *. cbn in *. rewrite view_stop. destruct (place p); [done|done|done| |].
    + split; [apply Hr|]. intros E1 E2. destruct Hr as [_ Hr]. destruct (Hr E1 E2) as [Hnil Hm]. split; [done|]. pose proof Hm as Hrel. apply moved_release in Hrel. by rewrite Hrel.
    + intros E. by apply undone_release, Hr.
Qed.

Lemma plane_ok_step key moved_from p p' : plane_ok p -> plane_step key moved_from p p' -> plane_ok p'.
Proof.
  intros Hok Hstep. destruct Hstep; [by apply apply_ok|by apply restore_ok|by apply decide_ok|by apply abandon_reload_ok|by apply receive_ok|by apply fail_wait_ok|by apply plane_ok_stop|by eapply site_ok_step].
Qed.
Lemma plane_ok_new n d : plane_ok (new_plane n d).
Proof.
  apply plane_idle; [|done|].
  - split; cbn; [done| |by intros ? ? ?%not_elem_of_nil|].
    + intros i s [-> _]%lookup_replicate. constructor.
    + intros i s [Hi%not_elem_of_empty|Hi%not_elem_of_nil]; done.
  - intros _ i s [[-> _]%lookup_replicate _] c. split; [split_and!; cbn; [done|lia|done]|constructor].
Qed.
Lemma reachable_plane_ok key moved_from n d p : reachable_plane key moved_from n d p -> plane_ok p.
Proof. induction 1 as [|p p' _ IH Hstep]; [apply plane_ok_new|by eapply plane_ok_step]. Qed.
End Invariant.

(** * The disk *)

Section Disk.
Context `{CipherLaws} `{!StateMessages} `{!StateMessagesLaws} `{Artifacts} `{ManagedDetectors} `{Re2} `{!Re2Rules} `{MatchList.Asio} `{SortRanges} `{SecurityLibraries} `{!TlsContexts} `{EndpointAddresses}.
Variable key_ : bytes.
Variable moved_from : artifact.

(** A restart gives the configuration. *)
Definition restarts (d : disk) (c : compiled_config) : Prop := exists s l, compile_config s l = Returns c /\ load key_ reliable d = Value (PersistentState s (Some (node_spec_ c, release_ c)) l).
Definition durable_ok (d : disk) (P : option compiled_config) : Prop := match P with None => True | Some c => restarts d c end.
Definition restorable (d : disk) (durable : option (option bytes)) (P : option compiled_config) : Prop :=
  match durable with None => durable_ok d P | Some previous => forall io d' u, rollback_active io previous d = (d', Value u) -> durable_ok d' P end.
Definition candidate_ok (d : disk) (t : transaction) (P : option compiled_config) : Prop :=
  if staged t then forall io d' previous, activate_staged io d = (d', Value previous) -> restarts d' (candidate t) /\ restorable d' (Some previous) P else restarts d (candidate t).
Definition disk_ok (p : plane) : Prop :=
  match place p with
  | Idle => plane_stopping p = false -> durable_ok (files p) (published p)
  | Preparing t _ | Prepared t => durable_ok (files p) (published p) /\ candidate_ok (files p) t (published p)
  | Activating t durable _ => restorable (files p) durable (published p) /\ restarts (files p) (candidate t)
  | RollingBack t durable _ => restorable (files p) durable (published p)
  end.

Lemma durable_same d d' P : same_files d d' -> durable_ok d P -> durable_ok d' P.
Proof. intros Hsame. destruct P as [c|]; [|done]. intros (s & l & Hc & Hl). exists s, l. split; [done|]. by rewrite (load_same key_ _ _ _ Hsame). Qed.

Lemma finish_disk e durable confirmed p : restorable (files p) durable (published p) -> disk_ok (finish_rollback e durable confirmed p).
Proof.
  intros Hd. unfold disk_ok, finish_rollback. destruct durable as [previous|]; cbn in *; [|done]. destruct (rollback_active (storage e) previous (files p)) as [d r] eqn:E. cbn.
  rewrite !orb_false_iff. intros [_ Hr]. destruct r as [u|x]; [by eapply Hd|done].
Qed.
Lemma compensate_disk e t durable p : restorable (files p) durable (published p) -> disk_ok (compensate e t durable p).
Proof. intros Hd. unfold compensate, send. cbn [fst]. destruct (all_answered [] _); [by apply finish_disk|exact Hd]. Qed.
Lemma settle_disk e p : disk_ok p -> disk_ok (settle e p).
Proof.
  intros Hd. unfold settle. unfold disk_ok in Hd. destruct (place p) as [|t replies|t|t durable replies|t durable replies] eqn:Hp; try (unfold disk_ok; by rewrite Hp).
  - destruct (all_answered replies p); [destruct (all_agreed replies)|destruct (any_retired p)]; try (apply compensate_disk; apply Hd); [exact Hd|unfold disk_ok; by rewrite Hp].
  - destruct (all_answered replies p); [destruct (all_agreed replies && may_commit e p)|destruct (any_retired p)]; try (apply compensate_disk; apply Hd); [intros _; exact (proj2 Hd)|unfold disk_ok; by rewrite Hp].
  - destruct (all_answered replies p); [by apply finish_disk|unfold disk_ok; by rewrite Hp].
Qed.
Lemma fail_wait_disk e p : disk_ok p -> disk_ok (fail_wait e p).
Proof.
  intros Hd. unfold fail_wait. unfold disk_ok in Hd. destruct (place p) as [|t replies|t|t durable replies|t durable replies] eqn:Hp; try (unfold disk_ok; by rewrite Hp); try (apply compensate_disk; apply Hd). by apply finish_disk.
Qed.
Lemma receive_disk e p : disk_ok p -> disk_ok (receive e p).
Proof.
  intros Hd. unfold receive. destruct (expected_operation (place p)) as [[[[operation t] durable] replies]|] eqn:Eo; [|done]. destruct (results p) as [|[i m] rest]; [done|]. destruct m as [r|].
  - destruct (negb _ || negb _); [exact Hd|]. destruct (existsb _ replies); [by apply fail_wait_disk|]. apply settle_disk. unfold disk_ok in *. cbn. by destruct (place p).
  - case_bool_decide; [by apply settle_disk|by apply fail_wait_disk].
Qed.
Lemma begin_disk e is_staged c p : place p = Idle -> disk_ok p -> (plane_stopping p = false -> candidate_ok (files p) (Transaction (plane_sequence p + 1) c is_staged) (published p)) -> disk_ok (begin_reload e is_staged c p).
Proof.
  intros Hp Hd Hc. unfold begin_reload. destruct (plane_stopping p || negb (accepting e)) eqn:Est; [done|]. apply orb_false_iff in Est as [Est _]. unfold disk_ok in Hd. rewrite Hp in Hd. specialize (Hd Est). specialize (Hc Est).
  destruct (validate_next (published p) c); [|unfold disk_ok; by rewrite Hp]. unfold send. destruct (forallb _ _); [apply settle_disk; by split|by apply compensate_disk].
Qed.
Lemma decide_disk e t p : place p = Prepared t -> disk_ok p -> disk_ok (decide_reload e t p).
Proof.
  intros Hp Hd. unfold disk_ok in Hd. rewrite Hp in Hd. destruct Hd as [Hd Hc]. unfold candidate_ok in Hc. unfold decide_reload.
  assert (forall d durable, restorable d durable (published p) -> restarts d (candidate t) ->
    disk_ok (if plane_stopping (set_files d p) || negb (accepting e) then compensate e t durable (set_files d p)
    else let '(p, sent) := send (rejects e op_activate) false op_activate (number t) None (deadline e) (set_files d p) in
      if sent then settle e (set_place (Activating t durable []) p) else compensate e t durable p)) as Hgo.
  { intros d durable H1' H2'. destruct (_ || _); [by apply compensate_disk|]. unfold send. destruct (forallb _ _); [apply settle_disk; by split|by apply compensate_disk]. }
  destruct (staged t); [|by apply (Hgo (files p))]. destruct (activate_staged (storage e) (files p)) as [d [previous|x]] eqn:Ea.
  - destruct (Hc _ _ _ Ea) as [Hr Hu]. by apply Hgo.
  - apply compensate_disk. cbn. apply activate_staged_spec in Ea as [Ho Ha]. by eapply durable_same.
Qed.

(** Objects in the order of the manifest are those a restart loads. *)
Lemma same_order (l os : list artifact) : NoDup (map digest_sha256 l) -> os ≡ₚ l -> map digest_sha256 os = map digest_sha256 l -> os = l.
Proof.
  intros Hnd Hp E. apply list_eq. intros i. destruct (l !! i) as [o|] eqn:El; [|apply lookup_ge_None in El; apply lookup_ge_None; by rewrite Hp].
  pose proof (f_equal (fun x => x !! i) E) as Ei. cbn in Ei. rewrite !list_lookup_fmap, El in Ei. destruct (os !! i) as [o'|] eqn:Eo; [|done]. cbn in Ei. injection Ei as Ei. f_equal.
  eapply (objects_by_digest l); [done| |by eapply list_elem_of_lookup_2|done]. rewrite <- Hp. by eapply list_elem_of_lookup_2.
Qed.
Lemma apply_disk e answers node desired p : place p = Idle -> nonces_fit (storage e) -> no_collision key_ moved_from e answers node desired (files p) -> disk_ok p -> disk_ok (apply_desired key_ moved_from e answers node desired p).
Proof.
  intros Hp Hn Hcol Hd. unfold disk_ok in Hd. rewrite Hp in Hd. unfold apply_desired.
  destruct (receive_desired_state key_ moved_from (storage e) answers node desired (files p)) as [d received] eqn:Er.
  assert (plane_stopping p = false -> durable_ok d (published p)) as Hd1.
  { intros Hst. specialize (Hd Hst). destruct (published p) as [c|]; [|done]. destruct Hd as (s & l & Hc & Hl). exists s, l. split; [done|]. by eapply receive_keeps. }
  destruct received as [l|x]; [|unfold disk_ok; cbn; by rewrite Hp]. destruct (stage key_ (storage e) desired l d) as [d2 r] eqn:Es.
  assert (plane_stopping p = false -> durable_ok d2 (published p)) as Hd2.
  { intros Hst. specialize (Hd Hst). specialize (Hd1 Hst). destruct (published p) as [c|]; [|done]. destruct Hd as (s & l0 & Hc & Hl). exists s, l0. split; [done|].
    eapply load_staged; [exact Hn|exact Es|by eapply receive_keeps|]. by eapply Hcol. }
  destruct r as [u|x]; [|unfold disk_ok; cbn; by rewrite Hp]. destruct (compile_config desired l) as [c|] eqn:Ec; [|unfold disk_ok; cbn; by rewrite Hp].
  apply begin_disk; [done|unfold disk_ok; cbn; by rewrite Hp|]. intros Hst io d' previous Ha. destruct u. split.
  - pose proof (compiled_objects _ _ _ Ec) as (Hnd & _ & Hperm). destruct (staged_state_loads key_ (storage e) io reliable desired l c d d2 d' previous Ec Hn Es Ha ltac:(done)) as (_ & os & Hload & Hos & Hord).
    apply compile_config_parts in Ec as Hparts. destruct Hparts as (_ & _ & _ & _ & _ & _ & (_ & Hopen & _)%open_config_complete & _).
    rewrite <- (receive_ordered _ _ _ _ _ _ _ _ _ _ _ Er Hopen) in Hord; [|by rewrite <- Hperm]. rewrite (same_order l os Hnd Hos Hord) in Hload. exists desired, l. split; [exact Ec|exact Hload].
  - intros io' d3 v Hb. apply activate_staged_spec in Ha as [Ho (-> & Ha & _)]. apply rollback_active_spec in Hb as [Ho' Hb]. specialize (Hd2 Hst). eapply durable_same; [|exact Hd2]. split; [exact Hb|]. intros digest. rewrite Ho'. apply Ho.
Qed.

Lemma load_contents io d p : load key_ io d = Value p -> present (state_node_spec (active_ p)) = true -> exists contents, contents_ p = Some contents /\ open_state (active_ p) = Some contents.
Proof.
  unfold load. destruct (read_encrypted key_ io active_path d) as [[stored|]|]; cbn [result_bind]; [|by intros [= <-]|done]. destruct (parse_active stored) as [active|]; [|done]. destruct (negb _); [done|].
  destruct (open_state active) as [contents|] eqn:Eo; [|done]. destruct (negb _); [by intros [= <-]|]. destruct (load_references _ _ _ _); [|done]. cbn [result_bind]. intros [= <-] _. by exists contents.
Qed.
Lemma restore_disk e startup_pending p : place p = Idle -> disk_ok p -> disk_ok (restore key_ e startup_pending p).
Proof.
  intros Hp Hd. unfold disk_ok in Hd. rewrite Hp in Hd. unfold restore. destruct (restore_persisted_state key_ (storage e) startup_pending (files p)) as [d r] eqn:E. unfold restore_persisted_state in E.
  pose proof (load_agrees key_ (storage e) (files p)) as Hag.
  assert (plane_stopping p = false -> durable_ok d (published p)) as Hd'.
  { intros Hst. specialize (Hd Hst). destruct (published p) as [c|]; [|done]. assert (d = files p) as ->; [|done]. destruct Hd as (s & l & Hc & Hl). rewrite Hl in Hag.
    destruct (load key_ (storage e) (files p)) as [ps|[m|m]]; cbn in Hag; [|done|by injection E as <- _]. injection Hag as <-. cbn in E. rewrite Hc in E. destruct (present _); by injection E as <- _. }
  destruct r as [[c|]|x]; [|unfold disk_ok; cbn; by rewrite Hp..]. apply begin_disk; [done|unfold disk_ok; cbn; by rewrite Hp|]. intros Hst. cbn.
  assert (forall m, discard_unusable (storage e) startup_pending m (files p) <> (d, Value (Some c))) as Hdis.
  { intros m. unfold discard_unusable. destruct startup_pending; [done|]. by destruct (discard_active (storage e) (files p)) as [d0 []]. }
  destruct (load key_ (storage e) (files p)) as [ps|[m|m]] eqn:El; [|by apply Hdis in E|done]. destruct (present _) eqn:Epr; [|done]. destruct (compile_config (active_ ps) (stored_objects_ ps)) as [c'|m] eqn:Ec; [|by apply Hdis in E].
  assert (d = files p /\ c' = c) as [-> ->] by (split; congruence). cbn in Hag. destruct (load_contents _ _ _ El Epr) as (contents & Hcontents & Hopen).
  apply compile_config_parts in Ec as Hparts. destruct Hparts as (_ & _ & _ & _ & _ & _ & (_ & Hopen' & _)%open_config_complete & _). exists (active_ ps), (stored_objects_ ps). split; [done|].
  rewrite Hag. destruct ps as [active stored objects]. cbn in *. congruence.
Qed.

Lemma disk_ok_step p p' : disk_ok p -> plane_step key_ moved_from p p' -> disk_ok p'.
Proof.
  intros Hd Hstep. destruct Hstep as [e answers node desired p Hp Hn Hc|e pending p Hp|e t p Hp|e t p Hp|e p|e p|p|i s s' m p Hs Hst]; [by apply apply_disk|by apply restore_disk|by apply decide_disk| |by apply receive_disk|by apply fail_wait_disk| |exact Hd].
  - unfold disk_ok in *. rewrite Hp in Hd. intros _. exact (proj1 Hd).
  - unfold disk_ok in *. cbn. by destruct (place p).
Qed.
Lemma reachable_disk n d p : reachable_plane key_ moved_from n d p -> disk_ok p.
Proof. induction 1 as [|p p' _ IH Hstep]; [done|by eapply disk_ok_step]. Qed.
End Disk.

(** * The reload of a node *)

Section Theorems.
Context `{CipherLaws} `{!StateMessages} `{!StateMessagesLaws} `{Artifacts} `{ManagedDetectors} `{Re2} `{!Re2Rules} `{MatchList.Asio} `{SortRanges} `{SecurityLibraries} `{!TlsContexts} `{EndpointAddresses}.
Variable key_ : bytes.
Variable moved_from : artifact.

Lemma waiting_serves C n P c v q : waiting C n P c v q -> serving v = P.
Proof. by intros [(E & _) _]. Qed.
Lemma in_doubt_serves C n P c v q : in_doubt C n P c v q -> serving v = P \/ serving v = Some c.
Proof. intros (o & a & _ & _ & [[_ [Hb|Hm]]|(r & _ & _ & Hb)]); [left; apply Hb|right; apply Hm|left; apply Hb]. Qed.
Lemma rolling_serves C n P c v q : rolling C n P c v q -> serving v = P \/ serving v = Some c.
Proof. intros [(q' & b & _ & Hd & _)|[_ Hu]]; [by eapply in_doubt_serves|left; by apply (Hu c)]. Qed.
Lemma idle_serves p i s : plane_ok p -> place p = Idle -> plane_stopping p = false -> live p i s -> active_config (site_worker s) = published p.
Proof.
  intros Hok Hp Hst Hl. pose proof (ok_sites _ Hok i s Hl) as Hs. unfold site_ok in Hs. rewrite Hp in Hs. destruct (published p) as [c|] eqn:Ec.
  - exact (waiting_serves _ _ _ _ _ _ (Hs Hst c)).
  - (* any candidate would do; without one there is nothing to wait for *)
    destruct (active_config (site_worker s)) as [c|] eqn:Ea; [|done]. pose proof (waiting_serves _ _ _ _ _ _ (Hs Hst c)) as E. unfold site_view, view_of in E. cbn in E. congruence.
Qed.

(** A new configuration is published by the commit alone, when the node is not stopping. *)
Definition publishes (p p' : plane) : Prop := published p' = published p \/ (place p' = Idle /\ plane_stopping p' = false).
Lemma compensate_published e t durable p : published (compensate e t durable p) = published p.
Proof. unfold compensate, send. cbn [fst]. destruct (all_answered [] _); [|done]. by destruct (finish_same e durable true (set_sites (broadcast (rejects e op_rollback) (retired_workers p) (WorkerRequest op_rollback (number t) (committed_number p) None no_deadline) (sites p)) p)) as ((_ & _ & E & _) & _). Qed.
Lemma settle_publishes e p : publishes p (settle e p).
Proof.
  unfold settle. destruct (place p) as [|t replies|t|t durable replies|t durable replies] eqn:Hp; try (by left).
  - left. destruct (all_answered replies p); [destruct (all_agreed replies)|destruct (any_retired p)]; try done; apply compensate_published.
  - destruct (all_answered replies p); [destruct (all_agreed replies && may_commit e p) eqn:Em|destruct (any_retired p)]; try (left; apply compensate_published); [|by left].
    right. split; [done|]. apply andb_true_iff in Em as [_ Em]. unfold may_commit in Em. apply andb_true_iff in Em as [Em _]. by apply andb_true_iff in Em as [Em%negb_true_iff _].
  - left. destruct (all_answered replies p); [|done]. by destruct (finish_same e durable (all_agreed replies) p) as ((_ & _ & E & _) & _).
Qed.
Lemma fail_wait_published e p : published (fail_wait e p) = published p.
Proof. unfold fail_wait. destruct (place p) as [|t replies|t|t durable replies|t durable replies]; try done; try apply compensate_published. by destruct (finish_same e durable false p) as ((_ & _ & E & _) & _). Qed.
Lemma receive_publishes e p : publishes p (receive e p).
Proof.
  unfold receive. destruct (expected_operation (place p)) as [[[[operation t] durable] replies]|]; [|by left]. destruct (results p) as [|[i [r|]] rest]; [by left| |].
  - destruct (negb _ || negb _); [by left|]. destruct (existsb _ replies); [left; by rewrite fail_wait_published|].
    match goal with |- publishes p (settle e ?x) => destruct (settle_publishes e x) as [E|E]; [left; exact E|right; exact E] end.
  - case_bool_decide; [|left; by rewrite fail_wait_published]. match goal with |- publishes p (settle e ?x) => destruct (settle_publishes e x) as [E|E]; [left; exact E|right; exact E] end.
Qed.
Lemma begin_publishes e is_staged c p : publishes p (begin_reload e is_staged c p).
Proof.
  unfold begin_reload. destruct (_ || _); [by left|]. destruct (validate_next _ _); [|by left]. unfold send. destruct (forallb _ _); [|left; by rewrite compensate_published].
  match goal with |- publishes p (settle e ?x) => destruct (settle_publishes e x) as [E|E]; [left; exact E|right; exact E] end.
Qed.
Lemma decide_publishes e t p : publishes p (decide_reload e t p).
Proof.
  unfold decide_reload. destruct (if staged t then _ else _) as [p1 durable] eqn:E.
  assert (published p1 = published p) as E1 by (destruct (staged t); [destruct (activate_staged _ _)|]; by injection E as <- _).
  destruct durable as [durable|]; [|left; by rewrite compensate_published]. destruct (_ || _); [left; by rewrite compensate_published|]. unfold send. destruct (forallb _ _); [|left; by rewrite compensate_published].
  match goal with |- publishes p (settle e ?x) => destruct (settle_publishes e x) as [E2|E2]; [left; rewrite E2; exact E1|right; exact E2] end.
Qed.
Lemma step_publishes p p' : plane_step key_ moved_from p p' -> publishes p p'.
Proof.
  intros Hstep. destruct Hstep as [e answers node desired p Hp Hn Hc|e pending p Hp|e t p Hp|e t p Hp|e p|e p|p|i s s' m p Hs Hst]; try (by left).
  - unfold apply_desired. destruct (receive_desired_state _ _ _ _ _ _ _) as [d [l|x]]; [|by left]. destruct (stage _ _ _ _ _) as [d' [u|x]]; [|by left]. destruct (compile_config desired l) as [c|]; [|by left].
    destruct (begin_publishes e true c (set_files d' p)) as [E|E]; [by left|by right].
  - unfold restore. destruct (restore_persisted_state _ _ _ _) as [d [[c|]|x]]; [|by left..]. destruct (begin_publishes e false c (set_files d p)) as [E|E]; [by left|by right].
  - apply decide_publishes.
  - apply receive_publishes.
  - left. apply fail_wait_published.
Qed.

(** C4. A reload is atomic. However the workers' steps, the channels, the clock, the disk and the
    requests interleave with the coordinator: while no worker has voted for activation every live
    worker serves what is published; between the votes and the decision it serves that or the one
    candidate, never a mixture of others; and whenever the coordinator is idle again and the node is
    not stopping, all of them serve exactly what is published, and a restart of the node would load
    from the disk a state that compiles to the same configuration. *)
Theorem reload_is_atomic n d p : reachable_plane key_ moved_from n d p ->
  (forall i s, live p i s ->
     match place p with
     | Idle => plane_stopping p = false -> active_config (site_worker s) = published p
     | Preparing _ _ | Prepared _ => active_config (site_worker s) = published p
     | Activating t _ _ | RollingBack t _ _ => active_config (site_worker s) = published p \/ active_config (site_worker s) = Some (candidate t)
     end) /\
  (place p = Idle -> plane_stopping p = false -> forall c, published p = Some c ->
     exists state, load key_ reliable (files p) = Value state /\ compile_config (active_ state) (stored_objects_ state) = Returns c).
Proof.
  intros Hreach. pose proof (reachable_plane_ok _ _ _ _ _ Hreach) as Hok. pose proof (reachable_disk _ _ _ _ _ Hreach) as Hdisk. split.
  - intros i s Hl. pose proof (ok_sites _ Hok i s Hl) as Hs. unfold site_ok in Hs. destruct (place p) as [|t l|t|t du l|t du l] eqn:Hp.
    + intros Hst. by eapply idle_serves.
    + by apply waiting_serves in Hs.
    + by apply waiting_serves in Hs.
    + by apply in_doubt_serves in Hs.
    + by apply rolling_serves in Hs.
  - intros Hp Hst c Hc. unfold disk_ok in Hdisk. rewrite Hp, Hc in Hdisk. destruct (Hdisk Hst) as (s & l & Hcompile & Hload). by eexists.
Qed.

(** C5. A configuration is published only when it is everywhere: a step that changes what the node
    publishes leaves the coordinator idle and the node not stopping, with every live worker serving the
    new configuration and a disk from which it restarts. No failed vote, lost channel, expired
    deadline or failing file can publish it on a part of the node. *)
Theorem commit_is_everywhere n d p p' : reachable_plane key_ moved_from n d p -> plane_step key_ moved_from p p' -> published p' <> published p ->
  place p' = Idle /\ plane_stopping p' = false /\
  (forall i s, live p' i s -> active_config (site_worker s) = published p') /\
  (forall c, published p' = Some c -> exists state, load key_ reliable (files p') = Value state /\ compile_config (active_ state) (stored_objects_ state) = Returns c).
Proof.
  intros Hreach Hstep Hne. pose proof (reach_next _ _ _ _ _ _ Hreach Hstep) as Hreach'. pose proof (reachable_plane_ok _ _ _ _ _ Hreach') as Hok. pose proof (reachable_disk _ _ _ _ _ Hreach') as Hdisk.
  destruct (step_publishes _ _ Hstep) as [E|[Hp Hst]]; [done|]. split; [done|]. split; [done|]. split; [intros i s Hl; by eapply idle_serves|].
  intros c Hc. unfold disk_ok in Hdisk. rewrite Hp, Hc in Hdisk. destruct (Hdisk Hst) as (s & l & Hcompile & Hload). by eexists.
Qed.
End Theorems.

(** * Witnesses *)

Section Samples.
#[local] Existing Instance text_engine.
#[local] Existing Instance text_rules.
#[local] Existing Instance MatchList.dotted_quads.
#[local] Existing Instance merge_sort_ranges.
#[local] Existing Instance sample_libraries.
#[local] Existing Instance sample_artifacts.
#[local] Existing Instance sample_detectors.
#[local] Existing Instance sample_tls.
#[local] Existing Instance sample_addresses.
#[local] Existing Instance sample_cipher.
#[local] Existing Instance sample_cipher_laws.
#[local] Existing Instance sample_messages.
#[local] Existing Instance sample_messages_laws.

Definition calm : circumstances := Circumstances (fun _ _ => false) true 10 false no_faults.
Definition sample_nothing : artifact := Artifact [] [].
Definition sample_answers (n : nat) (digests : list bytes) : option (list artifact) := Some sample_delivered.
(** A worker takes its next request. *)
Definition advance (i : nat) (p : plane) : plane :=
  match sites p !! i with
  | Some (Site w (request :: queue) true false) =>
      let '(w', reply) := handle sample_moment request w in
      Plane (plane_sequence p) (committed_number p) (published p) (plane_stopping p) (retired_workers p) (place p) (<[i := Site w' queue true false]> (sites p)) (results p ++ ReloadTransaction.report i (Answered <$> reply)) (files p)
  | _ => p
  end.
Definition decide_prepared (p : plane) : plane := match place p with Prepared t => decide_reload calm t p | _ => p end.
(** Two workers, and the sample state applied to them. *)
Definition sample_voted : plane :=
  let p := apply_desired sample_key sample_nothing calm sample_answers (lit "node") sample_state (new_plane 2 ∅) in
  let p := receive calm (receive calm (advance 1 (advance 0 p))) in
  receive calm (advance 0 (advance 1 (decide_prepared p))).
Definition sample_committed : plane := receive calm sample_voted.

Section Reach.
Variables (n : nat) (d : disk) (p : plane).
Hypothesis Hp : reachable_plane sample_key sample_nothing n d p.
Lemma advance_reachable i : reachable_plane sample_key sample_nothing n d (advance i p).
Proof.
  unfold advance. destruct (sites p !! i) as [[w [|request queue] [] []]|] eqn:E; try exact Hp. destruct (handle sample_moment request w) as [w' reply] eqn:Eh.
  eapply reach_next; [exact Hp|]. eapply step_site; [exact E|]. by eapply site_handles.
Qed.
Lemma decide_reachable : reachable_plane sample_key sample_nothing n d (decide_prepared p).
Proof. unfold decide_prepared. destruct (place p) eqn:E; try exact Hp. eapply reach_next; [exact Hp|]. by apply step_decide. Qed.
Lemma receive_reachable : reachable_plane sample_key sample_nothing n d (receive calm p).
Proof. eapply reach_next; [exact Hp|]. apply step_receive. Qed.
End Reach.
Lemma sample_voted_reachable : reachable_plane sample_key sample_nothing 2 ∅ sample_voted.
Proof.
  unfold sample_voted. apply receive_reachable, advance_reachable, advance_reachable, decide_reachable, receive_reachable, receive_reachable, advance_reachable, advance_reachable.
  eapply reach_next; [apply reach_new|]. apply step_apply; [done|exact no_faults_nonces|]. intros st d' l Hl _ o o' _ Ho'. assert (stored_objects_ st = []) as E; [|rewrite E in Ho'; by apply not_elem_of_nil in Ho'].
  assert (load sample_key reliable ∅ = Value no_state) as El by done. cbn [files new_plane] in Hl. rewrite El in Hl. by injection Hl as <-.
Qed.
Definition is_idle (p : plane) : bool := match place p with Idle => true | _ => false end.
Definition sample_outcome (p : plane) : bool * bool * bool * nat := (is_idle p, plane_stopping p, present (published p), length (sites p)).
Lemma sample_votes : sample_outcome sample_voted = (false, false, false, 2%nat).
Proof. by vm_compute. Qed.
Lemma sample_commits : sample_outcome sample_committed = (true, false, true, 2%nat).
Proof. by vm_compute. Qed.

Lemma sample_second : match sites sample_committed !! 1%nat with Some s => retired_site s | None => true end = false.
Proof. by vm_compute. Qed.

(** What the theorems say of a plane with the sample's outcome. *)
Lemma committed_plane p :
  (forall i s, live p i s ->
     match place p with
     | Idle => plane_stopping p = false -> active_config (site_worker s) = published p
     | Preparing _ _ | Prepared _ => active_config (site_worker s) = published p
     | Activating t _ _ | RollingBack t _ _ => active_config (site_worker s) = published p \/ active_config (site_worker s) = Some (candidate t)
     end) /\
  (place p = Idle -> plane_stopping p = false -> forall c, published p = Some c ->
     exists state, load sample_key reliable (files p) = Value state /\ compile_config (active_ state) (stored_objects_ state) = Returns c) ->
  sample_outcome p = (true, false, true, 2%nat) -> match sites p !! 1%nat with Some s => retired_site s | None => true end = false ->
  exists c s, published p = Some c /\ live p 1 s /\ active_config (site_worker s) = Some c /\
    exists state, load sample_key reliable (files p) = Value state /\ compile_config (active_ state) (stored_objects_ state) = Returns c.
Proof.
  intros [Hserve Hdisk] Hc Hsite. unfold sample_outcome, is_idle in Hc. destruct (place p); try done. destruct (published p) as [c|]; [|done]. exists c. assert (plane_stopping p = false) as Hst by congruence.
  destruct (sites p !! 1%nat) as [s|] eqn:Es; [|done]. assert (live p 1 s) as Hlive by (by split). exists s. split; [done|]. split; [done|]. split; [by apply (Hserve 1%nat s Hlive)|]. by apply Hdisk.
Qed.
Lemma outcomes_differ p p' : sample_outcome p = (false, false, false, 2%nat) -> sample_outcome p' = (true, false, true, 2%nat) -> published p' <> published p.
Proof. unfold sample_outcome. intros Hv Hc E. rewrite E in Hc. congruence. Qed.
Lemma sample_committed_reachable : reachable_plane sample_key sample_nothing 2 ∅ sample_committed.
Proof. apply receive_reachable, sample_voted_reachable. Qed.

Lemma reload_is_atomic_witness :
  exists c s, published sample_committed = Some c /\ live sample_committed 1 s /\ active_config (site_worker s) = Some c /\
    exists state, load sample_key reliable (files sample_committed) = Value state /\ compile_config (active_ state) (stored_objects_ state) = Returns c.
Proof. exact (committed_plane _ (reload_is_atomic sample_key sample_nothing 2 ∅ sample_committed sample_committed_reachable) sample_commits sample_second). Defined.
Lemma commit_is_everywhere_witness : place sample_committed = Idle /\ plane_stopping sample_committed = false.
Proof.
  destruct (commit_is_everywhere sample_key sample_nothing 2 ∅ sample_voted sample_committed sample_voted_reachable (step_receive _ _ calm sample_voted) (outcomes_differ _ _ sample_votes sample_commits)) as (Hp & Hst & _).
  exact (conj Hp Hst).
Defined.
End Samples.
