(* ===== verification/RouteRules.v ===== *)
(** Route evaluation: src/node/data/route_rules.h.

    A request runs through the compiled routes of its website in three phases: the first
    matching redirect answers it, every matching transform rewrites its target from the original
    input, and every matching proxy rule chooses the origins and merges header mutations.

    What the code would read out of bounds (an index outside a vector, a null pattern, a capture
    outside the array of ten) is the outer [None] of an [option]; the inner option is the code's
    own [std::optional]. *)
From S2P Require Import Prelude RoutePolicy RouteMatch OriginHealth OriginSelection RouteProgram.
Open Scope Z_scope.

Abbreviation headers_view := (list (bytes * bytes)).

(** * Matching *)

Record route_match_context := mk_context {
  method_ : bytes;
  target_ : bytes;
  path_of : bytes;
  hostname_ : bytes;
  headers_ : headers_view
}.
Definition new_context (method target host : bytes) (headers : headers_view) : route_match_context :=
  mk_context method target (upto (find_char "?" target) target) host headers.
Definition with_target (c : route_match_context) (target : bytes) : route_match_context :=
  new_context (method_ c) target (hostname_ c) (headers_ c).
(** [query()]: the memo holds what its first call computes from the target. *)
Definition context_query (c : route_match_context) : option query_values := get_query_values (target_ c).

(** The loops over the headers and over the query: [present] and [equal]. *)
Definition scan_values (same_name : bytes -> bool) (same_value : bytes -> bool) (values : list (bytes * bytes)) :
    bool * bool :=
  fold_left (fun '(present, equal) '(name, value) =>
    if same_name name then (true, equal || same_value value) else (present, equal)) values (false, false).

Definition condition_op_holds (op : route_condition_op) (present equal : bool) : bool :=
  match op with
  | equals => equal
  | not_equals => present && negb equal
  | exists_ => present
  | absent => negb present
  end.

Definition route_condition_matches (condition : compiled_route_condition) (context : route_match_context) : bool :=
  match source_ condition with
  | header =>
      let '(present, equal) :=
        scan_values (fun name => ascii_equal name (cond_name_ condition))
          (fun value => trim_ows value == cond_value_ condition) (headers_ context) in
      condition_op_holds (op_ condition) present equal
  | query =>
      match context_query context with
      | None => false
      | Some values =>
          let '(present, equal) :=
            scan_values (fun name => name == cond_name_ condition) (fun value => value == cond_value_ condition) values in
          condition_op_holds (op_ condition) present equal
      end
  end.

(** * Query strings of destinations *)

Definition apply_route_query (destination incoming : bytes) (mode : route_query_kind) (replacement : bytes) : bytes :=
  let fragment_at := find_char "#" destination in
  let fragment := match fragment_at with None => [] | Some n => drop n destination end in
  let base := upto fragment_at destination in
  let result :=
    match mode with
    | drop_query => upto (find_char "?" base) base
    | replace_query =>
        upto (find_char "?" base) base ++ (if empty replacement then [] else "?"%char :: replacement)
    | preserve =>
        match find_char "?" base, find_char "?" incoming with
        | None, Some question => base ++ drop question incoming
        | _, _ => base
        end
    end in
  result ++ fragment.

(** * Header mutations *)

(** [merge_headers] of one mutation: the entry of the same name is replaced, or a new one appended. *)
Fixpoint merge_header (destination : list header_mutation) (change : header_mutation) : list header_mutation :=
  match destination with
  | [] => [change]
  | existing :: rest =>
      if ascii_equal (mutation_name existing) (mutation_name change) then change :: rest
      else existing :: merge_header rest change
  end.
Definition merge_headers (destination changes : list header_mutation) : list header_mutation :=
  fold_left merge_header changes destination.

Definition apply_route_headers (headers : headers_view) (mutations : list header_mutation) : headers_view :=
  if empty mutations then headers
  else
    List.filter (fun '(name, _) => negb (existsb (fun m => ascii_equal name (mutation_name m)) mutations)) headers
    ++ map (fun m => (mutation_name m, mutation_value m)) mutations.

(** * Header mutations: their effect

    Names compare case-insensitively; a change of a name wins over the earlier ones. *)
Definition named (name : bytes) (m : header_mutation) : bool := ascii_equal (mutation_name m) name.
Definition header_values (name : bytes) (headers : headers_view) : list bytes :=
  map snd (List.filter (fun '(n, _) => ascii_equal n name) headers).
(** The last change of a name. *)
Definition last_change (name : bytes) (changes : list header_mutation) : option header_mutation :=
  last (List.filter (named name) changes).

Lemma named_same a b name : ascii_equal (mutation_name a) (mutation_name b) = true -> named name a = named name b.
Proof.
  unfold named. intros E%ascii_equal_spec. apply eq_bool_prop_intro. rewrite !Is_true_true, !ascii_equal_spec.
  by rewrite E.
Qed.

Lemma merge_header_spec d c name :
  (length (List.filter (named (mutation_name c)) d) <= 1)%nat ->
  List.filter (named name) (merge_header d c) =
    if named name c then [c] else List.filter (named name) d.
Proof.
  induction d as [|x d IH]; intros Hone; [done|]. cbn [merge_header List.filter] in *.
  change (ascii_equal (mutation_name x) (mutation_name c)) with (named (mutation_name c) x).
  destruct (named (mutation_name c) x) eqn:Ex; cbn [List.filter length] in *.
  - rewrite (named_same x c name Ex). destruct (named name c) eqn:Ec; [|done].
    f_equal. destruct (List.filter (named name) d) as [|y l] eqn:Ey; [done|].
    assert (y ∈ List.filter (named name) d) as [Hin Hy]%list_elem_of_In%List.filter_In by (rewrite Ey; left).
    assert (y ∈ List.filter (named (mutation_name c)) d) as Hin'.
    { apply list_elem_of_In, List.filter_In. split; [done|]. unfold named in *.
      apply ascii_equal_spec in Ec, Hy. apply ascii_equal_spec. congruence. }
    destruct (List.filter (named (mutation_name c)) d); [by apply not_elem_of_nil in Hin'|simpl in *; lia].
  - rewrite IH by done. destruct (named name c) eqn:Ec; [|done].
    destruct (named name x) eqn:En; [|done]. exfalso. unfold named in *.
    apply ascii_equal_spec in Ec, En. apply not_true_iff_false in Ex. apply Ex, ascii_equal_spec. congruence.
Qed.

(** After merging, every name changed has one entry: its last change. *)
Lemma merge_headers_spec changes name :
  List.filter (named name) (merge_headers [] changes) = option_list (last_change name changes).
Proof.
  unfold merge_headers, last_change. revert name.
  induction changes as [|c changes IH] using rev_ind; intros name; [done|].
  rewrite fold_left_app. cbn [fold_left]. rewrite merge_header_spec, IH; cycle 1.
  { rewrite IH. by destruct (last _); simpl; lia. }
  rewrite List.filter_app. cbn [List.filter]. destruct (named name c); [by rewrite last_snoc|by rewrite app_nil_r].
Qed.

Lemma mutated_spec name mutations :
  existsb (fun m => ascii_equal name (mutation_name m)) mutations = negb (empty (List.filter (named name) mutations)).
Proof.
  induction mutations as [|m mutations IH]; [done|]. cbn [existsb List.filter]. unfold named at 1.
  assert (ascii_equal name (mutation_name m) = ascii_equal (mutation_name m) name) as ->.
  { apply eq_bool_prop_intro. rewrite !Is_true_true, !ascii_equal_spec. naive_solver. }
  by destruct (ascii_equal (mutation_name m) name).
Qed.

Lemma apply_route_headers_values headers mutations name :
  header_values name (apply_route_headers headers mutations) =
    match List.filter (named name) mutations with [] => header_values name headers | ms => map mutation_value ms end.
Proof.
  unfold apply_route_headers. destruct (empty mutations) eqn:Ee; [by apply empty_spec in Ee as ->|].
  unfold header_values. rewrite List.filter_app, map_app.
  assert (map snd (List.filter (fun '(n, _) => ascii_equal n name) (map (fun m => (mutation_name m, mutation_value m)) mutations))
          = map mutation_value (List.filter (named name) mutations)) as ->.
  { clear. induction mutations as [|m l IH]; [done|]. cbn [map List.filter]. fold (named name m).
    unfold named at 1. fold (named name m). destruct (named name m); cbn [map]; [by f_equal|done]. }
  assert (map snd (List.filter (fun '(n, _) => ascii_equal n name)
             (List.filter (fun '(n, _) => negb (existsb (fun m => ascii_equal n (mutation_name m)) mutations)) headers))
          = if empty (List.filter (named name) mutations) then map snd (List.filter (fun '(n, _) => ascii_equal n name) headers) else []) as ->.
  { induction headers as [|[n v] headers IH]; [by case_match|]. cbn [List.filter]. rewrite mutated_spec.
    destruct (ascii_equal n name) eqn:En.
    - assert (List.filter (named n) mutations = List.filter (named name) mutations) as ->.
      { apply List.filter_ext. intros m. unfold named. apply eq_bool_prop_intro.
        rewrite !Is_true_true, !ascii_equal_spec. apply ascii_equal_spec in En. by rewrite En. }
      destruct (empty (List.filter (named name) mutations)); cbn [negb List.filter].
      + rewrite En. cbn [map]. by rewrite IH.
      + done.
    - destruct (negb (negb _)); cbn [List.filter]; [rewrite En|]; done. }
  destruct (List.filter (named name) mutations) eqn:E; cbn [empty]; [by rewrite app_nil_r|done].
Qed.

(** The effect of merged changes on a message: one value where a name was changed. *)
Lemma merged_values headers changes name :
  header_values name (apply_route_headers headers (merge_headers [] changes)) =
    match last_change name changes with Some m => [mutation_value m] | None => header_values name headers end.
Proof. rewrite apply_route_headers_values, merge_headers_spec. by destruct (last_change name changes). Qed.

Section Rules.
Context `{Re2}.

Definition route_matches (rule : compiled_route_rule) (context : route_match_context) : option bool :=
  let path := path_of context in
  if negb (empty (methods_ rule)) && negb (existsb (fun m => m == method_ context) (methods_ rule)) then Some false
  else if negb (empty (hostnames_ rule)) && negb (existsb (fun h => h == hostname_ context) (hostnames_ rule)) then Some false
  else if existsb (fun condition => negb (route_condition_matches condition context)) (conditions_ rule) then Some false
  else match match_ rule with
       | regex =>
           match pattern_ rule with
           | Some p => Some (re2_partial_match p path)
           | None => None
           end
       | suffix => Some (ends_with path (path_ rule))
       | exact => Some (path == path_ rule)
       | prefix =>
           Some (starts_with path (path_ rule) &&
                 (prefix_open_ rule || (size path =? size (path_ rule)) ||
                  match path !! length (path_ rule) with Some c => c == "/"%char | None => false end))
       end.

(** * Evaluation *)

Record evaluated_route_policy := mk_policy {
  pol_id : bytes;
  pol_action : bytes;
  pol_origin_group : bytes;
  pol_origin_ids : list bytes;
  pol_origins : origin_plan;
  pol_redirect_url : bytes;
  pol_redirect_status : Z;
  rewritten_target : bytes;
  pol_request_headers : list header_mutation;
  pol_response_headers : list header_mutation
}.

Definition new_policy (plan : compiled_website_routes) : option evaluated_route_policy :=
  match origin_plans_ plan with
  | [] => None
  | front :: _ => Some (mk_policy [] (lit "proxy") (default_origin_group_ plan) [] front [] 0 [] [] [])
  end.

(** The loop over the pieces; the inner [None] is a result that is too long. *)
Fixpoint expand_pieces (captures : list bytes) (value : route_capture_template) (result : bytes) :
    option (option bytes) :=
  match value with
  | [] => Some (Some result)
  | piece :: value' =>
      match (match piece with
             | Literal literal => Some literal
             | Capture group => captures !! group
             end) with
      | None => None
      | Some text =>
          let result := result ++ text in
          if 16384 <? size result then Some None else expand_pieces captures value' result
      end
  end.

Definition capture_array : nat := 10.
(** The array after [Match], which writes one entry per group and the whole match. *)
Definition filled (matched : list bytes) : list bytes := matched ++ repeat [] (capture_array - length matched).

Definition expand_route_captures (value : route_capture_template) (path : bytes) (pattern : re2) :
    option (option bytes) :=
  if (capture_array <? S (re2_groups pattern))%nat then None
  else match re2_match pattern path with
       | None => Some None
       | Some matched =>
           match expand_pieces (filled matched) value [] with
           | None => None
           | Some None => Some None
           | Some (Some result) =>
               if negb (clean_text result 16384) || present (find_char " " result) then Some None
               else Some (Some result)
           end
       end.

(** [strip_prefix] and [replace_prefix]: [base] stands for the prefix. *)
Definition replace_route_prefix (path rule_path base : bytes) : bytes :=
  if negb (starts_with path rule_path) then path
  else
    let suffix := drop (length rule_path) path in
    if empty suffix then (if empty base then lit "/" else base)
    else if ends_with base (lit "/") && starts_with suffix (lit "/") then base ++ drop 1 suffix
    else if negb (ends_with base (lit "/")) && negb (starts_with suffix (lit "/")) then base ++ lit "/" ++ suffix
    else base ++ suffix.

Definition rewrite_route_path (path : bytes) (rule : compiled_route_rule) : option (option bytes) :=
  match rewrite_ rule with
  | rewrite_none => Some (Some path)
  | replace_path =>
      match match_ rule with
      | regex => match pattern_ rule with
                 | Some p => expand_route_captures (rewrite_template_ rule) path p
                 | None => None
                 end
      | _ => Some (Some (rewrite_path_ rule))
      end
  | strip_prefix => Some (Some (replace_route_prefix path (path_ rule) (lit "/")))
  | replace_prefix => Some (Some (replace_route_prefix path (path_ rule) (rewrite_path_ rule)))
  end.

(** The empty location stands for a template that does not expand. *)
Definition route_redirect_location (target : bytes) (rule : compiled_route_rule) : option bytes :=
  let finish destination := apply_route_query destination target (query_ rule) (query_string_ rule) in
  match match_ rule with
  | regex =>
      match pattern_ rule with
      | None => None
      | Some p =>
          match expand_route_captures (redirect_template_ rule) (upto (find_char "?" target) target) p with
          | None => None
          | Some None => Some []
          | Some (Some destination) => Some (finish destination)
          end
      end
  | _ => Some (finish (redirect_url_ rule))
  end.

(** The redirect phase: [None] inside when no redirect matches, else the phase's answer. *)
Fixpoint redirect_phase (plan : compiled_website_routes) (incoming : route_match_context) (indices : list nat) :
    option (option (option evaluated_route_policy)) :=
  match indices with
  | [] => Some None
  | index :: indices' =>
      match rules_ plan !! index with
      | None => None
      | Some rule =>
          match route_matches rule incoming with
          | None => None
          | Some false => redirect_phase plan incoming indices'
          | Some true =>
              match route_redirect_location (target_ incoming) rule with
              | None => None
              | Some location =>
                  if empty location then Some (Some None)
                  else match new_policy plan with
                       | None => None
                       | Some result =>
                           Some (Some (Some (mk_policy (id_ rule) (lit "redirect") (pol_origin_group result)
                             (pol_origin_ids result) (pol_origins result) location (redirect_status_ rule) [] []
                             (response_headers_ rule))))
                       end
              end
          end
      end
  end.

(** The path change of one transform: [rewritten] is the target so far. *)
Definition change_path (rule : compiled_route_rule) (incoming : route_match_context) (rewritten : bytes) :
    option (option bytes) :=
  match rewrite_ rule with
  | rewrite_none => Some (Some rewritten)
  | _ =>
      match rewrite_route_path (path_of incoming) rule with
      | None => None
      | Some None => Some None
      | Some (Some path) =>
          let candidate := apply_route_query path (target_ incoming) (query_ rule) (query_string_ rule) in
          if empty candidate then Some None
          else
            let candidate := upto (find_char "?" candidate) candidate in
            Some (Some (candidate ++ match find_char "?" rewritten with Some n => drop n rewritten | None => [] end))
      end
  end.

Definition change_query (rule : compiled_route_rule) (incoming : route_match_context) (rewritten : bytes) : bytes :=
  match query_ rule with
  | preserve => rewritten
  | mode => apply_route_query rewritten (target_ incoming) mode (query_string_ rule)
  end.

Fixpoint transform_phase (plan : compiled_website_routes) (incoming : route_match_context) (indices : list nat)
    (rewritten : bytes) : option (option bytes) :=
  match indices with
  | [] => Some (Some rewritten)
  | index :: indices' =>
      match rules_ plan !! index with
      | None => None
      | Some rule =>
          match route_matches rule incoming with
          | None => None
          | Some false => transform_phase plan incoming indices' rewritten
          | Some true =>
              match change_path rule incoming rewritten with
              | None => None
              | Some None => Some None
              | Some (Some rewritten) =>
                  transform_phase plan incoming indices' (change_query rule incoming rewritten)
              end
          end
      end
  end.

Definition apply_proxy (rule : compiled_route_rule) (origins : origin_plan) (result : evaluated_route_policy) :
    evaluated_route_policy :=
  mk_policy (id_ rule) (pol_action result) (origin_group_ rule) (origin_ids_ rule) origins
    (pol_redirect_url result) (pol_redirect_status result) (rewritten_target result)
    (merge_headers (pol_request_headers result) (request_headers_ rule))
    (merge_headers (pol_response_headers result) (response_headers_ rule)).

Fixpoint proxy_phase (plan : compiled_website_routes) (context : route_match_context) (indices : list nat)
    (result : evaluated_route_policy) : option evaluated_route_policy :=
  match indices with
  | [] => Some result
  | index :: indices' =>
      match rules_ plan !! index with
      | None => None
      | Some rule =>
          match route_matches rule context with
          | None => None
          | Some false => proxy_phase plan context indices' result
          | Some true =>
              match origin_plans_ plan !! origin_plan_index_ rule with
              | None => None
              | Some origins => proxy_phase plan context indices' (apply_proxy rule origins result)
              end
          end
      end
  end.

Definition with_rewritten (result : evaluated_route_policy) (target : bytes) : evaluated_route_policy :=
  mk_policy (pol_id result) (pol_action result) (pol_origin_group result) (pol_origin_ids result)
    (pol_origins result) (pol_redirect_url result) (pol_redirect_status result) target
    (pol_request_headers result) (pol_response_headers result).

Definition evaluate_plan (plan : compiled_website_routes) (method target host : bytes) (headers : headers_view) :
    option (option evaluated_route_policy) :=
  if empty (rules_ plan) then
    match new_policy plan with Some result => Some (Some (with_rewritten result target)) | None => None end
  else
    let incoming := new_context method target (hostname host) headers in
    match redirect_phase plan incoming (redirects_ plan) with
    | None => None
    | Some (Some answer) => Some answer
    | Some None =>
        match new_policy plan, transform_phase plan incoming (transforms_ plan) target with
        | Some result, Some (Some rewritten) =>
            let context := if rewritten == target then incoming else with_target incoming rewritten in
            match proxy_phase plan context (proxies_ plan) (with_rewritten result rewritten) with
            | Some policy => Some (Some policy)
            | None => None
            end
        | Some _, Some None => Some None
        | _, _ => None
        end
    end.

Definition evaluate_route_rules (program : route_program) (object : nat) (method target host : bytes)
    (headers : headers_view) : throwing (option (option evaluated_route_policy)) :=
  throwing_bind (program_website program object) (fun plan =>
    Returns (evaluate_plan plan method target host headers)).
End Rules.

(** * Paths and queries of targets *)

Definition path_part (target : bytes) : bytes := upto (find_char "?" target) target.
Definition query_part (target : bytes) : bytes :=
  match find_char "?" target with Some n => drop n target | None => [] end.
Definition plain_path (path : bytes) : Prop := path <> [] /\ "?"%char ∉ path /\ "#"%char ∉ path.
(** Nothing, or a question mark and a query without a fragment. *)
Definition query_text (q : bytes) : Prop := (q = [] \/ exists r, q = "?"%char :: r) /\ "#"%char ∉ q.

Lemma path_part_app p q : "?"%char ∉ p -> (q = [] \/ exists r, q = "?"%char :: r) -> path_part (p ++ q) = p.
Proof.
  intros Hp [->|[r ->]]; unfold path_part.
  - rewrite app_nil_r. by rewrite (proj2 (find_char_None _ _) Hp).
  - by apply find_char_app_upto.
Qed.

Lemma query_part_app p q : "?"%char ∉ p -> (q = [] \/ exists r, q = "?"%char :: r) -> query_part (p ++ q) = q.
Proof.
  intros Hp [->|[r ->]]; unfold query_part.
  - rewrite app_nil_r. by rewrite (proj2 (find_char_None _ _) Hp).
  - rewrite (proj2 (find_char_Some _ _ (length p))) by eauto. by rewrite drop_app_length.
Qed.

Lemma path_query_part s : s = path_part s ++ query_part s /\ "?"%char ∉ path_part s /\
  (query_part s = [] \/ exists r, query_part s = "?"%char :: r).
Proof.
  unfold path_part, query_part. destruct (find_char "?" s) as [n|] eqn:E; cbn.
  - apply find_char_Some in E as (a & b & -> & <- & Ha). rewrite take_app_length, drop_app_length. eauto.
  - rewrite app_nil_r. apply find_char_None in E. auto.
Qed.

Section Transforms.
Context `{Re2}.

Definition transform_step (incoming : route_match_context) (rewritten : option bytes) (rule : compiled_route_rule) :
    option bytes :=
  match rewritten with
  | None => None
  | Some rewritten =>
      match change_path rule incoming rewritten with
      | Some (Some rewritten) => Some (change_query rule incoming rewritten)
      | _ => None
      end
  end.

(** The query a rule asks for, given the one that comes with the request. *)
Definition asked_query (rule : compiled_route_rule) (incoming : bytes) : bytes :=
  match query_ rule with
  | drop_query => []
  | replace_query => if empty (query_string_ rule) then [] else "?"%char :: query_string_ rule
  | preserve => incoming
  end.

Lemma apply_route_query_plain p q target rule :
  "?"%char ∉ p -> query_text q -> "#"%char ∉ p -> query_ rule <> preserve ->
  apply_route_query (p ++ q) target (query_ rule) (query_string_ rule) = p ++ asked_query rule [].
Proof.
  intros Hp [Hq Hf] Hpf Hm. unfold apply_route_query.
  assert (find_char "#" (p ++ q) = None) as -> by (apply find_char_None; rewrite elem_of_app; tauto).
  cbn [upto]. rewrite app_nil_r. pose proof (path_part_app p q Hp Hq) as Hcut. unfold path_part in Hcut.
  unfold asked_query. destruct (query_ rule); [done| |]; rewrite Hcut; [by rewrite app_nil_r|done].
Qed.

Lemma apply_route_query_cut p target rule :
  plain_path p -> path_part (apply_route_query p target (query_ rule) (query_string_ rule)) = p /\
  apply_route_query p target (query_ rule) (query_string_ rule) <> [].
Proof.
  intros (Hne & Hp & Hf). unfold apply_route_query.
  rewrite (proj2 (find_char_None _ _) Hf). cbn [upto]. rewrite (proj2 (find_char_None _ _) Hp), app_nil_r. cbn [upto].
  assert (Hcut : forall q, (q = [] \/ exists r, q = "?"%char :: r) -> path_part (p ++ q) = p /\ p ++ q <> []).
  { intros q Hq. split; [by apply path_part_app|]. by destruct p. }
  pose proof (Hcut [] ltac:(by left)) as Hnil. rewrite app_nil_r in Hnil.
  destruct (query_ rule).
  - destruct (path_query_part target) as (_ & _ & Hq). unfold query_part in Hq.
    destruct (find_char "?" target); [by apply Hcut|done].
  - done.
  - destruct (empty (query_string_ rule)); [by apply Hcut; auto|]. apply Hcut. eauto.
Qed.

Variable incoming : route_match_context.

Definition changes_path (rule : compiled_route_rule) : bool := negb (bool_decide (rewrite_ rule = rewrite_none)).
Definition changes_query (rule : compiled_route_rule) : bool := negb (bool_decide (query_ rule = preserve)).
Definition chosen_path (rules : list compiled_route_rule) : bytes :=
  match last (List.filter changes_path rules) with
  | Some rule => match rewrite_route_path (path_of incoming) rule with Some (Some path) => path | _ => [] end
  | None => path_part (target_ incoming)
  end.
Definition chosen_query (rules : list compiled_route_rule) : bytes :=
  match last (List.filter changes_query rules) with
  | Some rule => asked_query rule []
  | None => query_part (target_ incoming)
  end.

(** The rule's new path expands to a plain path and its query string has no fragment. *)
Definition transform_plain (rule : compiled_route_rule) : Prop :=
  (changes_path rule = true ->
   exists path, rewrite_route_path (path_of incoming) rule = Some (Some path) /\ plain_path path) /\
  "#"%char ∉ query_string_ rule.

Lemma change_path_plain rule p q path :
  "?"%char ∉ p -> query_text q -> changes_path rule = true ->
  rewrite_route_path (path_of incoming) rule = Some (Some path) -> plain_path path ->
  change_path rule incoming (p ++ q) = Some (Some (path ++ q)).
Proof.
  intros Hp [Hq _] Hc Hr Hplain. unfold change_path, changes_path in *. rewrite Hr.
  destruct (apply_route_query_cut path (target_ incoming) rule Hplain) as [Hcut Hne].
  pose proof (query_part_app p q Hp Hq) as Hqp. unfold query_part, path_part in *. rewrite Hqp, Hcut.
  destruct (empty (apply_route_query path (target_ incoming) (query_ rule) (query_string_ rule))) eqn:Ee.
  { apply empty_spec in Ee. contradiction. }
  destruct (rewrite_ rule); done.
Qed.

Lemma asked_query_text rule : "#"%char ∉ query_string_ rule -> query_text (asked_query rule []).
Proof.
  intros Hf. unfold asked_query, query_text. destruct (query_ rule); [set_solver..|].
  destruct (empty (query_string_ rule)); split; [by left|set_solver|eauto|].
  rewrite not_elem_of_cons. done.
Qed.

Lemma transforms_spec rules :
  "#"%char ∉ target_ incoming -> Forall transform_plain rules ->
  fold_left (transform_step incoming) rules (Some (target_ incoming)) = Some (chosen_path rules ++ chosen_query rules) /\
  "?"%char ∉ chosen_path rules /\ "#"%char ∉ chosen_path rules /\ query_text (chosen_query rules).
Proof.
  intros Hf. induction rules as [|rule rules IH] using rev_ind; intros Hall.
  { unfold chosen_path, chosen_query. cbn. destruct (path_query_part (target_ incoming)) as (E & Hp & Hq).
    split; [by rewrite <- E|]. rewrite E, not_elem_of_app in Hf. unfold query_text. tauto. }
  apply Forall_app in Hall as [Hrules [Hpath Hqf]%Forall_singleton].
  destruct (IH Hrules) as (Hfold & Hp & Hpf & Hq). rewrite fold_left_app, Hfold. cbn [fold_left transform_step].
  assert (exists path, change_path rule incoming (chosen_path rules ++ chosen_query rules) = Some (Some (path ++ chosen_query rules))
    /\ path = chosen_path (rules ++ [rule]) /\ "?"%char ∉ path /\ "#"%char ∉ path) as (path & -> & <- & Hp' & Hpf').
  { unfold chosen_path at 2. rewrite List.filter_app. cbn [List.filter].
    destruct (changes_path rule) eqn:Ec.
    - destruct (Hpath eq_refl) as (path & Hr & Hplain). exists path. rewrite last_snoc, Hr.
      split; [by apply change_path_plain|]. destruct Hplain as (_ & ? & ?). done.
    - exists (chosen_path rules). rewrite app_nil_r. unfold changes_path in Ec. reflect_bool.
      unfold change_path. by rewrite Ec. }
  assert (chosen_query (rules ++ [rule]) = if changes_query rule then asked_query rule [] else chosen_query rules) as ->.
  { unfold chosen_query. rewrite List.filter_app. cbn [List.filter].
    destruct (changes_query rule); [by rewrite last_snoc|by rewrite app_nil_r]. }
  unfold change_query. destruct (changes_query rule) eqn:Ec; unfold changes_query in Ec; reflect_bool.
  - split; [|by auto using asked_query_text].
    pose proof (apply_route_query_plain path (chosen_query rules) (target_ incoming) rule Hp' Hq Hpf' Ec) as Ha.
    by destruct (query_ rule); [done|rewrite Ha..].
  - rewrite Ec. done.
Qed.
End Transforms.

(** * Evaluation of well-formed programs *)

Section Evaluation.
Context `{Re2Laws}.
Variable w : routed_website.
Variable plan : compiled_website_routes.
Hypothesis Hplan : routes_ok w (route_rules w) plan.

(** The rule matches, once it is known to have the pattern it needs. *)
Definition holds (context : route_match_context) (rule : compiled_route_rule) : bool :=
  match route_matches rule context with Some b => b | None => false end.

Lemma route_matches_holds rule context :
  pattern_ok rule -> route_matches rule context = Some (holds context rule).
Proof.
  intros Hp. unfold holds, route_matches. repeat (case_match; try done).
  destruct Hp as (p & ? & _); congruence.
Qed.

Definition template_text (captures : list bytes) (piece : route_capture_piece) : bytes :=
  match piece with Literal text => text | Capture group => default [] (captures !! group) end.

Lemma expand_pieces_spec captures value result :
  length captures = capture_array -> references_bounded 9 value -> size result <= 16384 ->
  expand_pieces captures value result =
    let all := result ++ concat (map (template_text captures) value) in
    Some (if 16384 <? size all then None else Some all).
Proof.
  intros Hlen Hv. revert result. induction Hv as [|piece value Hpiece Hv IH]; intros result Hs.
  { cbn. rewrite app_nil_r, (proj2 (Z.ltb_ge _ _)) by done. done. }
  cbn [expand_pieces map concat].
  assert (match piece with Literal literal => Some literal | Capture group => captures !! group end
          = Some (template_text captures piece)) as ->.
  { destruct piece as [t|g]; [done|]. cbn. destruct Hpiece as [_ Hg].
    destruct (captures !! g) eqn:E; [done|]. apply lookup_ge_None in E. unfold capture_array in *. lia. }
  cbv zeta. destruct (16384 <? size (result ++ template_text captures piece)) eqn:Et; reflect_bool.
  - rewrite (proj2 (Z.ltb_lt _ _)); [done|]. rewrite app_assoc. unfold size in *. rewrite length_app. lia.
  - rewrite IH by done. cbv zeta. by rewrite app_assoc.
Qed.

Lemma filled_length p path matched :
  (re2_groups p <= 9)%nat -> re2_match p path = Some matched -> length (filled matched) = capture_array.
Proof.
  intros Hg Hm. unfold filled, capture_array. rewrite length_app, repeat_length, (re2_match_length _ _ _ Hm). lia.
Qed.

(** What [expand_route_captures] does when the pattern and the template are well formed. *)
Lemma expand_spec value path p :
  (re2_groups p <= 9)%nat -> references_bounded (Z.of_nat (re2_groups p)) value ->
  expand_route_captures value path p = Some
    (match re2_match p path with
     | None => None
     | Some matched =>
         let result := concat (map (template_text (filled matched)) value) in
         if (16384 <? size result) || negb (clean_text result 16384) || present (find_char " " result)
         then None else Some result
     end).
Proof.
  intros Hg Hv. unfold expand_route_captures.
  rewrite (proj2 (Nat.ltb_ge _ _)) by (unfold capture_array; lia).
  destruct (re2_match p path) as [matched|] eqn:Em; [|done].
  rewrite expand_pieces_spec; [|by eapply filled_length| |done]; cycle 1.
  { eapply Forall_impl; [exact Hv|]. intros [|]; [done|]. lia. }
  cbv zeta. cbn [app]. destruct (16384 <? _); [done|]. cbn [orb]. by destruct (_ || _).
Qed.

Lemma expand_defined value path p :
  (re2_groups p <= 9)%nat -> references_bounded (Z.of_nat (re2_groups p)) value ->
  exists r, expand_route_captures value path p = Some r.
Proof. intros Hg Hv. rewrite expand_spec by done. eauto. Qed.

Lemma redirect_location_defined rule target :
  pattern_ok rule -> exists location, route_redirect_location target rule = Some location.
Proof.
  intros Hp. unfold route_redirect_location. destruct (match_ rule) eqn:E; try (eauto; fail).
  destruct (Hp E) as (p & -> & Hg & _ & Ht).
  destruct (expand_defined _ (upto (find_char "?" target) target) p Hg Ht) as [[r|] ->]; eauto.
Qed.

Lemma change_path_defined rule incoming rewritten :
  pattern_ok rule -> exists r, change_path rule incoming rewritten = Some r.
Proof.
  intros Hp. unfold change_path.
  assert (exists r, rewrite_route_path (path_of incoming) rule = Some r) as [r ->].
  { unfold rewrite_route_path. destruct (rewrite_ rule); try (eauto; fail).
    destruct (match_ rule) eqn:E; try (eauto; fail). destruct (Hp E) as (p & -> & Hg & Ht & _).
    by apply expand_defined. }
  destruct (rewrite_ rule); [eauto| | |]; destruct r; try case_match; eauto.
Qed.

(** The reference evaluation: over the rules themselves, each proxy rule with a plan of its own. *)
Definition default_policy (target : bytes) : evaluated_route_policy :=
  mk_policy [] (lit "proxy") (default_origin_group w) [] (new_plan (site w) (default_origin_group w) []) [] 0
    target [] [].

Definition location_of (rule : compiled_route_rule) (target : bytes) : bytes :=
  default [] (route_redirect_location target rule).

Definition redirect_answer (target : bytes) (rule : compiled_route_rule) : option evaluated_route_policy :=
  let location := location_of rule target in
  if empty location then None
  else Some (mk_policy (id_ rule) (lit "redirect") (default_origin_group w) []
               (new_plan (site w) (default_origin_group w) []) location (redirect_status_ rule) [] []
               (response_headers_ rule)).

Definition own_plan (rule : compiled_route_rule) : origin_plan :=
  new_plan (site w) (effective_group (default_origin_group w) (origin_group_ rule)) (origin_ids_ rule).
Definition proxy_step (result : evaluated_route_policy) (rule : compiled_route_rule) : evaluated_route_policy :=
  apply_proxy rule (own_plan rule) result.

(** The rules of a phase that match. *)
Definition matching (phase : compiled_route_rule -> bool) (context : route_match_context) : list compiled_route_rule :=
  List.filter (fun rule => phase rule && holds context rule) (rules_ plan).

Definition proxy_context (incoming : route_match_context) (rewritten : bytes) : route_match_context :=
  if rewritten == target_ incoming then incoming else with_target incoming rewritten.

Definition reference_evaluation (method target host : bytes) (headers : headers_view) :
    option evaluated_route_policy :=
  let incoming := new_context method target (hostname host) headers in
  match matching is_redirect incoming with
  | rule :: _ => redirect_answer target rule
  | [] =>
      rewritten ← fold_left (transform_step incoming) (matching is_transform incoming) (Some target);
      Some (fold_left proxy_step (matching is_proxy (proxy_context incoming rewritten)) (default_policy rewritten))
  end.

(** What a phase loop needs of its indices. *)
Definition phase_ok (l : list nat) : Prop :=
  Forall (fun i => exists rule, rules_ plan !! i = Some rule /\ pattern_ok rule /\
                     plan_ok w (origin_plans_ plan) rule) l.
Definition phase_rules (l : list nat) : list compiled_route_rule := omap (fun i => rules_ plan !! i) l.

Lemma indices_ok P : phase_ok (indices P (rules_ plan)).
Proof.
  apply Forall_forall. intros i (rule & Hi & _)%indices_lookup. exists rule. split; [done|].
  split; [eapply (Forall_lookup_1 _ _ _ _ (ok_patterns _ _ _ Hplan)), Hi
         |eapply (Forall_lookup_1 _ _ _ _ (ok_plans _ _ _ Hplan)), Hi].
Qed.

Lemma new_policy_ok :
  exists result, new_policy plan = Some result /\ (forall target, with_rewritten result target = default_policy target) /\
    pol_origin_group result = default_origin_group w /\ pol_origin_ids result = [] /\
    pol_origins result = new_plan (site w) (default_origin_group w) [].
Proof.
  unfold new_policy. pose proof (ok_front _ _ _ Hplan) as Hf. pose proof (ok_group _ _ _ Hplan) as Hg.
  destruct (origin_plans_ plan) as [|front rest]; [done|]. simplify_eq/=. eexists. split; [done|].
  split; [|by rewrite Hg]. intros target. unfold default_policy, with_rewritten. cbn. by rewrite Hg.
Qed.

Lemma redirect_phase_spec incoming l :
  phase_ok l ->
  redirect_phase plan incoming l = Some
    (match List.filter (holds incoming) (phase_rules l) with
     | [] => None
     | rule :: _ => Some (redirect_answer (target_ incoming) rule)
     end).
Proof.
  induction 1 as [|i l (rule & Hi & Hp & _) _ IH]; [done|]. cbn [redirect_phase phase_rules omap list_omap].
  unfold phase_rules in IH. cbn. rewrite Hi. cbn [List.filter]. rewrite route_matches_holds by done.
  destruct (holds incoming rule); [|exact IH].
  destruct (redirect_location_defined rule (target_ incoming) Hp) as [location Hl].
  unfold redirect_answer, location_of. rewrite Hl. cbn. destruct (empty location); [done|].
  destruct new_policy_ok as (result & -> & _ & -> & -> & ->). done.
Qed.

Lemma transform_none incoming rules : fold_left (transform_step incoming) rules None = None.
Proof. by induction rules. Qed.

Lemma transform_phase_spec incoming l rewritten :
  phase_ok l ->
  transform_phase plan incoming l rewritten =
  Some (fold_left (transform_step incoming) (List.filter (holds incoming) (phase_rules l)) (Some rewritten)).
Proof.
  intros Hl. revert rewritten. induction Hl as [|i l (rule & Hi & Hp & _) _ IH]; intros rewritten; [done|].
  cbn. unfold phase_rules in IH. rewrite Hi. cbn [List.filter]. rewrite route_matches_holds by done.
  destruct (holds incoming rule); [|apply IH]. cbn [fold_left transform_step].
  destruct (change_path_defined rule incoming rewritten Hp) as [[r|] ->]; [apply IH|].
  by rewrite transform_none.
Qed.

Lemma proxy_phase_spec context l result :
  phase_ok l -> Forall (fun rule => action_ rule = proxy) (phase_rules l) ->
  proxy_phase plan context l result =
  Some (fold_left proxy_step (List.filter (holds context) (phase_rules l)) result).
Proof.
  intros Hl. revert result. induction Hl as [|i l (rule & Hi & Hp & Ho) _ IH]; intros result Hproxy; [done|].
  cbn in *. unfold phase_rules in IH. rewrite Hi in *. inversion Hproxy; subst.
  cbn [List.filter]. rewrite route_matches_holds by done.
  destruct (holds context rule); [|by apply IH]. rewrite Ho by done. by apply IH.
Qed.

Lemma phase_matching P context :
  List.filter (holds context) (phase_rules (indices P (rules_ plan))) = matching P context.
Proof.
  unfold phase_rules. rewrite indices_rules. unfold matching.
  induction (rules_ plan) as [|rule rules IH]; [done|]. cbn [List.filter].
  destruct (P rule); cbn [List.filter andb]; [|done]. destruct (holds context rule); [by f_equal|done].
Qed.

Lemma phase_proxies : Forall (fun rule => action_ rule = proxy) (phase_rules (indices is_proxy (rules_ plan))).
Proof.
  unfold phase_rules. rewrite indices_rules. apply Forall_forall.
  intros rule [_ Hr]%list_elem_of_In%List.filter_In. unfold is_proxy in Hr. by reflect_bool.
Qed.

Lemma evaluate_plan_spec method target host headers :
  evaluate_plan plan method target host headers = Some (reference_evaluation method target host headers).
Proof.
  unfold evaluate_plan, reference_evaluation. destruct new_policy_ok as (result & Hr & Hd & _).
  destruct (empty (rules_ plan)) eqn:Ee.
  { rewrite Hr, Hd. apply empty_spec in Ee. unfold matching. by rewrite Ee. }
  cbv zeta. rewrite (ok_redirects _ _ _ Hplan), (ok_transforms _ _ _ Hplan), (ok_proxies _ _ _ Hplan).
  rewrite redirect_phase_spec, phase_matching by apply indices_ok.
  destruct (matching is_redirect _) as [|rule rest]; [|done].
  rewrite Hr, transform_phase_spec, phase_matching by apply indices_ok.
  destruct (fold_left _ _ _) as [rewritten|]; [|done]. cbn [mbind option_bind].
  rewrite proxy_phase_spec, phase_matching, Hd by auto using indices_ok, phase_proxies. done.
Qed.


Lemma proxy_fold rules result :
  let final := fold_left proxy_step rules result in
  pol_action final = pol_action result /\ rewritten_target final = rewritten_target result /\
  (pol_id final, pol_origin_group final, pol_origin_ids final, pol_origins final) =
    match last rules with
    | Some rule => (id_ rule, origin_group_ rule, origin_ids_ rule, own_plan rule)
    | None => (pol_id result, pol_origin_group result, pol_origin_ids result, pol_origins result)
    end /\
  pol_request_headers final = merge_headers (pol_request_headers result) (concat (map request_headers_ rules)) /\
  pol_response_headers final = merge_headers (pol_response_headers result) (concat (map response_headers_ rules)).
Proof.
  cbv zeta. induction rules as [|rule rules IH] using rev_ind; [done|].
  destruct IH as (Ha & Ht & _ & Hq & Hs). rewrite fold_left_app, last_snoc. cbn.
  rewrite !map_app, !concat_app. cbn. rewrite !app_nil_r.
  unfold merge_headers in *. rewrite !fold_left_app, <- Hq, <- Hs. done.
Qed.
End Evaluation.

(** * Segments of paths *)

(** A path without its trailing slash. *)
Definition trimmed (path : bytes) : bytes :=
  if ends_with path (lit "/") then take (length path - 1) path else path.
(** The path is the rule's, or continues it after a slash. *)
Definition at_segment (rule_path path : bytes) : Prop :=
  path = rule_path \/ exists rest, path = trimmed rule_path ++ lit "/" ++ rest.

Lemma trimmed_slash path : ends_with path (lit "/") = true -> path = trimmed path ++ lit "/".
Proof.
  intros He. unfold trimmed. rewrite He. apply ends_with_spec in He as [r ->].
  rewrite length_app. cbn [length lit String.list_ascii_of_string]. by rewrite Nat.add_sub, take_app_length.
Qed.

Lemma prefix_test_spec path rule_path :
  starts_with path rule_path &&
    ((rule_path == lit "/") || ends_with rule_path (lit "/") || (size path =? size rule_path) ||
     match path !! length rule_path with Some c => c == "/"%char | None => false end) = true
  <-> at_segment rule_path path.
Proof.
  assert (Hopen : (rule_path == lit "/") || ends_with rule_path (lit "/") = ends_with rule_path (lit "/")).
  { destruct (rule_path == lit "/") eqn:E; [|done]. reflect_bool. by subst. }
  rewrite Hopen, andb_true_iff, starts_with_spec. unfold at_segment. split.
  - intros [[r ->] Ht]. destruct (ends_with rule_path (lit "/")) eqn:Ee.
    { right. exists r. by rewrite app_assoc, <- trimmed_slash. }
    cbn [orb] in Ht. apply orb_true_iff in Ht as [Hs|Hc].
    + left. reflect_bool. unfold size in Hs. rewrite length_app in Hs. destruct r; [by rewrite app_nil_r|simpl in Hs; lia].
    + rewrite lookup_app_r, Nat.sub_diag in Hc by lia. destruct r as [|c r]; [done|]. cbn in Hc. reflect_bool. subst c.
      right. exists r. unfold trimmed. by rewrite Ee.
  - intros [->|[rest Hr]].
    + split; [exists []; by rewrite app_nil_r|]. rewrite Z.eqb_refl. by rewrite orb_true_r.
    + destruct (ends_with rule_path (lit "/")) eqn:Ee.
      { split; [|done]. exists rest. by rewrite Hr, app_assoc, <- trimmed_slash. }
      unfold trimmed in Hr. rewrite Ee in Hr. subst path. split; [eauto|].
      rewrite lookup_app_r, Nat.sub_diag by lia. cbn [app lit String.list_ascii_of_string lookup list_lookup]. by rewrite orb_true_r.
Qed.

Lemma replace_prefix_spec rule_path base rest :
  (ends_with rule_path (lit "/") = true -> rest <> [] /\ starts_with rest (lit "/") = false) ->
  replace_route_prefix (trimmed rule_path ++ lit "/" ++ rest) rule_path base = trimmed base ++ lit "/" ++ rest.
Proof.
  intros Hrest. unfold replace_route_prefix.
  destruct (ends_with rule_path (lit "/")) eqn:Ee.
  - destruct (Hrest eq_refl) as [Hne Hs]. rewrite app_assoc, <- trimmed_slash by done.
    rewrite starts_with_app, drop_app_length, Hs. cbn [negb].
    assert (empty rest = false) as -> by by destruct rest.
    rewrite andb_false_r, andb_true_r. destruct (ends_with base (lit "/")) eqn:Eb; cbn [negb].
    + by rewrite (app_assoc (trimmed base)), <- trimmed_slash.
    + unfold trimmed. by rewrite Eb.
  - assert (trimmed rule_path = rule_path) as -> by (unfold trimmed; by rewrite Ee).
    rewrite starts_with_app, drop_app_length. cbn [negb app lit String.list_ascii_of_string empty starts_with drop].
    change ("/"%char == "/"%char) with true. rewrite andb_true_r, andb_false_r. cbn [andb].
    destruct (ends_with base ["/"%char]) eqn:Eb.
    + rewrite (trimmed_slash base Eb) at 1. by rewrite <- app_assoc.
    + unfold trimmed. cbn [lit String.list_ascii_of_string]. by rewrite Eb.
Qed.

(** * Properties *)

(** C1. Evaluating the compiled routes never reads out of bounds and is the three-phase reference:
    the first redirect that matches answers; else every matching transform rewrites the target in
    order; else every matching proxy rule, against the rewritten target, sets the origins, with a
    plan that is its own although compiled plans are shared. *)
Theorem evaluate_plan_reference `{Re2Laws} w plan method target host headers :
  compile_website_routes w = Returns plan ->
  evaluate_plan plan method target host headers = Some (reference_evaluation w plan method target host headers).
Proof. intros Hc%compile_routes_ok. by apply evaluate_plan_spec. Qed.

(** Transforms do not chain. When no redirect matches, the rewritten target is the path the last
    matching path rule makes of the original path, with the query the last matching query rule asks
    for; the original path or query stays where no rule changes it. *)
Theorem transforms_independent `{Re2Laws} w plan method target host headers :
  let incoming := new_context method target (hostname host) headers in
  let rules := matching plan is_transform incoming in
  compile_website_routes w = Returns plan ->
  matching plan is_redirect incoming = [] ->
  "#"%char ∉ target ->
  Forall (transform_plain incoming) rules ->
  exists policy, evaluate_plan plan method target host headers = Some (Some policy) /\
    rewritten_target policy = chosen_path incoming rules ++ chosen_query incoming rules.
Proof.
  cbv zeta. intros Hc%compile_routes_ok Hr Hf Hall. rewrite (evaluate_plan_spec w plan Hc).
  unfold reference_evaluation. rewrite Hr.
  destruct (transforms_spec (new_context method target (hostname host) headers) _ Hf Hall) as (Hfold & _).
  cbn [target_ new_context] in Hfold. rewrite Hfold.
  cbn [mbind option_bind]. eexists. split; [done|]. by rewrite (proj1 (proj2 (proxy_fold w _ _))).
Qed.

(** When no redirect matches and the evaluation has a result, its origins are those of the last
    proxy rule that matches the rewritten target (of the website's default group when there is
    none), and each header name changed by a matching rule ends with the one value of its last
    change, every other header being untouched. *)
Theorem proxy_choice `{Re2Laws} w plan method target host headers policy :
  let incoming := new_context method target (hostname host) headers in
  compile_website_routes w = Returns plan ->
  matching plan is_redirect incoming = [] ->
  evaluate_plan plan method target host headers = Some (Some policy) ->
  let rules := matching plan is_proxy (proxy_context incoming (rewritten_target policy)) in
  pol_action policy = lit "proxy" /\
  (pol_id policy, pol_origin_group policy, pol_origin_ids policy, pol_origins policy) =
    match last rules with
    | Some rule => (id_ rule, origin_group_ rule, origin_ids_ rule, own_plan w rule)
    | None => ([], default_origin_group w, [], new_plan (site w) (default_origin_group w) [])
    end /\
  (forall message name,
     header_values name (apply_route_headers message (pol_request_headers policy)) =
     match last_change name (concat (map request_headers_ rules)) with
     | Some change => [mutation_value change]
     | None => header_values name message
     end) /\
  (forall message name,
     header_values name (apply_route_headers message (pol_response_headers policy)) =
     match last_change name (concat (map response_headers_ rules)) with
     | Some change => [mutation_value change]
     | None => header_values name message
     end).
Proof.
  cbv zeta. intros Hc%compile_routes_ok Hr. rewrite (evaluate_plan_spec w plan Hc).
  unfold reference_evaluation. rewrite Hr. destruct (fold_left _ _ _) as [rewritten|]; [|done].
  cbn [mbind option_bind]. intros [= <-].
  destruct (proxy_fold w (matching plan is_proxy (proxy_context (new_context method target (hostname host) headers) rewritten))
              (default_policy w rewritten)) as (Ha & Ht & Hchoice & Hq & Hs).
  rewrite Ha, Ht, Hq, Hs. cbn [default_policy pol_request_headers pol_response_headers].
  split; [done|]. split; [exact Hchoice|]. split; intros; apply merged_values.
Qed.

(** A prefix rule without other conditions matches exactly the paths that are its own or that
    continue it after a slash, never a longer segment; and replacing the prefix of such a path puts
    the rest under the new base, with one slash between. *)
Theorem prefix_respects_segments `{Re2} rule context :
  match_ rule = prefix -> methods_ rule = [] -> hostnames_ rule = [] -> conditions_ rule = [] ->
  prefix_open_ rule = ((path_ rule == lit "/") || ends_with (path_ rule) (lit "/")) ->
  (route_matches rule context = Some true <-> at_segment (path_ rule) (path_of context)) /\
  (forall base rest,
     (ends_with (path_ rule) (lit "/") = true -> rest <> [] /\ starts_with rest (lit "/") = false) ->
     replace_route_prefix (trimmed (path_ rule) ++ lit "/" ++ rest) (path_ rule) base = trimmed base ++ lit "/" ++ rest).
Proof.
  intros Hm Hme Hh Hc Ho. split; [|apply replace_prefix_spec].
  unfold route_matches. rewrite Hm, Hme, Hh, Hc, Ho. cbn [empty negb andb existsb].
  split.
  - intros [= Ht]. by apply prefix_test_spec.
  - intros Ht%prefix_test_spec. by f_equal.
Qed.

(** * Witnesses *)

Definition example_headers : headers_view := [(lit "Host", lit "example.com")].

Lemma evaluate_plan_reference_witness :
  exists policy, @evaluate_plan text_engine example_program (lit "GET") (lit "/old/x?y=1") (lit "example.com") example_headers
    = Some (Some policy) /\ pol_redirect_url policy = lit "/new/x?y=1".
Proof.
  rewrite (@evaluate_plan_reference text_engine text_engine_laws example_routes example_program) by (vm_compute; reflexivity).
  eexists. split; vm_compute; reflexivity.
Defined.

Definition example_incoming : route_match_context :=
  new_context (lit "GET") (lit "/api/x?y=1") (hostname (lit "example.com")) example_headers.
Definition example_rule (n : nat) : @compiled_route_rule text_engine :=
  default (@mk_rule text_engine [] proxy prefix rewrite_none preserve [] false None [] [] [] [] [] [] [] [] 0 [] [] 0 [] [])
    (rules_ example_program !! n).

Lemma example_transforms :
  @matching text_engine example_program (@is_transform text_engine) example_incoming = [example_rule 1; example_rule 2].
Proof. vm_compute. reflexivity. Qed.

Lemma example_plain : Forall (@transform_plain text_engine example_incoming) [example_rule 1; example_rule 2].
Proof.
  apply Forall_cons. split; [|apply Forall_singleton]; (split; [|by_decision]).
  - intros _. exists (lit "/v2/x"). split; [vm_compute; reflexivity|]. unfold plain_path. by_decision.
  - intros Hc. vm_compute in Hc. discriminate.
Qed.

Lemma transforms_independent_witness :
  exists policy, @evaluate_plan text_engine example_program (lit "GET") (lit "/api/x?y=1") (lit "example.com") example_headers
    = Some (Some policy) /\ rewritten_target policy = lit "/v2/x?k=1".
Proof.
  destruct (@transforms_independent text_engine text_engine_laws example_routes example_program (lit "GET") (lit "/api/x?y=1")
    (lit "example.com") example_headers ltac:(vm_compute; reflexivity) ltac:(vm_compute; reflexivity) ltac:(by_decision)
    ltac:(fold example_incoming; rewrite example_transforms; exact example_plain)) as (policy & He & Ht).
  exists policy. split; [exact He|]. rewrite Ht. vm_compute. reflexivity.
Defined.

Definition example_policy : evaluated_route_policy :=
  match @evaluate_plan text_engine example_program (lit "GET") (lit "/api/x") (lit "example.com") example_headers with
  | Some (Some policy) => policy
  | _ => mk_policy [] [] [] [] (mk_plan [] []) [] 0 [] [] []
  end.

Lemma proxy_choice_witness :
  header_values (lit "X-A") (apply_route_headers [(lit "x-A", lit "0")] (pol_request_headers example_policy)) = [lit "2"].
Proof.
  exact (proj1 (proj2 (proj2 (@proxy_choice text_engine text_engine_laws example_routes example_program
    (lit "GET") (lit "/api/x") (lit "example.com") example_headers example_policy
    ltac:(vm_compute; reflexivity) ltac:(vm_compute; reflexivity) ltac:(vm_compute; reflexivity)))) [(lit "x-A", lit "0")] (lit "X-A")).
Defined.

Definition example_prefix_rule : @compiled_route_rule text_engine :=
  @mk_rule text_engine (lit "p") proxy prefix strip_prefix preserve (lit "/api") false None [] [] [] [] [] [] [] [] 0 [] [] 0 [] [].

Lemma prefix_respects_segments_witness :
  route_matches example_prefix_rule (new_context (lit "GET") (lit "/api/v1?x") [] []) = Some true.
Proof.
  apply (@prefix_respects_segments text_engine example_prefix_rule); [done..|].
  right. exists (lit "v1"). vm_compute. reflexivity.
Defined.
