(* ===== verification/CacheRecord.v ===== *)
(** On-disk cache metadata: src/node/data/cache_disk_record.h.

    The binary record of a cached object: length-prefixed strings, two lists of fields and thirteen
    numbers, all little-endian. The stream is the list of its bytes. *)
From S2P Require Import Prelude.
Open Scope Z_scope.

Abbreviation fields := (list (bytes * bytes)).

Record cache_disk_record := mk_record {
  key_ : bytes;
  website_ : bytes;
  policy_ : bytes;
  url_ : bytes;
  headers_ : fields;
  vary_ : fields;
  values_ : list Z
}.

Definition magic : bytes := lit "FECACHE1" ++ [chr 10].
Definition values_size : nat := 13.
Definition maximum_text : Z := 1048576.
Definition maximum_fields : Z := 256.

(** * Writing *)

Definition write_number (value : Z) : bytes := map (fun i => chr (Z.land (Z.shiftr value (8 * Z.of_nat i)) 255)) (seq 0 8).
Definition write_string (value : bytes) : bytes := write_number (size value) ++ value.
Definition write_field (field : bytes * bytes) : bytes := write_string (fst field) ++ write_string (snd field).
Definition write_fields (fields : fields) : bytes := write_number (size fields) ++ concat (map write_field fields).
Definition write (r : cache_disk_record) : bytes :=
  magic ++ write_string (key_ r) ++ write_string (website_ r) ++ write_string (policy_ r) ++ write_string (url_ r) ++
  write_fields (headers_ r) ++ write_fields (vary_ r) ++ concat (map write_number (values_ r)).

(** * Reading

    A reader takes a value off the front of the stream, or fails. *)
Definition reader (A : Type) : Type := bytes -> option (A * bytes).
Definition ret {A} (a : A) : reader A := fun s => Some (a, s).
Definition bind {A B} (x : reader A) (f : A -> reader B) : reader B :=
  fun s => match x s with Some (a, s') => f a s' | None => None end.
Declare Scope reader_scope.
Notation "'let*' x := p 'in' q" := (bind p (fun x => q))
  (at level 200, x pattern, p at level 100, q at level 200) : reader_scope.
#[local] Open Scope reader_scope.
Definition fails {A} : reader A := fun _ => None.

Definition get : reader ascii := fun s => match s with [] => None | c :: s' => Some (c, s') end.
Definition take_bytes (n : nat) : reader bytes :=
  fun s => if (length s <? n)%nat then None else Some (take n s, drop n s).

(** The loop of [read_number] over byte [i] to byte 7. *)
Fixpoint read_digits (count : nat) (shift : Z) (value : Z) : reader Z :=
  match count with
  | O => ret value
  | S count' => let* byte := get in read_digits count' (shift + 8) (Z.lor value (Z.shiftl (code byte) shift))
  end.
Definition read_number : reader Z := read_digits 8 0 0.

(** A string within what remains of the bound, and what remains after it. *)
Definition read_string (remaining : Z) : reader (bytes * Z) :=
  let* size := read_number in
  if remaining <? size then fails
  else let* value := take_bytes (Z.to_nat size) in ret (value, remaining - size).

Fixpoint fields_loop (count : nat) (remaining : Z) (result : fields) : reader (fields * Z) :=
  match count with
  | O => ret (result, remaining)
  | S count' =>
      let* (name, remaining) := read_string remaining in
      let* (value, remaining) := read_string remaining in
      fields_loop count' remaining (result ++ [(name, value)])
  end.
Definition read_fields (remaining : Z) : reader (fields * Z) :=
  let* count := read_number in
  if maximum_fields <? count then fails else fields_loop (Z.to_nat count) remaining [].

Fixpoint numbers_loop (count : nat) : reader (list Z) :=
  match count with
  | O => ret []
  | S count' => let* value := read_number in let* values := numbers_loop count' in ret (value :: values)
  end.

Definition read_record : reader cache_disk_record :=
  let* start := take_bytes 9 in
  if start != magic then fails
  else
    let* (key, remaining) := read_string maximum_text in
    let* (website, remaining) := read_string remaining in
    let* (policy, remaining) := read_string remaining in
    let* (url, remaining) := read_string remaining in
    let* (headers, remaining) := read_fields remaining in
    let* (vary, _) := read_fields remaining in
    let* values := numbers_loop values_size in
    ret (mk_record key website policy url headers vary values).
Definition read (input : bytes) : option cache_disk_record :=
  match read_record input with
  | Some (r, []) => Some r
  | _ => None
  end.

(** * Framing

    A reader that succeeds looks only at what it consumes. *)
Definition framed {A} (x : reader A) : Prop := forall s a r q, x s = Some (a, r) -> x (s ++ q) = Some (a, r ++ q).

Create HintDb framing.

Lemma framed_ret {A} (a : A) : framed (ret a).
Proof. intros s b r q H. injection H as <- <-. done. Qed.

Lemma framed_fails {A} : framed (@fails A).
Proof. by intros s a r q. Qed.

Lemma framed_bind {A B} (x : reader A) (f : A -> reader B) :
  framed x -> (forall a, framed (f a)) -> framed (bind x f).
Proof.
  intros Hx Hf s b r q. unfold bind. destruct (x s) as [[a s']|] eqn:E; [|done].
  rewrite (Hx _ _ _ q E). apply Hf.
Qed.

Lemma framed_if {A} (b : bool) (x y : reader A) : framed x -> framed y -> framed (if b then x else y).
Proof. by destruct b. Qed.

Lemma framed_get : framed get.
Proof. intros [|c s] a r q H; simplify_eq/=. done. Qed.

Lemma framed_take n : framed (take_bytes n).
Proof.
  intros s a r q. unfold take_bytes. destruct (length s <? n)%nat eqn:E; [done|]. intros [= <- <-]. reflect_bool.
  rewrite length_app, (proj2 (Nat.ltb_ge _ _)) by lia.
  by rewrite take_app_le, drop_app_le by lia.
Qed.

#[export] Hint Resolve framed_ret framed_fails framed_bind framed_if framed_get framed_take : framing.

Lemma framed_digits count shift value : framed (read_digits count shift value).
Proof. revert shift value. induction count; simpl; auto with framing. Qed.
#[export] Hint Resolve framed_digits : framing.

Lemma framed_string remaining : framed (read_string remaining).
Proof. unfold read_string, read_number. auto with framing. Qed.
#[export] Hint Resolve framed_string : framing.

Lemma framed_loop count remaining result : framed (fields_loop count remaining result).
Proof.
  revert remaining result. induction count; intros; simpl; [auto with framing|].
  apply framed_bind; [auto with framing|]. intros [??]. apply framed_bind; [auto with framing|]. by intros [??].
Qed.

Lemma framed_fields remaining : framed (read_fields remaining).
Proof. unfold read_fields, read_number. auto using framed_loop with framing. Qed.

Lemma framed_numbers count : framed (numbers_loop count).
Proof. unfold read_number. induction count; simpl; unfold read_number; auto with framing. Qed.
#[export] Hint Resolve framed_fields framed_numbers : framing.

Lemma framed_record : framed read_record.
Proof.
  unfold read_record. apply framed_bind; [auto with framing|]. intros start. apply framed_if; [auto with framing|].
  repeat (apply framed_bind; [auto with framing|]; intros [??]). auto with framing.
Qed.

(** * Round trips *)

Definition u64_list (values : list Z) : Prop := Forall is_u64 values.
Definition field_size (field : bytes * bytes) : Z := size (fst field) + size (snd field).
Definition fields_size (l : fields) : Z := fold_right (fun f n => field_size f + n) 0 l.
Definition text_size (r : cache_disk_record) : Z :=
  size (key_ r) + size (website_ r) + size (policy_ r) + size (url_ r) + fields_size (headers_ r) + fields_size (vary_ r).
(** The bounds of the format. *)
Definition record_ok (r : cache_disk_record) : Prop :=
  text_size r <= maximum_text /\ size (headers_ r) <= maximum_fields /\ size (vary_ r) <= maximum_fields /\
  length (values_ r) = values_size /\ u64_list (values_ r).

Definition reads {A} (x : reader A) (text : bytes) (a : A) : Prop := forall rest, x (text ++ rest) = Some (a, rest).

Lemma reads_bind {A B} (x : reader A) (f : A -> reader B) t u a b :
  reads x t a -> reads (f a) u b -> reads (bind x f) (t ++ u) b.
Proof. intros Hx Hf rest. unfold bind. rewrite <- app_assoc, Hx. apply Hf. Qed.

Lemma reads_ret {A} (a : A) : reads (ret a) [] a.
Proof. done. Qed.

Lemma size_nonneg {A} (l : list A) : 0 <= size l.
Proof. unfold size. lia. Qed.

Lemma fields_size_nonneg l : 0 <= fields_size l.
Proof. induction l as [|f l IH]; simpl; unfold field_size; [lia|]. pose proof (size_nonneg (fst f)). pose proof (size_nonneg (snd f)). lia. Qed.

Lemma byte_step x k :
  0 <= k -> Z.lor (x mod 2 ^ k) (Z.shiftl (Z.land (Z.shiftr x k) 255) k) = x mod 2 ^ (k + 8).
Proof.
  intros Hk. change 255 with (Z.ones 8). apply Z.bits_inj'. intros n Hn.
  rewrite Z.lor_spec, Z.shiftl_spec by lia.
  destruct (Z.lt_ge_cases n k) as [Hl|Hl].
  - rewrite (Z.testbit_neg_r _ (n - k)) by lia. rewrite orb_false_r, !Z.mod_pow2_bits_low by lia. done.
  - rewrite Z.mod_pow2_bits_high by lia. cbn [orb]. rewrite Z.land_spec, Z.shiftr_spec by lia.
    replace (n - k + k) with n by lia. destruct (Z.lt_ge_cases n (k + 8)) as [Hh|Hh].
    + rewrite Z.ones_spec_low, andb_true_r, Z.mod_pow2_bits_low by lia. done.
    + rewrite Z.ones_spec_high, andb_false_r, Z.mod_pow2_bits_high by lia. done.
Qed.

Lemma byte_code x : code (chr (Z.land x 255)) = Z.land x 255.
Proof. apply code_chr. change 255 with (Z.ones 8). rewrite Z.land_ones by lia. by apply Z.mod_pos_bound. Qed.

Lemma reads_digits x count k :
  reads (read_digits count (8 * Z.of_nat k) (x mod 2 ^ (8 * Z.of_nat k)))
    (map (fun i => chr (Z.land (Z.shiftr x (8 * Z.of_nat i)) 255)) (seq k count)) (x mod 2 ^ (8 * Z.of_nat (k + count))).
Proof.
  revert k. induction count as [|count IH]; intros k rest; cbn [seq map read_digits]; [by rewrite Nat.add_0_r|].
  unfold bind. cbn [get app]. rewrite byte_code, byte_step by lia.
  replace (8 * Z.of_nat k + 8) with (8 * Z.of_nat (S k)) by lia. rewrite IH. by rewrite Nat.add_succ_r.
Qed.

Lemma reads_number x : is_u64 x -> reads read_number (write_number x) x.
Proof.
  intros Hx rest. pose proof (reads_digits x 8 0 rest) as Hr.
  rewrite (Z.mod_small x (2 ^ (8 * Z.of_nat (0 + 8)))) in Hr by exact Hx.
  change (8 * Z.of_nat 0) with 0 in Hr. rewrite Z.mod_1_r in Hr. exact Hr.
Qed.

Lemma reads_take s : reads (take_bytes (length s)) s s.
Proof.
  intros rest. unfold take_bytes. rewrite length_app, (proj2 (Nat.ltb_ge _ _)) by lia.
  by rewrite take_app_length, drop_app_length.
Qed.

Lemma reads_string value remaining :
  size value <= remaining <= maximum_text -> reads (read_string remaining) (write_string value) (value, remaining - size value).
Proof.
  intros Hs. apply reads_bind with (a := size value).
  - apply reads_number. unfold is_u64, two64, maximum_text in *. pose proof (size_nonneg value). lia.
  - rewrite (proj2 (Z.ltb_ge _ _)) by lia. rewrite <- (app_nil_r value) at 2. apply reads_bind with (a := value).
    + unfold size. rewrite Nat2Z.id. apply reads_take.
    + apply reads_ret.
Qed.

Lemma reads_loop l remaining result :
  fields_size l <= remaining <= maximum_text ->
  reads (fields_loop (length l) remaining result) (concat (map write_field l)) (result ++ l, remaining - fields_size l).
Proof.
  revert remaining result. induction l as [|[name value] l IH]; intros remaining result Hs;
    cbn [length fields_loop map concat fields_size fold_right].
  - rewrite app_nil_r, Z.sub_0_r. apply reads_ret.
  - cbn [fields_size fold_right] in Hs. fold (fields_size l) in *. unfold field_size, write_field in *. cbn [fst snd] in *.
    pose proof (fields_size_nonneg l). pose proof (size_nonneg name). pose proof (size_nonneg value).
    rewrite <- app_assoc. eapply reads_bind; [apply reads_string; lia|].
    eapply reads_bind; [apply reads_string; lia|]. specialize (IH (remaining - size name - size value) (result ++ [(name, value)])).
    rewrite <- app_assoc in IH. replace (remaining - (size name + size value + fields_size l))
      with (remaining - size name - size value - fields_size l) by lia. apply IH. lia.
Qed.

Lemma reads_fields l remaining :
  fields_size l <= remaining <= maximum_text -> size l <= maximum_fields ->
  reads (read_fields remaining) (write_fields l) (l, remaining - fields_size l).
Proof.
  intros Hs Hc. eapply reads_bind.
  - apply reads_number. unfold is_u64, two64, maximum_fields in *. pose proof (size_nonneg l). lia.
  - rewrite (proj2 (Z.ltb_ge _ _)) by lia. unfold size. rewrite Nat2Z.id. by apply (reads_loop l remaining []).
Qed.

Lemma reads_numbers values : u64_list values -> reads (numbers_loop (length values)) (concat (map write_number values)) values.
Proof.
  induction 1 as [|x values Hx _ IH]; [by apply reads_ret|]. cbn [length numbers_loop map concat].
  eapply reads_bind; [by apply reads_number|]. rewrite <- (app_nil_r (concat _)).
  eapply reads_bind; [exact IH|apply reads_ret].
Qed.

Lemma reads_record r : record_ok r -> reads read_record (write r) r.
Proof.
  destruct r as [key website policy url headers vary values]. unfold record_ok, text_size.
  cbn [key_ website_ policy_ url_ headers_ vary_ values_].
  intros (Ht & Hh & Hv & Hl & Hu). unfold write, read_record. cbn [key_ website_ policy_ url_ headers_ vary_ values_].
  pose proof (size_nonneg key). pose proof (size_nonneg website). pose proof (size_nonneg policy). pose proof (size_nonneg url).
  pose proof (fields_size_nonneg headers). pose proof (fields_size_nonneg vary).
  eapply reads_bind; [apply (reads_take magic)|]. rewrite (bool_decide_eq_true_2 (magic = magic)) by done. cbn [negb].
  repeat (eapply reads_bind; [apply reads_string; lia|]).
  eapply reads_bind; [apply reads_fields; lia|]. eapply reads_bind; [apply reads_fields; lia|].
  rewrite <- (app_nil_r (concat _)), <- Hl. eapply reads_bind; [by apply reads_numbers|apply reads_ret].
Qed.


(** * What is read was written *)

Lemma lor_digit v k c :
  0 <= k -> 0 <= v < 2 ^ k ->
  let v' := Z.lor v (Z.shiftl (code c) k) in
  0 <= v' < 2 ^ (k + 8) /\ v' mod 2 ^ k = v /\ Z.shiftr v' k = code c.
Proof.
  intros Hk Hv. cbv zeta. pose proof (code_range c) as Hc. rewrite Z.shiftl_mul_pow2 by lia.
  assert (Z.lor v (code c * 2 ^ k) = code c * 2 ^ k + v) as ->.
  { rewrite Z.lor_comm, <- (Z.shiftl_mul_pow2 (code c) k) at 1 by lia. apply lor_shiftl_add; lia. }
  assert (2 ^ (k + 8) = 256 * 2 ^ k) as -> by (rewrite Z.pow_add_r by lia; lia).
  split; [nia|]. split.
  - rewrite Z.add_comm, Z_mod_plus_full. by apply Z.mod_small.
  - rewrite Z.shiftr_div_pow2 by lia. rewrite Z.div_add_l, (Z.div_small v) by lia. lia.
Qed.

Lemma digits_written count k v s x rest :
  0 <= v < 2 ^ (8 * Z.of_nat k) -> read_digits count (8 * Z.of_nat k) v s = Some (x, rest) ->
  s = map (fun i => chr (Z.land (Z.shiftr x (8 * Z.of_nat i)) 255)) (seq k count) ++ rest /\
  x mod 2 ^ (8 * Z.of_nat k) = v /\ 0 <= x < 2 ^ (8 * Z.of_nat (k + count)).
Proof.
  revert k v s. induction count as [|count IH]; intros k v s Hv; cbn [read_digits seq map app].
  - intros [= <- <-]. rewrite Nat.add_0_r. split; [done|]. split; [by apply Z.mod_small|done].
  - destruct s as [|c s]; [done|]. cbn. intros Hr.
    destruct (lor_digit v (8 * Z.of_nat k) c ltac:(lia) Hv) as (Hv' & Hmod & Hsh).
    replace (8 * Z.of_nat k + 8) with (8 * Z.of_nat (S k)) in * by lia.
    destruct (IH (S k) _ _ Hv' Hr) as (-> & Hx & Hxr).
    rewrite Nat.add_succ_r. split; [|split; [|exact Hxr]].
    + f_equal. assert (Z.land (Z.shiftr x (8 * Z.of_nat k)) 255 = code c) as ->; [|by rewrite chr_code].
      rewrite <- Hsh, <- Hx. change 255 with (Z.ones 8). rewrite Z.land_ones by lia.
      rewrite !Z.shiftr_div_pow2 by lia. replace (8 * Z.of_nat (S k)) with (8 * Z.of_nat k + 8) by lia.
      rewrite Z.pow_add_r by lia. rewrite Z.rem_mul_r by lia.
      rewrite (Z.mul_comm (2 ^ _) (_ mod 2 ^ 8)), Z.div_add by lia. rewrite (Z.div_small (x mod _)) by (apply Z.mod_pos_bound; lia). lia.
    + rewrite <- Hmod, <- Hx. replace (8 * Z.of_nat (S k)) with (8 * Z.of_nat k + 8) by lia.
      rewrite Z.pow_add_r by lia. rewrite Z.rem_mul_r by lia. rewrite (Z.mul_comm (2 ^ _) (_ mod 2 ^ 8)), Z_mod_plus_full. by rewrite Zmod_mod.
Qed.

Lemma number_written s x rest : read_number s = Some (x, rest) -> s = write_number x ++ rest /\ is_u64 x.
Proof.
  intros Hr. destruct (digits_written 8 0 0 s x rest ltac:(cbn; lia) Hr) as (-> & _ & Hx). split; [done|exact Hx].
Qed.

Lemma take_written n s t rest : take_bytes n s = Some (t, rest) -> s = t ++ rest /\ length t = n.
Proof.
  unfold take_bytes. destruct (length s <? n)%nat eqn:E; [done|]. intros [= <- <-]. reflect_bool.
  rewrite take_drop, length_take. split; [done|lia].
Qed.

Lemma bind_Some {A B} (x : reader A) (f : A -> reader B) s b rest :
  bind x f s = Some (b, rest) -> exists a s', x s = Some (a, s') /\ f a s' = Some (b, rest).
Proof. unfold bind. destruct (x s) as [[a s']|]; [eauto|done]. Qed.

(** Peel one bind off a reading hypothesis. *)
Ltac peel H := let a := fresh "a" in let s := fresh "s" in let E := fresh "E" in apply bind_Some in H as (a & s & E & H).

Lemma string_written remaining s value left rest :
  read_string remaining s = Some ((value, left), rest) ->
  s = write_string value ++ rest /\ left = remaining - size value /\ size value <= remaining.
Proof.
  unfold read_string. intros H. peel H. apply number_written in E as [-> Hn].
  destruct (remaining <? a) eqn:Er; [done|]. peel H. apply take_written in E as [-> Hl].
  injection H as -> <- ->. reflect_bool. unfold is_u64 in Hn.
  assert (size value = a) as <- by (unfold size; lia). unfold write_string. by rewrite app_assoc.
Qed.

Lemma loop_written count remaining result s out left rest :
  fields_loop count remaining result s = Some ((out, left), rest) -> 0 <= remaining ->
  exists l, out = result ++ l /\ length l = count /\ s = concat (map write_field l) ++ rest /\
    left = remaining - fields_size l /\ fields_size l <= remaining.
Proof.
  revert remaining result s. induction count as [|count IH]; intros remaining result s H Hr; cbn [fields_loop] in H.
  - injection H as <- <- <-. exists []. rewrite app_nil_r. cbn. split_and!; try done; lia.
  - peel H. destruct a as [name r1]. apply string_written in E as (-> & -> & Hn).
    peel H. destruct a as [value r2]. apply string_written in E as (-> & -> & Hv).
    destruct (IH _ _ _ H ltac:(lia)) as (l & -> & <- & -> & -> & Hl).
    exists ((name, value) :: l). cbn [map concat fields_size fold_right length]. fold (fields_size l).
    unfold write_field, field_size. cbn [fst snd]. rewrite <- !app_assoc. split_and!; try done; lia.
Qed.

Lemma fields_written remaining s l left rest :
  read_fields remaining s = Some ((l, left), rest) -> 0 <= remaining ->
  s = write_fields l ++ rest /\ left = remaining - fields_size l /\ fields_size l <= remaining /\ size l <= maximum_fields.
Proof.
  unfold read_fields. intros H Hr. peel H. apply number_written in E as [-> Hn].
  destruct (maximum_fields <? a) eqn:Em; [done|].
  destruct (loop_written _ _ _ _ _ _ _ H Hr) as (l' & -> & Hl & -> & -> & Hs).
  reflect_bool. unfold is_u64 in Hn. cbn [app]. assert (size l' = a) as <- by (unfold size; lia).
  unfold write_fields. rewrite <- app_assoc. done.
Qed.

Lemma numbers_written count s values rest :
  numbers_loop count s = Some (values, rest) ->
  s = concat (map write_number values) ++ rest /\ length values = count /\ u64_list values.
Proof.
  revert s values rest. induction count as [|count IH]; intros s values rest H; cbn [numbers_loop] in H.
  - injection H as <- <-. repeat split. constructor.
  - peel H. apply number_written in E as [-> Hn]. peel H. apply IH in E as (-> & <- & Hu).
    injection H as <- <-. cbn [map concat length]. rewrite <- app_assoc. repeat split. by constructor.
Qed.

Lemma record_written s r rest : read_record s = Some (r, rest) -> s = write r ++ rest /\ record_ok r.
Proof.
  unfold read_record. intros H. peel H. apply take_written in E as [-> _].
  destruct (a != magic) eqn:Em; [done|]. reflect_bool. subst a.
  peel H. destruct a as [key r1]. apply string_written in E as (-> & -> & Hkey).
  peel H. destruct a as [website r2]. apply string_written in E as (-> & -> & Hwebsite).
  peel H. destruct a as [policy r3]. apply string_written in E as (-> & -> & Hpolicy).
  peel H. destruct a as [url r4]. apply string_written in E as (-> & -> & Hurl).
  peel H. destruct a as [headers r5]. apply fields_written in E as (-> & -> & Hh & Hhc); [|lia].
  peel H. destruct a as [vary r6]. apply fields_written in E as (-> & -> & Hv & Hvc); [|lia].
  peel H. apply numbers_written in E as (-> & Hl & Hu). injection H as <- <-.
  unfold write, record_ok, text_size. cbn [key_ website_ policy_ url_ headers_ vary_ values_].
  rewrite <- !app_assoc. split_and!; try done; lia.
Qed.

(** The format is exact: a text reads as a record exactly when it is what the record writes and
    the record is within the bounds (one mebibyte of text, 256 fields a list, thirteen 64-bit
    numbers). So records survive the disk, and nothing read exceeds the bounds. *)
Theorem record_exact s r : read s = Some r <-> s = write r /\ record_ok r.
Proof.
  unfold read. split.
  - destruct (read_record s) as [[u [|c rest]]|] eqn:E; [|done..]. intros [= <-].
    apply record_written in E as [-> Hok]. by rewrite app_nil_r.
  - intros [-> Hok]. pose proof (reads_record r Hok []) as Hr. rewrite app_nil_r in Hr. by rewrite Hr.
Qed.

(** Incomplete records are never recovered: no text that a record reads from can be cut short or
    continued and still be read, so a torn write is always refused. *)
Theorem record_framing s r q : read s = Some r -> q <> [] ->
  read (s ++ q) = None /\ (forall p, s = p ++ q -> read p = None).
Proof.
  intros Hs Hq.
  assert (Hext : forall t u v, read t = Some u -> v <> [] -> read (t ++ v) = None).
  { intros t u v. unfold read. destruct (read_record t) as [[a [|c rest]]|] eqn:E; try done. intros _ Hv.
    rewrite (framed_record _ _ _ v E). cbn. by destruct v. }
  split; [by eapply Hext|]. intros p ->. destruct (read p) as [u|] eqn:E; [|done].
  by rewrite (Hext p u q E Hq) in Hs.
Qed.

(** * Witness *)

Definition example_record : cache_disk_record :=
  mk_record (lit "4:site") (lit "site") (lit "policy") (lit "https://example.com/a") [(lit "ETag", lit "x")] []
    [1; 2; 300; 200; 0; 1700000000; 1700003600; 1700090000; 18446744073709551615; 0; 0; 0; 0].

Lemma record_framing_witness : read (take 100 (write example_record)) = None.
Proof.
  apply (record_framing (write example_record) example_record (drop 100 (write example_record))).
  - vm_compute. reflexivity.
  - vm_compute. discriminate.
  - by rewrite take_drop.
Defined.
