(* ===== verification/CacheControl.v ===== *)
(** Cache headers: the header and directive functions of src/node/data/response_cache.h.

    Combined header values, cookies, the tokens of lists, the directives of Cache-Control with their
    quoted arguments, and wildcard patterns. Scanning loops carry an index into the text, as the
    source does, with the length of the text as fuel. *)
From S2P Require Import Prelude RoutePolicy RouteMatch CacheSettings CachePolicy CacheKey.
Open Scope Z_scope.

Abbreviation cache_headers := (list (bytes * bytes)).

Definition dquote : ascii := chr 34.
Definition backslash : ascii := chr 92.

(** * Header values *)

(** The values of all lines of a name, joined by commas. *)
Definition cache_header (headers : cache_headers) (name : bytes) : bytes :=
  snd (fold_left (fun '(found, result) '(key, value) =>
    if ascii_equal key name then (true, (if found : bool then result ++ lit "," else result) ++ value) else (found, result))
    headers (false, [])).

Definition cache_has_header (headers : cache_headers) (name : bytes) : bool :=
  existsb (fun field => ascii_equal (fst field) name) headers.

Definition cache_request_vary (r : rule) (headers : cache_headers) (name encoding : bytes) : bytes :=
  if (cache_vary_action r name == lit "normalize") && (name != lit "accept") && (name != lit "accept-language") &&
     (name != lit "accept-encoding")
  then snd (fold_left (fun '(found, result) '(key, value) =>
         if negb (ascii_equal name key) then (found, result)
         else (true, (if found : bool then result ++ lit "," else result) ++ trim_ows value)) headers (false, []))
  else cache_vary_value r name (cache_header headers name) encoding.

Definition cache_edge_control (headers : cache_headers) : bytes :=
  if cache_has_header headers (lit "Cloudflare-CDN-Cache-Control") then cache_header headers (lit "Cloudflare-CDN-Cache-Control")
  else if cache_has_header headers (lit "CDN-Cache-Control") then cache_header headers (lit "CDN-Cache-Control")
  else if cache_has_header headers (lit "Surrogate-Control") then []
  else cache_header headers (lit "Cache-Control").

(** The loop over the pairs of one Cookie line. *)
Fixpoint cookie_loop (fuel : nat) (name input result : bytes) : bytes :=
  match fuel with
  | O => result
  | S fuel =>
      if empty input then result
      else
        let separator := find_char ";" input in
        let token := trim_ows (upto separator input) in
        let result :=
          match find_char "=" token with
          | Some equal =>
              if trim_ows (take equal token) == name
              then append_cache_key_part result (trim_ows (drop (S equal) token)) else result
          | None => result
          end in
        cookie_loop fuel name (after separator input) result
  end.
Definition cache_cookie_value (headers : cache_headers) (name : bytes) : bytes :=
  fold_left (fun result '(key, text) =>
    if ascii_equal key (lit "Cookie") then cookie_loop (S (length text)) name text result else result) headers [].

(** The only line of a name, nothing when there are several. *)
Fixpoint single_loop (headers : cache_headers) (name : bytes) (found : option bytes) : bytes :=
  match headers with
  | [] => default [] found
  | (key, value) :: rest =>
      if ascii_equal key name
      then match found with Some _ => [] | None => single_loop rest name (Some value) end
      else single_loop rest name found
  end.
Definition cache_single_header (headers : cache_headers) (name : bytes) : bytes := single_loop headers name None.

Fixpoint cache_tokens_loop (fuel : nat) (input : bytes) : list bytes :=
  match fuel with
  | O => []
  | S fuel =>
      if empty input then []
      else
        let comma := find_char "," input in
        let token := map lower_ascii (trim_ows (upto comma input)) in
        (if empty token then [] else [token]) ++ cache_tokens_loop fuel (after comma input)
  end.
Definition cache_tokens (input : bytes) : list bytes := cache_tokens_loop (S (length input)) input.

(** * Directives *)

(** [input.find(c, from)]. *)
Definition find_from (c : ascii) (input : bytes) (from : nat) : option nat := Nat.add from <$> find_char c (drop from input).

(** [while (escaped > end && input[escaped - 1] == '\\') --escaped]. *)
Fixpoint escape_loop (input : bytes) (end_ escaped : nat) : nat :=
  match escaped with
  | O => O
  | S before =>
      if (end_ <? escaped)%nat && (match input !! before with Some c => c == backslash | None => false end)
      then escape_loop input end_ before
      else escaped
  end.

(** The inner loop, past the closing quote. *)
Fixpoint quote_loop (fuel : nat) (input : bytes) (end_ : nat) : nat :=
  match fuel with
  | O => end_
  | S fuel =>
      if (end_ <? length input)%nat then
        match find_from dquote input end_ with
        | None => length input
        | Some closing =>
            if Nat.even (closing - escape_loop input end_ closing) then S closing else quote_loop fuel input (S closing)
        end
      else end_
  end.

(** The outer loop, to the comma that ends the directive. *)
Fixpoint directive_end (fuel : nat) (input : bytes) (end_ : nat) : nat :=
  match fuel with
  | O => end_
  | S fuel =>
      if (end_ <? length input)%nat then
        let comma := find_from "," input end_ in
        let part := match comma with None => drop end_ input | Some c => take (c - end_) (drop end_ input) end in
        match find_char dquote part with
        | None => match comma with None => length input | Some c => c end
        | Some opening => directive_end fuel input (quote_loop (length input) input (end_ + opening + 1))
        end
      else end_
  end.

(** The first directive and what is left of the input. *)
Definition cache_next_directive (input : bytes) : bytes * bytes :=
  let end_ := directive_end (S (length input)) input 0 in
  (trim_ows (take end_ input), if (end_ =? length input)%nat then [] else drop (S end_) input).

(** The directives that [while (!input.empty())] visits. *)
Fixpoint directives_loop (fuel : nat) (input : bytes) : list bytes :=
  match fuel with
  | O => []
  | S fuel =>
      if empty input then []
      else let '(token, input) := cache_next_directive input in token :: directives_loop fuel input
  end.
Definition directives (input : bytes) : list bytes := directives_loop (S (length input)) input.

Definition directive_name (token : bytes) : bytes := trim_ows (upto (find_char "=" token) token).

Definition cache_has_directive (input name : bytes) : bool :=
  existsb (fun token => ascii_equal (directive_name token) name) (directives input).

Definition is_quoted (value : bytes) : bool := (2 <=? size value) && first_is dquote value && last_is dquote value.
Definition strip_quotes (value : bytes) : bytes := take (length value - 2) (drop 1 value).

(** The loop over the field names: [None] is a name that is not a token, else whether [field] is there. *)
Fixpoint fields_match (fuel : nat) (fields field : bytes) (matches : bool) : option bool :=
  match fuel with
  | O => Some matches
  | S fuel =>
      if empty fields then Some matches
      else
        let comma := find_char "," fields in
        let current := trim_ows (upto comma fields) in
        if negb (http_token current 256) then None
        else fields_match fuel (after comma fields) field (matches || ascii_equal current field)
  end.
(** Whether one directive restricts the field. *)
Definition directive_restricts (name field token : bytes) : bool :=
  if negb (ascii_equal (directive_name token) name) then false
  else match find_char "=" token with
       | None => true
       | Some equal =>
           let fields := trim_ows (drop (S equal) token) in
           if negb (is_quoted fields) then true
           else let fields := strip_quotes fields in
                match fields_match (S (length fields)) fields field false with
                | None => true
                | Some matches => matches
                end
       end.
Definition cache_directive_applies (input name field : bytes) : bool :=
  existsb (directive_restricts name field) (directives input).

Definition cache_requires_validation (control : bytes) (headers : cache_headers) : bool :=
  cache_directive_applies control (lit "no-cache") [] ||
  existsb (fun field => cache_directive_applies control (lit "no-cache") (fst field)) headers.

Definition maximum_ttl : Z := 31536000.
(** The loop over the characters of a value, [None] for [return 0]. *)
Fixpoint digits_loop (quoted : bool) (value : bytes) (seconds : Z) : option Z :=
  match value with
  | [] => Some seconds
  | c :: rest =>
      if quoted && (c == backslash) then
        match rest with
        | [] => None
        | d :: rest =>
            if negb (is_digit d) then None
            else digits_loop quoted rest (Z.min (seconds * 10 + (code d - 48)) maximum_ttl)
        end
      else if negb (is_digit c) then None
      else digits_loop quoted rest (Z.min (seconds * 10 + (code c - 48)) maximum_ttl)
  end.
Fixpoint seconds_loop (tokens : list bytes) (name : bytes) (result : option Z) : option Z :=
  match tokens with
  | [] => result
  | token :: tokens =>
      match find_char "=" token with
      | None => seconds_loop tokens name result
      | Some equal =>
          if negb (ascii_equal (trim_ows (take equal token)) name) then seconds_loop tokens name result
          else
            let value := trim_ows (drop (S equal) token) in
            let quoted := is_quoted value in
            let value := if quoted then strip_quotes value else value in
            if empty value || present result then Some 0
            else match digits_loop quoted value 0 with
                 | None => Some 0
                 | Some seconds => seconds_loop tokens name (Some seconds)
                 end
      end
  end.
Definition cache_directive_seconds (input name : bytes) : option Z := seconds_loop (directives input) name None.

Definition cache_allows_authorization (headers : cache_headers) (origin_control : bool) : bool :=
  if negb origin_control && negb (cache_has_header headers (lit "Cloudflare-CDN-Cache-Control")) then true
  else
    let control := cache_edge_control headers in
    cache_has_directive control (lit "public") || cache_has_directive control (lit "must-revalidate") ||
    present (cache_directive_seconds control (lit "s-maxage")).

Definition cache_origin_control (r : rule) (headers : cache_headers) : bool :=
  origin_control_enabled r || cache_has_header headers (lit "Cloudflare-CDN-Cache-Control").

(** * Wildcards

    [value] and [pattern] are what is left from [at] and from [next]; [saved] is the pattern from
    [star + 1] with the value from [retry]. *)
Fixpoint wildcard_loop (fuel : nat) (value pattern : bytes) (saved : option (bytes * bytes)) : bool :=
  match fuel with
  | O => false
  | S fuel =>
      match value with
      | [] => forallb (fun c => c == "*"%char) pattern
      | v :: value' =>
          let retry :=
            match saved with
            | Some (after_star, at_retry) => wildcard_loop fuel (tl at_retry) after_star (Some (after_star, tl at_retry))
            | None => false
            end in
          match pattern with
          | p :: pattern' =>
              if (p == "?"%char) || (p == v) then wildcard_loop fuel value' pattern' saved
              else if p == "*"%char then wildcard_loop fuel value pattern' (Some (pattern', value))
              else retry
          | [] => retry
          end
      end
  end.
Definition wildcard_fuel (value pattern : bytes) : nat := (length value + 2) * (length pattern + 1) + 1.
Definition cache_wildcard (value pattern : bytes) : bool := wildcard_loop (wildcard_fuel value pattern) value pattern None.

Definition cache_resource_address (url : bytes) : throwing (bytes * bytes) :=
  match find_sub (lit "://") url with
  | None => Throws (lit "cache URL must be normalized")
  | Some separator =>
      match find_from "/" url (separator + 3) with
      | None => Throws (lit "cache URL must be normalized")
      | Some target => Returns (take target url, drop target url)
      end
  end.

Definition is_event_stream_content_type (value : bytes) : bool :=
  ascii_equal (trim_ows (upto (find_char ";" value) value)) (lit "text/event-stream").
Fixpoint accepts_loop (fuel : nat) (value : bytes) : bool :=
  match fuel with
  | O => false
  | S fuel =>
      if empty value then false
      else
        let separator := find_char "," value in
        is_event_stream_content_type (upto separator value) || accepts_loop fuel (after separator value)
  end.
Definition accepts_event_stream (value : bytes) : bool := accepts_loop (S (length value)) value.

Example wildcard_runs : cache_wildcard (lit "/a/b.png") (lit "/*/?.p*g") = true. Proof. reflexivity. Qed.
Example wildcard_star : cache_wildcard (lit "/*a") (lit "/*") = false. Proof. reflexivity. Qed.
Example seconds_runs : cache_directive_seconds (lit "public, max-age=60, x=" ++ [dquote] ++ lit "a,b" ++ [dquote]) (lit "Max-Age") = Some 60.
Proof. reflexivity. Qed.

(** * Wildcards: the reference matcher

    A star stands for any text and a question mark for any character. *)
Fixpoint glob (pattern : bytes) : bytes -> bool :=
  match pattern with
  | [] => fun value => empty value
  | p :: pattern' =>
      if p == "*"%char
      then fix star value := glob pattern' value || match value with [] => false | _ :: value' => star value' end
      else fun value =>
        match value with
        | [] => false
        | v :: value' => ((p == "?"%char) || (p == v)) && glob pattern' value'
        end
  end.

Lemma glob_star pattern value :
  glob ("*"%char :: pattern) value = glob pattern value || match value with [] => false | _ :: value' => glob ("*"%char :: pattern) value' end.
Proof. by destruct value. Qed.

Lemma glob_char p pattern v value :
  p <> "*"%char -> glob (p :: pattern) (v :: value) = ((p == "?"%char) || (p == v)) && glob pattern value.
Proof. intros Hp. cbn [glob]. by rewrite (bool_decide_eq_false_2 _ Hp). Qed.

Lemma glob_char_nil p pattern : p <> "*"%char -> glob (p :: pattern) [] = false.
Proof. intros Hp. cbn [glob]. by rewrite (bool_decide_eq_false_2 _ Hp). Qed.

Lemma glob_nil pattern : glob pattern [] = forallb (fun c => c == "*"%char) pattern.
Proof.
  induction pattern as [|p pattern IH]; [done|]. cbn [forallb]. destruct (decide (p = "*"%char)) as [->|Hp].
  - by rewrite glob_star, orb_false_r, IH.
  - rewrite glob_char_nil by done. by rewrite (bool_decide_eq_false_2 _ Hp).
Qed.

(** A star reaches every suffix. *)
Lemma glob_suffix pattern a value : glob pattern value = true -> glob ("*"%char :: pattern) (a ++ value) = true.
Proof.
  intros Hg. induction a as [|x a IH]; cbn [app]; rewrite glob_star.
  - by rewrite Hg.
  - by rewrite IH, orb_true_r.
Qed.

Lemma glob_star_inv pattern value :
  glob ("*"%char :: pattern) value = true -> exists a b, value = a ++ b /\ glob pattern b = true.
Proof.
  induction value as [|x value IH]; rewrite glob_star; intros [Hg|Hg]%orb_true_iff; try done.
  - by exists [], [].
  - by exists [], (x :: value).
  - destruct (IH Hg) as (a & b & -> & Hb). by exists (x :: a), b.
Qed.

(** A literal run consumes its own length. *)
Lemma glob_run run pattern value :
  "*"%char ∉ run -> glob (run ++ pattern) value = true ->
  exists a b, value = a ++ b /\ length a = length run /\ glob pattern b = true.
Proof.
  revert value. induction run as [|r run IH]; intros value Hr Hg; [by exists [], value|].
  apply not_elem_of_cons in Hr as [Hne Hr]. destruct value as [|v value]; cbn [app] in Hg.
  - by rewrite glob_char_nil in Hg.
  - rewrite glob_char in Hg by done. apply andb_true_iff in Hg as [_ Hg].
    destruct (IH value Hr Hg) as (a & b & -> & Hl & Hb). exists (v :: a), b. cbn. by rewrite Hl.
Qed.

(** Where the loop stands: the pattern after the last star is a run without stars, matched from
    [at_retry] on, and what is left. *)
Definition retry_ok (value pattern : bytes) (saved : option (bytes * bytes)) : Prop :=
  match saved with
  | None => True
  | Some (after_star, at_retry) =>
      exists run read, after_star = run ++ pattern /\ at_retry = read ++ value /\ "*"%char ∉ run /\ length read = length run
  end.
(** What the saved star can still reach. *)
Definition retries (saved : option (bytes * bytes)) : bool :=
  match saved with
  | None => false
  | Some (after_star, at_retry) => match at_retry with [] => false | _ :: rest => glob ("*"%char :: after_star) rest end
  end.

(** A match from a later start would leave the rest of the pattern a match at the star's reach. *)
Lemma retries_absorbed value pattern saved :
  retry_ok value ("*"%char :: pattern) saved -> retries saved = true -> glob ("*"%char :: pattern) value = true.
Proof.
  destruct saved as [[after_star at_retry]|]; [|done]. intros (run & read & -> & -> & Hrun & Hlen).
  cbn [retries]. destruct (read ++ value) as [|x rest] eqn:E; [done|]. intros (a & b & Hab & Hg)%glob_star_inv.
  apply glob_run in Hg as (c & d & -> & Hc & Hg); [|done].
  apply glob_star_inv in Hg as (e & f & -> & Hf).
  assert (x :: rest = read ++ value) as Hv by done. subst rest.
  (* [f] is a suffix of [value]: what precedes it is longer than what was read. *)
  assert (exists g, value = g ++ f) as [g ->]; [|by apply glob_suffix].
  exists (drop (length read) (x :: a ++ c ++ e)).
  assert (drop (length read) ((x :: a ++ c ++ e) ++ f) = value) as <-.
  { replace ((x :: a ++ c ++ e) ++ f) with (read ++ value) by (rewrite <- Hv; cbn; by rewrite <- !app_assoc).
    apply drop_app_length. }
  rewrite drop_app_le; [done|]. cbn [length]. rewrite !length_app. lia.
Qed.

Lemma retries_exhausted pattern saved : retry_ok [] pattern saved -> retries saved = false.
Proof.
  destruct saved as [[after_star at_retry]|]; [|done]. intros (run & read & -> & -> & Hrun & Hlen).
  rewrite app_nil_r. cbn [retries]. destruct read as [|x read]; [done|]. apply not_true_iff_false.
  intros (a & b & -> & Hg)%glob_star_inv. apply glob_run in Hg as (c & d & -> & Hc & _); [|done].
  cbn [length] in Hlen. rewrite !length_app in Hlen. lia.
Qed.

(** The state of a loop over [value0] and [pattern0]: texts without stars, no longer than they were. *)
Record loop_ok (value0 pattern0 value pattern : bytes) (saved : option (bytes * bytes)) : Prop := {
  loop_value : "*"%char ∉ value /\ (length value <= length value0)%nat;
  loop_pattern : (length pattern <= length pattern0)%nat;
  loop_saved : forall a r, saved = Some (a, r) ->
    "*"%char ∉ r /\ (length r <= length value0)%nat /\ (length a <= length pattern0)%nat;
  loop_retry : retry_ok value pattern saved
}.
(** The steps left: a retry shortens what is saved, every other step shortens the pattern. *)
Definition wildcard_measure (value0 pattern0 pattern : bytes) (saved : option (bytes * bytes)) : nat :=
  match saved with Some (_, at_retry) => length at_retry | None => S (length value0) end * (length pattern0 + 1) + length pattern.

Lemma retry_state value0 pattern0 v value pattern a x rest :
  loop_ok value0 pattern0 (v :: value) pattern (Some (a, x :: rest)) ->
  loop_ok value0 pattern0 rest a (Some (a, rest)) /\
  (wildcard_measure value0 pattern0 a (Some (a, rest)) < wildcard_measure value0 pattern0 pattern (Some (a, x :: rest)))%nat.
Proof.
  intros [_ _ Hsaved _]. destruct (Hsaved _ _ eq_refl) as (Hx & Hl & Ha).
  apply not_elem_of_cons in Hx as [_ Hx]. cbn [length] in Hl. split.
  - split; [split; [done|lia]|done| |].
    + intros a' r' [= <- <-]. split; [done|lia].
    + exists [], []. cbn. repeat split; auto. set_solver.
  - unfold wildcard_measure. cbn [length]. nia.
Qed.

Lemma read_state value0 pattern0 v value p pattern saved :
  loop_ok value0 pattern0 (v :: value) (p :: pattern) saved -> p <> "*"%char ->
  loop_ok value0 pattern0 value pattern saved /\
  (wildcard_measure value0 pattern0 pattern saved < wildcard_measure value0 pattern0 (p :: pattern) saved)%nat.
Proof.
  intros [[Hv Hvl] Hp Hsaved Hretry] Hne. apply not_elem_of_cons in Hv as [_ Hv]. cbn [length] in *. split.
  - split; [split; [done|lia]|lia|done|]. destruct saved as [[a r]|]; [|done].
    destruct Hretry as (run & read & -> & -> & Hrun & Hlen). exists (run ++ [p]), (read ++ [v]).
    rewrite <- !app_assoc, !length_app. cbn. rewrite not_elem_of_app, list_elem_of_singleton. repeat split; auto.
  - unfold wildcard_measure. cbn [length]. lia.
Qed.

Lemma star_state value0 pattern0 value pattern saved :
  loop_ok value0 pattern0 value ("*"%char :: pattern) saved ->
  loop_ok value0 pattern0 value pattern (Some (pattern, value)) /\
  (wildcard_measure value0 pattern0 pattern (Some (pattern, value)) < wildcard_measure value0 pattern0 ("*"%char :: pattern) saved)%nat.
Proof.
  intros [[Hv Hvl] Hp Hsaved Hretry]. cbn [length] in Hp. split.
  - split; [done|lia| |].
    + intros a r [= <- <-]. split_and!; [done|done|lia].
    + exists [], []. cbn. repeat split; auto. set_solver.
  - unfold wildcard_measure. cbn [length]. destruct saved as [[a r]|]; [|nia].
    destruct Hretry as (run & read & _ & -> & _ & _). rewrite length_app. nia.
Qed.

Lemma wildcard_loop_spec value0 pattern0 fuel value pattern saved :
  loop_ok value0 pattern0 value pattern saved -> (wildcard_measure value0 pattern0 pattern saved < fuel)%nat ->
  wildcard_loop fuel value pattern saved = glob pattern value || retries saved.
Proof.
  revert value pattern saved. induction fuel as [|fuel IH]; intros value pattern saved Hok Hf; [lia|].
  cbn [wildcard_loop]. destruct value as [|v value].
  { by rewrite glob_nil, (retries_exhausted _ _ (loop_retry _ _ _ _ _ Hok)), orb_false_r. }
  assert (Hback : match saved with
                  | Some (a, r) => wildcard_loop fuel (tl r) a (Some (a, tl r))
                  | None => false
                  end = retries saved).
  { destruct saved as [[a [|x rest]]|]; [|cbn [tl]|done].
    - destruct Hok as [_ _ _ (run & read & _ & Hr & _)]. by destruct read.
    - destruct (retry_state _ _ _ _ _ _ _ _ Hok) as [Hok' Hm]. rewrite IH by (done || lia).
      cbn [retries]. by rewrite glob_star. }
  destruct pattern as [|p pattern]; [exact Hback|].
  destruct (decide (p = "*"%char)) as [->|Hp].
  - destruct Hok as [[Hv Hvl] Hpl Hsaved Hretry] eqn:Eok. clear Eok.
    assert (loop_ok value0 pattern0 (v :: value) ("*"%char :: pattern) saved) as Hok' by done.
    change ("*"%char == "?"%char) with false.
    rewrite (bool_decide_eq_false_2 ("*"%char = v)) by (apply not_elem_of_cons in Hv; tauto).
    change ("*"%char == "*"%char) with true. cbn [orb].
    destruct (star_state _ _ _ _ _ Hok') as [Hnext Hm]. rewrite IH by (done || lia).
    cbn [retries]. rewrite <- glob_star.
    destruct (retries saved) eqn:Er; [by rewrite (retries_absorbed _ _ _ Hretry Er)|by rewrite orb_false_r].
  - rewrite glob_char by done. destruct ((p == "?"%char) || (p == v)) eqn:Em; cbn [andb orb].
    + destruct (read_state _ _ _ _ _ _ _ Hok Hp) as [Hnext Hm]. by rewrite IH by (done || lia).
    + rewrite (bool_decide_eq_false_2 _ Hp). exact Hback.
Qed.

(** Wildcard matching with one remembered star terminates and is the reference matcher, in which
    a star stands for any text, for every value without a literal star. *)
Theorem wildcard_is_glob value pattern :
  "*"%char ∉ value -> cache_wildcard value pattern = glob pattern value.
Proof.
  intros Hv. unfold cache_wildcard. rewrite (wildcard_loop_spec value pattern).
  - by rewrite orb_false_r.
  - split; [split; [done|lia]|lia|done|done].
  - unfold wildcard_measure, wildcard_fuel. nia.
Qed.

Lemma wildcard_is_glob_witness : cache_wildcard (lit "/img/a/b.png") (lit "/img/*/?.p*g") = true.
Proof. rewrite wildcard_is_glob; [vm_compute; reflexivity|by_decision]. Defined.

(** A literal star in the value, met where the pattern has a star, is matched as that one character:
    the pattern's star then stands for nothing else. *)
Lemma wildcard_literal_star :
  cache_wildcard (lit "/files/*a") (lit "/files/*") = false /\ glob (lit "/files/*") (lit "/files/*a") = true.
Proof. split; vm_compute; reflexivity. Qed.

(** * Directives: the reference scanner

    Outside quotes a comma ends the directive and a quote opens; inside, a backslash escapes the
    next character and a quote that is not escaped closes. *)
Fixpoint scan_end (quoted escaped : bool) (s : bytes) : nat :=
  match s with
  | [] => O
  | c :: s' =>
      if negb quoted && (c == ","%char) then O
      else
        S (scan_end (if quoted then negb ((c == dquote) && negb escaped) else c == dquote)
             (quoted && negb escaped && (c == backslash)) s')
  end.
Definition scan_directive (input : bytes) : bytes * bytes :=
  let n := scan_end false false input in (trim_ows (take n input), drop (S n) input).

(** Backslashes at the end of a text. *)
Definition slash_step (n : nat) (c : ascii) : nat := if c == backslash then S n else O.
Definition trailing (s : bytes) : nat := fold_left slash_step s O.

Lemma trailing_snoc s c : trailing (s ++ [c]) = slash_step (trailing s) c.
Proof. unfold trailing. by rewrite fold_left_app. Qed.

Lemma trailing_le s : (trailing s <= length s)%nat.
Proof.
  induction s as [|c s IH] using rev_ind; [done|]. rewrite trailing_snoc, length_app. unfold slash_step.
  destruct (c == backslash); simpl; lia.
Qed.

Lemma escape_loop_spec a b c :
  escape_loop (a ++ b ++ c) (length a) (length a + length b) = (length a + length b - trailing b)%nat.
Proof.
  revert c. induction b as [|x b IH] using rev_ind; intros c.
  - rewrite Nat.add_0_r. cbn. rewrite Nat.sub_0_r. destruct (length a) as [|n] eqn:E; [done|].
    cbn [escape_loop]. by rewrite Nat.ltb_irrefl.
  - rewrite trailing_snoc, length_app. cbn [length]. rewrite Nat.add_assoc, Nat.add_1_r. cbn [escape_loop].
    rewrite (proj2 (Nat.ltb_lt _ _)) by lia. cbn [andb].
    rewrite (lookup_app_r a) by lia. replace (length a + length b - length a)%nat with (length b) by lia.
    rewrite <- app_assoc, lookup_app_r, Nat.sub_diag by lia. cbn [app lookup list_lookup]. unfold slash_step.
    destruct (x == backslash).
    + rewrite IH. lia.
    + lia.
Qed.

(** Inside quotes, up to a quote: whether it is escaped is the parity of the backslashes. *)
Lemma scan_quoted_run a s n :
  dquote ∉ a -> scan_end true (Nat.odd n) (a ++ s) = (length a + scan_end true (Nat.odd (fold_left slash_step a n)) s)%nat.
Proof.
  revert n. induction a as [|c a IH]; intros n Ha; [done|]. apply not_elem_of_cons in Ha as [Hc Ha].
  cbn [app scan_end negb andb length fold_left]. rewrite (bool_decide_eq_false_2 (c = dquote)) by done. cbn [andb negb].
  assert (negb (Nat.odd n) && (c == backslash) = Nat.odd (slash_step n c)) as ->.
  { unfold slash_step. destruct (c == backslash); [by rewrite andb_true_r, Nat.odd_succ, <- Nat.negb_odd|by rewrite andb_false_r]. }
  by rewrite IH.
Qed.

Lemma quote_loop_spec fuel a b :
  (length b < fuel)%nat ->
  exists n, quote_loop fuel (a ++ b) (length a) = (length a + n)%nat /\ (n <= length b)%nat /\
    scan_end true false b = (n + scan_end false false (drop n b))%nat.
Proof.
  revert a b. induction fuel as [|fuel IH]; intros a b Hf; [lia|]. cbn [quote_loop].
  rewrite length_app. destruct b as [|c0 b0] eqn:Eb; [exists 0%nat; rewrite (proj2 (Nat.ltb_ge _ _)) by (cbn; lia); cbn; lia|].
  rewrite <- Eb in *. assert (0 < length b)%nat as Hpos by (rewrite Eb; cbn; lia). clear Eb.
  rewrite (proj2 (Nat.ltb_lt _ _)) by lia. unfold find_from. rewrite drop_app_length.
  destruct (find_char dquote b) as [k|] eqn:Ek; cbn [fmap option_fmap option_map].
  - apply find_char_Some in Ek as (x & y & -> & <- & Hx). rewrite escape_loop_spec.
    pose proof (trailing_le x). replace (length a + length x - (length a + length x - trailing x))%nat with (trailing x) by lia.
    pose proof (scan_quoted_run x (dquote :: y) 0 Hx) as Hrun. cbn [Nat.odd] in Hrun. change (Nat.odd 0) with false in Hrun.
    rewrite Hrun. fold (trailing x). cbn [scan_end negb andb]. change (dquote == dquote) with true.
    change (dquote == backslash) with false. rewrite andb_false_r. cbn [andb].
    assert (Hdrop : forall n, drop (length x + S n) (x ++ dquote :: y) = drop n y).
    { intros n. rewrite drop_app_ge by lia. by replace (length x + S n - length x)%nat with (S n) by lia. }
    rewrite <- Nat.negb_odd. destruct (Nat.odd (trailing x)); cbn [negb andb].
    + destruct (IH (a ++ x ++ [dquote]) y) as (n & Hq & Hn & Hs).
      { rewrite length_app in Hf. cbn in Hf. lia. }
      rewrite !length_app in Hq. cbn [length] in Hq. rewrite <- !app_assoc in Hq. cbn [app] in Hq.
      exists (length x + S n)%nat. rewrite Hdrop. rewrite length_app. cbn [length]. split; [|split; [lia|rewrite Hs; lia]].
      replace (S (length a + length x)) with (length a + (length x + 1))%nat by lia. rewrite Hq. lia.
    + exists (length x + 1)%nat. rewrite Hdrop. rewrite length_app. cbn [length]. split; [lia|split; [lia|]]. rewrite drop_0. lia.
  - exists (length b). split; [lia|]. split; [lia|]. rewrite drop_all. cbn [scan_end].
    apply find_char_None in Ek. pose proof (scan_quoted_run b [] 0 Ek) as Hrun. rewrite app_nil_r in Hrun.
    change (Nat.odd 0) with false in Hrun. rewrite Hrun. cbn. lia.
Qed.

(** Outside quotes, up to the first quote or comma. *)
Lemma scan_plain_run a s :
  dquote ∉ a -> ","%char ∉ a -> scan_end false false (a ++ s) = (length a + scan_end false false s)%nat.
Proof.
  induction a as [|c a IH]; intros Hq Hc; [done|]. apply not_elem_of_cons in Hq as [Hq1 Hq], Hc as [Hc1 Hc].
  cbn [app scan_end negb andb length]. rewrite (bool_decide_eq_false_2 (c = ","%char)) by done.
  rewrite (bool_decide_eq_false_2 (c = dquote)) by done. by rewrite IH.
Qed.

Lemma directive_end_spec fuel a b :
  (length b < fuel)%nat -> directive_end fuel (a ++ b) (length a) = (length a + scan_end false false b)%nat.
Proof.
  revert a b. induction fuel as [|fuel IH]; intros a b Hf; [lia|]. cbn [directive_end]. rewrite length_app.
  destruct b as [|c0 b0] eqn:Eb; [rewrite (proj2 (Nat.ltb_ge _ _)) by (cbn; lia); cbn; lia|].
  rewrite <- Eb in *. assert (0 < length b)%nat as Hpos by (rewrite Eb; cbn; lia). clear Eb.
  rewrite (proj2 (Nat.ltb_lt _ _)) by lia.
  unfold find_from. rewrite !drop_app_length.
  (* The part up to the comma. *)
  assert (Hpart : exists part rest, b = part ++ rest /\ ","%char ∉ part /\
    match (Nat.add (length a) <$> find_char "," b) with None => b | Some c => take (c - length a) b end = part /\
    match (Nat.add (length a) <$> find_char "," b) with None => (length a + length b)%nat | Some c => c end = (length a + length part)%nat /\
    scan_end false false rest = 0%nat).
  { destruct (find_char "," b) as [k|] eqn:Ek; cbn [fmap option_fmap option_map].
    - apply find_char_Some in Ek as (x & y & -> & <- & Hx). exists x, (","%char :: y).
      replace (length a + length x - length a)%nat with (length x) by lia. by rewrite take_app_length.
    - apply find_char_None in Ek. exists b, []. by rewrite app_nil_r. }
  destruct Hpart as (part & rest & Hb & Hcomma & -> & -> & Hrest).
  destruct (find_char dquote part) as [k|] eqn:Ek; cycle 1.
  { apply find_char_None in Ek. rewrite Hb, scan_plain_run by done. rewrite Hrest. lia. }
  apply find_char_Some in Ek as (x & y & -> & <- & Hx). rewrite <- app_assoc in Hb. cbn [app] in Hb.
  assert (","%char ∉ x) as Hxc by (rewrite elem_of_app in Hcomma; tauto).
  assert (scan_end false false b = (length x + S (scan_end true false (y ++ rest)))%nat) as ->.
  { rewrite Hb, scan_plain_run by done. reflexivity. }
  assert (Heq : (a ++ x ++ [dquote]) ++ y ++ rest = a ++ b) by (rewrite Hb, <- !app_assoc; done).
  assert (Hlen : length (a ++ x ++ [dquote]) = (length a + length x + 1)%nat) by (rewrite !length_app; cbn; lia).
  assert (Hb' : length b = (length x + 1 + length (y ++ rest))%nat) by (rewrite Hb, length_app; cbn; lia).
  destruct (quote_loop_spec (length a + length b) (a ++ x ++ [dquote]) (y ++ rest) ltac:(lia)) as (n & Hq & Hn & Hs).
  rewrite Heq, Hlen in Hq. rewrite Hq, Hs.
  pose proof (IH ((a ++ x ++ [dquote]) ++ take n (y ++ rest)) (drop n (y ++ rest))) as Hgo.
  rewrite <- app_assoc, take_drop, Heq, length_app, Hlen, length_take, length_drop, Nat.min_l in Hgo by done.
  rewrite Hgo by lia. lia.
Qed.

Lemma scan_end_le quoted escaped s : (scan_end quoted escaped s <= length s)%nat.
Proof.
  revert quoted escaped. induction s as [|c s IH]; intros; cbn [scan_end length]; [done|].
  destruct (_ && _); [lia|]. specialize (IH (if quoted then negb ((c == dquote) && negb escaped) else c == dquote) (quoted && negb escaped && (c == backslash))). lia.
Qed.

Lemma next_directive_scan input : cache_next_directive input = scan_directive input.
Proof.
  unfold cache_next_directive, scan_directive. pose proof (directive_end_spec (S (length input)) [] input ltac:(lia)) as He.
  cbn [app length Nat.add] in He. rewrite He. f_equal.
  destruct (scan_end false false input =? length input)%nat eqn:E; [|done]. reflect_bool.
  apply Nat.eqb_eq in E. rewrite E. by rewrite drop_ge by lia.
Qed.

(** * Written directives *)

Inductive argument := NoArgument | Plain (text : bytes) | Quoted (text : bytes).
Record directive := mk_directive { d_name : bytes; d_argument : argument }.

Definition escape_char (c : ascii) : bytes := if (c == dquote) || (c == backslash) then [backslash; c] else [c].
Definition escape (text : bytes) : bytes := concat (map escape_char text).
Definition render_argument (a : argument) : bytes :=
  match a with
  | NoArgument => []
  | Plain text => lit "=" ++ text
  | Quoted text => lit "=" ++ [dquote] ++ escape text ++ [dquote]
  end.
Definition render_directive (d : directive) : bytes := d_name d ++ render_argument (d_argument d).
Definition render_control (ds : list directive) : bytes := join (lit ", ") (map render_directive ds).

(** A name that is a token; a plain argument without commas, quotes or spaces at its ends. *)
Definition directive_ok (d : directive) : Prop :=
  http_token (d_name d) 256 = true /\
  match d_argument d with
  | Plain text => trim_ows text = text /\ ","%char ∉ text /\ dquote ∉ text
  | _ => True
  end.

(** A text that the scanner crosses whole. *)
Definition balanced (t : bytes) : Prop := forall s, scan_end false false (t ++ s) = (length t + scan_end false false s)%nat.

Lemma balanced_plain t : dquote ∉ t -> ","%char ∉ t -> balanced t.
Proof. intros Hq Hc s. by apply scan_plain_run. Qed.

Lemma balanced_app a b : balanced a -> balanced b -> balanced (a ++ b).
Proof. intros Ha Hb s. rewrite <- app_assoc, Ha, Hb, length_app. lia. Qed.

Lemma scan_escaped t s :
  scan_end true false (escape t ++ dquote :: s) = (length (escape t) + S (scan_end false false s))%nat.
Proof.
  induction t as [|c t IH]; [done|]. unfold escape in *. cbn [map concat]. rewrite <- app_assoc, length_app.
  unfold escape_char at 1 3. destruct ((c == dquote) || (c == backslash)) eqn:E.
  - cbn [app scan_end negb andb length]. change (backslash == dquote) with false. change (backslash == backslash) with true.
    cbn [andb negb]. rewrite andb_false_r. cbn [negb]. rewrite IH. lia.
  - apply orb_false_iff in E as [E1 E2]. cbn [app scan_end negb andb length]. rewrite E1, E2. cbn [andb negb]. rewrite IH. lia.
Qed.

Lemma balanced_quoted t : balanced ([dquote] ++ escape t ++ [dquote]).
Proof.
  intros s. rewrite <- !app_assoc. cbn [app scan_end negb andb]. change (dquote == ","%char) with false.
  change (dquote == dquote) with true. cbn [andb]. rewrite scan_escaped. cbn [length]. rewrite length_app. cbn. lia.
Qed.

Definition token_char_plain (c : ascii) : bool :=
  negb (is_http_token_char c) || negb ((c == ","%char) || (c == dquote) || (c == "="%char) || is_ows c).

Lemma token_chars name : http_token name 256 = true ->
  name <> [] /\ Forall (fun c => c <> ","%char /\ c <> dquote /\ c <> "="%char /\ is_ows c = false) name.
Proof.
  unfold http_token. destruct (empty name || (256 <? size name)) eqn:E; [done|]. apply orb_false_iff in E as [E _].
  intros Hc. split; [intros ->; done|]. apply forallb_Forall in Hc. eapply Forall_impl; [exact Hc|]. intros c Ht.
  pose proof (forall_chars token_char_plain ltac:(vm_compute; reflexivity) c) as Hp. unfold token_char_plain in Hp.
  rewrite Ht in Hp. cbn [negb orb] in Hp. apply negb_true_iff, orb_false_iff in Hp as [Hp Ho].
  apply orb_false_iff in Hp as [Hp He]. apply orb_false_iff in Hp as [Hc' Hq]. reflect_bool. done.
Qed.

Lemma token_notin name c : http_token name 256 = true -> (c = ","%char \/ c = dquote \/ c = "="%char) -> c ∉ name.
Proof.
  intros [_ Hall]%token_chars Hc Hin. rewrite Forall_forall in Hall. specialize (Hall c Hin). naive_solver.
Qed.

Lemma directive_balanced d : directive_ok d -> balanced (render_directive d).
Proof.
  intros [Hn Ha]. unfold render_directive. apply balanced_app; [apply balanced_plain; apply token_notin; auto|].
  destruct (d_argument d) as [|text|text]; cbn [render_argument].
  - by intros s.
  - apply balanced_app; apply balanced_plain; try tauto; by_decision.
  - apply balanced_app; [apply balanced_plain; by_decision|apply balanced_quoted].
Qed.

Lemma trim_ows_space s : trim_ows (" "%char :: s) = trim_ows s.
Proof. done. Qed.

Lemma last_nonempty_app {A} (a b : list A) : b <> [] -> last (a ++ b) = last b.
Proof. intros Hb. destruct b as [|x b _] using rev_ind; [done|]. by rewrite app_assoc, !last_snoc. Qed.

(** No white space at the end of a trimmed text. *)
Lemma trimmed_last t : trim_ows t = t -> match last t with Some x => is_ows x = false | None => True end.
Proof. intros Ht. destruct (trim_ows_spec t) as (_ & _ & _ & _ & _ & Hl). by rewrite Ht in Hl. Qed.

Lemma directive_trimmed d : directive_ok d -> trim_ows (render_directive d) = render_directive d.
Proof.
  intros [Hn Ha]. destruct (token_chars _ Hn) as [Hne Hall]. apply trim_ows_clean; unfold render_directive.
  - destruct (d_name d) as [|c name]; [done|]. cbn [app]. inversion Hall; subst. tauto.
  - assert (Hlast : match last (d_name d) with Some x => is_ows x = false | None => True end).
    { destruct (d_name d) as [|c name _] using rev_ind; [done|]. rewrite last_snoc.
      rewrite Forall_app, Forall_singleton in Hall. by destruct Hall as [_ (_ & _ & _ & ?)]. }
    destruct (d_argument d) as [|text|text]; cbn [render_argument]; [by rewrite app_nil_r| |].
    + destruct Ha as (Ht & _ & _). rewrite (last_nonempty_app (d_name d)) by done.
      destruct text as [|c text]; [done|]. rewrite last_nonempty_app by done. by apply trimmed_last.
    + rewrite !app_assoc, last_snoc. done.
Qed.

Lemma directive_not_nil d : directive_ok d -> render_directive d <> [].
Proof. intros [[Hne _]%token_chars _]. unfold render_directive. by destruct (d_name d). Qed.

Lemma scan_comma t rest : balanced t -> scan_end false false (t ++ ","%char :: rest) = length t.
Proof. intros Hb. rewrite Hb. change (scan_end false false (","%char :: rest)) with 0%nat. lia. Qed.

Lemma scan_whole t : balanced t -> scan_end false false t = length t.
Proof. intros Hb. specialize (Hb []). rewrite app_nil_r in Hb. rewrite Hb. cbn. lia. Qed.

Lemma directives_loop_render fuel d ds prefix :
  Forall directive_ok (d :: ds) -> (prefix = [] \/ prefix = lit " ") ->
  (length (prefix ++ render_control (d :: ds)) < fuel)%nat ->
  directives_loop fuel (prefix ++ render_control (d :: ds)) = map render_directive (d :: ds).
Proof.
  revert d prefix fuel. induction ds as [|e ds IH]; intros d prefix fuel Hok Hp Hf.
  - rewrite Forall_singleton in Hok. destruct fuel as [|fuel]; [lia|]. unfold render_control in *. cbn [map join] in *.
    assert (Hb : balanced (prefix ++ render_directive d)).
    { apply balanced_app; [|by apply directive_balanced]. destruct Hp as [->| ->]; apply balanced_plain; by_decision. }
    cbn [directives_loop]. pose proof (directive_not_nil d Hok) as Hne.
    assert (empty (prefix ++ render_directive d) = false) as ->.
    { apply not_true_iff_false. rewrite empty_spec. intros [_ Hnil]%app_nil. contradiction. }
    rewrite next_directive_scan. unfold scan_directive. rewrite scan_whole by done.
    rewrite firstn_all, drop_ge by lia. assert (trim_ows (prefix ++ render_directive d) = render_directive d) as ->.
    { destruct Hp as [->| ->]; cbn [app lit String.list_ascii_of_string]; rewrite ?trim_ows_space; by apply directive_trimmed. }
    destruct fuel; done.
  - apply Forall_cons in Hok as [Hd Hok]. destruct fuel as [|fuel]; [lia|].
    assert (Hsplit : prefix ++ render_control (d :: e :: ds) =
              (prefix ++ render_directive d) ++ ","%char :: (lit " " ++ render_control (e :: ds))).
    { unfold render_control. cbn [map join]. rewrite <- !app_assoc. done. }
    rewrite Hsplit in *. clear Hsplit.
    assert (Hb : balanced (prefix ++ render_directive d)).
    { apply balanced_app; [|by apply directive_balanced]. destruct Hp as [->| ->]; apply balanced_plain; by_decision. }
    cbn [directives_loop]. pose proof (directive_not_nil d Hd) as Hne.
    match goal with |- context [empty ?t] => assert (empty t = false) as -> end.
    { apply not_true_iff_false. rewrite empty_spec. intros [[_ Hnil]%app_nil _]%app_nil. contradiction. }
    rewrite next_directive_scan. unfold scan_directive. rewrite scan_comma by done.
    rewrite take_app_length, drop_S_app. assert (trim_ows (prefix ++ render_directive d) = render_directive d) as ->.
    { destruct Hp as [->| ->]; cbn [app lit String.list_ascii_of_string]; rewrite ?trim_ows_space; by apply directive_trimmed. }
    cbn [map]. f_equal. apply IH; [done|by right|]. rewrite !length_app in Hf. cbn [length] in Hf. lia.
Qed.

(** Reading the directives back off a written header. *)
Lemma directives_render ds : Forall directive_ok ds -> directives (render_control ds) = map render_directive ds.
Proof.
  destruct ds as [|d ds]; [done|]. intros Hok. unfold directives.
  by apply (directives_loop_render _ d ds []); [|left|cbn [app]; lia].
Qed.

Lemma find_equal_render d :
  directive_ok d ->
  find_char "=" (render_directive d) = match d_argument d with NoArgument => None | _ => Some (length (d_name d)) end.
Proof.
  intros [Hn _]. pose proof (token_notin _ "="%char Hn ltac:(auto)) as He. unfold render_directive.
  destruct (d_argument d) as [|text|text]; cbn [render_argument].
  - rewrite app_nil_r. by apply find_char_None.
  - apply find_char_Some. exists (d_name d), text. done.
  - apply find_char_Some. exists (d_name d), ([dquote] ++ escape text ++ [dquote]). done.
Qed.

Lemma token_trimmed name : http_token name 256 = true -> trim_ows name = name.
Proof.
  intros Hn. pose proof (directive_trimmed (mk_directive name NoArgument)) as Ht. unfold render_directive in Ht.
  cbn in Ht. rewrite app_nil_r in Ht. by apply Ht.
Qed.

Lemma directive_name_render d : directive_ok d -> directive_name (render_directive d) = d_name d.
Proof.
  intros Hok. unfold directive_name. rewrite find_equal_render by done. destruct Hok as [Hn _]. unfold render_directive.
  destruct (d_argument d); cbn [upto render_argument]; rewrite ?take_app_length, ?app_nil_r; by apply token_trimmed.
Qed.

(** The text after the equal sign. *)
Definition raw_argument (d : directive) : bytes :=
  match d_argument d with NoArgument => [] | Plain text => text | Quoted text => [dquote] ++ escape text ++ [dquote] end.

Lemma raw_argument_render d :
  directive_ok d -> d_argument d <> NoArgument -> trim_ows (drop (S (length (d_name d))) (render_directive d)) = raw_argument d.
Proof.
  intros [Hn Ha] Hne. unfold render_directive, raw_argument. destruct (d_argument d) as [|text|text]; [done| |];
    cbn [render_argument lit String.list_ascii_of_string]; change ((["="%char] ++ ?x)) with ("="%char :: x); rewrite drop_S_app.
  - tauto.
  - apply trim_ows_clean; [done|]. by rewrite app_assoc, last_snoc.
Qed.

Lemma is_quoted_quoted t : is_quoted ([dquote] ++ t ++ [dquote]) = true.
Proof.
  unfold is_quoted, last_is. rewrite app_assoc, last_snoc. unfold size. rewrite !length_app. cbn [length].
  rewrite (proj2 (Z.leb_le _ _)) by lia. done.
Qed.

Lemma strip_quotes_quoted t : strip_quotes ([dquote] ++ t ++ [dquote]) = t.
Proof.
  unfold strip_quotes. change (drop 1 ([dquote] ++ t ++ [dquote])) with (t ++ [dquote]).
  rewrite !length_app. cbn [length].
  replace (1 + (length t + 1) - 2)%nat with (length t) by lia. by rewrite take_app_length.
Qed.

Lemma is_quoted_plain t : dquote ∉ t -> is_quoted t = false.
Proof.
  intros Hq. unfold is_quoted. destruct t as [|c t]; [done|]. apply not_elem_of_cons in Hq as [Hc _].
  cbn [first_is]. rewrite (bool_decide_eq_false_2 (c = dquote)) by done. by rewrite andb_false_r.
Qed.

(** * Seconds *)

Definition digits_of (text : bytes) : bool := negb (empty text) && forallb is_digit text.
(** The value of a directive's argument: capped, and zero when it is not a number. *)
Definition argument_seconds (a : argument) : Z :=
  match a with
  | NoArgument => 0
  | Plain text | Quoted text => if digits_of text then Z.min (undec text) maximum_ttl else 0
  end.
Definition has_argument (d : directive) : bool := match d_argument d with NoArgument => false | _ => true end.
Definition asked (name : bytes) (d : directive) : bool := ascii_equal (d_name d) name && has_argument d.

Lemma digits_loop_plain value seconds :
  0 <= seconds -> digits_loop false value (Z.min seconds maximum_ttl) =
    if forallb is_digit value then Some (Z.min (undec_from seconds value) maximum_ttl) else None.
Proof.
  revert seconds. induction value as [|c value IH]; intros seconds Hs; [done|].
  cbn [digits_loop andb forallb undec_from fold_left]. destruct (is_digit c) eqn:Ec; [|done]. cbn [negb andb].
  apply is_digit_spec in Ec. fold (undec_from (seconds * 10 + (code c - 48)) value). rewrite <- IH by lia.
  f_equal. unfold maximum_ttl. lia.
Qed.

Lemma digits_loop_escape value seconds : digits_loop true (escape value) seconds = digits_loop false value seconds.
Proof.
  revert seconds. induction value as [|c value IH]; intros seconds; [done|]. unfold escape in *. cbn [map concat].
  unfold escape_char at 1. destruct ((c == dquote) || (c == backslash)) eqn:E.
  - change (([backslash; c] ++ ?x)) with (backslash :: c :: x). cbn [digits_loop]. change (true && (backslash == backslash)) with true.
    cbn [andb]. assert (is_digit c = false) as ->.
    { apply orb_true_iff in E as [E|E]; reflect_bool; subst; reflexivity. }
    done.
  - apply orb_false_iff in E as [_ E]. cbn [app digits_loop]. rewrite E. cbn [andb]. destruct (is_digit c); [apply IH|done].
Qed.

Definition argument_text (a : argument) : bytes := match a with NoArgument => [] | Plain text | Quoted text => text end.

Lemma argument_value d {A} (zero : A) (continue : Z -> A) :
  directive_ok d -> has_argument d = true ->
  let value := raw_argument d in
  let quoted := is_quoted value in
  let value := if quoted then strip_quotes value else value in
  (if empty value then zero else match digits_loop quoted value 0 with None => zero | Some s => continue s end)
  = if digits_of (argument_text (d_argument d)) then continue (argument_seconds (d_argument d)) else zero.
Proof.
  intros [_ Ha] Hh. unfold raw_argument, has_argument in *.
  assert (Hplain : forall t, (if empty t then zero else match digits_loop false t 0 with None => zero | Some s => continue s end)
                    = if digits_of t then continue (if digits_of t then Z.min (undec t) maximum_ttl else 0) else zero).
  { intros t. unfold digits_of. destruct (empty t); [done|]. cbn [negb andb].
    pose proof (digits_loop_plain t 0 ltac:(lia)) as Hd. change (Z.min 0 maximum_ttl) with 0 in Hd. rewrite Hd.
    by destruct (forallb is_digit t). }
  destruct (d_argument d) as [|text|text]; [done| |]; cbv zeta; cbn [argument_seconds argument_text].
  - destruct Ha as (_ & _ & Hq). rewrite is_quoted_plain by done. apply Hplain.
  - rewrite is_quoted_quoted, strip_quotes_quoted, digits_loop_escape, <- Hplain. destruct text as [|c text]; [done|].
    assert (empty (escape (c :: text)) = false) as ->; [|done].
    unfold escape, escape_char. cbn [map concat]. by destruct ((c == dquote) || (c == backslash)).
Qed.

Lemma seconds_step d tokens name result :
  directive_ok d ->
  seconds_loop (render_directive d :: tokens) name result =
    if asked name d then
      match result with
      | Some _ => Some 0
      | None => if digits_of (argument_text (d_argument d)) then seconds_loop tokens name (Some (argument_seconds (d_argument d)))
                else Some 0
      end
    else seconds_loop tokens name result.
Proof.
  intros Hd. cbn [seconds_loop]. rewrite find_equal_render by done. unfold asked.
  destruct (has_argument d) eqn:Eh; unfold has_argument in Eh; cycle 1.
  { rewrite andb_false_r. by destruct (d_argument d). }
  rewrite andb_true_r.
  assert (match d_argument d with NoArgument => None | _ => Some (length (d_name d)) end = Some (length (d_name d))) as ->
    by by destruct (d_argument d).
  assert (trim_ows (take (length (d_name d)) (render_directive d)) = d_name d) as ->.
  { unfold render_directive. rewrite take_app_length. apply token_trimmed, Hd. }
  destruct (ascii_equal (d_name d) name); cbn [negb]; [|done].
  rewrite raw_argument_render by (try done; by destruct (d_argument d)).
  destruct result as [s|]; cbn [present]; [by rewrite orb_true_r|]. rewrite orb_false_r.
  by apply (argument_value d (Some 0) (fun s => seconds_loop tokens name (Some s))).
Qed.

(** The directives that ask for the name, as the loop meets them. *)
Lemma seconds_loop_render ds name result :
  Forall directive_ok ds ->
  seconds_loop (map render_directive ds) name result =
    match result, List.filter (asked name) ds with
    | _, [] => result
    | None, [d] => Some (argument_seconds (d_argument d))
    | _, _ => Some 0
    end.
Proof.
  intros Hok. revert result. induction Hok as [|d ds Hd Hok IH]; intros result; [by destruct result|].
  cbn [map List.filter]. rewrite seconds_step by done. destruct (asked name d) eqn:Ea; [|apply IH].
  destruct result as [s|]; [done|]. rewrite IH.
  assert (digits_of (argument_text (d_argument d)) = false -> argument_seconds (d_argument d) = 0) as Hz.
  { unfold argument_seconds. destruct (d_argument d); cbn [argument_text]; [done|by intros ->..]. }
  destruct (digits_of _); destruct (List.filter (asked name) ds); try done. by rewrite Hz.
Qed.

(** The seconds of a directive in a written Cache-Control header, whatever other directives,
    quoted arguments and commas in quotes surround it: its number capped at one year, zero when it is
    not a number or is given more than once, and nothing when it is absent. *)
Theorem directive_seconds_exact ds name :
  Forall directive_ok ds ->
  cache_directive_seconds (render_control ds) name =
    match List.filter (asked name) ds with
    | [] => None
    | [d] => Some (argument_seconds (d_argument d))
    | _ => Some 0
    end.
Proof. intros Hok. unfold cache_directive_seconds. rewrite directives_render, seconds_loop_render by done. done. Qed.

Definition example_control : list directive :=
  [mk_directive (lit "public") NoArgument;
   mk_directive (lit "ext") (Quoted (lit "a, max-age=1" ++ [dquote; backslash]));
   mk_directive (lit "Max-Age") (Plain (lit "99999999999999999999999"));
   mk_directive (lit "s-maxage") (Quoted (lit "60"))].

Lemma example_control_ok : Forall directive_ok example_control.
Proof. repeat constructor; cbn; auto; by_decision. Qed.

Lemma directive_seconds_exact_witness :
  cache_directive_seconds (render_control example_control) (lit "max-age") = Some 31536000 /\
  cache_directive_seconds (render_control example_control) (lit "S-MaxAge") = Some 60.
Proof. split; rewrite directive_seconds_exact by exact example_control_ok; vm_compute; reflexivity. Defined.

(** * Qualified directives *)

Record qualified := mk_qualified { q_name : bytes; q_fields : option (list bytes) }.
Definition qualified_directive (q : qualified) : directive :=
  mk_directive (q_name q) (match q_fields q with None => NoArgument | Some fields => Quoted (join (lit ", ") fields) end).
Definition qualified_ok (q : qualified) : Prop :=
  http_token (q_name q) 256 = true /\
  Forall (fun f => http_token f 256 = true) (default [] (q_fields q)).

Definition token_char_unescaped (c : ascii) : bool := negb (is_http_token_char c || (c == ","%char) || (c == " "%char)) || negb ((c == dquote) || (c == backslash)).

Lemma escape_id text : Forall (fun c => (c == dquote) || (c == backslash) = false) text -> escape text = text.
Proof.
  unfold escape. induction 1 as [|c text Hc _ IH]; [done|]. cbn [map concat]. unfold escape_char at 1. by rewrite Hc, IH.
Qed.

Lemma fields_escape fields :
  Forall (fun f => http_token f 256 = true) fields -> escape (join (lit ", ") fields) = join (lit ", ") fields.
Proof.
  intros Hf. apply escape_id. induction Hf as [|f fields Hf Hfs IH]; [done|].
  assert (Forall (fun c => (c == dquote) || (c == backslash) = false) f) as Hfield.
  { unfold http_token in Hf. destruct (_ || _); [done|]. apply forallb_Forall in Hf. eapply Forall_impl; [exact Hf|].
    intros c Hc. pose proof (forall_chars token_char_unescaped ltac:(vm_compute; reflexivity) c) as Hp.
    unfold token_char_unescaped in Hp. rewrite Hc in Hp. by apply negb_true_iff in Hp. }
  cbn [join]. destruct fields as [|g fields]; [done|]. apply Forall_app. split; [done|]. apply Forall_app. split; [by_decision|done].
Qed.

Lemma fields_match_join fuel f fields field matches prefix :
  Forall (fun g => http_token g 256 = true) (f :: fields) -> (prefix = [] \/ prefix = lit " ") ->
  (length (prefix ++ join (lit ", ") (f :: fields)) < fuel)%nat ->
  fields_match fuel (prefix ++ join (lit ", ") (f :: fields)) field matches =
    Some (matches || existsb (fun g => ascii_equal g field) (f :: fields)).
Proof.
  revert f prefix fuel matches. induction fields as [|g fields IH]; intros f prefix fuel matches Hall Hp Hf;
    (destruct fuel as [|fuel]; [lia|]); apply Forall_cons in Hall as [Hft Hall];
    pose proof (token_notin _ ","%char Hft ltac:(auto)) as Hc; destruct (token_chars _ Hft) as [Hne _];
    (assert (","%char ∉ prefix) as Hpc by (destruct Hp as [->| ->]; by_decision)).
  - cbn [join] in *. cbn [fields_match].
    assert (empty (prefix ++ f) = false) as ->.
    { apply not_true_iff_false. rewrite empty_spec. intros [_ ?]%app_nil. contradiction. }
    assert (find_char "," (prefix ++ f) = None) as ->.
    { apply find_char_None. rewrite elem_of_app. tauto. }
    cbn [upto after]. assert (trim_ows (prefix ++ f) = f) as ->.
    { destruct Hp as [->| ->]; cbn [app lit String.list_ascii_of_string]; rewrite ?trim_ows_space; by apply token_trimmed. }
    rewrite Hft. cbn [negb existsb]. rewrite orb_false_r. by destruct fuel.
  - assert (Hsplit : prefix ++ join (lit ", ") (f :: g :: fields) = (prefix ++ f) ++ ","%char :: (lit " " ++ join (lit ", ") (g :: fields))).
    { cbn [join]. rewrite <- !app_assoc. done. }
    rewrite Hsplit in *. clear Hsplit. cbn [fields_match].
    match goal with |- context [empty ?t] => assert (empty t = false) as -> end.
    { apply not_true_iff_false. rewrite empty_spec. intros [[_ ?]%app_nil _]%app_nil. contradiction. }
    assert (Hcp : ","%char ∉ prefix ++ f).
    { rewrite elem_of_app. tauto. }
    rewrite find_char_app_upto, find_char_app_after by done. assert (trim_ows (prefix ++ f) = f) as ->.
    { destruct Hp as [->| ->]; cbn [app lit String.list_ascii_of_string]; rewrite ?trim_ows_space; by apply token_trimmed. }
    rewrite Hft. cbn [negb]. rewrite IH; [|done|by right|rewrite !length_app in Hf; cbn [length] in Hf; lia].
    cbn [existsb]. by rewrite <- orb_assoc.
Qed.

Lemma qualified_directive_ok q : qualified_ok q -> directive_ok (qualified_directive q).
Proof. intros [Hn _]. split; [done|]. unfold qualified_directive. cbn. by destruct (q_fields q). Qed.

Definition qualified_applies (name field : bytes) (q : qualified) : bool :=
  ascii_equal (q_name q) name &&
  match q_fields q with None => true | Some fields => existsb (fun f => ascii_equal f field) fields end.

Lemma directive_restricts_render q name field :
  qualified_ok q -> directive_restricts name field (render_directive (qualified_directive q)) = qualified_applies name field q.
Proof.
  intros Hq. pose proof (qualified_directive_ok q Hq) as Hd. unfold directive_restricts, qualified_applies.
  rewrite directive_name_render, find_equal_render by done. cbn [qualified_directive d_name].
  destruct (ascii_equal (q_name q) name); cbn [negb andb]; [|done].
  destruct Hq as [_ Hf]. unfold qualified_directive in *. destruct (q_fields q) as [fields|]; [|done]. cbn [d_argument default] in *.
  change (S (length (q_name q))) with (S (length (d_name (mk_directive (q_name q) (Quoted (join (lit ", ") fields)))))).
  rewrite raw_argument_render by done. unfold raw_argument. cbn [d_argument].
  rewrite fields_escape by done. rewrite is_quoted_quoted, strip_quotes_quoted. cbn [negb].
  destruct fields as [|f fields]; [done|].
  rewrite (fields_match_join _ f fields field false []); [done|done|by left|cbn [app]; lia].
Qed.

(** A qualified directive (private or no-cache with quoted field names) restricts exactly the
    fields it names, and an unqualified one every field. *)
Theorem qualified_directive_exact qs name field :
  Forall qualified_ok qs ->
  cache_directive_applies (render_control (map qualified_directive qs)) name field =
    existsb (qualified_applies name field) qs.
Proof.
  intros Hq. unfold cache_directive_applies. rewrite directives_render.
  - induction Hq as [|q qs Hq _ IH]; [done|]. cbn [map existsb]. by rewrite directive_restricts_render, IH.
  - apply Forall_map. eapply Forall_impl; [exact Hq|]. intros q. apply qualified_directive_ok.
Qed.

Lemma qualified_directive_exact_witness :
  cache_directive_applies (render_control (map qualified_directive [mk_qualified (lit "private") (Some [lit "Set-Cookie"; lit "X-User"])]))
    (lit "private") (lit "set-cookie") = true.
Proof. rewrite qualified_directive_exact; [vm_compute; reflexivity|]. repeat constructor. Defined.
