(* ===== verification/ResponseCache.v ===== *)
(** The response cache: the published snapshot of src/node/data/response_cache.h.

    Workers share one immutable root and replace it by compare-and-swap: an operation computes a new
    root from the one it read and starts over when another worker published first. An operation's
    effect is therefore one function of the root it replaces, which is how each is written here; the
    interleavings of workers are the sequences of these functions.

    Objects are immutable and a root holds one object per identity ([identities] below), so the
    comparison of two pointers is the comparison of what they point to. Times are steady-clock
    nanoseconds. The counters are 64 bits wide in the source and count up by one from small values;
    they are integers here. What the disk answers (metadata written or not) is an argument. *)
From S2P Require Import Prelude RoutePolicy CacheSettings CachePolicy CacheUrl CacheKey CacheControl.
Open Scope Z_scope.

Definition seconds (n : Z) : Z := n * 1000000000.

(** * Data *)

Record cached_response := mk_response {
  website_id_ : bytes;
  policy_id_ : bytes;
  url_ : bytes;
  headers_ : cache_headers;
  vary_ : list (bytes * bytes);
  body_ : option bytes;
  file_ : option bytes;
  status_ : Z;
  body_bytes_ : Z;
  bytes_ : Z;
  sequence_ : Z;
  identity_ : Z;
  website_epoch_ : Z;
  policy_epoch_ : Z;
  stale_if_error_seconds_ : Z;
  initial_age_ : Z;
  browser_ttl_seconds_ : Z;
  ignore_query_ : bool;
  stored_at_ : Z;
  expires_at_ : Z;
  retain_until_ : Z
}.
#[export] Instance cached_response_eq_dec : EqDecision cached_response.
Proof. solve_decision. Defined.

Record cache_fill_claim := mk_claim { claim_id_ : Z; claim_expires_ : Z; claim_website_ : bytes; claim_policy_ : bytes }.
(** The answer a finished command keeps. *)
Definition cache_result : Type := bytes.
Abbreviation entry_map := (gmap bytes (list cached_response)).
Record response_cache_snapshot := mk_snapshot {
  entries_ : entry_map;
  epochs_ : gmap bytes Z;
  filling_ : gmap bytes cache_fill_claim;
  commands_ : gmap bytes (option cache_result);
  root_sequence_ : Z
}.
Record cache_ticket := mk_ticket {
  ticket_key_ : bytes;
  ticket_website_ : bytes;
  ticket_policy_ : bytes;
  ticket_url_ : bytes;
  ticket_encoding_ : bytes;
  claim_ : Z;
  ticket_website_epoch_ : Z;
  ticket_policy_epoch_ : Z
}.
Record cache_lookup := mk_lookup {
  response_ : option cached_response;
  stale_ : option cached_response;
  lookup_ticket_ : option cache_ticket;
  lookup_filling_ : bool
}.

Definition with_entries (s : response_cache_snapshot) (entries : entry_map) : response_cache_snapshot :=
  mk_snapshot entries (epochs_ s) (filling_ s) (commands_ s) (root_sequence_ s).
Definition with_filling (s : response_cache_snapshot) (filling : gmap bytes cache_fill_claim) : response_cache_snapshot :=
  mk_snapshot (entries_ s) (epochs_ s) filling (commands_ s) (root_sequence_ s).
Definition with_sequence (s : response_cache_snapshot) (sequence : Z) : response_cache_snapshot :=
  mk_snapshot (entries_ s) (epochs_ s) (filling_ s) (commands_ s) sequence.
Definition with_commands (s : response_cache_snapshot) (commands : gmap bytes (option cache_result)) : response_cache_snapshot :=
  mk_snapshot (entries_ s) (epochs_ s) (filling_ s) commands (root_sequence_ s).

Definition set_sequence (item : cached_response) (sequence : Z) : cached_response :=
  mk_response (website_id_ item) (policy_id_ item) (url_ item) (headers_ item) (vary_ item) (body_ item) (file_ item)
    (status_ item) (body_bytes_ item) (bytes_ item) sequence (identity_ item) (website_epoch_ item) (policy_epoch_ item)
    (stale_if_error_seconds_ item) (initial_age_ item) (browser_ttl_seconds_ item) (ignore_query_ item) (stored_at_ item)
    (expires_at_ item) (retain_until_ item).
Definition set_identity (item : cached_response) (identity : Z) : cached_response :=
  mk_response (website_id_ item) (policy_id_ item) (url_ item) (headers_ item) (vary_ item) (body_ item) (file_ item)
    (status_ item) (body_bytes_ item) (bytes_ item) (sequence_ item) identity (website_epoch_ item) (policy_epoch_ item)
    (stale_if_error_seconds_ item) (initial_age_ item) (browser_ttl_seconds_ item) (ignore_query_ item) (stored_at_ item)
    (expires_at_ item) (retain_until_ item).
Definition set_body (item : cached_response) (body : option bytes) : cached_response :=
  mk_response (website_id_ item) (policy_id_ item) (url_ item) (headers_ item) (vary_ item) body (file_ item)
    (status_ item) (body_bytes_ item) (bytes_ item) (sequence_ item) (identity_ item) (website_epoch_ item) (policy_epoch_ item)
    (stale_if_error_seconds_ item) (initial_age_ item) (browser_ttl_seconds_ item) (ignore_query_ item) (stored_at_ item)
    (expires_at_ item) (retain_until_ item).
Definition set_epochs (item : cached_response) (website policy : Z) : cached_response :=
  mk_response (website_id_ item) (policy_id_ item) (url_ item) (headers_ item) (vary_ item) (body_ item) (file_ item)
    (status_ item) (body_bytes_ item) (bytes_ item) (sequence_ item) (identity_ item) website policy
    (stale_if_error_seconds_ item) (initial_age_ item) (browser_ttl_seconds_ item) (ignore_query_ item) (stored_at_ item)
    (expires_at_ item) (retain_until_ item).

Definition website_key (id : bytes) : bytes := lit "website:" ++ id.
Definition policy_key (id : bytes) : bytes := lit "policy:" ++ id.
Definition epoch (s : response_cache_snapshot) (key : bytes) : Z := default 0 (epochs_ s !! key).
Definition entries_of (s : response_cache_snapshot) (key : bytes) : list cached_response := default [] (entries_ s !! key).

(** An entry list after [erase_if]; an empty one leaves the map. *)
Definition put_entries (m : entry_map) (key : bytes) (items : list cached_response) : entry_map :=
  if empty items then delete key m else <[key := items]> m.

(** * Lookup *)

Definition entry_skipped (r : rule) (headers : cache_headers) (encoding : bytes) (now : Z) (item : cached_response) : bool :=
  (cache_has_header headers (lit "Authorization") && negb (cache_allows_authorization (headers_ item) (origin_control_enabled r))) ||
  (retain_until_ item <=? now) ||
  negb (forallb (fun '(name, value) => cache_request_vary r headers name encoding == value) (vary_ item)).

(** The loop over the variants: the fresh one that ends it, and the most recent stale one. *)
Fixpoint scan_entries (skipped : cached_response -> bool) (now : Z) (items : list cached_response) (stale : option cached_response) :
    option cached_response * option cached_response :=
  match items with
  | [] => (None, stale)
  | item :: items =>
      if skipped item then scan_entries skipped now items stale
      else if now <? expires_at_ item then (Some item, stale)
      else scan_entries skipped now items
             (match stale with
              | None => Some item
              | Some old => if sequence_ old <? sequence_ item then Some item else stale
              end)
  end.

Definition maximum_claims : Z := 4096.
Definition map_size {A} (m : gmap bytes A) : Z := Z.of_nat (base.size m).
Definition claim_time : Z := seconds 30.

(** [lookup] from the point where the key is known; a hit is recorded by the worker. *)
Definition lookup (s : response_cache_snapshot) (now : Z) (key : bytes) (r : rule) (headers : cache_headers)
    (encoding website policy url : bytes) (acquire existing_only : bool) : response_cache_snapshot * cache_lookup :=
  match scan_entries (entry_skipped r headers encoding now) now (entries_of s key) None with
  | (Some item, _) => (s, mk_lookup (Some item) None None false)
  | (None, stale) =>
      if negb acquire || (existing_only && negb (present stale)) then (s, mk_lookup None stale None false)
      else if match filling_ s !! key with Some pending => now <? claim_expires_ pending | None => false end
      then (s, mk_lookup None stale None true)
      else
        let filling :=
          if maximum_claims <=? map_size (filling_ s)
          then filter (fun kv => now < claim_expires_ (snd kv)) (filling_ s) else filling_ s in
        if maximum_claims <=? map_size filling then (s, mk_lookup None stale None false)
        else
          let claim := root_sequence_ s + 1 in
          let next := with_sequence (with_filling s (<[key := mk_claim claim (now + claim_time) website policy]> filling)) claim in
          let ticket := mk_ticket key website policy url encoding claim (epoch s (website_key website)) (epoch s (policy_key policy)) in
          (next, mk_lookup None stale (Some ticket) false)
  end.

(** * Claims *)

Definition holds_claim (s : response_cache_snapshot) (ticket : cache_ticket) : bool :=
  match filling_ s !! ticket_key_ ticket with Some claim => claim_id_ claim =? claim_ ticket | None => false end.
Definition epochs_current (s : response_cache_snapshot) (ticket : cache_ticket) : bool :=
  (epoch s (website_key (ticket_website_ ticket)) =? ticket_website_epoch_ ticket) &&
  (epoch s (policy_key (ticket_policy_ ticket)) =? ticket_policy_epoch_ ticket).

Definition renew (s : response_cache_snapshot) (now : Z) (ticket : cache_ticket) : response_cache_snapshot * bool :=
  if negb (holds_claim s ticket) || negb (epochs_current s ticket) then (s, false)
  else
    (with_filling s (alter (fun c => mk_claim (claim_id_ c) (now + claim_time) (claim_website_ c) (claim_policy_ c))
                       (ticket_key_ ticket) (filling_ s)), true).

Definition abandon (s : response_cache_snapshot) (ticket : cache_ticket) : response_cache_snapshot :=
  if negb (holds_claim s ticket) then s else with_filling s (delete (ticket_key_ ticket) (filling_ s)).

Definition current (s : response_cache_snapshot) (key : bytes) (object : cached_response) : bool :=
  existsb (fun item => identity_ item =? identity_ object) (entries_of s key).

(** * Capacity *)

Record capacity := mk_capacity { memory_ : Z; disk_ : Z }.
Definition memory_cost (item : cached_response) : Z := bytes_ item - (if present (body_ item) then 0 else body_bytes_ item).
Definition disk_cost (item : cached_response) : Z := if present (file_ item) then bytes_ item else 0.

Definition usage_step (policy : bytes) (used : capacity) (item : cached_response) : capacity :=
  if policy_id_ item != policy then used
  else mk_capacity (memory_ used + memory_cost item) (disk_ used + disk_cost item).
(** All objects of a root. *)
Definition all_items (m : entry_map) : list cached_response := concat (map snd (map_to_list m)).
Definition usage (m : entry_map) (policy : bytes) : capacity := fold_left (usage_step policy) (all_items m) (mk_capacity 0 0).

(** * Eviction *)

Record eviction := mk_eviction { ev_entries : entry_map; ev_memory : Z; ev_disk : Z; ev_retire : bool }.

Definition maximum_keys : Z := 16384.

(** The lambda [remove]. *)
Definition remove_item (st : eviction) (key : bytes) (item : cached_response) : eviction :=
  match ev_entries st !! key with
  | Some items =>
      if bool_decide (item ∈ items) then
        mk_eviction (put_entries (ev_entries st) key (List.filter (fun x => x != item) items))
          (ev_memory st - memory_cost item) (ev_disk st - disk_cost item) (ev_retire st || present (file_ item))
      else st
  | None => st
  end.

(** The first loop: least recently used objects, until the disk and the number of keys fit. *)
Fixpoint evict_disk (limits : capacity) (items : list (bytes * cached_response)) (st : eviction) : eviction :=
  match items with
  | [] => st
  | (key, item) :: items =>
      if (ev_disk st <=? disk_ limits) && (map_size (ev_entries st) <=? maximum_keys) then st
      else evict_disk limits items (remove_item st key item)
  end.

(** [std::ranges::find] of the object, replaced in place. *)
Fixpoint replace_item (items : list cached_response) (old new : cached_response) : list cached_response :=
  match items with
  | [] => []
  | x :: items => if x == old then new :: items else x :: replace_item items old new
  end.

(** The second loop: memory copies go first; an object that has a file stays on the disk. *)
Fixpoint evict_copies (limits : capacity) (items : list (bytes * cached_response)) (st : eviction) :
    eviction * list (bytes * cached_response) :=
  match items with
  | [] => (st, [])
  | (key, item) :: items =>
      if ev_memory st <=? memory_ limits then (st, (key, item) :: items)
      else
        let '(st, item) :=
          match ev_entries st !! key with
          | Some found =>
              if negb (present (body_ item)) || negb (bool_decide (item ∈ found)) then (st, item)
              else if present (file_ item) then
                let disk_only := set_body item None in
                (mk_eviction (<[key := replace_item found item disk_only]> (ev_entries st))
                   (ev_memory st - body_bytes_ item) (ev_disk st) (ev_retire st), disk_only)
              else (remove_item st key item, item)
          | None => (st, item)
          end in
        let '(st, items) := evict_copies limits items st in
        (st, (key, item) :: items)
  end.

(** The third loop. *)
Fixpoint evict_rest (limits : capacity) (items : list (bytes * cached_response)) (st : eviction) : eviction :=
  match items with
  | [] => st
  | (key, item) :: items =>
      if ev_memory st <=? memory_ limits then st else evict_rest limits items (remove_item st key item)
  end.

Definition expire_entries (now : Z) (m : entry_map) : entry_map :=
  omap (fun items => let kept := List.filter (fun item => now <? retain_until_ item) items in
                     if empty kept then None else Some kept) m.
Definition expires_file (now : Z) (m : entry_map) : bool :=
  existsb (fun item => (retain_until_ item <=? now) && present (file_ item)) (all_items m).

Definition older (a b : bytes * cached_response) : Prop := sequence_ (snd a) <= sequence_ (snd b).
#[export] Instance older_dec : RelDecision older.
Proof. intros a b. unfold older. apply _. Defined.

Definition policy_items (policy : bytes) (m : entry_map) : list (bytes * cached_response) :=
  List.filter (fun '(_, item) => policy_id_ item == policy)
    (concat (map (fun '(key, items) => map (pair key) items) (map_to_list m))).

Definition evict (m : entry_map) (policy : bytes) (now : Z) (limits : capacity) : entry_map * bool :=
  let live := expire_entries now m in
  let used := usage live policy in
  let items := merge_sort older (policy_items policy live) in
  let st := mk_eviction live (memory_ used) (disk_ used) (expires_file now m) in
  let st := evict_disk limits items st in
  let '(st, items) := evict_copies limits items st in
  let st := evict_rest limits items st in
  (ev_entries st, ev_retire st).

(** * Storing *)

Definition maximum_variants : nat := 16.

(** The loop of [store]: [item] is the filled object and [limits] the capacity of the policy for a
    root. A refusal abandons the ticket. *)
Definition store (s : response_cache_snapshot) (ticket : cache_ticket) (policy : bytes)
    (limits : response_cache_snapshot -> capacity) (item : cached_response) (persisted : bool) :
    response_cache_snapshot * bool :=
  if negb (epochs_current s ticket) || negb (holds_claim s ticket) then (abandon s ticket, false)
  else
    let key := ticket_key_ ticket in
    let kept := List.filter (fun existing => vary_ existing != vary_ item) (entries_of s key) in
    let kept := if (maximum_variants <=? length kept)%nat then tl kept else kept in
    let sequence := root_sequence_ s + 1 in
    let item := set_identity (set_sequence item sequence) sequence in
    let next := with_sequence (with_filling (with_entries s (<[key := kept ++ [item]]> (entries_ s)))
                                 (delete key (filling_ s))) sequence in
    let '(entries, _) := evict (entries_ next) policy (stored_at_ item) (limits next) in
    match entries !! key with
    | None => (abandon s ticket, false)
    | Some _ => if negb persisted then (abandon s ticket, false) else (with_entries next entries, true)
    end.

Definition discard (s : response_cache_snapshot) (key : bytes) (identity : Z) : response_cache_snapshot :=
  match entries_ s !! key with
  | None => s
  | Some items => with_entries s (put_entries (entries_ s) key (List.filter (fun item => identity_ item != identity) items))
  end.

(** The loop of [revalidate]: [refreshed] carries the new metadata of [previous]. *)
Fixpoint replace_identity (items : list cached_response) (identity : Z) (new : cached_response) : list cached_response :=
  match items with
  | [] => []
  | x :: items => if identity_ x =? identity then new :: items else x :: replace_identity items identity new
  end.
Definition revalidate (s : response_cache_snapshot) (ticket : cache_ticket) (previous refreshed : cached_response)
    (persisted : bool) : response_cache_snapshot * option cached_response :=
  let key := ticket_key_ ticket in
  match entries_ s !! key with
  | Some items =>
      if negb (holds_claim s ticket) || negb (epochs_current s ticket) then (s, None)
      else if negb (existsb (fun item => identity_ item =? identity_ previous) items) then (s, None)
      else
        let sequence := root_sequence_ s + 1 in
        let refreshed := set_sequence refreshed sequence in
        if negb persisted then (s, None)
        else
          (with_sequence (with_filling (with_entries s (<[key := replace_identity items (identity_ previous) refreshed]> (entries_ s)))
                            (delete key (filling_ s))) sequence, Some refreshed)
  | None => (s, None)
  end.

(** The loop of [promote]: the object of the same file gains a memory copy. *)
Definition promote (s : response_cache_snapshot) (key : bytes) (object : cached_response) (policy : bytes)
    (limits : response_cache_snapshot -> capacity) (body : bytes) (now : Z) : response_cache_snapshot :=
  match entries_ s !! key with
  | None => s
  | Some items =>
      if expires_at_ object <=? now then s
      else match List.find (fun item => file_ item == file_ object) items with
           | None => s
           | Some found =>
               if present (body_ found) then s
               else
                 let sequence := root_sequence_ s + 1 in
                 let promoted := set_sequence (set_body found (Some body)) sequence in
                 let next := with_sequence (with_entries s (<[key := replace_item items found promoted]> (entries_ s))) sequence in
                 with_entries next (fst (evict (entries_ next) policy now (limits next)))
           end
  end.

(** The loop of [trim_for_pressure]. *)
Definition trim (s : response_cache_snapshot) (policy : bytes) (now : Z) (limits : response_cache_snapshot -> capacity) :
    response_cache_snapshot :=
  let used := usage (entries_ s) policy in
  if (memory_ used <=? memory_ (limits s)) && (disk_ used <=? disk_ (limits s)) then s
  else with_entries s (fst (evict (entries_ s) policy now (limits s))).

(** * Commands *)

Definition command_result (s : response_cache_snapshot) (id : bytes) : option cache_result := mjoin (commands_ s !! id).
Definition maximum_commands : Z := 1024.
(** [None] in the map is a command that a worker owns. *)
Definition claim_command (s : response_cache_snapshot) (id : bytes) : response_cache_snapshot * bool :=
  match commands_ s !! id with
  | Some _ => (s, false)
  | None =>
      let commands := <[id := None]> (commands_ s) in
      let commands := if maximum_commands <? map_size commands then filter (fun kv => snd kv = None) commands else commands in
      (with_commands s commands, true)
  end.
Definition complete_command (s : response_cache_snapshot) (id : bytes) (result : cache_result) : response_cache_snapshot :=
  with_commands s (<[id := Some result]> (commands_ s)).

(** * Touches: the hits a worker has not yet published *)

Record touches := mk_touches { touched_ : gmap bytes (list Z); hits_since_flush_ : Z }.

Definition touch_items (ids : list Z) (items : list cached_response) (sequence : Z) : list cached_response * Z :=
  fold_left (fun '(result, sequence) item =>
    if bool_decide (identity_ item ∈ ids) then (result ++ [set_sequence item (sequence + 1)], sequence + 1)
    else (result ++ [item], sequence)) items ([], sequence).
Definition touch_key (s : response_cache_snapshot) (kv : bytes * list Z) : response_cache_snapshot :=
  let '(key, ids) := kv in
  match entries_ s !! key with
  | None => s
  | Some items =>
      let '(items, sequence) := touch_items ids items (root_sequence_ s) in
      with_sequence (with_entries s (<[key := items]> (entries_ s))) sequence
  end.
Definition flush_touches (s : response_cache_snapshot) (w : touches) : response_cache_snapshot * touches :=
  match map_to_list (touched_ w) with
  | [] => (s, w)
  | l => (fold_left touch_key l s, mk_touches ∅ 0)
  end.
Definition record_hit (s : response_cache_snapshot) (w : touches) (key : bytes) (object : cached_response) :
    response_cache_snapshot * touches :=
  let ids := default [] (touched_ w !! key) in
  let ids := if bool_decide (identity_ object ∈ ids) then ids else ids ++ [identity_ object] in
  let w := mk_touches (<[key := ids]> (touched_ w)) (hits_since_flush_ w + 1) in
  if 128 <=? hits_since_flush_ w then flush_touches s w else (s, w).

(** * Invalidation *)

Record cache_command := mk_command { operation_ : bytes; command_policy_ : bytes; command_websites_ : list bytes; scope_ : bytes }.
Record cache_invalidation_url := mk_invalidation { inv_website_ : bytes; inv_url_ : url }.

Definition raise_epoch (epochs : gmap bytes Z) (key : bytes) : gmap bytes Z := <[key := default 0 (epochs !! key) + 1]> epochs.
Definition raise_epochs (command : cache_command) (epochs : gmap bytes Z) : gmap bytes Z :=
  if operation_ command == lit "clean" then raise_epoch epochs (policy_key (command_policy_ command))
  else fold_left (fun epochs site => raise_epoch epochs (website_key site)) (command_websites_ command) epochs.

Definition covers (command : cache_command) (policy website : bytes) : bool :=
  (policy == command_policy_ command) &&
  ((operation_ command == lit "clean") || bool_decide (website ∈ command_websites_ command)).

(** One address of the command against the object's. *)
Definition address_matches (command : cache_command) (item : cached_response) (origin target : bytes) (u : cache_invalidation_url) :
    throwing bool :=
  if inv_website_ u != website_id_ item then Returns false
  else throwing_bind (cache_resource_address (CacheUrl.value_ (inv_url_ u))) (fun '(candidate_origin, _) =>
    if candidate_origin != origin then Returns false
    else
      let candidate := CacheUrl.target_ (inv_url_ u) in
      let candidate := if ignore_query_ item then upto (find_char "?" candidate) candidate else candidate in
      Returns (if scope_ command == lit "prefix" then starts_with target candidate else target == candidate)).
Fixpoint any_address (command : cache_command) (item : cached_response) (origin target : bytes) (urls : list cache_invalidation_url) :
    throwing bool :=
  match urls with
  | [] => Returns false
  | u :: urls =>
      throwing_bind (address_matches command item origin target u) (fun matched =>
        if matched : bool then Returns true else any_address command item origin target urls)
  end.

Definition item_matches (command : cache_command) (urls : list cache_invalidation_url) (now : Z) (item : cached_response) :
    throwing bool :=
  let matched := covers command (policy_id_ item) (website_id_ item) in
  let matched := if matched && (scope_ command == lit "expired") then expires_at_ item <=? now else matched in
  if matched && ((scope_ command == lit "urls") || (scope_ command == lit "prefix")) then
    throwing_bind (cache_resource_address (url_ item)) (fun '(origin, target) => any_address command item origin target urls)
  else Returns matched.

(** [erase_if] over one list, with the number of objects and of bytes erased. *)
Definition erase_step (command : cache_command) (urls : list cache_invalidation_url) (now : Z)
    (acc : list cached_response * Z * Z) (item : cached_response) : throwing (list cached_response * Z * Z) :=
  let '(kept, count, total) := acc in
  throwing_bind (item_matches command urls now item) (fun matched =>
    Returns (if matched : bool then (kept, count + 1, total + bytes_ item) else (kept ++ [item], count, total))).
Definition erase_key (command : cache_command) (urls : list cache_invalidation_url) (now : Z)
    (acc : entry_map * Z * Z) (kv : bytes * list cached_response) : throwing (entry_map * Z * Z) :=
  let '(m, count, total) := acc in
  throwing_bind (throwing_fold (erase_step command urls now) ([], count, total) (snd kv)) (fun '(kept, count, total) =>
    Returns (put_entries m (fst kv) kept, count, total)).

(** The fence: a retained object takes the current epochs, and its metadata is written again. *)
Definition renewed (s : response_cache_snapshot) (item : cached_response) : cached_response :=
  set_epochs item (epoch s (website_key (website_id_ item))) (epoch s (policy_key (policy_id_ item))).
Definition fenced (s : response_cache_snapshot) (persist : bytes -> cached_response -> bool) (kv : bytes * list cached_response) : bool :=
  forallb (fun item => (renewed s item == item) || persist (fst kv) (renewed s item)) (snd kv).

Definition invalidate (s : response_cache_snapshot) (command : cache_command) (urls : list cache_invalidation_url) (now : Z)
    (epochs_written : bool) (persist : bytes -> cached_response -> bool) : throwing (response_cache_snapshot * (Z * Z)) :=
  if negb epochs_written then Throws (lit "cannot persist cache invalidation") else
  let epochs := raise_epochs command (epochs_ s) in
  let filling := filter (fun kv => covers command (claim_policy_ (snd kv)) (claim_website_ (snd kv)) = false) (filling_ s) in
  throwing_bind (throwing_fold (erase_key command urls now) (entries_ s, 0, 0) (map_to_list (entries_ s))) (fun '(m, count, total) =>
    let next := mk_snapshot m epochs filling (commands_ s) (root_sequence_ s) in
    if negb (forallb (fenced next persist) (map_to_list m)) then Throws (lit "cannot persist retained cache metadata")
    else Returns (with_entries next (map (renewed next) <$> m), (count, total))).

(** * The objects of a root *)

Lemma all_items_delete m key items : m !! key = Some items -> all_items m ≡ₚ items ++ all_items (delete key m).
Proof.
  intros Hk. unfold all_items. rewrite <- (map_to_list_delete m key items Hk). done.
Qed.

Lemma all_items_insert m key items : all_items (<[key := items]> m) ≡ₚ items ++ all_items (delete key m).
Proof.
  rewrite (all_items_delete _ key items) by apply lookup_insert_eq. by rewrite delete_insert_eq.
Qed.

Lemma all_items_split m key : all_items m ≡ₚ default [] (m !! key) ++ all_items (delete key m).
Proof.
  destruct (m !! key) as [items|] eqn:E; [by apply all_items_delete|]. by rewrite delete_id.
Qed.

Lemma all_items_put m key items : all_items (put_entries m key items) ≡ₚ items ++ all_items (delete key m).
Proof.
  unfold put_entries. destruct (empty items) eqn:E; [|apply all_items_insert]. by apply empty_spec in E as ->.
Qed.

Lemma elem_of_all_items m item : item ∈ all_items m <-> exists key items, m !! key = Some items /\ item ∈ items.
Proof.
  unfold all_items. rewrite list_elem_of_In, in_concat. split.
  - intros (items & ([key items'] & <- & Hin)%in_map_iff & Hi). exists key, items'.
    apply list_elem_of_In in Hin, Hi. apply elem_of_map_to_list in Hin. done.
  - intros (key & items & Hk & Hi). exists items. split; [|by apply list_elem_of_In].
    apply in_map_iff. exists (key, items). split; [done|]. apply list_elem_of_In. by apply elem_of_map_to_list.
Qed.

(** A property of every object and its key. *)
Definition every_entry (P : bytes -> cached_response -> Prop) (m : entry_map) : Prop :=
  forall key item, item ∈ default [] (m !! key) -> P key item.

Lemma every_entry_items (P : cached_response -> Prop) m : every_entry (fun _ => P) m <-> Forall P (all_items m).
Proof.
  rewrite Forall_forall. split.
  - intros Hm item (key & items & Hk & Hi)%elem_of_all_items. apply (Hm key). by rewrite Hk.
  - intros Hm key item Hi. destruct (m !! key) as [items|] eqn:E; [|by apply elem_of_nil in Hi].
    apply Hm, elem_of_all_items. by exists key, items.
Qed.

(** * Totals *)

Definition total (f : cached_response -> Z) (policy : bytes) (items : list cached_response) : Z :=
  fold_right (fun item sum => (if policy_id_ item == policy then f item else 0) + sum) 0 items.

Definition share (f : cached_response -> Z) (policy : bytes) (item : cached_response) : Z :=
  if policy_id_ item == policy then f item else 0.
Lemma policy_total_cons f policy x items : total f policy (x :: items) = share f policy x + total f policy items.
Proof. done. Qed.

Lemma policy_total_app f policy a b : total f policy (a ++ b) = total f policy a + total f policy b.
Proof. induction a as [|x a IH]; [done|]. cbn [app]. rewrite !policy_total_cons, IH. lia. Qed.

#[export] Instance policy_total_permutation f policy : Proper ((≡ₚ) ==> eq) (total f policy).
Proof. intros a b Hp. induction Hp; rewrite ?policy_total_cons; lia. Qed.

Lemma policy_total_nonneg f policy items : Forall (fun item => 0 <= f item) items -> 0 <= total f policy items.
Proof. induction 1 as [|x l Hx _ IH]; [done|]. rewrite policy_total_cons. unfold share. destruct (policy_id_ x == policy); lia. Qed.

Lemma usage_fold policy items used :
  fold_left (usage_step policy) items used =
    mk_capacity (memory_ used + total memory_cost policy items) (disk_ used + total disk_cost policy items).
Proof.
  revert used. induction items as [|x items IH]; intros used; cbn [fold_left].
  - cbn. rewrite !Z.add_0_r. by destruct used.
  - rewrite IH, !policy_total_cons. unfold usage_step, share.
    destruct (policy_id_ x == policy); cbn [negb memory_ disk_]; f_equal; lia.
Qed.

Lemma usage_total m policy : usage m policy = mk_capacity (total memory_cost policy (all_items m)) (total disk_cost policy (all_items m)).
Proof. unfold usage. rewrite usage_fold. done. Qed.

(** The sizes the source gives an object: its headers and 256 bytes more than its body. *)
Definition sized (item : cached_response) : Prop := 0 <= body_bytes_ item <= bytes_ item.

Lemma costs_nonneg item : sized item -> 0 <= memory_cost item /\ 0 <= disk_cost item.
Proof. unfold sized, memory_cost, disk_cost. destruct (present (body_ item)), (present (file_ item)); lia. Qed.

Lemma NoDup_identity (items : list cached_response) : NoDup (map identity_ items) -> NoDup items.
Proof. apply NoDup_fmap_1. Qed.

Lemma filter_other (items : list cached_response) item :
  NoDup items -> item ∈ items -> items ≡ₚ item :: List.filter (fun x => x != item) items.
Proof.
  induction 1 as [|x l Hx Hl IH]; intros Hin; [by apply not_elem_of_nil in Hin|]. cbn [List.filter].
  destruct (decide (x = item)) as [->|Hne].
  - rewrite (bool_decide_eq_true_2 (item = item)) by done. cbn [negb]. f_equiv.
    clear IH Hin Hl. induction l as [|y l IHl]; [done|]. cbn [List.filter]. apply not_elem_of_cons in Hx as [Hy Hx].
    rewrite (bool_decide_eq_false_2 (y = item)) by done. cbn [negb]. f_equiv. by apply IHl.
  - rewrite (bool_decide_eq_false_2 (x = item)) by done. cbn [negb]. apply elem_of_cons in Hin as [?|Hin]; [done|].
    rewrite (IH Hin) at 1. apply Permutation_swap.
Qed.

Lemma replace_item_spec (items : list cached_response) old new :
  old ∈ items -> exists rest, items ≡ₚ old :: rest /\ replace_item items old new ≡ₚ new :: rest.
Proof.
  induction items as [|x items IH]; intros Hin; [by apply not_elem_of_nil in Hin|]. cbn [replace_item].
  destruct (decide (x = old)) as [->|Hne].
  - rewrite (bool_decide_eq_true_2 (old = old)) by done. by exists items.
  - rewrite (bool_decide_eq_false_2 (x = old)) by done. apply elem_of_cons in Hin as [?|Hin]; [done|].
    destruct (IH Hin) as (rest & H1 & H2). exists (x :: rest). split.
    + rewrite H1. apply Permutation_swap.
    + rewrite H2. apply Permutation_swap.
Qed.

(** No key is kept without an object. *)
Definition no_empty (m : entry_map) : Prop := forall key items, m !! key = Some items -> items <> [].

Lemma put_no_empty m key items : no_empty m -> no_empty (put_entries m key items).
Proof.
  intros Hm k l. unfold put_entries. destruct (empty items) eqn:E; intros Hl.
  - apply lookup_delete_Some in Hl as [_ Hl]. by apply (Hm k).
  - apply lookup_insert_Some in Hl as [[_ <-]|[_ Hl]]; [|by apply (Hm k)]. intros ->. done.
Qed.

(** * Eviction *)

Section Eviction.
Variable policy : bytes.

(** The running totals are the usage, the objects are distinct and have their sizes. *)
Record ev_ok (st : eviction) : Prop := {
  ev_memory_total : ev_memory st = total memory_cost policy (all_items (ev_entries st));
  ev_disk_total : ev_disk st = total disk_cost policy (all_items (ev_entries st));
  ev_distinct : NoDup (map identity_ (all_items (ev_entries st)));
  ev_sized : Forall sized (all_items (ev_entries st));
  ev_full : no_empty (ev_entries st)
}.

(** Every object of the policy is in the list. *)
Definition covered (items : list (bytes * cached_response)) (st : eviction) : Prop :=
  forall key item, item ∈ default [] (ev_entries st !! key) -> policy_id_ item = policy -> (key, item) ∈ items.

(** What one step may do: less memory, less disk, fewer keys, other policies as they were. *)
Definition others (m : entry_map) (key : bytes) : list cached_response :=
  List.filter (fun item => policy_id_ item != policy) (default [] (m !! key)).
Record shrinks (st st' : eviction) : Prop := {
  shrink_memory : ev_memory st' <= ev_memory st;
  shrink_disk : ev_disk st' <= ev_disk st;
  shrink_keys : (base.size (ev_entries st') <= base.size (ev_entries st))%nat;
  shrink_others : forall key, others (ev_entries st') key = others (ev_entries st) key;
  shrink_retain : forall (P : bytes -> cached_response -> Prop), (forall k i b, P k i -> P k (set_body i b)) ->
    every_entry P (ev_entries st) -> every_entry P (ev_entries st')
}.

#[export] Instance shrinks_preorder : PreOrder shrinks.
Proof.
  split.
  - intros st. split; auto; lia.
  - intros a b c [] []. split; try lia; eauto. intros key. by rewrite shrink_others1.
Qed.

Lemma lookup_put m key items k : default [] (put_entries m key items !! k) = if decide (k = key) then items else default [] (m !! k).
Proof.
  unfold put_entries. destruct (empty items) eqn:E, (decide (k = key)) as [->|Hne].
  - rewrite lookup_delete_eq. by apply empty_spec in E as ->.
  - by rewrite lookup_delete_ne.
  - by rewrite lookup_insert_eq.
  - by rewrite lookup_insert_ne.
Qed.

Lemma size_put m key items : is_Some (m !! key) -> (base.size (put_entries m key items) <= base.size m)%nat.
Proof.
  intros Hk. unfold put_entries. destruct (empty items).
  - rewrite map_size_delete. destruct Hk as [? ->]. lia.
  - rewrite map_size_insert. by destruct Hk as [? ->].
Qed.

Lemma filter_filter_other (items : list cached_response) item :
  policy_id_ item = policy ->
  List.filter (fun x => policy_id_ x != policy) (List.filter (fun x => x != item) items) = List.filter (fun x => policy_id_ x != policy) items.
Proof.
  intros Hp. induction items as [|x items IH]; [done|]. cbn [List.filter]. destruct (decide (x = item)) as [->|Hne].
  - rewrite (bool_decide_eq_true_2 (item = item)) by done. cbn [negb]. rewrite (bool_decide_eq_true_2 _ Hp). exact IH.
  - rewrite (bool_decide_eq_false_2 (x = item)) by done. cbn [negb List.filter]. by rewrite IH.
Qed.

Lemma remove_item_ok st key item items :
  ev_ok st -> policy_id_ item = policy -> covered ((key, item) :: items) st ->
  ev_ok (remove_item st key item) /\ covered items (remove_item st key item) /\ shrinks st (remove_item st key item).
Proof.
  intros Hok Hp Hc. unfold remove_item. destruct (ev_entries st !! key) as [found|] eqn:Ek; cycle 1.
  { split; [done|]. split; [|done]. intros k i Hi Hip. specialize (Hc k i Hi Hip). apply elem_of_cons in Hc as [[= -> ->]|Hc]; [|done].
    rewrite Ek in Hi. by apply not_elem_of_nil in Hi. }
  destruct (bool_decide (item ∈ found)) eqn:Ein; reflect_bool; cycle 1.
  { split; [done|]. split; [|done]. intros k i Hi Hip. specialize (Hc k i Hi Hip). apply elem_of_cons in Hc as [[= -> ->]|Hc]; [|done].
    rewrite Ek in Hi. done. }
  destruct Hok as [Hm Hd Hnd Hs Hf]. pose proof (all_items_delete _ _ _ Ek) as Hall.
  assert (NoDup found) as Hfound.
  { apply NoDup_identity. rewrite Hall, map_app in Hnd. by apply NoDup_app in Hnd as [? _]. }
  pose proof (filter_other found item Hfound Ein) as Hperm.
  set (kept := List.filter (fun x => x != item) found) in *.
  assert (Hall' : all_items (ev_entries st) ≡ₚ item :: all_items (put_entries (ev_entries st) key kept)).
  { rewrite all_items_put, Hall. by rewrite Hperm at 1. }
  assert (sized item) as Hsi by (rewrite Hall' in Hs; by inversion Hs).
  destruct (costs_nonneg item Hsi) as [Hmc Hdc].
  split; [|split].
  - split; cbn.
    + rewrite Hm, Hall', policy_total_cons. unfold share. rewrite (bool_decide_eq_true_2 _ Hp). lia.
    + rewrite Hd, Hall', policy_total_cons. unfold share. rewrite (bool_decide_eq_true_2 _ Hp). lia.
    + rewrite Hall' in Hnd. by inversion Hnd.
    + rewrite Hall' in Hs. by inversion Hs.
    + by apply put_no_empty.
  - intros k i. cbn. rewrite lookup_put. destruct (decide (k = key)) as [->|Hne]; intros Hi Hip.
    + assert (i ∈ found /\ i <> item) as [Hif Hne].
      { apply list_elem_of_In, List.filter_In in Hi as [Hi Hn]. split; [by apply list_elem_of_In|]. by apply negb_true_iff, bool_decide_eq_false in Hn. }
      specialize (Hc key i). rewrite Ek in Hc. specialize (Hc Hif Hip). apply elem_of_cons in Hc as [[= ->]|Hc]; done.
    + specialize (Hc k i Hi Hip). apply elem_of_cons in Hc as [[= -> ->]|Hc]; done.
  - split; cbn; [lia|lia|apply size_put; by rewrite Ek| |].
    + intros k. unfold others. rewrite lookup_put. destruct (decide (k = key)) as [->|Hne]; [|done].
      rewrite Ek. by apply filter_filter_other.
    + intros P _ HP k i Hi. rewrite lookup_put in Hi. destruct (decide (k = key)) as [->|Hne]; [|by apply HP].
      apply HP. rewrite Ek. apply list_elem_of_In, List.filter_In in Hi as [Hi _]. by apply list_elem_of_In.
Qed.

Lemma demote_others (items : list cached_response) item :
  policy_id_ item = policy ->
  List.filter (fun x => policy_id_ x != policy) (replace_item items item (set_body item None)) =
    List.filter (fun x => policy_id_ x != policy) items.
Proof.
  intros Hp. induction items as [|x items IH]; [done|]. cbn [replace_item]. destruct (decide (x = item)) as [->|Hne].
  - rewrite (bool_decide_eq_true_2 (item = item)) by done. cbn [List.filter]. change (policy_id_ (set_body item None)) with (policy_id_ item).
    by rewrite (bool_decide_eq_true_2 _ Hp).
  - rewrite (bool_decide_eq_false_2 (x = item)) by done. cbn [List.filter]. by rewrite IH.
Qed.

(** The demotion of one object to its file. *)
Definition demote (st : eviction) (key : bytes) (found : list cached_response) (item : cached_response) : eviction :=
  mk_eviction (<[key := replace_item found item (set_body item None)]> (ev_entries st))
    (ev_memory st - body_bytes_ item) (ev_disk st) (ev_retire st).

Lemma demote_ok st key found item before after :
  ev_ok st -> policy_id_ item = policy -> present (body_ item) = true ->
  ev_entries st !! key = Some found -> item ∈ found -> covered (before ++ (key, item) :: after) st ->
  ev_ok (demote st key found item) /\ covered (before ++ (key, set_body item None) :: after) (demote st key found item) /\
  shrinks st (demote st key found item).
Proof.
  intros [Hm Hd Hnd Hs Hf] Hp Hb Ek Ein Hc. set (copy := set_body item None).
  destruct (replace_item_spec found item copy Ein) as (rest & Hr1 & Hr2). pose proof (all_items_delete _ _ _ Ek) as Hall.
  assert (Hall1 : all_items (ev_entries st) ≡ₚ item :: rest ++ all_items (delete key (ev_entries st))) by (by rewrite Hall, Hr1).
  assert (Hall2 : all_items (ev_entries (demote st key found item)) ≡ₚ copy :: rest ++ all_items (delete key (ev_entries st))).
  { cbn [demote ev_entries]. fold copy. by rewrite all_items_insert, Hr2. }
  assert (sized item) as Hsi by (rewrite Hall1 in Hs; by inversion Hs). unfold sized in Hsi.
  assert (memory_cost copy = memory_cost item - body_bytes_ item /\ disk_cost copy = disk_cost item) as [Hmc Hdc].
  { unfold memory_cost, disk_cost. rewrite Hb. cbn. split; [lia|done]. }
  assert (item ∉ rest) as Hrest.
  { rewrite Hall1 in Hnd. apply NoDup_identity in Hnd. apply NoDup_cons in Hnd as [Hni _]. intros Hi. apply Hni, elem_of_app. by left. }
  split; [|split].
  - split.
    + cbn [demote ev_memory]. rewrite Hall2, Hm, Hall1, !policy_total_cons. unfold share. change (policy_id_ copy) with (policy_id_ item).
      rewrite (bool_decide_eq_true_2 _ Hp), Hmc. lia.
    + cbn [demote ev_disk]. rewrite Hall2, Hd, Hall1, !policy_total_cons. unfold share. change (policy_id_ copy) with (policy_id_ item).
      by rewrite Hdc.
    + rewrite Hall1 in Hnd. rewrite Hall2. exact Hnd.
    + rewrite Hall1 in Hs. rewrite Hall2. inversion Hs; subst. by constructor.
    + cbn [demote ev_entries]. intros k l Hl. apply lookup_insert_Some in Hl as [[_ <-]|[_ Hl]]; [|by apply (Hf k)].
      fold copy. intros E. rewrite E in Hr2. by apply Permutation_nil_cons in Hr2.
  - intros k i. cbn [demote ev_entries]. fold copy. destruct (decide (k = key)) as [->|Hne]; intros Hi Hip.
    + rewrite lookup_insert_eq in Hi. cbn [default] in Hi. rewrite Hr2 in Hi. apply elem_of_cons in Hi as [->|Hi].
      * apply elem_of_app. right. by left.
      * assert (i ∈ found) as Hif by (rewrite Hr1; by right). specialize (Hc key i). rewrite Ek in Hc. specialize (Hc Hif Hip).
        apply elem_of_app in Hc as [Hc|Hc]; apply elem_of_app; [by left|right].
        apply elem_of_cons in Hc as [[= ->]|Hc]; [done|by right].
    + rewrite lookup_insert_ne in Hi by done. specialize (Hc k i Hi Hip). apply elem_of_app in Hc as [Hc|Hc]; apply elem_of_app; [by left|right].
      apply elem_of_cons in Hc as [[= -> ->]|Hc]; [done|by right].
  - split; cbn [demote ev_memory ev_disk ev_entries]; [lia|lia| | |].
    + rewrite map_size_insert_Some by done. lia.
    + intros k. unfold others. fold copy. destruct (decide (k = key)) as [->|Hne]; [|by rewrite lookup_insert_ne].
      rewrite lookup_insert_eq, Ek. cbn [default]. by apply demote_others.
    + intros P HP He k i. fold copy. destruct (decide (k = key)) as [->|Hne]; [|rewrite lookup_insert_ne by done; apply He].
      rewrite lookup_insert_eq. cbn [default]. intros Hi. rewrite Hr2 in Hi. apply elem_of_cons in Hi as [->|Hi]; [apply HP|]; apply He; rewrite Ek; [done|].
      cbn [default]. rewrite Hr1. by right.
Qed.

Definition of_policy (kv : bytes * cached_response) : Prop := policy_id_ (snd kv) = policy.

Lemma covered_weaken a b st : covered a st -> (forall x, x ∈ a -> x ∈ b) -> covered b st.
Proof. intros Hc Hab key item Hi Hp. by apply Hab, Hc. Qed.

(** When the list is used up, the policy has no objects left. *)
Definition policy_gone (m : entry_map) : Prop := Forall (fun item => policy_id_ item <> policy) (all_items m).

Lemma covered_nil st : covered [] st -> policy_gone (ev_entries st).
Proof.
  intros Hc. apply Forall_forall. intros item (key & items & Hk & Hi)%elem_of_all_items Hp. specialize (Hc key item).
  rewrite Hk in Hc. by apply elem_of_nil in Hc.
Qed.

Lemma gone_total f m : policy_gone m -> total f policy (all_items m) = 0.
Proof.
  unfold policy_gone. induction 1 as [|x l Hx _ IH]; [done|]. rewrite policy_total_cons, IH. unfold share.
  by rewrite (bool_decide_eq_false_2 _ Hx).
Qed.

Lemma gone_shrinks st st' : shrinks st st' -> policy_gone (ev_entries st) -> policy_gone (ev_entries st').
Proof. intros [_ _ _ _ Hr]. unfold policy_gone. rewrite <- !every_entry_items. by apply Hr. Qed.

Lemma evict_disk_ok limits items st :
  0 <= disk_ limits -> Forall of_policy items -> ev_ok st -> covered items st ->
  let st' := evict_disk limits items st in
  ev_ok st' /\ covered items st' /\ shrinks st st' /\ ev_disk st' <= disk_ limits /\
  (map_size (ev_entries st') <= maximum_keys \/ policy_gone (ev_entries st')).
Proof.
  intros Hl Hitems. revert st. induction Hitems as [|[key item] items Hp _ IH]; intros st Hok Hc; cbn [evict_disk].
  - split_and!; [done|done|done| |right; by apply covered_nil].
    destruct Hok as [_ Hd _ _ _]. rewrite Hd, gone_total by (by apply covered_nil). done.
  - case_match eqn:E.
    + apply andb_true_iff in E as [E1 E2]. split_and!; [done|done|done|lia|left; lia].
    + destruct (remove_item_ok st key item items Hok Hp Hc) as (Hok' & Hc' & Hs').
      destruct (IH _ Hok' Hc') as (Hok2 & Hc2 & Hs2 & Hd2 & Hk2). split_and!; [done| | |done|done].
      * apply (covered_weaken items); [done|]. intros x Hx. by right.
      * by transitivity (remove_item st key item).
Qed.

Lemma evict_copies_ok limits items : Forall of_policy items -> forall st before, ev_ok st -> covered (before ++ items) st ->
  let '(st', items') := evict_copies limits items st in
  ev_ok st' /\ covered (before ++ items') st' /\ shrinks st st' /\ Forall of_policy items'.
Proof.
  induction 1 as [|[key item] items Hp Hitems IH]; intros st before Hok Hc; cbn [evict_copies]; [done|].
  destruct (ev_memory st <=? memory_ limits); [split_and!; [done|done|done|by constructor]|].
  assert (Hstep : forall st1 item1, ev_ok st1 -> covered (before ++ (key, item1) :: items) st1 -> shrinks st st1 -> policy_id_ item1 = policy ->
    let '(st', items') := (let '(st', items') := evict_copies limits items st1 in (st', (key, item1) :: items')) in
    ev_ok st' /\ covered (before ++ items') st' /\ shrinks st st' /\ Forall of_policy items').
  { intros st1 item1 Hok1 Hc1 Hs1 Hp1. specialize (IH st1 (before ++ [(key, item1)]) Hok1). rewrite <- app_assoc in IH. specialize (IH Hc1).
    destruct (evict_copies limits items st1) as [st' items']. destruct IH as (Hok' & Hc' & Hs' & Hp'). rewrite <- app_assoc in Hc'.
    split_and!; [done|done|by transitivity st1|by constructor]. }
  destruct (ev_entries st !! key) as [found|] eqn:Ek; [|by apply Hstep].
  destruct (negb (present (body_ item)) || negb (bool_decide (item ∈ found))) eqn:E; [by apply Hstep|].
  apply orb_false_iff in E as [Eb Ein]. apply negb_false_iff in Eb, Ein. apply bool_decide_eq_true in Ein.
  destruct (present (file_ item)).
  - destruct (demote_ok st key found item before items Hok Hp Eb Ek Ein Hc) as (Hok' & Hc' & Hs'). by apply Hstep.
  - destruct (remove_item_ok st key item (before ++ items) Hok Hp) as (Hok' & Hc' & Hs').
    { apply (covered_weaken _ _ _ Hc). intros x. rewrite elem_of_app, !elem_of_cons, elem_of_app. tauto. }
    apply Hstep; [done| |done|done]. apply (covered_weaken _ _ _ Hc'). intros x. rewrite !elem_of_app, elem_of_cons. tauto.
Qed.

Lemma evict_rest_ok limits items st :
  0 <= memory_ limits -> Forall of_policy items -> ev_ok st -> covered items st ->
  let st' := evict_rest limits items st in ev_ok st' /\ shrinks st st' /\ ev_memory st' <= memory_ limits.
Proof.
  intros Hl Hitems. revert st. induction Hitems as [|[key item] items Hp _ IH]; intros st Hok Hc; cbn [evict_rest].
  - split_and!; [done|done|]. destruct Hok as [Hm _ _ _ _]. rewrite Hm, gone_total by (by apply covered_nil). done.
  - case_match eqn:E; [split_and!; [done|done|lia]|].
    destruct (remove_item_ok st key item items Hok Hp Hc) as (Hok' & Hc' & Hs').
    destruct (IH _ Hok' Hc') as (Hok2 & Hs2 & Hm2). split_and!; [done| |done]. by transitivity (remove_item st key item).
Qed.
End Eviction.

(** The objects that outlive the retention time. *)
Lemma expire_lookup now m key items :
  expire_entries now m !! key = Some items <->
  items <> [] /\ exists all, m !! key = Some all /\ items = List.filter (fun item => now <? retain_until_ item) all.
Proof.
  unfold expire_entries. rewrite lookup_omap. destruct (m !! key) as [all|]; cbn; [|split; [done|naive_solver]].
  destruct (List.filter _ all) as [|x l] eqn:E; cbn; split.
  - done.
  - intros [Hne (? & [= <-] & ->)]. by rewrite E in Hne.
  - intros [= <-]. split; [done|]. by exists all.
  - intros [_ (? & [= <-] & ->)]. by rewrite E.
Qed.

Lemma list_filter_permutation {A} (f : A -> bool) a b : a ≡ₚ b -> List.filter f a ≡ₚ List.filter f b.
Proof. induction 1; cbn [List.filter]; repeat case_match; eauto using Permutation, Permutation_swap. Qed.

Lemma expire_items now m : all_items (expire_entries now m) ≡ₚ List.filter (fun item => now <? retain_until_ item) (all_items m).
Proof.
  induction m as [|key items m Hk IH] using map_ind; [done|].
  assert (Hf : expire_entries now (<[key := items]> m) = put_entries (expire_entries now m) key (List.filter (fun item => now <? retain_until_ item) items)).
  { unfold expire_entries, put_entries. rewrite omap_insert. cbn. by destruct (List.filter _ items). }
  assert (expire_entries now m !! key = None) as Hn by (unfold expire_entries; by rewrite lookup_omap, Hk).
  rewrite Hf, all_items_put, delete_id by done. rewrite IH. rewrite <- List.filter_app.
  apply list_filter_permutation. rewrite all_items_insert. by rewrite delete_id.
Qed.

(** What eviction is proved from. *)
Definition objects_ok (m : entry_map) : Prop := NoDup (map identity_ (all_items m)) /\ Forall sized (all_items m).

Definition eviction_start (policy : bytes) (now : Z) (m : entry_map) : eviction :=
  let live := expire_entries now m in
  mk_eviction live (memory_ (usage live policy)) (disk_ (usage live policy)) (expires_file now m).

Lemma eviction_start_ok policy now m : objects_ok m -> ev_ok policy (eviction_start policy now m).
Proof.
  intros [Hnd Hs]. split; cbn [eviction_start ev_memory ev_disk ev_entries]; rewrite ?usage_total; [done|done| | |].
  - rewrite expire_items. eapply sublist_NoDup; [exact Hnd|].
    induction (all_items m) as [|x l IH]; [done|]. inversion_clear Hnd. inversion_clear Hs. cbn [List.filter].
    case_match; cbn [map]; [by apply sublist_skip, IH|by apply sublist_cons, IH].
  - rewrite expire_items. rewrite Forall_forall in Hs |- *. intros x Hx. apply Hs. apply list_elem_of_In, List.filter_In in Hx as [Hx _].
    by apply list_elem_of_In.
  - intros key items (Hne & _)%expire_lookup. done.
Qed.

Lemma policy_items_spec policy m key item :
  (key, item) ∈ policy_items policy m <-> policy_id_ item = policy /\ item ∈ default [] (m !! key).
Proof.
  unfold policy_items. rewrite list_elem_of_In, List.filter_In, in_concat, bool_decide_eq_true. split.
  - intros [(l & ([k items] & <- & Hin)%in_map_iff & Hl) Hp]. apply in_map_iff in Hl as (i & [= -> ->] & Hi). split; [done|].
    apply list_elem_of_In, elem_of_map_to_list in Hin. rewrite Hin. by apply list_elem_of_In.
  - intros [Hp Hi]. destruct (m !! key) as [items|] eqn:E; [|by apply elem_of_nil in Hi]. split; [|done].
    exists (map (pair key) items). split; apply in_map_iff.
    + exists (key, items). split; [done|]. apply list_elem_of_In. by apply elem_of_map_to_list.
    + exists item. split; [done|]. by apply list_elem_of_In.
Qed.

Lemma evict_ok m policy now limits :
  objects_ok m -> 0 <= memory_ limits -> 0 <= disk_ limits ->
  exists st, ev_ok policy st /\ fst (evict m policy now limits) = ev_entries st /\ shrinks policy (eviction_start policy now m) st /\
    ev_memory st <= memory_ limits /\ ev_disk st <= disk_ limits /\
    (map_size (ev_entries st) <= maximum_keys \/ policy_gone policy (ev_entries st)).
Proof.
  intros Hok Hml Hdl. unfold evict. fold (eviction_start policy now m). pose proof (eviction_start_ok policy now m Hok) as Hs0.
  set (items := merge_sort older (policy_items policy (expire_entries now m))).
  assert (Hitems : forall x, x ∈ items <-> x ∈ policy_items policy (expire_entries now m)) by (intros x; subst items; by rewrite merge_sort_Permutation).
  assert (Forall (of_policy policy) items) as Hpol.
  { apply Forall_forall. intros [key item] Hi. by apply Hitems, policy_items_spec in Hi as [Hp _]. }
  assert (covered policy items (eviction_start policy now m)) as Hcov.
  { intros key item Hi Hp. by apply Hitems, policy_items_spec. }
  destruct (evict_disk_ok policy limits items _ Hdl Hpol Hs0 Hcov) as (Hok1 & Hc1 & Hs1 & Hd1 & Hk1).
  set (st1 := evict_disk _ _ _) in *.
  pose proof (evict_copies_ok policy limits items Hpol st1 [] Hok1 Hc1) as Hcopies.
  destruct (evict_copies limits items st1) as [st2 items2]. destruct Hcopies as (Hok2 & Hc2 & Hs2 & Hp2).
  destruct (evict_rest_ok policy limits items2 st2 Hml Hp2 Hok2 Hc2) as (Hok3 & Hs3 & Hm3).
  exists (evict_rest limits items2 st2). cbn [fst].
  assert (shrinks policy st1 (evict_rest limits items2 st2)) as Hs13 by (by apply (shrinks_preorder policy) with st2).
  split_and!; [done|done|by apply (shrinks_preorder policy) with st1|done| |].
  - destruct Hs13. lia.
  - destruct Hk1 as [Hk1|Hg]; [left|right; by apply (gone_shrinks policy st1)]. unfold map_size in *. destruct Hs13. lia.
Qed.

Lemma expire_entries_of now m key :
  default [] (expire_entries now m !! key) = List.filter (fun item => now <? retain_until_ item) (default [] (m !! key)).
Proof.
  destruct (expire_entries now m !! key) as [l|] eqn:E; cbn [default].
  - by apply expire_lookup in E as (_ & all & -> & ->).
  - destruct (m !! key) as [all|] eqn:Ek; [cbn [default]|done].
    destruct (List.filter (fun item => now <? retain_until_ item) all) as [|x l] eqn:Ef; [done|]. exfalso.
    assert (expire_entries now m !! key = Some (x :: l)) as Hs by (apply expire_lookup; split; [done|]; by exists all). by rewrite E in Hs.
Qed.

(** C40. After an eviction the policy's objects fit: the memory and the disk they use are within the
    limits and, unless the policy has no object left, so is the number of keys of the root. No
    object past its retention is kept, no key is left without an object, and the objects of every
    other policy are what they were, in their order, apart from the expired ones. *)
Theorem evict_fits m policy now limits :
  objects_ok m -> 0 <= memory_ limits -> 0 <= disk_ limits ->
  let m' := fst (evict m policy now limits) in
  memory_ (usage m' policy) <= memory_ limits /\ disk_ (usage m' policy) <= disk_ limits /\
  (map_size m' <= maximum_keys \/ forall item, item ∈ all_items m' -> policy_id_ item <> policy) /\
  (forall item, item ∈ all_items m' -> now < retain_until_ item) /\ no_empty m' /\
  (forall key, List.filter (fun item => policy_id_ item != policy) (default [] (m' !! key)) =
     List.filter (fun item => policy_id_ item != policy) (List.filter (fun item => now <? retain_until_ item) (default [] (m !! key)))).
Proof.
  intros Hok Hml Hdl m'. subst m'. destruct (evict_ok m policy now limits Hok Hml Hdl) as (st & [Hm Hd Hnd Hs Hf] & -> & Hshrinks & Hmem & Hdisk & Hkeys).
  rewrite usage_total. cbn [memory_ disk_]. rewrite <- Hm, <- Hd. split_and!; [done|done| | |done|].
  - destruct Hkeys as [?|Hg]; [by left|right]. unfold policy_gone in Hg. by rewrite Forall_forall in Hg.
  - apply Forall_forall. apply every_entry_items, (shrink_retain policy _ _ Hshrinks); [done|]. apply every_entry_items.
    cbn [eviction_start ev_entries]. rewrite expire_items. apply Forall_forall. intros x Hx%list_elem_of_In%List.filter_In. lia.
  - intros key. pose proof (shrink_others policy _ _ Hshrinks key) as Ho. unfold others in Ho. rewrite Ho. cbn [eviction_start ev_entries].
    by rewrite expire_entries_of.
Qed.

(** An object of 300 bytes, 100 of them its body. *)
Definition sample_object (policy : bytes) (sequence : Z) (body file : bool) : cached_response :=
  mk_response (lit "site") policy (lit "https://a/") [] [] (if body then Some (lit "x") else None) (if file then Some (lit "f") else None)
    200 100 300 sequence sequence 0 0 0 0 0 false 0 (seconds 60) (seconds 120).
Definition sample_root : entry_map :=
  <[lit "k1" := [sample_object (lit "p") 1 true false; sample_object (lit "q") 2 true true]]>
    (<[lit "k2" := [sample_object (lit "p") 3 true true]]> ∅).

Definition sample_evicted : entry_map := fst (evict sample_root (lit "p") 0 (mk_capacity 250 300)).
Lemma evict_fits_witness :
  memory_ (usage sample_evicted (lit "p")) <= 250 /\
  all_items sample_evicted = [set_body (sample_object (lit "p") 3 true true) None; sample_object (lit "q") 2 true true].
Proof.
  assert (NoDup (map identity_ (all_items sample_root))) as Hnd by by_decision.
  assert (Forall sized (all_items sample_root)) as Hs.
  { assert (forallb (fun i => (0 <=? body_bytes_ i) && (body_bytes_ i <=? bytes_ i)) (all_items sample_root) = true) as E by (vm_compute; reflexivity).
    apply Forall_forall. intros x Hx%list_elem_of_In. rewrite forallb_forall in E. specialize (E x Hx). unfold sized. lia. }
  destruct (evict_fits sample_root (lit "p") 0 (mk_capacity 250 300) (conj Hnd Hs)) as [Hm _]; [by_decision|by_decision|].
  split; [exact Hm|vm_compute; reflexivity].
Defined.
