(* ===== verification/CacheRoot.v ===== *)
(** The published root of the response cache under any sequence of the workers' operations
    (src/node/data/response_cache.h): the invariant of the root, the fence an invalidation puts in
    front of the fills that were under way, and the exclusivity of a fill.

    Every operation of ResponseCache.v replaces the root atomically, so an interleaving of the
    workers is a list of [operation]. *)
From S2P Require Import Prelude RoutePolicy CacheSettings CachePolicy CacheUrl CacheKey CacheControl ResponseCache.
Open Scope Z_scope.

(** * The operations *)

Inductive operation :=
| Lookup (now : Z) (key : bytes) (r : rule) (headers : cache_headers) (encoding website policy url : bytes) (acquire existing_only : bool)
| Renew (now : Z) (ticket : cache_ticket)
| Abandon (ticket : cache_ticket)
| Store (ticket : cache_ticket) (policy : bytes) (limits : response_cache_snapshot -> capacity) (item : cached_response) (persisted : bool)
| Discard (key : bytes) (identity : Z)
| Revalidate (ticket : cache_ticket) (previous refreshed : cached_response) (persisted : bool)
| Promote (key : bytes) (object : cached_response) (policy : bytes) (limits : response_cache_snapshot -> capacity) (body : bytes) (now : Z)
| Trim (policy : bytes) (now : Z) (limits : response_cache_snapshot -> capacity)
| Flush (hits : touches)
| ClaimCommand (id : bytes)
| CompleteCommand (id : bytes) (result : cache_result)
| Invalidate (command : cache_command) (urls : list cache_invalidation_url) (now : Z) (epochs_written : bool)
    (persist : bytes -> cached_response -> bool).

(** The root an operation publishes; an invalidation that throws publishes none. *)
Definition perform (s : response_cache_snapshot) (op : operation) : response_cache_snapshot :=
  match op with
  | Lookup now key r headers encoding website policy url acquire existing_only =>
      fst (lookup s now key r headers encoding website policy url acquire existing_only)
  | Renew now ticket => fst (renew s now ticket)
  | Abandon ticket => abandon s ticket
  | Store ticket policy limits item persisted => fst (store s ticket policy limits item persisted)
  | Discard key identity => discard s key identity
  | Revalidate ticket previous refreshed persisted => fst (revalidate s ticket previous refreshed persisted)
  | Promote key object policy limits body now => promote s key object policy limits body now
  | Trim policy now limits => trim s policy now limits
  | Flush hits => fst (flush_touches s hits)
  | ClaimCommand id => fst (claim_command s id)
  | CompleteCommand id result => complete_command s id result
  | Invalidate command urls now written persist =>
      match invalidate s command urls now written persist with Returns (s', _) => s' | Throws _ => s end
  end.
Definition perform_all (s : response_cache_snapshot) (ops : list operation) : response_cache_snapshot := fold_left perform ops s.

(** * Shapes of the results *)


Lemma touch_key_shape s kv :
  epochs_ (touch_key s kv) = epochs_ s /\ filling_ (touch_key s kv) = filling_ s /\ commands_ (touch_key s kv) = commands_ s.
Proof. destruct kv as [key ids]. unfold touch_key. destruct (entries_ s !! key); [|done]. by destruct (touch_items _ _ _). Qed.

Lemma touch_items_sequence ids items sequence :
  let '(items', sequence') := touch_items ids items sequence in
  sequence <= sequence' /\ map identity_ items' = map identity_ items /\
  Forall2 (fun i i' => i' = i \/ exists n, sequence < n <= sequence' /\ i' = set_sequence i n) items items'.
Proof.
  unfold touch_items.
  assert (Hgo : forall done done' seq0, Forall2 (fun i i' => i' = i \/ exists n, sequence < n <= seq0 /\ i' = set_sequence i n) done done' ->
    sequence <= seq0 -> map identity_ done' = map identity_ done ->
    let '(items', sequence') := fold_left (fun '(result, sequence) item =>
      if bool_decide (identity_ item ∈ ids) then (result ++ [set_sequence item (sequence + 1)], sequence + 1)
      else (result ++ [item], sequence)) items (done', seq0) in
    sequence <= sequence' /\ map identity_ items' = map identity_ (done ++ items) /\
    Forall2 (fun i i' => i' = i \/ exists n, sequence < n <= sequence' /\ i' = set_sequence i n) (done ++ items) items').
  { induction items as [|x items IH]; intros done done' seq0 Hd Hs Hm; cbn [fold_left].
    - rewrite app_nil_r. done.
    - rewrite (app_assoc done [x] items : done ++ x :: items = _). destruct (bool_decide (identity_ x ∈ ids)); apply IH; rewrite ?map_app, ?Hm; try done; try lia.
      + apply Forall2_app; [|constructor; [right; exists (seq0 + 1); split; [lia|done]|constructor]].
        eapply Forall2_impl; [exact Hd|]. intros i i' [->|(n & Hn & ->)]; [by left|right; exists n; split; [lia|done]].
      + apply Forall2_app; [done|]. constructor; [by left|constructor]. }
  by apply (Hgo [] [] sequence).
Qed.


(** What the counters do: the sequence and the epochs never go back. *)
Lemma touch_fold_shape l s : let s' := fold_left touch_key l s in
  epochs_ s' = epochs_ s /\ filling_ s' = filling_ s /\ root_sequence_ s <= root_sequence_ s'.
Proof.
  revert s. induction l as [|kv l IH]; intros s; cbn [fold_left]; [done|]. destruct (IH (touch_key s kv)) as (H1 & H2 & H3).
  destruct (touch_key_shape s kv) as (E1 & E2 & _). rewrite H1, H2, E1, E2. split_and!; [done|done|]. etransitivity; [|exact H3].
  destruct kv as [key ids]. unfold touch_key. destruct (entries_ s !! key) as [items|]; [|done].
  pose proof (touch_items_sequence ids items (root_sequence_ s)) as Ht. destruct (touch_items _ _ _). cbn. tauto.
Qed.

Record advances (s s' : response_cache_snapshot) : Prop := {
  adv_sequence : root_sequence_ s <= root_sequence_ s';
  adv_epochs : forall key, epoch s key <= epoch s' key;
  adv_claims : forall key c', filling_ s' !! key = Some c' ->
    root_sequence_ s < claim_id_ c' \/ exists c, filling_ s !! key = Some c /\ claim_id_ c = claim_id_ c'
}.
#[export] Instance advances_preorder : PreOrder advances.
Proof.
  split.
  - intros s. split; [lia|done|]. intros key c Hc. right. by exists c.
  - intros a b c [Hs1 He1 Hc1] [Hs2 He2 Hc2]. split; [lia|intros key; etransitivity; [apply He1|apply He2]|]. intros key c' Hc'.
    destruct (Hc2 key c' Hc') as [?|(c1 & Hk & <-)]; [left; lia|].
    destruct (Hc1 key c1 Hk) as [?|(c0 & Hk0 & <-)]; [by left|right; by exists c0].
Qed.

(** Operations that leave epochs alone and give out no claim. *)
Lemma advances_simple s s' :
  root_sequence_ s <= root_sequence_ s' -> epochs_ s' = epochs_ s -> filling_ s' ⊆ filling_ s -> advances s s'.
Proof.
  intros Hs He Hf. split; [done|intros key; unfold epoch; by rewrite He|]. intros key c Hc. right. exists c. split; [|done].
  by apply (lookup_weaken _ _ _ _ Hc).
Qed.

Lemma raise_epoch_lookup epochs raised key :
  default 0 (raise_epoch epochs raised !! key) = default 0 (epochs !! key) + (if decide (raised = key) then 1 else 0).
Proof. unfold raise_epoch. case_decide as E; [subst; by rewrite lookup_insert_eq|]. rewrite lookup_insert_ne by done. lia. Qed.

(** Raising epochs only adds, and adds to each one raised. *)
Lemma raise_fold epochs sites key :
  let raised := fold_left (fun epochs site => raise_epoch epochs (website_key site)) sites epochs in
  default 0 (epochs !! key) <= default 0 (raised !! key) /\
  ((exists site, site ∈ sites /\ key = website_key site) -> default 0 (epochs !! key) < default 0 (raised !! key)).
Proof.
  revert epochs. induction sites as [|site sites IH]; intros epochs; cbn [fold_left].
  - split; [done|]. intros (? & Hin & _). by apply elem_of_nil in Hin.
  - destruct (IH (raise_epoch epochs (website_key site))) as [IH1 IH2]. rewrite raise_epoch_lookup in IH1, IH2. split.
    + case_decide; lia.
    + intros (x & Hin & ->). apply elem_of_cons in Hin as [->|Hin]; [rewrite decide_True in IH1 by done; lia|].
      specialize (IH2 (ex_intro _ x (conj Hin eq_refl))). case_decide; lia.
Qed.

Lemma raise_epochs_mono command epochs key : default 0 (epochs !! key) <= default 0 (raise_epochs command epochs !! key).
Proof.
  unfold raise_epochs. destruct (operation_ command == lit "clean"); [|apply raise_fold]. rewrite raise_epoch_lookup. case_decide; lia.
Qed.

(** A command raises the epoch of what it covers. *)
Lemma raise_epochs_covers command epochs policy website : covers command policy website = true ->
  default 0 (epochs !! website_key website) < default 0 (raise_epochs command epochs !! website_key website) \/
  default 0 (epochs !! policy_key policy) < default 0 (raise_epochs command epochs !! policy_key policy).
Proof.
  unfold covers, raise_epochs. intros [Hp Hc]%andb_true_iff. apply bool_decide_eq_true in Hp as ->.
  destruct (operation_ command == lit "clean").
  - right. rewrite raise_epoch_lookup, decide_True by done. lia.
  - cbn [orb] in Hc. apply bool_decide_eq_true in Hc. left. apply raise_fold. by exists website.
Qed.

(** The shape of an invalidation's result. *)
Lemma invalidate_shape s command urls now written persist s' n :
  invalidate s command urls now written persist = Returns (s', n) ->
  root_sequence_ s' = root_sequence_ s /\ epochs_ s' = raise_epochs command (epochs_ s) /\ commands_ s' = commands_ s /\
  filling_ s' = filter (fun kv => covers command (claim_policy_ (snd kv)) (claim_website_ (snd kv)) = false) (filling_ s).
Proof.
  unfold invalidate. destruct written; cbn [negb]; [|done]. intros ([[m count] total] & _ & Hr)%throwing_bind_returns.
  destruct (negb _); [done|]. by simplify_eq/=.
Qed.

Lemma invalidate_advances s command urls now written persist s' n :
  invalidate s command urls now written persist = Returns (s', n) -> advances s s'.
Proof.
  intros (Hs & He & _ & Hf)%invalidate_shape. split; [lia| |].
  - intros key. unfold epoch. rewrite He. apply raise_epochs_mono.
  - intros key c Hc. right. exists c. split; [|done]. rewrite Hf in Hc. by apply map_lookup_filter_Some in Hc as [? _].
Qed.

Lemma abandon_advances s ticket : advances s (abandon s ticket).
Proof. unfold abandon. destruct (negb _); [done|]. apply advances_simple; [done|done|apply delete_subseteq]. Qed.

Lemma store_advances s ticket policy limits item persisted : advances s (fst (store s ticket policy limits item persisted)).
Proof.
  unfold store. destruct (_ || _); [apply abandon_advances|]. cbv zeta. destruct (evict _ _ _ _) as [m retire].
  destruct (m !! _); [|apply abandon_advances]. destruct (negb persisted); [apply abandon_advances|].
  apply advances_simple; cbn; [lia|done|apply delete_subseteq].
Qed.

Lemma lookup_advances s now key r headers encoding website policy url acquire existing_only :
  advances s (fst (lookup s now key r headers encoding website policy url acquire existing_only)).
Proof.
  unfold lookup. destruct (scan_entries _ _ _ _) as [[item|] stale]; [done|].
  destruct (_ || _); [done|]. destruct (match filling_ s !! key with Some _ => _ | None => _ end); [done|]. cbv zeta.
  set (filling := if maximum_claims <=? map_size (filling_ s) then _ else _).
  assert (filling ⊆ filling_ s) as Hsub.
  { unfold filling. destruct (_ <=? _); [apply map_filter_subseteq|done]. }
  destruct (_ <=? map_size filling); [done|]. split; cbn; [lia|done|].
  intros k c. destruct (decide (k = key)) as [->|Hne].
  - rewrite lookup_insert_eq. intros [= <-]. left. cbn. lia.
  - rewrite lookup_insert_ne by done. intros Hc. right. exists c. split; [by eapply lookup_weaken|done].
Qed.

Lemma renew_advances s now ticket : advances s (fst (renew s now ticket)).
Proof.
  unfold renew. destruct (_ || _); [done|]. split; cbn; [lia|done|]. intros key c Hc. right.
  apply lookup_alter_Some in Hc as [(<- & c0 & Hc & ->)|[_ Hc]]; [by exists c0|by exists c].
Qed.

Lemma perform_advances s op : advances s (perform s op).
Proof.
  destruct op; cbn [perform].
  - apply lookup_advances.
  - apply renew_advances.
  - apply abandon_advances.
  - apply store_advances.
  - unfold discard. case_match; [|done]. by apply advances_simple.
  - unfold revalidate. repeat case_match; try done. apply advances_simple; cbn; [lia|done|apply delete_subseteq].
  - unfold promote. repeat case_match; try done. apply advances_simple; cbn; [lia|done|done].
  - unfold trim. case_match; [done|]. by apply advances_simple.
  - unfold flush_touches. case_match; [done|]. cbn [fst]. destruct (touch_fold_shape (p :: l) s) as (He & Hf & Hs).
    apply advances_simple; [done|done|by rewrite Hf].
  - unfold claim_command. case_match; [done|]. by apply advances_simple.
  - by apply advances_simple.
  - destruct (invalidate _ _ _ _ _ _) as [[s' n]|] eqn:E; [|done]. by eapply invalidate_advances.
Qed.

Lemma perform_all_advances s ops : advances s (perform_all s ops).
Proof.
  unfold perform_all. revert s. induction ops as [|op ops IH]; intros s; cbn [fold_left]; [done|].
  transitivity (perform s op); [apply perform_advances|apply IH].
Qed.

(** * Tickets *)

(** A ticket given out by this root or an earlier one. *)
Definition issued (s : response_cache_snapshot) (t : cache_ticket) : Prop :=
  claim_ t <= root_sequence_ s /\ ticket_website_epoch_ t <= epoch s (website_key (ticket_website_ t)) /\
  ticket_policy_epoch_ t <= epoch s (policy_key (ticket_policy_ t)).

Lemma issued_advances s s' t : advances s s' -> issued s t -> issued s' t.
Proof. intros [Hs He _] (Hc & Hw & Hp). pose proof (He (website_key (ticket_website_ t))). pose proof (He (policy_key (ticket_policy_ t))). unfold issued. lia. Qed.

(** What a lookup that hands out a ticket does. *)
Lemma lookup_ticket s now key r headers encoding website policy url acquire existing_only s' found t :
  lookup s now key r headers encoding website policy url acquire existing_only = (s', found) -> lookup_ticket_ found = Some t ->
  t = mk_ticket key website policy url encoding (root_sequence_ s + 1) (epoch s (website_key website)) (epoch s (policy_key policy)) /\
  root_sequence_ s' = root_sequence_ s + 1 /\ epochs_ s' = epochs_ s /\ entries_ s' = entries_ s /\
  filling_ s' !! key = Some (mk_claim (root_sequence_ s + 1) (now + claim_time) website policy) /\
  stale_ found = snd (scan_entries (entry_skipped r headers encoding now) now (entries_of s key) None) /\
  (forall c, filling_ s !! key = Some c -> claim_expires_ c <= now).
Proof.
  unfold lookup. destruct (scan_entries _ _ _ _) as [[item|] stale]; [by intros [= <- <-]|].
  destruct (_ || _); [by intros [= <- <-]|]. destruct (match filling_ s !! key with Some _ => _ | None => _ end) eqn:Ep; [by intros [= <- <-]|].
  cbv zeta. set (filling := if maximum_claims <=? map_size (filling_ s) then _ else _).
  destruct (_ <=? map_size filling); [by intros [= <- <-]|]. intros [= <- <-] [= <-]. cbn. rewrite lookup_insert_eq. split_and!; try done.
  intros c Hc. rewrite Hc in Ep. lia.
Qed.

Lemma lookup_issued s now key r headers encoding website policy url acquire existing_only s' found t :
  lookup s now key r headers encoding website policy url acquire existing_only = (s', found) -> lookup_ticket_ found = Some t ->
  issued s' t /\ holds_claim s' t = true.
Proof.
  intros Hl Ht. destruct (lookup_ticket _ _ _ _ _ _ _ _ _ _ _ _ _ _ Hl Ht) as (-> & Hs & He & _ & Hf & _).
  unfold issued, holds_claim, epoch. cbn. rewrite Hs, He, Hf. cbn. split; lia.
Qed.

Lemma lost_claim s s' t : advances s s' -> claim_ t <= root_sequence_ s -> holds_claim s t = false -> holds_claim s' t = false.
Proof.
  intros [_ _ Hc] Hi. unfold holds_claim. destruct (filling_ s' !! ticket_key_ t) as [c'|] eqn:E; [|done].
  destruct (Hc _ _ E) as [?|(c & -> & Hid)]; lia.
Qed.

Lemma old_epochs s s' t : advances s s' -> epochs_current s t = false -> issued s t -> epochs_current s' t = false.
Proof.
  intros [_ He _] Hc (_ & Hw & Hp). unfold epochs_current in *. pose proof (He (website_key (ticket_website_ t))).
  pose proof (He (policy_key (ticket_policy_ t))). lia.
Qed.

(** C3. An invalidation fences the fills under way. Take a ticket that a lookup handed out, any
    operations after it, and then an invalidation that succeeds and covers the ticket's website and
    policy. Whatever happens afterwards, the ticket can not put anything into the cache: it can not be
    renewed, a store with it is refused and only drops the claim, and a revalidation is refused. *)
Theorem invalidation_fences_fills s0 now key r headers encoding website policy url acquire existing_only s found t
    before command urls now' written persist s1 n after :
  lookup s0 now key r headers encoding website policy url acquire existing_only = (s, found) -> lookup_ticket_ found = Some t ->
  invalidate (perform_all s before) command urls now' written persist = Returns (s1, n) ->
  covers command policy website = true ->
  let s2 := perform_all s1 after in
  (forall time, renew s2 time t = (s2, false)) /\
  (forall p limits item persisted, store s2 t p limits item persisted = (abandon s2 t, false)) /\
  (forall previous refreshed persisted, revalidate s2 t previous refreshed persisted = (s2, None)).
Proof.
  intros Hl Ht Hinv Hcov s2. destruct (lookup_issued _ _ _ _ _ _ _ _ _ _ _ _ _ _ Hl Ht) as [Hi _].
  destruct (lookup_ticket _ _ _ _ _ _ _ _ _ _ _ _ _ _ Hl Ht) as (Et & _).
  pose proof (issued_advances _ _ t (perform_all_advances s before) Hi) as Hib.
  pose proof (invalidate_advances _ _ _ _ _ _ _ _ Hinv) as Ha. pose proof (issued_advances _ _ t Ha Hib) as Hi1.
  assert (epochs_current s1 t = false) as Hold.
  { destruct (invalidate_shape _ _ _ _ _ _ _ _ Hinv) as (_ & He & _). destruct Hib as (_ & Hw & Hp).
    pose proof (adv_epochs _ _ Ha (website_key website)) as Mw. pose proof (adv_epochs _ _ Ha (policy_key policy)) as Mp.
    pose proof (raise_epochs_covers command (epochs_ (perform_all s before)) policy website Hcov) as Hr.
    unfold epochs_current, epoch in *. rewrite Et in *. cbn [ticket_website_ ticket_policy_ ticket_website_epoch_ ticket_policy_epoch_] in *.
    rewrite He in *. lia. }
  pose proof (old_epochs _ _ t (perform_all_advances s1 after) Hold Hi1) as Hold2. fold s2 in Hold2.
  split_and!; intros; unfold renew, store, revalidate; rewrite Hold2, ?orb_true_r; cbn [negb]; [done|done|].
  destruct (entries_ s2 !! ticket_key_ t); [|done]. by rewrite ?orb_true_r.
Qed.

(** C11. A fill is exclusive. A lookup that hands out a ticket found no pending claim on its key and
    gives the ticket the claim. A ticket that has lost the claim never has it again, whatever the
    workers do, and when a later lookup hands out another ticket for the key, the first one has lost
    it for good. *)
Theorem fill_is_exclusive s0 now key r headers encoding website policy url acquire existing_only s found t before :
  lookup s0 now key r headers encoding website policy url acquire existing_only = (s, found) -> lookup_ticket_ found = Some t ->
  (forall c, filling_ s0 !! key = Some c -> claim_expires_ c <= now) /\ holds_claim s t = true /\
  let s1 := perform_all s before in
  (holds_claim s1 t = false -> forall after, holds_claim (perform_all s1 after) t = false) /\
  (forall now' r' headers' encoding' website' policy' url' acquire' existing_only' s2 found' t' after,
     lookup s1 now' key r' headers' encoding' website' policy' url' acquire' existing_only' = (s2, found') -> lookup_ticket_ found' = Some t' ->
     holds_claim s2 t' = true /\ holds_claim (perform_all s2 after) t = false).
Proof.
  intros Hl Ht. destruct (lookup_issued _ _ _ _ _ _ _ _ _ _ _ _ _ _ Hl Ht) as [Hi Hh].
  destruct (lookup_ticket _ _ _ _ _ _ _ _ _ _ _ _ _ _ Hl Ht) as (Et & _ & _ & _ & _ & _ & Hexp).
  split; [done|]. split; [done|]. intros s1. destruct (issued_advances _ _ t (perform_all_advances s before) Hi) as [Hc _]. fold s1 in Hc.
  split.
  - intros Hlost after. by apply (lost_claim s1); [apply perform_all_advances| |].
  - intros now' r' headers' encoding' website' policy' url' acquire' existing_only' s2 found' t' after Hl' Ht'.
    destruct (lookup_issued _ _ _ _ _ _ _ _ _ _ _ _ _ _ Hl' Ht') as [_ Hh']. split; [done|].
    destruct (lookup_ticket _ _ _ _ _ _ _ _ _ _ _ _ _ _ Hl' Ht') as (_ & Hs2 & _ & _ & Hf2 & _).
    apply (lost_claim s2); [apply perform_all_advances|lia|]. unfold holds_claim. rewrite Et. cbn [ticket_key_]. rewrite Hf2.
    cbn [claim_id_ claim_]. rewrite Et in Hc. cbn [claim_] in Hc |- *. lia.
Qed.

(** * What an invalidation removes *)

Section Invalidation.
Variables (command : cache_command) (urls : list cache_invalidation_url) (now : Z).

(** The objects the command removes and those it keeps. *)
Definition removes (item : cached_response) : bool :=
  match item_matches command urls now item with Returns matched => matched | Throws _ => false end.
Definition removed (items : list cached_response) : list cached_response := List.filter removes items.
Definition retained (items : list cached_response) : list cached_response := List.filter (fun item => negb (removes item)) items.
Definition size_of (items : list cached_response) : Z := fold_right (fun item sum => bytes_ item + sum) 0 items.

Lemma size_of_app a b : size_of (a ++ b) = size_of a + size_of b.
Proof.
  induction a as [|x a IH]; [done|]. change (size_of ((x :: a) ++ b)) with (bytes_ x + size_of (a ++ b)).
  change (size_of (x :: a)) with (bytes_ x + size_of a). lia.
Qed.

Lemma removed_app a b : removed (a ++ b) = removed a ++ removed b.
Proof. apply List.filter_app. Qed.

Lemma retained_app a b : retained (a ++ b) = retained a ++ retained b.
Proof. apply List.filter_app. Qed.

Lemma erase_list items count total kept count' total' :
  throwing_fold (erase_step command urls now) ([], count, total) items = Returns (kept, count', total') ->
  kept = retained items /\ count' = count + Z.of_nat (length (removed items)) /\ total' = total + size_of (removed items).
Proof.
  apply (throwing_fold_inv (fun seen '(kept, c, t) => kept = retained seen /\ c = count + Z.of_nat (length (removed seen)) /\
    t = total + size_of (removed seen))); [cbn; split_and!; [done|lia|lia]|].
  intros seen x [[kept0 c0] t0] [[kept1 c1] t1] (-> & -> & ->). unfold erase_step.
  intros (matched & Hm & Hr)%throwing_bind_returns. rewrite removed_app, retained_app, length_app, size_of_app.
  assert (removes x = matched) as Hx by (unfold removes; by rewrite Hm). unfold removed at 2 4, retained at 2. cbn [List.filter].
  rewrite Hx. destruct matched; simplify_eq/=; rewrite ?app_nil_r; split_and!; try done; lia.
Qed.

Definition erase_entry (m : entry_map) (kv : bytes * list cached_response) : entry_map := put_entries m (fst kv) (retained (snd kv)).

Lemma erase_map l m m' count total :
  throwing_fold (erase_key command urls now) (m, 0, 0) l = Returns (m', count, total) ->
  m' = fold_left erase_entry l m /\ count = Z.of_nat (length (removed (concat (map snd l)))) /\ total = size_of (removed (concat (map snd l))).
Proof.
  apply (throwing_fold_inv (fun seen '(m', c, t) => m' = fold_left erase_entry seen m /\
    c = Z.of_nat (length (removed (concat (map snd seen)))) /\ t = size_of (removed (concat (map snd seen))))); [done|].
  intros seen [key items] [[m0 c0] t0] [[m1 c1] t1] (-> & -> & ->). unfold erase_key.
  intros ([[kept c] t] & He & Hr)%throwing_bind_returns. apply erase_list in He as (-> & -> & ->). simplify_eq/=.
  rewrite fold_left_app, map_app, concat_app. cbn [map snd concat]. rewrite app_nil_r, removed_app, length_app, size_of_app.
  split_and!; [done|lia|lia].
Qed.

Lemma erase_lookup l m key : NoDup (map fst l) ->
  fold_left erase_entry l m !! key =
    match (list_to_map l : entry_map) !! key with
    | Some items => if empty (retained items) then None else Some (retained items)
    | None => m !! key
    end.
Proof.
  revert m. induction l as [|[k items] l IH]; intros m; cbn [map fst fold_left]; [done|]. intros [Hk Hl]%NoDup_cons.
  rewrite IH by done. cbn [list_to_map foldr]. destruct (decide (k = key)) as [->|Hne].
  - rewrite lookup_insert_eq. rewrite (not_elem_of_list_to_map_1 l key) by done. unfold erase_entry, put_entries. cbn [fst snd].
    destruct (empty (retained items)); [apply lookup_delete_eq|apply lookup_insert_eq].
  - rewrite lookup_insert_ne by done. destruct (_ !! key); [done|]. unfold erase_entry, put_entries. cbn [fst snd].
    destruct (empty (retained items)); [by rewrite lookup_delete_ne|by rewrite lookup_insert_ne].
Qed.
End Invalidation.

Lemma invalidate_entries s command urls now written persist s' count total :
  invalidate s command urls now written persist = Returns (s', (count, total)) ->
  (forall key, entries_ s' !! key =
     match entries_ s !! key with
     | Some items => let kept := retained command urls now items in if empty kept then None else Some (map (renewed s') kept)
     | None => None
     end) /\
  count = Z.of_nat (length (removed command urls now (all_items (entries_ s)))) /\
  total = size_of (removed command urls now (all_items (entries_ s))).
Proof.
  unfold invalidate. destruct written; cbn [negb]; [|done]. intros ([[m c] t] & He & Hr)%throwing_bind_returns.
  destruct (negb _); [done|]. simplify_eq/=. apply erase_map in He as (-> & -> & ->). split; [|done]. intros key.
  rewrite lookup_fmap, erase_lookup by (apply (NoDup_fst_map_to_list (entries_ s))). rewrite list_to_map_to_list.
  destruct (entries_ s !! key) as [items|]; [|done]. cbv zeta. by destruct (empty _).
Qed.

(** An invalidation that succeeds removes exactly the objects its command selects: under each key
    what remains is the other objects, in their order, each with the epochs the root has after the
    command; a key left with none leaves the map; and the answer counts the removed objects and
    their bytes. *)
Theorem invalidate_exact s command urls now written persist s' count total :
  invalidate s command urls now written persist = Returns (s', (count, total)) ->
  (forall key, entries_of s' key = map (renewed s') (retained command urls now (entries_of s key))) /\
  (forall key, entries_ s' !! key <> Some []) /\
  count = Z.of_nat (length (removed command urls now (all_items (entries_ s)))) /\
  total = size_of (removed command urls now (all_items (entries_ s))) /\
  (forall key item, item ∈ entries_of s' key -> website_epoch_ item = epoch s' (website_key (website_id_ item)) /\
     policy_epoch_ item = epoch s' (policy_key (policy_id_ item))).
Proof.
  intros (He & Hc & Ht)%invalidate_entries.
  assert (Hkeys : forall key, entries_of s' key = map (renewed s') (retained command urls now (entries_of s key))).
  { intros key. unfold entries_of. rewrite He. destruct (entries_ s !! key) as [items|]; [|done]. cbv zeta. change (default [] (Some items)) with items.
    destruct (empty _) eqn:Ee; [|done]. by apply empty_spec in Ee as ->. }
  split_and!; [done| |done|done|].
  - intros key. rewrite He. destruct (entries_ s !! key) as [items|]; [|done]. cbv zeta. by destruct (retained command urls now items).
  - intros key item Hi. rewrite Hkeys in Hi. apply list_elem_of_In, in_map_iff in Hi as (old & <- & _). done.
Qed.

(** * Commands *)

Lemma touch_fold_commands l s : commands_ (fold_left touch_key l s) = commands_ s.
Proof.
  revert s. induction l as [|kv l IH]; intros s; cbn [fold_left]; [done|]. rewrite IH. by destruct (touch_key_shape s kv) as (_ & _ & ?).
Qed.

Lemma abandon_commands s t : commands_ (abandon s t) = commands_ s.
Proof. unfold abandon. by case_match. Qed.

(** Only the two operations on commands touch them. *)
Lemma perform_commands s op :
  (forall id, op <> ClaimCommand id) -> (forall id result, op <> CompleteCommand id result) -> commands_ (perform s op) = commands_ s.
Proof.
  intros Hc Hd. destruct op; cbn [perform]; try (exfalso; by eapply Hc); try (exfalso; by eapply Hd).
  - unfold lookup. cbv zeta. by repeat case_match.
  - unfold renew. by case_match.
  - apply abandon_commands.
  - unfold store. cbv zeta. repeat case_match; cbn [fst]; rewrite ?abandon_commands; done.
  - unfold discard. by case_match.
  - unfold revalidate. cbv zeta. by repeat case_match.
  - unfold promote. cbv zeta. by repeat case_match.
  - unfold trim. cbv zeta. by case_match.
  - unfold flush_touches. case_match; [done|]. cbn [fst]. by rewrite touch_fold_commands.
  - destruct (invalidate _ _ _ _ _ _) as [[s' n]|] eqn:E; [|done]. by destruct (invalidate_shape _ _ _ _ _ _ _ _ E) as (_ & _ & ? & _).
Qed.

Lemma claimed_stays s op id :
  (forall result, op <> CompleteCommand id result) -> commands_ s !! id = Some None -> commands_ (perform s op) !! id = Some None.
Proof.
  intros Hop Hs. destruct op; try (rewrite perform_commands by done; exact Hs); cbn [perform].
  - unfold claim_command. destruct (commands_ s !! id0) eqn:E; [done|]. cbv zeta. cbn [fst with_commands commands_].
    assert (<[id0 := None]> (commands_ s) !! id = Some None) as Hl by (rewrite lookup_insert_ne; [done|by intros ->; rewrite Hs in E]).
    case_match; [|done]. by apply map_lookup_filter_Some.
  - unfold complete_command. cbn. destruct (decide (id0 = id)) as [->|Hne]; [by destruct (Hop result)|]. by rewrite lookup_insert_ne.
Qed.

(** A command has one owner: after a worker claims it, every later claim of it fails, whatever the
    workers do, until the command is completed; and once it is completed its result is what every
    worker reads, until a claim drops finished commands or it is completed again. *)
Theorem command_claimed_once s id s' ops :
  claim_command s id = (s', true) ->
  (forall result, CompleteCommand id result ∉ ops) ->
  commands_ s !! id = None /\ (let s2 := perform_all s' ops in claim_command s2 id = (s2, false) /\ command_result s2 id = None) /\
  forall result, command_result (complete_command s' id result) id = Some result /\
    claim_command (complete_command s' id result) id = (complete_command s' id result, false).
Proof.
  unfold claim_command at 1. destruct (commands_ s !! id) eqn:E; [done|]. intros [= <-] Hops. split; [done|].
  set (s1 := with_commands _ _). assert (commands_ s1 !! id = Some None) as Hs1.
  { unfold s1. cbn. case_match; [apply map_lookup_filter_Some; split; [|done]|]; by rewrite lookup_insert_eq. }
  split.
  - assert (commands_ (perform_all s1 ops) !! id = Some None) as Hs2.
    { clearbody s1. unfold perform_all. revert s1 Hs1. induction ops as [|op ops IH]; intros s1 Hs1; cbn [fold_left]; [done|].
      apply IH; [intros result Hin; apply (Hops result); by right|]. apply claimed_stays; [|done]. intros result ->. apply (Hops result). by left. }
    cbv zeta. unfold claim_command, command_result. by rewrite Hs2.
  - intros result. unfold claim_command, command_result, complete_command. cbn. by rewrite lookup_insert_eq.
Qed.

(** * A concrete root *)

Definition empty_root : response_cache_snapshot := mk_snapshot ∅ ∅ ∅ ∅ 0.
Definition sample_rule : rule := default_rule (lit "r") (lit "static") [].
Definition sample_lookup (s : response_cache_snapshot) (now : Z) : response_cache_snapshot * cache_lookup :=
  lookup s now (lit "key") sample_rule [] (lit "identity") (lit "site") (lit "policy") (lit "https://a/") true false.
Definition sample_clean : cache_command := mk_command (lit "clean") (lit "policy") [] [].
Definition sample_ticket : cache_ticket := mk_ticket (lit "key") (lit "site") (lit "policy") (lit "https://a/") (lit "identity") 1 0 0.
Definition sample_granted : response_cache_snapshot := fst (sample_lookup empty_root 0).
Definition sample_fenced : response_cache_snapshot :=
  mk_snapshot ∅ {[ policy_key (lit "policy") := 1 ]} ∅ ∅ 1.

Lemma invalidation_fences_fills_witness :
  renew sample_fenced 5 sample_ticket = (sample_fenced, false).
Proof.
  refine (proj1 (invalidation_fences_fills empty_root 0 (lit "key") sample_rule [] (lit "identity") (lit "site") (lit "policy")
    (lit "https://a/") true false sample_granted (snd (sample_lookup empty_root 0)) sample_ticket [] sample_clean [] 1 true (fun _ _ => true)
    sample_fenced (0, 0) [] _ _ _ _) 5); vm_compute; reflexivity.
Defined.

Lemma fill_is_exclusive_witness :
  holds_claim sample_granted sample_ticket = true /\
  holds_claim (fst (sample_lookup sample_granted (seconds 31))) sample_ticket = false.
Proof.
  assert (Hl : sample_lookup empty_root 0 = (sample_granted, snd (sample_lookup empty_root 0))) by (vm_compute; reflexivity).
  assert (Ht : lookup_ticket_ (snd (sample_lookup empty_root 0)) = Some sample_ticket) by (vm_compute; reflexivity).
  destruct (fill_is_exclusive _ _ _ _ _ _ _ _ _ _ _ _ _ _ [] Hl Ht) as (_ & Hh & Hlost). split; [exact Hh|].
  vm_compute; reflexivity.
Defined.

Lemma command_claimed_once_witness :
  command_result (perform_all (fst (claim_command empty_root (lit "c"))) [ClaimCommand (lit "c"); ClaimCommand (lit "d")]) (lit "c") = None.
Proof.
  refine (proj2 (proj1 (proj2 (command_claimed_once empty_root (lit "c") (fst (claim_command empty_root (lit "c")))
    [ClaimCommand (lit "c"); ClaimCommand (lit "d")] eq_refl _)))).
  intros result. rewrite !elem_of_cons, elem_of_nil. intros [?|[?|[]]]; discriminate.
Defined.

Definition sample_objects : response_cache_snapshot := with_entries empty_root sample_root.
Definition sample_cleaned : response_cache_snapshot :=
  perform sample_objects (Invalidate (mk_command (lit "clean") (lit "p") [] []) [] 1 true (fun _ _ => true)).
Lemma invalidate_exact_witness :
  entries_of sample_cleaned (lit "k1") = [set_epochs (sample_object (lit "q") 2 true true) 0 0] /\ entries_of sample_cleaned (lit "k2") = [].
Proof.
  assert (Hi : invalidate sample_objects (mk_command (lit "clean") (lit "p") [] []) [] 1 true (fun _ _ => true) =
    Returns (sample_cleaned, (2, 600))) by (vm_compute; reflexivity).
  destruct (invalidate_exact _ _ _ _ _ _ _ _ _ Hi) as (Hk & _).
  split; [rewrite (Hk (lit "k1"))|rewrite (Hk (lit "k2"))]; vm_compute; reflexivity.
Defined.
