(* ===== verification/CacheInvariant.v ===== *)
(** The invariant of the published root of the response cache: what every sequence of the workers'
    operations keeps true of it (src/node/data/response_cache.h).

    A key starts with the identifiers of its website and its policy, each with its length (cache_key
    in the source), so a key belongs to one of each; [owner] is that function. *)
From S2P Require Import Prelude RoutePolicy CacheSettings CachePolicy CacheUrl CacheKey CacheControl ResponseCache CacheRoot.
Open Scope Z_scope.

Section Invariant.
Variable owner : bytes -> bytes * bytes.

(** An object of the root: its sizes, its counters, whose it is, and the current epochs. *)
Record entry_ok (s : response_cache_snapshot) (key : bytes) (item : cached_response) : Prop := {
  entry_sized : sized item;
  entry_sequence : sequence_ item <= root_sequence_ s;
  entry_identity : identity_ item <= root_sequence_ s;
  entry_owner : owner key = (website_id_ item, policy_id_ item);
  entry_website : website_epoch_ item = epoch s (website_key (website_id_ item));
  entry_policy : policy_epoch_ item = epoch s (policy_key (policy_id_ item))
}.

(** Identities are distinct, no key is empty, and a claim identifies one key. *)
Record root_ok (s : response_cache_snapshot) : Prop := {
  root_entries : every_entry (entry_ok s) (entries_ s);
  root_distinct : NoDup (map identity_ (all_items (entries_ s)));
  root_full : no_empty (entries_ s);
  root_claims : forall key claim, filling_ s !! key = Some claim -> claim_id_ claim <= root_sequence_ s;
  root_claim_keys : forall key key' claim claim', filling_ s !! key = Some claim -> filling_ s !! key' = Some claim' ->
    claim_id_ claim = claim_id_ claim' -> key = key'
}.

(** What the callers of the operations give them. Tickets come from lookups; the object a store
    publishes takes the ticket's identifiers and epochs, and the one a revalidation publishes is a
    copy of the stale object that came with the ticket. *)
Definition limits_ok (limits : response_cache_snapshot -> capacity) : Prop := forall s, 0 <= memory_ (limits s) /\ 0 <= disk_ (limits s).
Definition ticket_owned (t : cache_ticket) : Prop := owner (ticket_key_ t) = (ticket_website_ t, ticket_policy_ t).
Definition carries (t : cache_ticket) (item : cached_response) : Prop :=
  website_id_ item = ticket_website_ t /\ policy_id_ item = ticket_policy_ t /\
  website_epoch_ item = ticket_website_epoch_ t /\ policy_epoch_ item = ticket_policy_epoch_ t /\ sized item.
Definition allowed (op : operation) : Prop :=
  match op with
  | Lookup _ key _ _ _ website policy _ _ _ => owner key = (website, policy)
  | Store ticket _ limits item _ => limits_ok limits /\ ticket_owned ticket /\ carries ticket item
  | Revalidate ticket previous refreshed _ => ticket_owned ticket /\ carries ticket refreshed /\ identity_ refreshed = identity_ previous
  | Promote _ _ _ limits _ _ | Trim _ _ limits => limits_ok limits
  | _ => True
  end.

Definition entry_ok_body s key item b : entry_ok s key item -> entry_ok s key (set_body item b).
Proof. intros []. by split. Qed.

(** Objects survive a change of the root that keeps the epochs and does not lower the counter. *)
Lemma entry_ok_mono s s' key item :
  root_sequence_ s <= root_sequence_ s' -> epochs_ s' = epochs_ s -> entry_ok s key item -> entry_ok s' key item.
Proof. intros Hs He []. split; unfold epoch in *; rewrite ?He; auto; lia. Qed.

Lemma every_entry_mono (P Q : bytes -> cached_response -> Prop) m :
  (forall key item, P key item -> Q key item) -> every_entry P m -> every_entry Q m.
Proof. intros HPQ HP key item Hi. by apply HPQ, HP. Qed.

(** * One key replaced *)

Lemma every_put P m key items :
  every_entry P m -> (forall item, item ∈ items -> P key item) -> every_entry P (put_entries m key items).
Proof.
  intros Hm Hi k item. rewrite lookup_put. destruct (decide (k = key)) as [->|Hne]; [apply Hi|apply Hm].
Qed.

(** The list put under a key holds identities of the list it replaces, or ones the root does not have. *)
Lemma distinct_put m key items :
  NoDup (map identity_ (all_items m)) -> NoDup (map identity_ items) ->
  (forall id, id ∈ map identity_ items -> id ∈ map identity_ (default [] (m !! key)) \/ id ∉ map identity_ (all_items m)) ->
  NoDup (map identity_ (all_items (put_entries m key items))).
Proof.
  intros Hm Hi Hids. rewrite (all_items_split m key), map_app in Hm. rewrite all_items_put, map_app.
  apply NoDup_app in Hm as (H1 & H2 & H3). apply NoDup_app. split; [done|split; [|done]].
  intros id Hid. destruct (Hids id Hid) as [Hold|Hnew]; [by apply H2|]. intros Hrest. apply Hnew.
  rewrite (all_items_split m key), map_app. apply elem_of_app. by right.
Qed.

Lemma put_insert (m : entry_map) key items : items <> [] -> <[key := items]> m = put_entries m key items.
Proof. unfold put_entries. by destruct items. Qed.

Lemma filter_sublist (f : cached_response -> bool) items : map identity_ (List.filter f items) `sublist_of` map identity_ items.
Proof.
  induction items as [|x items IH]; cbn [List.filter map]; [done|]. case_match; cbn [map]; [by apply sublist_skip|by apply sublist_cons].
Qed.

(** * Eviction keeps the objects *)

Lemma evict_every P m policy now limits :
  (forall key item b, P key item -> P key (set_body item b)) -> (forall key item, P key item -> sized item) ->
  every_entry P m -> NoDup (map identity_ (all_items m)) -> 0 <= memory_ limits -> 0 <= disk_ limits ->
  let m' := fst (evict m policy now limits) in every_entry P m' /\ NoDup (map identity_ (all_items m')) /\ no_empty m'.
Proof.
  intros Hb Hsz HP Hd Hm Hk m'. subst m'. assert (objects_ok m) as Hok.
  { split; [done|]. apply every_entry_items. by eapply every_entry_mono. }
  destruct (evict_ok m policy now limits Hok Hm Hk) as (st & [_ _ Hd' _ Hf'] & -> & Hs & _). split_and!; [|done|done].
  apply (shrink_retain policy _ _ Hs P Hb). cbn [eviction_start ev_entries]. intros key item Hi. apply HP.
  rewrite expire_entries_of in Hi. apply list_elem_of_In, List.filter_In in Hi as [Hi _]. by apply list_elem_of_In.
Qed.

Lemma evict_root_ok s policy now limits :
  root_ok s -> 0 <= memory_ limits -> 0 <= disk_ limits -> root_ok (with_entries s (fst (evict (entries_ s) policy now limits))).
Proof.
  intros [He Hd Hf Hc Hk] Hm Hdk.
  destruct (evict_every (entry_ok s) (entries_ s) policy now limits) as (He' & Hd' & Hf'); try done.
  { intros key item b. apply entry_ok_body. }
  { by intros key item []. }
  split; cbn; [|done|done|done|done]. eapply every_entry_mono; [|exact He']. intros key item. by apply entry_ok_mono.
Qed.

(** * The replacement of one key's objects *)

Lemma listed_identity m key item :
  item ∈ default [] (m !! key) -> identity_ item ∈ map identity_ (all_items m).
Proof.
  intros Hi. rewrite (all_items_split m key), map_app. apply elem_of_app. left. by apply list_elem_of_fmap_2.
Qed.

Lemma fresh_identity s id : root_ok s -> root_sequence_ s < id -> id ∉ map identity_ (all_items (entries_ s)).
Proof.
  intros Hok Hid Hin. apply list_elem_of_fmap in Hin as (item & -> & (key & items & Hk & Hi)%elem_of_all_items).
  pose proof (root_entries s Hok key item) as He. rewrite Hk in He. destruct (He Hi). lia.
Qed.

Lemma replace_ok s key items sequence filling :
  root_ok s -> root_sequence_ s <= sequence -> filling ⊆ filling_ s -> NoDup (map identity_ items) ->
  (forall id, id ∈ map identity_ items -> id ∈ map identity_ (entries_of s key) \/ root_sequence_ s < id) ->
  (forall item, item ∈ items -> entry_ok (with_sequence s sequence) key item) ->
  root_ok (mk_snapshot (put_entries (entries_ s) key items) (epochs_ s) filling (commands_ s) sequence).
Proof.
  intros Hok Hs Hfill Hnd Hids Hitems. destruct Hok as [He Hd Hf Hc Hk] eqn:Eok. clear Eok. split; cbn.
  - apply every_put.
    + eapply every_entry_mono; [|exact He]. intros k i. by apply entry_ok_mono.
    + intros i Hi. eapply entry_ok_mono; [| |by apply Hitems]; done.
  - apply distinct_put; [done|done|]. intros id Hid. destruct (Hids id Hid) as [?|Hlt]; [by left|right].
    by apply fresh_identity.
  - by apply put_no_empty.
  - intros k c Hkc. specialize (Hc k c (lookup_weaken _ _ _ _ Hkc Hfill)). lia.
  - intros k k' c c' Hkc Hkc'. by apply (Hk k k' c c'); eapply lookup_weaken.
Qed.

(** Objects that keep their identities. *)
Lemma same_identities_ok s key items sequence filling :
  root_ok s -> root_sequence_ s <= sequence -> filling ⊆ filling_ s ->
  map identity_ items `sublist_of` map identity_ (entries_of s key) ->
  (forall item, item ∈ items -> entry_ok (with_sequence s sequence) key item) ->
  root_ok (mk_snapshot (put_entries (entries_ s) key items) (epochs_ s) filling (commands_ s) sequence).
Proof.
  intros Hok Hs Hfill Hsub Hitems. apply replace_ok; try done.
  - eapply sublist_NoDup; [|exact Hsub]. pose proof (root_distinct s Hok) as Hd. rewrite (all_items_split _ key), map_app in Hd.
    by apply NoDup_app in Hd as [? _].
  - intros id Hid. left. eapply elem_of_submseteq; [exact Hid|]. by apply sublist_submseteq.
Qed.

Lemma entries_ok s key item : root_ok s -> item ∈ entries_of s key -> entry_ok s key item.
Proof. intros Hok. apply (root_entries s Hok). Qed.

(** * The operations *)

Lemma filling_ok s filling :
  root_ok s -> filling ⊆ filling_ s -> root_ok (with_filling s filling).
Proof.
  intros [He Hd Hf Hc Hk] Hsub. split; cbn; [|done|done| |].
  - eapply every_entry_mono; [|exact He]. intros key item. by apply entry_ok_mono.
  - intros key c Hkc. by apply (Hc key c), (lookup_weaken _ _ _ _ Hkc).
  - intros key key' c c' Hkc Hkc'. by apply (Hk key key' c c'); eapply lookup_weaken.
Qed.

Lemma lookup_ok s now key r headers encoding website policy url acquire existing_only :
  root_ok s -> root_ok (fst (lookup s now key r headers encoding website policy url acquire existing_only)).
Proof.
  intros Hok. unfold lookup. destruct (scan_entries _ _ _ _) as [[item|] stale]; [done|].
  destruct (_ || _); [done|]. destruct (match filling_ s !! key with Some _ => _ | None => _ end); [done|]. cbv zeta.
  set (filling := if maximum_claims <=? map_size (filling_ s) then _ else _).
  assert (filling ⊆ filling_ s) as Hsub.
  { unfold filling. destruct (_ <=? _); [apply map_filter_subseteq|done]. }
  destruct (_ <=? map_size filling); [done|]. destruct Hok as [He Hd Hf Hc Hk]. split; cbn; [|done|done| |].
  - eapply every_entry_mono; [|exact He]. intros k i. apply entry_ok_mono; [cbn; lia|done].
  - intros k c [[<- <-]|[_ Hkc]]%lookup_insert_Some; [cbn; lia|]. specialize (Hc k c (lookup_weaken _ _ _ _ Hkc Hsub)). lia.
  - intros k k' c c' [[<- <-]|[_ Hkc]]%lookup_insert_Some [[<- <-]|[_ Hkc']]%lookup_insert_Some; cbn; [done| | |].
    + specialize (Hc k' c' (lookup_weaken _ _ _ _ Hkc' Hsub)). lia.
    + specialize (Hc k c (lookup_weaken _ _ _ _ Hkc Hsub)). lia.
    + by apply (Hk k k' c c'); eapply lookup_weaken.
Qed.

Lemma renew_ok s now ticket : root_ok s -> root_ok (fst (renew s now ticket)).
Proof.
  intros Hok. unfold renew. destruct (_ || _); [done|]. destruct Hok as [He Hd Hf Hc Hk]. split; cbn; [|done|done| |].
  - eapply every_entry_mono; [|exact He]. intros key item. by apply entry_ok_mono.
  - intros key c [(<- & c0 & Hkc & ->)|[_ Hkc]]%lookup_alter_Some; [exact (Hc _ c0 Hkc)|by apply (Hc key c)].
  - intros k k' c c' [(<- & c0 & Hkc & ->)|[_ Hkc]]%lookup_alter_Some [(<- & c0' & Hkc' & ->)|[_ Hkc']]%lookup_alter_Some Hid; eauto.
Qed.

Lemma abandon_ok s ticket : root_ok s -> root_ok (abandon s ticket).
Proof. intros Hok. unfold abandon. destruct (negb _); [done|]. apply filling_ok; [done|apply delete_subseteq]. Qed.

Lemma kept_variants_in (f : cached_response -> bool) items (item : cached_response) :
  item ∈ (let kept := List.filter f items in if (maximum_variants <=? length kept)%nat then tl kept else kept) -> item ∈ items.
Proof.
  cbv zeta. intros Hi. assert (item ∈ List.filter f items) as Hf.
  { destruct (_ <=? _)%nat; [|done]. destruct (List.filter f items); [done|by right]. }
  apply list_elem_of_In, List.filter_In in Hf as [Hf _]. by apply list_elem_of_In.
Qed.

Lemma kept_variants_sublist (f : cached_response -> bool) items :
  map identity_ (let kept := List.filter f items in if (maximum_variants <=? length kept)%nat then tl kept else kept)
    `sublist_of` map identity_ items.
Proof.
  cbv zeta. pose proof (filter_sublist f items) as Hs. destruct (_ <=? _)%nat; [|done].
  destruct (List.filter f items) as [|x l]; [done|]. cbn [tl]. etransitivity; [|exact Hs]. by apply sublist_cons.
Qed.

Lemma store_ok s ticket policy limits item persisted :
  root_ok s -> limits_ok limits -> ticket_owned ticket -> carries ticket item ->
  root_ok (fst (store s ticket policy limits item persisted)).
Proof.
  intros Hok Hlim Hown (Hw & Hp & Hwe & Hpe & Hsz). unfold store. destruct (_ || _) eqn:Ecur; [by apply abandon_ok|].
  apply orb_false_iff in Ecur as [Hcur _]. apply negb_false_iff, andb_true_iff in Hcur as [Hcw Hcp]. apply Z.eqb_eq in Hcw, Hcp.
  cbv zeta. set (kept := if (maximum_variants <=? _)%nat then _ else _). set (new := set_identity _ _). set (next := with_sequence _ _).
  assert (root_ok next) as Hnext.
  { unfold next. cbn. rewrite put_insert by (by destruct kept). apply (replace_ok s); [done|lia|apply delete_subseteq| | |].
    - rewrite map_app. apply NoDup_app. split; [|split; [|apply NoDup_singleton]].
      + eapply sublist_NoDup; [|apply kept_variants_sublist]. pose proof (root_distinct s Hok) as Hd.
        rewrite (all_items_split _ (ticket_key_ ticket)), map_app in Hd. by apply NoDup_app in Hd as [? _].
      + intros id Hid Hnew. apply list_elem_of_singleton in Hnew as ->. apply list_elem_of_fmap in Hid as (old & Eid & Hold).
        apply kept_variants_in in Hold. pose proof (entry_identity _ _ _ (entries_ok s _ _ Hok Hold)). cbn in Eid. lia.
    - intros id Hid. rewrite map_app in Hid. apply elem_of_app in Hid as [Hid|Hid].
      + left. apply list_elem_of_fmap in Hid as (old & -> & Hold). apply list_elem_of_fmap_2. by eapply kept_variants_in.
      + right. apply list_elem_of_singleton in Hid as ->. cbn. lia.
    - intros i Hi. apply elem_of_app in Hi as [Hi|Hi].
      + eapply entry_ok_mono; [| |apply (entries_ok s _ _ Hok); by eapply kept_variants_in]; cbn; [lia|done].
      + apply list_elem_of_singleton in Hi as ->. unfold ticket_owned in Hown.
        split; cbn; [done|lia|lia|by rewrite Hw, Hp|by rewrite Hwe, Hw|by rewrite Hpe, Hp]. }
  destruct (Hlim next) as [Hm Hd]. pose proof (evict_root_ok next policy (stored_at_ new) (limits next) Hnext Hm Hd) as Hev.
  change (stored_at_ item) with (stored_at_ new). destruct (evict _ _ _ _) as [m retire]. cbn [fst] in Hev.
  destruct (m !! _); [|by apply abandon_ok]. destruct (negb persisted); [by apply abandon_ok|done].
Qed.

Lemma discard_ok s key identity : root_ok s -> root_ok (discard s key identity).
Proof.
  intros Hok. unfold discard. destruct (entries_ s !! key) as [items|] eqn:E; [|done].
  assert (entries_of s key = items) as Hof by (unfold entries_of; by rewrite E).
  apply (same_identities_ok s); [done|lia|done| |].
  - rewrite Hof. apply filter_sublist.
  - intros item Hi. eapply entry_ok_mono; [| |apply (entries_ok s); [done|]]; [cbn; lia|done|]. rewrite Hof.
    apply list_elem_of_In, List.filter_In in Hi as [Hi _]. by apply list_elem_of_In.
Qed.

Lemma replace_identity_ids items new : map identity_ (replace_identity items (identity_ new) new) = map identity_ items.
Proof. induction items as [|x items IH]; cbn [replace_identity map]; [done|]. destruct (identity_ x =? identity_ new) eqn:E; cbn [map]; f_equal; [lia|exact IH]. Qed.

Lemma replace_identity_in items identity new item : item ∈ replace_identity items identity new -> item = new \/ item ∈ items.
Proof.
  induction items as [|x items IH]; cbn [replace_identity]; [by right|]. destruct (identity_ x =? identity); rewrite !elem_of_cons; [tauto|].
  intros [->|Hi]; [tauto|]. destruct (IH Hi); tauto.
Qed.

Lemma revalidate_ok s ticket previous refreshed persisted :
  root_ok s -> ticket_owned ticket -> carries ticket refreshed -> identity_ refreshed = identity_ previous ->
  root_ok (fst (revalidate s ticket previous refreshed persisted)).
Proof.
  intros Hok Hown (Hw & Hp & Hwe & Hpe & Hsz) Hid. unfold revalidate. destruct (entries_ s !! ticket_key_ ticket) as [items|] eqn:E; [|done].
  assert (entries_of s (ticket_key_ ticket) = items) as Hof by (unfold entries_of; by rewrite E).
  destruct (_ || _) eqn:Ecur; [done|]. apply orb_false_iff in Ecur as [_ Hcur].
  apply negb_false_iff, andb_true_iff in Hcur as [Hcw Hcp]. apply Z.eqb_eq in Hcw, Hcp.
  destruct (existsb _ items) eqn:Eex; cbn [negb]; [|done]. destruct persisted; cbn [negb]; [|done]. cbn [fst].
  apply existsb_exists in Eex as (old & Hold%list_elem_of_In & Hoid). apply Z.eqb_eq in Hoid.
  set (new := set_sequence refreshed _). assert (identity_ previous = identity_ new) as Hn by done.
  cbn. rewrite put_insert.
  - apply (same_identities_ok s); [done|lia|apply delete_subseteq| |].
    + rewrite Hof, Hn, replace_identity_ids. done.
    + intros item [->|Hi]%replace_identity_in.
      * pose proof (entry_identity _ _ _ (entries_ok s _ old Hok ltac:(by rewrite Hof))). unfold ticket_owned in Hown.
        split; cbn; [done|lia|lia|by rewrite Hw, Hp|by rewrite Hwe, Hw|by rewrite Hpe, Hp].
      * eapply entry_ok_mono; [| |apply (entries_ok s); [done|by rewrite Hof]]; [cbn; lia|done].
  - intros Hnil. apply (f_equal (map identity_)) in Hnil. rewrite Hn, replace_identity_ids in Hnil.
    destruct items; [by apply elem_of_nil in Hold|done].
Qed.

Lemma replace_item_ids items old new : identity_ new = identity_ old -> map identity_ (replace_item items old new) = map identity_ items.
Proof.
  intros Hid. induction items as [|x items IH]; cbn [replace_item map]; [done|]. destruct (decide (x = old)) as [->|Hne].
  - rewrite (bool_decide_eq_true_2 (old = old)) by done. cbn [map]. by rewrite Hid.
  - rewrite (bool_decide_eq_false_2 (x = old)) by done. cbn [map]. by rewrite IH.
Qed.

Lemma replace_item_in items old new item : item ∈ replace_item items old new -> item = new \/ item ∈ items.
Proof.
  induction items as [|x items IH]; cbn [replace_item]; [by right|]. destruct (bool_decide (x = old)); rewrite !elem_of_cons; [tauto|].
  intros [->|Hi]; [tauto|]. destruct (IH Hi); tauto.
Qed.

Lemma promote_ok s key object policy limits body now :
  root_ok s -> limits_ok limits -> root_ok (promote s key object policy limits body now).
Proof.
  intros Hok Hlim. unfold promote. destruct (entries_ s !! key) as [items|] eqn:E; [|done].
  assert (entries_of s key = items) as Hof by (unfold entries_of; by rewrite E).
  destruct (expires_at_ object <=? now); [done|]. destruct (List.find _ items) as [found|] eqn:Ef; [|done].
  apply find_some in Ef as [Hfound%list_elem_of_In _]. destruct (present (body_ found)); [done|]. cbv zeta.
  set (new := set_sequence _ _). set (next := with_sequence _ _). destruct (Hlim next) as [Hm Hd].
  apply evict_root_ok; [|done|done]. unfold next. cbn. rewrite put_insert.
  - apply (same_identities_ok s); [done|lia|done| |].
    + rewrite Hof, replace_item_ids; done.
    + intros item [->|Hi]%replace_item_in; (eapply entry_ok_mono; [| |apply (entries_ok s); [done|by rewrite Hof]]; [cbn; lia|done]) || idtac.
      destruct (entries_ok s key found Hok ltac:(by rewrite Hof)). split; cbn; auto; try lia.
  - intros Hnil. apply (f_equal (map identity_)) in Hnil. rewrite replace_item_ids in Hnil by done.
    destruct items; [by apply elem_of_nil in Hfound|done].
Qed.

Lemma trim_ok s policy now limits : root_ok s -> limits_ok limits -> root_ok (trim s policy now limits).
Proof. intros Hok Hlim. unfold trim. destruct (Hlim s). case_match; [done|]. by apply evict_root_ok. Qed.

Lemma touch_key_ok s kv : root_ok s -> root_ok (touch_key s kv).
Proof.
  intros Hok. destruct kv as [key ids]. unfold touch_key. destruct (entries_ s !! key) as [items|] eqn:E; [|done].
  assert (entries_of s key = items) as Hof by (unfold entries_of; by rewrite E).
  pose proof (touch_items_sequence ids items (root_sequence_ s)) as Ht. destruct (touch_items _ _ _) as [items' sequence'].
  destruct Ht as (Hs & Hids & Hf2). cbn. rewrite put_insert.
  - apply (same_identities_ok s); [done|done|done|by rewrite Hof, Hids|]. intros item Hi.
    apply list_elem_of_lookup in Hi as [n Hn]. destruct (Forall2_lookup_r _ _ _ _ _ Hf2 Hn) as (old & Hold & Hstep).
    apply list_elem_of_lookup_2 in Hold. rewrite <- Hof in Hold. destruct (entries_ok s key old Hok Hold).
    destruct Hstep as [->|(m & Hm & ->)]; split; cbn; auto; lia.
  - intros ->. destruct items; [|done]. by apply (root_full s Hok key []).
Qed.

Lemma flush_ok s hits : root_ok s -> root_ok (fst (flush_touches s hits)).
Proof.
  unfold flush_touches. destruct (map_to_list _) as [|kv l]; [done|]. cbn [fst]. generalize (kv :: l). clear kv l.
  intros l. revert s. induction l as [|kv l IH]; intros s Hok; cbn [fold_left]; [done|]. by apply IH, touch_key_ok.
Qed.

Lemma commands_ok s commands : root_ok s -> root_ok (with_commands s commands).
Proof.
  intros [He Hd Hf Hc Hk]. split; cbn; [|done..]. eapply every_entry_mono; [|exact He]. intros key item. by apply entry_ok_mono.
Qed.

(** Distinct identities, key by key. *)
Definition ids_at (m : entry_map) (key : bytes) : list Z := map identity_ (default [] (m !! key)).

Lemma ids_elem (m : entry_map) id : id ∈ map identity_ (all_items m) <-> exists key, id ∈ ids_at m key.
Proof.
  split.
  - intros (item & -> & (key & items & Hk & Hi)%elem_of_all_items)%list_elem_of_fmap. exists key. unfold ids_at. rewrite Hk.
    by apply list_elem_of_fmap_2.
  - intros (key & Hid). rewrite (all_items_split m key), map_app. apply elem_of_app. by left.
Qed.

Lemma distinct_spec m : NoDup (map identity_ (all_items m)) <->
  (forall key, NoDup (ids_at m key)) /\ (forall key key' id, key <> key' -> id ∈ ids_at m key -> id ∉ ids_at m key').
Proof.
  split.
  - intros Hd. split; intros key; rewrite (all_items_split m key), map_app in Hd; apply NoDup_app in Hd as (H1 & H2 & H3); [done|].
    intros key' id Hne Hid Hid'. apply (H2 id Hid). apply ids_elem. exists key'. unfold ids_at. by rewrite lookup_delete_ne.
  - induction m as [|key items m Hk IH] using map_ind; [intros _; constructor|]. intros [Hin Hdis]. rewrite all_items_insert, delete_id, map_app by done.
    assert (Hother : forall k, k <> key -> ids_at (<[key := items]> m) k = ids_at m k) by (intros k Hne; unfold ids_at; by rewrite lookup_insert_ne).
    assert (Hsame : ids_at (<[key := items]> m) key = map identity_ items) by (unfold ids_at; by rewrite lookup_insert_eq).
    assert (Hnone : ids_at m key = []) by (unfold ids_at; by rewrite Hk).
    apply NoDup_app. split_and!.
    + rewrite <- Hsame. apply Hin.
    + intros id Hid (k & Hidk)%ids_elem. destruct (decide (k = key)) as [->|Hne]; [rewrite Hnone in Hidk; by apply elem_of_nil in Hidk|].
      apply (Hdis key k id); [done|by rewrite Hsame|by rewrite Hother].
    + apply IH. split.
      * intros k. destruct (decide (k = key)) as [->|Hne]; [rewrite Hnone; constructor|]. rewrite <- Hother by done. apply Hin.
      * intros k k' id Hne Hid Hid'. destruct (decide (k = key)) as [->|Hk1]; [rewrite Hnone in Hid; by apply elem_of_nil in Hid|].
        destruct (decide (k' = key)) as [->|Hk2]; [rewrite Hnone in Hid'; by apply elem_of_nil in Hid'|].
        rewrite <- Hother in Hid, Hid' by done. by apply (Hdis k k' id).
Qed.

Lemma distinct_shrink m m' :
  (forall key, ids_at m' key `sublist_of` ids_at m key) -> NoDup (map identity_ (all_items m)) -> NoDup (map identity_ (all_items m')).
Proof.
  intros Hsub [Hin Hdis]%distinct_spec. apply distinct_spec. split.
  - intros key. by eapply sublist_NoDup.
  - intros key key' id Hne Hid Hid'. apply (Hdis key key' id Hne).
    + eapply elem_of_submseteq; [exact Hid|]. by apply sublist_submseteq.
    + eapply elem_of_submseteq; [exact Hid'|]. by apply sublist_submseteq.
Qed.

Lemma invalidate_ok s command urls now written persist s' n :
  root_ok s -> invalidate s command urls now written persist = Returns (s', n) -> root_ok s'.
Proof.
  intros [He Hd Hf Hc Hk] Hi. destruct n as [count total]. pose proof (invalidate_shape _ _ _ _ _ _ _ _ Hi) as (Hs & Hep & _ & Hfill).
  destruct (invalidate_entries _ _ _ _ _ _ _ _ _ Hi) as (Hent & _ & _). clear Hi.
  assert (Hkey : forall key, default [] (entries_ s' !! key) = map (renewed s') (retained command urls now (default [] (entries_ s !! key)))).
  { intros key. rewrite Hent. destruct (entries_ s !! key) as [items|]; [|done]. cbv zeta. change (default [] (Some items)) with items.
    destruct (empty _) eqn:Ee; [|done]. by apply empty_spec in Ee as ->. }
  assert (Hsub : filling_ s' ⊆ filling_ s) by (rewrite Hfill; apply map_filter_subseteq).
  split.
  - intros key item Hit. rewrite Hkey in Hit. apply list_elem_of_In, in_map_iff in Hit as (old & <- & [Hold _]%List.filter_In).
    apply list_elem_of_In in Hold. destruct (He key old Hold). split; cbn; auto; lia.
  - apply (distinct_shrink (entries_ s)); [|done]. intros key. unfold ids_at. rewrite Hkey, map_map. apply filter_sublist.
  - intros key items Hl ->. rewrite Hent in Hl. destruct (entries_ s !! key) as [items|]; [|done]. cbv zeta in Hl.
    by destruct (retained command urls now items).
  - intros key c Hkc. specialize (Hc key c (lookup_weaken _ _ _ _ Hkc Hsub)). lia.
  - intros key key' c c' Hkc Hkc'. by apply (Hk key key' c c'); eapply lookup_weaken.
Qed.

Lemma perform_ok s op : allowed op -> root_ok s -> root_ok (perform s op).
Proof.
  intros Hal Hok. destruct op; cbn [perform allowed] in *.
  - by apply lookup_ok.
  - by apply renew_ok.
  - by apply abandon_ok.
  - destruct Hal as (? & ? & ?). by apply store_ok.
  - by apply discard_ok.
  - destruct Hal as (? & ? & ?). by apply revalidate_ok.
  - by apply promote_ok.
  - by apply trim_ok.
  - by apply flush_ok.
  - unfold claim_command. destruct (commands_ s !! id); [done|]. by apply commands_ok.
  - by apply commands_ok.
  - destruct (invalidate _ _ _ _ _ _) as [[s' n]|] eqn:E; [|done]. by eapply invalidate_ok.
Qed.

(** C2. Whatever the workers do, in whatever order, the published root keeps its invariant: every
    object has a size of at least its body, counters below the root's, the owner of its key and the
    current epochs of its website and its policy; no two objects of the root have one identity; no
    key is kept without an object; and two keys are never being filled under one claim. *)
Theorem root_invariant s ops : root_ok s -> Forall allowed ops -> root_ok (perform_all s ops).
Proof.
  unfold perform_all. intros Hok Hops. revert s Hok. induction Hops as [|op ops Hop _ IH]; intros s Hok; cbn [fold_left]; [done|].
  by apply IH, perform_ok.
Qed.

(** The stale object that comes with a ticket carries what the ticket says: the premise of
    [Revalidate]. *)
Lemma scan_in (skipped : cached_response -> bool) now items stale found old :
  scan_entries skipped now items stale = (found, old) ->
  (forall item, found = Some item -> item ∈ items) /\ (forall item, old = Some item -> stale = Some item \/ item ∈ items).
Proof.
  revert stale. induction items as [|x items IH]; intros stale; cbn [scan_entries].
  - intros [= <- <-]. split; [done|by left].
  - destruct (skipped x); [|destruct (now <? expires_at_ x)].
    + intros [H1 H2]%IH. split; intros item Hi; [right; by apply H1|]. destruct (H2 item Hi); [by left|right; by right].
    + intros [= <- <-]. split; [intros item [= ->]; by left|by left].
    + intros [H1 H2]%IH. split; intros item Hi; [right; by apply H1|]. destruct (H2 item Hi) as [Hs|Hi']; [|right; by right].
      destruct stale as [old'|]; [case_match|]; simplify_eq; [right; by left|by left|right; by left].
Qed.

(** The revalidation of a stale object is well founded: in a root that keeps the invariant, the
    stale object a lookup returns with a ticket belongs to the ticket's website and policy and
    carries the epochs of the ticket, so that a revalidation which passes the epoch check publishes an
    object of the current epochs. *)
Theorem lookup_stale_carries s now key r headers encoding website policy url acquire existing_only s' found t item :
  root_ok s -> owner key = (website, policy) ->
  lookup s now key r headers encoding website policy url acquire existing_only = (s', found) ->
  lookup_ticket_ found = Some t -> stale_ found = Some item ->
  ticket_owned t /\ carries t item /\ item ∈ entries_of s' key /\ issued s' t.
Proof.
  intros Hok Hown Hl Ht Hst. pose proof (lookup_issued _ _ _ _ _ _ _ _ _ _ _ _ _ _ Hl Ht) as [Hi _].
  destruct (lookup_ticket _ _ _ _ _ _ _ _ _ _ _ _ _ _ Hl Ht) as (-> & _ & _ & Hent & _ & Hstale & _).
  rewrite Hst in Hstale. destruct (scan_entries _ _ _ _) as [f o] eqn:E. cbn in Hstale. subst o.
  apply scan_in in E as [_ Hin]. destruct (Hin item eq_refl) as [?|Hit]; [done|].
  destruct (entries_ok s key item Hok Hit) as [? ? ? Ho Hw Hp]. rewrite Hown in Ho. injection Ho as -> ->.
  split_and!; [done| | |done].
  - split_and!; done.
  - unfold entries_of in *. by rewrite Hent.
Qed.

Lemma scan_spec (skipped : cached_response -> bool) now items stale found old :
  scan_entries skipped now items stale = (found, old) ->
  (forall item, found = Some item -> item ∈ items /\ skipped item = false /\ now < expires_at_ item) /\
  (forall item, old = Some item -> stale = Some item \/ (item ∈ items /\ skipped item = false /\ expires_at_ item <= now)).
Proof.
  revert stale. induction items as [|x items IH]; intros stale; cbn [scan_entries]; [intros [= <- <-]; split; [done|by left]|].
  destruct (skipped x) eqn:Es; [|destruct (now <? expires_at_ x) eqn:Ex].
  - intros [H1 H2]%IH. split; intros item Hi; [destruct (H1 item Hi)|destruct (H2 item Hi) as [?|(? & ?)]].
    + split; [by right|done].
    + by left.
    + right. split; [by right|done].
  - intros [= <- <-]. split; [|by left]. intros item [= ->]. split_and!; [by left|done|lia].
  - intros [H1 H2]%IH. split; intros item Hi.
    + destruct (H1 item Hi). split; [by right|done].
    + destruct (H2 item Hi) as [Hs|(Hin & ?)]; [|right; split; [by right|done]].
      destruct stale as [old'|]; [case_match|]; simplify_eq; [right|by left|right]; split_and!; try done; try lia; by left.
Qed.

(** C12. Only objects that may be served are served. A hit, and a stale object a lookup offers, is an
    object of the key, belongs to the key's website and policy with their current epochs, is within
    its retention, has the request's values for every Vary field, and is not given to a request with
    credentials unless its origin allows to share it; a hit is fresh and leaves the root as it is, a
    stale object is expired. *)
Theorem lookup_servable s now key r headers encoding website policy url acquire existing_only s' found item :
  root_ok s -> owner key = (website, policy) ->
  lookup s now key r headers encoding website policy url acquire existing_only = (s', found) ->
  response_ found = Some item \/ stale_ found = Some item ->
  item ∈ entries_of s key /\ website_id_ item = website /\ policy_id_ item = policy /\
  website_epoch_ item = epoch s (website_key website) /\ policy_epoch_ item = epoch s (policy_key policy) /\
  now < retain_until_ item /\
  (forall name value, (name, value) ∈ vary_ item -> cache_request_vary r headers name encoding = value) /\
  (cache_has_header headers (lit "Authorization") = true -> cache_allows_authorization (headers_ item) (origin_control_enabled r) = true) /\
  (response_ found = Some item -> now < expires_at_ item /\ s' = s) /\ (stale_ found = Some item -> expires_at_ item <= now).
Proof.
  intros Hok Hown Hl Hf.
  assert (Hscan : exists fresh old, scan_entries (entry_skipped r headers encoding now) now (entries_of s key) None = (fresh, old) /\
    ((response_ found = fresh /\ stale_ found = None /\ s' = s) \/ (fresh = None /\ response_ found = None /\ stale_ found = old))).
  { unfold lookup in Hl. destruct (scan_entries _ _ _ _) as [[hit|] old]; [|exists None, old]; [exists (Some hit), old|];
      (split; [done|]); [left; by simplify_eq/=|right]. cbv zeta in Hl. repeat case_match; by simplify_eq/=. }
  destruct Hscan as (fresh & old & Hs & Hcase). apply scan_spec in Hs as [H1 H2].
  assert (Hit : item ∈ entries_of s key /\ entry_skipped r headers encoding now item = false /\
    (response_ found = Some item -> now < expires_at_ item /\ s' = s) /\ (stale_ found = Some item -> expires_at_ item <= now)).
  { destruct Hcase as [(Er & Es & ->)|(-> & Er & Es)]; rewrite Er, Es in *; destruct Hf as [Hf|Hf]; try done.
    - destruct (H1 item Hf) as (? & ? & ?). split_and!; done.
    - destruct (H2 item Hf) as [?|(? & ? & ?)]; [done|]. split_and!; done. }
  destruct Hit as (Hin & Hskip & Hfresh). destruct (entries_ok s key item Hok Hin) as [_ _ _ Ho Hw Hp]. rewrite Hown in Ho. injection Ho as -> ->.
  unfold entry_skipped in Hskip. rewrite !orb_false_iff, negb_false_iff, Z.leb_gt in Hskip. destruct Hskip as [[Ha Hr] Hv].
  split_and!; try done; [|intros Hc; rewrite Hc in Ha; by apply negb_false_iff in Ha|by destruct Hfresh|by destruct Hfresh].
  intros name value Hnv. rewrite forallb_forall in Hv. specialize (Hv (name, value)). cbn in Hv.
  apply bool_decide_eq_true in Hv; [done|]. by apply list_elem_of_In.
Qed.
End Invariant.

(** * A concrete run *)

Definition sample_owner (key : bytes) : bytes * bytes := (lit "site", lit "policy").
Definition sample_item : cached_response := sample_object (lit "policy") 0 true false.
Definition sample_limits (s : response_cache_snapshot) : capacity := mk_capacity 1000 1000.
Definition sample_ops : list operation :=
  [ Lookup 0 (lit "key") sample_rule [] (lit "identity") (lit "site") (lit "policy") (lit "https://a/") true false;
    Store sample_ticket (lit "policy") sample_limits sample_item true ].
Definition sample_stored : response_cache_snapshot := perform_all empty_root sample_ops.
Definition sample_stale : response_cache_snapshot * cache_lookup := sample_lookup sample_stored (seconds 61).

Lemma empty_root_ok owner : root_ok owner empty_root.
Proof. split; [intros key item Hi; by apply elem_of_nil in Hi|constructor|by intros key items|by intros key c|by intros key]. Qed.

Lemma sample_ops_allowed : Forall (allowed sample_owner) sample_ops.
Proof.
  constructor; [done|]. constructor; [|constructor]. split; [by split|]. split; [done|]. split_and!; [done..|].
  unfold sized. cbn. lia.
Qed.

Lemma sample_stored_ok : root_ok sample_owner sample_stored.
Proof.
  unfold sample_stored, perform_all, sample_ops. cbn [fold_left]. pose proof sample_ops_allowed as Ha. unfold sample_ops in Ha.
  inversion_clear Ha as [|? ? Ha1 Ha2]. inversion_clear Ha2 as [|? ? Ha3 _]. apply perform_ok; [exact Ha3|]. apply perform_ok; [exact Ha1|].
  apply empty_root_ok.
Qed.

Lemma root_invariant_witness : root_ok sample_owner sample_stored /\ map snd (map_to_list (filling_ sample_stored)) = [].
Proof.
  split; [|vm_compute; reflexivity].
  exact (root_invariant sample_owner empty_root sample_ops (empty_root_ok sample_owner) sample_ops_allowed).
Defined.

Definition stale_ticket : cache_ticket := mk_ticket (lit "key") (lit "site") (lit "policy") (lit "https://a/") (lit "identity") 3 0 0.
Lemma lookup_stale_carries_witness :
  lookup_ticket_ (snd sample_stale) = Some stale_ticket /\
  exists item, stale_ (snd sample_stale) = Some item /\ carries stale_ticket item.
Proof.
  pose proof sample_stored_ok as Hok.
  assert (Ht : lookup_ticket_ (snd sample_stale) = Some stale_ticket) by (vm_compute; reflexivity). split; [exact Ht|].
  destruct (stale_ (snd sample_stale)) as [item|] eqn:Es; [|vm_compute in Es; discriminate]. exists item. split; [reflexivity|].
  refine (proj1 (proj2 (lookup_stale_carries sample_owner sample_stored (seconds 61) (lit "key") sample_rule [] (lit "identity") (lit "site")
    (lit "policy") (lit "https://a/") true false (fst sample_stale) (snd sample_stale) stale_ticket item Hok eq_refl _ Ht Es))).
  apply surjective_pairing.
Defined.

Definition sample_hit : response_cache_snapshot * cache_lookup := sample_lookup sample_stored (seconds 5).
Lemma lookup_servable_witness :
  exists item, response_ (snd sample_hit) = Some item /\ website_id_ item = lit "site" /\ seconds 5 < retain_until_ item.
Proof.
  pose proof sample_stored_ok as Hok.
  destruct (response_ (snd sample_hit)) as [item|] eqn:Er; [|vm_compute in Er; discriminate]. exists item. split; [reflexivity|].
  pose proof (lookup_servable sample_owner sample_stored (seconds 5) (lit "key") sample_rule [] (lit "identity") (lit "site") (lit "policy")
    (lit "https://a/") true false (fst sample_hit) (snd sample_hit) item Hok eq_refl (surjective_pairing _) (or_introl Er)) as Hs.
  destruct Hs as (_ & Hw & _ & _ & _ & Hr & _). split; [exact Hw|exact Hr].
Defined.
