(* ===== verification/CacheFreshness.v ===== *)
(** What may be cached and for how long (src/node/data/response_cache.h): the reasons to bypass, the
    freshness and retention of an object, the merge of a 304 into a stored head, the conditions for
    serving stale, and the metadata an object leaves on the disk and comes back with.

    [ruvia::parse_http_date] is not part of the repository: it is the interface [HttpDate], any
    partial function from text to Unix seconds. Wall-clock seconds ([std::time]) and steady-clock
    nanoseconds are arguments. Time points are 64-bit counts of nanoseconds, so adding seconds to
    one wraps around. *)
From S2P Require Import Prelude RoutePolicy RouteMatch RequestExpression CacheSettings CachePolicy CacheUrl CacheKey CacheControl CacheRecord ResponseCache.
Open Scope Z_scope.

Class HttpDate := parse_http_date : bytes -> option Z.

Record cache_response_head := mk_head { head_status_ : Z; head_headers_ : cache_headers }.

(** * Machine integers of this component *)

Definition two63 : Z := 9223372036854775808.
Definition i64 (z : Z) : Z := (z + two63) mod two64 - two63.
(** A time point and [std::chrono::seconds]. *)
Definition plus_seconds (point n : Z) : Z := i64 (point + i64 (n * 1000000000)).

(** [std::from_chars] to [std::int64_t]. *)
Definition from_chars_i64 (text : bytes) : option (Z * bytes) :=
  match text with
  | c :: digits => if c == "-"%char
                   then match from_chars two63 digits with Some (v, rest) => Some (- v, rest) | None => None end
                   else from_chars (two63 - 1) text
  | [] => None
  end.

(** * Bypass *)

Definition request_bypass_reason (r : rule) (method : bytes) (headers : cache_headers) : bytes :=
  if (method != lit "GET") && (method != lit "HEAD") then lit "request_method"
  else if skip_request_cookie_ r && negb (empty (cache_header headers (lit "Cookie"))) then lit "request_cookie"
  else if negb (empty (cache_header headers (lit "Upgrade"))) then lit "request_upgrade"
  else if accepts_event_stream (cache_header headers (lit "Accept")) then lit "request_event_stream"
  else if cache_has_directive (cache_header headers (lit "Cache-Control")) (lit "no-store") then lit "request_no_store"
  else [].

Definition armored (r : rule) : bool :=
  configured r (lit "armor") && match settings_ r with Some s => armor_ s | None => false end.
Definition maximum_vary : nat := 64.
Definition vary_refused (r : rule) (vary : list bytes) : bool :=
  (maximum_vary <? length vary)%nat || existsb (fun name => name == lit "*") vary || negb (forallb (fun field => http_token field 256) vary) ||
  existsb (fun name => cache_vary_action r name == lit "bypass") vary.

Definition response_bypass_reason (r : rule) (head : cache_response_head) (authorization : bool) (target : bytes) : bytes :=
  let headers := head_headers_ head in
  let control := cache_edge_control headers in
  let override_origin := overrides_origin r (head_status_ head) in
  if bool_decide (status_cache_ttl r (head_status_ head) = Some (-1)) then lit "origin_status_ttl"
  else if armored r && negb override_origin && negb (cache_has_directive control (lit "public")) &&
          negb (present (cache_directive_seconds control (lit "max-age"))) &&
          negb (present (cache_directive_seconds control (lit "s-maxage"))) &&
          negb (cache_content_type_matches target (cache_header headers (lit "Content-Type"))) then lit "origin_cache_deception"
  else if negb override_origin && cache_directive_applies control (lit "private") [] then lit "origin_private"
  else if negb override_origin && cache_has_directive control (lit "no-store") then lit "origin_no_store"
  else if authorization && negb (cache_allows_authorization headers (origin_control_enabled r)) then lit "origin_authorization"
  else if negb override_origin && cache_origin_control r headers && negb (empty (cache_header headers (lit "Set-Cookie")))
       then lit "origin_set_cookie"
  else if negb (empty (status_codes_ r)) && negb (existsb (fun code => code =? head_status_ head) (status_codes_ r)) then lit "origin_status"
  else if is_event_stream_content_type (cache_header headers (lit "Content-Type")) then lit "origin_event_stream"
  else if vary_refused r (cache_tokens (cache_header headers (lit "Vary"))) then lit "origin_vary"
  else if negb override_origin && negb (cache_origin_control r headers) &&
          (cache_has_directive control (lit "no-cache") ||
           bool_decide (cache_directive_seconds control (lit "max-age") = Some 0) ||
           bool_decide (cache_directive_seconds control (lit "s-maxage") = Some 0)) then lit "origin_no_cache"
  else [].

(** * Serving stale *)

Definition usable_stale (now : Z) (object : cached_response) : bool :=
  (0 <? stale_if_error_seconds_ object) && (now <? plus_seconds (expires_at_ object) (stale_if_error_seconds_ object)).

(** The origin demands that a stale object is validated first. *)
Definition demands_validation (control : bytes) (headers : cache_headers) : bool :=
  cache_requires_validation control headers || cache_has_directive control (lit "must-revalidate") ||
  cache_has_directive control (lit "proxy-revalidate") || present (cache_directive_seconds control (lit "s-maxage")).

Definition updating_stale (r : rule) (now : Z) (object : cached_response) : bool :=
  let headers := ResponseCache.headers_ object in
  let control := cache_edge_control headers in
  if configured r (lit "stale") && negb (match settings_ r with Some s => serve_stale_ s | None => false end) then false
  else if bool_decide (status_cache_ttl r (status_ object) = Some 0) then false
  else if negb (overrides_origin r (status_ object)) && cache_origin_control r headers && demands_validation control headers then false
  else
    let seconds := default 0 (cache_directive_seconds control (lit "stale-while-revalidate")) in
    (0 <? seconds) && (now <? plus_seconds (expires_at_ object) seconds).

Section Freshness.
Context `{HttpDate}.

(** * The lifetime for browsers *)

Definition cache_browser_ttl (wall : Z) (r : rule) (head : cache_response_head) : Z :=
  let headers := head_headers_ head in
  if browser_ttl_mode_ r == lit "bypass" then -1
  else if browser_ttl_mode_ r == lit "respect_origin" then 0
  else if negb (empty (status_codes_ r)) && negb (existsb (fun code => code =? head_status_ head) (status_codes_ r)) then 0
  else
    let control := cache_header headers (lit "Cache-Control") in
    if ((origin_control_enabled r || cache_has_header headers (lit "Cloudflare-CDN-Cache-Control")) && cache_has_directive control (lit "private")) ||
       cache_has_directive control (lit "no-cache") || negb (empty (cache_header headers (lit "Set-Cookie"))) then 0
    else
      let ttl := CachePolicy.browser_ttl_seconds_ r in
      let configured := if 0 <? ttl then ttl else 14400 in
      if browser_ttl_mode_ r == lit "override_origin" then (if ttl =? 0 then -2 else ttl)
      else
        let origin :=
          match cache_directive_seconds control (lit "max-age") with
          | Some seconds => Some seconds
          | None =>
              match parse_http_date (cache_header headers (lit "Expires")) with
              | Some expires => Some (expires - default wall (parse_http_date (cache_header headers (lit "Date"))))
              | None => None
              end
          end in
        match origin with Some origin => if configured <=? origin then 0 else configured | None => configured end.

(** * The metadata of an object *)

Definition maximum_age : Z := 31536000.

(** The age the object has when it arrives, [None] when it is refused. *)
Definition upstream_age (headers : cache_headers) : option Z :=
  let age_text := cache_header headers (lit "Age") in
  if empty age_text then Some 0
  else match from_chars_i64 age_text with
       | Some (age, []) => if age <? 0 then None else Some age
       | _ => None
       end.
Definition initial_age (wall date : Z) (headers : cache_headers) : option Z :=
  match upstream_age headers with
  | Some upstream =>
      let age := Z.max (Z.max 0 (wall - date)) upstream in
      if maximum_age <? age then None else Some age
  | None => None
  end.

Definition fallback_ttl (status : Z) : Z :=
  if (status =? 200) || (status =? 206) || (status =? 301) then 7200
  else if (status =? 302) || (status =? 303) then 1200
  else if (status =? 404) || (status =? 410) then 180 else 0.

(** What the origin says the lifetime is. *)
Definition origin_ttl (date : Z) (control : bytes) (headers : cache_headers) : option Z :=
  match cache_directive_seconds control (lit "s-maxage") with
  | Some ttl => Some ttl
  | None =>
      match cache_directive_seconds control (lit "max-age") with
      | Some ttl => Some ttl
      | None =>
          if cache_has_header headers (lit "Cloudflare-CDN-Cache-Control") || cache_has_header headers (lit "CDN-Cache-Control") then None
          else match parse_http_date (cache_header headers (lit "Expires")) with
               | Some expires => Some (expires - date)
               | None => None
               end
      end
  end.

(** The lifetime in seconds, [None] when the response is not stored. *)
Definition lifetime (r : rule) (date : Z) (head : cache_response_head) : option Z :=
  let headers := head_headers_ head in
  let control := cache_edge_control headers in
  if overrides_origin r (head_status_ head) then
    let seconds := default (ttl_seconds_ r) (status_cache_ttl r (head_status_ head)) in
    if seconds <? 0 then None else Some seconds
  else
    let requires_validation := cache_requires_validation control headers in
    let ttl := origin_ttl date control headers in
    let fallback := fallback_ttl (head_status_ head) in
    if negb (present ttl) && ((fallback =? 0) || (ttl_mode_ r == lit "origin_strict")) && negb requires_validation then None
    else Some (if requires_validation then 0 else default fallback ttl).

(** The headers the object keeps. *)
Definition stored_headers (r : rule) (head : cache_response_head) : cache_headers :=
  let headers := head_headers_ head in
  if overrides_origin r (head_status_ head) || negb (cache_origin_control r headers)
  then List.filter (fun field => negb (ascii_equal (fst field) (lit "Set-Cookie"))) headers
  else List.filter (fun field => negb (cache_directive_applies (cache_edge_control headers) (lit "private") (fst field))) headers.

Definition object_bytes (body_bytes : Z) (headers : cache_headers) : Z :=
  fold_left (fun total field => total + (size (fst field) + size (snd field))) headers (body_bytes + 256).

Fixpoint vary_fields (r : rule) (request : cache_headers) (encoding : bytes) (vary : list bytes) : option (list (bytes * bytes)) :=
  match vary with
  | [] => Some []
  | field :: vary =>
      if negb (http_token field 256) then None
      else match vary_fields r request encoding vary with
           | Some fields =>
               Some (if cache_vary_action r field != lit "ignore"
                     then (field, cache_request_vary r request field encoding) :: fields else fields)
           | None => None
           end
  end.

(** How long after its expiry an object may serve errors, and how long it is kept. *)
Definition stale_seconds (r : rule) (seconds : Z) (head : cache_response_head) : Z :=
  let headers := head_headers_ head in
  let control := cache_edge_control headers in
  if (seconds =? 0) || (negb (overrides_origin r (head_status_ head)) && cache_origin_control r headers && demands_validation control headers)
  then 0 else default 31536000 (cache_directive_seconds control (lit "stale-if-error")).
Definition has_validator (headers : cache_headers) : bool :=
  negb (empty (cache_header headers (lit "ETag"))) || negb (empty (cache_header headers (lit "Last-Modified"))).
Definition retention (expires stale : Z) (validator : bool) (control : bytes) : Z :=
  let retain := plus_seconds expires (Z.max stale (if validator then 86400 else 300)) in
  Z.max retain (plus_seconds expires (default 0 (cache_directive_seconds control (lit "stale-while-revalidate")))).

(** [metadata]: the object with everything but its identity, its body and its files. *)
Definition metadata (wall now : Z) (item : cached_response) (head : cache_response_head) (r : rule) (request : cache_headers)
    (encoding : bytes) : option cached_response :=
  let response := head_headers_ head in
  let control := cache_edge_control response in
  if negb (empty (response_bypass_reason r head (cache_has_header request (lit "Authorization")) [])) then None
  else
    let date := default wall (parse_http_date (cache_header response (lit "Date"))) in
    match initial_age wall date response, lifetime r date head with
    | Some age, Some seconds =>
        let headers := stored_headers r head in
        let expires := plus_seconds now (seconds - (if overrides_origin r (head_status_ head) then 0 else age)) in
        let stale := stale_seconds r seconds head in
        let vary := cache_tokens (cache_header response (lit "Vary")) in
        if (maximum_vary <? length vary)%nat || existsb (fun name => name == lit "*") vary then None
        else match vary_fields r request encoding vary with
             | None => None
             | Some vary =>
                 Some (mk_response (website_id_ item) (ResponseCache.policy_id_ item) (ResponseCache.url_ item) headers vary (body_ item) (file_ item)
                         (head_status_ head) (body_bytes_ item) (object_bytes (body_bytes_ item) headers) (sequence_ item) (identity_ item)
                         (website_epoch_ item) (policy_epoch_ item) stale age
                         (cache_browser_ttl wall r (mk_head (head_status_ head) headers)) (CachePolicy.ignore_query_ r) now expires
                         (retention expires stale (has_validator headers) control))
             end
    | _, _ => None
    end.
End Freshness.

(** * The head of a revalidated object *)

Definition weak_value (value : bytes) : bytes := if starts_with value (lit "W/") then drop 2 value else value.
Definition without (name : bytes) (headers : cache_headers) : cache_headers :=
  List.filter (fun field => negb (ascii_equal (fst field) name)) headers.

(** One field of the 304, [None] when the representation changed. *)
Definition merge_field (previous headers : cache_headers) (field : bytes * bytes) : option cache_headers :=
  let encoding := cache_header previous (lit "Content-Encoding") in
  if ascii_equal (fst field) (lit "Content-Encoding") && (snd field != encoding) then None
  else
    let value := if ascii_equal (fst field) (lit "ETag") && negb (empty encoding) && first_is dquote (snd field)
                 then lit "W/" ++ snd field else snd field in
    Some (without (fst field) headers ++ [(fst field, value)]).
Fixpoint merge_fields (previous headers validation : cache_headers) : option cache_headers :=
  match validation with
  | [] => Some headers
  | field :: validation =>
      match merge_field previous headers field with Some headers => merge_fields previous headers validation | None => None end
  end.
(** [cache_http_date] of the current time is the argument [today]. *)
Definition refreshed_head (today : bytes) (previous validation : cache_headers) : option cache_headers :=
  let old_etag := cache_header previous (lit "ETag") in
  let new_etag := cache_header validation (lit "ETag") in
  if negb (empty old_etag) && negb (empty new_etag) && (weak_value old_etag != weak_value new_etag) then None
  else
    match merge_fields previous (List.filter (fun field => negb (ascii_equal (fst field) (lit "Date") || ascii_equal (fst field) (lit "Age"))) previous) validation with
    | Some headers => Some (if empty (cache_header headers (lit "Date")) then headers ++ [(lit "Date", today)] else headers)
    | None => None
    end.

(** * Time arithmetic *)

Lemma i64_small z : - two63 <= z < two63 -> i64 z = z.
Proof. unfold i64, two63, two64. intros Hz. rewrite Z.mod_small; lia. Qed.

(** Adding up to 136 years to a time point within 146 years of zero does not wrap. *)
Definition near (point : Z) : Prop := - 4611686018427387904 <= point <= 4611686018427387904.
Definition short (seconds : Z) : Prop := - 4294967296 <= seconds <= 4294967296.
Lemma plus_seconds_exact point n : near point -> short n -> plus_seconds point n = point + n * 1000000000.
Proof.
  unfold near, short, plus_seconds. intros Hp Hn. rewrite (i64_small (n * 1000000000)) by (unfold two63; lia).
  apply i64_small. unfold two63. lia.
Qed.

(** * What is stored *)

Lemma cache_header_fields headers name :
  cache_header headers name = [] -> forall field, field ∈ headers -> ascii_equal (fst field) name = true -> snd field = [].
Proof.
  unfold cache_header.
  assert (Hgo : forall found result, snd (fold_left (fun '(found, result) '(key, value) =>
      if ascii_equal key name then (true, (if found : bool then result ++ lit "," else result) ++ value) else (found, result))
      headers (found, result)) = [] -> result = [] /\ forall field, field ∈ headers -> ascii_equal (fst field) name = true -> snd field = []).
  { induction headers as [|[key value] headers IH]; intros found result; cbn [fold_left].
    - intros Hr. split; [exact Hr|]. intros field Hf. by apply elem_of_nil in Hf.
    - destruct (ascii_equal key name) eqn:E; intros [Hr Hf]%IH.
      + apply app_nil in Hr as [Hr ->]. split.
        * destruct found; [by apply app_nil in Hr as [_ ?]|done].
        * intros field [->|Hin]%elem_of_cons; [done|by apply Hf].
      + split; [done|]. intros field [->|Hin]%elem_of_cons; [cbn; congruence|by apply Hf]. }
  intros Hh. by apply (Hgo false []).
Qed.

Ltac bypass_step H :=
  match type of H with
  | (if ?b then lit _ else _) = [] => let E := fresh "Eb" in destruct b eqn:E; [discriminate H|]
  end.

(** What a response must satisfy to be stored; [override] is a rule that overrides the origin. *)
Record storable (r : rule) (head : cache_response_head) (authorization : bool) : Prop := {
  not_private : overrides_origin r (head_status_ head) = false ->
    cache_directive_applies (cache_edge_control (head_headers_ head)) (lit "private") [] = false /\
    cache_has_directive (cache_edge_control (head_headers_ head)) (lit "no-store") = false;
  authorized : authorization = true -> cache_allows_authorization (head_headers_ head) (origin_control_enabled r) = true;
  no_cookie : overrides_origin r (head_status_ head) = false -> cache_origin_control r (head_headers_ head) = true ->
    cache_header (head_headers_ head) (lit "Set-Cookie") = [];
  no_event_stream : is_event_stream_content_type (cache_header (head_headers_ head) (lit "Content-Type")) = false;
  status_listed : status_codes_ r = [] \/ head_status_ head ∈ status_codes_ r;
  vary_listed : vary_refused r (cache_tokens (cache_header (head_headers_ head) (lit "Vary"))) = false
}.

Lemma bypass_storable r head authorization target :
  response_bypass_reason r head authorization target = [] -> storable r head authorization.
Proof.
  unfold response_bypass_reason. cbv zeta. intros Hb. repeat bypass_step Hb. clear Hb.
  repeat match goal with E : ?b && _ = false |- _ => apply andb_false_iff in E end.
  split.
  - intros Ho. rewrite Ho in *. cbn [negb] in *. split; naive_solver.
  - intros ->. destruct (cache_allows_authorization _ _); naive_solver.
  - intros Ho Hc. rewrite Ho, Hc in *. cbn [negb andb] in *.
    match goal with E : _ \/ negb (empty (cache_header _ (lit "Set-Cookie"))) = false |- _ => destruct E as [?|Hempty]; [done|] end.
    apply negb_false_iff in Hempty. by apply empty_spec.
  - done.
  - match goal with E : negb (empty (status_codes_ r)) = false \/ _ |- _ => destruct E as [Hs|Hs]; apply negb_false_iff in Hs end.
    + left. by apply empty_spec.
    + right. apply existsb_exists in Hs as (code & Hin & <-%Z.eqb_eq). by apply list_elem_of_In.
  - done.
Qed.

Section Metadata.
Context `{HttpDate}.

Lemma metadata_inv wall now item head r request encoding obj :
  metadata wall now item head r request encoding = Some obj ->
  let response := head_headers_ head in
  let control := cache_edge_control response in
  let date := default wall (parse_http_date (cache_header response (lit "Date"))) in
  storable r head (cache_has_header request (lit "Authorization")) /\
  exists age seconds, initial_age wall date response = Some age /\ lifetime r date head = Some seconds /\
    initial_age_ obj = age /\ ResponseCache.headers_ obj = stored_headers r head /\ stored_at_ obj = now /\
    expires_at_ obj = plus_seconds now (seconds - (if overrides_origin r (head_status_ head) then 0 else age)) /\
    stale_if_error_seconds_ obj = stale_seconds r seconds head /\
    retain_until_ obj = retention (expires_at_ obj) (stale_if_error_seconds_ obj) (has_validator (stored_headers r head)) control /\
    vary_fields r request encoding (cache_tokens (cache_header response (lit "Vary"))) = Some (vary_ obj) /\
    bytes_ obj = object_bytes (body_bytes_ item) (stored_headers r head) /\ body_bytes_ obj = body_bytes_ item /\
    website_id_ obj = website_id_ item /\ ResponseCache.policy_id_ obj = ResponseCache.policy_id_ item /\
    website_epoch_ obj = website_epoch_ item /\ policy_epoch_ obj = policy_epoch_ item /\ identity_ obj = identity_ item.
Proof.
  unfold metadata. cbv zeta. destruct (negb _) eqn:Eb; [done|]. apply negb_false_iff, empty_spec, bypass_storable in Eb.
  destruct (initial_age _ _ _) as [age|]; [|done]. destruct (lifetime _ _ _) as [seconds|]; [|done].
  destruct (_ || _); [done|]. destruct (vary_fields _ _ _ _) as [vary|] eqn:Ev; [|done]. intros [= <-]. split; [done|].
  exists age, seconds. cbn. by split_and!.
Qed.

Lemma stored_headers_spec r head field :
  field ∈ stored_headers r head <-> field ∈ head_headers_ head /\
    (if overrides_origin r (head_status_ head) || negb (cache_origin_control r (head_headers_ head))
     then ascii_equal (fst field) (lit "Set-Cookie") = false
     else cache_directive_applies (cache_edge_control (head_headers_ head)) (lit "private") (fst field) = false).
Proof.
  unfold stored_headers. destruct (_ || _); rewrite list_elem_of_In, List.filter_In, <- list_elem_of_In, negb_true_iff; done.
Qed.

Lemma object_bytes_ge body headers : body + 256 <= object_bytes body headers.
Proof.
  unfold object_bytes. assert (Hgo : forall total, total <= fold_left (fun total (field : bytes * bytes) => total + (size (fst field) + size (snd field))) headers total).
  { induction headers as [|f headers IH]; intros total; cbn [fold_left]; [lia|]. etransitivity; [|apply IH]. unfold size. lia. }
  apply Hgo.
Qed.

Lemma vary_fields_spec r request encoding vary fields :
  vary_fields r request encoding vary = Some fields ->
  fields = map (fun field => (field, cache_request_vary r request field encoding))
             (List.filter (fun field => cache_vary_action r field != lit "ignore") vary).
Proof.
  revert fields. induction vary as [|field vary IH]; intros fields; cbn [vary_fields List.filter map]; [by intros [= <-]|].
  destruct (negb _); [done|]. destruct (vary_fields r request encoding vary) as [rest|]; [|done]. intros [= <-].
  rewrite (IH rest eq_refl). by destruct (_ != _).
Qed.

(** What is stored may be stored. When the metadata of a response is accepted, its origin did not
    forbid it (no unqualified private and no no-store, unless a rule overrides the origin), a response
    to a request with credentials is one the origin allows to share, the stored headers are fields
    of the response without any Set-Cookie value and without the fields a qualified private names,
    the variant is keyed by exactly the Vary fields the rule does not ignore, with this request's
    values, and the recorded age is at most one year. *)
Theorem stored_is_storable wall now item head r request encoding obj :
  metadata wall now item head r request encoding = Some obj ->
  let control := cache_edge_control (head_headers_ head) in
  let override := overrides_origin r (head_status_ head) in
  storable r head (cache_has_header request (lit "Authorization")) /\
  (forall field, field ∈ ResponseCache.headers_ obj -> field ∈ head_headers_ head /\
     (ascii_equal (fst field) (lit "Set-Cookie") = true -> snd field = []) /\
     (override = false -> cache_origin_control r (head_headers_ head) = true -> cache_directive_applies control (lit "private") (fst field) = false)) /\
  vary_ obj = map (fun field => (field, cache_request_vary r request field encoding))
    (List.filter (fun field => cache_vary_action r field != lit "ignore") (cache_tokens (cache_header (head_headers_ head) (lit "Vary")))) /\
  0 <= initial_age_ obj <= maximum_age /\ body_bytes_ obj + 256 <= bytes_ obj.
Proof.
  intros (Hst & age & seconds & Hage & _ & Eage & Ehead & _ & _ & _ & _ & Hvary & Hbytes & Hbody & _)%metadata_inv control override.
  split; [done|]. split; [|split; [by apply vary_fields_spec|split]].
  - intros field Hf. rewrite Ehead in Hf. apply stored_headers_spec in Hf as [Hin Hf]. fold override in Hf. split; [done|]. split.
    + intros Hc. destruct override eqn:Eo; cbn [orb] in Hf; [congruence|].
      destruct (cache_origin_control r (head_headers_ head)) eqn:Ec; cbn [negb] in Hf; [|congruence].
      by apply (cache_header_fields _ _ (no_cookie _ _ _ Hst Eo Ec)).
    + intros Eo Ec. by rewrite Eo, Ec in Hf.
  - rewrite Eage. unfold initial_age, upstream_age in Hage. repeat case_match; simplify_eq; lia.
  - rewrite Hbody, Hbytes. apply object_bytes_ge.
Qed.

(** * Freshness *)

Lemma retention_ge expires stale validator control :
  near expires -> 0 <= stale <= 4294967296 -> expires + 300 * 1000000000 <= retention expires stale validator control /\
  expires + stale * 1000000000 <= retention expires stale validator control.
Proof.
  intros He Hs. unfold retention. rewrite plus_seconds_exact by (done || (unfold short; destruct validator; lia)).
  destruct validator; lia.
Qed.

Lemma digit_step d seconds : is_digit d = true -> 0 <= seconds -> 0 <= Z.min (seconds * 10 + (code d - 48)) maximum_ttl <= maximum_ttl.
Proof. intros Hd%is_digit_spec Hs. unfold maximum_ttl. lia. Qed.

Lemma digits_loop_range quoted n value seconds v :
  (length value <= n)%nat -> 0 <= seconds <= maximum_ttl -> CacheControl.digits_loop quoted value seconds = Some v -> 0 <= v <= maximum_ttl.
Proof.
  revert value seconds. induction n as [|n IH]; intros [|c value] seconds Hle Hs; cbn [CacheControl.digits_loop length] in *;
    [by intros [= <-]|lia|by intros [= <-]|].
  destruct (quoted && _).
  - destruct value as [|d value]; [done|]. destruct (is_digit d) eqn:Ed; cbn [negb]; [|done].
    apply IH; [cbn in Hle; lia|]. apply digit_step; [done|lia].
  - destruct (is_digit c) eqn:Ec; cbn [negb]; [|done]. apply IH; [lia|]. apply digit_step; [done|lia].
Qed.

Lemma directive_seconds_range input name v : cache_directive_seconds input name = Some v -> 0 <= v <= maximum_ttl.
Proof.
  unfold cache_directive_seconds. assert (Hgo : forall tokens result, (forall v, result = Some v -> 0 <= v <= maximum_ttl) ->
    forall v, seconds_loop tokens name result = Some v -> 0 <= v <= maximum_ttl); [|by apply Hgo].
  induction tokens as [|token tokens IH]; intros result Hr w; cbn [seconds_loop]; [apply Hr|].
  destruct (find_char "=" token) as [equal|]; [|by apply IH]. destruct (negb _); [by apply IH|]. cbv zeta.
  destruct (_ || _); [intros [= <-]; unfold maximum_ttl; lia|].
  destruct (CacheControl.digits_loop _ _ _) as [seconds|] eqn:Ed; [|intros [= <-]; unfold maximum_ttl; lia].
  apply IH. intros u [= <-]. eapply digits_loop_range; [reflexivity| |exact Ed]. unfold maximum_ttl. lia.
Qed.

Lemma stale_seconds_range r seconds head : 0 <= stale_seconds r seconds head <= maximum_ttl.
Proof.
  unfold stale_seconds. cbv zeta. destruct (_ || _); [unfold maximum_ttl; lia|].
  destruct (cache_directive_seconds _ _) as [v|] eqn:E; cbn; [by apply directive_seconds_range in E|unfold maximum_ttl; lia].
Qed.

(** How long an object lives, when no lifetime exceeds 31 years and the clock is within 73 years of
    its start. The object expires its lifetime, less the age it arrived with unless a rule fixes the
    lifetime, after it was stored. A response the origin wants validated each time is never fresh;
    one with must-revalidate, proxy-revalidate, s-maxage or no-cache never serves errors once it is
    stale; and the object is kept at least five minutes past its expiry and as long as it may serve
    errors. *)
Theorem lifetime_exact wall now item head r request encoding obj time :
  metadata wall now item head r request encoding = Some obj ->
  let response := head_headers_ head in
  let control := cache_edge_control response in
  let override := overrides_origin r (head_status_ head) in
  let date := default wall (parse_http_date (cache_header response (lit "Date"))) in
  0 <= now <= 2305843009213693952 ->
  (forall seconds, lifetime r date head = Some seconds -> Z.abs seconds <= 1000000000) ->
  (exists seconds, lifetime r date head = Some seconds /\
     expires_at_ obj = now + (seconds - (if override then 0 else initial_age_ obj)) * 1000000000) /\
  (override = false -> cache_requires_validation control response = true -> expires_at_ obj <= now) /\
  (override = false -> cache_origin_control r response = true -> demands_validation control response = true -> usable_stale time obj = false) /\
  expires_at_ obj + 300 * 1000000000 <= retain_until_ obj /\
  expires_at_ obj + stale_if_error_seconds_ obj * 1000000000 <= retain_until_ obj.
Proof.
  intros (_ & age & seconds & Hage & Hlife & Eage & _ & _ & Eexp & Estale & Eret & _)%metadata_inv response control override date Hnow Hsec.
  fold response control override date in Hage, Hlife, Eexp, Estale, Eret.
  assert (0 <= age <= maximum_age) as Hages by (unfold initial_age, upstream_age in Hage; repeat case_match; simplify_eq; lia).
  specialize (Hsec seconds Hlife). unfold maximum_age in Hages.
  assert (expires_at_ obj = now + (seconds - (if override then 0 else age)) * 1000000000) as Hexp.
  { rewrite Eexp. apply plus_seconds_exact; [unfold near; lia|unfold short; destruct override; lia]. }
  pose proof (stale_seconds_range r seconds head) as Hst. unfold maximum_ttl in Hst.
  assert (near (expires_at_ obj)) as Hnear by (unfold near; destruct override; lia).
  split; [exists seconds; by rewrite Eage|]. split; [|split].
  - intros Eo Hv. unfold lifetime in Hlife. cbv zeta in Hlife. fold override in Hlife. rewrite Eo in Hlife, Hexp.
    fold response control in Hlife. rewrite Hv in Hlife. rewrite andb_false_r in Hlife. injection Hlife as <-. lia.
  - intros Eo Hc Hd. unfold usable_stale. rewrite Estale. unfold stale_seconds. cbv zeta. fold override response control. rewrite Eo, Hc, Hd.
    cbn [negb andb]. by rewrite orb_true_r.
  - rewrite Eret. apply retention_ge; [done|]. rewrite Estale. lia.
Qed.
End Metadata.

(** * Concrete responses *)

(** The dates of the examples, as RFC 9110 reads them. *)
Definition sample_dates : HttpDate := fun text =>
  if text == lit "Fri, 31 Dec 9999 23:59:59 GMT" then Some 253402300799
  else if text == lit "Mon, 01 Jan 2024 00:00:00 GMT" then Some 1704067200 else None.
Definition plain_rule : rule := default_rule (lit "r") (lit "static") [lit ".css"].
Definition blank_object : cached_response := sample_object (lit "p") 0 false false.
Definition sample_head : cache_response_head :=
  mk_head 200 [(lit "Cache-Control", lit "public, max-age=60, must-revalidate"); (lit "Age", lit "10"); (lit "Vary", lit "Accept-Encoding")].
Definition sample_metadata (head : cache_response_head) : option cached_response :=
  @metadata sample_dates 1704067200 (seconds 1000) blank_object head plain_rule [] (lit "gzip").
Definition sample_result (head : cache_response_head) : cached_response := default blank_object (sample_metadata head).

Lemma stored_is_storable_witness :
  vary_ (sample_result sample_head) = [(lit "accept-encoding", lit "gzip")] /\ 0 <= initial_age_ (sample_result sample_head) <= maximum_age.
Proof.
  assert (Hm : sample_metadata sample_head = Some (sample_result sample_head)) by (vm_compute; reflexivity).
  pose proof (@stored_is_storable sample_dates _ _ _ _ _ _ _ _ Hm) as (_ & _ & Hv & Ha & _).
  split; [rewrite Hv; vm_compute; reflexivity|exact Ha].
Defined.

Lemma lifetime_exact_witness :
  usable_stale (seconds 2000) (sample_result sample_head) = false /\ expires_at_ (sample_result sample_head) = seconds 1050.
Proof.
  assert (Hm : sample_metadata sample_head = Some (sample_result sample_head)) by (vm_compute; reflexivity).
  pose proof (@lifetime_exact sample_dates _ _ _ _ _ _ _ _ (seconds 2000) Hm) as Hl. cbv zeta in Hl.
  destruct Hl as (_ & _ & Hu & _).
  - split; vm_compute; discriminate.
  - intros n Hn. vm_compute in Hn. injection Hn as <-. vm_compute. discriminate.
  - split; [apply Hu; vm_compute; reflexivity|vm_compute; reflexivity].
Defined.

(** A lifetime that comes from Expires is not capped like the directives are: for the last second of
    the year 9999 the nanoseconds of the expiry wrap, and the object is stored as expired. *)
Definition far_head : cache_response_head := mk_head 200 [(lit "Expires", lit "Fri, 31 Dec 9999 23:59:59 GMT")].
Lemma far_expires_wraps :
  (@lifetime sample_dates plain_rule 1704067200 far_head = Some 251698233599) /\
  exists obj, sample_metadata far_head = Some obj /\ expires_at_ obj < stored_at_ obj /\ retain_until_ obj < stored_at_ obj.
Proof.
  split; [vm_compute; reflexivity|]. exists (sample_result far_head).
  split; [vm_compute; reflexivity|]. split; vm_compute; reflexivity.
Qed.

(** * The refreshed head *)

Definition matching_fields (name : bytes) (headers : cache_headers) : cache_headers := List.filter (fun field => ascii_equal (fst field) name) headers.
Definition values (name : bytes) (headers : cache_headers) : list bytes := map snd (matching_fields name headers).

Lemma ascii_equal_refl a : ascii_equal a a = true.
Proof. by apply ascii_equal_spec. Qed.

Lemma ascii_equal_sym a b : ascii_equal a b = ascii_equal b a.
Proof. apply eq_true_iff_eq. rewrite !ascii_equal_spec. split; congruence. Qed.

Lemma ascii_equal_trans a b c : ascii_equal a b = true -> ascii_equal a c = ascii_equal b c.
Proof. rewrite ascii_equal_spec. intros Hab. apply eq_true_iff_eq. rewrite !ascii_equal_spec. by rewrite Hab. Qed.

Lemma matching_without m name headers :
  matching_fields name (without m headers) = if ascii_equal m name then [] else matching_fields name headers.
Proof.
  unfold matching_fields, without. induction headers as [|[key value] headers IH]; cbn [List.filter fst]; [by destruct (ascii_equal m name)|].
  destruct (ascii_equal key m) eqn:Em; cbn [negb List.filter fst].
  - rewrite IH. rewrite (ascii_equal_trans _ _ name Em). by destruct (ascii_equal m name).
  - destruct (ascii_equal m name) eqn:En; rewrite IH; [|done].
    destruct (ascii_equal key name) eqn:Ek; [|done]. rewrite ascii_equal_sym in En. rewrite (ascii_equal_trans _ _ m Ek) in Em. congruence.
Qed.

Lemma matching_app name a b : matching_fields name (a ++ b) = matching_fields name a ++ matching_fields name b.
Proof. apply List.filter_app. Qed.

Lemma merge_fields_values name previous validation headers merged :
  ascii_equal name (lit "ETag") = false ->
  merge_fields previous headers validation = Some merged ->
  values name merged = match last (values name validation) with Some value => [value] | None => values name headers end.
Proof.
  intros Hn. revert headers. induction validation as [|[key value] validation IH]; intros headers; cbn [merge_fields]; [by intros [= <-]|].
  unfold merge_field. cbv zeta. destruct (_ && (_ != _)); [done|]. cbn [fst snd]. intros Hm. rewrite (IH _ Hm). clear IH Hm.
  unfold values. cbn [matching_fields List.filter fst]. rewrite matching_app, matching_without. cbn [matching_fields List.filter fst].
  destruct (ascii_equal key name) eqn:Ek; cbn [map snd app].
  - assert (ascii_equal key (lit "ETag") = false) as -> by (by rewrite (ascii_equal_trans _ _ _ Ek)). cbn [andb].
    fold (matching_fields name validation). rewrite last_cons. by destruct (last _).
  - fold (matching_fields name validation). by rewrite app_nil_r.
Qed.

Lemma matching_dropped name headers :
  ascii_equal name (lit "Date") = false ->
  matching_fields name (List.filter (fun field => negb (ascii_equal (fst field) (lit "Date") || ascii_equal (fst field) (lit "Age"))) headers) =
    if ascii_equal name (lit "Age") then [] else matching_fields name headers.
Proof.
  intros Hd. unfold matching_fields. induction headers as [|[key value] headers IH]; cbn [List.filter fst]; [by destruct (ascii_equal name (lit "Age"))|].
  destruct (ascii_equal key name) eqn:Ek.
  - rewrite !(ascii_equal_trans _ _ _ Ek), Hd. cbn [orb]. destruct (ascii_equal name (lit "Age")); cbn [negb List.filter fst]; [exact IH|].
    by rewrite Ek, IH.
  - destruct (negb _); cbn [List.filter fst]; [rewrite Ek|]; exact IH.
Qed.

(** The head a 304 leaves. When a revalidation is accepted, the value of every field other than
    Date and ETag is the last one the 304 gives, and when it gives none, the stored ones, except that
    the old Age is dropped. *)
Theorem refreshed_head_values today previous validation headers name :
  refreshed_head today previous validation = Some headers ->
  ascii_equal name (lit "ETag") = false -> ascii_equal name (lit "Date") = false ->
  values name headers =
    match last (values name validation) with
    | Some value => [value]
    | None => if ascii_equal name (lit "Age") then [] else values name previous
    end.
Proof.
  unfold refreshed_head. cbv zeta. intros Hr He Hd. destruct (_ && _); [done|].
  destruct (merge_fields _ _ _) as [merged|] eqn:Em; [|done]. injection Hr as <-.
  assert (Hv : values name merged = match last (values name validation) with
    Some value => [value] | None => if ascii_equal name (lit "Age") then [] else values name previous end).
  { rewrite (merge_fields_values _ _ _ _ _ He Em). unfold values at 2. rewrite matching_dropped by done.
    by destruct (ascii_equal name (lit "Age")). }
  destruct (empty _); [|exact Hv]. unfold values at 1. rewrite matching_app.
  change (matching_fields name [_]) with (matching_fields name [(lit "Date", today)]).
  assert (matching_fields name [(lit "Date", today)] = []) as ->; [|rewrite app_nil_r; exact Hv].
  unfold matching_fields. change ((if ascii_equal (lit "Date") name then [(lit "Date", today)] else []) = []). by rewrite ascii_equal_sym, Hd.
Qed.

(** Only the last line of a field of the 304 counts: a no-store on an earlier line is lost, and the
    object stays in the cache although the 304 itself may not be stored. *)
Definition split_control : cache_headers := [(lit "Cache-Control", lit "no-store"); (lit "Cache-Control", lit "max-age=60")].
Lemma refreshed_head_drops_line :
  refreshed_head (lit "today") [(lit "ETag", lit "a")] split_control =
    Some [(lit "ETag", lit "a"); (lit "Cache-Control", lit "max-age=60"); (lit "Date", lit "today")] /\
  response_bypass_reason plain_rule (mk_head 200 split_control) false [] = lit "origin_no_store" /\
  response_bypass_reason plain_rule (mk_head 200 [(lit "ETag", lit "a"); (lit "Cache-Control", lit "max-age=60"); (lit "Date", lit "today")]) false [] = [].
Proof. split_and!; vm_compute; reflexivity. Qed.

Definition sample_previous : cache_headers := [(lit "Cache-Control", lit "max-age=5"); (lit "Age", lit "4"); (lit "X-Old", lit "1")].
Definition sample_refreshed : cache_headers := [(lit "X-Old", lit "1"); (lit "cache-control", lit "max-age=60"); (lit "Date", lit "today")].
Lemma refreshed_head_values_witness :
  values (lit "Cache-Control") sample_refreshed = [lit "max-age=60"] /\ values (lit "Age") sample_refreshed = [].
Proof.
  assert (Hr : refreshed_head (lit "today") sample_previous [(lit "cache-control", lit "max-age=60")] = Some sample_refreshed) by (vm_compute; reflexivity).
  split; [rewrite (refreshed_head_values _ _ _ _ (lit "Cache-Control") Hr)|rewrite (refreshed_head_values _ _ _ _ (lit "Age") Hr)]; vm_compute; reflexivity.
Defined.
