(* ===== verification/CacheFill.v ===== *)
(** Filling the cache: cache_fill, begin_fill and the first half of store in
    src/node/data/response_cache.h, with the capacity of a policy and the trim under pressure.

    A fill owns a lease of the worker's byte budget and a temporary file; what the disk answers is an
    argument, and a file is what was written to it. *)
From S2P Require Import Prelude RoutePolicy CacheSettings CachePolicy CacheKey CacheControl CacheRange BufferBudget ResponseCache CacheFreshness.
Open Scope Z_scope.

Abbreviation budget_store := BufferBudget.store.

(** * A fill *)

Record cache_fill := Fill {
  fill_head_ : cache_response_head; failure_reason_ : bytes; reservation_ : nat; fill_memory_ : bytes; temporary_ : option bytes; maximum_ : Z; memory_limit_ : Z;
  fill_body_bytes_ : Z; memory_required_ : bool; retain_memory_ : bool; active_ : bool }.
Definition new_fill (head : cache_response_head) (maximum memory_limit : Z) (memory_required : bool) (reservation : nat) : cache_fill :=
  Fill head [] reservation [] None maximum memory_limit 0 memory_required true true.

Definition with_reason (reason : bytes) (f : cache_fill) : cache_fill :=
  Fill (fill_head_ f) reason (reservation_ f) (fill_memory_ f) (temporary_ f) (maximum_ f) (memory_limit_ f) (fill_body_bytes_ f) (memory_required_ f) (retain_memory_ f) (active_ f).
Definition with_memory (memory : bytes) (retain : bool) (f : cache_fill) : cache_fill :=
  Fill (fill_head_ f) (failure_reason_ f) (reservation_ f) memory (temporary_ f) (maximum_ f) (memory_limit_ f) (fill_body_bytes_ f) (memory_required_ f) retain (active_ f).
Definition with_file (file : option bytes) (maximum : Z) (f : cache_fill) : cache_fill :=
  Fill (fill_head_ f) (failure_reason_ f) (reservation_ f) (fill_memory_ f) file maximum (memory_limit_ f) (fill_body_bytes_ f) (memory_required_ f) (retain_memory_ f) (active_ f).
Definition with_body_bytes (n : Z) (f : cache_fill) : cache_fill :=
  Fill (fill_head_ f) (failure_reason_ f) (reservation_ f) (fill_memory_ f) (temporary_ f) (maximum_ f) (memory_limit_ f) n (memory_required_ f) (retain_memory_ f) (active_ f).
Definition inactive (f : cache_fill) : cache_fill :=
  Fill (fill_head_ f) (failure_reason_ f) (reservation_ f) (fill_memory_ f) None (maximum_ f) (memory_limit_ f) (fill_body_bytes_ f) (memory_required_ f) (retain_memory_ f) false.

(** Assigning an empty lease gives back what the lease holds. *)
Definition drop_memory (s : budget_store) (f : cache_fill) : budget_store * cache_fill := (reset s (reservation_ f), with_memory [] false f).
(** The temporary file is closed and removed. *)
Definition discard_fill (s : budget_store) (f : cache_fill) : budget_store * cache_fill := drop_memory s (inactive f).
Definition fail_fill (reason : bytes) (s : budget_store) (f : cache_fill) : budget_store * cache_fill * bool := (discard_fill s (with_reason reason f), false).

(** The part of [append] that keeps the copy in memory; [allocated] is false when allocation throws. *)
Definition retain_bytes (s : budget_store) (f : cache_fill) (data : bytes) (allocated : bool) : budget_store * cache_fill :=
  if negb (retain_memory_ f) then (s, f)
  else if memory_limit_ f - Z.min (memory_limit_ f) (size (fill_memory_ f)) <? size data then drop_memory s f
  else
    let '(s, granted) := try_grow s (reservation_ f) (size data) in
    if granted && allocated then (s, with_memory (fill_memory_ f ++ data) true f) else drop_memory s f.
(** [written] is whether the disk took the bytes. *)
Definition append (s : budget_store) (f : cache_fill) (data : bytes) (written allocated : bool) : budget_store * cache_fill * bool :=
  if negb (active_ f) || (u64 (maximum_ f - fill_body_bytes_ f) <? size data) then
    fail_fill (if active_ f then lit "object_too_large" else lit "cache_write_failed") s f
  else if present (temporary_ f) && negb written then fail_fill (lit "cache_write_failed") s f
  else
    let f := with_file ((fun content => content ++ data) <$> temporary_ f) (maximum_ f) f in
    let '(s, f) := retain_bytes s f data allocated in
    if memory_required_ f && negb (retain_memory_ f) then fail_fill (lit "memory_limit") s f
    else (s, with_body_bytes (fill_body_bytes_ f + size data) f, true).

(** * Beginning a fill *)

(** What the disk answers: its free bytes ([None] is an error), whether the directories are there and no links, and whether the file opens. *)
Record disk_answer := DiskAnswer { space_available : option Z; directories_ready : bool; file_opens : bool }.
Definition open_file (policy : proto_policy) (disk : disk_answer) (f : cache_fill) : option cache_fill :=
  match space_available disk with
  | None => None
  | Some available =>
      let reserved := u64 (pb_disk_reserved_bytes policy) in
      if available <=? reserved then None
      else if directories_ready disk && file_opens disk then Some (with_file (Some []) (Z.min (maximum_ f) (available - reserved)) f)
      else None
  end.

Section Fill.
Context `{HttpDate}.

(** A reservation that is not kept ends with its owner. *)
Definition begin_fill (s : budget_store) (limits : capacity) (policy : proto_policy) (r : rule) (head : cache_response_head) (reservation : nat) (authorization : bool)
    (disk : disk_answer) : budget_store * option cache_fill :=
  if negb (empty (response_bypass_reason r head authorization [])) then (destroy s reservation, None)
  else
    let maximum := u64 (if rule_max_object_bytes_ r =? 0 then pb_max_object_bytes policy else rule_max_object_bytes_ r) in
    let f := new_fill head maximum (Z.min (memory_ limits) maximum) (pb_storage policy == lit "memory") reservation in
    match (if pb_storage policy != lit "memory" then open_file policy disk f else Some f) with
    | None => (destroy s reservation, None)
    | Some f =>
        if pb_storage policy == lit "disk" then let '(s, f) := drop_memory s f in (s, Some f) else (s, Some f)
    end.

(** * Capacity and pressure *)

(** [memory] and [disk] are the machine's resources, as far as they can be read. *)
Definition capacity_limits (policy : proto_policy) (memory disk : option cache_resource_capacity) (root : response_cache_snapshot) : capacity :=
  let used := usage (entries_ root) (pb_id policy) in
  let fixed_memory := u64 (pb_memory_bytes policy) in
  let fixed_disk := u64 (pb_disk_bytes policy) in
  mk_capacity
    (if negb (pb_memory_percent policy =? 0) || negb (pb_memory_reserved_bytes policy =? 0)
     then cache_capacity_limit memory (memory_ used) fixed_memory (u64 (pb_memory_percent policy)) (u64 (pb_memory_reserved_bytes policy)) else fixed_memory)
    (if negb (pb_disk_percent policy =? 0) || negb (pb_disk_reserved_bytes policy =? 0)
     then cache_capacity_limit disk (disk_ used) fixed_disk (u64 (pb_disk_percent policy)) (u64 (pb_disk_reserved_bytes policy)) else fixed_disk).

Abbreviation pressure_checks := (gmap bytes Z).
Definition trim_for_pressure (s : response_cache_snapshot) (checks : pressure_checks) (policy : proto_policy) (force : bool) (now : Z) (limits : response_cache_snapshot -> capacity) :
    response_cache_snapshot * pressure_checks :=
  if (pb_memory_percent policy =? 0) && (pb_disk_percent policy =? 0) && (pb_memory_reserved_bytes policy =? 0) && (pb_disk_reserved_bytes policy =? 0) then (s, checks)
  else
    let checks := if (512 <? base.size checks)%nat then ∅ else checks in
    let checked := default 0 (checks !! pb_id policy) in
    if negb force && (now - checked <? seconds 1) then (s, <[pb_id policy := checked]> checks)
    else (trim s (pb_id policy) now limits, <[pb_id policy := now]> checks).

(** * Storing what was filled *)

Definition part_refused (policy : proto_policy) (r : rule) (f : cache_fill) : bool :=
  (head_status_ (fill_head_ f) =? 206) &&
  match parse_origin_content_range (cache_header (head_headers_ (fill_head_ f)) (lit "Content-Range")) with
  | None => true
  | Some range =>
      let maximum := if rule_max_object_bytes_ r =? 0 then pb_max_object_bytes policy else rule_max_object_bytes_ r in
      (u64 maximum <? CacheRange.total_ range) || negb (fill_body_bytes_ f =? u64 (CacheRange.last_ range - first_ range + 1))
  end.
Definition coding_refused (ticket : cache_ticket) (r : rule) (f : cache_fill) : bool :=
  let content_encoding := cache_header (head_headers_ (fill_head_ f)) (lit "Content-Encoding") in
  negb (configured r (lit "etag") && match settings_ r with Some s => strong_etags_ s | None => false end) && negb (empty content_encoding) &&
  negb (ascii_equal content_encoding (lit "identity")) && negb (ascii_equal content_encoding (ticket_encoding_ ticket)).
(** A fresh object of the ticket. *)
Definition filled_object (ticket : cache_ticket) (f : cache_fill) : cached_response :=
  mk_response (ticket_website_ ticket) (ticket_policy_ ticket) (ticket_url_ ticket) [] [] None None 200 (fill_body_bytes_ f) 0 0 0 (ticket_website_epoch_ ticket)
    (ticket_policy_epoch_ ticket) 0 0 0 false 0 0 0.
Definition set_file (item : cached_response) (file : option bytes) : cached_response :=
  mk_response (website_id_ item) (ResponseCache.policy_id_ item) (ResponseCache.url_ item) (ResponseCache.headers_ item) (vary_ item) (body_ item) file
    (status_ item) (body_bytes_ item) (ResponseCache.bytes_ item) (sequence_ item) (identity_ item) (website_epoch_ item) (policy_epoch_ item)
    (stale_if_error_seconds_ item) (initial_age_ item) (ResponseCache.browser_ttl_seconds_ item) (ResponseCache.ignore_query_ item) (stored_at_ item)
    (expires_at_ item) (retain_until_ item).

(** The file of the object and its copy in memory. *)
Definition keeps_copy (limits : capacity) (policy : proto_policy) (f : cache_fill) (item : cached_response) : bool :=
  retain_memory_ f && ((pb_storage policy == lit "memory") || ((pb_storage policy == lit "tiered") && (ResponseCache.bytes_ item <=? memory_ limits))).
Definition place_object (limits : capacity) (policy : proto_policy) (f : cache_fill) (file : option bytes) (item : cached_response) : cached_response :=
  let item := if pb_storage policy != lit "memory" then set_file item file else item in
  if keeps_copy limits policy f item then set_body item (Some (fill_memory_ f)) else item.

(** The object a fill becomes, or why it does not; no reason leaves the fill's own. [file] is the name
    under which the temporary file is kept, when closing and renaming it succeed. *)
Inductive fill_decision := Refused (reason : option bytes) | Ready (item : cached_response).
Definition decide_store (wall now : Z) (limits : capacity) (ticket : cache_ticket) (policy : proto_policy) (r : rule) (f : cache_fill) (request : cache_headers)
    (file : option bytes) : fill_decision :=
  let storage := pb_storage policy in
  let reason := response_bypass_reason r (fill_head_ f) (cache_has_header request (lit "Authorization")) (ticket_url_ ticket) in
  if part_refused policy r f then Refused (Some (lit "object_size_limit"))
  else if negb (empty reason) then Refused (Some reason)
  else if negb (active_ f) || (fill_body_bytes_ f <? u64 (min_object_bytes_ r)) || coding_refused ticket r f then Refused None
  else match metadata wall now (filled_object ticket f) (fill_head_ f) r request (ticket_encoding_ ticket) with
  | None => Refused (Some (lit "origin_ttl"))
  | Some item =>
      let file := if present (temporary_ f) then file else None in
      if (storage != lit "memory") && negb (present file) then Refused None
      else if (storage == lit "memory") && (memory_ limits <? ResponseCache.bytes_ item) then Refused None
      else Ready (place_object limits policy f file item)
  end.

(** The fill after its file was renamed and its copy moved into the object. *)
Definition spent_fill (policy : proto_policy) (item : cached_response) (f : cache_fill) : cache_fill :=
  let f := if pb_storage policy != lit "memory" then with_file None (maximum_ f) f else f in
  if present (body_ item) then with_memory [] (retain_memory_ f) f else f.
(** [store] of one worker: its hits are flushed, the policy is trimmed, and the object takes the ticket's place. *)
Definition store_fill (s : response_cache_snapshot) (hits : touches) (checks : pressure_checks) (wall now : Z) (limits : response_cache_snapshot -> capacity)
    (ticket : cache_ticket) (policy : proto_policy) (r : rule) (f : cache_fill) (request : cache_headers) (file : option bytes) (persisted : bool) :
    response_cache_snapshot * cache_fill * bool :=
  let '(s, hits) := flush_touches s hits in
  let '(s, checks) := trim_for_pressure s checks policy true now limits in
  match decide_store wall now (limits s) ticket policy r f request file with
  | Refused reason => (abandon s ticket, match reason with Some reason => with_reason reason f | None => f end, false)
  | Ready item => let '(s, stored) := ResponseCache.store s ticket (pb_id policy) limits item persisted in (s, spent_fill policy item f, stored)
  end.
End Fill.

(** * A fill keeps exactly what it was given *)

Section FillTheory.

Fixpoint append_all (s : budget_store) (f : cache_fill) (chunks : list (bytes * bool * bool)) : budget_store * cache_fill * bool :=
  match chunks with
  | [] => (s, f, true)
  | (data, written, allocated) :: chunks =>
      let '(s, f, ok) := append s f data written allocated in
      if ok then append_all s f chunks else (s, f, false)
  end.
Definition chunk_data (chunks : list (bytes * bool * bool)) : bytes := concat (map (fun chunk => chunk.1.1) chunks).

(** A fill that gave everything back. *)
Definition released (s : budget_store) (f : cache_fill) : Prop :=
  active_ f = false /\ fill_memory_ f = [] /\ retain_memory_ f = false /\ temporary_ f = None /\ leases s !! reservation_ f = Some (mk_lease None 0).
(** The copy in memory: whole and paid for, or given up. *)
Definition memory_kept (b : nat) (s : budget_store) (f : cache_fill) (data : bytes) : Prop :=
  if retain_memory_ f
  then fill_memory_ f = data /\ size data <= memory_limit_ f /\ leases s !! reservation_ f = Some (mk_lease (Some b) (size data))
  else fill_memory_ f = [] /\ leases s !! reservation_ f = Some (mk_lease None 0) /\ memory_required_ f = false.
Record filling (b : nat) (s : budget_store) (f : cache_fill) (data : bytes) : Prop := {
  filling_active : active_ f = true;
  filling_size : fill_body_bytes_ f = size data;
  filling_max : size data <= maximum_ f < two64;
  filling_file : forall content, temporary_ f = Some content -> content = data;
  filling_memory : memory_kept b s f data }.
Definition filling_start (f f' : cache_fill) (chunk data : bytes) : Prop :=
  active_ f' = active_ f /\ fill_body_bytes_ f' = fill_body_bytes_ f /\ temporary_ f' = (fun content => content ++ chunk) <$> temporary_ f.
(** What an append does not change. *)
Definition same_fill (f f' : cache_fill) : Prop :=
  fill_head_ f' = fill_head_ f /\ reservation_ f' = reservation_ f /\ maximum_ f' = maximum_ f /\ memory_limit_ f' = memory_limit_ f /\ memory_required_ f' = memory_required_ f /\
  (active_ f' = true -> present (temporary_ f') = present (temporary_ f)).

Lemma try_grow_lease s id b n bytes : accounted s -> is_u64 bytes -> leases s !! id = Some (mk_lease (Some b) n) ->
  let '(s', granted) := try_grow s id bytes in accounted s' /\ leases s' !! id = Some (mk_lease (Some b) (if granted then n + bytes else n)).
Proof.
  intros Hs Hb Hid. pose proof (try_grow_accounted s id bytes Hs Hb) as Hacc. destruct (acc_lease s Hs id _ Hid) as [Hn [v Hv]]. cbn [budget_ BufferBudget.bytes_] in *.
  destruct (acc_bound s Hs b v Hv) as [Hu Hmax]. pose proof (lease_le_used s id _ b v Hs Hid eq_refl Hv) as Hle. cbn [BufferBudget.bytes_] in Hle.
  unfold try_grow in *. rewrite Hid, Hv in *. destruct (reserve v bytes) as [v' []] eqn:Er; (split; [exact Hacc|]); cbn [leases set_lease set_budget].
  - apply reserve_granted in Er as (E1 & E2 & E3); [|done..]. rewrite lookup_insert_eq, u64_small; [done|]. unfold is_u64 in *. lia.
  - done.
Qed.
Lemma reset_lease s id : accounted s -> is_Some (leases s !! id) -> accounted (reset s id) /\ leases (reset s id) !! id = Some (mk_lease None 0).
Proof. intros Hs Hid. destruct (reset_accounted s id Hs Hid) as (Ha & -> & _). by rewrite lookup_insert_eq. Qed.

Lemma memory_lease b s f data : memory_kept b s f data -> is_Some (leases s !! reservation_ f).
Proof. unfold memory_kept. destruct (retain_memory_ f); intros Hm; destruct Hm as (? & ? & ?); eauto. Qed.
Lemma fail_released reason s f b data : accounted s -> memory_kept b s f data -> let '(s', f', ok) := fail_fill reason s f in
  accounted s' /\ ok = false /\ same_fill f f' /\ released s' f' /\ failure_reason_ f' = reason.
Proof.
  intros Hs Hm. cbn. destruct (reset_lease s (reservation_ f) Hs) as [Ha Hl]; [by apply (memory_lease b s f data)|]. split; [done|]. split; [done|].
  split; [by unfold same_fill|]. by split.
Qed.

Lemma retain_bytes_spec b s f data chunk allocated : accounted s -> is_u64 (size chunk) -> memory_kept b s f data ->
  (memory_required_ f = true -> retain_memory_ f = true) ->
  let '(s', f') := retain_bytes s f chunk allocated in accounted s' /\
    (f' = f /\ s' = s /\ retain_memory_ f = false \/ f' = with_memory [] false f /\ leases s' !! reservation_ f = Some (mk_lease None 0) \/
     f' = with_memory (data ++ chunk) true f /\ memory_kept b s' f' (data ++ chunk)).
Proof.
  intros Hs Hb Hm Hreq. unfold retain_bytes. destruct (retain_memory_ f) eqn:Er; cbn [negb]; [|split; [done|by left]].
  pose proof (memory_lease b s f data Hm) as Hlease. unfold memory_kept in Hm. rewrite Er in Hm. destruct Hm as (Hmem & Hlimit & Hl).
  destruct (Z.ltb_spec (memory_limit_ f - Z.min (memory_limit_ f) (size (fill_memory_ f))) (size chunk)) as [|Hfit].
  - destruct (reset_lease s (reservation_ f) Hs Hlease) as [Ha Hn]. split; [done|]. right. by left.
  - pose proof (try_grow_lease s (reservation_ f) b (size data) (size chunk) Hs Hb Hl) as Hg. destruct (try_grow s (reservation_ f) (size chunk)) as [s1 granted]. destruct Hg as [Ha Hl1].
    destruct (granted && allocated) eqn:Eg.
    + apply andb_true_iff in Eg as [-> _]. split; [done|]. right. right. rewrite Hmem in *. split; [done|]. unfold memory_kept. cbn.
      unfold size in *. rewrite length_app. split; [done|]. split; [lia|]. rewrite Hl1. f_equal. f_equal. lia.
    + destruct (reset_lease s1 (reservation_ f) Ha) as [Ha2 Hn]; [by rewrite Hl1|]. split; [done|]. right. by left.
Qed.

Lemma append_spec b s f data chunk written allocated : accounted s -> is_u64 (size chunk) -> filling b s f data ->
  let '(s', f', ok) := append s f chunk written allocated in accounted s' /\ same_fill f f' /\
    if ok then filling b s' f' (data ++ chunk) else released s' f' /\ failure_reason_ f' <> [].
Proof.
  intros Hs Hb Hf. destruct Hf as [Hact Hsize Hmax Hfile Hmem]. unfold append. rewrite Hact. cbn [negb orb].
  rewrite u64_small by (unfold is_u64; rewrite Hsize; unfold size in *; lia).
  destruct (Z.ltb_spec (maximum_ f - fill_body_bytes_ f) (size chunk)) as [|Hfits].
  { pose proof (fail_released (lit "object_too_large") s f b data Hs Hmem) as Hfail. destruct (fail_fill _ s f) as [[s' f'] ok]. destruct Hfail as (? & -> & ? & ? & ->). done. }
  destruct (present (temporary_ f) && negb written).
  { pose proof (fail_released (lit "cache_write_failed") s f b data Hs Hmem) as Hfail. destruct (fail_fill _ s f) as [[s' f'] ok]. destruct Hfail as (? & -> & ? & ? & ->). done. }
  cbv zeta. set (f1 := with_file ((fun content => content ++ chunk) <$> temporary_ f) (maximum_ f) f).
  assert (Hsame : same_fill f f1) by (unfold same_fill, f1; cbn; by destruct (temporary_ f)).
  assert (Hkept : memory_kept b s f1 data) by exact Hmem.
  assert (Hreq : memory_required_ f1 = true -> retain_memory_ f1 = true) by (unfold memory_kept in Hkept; destruct (retain_memory_ f1); [done|]; by intros E; rewrite E in Hkept; destruct Hkept as (_ & _ & ?)).
  pose proof (retain_bytes_spec b s f1 data chunk allocated Hs Hb Hkept Hreq) as Hr. destruct (retain_bytes s f1 chunk allocated) as [s2 f2]. destruct Hr as [Ha2 Hr].
  assert (Hnow : same_fill f f2 /\ filling_start f f2 chunk data /\ (memory_required_ f2 && negb (retain_memory_ f2) = false -> memory_kept b s2 f2 (data ++ chunk)) /\ is_Some (leases s2 !! reservation_ f2)).
  { destruct Hr as [(-> & -> & Hretain)|[(-> & Hl)|(-> & Hm)]].
    - split; [done|]. split; [done|]. split; [|by apply (memory_lease b s f1 data)]. intros _. unfold memory_kept in *. by rewrite Hretain in *.
    - split; [done|]. split; [done|]. split; [|by eexists]. intros Hq. unfold memory_kept. cbn in *. split; [done|]. split; [done|]. by rewrite andb_true_r in Hq.
    - split; [done|]. split; [done|]. split; [done|]. by apply (memory_lease b _ _ (data ++ chunk)). }
  destruct Hnow as (Hsame2 & (Hact2 & Hbytes2 & Hfile2) & Hk2 & Hlease2). destruct (memory_required_ f2 && negb (retain_memory_ f2)) eqn:Eq.
  - cbn. destruct (reset_lease s2 (reservation_ f2) Ha2 Hlease2) as [Ha Hl]. split; [done|]. split; [|by split]. destruct Hsame2 as (? & ? & ? & ? & ? & ?). by unfold same_fill.
  - split; [done|]. split; [exact Hsame2|]. destruct Hsame2 as (_ & _ & Emax & _). split; cbn.
    + congruence.
    + rewrite Hbytes2, Hsize. unfold size. rewrite length_app. lia.
    + rewrite Emax. unfold size in *. rewrite length_app. lia.
    + rewrite Hfile2. intros content (old & Ho & ->)%fmap_Some_1. by rewrite (Hfile old Ho).
    + by apply Hk2.
Qed.

Lemma same_fill_trans f g h : same_fill f g -> same_fill g h -> (active_ h = true -> active_ g = true) -> same_fill f h.
Proof. unfold same_fill. intros (A1 & A2 & A3 & A4 & A5 & A6) (B1 & B2 & B3 & B4 & B5 & B6) Hact. split_and!; try congruence. intros Hh. rewrite (B6 Hh). auto. Qed.

Lemma append_all_spec b chunks : forall s f data, accounted s -> Forall (fun chunk => is_u64 (size chunk.1.1)) chunks -> filling b s f data ->
  let '(s', f', ok) := append_all s f chunks in accounted s' /\ same_fill f f' /\
    if ok then filling b s' f' (data ++ chunk_data chunks) else released s' f' /\ failure_reason_ f' <> [].
Proof.
  induction chunks as [|[[chunk written] allocated] chunks IH]; intros s f data Hs Hc Hf; cbn [append_all]; [unfold chunk_data; cbn; by rewrite app_nil_r|].
  inversion Hc as [|? ? Hchunk Hrest]; subst. cbn [fst] in Hchunk. pose proof (append_spec b s f data chunk written allocated Hs Hchunk Hf) as Ha.
  destruct (append s f chunk written allocated) as [[s1 f1] ok]. destruct Ha as (Ha & Hsame & Hok). destruct ok; [|done].
  specialize (IH s1 f1 (data ++ chunk) Ha Hrest Hok). destruct (append_all s1 f1 chunks) as [[s2 f2] ok]. destruct IH as (Ha2 & Hsame2 & Hok2).
  split; [done|]. split; [apply (same_fill_trans f f1 f2 Hsame Hsame2); intros _; apply Hok|]. unfold chunk_data in *. cbn [map concat fst]. by rewrite app_assoc.
Qed.
End FillTheory.

Section Store.
Context `{HttpDate}.

(** A fill that begins holds nothing, for a response the rule stores, within what the rule, the
    policy and the disk allow. *)
Lemma begin_fill_spec s limits policy r head reservation authorization disk b s' f : accounted s -> leases s !! reservation = Some (mk_lease (Some b) 0) -> 0 <= memory_ limits ->
  begin_fill s limits policy r head reservation authorization disk = (s', Some f) ->
  accounted s' /\ filling b s' f [] /\ fill_head_ f = head /\ memory_required_ f = (pb_storage policy == lit "memory") /\ memory_limit_ f <= memory_ limits /\
  response_bypass_reason r head authorization [] = [] /\
  maximum_ f <= u64 (if rule_max_object_bytes_ r =? 0 then pb_max_object_bytes policy else rule_max_object_bytes_ r) /\
  present (temporary_ f) = (pb_storage policy != lit "memory") /\ (pb_storage policy = lit "disk" -> retain_memory_ f = false).
Proof.
  intros Hs Hl Hlimit. unfold begin_fill. destruct (response_bypass_reason r head authorization []) as [|] eqn:Er; [|done]. cbn [empty negb]. cbv zeta.
  set (maximum := u64 _). assert (0 <= maximum < two64) as Hm by apply u64_range. clearbody maximum.
  set (f0 := new_fill head maximum _ _ reservation).
  assert (Hopened : forall f1, (if pb_storage policy != lit "memory" then open_file policy disk f0 else Some f0) = Some f1 ->
    filling b s f1 [] /\ fill_head_ f1 = head /\ memory_required_ f1 = (pb_storage policy == lit "memory") /\ memory_limit_ f1 = Z.min (memory_ limits) maximum /\
    maximum_ f1 <= maximum /\ present (temporary_ f1) = (pb_storage policy != lit "memory") /\ retain_memory_ f1 = true /\ reservation_ f1 = reservation).
  { intros f1 Hf1. assert (Hkept : memory_kept b s f0 []) by (unfold memory_kept; cbn; split; [done|]; split; [unfold size; cbn; lia|done]).
    destruct (pb_storage policy != lit "memory") eqn:Est.
    - unfold open_file in Hf1. destruct (space_available disk) as [available|]; [|done]. destruct (Z.leb_spec available (u64 (pb_disk_reserved_bytes policy))) as [|Hlt]; [done|].
      destruct (directories_ready disk && file_opens disk); [|done]. injection Hf1 as <-. cbn. split_and!; try done; [|lia].
      split; cbn; [done|done|unfold size; cbn; lia|by intros content [= <-]|exact Hkept].
    - injection Hf1 as <-. cbn. by split_and!. }
  destruct (if pb_storage policy != lit "memory" then open_file policy disk f0 else Some f0) as [f1|]; [|done].
  destruct (Hopened f1 eq_refl) as (Hf & Hh & Hq & Hml & Hmx & Ht & Hrt & Hres). destruct (pb_storage policy == lit "disk") eqn:Ed.
  - cbn. intros [= <- <-]. destruct (reset_lease s (reservation_ f1) Hs) as [Ha Hn]; [by rewrite Hres, Hl|]. cbn. split_and!; try done; [|lia].
    destruct Hf as [H1' H2' H3' H4' H5']. split; cbn; try done. unfold memory_kept. cbn. split; [done|]. split; [done|]. rewrite Hq. reflect_bool. by rewrite Ed.
  - intros [= <- <-]. split_and!; try done; [lia|]. intros E. reflect_bool. by rewrite E in Ed.
Qed.

Lemma metadata_keeps wall now item head r request encoding obj : metadata wall now item head r request encoding = Some obj ->
  website_id_ obj = website_id_ item /\ ResponseCache.policy_id_ obj = ResponseCache.policy_id_ item /\ ResponseCache.url_ obj = ResponseCache.url_ item /\
  website_epoch_ obj = website_epoch_ item /\ policy_epoch_ obj = policy_epoch_ item /\ body_bytes_ obj = body_bytes_ item /\ body_ obj = body_ item /\ file_ obj = file_ item /\
  status_ obj = head_status_ head.
Proof.
  unfold metadata. cbv zeta. destruct (negb _); [done|]. destruct (initial_age _ _ _); [|done]. destruct (lifetime _ _ _); [|done].
  destruct (_ || _); [done|]. destruct (vary_fields _ _ _ _); [|done]. by intros [= <-].
Qed.

(** C22. Whatever arrives in whatever pieces, whatever the disk and the allocator answer: as long as a
    fill goes on, its file and its copy in memory are exactly the bytes it was given, they are no
    more than the object limit, and its lease holds exactly the copy; a fill that fails has removed
    its file and given every byte of its lease back, and says why. *)
Theorem fill_exact s limits policy r head reservation authorization disk b s1 f0 chunks : accounted s -> leases s !! reservation = Some (mk_lease (Some b) 0) -> 0 <= memory_ limits ->
  Forall (fun chunk => is_u64 (size chunk.1.1)) chunks -> begin_fill s limits policy r head reservation authorization disk = (s1, Some f0) ->
  let data := chunk_data chunks in
  let '(s2, f, ok) := append_all s1 f0 chunks in
  accounted s2 /\
  if ok then
    active_ f = true /\ fill_body_bytes_ f = size data /\ size data <= u64 (if rule_max_object_bytes_ r =? 0 then pb_max_object_bytes policy else rule_max_object_bytes_ r) /\
    temporary_ f = (if pb_storage policy != lit "memory" then Some data else None) /\
    (if retain_memory_ f then fill_memory_ f = data /\ size data <= memory_ limits /\ leases s2 !! reservation_ f = Some (mk_lease (Some b) (size data))
     else pb_storage policy <> lit "memory" /\ fill_memory_ f = [] /\ leases s2 !! reservation_ f = Some (mk_lease None 0))
  else released s2 f /\ failure_reason_ f <> [].
Proof.
  intros Hs Hl Hlimit Hc Hbegin data. destruct (begin_fill_spec _ _ _ _ _ _ _ _ b _ _ Hs Hl Hlimit Hbegin) as (Ha & Hf & _ & Hreq & Hml & _ & Hmax & Ht & _).
  pose proof (append_all_spec b chunks s1 f0 [] Ha Hc Hf) as Hall. destruct (append_all s1 f0 chunks) as [[s2 f] ok]. destruct Hall as (Ha2 & Hsame & Hok).
  split; [done|]. destruct ok; [|done]. cbn [app] in Hok. fold data in Hok. destruct Hok as [Hact Hsize Hm Hfile Hmem]. destruct Hsame as (_ & _ & Emax & Elimit & Ereq & Epres).
  split; [done|]. split; [done|]. split; [lia|]. split.
  - specialize (Epres Hact). rewrite Ht in Epres. destruct (temporary_ f) as [content|]; cbn [present] in Epres; rewrite <- Epres; [by rewrite (Hfile content eq_refl)|done].
  - unfold memory_kept in Hmem. destruct (retain_memory_ f); [destruct Hmem as (? & ? & ?); split_and!; try done; lia|].
    destruct Hmem as (? & ? & Hq). split_and!; try done. rewrite Ereq, Hreq in Hq. by reflect_bool.
Qed.

(** What an object made of [data] is. *)
Record object_complete (limits : capacity) (ticket : cache_ticket) (policy : proto_policy) (r : rule) (head : cache_response_head) (request : cache_headers) (data : bytes)
    (item : cached_response) : Prop := {
  complete_bytes : body_bytes_ item = size data /\ u64 (min_object_bytes_ r) <= size data <= u64 (if rule_max_object_bytes_ r =? 0 then pb_max_object_bytes policy else rule_max_object_bytes_ r);
  complete_body : forall body, body_ item = Some body -> body = data;
  complete_place : body_ item = Some data \/ is_Some (file_ item);
  complete_memory : pb_storage policy = lit "memory" -> body_ item = Some data /\ file_ item = None /\ ResponseCache.bytes_ item <= memory_ limits;
  complete_disk : pb_storage policy = lit "disk" -> body_ item = None;
  complete_allowed : response_bypass_reason r head (cache_has_header request (lit "Authorization")) (ticket_url_ ticket) = [] /\ status_ item = head_status_ head;
  complete_part : head_status_ head = 206 -> exists range, parse_origin_content_range (cache_header (head_headers_ head) (lit "Content-Range")) = Some range /\
    size data = u64 (CacheRange.last_ range - first_ range + 1);
  complete_owner : website_id_ item = ticket_website_ ticket /\ ResponseCache.policy_id_ item = ticket_policy_ ticket /\ ResponseCache.url_ item = ticket_url_ ticket /\
    website_epoch_ item = ticket_website_epoch_ ticket /\ policy_epoch_ item = ticket_policy_epoch_ ticket }.

Lemma decide_store_ready wall now limits ticket policy r f request file item : decide_store wall now limits ticket policy r f request file = Ready item ->
  let named := if present (temporary_ f) then file else None in
  exists obj, item = place_object limits policy f named obj /\ metadata wall now (filled_object ticket f) (fill_head_ f) r request (ticket_encoding_ ticket) = Some obj /\
    part_refused policy r f = false /\ response_bypass_reason r (fill_head_ f) (cache_has_header request (lit "Authorization")) (ticket_url_ ticket) = [] /\
    u64 (min_object_bytes_ r) <= fill_body_bytes_ f /\ (pb_storage policy <> lit "memory" -> is_Some named) /\ (pb_storage policy = lit "memory" -> ResponseCache.bytes_ obj <= memory_ limits).
Proof.
  unfold decide_store. cbv zeta. destruct (part_refused policy r f); [done|]. destruct (response_bypass_reason _ _ _ _); [|done]. cbn [empty negb].
  destruct (active_ f); [|done]. cbn [negb orb]. destruct (Z.ltb_spec (fill_body_bytes_ f) (u64 (min_object_bytes_ r))); [done|]. cbn [orb]. destruct (coding_refused ticket r f); [done|].
  destruct (metadata _ _ _ _ _ _ _) as [obj|]; [|done]. set (named := if present (temporary_ f) then file else None).
  destruct (pb_storage policy == lit "memory") eqn:Es; cbn [negb andb].
  - destruct (Z.ltb_spec (memory_ limits) (ResponseCache.bytes_ obj)); [done|]. intros [= <-]. exists obj. reflect_bool. by split_and!.
  - destruct named as [name|]; [|done]. cbn [present negb]. intros [= <-]. exists obj. reflect_bool. split_and!; try done.
Qed.
Lemma place_object_spec limits policy f named obj : let item := place_object limits policy f named obj in let kept := keeps_copy limits policy f obj in
  body_ item = (if kept then Some (fill_memory_ f) else body_ obj) /\ file_ item = (if pb_storage policy != lit "memory" then named else file_ obj) /\
  body_bytes_ item = body_bytes_ obj /\ ResponseCache.bytes_ item = ResponseCache.bytes_ obj /\ status_ item = status_ obj /\
  (website_id_ item = website_id_ obj /\ ResponseCache.policy_id_ item = ResponseCache.policy_id_ obj /\ ResponseCache.url_ item = ResponseCache.url_ obj /\
   website_epoch_ item = website_epoch_ obj /\ policy_epoch_ item = policy_epoch_ obj).
Proof.
  unfold place_object. cbv zeta. destruct (pb_storage policy != lit "memory");
    (change (keeps_copy limits policy f (set_file obj named)) with (keeps_copy limits policy f obj) || idtac); by destruct (keeps_copy limits policy f obj).
Qed.
Lemma part_size policy r f : part_refused policy r f = false -> head_status_ (fill_head_ f) = 206 ->
  exists range, parse_origin_content_range (cache_header (head_headers_ (fill_head_ f)) (lit "Content-Range")) = Some range /\ fill_body_bytes_ f = u64 (CacheRange.last_ range - first_ range + 1).
Proof.
  unfold part_refused. intros Ep E. rewrite E in Ep. cbn [Z.eqb Pos.eqb andb] in Ep. destruct (parse_origin_content_range _) as [range|]; [|done].
  exists range. split; [done|]. cbv zeta in Ep. apply orb_false_iff in Ep as [_ Ep]. reflect_bool. lia.
Qed.

End Store.

(** * Witnesses *)

Definition fill_budgets : budget_store := BufferBudget.perform (mk_store (new_budget <$> ({[ 0%nat := 100 ]} : gmap nat Z)) ∅) (Lease 0 7).
Lemma fill_budgets_ok : accounted fill_budgets /\ leases fill_budgets !! 7%nat = Some (mk_lease (Some 0%nat) 0).
Proof.
  split; [|done]. apply (reachable_accounted {[ 0%nat := 100 ]}).
  - intros b m E. apply lookup_singleton_Some in E as [_ <-]. by unfold is_u64.
  - apply reach_step; [apply reach_init|]. split; [by eexists|done].
Qed.
Definition fill_policy : proto_policy := to_proto (mk_policy (lit "p") 1 true (lit "tiered") 1000 1000 0 0 0 0 500 (lit "cache") []).
Definition fill_disk : disk_answer := DiskAnswer (Some 4096) true true.
Definition fill_head : cache_response_head := mk_head 200 [(lit "Content-Type", lit "text/css"); (lit "Cache-Control", lit "max-age=60")].
Definition fill_chunks : list (bytes * bool * bool) := [(lit "body", true, true); (lit "{}", true, true)].
Definition fill_ticket : cache_ticket := mk_ticket (lit "k") (lit "w") (lit "p") (lit "https://a/x.css") (lit "identity") 1 0 0.
Definition begun : budget_store * option cache_fill := begin_fill fill_budgets (mk_capacity 1000 1000) fill_policy plain_rule fill_head 7 false fill_disk.
Lemma fill_chunks_ok : Forall (fun chunk : bytes * bool * bool => is_u64 (size chunk.1.1)) fill_chunks.
Proof. by apply (bool_decide_unpack _). Qed.
(** The disk is full at the second chunk. *)
Definition cut_chunks : list (bytes * bool * bool) := [(lit "body", true, true); (lit "{}", false, true)].
Lemma cut_chunks_ok : Forall (fun chunk : bytes * bool * bool => is_u64 (size chunk.1.1)) cut_chunks.
Proof. by apply (bool_decide_unpack _). Qed.

Lemma fill_exact_witness :
  match begun with
  | (s1, Some f0) =>
      let '(s2, f, ok) := append_all s1 f0 fill_chunks in ok = true /\ temporary_ f = Some (lit "body{}") /\ fill_memory_ f = lit "body{}" /\
        leases s2 !! 7%nat = Some (mk_lease (Some 0%nat) 6) /\
      let '(s3, f, ok) := append_all s1 f0 cut_chunks in ok = false /\ temporary_ f = None /\ leases s3 !! 7%nat = Some (mk_lease None 0)
  | _ => False
  end.
Proof.
  destruct begun as [s1 [f0|]] eqn:Eb; [|by vm_compute in Eb]. destruct fill_budgets_ok as [Ha Hl].
  pose proof (fill_exact fill_budgets (mk_capacity 1000 1000) _ _ _ _ _ _ 0 s1 f0 fill_chunks Ha Hl ltac:(done) fill_chunks_ok Eb) as Hw.
  pose proof (fill_exact fill_budgets (mk_capacity 1000 1000) _ _ _ _ _ _ 0 s1 f0 cut_chunks Ha Hl ltac:(done) cut_chunks_ok Eb) as Hw'.
  cbv zeta in Hw, Hw'. destruct (append_all s1 f0 fill_chunks) as [[s2 f] ok] eqn:E. destruct (append_all s1 f0 cut_chunks) as [[s3 f'] ok'] eqn:E'.
  unfold begun in Eb. vm_compute in Eb. injection Eb as <- <-. vm_compute in E. injection E as <- <- <-. vm_compute in E'. injection E' as <- <- <-.
  destruct Hw as (_ & _ & _ & _ & Ht & Hm & _ & Hlease). destruct Hw' as (_ & (_ & _ & _ & Ht' & Hlease') & _). done.
Defined.

