(* ===== verification/CacheDisk.v ===== *)
(** Objects on the disk: the metadata file a published object leaves and the object a restart reads
    back (src/node/data/response_cache.h: response_cache_publication::persist and restore).

    The text of a file, the size of the body file (none when it can not be read) and whether that is a
    symbolic link are arguments, as are the two clocks: wall-clock seconds and steady-clock nanoseconds. *)
From S2P Require Import Prelude RoutePolicy CacheSettings CachePolicy CacheUrl CacheKey CacheControl CacheRecord ResponseCache CacheFreshness.
Open Scope Z_scope.

(** [duration_cast<seconds>] of the time from now to a point: towards zero. *)
Definition seconds_until (now point : Z) : Z := Z.quot (point - now) 1000000000.

(** The record [persist] writes. *)
Definition disk_record (wall now : Z) (key : bytes) (item : cached_response) : cache_disk_record :=
  let age := initial_age_ item + Z.quot (now - stored_at_ item) 1000000000 in
  mk_record key (website_id_ item) (ResponseCache.policy_id_ item) (ResponseCache.url_ item) (ResponseCache.headers_ item) (ResponseCache.vary_ item)
    [identity_ item; sequence_ item; body_bytes_ item; status_ item; u64 (Z.max 0 age); u64 wall;
     u64 (wall + seconds_until now (expires_at_ item)); u64 (wall + seconds_until now (retain_until_ item));
     u64 (ResponseCache.browser_ttl_seconds_ item); u64 (stale_if_error_seconds_ item);
     if ResponseCache.ignore_query_ item then 1 else 0; website_epoch_ item; policy_epoch_ item].

Definition value (record : cache_disk_record) (index : nat) : Z := nth index (values_ record) 0.
Definition maximum_metadata : Z := 1048576.
Definition latest_time : Z := 4102444800.
Definition u64_max : Z := 18446744073709551615.

(** The bounds on a record that do not depend on the root. *)
Definition record_refused (wall : Z) (record : cache_disk_record) : bool :=
  empty (website_ record) || empty (policy_ record) || (16384 <? size (key_ record)) ||
  (maximum_object_bytes <? value record 2) || (value record 3 <? 200) || (599 <? value record 3) ||
  (value record 7 <=? u64 wall) || (16 <? size (CacheRecord.vary_ record)) ||
  (31536000 <? value record 4) || (latest_time <? value record 5) || (latest_time <? value record 6) || (latest_time <? value record 7) ||
  ((31536000 <? value record 8) && (value record 8 <? u64_max - 1)) || (31536000 <? value record 9) ||
  (128 <? size (website_ record)) || (128 <? size (policy_ record)) || (8192 <? size (CacheRecord.url_ record)).

Definition header_refused (field : bytes * bytes) : bool :=
  negb (http_token (fst field) 256) || present (find_first_of [chr 13; chr 10; chr 0] (snd field)).

(** The object of an accepted record; [body] is its file. *)
Definition restored_item (wall now : Z) (body : bytes) (record : cache_disk_record) : cached_response :=
  mk_response (website_ record) (policy_ record) (CacheRecord.url_ record) (CacheRecord.headers_ record) (CacheRecord.vary_ record)
    None (Some body) (value record 3) (value record 2) (object_bytes (value record 2) (CacheRecord.headers_ record))
    (value record 1) (value record 0) (value record 11) (value record 12) (value record 9)
    (value record 4 + Z.max 0 (wall - value record 5))
    (if value record 8 =? u64_max then -1 else if value record 8 =? u64_max - 1 then -2 else value record 8)
    (negb (value record 10 =? 0)) now
    (plus_seconds now (value record 6 - wall)) (plus_seconds now (value record 7 - wall)).

(** [root.epochs_[key]]: reading an epoch enters it. *)
Definition enter_epoch (s : response_cache_snapshot) (key : bytes) : response_cache_snapshot :=
  mk_snapshot (entries_ s) (<[key := epoch s key]> (epochs_ s)) (filling_ s) (commands_ s) (root_sequence_ s).

(** [restore] with the outcome: [false] when the two files are deleted. *)
Definition restore (wall now : Z) (body : bytes) (text : bytes) (body_size : option Z) (symlink : bool) (root : response_cache_snapshot) :
    response_cache_snapshot * bool :=
  if (maximum_metadata <? size text) || symlink then (root, false)
  else match CacheRecord.read text with
       | None => (root, false)
       | Some record =>
           if record_refused wall record then (root, false)
           else
             let root := enter_epoch root (website_key (website_ record)) in
             if negb (value record 11 =? epoch root (website_key (website_ record))) then (root, false)
             else
               let root := enter_epoch root (policy_key (policy_ record)) in
               if negb (value record 12 =? epoch root (policy_key (policy_ record))) || negb (bool_decide (body_size = Some (value record 2))) ||
                  existsb header_refused (CacheRecord.headers_ record) then (root, false)
               else
                 let item := restored_item wall now body record in
                 (mk_snapshot (<[key_ record := entries_of root (key_ record) ++ [item]]> (entries_ root)) (epochs_ root) (filling_ root)
                    (commands_ root) (Z.max (root_sequence_ root) (sequence_ item)), true)
       end.

(** * Epochs are read, not changed *)

Lemma enter_epoch_same s key k : epoch (enter_epoch s key) k = epoch s k.
Proof.
  unfold epoch, enter_epoch. cbn. destruct (decide (key = k)) as [->|Hne]; [by rewrite lookup_insert_eq|by rewrite lookup_insert_ne].
Qed.

Lemma read_ok text record : CacheRecord.read text = Some record -> record_ok record.
Proof.
  unfold CacheRecord.read. destruct (read_record text) as [[r [|c rest]]|] eqn:E; intros [= <-]. by apply record_written in E as [_ ?].
Qed.

Lemma read_write record : record_ok record -> CacheRecord.read (write record) = Some record.
Proof. intros Hok. unfold CacheRecord.read. rewrite <- (app_nil_r (write record)). by rewrite (reads_record record Hok). Qed.

(** * What an accepted record guarantees *)

Lemma record_refused_false wall record : record_refused wall record = false ->
  website_ record <> [] /\ policy_ record <> [] /\ value record 2 <= maximum_object_bytes /\ 200 <= value record 3 <= 599 /\
  u64 wall < value record 7 <= latest_time /\ size (CacheRecord.vary_ record) <= 16 /\ value record 4 <= 31536000 /\
  value record 6 <= latest_time /\ value record 9 <= 31536000 /\
  (value record 8 <= 31536000 \/ u64_max - 1 <= value record 8).
Proof.
  unfold record_refused. rewrite !orb_false_iff, andb_false_iff, !Z.ltb_ge, !Z.leb_gt.
  intros ((((((((((((((((Hw & Hp) & ?) & ?) & ?) & ?) & ?) & ?) & ?) & ?) & ?) & ?) & ?) & ?) & ?) & ?) & ?).
  split_and!; try lia; intros E; rewrite E in *; done.
Qed.

Lemma value_range record index : record_ok record -> is_u64 (value record index).
Proof.
  intros (_ & _ & _ & _ & Hu). unfold value. unfold u64_list in Hu. revert index.
  induction Hu as [|v l Hv _ IH]; intros [|index]; cbn [nth]; try done; unfold is_u64, two64; lia.
Qed.

Lemma restore_inv wall now body text body_size symlink root root' :
  restore wall now body text body_size symlink root = (root', true) ->
  exists record, CacheRecord.read text = Some record /\ record_refused wall record = false /\
    value record 11 = epoch root (website_key (website_ record)) /\ value record 12 = epoch root (policy_key (policy_ record)) /\
    body_size = Some (value record 2) /\ existsb header_refused (CacheRecord.headers_ record) = false /\ symlink = false /\
    entries_ root' = <[key_ record := entries_of root (key_ record) ++ [restored_item wall now body record]]> (entries_ root) /\
    (forall key, epoch root' key = epoch root key) /\ filling_ root' = filling_ root /\ commands_ root' = commands_ root /\
    root_sequence_ root' = Z.max (root_sequence_ root) (value record 1).
Proof.
  unfold restore. destruct (_ || symlink) eqn:Es; [done|]. apply orb_false_iff in Es as [_ ->].
  destruct (CacheRecord.read text) as [record|]; [|done]. destruct (record_refused wall record) eqn:Er; [done|]. cbv zeta.
  destruct (negb _) eqn:Ew; [done|]. apply negb_false_iff, Z.eqb_eq in Ew. rewrite enter_epoch_same in Ew.
  destruct (_ || _) eqn:Ep; [done|]. intros [= <-]. rewrite !orb_false_iff, !negb_false_iff in Ep. destruct Ep as [[Ep Eb] Eh].
  apply Z.eqb_eq in Ep. rewrite !enter_epoch_same in Ep. apply bool_decide_eq_true in Eb. exists record. split_and!; try done.
  intros key. change (epoch (enter_epoch (enter_epoch root (website_key (website_ record))) (policy_key (policy_ record))) key = epoch root key).
  by rewrite !enter_epoch_same.
Qed.

Lemma restore_refused wall now body text body_size symlink root root' :
  restore wall now body text body_size symlink root = (root', false) ->
  entries_ root' = entries_ root /\ (forall key, epoch root' key = epoch root key) /\ root_sequence_ root' = root_sequence_ root.
Proof.
  unfold restore. destruct (_ || symlink); [by intros [= <-]|]. destruct (CacheRecord.read text) as [record|]; [|by intros [= <-]].
  destruct (record_refused wall record); [by intros [= <-]|]. cbv zeta.
  destruct (negb _); [intros [= <-]|destruct (_ || _); [intros [= <-]|done]]; split_and!; try done; intros key; by rewrite !enter_epoch_same.
Qed.

(** No file on the disk can bring an invalidated or malformed object back. Whatever its bytes are,
    a metadata file either changes no object and no epoch, or it adds one object, after those of its
    key, that carries the current epochs of its website and its policy, is bounded (its body, its
    status, its age at rest), has header fields that can be sent, is not past its retention, and is
    counted by the root's sequence. *)
Theorem restore_sound wall now body text body_size symlink root :
  0 <= wall <= latest_time -> 0 <= now <= 2305843009213693952 ->
  let '(root', kept) := restore wall now body text body_size symlink root in
  (forall key, epoch root' key = epoch root key) /\
  if kept then
    exists key item, entries_ root' = <[key := entries_of root key ++ [item]]> (entries_ root) /\
      website_epoch_ item = epoch root (website_key (website_id_ item)) /\
      policy_epoch_ item = epoch root (policy_key (ResponseCache.policy_id_ item)) /\
      0 <= body_bytes_ item <= maximum_object_bytes /\ body_bytes_ item + 256 <= bytes_ item /\ body_size = Some (body_bytes_ item) /\
      200 <= status_ item <= 599 /\ -2 <= ResponseCache.browser_ttl_seconds_ item <= 31536000 /\ now < retain_until_ item /\
      Forall (fun field => header_refused field = false) (ResponseCache.headers_ item) /\ sequence_ item <= root_sequence_ root'
  else entries_ root' = entries_ root.
Proof.
  intros Hwall Hnow. destruct (restore _ _ _ _ _ _ _) as [root' [|]] eqn:E; cycle 1.
  { by destruct (restore_refused _ _ _ _ _ _ _ _ E) as (? & ? & _). }
  destruct (restore_inv _ _ _ _ _ _ _ _ E) as (record & Hread & Href & Hw & Hp & Hb & Hh & _ & Hent & Hep & _ & _ & Hseq). split; [done|].
  pose proof (read_ok _ _ Hread) as Hok. pose proof (value_range record 2 Hok) as H2. pose proof (value_range record 8 Hok) as H8.
  pose proof (value_range record 7 Hok) as H7. unfold is_u64 in *.
  destruct (record_refused_false _ _ Href) as (_ & _ & Hbody & Hstatus & Hretain & _ & _ & _ & _ & Hbrowser).
  rewrite u64_small in Hretain by (unfold is_u64, two64, latest_time in *; lia). unfold latest_time in *.
  exists (key_ record), (restored_item wall now body record). split; [done|]. cbn. split_and!; try done; try lia.
  - apply object_bytes_ge.
  - repeat case_match; unfold u64_max, two64 in *; lia.
  - repeat case_match; unfold u64_max, two64 in *; lia.
  - rewrite plus_seconds_exact by (unfold near, short; lia). lia.
  - by apply existsb_false.
Qed.

(** * Surviving a restart *)

(** What the cache knows of an object it persists at a wall-clock time: the bounds of its fields and
    times that an object with a file has, and files that are not too large. *)
Record persistable (wall now : Z) (key : bytes) (item : cached_response) : Prop := {
  p_key : size key <= 16384;
  p_website : website_id_ item <> [] /\ size (website_id_ item) <= 128;
  p_policy : ResponseCache.policy_id_ item <> [] /\ size (ResponseCache.policy_id_ item) <= 128;
  p_url : size (ResponseCache.url_ item) <= 8192;
  p_headers : Forall (fun field => header_refused field = false) (ResponseCache.headers_ item) /\ size (ResponseCache.headers_ item) <= 256;
  p_vary : size (ResponseCache.vary_ item) <= 16;
  p_text : size (write (disk_record wall now key item)) <= maximum_metadata;
  p_counters : is_u64 (identity_ item) /\ is_u64 (sequence_ item) /\ is_u64 (website_epoch_ item) /\ is_u64 (policy_epoch_ item);
  p_body : 0 <= body_bytes_ item <= maximum_object_bytes /\ bytes_ item = object_bytes (body_bytes_ item) (ResponseCache.headers_ item);
  p_status : 200 <= status_ item <= 599;
  p_browser : -2 <= ResponseCache.browser_ttl_seconds_ item <= 31536000;
  p_stale : 0 <= stale_if_error_seconds_ item <= 31536000;
  p_wall : 0 <= wall <= latest_time;
  p_age : 0 <= initial_age_ item /\ stored_at_ item <= now /\ initial_age_ item + Z.quot (now - stored_at_ item) 1000000000 <= 31536000;
  p_expires : 0 <= wall + seconds_until now (expires_at_ item) <= latest_time;
  p_retain : 0 <= wall + seconds_until now (retain_until_ item) <= latest_time
}.

(** The same object, apart from its recency, its age, its times and where its body is. *)
Definition same_object (a b : cached_response) : Prop :=
  website_id_ a = website_id_ b /\ ResponseCache.policy_id_ a = ResponseCache.policy_id_ b /\ ResponseCache.url_ a = ResponseCache.url_ b /\
  ResponseCache.headers_ a = ResponseCache.headers_ b /\ ResponseCache.vary_ a = ResponseCache.vary_ b /\ status_ a = status_ b /\
  body_bytes_ a = body_bytes_ b /\ bytes_ a = bytes_ b /\ sequence_ a = sequence_ b /\ identity_ a = identity_ b /\
  website_epoch_ a = website_epoch_ b /\ policy_epoch_ a = policy_epoch_ b /\ stale_if_error_seconds_ a = stale_if_error_seconds_ b /\
  ResponseCache.browser_ttl_seconds_ a = ResponseCache.browser_ttl_seconds_ b /\ ResponseCache.ignore_query_ a = ResponseCache.ignore_query_ b.


Lemma write_number_size n : size (write_number n) = 8.
Proof. done. Qed.

Lemma write_field_size f : size (write_field f) = 16 + field_size f.
Proof. unfold write_field, write_string, field_size. rewrite !size_app, !write_number_size. lia. Qed.

Lemma write_fields_size l : 8 + fields_size l <= size (write_fields l).
Proof.
  unfold write_fields. rewrite size_app, write_number_size. apply Z.add_le_mono_l. induction l as [|f l IH]; [done|].
  cbn [map concat]. rewrite size_app, write_field_size. cbn [fields_size fold_right]. fold (fields_size l). lia.
Qed.

Lemma write_size r : text_size r <= size (write r).
Proof.
  unfold write, text_size, write_string. rewrite !size_app, !write_number_size.
  pose proof (write_fields_size (CacheRecord.headers_ r)). pose proof (write_fields_size (CacheRecord.vary_ r)).
  assert (0 <= size (concat (map write_number (values_ r)))) by (unfold size; lia). assert (0 <= size magic) by (unfold size; lia). lia.
Qed.

Lemma disk_record_ok wall now key item : persistable wall now key item -> record_ok (disk_record wall now key item).
Proof.
  intros Hp. destruct Hp as [? ? ? ? [_ Hh] Hv Ht (Hi & Hs & Hw & Hpo) [Hb _] Hst ? ? ? ? ? ?].
  split; [|split; [|split; [|split]]].
  - pose proof (write_size (disk_record wall now key item)). unfold maximum_text, maximum_metadata in *. lia.
  - exact Hh.
  - cbn. unfold maximum_fields. lia.
  - done.
  - unfold u64_list, disk_record. cbn [values_]. unfold maximum_object_bytes in *.
    repeat (apply Forall_cons; split; [try apply u64_range; try done; unfold is_u64, two64; try lia|]); [|constructor].
    destruct (ResponseCache.ignore_query_ item); lia.
Qed.

Lemma browser_roundtrip ttl : -2 <= ttl <= 31536000 ->
  (if u64 ttl =? u64_max then -1 else if u64 ttl =? u64_max - 1 then -2 else u64 ttl) = ttl /\
  (u64 ttl <= 31536000 \/ u64_max - 1 <= u64 ttl).
Proof.
  intros Ht. destruct (decide (ttl = -1)) as [->|H1]; [by split; [|right]|]. destruct (decide (ttl = -2)) as [->|H2]; [by split; [|right]|].
  rewrite u64_small by (unfold is_u64, two64; lia). split; [|lia]. unfold u64_max.
  destruct (ttl =? 18446744073709551615) eqn:E1; [lia|]. destruct (ttl =? 18446744073709551615 - 1) eqn:E2; lia.
Qed.

Lemma small_time z : 0 <= z <= latest_time -> u64 z = z.
Proof. intros Hz. apply u64_small. unfold is_u64, two64, latest_time in *. lia. Qed.

Lemma disk_record_accepted wall now key item wall2 :
  persistable wall now key item -> 0 <= wall2 < wall + seconds_until now (retain_until_ item) ->
  record_refused wall2 (disk_record wall now key item) = false.
Proof.
  intros [Hkey [Hw Hws] [Hp Hps] Hurl _ Hvary _ _ [Hb _] Hst Hbr Hstale Hwall Hage Hexp Hret] Hw2.
  destruct (browser_roundtrip _ Hbr) as [_ Hbrowser]. unfold record_refused, value, disk_record.
  cbn [nth values_ website_ policy_ key_ CacheRecord.vary_ CacheRecord.url_].
  rewrite !small_time by (unfold latest_time in *; lia). rewrite (small_time (stale_if_error_seconds_ item)) by (unfold latest_time; lia).
  rewrite !orb_false_iff, andb_false_iff, !Z.ltb_ge, !Z.leb_gt. unfold latest_time in *.
  assert (empty (website_id_ item) = false) by (by destruct (website_id_ item)).
  assert (empty (ResponseCache.policy_id_ item) = false) by (by destruct (ResponseCache.policy_id_ item)).
  split_and!; try done; try lia.
Qed.

(** C39. An object with a file survives a restart. Restoring the metadata that was written for it, before
    its retention has passed and while no invalidation has touched its website or policy, succeeds
    and gives back the same object under the same key, with its identity and its recency; its age has
    grown by the time that passed, and it has not gained any freshness: what was left of its
    lifetime is shortened by at least the wall-clock time between the two. *)
Theorem restart_roundtrip wall now key item wall2 now2 body root :
  persistable wall now key item ->
  wall <= wall2 < wall + seconds_until now (retain_until_ item) -> 0 <= now2 <= 2305843009213693952 ->
  epoch root (website_key (website_id_ item)) = website_epoch_ item -> epoch root (policy_key (ResponseCache.policy_id_ item)) = policy_epoch_ item ->
  let '(root', kept) := restore wall2 now2 body (write (disk_record wall now key item)) (Some (body_bytes_ item)) false root in
  kept = true /\ exists item', entries_ root' = <[key := entries_of root key ++ [item']]> (entries_ root) /\ same_object item' item /\
    file_ item' = Some body /\
    initial_age_ item' = initial_age_ item + Z.quot (now - stored_at_ item) 1000000000 + (wall2 - wall) /\
    (now <= expires_at_ item -> expires_at_ item' - now2 <= (expires_at_ item - now) - (wall2 - wall) * 1000000000).
Proof.
  intros Hp Hw2 Hn2 Hew Hep. pose proof (disk_record_ok _ _ _ _ Hp) as Hok. pose proof Hp as [_ _ _ _ [Hh _] _ Ht _ [_ Hbytes] _ Hbr Hstale Hwall Hage Hexp Hret].
  unfold restore. rewrite (proj2 (Z.ltb_ge _ _)) by done. cbn [orb]. rewrite read_write by done.
  rewrite (disk_record_accepted _ _ _ _ wall2 Hp) by lia. cbv zeta. rewrite !enter_epoch_same.
  change (website_ (disk_record wall now key item)) with (website_id_ item). change (policy_ (disk_record wall now key item)) with (ResponseCache.policy_id_ item).
  change (value (disk_record wall now key item) 11) with (website_epoch_ item). change (value (disk_record wall now key item) 12) with (policy_epoch_ item).
  change (value (disk_record wall now key item) 2) with (body_bytes_ item).
  change (CacheRecord.headers_ (disk_record wall now key item)) with (ResponseCache.headers_ item).
  rewrite Hew, Hep, !Z.eqb_refl. cbn [negb orb]. rewrite bool_decide_eq_true_2 by done. cbn [negb orb].
  rewrite (proj2 (existsb_false _ _)) by done. split; [done|].
  exists (restored_item wall2 now2 body (disk_record wall now key item)). split; [done|].
  destruct (browser_roundtrip _ Hbr) as [Hbrowser _].
  assert (Z.quot (now - stored_at_ item) 1000000000 >= 0) by (apply Z.le_ge, Z.quot_pos; lia).
  split; [|split; [done|split]].
  - unfold same_object, restored_item, value, disk_record. cbn -[u64 u64_max object_bytes Z.sub Z.quot]. rewrite Hbrowser.
    rewrite (u64_small (stale_if_error_seconds_ item)) by (unfold is_u64, two64; lia). split_and!; try done. by destruct (ResponseCache.ignore_query_ item).
  - unfold restored_item, value, disk_record. cbn -[u64 Z.sub Z.quot Z.max]. rewrite (small_time wall) by done.
    rewrite u64_small by (unfold is_u64, two64; lia). lia.
  - intros Hfresh. unfold restored_item, value, disk_record. cbn -[u64 Z.sub Z.quot Z.max plus_seconds seconds_until]. rewrite small_time by done.
    unfold latest_time in *. rewrite plus_seconds_exact by (unfold near, short; lia).
    unfold seconds_until. rewrite Z.quot_div_nonneg by lia. pose proof (Z.mul_div_le (expires_at_ item - now) 1000000000). lia.
Qed.

(** * A concrete file *)

Definition disk_item : cached_response :=
  mk_response (lit "site") (lit "policy") (lit "https://a/x") [(lit "etag", lit "v1")] [(lit "accept-encoding", lit "gzip")] None (Some (lit "f"))
    200 7 269 12 9 3 4 60 5 (-1) true (seconds 990) (seconds 1060) (seconds 1360).
Definition disk_root : response_cache_snapshot :=
  mk_snapshot ∅ (<[website_key (lit "site") := 3]> {[ policy_key (lit "policy") := 4 ]}) ∅ ∅ 0.
Definition disk_text : bytes := write (disk_record 1704067200 (seconds 1000) (lit "key") disk_item).
Definition restored (text : bytes) : response_cache_snapshot * bool :=
  restore 1704067210 (seconds 2) (lit "g") text (Some 7) false disk_root.

Lemma restart_roundtrip_witness :
  snd (restored disk_text) = true /\ map expires_at_ (entries_of (fst (restored disk_text)) (lit "key")) = [seconds 52].
Proof.
  assert (Hp : persistable 1704067200 (seconds 1000) (lit "key") disk_item).
  { split; try (by_decision || (split; by_decision)); repeat split; try by_decision; vm_compute; congruence. }
  split; [|vm_compute; reflexivity].
  pose proof (restart_roundtrip 1704067200 (seconds 1000) (lit "key") disk_item 1704067210 (seconds 2) (lit "g") disk_root Hp) as Hr.
  change (body_bytes_ disk_item) with 7 in Hr. fold disk_text in Hr. fold (restored disk_text) in Hr.
  destruct (restored disk_text) as [root' kept]. destruct Hr as [Hk _]; [| | | |exact Hk].
  - split; [by_decision|vm_compute; reflexivity].
  - split; by_decision.
  - vm_compute; reflexivity.
  - vm_compute; reflexivity.
Defined.

Lemma restore_sound_witness : epoch (fst (restored disk_text)) (website_key (lit "site")) = 3.
Proof.
  pose proof (restore_sound 1704067210 (seconds 2) (lit "g") disk_text (Some 7) false disk_root) as Hr. fold (restored disk_text) in Hr.
  destruct (restored disk_text) as [root' kept]. destruct Hr as [He _]; [split; by_decision|split; by_decision|].
  cbn [fst]. rewrite He. vm_compute; reflexivity.
Defined.
