(* ===== verification/Utf8.v ===== *)
(** UTF-8 text of the management service: src/service/utils/utf8.h, and the bounded texts of
    src/service/features/sync_runtime/attempt_record.h and error.h.

    A loop over the positions of a text is a recursion on what is left of it; what it reads beyond
    the end of the text it does not read, since a sequence is only looked at when it fits. *)
From S2P Require Import Prelude.
Open Scope Z_scope.

(** * utf8.h *)

Definition continuation (lower upper : Z) (c : ascii) : bool := negb ((code c <? lower) || (upper <? code c)).
(** The later bytes of a sequence: the first of them within [lower, upper]. *)
Definition sequence_tail (lower upper : Z) (tail : bytes) : bool :=
  match tail with
  | [] => true
  | first :: others => continuation lower upper first && forallb (continuation 128 191) others
  end.

(** The length a first byte announces and the bounds of the second byte; 0 for no first byte. *)
Definition sequence_bounds (lead : Z) : nat * Z * Z :=
  if lead <? 128 then (1%nat, 128, 191)
  else if (194 <=? lead) && (lead <=? 223) then (2%nat, 128, 191)
  else if (224 <=? lead) && (lead <=? 239) then (3%nat, if lead =? 224 then 160 else 128, if lead =? 237 then 159 else 191)
  else if (240 <=? lead) && (lead <=? 244) then (4%nat, if lead =? 240 then 144 else 128, if lead =? 244 then 143 else 191)
  else (0%nat, 128, 191).

Definition utf8_sequence_length (value : bytes) : nat :=
  match value with
  | [] => 0%nat
  | c :: rest =>
      let '(length, lower, upper) := sequence_bounds (code c) in
      if (length <=? 1)%nat then length
      else if size value <? Z.of_nat length then 0%nat
      else if sequence_tail lower upper (take (length - 1) rest) then length else 0%nat
  end.

(** A byte that continues a character: [(c & 0xC0) == 0x80]. *)
Definition continues (c : ascii) : bool := Z.land (code c) 192 =? 128.

(** The loop that steps back from [size] to the start of a character. *)
Fixpoint step_back (value : bytes) (size : nat) : nat :=
  match size with
  | O => O
  | S size' => if continues (nth size value zero) then step_back value size' else size
  end.

Definition truncate_utf8 (value : bytes) (limit : nat) : bytes * bool :=
  if size value <=? Z.of_nat limit then (value, false)
  else (take (step_back value limit) value, true).

Definition control (c : ascii) : bool := (code c <? 32) || (code c =? 127).

(** The loops over a text by sequences; [fuel] bounds the positions. *)
Fixpoint valid_text_loop (fuel : nat) (value : bytes) : bool :=
  match fuel, value with
  | S fuel, c :: _ =>
      let length := utf8_sequence_length value in
      if (length =? 0)%nat then false
      else if (length =? 1)%nat && (code c <? 32) && (c != chr 10) && (c != chr 13) && (c != chr 9) then false
      else valid_text_loop fuel (drop length value)
  | _, _ => true
  end.
Definition valid_utf8_text (value : bytes) : bool := valid_text_loop (length value) value.

Definition sanitized_character (multiline : bool) (c : ascii) : bytes :=
  if c == chr 13 then if multiline then [] else lit " "
  else if multiline && ((c == chr 10) || (c == chr 9)) then [c] else lit " ".
Fixpoint sanitized_loop (fuel : nat) (multiline : bool) (value : bytes) : bytes :=
  match fuel, value with
  | S fuel, c :: rest =>
      let length := utf8_sequence_length value in
      if (length =? 0)%nat then sanitized_loop fuel multiline rest
      else (if (length =? 1)%nat && control c then sanitized_character multiline c else take length value) ++
           sanitized_loop fuel multiline (drop length value)
  | _, _ => []
  end.
Definition sanitized_utf8 (value : bytes) (multiline : bool) : bytes := sanitized_loop (length value) multiline value.

(** * The texts of an attempt *)

Definition detail_max_bytes : Z := 16384.
Definition detail_text_bytes : Z := 256.
Definition detail_none_json : bytes := lit "{" ++ [chr 34] ++ lit "kind" ++ [chr 34] ++ lit ":" ++ [chr 34] ++ lit "none" ++ [chr 34] ++
  lit "," ++ [chr 34] ++ lit "truncated" ++ [chr 34] ++ lit ":false}".
Definition detail_dropped_json : bytes := lit "{" ++ [chr 34] ++ lit "kind" ++ [chr 34] ++ lit ":" ++ [chr 34] ++ lit "none" ++ [chr 34] ++
  lit "," ++ [chr 34] ++ lit "truncated" ++ [chr 34] ++ lit ":true}".

(** [bounded_detail_text]: the text and whether anything was cut. *)
Fixpoint detail_loop (fuel : nat) (value result : bytes) (cut : bool) (limit : Z) : bytes * bool :=
  match fuel, value with
  | S fuel, c :: rest =>
      let length := utf8_sequence_length value in
      if (length =? 0)%nat then detail_loop fuel rest result true limit
      else if limit <? size result + Z.of_nat length then (result, true)
      else detail_loop fuel (drop length value)
             (result ++ (if (length =? 1)%nat && control c then lit " " else take length value)) cut limit
  | _, _ => (result, cut)
  end.
Definition bounded_detail_text (value : bytes) (cut : bool) (limit : Z) : bytes * bool := detail_loop (length value) value [] cut limit.

(** ruvia's JSON objects are not part of the repository: what [accepted_detail] reads of one is the
    text of [kind] and the value of [truncated], when they are a string and a boolean. *)
Class JsonDetail := parse_detail : bytes -> option (option bytes * option bool).

Fixpoint all_sequences (fuel : nat) (value : bytes) : bool :=
  match fuel, value with
  | S fuel, _ :: _ => let length := utf8_sequence_length value in if (length =? 0)%nat then false else all_sequences fuel (drop length value)
  | _, _ => true
  end.
Definition accepted_detail `{JsonDetail} (detail : bytes) : bytes :=
  if (detail_max_bytes <? size detail) || present (find_sub (chr 92 :: lit "u0000") detail) then detail_dropped_json
  else if negb (all_sequences (length detail) detail) then detail_dropped_json
  else match parse_detail detail with
       | None => detail_dropped_json
       | Some (kind, truncated) =>
           if match kind with None => true | Some kind => empty kind end || negb (present truncated) then detail_dropped_json else detail
       end.

Definition max_error_message_length : nat := 1000.
Definition bounded_error (value : bytes) : bytes :=
  if size value <=? Z.of_nat max_error_message_length then value
  else take (step_back value max_error_message_length) value.

(** * Sequences *)

(** One encoded character. *)
Definition sequence (s : bytes) : Prop := s <> [] /\ utf8_sequence_length s = length s.
(** Well-formed text: a concatenation of encoded characters. *)
Definition text (s : bytes) : Prop := exists characters, Forall sequence characters /\ s = concat characters.

Lemma continuation_continues lower upper c : 128 <= lower -> upper <= 191 -> continuation lower upper c = true -> continues c = true.
Proof.
  intros Hl Hu. unfold continuation. intros Hc. reflect_bool. revert Hl Hu H H0. revert c.
  assert (Hall : forallb (fun c => negb ((128 <=? code c) && (code c <=? 191)) || continues c) all_chars = true) by by vm_compute.
  intros c Hl Hu Hlo Hhi. rewrite forallb_forall in Hall. specialize (Hall c (all_chars_complete c)). apply orb_true_iff in Hall as [Hn|]; [|done].
  apply negb_true_iff, andb_false_iff in Hn. rewrite !Z.leb_gt in Hn. lia.
Qed.

Lemma tail_continues lower upper t : 128 <= lower -> upper <= 191 -> sequence_tail lower upper t = true -> forallb continues t = true.
Proof.
  intros Hl Hu. destruct t as [|c t]; [done|]. cbn [sequence_tail forallb]. intros [Hc Ht]%andb_true_iff.
  rewrite (continuation_continues _ _ _ Hl Hu Hc). revert Ht. induction t as [|d t IH]; [done|]. cbn [forallb].
  intros [Hd Ht]%andb_true_iff. rewrite (continuation_continues 128 191 d) by (done || lia). by apply IH.
Qed.

(** What a first byte determines, by evaluation on all of them. *)
Lemma bounds_spec c : let '(length, lower, upper) := sequence_bounds (code c) in
  length = 0%nat \/ continues c = false /\ 128 <= lower /\ upper <= 191.
Proof.
  assert (Hall : forallb (fun c => let '(length, lower, upper) := sequence_bounds (code c) in
    (length =? 0)%nat || (negb (continues c) && (128 <=? lower) && (upper <=? 191))) all_chars = true) by by vm_compute.
  rewrite forallb_forall in Hall. specialize (Hall c (all_chars_complete c)). destruct (sequence_bounds (code c)) as [[len lo] hi].
  apply orb_true_iff in Hall as [Hl|Hl]; [left; by apply Nat.eqb_eq|right]. by reflect_bool.
Qed.

(** What a positive length says of the text: it depends on the sequence only. *)
Lemma sequence_length_spec value n : utf8_sequence_length value = S n ->
  exists c tail rest, value = c :: tail ++ rest /\ length tail = n /\ forallb continues tail = true /\ continues c = false /\
    forall rest', utf8_sequence_length (c :: tail ++ rest') = S n.
Proof.
  destruct value as [|c v]; [done|]. unfold utf8_sequence_length. pose proof (bounds_spec c) as Hb.
  destruct (sequence_bounds (code c)) as [[len lower] upper] eqn:Eb. intros Hn.
  assert (len = S n /\ n <= length v /\ sequence_tail lower upper (take n v) = true)%nat as (-> & Hv & Ht).
  { revert Hn. destruct (Nat.leb_spec len 1) as [Hle|Hle].
    - intros ->. assert (n = 0%nat) as -> by lia. split_and!; [done|lia|]. by rewrite take_0.
    - destruct (Z.ltb_spec (size (c :: v)) (Z.of_nat len)) as [|Hs]; [done|]. destruct (sequence_tail _ _ _) eqn:Et; [|done]. intros ->.
      unfold size in Hs. cbn [length] in Hs. replace (S n - 1)%nat with n in Et by lia. split_and!; [done|lia|done]. }
  destruct Hb as [|(Hc & Hlo & Hhi)]; [done|]. exists c, (take n v), (drop n v). rewrite take_drop.
  assert (Hlen : length (take n v) = n) by (rewrite length_take; lia).
  split_and!; [done..|by eapply tail_continues|done|]. intros rest'. rewrite Eb.
  destruct (Nat.leb_spec (S n) 1) as [Hle|Hle]; [done|]. replace (S n - 1)%nat with n by lia.
  destruct (Z.ltb_spec (size (c :: take n v ++ rest')) (Z.of_nat (S n))) as [Hs|_].
  { unfold size in Hs. cbn [length] in Hs. rewrite length_app in Hs. lia. }
  rewrite <- Hlen at 1. rewrite take_app_length. by rewrite Ht.
Qed.

Lemma sequence_split value n : utf8_sequence_length value = S n ->
  sequence (take (S n) value) /\ value = take (S n) value ++ drop (S n) value /\ length (take (S n) value) = S n.
Proof.
  intros Hn. destruct (sequence_length_spec _ _ Hn) as (c & tail & rest & -> & Hl & _ & _ & Hall). rewrite take_drop.
  assert (Ht : take (S n) (c :: tail ++ rest) = c :: tail) by (cbn [take]; by rewrite <- Hl, take_app_length).
  rewrite Ht. split_and!; [split; [done|]|done|by rewrite <- Hl]. specialize (Hall []). rewrite app_nil_r in Hall. by rewrite Hall, <- Hl.
Qed.

Lemma sequence_inv s : sequence s -> exists c tail, s = c :: tail /\ continues c = false /\ forallb continues tail = true /\
  forall rest, utf8_sequence_length (s ++ rest) = length s.
Proof.
  intros [Hs Hn]. destruct s as [|c0 t0]; [done|]. destruct (sequence_length_spec (c0 :: t0) (length t0) Hn) as (c & tail & rest & Heq & Hl & Ht & Hc & Hall).
  assert (rest = []) as ->. { apply (f_equal length) in Heq. cbn [length] in Heq. rewrite length_app in Heq. destruct rest; [done|]. cbn [length] in Heq. lia. }
  rewrite app_nil_r in Heq. injection Heq as -> ->. exists c, tail. split_and!; done.
Qed.

Lemma text_nil : text [].
Proof. by exists []. Qed.
Lemma text_cons s v : sequence s -> text v -> text (s ++ v).
Proof. intros Hs (l & Hl & ->). exists (s :: l). split; [by constructor|done]. Qed.
Lemma text_app a b : text a -> text b -> text (a ++ b).
Proof. intros (la & Ha & ->) (lb & Hb & ->). exists (la ++ lb). rewrite concat_app. split; [by apply Forall_app|done]. Qed.
Lemma text_one c : code c < 128 -> text [c].
Proof.
  intros Hc. exists [[c]]. split; [|done]. constructor; [|done]. split; [done|]. unfold utf8_sequence_length, sequence_bounds.
  by destruct (Z.ltb_spec (code c) 128); [|lia].
Qed.
#[export] Hint Resolve text_nil text_app : flexedge.

(** The loop that walks a text by sequences decides well-formedness. *)
Lemma all_sequences_spec fuel value : (length value <= fuel)%nat -> all_sequences fuel value = true <-> text value.
Proof.
  revert value. induction fuel as [|fuel IH]; intros [|c v] Hf; cbn [length] in Hf; try lia; cbn [all_sequences].
  { split; [intros _; apply text_nil|done]. }
  { split; [intros _; apply text_nil|done]. }
  destruct (utf8_sequence_length (c :: v)) as [|n] eqn:E; cbn [Nat.eqb].
  { split; [done|]. intros ([|s l] & Hl & Heq); [done|]. apply Forall_cons in Hl as [Hs _]. cbn [concat] in Heq. rewrite Heq in E.
    destruct (sequence_inv _ Hs) as (c0 & t & -> & _ & _ & Hrest). rewrite Hrest in E. done. }
  destruct (sequence_split _ _ E) as (Hs & Heq & Hlen). rewrite IH; [|rewrite length_drop; cbn [length]; lia]. split.
  { intros Ht. rewrite Heq. by apply text_cons. }
  intros ([|s l] & Hl & Heq'); [done|]. apply Forall_cons in Hl as [Hs' Hl]. cbn [concat] in Heq'.
  destruct (sequence_inv _ Hs') as (c0 & t & Hc0 & _ & _ & Hrest). rewrite Heq' in E |- *. rewrite Hrest in E. rewrite <- E, drop_app_length.
  by exists l.
Qed.

(** * Truncation *)

Lemma step_back_app s v k : sequence s -> (v <> [] \/ k = 0%nat) ->
  (forall c t, v = c :: t -> continues c = false) ->
  step_back (s ++ v) (length s + k) = (length s + step_back v k)%nat.
Proof.
  intros Hs Hv Hfirst. destruct (sequence_inv _ Hs) as (c & t & -> & Hc & Ht & _). induction k as [|k IH].
  - rewrite Nat.add_0_r. cbn [step_back]. rewrite Nat.add_0_r. cbn [length step_back].
    destruct v as [|d v]; [rewrite app_nil_r, nth_overflow by (cbn [length]; lia); done|].
    rewrite app_nth2 by (cbn [length]; lia). cbn [length]. rewrite Nat.sub_diag. cbn [nth]. by rewrite (Hfirst d v).
  - destruct Hv as [Hv|]; [|done]. replace (length (c :: t) + S k)%nat with (S (length (c :: t) + k)) by lia.
    cbn [step_back]. rewrite app_nth2 by lia.
    replace (S (length (c :: t) + k) - length (c :: t))%nat with (S k) by lia. destruct (continues (nth (S k) v zero)); [|by rewrite Nat.add_succ_r].
    apply IH. by left.
Qed.

Lemma step_back_inside s v k : sequence s -> (k < length s)%nat -> step_back (s ++ v) k = 0%nat.
Proof.
  intros Hs. destruct (sequence_inv _ Hs) as (c & t & -> & _ & Ht & _). induction k as [|k IH]; [done|]. cbn [length]. intros Hk.
  cbn [step_back app nth]. rewrite app_nth1 by lia.
  assert (continues (nth k t zero) = true) as ->. { rewrite forallb_forall in Ht. apply Ht, nth_In. lia. }
  apply IH. cbn [length]. lia.
Qed.

Lemma first_of_text l : Forall sequence l -> forall c t, concat l = c :: t -> continues c = false.
Proof.
  intros Hl c t. destruct Hl as [|s l Hs Hl]; [done|]. destruct (sequence_inv _ Hs) as (c0 & t0 & -> & Hc & _). cbn. by intros [= -> _].
Qed.

Lemma sequence_size s : sequence s -> (1 <= length s <= 4)%nat.
Proof.
  intros [Hs Hn]. destruct s as [|c s]; [done|]. unfold utf8_sequence_length in Hn.
  assert (Hb : let '(len, _, _) := sequence_bounds (code c) in (len <= 4)%nat) by (unfold sequence_bounds; repeat case_match; simplify_eq; lia).
  destruct (sequence_bounds (code c)) as [[len lo] hi]. cbn [length] in *. repeat case_match; lia.
Qed.

(** Stepping back from a position of a text reaches the end of a character at most three bytes before. *)
Lemma step_back_text l k : Forall sequence l -> (k < length (concat l))%nat ->
  exists n, take (step_back (concat l) k) (concat l) = concat (take n l) /\ (step_back (concat l) k <= k <= step_back (concat l) k + 3)%nat.
Proof.
  intros Hl. revert k. induction Hl as [|s l Hs Hl IH]; intros k Hk; cbn [concat length] in *; [lia|]. rewrite length_app in Hk.
  pose proof (sequence_size s Hs). destruct (decide (k < length s)%nat) as [Hlt|Hge].
  { rewrite step_back_inside by done. exists 0%nat. split; [done|lia]. }
  replace k with (length s + (k - length s))%nat by lia.
  rewrite step_back_app; [|done| |by apply first_of_text]; cycle 1.
  { left. intros E. rewrite E in Hk. cbn in Hk. lia. }
  destruct (IH (k - length s)%nat) as (n & Ht & Hb); [lia|]. exists (S n). cbn [take concat]. rewrite take_app_add, Ht. split; [done|lia].
Qed.

(** Truncating well-formed text gives well-formed text: a prefix within the limit that loses at most
    the three bytes of a character the limit would split, and the whole text when it fits. *)
Theorem truncate_utf8_text value limit : text value ->
  let '(result, cut) := truncate_utf8 value limit in
  text result /\ result `prefix_of` value /\ (length result <= limit)%nat /\
  if cut then (limit <= length result + 3)%nat /\ (limit < length value)%nat else result = value.
Proof.
  intros (l & Hl & ->). unfold truncate_utf8. destruct (Z.leb_spec (size (concat l)) (Z.of_nat limit)) as [Hs|Hs]; unfold size in Hs.
  { split_and!; try done; [by exists l|lia]. }
  destruct (step_back_text l limit Hl) as (n & Ht & Hb); [lia|]. split_and!; try lia.
  - rewrite Ht. exists (take n l). split; [by apply Forall_take|done].
  - eexists. symmetry. apply take_drop.
  - rewrite length_take. lia.
  - rewrite length_take. lia.
Qed.

Lemma truncate_utf8_text_witness :
  truncate_utf8 (lit "ab" ++ [chr 226; chr 130; chr 172]) 4 = (lit "ab", true) /\ text (lit "ab").
Proof.
  assert (Ht : text (lit "ab" ++ [chr 226; chr 130; chr 172])) by (apply (all_sequences_spec 5); [cbn; lia|by vm_compute]).
  pose proof (truncate_utf8_text _ 4 Ht) as Hok.
  assert (E : truncate_utf8 (lit "ab" ++ [chr 226; chr 130; chr 172]) 4 = (lit "ab", true)) by by vm_compute.
  rewrite E in Hok. destruct Hok as (Hab & _). exact (conj E Hab).
Defined.

(** * Sanitizing *)

Lemma all_characters (P : ascii -> bool) : forallb P all_chars = true -> forall c, P c = true.
Proof. intros Hall c. rewrite forallb_forall in Hall. apply Hall, all_chars_complete. Qed.

(** A byte below 128 starts, and is, a sequence of its own. *)
Lemma sequence_bytes s : sequence s -> (exists c, s = [c] /\ code c < 128) \/ Forall (fun c => 128 <= code c) s.
Proof.
  intros Hs. destruct (sequence_inv _ Hs) as (c & t & -> & Hc & Ht & _). destruct Hs as [_ Hn].
  assert (Hcont : forall d, continues d = true -> 128 <= code d).
  { intros d Hd. pose proof (all_characters (fun d => negb (continues d) || (128 <=? code d)) ltac:(by vm_compute) d) as Ha. cbn beta in Ha.
    rewrite Hd in Ha. cbn in Ha. by apply Z.leb_le. }
  unfold utf8_sequence_length, sequence_bounds in Hn. destruct (Z.ltb_spec (code c) 128) as [Hlow|Hhigh].
  - left. exists c. cbn in Hn. destruct t; [done|done].
  - right. constructor; [done|]. apply Forall_forall. intros d Hd%list_elem_of_In. apply Hcont. rewrite forallb_forall in Ht. by apply Ht.
Qed.

Lemma utf8_length_one c v : utf8_sequence_length (c :: v) = 1%nat -> code c < 128.
Proof.
  intros Hn. destruct (sequence_split _ _ Hn) as (Hs & _ & _). cbn [take] in Hs. destruct (sequence_bytes _ Hs) as [(d & [= <-] & Hd)|Hf]; [done|].
  rewrite Forall_singleton in Hf. unfold utf8_sequence_length in Hn. pose proof (code_range c). revert Hn. unfold sequence_bounds.
  repeat case_match; simplify_eq; reflect_bool; try lia; cbn [Nat.leb] in *; try done; repeat case_match; done.
Qed.

(** What a multi-line text may hold besides printed characters. *)
Definition plain (multiline : bool) (c : ascii) : bool := negb (control c) || multiline && ((c == chr 10) || (c == chr 9)).

Lemma sanitized_character_ok multiline c : text (sanitized_character multiline c) /\ Forall (fun c => plain multiline c = true) (sanitized_character multiline c).
Proof.
  assert (Hspace : text (lit " ") /\ Forall (fun c => plain multiline c = true) (lit " ")).
  { split; [by apply text_one|]. by constructor; [destruct multiline|]. }
  unfold sanitized_character. repeat case_match; try done; [split; [apply text_nil|done]|].
  apply andb_true_iff in H0 as [-> Hc]. split; [|by constructor; [unfold plain; rewrite Hc; destruct (control c)|]].
  apply text_one. apply orb_true_iff in Hc as [Hc|Hc]; apply bool_decide_eq_true in Hc as ->; done.
Qed.

(** A kept sequence has no control character. *)
Lemma kept_sequence multiline c v n : utf8_sequence_length (c :: v) = S n -> (S n =? 1)%nat && control c = false ->
  text (take (S n) (c :: v)) /\ Forall (fun c => plain multiline c = true) (take (S n) (c :: v)).
Proof.
  intros Hn Hc. destruct (sequence_split _ _ Hn) as (Hs & _ & Hlen). split; [rewrite <- (app_nil_r (take _ _)); apply text_cons; [done|apply text_nil]|].
  assert (Hhigh : forall d, 128 <= code d -> plain multiline d = true).
  { intros d Hd. unfold plain, control. destruct (Z.ltb_spec (code d) 32); [lia|]. by destruct (Z.eqb_spec (code d) 127); [lia|]. }
  destruct (sequence_bytes _ Hs) as [(d & Hd & Hlow)|Hf]; [|by eapply Forall_impl].
  rewrite Hd. constructor; [|done]. rewrite Hd in Hlen. cbn in Hlen. injection Hlen as <-. cbn in Hc. cbn in Hd. injection Hd as ->.
  unfold plain. by rewrite Hc.
Qed.

(** Whatever bytes come in, the sanitized text is well-formed UTF-8 and holds no control character,
    apart from the line feeds and tabs of a multi-line text. *)
Theorem sanitized_utf8_text value multiline :
  text (sanitized_utf8 value multiline) /\ Forall (fun c => plain multiline c = true) (sanitized_utf8 value multiline).
Proof.
  unfold sanitized_utf8. generalize (length value) as fuel. intros fuel. revert value.
  induction fuel as [|fuel IH]; intros [|c v]; cbn [sanitized_loop]; try (split; [apply text_nil|done]).
  destruct (utf8_sequence_length (c :: v)) as [|n] eqn:E; cbn [Nat.eqb]; [apply IH|]. change (n =? 0)%nat with (S n =? 1)%nat.
  destruct (IH (drop (S n) (c :: v))) as [Ht Hf]. destruct ((S n =? 1)%nat && control c) eqn:Ec.
  - destruct (sanitized_character_ok multiline c). split; [by apply text_app|by apply Forall_app].
  - destruct (kept_sequence multiline _ _ _ E Ec). split; [by apply text_app|by apply Forall_app].
Qed.

(** * Details and errors *)

(** A detail text is well-formed UTF-8 without control characters and no longer than its limit,
    whatever bytes it comes from; the flag stays down only when nothing was dropped, so that printable
    text within the limit is kept as it is. *)
Theorem bounded_detail_text_ok value cut limit : 0 <= limit ->
  let '(result, flag) := bounded_detail_text value cut limit in
  text result /\ size result <= limit /\ Forall (fun c => control c = false) result /\ (cut = true -> flag = true) /\
  (flag = false -> size result = size value) /\
  (text value -> Forall (fun c => control c = false) value -> size value <= limit -> result = value /\ flag = cut).
Proof.
  intros Hlimit. unfold bounded_detail_text.
  assert (Hgo : forall fuel value result cut, (length value <= fuel)%nat -> text result -> size result <= limit -> Forall (fun c => control c = false) result ->
    let '(result', flag) := detail_loop fuel value result cut limit in
    text result' /\ size result' <= limit /\ Forall (fun c => control c = false) result' /\ (cut = true -> flag = true) /\
    (flag = false -> size result' = size result + size value) /\
    (text value -> Forall (fun c => control c = false) value -> size result + size value <= limit -> result' = result ++ value /\ flag = cut)).
  2: { specialize (Hgo (length value) value [] cut (le_n _) text_nil Hlimit (Forall_nil_2 _)). by destruct (detail_loop _ _ _ _ _). }
  clear value cut. induction fuel as [|fuel IH]; intros [|c v] result cut Hf Hr Hs Hc; cbn [length] in Hf; try lia; cbn [detail_loop];
    try (rewrite app_nil_r; change (size (@nil ascii)) with 0; split_and!; try done; lia).
  destruct (utf8_sequence_length (c :: v)) as [|n] eqn:E; cbn [Nat.eqb].
  { specialize (IH v result true ltac:(lia) Hr Hs Hc). destruct (detail_loop _ _ _ _ _) as [result' flag].
    destruct IH as (Ht & Hl & Hk & Hflag & _). rewrite (Hflag eq_refl). split_and!; try done.
    intros Htext _ _. exfalso. destruct Htext as ([|s l] & Hall & Heq); [done|]. apply Forall_cons in Hall as [Hseq _]. cbn [concat] in Heq.
    destruct (sequence_inv _ Hseq) as (d & t & -> & _ & _ & Hlen). rewrite Heq, Hlen in E. done. }
  change (n =? 0)%nat with (S n =? 1)%nat. destruct (sequence_split _ _ E) as (Hseq & Heq & Hlen).
  assert (Hdrop : size (c :: v) = Z.of_nat (S n) + size (drop (S n) (c :: v))) by (rewrite Heq at 1; unfold size; rewrite length_app, Hlen; lia).
  destruct (Z.ltb_spec limit (size result + Z.of_nat (S n))) as [Hover|Hfits].
  { split_and!; try done. intros _ _ Hsize. unfold size in *. lia. }
  set (piece := if _ && _ then _ else _).
  assert (Hpiece : text piece /\ size piece <= Z.of_nat (S n) /\ Forall (fun c => control c = false) piece /\
    (size piece = Z.of_nat (S n)) /\ (Forall (fun c => control c = false) (c :: v) -> piece = take (S n) (c :: v))).
  { subst piece. destruct ((S n =? 1)%nat && control c) eqn:Ec.
    - apply andb_true_iff in Ec as [En Ec]. apply Nat.eqb_eq in En. rewrite En. split_and!; try done; [by apply text_one|by constructor|].
      intros Hall. apply Forall_cons in Hall as [Hk _]. by rewrite Hk in Ec.
    - destruct (kept_sequence false _ _ _ E Ec) as [Ht Hp]. unfold size. rewrite Hlen. split_and!; try done.
      eapply Forall_impl; [done|]. intros d. unfold plain. cbn. rewrite orb_false_r. apply negb_true_iff. }
  destruct Hpiece as (Ht & _ & Hk & Hz & Hsame).
  assert (Hsum : size (result ++ piece) = size result + size piece) by (unfold size; rewrite length_app; lia).
  specialize (IH (drop (S n) (c :: v)) (result ++ piece) cut). destruct (detail_loop _ _ _ _ _) as [result' flag].
  destruct IH as (Ht' & Hl' & Hk' & Hflag & Heq' & Hkeep); [rewrite length_drop; cbn [length]; lia|by apply text_app|lia|by apply Forall_app|].
  split_and!; try done; [intros Hfalse; rewrite (Heq' Hfalse); lia|].
  intros Htext Hclean Hsize. destruct Hkeep as [-> ->]; [| |lia|].
  - apply (all_sequences_spec (S (length v))) in Htext; [|cbn [length]; lia]. cbn [all_sequences] in Htext. rewrite E in Htext. cbn [Nat.eqb] in Htext.
    apply (all_sequences_spec (length v)); [rewrite length_drop; cbn [length]; lia|done].
  - by apply Forall_drop.
  - split; [|done]. rewrite <- app_assoc, (Hsame Hclean). by rewrite take_drop.
Qed.

Lemma bounded_detail_text_ok_witness :
  bounded_detail_text (lit "ok" ++ [chr 7; chr 255; chr 195; chr 169]) false 4 = (lit "ok ", true) /\ text (lit "ok ").
Proof.
  pose proof (bounded_detail_text_ok (lit "ok" ++ [chr 7; chr 255; chr 195; chr 169]) false 4 ltac:(lia)) as Hok.
  assert (E : bounded_detail_text (lit "ok" ++ [chr 7; chr 255; chr 195; chr 169]) false 4 = (lit "ok ", true)) by by vm_compute.
  rewrite E in Hok. destruct Hok as (Ht & _). exact (conj E Ht).
Defined.

Lemma bounded_error_truncates value : bounded_error value = fst (truncate_utf8 value max_error_message_length).
Proof. unfold bounded_error, truncate_utf8. by destruct (_ <=? _). Qed.
Lemma bounded_error_size value : size (bounded_error value) <= 1000.
Proof.
  unfold bounded_error. destruct (Z.leb_spec (size value) (Z.of_nat max_error_message_length)) as [Hs|]; [unfold max_error_message_length in Hs; lia|].
  unfold size. rewrite length_take. assert (Hb : forall k, (step_back value k <= k)%nat) by (induction k; cbn; [lia|case_match; lia]).
  specialize (Hb max_error_message_length). unfold max_error_message_length in *. lia.
Qed.

(** What is bound as a detail is well-formed text of bounded size. *)
Lemma accepted_detail_ok `{JsonDetail} detail : text (accepted_detail detail) /\ size (accepted_detail detail) <= detail_max_bytes.
Proof.
  assert (Hd : text detail_dropped_json /\ size detail_dropped_json <= detail_max_bytes).
  { split; [|by vm_compute]. apply (all_sequences_spec (length detail_dropped_json)); [done|by vm_compute]. }
  unfold accepted_detail. destruct (detail_max_bytes <? size detail) eqn:Es; [done|]. cbn [orb]. destruct (present _); [done|].
  destruct (all_sequences _ _) eqn:Ea; [|done]. cbn [negb]. apply all_sequences_spec in Ea; [|done]. apply Z.ltb_ge in Es.
  destruct (parse_detail detail) as [[kind truncated]|]; [|done]. by destruct (_ || _).
Qed.
