(* ===== verification/TextEncoding.v ===== *)
(** Text utilities of the management service: src/service/utils/text.h, base64.h, json_text.h and
    percent_encoding.h. *)
From S2P Require Import Prelude RoutePolicy.
Open Scope Z_scope.

(** * text.h *)

Definition to_lower_ascii (value : bytes) : bytes := map lower_ascii value.
Definition is_whitespace_ascii (c : ascii) : bool :=
  (c == chr 32) || (c == chr 9) || (c == chr 13) || (c == chr 10) || (c == chr 12) || (c == chr 11).
Definition trim_with (P : ascii -> bool) (value : bytes) : bytes :=
  rev (snd (take_while P (rev (snd (take_while P value))))).
Definition trim_ascii (value : bytes) : bytes := trim_with is_whitespace_ascii value.
Definition has_non_whitespace_ascii (value : bytes) : bool := negb (empty (trim_ascii value)).

Definition append_length_prefixed (output field : bytes) : bytes := output ++ dec (size field) ++ lit ":" ++ field.
(** The field and what is left of the payload. *)
Definition consume_length_prefixed (payload : bytes) : option (bytes * bytes) :=
  match find_char ":" payload with
  | None => None
  | Some colon =>
      match from_chars (two64 - 1) (take colon payload) with
      | Some (length, []) =>
          let rest := drop (S colon) payload in
          if size rest <? length then None else Some (take (Z.to_nat length) rest, drop (Z.to_nat length) rest)
      | _ => None
      end
  end.

Definition equals_ignore_case (left right : bytes) : bool := bool_decide (map lower_ascii left = map lower_ascii right).
(** Whether [needle] occurs at [position] of [value], ASCII case ignored. *)
Definition matches_ignore_case_at (value : bytes) (position : nat) (needle : bytes) : bool :=
  (position + length needle <=? length value)%nat && equals_ignore_case (take (length needle) (drop position value)) needle.
Definition contains (values : list bytes) (value : bytes) : bool := bool_decide (value ∈ values).
Definition is_ascii_alnum (c : ascii) : bool := is_lower c || is_upper c || is_digit c.
Definition media_type (content_type : bytes) : bytes :=
  to_lower_ascii (trim_with (fun c => (c == chr 32) || (c == chr 9)) (upto (find_char ";" content_type) content_type)).
Definition json_media_type (type : bytes) : bool :=
  (type == lit "application/json") || ends_with type (lit "+json") || (type == lit "application/dns-json") || (type == lit "text/json").

(** * base64.h *)

Definition standard_alphabet : bytes := lit "ABCDEFGHIJKLMNOPQRSTUVWXYZabcdefghijklmnopqrstuvwxyz0123456789+/".
Definition url_alphabet : bytes := lit "ABCDEFGHIJKLMNOPQRSTUVWXYZabcdefghijklmnopqrstuvwxyz0123456789-_".
Definition letter (alphabet : bytes) (n : Z) : ascii := nth (Z.to_nat (Z.land n 63)) alphabet zero.

Fixpoint base64 (alphabet : bytes) (padding : bool) (value : bytes) : bytes :=
  match value with
  | a :: b :: c :: rest =>
      let chunk := Z.lor (Z.lor (Z.shiftl (code a) 16) (Z.shiftl (code b) 8)) (code c) in
      letter alphabet (Z.shiftr chunk 18) :: letter alphabet (Z.shiftr chunk 12) :: letter alphabet (Z.shiftr chunk 6) :: letter alphabet chunk ::
      base64 alphabet padding rest
  | [a; b] =>
      let chunk := Z.lor (Z.shiftl (code a) 16) (Z.shiftl (code b) 8) in
      [letter alphabet (Z.shiftr chunk 18); letter alphabet (Z.shiftr chunk 12); letter alphabet (Z.shiftr chunk 6)] ++ (if padding then lit "=" else [])
  | [a] =>
      let chunk := Z.shiftl (code a) 16 in
      [letter alphabet (Z.shiftr chunk 18); letter alphabet (Z.shiftr chunk 12)] ++ (if padding then lit "==" else [])
  | [] => []
  end.
Definition base64_encode (value : bytes) : bytes := base64 standard_alphabet true value.
Definition base64_url_encode (value : bytes) : bytes := base64 url_alphabet false value.
Definition is_base64_url_char (c : ascii) : bool := is_lower c || is_upper c || is_digit c || (c == "-"%char) || (c == "_"%char).

Definition two32 : Z := 4294967296.
(** The value of a letter; -1 for [=] and -2 for any other character. *)
Definition base64_digit (c : ascii) : Z :=
  if is_upper c then code c - 65
  else if is_lower c then code c - 97 + 26
  else if is_digit c then code c - 48 + 52
  else if (c == "-"%char) || (c == "+"%char) then 62
  else if (c == "_"%char) || (c == "/"%char) then 63
  else if c == "="%char then -1
  else -2.
Fixpoint decode_loop (value : bytes) (buffer bits : Z) (result : bytes) : option bytes :=
  match value with
  | [] => Some result
  | c :: value =>
      let digit := base64_digit c in
      if digit =? -1 then Some result
      else if digit =? -2 then None
      else
        let buffer := Z.lor (Z.shiftl buffer 6 mod two32) digit in
        let bits := bits + 6 in
        if 8 <=? bits then decode_loop value buffer (bits - 8) (result ++ [chr (Z.land (Z.shiftr buffer (bits - 8)) 255)])
        else decode_loop value buffer bits result
  end.
Definition base64_url_decode (value : bytes) : option bytes := decode_loop value 0 0 [].

(** * json_text.h *)

Definition hex_lower : bytes := lit "0123456789abcdef".
Definition json_escape (c : ascii) : bytes :=
  let backslash := chr 92 in
  if c == chr 34 then [backslash; chr 34]
  else if c == backslash then [backslash; backslash]
  else if c == chr 10 then backslash :: lit "n"
  else if c == chr 9 then backslash :: lit "t"
  else if c == chr 13 then backslash :: lit "r"
  else if code c <? 32 then backslash :: lit "u00" ++ [nth (Z.to_nat (Z.shiftr (code c) 4)) hex_lower zero; nth (Z.to_nat (Z.land (code c) 15)) hex_lower zero]
  else [c].
Definition append_json_string (output value : bytes) : bytes := output ++ [chr 34] ++ concat (map json_escape value) ++ [chr 34].
Definition json_character_size (c : ascii) : Z :=
  if (c == chr 34) || (c == chr 92) || (c == chr 10) || (c == chr 9) || (c == chr 13) then 2 else if code c <? 32 then 6 else 1.
Definition json_string_size (value : bytes) : Z := fold_left (fun size c => size + json_character_size c) value 2.

(** * percent_encoding.h *)

Definition hex_upper : bytes := lit "0123456789ABCDEF".
Definition unreserved (c : ascii) : bool :=
  is_upper c || is_lower c || is_digit c || (c == "-"%char) || (c == "."%char) || (c == "_"%char) || (c == "~"%char).
Definition percent_character (lower_hex form : bool) (c : ascii) : bytes :=
  let digits := if lower_hex then hex_lower else hex_upper in
  if unreserved c then [c]
  else if form && (c == chr 32) then lit "+"
  else ["%"%char; nth (Z.to_nat (Z.shiftr (code c) 4)) digits zero; nth (Z.to_nat (Z.land (code c) 15)) digits zero].
Definition percent_encode (input : bytes) (lower_hex form : bool) : bytes := concat (map (percent_character lower_hex form) input).

(** The value of a hexadecimal digit, -1 otherwise. *)
Definition hex_value (c : ascii) : Z :=
  if is_digit c then code c - 48
  else if in_range "a" "f" c then code c - 97 + 10
  else if in_range "A" "F" c then code c - 65 + 10
  else -1.
Definition plus_as_space (c : ascii) : ascii := if c == "+"%char then chr 32 else c.
Fixpoint percent_decode (input : bytes) : bytes :=
  match input with
  | [] => []
  | c :: rest =>
      match rest with
      | h :: l :: rest' =>
          if (c == "%"%char) && (0 <=? hex_value h) && (0 <=? hex_value l) then chr (hex_value h * 16 + hex_value l) :: percent_decode rest'
          else plus_as_space c :: percent_decode rest
      | _ => plus_as_space c :: percent_decode rest
      end
  end.

(** * Base64 *)

(** The letters of an alphabet have their values. *)
Definition alphabet_ok (alphabet : bytes) : Prop := forall n, base64_digit (letter alphabet n) = n mod 64.

Lemma alphabets_ok : alphabet_ok standard_alphabet /\ alphabet_ok url_alphabet.
Proof.
  assert (Hall : forall alphabet, forallb (fun n => base64_digit (letter alphabet (Z.of_nat n)) =? Z.of_nat n) (seq 0 64) = true -> alphabet_ok alphabet).
  { intros alphabet Hall n. pose proof (Z.mod_pos_bound n 64 ltac:(lia)) as Hn. rewrite forallb_forall in Hall. specialize (Hall (Z.to_nat (n mod 64))).
    apply Z.eqb_eq in Hall; [|apply in_seq; lia]. rewrite Z2Nat.id in Hall by lia. rewrite <- Hall. unfold letter.
    change 63 with (Z.ones 6). rewrite !Z.land_ones by lia. change (2 ^ 6) with 64. by rewrite Z.mod_mod by lia. }
  split; apply Hall; by vm_compute.
Qed.

(** One letter of the decoder: the six bits join the buffer, of which the source keeps 32. *)
Lemma decode_digit c value buffer bits result : 0 <= base64_digit c ->
  decode_loop (c :: value) buffer bits result =
    let buffer := buffer * 64 mod two32 + base64_digit c in
    if 8 <=? bits + 6 then decode_loop value buffer (bits + 6 - 8) (result ++ [chr (buffer / 2 ^ (bits + 6 - 8))]) else decode_loop value buffer (bits + 6) result.
Proof.
  intros Hd. assert (Hlt : base64_digit c < 64).
  { assert (Hall : forallb (fun c => base64_digit c <? 64) all_chars = true) by by vm_compute. rewrite forallb_forall in Hall.
    by apply Z.ltb_lt, (Hall c), all_chars_complete. }
  cbn [decode_loop]. destruct (Z.eqb_spec (base64_digit c) (-1)); [lia|]. destruct (Z.eqb_spec (base64_digit c) (-2)); [lia|]. cbv zeta.
  assert (Hbuf : Z.lor (Z.shiftl buffer 6 mod two32) (base64_digit c) = buffer * 64 mod two32 + base64_digit c).
  { rewrite Z.shiftl_mul_pow2 by lia. change (2 ^ 6) with 64.
    assert (Hdiv : buffer * 64 mod two32 = Z.shiftl (buffer mod 67108864) 6).
    { rewrite Z.shiftl_mul_pow2 by lia. change (2 ^ 6) with 64. change two32 with (67108864 * 64). by rewrite Z.mul_mod_distr_r by lia. }
    rewrite Hdiv, lor_shiftl_add by lia. by rewrite Z.shiftl_mul_pow2 by lia. }
  rewrite Hbuf. destruct (Z.leb_spec 8 (bits + 6)); [|done]. f_equal. f_equal. f_equal. unfold chr.
  change 255 with (Z.ones 8). rewrite Z.land_ones, Z.shiftr_div_pow2 by lia. change (2 ^ 8) with 256. by rewrite Z.mod_mod by lia.
Qed.

Lemma chunk_value a b c : 0 <= a < 256 -> 0 <= b < 256 -> 0 <= c < 256 ->
  Z.lor (Z.lor (Z.shiftl a 16) (Z.shiftl b 8)) c = a * 65536 + b * 256 + c.
Proof.
  intros Ha Hb Hc. assert (Hab : Z.lor (Z.shiftl a 16) (Z.shiftl b 8) = Z.shiftl (a * 256 + b) 8).
  { change 16 with (8 + 8). rewrite <- Z.shiftl_shiftl by lia. rewrite <- Z.shiftl_lor. f_equal. rewrite lor_shiftl_add by lia. done. }
  rewrite Hab, lor_shiftl_add by lia. change (2 ^ 8) with 256. lia.
Qed.

(** The low bits of the buffer after a letter. *)
Lemma buffer_step buffer d k : 0 <= d < 64 -> 0 < k -> (k * 64 | two32) -> (buffer * 64 mod two32 + d) mod (k * 64) = buffer mod k * 64 + d.
Proof.
  intros Hd Hk Hdiv. rewrite Z.add_mod by lia. rewrite <- Znumtheory.Zmod_div_mod by (done || unfold two32; lia).
  rewrite Z.mul_mod_distr_r by lia. pose proof (Z.mod_pos_bound buffer k Hk). rewrite (Z.mod_small d) by lia. apply Z.mod_small. lia.
Qed.

(** A byte taken out of the buffer. *)
Lemma byte_out buffer k v : 0 <= k -> buffer mod 2 ^ (k + 8) = v -> chr (buffer / 2 ^ k) = chr (v / 2 ^ k).
Proof.
  intros Hk <-. unfold chr. f_equal. f_equal. rewrite Z.pow_add_r by lia. change (2 ^ 8) with 256.
  pose proof (Z.pow_pos_nonneg 2 k ltac:(lia) Hk). rewrite Z.rem_mul_r by lia.
  rewrite (Z.mul_comm (2 ^ k)), Z.div_add by lia. rewrite (Z.div_small (buffer mod 2 ^ k)) by (apply Z.mod_pos_bound; lia).
  rewrite Z.add_0_l. by rewrite Z.mod_mod by lia.
Qed.

Lemma divide_two32 k n : two32 = n * k -> (k | two32).
Proof. intros ->. by exists n. Qed.

(** The six-bit digits of three bytes. *)
Lemma chunk_digits x y z : 0 <= x < 256 -> 0 <= y < 256 -> 0 <= z < 256 ->
  let chunk := x * 65536 + y * 256 + z in
  chunk / 2 ^ 18 mod 64 = x / 4 /\ chunk / 2 ^ 12 mod 64 = x mod 4 * 16 + y / 16 /\ chunk / 2 ^ 6 mod 64 = y mod 16 * 4 + z / 64 /\ chunk mod 64 = z mod 64.
Proof.
  intros Hx Hy Hz. cbv zeta. set (chunk := x * 65536 + y * 256 + z). assert (Ec : chunk = x * 65536 + y * 256 + z) by done. clearbody chunk. change (2 ^ 18) with 262144. change (2 ^ 12) with 4096. change (2 ^ 6) with 64.
  assert (E18 : chunk / 262144 = x / 4) by (Z.to_euclidean_division_equations; lia). assert (E12 : chunk / 4096 = x * 16 + y / 16) by (Z.to_euclidean_division_equations; lia). assert (E6 : chunk / 64 = x * 1024 + y * 4 + z / 64) by (Z.to_euclidean_division_equations; lia).
  rewrite E18, E12, E6. split_and!; Z.to_euclidean_division_equations; lia.
Qed.

Lemma chr_mod x y : x mod 256 = code y -> chr x = y.
Proof. intros Hx. unfold chr. rewrite Hx. unfold code. rewrite N2Z.id. apply ascii_N_embedding. Qed.

Section Groups.
Context (alphabet : bytes) (Hok : alphabet_ok alphabet).

Lemma letter_digit n : 0 <= base64_digit (letter alphabet n).
Proof. rewrite Hok. apply Z.mod_pos_bound. lia. Qed.
Lemma letter_bound n : 0 <= base64_digit (letter alphabet n) < 64.
Proof. rewrite Hok. apply Z.mod_pos_bound. lia. Qed.

(** The first two letters of a group give its first byte, the third its second, the fourth its third. *)
Lemma decode_two a b c value buffer result : let chunk := code a * 65536 + code b * 256 + code c in
  exists b1, b1 mod 4096 = (code a / 4) * 64 + (code a mod 4 * 16 + code b / 16) /\
    decode_loop (letter alphabet (Z.shiftr chunk 18) :: letter alphabet (Z.shiftr chunk 12) :: value) buffer 0 result = decode_loop value b1 4 (result ++ [a]).
Proof.
  intros chunk. destruct (chunk_digits (code a) (code b) (code c) (code_range a) (code_range b) (code_range c)) as (D18 & D12 & _ & _). fold chunk in D18, D12.
  rewrite decode_digit by apply letter_digit. cbv zeta. change (8 <=? 0 + 6) with false. cbv iota.
  rewrite decode_digit by apply letter_digit. cbv zeta. change (8 <=? 0 + 6 + 6) with true. cbv iota. change (0 + 6 + 6 - 8) with 4.
  rewrite !Hok, !Z.shiftr_div_pow2, D18, D12 by lia. pose proof (code_range a). pose proof (code_range b).
  set (b0 := buffer * 64 mod two32 + _). set (b1 := b0 * 64 mod two32 + _).
  assert (E0 : b0 mod 64 = code a / 4).
  { change 64 with (1 * 64) at 1. subst b0. rewrite buffer_step; [by rewrite Z.mod_1_r|Z.to_euclidean_division_equations; lia|lia|by apply (divide_two32 _ 67108864)]. }
  assert (E1 : b1 mod 4096 = (code a / 4) * 64 + (code a mod 4 * 16 + code b / 16)).
  { change 4096 with (64 * 64). subst b1. rewrite buffer_step; [by rewrite E0|Z.to_euclidean_division_equations; lia|lia|by apply (divide_two32 _ 1048576)]. }
  exists b1. split; [done|]. rewrite (byte_out b1 4 _ ltac:(lia) E1). rewrite (chr_mod _ a); [done|]. change (2 ^ 4) with 16. Z.to_euclidean_division_equations; lia.
Qed.

Lemma decode_three a b c value b1 result : let chunk := code a * 65536 + code b * 256 + code c in
  b1 mod 4096 = (code a / 4) * 64 + (code a mod 4 * 16 + code b / 16) ->
  exists b2, b2 mod 64 = code b mod 16 * 4 + code c / 64 /\ decode_loop (letter alphabet (Z.shiftr chunk 6) :: value) b1 4 result = decode_loop value b2 2 (result ++ [b]).
Proof.
  intros chunk E1. destruct (chunk_digits (code a) (code b) (code c) (code_range a) (code_range b) (code_range c)) as (_ & _ & D6 & _). fold chunk in D6.
  rewrite decode_digit by apply letter_digit. cbv zeta. change (8 <=? 4 + 6) with true. cbv iota. change (4 + 6 - 8) with 2.
  rewrite !Hok, !Z.shiftr_div_pow2, D6 by lia. pose proof (code_range a). pose proof (code_range b). pose proof (code_range c).
  set (b2 := b1 * 64 mod two32 + _).
  assert (E2 : b2 mod 262144 = ((code a / 4) * 64 + (code a mod 4 * 16 + code b / 16)) * 64 + (code b mod 16 * 4 + code c / 64)).
  { change 262144 with (4096 * 64). subst b2. rewrite buffer_step; [by rewrite E1|Z.to_euclidean_division_equations; lia|lia|by apply (divide_two32 _ 16384)]. }
  exists b2. split.
  - rewrite (Znumtheory.Zmod_div_mod 64 262144) by (lia || (by exists 4096)). rewrite E2. Z.to_euclidean_division_equations; lia.
  - assert (E2' : b2 mod 2 ^ (2 + 8) = (code b / 16 * 64 + (code b mod 16 * 4 + code c / 64)) mod 1024).
    { change (2 ^ (2 + 8)) with 1024. rewrite (Znumtheory.Zmod_div_mod 1024 262144) by (lia || (by exists 256)). rewrite E2.
      set (x := code a / 4). set (y := code a mod 4). set (z := code b / 16). set (w := code b mod 16 * 4 + code c / 64).
      replace ((x * 64 + (y * 16 + z)) * 64 + w) with (z * 64 + w + (x * 4 + y) * 1024) by lia. by rewrite Z.mod_add by lia. }
    rewrite (byte_out b2 2 _ ltac:(lia) E2'). rewrite (chr_mod _ b); [done|]. change (2 ^ 2) with 4. Z.to_euclidean_division_equations; lia.
Qed.

Lemma decode_four a b c value b2 result : let chunk := code a * 65536 + code b * 256 + code c in
  b2 mod 64 = code b mod 16 * 4 + code c / 64 ->
  exists b3, decode_loop (letter alphabet chunk :: value) b2 2 result = decode_loop value b3 0 (result ++ [c]).
Proof.
  intros chunk E2. destruct (chunk_digits (code a) (code b) (code c) (code_range a) (code_range b) (code_range c)) as (_ & _ & _ & D0). fold chunk in D0.
  rewrite decode_digit by apply letter_digit. cbv zeta. change (8 <=? 2 + 6) with true. cbv iota. change (2 + 6 - 8) with 0.
  rewrite !Hok, D0. pose proof (code_range b). pose proof (code_range c). set (b3 := b2 * 64 mod two32 + _).
  assert (E3 : b3 mod 4096 = (code b mod 16 * 4 + code c / 64) * 64 + code c mod 64).
  { change 4096 with (64 * 64). subst b3. rewrite buffer_step; [by rewrite E2|Z.to_euclidean_division_equations; lia|lia|by apply (divide_two32 _ 1048576)]. }
  exists b3. assert (E3' : b3 mod 2 ^ (0 + 8) = ((code b mod 16 * 4 + code c / 64) * 64 + code c mod 64) mod 256).
  { change (2 ^ (0 + 8)) with 256. rewrite (Znumtheory.Zmod_div_mod 256 4096) by (lia || (by exists 16)). by rewrite E3. }
  rewrite (byte_out b3 0 _ ltac:(lia) E3'). rewrite (chr_mod _ c); [done|]. change (2 ^ 0) with 1. Z.to_euclidean_division_equations; lia.
Qed.

(** Three bytes at a time. *)
Lemma bytes_by_three (P : bytes -> Prop) : P [] -> (forall a, P [a]) -> (forall a b, P [a; b]) -> (forall a b c rest, P rest -> P (a :: b :: c :: rest)) -> forall s, P s.
Proof.
  intros H0 H1 H2 H3 s. assert (Hall : forall n s, (length s <= n)%nat -> P s); [|by apply (Hall (length s))].
  induction n as [|n IH]; intros [|a [|b [|c rest]]] Hn; cbn [length] in Hn; try lia; auto. apply H3, IH. lia.
Qed.

Lemma decode_base64 padding value buffer result : decode_loop (base64 alphabet padding value) buffer 0 result = Some (result ++ value).
Proof.
  revert buffer result. induction value as [|a|a b|a b c rest IH] using bytes_by_three; intros buffer result; cbn [base64].
  - cbn. by rewrite app_nil_r.
  - pose proof (decode_two a zero zero (if padding then lit "==" else []) buffer result) as (b1 & _ & E). change (code zero) with 0 in E.
    replace (code a * 65536 + 0 * 256 + 0) with (Z.shiftl (code a) 16) in E by (rewrite Z.shiftl_mul_pow2 by lia; lia). cbn [app]. rewrite E. by destruct padding.
  - pose proof (decode_two a b zero (letter alphabet (Z.shiftr (code a * 65536 + code b * 256 + code zero) 6) :: (if padding then lit "=" else [])) buffer result) as (b1 & E1 & E).
    change (code zero) with 0 in E. assert (Hchunk : Z.lor (Z.shiftl (code a) 16) (Z.shiftl (code b) 8) = code a * 65536 + code b * 256 + 0).
    { pose proof (chunk_value (code a) (code b) 0 (code_range a) (code_range b) ltac:(lia)) as Hc. by rewrite Z.lor_0_r in Hc. }
    rewrite Hchunk. cbn [app]. rewrite E. destruct (decode_three a b zero (if padding then lit "=" else []) b1 (result ++ [a]) E1) as (b2 & _ & E2).
    change (code zero) with 0 in E2. rewrite E2. rewrite <- app_assoc. by destruct padding.
  - rewrite chunk_value by apply code_range. destruct (decode_two a b c (letter alphabet (Z.shiftr (code a * 65536 + code b * 256 + code c) 6) ::
      letter alphabet (code a * 65536 + code b * 256 + code c) :: base64 alphabet padding rest) buffer result) as (b1 & E1 & ->).
    destruct (decode_three a b c (letter alphabet (code a * 65536 + code b * 256 + code c) :: base64 alphabet padding rest) b1 (result ++ [a]) E1) as (b2 & E2 & ->).
    destruct (decode_four a b c (base64 alphabet padding rest) b2 ((result ++ [a]) ++ [b]) E2) as (b3 & ->). rewrite IH. by rewrite <- !app_assoc.
Qed.
End Groups.

(** Both encodings decode to what they encoded: base64url_decode reads the standard and the URL-safe
    alphabet, padded or not, although it keeps only 32 bits of what it read. *)
Theorem base64_roundtrip value :
  base64_url_decode (base64_encode value) = Some value /\ base64_url_decode (base64_url_encode value) = Some value.
Proof. destruct alphabets_ok as [Hs Hu]. split; unfold base64_url_decode, base64_encode, base64_url_encode; by rewrite decode_base64. Qed.

(** * Percent-encoding *)

Lemma percent_decode_cons c rest : c <> "%"%char -> percent_decode (c :: rest) = plus_as_space c :: percent_decode rest.
Proof. intros Hc. destruct rest as [|h [|l rest']]; try done. cbn [percent_decode]. by rewrite bool_decide_false. Qed.

Lemma percent_decode_escape h l rest : 0 <= hex_value h -> 0 <= hex_value l ->
  percent_decode ("%"%char :: h :: l :: rest) = chr (hex_value h * 16 + hex_value l) :: percent_decode rest.
Proof. intros Hh Hl. cbn [percent_decode]. apply Z.leb_le in Hh as ->. by apply Z.leb_le in Hl as ->. Qed.

(** The escape of a byte, for all bytes by evaluation. *)
Lemma escape_value (lower_hex : bool) c : let digits := if lower_hex then hex_lower else hex_upper in
  let h := nth (Z.to_nat (Z.shiftr (code c) 4)) digits zero in let l := nth (Z.to_nat (Z.land (code c) 15)) digits zero in
  0 <= hex_value h /\ 0 <= hex_value l /\ chr (hex_value h * 16 + hex_value l) = c.
Proof.
  assert (Hall : forallb (fun c => forallb (fun lower_hex : bool => let digits := if lower_hex then hex_lower else hex_upper in
    let h := nth (Z.to_nat (Z.shiftr (code c) 4)) digits zero in let l := nth (Z.to_nat (Z.land (code c) 15)) digits zero in
    (0 <=? hex_value h) && (0 <=? hex_value l) && (chr (hex_value h * 16 + hex_value l) == c)) (true :: false :: nil)) all_chars = true) by by vm_compute.
  rewrite forallb_forall in Hall. specialize (Hall c (all_chars_complete c)). rewrite forallb_forall in Hall. specialize (Hall lower_hex).
  assert (Hin : In lower_hex [true; false]) by (destruct lower_hex; [by left|by right; left]).
  specialize (Hall Hin). cbv zeta in Hall |- *. rewrite !andb_true_iff, !Z.leb_le, bool_decide_eq_true in Hall. tauto.
Qed.
Lemma unreserved_plain c : unreserved c = true -> c <> "%"%char /\ plus_as_space c = c.
Proof.
  intros Hc. assert (Hall : forallb (fun c => negb (unreserved c) || ((c != "%"%char) && (plus_as_space c == c))) all_chars = true) by by vm_compute.
  rewrite forallb_forall in Hall. specialize (Hall c (all_chars_complete c)). rewrite Hc in Hall. cbn [negb orb] in Hall. by reflect_bool.
Qed.

Lemma percent_decode_character lower_hex form c rest : percent_decode (percent_character lower_hex form c ++ rest) = c :: percent_decode rest.
Proof.
  unfold percent_character. destruct (unreserved c) eqn:Eu; [|destruct (form && (c == chr 32)) eqn:Ef].
  - destruct (unreserved_plain c Eu) as [Hc Hp]. cbn [app]. by rewrite percent_decode_cons, Hp.
  - apply andb_true_iff in Ef as [_ ->%bool_decide_eq_true]. change (lit "+" ++ rest) with ("+"%char :: rest). by rewrite percent_decode_cons.
  - destruct (escape_value lower_hex c) as (Hh & Hl & Hv). cbn [app]. by rewrite percent_decode_escape, Hv.
Qed.

(** Decoding undoes percent-encoding, in either case of the digits and in the form encoding of spaces. *)
Theorem percent_roundtrip input lower_hex form : percent_decode (percent_encode input lower_hex form) = input.
Proof. unfold percent_encode. induction input as [|c input IH]; [done|]. cbn [map concat]. by rewrite percent_decode_character, IH. Qed.

(** * Length prefixes *)

Lemma take_while_all l : Forall (fun c => is_digit c = true) l -> take_while is_digit l = (l, []).
Proof. induction 1 as [|c l Hc _ IH]; [done|]. cbn [take_while]. by rewrite Hc, IH. Qed.
Lemma find_colon l rest : Forall (fun c => is_digit c = true) l -> find_char ":" (l ++ ":"%char :: rest) = Some (length l).
Proof.
  unfold find_char. induction 1 as [|c l Hc _ IH]; [done|]. cbn [app find_if]. rewrite bool_decide_false; [|by intros ->]. by rewrite IH.
Qed.

Lemma drop_colon (l rest : bytes) c : drop (S (length l)) (l ++ c :: rest) = rest.
Proof. induction l as [|d l IH]; [done|exact IH]. Qed.

Lemma consume_append field rest : size field < two64 -> consume_length_prefixed (append_length_prefixed [] field ++ rest) = Some (field, rest).
Proof.
  intros Hs. unfold append_length_prefixed, consume_length_prefixed. cbn [app]. rewrite <- !app_assoc. change (lit ":" ++ field ++ rest) with (":"%char :: field ++ rest).
  assert (Hd : 0 <= size field) by (unfold size; lia).
  rewrite find_colon by apply (dec_digits (size field) Hd). rewrite take_app_length.
  assert (Hnum : from_chars (two64 - 1) (dec (size field)) = Some (size field, [])).
  { unfold from_chars. assert (take_while is_digit (dec (size field)) = (dec (size field), [])) as ->.
    { by apply take_while_all, dec_digits. }
    rewrite undec_dec by done. destruct (Z.ltb_spec (two64 - 1) (size field)); [lia|].
    destruct (dec (size field)) eqn:E; [|done]. by destruct (dec_not_nil (size field) Hd E). }
  rewrite Hnum. assert (Hdrop : drop (S (length (dec (size field)))) (dec (size field) ++ ":"%char :: field ++ rest) = field ++ rest).
  { apply drop_colon. }
  rewrite Hdrop. destruct (Z.ltb_spec (size (field ++ rest)) (size field)) as [Hlt|_]; [unfold size in Hlt; rewrite length_app in Hlt; lia|].
  unfold size. by rewrite Nat2Z.id, take_app_length, drop_app_length.
Qed.

Lemma json_size_exact value : json_string_size value = size (append_json_string [] value).
Proof.
  unfold append_json_string, json_string_size. cbn [app]. assert (Hgo : forall n, fold_left (fun size c => size + json_character_size c) value n = n + size (concat (map json_escape value))).
  { induction value as [|c value IH]; intros n; cbn [fold_left map concat]; [unfold size; cbn; lia|]. rewrite IH. unfold size. rewrite length_app.
    assert (Hc : json_character_size c = Z.of_nat (length (json_escape c))).
    { assert (Hall : forallb (fun c => json_character_size c =? Z.of_nat (length (json_escape c))) all_chars = true) by by vm_compute.
      rewrite forallb_forall in Hall. by apply Z.eqb_eq, Hall, all_chars_complete. }
    lia. }
  rewrite Hgo. unfold size. cbn [length]. rewrite length_app. cbn [length]. lia.
Qed.
