(* ===== verification/JsonExcerpt.v ===== *)
(** Excerpts of JSON documents: src/service/features/attempt_trace/json_excerpt.h.

    The parser is ruvia's; its values are an inductive type with what the code asks of them. An
    excerpt's appends to [output] are the texts it returns, its counts and the redactor that keeps the
    strings are passed through. [agree] relates the documents an allow-list cannot tell apart. *)
From S2P Require Import Prelude RoutePolicy Utf8 TextEncoding Redaction.
Open Scope Z_scope.
#[local] Set Warnings "-register-all".

(** * ruvia's JSON values *)

(** Scalars carry the text they were written as; a number its value when it is an integer, a string its
    characters when its escapes can be decoded. *)
Inductive json :=
  | JsonNull
  | JsonBoolean (view : bytes)
  | JsonNumber (view : bytes) (integer : option Z)
  | JsonString (decoded : option bytes)
  | JsonArray (elements : list json)
  | JsonObject (fields : list (bytes * json)).

(** The parser, and the field a name finds (of several of one name, one). *)
Class JsonLibrary := {
  parse_json : bytes -> option json;
  find_field : list (bytes * json) -> bytes -> option json }.

(** Induction on a value and all the values in it. *)
Section JsonInduction.
Context (P : json -> Prop) (Hnull : P JsonNull) (Hboolean : forall view, P (JsonBoolean view))
  (Hnumber : forall view integer, P (JsonNumber view integer)) (Hstring : forall decoded, P (JsonString decoded))
  (Harray : forall elements, Forall P elements -> P (JsonArray elements))
  (Hobject : forall fields, Forall (fun field => P field.2) fields -> P (JsonObject fields)).

Fixpoint json_nested_ind (value : json) : P value :=
  match value with
  | JsonNull => Hnull
  | JsonBoolean view => Hboolean view
  | JsonNumber view integer => Hnumber view integer
  | JsonString decoded => Hstring decoded
  | JsonArray elements => Harray elements
      ((fix each elements : Forall P elements :=
          match elements with [] => Forall_nil_2 _ | value :: rest => Forall_cons_2 _ _ _ (json_nested_ind value) (each rest) end) elements)
  | JsonObject fields => Hobject fields
      ((fix each fields : Forall (fun field => P field.2) fields :=
          match fields with [] => Forall_nil_2 _ | field :: rest => Forall_cons_2 _ _ _ (json_nested_ind field.2) (each rest) end) fields)
  end.
End JsonInduction.

(** * The excerpt *)

Definition max_json_items : nat := 50.
Definition maximum_depth : nat := 16.

Record json_excerpt_fields := JsonExcerptFields { allowed_ : list bytes; sized_ : list bytes; dropped_ : list bytes }.

(** An excerpt's counts, and the redactor behind [keep]. *)
Record excerpt := Excerpt { excerpt_redactions_ : Z; excerpt_items_omitted_ : bool; keeper_ : redactor }.
Definition fresh_excerpt (r : redactor) : excerpt := Excerpt 0 false r.
Definition hide_value (e : excerpt) : excerpt := Excerpt (excerpt_redactions_ e + 1) (excerpt_items_omitted_ e) (keeper_ e).
Definition omit_items (e : excerpt) : excerpt := Excerpt (excerpt_redactions_ e) true (keeper_ e).
Definition set_keeper (r : redactor) (e : excerpt) : excerpt := Excerpt (excerpt_redactions_ e) (excerpt_items_omitted_ e) r.

Definition json_quote (value : bytes) : bytes := append_json_string [] value.
Definition shown_marker : bytes := json_quote redacted_marker.
Definition newline : bytes := [chr 10].
Definition indent (level : nat) : bytes := repeat (chr 32) (level * 2).
Definition separator (first : bool) : bytes := if first then newline else lit "," ++ newline.

(** [kept_json_string]: a kept string is scrubbed and cut like any text. *)
Definition keep_string (value : bytes) (e : excerpt) : bytes * excerpt :=
  let '(kept, r) := text (keeper_ e) value value_bytes in (json_quote kept, set_keeper r e).

Definition container_allowed (allowed : list bytes) (path : bytes) : bool :=
  existsb (fun candidate => (candidate == path) ||
    ((size path <? size candidate) && starts_with candidate path &&
     let next := nth (length path) candidate zero in (next == "."%char) || (next == "["%char))) allowed.

Definition upper_ascii (c : ascii) : ascii := if is_lower c then chr (code c - 32) else c.
(** What stands for the items beyond the cap. *)
Definition more_items (count : nat) : bytes := [chr 226; chr 128; chr 166] ++ lit " " ++ dec (Z.of_nat (count - max_json_items)) ++ lit " more".

(** The last part of a path, in capitals. *)
Definition sized_name (path : bytes) : bytes :=
  map upper_ascii (match rfind_char "." path with Some dot => drop (S dot) path | None => path end).
Definition sized_text (path : bytes) (decoded : option bytes) : bytes :=
  json_quote (lit "[" ++ sized_name path ++ lit " " ++ dec (match decoded with Some value => size value | None => 0 end) ++ lit " bytes]").

Definition child_path (path key : bytes) : bytes := (if empty path then [] else path ++ lit ".") ++ key.
Definition element_path (path : bytes) : bytes := path ++ lit "[]".

Section Lists.
(** How a value is rendered at a path, one level deeper. *)
Context (show : bytes -> json -> excerpt -> bytes * excerpt) (path : bytes) (depth : nat).

Fixpoint render_fields (dropped : list bytes) (written : nat) (fields : list (bytes * json)) (e : excerpt) : bytes * nat * excerpt :=
  match fields with
  | [] => ([], written, e)
  | (key, field) :: rest =>
      if empty path && contains dropped key then render_fields dropped written rest e
      else
        let lead := separator (written =? 0)%nat ++ indent (depth + 1) ++ json_quote (sanitized_utf8 key false) ++ lit ": " in
        let '(shown, e) := show (child_path path key) field e in
        let '(others, written, e) := render_fields dropped (S written) rest e in
        (lead ++ shown ++ others, written, e)
  end.

Fixpoint render_elements (count : nat) (elements : list json) (e : excerpt) : bytes * nat * excerpt :=
  match elements with
  | [] => ([], count, e)
  | element :: rest =>
      if (max_json_items <=? count)%nat then render_elements (S count) rest e
      else
        let lead := separator (count =? 0)%nat ++ indent (depth + 1) in
        let '(shown, e) := show (element_path path) element e in
        let '(others, count, e) := render_elements (S count) rest e in
        (lead ++ shown ++ others, count, e)
  end.
End Lists.

Section Render.
Context (fields : json_excerpt_fields).

(** Whether a container at a path is opened, and whether it is kept as a whole. *)
Definition opened (subtree : bool) (path : bytes) (depth : nat) : bool :=
  (subtree || empty path || container_allowed (allowed_ fields) path) && negb (maximum_depth <=? depth)%nat.
Definition kept_whole (subtree : bool) (path : bytes) : bool := subtree || (negb (empty path) && contains (allowed_ fields) path).
(** Whether a value that is no container is kept. *)
Definition kept (subtree : bool) (path : bytes) : bool := subtree || contains (allowed_ fields) path.

Fixpoint render (subtree : bool) (path : bytes) (depth : nat) (value : json) (e : excerpt) : bytes * excerpt :=
  match value with
  | JsonObject members =>
      if opened subtree path depth then
        let '(shown, written, e) := render_fields (fun below => render (kept_whole subtree path) below (depth + 1)) path depth (dropped_ fields) 0 members e in
        (lit "{" ++ shown ++ (if (0 <? written)%nat then newline ++ indent depth else []) ++ lit "}", e)
      else (shown_marker, hide_value e)
  | JsonArray elements =>
      if opened subtree path depth then
        let '(shown, count, e) := render_elements (fun below => render (kept_whole subtree path) below (depth + 1)) path depth 0 elements e in
        let '(more, e) :=
          if (max_json_items <? count)%nat then (lit "," ++ newline ++ indent (depth + 1) ++ json_quote (more_items count), omit_items e) else ([], e) in
        (lit "[" ++ shown ++ more ++ (if (0 <? count)%nat then newline ++ indent depth else []) ++ lit "]", e)
      else (shown_marker, hide_value e)
  | JsonNull => (lit "null", e)
  | JsonString decoded =>
      if kept subtree path then
        match decoded with
        | Some characters => keep_string characters e
        | None => (shown_marker, e)
        end
      else if contains (sized_ fields) path then (sized_text path decoded, e)
      else (shown_marker, hide_value e)
  | JsonBoolean view | JsonNumber view _ =>
      if kept subtree path then (sanitized_utf8 view false, e) else (shown_marker, hide_value e)
  end.

(** [render] of a whole value, and [document]: nothing when the text is not JSON. *)
Definition render_value (value : json) (depth : nat) (e : excerpt) : bytes * excerpt := render false [] depth value e.
Definition document `{JsonLibrary} (body : bytes) (e : excerpt) : option (bytes * excerpt) :=
  match parse_json body with
  | Some value => Some (render_value value 0 e)
  | None => None
  end.
End Render.

(** A scan of a sample document. *)
Example render_sample :
  let value := JsonObject [(lit "success", JsonBoolean (lit "true"));
    (lit "result", JsonObject [(lit "id", JsonString (Some (lit "a1"))); (lit "token", JsonString (Some (lit "t")))]); (lit "list", JsonArray [JsonNull])] in
  fst (render_value (JsonExcerptFields [lit "success"; lit "result.id"] [] []) value 0 (fresh_excerpt fresh_redactor)) =
    lit "{" ++ newline ++ lit "  " ++ json_quote (lit "success") ++ lit ": true," ++ newline ++
    lit "  " ++ json_quote (lit "result") ++ lit ": {" ++ newline ++
    lit "    " ++ json_quote (lit "id") ++ lit ": " ++ json_quote (lit "a1") ++ lit "," ++ newline ++
    lit "    " ++ json_quote (lit "token") ++ lit ": " ++ shown_marker ++ newline ++ lit "  }," ++ newline ++
    lit "  " ++ json_quote (lit "list") ++ lit ": " ++ shown_marker ++ newline ++ lit "}".
Proof. by vm_compute. Qed.

(** * What an excerpt does not tell *)

(** Documents that differ only in values the allow-list does not name: such a value is another one, a
    sized string is one of the same length, a container that is not opened is anything. *)
Section Agree.
Context (fields : json_excerpt_fields).

(** A value that an excerpt replaces by the marker. *)
Definition hidden (subtree : bool) (path : bytes) (depth : nat) (value : json) : bool :=
  match value with
  | JsonObject _ | JsonArray _ => negb (opened fields subtree path depth)
  | JsonNull => false
  | JsonString _ => negb (kept fields subtree path) && negb (contains (sized_ fields) path)
  | JsonBoolean _ | JsonNumber _ _ => negb (kept fields subtree path)
  end.

Definition decoded_size (decoded : option bytes) : Z := match decoded with Some value => size value | None => 0 end.

Inductive agree : bool -> bytes -> nat -> json -> json -> Prop :=
  | agree_same subtree path depth value : agree subtree path depth value value
  | agree_hidden subtree path depth a b : hidden subtree path depth a = true -> hidden subtree path depth b = true -> agree subtree path depth a b
  | agree_sized subtree path depth a b : kept fields subtree path = false -> contains (sized_ fields) path = true ->
      decoded_size a = decoded_size b -> agree subtree path depth (JsonString a) (JsonString b)
  | agree_object subtree path depth members members' :
      Forall2 (fun a b => a.1 = b.1 /\ (empty path && contains (dropped_ fields) a.1 = true \/
        agree (kept_whole fields subtree path) (child_path path a.1) (depth + 1) a.2 b.2)) members members' ->
      agree subtree path depth (JsonObject members) (JsonObject members')
  | agree_array subtree path depth elements elements' :
      length elements = length elements' ->
      Forall2 (fun a b => agree (kept_whole fields subtree path) (element_path path) (depth + 1) a b) (take max_json_items elements) (take max_json_items elements') ->
      agree subtree path depth (JsonArray elements) (JsonArray elements').
End Agree.

Lemma render_hidden fields subtree path depth value e : hidden fields subtree path depth value = true -> render fields subtree path depth value e = (shown_marker, hide_value e).
Proof.
  destruct value as [|view|view integer|decoded|elements|members]; cbn [hidden render]; try (by intros ->%negb_true_iff); [done|].
  intros [->%negb_true_iff ->%negb_true_iff]%andb_true_iff. done.
Qed.

Lemma render_fields_agree show show' path depth dropped members members' :
  Forall2 (fun a b => a.1 = b.1 /\ (empty path && contains dropped a.1 = true \/ forall e, show (child_path path a.1) a.2 e = show' (child_path path a.1) b.2 e)) members members' ->
  forall written e, render_fields show path depth dropped written members e = render_fields show' path depth dropped written members' e.
Proof.
  intros Hall. induction Hall as [|[key a] [key' b] members members' [Ekey Hshow] _ IH]; intros written e; [done|]. cbn [render_fields fst snd] in *. subst key'.
  destruct (empty path && contains dropped key) eqn:Edrop; [apply IH|]. destruct Hshow as [|Hshow]; [done|]. rewrite Hshow. destruct (show' _ b e) as [shown e']. by rewrite IH.
Qed.

Lemma render_elements_agree show show' path depth elements : forall elements' count e, length elements = length elements' ->
  Forall2 (fun a b => forall e, show (element_path path) a e = show' (element_path path) b e) (take (max_json_items - count) elements) (take (max_json_items - count) elements') ->
  render_elements show path depth count elements e = render_elements show' path depth count elements' e.
Proof.
  induction elements as [|a elements IH]; intros [|b elements'] count e Hlen Hall; try done. cbn [render_elements]. cbn [length] in Hlen. apply Nat.succ_inj in Hlen.
  destruct (Nat.leb_spec max_json_items count) as [Hle|Hlt].
  - apply IH; [done|]. replace (max_json_items - S count)%nat with 0%nat by lia. constructor.
  - replace (max_json_items - count)%nat with (S (max_json_items - S count)) in Hall by lia. cbn [take] in Hall. apply Forall2_cons in Hall as [Hshow Hall].
    rewrite Hshow. destruct (show' _ b e) as [shown e']. by rewrite (IH elements' (S count) e' Hlen Hall).
Qed.

(** Documents that an allow-list does not tell apart have the same excerpt, and leave the same redactor. *)
Lemma render_agree fields value : forall subtree path depth value' e, agree fields subtree path depth value value' ->
  render fields subtree path depth value e = render fields subtree path depth value' e.
Proof.
  induction value as [|view|view integer|decoded|elements IH|members IH] using json_nested_ind; intros subtree path depth value' e Hagree;
    inversion Hagree as [|? ? ? ? ? Ha Hb|? ? ? ? ? Hkept Hsized Hsize|? ? ? ? ? Hall|? ? ? ? ? Hlen Hall]; subst; try done; try (by rewrite !render_hidden).
  - cbn [render]. rewrite Hkept, Hsized. unfold decoded_size in Hsize. unfold sized_text. by rewrite Hsize.
  - cbn [render]. destruct (opened _ _ _ _); [|done].
    rewrite (render_elements_agree _ (fun below => render fields (kept_whole fields subtree path) below (depth + 1)) path depth elements elements'); [done|done|].
    rewrite Nat.sub_0_r. apply (Forall_take _ max_json_items) in IH. clear Hagree Hlen. revert Hall IH.
    generalize (take max_json_items elements') as shown', (take max_json_items elements) as shown. intros shown' shown Hall IH.
    induction Hall as [|a b elements1 elements2 Hab _ IHall]; constructor; apply Forall_cons in IH as [IHa IH]; [intros e'; by apply IHa|by apply IHall].
  - cbn [render]. destruct (opened _ _ _ _); [|done].
    rewrite (render_fields_agree _ (fun below => render fields (kept_whole fields subtree path) below (depth + 1)) path depth (dropped_ fields) members members'); [done|].
    clear Hagree. induction Hall as [|a b members1 members2 [Ekey Hab] _ IHall]; constructor; apply Forall_cons in IH as [IHa IH]; [|by apply IHall].
    split; [done|]. destruct Hab as [Hdrop|Hab]; [by left|right; intros e'; by apply IHa].
Qed.
