(* ===== verification/RedactedBody.v ===== *)
(** What an attempt trace keeps of the bodies and the answers of its calls:
    src/service/features/attempt_trace/redaction.h (body, response, their views).

    The JSON parser and the reader of certificates are interfaces; the handlers of failed allocations are
    not modelled. *)
From S2P Require Import Prelude RoutePolicy Utf8 TextEncoding Redaction JsonExcerpt.
Open Scope Z_scope.

(** * The views of a body *)

Record redacted_body := RedactedBody { content_type_ : bytes; format_ : bytes; bytes_ : Z; excerpt_ : bytes; truncated_ : bool; omitted_reason_ : bytes }.

(** [std::tm], from the year 0 and the month 1, and what [strftime] makes of it. *)
Record calendar_time := CalendarTime { year_ : Z; month_ : Z; day_ : Z; hour_ : Z; minute_ : Z; second_ : Z }.
Definition two_digits (n : Z) : bytes := [digit (n / 10 mod 10); digit (n mod 10)].
Definition date_text (time : calendar_time) : bytes :=
  dec (year_ time) ++ lit "-" ++ two_digits (month_ time) ++ lit "-" ++ two_digits (day_ time) ++ lit "T" ++
  two_digits (hour_ time) ++ lit ":" ++ two_digits (minute_ time) ++ lit ":" ++ two_digits (second_ time).

(** A certificate as OpenSSL prints its parts, each of which can fail. *)
Record certificate := Certificate { subject_name_ : option bytes; issuer_name_ : option bytes; serial_hex_ : option bytes; not_after_ : option calendar_time }.
(** The certificates [PEM_read_bio_X509] reads of a text, up to its first failure. *)
Class CertificateReader := read_certificates : bytes -> list certificate.

Definition parse_body_max_bytes : Z := 524288.
Definition identifier_bytes : nat := 128.
Definition max_dns_answers : nat := 16.

Definition set_items_omitted (omitted : bool) (r : redactor) : redactor :=
  Redactor (secrets_ r) (redactions_ r) omitted (failed_ r) (secrets_incomplete_ r).
Definition contains_private_key (value : bytes) : bool := mentions value (lit "PRIVATE KEY-----").

(** [count]: what an excerpt hid and left out. *)
Definition count_excerpt (e : excerpt) (r : redactor) : redactor :=
  set_items_omitted (items_omitted_ r || excerpt_items_omitted_ e) (set_redactions (redactions_ r + excerpt_redactions_ e) r).
Definition counted_excerpt (e : excerpt) : redactor := count_excerpt e (keeper_ e).

Section Views.
Context `{SecretOrder} `{JsonLibrary} `{CertificateReader}.

Definition json_view (body : bytes) (fields : json_excerpt_fields) (r : redactor) : option bytes * redactor :=
  match document fields body (fresh_excerpt r) with
  | Some (output, e) => (Some output, counted_excerpt e)
  | None => (None, r)
  end.

(** [get<ruvia::string>] and [get<ruvia::int64>] of a field. *)
Definition string_field (members : list (bytes * json)) (name : bytes) : option bytes :=
  match find_field members name with Some (JsonString decoded) => decoded | _ => None end.
Definition integer_field (members : list (bytes * json)) (name : bytes) : option Z :=
  match find_field members name with Some (JsonNumber _ integer) => integer | _ => None end.

Definition protected_fields : list bytes := [lit "alg"; lit "url"].
Definition unseen_part (e : excerpt) : bytes * excerpt := (shown_marker, set_keeper (redacted_once (keeper_ e)) e).
Definition decoded_json (encoded : option bytes) : option json :=
  match encoded with Some value => match base64_url_decode value with Some decoded => parse_json decoded | None => None end | None => None end.
Definition jws_header (members : list (bytes * json)) (e : excerpt) : bytes * excerpt :=
  match decoded_json (string_field members (lit "protected")) with
  | Some (JsonObject header) => render_value (JsonExcerptFields protected_fields [] [lit "nonce"]) (JsonObject header) 1 e
  | _ => unseen_part e
  end.
Definition jws_payload (policy : outbound_policy) (members : list (bytes * json)) (e : excerpt) : bytes * excerpt :=
  let payload := match string_field members (lit "payload") with Some value => base64_url_decode value | None => None end in
  if bool_decide (payload = Some []) then (json_quote (lit "(POST-as-GET)"), e)
  else
    match payload with
    | Some decoded =>
        match parse_json decoded with
        | Some value => render_value (JsonExcerptFields (request_fields_ policy) (request_sized_fields_ policy) []) value 1 e
        | None => unseen_part e
        end
    | None => unseen_part e
    end.
Definition jws_view (policy : outbound_policy) (body : bytes) (r : redactor) : option bytes * redactor :=
  match parse_json body with
  | Some (JsonObject members) =>
      let '(header, e) := jws_header members (fresh_excerpt r) in
      let '(payload, e) := jws_payload policy members e in
      let r := counted_excerpt e in
      let r := match string_field members (lit "signature") with Some signature => remember r signature | None => r end in
      (Some (lit "{" ++ newline ++ lit "  " ++ json_quote (lit "protected") ++ lit ": " ++ header ++ lit "," ++ newline ++
             lit "  " ++ json_quote (lit "payload") ++ lit ": " ++ payload ++ newline ++ lit "}"), r)
  | _ => (None, r)
  end.

Definition or_nothing (value : option bytes) : bytes := match value with Some value => value | None => [] end.
Definition not_after_text (time : option calendar_time) : bytes := match time with Some time => date_text time ++ lit "Z" | None => [] end.
Definition certificate_view (first : bool) (c : certificate) (r : redactor) : bytes * redactor :=
  let '(subject, r) := text r (or_nothing (subject_name_ c)) value_bytes in
  let '(issuer, r) := text r (or_nothing (issuer_name_ c)) value_bytes in
  (separator first ++ lit "  {" ++ newline ++ lit "    " ++ json_quote (lit "subject") ++ lit ": " ++ json_quote subject ++
   lit "," ++ newline ++ lit "    " ++ json_quote (lit "issuer") ++ lit ": " ++ json_quote issuer ++
   lit "," ++ newline ++ lit "    " ++ json_quote (lit "serial_number") ++ lit ": " ++ json_quote (or_nothing (serial_hex_ c)) ++
   lit "," ++ newline ++ lit "    " ++ json_quote (lit "not_after") ++ lit ": " ++ json_quote (not_after_text (not_after_ c)) ++ newline ++ lit "  }", r).
Fixpoint certificates_view (count : nat) (chain : list certificate) (r : redactor) : bytes * redactor :=
  match chain with
  | [] => ([], r)
  | c :: rest =>
      if (max_json_items <=? count)%nat then certificates_view (S count) rest r
      else
        let '(shown, r) := certificate_view (count =? 0)%nat c r in
        let '(others, r) := certificates_view (S count) rest r in (shown ++ others, r)
  end.
Definition certificate_chain_view (body : bytes) (r : redactor) : option bytes * redactor :=
  match read_certificates body with
  | [] => (None, r)
  | chain => let '(shown, r) := certificates_view 0 chain r in (Some (lit "[" ++ shown ++ newline ++ lit "]"), r)
  end.

(** * [body] *)

Definition omit (result : redacted_body) (reason : bytes) : redacted_body :=
  RedactedBody (content_type_ result) (lit "omitted") (bytes_ result) [] false reason.

Definition body_fields (policy : outbound_policy) (request : bool) : json_excerpt_fields :=
  JsonExcerptFields (if request then request_fields_ policy else response_fields_ policy) (if request then request_sized_fields_ policy else []) [].

(** The chain that chooses a view; the format it announces and the excerpt, when it could be made. *)
Definition body_excerpt (policy : outbound_policy) (request : bool) (type body : bytes) (r : redactor) : option bytes * bytes * redactor :=
  let rule := if request then request_body_rule_ policy else response_body_rule_ policy in
  let looks_json := match body with c :: _ => (c == "{"%char) || (c == "["%char) | [] => false end in
  if (rule == BodyJws) && (type == lit "application/jose+json") then let '(shown, r) := jws_view policy body r in (shown, lit "jws_decoded", r)
  else if (rule == BodyForm) && (type == lit "application/x-www-form-urlencoded") then let '(shown, r) := form_view policy r body in (Some shown, lit "form", r)
  else if (rule == BodyPemChain) && negb request && ((type == lit "application/pem-certificate-chain") || starts_with body (lit "-----BEGIN"))
  then let '(shown, r) := certificate_chain_view body r in (shown, lit "pem_summary", r)
  else if json_media_type type || (empty type && looks_json) then let '(shown, r) := json_view body (body_fields policy request) r in (shown, lit "json", r)
  else (None, [], r).

Definition body (policy : outbound_policy) (request : bool) (content_type body : bytes) (limit budget : Z) (r : redactor) : redacted_body * redactor :=
  let type := media_type content_type in
  let '(shown_type, r) := text r type value_bytes in
  let result := RedactedBody shown_type [] (size body) [] false [] in
  let rule := if request then request_body_rule_ policy else response_body_rule_ policy in
  if contains_private_key body then (omit result (lit "secret_material"), redacted_once r)
  else if rule == BodyNone then (omit result (lit "policy"), r)
  else if parse_body_max_bytes <? size body then (omit result (lit "too_large"), r)
  else if budget =? 0 then (omit result (lit "budget"), r)
  else
    let '(excerpt, format, r) := body_excerpt policy request type body (set_items_omitted false r) in
    let kept :=
      match excerpt with
      | Some excerpt => Some (excerpt, format)
      | None => if starts_with type (lit "text/") || ((empty type || (format == lit "json")) && valid_utf8_text body) then Some (body, lit "text") else None
      end in
    match kept with
    | None => (omit result (lit "binary"), r)
    | Some (excerpt, format) =>
        let '(shown, truncated, r) := text_full (set_items_omitted false r) excerpt (Z.to_nat (Z.min limit budget)) true (items_omitted_ r) in
        (RedactedBody shown_type format (size body) shown truncated [], r)
    end.

(** * [response]: what a reply says of itself *)

Record header_entry := HeaderEntry { header_name_ : bytes; header_value_ : bytes }.
Record dns_answer := DnsAnswer { answer_name_ : bytes; answer_type_ : bytes; answer_ttl_ : Z; answer_data_ : bytes }.
Record dns_observation := DnsObservation {
  observed_name_ : bytes; observed_type_ : bytes; rcode_ : bytes; rcode_number_ : bytes; answers_ : list dns_answer; answers_truncated_ : bool }.
Record response_facts := ResponseFacts { request_id_ : bytes; provider_code_ : bytes; dns_ : option dns_observation }.

Definition dns_type_name (value : Z) : bytes :=
  match value with
  | 1 => lit "A" | 2 => lit "NS" | 5 => lit "CNAME" | 6 => lit "SOA" | 12 => lit "PTR" | 15 => lit "MX" | 16 => lit "TXT"
  | 28 => lit "AAAA" | 33 => lit "SRV" | 64 => lit "SVCB" | 65 => lit "HTTPS" | 257 => lit "CAA" | _ => []
  end.
Definition dns_rcode_name (value : Z) : bytes :=
  match value with
  | 0 => lit "NOERROR" | 1 => lit "FORMERR" | 2 => lit "SERVFAIL" | 3 => lit "NXDOMAIN" | 4 => lit "NOTIMP" | 5 => lit "REFUSED" | _ => []
  end.
(** [std::to_string] of a signed integer. *)
Definition integer_text (value : Z) : bytes := if value <? 0 then lit "-" ++ dec (- value) else dec value.

(** [visit_field]: the value at a path, an array segment's first element. *)
Fixpoint visit_field {A} (fuel : nat) (value : json) (path : bytes) (visit : json -> option A) : option A :=
  match fuel, value with
  | S fuel, JsonObject members =>
      let dot := find_char "." path in
      let segment := upto dot path in
      let rest := after dot path in
      let next value := if empty rest then visit value else visit_field fuel value rest visit in
      if ends_with segment (lit "[]") then
        match find_field members (take (length segment - 2) segment) with
        | Some (JsonArray (first :: _)) => next first
        | _ => None
        end
      else match find_field members segment with Some field => next field | None => None end
  | _, _ => None
  end.
(** The text of an error code: a number or a string. *)
Definition code_text (code : json) : option bytes :=
  match code with JsonNumber view _ => Some view | JsonString decoded => decoded | _ => None end.

(** A text that is kept when there is one. *)
Definition text_of (value : option bytes) (limit : nat) (r : redactor) : bytes * redactor :=
  match value with Some value => text r value limit | None => ([], r) end.
Definition answer_members (answer : json) : list (bytes * json) := match answer with JsonObject members => members | _ => [] end.
Definition type_text (number : Z) : bytes := if empty (dns_type_name number) then lit "TYPE" ++ integer_text number else dns_type_name number.
Definition answer_view (answer : json) (r : redactor) : dns_answer * redactor :=
  let members := answer_members answer in
  let '(name, r) := text_of (string_field members (lit "name")) value_bytes r in
  let '(type, r) := text_of (type_text <$> integer_field members (lit "type")) identifier_bytes r in
  let ttl := match integer_field members (lit "TTL") with Some ttl => ttl | None => 0 end in
  let '(data, r) := text_of (string_field members (lit "data")) value_bytes r in
  (DnsAnswer name type ttl data, r).
Fixpoint answers_view (count : nat) (elements : list json) (r : redactor) : list dns_answer * bool * redactor :=
  match elements with
  | [] => ([], false, r)
  | element :: rest =>
      if (max_dns_answers <=? count)%nat then let '(answers, _, r) := answers_view count rest r in (answers, true, r)
      else
        let '(answer, r) := answer_view element r in
        let '(answers, truncated, r) := answers_view (S count) rest r in (answer :: answers, truncated, r)
  end.
Definition unanswered_query (r : redactor) (name type : bytes) : dns_observation * redactor :=
  let '(name, r) := text r name value_bytes in
  let '(type, r) := text r type identifier_bytes in (DnsObservation name type [] [] [] false, r).
Definition dns_view (members : list (bytes * json)) (query_name query_type : bytes) (r : redactor) : dns_observation * redactor :=
  let '(observed, r) := unanswered_query r query_name query_type in
  let '(rcode, number) := match integer_field members (lit "Status") with
    | Some value => (if empty (dns_rcode_name value) then lit "RCODE" ++ integer_text value else dns_rcode_name value, integer_text value)
    | None => ([], []) end in
  let '(answers, truncated, r) := match find_field members (lit "Answer") with
    | Some (JsonArray elements) => answers_view 0 elements r
    | _ => ([], false, r) end in
  (DnsObservation (observed_name_ observed) (observed_type_ observed) rcode number answers truncated, r).

(** The first header that carries a request id, by the policy's order. *)
Definition request_id_header (names : list bytes) (headers : list header_entry) : option bytes :=
  first_some (fun name => header_value_ <$> List.find (fun header => equals_ignore_case (header_name_ header) name) headers) names.
(** The document a reply's facts are read from. *)
Definition reply_document (body : bytes) : option (list (bytes * json)) :=
  if empty body || (parse_body_max_bytes <? size body) || contains_private_key body ||
     negb (match body with c :: _ => (c == "{"%char) || (c == "["%char) | [] => false end) then None
  else match parse_json body with Some (JsonObject members) => Some members | _ => None end.
Definition response (policy : outbound_policy) (headers : list header_entry) (content_type body : bytes) (status : Z)
    (query_name query_type : bytes) (r : redactor) : response_facts * redactor :=
  let identity := identity_ policy in
  let '(request_id, r) := text_of (request_id_header (request_id_headers_ identity) headers) identifier_bytes r in
  match reply_document body with
  | None => (ResponseFacts request_id [] None, r)
  | Some members =>
      let '(request_id, r) :=
        if empty request_id && negb (empty (request_id_field_ identity)) then text_of (string_field members (request_id_field_ identity)) identifier_bytes r
        else (request_id, r) in
      let '(code, r) :=
        if negb (error_code_on_failure_only_ identity) || (400 <=? status) || (media_type content_type == lit "application/problem+json")
        then text_of (first_some (fun field => visit_field (S (length field)) (JsonObject members) field code_text) (error_code_fields_ identity)) identifier_bytes r
        else ([], r) in
      if dns_query_ policy then
        let '(observed, r) := dns_view members query_name query_type r in
        let '(code, r) :=
          if negb (empty (rcode_number_ observed)) && (rcode_number_ observed != lit "0") && empty code
          then text r (rcode_ observed) identifier_bytes else (code, r) in
        (ResponseFacts request_id code (Some observed), r)
      else (ResponseFacts request_id code None, r)
  end.

End Views.

(** * No secret is forgotten *)

(** One call of a sequence: it grows the redactor, and the rest goes on from what it returns. *)
Ltac through Hgrow :=
  let Hg := fresh "Hg" in pose proof Hgrow as Hg;
  match type of Hg with grows _ (snd ?call) => destruct call as [? ?]; cbn [snd] in Hg end;
  etransitivity; [exact Hg|]; clear Hg.

Lemma counted_excerpt_grows e : grows (keeper_ e) (counted_excerpt e).
Proof. by apply grows_same. Qed.
Lemma omitted_grows r omitted : grows r (set_items_omitted omitted r).
Proof. by apply grows_same. Qed.

(** What an excerpt does to its redactor, as a growth of it. *)
Definition draws (e : excerpt) (drawn : bytes * excerpt) : Prop := grows (keeper_ e) (keeper_ (snd drawn)).

Lemma keep_string_draws value e : draws e (keep_string value e).
Proof. unfold draws, keep_string. pose proof (text_grows (keeper_ e) value value_bytes) as Hg. by destruct (text _ _ _). Qed.

Lemma render_fields_draws show path depth dropped members :
  Forall (fun field => forall below e, draws e (show below field.2 e)) members ->
  forall written e, grows (keeper_ e) (keeper_ (snd (render_fields show path depth dropped written members e))).
Proof.
  intros Hall. induction Hall as [|[key field] members Hshow _ IH]; intros written e; [done|]. cbn [render_fields snd] in *.
  destruct (_ && _); [apply IH|]. specialize (Hshow (child_path path key) e). unfold draws in Hshow. destruct (show _ field e) as [shown e']. cbn [snd] in Hshow.
  etransitivity; [exact Hshow|]. specialize (IH (S written) e'). by destruct (render_fields _ _ _ _ _ _ _) as [[others total] e''].
Qed.
Lemma render_elements_draws show path depth elements :
  Forall (fun element => forall below e, draws e (show below element e)) elements ->
  forall count e, grows (keeper_ e) (keeper_ (snd (render_elements show path depth count elements e))).
Proof.
  intros Hall. induction Hall as [|element elements Hshow _ IH]; intros count e; [done|]. cbn [render_elements snd] in *.
  destruct (max_json_items <=? count)%nat; [apply IH|]. specialize (Hshow (element_path path) e). unfold draws in Hshow. destruct (show _ element e) as [shown e']. cbn [snd] in Hshow.
  etransitivity; [exact Hshow|]. specialize (IH (S count) e'). by destruct (render_elements _ _ _ _ _ _) as [[others total] e''].
Qed.
Lemma render_draws fields value : forall subtree path depth e, draws e (render fields subtree path depth value e).
Proof.
  induction value as [|view|view integer|[characters|]|elements IH|members IH] using json_nested_ind; intros subtree path depth e; cbn [render]; try (by repeat case_match).
  - destruct (kept _ _ _); [apply keep_string_draws|]. by destruct (contains _ _).
  - destruct (opened _ _ _ _); [|done]. unfold draws.
    pose proof (render_elements_draws (fun below => render fields (kept_whole fields subtree path) below (depth + 1)) path depth elements) as Hd.
    specialize (Hd ltac:(eapply Forall_impl; [exact IH|]; intros element Hel below e'; apply Hel) 0%nat e).
    destruct (render_elements _ _ _ _ _ _) as [[shown count] e']. cbn [snd] in Hd |- *. by destruct (max_json_items <? count)%nat.
  - destruct (opened _ _ _ _); [|done]. unfold draws.
    pose proof (render_fields_draws (fun below => render fields (kept_whole fields subtree path) below (depth + 1)) path depth (dropped_ fields) members) as Hd.
    specialize (Hd ltac:(eapply Forall_impl; [exact IH|]; intros member Hm below e'; apply Hm) 0%nat e).
    by destruct (render_fields _ _ _ _ _ _ _) as [[shown written] e'].
Qed.

Section Growth.
Context `{SecretOrder} `{JsonLibrary} `{CertificateReader}.

Lemma json_view_grows content fields r : grows r (snd (json_view content fields r)).
Proof.
  unfold json_view, document. destruct (parse_json content) as [value|]; [|done]. pose proof (render_draws fields value false [] 0 (fresh_excerpt r)) as Hd.
  unfold draws in Hd. unfold render_value. destruct (render _ _ _ _ _ _) as [output e]. etransitivity; [exact Hd|apply counted_excerpt_grows].
Qed.
Lemma unseen_part_draws e : draws e (unseen_part e).
Proof. apply redacted_once_grows. Qed.
Lemma jws_header_draws members e : draws e (jws_header members e).
Proof. unfold jws_header. repeat case_match; first [apply render_draws|apply unseen_part_draws]. Qed.
Lemma jws_payload_draws policy members e : draws e (jws_payload policy members e).
Proof. unfold jws_payload. case_bool_decide; [by unfold draws|]. repeat case_match; first [apply render_draws|apply unseen_part_draws]. Qed.
Lemma jws_view_grows policy content r : grows r (snd (jws_view policy content r)).
Proof.
  unfold jws_view. destruct (parse_json content) as [[| | | | |members]|]; try done.
  pose proof (jws_header_draws members (fresh_excerpt r)) as Hh. unfold draws in Hh. destruct (jws_header _ _) as [header e].
  pose proof (jws_payload_draws policy members e) as Hp. unfold draws in Hp. destruct (jws_payload _ _ _) as [payload e']. cbn [snd] in *.
  etransitivity; [exact Hh|]. etransitivity; [exact Hp|]. etransitivity; [apply counted_excerpt_grows|].
  destruct (string_field _ _); [apply remember_grows|done].
Qed.
Lemma certificate_view_grows first c r : grows r (snd (certificate_view first c r)).
Proof. unfold certificate_view. through (text_grows r (or_nothing (subject_name_ c)) value_bytes). by through (text_grows r0 (or_nothing (issuer_name_ c)) value_bytes). Qed.
Lemma certificates_view_grows chain : forall count r, grows r (snd (certificates_view count chain r)).
Proof.
  induction chain as [|c chain IH]; intros count r; [done|]. cbn [certificates_view]. destruct (_ <=? _)%nat; [apply IH|].
  through (certificate_view_grows (count =? 0)%nat c r). by through (IH (S count) r0).
Qed.
Lemma certificate_chain_view_grows content r : grows r (snd (certificate_chain_view content r)).
Proof. unfold certificate_chain_view. destruct (read_certificates content) as [|c chain]; [done|]. by through (certificates_view_grows (c :: chain) 0 r). Qed.

Lemma body_excerpt_grows policy request type content r : grows r (snd (body_excerpt policy request type content r)).
Proof.
  unfold body_excerpt. destruct (_ && _); [by through (jws_view_grows policy content r)|]. destruct (_ && _); [by through (form_view_grows policy r content)|].
  destruct (_ && _); [by through (certificate_chain_view_grows content r)|]. destruct (_ || _); [by through (json_view_grows content (body_fields policy request) r)|done].
Qed.
Lemma body_grows policy request content_type content limit budget r : grows r (snd (body policy request content_type content limit budget r)).
Proof.
  unfold body. through (text_grows r (media_type content_type) value_bytes). destruct (contains_private_key _); [apply redacted_once_grows|].
  destruct (_ == _); [done|]. destruct (_ <? _); [done|]. destruct (_ =? _); [done|].
  etransitivity; [apply (omitted_grows r0 false)|]. through (body_excerpt_grows policy request (media_type content_type) content (set_items_omitted false r0)).
  destruct p as [excerpt format].
  destruct (match excerpt with Some _ => _ | None => _ end) as [[shown format']|]; [|done].
  etransitivity; [apply (omitted_grows r1 false)|]. through (text_full_grows (set_items_omitted false r1) shown (Z.to_nat (Z.min limit budget)) true (items_omitted_ r1)). by destruct p.
Qed.

Lemma text_of_grows value limit r : grows r (snd (text_of value limit r)).
Proof. destruct value; [apply text_grows|done]. Qed.
Lemma answer_view_grows answer r : grows r (snd (answer_view answer r)).
Proof.
  unfold answer_view. through (text_of_grows (string_field (answer_members answer) (lit "name")) value_bytes r).
  through (text_of_grows (type_text <$> integer_field (answer_members answer) (lit "type")) identifier_bytes r0).
  by through (text_of_grows (string_field (answer_members answer) (lit "data")) value_bytes r1).
Qed.
Lemma answers_view_grows elements : forall count r, grows r (snd (answers_view count elements r)).
Proof.
  induction elements as [|element elements IH]; intros count r; [done|]. cbn [answers_view]. destruct (_ <=? _)%nat.
  - specialize (IH count r). by destruct (answers_view count elements r) as [[answers truncated] r'].
  - through (answer_view_grows element r). specialize (IH (S count) r0). by destruct (answers_view _ _ r0) as [[answers truncated] r'].
Qed.
Lemma unanswered_query_grows r name type : grows r (snd (unanswered_query r name type)).
Proof. unfold unanswered_query. through (text_grows r name value_bytes). by through (text_grows r0 type identifier_bytes). Qed.
Lemma dns_view_grows members query_name query_type r : grows r (snd (dns_view members query_name query_type r)).
Proof.
  unfold dns_view. through (unanswered_query_grows r query_name query_type). destruct (match integer_field members (lit "Status") with Some _ => _ | None => _ end) as [rcode number].
  destruct (find_field members (lit "Answer")) as [[| | | |elements|]|]; try done.
  pose proof (answers_view_grows elements 0 r0) as Hg. by destruct (answers_view 0 elements r0) as [[answers truncated] r'].
Qed.
Lemma response_grows policy headers content_type content status query_name query_type r :
  grows r (snd (response policy headers content_type content status query_name query_type r)).
Proof.
  unfold response. through (text_of_grows (request_id_header (request_id_headers_ (identity_ policy)) headers) identifier_bytes r).
  destruct (reply_document content) as [members|]; [|done].
  match goal with |- context [let '(_, _) := (if ?c then ?a else ?b) in _] => assert (grows r0 (snd (if c then a else b))) as Hid by (destruct c; [apply text_of_grows|done]) end.
  through Hid. clear Hid.
  match goal with |- context [let '(_, _) := (if ?c then ?a else ?b) in _] => assert (grows r1 (snd (if c then a else b))) as Hcode by (destruct c; [apply text_of_grows|done]) end.
  through Hcode. clear Hcode. destruct (dns_query_ policy); [|done]. through (dns_view_grows members query_name query_type r2).
  match goal with |- context [let '(_, _) := (if ?c then ?a else ?b) in _] => assert (grows r3 (snd (if c then a else b))) as Hcode by (destruct c; [apply text_grows|done]) end.
  by through Hcode.
Qed.
End Growth.

(** * Histories *)

(** What a caller can do with a redactor. *)
Inductive operation :=
  | Register (value : bytes) | ExternalText (value fallback : bytes) | Text (value : bytes) (limit : nat) (multiline : bool)
  | Url (policy : outbound_policy) (scheme host target : bytes) | RequestHeader (name value : bytes)
  | ResponseHeader (policy : outbound_policy) (name value : bytes) | FormView (policy : outbound_policy) (content : bytes)
  | Body (policy : outbound_policy) (request : bool) (content_type content : bytes) (limit budget : Z)
  | Response (policy : outbound_policy) (headers : list header_entry) (content_type content : bytes) (status : Z) (query_name query_type : bytes)
  | UnansweredQuery (name type : bytes).
Definition perform `{SecretOrder} `{JsonLibrary} `{CertificateReader} (r : redactor) (op : operation) : redactor :=
  match op with
  | Register value => register_secret r value
  | ExternalText value fallback => snd (external_text r value fallback)
  | Text value limit multiline => snd (text_full r value limit multiline false)
  | Url policy scheme host target => snd (url policy r scheme host target)
  | RequestHeader name value => snd (request_header r name value)
  | ResponseHeader policy name value => snd (response_header policy r name value)
  | FormView policy content => snd (form_view policy r content)
  | Body policy request content_type content limit budget => snd (body policy request content_type content limit budget r)
  | Response policy headers content_type content status query_name query_type => snd (response policy headers content_type content status query_name query_type r)
  | UnansweredQuery name type => snd (unanswered_query r name type)
  end.
Definition perform_all `{SecretOrder} `{JsonLibrary} `{CertificateReader} (r : redactor) (history : list operation) : redactor := fold_left perform history r.

Lemma perform_grows `{SecretOrder} `{JsonLibrary} `{CertificateReader} r op : grows r (perform r op).
Proof.
  destruct op; cbn [perform]; [apply register_grows|apply external_text_grows|apply text_full_grows|apply url_grows|apply request_header_grows
    |apply response_header_grows|apply form_view_grows|apply body_grows|apply response_grows|apply unanswered_query_grows].
Qed.
Lemma perform_all_grows `{SecretOrder} `{JsonLibrary} `{CertificateReader} history : forall r, grows r (perform_all r history).
Proof. induction history as [|op history IH]; intros r; [done|]. etransitivity; [apply perform_grows|apply IH]. Qed.


(** A reader of two documents and none. *)
Definition sample_body (value : string) : bytes := lit "{" ++ json_quote (lit "name") ++ lit ":" ++ json_quote (lit value) ++ lit "," ++ json_quote (lit "id") ++ lit ":" ++ json_quote (lit "z1") ++ lit "}".
Definition sample_document (value : string) : json := JsonObject [(lit "name", JsonString (Some (lit value))); (lit "id", JsonString (Some (lit "z1")))].
Definition sample_json : JsonLibrary := {|
  parse_json := fun text => if text == sample_body "opened" then Some (sample_document "opened") else if text == sample_body "closed" then Some (sample_document "closed") else None;
  find_field := fun members name => snd <$> List.find (fun member => fst member == name) members |}.
Definition no_certificates : CertificateReader := fun _ => [].


(** * What a body's excerpt does not tell *)


