(* ===== verification/TraceDocument.v ===== *)
(** The stored trace of an attempt: src/service/features/attempt_trace/mapper.h, with the codes and the
    bounds of model.h.

    The wire models are records; ruvia's serializer, which writes one as JSON, is an interface. Points in
    time are nanoseconds. *)
From S2P Require Import Prelude RoutePolicy Utf8 TextEncoding Redaction JsonExcerpt RedactedBody.
Open Scope Z_scope.

(** * Codes *)

Inductive trace_kind := TraceDnsSync | TraceCertificate | TraceWebsiteDomains | TraceProvider | TraceNodeApply.
Definition trace_kind_name (kind : trace_kind) : bytes :=
  match kind with
  | TraceDnsSync => lit "dns_sync" | TraceCertificate => lit "certificate" | TraceWebsiteDomains => lit "website_domains"
  | TraceProvider => lit "provider" | TraceNodeApply => lit "node_apply"
  end.

Inductive step_code :=
  | StepLoadState | StepOpenCredential | StepValidateTtl | StepFindZone | StepListRecords | StepListLines | StepDeleteObsolete
  | StepReconcileRecords | StepPersistResult | StepPrepare | StepAccount | StepOrder | StepAuthorization | StepDnsChallenge | StepValidation
  | StepCleanup | StepFinalize | StepDownload | StepPersist | StepLoadWebsite | StepCheckDomain | StepSaveRuntime | StepLoadProvider
  | StepDecryptCredential | StepVerifyDnsCredential | StepLoadAcmeSettings | StepLoadEab | StepCheckAcmeDirectory | StepSaveResult
  | StepSendDesiredState | StepServeObjects | StepLoadObjects | StepFetchObjects | StepStageConfig | StepValidateConfig
  | StepPrepareListeners | StepActivateConfig | StepNodeStep | StepRecordResult | StepRecordFailure | StepUnscoped.
#[export] Instance step_code_eq_dec : EqDecision step_code.
Proof. solve_decision. Defined.

Record step_descriptor := StepDescriptor { descriptor_code_ : step_code; descriptor_name_ : bytes; descriptor_label_ : bytes }.
Definition step_descriptors : list step_descriptor := [
  StepDescriptor StepLoadState (lit "load_state") (lit "加载同步状态");
  StepDescriptor StepOpenCredential (lit "open_credential") (lit "解密凭据");
  StepDescriptor StepValidateTtl (lit "validate_ttl") (lit "校验 TTL");
  StepDescriptor StepFindZone (lit "find_zone") (lit "查找远程托管域名");
  StepDescriptor StepListRecords (lit "list_records") (lit "拉取远程记录");
  StepDescriptor StepListLines (lit "list_lines") (lit "拉取解析线路");
  StepDescriptor StepDeleteObsolete (lit "delete_obsolete") (lit "删除过期远程记录");
  StepDescriptor StepReconcileRecords (lit "reconcile_records") (lit "同步期望记录");
  StepDescriptor StepPersistResult (lit "persist_result") (lit "保存同步结果");
  StepDescriptor StepPrepare (lit "prepare") (lit "准备签发");
  StepDescriptor StepAccount (lit "account") (lit "ACME 账户");
  StepDescriptor StepOrder (lit "order") (lit "创建订单");
  StepDescriptor StepAuthorization (lit "authorization") (lit "获取域名授权");
  StepDescriptor StepDnsChallenge (lit "dns_challenge") (lit "写入 DNS 验证记录并等待生效");
  StepDescriptor StepValidation (lit "validation") (lit "证书颁发机构验证");
  StepDescriptor StepCleanup (lit "cleanup") (lit "清理 DNS 验证记录");
  StepDescriptor StepFinalize (lit "finalize") (lit "提交证书请求并等待签发");
  StepDescriptor StepDownload (lit "download") (lit "下载并校验证书");
  StepDescriptor StepPersist (lit "persist") (lit "保存证书");
  StepDescriptor StepLoadWebsite (lit "load_website") (lit "读取网站配置");
  StepDescriptor StepCheckDomain (lit "check_domain") (lit "检测域名解析");
  StepDescriptor StepSaveRuntime (lit "save_runtime") (lit "保存解析结果");
  StepDescriptor StepLoadProvider (lit "load_provider") (lit "读取供应商状态");
  StepDescriptor StepDecryptCredential (lit "decrypt_credential") (lit "解密凭据");
  StepDescriptor StepVerifyDnsCredential (lit "verify_dns_credential") (lit "校验 DNS 服务商凭据");
  StepDescriptor StepLoadAcmeSettings (lit "load_acme_settings") (lit "解析证书供应商配置");
  StepDescriptor StepLoadEab (lit "load_eab") (lit "获取 EAB 凭据");
  StepDescriptor StepCheckAcmeDirectory (lit "check_acme_directory") (lit "检测 ACME 目录");
  StepDescriptor StepSaveResult (lit "save_result") (lit "保存检测结果");
  StepDescriptor StepSendDesiredState (lit "send_desired_state") (lit "下发期望状态");
  StepDescriptor StepServeObjects (lit "serve_objects") (lit "发送发布对象");
  StepDescriptor StepLoadObjects (lit "load_objects") (lit "读取本地缓存对象");
  StepDescriptor StepFetchObjects (lit "fetch_objects") (lit "向控制面请求缺失对象");
  StepDescriptor StepStageConfig (lit "stage_config") (lit "暂存配置");
  StepDescriptor StepValidateConfig (lit "validate_config") (lit "校验配置");
  StepDescriptor StepPrepareListeners (lit "prepare_listeners") (lit "准备监听");
  StepDescriptor StepActivateConfig (lit "activate_config") (lit "激活配置");
  StepDescriptor StepNodeStep (lit "node_step") (lit "节点步骤");
  StepDescriptor StepRecordResult (lit "record_result") (lit "记录应用结果");
  StepDescriptor StepRecordFailure (lit "record_failure") (lit "记录失败");
  StepDescriptor StepUnscoped (lit "unscoped") (lit "其他操作")].
(** The loop over the descriptors; the last one stands for a code none has. *)
Definition describe_step (code : step_code) : step_descriptor :=
  match List.find (fun descriptor => descriptor_code_ descriptor == code) step_descriptors with
  | Some descriptor => descriptor
  | None => List.last step_descriptors (StepDescriptor code [] [])
  end.
Definition node_phase_step (phase : bytes) : step_code :=
  if phase == lit "load_objects" then StepLoadObjects else if phase == lit "fetch_objects" then StepFetchObjects
  else if phase == lit "stage" then StepStageConfig else if phase == lit "validate" then StepValidateConfig
  else if phase == lit "prepare_listeners" then StepPrepareListeners else if phase == lit "activate" then StepActivateConfig
  else StepNodeStep.

Inductive step_outcome := OutcomeCompleted | OutcomeFailed | OutcomeSkipped | OutcomeInterrupted.
#[export] Instance step_outcome_eq_dec : EqDecision step_outcome.
Proof. solve_decision. Defined.
Definition step_outcome_name (outcome : step_outcome) : bytes :=
  match outcome with
  | OutcomeCompleted => lit "completed" | OutcomeFailed => lit "failed" | OutcomeSkipped => lit "skipped" | OutcomeInterrupted => lit "interrupted"
  end.
Definition step_outcome_severity (outcome : step_outcome) : Z :=
  match outcome with OutcomeCompleted => 0 | OutcomeSkipped => 1 | OutcomeInterrupted => 2 | OutcomeFailed => 3 end.

Inductive log_level := LevelInfo | LevelWarning | LevelError.
#[export] Instance log_level_eq_dec : EqDecision log_level.
Proof. solve_decision. Defined.
Definition log_level_name (level : log_level) : bytes :=
  match level with LevelInfo => lit "info" | LevelWarning => lit "warning" | LevelError => lit "error" end.

(** * What a recorder captured *)

Record recorded_http := RecordedHttp {
  method_ : bytes; scheme_ : bytes; host_ : bytes; http_url_ : redacted_url; request_headers_ : list redacted_pair; request_body_ : option redacted_body;
  status_ : Z; transport_error_ : bytes; response_headers_ : list redacted_pair; response_body_ : option redacted_body }.
Record recorded_node := RecordedNode {
  direction_ : bytes; message_ : bytes; node_request_id_ : bytes; object_count_ : Z; node_bytes_ : Z; node_fields_ : list (bytes * bytes) }.
Record recorded_call := RecordedCall {
  call_kind_ : bytes; operation_ : bytes; subject_ : bytes; started_ : Z; last_started_ : Z; duration_ms_ : Z; duration_ms_override_ : option Z;
  outcome_ : bytes; repeat_count_ : Z; repeat_total_ms_ : Z; provider_request_id_ : bytes; call_provider_code_ : bytes; error_ : bytes;
  http_ : option recorded_http; call_dns_ : option dns_observation; node_ : option recorded_node; call_bytes_ : Z }.
Record recorded_log := RecordedLog { at_ : Z; level_ : log_level; log_message_ : bytes; log_repeat_count_ : Z }.
Record recorded_related := RecordedRelated { resource_type_ : bytes; resource_id_ : bytes; related_label_ : bytes }.
Record recorded_step := RecordedStep {
  code_ : step_code; step_subject_ : bytes; step_started_ : Z; reported_started_at_ : option Z; reported_phase_ : bytes; offset_ms_ : Z;
  step_duration_ms_ : Z; step_outcome_ : step_outcome; step_open_ : bool; step_error_ : bytes; related_ : option recorded_related;
  calls_ : list recorded_call; logs_ : list recorded_log; call_count_ : Z; step_omitted_calls_ : Z }.
Record recorded_trace := RecordedTrace {
  trace_kind_ : trace_kind; trace_worker_type_ : bytes; trace_started_ : Z; trace_system_started_ : Z; trace_steps_ : list recorded_step;
  trace_call_total_ : Z; trace_log_total_ : Z; trace_omitted_steps_ : Z; trace_omitted_calls_ : Z; trace_omitted_logs_ : Z;
  trace_omitted_body_bytes_ : Z; trace_redactions_ : Z; trace_truncated_ : bool; trace_degraded_ : bool }.

Definition trace_max_bytes : Z := 262144.
Definition summary_max_bytes : Z := 2048.
Definition summary_steps : nat := 24.

Definition nanoseconds_per_millisecond : Z := 1000000.
(** [duration_cast] rounds towards zero. *)
Definition milliseconds_between (from to : Z) : Z :=
  let elapsed := (to - from) ÷ nanoseconds_per_millisecond in if elapsed <? 0 then 0 else elapsed.

(** * Times *)

(** [gmtime] of seconds since 1970: the civil date of a day, by eras of 400 years that begin in March. *)
Definition civil_date (days : Z) : Z * Z * Z :=
  let z := days + 719468 in
  let era := z / 146097 in
  let day_of_era := z mod 146097 in
  let year_of_era := (day_of_era - day_of_era / 1460 + day_of_era / 36524 - day_of_era / 146096) / 365 in
  let day_of_year := day_of_era - (365 * year_of_era + year_of_era / 4 - year_of_era / 100) in
  let shifted_month := (5 * day_of_year + 2) / 153 in
  let day := day_of_year - (153 * shifted_month + 2) / 5 + 1 in
  let month := if shifted_month <? 10 then shifted_month + 3 else shifted_month - 9 in
  (year_of_era + era * 400 + (if month <=? 2 then 1 else 0), month, day).
Definition calendar (seconds : Z) : calendar_time :=
  let '(year, month, day) := civil_date (seconds / 86400) in
  let time := seconds mod 86400 in
  CalendarTime year month day (time / 3600) (time / 60 mod 60) (time mod 60).

Definition six_digits (n : Z) : bytes := two_digits (n / 10000) ++ two_digits (n / 100 mod 100) ++ two_digits (n mod 100).
Definition wall_time_text (wall : Z) : bytes :=
  date_text (calendar (wall / 1000000000)) ++ lit "." ++ six_digits (wall mod 1000000000 / 1000) ++ lit "+00".
Example wall_time_sample : wall_time_text 1709210096123456789 = lit "2024-02-29T12:34:56.123456+00".
Proof. by vm_compute. Qed.

Definition time_text (trace : recorded_trace) (at_time : Z) : bytes := wall_time_text (trace_system_started_ trace + (at_time - trace_started_ trace)).
Definition step_started_text (trace : recorded_trace) (step : recorded_step) : bytes :=
  match reported_started_at_ step with Some reported => wall_time_text reported | None => time_text trace (step_started_ step) end.

(** * The wire models *)

Record trace_body := TraceBody {
  body_content_type : bytes; body_format : bytes; body_bytes : Z; body_excerpt_text : bytes; body_truncated : bool; body_omitted_reason : bytes }.
Record trace_http := TraceHttp {
  http_method : bytes; http_url : bytes; http_scheme : bytes; http_host : bytes; http_path : bytes; http_query : list redacted_pair;
  http_request_headers : list redacted_pair; http_request_body : option trace_body; http_status : Z; http_transport_error : bytes;
  http_response_headers : list redacted_pair; http_response_body : option trace_body }.
Record trace_dns := TraceDns {
  dns_resolver : bytes; dns_transport : bytes; dns_name : bytes; dns_type : bytes; dns_rcode : bytes; dns_answers : list dns_answer; dns_truncated : bool }.
Record trace_node_message := TraceNodeMessage {
  node_direction : bytes; node_message_text : bytes; node_request_id : bytes; node_object_count : Z; node_message_bytes : Z; node_message_fields : list (bytes * bytes) }.
Record trace_call := TraceCall {
  call_index : Z; call_kind : bytes; call_operation : bytes; call_subject : bytes; call_started_at : bytes; call_offset_ms : Z; call_duration_ms : Z;
  call_outcome : bytes; call_repeat_count : Z; call_repeat_total_ms : Z; call_last_started_at : bytes; call_provider_request_id : bytes;
  call_provider_code : bytes; call_error : bytes; call_http : option trace_http; call_dns : option trace_dns; call_node_message : option trace_node_message }.
Record trace_log := TraceLog { log_at : bytes; log_offset_ms : Z; log_level_text : bytes; log_message_text : bytes; log_repeat_count : Z }.
Record trace_step := TraceStep {
  step_index : Z; step_code_name : bytes; step_label : bytes; step_subject : bytes; step_started_at : bytes; step_offset_ms : Z; step_duration_ms : Z;
  step_outcome_text : bytes; step_error : bytes; step_related_task : option recorded_related; step_call_count : Z; step_omitted_calls : Z;
  step_calls : list trace_call; step_logs : list trace_log }.
Record trace_capture := TraceCapture {
  capture_truncated : bool; capture_degraded : bool; capture_bytes : Z; capture_omitted_steps : Z; capture_omitted_calls : Z; capture_omitted_logs : Z;
  capture_omitted_body_bytes : Z; capture_redactions : Z }.
Record trace_document := TraceDocument { document_kind : bytes; document_worker_type : bytes; document_capture : trace_capture; document_steps : list trace_step }.

Record trace_step_summary := TraceStepSummary {
  summary_code : bytes; summary_label : bytes; summary_outcome : bytes; summary_duration_ms : Z; summary_call_count : Z; summary_count : Z }.
Record trace_summary := TraceSummary {
  summary_state : bytes; summary_step_count : Z; summary_calls : Z; summary_log_count : Z; summary_truncated : bool;
  summary_failed_step : option (bytes * bytes); summary_entries : list trace_step_summary }.

(** ruvia's [to_json] on the two documents. *)
Class TraceSerializer := { document_to_json : trace_document -> bytes; summary_to_json : trace_summary -> bytes }.

(** * The summary *)

Record merged := Merged { merged_code_ : step_code; merged_outcome_ : step_outcome; merged_duration_ms_ : Z; merged_call_count_ : Z; merged_count_ : Z }.
Definition worse (a b : step_outcome) : step_outcome := if step_outcome_severity b <? step_outcome_severity a then a else b.
(** The loop that merges adjacent steps of one code, onto the entries made so far (the last one first). *)
Fixpoint merge_steps (entries : list merged) (steps : list recorded_step) : list merged :=
  match steps with
  | [] => rev entries
  | step :: steps =>
      let alone := Merged (code_ step) (step_outcome_ step) (step_duration_ms_ step) (call_count_ step) 1 in
      match entries with
      | entry :: others =>
          if merged_code_ entry == code_ step then
            merge_steps (Merged (merged_code_ entry) (worse (step_outcome_ step) (merged_outcome_ entry)) (merged_duration_ms_ entry + step_duration_ms_ step)
              (merged_call_count_ entry + call_count_ step) (merged_count_ entry + 1) :: others) steps
          else merge_steps (alone :: entries) steps
      | [] => merge_steps [alone] steps
      end
  end.

Definition summary_item (entry : merged) : trace_step_summary :=
  let descriptor := describe_step (merged_code_ entry) in
  TraceStepSummary (descriptor_name_ descriptor) (descriptor_label_ descriptor) (step_outcome_name (merged_outcome_ entry)) (merged_duration_ms_ entry)
    (merged_call_count_ entry) (merged_count_ entry).
Definition failed_step (steps : list recorded_step) : option (bytes * bytes) :=
  match List.find (fun step => step_outcome_ step == OutcomeFailed) steps with
  | Some step => Some (descriptor_name_ (describe_step (code_ step)), descriptor_label_ (describe_step (code_ step)))
  | None => None
  end.
Definition trace_summary_of (trace : recorded_trace) (entries : list merged) (truncated : bool) (shown : nat) : trace_summary :=
  TraceSummary (lit "available") (size (trace_steps_ trace) + trace_omitted_steps_ trace) (trace_call_total_ trace) (trace_log_total_ trace) truncated
    (failed_step (trace_steps_ trace)) (map summary_item (take shown entries)).

Section Serialize.
Context `{TraceSerializer}.

(** The loop that shows fewer entries until the summary fits. *)
Fixpoint summary_loop (trace : recorded_trace) (entries : list merged) (truncated : bool) (shown : nat) : bytes :=
  let json := summary_to_json (trace_summary_of trace entries truncated shown) in
  match shown with
  | O => json
  | S fewer => if size json <=? summary_max_bytes then json else summary_loop trace entries true fewer
  end.
Definition summary_json (trace : recorded_trace) : bytes :=
  let entries := merge_steps [] (trace_steps_ trace) in
  summary_loop trace entries (trace_truncated_ trace || (summary_steps <? length entries)%nat) (length entries `min` summary_steps).

(** * The document *)

Inductive trace_reduction := TraceFull | WithoutBodies | WithoutCalls.
#[export] Instance trace_reduction_eq_dec : EqDecision trace_reduction.
Proof. solve_decision. Defined.
Definition keep_bodies (reduction : trace_reduction) : bool := reduction == TraceFull.
Definition keep_calls (reduction : trace_reduction) : bool := reduction != WithoutCalls.

Definition fill_body (keep : bool) (body : redacted_body) : trace_body :=
  if keep || negb (empty (omitted_reason_ body))
  then TraceBody (content_type_ body) (format_ body) (bytes_ body) (excerpt_ body) (truncated_ body) (omitted_reason_ body)
  else TraceBody (content_type_ body) (lit "omitted") (bytes_ body) [] false (lit "budget").
Definition fill_http (keep : bool) (http : recorded_http) : trace_http :=
  TraceHttp (method_ http) (url_ (http_url_ http)) (scheme_ http) (host_ http) (path_ (http_url_ http)) (url_query_ (http_url_ http)) (request_headers_ http)
    (fill_body keep <$> request_body_ http) (status_ http) (transport_error_ http) (response_headers_ http) (fill_body keep <$> response_body_ http).
Definition fill_dns (resolver : bytes) (dns : dns_observation) : trace_dns :=
  TraceDns resolver (lit "doh_json") (observed_name_ dns) (observed_type_ dns) (rcode_ dns) (answers_ dns) (answers_truncated_ dns).
Definition fill_node (node : recorded_node) : trace_node_message :=
  TraceNodeMessage (direction_ node) (message_ node) (node_request_id_ node) (object_count_ node) (node_bytes_ node) (node_fields_ node).
Definition fill_call (trace : recorded_trace) (keep : bool) (index : nat) (call : recorded_call) : trace_call :=
  TraceCall (Z.of_nat index) (call_kind_ call) (operation_ call) (subject_ call) (time_text trace (started_ call))
    (milliseconds_between (trace_started_ trace) (started_ call)) (duration_ms_ call) (outcome_ call) (repeat_count_ call) (repeat_total_ms_ call)
    (time_text trace (last_started_ call)) (provider_request_id_ call) (call_provider_code_ call) (error_ call) (fill_http keep <$> http_ call)
    (fill_dns (match http_ call with Some http => host_ http | None => [] end) <$> call_dns_ call) (fill_node <$> node_ call).
Definition fill_log (trace : recorded_trace) (log : recorded_log) : trace_log :=
  TraceLog (time_text trace (at_ log)) (milliseconds_between (trace_started_ trace) (at_ log)) (log_level_name (level_ log)) (log_message_ log) (log_repeat_count_ log).
Definition fill_step (trace : recorded_trace) (reduction : trace_reduction) (index : nat) (step : recorded_step) : trace_step :=
  let descriptor := describe_step (code_ step) in
  TraceStep (Z.of_nat index) (descriptor_name_ descriptor) (descriptor_label_ descriptor) (step_subject_ step) (step_started_text trace step) (offset_ms_ step)
    (step_duration_ms_ step) (step_outcome_name (if step_open_ step then OutcomeInterrupted else step_outcome_ step)) (step_error_ step) (related_ step)
    (call_count_ step) (step_omitted_calls_ step + (if keep_calls reduction then 0 else size (calls_ step)))
    (if keep_calls reduction then imap (fill_call trace (keep_bodies reduction)) (calls_ step) else [])
    (if keep_bodies reduction then map (fill_log trace) (logs_ step) else []).

(** What a reduction leaves out, added to what the recorder had left out. *)
Definition present_bytes (body : option redacted_body) : Z :=
  match body with Some body => if empty (omitted_reason_ body) then bytes_ body else 0 | None => 0 end.
Definition body_bytes_of (call : recorded_call) : Z :=
  match http_ call with Some http => present_bytes (request_body_ http) + present_bytes (response_body_ http) | None => 0 end.
Definition sum_of {A} (f : A -> Z) (l : list A) : Z := foldr (fun x total => f x + total) 0 l.
Definition dropped_calls (trace : recorded_trace) (reduction : trace_reduction) : Z :=
  trace_omitted_calls_ trace + (if keep_calls reduction then 0 else sum_of (fun step => size (calls_ step)) (trace_steps_ trace)).
Definition dropped_logs (trace : recorded_trace) (reduction : trace_reduction) : Z :=
  trace_omitted_logs_ trace + (if keep_bodies reduction then 0 else sum_of (fun step => size (logs_ step)) (trace_steps_ trace)).
Definition dropped_body_bytes (trace : recorded_trace) (reduction : trace_reduction) : Z :=
  trace_omitted_body_bytes_ trace +
  (if keep_calls reduction && negb (keep_bodies reduction) then sum_of (fun step => sum_of body_bytes_of (calls_ step)) (trace_steps_ trace) else 0).

Definition capture (trace : recorded_trace) (reduction : trace_reduction) (count : Z) : trace_capture :=
  TraceCapture (trace_truncated_ trace || (reduction != TraceFull)) (trace_degraded_ trace) count (trace_omitted_steps_ trace) (dropped_calls trace reduction)
    (dropped_logs trace reduction) (dropped_body_bytes trace reduction) (trace_redactions_ trace).
Definition document_of (trace : recorded_trace) (reduction : trace_reduction) (count : Z) : trace_document :=
  TraceDocument (trace_kind_name (trace_kind_ trace)) (trace_worker_type_ trace) (capture trace reduction count) (imap (fill_step trace reduction) (trace_steps_ trace)).

(** The passes that make the size include its own digits. *)
Fixpoint size_passes (passes : nat) (trace : recorded_trace) (reduction : trace_reduction) (count : Z) (json : bytes) : bytes :=
  match passes with
  | O => json
  | S passes =>
      let json := document_to_json (document_of trace reduction count) in
      if size json =? count then json else size_passes passes trace reduction (size json) json
  end.
Definition document_json (trace : recorded_trace) (reduction : trace_reduction) : bytes := size_passes 3 trace reduction 0 [].

Record stored_trace := StoredTrace { summary_json_ : bytes; trace_json_ : bytes; trace_bytes_ : Z }.
Fixpoint first_fitting (trace : recorded_trace) (reductions : list trace_reduction) : option stored_trace :=
  match reductions with
  | [] => None
  | reduction :: reductions =>
      let json := document_json trace reduction in
      if size json <=? trace_max_bytes then Some (StoredTrace (summary_json trace) json (size json)) else first_fitting trace reductions
  end.
Definition to_stored_trace (trace : recorded_trace) : option stored_trace := first_fitting trace [TraceFull; WithoutBodies; WithoutCalls].

End Serialize.

(** * Sizes *)

(** A number has as many digits as the powers of ten say. *)
Lemma dec_size n : 0 < n -> 10 ^ (size (dec n) - 1) <= n < 10 ^ size (dec n).
Proof.
  intros Hn. destruct (dec_spec n ltac:(lia)) as (Hv & Hd & Hne & Hh). specialize (Hh ltac:(lia)).
  pose proof (undec_from_bound 0 (dec n) ltac:(lia) Hd) as Hb. unfold undec in Hv. rewrite Hv in Hb. split; [|lia].
  destruct (dec n) as [|c s]; [done|]. apply Forall_cons in Hd as [Hc Hs].
  assert (1 <= code c - 48). { assert (code c <> 48) by (intros E; apply Hh; cbn; f_equal; by apply code_inj). apply is_digit_spec in Hc. lia. }
  pose proof (undec_from_bound (code c - 48) s ltac:(lia) Hs) as Hb'. unfold undec_from in Hv, Hb'. cbn [fold_left] in Hv. replace (0 * 10 + (code c - 48)) with (code c - 48) in Hv by lia. rewrite Hv in Hb'.
  replace (size (c :: s) - 1) with (size s) by (unfold size; cbn [length]; lia). assert (0 < 10 ^ size s) by (apply Z.pow_pos_nonneg; unfold size; lia). nia.
Qed.
Lemma dec_size_positive n : 0 <= n -> 1 <= size (dec n).
Proof. intros Hn. pose proof (dec_not_nil n Hn). unfold size. destruct (dec n); [done|cbn [length]; lia]. Qed.
Lemma power_lt a b : 0 <= b -> 10 ^ a < 10 ^ b -> a < b.
Proof. intros Hb Hp. destruct (Z.lt_ge_cases a b) as [|Hge]; [done|]. pose proof (Z.pow_le_mono_r 10 b a ltac:(lia) Hge). lia. Qed.
Lemma dec_size_mono a b : 0 < a <= b -> size (dec a) <= size (dec b).
Proof.
  intros [Ha Hab]. pose proof (dec_size a Ha). pose proof (dec_size b ltac:(lia)). pose proof (dec_size_positive b ltac:(lia)).
  assert (size (dec a) - 1 < size (dec b)) by (apply power_lt; lia). lia.
Qed.
(** Adding its own digits to a number adds at most one digit. *)
Lemma dec_size_step n : 0 < n -> size (dec (n + size (dec n) - 1)) <= size (dec n) + 1.
Proof.
  intros Hn. pose proof (dec_size n Hn) as Hd. pose proof (dec_size_positive n ltac:(lia)) as Hp. set (d := size (dec n)) in *.
  pose proof (dec_size (n + d - 1) ltac:(lia)) as Hd'. pose proof (dec_size_positive (n + d - 1) ltac:(lia)). set (d' := size (dec (n + d - 1))) in *.
  assert (d' - 1 < d + 1); [|lia]. apply power_lt; [lia|]. rewrite (Z.pow_add_r 10 d 1) by lia. pose proof (Z.pow_gt_lin_r 10 d ltac:(lia) ltac:(lia)). lia.
Qed.

(** What a serializer promises: the size of a document depends on the number in it by its digits alone. *)
Class SerializerLaws `{TraceSerializer} :=
  document_base : forall trace reduction, exists base, 0 < base /\
    forall count, 0 <= count -> size (document_to_json (document_of trace reduction count)) = base + size (dec count).

Section Sizes.
Context `{TraceSerializer}.

Lemma size_passes_document passes trace reduction : forall count json, (0 < passes)%nat ->
  exists reported, size_passes passes trace reduction count json = document_to_json (document_of trace reduction reported).
Proof.
  induction passes as [|passes IH]; intros count json Hp; [lia|]. cbn [size_passes]. destruct (_ =? _); [by exists count|].
  destruct passes as [|passes]; [by exists count|]. apply IH. lia.
Qed.

(** The size a document reports is its size, or less than it by one byte. *)
Lemma reported_size `{!SerializerLaws} trace reduction :
  exists reported, document_json trace reduction = document_to_json (document_of trace reduction reported) /\
    reported <= size (document_json trace reduction) <= reported + 1.
Proof.
  destruct (document_base trace reduction) as (base & Hbase & Hsize). unfold document_json. cbn [size_passes].
  pose proof (Hsize 0 ltac:(lia)) as Hs0. change (size (dec 0)) with 1 in Hs0. destruct (Z.eqb_spec (size (document_to_json (document_of trace reduction 0))) 0); [lia|].
  rewrite Hs0. pose proof (Hsize (base + 1) ltac:(lia)) as Hs1. set (d1 := size (dec (base + 1))) in *.
  assert (1 <= d1) by (apply dec_size_positive; lia).
  destruct (Z.eqb_spec (size (document_to_json (document_of trace reduction (base + 1)))) (base + 1)) as [E|_]; [exists (base + 1); split; [done|lia]|].
  rewrite Hs1. pose proof (Hsize (base + d1) ltac:(lia)) as Hs2.
  pose proof (dec_size_step (base + 1) ltac:(lia)) as Hstep. fold d1 in Hstep. replace (base + 1 + d1 - 1) with (base + d1) in Hstep by lia.
  pose proof (dec_size_mono (base + 1) (base + d1) ltac:(lia)) as Hmono. fold d1 in Hmono.
  exists (base + d1). destruct (_ =? _); (split; [done|lia]).
Qed.

(** A trace is stored with the first reduction that fits. *)
Lemma first_fitting_spec trace reductions stored : first_fitting trace reductions = Some stored ->
  exists before reduction after, reductions = before ++ reduction :: after /\ Forall (fun larger => trace_max_bytes < size (document_json trace larger)) before /\
    stored = StoredTrace (summary_json trace) (document_json trace reduction) (size (document_json trace reduction)) /\
    size (document_json trace reduction) <= trace_max_bytes.
Proof.
  induction reductions as [|reduction reductions IH]; cbn [first_fitting]; [done|]. destruct (Z.leb_spec (size (document_json trace reduction)) trace_max_bytes).
  - intros [= <-]. exists [], reduction, reductions. by repeat constructor.
  - intros Hs. destruct (IH Hs) as (before & found & rest & -> & Hb & Hrest). exists (reduction :: before), found, rest. split; [done|]. split; [by constructor|done].
Qed.

Lemma summary_loop_spec trace entries : forall shown truncated, exists fewer, (fewer <= shown)%nat /\
  summary_loop trace entries truncated shown = summary_to_json (trace_summary_of trace entries (truncated || (fewer <? shown)%nat) fewer) /\
  (size (summary_loop trace entries truncated shown) <= summary_max_bytes \/ fewer = 0%nat) /\
  (forall more, (fewer < more <= shown)%nat ->
    summary_max_bytes < size (summary_to_json (trace_summary_of trace entries (truncated || (more <? shown)%nat) more))).
Proof.
  induction shown as [|shown IH]; intros truncated; cbn [summary_loop].
  - exists 0%nat. split; [lia|]. rewrite orb_false_r. split; [done|]. split; [by right|]. lia.
  - destruct (Z.leb_spec (size (summary_to_json (trace_summary_of trace entries truncated (S shown)))) summary_max_bytes) as [Hle|Hgt].
    + exists (S shown). split; [lia|]. rewrite Nat.ltb_irrefl, orb_false_r. split; [done|]. split; [by left|]. lia.
    + destruct (IH true) as (fewer & Hf & E & Hfit & Hmore). exists fewer. split; [lia|]. rewrite (proj2 (Nat.ltb_lt fewer (S shown))) by lia. rewrite orb_true_r. split; [done|].
      split; [done|]. intros more Hm. destruct (Nat.eq_dec more (S shown)) as [->|]; [by rewrite Nat.ltb_irrefl, orb_false_r|].
      rewrite (proj2 (Nat.ltb_lt more (S shown))), orb_true_r by lia. apply (Hmore more). lia.
Qed.

(** What is stored of an attempt fits its limits and says what it leaves out: the document is the
    fullest of the three reductions that fits, marked truncated unless it is the full one, and its
    summary fits, or shows no step, and is truncated when an entry is missing. *)
Theorem stored_trace_fits trace stored : to_stored_trace trace = Some stored ->
  (exists reduction reported, trace_json_ stored = document_to_json (document_of trace reduction reported) /\
    trace_bytes_ stored = size (trace_json_ stored) /\ trace_bytes_ stored <= trace_max_bytes /\
    (reduction <> TraceFull -> trace_max_bytes < size (document_json trace TraceFull) /\ capture_truncated (document_capture (document_of trace reduction reported)) = true) /\
    (reduction = WithoutCalls -> trace_max_bytes < size (document_json trace WithoutBodies))) /\
  (exists shown truncated, summary_json_ stored = summary_to_json (trace_summary_of trace (merge_steps [] (trace_steps_ trace)) truncated shown) /\
    (size (summary_json_ stored) <= summary_max_bytes \/ shown = 0%nat) /\
    ((shown < length (merge_steps [] (trace_steps_ trace)))%nat -> truncated = true)).
Proof.
  intros Hs. unfold to_stored_trace in Hs. destruct (first_fitting_spec _ _ _ Hs) as (before & reduction & rest & Esplit & Hbefore & -> & Hfit). cbn [trace_json_ trace_bytes_ summary_json_].
  split.
  - destruct (size_passes_document 3 trace reduction 0 [] ltac:(lia)) as [reported Ereported]. exists reduction, reported. split; [done|]. split; [done|]. split; [done|].
    destruct before as [|r1 [|r2 [|r3 before]]].
    + injection Esplit as <- _. split; [done|discriminate].
    + injection Esplit as <- <- _. apply Forall_cons in Hbefore as [H1 _]. split; [|discriminate]. intros _. split; [done|]. apply orb_true_r.
    + injection Esplit as <- <- <- _. apply Forall_cons in Hbefore as [H1 [H2 _]%Forall_cons]. split; [|done]. intros _. split; [done|]. apply orb_true_r.
    + exfalso. apply (f_equal length) in Esplit. rewrite length_app in Esplit. cbn in Esplit. lia.
  - unfold summary_json. set (entries := merge_steps [] (trace_steps_ trace)).
    destruct (summary_loop_spec trace entries (length entries `min` summary_steps) (trace_truncated_ trace || (summary_steps <? length entries)%nat)) as (shown & Hle & E & Hfits & _).
    eexists shown, _. split; [exact E|]. split; [done|]. intros Hlt. destruct (Nat.ltb_spec shown (length entries `min` summary_steps)); [apply orb_true_r|].
    rewrite (proj2 (Nat.ltb_lt summary_steps (length entries))) by lia. by rewrite orb_true_r.
Qed.
End Sizes.

(** A serializer whose documents have 98 characters and the number. *)
Definition sample_serializer : TraceSerializer := {|
  document_to_json := fun document => repeat zero 98 ++ dec (capture_bytes (document_capture document));
  summary_to_json := fun summary => concat (map (fun _ => repeat zero 100) (summary_entries summary)) |}.
#[export] Instance sample_serializer_laws : SerializerLaws (H := sample_serializer).
Proof. intros trace reduction. exists 98. split; [done|]. intros count Hc. unfold size. cbn [document_to_json sample_serializer]. rewrite length_app, repeat_length. cbn. lia. Qed.
Definition sample_trace (steps : list recorded_step) : recorded_trace := RecordedTrace TraceProvider (lit "provider") 0 0 steps 0 0 0 0 0 0 0 false false.
Definition bare_step (code : step_code) : recorded_step := RecordedStep code [] 0 None [] 0 5 OutcomeCompleted false [] None [] [] 2 0.

Lemma stored_trace_fits_witness :
  let steps := flat_map (fun code => [bare_step code; bare_step code]) (concat (repeat [StepLoadState; StepPrepare] 13)) in
  exists stored, to_stored_trace (H := sample_serializer) (sample_trace steps) = Some stored /\ trace_bytes_ stored <= trace_max_bytes /\ size (summary_json_ stored) = 2000.
Proof.
  intros steps. destruct (to_stored_trace (H := sample_serializer) (sample_trace steps)) as [stored|] eqn:E; [|by vm_compute in E].
  exists stored. split; [done|]. destruct (stored_trace_fits (H := sample_serializer) _ _ E) as [(reduction & reported & _ & _ & Hb & _) _]. split; [exact Hb|].
  assert (Some 2000 = (size ∘ summary_json_) <$> to_stored_trace (H := sample_serializer) (sample_trace steps)) as Esize by (by vm_compute). rewrite E in Esize. by injection Esize as <-.
Defined.

(** The third pass can change the number of digits once more: a document of 101 bytes reports 100. *)
Example reported_size_off :
  document_json (H := sample_serializer) (sample_trace []) TraceFull = repeat zero 98 ++ dec 100 /\
  size (document_json (H := sample_serializer) (sample_trace []) TraceFull) = 101.
Proof. by vm_compute. Qed.

(** * Merged entries *)

Lemma sum_of_app {A} (f : A -> Z) a b : sum_of f (a ++ b) = sum_of f a + sum_of f b.
Proof. induction a as [|x a IH]; cbn; [done|]. unfold sum_of in *. rewrite IH. lia. Qed.
Lemma sum_of_rev {A} (f : A -> Z) a : sum_of f (rev a) = sum_of f a.
Proof. induction a as [|x a IH]; [done|]. cbn [rev]. rewrite sum_of_app, IH. cbn. unfold sum_of. lia. Qed.

(** No step is left out of the entries of a summary, nor any of its calls or of its time. *)
Lemma merge_steps_sums (count : recorded_step -> Z) (total : merged -> Z) :
  (forall step, total (Merged (code_ step) (step_outcome_ step) (step_duration_ms_ step) (call_count_ step) 1) = count step) ->
  (forall code outcome outcome' duration calls n step, total (Merged code outcome' (duration + step_duration_ms_ step) (calls + call_count_ step) (n + 1)) =
    total (Merged code outcome duration calls n) + count step) ->
  forall steps entries, sum_of total (merge_steps entries steps) = sum_of total entries + sum_of count steps.
Proof.
  intros Hone Hmore steps. induction steps as [|step steps IH]; intros entries; cbn [merge_steps].
  - rewrite sum_of_rev. cbn. lia.
  - destruct entries as [|entry others]; [rewrite IH; cbn; rewrite Hone; unfold sum_of; lia|].
    destruct (_ == _); rewrite IH; cbn; [|rewrite Hone; unfold sum_of; lia].
    destruct entry as [code outcome duration calls n]. cbn. rewrite (Hmore code outcome _ duration calls n step). unfold sum_of. lia.
Qed.
Lemma summary_counts_steps steps : sum_of merged_count_ (merge_steps [] steps) = size steps /\ sum_of merged_call_count_ (merge_steps [] steps) = sum_of call_count_ steps /\
  sum_of merged_duration_ms_ (merge_steps [] steps) = sum_of step_duration_ms_ steps.
Proof.
  split; [|split].
  - rewrite (merge_steps_sums (fun _ => 1)) by done. cbn. unfold size, sum_of. induction steps as [|step steps IH]; [done|]. cbn in *. lia.
  - by rewrite (merge_steps_sums call_count_).
  - by rewrite (merge_steps_sums step_duration_ms_).
Qed.
