(* ===== verification/AttemptRecorder.v ===== *)
(** The recorder of an attempt: src/service/features/attempt_trace/recorder.h.

    A recorder's member functions take and return its state; [None] is an access the code would make
    outside of a vector, which [recorder_history] excludes. [open_] is kept innermost first, and
    [dropped_step] is the index that is none. The readings of a clock within one call are one reading, an
    argument; points in time are nanoseconds. The handlers of failed allocations are not modelled; the
    handler of an origin that is not configured is. *)
From S2P Require Import Prelude RoutePolicy Utf8 TextEncoding Redaction JsonExcerpt RedactedBody TraceDocument.
Open Scope Z_scope.

(** * The state *)

Definition max_steps : nat := 128.
Definition max_calls : Z := 200.
Definition max_step_calls : Z := 100.
Definition max_logs : Z := 300.
Definition max_log_bytes : Z := 49152.
Definition log_message_bytes : nat := 1024.
Definition request_excerpt_bytes : Z := 2048.
Definition response_excerpt_bytes : Z := 8192.
Definition body_budget_bytes : Z := 163840.
Definition error_bytes : nat := 1000.
Definition max_headers : nat := 32.
Definition max_reported_phase_bytes : Z := 64.
Definition step_overhead : Z := 420.
Definition call_overhead : Z := 720.
Definition pair_overhead : Z := 48.
Definition body_overhead : Z := 140.
Definition dns_overhead : Z := 160.
Definition answer_overhead : Z := 64.
Definition log_overhead : Z := 120.
Definition related_overhead : Z := 360.
Definition reserved_bytes : Z := 16384.

Record pending_call := PendingCall { call_id_ : Z; policy_ : outbound_policy; record_ : recorded_call; query_name_ : bytes; query_type_ : bytes }.
Record recorder := Recorder {
  kind_ : trace_kind; worker_type_ : bytes; attempt_started_ : Z; system_started_ : Z; redactor_ : redactor; steps_ : list recorded_step;
  open_ : list (option nat); pending_ : option pending_call; last_call_ : option (nat * nat); next_call_id_ : Z; used_bytes_ : Z; body_used_ : Z;
  stored_calls_ : Z; call_total_ : Z; log_total_ : Z; log_records_ : Z; log_bytes_ : Z; omitted_steps_ : Z; omitted_calls_ : Z; omitted_logs_ : Z;
  omitted_body_bytes_ : Z; truncated_trace_ : bool; degraded_ : bool; finished_ : bool }.

Definition set_redactor (x : redactor) (s : recorder) : recorder :=
  Recorder (kind_ s) (worker_type_ s) (attempt_started_ s) (system_started_ s) x (steps_ s) (open_ s) (pending_ s) (last_call_ s) (next_call_id_ s) (used_bytes_ s) (body_used_ s) (stored_calls_ s) (call_total_ s) (log_total_ s) (log_records_ s) (log_bytes_ s) (omitted_steps_ s) (omitted_calls_ s) (omitted_logs_ s) (omitted_body_bytes_ s) (truncated_trace_ s) (degraded_ s) (finished_ s).
Definition set_steps (x : list recorded_step) (s : recorder) : recorder :=
  Recorder (kind_ s) (worker_type_ s) (attempt_started_ s) (system_started_ s) (redactor_ s) x (open_ s) (pending_ s) (last_call_ s) (next_call_id_ s) (used_bytes_ s) (body_used_ s) (stored_calls_ s) (call_total_ s) (log_total_ s) (log_records_ s) (log_bytes_ s) (omitted_steps_ s) (omitted_calls_ s) (omitted_logs_ s) (omitted_body_bytes_ s) (truncated_trace_ s) (degraded_ s) (finished_ s).
Definition set_open (x : list (option nat)) (s : recorder) : recorder :=
  Recorder (kind_ s) (worker_type_ s) (attempt_started_ s) (system_started_ s) (redactor_ s) (steps_ s) x (pending_ s) (last_call_ s) (next_call_id_ s) (used_bytes_ s) (body_used_ s) (stored_calls_ s) (call_total_ s) (log_total_ s) (log_records_ s) (log_bytes_ s) (omitted_steps_ s) (omitted_calls_ s) (omitted_logs_ s) (omitted_body_bytes_ s) (truncated_trace_ s) (degraded_ s) (finished_ s).
Definition set_pending (x : option pending_call) (s : recorder) : recorder :=
  Recorder (kind_ s) (worker_type_ s) (attempt_started_ s) (system_started_ s) (redactor_ s) (steps_ s) (open_ s) x (last_call_ s) (next_call_id_ s) (used_bytes_ s) (body_used_ s) (stored_calls_ s) (call_total_ s) (log_total_ s) (log_records_ s) (log_bytes_ s) (omitted_steps_ s) (omitted_calls_ s) (omitted_logs_ s) (omitted_body_bytes_ s) (truncated_trace_ s) (degraded_ s) (finished_ s).
Definition set_last_call (x : option (nat * nat)) (s : recorder) : recorder :=
  Recorder (kind_ s) (worker_type_ s) (attempt_started_ s) (system_started_ s) (redactor_ s) (steps_ s) (open_ s) (pending_ s) x (next_call_id_ s) (used_bytes_ s) (body_used_ s) (stored_calls_ s) (call_total_ s) (log_total_ s) (log_records_ s) (log_bytes_ s) (omitted_steps_ s) (omitted_calls_ s) (omitted_logs_ s) (omitted_body_bytes_ s) (truncated_trace_ s) (degraded_ s) (finished_ s).
Definition set_next_call_id (x : Z) (s : recorder) : recorder :=
  Recorder (kind_ s) (worker_type_ s) (attempt_started_ s) (system_started_ s) (redactor_ s) (steps_ s) (open_ s) (pending_ s) (last_call_ s) x (used_bytes_ s) (body_used_ s) (stored_calls_ s) (call_total_ s) (log_total_ s) (log_records_ s) (log_bytes_ s) (omitted_steps_ s) (omitted_calls_ s) (omitted_logs_ s) (omitted_body_bytes_ s) (truncated_trace_ s) (degraded_ s) (finished_ s).
Definition set_used_bytes (x : Z) (s : recorder) : recorder :=
  Recorder (kind_ s) (worker_type_ s) (attempt_started_ s) (system_started_ s) (redactor_ s) (steps_ s) (open_ s) (pending_ s) (last_call_ s) (next_call_id_ s) x (body_used_ s) (stored_calls_ s) (call_total_ s) (log_total_ s) (log_records_ s) (log_bytes_ s) (omitted_steps_ s) (omitted_calls_ s) (omitted_logs_ s) (omitted_body_bytes_ s) (truncated_trace_ s) (degraded_ s) (finished_ s).
Definition set_body_used (x : Z) (s : recorder) : recorder :=
  Recorder (kind_ s) (worker_type_ s) (attempt_started_ s) (system_started_ s) (redactor_ s) (steps_ s) (open_ s) (pending_ s) (last_call_ s) (next_call_id_ s) (used_bytes_ s) x (stored_calls_ s) (call_total_ s) (log_total_ s) (log_records_ s) (log_bytes_ s) (omitted_steps_ s) (omitted_calls_ s) (omitted_logs_ s) (omitted_body_bytes_ s) (truncated_trace_ s) (degraded_ s) (finished_ s).
Definition set_stored_calls (x : Z) (s : recorder) : recorder :=
  Recorder (kind_ s) (worker_type_ s) (attempt_started_ s) (system_started_ s) (redactor_ s) (steps_ s) (open_ s) (pending_ s) (last_call_ s) (next_call_id_ s) (used_bytes_ s) (body_used_ s) x (call_total_ s) (log_total_ s) (log_records_ s) (log_bytes_ s) (omitted_steps_ s) (omitted_calls_ s) (omitted_logs_ s) (omitted_body_bytes_ s) (truncated_trace_ s) (degraded_ s) (finished_ s).
Definition set_call_total (x : Z) (s : recorder) : recorder :=
  Recorder (kind_ s) (worker_type_ s) (attempt_started_ s) (system_started_ s) (redactor_ s) (steps_ s) (open_ s) (pending_ s) (last_call_ s) (next_call_id_ s) (used_bytes_ s) (body_used_ s) (stored_calls_ s) x (log_total_ s) (log_records_ s) (log_bytes_ s) (omitted_steps_ s) (omitted_calls_ s) (omitted_logs_ s) (omitted_body_bytes_ s) (truncated_trace_ s) (degraded_ s) (finished_ s).
Definition set_log_total (x : Z) (s : recorder) : recorder :=
  Recorder (kind_ s) (worker_type_ s) (attempt_started_ s) (system_started_ s) (redactor_ s) (steps_ s) (open_ s) (pending_ s) (last_call_ s) (next_call_id_ s) (used_bytes_ s) (body_used_ s) (stored_calls_ s) (call_total_ s) x (log_records_ s) (log_bytes_ s) (omitted_steps_ s) (omitted_calls_ s) (omitted_logs_ s) (omitted_body_bytes_ s) (truncated_trace_ s) (degraded_ s) (finished_ s).
Definition set_log_records (x : Z) (s : recorder) : recorder :=
  Recorder (kind_ s) (worker_type_ s) (attempt_started_ s) (system_started_ s) (redactor_ s) (steps_ s) (open_ s) (pending_ s) (last_call_ s) (next_call_id_ s) (used_bytes_ s) (body_used_ s) (stored_calls_ s) (call_total_ s) (log_total_ s) x (log_bytes_ s) (omitted_steps_ s) (omitted_calls_ s) (omitted_logs_ s) (omitted_body_bytes_ s) (truncated_trace_ s) (degraded_ s) (finished_ s).
Definition set_log_bytes (x : Z) (s : recorder) : recorder :=
  Recorder (kind_ s) (worker_type_ s) (attempt_started_ s) (system_started_ s) (redactor_ s) (steps_ s) (open_ s) (pending_ s) (last_call_ s) (next_call_id_ s) (used_bytes_ s) (body_used_ s) (stored_calls_ s) (call_total_ s) (log_total_ s) (log_records_ s) x (omitted_steps_ s) (omitted_calls_ s) (omitted_logs_ s) (omitted_body_bytes_ s) (truncated_trace_ s) (degraded_ s) (finished_ s).
Definition set_omitted_steps (x : Z) (s : recorder) : recorder :=
  Recorder (kind_ s) (worker_type_ s) (attempt_started_ s) (system_started_ s) (redactor_ s) (steps_ s) (open_ s) (pending_ s) (last_call_ s) (next_call_id_ s) (used_bytes_ s) (body_used_ s) (stored_calls_ s) (call_total_ s) (log_total_ s) (log_records_ s) (log_bytes_ s) x (omitted_calls_ s) (omitted_logs_ s) (omitted_body_bytes_ s) (truncated_trace_ s) (degraded_ s) (finished_ s).
Definition set_omitted_calls (x : Z) (s : recorder) : recorder :=
  Recorder (kind_ s) (worker_type_ s) (attempt_started_ s) (system_started_ s) (redactor_ s) (steps_ s) (open_ s) (pending_ s) (last_call_ s) (next_call_id_ s) (used_bytes_ s) (body_used_ s) (stored_calls_ s) (call_total_ s) (log_total_ s) (log_records_ s) (log_bytes_ s) (omitted_steps_ s) x (omitted_logs_ s) (omitted_body_bytes_ s) (truncated_trace_ s) (degraded_ s) (finished_ s).
Definition set_omitted_logs (x : Z) (s : recorder) : recorder :=
  Recorder (kind_ s) (worker_type_ s) (attempt_started_ s) (system_started_ s) (redactor_ s) (steps_ s) (open_ s) (pending_ s) (last_call_ s) (next_call_id_ s) (used_bytes_ s) (body_used_ s) (stored_calls_ s) (call_total_ s) (log_total_ s) (log_records_ s) (log_bytes_ s) (omitted_steps_ s) (omitted_calls_ s) x (omitted_body_bytes_ s) (truncated_trace_ s) (degraded_ s) (finished_ s).
Definition set_omitted_body_bytes (x : Z) (s : recorder) : recorder :=
  Recorder (kind_ s) (worker_type_ s) (attempt_started_ s) (system_started_ s) (redactor_ s) (steps_ s) (open_ s) (pending_ s) (last_call_ s) (next_call_id_ s) (used_bytes_ s) (body_used_ s) (stored_calls_ s) (call_total_ s) (log_total_ s) (log_records_ s) (log_bytes_ s) (omitted_steps_ s) (omitted_calls_ s) (omitted_logs_ s) x (truncated_trace_ s) (degraded_ s) (finished_ s).
Definition truncate_trace (s : recorder) : recorder :=
  Recorder (kind_ s) (worker_type_ s) (attempt_started_ s) (system_started_ s) (redactor_ s) (steps_ s) (open_ s) (pending_ s) (last_call_ s) (next_call_id_ s) (used_bytes_ s) (body_used_ s) (stored_calls_ s) (call_total_ s) (log_total_ s) (log_records_ s) (log_bytes_ s) (omitted_steps_ s) (omitted_calls_ s) (omitted_logs_ s) (omitted_body_bytes_ s) true (degraded_ s) (finished_ s).
Definition degrade (s : recorder) : recorder :=
  Recorder (kind_ s) (worker_type_ s) (attempt_started_ s) (system_started_ s) (redactor_ s) (steps_ s) (open_ s) (pending_ s) (last_call_ s) (next_call_id_ s) (used_bytes_ s) (body_used_ s) (stored_calls_ s) (call_total_ s) (log_total_ s) (log_records_ s) (log_bytes_ s) (omitted_steps_ s) (omitted_calls_ s) (omitted_logs_ s) (omitted_body_bytes_ s) (truncated_trace_ s) true (finished_ s).
Definition set_finished (s : recorder) : recorder :=
  Recorder (kind_ s) (worker_type_ s) (attempt_started_ s) (system_started_ s) (redactor_ s) (steps_ s) (open_ s) (pending_ s) (last_call_ s) (next_call_id_ s) (used_bytes_ s) (body_used_ s) (stored_calls_ s) (call_total_ s) (log_total_ s) (log_records_ s) (log_bytes_ s) (omitted_steps_ s) (omitted_calls_ s) (omitted_logs_ s) (omitted_body_bytes_ s) (truncated_trace_ s) (degraded_ s) true.

Definition new_recorder (kind : trace_kind) (worker_type : bytes) (started now wall : Z) : recorder :=
  let started := if started =? 0 then now else started in
  Recorder kind worker_type started (wall - (now - started)) fresh_redactor [] [] None None 0 0 0 0 0 0 0 0 0 0 0 0 false false false.
Definition add_used (n : Z) (s : recorder) : recorder := set_used_bytes (used_bytes_ s + n) s.
Definition quiet (s : recorder) : bool := finished_ s || degraded_ s.
Definition is_degraded (s : recorder) : bool := degraded_ s || failed_ (redactor_ s).
(** A text of the redactor, which it changes. *)
Definition record_text (value : bytes) (limit : nat) (s : recorder) : bytes * recorder :=
  let '(shown, r) := text (redactor_ s) value limit in (shown, set_redactor r s).
Definition fits (count : Z) (s : recorder) : bool := used_bytes_ s + count + reserved_bytes <=? trace_max_bytes.

(** A step of the vector, changed. *)
Definition change_step (i : nat) (f : recorded_step -> recorded_step) (s : recorder) : option recorder :=
  match steps_ s !! i with Some step => Some (set_steps (<[i := f step]> (steps_ s)) s) | None => None end.

(** Changes of a step and of a call. *)
Definition with_calls (calls : list recorded_call) (step : recorded_step) : recorded_step :=
  RecordedStep (code_ step) (step_subject_ step) (step_started_ step) (reported_started_at_ step) (reported_phase_ step) (offset_ms_ step) (step_duration_ms_ step) (step_outcome_ step) (step_open_ step) (step_error_ step) (related_ step) calls (logs_ step) (call_count_ step) (step_omitted_calls_ step).
Definition with_logs (logs : list recorded_log) (step : recorded_step) : recorded_step :=
  RecordedStep (code_ step) (step_subject_ step) (step_started_ step) (reported_started_at_ step) (reported_phase_ step) (offset_ms_ step) (step_duration_ms_ step) (step_outcome_ step) (step_open_ step) (step_error_ step) (related_ step) (calls_ step) logs (call_count_ step) (step_omitted_calls_ step).
Definition with_error (error : bytes) (step : recorded_step) : recorded_step :=
  RecordedStep (code_ step) (step_subject_ step) (step_started_ step) (reported_started_at_ step) (reported_phase_ step) (offset_ms_ step) (step_duration_ms_ step) (step_outcome_ step) (step_open_ step) error (related_ step) (calls_ step) (logs_ step) (call_count_ step) (step_omitted_calls_ step).
Definition with_related (related : recorded_related) (step : recorded_step) : recorded_step :=
  RecordedStep (code_ step) (step_subject_ step) (step_started_ step) (reported_started_at_ step) (reported_phase_ step) (offset_ms_ step) (step_duration_ms_ step) (step_outcome_ step) (step_open_ step) (step_error_ step) (Some related) (calls_ step) (logs_ step) (call_count_ step) (step_omitted_calls_ step).
Definition count_call (step : recorded_step) : recorded_step :=
  RecordedStep (code_ step) (step_subject_ step) (step_started_ step) (reported_started_at_ step) (reported_phase_ step) (offset_ms_ step) (step_duration_ms_ step) (step_outcome_ step) (step_open_ step) (step_error_ step) (related_ step) (calls_ step) (logs_ step) (call_count_ step + 1) (step_omitted_calls_ step).
Definition omit_step_call (step : recorded_step) : recorded_step :=
  RecordedStep (code_ step) (step_subject_ step) (step_started_ step) (reported_started_at_ step) (reported_phase_ step) (offset_ms_ step) (step_duration_ms_ step) (step_outcome_ step) (step_open_ step) (step_error_ step) (related_ step) (calls_ step) (logs_ step) (call_count_ step) (step_omitted_calls_ step + 1).
(** [close_step]. *)
Definition closed_step (outcome : step_outcome) (now : Z) (step : recorded_step) : recorded_step :=
  RecordedStep (code_ step) (step_subject_ step) (step_started_ step) (reported_started_at_ step) (reported_phase_ step) (offset_ms_ step) (milliseconds_between (step_started_ step) now) outcome false (step_error_ step) (related_ step) (calls_ step) (logs_ step) (call_count_ step) (step_omitted_calls_ step).
Definition close_step (outcome : step_outcome) (now : Z) (step : recorded_step) : recorded_step := if step_open_ step then closed_step outcome now step else step.
(** A step with nothing in it yet. *)
Definition new_step (code : step_code) (subject : bytes) (started offset : Z) (outcome : step_outcome) (opened : bool) : recorded_step :=
  RecordedStep code subject started None [] offset 0 outcome opened [] None [] [] 0 0.
Definition timed_call (duration : Z) (call : recorded_call) : recorded_call :=
  RecordedCall (call_kind_ call) (operation_ call) (subject_ call) (started_ call) (started_ call) duration (duration_ms_override_ call) (outcome_ call) (repeat_count_ call) duration (provider_request_id_ call) (call_provider_code_ call) (error_ call) (http_ call) (call_dns_ call) (node_ call) (call_bytes_ call).
Definition repeated_call (again : recorded_call) (call : recorded_call) : recorded_call :=
  RecordedCall (call_kind_ call) (operation_ call) (subject_ call) (started_ call) (started_ again) (duration_ms_ call) (duration_ms_override_ call) (outcome_ call) (repeat_count_ call + 1) (repeat_total_ms_ call + duration_ms_ again) (provider_request_id_ call) (call_provider_code_ call) (error_ call) (http_ call) (call_dns_ call) (node_ call) (call_bytes_ call).
Definition sized_call (count : Z) (call : recorded_call) : recorded_call :=
  RecordedCall (call_kind_ call) (operation_ call) (subject_ call) (started_ call) (last_started_ call) (duration_ms_ call) (duration_ms_override_ call) (outcome_ call) (repeat_count_ call) (repeat_total_ms_ call) (provider_request_id_ call) (call_provider_code_ call) (error_ call) (http_ call) (call_dns_ call) (node_ call) count.
Definition with_http (http : option recorded_http) (call : recorded_call) : recorded_call :=
  RecordedCall (call_kind_ call) (operation_ call) (subject_ call) (started_ call) (last_started_ call) (duration_ms_ call) (duration_ms_override_ call) (outcome_ call) (repeat_count_ call) (repeat_total_ms_ call) (provider_request_id_ call) (call_provider_code_ call) (error_ call) http (call_dns_ call) (node_ call) (call_bytes_ call).
Definition with_outcome (outcome error : bytes) (call : recorded_call) : recorded_call :=
  RecordedCall (call_kind_ call) (operation_ call) (subject_ call) (started_ call) (last_started_ call) (duration_ms_ call) (duration_ms_override_ call) outcome (repeat_count_ call) (repeat_total_ms_ call) (provider_request_id_ call) (call_provider_code_ call) error (http_ call) (call_dns_ call) (node_ call) (call_bytes_ call).
Definition with_reply (outcome : bytes) (facts : response_facts) (dns : option dns_observation) (call : recorded_call) : recorded_call :=
  RecordedCall (call_kind_ call) (operation_ call) (subject_ call) (started_ call) (last_started_ call) (duration_ms_ call) (duration_ms_override_ call) outcome (repeat_count_ call) (repeat_total_ms_ call) (request_id_ facts) (provider_code_ facts) (error_ call) (http_ call) dns (node_ call) (call_bytes_ call).
Definition with_dns (dns : option dns_observation) (call : recorded_call) : recorded_call :=
  RecordedCall (call_kind_ call) (operation_ call) (subject_ call) (started_ call) (last_started_ call) (duration_ms_ call) (duration_ms_override_ call) (outcome_ call) (repeat_count_ call) (repeat_total_ms_ call) (provider_request_id_ call) (call_provider_code_ call) (error_ call) (http_ call) dns (node_ call) (call_bytes_ call).
Definition new_call (kind operation subject outcome : bytes) (started : Z) : recorded_call :=
  RecordedCall kind operation subject started 0 0 None outcome 1 0 [] [] [] None None None 0.
Definition with_transport_error (error : bytes) (http : recorded_http) : recorded_http :=
  RecordedHttp (method_ http) (scheme_ http) (host_ http) (http_url_ http) (request_headers_ http) (request_body_ http) (status_ http) error (response_headers_ http) (response_body_ http).
Definition with_bodies (request response : option redacted_body) (http : recorded_http) : recorded_http :=
  RecordedHttp (method_ http) (scheme_ http) (host_ http) (http_url_ http) (request_headers_ http) request (status_ http) (transport_error_ http) (response_headers_ http) response.
Definition with_response (status : Z) (headers : list redacted_pair) (response : option redacted_body) (http : recorded_http) : recorded_http :=
  RecordedHttp (method_ http) (scheme_ http) (host_ http) (http_url_ http) (request_headers_ http) (request_body_ http) status (transport_error_ http) headers response.

(** * Log lines *)

Definition last_log (step : recorded_step) : option recorded_log := list.last (logs_ step).
Definition repeat_log (log : recorded_log) : recorded_log := RecordedLog (at_ log) (level_ log) (log_message_ log) (log_repeat_count_ log + 1).
Definition omit_log (s : recorder) : recorder := truncate_trace (set_omitted_logs (omitted_logs_ s + 1) s).

(** [append_log]: adjacent lines that are the same are one with a count. *)
Definition append_log (i : nat) (level : log_level) (message : bytes) (at_time : Z) (s : recorder) : option recorder :=
  let '(shown, s) := record_text message log_message_bytes s in
  match steps_ s !! i with
  | None => None
  | Some step =>
      if match last_log step with Some log => (level_ log == level) && (log_message_ log == shown) | None => false end
      then change_step i (fun step => with_logs (alter repeat_log (pred (length (logs_ step))) (logs_ step)) step) s
      else
        let count := log_overhead + json_string_size shown in
        if (max_logs <=? log_records_ s) || (max_log_bytes <? log_bytes_ s + count) || negb (fits count s) then Some (omit_log s)
        else
          s ← change_step i (fun step => with_logs (logs_ step ++ [RecordedLog at_time level shown 1]) step) s;
          Some (add_used count (set_log_bytes (log_bytes_ s + count) (set_log_records (log_records_ s + 1) s)))
  end.

(** [current_step]: the innermost open step, or the step of what is outside of any; the pointer is an index. *)
Definition unscoped_last (s : recorder) : bool :=
  match list.last (steps_ s) with
  | Some step => (code_ step == StepUnscoped) && negb (present (reported_started_at_ step))
  | None => false
  end.
Definition current_step (now : Z) (s : recorder) : option nat * recorder :=
  match open_ s with
  | innermost :: _ => (innermost, s)
  | [] =>
      if unscoped_last s then (Some (pred (length (steps_ s))), s)
      else if (max_steps <=? length (steps_ s))%nat then (None, s)
      else
        let step := new_step StepUnscoped [] now (milliseconds_between (attempt_started_ s) now) OutcomeCompleted false in
        (Some (length (steps_ s)), add_used step_overhead (set_steps (steps_ s ++ [step]) s))
  end.

Definition log (level : log_level) (message : bytes) (now : Z) (s : recorder) : option recorder :=
  if quiet s then Some s
  else
    let s := set_log_total (log_total_ s + 1) s in
    match current_step now s with
    | (None, s) => Some (omit_log s)
    | (Some i, s) => append_log i level message now s
    end.

(** * Steps *)

(** The scope of a step: none, or the index it has, which is none for a dropped step. *)
Definition begin_step (code : step_code) (subject : bytes) (now : Z) (s : recorder) : option (option nat) * recorder :=
  if quiet s then (None, s)
  else if (max_steps <=? length (steps_ s))%nat then
    (Some None, set_open (None :: open_ s) (truncate_trace (set_omitted_steps (omitted_steps_ s + 1) s)))
  else
    let '(shown, s) := record_text subject value_bytes s in
    let step := new_step code shown now (milliseconds_between (attempt_started_ s) now) OutcomeInterrupted true in
    let i := length (steps_ s) in
    (Some (Some i), set_open (Some i :: open_ s) (add_used (step_overhead + json_string_size shown) (set_steps (steps_ s ++ [step]) s))).

(** [end_step] of an index: the innermost open step of it is taken out of the open ones. *)
Fixpoint remove_first (index : option nat) (opened : list (option nat)) : list (option nat) :=
  match opened with
  | [] => []
  | innermost :: others => if innermost == index then others else innermost :: remove_first index others
  end.
(** An error of a step, with what it takes. *)
Definition fail_at (i : nat) (error : bytes) (s : recorder) : option recorder :=
  let '(shown, s) := record_text error error_bytes s in
  s ← change_step i (with_error shown) s; Some (add_used (json_string_size shown) s).
Definition contains_index (index : option nat) (opened : list (option nat)) : bool := existsb (fun innermost => innermost == index) opened.
Definition end_step (index : option nat) (outcome : step_outcome) (message : bytes) (now : Z) (s : recorder) : option recorder :=
  if finished_ s then Some s
  else if negb (contains_index index (open_ s)) then Some s
  else
    let s := set_open (remove_first index (open_ s)) s in
    match index with
    | None => Some s
    | Some i =>
        if degraded_ s then Some s
        else
          s ← change_step i (close_step outcome now) s;
          if empty message then Some s
          else if outcome == OutcomeFailed then fail_at i message s
          else append_log i LevelInfo message now (set_log_total (log_total_ s + 1) s)
    end.

Definition mark_failure (error : bytes) (now : Z) (s : recorder) : option recorder :=
  if quiet s then Some s
  else
    match list_find (fun step => step_outcome_ step = OutcomeFailed /\ step_error_ step = [] /\ step_open_ step = false) (steps_ s) with
    | Some (i, _) => fail_at i error s
    | None =>
        match open_ s with
        | Some i :: _ => fail_at i error s
        | _ =>
            if existsb (fun step => (step_outcome_ step == OutcomeFailed) && negb (empty (step_error_ step))) (steps_ s) then Some s
            else if (max_steps <=? length (steps_ s))%nat then Some (truncate_trace s)
            else
              let '(shown, s) := record_text error error_bytes s in
              let step := with_error shown (new_step StepUnscoped [] now (milliseconds_between (attempt_started_ s) now) OutcomeFailed false) in
              Some (add_used (step_overhead + json_string_size shown) (set_steps (steps_ s ++ [step]) s))
        end
    end.

Record related_task := RelatedTask { task_resource_type_ : bytes; task_resource_id_ : bytes; task_label_ : bytes }.
Definition link_task (task : related_task) (s : recorder) : option recorder :=
  if quiet s then Some s
  else
    match open_ s with
    | Some i :: _ =>
        let '(type, s) := record_text (task_resource_type_ task) identifier_bytes s in
        let '(id, s) := record_text (task_resource_id_ task) identifier_bytes s in
        let '(label, s) := record_text (task_label_ task) value_bytes s in
        s ← change_step i (with_related (RecordedRelated type id label)) s; Some (add_used related_overhead s)
    | _ => Some s
    end.

(** * Calls *)

Definition pairs_size (pairs : list redacted_pair) : Z := sum_of (fun pair => pair_overhead + json_string_size (name_ pair) + json_string_size (value_ pair)) pairs.
Definition body_size (body : option redacted_body) : Z :=
  match body with Some body => body_overhead + json_string_size (excerpt_ body) + json_string_size (content_type_ body) | None => 0 end.
Definition http_size (http : recorded_http) : Z :=
  json_string_size (url_ (http_url_ http)) * 2 + pairs_size (url_query_ (http_url_ http)) + pairs_size (request_headers_ http) + pairs_size (response_headers_ http) +
  body_size (request_body_ http) + body_size (response_body_ http) + json_string_size (host_ http).
Definition dns_size (dns : dns_observation) : Z :=
  dns_overhead + json_string_size (observed_name_ dns) +
  sum_of (fun answer => answer_overhead + json_string_size (answer_name_ answer) + json_string_size (answer_data_ answer)) (answers_ dns).
Definition node_size (node : recorded_node) : Z :=
  dns_overhead + json_string_size (node_request_id_ node) + sum_of (fun field => pair_overhead + json_string_size (fst field) + json_string_size (snd field)) (node_fields_ node).
Definition size_of {A} (f : A -> Z) (x : option A) : Z := match x with Some x => f x | None => 0 end.
Definition call_size (record : recorded_call) : Z :=
  call_overhead + json_string_size (subject_ record) + json_string_size (provider_request_id_ record) + json_string_size (call_provider_code_ record) +
  json_string_size (error_ record) + size_of http_size (http_ record) + size_of dns_size (call_dns_ record) + size_of node_size (node_ record).

(** [same_call]: what is shown of the two is the same, the time apart. *)
Definition same_body (x y : option redacted_body) : bool :=
  match x, y with
  | Some x, Some y => (excerpt_ x == excerpt_ y) && (omitted_reason_ x == omitted_reason_ y) && (bytes_ x =? bytes_ y)
  | None, None => true
  | _, _ => false
  end.
Definition same_http (a b : recorded_http) : bool :=
  (method_ a == method_ b) && (url_ (http_url_ a) == url_ (http_url_ b)) && (status_ a =? status_ b) && (transport_error_ a == transport_error_ b) &&
  same_body (request_body_ a) (request_body_ b) && same_body (response_body_ a) (response_body_ b).
Definition same_call (left right : recorded_call) : bool :=
  (call_kind_ left == call_kind_ right) && (operation_ left == operation_ right) && (outcome_ left == outcome_ right) && (subject_ left == subject_ right) &&
  (call_provider_code_ left == call_provider_code_ right) && (error_ left == error_ right) && negb (present (node_ left)) && negb (present (node_ right)) &&
  match http_ left, http_ right with
  | Some a, Some b => same_http a b
  | None, None => true
  | _, _ => false
  end.
(** The call among the last two of a step that a record repeats. *)
Definition repeats_at (record : recorded_call) (calls : list recorded_call) (back : nat) : bool :=
  (back <=? length calls)%nat && match calls !! (length calls - back)%nat with Some previous => same_call previous record | None => false end.
Definition repeated (record : recorded_call) (calls : list recorded_call) : option nat :=
  if repeats_at record calls 1 then Some (length calls - 1)%nat else if repeats_at record calls 2 then Some (length calls - 2)%nat else None.

Definition omit_call (i : nat) (s : recorder) : option recorder :=
  s ← change_step i omit_step_call s;
  Some (set_last_call None (truncate_trace (set_omitted_calls (omitted_calls_ s + 1) s))).

(** The bodies of a call that does not fit are left out. *)
Definition unkept_body (body : redacted_body) : redacted_body :=
  if empty (omitted_reason_ body) then RedactedBody (content_type_ body) (lit "omitted") (bytes_ body) [] false (lit "budget") else body.
Definition without_bodies (http : recorded_http) : recorded_http := with_bodies (unkept_body <$> request_body_ http) (unkept_body <$> response_body_ http) http.
Definition shrink_call (record : recorded_call) (s : recorder) : recorded_call * recorder :=
  match http_ record with
  | Some http =>
      if fits (call_bytes_ record) s then (record, s)
      else
        let smaller := with_http (Some (without_bodies http)) record in
        (sized_call (call_size smaller) smaller,
         truncate_trace (set_omitted_body_bytes (omitted_body_bytes_ s + (present_bytes (request_body_ http) + present_bytes (response_body_ http))) s))
  | None => (record, s)
  end.

Definition store_call (record : recorded_call) (now : Z) (s : recorder) : option recorder :=
  let duration := match duration_ms_override_ record with Some duration => duration | None => milliseconds_between (started_ record) now end in
  let record := timed_call duration record in
  let s := set_call_total (call_total_ s + 1) s in
  match current_step now s with
  | (None, s) => Some (truncate_trace (set_omitted_calls (omitted_calls_ s + 1) s))
  | (Some i, s) =>
      s ← change_step i count_call s;
      step ← steps_ s !! i;
      match repeated record (calls_ step) with
      | Some j =>
          s ← change_step i (fun step => with_calls (alter (fun previous => repeated_call record previous) j (calls_ step)) step) s;
          Some (set_last_call (Some (i, j)) s)
      | None =>
          let record := sized_call (call_size record) record in
          if (max_calls <=? stored_calls_ s) || (max_step_calls <=? size (calls_ step)) then omit_call i s
          else
            let '(record, s) := shrink_call record s in
            if fits (call_bytes_ record) s then
              s ← change_step i (fun step => with_calls (calls_ step ++ [record]) step) (set_stored_calls (stored_calls_ s + 1) (add_used (call_bytes_ record) s));
              Some (set_last_call (Some (i, length (calls_ step))) s)
            else omit_call i s
      end
  end.

(** An unfinished call is a cancelled one. *)
Definition abandon_pending (now : Z) (s : recorder) : option recorder :=
  match pending_ s with
  | None => Some s
  | Some pending =>
      let s := set_pending None s in
      http ← http_ (record_ pending);
      let '(error, s) := record_text (lit "cancelled") identifier_bytes s in
      store_call (with_outcome (lit "cancelled") error (with_http (Some (with_transport_error (lit "cancelled") http)) (record_ pending))) now s
  end.

(** * Calls over HTTP *)

(** [capture_body]: an excerpt within what is left of the attempt's budget. *)
Section Capture.
Context `{SecretOrder} `{JsonLibrary} `{CertificateReader}.

Definition capture_body (policy : outbound_policy) (request : bool) (content_type content : bytes) (limit : Z) (s : recorder) : redacted_body * recorder :=
  let budget := if body_used_ s <? body_budget_bytes then body_budget_bytes - body_used_ s else 0 in
  let '(result, r) := body policy request content_type content limit budget (redactor_ s) in
  let s := set_redactor r s in
  if empty (omitted_reason_ result) then
    let s := set_body_used (body_used_ s + json_string_size (excerpt_ result)) s in
    (result, if truncated_ result then truncate_trace (set_omitted_body_bytes (omitted_body_bytes_ s + Z.max 0 (size content - size (excerpt_ result))) s) else s)
  else if (omitted_reason_ result == lit "budget") || (omitted_reason_ result == lit "too_large")
  then (result, truncate_trace (set_omitted_body_bytes (omitted_body_bytes_ s + size content) s))
  else (result, s).

(** outbound.h: the origins, and the one of an alias. *)
Record http_client_config := HttpClientConfig { config_https_ : bool; config_host_ : bytes }.
Record outbound_origins := OutboundOrigins {
  cloudflare_ : http_client_config; aliyun_dns_ : http_client_config; lets_encrypt_ : http_client_config; zero_ssl_acme_ : http_client_config;
  zero_ssl_api_ : http_client_config; ali_dns_doh_ : http_client_config }.
Definition outbound_origin_config (origins : outbound_origins) (alias : bytes) : throwing http_client_config :=
  if alias == lit "cloudflare" then Returns (cloudflare_ origins)
  else if alias == lit "aliyun-dns" then Returns (aliyun_dns_ origins)
  else if alias == lit "lets-encrypt" then Returns (lets_encrypt_ origins)
  else if alias == lit "zerossl-acme" then Returns (zero_ssl_acme_ origins)
  else if alias == lit "zerossl-api" then Returns (zero_ssl_api_ origins)
  else if alias == lit "alidns-doh" then Returns (ali_dns_doh_ origins)
  else Throws (lit "outbound HTTP origin is not configured").
Definition get_outbound_origins (storage : option outbound_origins) : throwing outbound_origins :=
  match storage with Some origins => Returns origins | None => Throws (lit "outbound origins are not configured") end.

Record outbound_call := OutboundCall { origin_alias_ : bytes; call_policy_ : option outbound_policy; call_subject_ : bytes }.
(** A request as the recorder reads it; its content is there when it is borrowed bytes. *)
Record client_request := ClientRequest { request_method_ : bytes; sent_headers_ : list (bytes * bytes); target_ : bytes; content_ : option bytes }.

(** The loop over headers: every one passes the redactor, the first [max_headers] are kept. *)
Definition is_content_type (name : bytes) : bool := equals_ignore_case name (lit "content-type").
Definition header_content_type (headers : list (bytes * bytes)) : bytes :=
  fold_left (fun found header => if is_content_type (fst header) then snd header else found) headers [].
Fixpoint redact_headers (redact : redactor -> bytes -> bytes -> redacted_pair * redactor) (headers : list (bytes * bytes)) (r : redactor) : list redacted_pair * redactor :=
  match headers with
  | [] => ([], r)
  | (name, value) :: headers =>
      let '(shown, r) := redact r name value in
      let '(pairs, r) := redact_headers redact headers r in (shown :: pairs, r)
  end.
Definition record_headers (redact : redactor -> bytes -> bytes -> redacted_pair * redactor) (headers : list (bytes * bytes)) (s : recorder) : list redacted_pair * recorder :=
  let '(pairs, r) := redact_headers redact headers (redactor_ s) in (take max_headers pairs, set_redactor r s).
(** The question of a DNS query, from its parameters. *)
Definition query_parameter (name : bytes) (parameters : list redacted_pair) : bytes :=
  fold_left (fun found pair => if name_ pair == name then value_ pair else found) parameters [].

Definition begin_http (storage : option outbound_origins) (call : outbound_call) (request : client_request) (now : Z) (s : recorder) : option (Z * recorder) :=
  if quiet s then Some (0, s)
  else
    s ← abandon_pending now s;
    match call_policy_ call with
    | None => Some (0, degrade s)
    | Some policy =>
        match throwing_bind (get_outbound_origins storage) (fun origins => outbound_origin_config origins (origin_alias_ call)) with
        | Throws _ => Some (0, set_pending None (degrade s))
        | Returns origin =>
            let scheme := if config_https_ origin then lit "https" else lit "http" in
            let s := set_next_call_id (next_call_id_ s + 1) s in
            let '(subject, s) := record_text (call_subject_ call) value_bytes s in
            let '(method, s) := record_text (request_method_ request) identifier_bytes s in
            let '(host, s) := record_text (config_host_ origin) value_bytes s in
            let '(headers, s) := record_headers request_header (sent_headers_ request) s in
            let '(address, r) := url policy (redactor_ s) scheme (config_host_ origin) (target_ request) in
            let s := set_redactor r s in
            let '(content, s) :=
              match content_ request with
              | Some ((_ :: _) as content) =>
                  let '(captured, s) := capture_body policy true (header_content_type (sent_headers_ request)) content request_excerpt_bytes s in (Some captured, s)
              | _ => (None, s)
              end in
            let http := RecordedHttp method scheme host address headers content 0 [] [] None in
            let record := with_http (Some http) (new_call (if dns_query_ policy then lit "dns" else lit "http") (policy_code_ policy) subject [] now) in
            let question name := if dns_query_ policy then query_parameter (lit name) (url_query_ address) else [] in
            Some (next_call_id_ s, set_pending (Some (PendingCall (next_call_id_ s) policy record (question "name"%string) (question "type"%string))) s)
        end
    end.

(** The call in flight, when a token is of it. *)
Definition in_flight (token : Z) (s : recorder) : option pending_call :=
  match pending_ s with Some pending => if call_id_ pending =? token then Some pending else None | None => None end.

Definition entries_of (headers : list (bytes * bytes)) : list header_entry := map (fun header => HeaderEntry (fst header) (snd header)) headers.
Definition complete_http (token status : Z) (headers : list (bytes * bytes)) (content : bytes) (now : Z) (s : recorder) : option recorder :=
  match in_flight token s with
  | None => Some s
  | Some pending =>
      let s := set_pending None s in
      let policy := policy_ pending in
      http ← http_ (record_ pending);
      let content_type := header_content_type headers in
      let '(shown, s) := record_headers (response_header policy) headers s in
      let '(captured, s) :=
        if empty content then (response_body_ http, s)
        else let '(captured, s) := capture_body policy false content_type content response_excerpt_bytes s in (Some captured, s) in
      let '(facts, r) := response policy (entries_of headers) content_type content status (query_name_ pending) (query_type_ pending) (redactor_ s) in
      let '(dns, r) :=
        if dns_query_ policy && negb (present (dns_ facts))
        then let '(observed, r) := unanswered_query r (query_name_ pending) (query_type_ pending) in (Some observed, r)
        else (dns_ facts, r) in
      let outcome := if (200 <=? status) && (status <? 300) then lit "ok" else lit "http_error" in
      store_call (with_reply outcome facts dns (with_http (Some (with_response status shown captured http)) (record_ pending))) now (set_redactor r s)
  end.

(** ruvia's error codes, and their names. *)
Inductive client_error := ErrorTimeout | ErrorResolve | ErrorConnect | ErrorTls | ErrorTooLarge | ErrorIo | ErrorUnavailable | ErrorProtocol | ErrorQueueFull
  | ErrorCancelled | ErrorClosing | ErrorOther.
Definition transport_error_name (code : client_error) : bytes :=
  match code with
  | ErrorTimeout => lit "timeout" | ErrorResolve => lit "resolve_failed" | ErrorConnect => lit "connect_failed" | ErrorTls => lit "tls_failed"
  | ErrorTooLarge => lit "response_too_large" | ErrorIo => lit "io_error" | ErrorUnavailable | ErrorProtocol => lit "protocol_error"
  | ErrorQueueFull => lit "queue_full" | ErrorCancelled | ErrorClosing => lit "cancelled" | ErrorOther => lit "other"
  end.
Definition fail_http (token : Z) (code : client_error) (now : Z) (s : recorder) : option recorder :=
  match in_flight token s with
  | None => Some s
  | Some pending =>
      let s := set_pending None s in
      http ← http_ (record_ pending);
      let name := transport_error_name code in
      let '(error, s) := record_text name identifier_bytes s in
      let record := with_outcome (if name == lit "cancelled" then lit "cancelled" else lit "transport_error") error (with_http (Some (with_transport_error name http)) (record_ pending)) in
      let '(record, s) :=
        if dns_query_ (policy_ pending) then
          let '(observed, r) := unanswered_query (redactor_ s) (query_name_ pending) (query_type_ pending) in (with_dns (Some observed) record, set_redactor r s)
        else (record, s) in
      store_call record now s
  end.
End Capture.

Definition mark_invalid_response (reason : bytes) (s : recorder) : option recorder :=
  if quiet s then Some s
  else
    match last_call_ s with
    | None => Some s
    | Some (i, j) =>
        step ← steps_ s !! i;
        call ← calls_ step !! j;
        if outcome_ call == lit "ok" then
          let '(error, s) := record_text reason error_bytes s in
          s ← change_step i (fun step => with_calls (<[j := with_outcome (lit "invalid_response") error call]> (calls_ step)) step) s;
          Some (add_used (json_string_size error) s)
        else Some s
    end.

(** * What a node reports *)

Record node_message := NodeMessage {
  sent_direction_ : bytes; node_message_ : bytes; message_request_id_ : bytes; message_object_count_ : Z; message_bytes_ : Z; message_fields_ : list (bytes * bytes) }.
Fixpoint record_fields (fields : list (bytes * bytes)) (s : recorder) : list (bytes * bytes) * recorder :=
  match fields with
  | [] => ([], s)
  | (name, value) :: fields =>
      let '(name, s) := record_text name identifier_bytes s in
      let '(value, s) := record_text value error_bytes s in
      let '(rest, s) := record_fields fields s in ((name, value) :: rest, s)
  end.
Definition with_node (node : recorded_node) (call : recorded_call) : recorded_call :=
  RecordedCall (call_kind_ call) (operation_ call) (subject_ call) (started_ call) (last_started_ call) (duration_ms_ call) (Some 0) (outcome_ call) (repeat_count_ call)
    (repeat_total_ms_ call) (provider_request_id_ call) (call_provider_code_ call) (error_ call) (http_ call) (call_dns_ call) (Some node) (call_bytes_ call).
Definition record_node_message (message : node_message) (at_time now : Z) (s : recorder) : option recorder :=
  if quiet s then Some s
  else
    let sent := sent_direction_ message == lit "sent" in
    let '(name, s) := record_text (node_message_ message) identifier_bytes s in
    let '(id, s) := record_text (message_request_id_ message) identifier_bytes s in
    let '(fields, s) := record_fields (message_fields_ message) s in
    let node := RecordedNode (if sent then lit "sent" else lit "received") name id (message_object_count_ message) (message_bytes_ message) fields in
    store_call (with_node node (new_call (lit "node_message") (if sent then lit "node.send" else lit "node.receive") [] (lit "ok") (if at_time =? 0 then now else at_time))) now s.

(** Steps and lines of another process, by its own clock. *)
Definition record_reported_step (code : step_code) (phase subject : bytes) (started_at duration : Z) (ok : bool) (error : bytes) (s : recorder) : recorder :=
  if quiet s then s
  else if (max_steps <=? length (steps_ s))%nat then truncate_trace (set_omitted_steps (omitted_steps_ s + 1) s)
  else
    let '(shown, s) := record_text subject value_bytes s in
    let elapsed := started_at - system_started_ s in
    let '(error, s) := if ok then ([], s) else record_text error error_bytes s in
    let step := RecordedStep code shown (attempt_started_ s + elapsed) (Some started_at) (if size phase <=? max_reported_phase_bytes then phase else [])
      (Z.max (elapsed ÷ nanoseconds_per_millisecond) 0) (Z.max duration 0) (if ok then OutcomeCompleted else OutcomeFailed) false error None [] [] 0 0 in
    add_used (step_overhead + json_string_size shown + json_string_size error) (set_steps (steps_ s ++ [step]) s).

(** The loop over the steps: the last one of the phase, and the latest that had started by then. *)
Definition reported_owner (at_time : Z) (phase : bytes) (found : option nat * option nat) (i : nat) (step : recorded_step) : option nat * option nat :=
  let '(by_phase, by_time) := found in
  match reported_started_at_ step with
  | None => found
  | Some started_at =>
      (if negb (empty phase) && (reported_phase_ step == phase) then Some i else by_phase,
       if negb (present by_time) || (started_at <=? at_time) then Some i else by_time)
  end.
Fixpoint reported_owners (at_time : Z) (phase : bytes) (found : option nat * option nat) (i : nat) (steps : list recorded_step) : option nat * option nat :=
  match steps with
  | [] => found
  | step :: steps => reported_owners at_time phase (reported_owner at_time phase found i step) (S i) steps
  end.
Definition record_reported_log (level : log_level) (at_time : Z) (phase message : bytes) (s : recorder) : option recorder :=
  if quiet s then Some s
  else
    let s := set_log_total (log_total_ s + 1) s in
    if empty (steps_ s) then Some (omit_log s)
    else
      let '(by_phase, by_time) := reported_owners at_time phase (None, None) 0 (steps_ s) in
      let owner := match by_phase with Some i => i | None => match by_time with Some i => i | None => pred (length (steps_ s)) end end in
      append_log owner level message (attempt_started_ s + (at_time - system_started_ s)) s.

(** * The end of an attempt *)

(** [std::stable_sort] by offset: insertion after the steps that do not come later. *)
Fixpoint insert_step (step : recorded_step) (steps : list recorded_step) : list recorded_step :=
  match steps with
  | [] => [step]
  | other :: others => if offset_ms_ step <? offset_ms_ other then step :: steps else other :: insert_step step others
  end.
Definition sort_steps (steps : list recorded_step) : list recorded_step := fold_left (fun sorted step => insert_step step sorted) steps [].

Fixpoint close_open (opened : list (option nat)) (now : Z) (s : recorder) : option recorder :=
  match opened with
  | [] => Some s
  | Some i :: opened => s ← change_step i (close_step OutcomeCompleted now) s; close_open opened now s
  | None :: opened => close_open opened now s
  end.
Definition trace_of (s : recorder) : recorded_trace :=
  RecordedTrace (kind_ s) (worker_type_ s) (attempt_started_ s) (system_started_ s) (steps_ s) (call_total_ s) (log_total_ s) (omitted_steps_ s) (omitted_calls_ s)
    (omitted_logs_ s) (omitted_body_bytes_ s) (redactions_ (redactor_ s)) (truncated_trace_ s) (is_degraded s).
Definition finish `{TraceSerializer} (now : Z) (s : recorder) : option (option stored_trace * recorder) :=
  if finished_ s then Some (None, s)
  else
    let s := set_finished s in
    s ← abandon_pending now s;
    s ← close_open (rev (open_ s)) now s;
    let s := set_last_call None (set_steps (sort_steps (steps_ s)) (set_open [] s)) in
    let stored := to_stored_trace (trace_of s) in
    Some (stored, match stored with Some _ => s | None => truncate_trace s end).

(** Error text that leaves the attempt, whatever the capture state. *)
Definition redacted_error_fallback : bytes := lit "错误详情可能包含凭据，已隐藏".
Definition redact_error (error : bytes) (s : recorder) : bytes * recorder :=
  let '(shown, r) := external_text (redactor_ s) error redacted_error_fallback in (shown, set_redactor r s).

(** * Histories *)

(** What the attempt can call. *)
Inductive event :=
  | BeginStep (code : step_code) (subject : bytes) (now : Z)
  | EndStep (index : option nat) (outcome : step_outcome) (message : bytes) (now : Z)
  | Log (level : log_level) (message : bytes) (now : Z)
  | RegisterSecret (value : bytes)
  | RedactError (error : bytes)
  | MarkFailure (error : bytes) (now : Z)
  | LinkTask (task : related_task)
  | BeginHttp (storage : option outbound_origins) (call : outbound_call) (request : client_request) (now : Z)
  | CompleteHttp (token status : Z) (headers : list (bytes * bytes)) (content : bytes) (now : Z)
  | FailHttp (token : Z) (code : client_error) (now : Z)
  | MarkInvalid (reason : bytes)
  | NodeReport (message : node_message) (at_time now : Z)
  | ReportedStep (code : step_code) (phase subject : bytes) (started_at duration : Z) (ok : bool) (error : bytes)
  | ReportedLog (level : log_level) (at_time : Z) (phase message : bytes)
  | Finish (now : Z).

Definition handle `{SecretOrder} `{JsonLibrary} `{CertificateReader} `{TraceSerializer} (s : recorder) (e : event) : option recorder :=
  match e with
  | BeginStep code subject now => Some (snd (begin_step code subject now s))
  | EndStep index outcome message now => end_step index outcome message now s
  | Log level message now => log level message now s
  | RegisterSecret value => Some (set_redactor (register_secret (redactor_ s) value) s)
  | RedactError error => Some (snd (redact_error error s))
  | MarkFailure error now => mark_failure error now s
  | LinkTask task => link_task task s
  | BeginHttp storage call request now => snd <$> begin_http storage call request now s
  | CompleteHttp token status headers content now => complete_http token status headers content now s
  | FailHttp token code now => fail_http token code now s
  | MarkInvalid reason => mark_invalid_response reason s
  | NodeReport message at_time now => record_node_message message at_time now s
  | ReportedStep code phase subject started_at duration ok error => Some (record_reported_step code phase subject started_at duration ok error s)
  | ReportedLog level at_time phase message => record_reported_log level at_time phase message s
  | Finish now => snd <$> finish now s
  end.
Fixpoint handle_all `{SecretOrder} `{JsonLibrary} `{CertificateReader} `{TraceSerializer} (s : recorder) (events : list event) : option recorder :=
  match events with
  | [] => Some s
  | e :: events => s ← handle s e; handle_all s events
  end.

(** * What holds of every recorder *)

Definition shown_calls (step : recorded_step) : Z := sum_of repeat_count_ (calls_ step).
Definition shown_logs (step : recorded_step) : Z := sum_of log_repeat_count_ (logs_ step).

#[local] Arguments sum_of : simpl never.
#[local] Arguments json_string_size : simpl never.
#[local] Arguments size : simpl never.

(** A step accounts for every call it was given. *)
Record step_ok (step : recorded_step) : Prop := {
  step_calls_bound : size (calls_ step) <= max_step_calls;
  step_calls_counted : call_count_ step = shown_calls step + step_omitted_calls_ step }.

(** What a recorder holds is within its limits, its indexes are of its vectors, and every call and every
    line is shown, as a line of its own or in the count of another, or counted as left out. *)
Record recorder_ok (s : recorder) : Prop := {
  ok_steps : (length (steps_ s) <= max_steps)%nat;
  ok_each : Forall step_ok (steps_ s);
  ok_open : forall i, Some i ∈ open_ s -> (i < length (steps_ s))%nat;
  ok_last : forall i j, last_call_ s = Some (i, j) -> exists step, steps_ s !! i = Some step /\ (j < length (calls_ step))%nat;
  ok_pending : forall pending, pending_ s = Some pending -> present (http_ (record_ pending)) = true /\ repeat_count_ (record_ pending) = 1;
  ok_stored : stored_calls_ s = sum_of (fun step => size (calls_ step)) (steps_ s) /\ stored_calls_ s <= max_calls;
  ok_calls : call_total_ s = sum_of shown_calls (steps_ s) + omitted_calls_ s;
  ok_logs : log_total_ s = sum_of shown_logs (steps_ s) + omitted_logs_ s;
  ok_records : log_records_ s = sum_of (fun step => size (logs_ step)) (steps_ s) /\ log_records_ s <= max_logs;
  ok_log_bytes : log_bytes_ s <= max_log_bytes }.
(** What a finished recorder has left: nothing to change. *)
Definition settled (s : recorder) : Prop := pending_ s = None /\ open_ s = [] /\ last_call_ s = None.

(** What [recorder_ok] speaks of. *)
Definition core (s : recorder) :=
  (steps_ s, open_ s, last_call_ s, pending_ s, finished_ s, (stored_calls_ s, call_total_ s, log_total_ s, log_records_ s, log_bytes_ s, omitted_calls_ s, omitted_logs_ s)).
Lemma ok_core s s' : core s' = core s -> recorder_ok s -> recorder_ok s'.
Proof.
  unfold core. rewrite !pair_equal_spec. intros [[[[[Es Eo] El] Ep] Ef] [[[[[[Est Ect] Elt] Elr] Elb] Eoc] Eol]] [H1 H2 H3 H4 H5 H6 H7 H8 H9 H10].
  split; rewrite ?Es, ?Eo, ?El, ?Ep, ?Ef, ?Est, ?Ect, ?Elt, ?Elr, ?Elb, ?Eoc, ?Eol; assumption.
Qed.

Lemma record_text_eq value limit s : exists shown r, record_text value limit s = (shown, set_redactor r s).
Proof. unfold record_text. destruct (text _ _ _) as [shown r]. by exists shown, r. Qed.
Lemma ok_redactor r s : recorder_ok s -> recorder_ok (set_redactor r s).
Proof. by apply ok_core. Qed.

(** An operation that goes well, and whether the attempt is finished then. *)
Definition well (finished : bool) (o : option recorder) : Prop := exists s, o = Some s /\ recorder_ok s /\ finished_ s = finished.
Lemma well_some s : recorder_ok s -> well (finished_ s) (Some s).
Proof. by exists s. Qed.
Lemma well_bind finished o f : well finished o -> (forall s, recorder_ok s -> finished_ s = finished -> well finished (f s)) -> well finished (s ← o; f s).
Proof. intros (s & -> & Hs & Ef) Hf. exact (Hf s Hs Ef). Qed.
Lemma well_core s s' : core s' = core s -> recorder_ok s -> well (finished_ s) (Some s').
Proof.
  intros Ec Hs. exists s'. split; [done|]. split; [by apply (ok_core s)|]. unfold core in Ec. rewrite !pair_equal_spec in Ec. by destruct Ec as [[[[[_ _] _] _] Ef] _].
Qed.

(** * A step replaced, and a step added *)

Lemma sum_of_insert {A} (f : A -> Z) (l : list A) i x y : l !! i = Some x -> sum_of f (<[i := y]> l) = sum_of f l - f x + f y.
Proof.
  revert i. induction l as [|z l IH]; intros [|i] Hi; try done; cbn in Hi.
  - injection Hi as ->. unfold sum_of. cbn. lia.
  - change (f z + sum_of f (<[i := y]> l) = f z + sum_of f l - f x + f y). rewrite (IH i Hi). lia.
Qed.
Lemma alter_insert {A} (f : A -> A) (l : list A) i x : l !! i = Some x -> alter f i l = <[i := f x]> l.
Proof. revert i. induction l as [|y l IH]; intros [|i] Hi; try done; cbn in Hi |- *; [by injection Hi as ->|]. f_equal. by apply IH. Qed.

(** The step at [i] becomes another that accounts for its calls; the totals follow. *)
Lemma step_replaced s s' i step step' : recorder_ok s -> steps_ s !! i = Some step -> steps_ s' = <[i := step']> (steps_ s) -> step_ok step' ->
  (length (calls_ step) <= length (calls_ step'))%nat ->
  (forall index, index ∈ open_ s' -> index ∈ open_ s) -> (last_call_ s' = last_call_ s \/ last_call_ s' = None \/ exists j, last_call_ s' = Some (i, j) /\ (j < length (calls_ step'))%nat) ->
  (forall pending, pending_ s' = Some pending -> pending_ s = Some pending) ->
  stored_calls_ s' - stored_calls_ s = size (calls_ step') - size (calls_ step) -> stored_calls_ s' <= max_calls ->
  call_total_ s' - call_total_ s = shown_calls step' - shown_calls step + (omitted_calls_ s' - omitted_calls_ s) ->
  log_total_ s' - log_total_ s = shown_logs step' - shown_logs step + (omitted_logs_ s' - omitted_logs_ s) ->
  log_records_ s' - log_records_ s = size (logs_ step') - size (logs_ step) -> log_records_ s' <= max_logs -> log_bytes_ s' <= max_log_bytes -> recorder_ok s'.
Proof.
  intros [Hlen Heach Hopen Hlast Hpend [Hst Hst'] Hcalls Hlogs [Hrec Hrec'] Hlb] Hi Es' Hstep Hgrow Eopen Elast Epend Dst Bst Dcalls Dlogs Drec Brec Blb.
  assert (Hlen' : length (steps_ s') = length (steps_ s)) by by rewrite Es', length_insert.
  split; rewrite ?Hlen'; try assumption.
  - rewrite Es'. apply Forall_insert; done.
  - intros k Hk. apply Hopen. by apply Eopen.
  - intros k j Hk. destruct Elast as [E|[E|(j' & E & Hj')]]; rewrite E in Hk; [|done|].
    + destruct (Hlast k j Hk) as (old & Hold & Hj). destruct (decide (k = i)) as [->|Hne].
      * rewrite Hi in Hold. injection Hold as ->. exists step'. rewrite Es', list_lookup_insert_eq by (by eapply lookup_lt_Some). split; [done|lia].
      * exists old. by rewrite Es', list_lookup_insert_ne.
    + injection Hk as <- <-. exists step'. by rewrite Es', list_lookup_insert_eq by (by eapply lookup_lt_Some).
  - intros pending Hp. by apply Hpend, Epend.
  - rewrite Es', (sum_of_insert _ _ _ _ _ Hi). split; [lia|done].
  - rewrite Es', (sum_of_insert _ _ _ _ _ Hi). lia.
  - rewrite Es', (sum_of_insert _ _ _ _ _ Hi). lia.
  - rewrite Es', (sum_of_insert _ _ _ _ _ Hi). split; [lia|done].
Qed.

(** A step with nothing in it is added. *)
Lemma step_added s s' step : recorder_ok s -> (length (steps_ s) < max_steps)%nat -> steps_ s' = steps_ s ++ [step] ->
  calls_ step = [] -> logs_ step = [] -> call_count_ step = 0 -> step_omitted_calls_ step = 0 ->
  (forall i, Some i ∈ open_ s' -> Some i ∈ open_ s \/ i = length (steps_ s)) -> last_call_ s' = last_call_ s -> pending_ s' = pending_ s -> stored_calls_ s' = stored_calls_ s ->
  call_total_ s' - call_total_ s = omitted_calls_ s' - omitted_calls_ s -> log_total_ s' - log_total_ s = omitted_logs_ s' - omitted_logs_ s ->
  log_records_ s' = log_records_ s -> log_bytes_ s' = log_bytes_ s -> recorder_ok s'.
Proof.
  intros [Hlen Heach Hopen Hlast Hpend [Hst Hst'] Hcalls Hlogs [Hrec Hrec'] Hlb] Hroom Es' Ec El Ecount Eomit Eopen Elast Epend Est Dcalls Dlogs Erec Elb.
  assert (sum_of (fun step => size (calls_ step)) [step] = 0 /\ sum_of shown_calls [step] = 0 /\ sum_of shown_logs [step] = 0 /\ sum_of (fun step => size (logs_ step)) [step] = 0)
    as (Z1 & Z2 & Z3 & Z4) by (unfold shown_calls, shown_logs, sum_of; cbn; rewrite Ec, El; done).
  split; rewrite ?Es', ?length_app, ?sum_of_app, ?Z1, ?Z2, ?Z3, ?Z4, ?Est, ?Erec, ?Elb; cbn [length]; try lia.
  - apply Forall_app. split; [done|]. apply Forall_singleton. split; unfold shown_calls; rewrite ?Ec, ?Ecount, ?Eomit; done.
  - intros i Hi. destruct (Eopen i Hi) as [Hi'| ->]; [specialize (Hopen i Hi')|]; lia.
  - intros i j Hij. rewrite Elast in Hij. destruct (Hlast i j Hij) as (old & Hold & Hj). exists old. split; [|done]. by apply lookup_app_l_Some.
  - intros pending Hp. rewrite Epend in Hp. by apply Hpend.
Qed.

Lemma list_last_lookup {A} (l : list A) x : list.last l = Some x -> l !! pred (length l) = Some x.
Proof. rewrite last_lookup. done. Qed.

(** The side conditions of [step_replaced] and [step_added], by computing the fields. *)
Ltac fields := try done; try (by left); cbn; unfold shown_calls, shown_logs; cbn; try lia.
Lemma sum_of_one {A} (f : A -> Z) x : sum_of f [x] = f x.
Proof. unfold sum_of. cbn. lia. Qed.
Lemma size_concat {A} (a b : list A) : size (a ++ b) = size a + size b.
Proof. unfold size. rewrite length_app. lia. Qed.

(** A line goes to a step of the vector: it is counted in the line before, kept, or left out. *)
Lemma append_log_well i level message at_time s : recorder_ok s -> (i < length (steps_ s))%nat ->
  well (finished_ s) (append_log i level message at_time (set_log_total (log_total_ s + 1) s)).
Proof.
  intros Hok Hi. unfold append_log. destruct (record_text_eq message log_message_bytes (set_log_total (log_total_ s + 1) s)) as (shown & r & ->).
  destruct (lookup_lt_is_Some_2 (steps_ s) i Hi) as [step Hstep]. cbn [steps_ set_redactor set_log_total]. rewrite Hstep. pose proof (Forall_lookup_1 _ _ _ _ (ok_each s Hok) Hstep) as [Hb Hc].
  pose proof Hok as [_ _ _ _ _ [_ Hst] _ _ [_ Hrec] Hlb].
  destruct (match last_log step with Some _ => _ | None => _ end) eqn:Esame.
  - destruct (last_log step) as [log|] eqn:Elast; [|done]. apply list_last_lookup in Elast. unfold change_step. cbn [steps_ set_redactor set_log_total]. rewrite Hstep.
    eexists. split; [reflexivity|]. split; [|done]. eapply (step_replaced s _ i step); try exact Hok; try exact Hstep; try reflexivity; fields.
    + rewrite (alter_insert _ _ _ _ Elast), (sum_of_insert _ _ _ _ _ Elast). cbn. lia.
    + unfold size. rewrite length_alter. lia.
  - destruct (_ || _) eqn:Eroom; [|].
    + eexists. split; [reflexivity|]. split; [|done]. eapply (step_replaced s _ i step step); try exact Hok; try exact Hstep; fields.
      symmetry. by apply list_insert_id.
    + unfold change_step. cbn [steps_ set_redactor set_log_total]. rewrite Hstep. rewrite !orb_false_iff in Eroom. destruct Eroom as [[Er1%Z.leb_gt Er2%Z.ltb_ge] _]. cbn in Er1, Er2.
      eexists. split; [reflexivity|]. split; [|done]. eapply (step_replaced s _ i step); try exact Hok; try exact Hstep; try reflexivity; fields.
      * rewrite sum_of_app, sum_of_one. cbn. lia.
      * rewrite size_concat. change (size [_]) with 1. lia.
Qed.

(** [current_step] leaves the totals alone, and they it. *)
Lemma current_step_log now n s : current_step now (set_log_total n s) = (fst (current_step now s), set_log_total n (snd (current_step now s))).
Proof. unfold current_step. cbn [open_ set_log_total]. destruct (open_ s); [|done]. change (unscoped_last (set_log_total n s)) with (unscoped_last s). cbn [steps_ set_log_total]. by repeat case_match. Qed.
Lemma current_step_calls now n s : current_step now (set_call_total n s) = (fst (current_step now s), set_call_total n (snd (current_step now s))).
Proof. unfold current_step. cbn [open_ set_call_total]. destruct (open_ s); [|done]. change (unscoped_last (set_call_total n s)) with (unscoped_last s). cbn [steps_ set_call_total]. by repeat case_match. Qed.

Lemma current_step_ok now s : recorder_ok s ->
  recorder_ok (snd (current_step now s)) /\ finished_ (snd (current_step now s)) = finished_ s /\ log_total_ (snd (current_step now s)) = log_total_ s /\
  call_total_ (snd (current_step now s)) = call_total_ s /\ forall i, fst (current_step now s) = Some i -> (i < length (steps_ (snd (current_step now s))))%nat.
Proof.
  intros Hok. unfold current_step. destruct (open_ s) as [|innermost others] eqn:Eopen.
  - destruct (unscoped_last s) eqn:Elast; [|destruct (Nat.leb_spec max_steps (length (steps_ s)))]; cbn [fst snd].
    + split_and!; try done. intros i [= <-]. unfold unscoped_last in Elast. rewrite last_lookup in Elast.
      destruct (steps_ s !! _) eqn:Es; [|done]. by apply lookup_lt_Some in Es.
    + by split_and!.
    + split_and!; try done; [|intros i [= <-]; cbn; rewrite length_app; cbn; lia].
      eapply (step_added s); try exact Hok; try reflexivity; try done; cbn; try lia. intros i Hi. by left.
  - cbn [fst snd]. split_and!; try done. intros i ->. apply (ok_open s Hok). rewrite Eopen. by left.
Qed.

Lemma ok_log_omitted s : recorder_ok s -> recorder_ok (omit_log (set_log_total (log_total_ s + 1) s)).
Proof. intros [H1 H2 H3 H4 H5 H6 H7 H8 H9 H10]. split; cbn; try assumption. lia. Qed.
Lemma ok_call_omitted s : recorder_ok s -> recorder_ok (truncate_trace (set_omitted_calls (omitted_calls_ s + 1) (set_call_total (call_total_ s + 1) s))).
Proof. intros [H1 H2 H3 H4 H5 H6 H7 H8 H9 H10]. split; cbn; try assumption. lia. Qed.

Lemma log_well level message now s : recorder_ok s -> well (finished_ s) (log level message now s).
Proof.
  intros Hok. unfold log. destruct (quiet s); [by apply well_some|]. rewrite current_step_log.
  destruct (current_step_ok now s Hok) as (Hok' & Ef & El & _ & Hi). destruct (current_step now s) as [[i|] s']; cbn [fst snd] in *; rewrite <- El, <- Ef.
  - by apply append_log_well, Hi.
  - exact (well_some _ (ok_log_omitted s' Hok')).
Qed.

(** A step is changed in what its account does not speak of. *)
Lemma change_step_well i f s : recorder_ok s -> (i < length (steps_ s))%nat ->
  (forall step, calls_ (f step) = calls_ step /\ logs_ (f step) = logs_ step /\ call_count_ (f step) = call_count_ step /\ step_omitted_calls_ (f step) = step_omitted_calls_ step) ->
  exists s', change_step i f s = Some s' /\ recorder_ok s' /\ finished_ s' = finished_ s /\ length (steps_ s') = length (steps_ s) /\ log_total_ s' = log_total_ s /\
    open_ s' = open_ s /\ pending_ s' = pending_ s /\ last_call_ s' = last_call_ s.
Proof.
  intros Hok Hi Hf. unfold change_step. destruct (lookup_lt_is_Some_2 (steps_ s) i Hi) as [step Hstep]. rewrite Hstep.
  pose proof (Forall_lookup_1 _ _ _ _ (ok_each s Hok) Hstep) as [Hb Hc]. destruct (Hf step) as (Ec & El & En & Eo). pose proof Hok as [_ _ _ _ _ [_ Hst] _ _ [_ Hrec] Hlb].
  eexists. split; [reflexivity|]. split; [|split_and!; try done; cbn; by rewrite length_insert].
  eapply (step_replaced s _ i step); try exact Hok; try exact Hstep; try reflexivity; fields; rewrite ?Ec, ?El; try lia.
  split; unfold shown_calls; rewrite ?Ec, ?En, ?Eo; done.
Qed.

Lemma fail_at_well i error s : recorder_ok s -> (i < length (steps_ s))%nat -> well (finished_ s) (fail_at i error s).
Proof.
  intros Hok Hi. unfold fail_at. destruct (record_text_eq error error_bytes s) as (shown & r & ->).
  destruct (change_step_well i (with_error shown) (set_redactor r s) (ok_redactor r s Hok) Hi ltac:(done)) as (s' & -> & Hok' & Ef & _).
  cbn [mbind option_bind]. change (finished_ (set_redactor r s)) with (finished_ s) in Ef. rewrite <- Ef. by apply well_core.
Qed.

Lemma remove_first_subset index opened i : i ∈ remove_first index opened -> i ∈ opened.
Proof. induction opened as [|innermost others IH]; cbn; [done|]. destruct (_ == _); rewrite !elem_of_cons; [by right|]. intros [->|Hi]; [by left|right; by apply IH]. Qed.

Lemma ok_open_subset opened s : recorder_ok s -> (forall i, Some i ∈ opened -> Some i ∈ open_ s) -> recorder_ok (set_open opened s).
Proof. intros [H1 H2 H3 H4 H5 H6 H7 H8 H9 H10] Hsub. split; cbn; try assumption. intros i Hi. by apply H3, Hsub. Qed.

Lemma close_step_account outcome now step : calls_ (close_step outcome now step) = calls_ step /\ logs_ (close_step outcome now step) = logs_ step /\
  call_count_ (close_step outcome now step) = call_count_ step /\ step_omitted_calls_ (close_step outcome now step) = step_omitted_calls_ step.
Proof. unfold close_step. by destruct (step_open_ step). Qed.

Lemma end_step_well index outcome message now s : recorder_ok s -> well (finished_ s) (end_step index outcome message now s).
Proof.
  intros Hok. unfold end_step. destruct (finished_ s) eqn:Efin; [rewrite <- Efin; by apply well_some|].
  destruct (contains_index index (open_ s)) eqn:Ein; cbn [negb]; [|rewrite <- Efin; by apply well_some].
  assert (Hok' : recorder_ok (set_open (remove_first index (open_ s)) s)) by (apply ok_open_subset; [done|]; intros i; apply remove_first_subset).
  assert (Efin' : finished_ (set_open (remove_first index (open_ s)) s) = false) by done.
  destruct index as [i|]; [|rewrite <- Efin'; by apply well_some]. change (degraded_ (set_open (remove_first (Some i) (open_ s)) s)) with (degraded_ s).
  destruct (degraded_ s); [rewrite <- Efin'; by apply well_some|].
  assert (Hi : (i < length (steps_ s))%nat).
  { unfold contains_index in Ein. apply existsb_exists in Ein as (x & Hx%list_elem_of_In & ->%bool_decide_eq_true). by apply (ok_open s Hok). }
  destruct (change_step_well i (close_step outcome now) _ Hok' Hi (close_step_account outcome now)) as (s' & -> & Hok2 & Ef2 & Elen & Elog & _). cbn [mbind option_bind].
  assert (Hi' : (i < length (steps_ s'))%nat) by (rewrite Elen; exact Hi). rewrite <- Efin', <- Ef2.
  destruct (empty message); [by apply well_some|]. destruct (_ == _); [by apply fail_at_well|by apply append_log_well].
Qed.

Lemma begin_step_well code subject now s : recorder_ok s -> well (finished_ s) (Some (snd (begin_step code subject now s))).
Proof.
  intros Hok. unfold begin_step. destruct (quiet s); [by apply well_some|]. destruct (Nat.leb_spec max_steps (length (steps_ s))) as [|Hroom].
  - eexists. split; [reflexivity|]. split; [|done]. destruct Hok as [H1 H2 H3 H4 H5 H6 H7 H8 H9 H10]. split; cbn; try assumption.
    intros i [?|Hi]%elem_of_cons; [done|]. by apply H3.
  - destruct (record_text_eq subject value_bytes s) as (shown & r & ->). eexists. split; [reflexivity|]. split; [|done].
    eapply (step_added s); try exact Hok; try reflexivity; try done; cbn; try lia. intros i [[= ->]|Hi]%elem_of_cons; [by right|by left].
Qed.

Lemma mark_failure_well error now s : recorder_ok s -> well (finished_ s) (mark_failure error now s).
Proof.
  intros Hok. unfold mark_failure. destruct (quiet s); [by apply well_some|]. destruct (list_find _ _) as [[i step]|] eqn:Efind.
  { apply list_find_Some in Efind as (Hi & _). apply fail_at_well; [done|]. by apply lookup_lt_Some in Hi. }
  assert (Hnone : well (finished_ s) (if existsb (fun step => (step_outcome_ step == OutcomeFailed) && negb (empty (step_error_ step))) (steps_ s) then Some s
    else if (max_steps <=? length (steps_ s))%nat then Some (truncate_trace s)
    else let '(shown, s) := record_text error error_bytes s in
      Some (add_used (step_overhead + json_string_size shown) (set_steps (steps_ s ++ [with_error shown (new_step StepUnscoped [] now (milliseconds_between (attempt_started_ s) now) OutcomeFailed false)]) s)))).
  { destruct (existsb _ _); [by apply well_some|]. destruct (Nat.leb_spec max_steps (length (steps_ s))) as [|Hroom]; [by apply well_core|].
    destruct (record_text_eq error error_bytes s) as (shown & r & ->). eexists. split; [reflexivity|]. split; [|done].
    eapply (step_added s); try exact Hok; try reflexivity; try done; cbn; try lia. intros i Hi. by left. }
  destruct (open_ s) as [|[i|] others] eqn:Eopen; [exact Hnone| |exact Hnone]. apply fail_at_well; [done|]. apply (ok_open s Hok). rewrite Eopen. by left.
Qed.

Lemma link_task_well task s : recorder_ok s -> well (finished_ s) (link_task task s).
Proof.
  intros Hok. unfold link_task. destruct (quiet s); [by apply well_some|]. destruct (open_ s) as [|[i|] others] eqn:Eopen; try by apply well_some.
  destruct (record_text_eq (task_resource_type_ task) identifier_bytes s) as (type & r1 & ->).
  destruct (record_text_eq (task_resource_id_ task) identifier_bytes (set_redactor r1 s)) as (id & r2 & ->).
  destruct (record_text_eq (task_label_ task) value_bytes (set_redactor r2 (set_redactor r1 s))) as (label & r3 & ->).
  destruct (change_step_well i (with_related (RecordedRelated type id label)) (set_redactor r3 (set_redactor r2 (set_redactor r1 s))) (ltac:(by apply ok_redactor, ok_redactor, ok_redactor)))
    as (s' & -> & Hok' & Ef & _); [apply (ok_open s Hok); rewrite Eopen; by left|done|].
  cbn [mbind option_bind]. change (finished_ (set_redactor _ _)) with (finished_ s) in Ef. rewrite <- Ef. by apply well_core.
Qed.

Lemma reported_step_well code phase subject started_at duration ok error s : recorder_ok s ->
  well (finished_ s) (Some (record_reported_step code phase subject started_at duration ok error s)).
Proof.
  intros Hok. unfold record_reported_step. destruct (quiet s); [by apply well_some|]. destruct (Nat.leb_spec max_steps (length (steps_ s))) as [|Hroom]; [by apply well_core|].
  destruct (record_text_eq subject value_bytes s) as (shown & r & ->).
  destruct (if ok then _ else _) as [shown' s'] eqn:E.
  assert (exists r', s' = set_redactor r' s) as [r' ->].
  { destruct ok; [injection E as _ <-; by exists r|]. destruct (record_text_eq error error_bytes (set_redactor r s)) as (? & r' & E'). rewrite E' in E. injection E as _ <-. by exists r'. }
  eexists. split; [reflexivity|]. split; [|done].
  eapply (step_added s); try exact Hok; try reflexivity; try done; cbn; try lia. intros i Hi. by left.
Qed.

Lemma reported_owners_bound at_time phase steps : forall found i, (forall k, fst found = Some k \/ snd found = Some k -> (k < i)%nat) ->
  forall k, fst (reported_owners at_time phase found i steps) = Some k \/ snd (reported_owners at_time phase found i steps) = Some k -> (k < i + length steps)%nat.
Proof.
  induction steps as [|step steps IH]; intros found i Hf k Hk; cbn [reported_owners length] in *; [specialize (Hf k Hk); lia|].
  rewrite Nat.add_succ_r. apply (IH _ (S i)) in Hk; [done|]. intros j Hj. destruct found as [by_phase by_time]. unfold reported_owner in Hj. cbn [fst snd] in Hf.
  destruct (reported_started_at_ step); [|specialize (Hf j Hj); lia]. cbn [fst snd] in Hj.
  destruct Hj as [Hj|Hj]; [destruct (_ && _) in Hj|destruct (_ || _) in Hj]; try (injection Hj as <-; lia); specialize (Hf j); naive_solver lia.
Qed.
Lemma reported_log_well level at_time phase message s : recorder_ok s -> well (finished_ s) (record_reported_log level at_time phase message s).
Proof.
  intros Hok. unfold record_reported_log. destruct (quiet s); [by apply well_some|]. cbn [steps_ set_log_total].
  destruct (steps_ s) as [|first others] eqn:Es; cbn [empty]; [exact (well_some _ (ok_log_omitted s Hok))|]. rewrite <- Es.
  pose proof (reported_owners_bound at_time phase (steps_ s) (None, None) 0 ltac:(by intros k [|])) as Hb. cbn [plus] in Hb.
  destruct (reported_owners _ _ _ _ _) as [by_phase by_time]. cbn [fst snd] in Hb. apply append_log_well; [done|].
  destruct by_phase as [i|]; [apply Hb; by left|]. destruct by_time as [i|]; [apply Hb; by right|]. rewrite Es. cbn. lia.
Qed.

(** * Calls are accounted for *)

Lemma repeated_bound record calls j : repeated record calls = Some j -> exists call, calls !! j = Some call.
Proof.
  unfold repeated, repeats_at. destruct (1 <=? length calls)%nat eqn:E1; cbn [andb].
  - destruct (calls !! (length calls - 1)%nat) as [call|] eqn:Ec; [destruct (same_call call record); [intros [= <-]; by exists call|]|];
      (destruct (2 <=? length calls)%nat eqn:E2; cbn [andb]; [|done]; destruct (calls !! (length calls - 2)%nat) as [call'|] eqn:Ec'; [|done]; destruct (same_call call' record); [|done];
       intros [= <-]; by exists call').
  - destruct (2 <=? length calls)%nat eqn:E2; [apply Nat.leb_le in E2; apply Nat.leb_gt in E1; lia|done].
Qed.

Lemma shrink_call_eq record s : exists record' s', shrink_call record s = (record', s') /\ repeat_count_ record' = repeat_count_ record /\ core s' = core s.
Proof. unfold shrink_call. destruct (http_ record) as [http|]; [destruct (fits _ _)|]; eexists _, _; done. Qed.

(** The end of a step that was given a call: its account is made up again. *)
Lemma call_settled s s' i step calls omitted : recorder_ok s -> steps_ s !! i = Some step ->
  steps_ s' = <[i := RecordedStep (code_ step) (step_subject_ step) (step_started_ step) (reported_started_at_ step) (reported_phase_ step) (offset_ms_ step) (step_duration_ms_ step)
    (step_outcome_ step) (step_open_ step) (step_error_ step) (related_ step) calls (logs_ step) (call_count_ step + 1) omitted]> (steps_ s) ->
  sum_of repeat_count_ calls + omitted = shown_calls step + step_omitted_calls_ step + 1 -> size calls <= max_step_calls -> (length (calls_ step) <= length calls)%nat ->
  open_ s' = open_ s -> (last_call_ s' = None \/ exists j, last_call_ s' = Some (i, j) /\ (j < length calls)%nat) -> pending_ s' = pending_ s ->
  stored_calls_ s' - stored_calls_ s = size calls - size (calls_ step) -> stored_calls_ s' <= max_calls -> call_total_ s' = call_total_ s + 1 ->
  omitted_calls_ s' - omitted_calls_ s = omitted - step_omitted_calls_ step ->
  log_total_ s' = log_total_ s -> omitted_logs_ s' = omitted_logs_ s -> log_records_ s' = log_records_ s -> log_bytes_ s' = log_bytes_ s -> recorder_ok s'.
Proof.
  intros Hok Hstep Es Hsum Hsize Hlen Eo Elast Ep Dst Bst Ect Domit El Eol Er Eb. pose proof (Forall_lookup_1 _ _ _ _ (ok_each s Hok) Hstep) as [Hb Hc].
  pose proof Hok as [_ _ _ _ _ _ _ _ [_ Hrec] Hlb]. eapply (step_replaced s s' i step); try exact Hok; try exact Hstep; try exact Es; cbn; try assumption.
  - split; [done|]. unfold shown_calls in *. cbn. lia.
  - by rewrite Eo.
  - by right.
  - by rewrite Ep.
  - unfold shown_calls in *. cbn. lia.
  - unfold shown_logs. cbn. lia.
  - lia.
  - by rewrite Er.
  - by rewrite Eb.
Qed.

Lemma change_step_eq i f s step : steps_ s !! i = Some step -> change_step i f s = Some (set_steps (<[i := f step]> (steps_ s)) s).
Proof. unfold change_step. by intros ->. Qed.
Lemma insert_twice {A} (l : list A) i x y : <[i := y]> (<[i := x]> l) = <[i := y]> l.
Proof. apply list_insert_insert_eq. Qed.

Lemma store_call_well record now s : repeat_count_ record = 1 -> recorder_ok s -> well (finished_ s) (store_call record now s).
Proof.
  intros Hone Hok. unfold store_call. set (record1 := timed_call _ record). assert (Hone1 : repeat_count_ record1 = 1) by exact Hone. clearbody record1. clear Hone record.
  rewrite current_step_calls. destruct (current_step_ok now s Hok) as (Hok' & Ef & _ & Ec & Hi). destruct (current_step now s) as [[i|] s']; cbn [fst snd] in *; rewrite <- Ec, <- Ef; clear Ec Ef Hok;
    [|exact (well_some _ (ok_call_omitted s' Hok'))].
  clear s. rename s' into s, Hok' into Hok. destruct (lookup_lt_is_Some_2 (steps_ s) i (Hi i eq_refl)) as [step Hstep]. clear Hi.
  pose proof (Forall_lookup_1 _ _ _ _ (ok_each s Hok) Hstep) as [Hb Hc]. pose proof Hok as [_ _ _ _ _ [_ Hst] _ _ _ _].
  assert (Hin : (i < length (steps_ s))%nat) by by eapply lookup_lt_Some.
  rewrite (change_step_eq i count_call (set_call_total (call_total_ s + 1) s) step Hstep). cbn [mbind option_bind steps_ set_steps set_call_total].
  rewrite list_lookup_insert_eq by done. cbn [mbind option_bind]. change (calls_ (count_call step)) with (calls_ step).
  destruct (repeated record1 (calls_ step)) as [j|] eqn:Erep.
  - destruct (repeated_bound _ _ _ Erep) as [call Hcall]. unfold change_step. cbn [steps_ set_steps]. rewrite list_lookup_insert_eq by done. cbn [mbind option_bind].
    eexists. split; [reflexivity|]. split; [|done]. eapply (call_settled s _ i step (alter (fun previous => repeated_call record1 previous) j (calls_ step)) (step_omitted_calls_ step)); try exact Hok; try exact Hstep; try done; cbn; try lia.
    + by rewrite insert_twice.
    + rewrite (alter_insert _ _ _ _ Hcall), (sum_of_insert _ _ _ _ _ Hcall). unfold shown_calls. cbn. lia.
    + unfold size in *. by rewrite length_alter.
    + by rewrite length_alter.
    + right. exists j. split; [done|]. rewrite length_alter. by eapply lookup_lt_Some.
    + unfold size. rewrite length_alter. lia.
  - assert (Homit : forall s', core s' = core (set_steps (<[i := count_call step]> (steps_ s)) (set_call_total (call_total_ s + 1) s)) -> well (finished_ s) (omit_call i s')).
    { intros s' Ecore. unfold core in Ecore. rewrite !pair_equal_spec in Ecore. destruct Ecore as [[[[[Es Eo] El] Ep] Ef] [[[[[[Est Ect] Elt] Elr] Elb] Eoc] Eol]]. cbn in *.
      unfold omit_call, change_step. rewrite Es, list_lookup_insert_eq by done. cbn [mbind option_bind]. eexists. split; [reflexivity|]. split; [|cbn; done].
      eapply (call_settled s _ i step (calls_ step) (step_omitted_calls_ step + 1)); try exact Hok; try exact Hstep; cbn; rewrite ?Est, ?Ect, ?Elt, ?Elr, ?Elb, ?Eoc, ?Eol, ?Ep, ?Eo; try done; try lia.
      - by rewrite insert_twice.
      - unfold shown_calls. lia.
      - by left. }
    destruct (_ || _) eqn:Eroom; [by apply Homit|]. apply orb_false_iff in Eroom as [Hr1%Z.leb_gt Hr2%Z.leb_gt].
    destruct (shrink_call_eq (sized_call (call_size record1) record1) (set_steps (<[i := count_call step]> (steps_ s)) (set_call_total (call_total_ s + 1) s))) as (record2 & s2 & -> & Hone2 & Ecore).
    destruct (fits _ _); [|by apply Homit]. cbn in Hone2. rewrite Hone1 in Hone2.
    unfold core in Ecore. rewrite !pair_equal_spec in Ecore. destruct Ecore as [[[[[Es Eo] El] Ep] Ef] [[[[[[Est Ect] Elt] Elr] Elb] Eoc] Eol]]. cbn in *.
    unfold change_step. cbn [steps_ set_stored_calls add_used set_used_bytes]. rewrite Es, list_lookup_insert_eq by done. cbn [mbind option_bind].
    eexists. split; [reflexivity|]. split; [|cbn; done].
    eapply (call_settled s _ i step (calls_ step ++ [record2]) (step_omitted_calls_ step)); try exact Hok; try exact Hstep; cbn; rewrite ?Est, ?Ect, ?Elt, ?Elr, ?Elb, ?Eoc, ?Eol, ?Ep, ?Eo; try done; try lia.
    + by rewrite insert_twice.
    + rewrite sum_of_app, sum_of_one. unfold shown_calls. lia.
    + rewrite size_concat. change (size [record2]) with 1. lia.
    + rewrite length_app. cbn. lia.
    + right. eexists. split; [done|]. rewrite length_app. cbn. lia.
    + rewrite size_concat. change (size [record2]) with 1. lia.
Qed.

Lemma ok_no_pending s : recorder_ok s -> recorder_ok (set_pending None s).
Proof. intros [H1 H2 H3 H4 H5 H6 H7 H8 H9 H10]. by split. Qed.

(** [well], and no call is in flight any more. *)
Lemma store_call_pending record now s s' : store_call record now s = Some s' -> pending_ s' = pending_ s.
Proof.
  assert (Hchange : forall i f s s', change_step i f s = Some s' -> pending_ s' = pending_ s) by (intros i f s0 s0'; unfold change_step; destruct (_ !! _); [by intros [= <-]|done]).
  assert (Homit : forall i s s', omit_call i s = Some s' -> pending_ s' = pending_ s).
  { intros i s0 s0'. unfold omit_call. destruct (change_step _ _ _) as [s1|] eqn:E; [|done]. intros [= <-]. cbn. by apply Hchange in E. }
  unfold store_call. set (record1 := timed_call _ record). rewrite current_step_calls.
  assert (Hcur : pending_ (snd (current_step now s)) = pending_ s) by (unfold current_step; by repeat case_match). destruct (current_step now s) as [[i|] s1]; cbn [fst snd] in *; [|intros [= <-]; done].
  destruct (change_step i count_call _) as [s2|] eqn:E2; [|done]. apply Hchange in E2. cbn [mbind option_bind]. cbn in E2. destruct (steps_ s2 !! i) as [step|]; [|done]. cbn [mbind option_bind].
  destruct (repeated _ _) as [j|].
  - destruct (change_step i _ s2) as [s3|] eqn:E3; [|done]. apply Hchange in E3. intros [= <-]. cbn. congruence.
  - destruct (_ || _); [intros Hs; apply Homit in Hs; congruence|].
    destruct (shrink_call_eq (sized_call (call_size record1) record1) s2) as (record2 & s4 & -> & _ & Ecore). unfold core in Ecore. rewrite !pair_equal_spec in Ecore. destruct Ecore as [[[[[_ _] _] Ep] _] _].
    destruct (fits _ _); [|intros Hs; apply Homit in Hs; congruence].
    destruct (change_step i _ _) as [s5|] eqn:E5; [|done]. apply Hchange in E5. cbn in E5. intros [= <-]. cbn. congruence.
Qed.

Lemma abandon_pending_well now s : recorder_ok s -> exists s', abandon_pending now s = Some s' /\ recorder_ok s' /\ finished_ s' = finished_ s /\ pending_ s' = None.
Proof.
  intros Hok. unfold abandon_pending. destruct (pending_ s) as [pending|] eqn:Ep; [|by exists s]. destruct (ok_pending s Hok pending Ep) as [Hhttp Hone].
  destruct (http_ (record_ pending)) as [http|]; [|done]. cbn [mbind option_bind]. destruct (record_text_eq (lit "cancelled") identifier_bytes (set_pending None s)) as (shown & r & ->).
  match goal with |- context [store_call ?record _ _] => destruct (store_call_well record now (set_redactor r (set_pending None s))) as (s' & E & Hok' & Ef); [exact Hone|by apply ok_redactor, ok_no_pending|] end.
  exists s'. split; [done|]. split; [done|]. split; [done|]. apply store_call_pending in E. by rewrite E.
Qed.

Lemma record_fields_eq fields : forall s, exists shown r, record_fields fields s = (shown, set_redactor r s).
Proof.
  induction fields as [|[name value] fields IH]; intros s; cbn [record_fields].
  - exists [], (redactor_ s). by destruct s.
  - destruct (record_text_eq name identifier_bytes s) as (name' & r1 & ->). destruct (record_text_eq value error_bytes (set_redactor r1 s)) as (value' & r2 & ->).
    destruct (IH (set_redactor r2 (set_redactor r1 s))) as (rest & r3 & ->). by eexists _, r3.
Qed.
Lemma node_message_well message at_time now s : recorder_ok s -> well (finished_ s) (record_node_message message at_time now s).
Proof.
  intros Hok. unfold record_node_message. destruct (quiet s); [by apply well_some|].
  destruct (record_text_eq (node_message_ message) identifier_bytes s) as (name & r1 & ->).
  destruct (record_text_eq (message_request_id_ message) identifier_bytes (set_redactor r1 s)) as (id & r2 & ->).
  destruct (record_fields_eq (message_fields_ message) (set_redactor r2 (set_redactor r1 s))) as (fields & r3 & ->).
  match goal with |- well _ (store_call ?record _ ?s') => exact (store_call_well record now s' eq_refl ltac:(by do 3 apply ok_redactor)) end.
Qed.

Lemma mark_invalid_well reason s : recorder_ok s -> well (finished_ s) (mark_invalid_response reason s).
Proof.
  intros Hok. unfold mark_invalid_response. destruct (quiet s); [by apply well_some|]. destruct (last_call_ s) as [[i j]|] eqn:Elast; [|by apply well_some].
  destruct (ok_last s Hok i j Elast) as (step & Hstep & Hj). rewrite Hstep. cbn [mbind option_bind]. destruct (lookup_lt_is_Some_2 (calls_ step) j Hj) as [call Hcall].
  rewrite Hcall. cbn [mbind option_bind]. destruct (_ == _); [|by apply well_some]. destruct (record_text_eq reason error_bytes s) as (shown & r & ->).
  rewrite (change_step_eq i _ (set_redactor r s) step Hstep). cbn [mbind option_bind]. generalize (lit "invalid_response") as invalid. intros invalid. eexists. split; [reflexivity|]. split; [|done].
  pose proof (Forall_lookup_1 _ _ _ _ (ok_each s Hok) Hstep) as [Hb Hc]. pose proof Hok as [_ _ _ _ _ [_ Hst] _ _ [_ Hrec] Hlb].
  assert (Esum : sum_of repeat_count_ (<[j := with_outcome invalid shown call]> (calls_ step)) = shown_calls step).
  { rewrite (sum_of_insert _ _ _ _ _ Hcall). unfold shown_calls. cbn. lia. }
  eapply (step_replaced s _ i step); try exact Hok; try exact Hstep; try reflexivity; cbn; try done; try (by left); unfold size; rewrite ?length_insert; try lia.
  - split; cbn; unfold size; rewrite ?length_insert; [done|]. unfold shown_calls at 1. cbn. lia.
  - unfold shown_calls at 1. cbn. lia.
  - unfold shown_logs. cbn. lia.
Qed.

Section Http.
Context `{SecretOrder} `{JsonLibrary} `{CertificateReader} `{TraceSerializer}.

Lemma capture_body_core policy request content_type content limit s : exists result s', capture_body policy request content_type content limit s = (result, s') /\ core s' = core s /\
  next_call_id_ s' = next_call_id_ s.
Proof.
  unfold capture_body. destruct (body _ _ _ _ _ _ _) as [result r]. destruct (empty _); [destruct (truncated_ result)|destruct (_ || _)]; by eexists _, _.
Qed.
Lemma record_headers_eq redact headers s : exists shown r, record_headers redact headers s = (shown, set_redactor r s).
Proof. unfold record_headers. destruct (redact_headers _ _ _) as [pairs r]. by eexists _, r. Qed.

Lemma finished_core s s' : core s' = core s -> finished_ s' = finished_ s.
Proof. unfold core. rewrite !pair_equal_spec. by intros [[[[[_ _] _] _] Ef] _]. Qed.

Lemma begin_http_well storage call request now s : recorder_ok s ->
  exists token s', begin_http storage call request now s = Some (token, s') /\ recorder_ok s' /\ finished_ s' = finished_ s.
Proof.
  intros Hok. unfold begin_http. destruct (quiet s); [by eexists _, _|]. destruct (abandon_pending_well now s Hok) as (s1 & -> & Hok1 & Ef1 & Ep1). cbn [mbind option_bind].
  rewrite <- Ef1. clear Ef1 Hok s. rename s1 into s, Hok1 into Hok. destruct (call_policy_ call) as [policy|]; [|by eexists _, _; split; [done|split; [by apply (ok_core s)|]]].
  destruct (throwing_bind _ _) as [origin|]; [|by eexists _, _; split; [done|split; [by apply ok_no_pending, (ok_core s)|]]].
  set (s1 := set_next_call_id _ s). destruct (record_text_eq (call_subject_ call) value_bytes s1) as (subject & r1 & ->).
  destruct (record_text_eq (request_method_ request) identifier_bytes (set_redactor r1 s1)) as (method & r2 & ->).
  match goal with |- context [record_text ?v ?l ?s] => destruct (record_text_eq v l s) as (host & r3 & ->) end.
  match goal with |- context [record_headers ?f ?h ?s] => destruct (record_headers_eq f h s) as (headers & r4 & ->) end.
  destruct (url _ _ _ _ _) as [address r5]. match goal with |- context [set_redactor r5 ?s] => set (s2 := set_redactor r5 s) end.
  assert (Ecore2 : core s2 = core s) by done. clearbody s2. clear s1.
  destruct (match content_ request with Some (_ :: _) => _ | _ => _ end) as [content s3] eqn:Econtent.
  assert (Ecore3 : core s3 = core s).
  { destruct (content_ request) as [[|c rest]|]; [by injection Econtent as _ <-| |by injection Econtent as _ <-].
    match type of Econtent with context [capture_body ?p ?q ?t ?b ?l ?s] => destruct (capture_body_core p q t b l s) as (captured & s4 & Ecap & Ecore4 & _); rewrite Ecap in Econtent end.
    injection Econtent as _ <-. congruence. }
  eexists _, _. split; [reflexivity|]. split; [|by rewrite <- (finished_core _ _ Ecore3)].
  pose proof (ok_core s s3 Ecore3 Hok) as [H1' H2' H3' H4' H5' H6' H7' H8' H9' H10']. split; try assumption. cbn. by intros pending [= <-].
Qed.

Lemma in_flight_pending token s pending : in_flight token s = Some pending -> pending_ s = Some pending.
Proof. unfold in_flight. destruct (pending_ s) as [p|]; [|done]. destruct (_ =? _); [|done]. by intros [= ->]. Qed.

Lemma complete_http_well token status headers content now s : recorder_ok s -> well (finished_ s) (complete_http token status headers content now s).
Proof.
  intros Hok. unfold complete_http. destruct (in_flight token s) as [pending|] eqn:Ein; [|by apply well_some]. apply in_flight_pending in Ein.
  destruct (ok_pending s Hok pending Ein) as [Hhttp Hone]. destruct (http_ (record_ pending)) as [http|]; [|done]. cbn [mbind option_bind].
  destruct (record_headers_eq (response_header (policy_ pending)) headers (set_pending None s)) as (shown & r1 & ->).
  destruct (if empty content then _ else _) as [captured s2] eqn:Ecap.
  assert (Ecore : core s2 = core (set_pending None s)).
  { destruct (empty content); [by injection Ecap as _ <-|].
    match type of Ecap with context [capture_body ?p ?q ?t ?b ?l ?s] => destruct (capture_body_core p q t b l s) as (result & s3 & Ec & Ecore3 & _); rewrite Ec in Ecap end.
    by injection Ecap as _ <-. }
  destruct (response _ _ _ _ _ _ _ _) as [facts r2]. destruct (if dns_query_ (policy_ pending) && _ then _ else _) as [dns r3].
  match goal with |- well _ (store_call ?record _ ?s') => pose proof (store_call_well record now s' Hone) as Hwell end.
  assert (Ef : finished_ (set_redactor r3 s2) = finished_ s) by exact (finished_core _ _ Ecore). rewrite <- Ef. apply Hwell, ok_redactor. by apply (ok_core _ _ Ecore), ok_no_pending.
Qed.

Lemma fail_http_well token code now s : recorder_ok s -> well (finished_ s) (fail_http token code now s).
Proof.
  intros Hok. unfold fail_http. destruct (in_flight token s) as [pending|] eqn:Ein; [|by apply well_some]. apply in_flight_pending in Ein.
  destruct (ok_pending s Hok pending Ein) as [Hhttp Hone]. destruct (http_ (record_ pending)) as [http|]; [|done]. cbn [mbind option_bind].
  destruct (record_text_eq (transport_error_name code) identifier_bytes (set_pending None s)) as (shown & r1 & ->).
  destruct (dns_query_ (policy_ pending)).
  - destruct (unanswered_query _ _ _) as [observed r2].
    match goal with |- well _ (store_call ?record _ ?s') => exact (store_call_well record now s' Hone ltac:(by apply ok_redactor, ok_redactor, ok_no_pending)) end.
  - match goal with |- well _ (store_call ?record _ ?s') => exact (store_call_well record now s' Hone ltac:(by apply ok_redactor, ok_no_pending)) end.
Qed.

(** * The end *)

Lemma insert_step_permutation step steps : insert_step step steps ≡ₚ step :: steps.
Proof. induction steps as [|other steps IH]; cbn; [done|]. destruct (_ <? _); [done|]. rewrite IH. constructor. Qed.
Lemma sort_steps_permutation steps : sort_steps steps ≡ₚ steps.
Proof.
  unfold sort_steps. induction steps as [|step steps IH] using rev_ind; [done|]. rewrite fold_left_app. cbn [fold_left]. rewrite insert_step_permutation, IH.
  by rewrite Permutation_app_comm.
Qed.
Lemma sum_of_permutation {A} (f : A -> Z) a b : a ≡ₚ b -> sum_of f a = sum_of f b.
Proof. unfold sum_of. induction 1; cbn; lia. Qed.

Lemma ok_sorted s : recorder_ok s -> recorder_ok (set_last_call None (set_steps (sort_steps (steps_ s)) (set_open [] s))).
Proof.
  intros [H1' H2' H3' H4' H5' H6' H7' H8' H9' H10']. pose proof (sort_steps_permutation (steps_ s)) as Hperm.
  split; cbn; rewrite ?(sum_of_permutation _ _ _ Hperm); try assumption.
  - by rewrite Hperm.
  - by rewrite Hperm.
  - intros i Hi. by apply elem_of_nil in Hi.
  - done.
Qed.

Lemma close_open_well opened now : forall s, recorder_ok s -> (forall i, Some i ∈ opened -> (i < length (steps_ s))%nat) ->
  exists s', close_open opened now s = Some s' /\ recorder_ok s' /\ finished_ s' = finished_ s /\ pending_ s' = pending_ s.
Proof.
  induction opened as [|[i|] opened IH]; intros s Hok Hopen; cbn [close_open]; [by exists s| |apply IH; [done|]; intros i Hi; apply Hopen; by right].
  destruct (change_step_well i (close_step OutcomeCompleted now) s Hok (Hopen i ltac:(by left)) (close_step_account OutcomeCompleted now)) as (s' & -> & Hok' & Ef & Elen & _ & _ & Ep & _).
  cbn [mbind option_bind]. destruct (IH s' Hok') as (s2 & E & Hok2 & Ef2 & Ep2); [intros k Hk; rewrite Elen; apply Hopen; by right|].
  exists s2. split; [done|]. split; [done|]. split; congruence.
Qed.

Lemma finish_well now s : recorder_ok s -> exists stored s', finish now s = Some (stored, s') /\ recorder_ok s' /\ finished_ s' = true /\ (finished_ s = false -> settled s').
Proof.
  intros Hok. unfold finish. destruct (finished_ s) eqn:Efin; [by eexists _, s|].
  destruct (abandon_pending_well now (set_finished s)) as (s1 & -> & Hok1 & Ef1 & Ep1); [destruct Hok; by split|]. cbn [mbind option_bind].
  destruct (close_open_well (rev (open_ s1)) now s1 Hok1) as (s2 & -> & Hok2 & Ef2 & Ep2).
  { intros i Hi%list_elem_of_In%in_rev%list_elem_of_In. by apply (ok_open s1 Hok1). }
  cbn [mbind option_bind]. pose proof (ok_sorted s2 Hok2) as Hok3. set (s3 := set_last_call _ _) in *.
  assert (Hset : settled s3) by (split_and!; [cbn; congruence|done|done]). assert (Ef3 : finished_ s3 = true) by (unfold s3; cbn; by rewrite Ef2, Ef1).
  eexists _, _. split; [reflexivity|]. destruct (to_stored_trace _); [done|]. split; [by apply (ok_core s3)|]. done.
Qed.

Definition recorder_inv (s : recorder) : Prop := recorder_ok s /\ (finished_ s = true -> settled s).

(** What was recorded of a finished attempt does not change. *)
Lemma finished_kept s e : finished_ s = true -> settled s -> exists r, handle s e = Some (set_redactor r s).
Proof.
  intros Ef (Ep & _ & _). assert (Eq : quiet s = true) by (unfold quiet; by rewrite Ef). assert (Esame : s = set_redactor (redactor_ s) s) by by destruct s.
  destruct e; cbn [handle].
  - exists (redactor_ s). unfold begin_step. rewrite Eq. by rewrite <- Esame.
  - exists (redactor_ s). unfold end_step. rewrite Ef. by rewrite <- Esame.
  - exists (redactor_ s). unfold log. rewrite Eq. by rewrite <- Esame.
  - by eexists.
  - unfold redact_error. destruct (external_text _ _ _) as [shown r]. by exists r.
  - exists (redactor_ s). unfold mark_failure. rewrite Eq. by rewrite <- Esame.
  - exists (redactor_ s). unfold link_task. rewrite Eq. by rewrite <- Esame.
  - exists (redactor_ s). unfold begin_http. rewrite Eq. cbn. by rewrite <- Esame.
  - exists (redactor_ s). unfold complete_http, in_flight. rewrite Ep. by rewrite <- Esame.
  - exists (redactor_ s). unfold fail_http, in_flight. rewrite Ep. by rewrite <- Esame.
  - exists (redactor_ s). unfold mark_invalid_response. rewrite Eq. by rewrite <- Esame.
  - exists (redactor_ s). unfold record_node_message. rewrite Eq. by rewrite <- Esame.
  - exists (redactor_ s). unfold record_reported_step. rewrite Eq. by rewrite <- Esame.
  - exists (redactor_ s). unfold record_reported_log. rewrite Eq. by rewrite <- Esame.
  - exists (redactor_ s). unfold finish. rewrite Ef. cbn. by rewrite <- Esame.
Qed.

Lemma handle_well s e : recorder_ok s -> (forall now, e <> Finish now) -> well (finished_ s) (handle s e).
Proof.
  intros Hok Hne. destruct e; cbn [handle]; try by apply well_core.
  - by apply begin_step_well.
  - by apply end_step_well.
  - by apply log_well.
  - unfold redact_error. destruct (external_text _ _ _) as [shown r]. by apply well_core.
  - by apply mark_failure_well.
  - by apply link_task_well.
  - destruct (begin_http_well storage call request now s Hok) as (token & s' & -> & Hok' & Ef). by exists s'.
  - by apply complete_http_well.
  - by apply fail_http_well.
  - by apply mark_invalid_well.
  - by apply node_message_well.
  - by apply reported_step_well.
  - by apply reported_log_well.
  - by destruct (Hne now).
Qed.
Lemma handle_inv s e : recorder_inv s -> exists s', handle s e = Some s' /\ recorder_inv s'.
Proof.
  intros [Hok Hset]. destruct (finished_ s) eqn:Ef.
  - destruct (finished_kept s e Ef (Hset eq_refl)) as [r ->]. eexists. split; [reflexivity|]. split; [by apply ok_redactor|]. intros _. by apply Hset.
  - assert ((exists now, e = Finish now) \/ forall now, e <> Finish now) as [[now ->]|Hne] by (destruct e; (by right) || (left; by eexists)).
    + destruct (finish_well now s Hok) as (stored & s' & E & Hok' & Ef' & Hset'). exists s'. cbn [handle]. rewrite E. split; [done|]. split; [done|]. intros _. by apply Hset'.
    + destruct (handle_well s e Hok Hne) as (s' & E & Hok' & Ef'). exists s'. split; [done|]. split; [done|]. congruence.
Qed.
Lemma handle_all_inv events : forall s, recorder_inv s -> exists s', handle_all s events = Some s' /\ recorder_inv s'.
Proof.
  induction events as [|e events IH]; intros s Hs; cbn [handle_all]; [by exists s|]. destruct (handle_inv s e Hs) as (s' & -> & Hs'). cbn [mbind option_bind]. by apply IH.
Qed.
Lemma new_recorder_inv kind worker_type started now wall : recorder_inv (new_recorder kind worker_type started now wall).
Proof. split; [|done]. split; cbn; try done; try lia. intros i Hi. by apply elem_of_nil in Hi. Qed.


(** A trace is stored once: after the attempt is finished nothing that is recorded changes, whatever
    is still called, and finishing again stores nothing. *)
Theorem finished_is_final kind worker_type started now wall events s more : handle_all (new_recorder kind worker_type started now wall) events = Some s -> finished_ s = true ->
  (exists r, handle_all s more = Some (set_redactor r s)) /\ forall later, finish later s = Some (None, s).
Proof.
  intros Hs Ef. destruct (handle_all_inv events _ (new_recorder_inv kind worker_type started now wall)) as (s' & E & _ & Hset). rewrite Hs in E. injection E as <-.
  split; [|intros later; unfold finish; by rewrite Ef]. specialize (Hset Ef). clear Hs. revert s Ef Hset. induction more as [|e more IH]; intros s Ef Hset.
  - exists (redactor_ s). cbn [handle_all]. by destruct s.
  - cbn [handle_all]. destruct (finished_kept s e Ef Hset) as [r ->]. cbn [mbind option_bind]. destruct (IH (set_redactor r s) Ef Hset) as [r' E]. exists r'. exact E.
Qed.
End Http.

(** An attempt whose third call repeats its second, and whose calls after it is finished are not recorded. *)
Definition sample_origins : outbound_origins :=
  let origin host := HttpClientConfig true host in
  OutboundOrigins (origin (lit "api.cloudflare.com")) (origin (lit "alidns.aliyuncs.com")) (origin (lit "acme-v02.api.letsencrypt.org")) (origin (lit "acme.zerossl.com"))
    (origin (lit "api.zerossl.com")) (origin (lit "dns.alidns.com")).
Definition sample_policy : outbound_policy := OutboundPolicy (lit "zone.read") [] [] BodyNone [] [] BodyNone [] (ReplyIdentity [] [] [] false) false.
Definition sample_call : event := BeginHttp (Some sample_origins) (OutboundCall (lit "cloudflare") (Some sample_policy) []) (ClientRequest (lit "GET") [] (lit "/zones") None) 2000000000.
Definition sample_events : list event :=
  [BeginStep StepFindZone (lit "example.com") 1000000000; sample_call; CompleteHttp 1 500 [] [] 2100000000; sample_call; CompleteHttp 2 200 [] [] 2200000000;
   sample_call; CompleteHttp 3 200 [] [] 2300000000; EndStep (Some 0%nat) OutcomeCompleted [] 2400000000; Finish 2500000000].

Lemma finished_is_final_witness :
  exists s, handle_all (H := merge_order) (H0 := sample_json) (H1 := no_certificates) (H2 := sample_serializer) (new_recorder TraceDnsSync (lit "dns") 1 1 1) sample_events = Some s /\
    finished_ s = true /\ call_total_ s = 3 /\ map (fun step => map repeat_count_ (calls_ step)) (steps_ s) = [[1; 2]] /\ finish (H := sample_serializer) 9 s = Some (None, s).
Proof.
  destruct (handle_all (H := merge_order) (H0 := sample_json) (H1 := no_certificates) (H2 := sample_serializer) (new_recorder TraceDnsSync (lit "dns") 1 1 1) sample_events) as [s|] eqn:E; [|by vm_compute in E].
  assert (Some (true, 3, [[1; 2]]) = (fun s => (finished_ s, call_total_ s, map (fun step => map repeat_count_ (calls_ step)) (steps_ s))) <$>
    handle_all (H := merge_order) (H0 := sample_json) (H1 := no_certificates) (H2 := sample_serializer) (new_recorder TraceDnsSync (lit "dns") 1 1 1) sample_events) as Es by (by vm_compute).
  rewrite E in Es. cbn [fmap option_fmap option_map] in Es. apply (inj Some) in Es. rewrite !pair_equal_spec in Es. destruct Es as [[Ef Ec] Em]. exists s. split; [done|]. split; [done|]. split; [done|]. split; [done|].
  destruct (finished_is_final (H := merge_order) (H0 := sample_json) (H1 := no_certificates) (H2 := sample_serializer) TraceDnsSync (lit "dns") 1 1 1 sample_events s [] E (eq_sym Ef)) as [_ Hagain]. apply Hagain.
Defined.
