(* ===== verification/ResponseCompression.v ===== *)
(** The choice of a response's content coding: src/node/data/response_compression.h.

    A double is the rational it denotes, or not a number; the library's conversion of text to a
    double is an interface, as are the tokens of the codings. The encoder is modelled where it is used. *)
From Stdlib Require Import QArith.
From S2P Require Import Prelude RoutePolicy CacheControl.
Open Scope Z_scope.

(** The fields of the website this code reads. *)
Record compression_website := CompressionWebsite {
  response_compression_enabled_ : bool; response_compression_algorithms_ : list bytes; response_compression_mime_types_ : list bytes;
  response_compression_extensions_ : list bytes; response_compression_excluded_extensions_ : list bytes;
  response_compression_min_bytes_ : Z; response_compression_max_bytes_ : Z }.

Definition matches_compression_mime (website : compression_website) (value : bytes) : bool :=
  let value := trim_ows (upto (find_char ";" value) value) in
  existsb (fun pattern =>
    if ends_with pattern (lit "/*") then ascii_starts_with value (take (length pattern - 1) pattern) else ascii_equal value pattern)
    (response_compression_mime_types_ website).

Definition request_extension (target : bytes) : bytes :=
  let target := upto (find_first_of (lit "?#") target) target in
  match rfind_char "." target with
  | None => []
  | Some dot =>
      match rfind_char "/" target with
      | Some slash => if (dot <? slash)%nat then [] else drop dot target
      | None => drop dot target
      end
  end.

Definition matches_compression_extension (configured : list bytes) (extension : bytes) : bool := existsb (ascii_equal extension) configured.

Inductive http_content_coding := identity | brotli | zstd | gzip.
#[export] Instance http_content_coding_eq_dec : EqDecision http_content_coding.
Proof. solve_decision. Defined.
Definition configured_coding (value : bytes) : option http_content_coding :=
  if value == lit "br" then Some brotli else if value == lit "zstd" then Some zstd else if value == lit "gzip" then Some gzip else None.

(** Doubles as far as they are read here. *)
Inductive quality := Number (value : Q) | NotANumber.
Definition below (a b : quality) : bool := match a, b with Number a, Number b => negb (Qle_bool b a) | _, _ => false end.

(** What the libraries give: the number at the start of a text with what follows it, and the tokens. *)
Class CodingLibrary := { double_from_chars : bytes -> option (quality * bytes); http_content_coding_token : http_content_coding -> bytes }.

Section Choice.
Context `{CodingLibrary}.

Definition parse_encoding_quality_item (item : bytes) : bytes * quality :=
  let item := trim_ows item in
  let token := trim_ows (upto (find_char ";" item) item) in
  match find_char ";" item with
  | None => (token, Number 1)
  | Some semicolon =>
      let parameters := drop (S semicolon) item in
      match find_char "=" parameters with
      | None => (token, Number 1)
      | Some equal =>
          match double_from_chars (trim_ows (drop (S equal) parameters)) with
          | Some (value, []) => (token, if below value (Number 0) || below (Number 1) value then Number 0 else value)
          | _ => (token, Number 0)
          end
      end
  end.

Fixpoint quality_loop (fuel : nat) (field wanted : bytes) (wildcard : quality) : quality :=
  match fuel with
  | O => wildcard
  | S fuel =>
      if empty field then wildcard
      else
        let comma := find_char "," field in
        let '(token, value) := parse_encoding_quality_item (upto comma field) in
        if ascii_equal token wanted then value
        else
          let wildcard := if token == lit "*" then value else wildcard in
          match comma with
          | None => wildcard
          | Some comma => quality_loop fuel (drop (S comma) field) wanted wildcard
          end
  end.
(** The initial wildcard is -1, which stands for none. *)
Definition encoding_quality (field wanted : bytes) : quality :=
  let value := quality_loop (S (length field)) field wanted (Number (-1)) in
  if below value (Number 0) then Number 0 else value.

Definition better (accept_encoding : bytes) (best : http_content_coding * quality) (configured : bytes) : http_content_coding * quality :=
  match configured_coding configured with
  | Some candidate =>
      let candidate_quality := encoding_quality accept_encoding (http_content_coding_token candidate) in
      if below (snd best) candidate_quality then (candidate, candidate_quality) else best
  | None => best
  end.
Definition preferred_response_coding (website : compression_website) (accept_encoding : bytes) : http_content_coding :=
  if response_compression_enabled_ website
  then fst (fold_left (better accept_encoding) (response_compression_algorithms_ website) (identity, Number 0))
  else identity.

(** Whether a member of a Cache-Control value forbids transformations. *)
Fixpoint no_transform_loop (fuel : nat) (control : bytes) : bool :=
  match fuel with
  | O => false
  | S fuel =>
      if empty control then false
      else
        let comma := find_char "," control in
        ascii_equal (trim_ows (upto comma control)) (lit "no-transform") ||
        match comma with Some comma => no_transform_loop fuel (drop (S comma) control) | None => false end
  end.
Definition no_transform (control : bytes) : bool := no_transform_loop (S (length control)) control.

(** The coding and whether the response varies with Accept-Encoding. *)
Definition select_response_compression (website : compression_website) (target accept_encoding : bytes) (status : Z) (length : option Z)
    (header : bytes -> bytes) : http_content_coding * bool :=
  let none := (identity, false) in
  let excluded_length := match length with
    | Some length => (length =? 0) || (length <? response_compression_min_bytes_ website) ||
        negb (response_compression_max_bytes_ website =? 0) && (response_compression_max_bytes_ website <? length)
    | None => false
    end in
  if negb (response_compression_enabled_ website) || (status =? 206) || is_event_stream_content_type (header (lit "Content-Type")) || excluded_length then none
  else
    let extension := request_extension target in
    if negb (empty extension) && matches_compression_extension (response_compression_excluded_extensions_ website) extension then none
    else if negb (matches_compression_mime website (header (lit "Content-Type"))) &&
            (empty extension || negb (matches_compression_extension (response_compression_extensions_ website) extension)) then none
    else
      let encoding := header (lit "Content-Encoding") in
      if negb (empty encoding) && negb (ascii_equal encoding (lit "identity")) || negb (empty (header (lit "Content-Range"))) then none
      else if no_transform (header (lit "Cache-Control")) then none
      else (preferred_response_coding website accept_encoding, true).

(** * The preferred coding *)

Lemma Qle_bool_not a b : negb (Qle_bool b a) = true <-> (a < b)%Q.
Proof.
  rewrite negb_true_iff, <- not_true_iff_false, Qle_bool_iff. split; [intros Hn; by apply Qnot_le_lt|intros Hl Hle; by apply (Qlt_not_le a b)].
Qed.
Lemma below_trans a b c : below a b = true -> below b c = true -> below a c = true.
Proof.
  destruct a as [a|], b as [b|], c as [c|]; cbn [below]; try done. rewrite !Qle_bool_not. intros Hab Hbc. by apply (Qlt_trans a b c).
Qed.
Lemma below_irreflexive a : below a a = false.
Proof.
  destruct a as [a|]; [|done]. cbn [below]. apply not_true_iff_false. rewrite Qle_bool_not. apply Qlt_irrefl.
Qed.

Definition coding_quality (accept_encoding : bytes) (coding : http_content_coding) : quality :=
  encoding_quality accept_encoding (http_content_coding_token coding).
(** The best of the codings so far with its quality: one of them, or the identity when none is asked for. *)
Definition best_of (accept_encoding : bytes) (algorithms : list bytes) (best : http_content_coding * quality) : Prop :=
  (best = (identity, Number 0) \/ (exists configured, In configured algorithms /\ configured_coding configured = Some (fst best)) /\
     snd best = coding_quality accept_encoding (fst best) /\ below (Number 0) (snd best) = true) /\
  forall configured candidate, In configured algorithms -> configured_coding configured = Some candidate ->
    below (snd best) (coding_quality accept_encoding candidate) = false.

Lemma better_best accept_encoding algorithms best configured : best_of accept_encoding algorithms best ->
  best_of accept_encoding (algorithms ++ [configured]) (better accept_encoding best configured).
Proof.
  intros [Hb Hall]. assert (Hpos : snd best = Number 0 \/ below (Number 0) (snd best) = true) by (destruct Hb as [->|(_ & _ & ?)]; [by left|by right]).
  assert (Hold : best = (identity, Number 0) \/ (exists c, In c (algorithms ++ [configured]) /\ configured_coding c = Some (fst best)) /\
     snd best = coding_quality accept_encoding (fst best) /\ below (Number 0) (snd best) = true).
  { destruct Hb as [?|((c & Hc & He) & ?)]; [by left|right]. split; [|done]. exists c. split; [apply in_or_app; by left|done]. }
  unfold better. destruct (configured_coding configured) as [coding|] eqn:E.
  - fold (coding_quality accept_encoding coding). destruct (below (snd best) (coding_quality accept_encoding coding)) eqn:Eb.
    + split; cbn [fst snd].
      * right. split; [exists configured; split; [apply in_or_app; right; by left|done]|]. split; [done|].
        destruct Hpos as [<-|Hpos]; [done|by apply (below_trans _ (snd best))].
      * intros c candidate [Hc|[<-|[]]]%in_app_or He; [|rewrite E in He; injection He as <-; apply below_irreflexive].
        apply not_true_iff_false. intros Hlt. specialize (Hall c candidate Hc He). by rewrite (below_trans _ _ _ Eb Hlt) in Hall.
    + split; [done|]. intros c candidate [Hc|[<-|[]]]%in_app_or He; [by apply (Hall c)|]. rewrite E in He. by injection He as <-.
  - split; [done|]. intros c candidate [Hc|[<-|[]]]%in_app_or He; [by apply (Hall c)|congruence].
Qed.
Lemma better_fold accept_encoding algorithms best rest : best_of accept_encoding algorithms best ->
  best_of accept_encoding (algorithms ++ rest) (fold_left (better accept_encoding) rest best).
Proof.
  revert algorithms best. induction rest as [|configured rest IH]; intros algorithms best Hb; [by rewrite app_nil_r|].
  cbn [fold_left]. replace (algorithms ++ configured :: rest) with ((algorithms ++ [configured]) ++ rest) by by rewrite <- app_assoc.
  apply IH. by apply better_best.
Qed.

(** The coding a response gets is one the website configures and the client accepts, and no other
    configured coding has a higher quality; the response stays as it is exactly when none is accepted. *)
Theorem preferred_coding_best website accept_encoding : response_compression_enabled_ website = true ->
  let coding := preferred_response_coding website accept_encoding in
  let offered candidate := exists configured, In configured (response_compression_algorithms_ website) /\ configured_coding configured = Some candidate in
  if decide (coding = identity) then forall candidate, offered candidate -> below (Number 0) (coding_quality accept_encoding candidate) = false
  else offered coding /\ below (Number 0) (coding_quality accept_encoding coding) = true /\
    forall candidate, offered candidate -> below (coding_quality accept_encoding coding) (coding_quality accept_encoding candidate) = false.
Proof.
  intros He. cbv zeta. unfold preferred_response_coding. rewrite He.
  assert (Hb : best_of accept_encoding ([] ++ response_compression_algorithms_ website)
    (fold_left (better accept_encoding) (response_compression_algorithms_ website) (identity, Number 0))).
  { apply better_fold. split; [by left|]. by intros configured candidate []. }
  cbn [app] in Hb. destruct (fold_left _ _ _) as [coding value]. destruct Hb as [Hb Hall]. cbn [fst snd] in *.
  destruct (decide (coding = identity)) as [->|Hne].
  - intros candidate (configured & Hc & Hd). destruct Hb as [[= ->]|((c & _ & Hc') & _)]; [by apply (Hall configured)|].
    exfalso. unfold configured_coding in Hc'. by repeat case_match.
  - destruct Hb as [[= -> _]|(Ho & -> & Hp)]; [done|]. split; [done|]. split; [done|]. intros candidate (configured & Hc & Hd). by apply (Hall configured).
Qed.
End Choice.

(** A library that reads the qualities with one decimal. *)
Definition sample_library : CodingLibrary := {|
  double_from_chars := fun text => match text with
    | "0"%char :: "."%char :: d :: rest => if is_digit d then Some (Number (Qmake (code d - 48) 10), rest) else None
    | "1"%char :: rest => Some (Number 1, rest)
    | "0"%char :: rest => Some (Number 0, rest)
    | _ => None
    end;
  http_content_coding_token := fun coding => match coding with identity => lit "identity" | brotli => lit "br" | zstd => lit "zstd" | gzip => lit "gzip" end |}.
Definition sample_website : compression_website :=
  CompressionWebsite true [lit "zstd"; lit "br"; lit "gzip"] [lit "text/*"; lit "application/json"] [lit ".js"] [lit ".png"] 16 0.
Lemma preferred_coding_best_witness :
  let accepted := lit "gzip;q=0.5, br;q=0.8, *;q=0.2" in
  preferred_response_coding (H := sample_library) sample_website accepted = brotli /\
  below (coding_quality (H := sample_library) accepted brotli) (coding_quality (H := sample_library) accepted zstd) = false.
Proof.
  cbv zeta. split; [by vm_compute|]. pose proof (preferred_coding_best (H := sample_library) sample_website (lit "gzip;q=0.5, br;q=0.8, *;q=0.2") eq_refl) as Hp.
  cbv zeta in Hp. change (preferred_response_coding (H := sample_library) sample_website (lit "gzip;q=0.5, br;q=0.8, *;q=0.2")) with brotli in Hp.
  destruct (decide (brotli = identity)) as [?|_]; [done|]. destruct Hp as (_ & _ & Hp). apply Hp. exists (lit "zstd"). split; [by left|done].
Defined.

Example compression_of_page :
  select_response_compression (H := sample_library) sample_website (lit "/index.html?v=1") (lit "br") 200 (Some 4096)
    (fun name => if name == lit "Content-Type" then lit "text/html; charset=utf-8" else []) = (brotli, true) /\
  select_response_compression (H := sample_library) sample_website (lit "/logo.png") (lit "br") 200 (Some 4096)
    (fun name => if name == lit "Content-Type" then lit "text/html" else []) = (identity, false).
Proof. split; by vm_compute. Qed.

(** A response that must not be changed is not: a forbidden transformation, a part or a coded body. *)
Theorem untouched_response `{CodingLibrary} website target accept_encoding status length header :
  no_transform (header (lit "Cache-Control")) = true \/ status = 206 \/ header (lit "Content-Range") <> [] \/
    (header (lit "Content-Encoding") <> [] /\ ascii_equal (header (lit "Content-Encoding")) (lit "identity") = false) ->
  select_response_compression website target accept_encoding status length header = (identity, false).
Proof.
  intros Hc. unfold select_response_compression. cbv zeta.
  match goal with |- (if ?c then _ else _) = _ => destruct c eqn:E1; [done|] end. destruct (_ && matches_compression_extension _ _); [done|].
  match goal with |- (if ?c then _ else _) = _ => destruct c; [done|] end. match goal with |- (if ?c then _ else _) = _ => destruct c eqn:E2; [done|] end.
  destruct (no_transform (header (lit "Cache-Control"))) eqn:E3; [done|]. exfalso.
  apply orb_false_iff in E1 as [[[_ Hs%Z.eqb_neq]%orb_false_iff _]%orb_false_iff _]. apply orb_false_iff in E2.
  destruct Hc as [Hn|[?|[Hr|[He Hi]]]]; [by rewrite Hn in E3|done| |].
  - destruct E2 as [_ E2]. by destruct (header (lit "Content-Range")).
  - destruct E2 as [E2 _]. rewrite Hi in E2. by destruct (header (lit "Content-Encoding")).
Qed.
