(* ===== verification/CacheMatch.v ===== *)
(** The cache rule of a request: matching of src/node/data/response_cache.h.

    A worker compiles a policy once per revision and keeps the result; a request's rule is the rules
    that match it, applied one over the other in their order. Outer [None] is an access out of bounds. *)
From S2P Require Import Prelude RoutePolicy RouteMatch RequestExpression MatchList ExpressionProgram CacheSettings CachePolicy CacheControl.
Open Scope Z_scope.

(** What a request is matched by. *)
Record match_request := MatchRequest { request_target_ : bytes; request_method_ : bytes; request_headers_ : cache_headers; request_secure_ : bool }.
Definition request_path (q : match_request) : bytes := upto (find_char "?" (request_target_ q)) (request_target_ q).

(** [rule{}] *)
Definition empty_rule : rule := default_rule [] [] [].
Definition combine (selected : option rule) (r : rule) : option rule := Some (apply_rule (default empty_rule selected) r).

Section Matching.
Context `{Re2Rules} `{Asio} `{SortRanges}.

Record compiled_policy := Compiled {
  compiled_policy_ : policy; compiled_patterns_ : list (list (option re2)); compiled_expressions_ : list (option (list compiled_instruction)) }.

Definition rule_patterns (r : rule) : list (option re2) := if match_type_ r == lit "regex" then map compile_pattern (patterns_ r) else [].
Definition rule_expression (r : rule) : option (throwing (option (list compiled_instruction))) :=
  if match_type_ r == lit "expression" then
    match patterns_ r with
    | [] => None
    | pattern :: _ => Some (throwing_bind (new_program pattern cache ∅) (fun program => Returns (Some program)))
    end
  else Some (Returns None).

(** The loop over the rules of a policy. *)
Fixpoint compile_rules (rules : list rule) (value : compiled_policy) : option (throwing compiled_policy) :=
  match rules with
  | [] => Some (Returns value)
  | r :: rules =>
      match rule_expression r with
      | None => None
      | Some (Throws message) => Some (Throws message)
      | Some (Returns expression) =>
          compile_rules rules (Compiled (compiled_policy_ value) (compiled_patterns_ value ++ [rule_patterns r]) (compiled_expressions_ value ++ [expression]))
      end
  end.
Definition compile_policy (value : policy) : option (throwing compiled_policy) := compile_rules (rules_ value) (Compiled value [] []).

Definition pattern_matches (type path pattern : bytes) (compiled : option (option re2)) : option bool :=
  if type == lit "exact" then Some (path == pattern)
  else if type == lit "prefix" then Some (starts_with path pattern)
  else if type == lit "extension" then Some ((size pattern <=? size path) && ascii_equal (drop (length path - length pattern) path) pattern)
  else if type == lit "wildcard" then Some (cache_wildcard path pattern)
  else if type == lit "regex" then
    match compiled with None => None | Some None => Some false | Some (Some p) => Some (re2_partial_match p path) end
  else Some false.
(** [for (p = 0; !matches && p < size; ++p)] *)
Fixpoint any_pattern (type path : bytes) (patterns : list bytes) (compiled : list (option re2)) : option bool :=
  match patterns with
  | [] => Some false
  | pattern :: patterns =>
      match pattern_matches type path pattern (head compiled) with
      | Some false => any_pattern type path patterns (tail compiled)
      | result => result
      end
  end.

Definition expression_matches (clock : Z) (program : list compiled_instruction) (q : match_request) : option bool :=
  matches program (mk_request (request_target_ q) (request_method_ q) (hostname (cache_header (request_headers_ q) (lit "Host"))) (request_secure_ q)
    (request_headers_ q) [] [] []) clock.
Definition rule_matches (clock : Z) (expression : option (list compiled_instruction)) (compiled : list (option re2)) (r : rule) (q : match_request) : option bool :=
  match (match expression with Some program => expression_matches clock program q | None => Some (match_type_ r == lit "all") end) with
  | Some false => any_pattern (match_type_ r) (request_path q) (patterns_ r) compiled
  | result => result
  end.

Definition rule_asked (r : rule) (q : match_request) : bool := rule_enabled_ r && listed (methods_ r) (request_method_ q).
(** The loop over the rules, which [i] indexes in the source. *)
Fixpoint select_rules (clock : Z) (q : match_request) (rules : list rule) (expressions : list (option (list compiled_instruction))) (patterns : list (list (option re2)))
    (selected : option rule) : option (option rule) :=
  match rules with
  | [] => Some selected
  | r :: rules =>
      if negb (rule_asked r q) then select_rules clock q rules (tail expressions) (tail patterns) selected
      else
        match head expressions, head patterns with
        | Some expression, Some compiled =>
            match rule_matches clock expression compiled r q with
            | None => None
            | Some matched => select_rules clock q rules (tail expressions) (tail patterns) (if matched then combine selected r else selected)
            end
        | _, _ => None
        end
  end.
Definition select_rule (clock : Z) (q : match_request) (found : compiled_policy) : option (option rule) :=
  select_rules clock q (rules_ (compiled_policy_ found)) (compiled_expressions_ found) (compiled_patterns_ found) None.

Abbreviation policy_cache := (gmap bytes compiled_policy).
Definition maximum_policies : nat := 512.
Definition cached_policy (policies : policy_cache) (proto : proto_policy) : option compiled_policy :=
  match policies !! pb_id proto with
  | Some found => if revision_ (compiled_policy_ found) =? pb_revision proto then Some found else None
  | None => None
  end.

(** The cache of compiled policies after the call, and what it returns or throws; [proto] is the website's policy. *)
Definition matching (policies : policy_cache) (clock : Z) (proto : option proto_policy) (q : match_request) : policy_cache * option (throwing (option rule)) :=
  match proto with
  | None => (policies, Some (Returns None))
  | Some proto =>
      if negb (pb_policy_enabled proto) then (policies, Some (Returns None))
      else match cached_policy policies proto with
      | Some found => (policies, Returns <$> select_rule clock q found)
      | None =>
          let policies := if (maximum_policies <? base.size policies)%nat then ∅ else policies in
          match compile_policy (from_proto proto) with
          | None => (policies, None)
          | Some (Throws message) => (policies, Some (Throws message))
          | Some (Returns value) => (<[pb_id proto := value]> policies, Returns <$> select_rule clock q value)
          end
      end
  end.
End Matching.

(** * What a request's rule is *)

Section Reference.
Context `{Re2Rules} `{Asio} `{SortRanges}.

Definition pattern_applies (type path pattern : bytes) : bool :=
  if type == lit "exact" then path == pattern
  else if type == lit "prefix" then starts_with path pattern
  else if type == lit "extension" then ends_with (map lower_ascii path) (map lower_ascii pattern)
  else if type == lit "wildcard" then cache_wildcard path pattern
  else (type == lit "regex") && match compile_pattern pattern with Some p => re2_partial_match p path | None => false end.
Definition condition_applies (clock : Z) (q : match_request) (r : rule) : bool :=
  if match_type_ r == lit "expression" then
    match new_program (hd [] (patterns_ r)) cache ∅ with Returns program => default false (expression_matches clock program q) | Throws _ => false end
  else (match_type_ r == lit "all") || existsb (pattern_applies (match_type_ r) (request_path q)) (patterns_ r).
Definition rule_applies (clock : Z) (q : match_request) (r : rule) : bool := rule_asked r q && condition_applies clock q r.

(** The rules that apply, over one another. *)
Definition effective_rule (clock : Z) (q : match_request) (rules : list rule) : option rule := fold_left combine (List.filter (rule_applies clock q) rules) None.
Definition fresh_matching (clock : Z) (proto : option proto_policy) (q : match_request) : option (throwing (option rule)) :=
  match proto with
  | None => Some (Returns None)
  | Some proto =>
      if negb (pb_policy_enabled proto) then Some (Returns None)
      else match compile_policy (from_proto proto) with
      | None => None
      | Some (Throws message) => Some (Throws message)
      | Some (Returns _) => Some (Returns (effective_rule clock q (rules_ (from_proto proto))))
      end
  end.

Lemma suffix_lower path pattern :
  (size pattern <=? size path) && ascii_equal (drop (length path - length pattern) path) pattern = ends_with (map lower_ascii path) (map lower_ascii pattern).
Proof.
  unfold ends_with. rewrite !length_map, skipn_map. f_equal; [by unfold size; apply Bool.eq_iff_eq_true; rewrite Z.leb_le, Nat.leb_le, <- Nat2Z.inj_le|].
  apply Bool.eq_iff_eq_true. by rewrite ascii_equal_spec, bool_decide_eq_true.
Qed.

Lemma any_pattern_exact type path patterns compiled : (type == lit "regex" = true -> compiled = map compile_pattern patterns) ->
  any_pattern type path patterns compiled = Some (existsb (pattern_applies type path) patterns).
Proof.
  revert compiled. induction patterns as [|pattern patterns IH]; intros compiled Hc; [done|]. cbn [any_pattern existsb].
  assert (pattern_matches type path pattern (head compiled) = Some (pattern_applies type path pattern)) as ->.
  { unfold pattern_matches, pattern_applies. rewrite suffix_lower. repeat (case_match; [done|]).
    destruct (type == lit "regex") eqn:E; [|done]. rewrite (Hc eq_refl). cbn [map head]. by case_match. }
  destruct (pattern_applies type path pattern); [done|]. cbn [orb]. apply IH. intros E. by rewrite (Hc E).
Qed.

Lemma rule_matches_exact clock q r expression : rule_expression r = Some (Returns expression) ->
  rule_matches clock expression (rule_patterns r) r q = Some (condition_applies clock q r).
Proof.
  intros He. unfold rule_matches, condition_applies. unfold rule_expression in He. destruct (match_type_ r == lit "expression") eqn:Ee.
  - destruct (patterns_ r) as [|pattern patterns] eqn:Ep; [done|]. cbn [hd]. destruct (new_program pattern cache ∅) as [program|] eqn:En; [|done].
    cbn [throwing_bind] in He. injection He as <-. unfold expression_matches at 1 2.
    match goal with |- context [matches program ?request clock] => destruct (program_runs pattern cache ∅ program request clock En) as (b & _ & ->) end.
    cbn [default]. destruct b; [done|]. rewrite any_pattern_exact; [|intros E; reflect_bool; by rewrite E in Ee].
    f_equal. rewrite <- Ep. clear Ep. reflect_bool. rewrite Ee. by induction (patterns_ r) as [|p ps IH].
  - injection He as <-. destruct (match_type_ r == lit "all") eqn:Ea; [done|]. cbn [orb]. apply any_pattern_exact. intros E. unfold rule_patterns. by rewrite E.
Qed.

Lemma select_rules_exact clock q rules : forall expressions selected, Forall2 (fun r e => rule_expression r = Some (Returns e)) rules expressions ->
  select_rules clock q rules expressions (map rule_patterns rules) selected = Some (fold_left combine (List.filter (rule_applies clock q) rules) selected).
Proof.
  induction rules as [|r rules IH]; intros expressions selected Hf; inversion Hf as [|? e ? es He Hes]; subst; [done|]. cbn [select_rules map head tail List.filter].
  unfold rule_applies at 1. destruct (rule_asked r q); cbn [negb andb]; [|by apply IH].
  rewrite (rule_matches_exact clock q r e He). destruct (condition_applies clock q r); cbn [fold_left]; by apply IH.
Qed.

Lemma compile_rules_exact rules : forall value compiled, compile_rules rules value = Some (Returns compiled) ->
  compiled_policy_ compiled = compiled_policy_ value /\ compiled_patterns_ compiled = compiled_patterns_ value ++ map rule_patterns rules /\
  exists expressions, compiled_expressions_ compiled = compiled_expressions_ value ++ expressions /\ Forall2 (fun r e => rule_expression r = Some (Returns e)) rules expressions.
Proof.
  induction rules as [|r rules IH]; intros value compiled; cbn [compile_rules].
  - intros [= <-]. rewrite app_nil_r. split; [done|]. split; [done|]. exists []. by rewrite app_nil_r.
  - destruct (rule_expression r) as [[e|]|] eqn:E; [|done|done]. intros (Hp & Hq & es & He & Hf)%IH. cbn in Hp, Hq, He. split; [done|].
    rewrite <- app_assoc in Hq, He. split; [done|]. exists (e :: es). split; [done|]. by constructor.
Qed.
Lemma select_rule_exact clock q value compiled : compile_policy value = Some (Returns compiled) ->
  compiled_policy_ compiled = value /\ select_rule clock q compiled = Some (effective_rule clock q (rules_ value)).
Proof.
  intros (Hp & Hq & es & He & Hf)%compile_rules_exact. cbn in Hp, Hq, He. split; [done|]. unfold select_rule. rewrite Hp, He, Hq. by apply select_rules_exact.
Qed.
End Reference.

(** * Histories of a worker *)

Section History.
Context `{Re2Rules} `{Asio} `{SortRanges}.

Definition matching_call : Type := Z * option proto_policy * match_request.
Fixpoint matching_history (policies : gmap bytes compiled_policy) (calls : list matching_call) : gmap bytes compiled_policy * list (option (throwing (option rule))) :=
  match calls with
  | [] => (policies, [])
  | (clock, proto, q) :: calls =>
      let '(policies, result) := matching policies clock proto q in
      let '(policies, results) := matching_history policies calls in
      (policies, result :: results)
  end.
Definition fresh_call (call : matching_call) : option (throwing (option rule)) := let '(clock, proto, q) := call in fresh_matching clock proto q.
(** The control plane numbers the contents of a policy: a revision of a policy is one content. *)
Definition numbered (protos : list proto_policy) : Prop := forall a b, a ∈ protos -> b ∈ protos -> pb_id a = pb_id b -> pb_revision a = pb_revision b -> a = b.
Definition call_policies (calls : list matching_call) : list proto_policy := omap (fun call => call.1.2) calls.
(** Each cached program is of a policy that was seen. *)
Record cache_ok (seen : list proto_policy) (policies : gmap bytes compiled_policy) : Prop := {
  cached_seen : forall id found, policies !! id = Some found -> exists proto, proto ∈ seen /\ pb_id proto = id /\ compile_policy (from_proto proto) = Some (Returns found);
  cached_few : (base.size policies <= S maximum_policies)%nat }.

Lemma matching_fresh seen policies clock proto q : numbered seen -> (forall p, proto = Some p -> p ∈ seen) -> cache_ok seen policies ->
  cache_ok seen (matching policies clock proto q).1 /\ (matching policies clock proto q).2 = fresh_matching clock proto q.
Proof.
  intros Hn Hs Hok. destruct proto as [proto|]; [|done]. specialize (Hs proto eq_refl). cbn [matching fresh_matching].
  destruct (pb_policy_enabled proto); [|done]. cbn [negb]. destruct (cached_policy policies proto) as [found|] eqn:Ec.
  - split; [done|]. unfold cached_policy in Ec. destruct (policies !! pb_id proto) as [found'|] eqn:El; [|done].
    destruct (Z.eqb_spec (revision_ (compiled_policy_ found')) (pb_revision proto)) as [Er|]; [|done]. injection Ec as ->.
    destruct (cached_seen _ _ Hok _ _ El) as (p & Hp & Hid & Hc). destruct (select_rule_exact clock q _ _ Hc) as [Hv Hsel].
    rewrite Hv in Er. assert (p = proto) as -> by (by apply Hn). rewrite Hc. cbn [snd]. by rewrite Hsel.
  - set (kept := if (maximum_policies <? base.size policies)%nat then ∅ else policies).
    assert (Hk : cache_ok seen kept /\ (base.size kept <= maximum_policies)%nat).
    { unfold kept. destruct (Nat.ltb_spec maximum_policies (base.size policies)); [|done]. split; [|by rewrite map_size_empty; apply Nat.le_0_l].
      split; [by intros id found ?%lookup_empty_Some|]. rewrite map_size_empty. apply Nat.le_0_l. }
    clearbody kept. destruct Hk as [Hk Hsize]. destruct (compile_policy (from_proto proto)) as [[found|]|] eqn:E; [|done|done]. cbn [fst snd].
    destruct (select_rule_exact clock q _ _ E) as [_ Hsel]. split; [|by rewrite Hsel]. split.
    + intros id found'. destruct (decide (id = pb_id proto)) as [->|Hne]; [rewrite lookup_insert_eq; intros [= <-]; eauto|].
      rewrite lookup_insert_ne by done. apply Hk.
    + rewrite map_size_insert. destruct (kept !! pb_id proto); cbn [id]; lia.
Qed.

Lemma matching_history_fresh seen calls : numbered seen -> forall policies, (forall p, p ∈ call_policies calls -> p ∈ seen) -> cache_ok seen policies ->
  cache_ok seen (matching_history policies calls).1 /\ (matching_history policies calls).2 = map fresh_call calls.
Proof.
  intros Hn. induction calls as [|[[clock proto] q] calls IH]; intros policies Hs Hok; [done|]. cbn [matching_history map fresh_call].
  destruct (matching_fresh seen policies clock proto q Hn) as [Hok' Hr]; [|done|].
  { intros p ->. apply Hs. by left. }
  destruct (matching policies clock proto q) as [policies' result]. cbn [fst snd] in *.
  destruct (IH policies') as [Hok2 Hr2]; [|done|]. { intros p Hp. apply Hs. destruct proto; cbn; [by right|done]. }
  destruct (matching_history policies' calls) as [policies2 results]. cbn [fst snd] in *. by subst.
Qed.

(** C25. Whatever a worker has served before, a request's cache rule is the one its policy's current
    revision gives: the matching rules applied over one another in their order. The compiled
    policies a worker keeps change nothing, never go out of bounds when compilation does not, and
    number at most 513. *)
Theorem matching_exact calls : numbered (call_policies calls) ->
  (matching_history ∅ calls).2 = map fresh_call calls /\ (base.size (matching_history ∅ calls).1 <= 513)%nat.
Proof.
  intros Hn. destruct (matching_history_fresh (call_policies calls) calls Hn ∅) as [Hok Hr]; [done| |].
  - split; [by intros id found ?%lookup_empty_Some|]. rewrite map_size_empty. lia.
  - split; [done|]. apply Hok.
Qed.
End History.

(** * Inheritance *)

Lemma apply_setting_id source settings target r name : rule_id_ (apply_setting source settings (target, r) name).1 = rule_id_ target /\
  rule_action_ (apply_setting source settings (target, r) name).1 = rule_action_ target.
Proof. destruct target, r. unfold apply_setting. repeat (case_match; [done|]). done. Qed.
Lemma apply_rule_id target source : rule_id_ (apply_rule target source) = rule_id_ source /\ rule_action_ (apply_rule target source) = rule_action_ source.
Proof.
  unfold apply_rule. destruct (settings_ source) as [settings|]; [|done].
  assert (Hfold : forall names acc, rule_id_ (fold_left (apply_setting source settings) names acc).1 = rule_id_ acc.1 /\
    rule_action_ (fold_left (apply_setting source settings) names acc).1 = rule_action_ acc.1).
  { induction names as [|name names IH]; intros [target' r]; [done|]. cbn [fold_left]. destruct (IH (apply_setting source settings (target', r) name)) as [-> ->]. apply apply_setting_id. }
  specialize (Hfold (enabled_ settings) (take_common target source, default default_settings (settings_ target))). cbv zeta.
  cbn [settings_ take_common]. unfold default, from_option, id in Hfold. destruct (fold_left _ _ _) as [t r]. by destruct Hfold as [? ?].
Qed.

(** The last of the rules that sets a setting. *)
Definition last_setting (rules : list rule) (name : bytes) : option rule := last (List.filter (fun r => configured r name) rules).

Lemma combined_settings name rules : forall selected result, Forall (fun r => is_Some (settings_ r)) rules -> fold_left combine rules selected = Some result ->
  setting_of result name = match last_setting rules name with Some r => setting_of r name | None => setting_of (default empty_rule selected) name end.
Proof.
  induction rules as [|r rules IH]; intros selected result Hs; cbn [fold_left]; [by intros ->|]. inversion Hs as [|? ? [settings Hr] Hrest]; subst.
  intros Hf. rewrite (IH _ _ Hrest Hf). cbn [combine default]. destruct (apply_rule_inherits (default empty_rule selected) r settings name Hr) as [Hi _].
  unfold last_setting. cbn [List.filter]. destruct (configured r name); [|destruct (last _); [done|exact Hi]].
  rewrite last_cons. destruct (last _); [done|exact Hi].
Qed.
Lemma combined_id rules : forall selected result r, fold_left combine rules selected = Some result -> last rules = Some r ->
  rule_id_ result = rule_id_ r /\ rule_action_ result = rule_action_ r.
Proof.
  induction rules as [|r0 rules IH] using rev_ind; intros selected result r; [done|]. rewrite fold_left_app, last_snoc. cbn [fold_left combine]. intros [= <-] [= ->]. apply apply_rule_id.
Qed.

(** The rule a request gets is the sum of the rules that apply to it: each setting has the value of
    the last of them that sets it and its default when none does; the action (and the identity)
    are those of the last rule that applies. *)
Theorem last_rule_wins `{Re2Rules} `{Asio} `{SortRanges} clock q rules result name :
  let applying := List.filter (rule_applies clock q) rules in
  Forall (fun r => is_Some (settings_ r)) rules -> effective_rule clock q rules = Some result ->
  setting_of result name = match last_setting applying name with Some r => setting_of r name | None => setting_of empty_rule name end /\
  exists r, last applying = Some r /\ rule_id_ result = rule_id_ r /\ rule_action_ result = rule_action_ r.
Proof.
  intros applying Hs He. unfold effective_rule in He. fold applying in He.
  assert (Forall (fun r => is_Some (settings_ r)) applying) as Ha.
  { apply Forall_forall. intros r Hr. unfold applying in Hr. apply list_elem_of_In, filter_In in Hr as [Hr _]. apply (proj1 (Forall_forall _ _) Hs). by apply list_elem_of_In. }
  split; [by apply (combined_settings name applying None result)|].
  destruct (last applying) as [r|] eqn:El; [|by apply last_None in El as El2; rewrite El2 in He].
  exists r. split; [done|]. by apply (combined_id applying None result r).
Qed.

(** * Witnesses *)

Definition sample_settings (enabled : list string) (key : cache_key) (device : bool) : rule_settings :=
  mk_rule_settings (map lit enabled) [] key false device false true false true (lit "bypass") [] (lit "default") [] 30 false.
Definition sample_rule (id type : bytes) (patterns : list bytes) (settings : rule_settings) : rule :=
  mk_rule id id true type patterns (lit "cache") (lit "origin") 0 false [lit "GET"; lit "HEAD"] [] 0 0 true 0 true false false (lit "default") (Some settings).
Definition agent_expression (negated : bool) : bytes := (if negated then lit "not " else []) ++ lit "(http.user_agent contains " ++ quoted "bot" ++ lit ")".
(** The key of a bot holds its region, the key of anyone else the device. *)
Definition region_key : cache_key := mk_cache_key (lit "all") [] [lit "X-Region"] [] [] [] [] true (lit "original") false false.
Definition bot_rule : rule := sample_rule (lit "bots") (lit "expression") [agent_expression false] (sample_settings ["key"] region_key false).
Definition people_rule : rule := sample_rule (lit "people") (lit "expression") [agent_expression true] (sample_settings ["device"] default_cache_key true).
Definition all_rule : rule := sample_rule (lit "all") (lit "all") [] (sample_settings ["timeout"] default_cache_key false).
Definition sample_policy (revision : Z) (rules : list rule) : policy := mk_policy (lit "p") revision true (lit "memory") 5 6 7 8 9 10 11 (lit "cache") rules.
Definition sample_rules : list rule := [bot_rule; people_rule; all_rule].
Definition agent_request (agent : string) (more : cache_headers) : match_request :=
  MatchRequest (lit "/a.png?x=1") (lit "GET") ([(lit "Host", lit "example.com"); (lit "User-Agent", lit agent)] ++ more) true.
Definition sample_calls : list matching_call :=
  [(0, Some (to_proto (sample_policy 1 sample_rules)), agent_request "robot" []); (1, Some (to_proto (sample_policy 1 sample_rules)), agent_request "Mobile" []);
   (2, Some (to_proto (sample_policy 2 [all_rule])), agent_request "Mobile" []); (3, None, agent_request "Mobile" [])].

Abbreviation with_text f := (f text_engine text_rules dotted_quads merge_sort_ranges).
Lemma matching_exact_witness :
  (with_text (@matching_history) ∅ sample_calls).2 = map (with_text (@fresh_call)) sample_calls /\
  map (fun result => match result with Some (Returns (Some r)) => configured r (lit "device") | _ => false end) (with_text (@matching_history) ∅ sample_calls).2 = [false; true; false; false].
Proof.
  split; [|by vm_compute]. apply (with_text (@matching_exact) sample_calls). intros a b Ha Hb _ Hr.
  assert (Hcases : forall c, c ∈ call_policies sample_calls -> c = to_proto (sample_policy 1 sample_rules) \/ c = to_proto (sample_policy 2 [all_rule])).
  { intros c. cbn [call_policies omap list_omap sample_calls fst snd]. rewrite !elem_of_cons. intros [->|[->|[->|Hc]]]; [by left|by left|by right|by apply elem_of_nil in Hc]. }
  apply Hcases in Ha, Hb. destruct Ha as [->| ->], Hb as [->| ->]; done.
Defined.

Definition people_effective : option rule := with_text (@effective_rule) 0 (agent_request "Mobile" []) sample_rules.
Lemma last_rule_wins_witness :
  match people_effective with
  | Some result => setting_of result (lit "device") = Some (VFlag true) /\ setting_of result (lit "timeout") = Some (VNumber 30) /\ rule_id_ result = lit "all"
  | None => False
  end.
Proof.
  destruct people_effective as [result|] eqn:E; [|by vm_compute in E].
  pose proof (fun name => with_text (@last_rule_wins) 0 (agent_request "Mobile" []) sample_rules result name ltac:(repeat constructor; by eexists) E) as Hw. split; [|split].
  - rewrite (proj1 (Hw (lit "device"))). by vm_compute.
  - rewrite (proj1 (Hw (lit "timeout"))). by vm_compute.
  - destruct (proj2 (Hw [])) as (r & Hl & -> & _). vm_compute in Hl. injection Hl as <-. done.
Defined.
