(* ===== verification/CacheLookup.v ===== *)
(** The key of a request: the head of lookup in src/node/data/response_cache.h.

    A key is a sequence of length-prefixed parts: who serves, what is asked, and what the rule says
    distinguishes responses. *)
From S2P Require Import Prelude RoutePolicy RouteMatch CacheSettings CachePolicy CacheKey CacheControl ResponseCompression ResponseCache CacheMatch.
Open Scope Z_scope.

(** The website as [lookup] reads it, with its policy. *)
Record cached_website := CachedWebsite { website_identity_ : bytes; website_revision_ : Z; cache_identity_ : bytes; cache_revision_ : Z; website_compression_ : compression_website }.
(** The arguments of [lookup] that the key depends on. *)
Record key_request := KeyRequest { key_url_ : bytes; key_headers_ : cache_headers; origin_hostname_ : bytes; key_country_ : bytes; representation_ : bytes }.

Definition header_names : list bytes :=
  map lit ["Origin"; "x-http-method-override"; "x-http-method"; "x-method-override"; "x-forwarded-host"; "x-host"; "x-forwarded-scheme"; "x-original-url"; "x-rewrite-url"; "forwarded"]%string.

Section Key.
Context `{CodingLibrary}.

Definition request_encoding (w : cached_website) (headers : cache_headers) : bytes :=
  if empty (cache_header headers (lit "Range"))
  then http_content_coding_token (preferred_response_coding (website_compression_ w) (cache_header headers (lit "Accept-Encoding")))
  else lit "identity".
Definition resolved_host (r : rule) (origin origin_hostname : bytes) : bytes :=
  match key_settings r with
  | Some custom =>
      if (CacheSettings.host_ custom == lit "resolved") && negb (empty origin_hostname)
      then take (match find_sub (lit "://") origin with Some scheme => scheme + 3 | None => 2 end) origin ++ origin_hostname
      else origin
  | None => origin
  end.
Definition key_header (r : rule) (headers : cache_headers) (name : bytes) : bytes :=
  let value := cache_header headers name in
  if (name == lit "Origin") && match key_settings r with Some custom => negb (include_origin_ custom) | None => false end then []
  else if (name == lit "x-forwarded-scheme") && (ascii_equal value (lit "http") || ascii_equal value (lit "https")) then []
  else value.
(** The 18 parts of every key. *)
Definition base_parts (w : cached_website) (r : rule) (q : key_request) (origin target : bytes) : list bytes :=
  [website_identity_ w; dec (website_revision_ w); cache_identity_ w; dec (cache_revision_ w); rule_id_ r; resolved_host r origin (origin_hostname_ q);
   cache_query_target target r; request_encoding w (key_headers_ q)] ++ map (key_header r (key_headers_ q)) header_names.

Definition strong_etag_key (r : rule) : bool := configured r (lit "etag") && match settings_ r with Some s => strong_etags_ s | None => false end.
Definition accept_encoding_part (r : rule) (headers : cache_headers) : bytes :=
  let raw := cache_header headers (lit "Accept-Encoding") in
  if configured r (lit "vary") && (cache_vary_action r (lit "accept-encoding") == lit "normalize") then normalize_cache_vary raw (lit "accept-encoding") [] else raw.
Definition language_part (headers : cache_headers) : bytes :=
  let language := cache_header headers (lit "Accept-Language") in
  map lower_ascii (upto (find_first_of (lit ",;-") language) language).
Definition matched_values (headers : cache_headers) (field : header_key) : list bytes :=
  List.filter (fun value => present (find_sub value (cache_header headers (header_name_ field)))) (header_values field).
Definition flag (b : bool) : bytes := if b then lit "1" else lit "0".
Definition append_parts (key : bytes) (parts : list bytes) : bytes := fold_left append_cache_key_part parts key.

(** The parts that a configured key adds, in their order. *)
Definition append_custom (custom : cache_key) (q : key_request) (key : bytes) : bytes :=
  let headers := key_headers_ q in
  let key := if country_ custom then append_cache_key_part key (key_country_ q) else key in
  let key := append_parts key (map (cache_header headers) (CacheSettings.headers_ custom)) in
  let key := append_parts key (map (fun name => flag (cache_has_header headers name)) (header_presence_ custom)) in
  let key := append_parts key (map (fun field => append_parts [] (matched_values headers field)) (header_values_ custom)) in
  let key := append_parts key (map (cache_cookie_value headers) (cookies_ custom)) in
  let key := append_parts key (map (fun name => flag (negb (empty (cache_cookie_value headers name)))) (cookie_presence_ custom)) in
  if language_ custom then append_cache_key_part key (language_part headers) else key.
Definition device_key (r : rule) : bool := configured r (lit "device") && match settings_ r with Some s => device_ s | None => false end.

Definition request_key (w : cached_website) (r : rule) (q : key_request) : throwing bytes :=
  throwing_bind (cache_resource_address (key_url_ q)) (fun '(origin, target) =>
    let key := append_parts [] (base_parts w r q origin target) in
    let key := if empty (representation_ q) then key else append_cache_key_part key (representation_ q) in
    let key := if strong_etag_key r then append_cache_key_part key (accept_encoding_part r (key_headers_ q)) else key in
    let key := match key_settings r with Some custom => append_custom custom q key | None => key end in
    Returns (if device_key r then append_cache_key_part key (cache_device_type (cache_header (key_headers_ q) (lit "User-Agent"))) else key)).

(** [lookup] as a whole, after the trim of a policy under pressure; [now] is the clock. *)
Definition request_lookup (s : response_cache_snapshot) (now : Z) (w : cached_website) (r : rule) (q : key_request) (acquire existing_only : bool) :
    throwing (response_cache_snapshot * cache_lookup * bytes) :=
  throwing_bind (request_key w r q) (fun key =>
    let '(s, result) := lookup s now key r (key_headers_ q) (request_encoding w (key_headers_ q)) (website_identity_ w) (cache_identity_ w) (key_url_ q) acquire existing_only in
    Returns (s, result, key)).
End Key.

(** * What a key tells apart *)

Section Separation.
Context `{CodingLibrary}.

Definition optional (b : bool) (part : bytes) : list bytes := if b then [part] else [].
Definition custom_parts (custom : cache_key) (q : key_request) : list bytes :=
  let headers := key_headers_ q in
  optional (country_ custom) (key_country_ q) ++ map (cache_header headers) (CacheSettings.headers_ custom) ++
  map (fun name => flag (cache_has_header headers name)) (header_presence_ custom) ++
  map (fun field => append_parts [] (matched_values headers field)) (header_values_ custom) ++ map (cache_cookie_value headers) (cookies_ custom) ++
  map (fun name => flag (negb (empty (cache_cookie_value headers name)))) (cookie_presence_ custom) ++ optional (language_ custom) (language_part headers).
Definition rule_parts (r : rule) (q : key_request) : list bytes :=
  optional (strong_etag_key r) (accept_encoding_part r (key_headers_ q)) ++
  match key_settings r with Some custom => custom_parts custom q | None => [] end ++
  optional (device_key r) (cache_device_type (cache_header (key_headers_ q) (lit "User-Agent"))).
Definition representation_parts (q : key_request) : list bytes := optional (negb (empty (representation_ q))) (representation_ q).

Lemma append_parts_app key a b : append_parts (append_parts key a) b = append_parts key (a ++ b).
Proof. unfold append_parts. by rewrite fold_left_app. Qed.
Lemma append_optional (b : bool) key part : (if b then append_cache_key_part key part else key) = append_parts key (optional b part).
Proof. by destruct b. Qed.

Lemma append_custom_parts custom q key : append_custom custom q key = append_parts key (custom_parts custom q).
Proof. unfold append_custom, custom_parts. cbv zeta. by rewrite !append_optional, !append_parts_app, <- ?app_assoc. Qed.
Lemma request_key_parts w r q : request_key w r q = throwing_bind (cache_resource_address (key_url_ q)) (fun '(origin, target) =>
  Returns (encode_parts (base_parts w r q origin target ++ representation_parts q ++ rule_parts r q))).
Proof.
  unfold request_key. destruct (cache_resource_address (key_url_ q)) as [[origin target]|]; [|done]. cbn [throwing_bind]. f_equal.
  assert (forall key, (if empty (representation_ q) then key else append_cache_key_part key (representation_ q)) = append_parts key (representation_parts q)) as ->
    by (intros key; unfold representation_parts; by destruct (empty _)).
  unfold rule_parts. rewrite !append_optional. unfold encode_parts.
  destruct (key_settings r); rewrite ?append_custom_parts, !append_parts_app, <- ?app_assoc; [done|]. by rewrite app_nil_l.
Qed.

(** ** Equal lists of parts *)

Lemma app_eq_iff {A} (a a' b b' : list A) : length a = length a' -> (a ++ b = a' ++ b' <-> a = a' /\ b = b').
Proof. intros Hl. split; [intros E; by apply app_inj_1|by intros [-> ->]]. Qed.
Lemma optional_eq b x y : optional b x = optional b y <-> (b = true -> x = y).
Proof. destruct b; cbn; split; [by intros [= ->]|by intros ->|done|done]. Qed.
Lemma map_eq_iff {A B} (f g : A -> B) (l : list A) : map f l = map g l <-> forall x, In x l -> f x = g x.
Proof. apply map_ext_in_iff. Qed.
Lemma flag_inj a b : flag a = flag b <-> a = b.
Proof. by destruct a, b. Qed.
Lemma filter_eq_iff {A} (f g : A -> bool) (l : list A) : List.filter f l = List.filter g l <-> forall x, In x l -> f x = g x.
Proof.
  split; [|apply List.filter_ext_in]. intros E x Hx. apply Bool.eq_iff_eq_true.
  pose proof (filter_In f x l) as Hf. pose proof (filter_In g x l) as Hg. rewrite E in Hf. tauto.
Qed.

(** What the settings of a rule tell apart. *)
Record custom_agrees (custom : cache_key) (q q' : key_request) : Prop := {
  agree_country : country_ custom = true -> key_country_ q = key_country_ q';
  agree_headers : forall name, In name (CacheSettings.headers_ custom) -> cache_header (key_headers_ q) name = cache_header (key_headers_ q') name;
  agree_presence : forall name, In name (header_presence_ custom) -> cache_has_header (key_headers_ q) name = cache_has_header (key_headers_ q') name;
  agree_values : forall field value, In field (header_values_ custom) -> In value (header_values field) ->
    present (find_sub value (cache_header (key_headers_ q) (header_name_ field))) = present (find_sub value (cache_header (key_headers_ q') (header_name_ field)));
  agree_cookies : forall name, In name (cookies_ custom) -> cache_cookie_value (key_headers_ q) name = cache_cookie_value (key_headers_ q') name;
  agree_cookie_presence : forall name, In name (cookie_presence_ custom) -> empty (cache_cookie_value (key_headers_ q) name) = empty (cache_cookie_value (key_headers_ q') name);
  agree_language : language_ custom = true -> language_part (key_headers_ q) = language_part (key_headers_ q') }.

Lemma matched_values_eq headers headers' field : append_parts [] (matched_values headers field) = append_parts [] (matched_values headers' field) <->
  forall value, In value (header_values field) -> present (find_sub value (cache_header headers (header_name_ field))) = present (find_sub value (cache_header headers' (header_name_ field))).
Proof. unfold append_parts. fold (encode_parts (matched_values headers field)). fold (encode_parts (matched_values headers' field)). rewrite cache_key_injective. apply filter_eq_iff. Qed.

Lemma custom_parts_eq custom q q' : custom_parts custom q = custom_parts custom q' <-> custom_agrees custom q q'.
Proof.
  unfold custom_parts. rewrite !app_eq_iff by (rewrite ?length_map; try done; by destruct (country_ custom)).
  rewrite !optional_eq, !map_eq_iff. setoid_rewrite flag_inj. setoid_rewrite matched_values_eq. split.
  - intros (H1' & H2' & H3' & H4' & H5' & H6' & H7'). split; try done; [by intros; apply H4'|]. intros name Hn. specialize (H6' name Hn).
    by destruct (empty (cache_cookie_value (key_headers_ q) name)), (empty (cache_cookie_value (key_headers_ q') name)).
  - intros [H1' H2' H3' H4' H5' H6' H7']. split_and!; try done; [intros field Hf value Hv; by apply H4'|]. intros name Hn. by rewrite (H6' name Hn).
Qed.
Lemma custom_parts_length custom q q' : length (custom_parts custom q) = length (custom_parts custom q').
Proof. unfold custom_parts, optional. rewrite !length_app, !length_map. by destruct (country_ custom), (language_ custom). Qed.

Lemma rule_parts_length r q q' : length (rule_parts r q) = length (rule_parts r q').
Proof. unfold rule_parts, optional. rewrite !length_app. destruct (key_settings r) as [custom|]; [rewrite (custom_parts_length custom q q')|]; by destruct (strong_etag_key r), (device_key r). Qed.

(** Two requests under one rule ask for the same object. *)
Record same_object (r : rule) (w w' : cached_website) (q q' : key_request) : Prop := {
  same_website : website_identity_ w = website_identity_ w' /\ website_revision_ w = website_revision_ w';
  same_policy : cache_identity_ w = cache_identity_ w' /\ cache_revision_ w = cache_revision_ w';
  same_address : exists origin target origin' target', cache_resource_address (key_url_ q) = Returns (origin, target) /\ cache_resource_address (key_url_ q') = Returns (origin', target') /\
    resolved_host r origin (origin_hostname_ q) = resolved_host r origin' (origin_hostname_ q') /\ cache_query_target target r = cache_query_target target' r;
  same_encoding : request_encoding w (key_headers_ q) = request_encoding w' (key_headers_ q');
  same_headers : forall name, In name header_names -> key_header r (key_headers_ q) name = key_header r (key_headers_ q') name;
  same_representation : representation_ q = representation_ q';
  same_accept_encoding : strong_etag_key r = true -> accept_encoding_part r (key_headers_ q) = accept_encoding_part r (key_headers_ q');
  same_custom : forall custom, key_settings r = Some custom -> custom_agrees custom q q';
  same_device : device_key r = true ->
    cache_device_type (cache_header (key_headers_ q) (lit "User-Agent")) = cache_device_type (cache_header (key_headers_ q') (lit "User-Agent")) }.

Lemma rule_parts_eq r q q' : rule_parts r q = rule_parts r q' <->
  (strong_etag_key r = true -> accept_encoding_part r (key_headers_ q) = accept_encoding_part r (key_headers_ q')) /\
  (forall custom, key_settings r = Some custom -> custom_agrees custom q q') /\
  (device_key r = true -> cache_device_type (cache_header (key_headers_ q) (lit "User-Agent")) = cache_device_type (cache_header (key_headers_ q') (lit "User-Agent"))).
Proof.
  unfold rule_parts. rewrite app_eq_iff by (by destruct (strong_etag_key r)). rewrite app_eq_iff by (destruct (key_settings r); [apply custom_parts_length|done]).
  rewrite !optional_eq. destruct (key_settings r) as [custom|]; [rewrite custom_parts_eq|].
  - split; [intros (He & Hc & Hd); split_and!; [done|by intros c [= <-]|done]|intros (He & Hc & Hd); split_and!; [done|by apply Hc|done]].
  - naive_solver.
Qed.
Lemma representation_eq q q' (rest rest' : list bytes) : length rest = length rest' ->
  representation_parts q ++ rest = representation_parts q' ++ rest' <-> representation_ q = representation_ q' /\ rest = rest'.
Proof.
  intros Hl. unfold representation_parts. destruct (representation_ q) as [|c s], (representation_ q') as [|c' s']; cbn [empty negb optional app].
  - tauto.
  - split; [intros E|intros [? _]; done]. apply (f_equal length) in E. cbn [length] in E. rewrite Hl in E. lia.
  - split; [intros E|intros [? _]; done]. apply (f_equal length) in E. cbn [length] in E. rewrite Hl in E. lia.
  - split; [by intros [= -> -> ->]|by intros [[= -> ->] ->]].
Qed.

Lemma Returns_inj {A} (a b : A) : Returns a = Returns b -> a = b.
Proof. by intros [= ->]. Qed.
Lemma base_parts_eq r w w' q q' o t o' t' : 0 <= website_revision_ w -> 0 <= website_revision_ w' -> 0 <= cache_revision_ w -> 0 <= cache_revision_ w' ->
  base_parts w r q o t = base_parts w' r q' o' t' <->
  ((website_identity_ w = website_identity_ w' /\ website_revision_ w = website_revision_ w') /\ (cache_identity_ w = cache_identity_ w' /\ cache_revision_ w = cache_revision_ w') /\
   resolved_host r o (origin_hostname_ q) = resolved_host r o' (origin_hostname_ q') /\ cache_query_target t r = cache_query_target t' r /\
   request_encoding w (key_headers_ q) = request_encoding w' (key_headers_ q')) /\
  forall name, In name header_names -> key_header r (key_headers_ q) name = key_header r (key_headers_ q') name.
Proof.
  intros Hw Hw' Hc Hc'. unfold base_parts. rewrite app_eq_iff by done. rewrite map_eq_iff. apply and_iff_compat_r. split.
  - intros [= H1' H2' H3' H4' H5' H6' H7']. apply dec_inj in H2', H4'; done.
  - by intros ([-> ->] & [-> ->] & -> & -> & ->).
Qed.

End Separation.

(** * Witnesses *)

Definition sample_cached : cached_website := CachedWebsite (lit "w") 4 (lit "p") 1 sample_website.
Definition sample_key_request (headers : cache_headers) : key_request := KeyRequest (lit "https://example.com/a.png?x=1") headers [] (lit "XX") [].
Definition key_of (r : rule) (headers : cache_headers) : throwing bytes := request_key (H := sample_library) sample_cached r (sample_key_request headers).

(** The key names the last rule that applies only: a bot that sends the region [mobile] has the key of
    a person on a phone, although the one is told apart by its region and the other by its device. *)
Example key_names_last_rule :
  let bot := agent_request "bot" [(lit "X-Region", lit "mobile")] in
  let person := agent_request "Mobile" [] in
  exists bots people key, with_text (@effective_rule) 0 bot sample_rules = Some bots /\ with_text (@effective_rule) 0 person sample_rules = Some people /\
    configured bots (lit "key") = true /\ configured people (lit "key") = false /\
    key_of bots (request_headers_ bot) = Returns key /\ key_of people (request_headers_ person) = Returns key.
Proof. eexists _, _, _. split; [vm_compute; reflexivity|]. split; [vm_compute; reflexivity|]. split; [done|]. split; [done|]. split; vm_compute; reflexivity. Qed.
