(* ===== verification/OriginRequest.v ===== *)
(** Requests to an origin: src/node/data/origin_request_codec.h.

    The fixed arrays of the source are lists with their bound; the bound is the library's
    [max_http_header_fields] and the writer of the wire bytes is an interface. *)
From S2P Require Import Prelude RoutePolicy RouteMatch RouteProgram RouteRules CacheSettings CachePolicy CacheKey.
Open Scope Z_scope.

(** The fields of the website this code reads. *)
Record origin_website := OriginWebsite { origin_host_header_ : bytes; pass_client_ip_ : bool }.

Record origin_request_view := OriginRequestView { in_method_ : bytes; in_target_ : bytes; in_headers_ : headers_view; in_body_ : bytes; has_body_ : bool }.

Definition request_hop_by_hop_names : list bytes :=
  [lit "Host"; lit "Connection"; lit "Content-Length"; lit "Transfer-Encoding"; lit "Expect"; lit "Keep-Alive"; lit "Proxy-Connection";
   lit "TE"; lit "Trailer"; lit "Upgrade"].
Definition request_hop_by_hop_header (name : bytes) : bool := existsb (ascii_equal name) request_hop_by_hop_names.

Record origin_cache_validation := OriginCacheValidation { validation_etag_ : bytes; validation_modified_ : bytes; validation_enabled_ : bool }.

(** What the function takes beside the request. *)
Record origin_request_options := OriginRequestOptions {
  website_ : origin_website; incoming_host_ : bytes; client_address_ : bytes; secure_ : bool; upgrade_requested_ : bool;
  close_after_response_ : bool; force_identity_encoding_ : bool; route_ : option evaluated_route_policy;
  validation_ : origin_cache_validation; cache_rule_ : option rule; remove_range_ : bool; origin_range_ : bytes }.

Definition authority (options : origin_request_options) : bytes :=
  let configured := origin_host_header_ (website_ options) in
  if empty configured || (configured == lit "$host") then hostname (incoming_host_ options) else configured.

Section Headers.
Context (max_fields : nat) (incoming : headers_view) (options : origin_request_options).

Definition mutations : list header_mutation :=
  match route_ options with Some route => pol_request_headers route | None => [] end.
Definition mutated (name : bytes) : bool := existsb (fun mutation => ascii_equal name (mutation_name mutation)) mutations.

(** The Connection fields; none when they do not fit the array. *)
Definition connection_values : list bytes := map snd (List.filter (fun '(name, _) => ascii_equal name (lit "Connection")) incoming).
Fixpoint option_loop (fuel : nat) (name value : bytes) : bool :=
  match fuel with
  | O => false
  | S fuel =>
      if empty value then false
      else
        let comma := find_char "," value in
        ascii_equal name (trim_ows (upto comma value)) ||
        option_loop fuel name (match comma with Some comma => drop (S comma) value | None => [] end)
  end.
Definition connection_field (name : bytes) : bool :=
  let scan value := option_loop (S (length value)) name value in
  match connection_values with
  | [connection] =>
      let single := trim_ows connection in
      if present (find_char "," single) then scan connection else ascii_equal name single
  | connections => existsb scan connections
  end.

(** The Accept headers the cache normalizes. *)
Definition normalized_names : list bytes := [lit "accept"; lit "accept-language"; lit "accept-encoding"].
Definition is_encoding (name : bytes) : bool := name == lit "accept-encoding".
Definition strong_etags (r : rule) : bool := match settings_ r with Some s => has_setting s (lit "etag") && strong_etags_ s | None => false end.
Definition normalize (name : bytes) : bool :=
  match cache_rule_ options with
  | None => false
  | Some r => configured r (lit "vary") && (cache_vary_action r name == lit "normalize") && (negb (is_encoding name) || strong_etags r)
  end.
Definition append_raw (raw text : bytes) : bytes := (if empty raw then [] else raw ++ lit ",") ++ text.
Definition raw_value (name : bytes) : bytes :=
  fold_left append_raw (if mutated name then map mutation_value (List.filter (fun mutation => ascii_equal name (mutation_name mutation)) mutations)
                  else map snd (List.filter (fun '(n, _) => ascii_equal name n) incoming)) [].
Definition normalized_value (name : bytes) : bytes :=
  match cache_rule_ options with
  | Some r =>
      if normalize name && negb (is_encoding name && force_identity_encoding_ options) then
        normalize_cache_vary (raw_value name) name (match cache_vary_header r name with Some field => vary_values_ field | None => [] end)
      else []
  | None => []
  end.

(** Whether [append] puts a field in. *)
Definition suppressed (name : bytes) : bool :=
  existsb (fun normal => normalize normal && ascii_equal name normal && negb (is_encoding normal && force_identity_encoding_ options)) normalized_names.
Definition appends (emitting_normalized : bool) (name : bytes) (replacement : bool) : bool :=
  negb (remove_range_ options && (ascii_equal name (lit "Range") || ascii_equal name (lit "If-Range"))) &&
  (emitting_normalized || negb (suppressed name)) && (replacement || negb (mutated name)).
Definition push (headers : headers_view) (field : bytes * bytes) : option headers_view :=
  if (length headers =? max_fields)%nat then None else Some (headers ++ [field]).
Definition append (emitting_normalized : bool) (headers : headers_view) (name value : bytes) (replacement : bool) : option headers_view :=
  if appends emitting_normalized name replacement then push headers (name, value) else Some headers.
Definition append_when (condition : bool) (emitting_normalized : bool) (headers : headers_view) (name value : bytes) (replacement : bool) : option headers_view :=
  if condition then append emitting_normalized headers name value replacement else Some headers.

Definition is_validator (name : bytes) : bool :=
  validation_enabled_ (validation_ options) && (ascii_equal name (lit "If-None-Match") || ascii_equal name (lit "If-Modified-Since")).
Definition forwards (name : bytes) : bool :=
  ((upgrade_requested_ options && ascii_equal name (lit "Upgrade")) || (negb (request_hop_by_hop_header name) && negb (connection_field name))) &&
  negb (force_identity_encoding_ options && ascii_equal name (lit "Accept-Encoding")) && negb (is_validator name) &&
  negb (pass_client_ip_ (website_ options) && ascii_equal name (lit "X-Forwarded-For")).

Fixpoint append_incoming (headers : headers_view) (fields : headers_view) : option headers_view :=
  match fields with
  | [] => Some headers
  | (name, value) :: fields =>
      match append_when (forwards name) false headers name value false with
      | Some headers => append_incoming headers fields
      | None => None
      end
  end.
Fixpoint append_mutations (headers : headers_view) (fields : list header_mutation) : option headers_view :=
  match fields with
  | [] => Some headers
  | mutation :: fields =>
      match append_when (negb (is_validator (mutation_name mutation))) false headers (mutation_name mutation) (mutation_value mutation) true with
      | Some headers => append_mutations headers fields
      | None => None
      end
  end.
Fixpoint append_normalized (headers : headers_view) (names : list bytes) : option headers_view :=
  match names with
  | [] => Some headers
  | name :: names =>
      match append_when (normalize name && negb (empty (normalized_value name))) true headers name (normalized_value name) true with
      | Some headers => append_normalized headers names
      | None => None
      end
  end.

(** The fields for the writer, in the source's order; [None] when they do not fit. *)
Definition origin_headers : option headers_view :=
  let validation := validation_ options in
  if (max_fields <? length connection_values)%nat then None
  else
    headers ← append_incoming [] incoming;
    headers ← append_when (upgrade_requested_ options) false headers (lit "Connection") (lit "Upgrade") false;
    headers ← append_when (force_identity_encoding_ options) false headers (lit "Accept-Encoding") (lit "identity") false;
    headers ← append_when (pass_client_ip_ (website_ options)) false headers (lit "X-Forwarded-For") (client_address_ options) false;
    headers ← append_when (pass_client_ip_ (website_ options)) false headers (lit "X-Forwarded-Proto") (if secure_ options then lit "https" else lit "http") false;
    headers ← append_mutations headers mutations;
    headers ← (if empty (origin_range_ options) then Some headers else push headers (lit "Range", origin_range_ options));
    headers ← append_normalized headers normalized_names;
    if validation_enabled_ validation then
      if empty (validation_etag_ validation) then
        append_when (negb (empty (validation_modified_ validation))) true headers (lit "If-Modified-Since") (validation_modified_ validation) true
      else append true headers (lit "If-None-Match") (validation_etag_ validation) true
    else Some headers.

(** The fields without the bound: those of the client that pass, then the proxy's own. *)
Definition own (condition emitting_normalized : bool) (name value : bytes) (replacement : bool) : headers_view :=
  if condition && appends emitting_normalized name replacement then [(name, value)] else [].
Definition client_fields : headers_view := List.filter (fun '(name, _) => forwards name && appends false name false) incoming.
Definition mutation_fields : headers_view :=
  concat (map (fun mutation => own (negb (is_validator (mutation_name mutation))) false (mutation_name mutation) (mutation_value mutation) true) mutations).
Definition own_fields : headers_view :=
  own (upgrade_requested_ options) false (lit "Connection") (lit "Upgrade") false ++
  own (force_identity_encoding_ options) false (lit "Accept-Encoding") (lit "identity") false ++
  own (pass_client_ip_ (website_ options)) false (lit "X-Forwarded-For") (client_address_ options) false ++
  own (pass_client_ip_ (website_ options)) false (lit "X-Forwarded-Proto") (if secure_ options then lit "https" else lit "http") false ++
  mutation_fields ++
  (if empty (origin_range_ options) then [] else [(lit "Range", origin_range_ options)]) ++
  concat (map (fun name => own (normalize name && negb (empty (normalized_value name))) true name (normalized_value name) true) normalized_names) ++
  (let validation := validation_ options in
   if empty (validation_etag_ validation)
   then own (validation_enabled_ validation && negb (empty (validation_modified_ validation))) true (lit "If-Modified-Since") (validation_modified_ validation) true
   else own (validation_enabled_ validation) true (lit "If-None-Match") (validation_etag_ validation) true).

(** A list of fields under the bound. *)
Definition fits (headers : headers_view) : option headers_view := if (length headers <=? max_fields)%nat then Some headers else None.

Lemma fits_Some headers : (length headers <= max_fields)%nat -> fits headers = Some headers.
Proof. intros Hl. unfold fits. by apply Nat.leb_le in Hl as ->. Qed.
Lemma fits_bind a b (k : headers_view -> option headers_view) :
  (forall headers, (length headers <= max_fields)%nat -> k headers = fits (headers ++ b)) -> (fits a ≫= k) = fits (a ++ b).
Proof.
  intros Hk. unfold fits at 1. destruct (Nat.leb_spec (length a) max_fields) as [Hl|Hl]; [by apply Hk|].
  unfold fits. destruct (Nat.leb_spec (length (a ++ b)) max_fields); [|done]. rewrite length_app in *. lia.
Qed.
Lemma push_fits headers field : (length headers <= max_fields)%nat -> push headers field = fits (headers ++ [field]).
Proof.
  intros Hl. unfold push, fits. rewrite length_app. cbn [length].
  destruct (Nat.eqb_spec (length headers) max_fields), (Nat.leb_spec (length headers + 1) max_fields); try done; lia.
Qed.
Lemma append_when_fits condition emitting headers name value replacement : (length headers <= max_fields)%nat ->
  append_when condition emitting headers name value replacement = fits (headers ++ own condition emitting name value replacement).
Proof.
  intros Hl. unfold append_when, append, own. destruct condition; cbn [andb]; [|by rewrite app_nil_r, fits_Some].
  destruct (appends emitting name replacement); [by apply push_fits|by rewrite app_nil_r, fits_Some].
Qed.

Lemma append_incoming_fits fields headers : (length headers <= max_fields)%nat ->
  append_incoming headers fields = fits (headers ++ List.filter (fun '(name, _) => forwards name && appends false name false) fields).
Proof.
  revert headers. induction fields as [|[name value] fields IH]; intros headers Hl; cbn [append_incoming List.filter]; [by rewrite app_nil_r, fits_Some|].
  rewrite append_when_fits by done. unfold own. destruct (forwards name && appends false name false).
  - change (_ :: List.filter _ fields) with ([(name, value)] ++ List.filter (fun '(name, _) => forwards name && appends false name false) fields).
    rewrite app_assoc. exact (fits_bind _ _ (fun headers => append_incoming headers fields) IH).
  - rewrite app_nil_r, fits_Some by done. by apply IH.
Qed.
Lemma append_mutations_fits fields headers : (length headers <= max_fields)%nat ->
  append_mutations headers fields = fits (headers ++ concat (map (fun mutation => own (negb (is_validator (mutation_name mutation))) false (mutation_name mutation) (mutation_value mutation) true) fields)).
Proof.
  revert headers. induction fields as [|mutation fields IH]; intros headers Hl; cbn [append_mutations map concat]; [by rewrite app_nil_r, fits_Some|].
  rewrite append_when_fits by done. rewrite app_assoc. exact (fits_bind _ _ (fun headers => append_mutations headers fields) IH).
Qed.
Lemma append_normalized_fits names headers : (length headers <= max_fields)%nat ->
  append_normalized headers names = fits (headers ++ concat (map (fun name => own (normalize name && negb (empty (normalized_value name))) true name (normalized_value name) true) names)).
Proof.
  revert headers. induction names as [|name names IH]; intros headers Hl; cbn [append_normalized map concat]; [by rewrite app_nil_r, fits_Some|].
  rewrite append_when_fits by done. rewrite app_assoc. exact (fits_bind _ _ (fun headers => append_normalized headers names) IH).
Qed.

Lemma origin_headers_fits : (length connection_values <= max_fields)%nat -> origin_headers = fits (client_fields ++ own_fields).
Proof.
  intros Hc. unfold origin_headers. cbv zeta. destruct (Nat.ltb_spec max_fields (length connection_values)); [lia|].
  rewrite append_incoming_fits by (cbn; lia). cbn [app]. fold client_fields. unfold own_fields.
  apply fits_bind. intros h0 H0. do 4 (rewrite append_when_fits, app_assoc by done; apply fits_bind; clear h0 H0; intros h0 H0).
  rewrite append_mutations_fits, app_assoc by done. fold mutation_fields. apply fits_bind. clear h0 H0. intros h0 H0.
  assert (Hr : (if empty (origin_range_ options) then Some h0 else push h0 (lit "Range", origin_range_ options)) =
    fits (h0 ++ if empty (origin_range_ options) then [] else [(lit "Range", origin_range_ options)])).
  { destruct (empty _); [by rewrite app_nil_r, fits_Some|by apply push_fits]. }
  rewrite Hr, app_assoc. apply fits_bind. clear h0 H0 Hr. intros h0 H0.
  rewrite append_normalized_fits, app_assoc by done. apply fits_bind. clear h0 H0. intros h0 H0. cbv zeta.
  destruct (empty (validation_etag_ _)), (validation_enabled_ _); cbn [andb]; try (by rewrite append_when_fits by done);
    try (by unfold own; cbn [andb]; rewrite app_nil_r, fits_Some).
  exact (append_when_fits true true h0 _ _ _ H0).
Qed.

End Headers.

(** * The wire bytes *)

(** What the library's writer makes of a request: its head and content, the size of the buffer it
    needs, or nothing. *)
Inductive prepared_request := Prepared (head content : bytes) | BufferTooSmall (required : Z) | NotPrepared.
Record wire_request := WireRequest {
  wire_host_ : bytes; wire_method_ : bytes; wire_target_ : bytes; wire_headers_ : headers_view; wire_content_ : option bytes; wire_close_ : bool }.
Class RequestWriter := { max_http_header_fields : nat; prepare_wire : wire_request -> Z -> prepared_request }.

Definition head_buffer : Z := 16384.
Definition finish_request (prepared : prepared_request) : option bytes := match prepared with Prepared head content => Some (head ++ content) | _ => None end.

(** The bytes and the target of the request. *)
Definition prepare_origin_request `{RequestWriter} (incoming : origin_request_view) (options : origin_request_options) : option (bytes * bytes) :=
  match origin_headers max_http_header_fields (in_headers_ incoming) options with
  | None => None
  | Some headers =>
      let target := match route_ options with Some route => rewritten_target route | None => in_target_ incoming end in
      if empty target then None
      else
        let request := WireRequest (authority options) (in_method_ incoming) target headers
          (if has_body_ incoming then Some (in_body_ incoming) else None) (close_after_response_ options) in
        let prepared := prepare_wire request head_buffer in
        let prepared := match prepared with BufferTooSmall required => prepare_wire request required | _ => prepared end in
        (fun bytes => (bytes, target)) <$> finish_request prepared
  end.

(** * What an origin gets *)

Lemma ascii_equal_empty name : name <> [] -> ascii_equal name [] = false.
Proof. by destruct name. Qed.

Section Fields.
Context (max_fields : nat) (incoming : headers_view) (options : origin_request_options).

Lemma option_loop_spec fuel name value : name <> [] -> (length value < fuel)%nat ->
  option_loop fuel name value = existsb (fun part => ascii_equal name (trim_ows part)) (split_on "," value).
Proof.
  intros Hname. revert value. induction fuel as [|fuel IH]; intros value Hf; [lia|]. cbn [option_loop].
  destruct value as [|c value]; cbn [empty]; [cbn; by rewrite ascii_equal_empty|]. rewrite split_on_step.
  destruct (find_char "," (c :: value)) as [n|] eqn:E; cbn [upto existsb].
  - f_equal. apply IH. rewrite length_drop. cbn [length] in *. lia.
  - f_equal. destruct fuel; [cbn in Hf; lia|done].
Qed.

(** A field is nominated by a part of a Connection value. *)
Lemma connection_field_spec name : name <> [] -> connection_field incoming name = true <->
  exists value, value ∈ connection_values incoming /\ existsb (fun part => ascii_equal name (trim_ows part)) (split_on "," value) = true.
Proof.
  intros Hname. unfold connection_field. set (P := fun value => existsb (fun part => ascii_equal name (trim_ows part)) (split_on "," value)).
  assert (Hscan : forall value, option_loop (S (length value)) name value = P value) by (intros value; apply option_loop_spec; [done|lia]).
  assert (Hall : forall values, existsb (fun value => option_loop (S (length value)) name value) values = true <-> exists value, value ∈ values /\ P value = true).
  { intros values. rewrite existsb_exists. setoid_rewrite list_elem_of_In. by setoid_rewrite Hscan. }
  assert (Hone : forall value, (exists v, v ∈ [value] /\ P v = true) <-> P value = true).
  { intros value. split; [by intros (v & ->%list_elem_of_singleton & ?)|]. intros ?. exists value. split; [by apply list_elem_of_singleton|done]. }
  destruct (connection_values incoming) as [|value [|value' values]]; [apply Hall| |apply Hall].
  etransitivity; [|symmetry; apply Hone]. destruct (find_char "," (trim_ows value)) as [n|] eqn:E; cbn [present]; [by rewrite Hscan|].
  assert (Hcomma : ","%char ∉ value).
  { destruct (trim_ows_spec value) as (w1 & w2 & Hv & [Hw1 Hw2]%Forall_app & _). rewrite Hv, !not_elem_of_app. apply find_char_None in E.
    rewrite Forall_forall in Hw1, Hw2. split_and!; [by intros Hx%Hw1|done|by intros Hx%Hw2]. }
  unfold P. rewrite split_on_none by done. cbn [existsb]. by rewrite orb_false_r.
Qed.

(** The fields the proxy itself may put in. *)
Definition proxy_names : list bytes :=
  [lit "Connection"; lit "Accept-Encoding"; lit "X-Forwarded-For"; lit "X-Forwarded-Proto"; lit "Range"; lit "accept"; lit "accept-language";
   lit "accept-encoding"; lit "If-Modified-Since"; lit "If-None-Match"].

Lemma own_in condition emitting name value replacement field : field ∈ own options condition emitting name value replacement -> field = (name, value).
Proof. unfold own. destruct (_ && _); [|by intros ?%elem_of_nil]. by intros ->%list_elem_of_singleton. Qed.

Lemma own_fields_in name value : (name, value) ∈ own_fields incoming options ->
  name ∈ proxy_names \/ exists mutation, mutation ∈ mutations options /\ (name, value) = (mutation_name mutation, mutation_value mutation).
Proof.
  unfold own_fields. cbv zeta. rewrite !elem_of_app.
  assert (Hown : forall condition emitting n v replacement, n ∈ proxy_names -> (name, value) ∈ own options condition emitting n v replacement -> name ∈ proxy_names).
  { intros condition emitting n v replacement Hn [= -> ->]%own_in. done. }
  intros [Hi|[Hi|[Hi|[Hi|[Hi|[Hi|[Hi|Hi]]]]]]]; try (left; eapply Hown; [|exact Hi]; by apply (bool_decide_unpack _)).
  - right. unfold mutation_fields in Hi. apply list_elem_of_In, in_concat in Hi as (l & (m & <- & Hm)%in_map_iff & Hi).
    exists m. split; [by apply list_elem_of_In|]. by eapply own_in, list_elem_of_In.
  - left. destruct (empty _); [by apply elem_of_nil in Hi|]. apply list_elem_of_singleton in Hi as [= -> ->]. by apply (bool_decide_unpack _).
  - left. apply list_elem_of_In, in_concat in Hi as (l & (n & <- & Hm)%in_map_iff & Hi). apply list_elem_of_In in Hi.
    eapply Hown; [|exact Hi]. cbn in Hm. repeat destruct Hm as [<-|Hm]; try done; by apply (bool_decide_unpack _).
  - left. destruct (empty _); (eapply Hown; [|exact Hi]; by apply (bool_decide_unpack _)).
Qed.

Lemma origin_headers_some headers : origin_headers max_fields incoming options = Some headers -> headers = client_fields incoming options ++ own_fields incoming options.
Proof.
  intros Hh. assert (Hc : (length (connection_values incoming) <= max_fields)%nat).
  { unfold origin_headers in Hh. cbv zeta in Hh. destruct (Nat.ltb_spec max_fields (length (connection_values incoming))); [done|lia]. }
  rewrite origin_headers_fits in Hh by done. unfold fits in Hh. destruct (_ <=? _)%nat; [|done]. by injection Hh as <-.
Qed.

(** Nothing else reaches an origin: a field is one of the client's that is neither hop-by-hop nor
    nominated by Connection nor changed by the route (the asked Upgrade apart), one of the route's, or
    one of the few the proxy sets itself. *)
Theorem origin_headers_sound headers name value : origin_headers max_fields incoming options = Some headers -> (name, value) ∈ headers ->
  (name, value) ∈ incoming /\ mutated options name = false /\
    (request_hop_by_hop_header name = false /\ connection_field incoming name = false \/ upgrade_requested_ options = true /\ ascii_equal name (lit "Upgrade") = true) \/
  (exists mutation, mutation ∈ mutations options /\ (name, value) = (mutation_name mutation, mutation_value mutation)) \/
  name ∈ proxy_names.
Proof.
  intros Hh Hin. apply origin_headers_some in Hh as ->. apply elem_of_app in Hin as [Hin|Hin]; [left|right; destruct (own_fields_in _ _ Hin); tauto].
  unfold client_fields in Hin. apply list_elem_of_In, List.filter_In in Hin as [Hin Hf]. apply list_elem_of_In in Hin.
  apply andb_true_iff in Hf as [Hf Ha]. unfold forwards in Hf. unfold appends in Ha. cbn [orb] in Ha.
  rewrite !andb_true_iff, !negb_true_iff in *. rewrite orb_true_iff, !andb_true_iff, !negb_true_iff in Hf. tauto.
Qed.

Lemma header_values_app name a b : RouteRules.header_values name (a ++ b) = RouteRules.header_values name a ++ RouteRules.header_values name b.
Proof. unfold RouteRules.header_values. by rewrite List.filter_app, map_app. Qed.
Lemma header_values_other name condition emitting n value replacement : ascii_equal n name = false ->
  RouteRules.header_values name (own options condition emitting n value replacement) = [].
Proof. intros Hn. unfold own, RouteRules.header_values. destruct (_ && _); [|done]. cbn [List.filter]. by rewrite Hn. Qed.
Lemma header_values_none name l : Forall (fun field => ascii_equal (fst field) name = false) l -> RouteRules.header_values name l = [].
Proof. unfold RouteRules.header_values. induction 1 as [|[n v] l Hn _ IH]; [done|]. cbn [List.filter fst] in *. by rewrite Hn. Qed.

(** With client addresses passed, the only X-Forwarded-For an origin sees is the address the node
    saw, whatever the client sent, unless the route sets the field. *)
Theorem forwarded_for_is_client headers : pass_client_ip_ (website_ options) = true -> mutated options (lit "X-Forwarded-For") = false ->
  origin_headers max_fields incoming options = Some headers -> RouteRules.header_values (lit "X-Forwarded-For") headers = [client_address_ options].
Proof.
  intros Hpass Hm Hh. apply origin_headers_some in Hh as ->. rewrite header_values_app.
  assert (Hclient : RouteRules.header_values (lit "X-Forwarded-For") (client_fields incoming options) = []).
  { apply header_values_none. rewrite Forall_forall. intros [n v] Hi. apply list_elem_of_In, List.filter_In in Hi as [_ Hf]. cbn [fst].
    unfold forwards in Hf. rewrite Hpass, !andb_true_iff, !negb_true_iff in Hf. tauto. }
  rewrite Hclient. unfold own_fields. cbv zeta. rewrite !header_values_app, Hpass. cbn [app].
  rewrite !(header_values_other (lit "X-Forwarded-For") _ _ (lit "Connection")), !(header_values_other (lit "X-Forwarded-For") _ _ (lit "Accept-Encoding")),
    !(header_values_other (lit "X-Forwarded-For") _ _ (lit "X-Forwarded-Proto")) by done. cbn [app].
  assert (Hmut : RouteRules.header_values (lit "X-Forwarded-For") (mutation_fields options) = []).
  { apply header_values_none. rewrite Forall_forall. intros [n v] Hi. unfold mutation_fields in Hi.
    apply list_elem_of_In, in_concat in Hi as (l & (m & <- & Hin)%in_map_iff & Hi). apply list_elem_of_In, own_in in Hi as [= -> ->]. cbn [fst].
    apply not_true_iff_false. intros He. unfold mutated in Hm. apply not_true_iff_false in Hm. apply Hm, existsb_exists. exists m. split; [done|]. apply ascii_equal_spec. symmetry. by apply ascii_equal_spec. }
  rewrite Hmut. cbn [app normalized_names map concat].
  assert (Hfor : RouteRules.header_values (lit "X-Forwarded-For") (own options true false (lit "X-Forwarded-For") (client_address_ options) false) = [client_address_ options]).
  { unfold own, appends. rewrite Hm. replace (suppressed options (lit "X-Forwarded-For")) with false
      by (unfold suppressed; cbn [normalized_names existsb]; by rewrite !andb_false_r).
    rewrite andb_false_r. done. }
  rewrite Hfor. cbn [app]. f_equal. rewrite !header_values_app, !header_values_other by done.
  destruct (empty (origin_range_ options)), (empty (validation_etag_ (validation_ options))); rewrite header_values_other by done; done.
Qed.
End Fields.

(** The fields an origin gets are, in this order, those of the client that pass and the proxy's own,
    and there are none exactly when they do not fit the writer's array. *)
Theorem origin_headers_exact max_fields incoming options : (length (connection_values incoming) <= max_fields)%nat ->
  origin_headers max_fields incoming options =
    let fields := client_fields incoming options ++ own_fields incoming options in
    if (length fields <=? max_fields)%nat then Some fields else None.
Proof. exact (origin_headers_fits max_fields incoming options). Qed.

(** A request that asks for everything at once. *)
Definition sample_incoming : headers_view :=
  [(lit "Host", lit "www.example.com"); (lit "Accept", lit "text/html"); (lit "Connection", lit "keep-alive, X-Hop"); (lit "X-Hop", lit "1");
   (lit "X-Forwarded-For", lit "10.0.0.1"); (lit "X-Forwarded-Proto", lit "https"); (lit "TE", lit "trailers")].
Definition sample_options : origin_request_options :=
  OriginRequestOptions (OriginWebsite (lit "$host") true) (lit "www.example.com:8080") (lit "192.0.2.7") false false false true None
    (OriginCacheValidation [] [] false) None false [].
Definition sample_headers : headers_view :=
  [(lit "Accept", lit "text/html"); (lit "X-Forwarded-Proto", lit "https"); (lit "Accept-Encoding", lit "identity");
   (lit "X-Forwarded-For", lit "192.0.2.7"); (lit "X-Forwarded-Proto", lit "http")].

Lemma origin_headers_exact_witness :
  origin_headers 64 sample_incoming sample_options = Some sample_headers /\ origin_headers 4 sample_incoming sample_options = None.
Proof. split; (rewrite origin_headers_exact; [by vm_compute|apply (bool_decide_unpack _); by vm_compute]). Defined.
Lemma origin_headers_sound_witness :
  (lit "Accept", lit "text/html") ∈ sample_headers /\ connection_field sample_incoming (lit "X-Hop") = true /\
  ((lit "Accept", lit "text/html") ∈ sample_incoming \/ lit "Accept" ∈ proxy_names).
Proof.
  split; [by apply (bool_decide_unpack _)|]. split; [by vm_compute|].
  destruct (origin_headers_sound 64 sample_incoming sample_options sample_headers (lit "Accept") (lit "text/html")) as [[? _]|[(m & Hm & _)|?]];
    [by vm_compute|by apply (bool_decide_unpack _)|by left|by apply elem_of_nil in Hm|by right].
Defined.
Lemma forwarded_for_is_client_witness :
  RouteRules.header_values (lit "X-Forwarded-For") sample_incoming = [lit "10.0.0.1"] /\
  RouteRules.header_values (lit "X-Forwarded-For") sample_headers = [lit "192.0.2.7"].
Proof.
  split; [by vm_compute|]. apply (forwarded_for_is_client 64 sample_incoming sample_options sample_headers); by vm_compute.
Defined.

(** The protocol the client names is not taken out: over plain HTTP an origin sees "https" first. *)
Example forwarded_proto_kept : RouteRules.header_values (lit "X-Forwarded-Proto") sample_headers = [lit "https"; lit "http"].
Proof. by vm_compute. Qed.

(** A request whose fields or target are missing is not written; otherwise the bytes are the writer's. *)
Lemma prepare_origin_request_bytes `{RequestWriter} incoming options bytes target :
  prepare_origin_request incoming options = Some (bytes, target) ->
  target <> [] /\ exists headers head content size,
    origin_headers max_http_header_fields (in_headers_ incoming) options = Some headers /\ bytes = head ++ content /\
    prepare_wire (WireRequest (authority options) (in_method_ incoming) target headers
      (if has_body_ incoming then Some (in_body_ incoming) else None) (close_after_response_ options)) size = Prepared head content.
Proof.
  unfold prepare_origin_request. destruct (origin_headers _ _ _) as [headers|]; [|done].
  set (t := match route_ options with Some _ => _ | None => _ end). clearbody t. destruct t as [|c t]; [done|]. cbn [empty].
  set (request := WireRequest _ _ _ _ _ _). destruct (prepare_wire request head_buffer) as [head content|required|] eqn:E; cbn.
  - intros [= <- <-]. split; [done|]. eauto 8.
  - destruct (prepare_wire request required) as [head content| |] eqn:E2; cbn; try done. intros [= <- <-]. split; [done|]. eauto 8.
  - done.
Qed.
