(* ===== verification/OriginResponse.v ===== *)
(** Responses of an origin: src/node/data/origin_response_codec.h.

    The codec's members are grouped in records; what its setters fix before the first byte is
    [setup]. A call gives the next codec or how it failed: an allocation ([Exhausted]) or anything
    else ([Failed]); the source drops the codec then. The parser of heads, the decoder of chunks, the
    content encoder, the reason phrases and the If-Range rule are the library's: interfaces. *)
From S2P Require Import Prelude RoutePolicy RouteMatch RouteProgram RouteRules CacheSettings CachePolicy CacheKey CacheRange CacheRangeResponse CacheControl CacheFreshness ResponseCompression.
Open Scope Z_scope.

(** * The library *)

Inductive outcome (A : Type) := Done (a : A) | Failed | Exhausted.
Arguments Done {A}. Arguments Failed {A}. Arguments Exhausted {A}.
Definition bind {A B} (o : outcome A) (k : A -> outcome B) : outcome B :=
  match o with Done a => k a | Failed => Failed | Exhausted => Exhausted end.

Record client_response_head := ClientResponseHead { response_status_ : Z; response_headers_ : headers_view }.
(** The framing of a body with its length; the flag says whether the connection may be used again. *)
Inductive body_framing := KnownLength (length : Z) (reuse : bool) | ChunkedBody (reuse : bool).
Inductive response_plan :=
  | Informational | ProtocolUpgrade | WithoutContent (reuse : bool) | WithContent (framing : body_framing) | CloseDelimited
  | ZeroContent (framing : option body_framing).
Inductive head_result := HeadNeedMore | HeadParsed (head : client_response_head) (consumed : nat) (plan : response_plan) | HeadFailure.
Inductive chunk_step := BodyChunk (data : bytes) (consumed : nat) | ChunkComplete (consumed : nat) | ChunkFailure | ChunkNeedMore (consumed : nat).

Class ResponseLibrary := {
  response_parser : Type; parse_response : response_parser -> bytes -> head_result * response_parser;
  chunked_decoder : Type; new_decoder : chunked_decoder; decode_chunk : chunked_decoder -> bytes -> chunk_step * chunked_decoder;
  content_encoder : Type; new_encoder : http_content_coding -> outcome content_encoder;
  encoder_write : content_encoder -> bytes -> outcome (bytes * content_encoder); encoder_finish : content_encoder -> outcome bytes;
  reason_phrase : Z -> bytes;
  if_range_allows : bytes -> bytes -> option Z -> bool -> bool }.

(** * The codec *)

Record origin_range_request := OriginRangeRequest {
  client_range_ : bytes; if_range_ : option bytes; origin_response_ : option cache_range_response; range_total_ : option Z; etag_ : bytes;
  has_validator_ : bool; head_started_ : bool; full_response_ : bool; passthrough_ : bool; range_first_ : Z; range_last_ : Z }.

Record setup := Setup {
  hsts_enabled_ : bool; response_route_ : option evaluated_route_policy; compression_ : option (compression_website * bytes * bytes);
  codec_rule_ : option rule; cache_target_ : bytes; cache_authorization_ : bool; client_range_header_ : bytes; client_if_range_ : option bytes;
  forward_informational_ : bool; wall_clock_ : Z; random_ : bytes }.

Inductive body_kind := kind_none | known_length | chunked | close_delimited | tunnel.
#[export] Instance body_kind_eq_dec : EqDecision body_kind.
Proof. solve_decision. Defined.

Section Codec.
Context `{ResponseLibrary} `{HttpDate} `{CodingLibrary}.

Record framing := Framing { body_kind_ : body_kind; remaining_ : Z; decoder_ : option chunked_decoder; chunk_framing_ : bytes; complete_ : bool; origin_reusable_ : bool }.
Record ranges := Ranges { range_response_ : option cache_range_response; origin_range_ : option origin_range_request; range_offset_ : Z }.
Record caching := Caching {
  capture_enabled_ : bool; captured_ : option cache_response_head; capture_output_ : bytes; strip_set_cookie_ : bool; browser_cache_ttl_ : Z;
  cache_status_ : bytes; cache_bypass_reason_ : bytes }.
(** The encoder with the output it has not handed out, and what it changes in the head. *)
Record coding := Coding { compressor_ : option (content_encoder * bytes); compressed_ : bool; content_encoding_ : bytes; vary_ : bytes }.
Record codec := Codec {
  parser_ : response_parser; head_bytes_ : bytes; head_offset_ : nat; status_code_ : option Z; tunnel_ : bool;
  framing_ : framing; ranges_ : ranges; caching_ : caching; coding_ : coding; output_ : bytes }.

Definition set_head (parser : response_parser) (head_bytes : bytes) (offset : nat) (c : codec) : codec :=
  Codec parser head_bytes offset (status_code_ c) (tunnel_ c) (framing_ c) (ranges_ c) (caching_ c) (coding_ c) (output_ c).
Definition set_framing (f : framing) (c : codec) : codec :=
  Codec (parser_ c) (head_bytes_ c) (head_offset_ c) (status_code_ c) (tunnel_ c) f (ranges_ c) (caching_ c) (coding_ c) (output_ c).
Definition set_ranges (r : ranges) (c : codec) : codec :=
  Codec (parser_ c) (head_bytes_ c) (head_offset_ c) (status_code_ c) (tunnel_ c) (framing_ c) r (caching_ c) (coding_ c) (output_ c).
Definition set_caching (k : caching) (c : codec) : codec :=
  Codec (parser_ c) (head_bytes_ c) (head_offset_ c) (status_code_ c) (tunnel_ c) (framing_ c) (ranges_ c) k (coding_ c) (output_ c).
Definition set_coding (d : coding) (c : codec) : codec :=
  Codec (parser_ c) (head_bytes_ c) (head_offset_ c) (status_code_ c) (tunnel_ c) (framing_ c) (ranges_ c) (caching_ c) d (output_ c).
Definition emit (data : bytes) (c : codec) : codec :=
  Codec (parser_ c) (head_bytes_ c) (head_offset_ c) (status_code_ c) (tunnel_ c) (framing_ c) (ranges_ c) (caching_ c) (coding_ c) (output_ c ++ data).

Definition stop_cache_capture (c : codec) : codec :=
  let k := caching_ c in
  set_caching (Caching false None [] (strip_set_cookie_ k) (browser_cache_ttl_ k) (cache_status_ k) (cache_bypass_reason_ k)) c.
Definition capture_for_cache (c : codec) : codec :=
  let k := caching_ c in
  set_caching (Caching true (captured_ k) (capture_output_ k) (strip_set_cookie_ k) (browser_cache_ttl_ k) (cache_status_ k) (cache_bypass_reason_ k)) c.
Definition take_output (c : codec) : bytes * codec :=
  (output_ c, Codec (parser_ c) (head_bytes_ c) (head_offset_ c) (status_code_ c) (tunnel_ c) (framing_ c) (ranges_ c) (caching_ c) (coding_ c) []).
Definition take_cache_output (c : codec) : bytes * codec :=
  let k := caching_ c in
  (capture_output_ k, set_caching (Caching (capture_enabled_ k) (captured_ k) [] (strip_set_cookie_ k) (browser_cache_ttl_ k) (cache_status_ k) (cache_bypass_reason_ k)) c).

Definition active_range (c : codec) : option cache_range_response :=
  match origin_range_ (ranges_ c) with
  | Some origin => match origin_response_ origin with Some response => Some response | None => range_response_ (ranges_ c) end
  | None => range_response_ (ranges_ c)
  end.
Definition set_origin_response (response : cache_range_response) (r : origin_range_request) : origin_range_request :=
  OriginRangeRequest (client_range_ r) (if_range_ r) (Some response) (range_total_ r) (etag_ r) (has_validator_ r) (head_started_ r) (full_response_ r)
    (passthrough_ r) (range_first_ r) (range_last_ r).
Definition set_active_range (response : cache_range_response) (c : codec) : codec :=
  let r := ranges_ c in
  match origin_range_ r with
  | Some origin =>
      match origin_response_ origin with
      | Some _ => set_ranges (Ranges (range_response_ r) (Some (set_origin_response response origin)) (range_offset_ r)) c
      | None => set_ranges (Ranges (Some response) (origin_range_ r) (range_offset_ r)) c
      end
  | None => set_ranges (Ranges (Some response) (origin_range_ r) (range_offset_ r)) c
  end.
Definition complete (c : codec) : bool := complete_ (framing_ c).
Definition origin_reusable (c : codec) : bool := complete c && negb (tunnel_ c) && origin_reusable_ (framing_ c).
Definition eof_completes_response (c : codec) : bool := bool_decide (body_kind_ (framing_ c) = close_delimited).
Definition client_status_code (c : codec) : Z :=
  match active_range c with Some range => status range | None => default 502 (status_code_ c) end.

(** * The body *)

Definition capture (data : bytes) (c : codec) : codec :=
  let k := caching_ c in
  match captured_ k with
  | Some _ => set_caching (Caching (capture_enabled_ k) (captured_ k) (capture_output_ k ++ data) (strip_set_cookie_ k) (browser_cache_ttl_ k) (cache_status_ k) (cache_bypass_reason_ k)) c
  | None => c
  end.

Definition hex_digit_text (n : Z) : ascii := nth (Z.to_nat n) (lit "0123456789abcdef") zero.
(** [to_chars] in base 16; [fuel] bounds the digits. *)
Fixpoint hex_loop (fuel : nat) (n : Z) (digits : bytes) : bytes :=
  match fuel with
  | O => digits
  | S fuel =>
      let digits := hex_digit_text (n mod 16) :: digits in
      if n <? 16 then digits else hex_loop fuel (n / 16) digits
  end.
Definition hex_text (n : Z) : bytes := hex_loop 16 n [].
Definition chunk_text (data : bytes) : bytes := hex_text (size data) ++ crlf ++ data ++ crlf.
Definition append_chunk (data : bytes) (c : codec) : codec :=
  let c := capture data c in if empty data then c else emit (chunk_text data) c.

Definition set_compressor (compressor : option (content_encoder * bytes)) (c : codec) : codec :=
  let d := coding_ c in set_coding (Coding compressor (compressed_ d) (content_encoding_ d) (vary_ d)) c.
Definition retain (data : bytes) (c : codec) : outcome codec :=
  match compressor_ (coding_ c) with
  | Some (encoder, pending) =>
      bind (encoder_write encoder data) (fun '(written, encoder) => Done (set_compressor (Some (encoder, [])) (append_chunk (pending ++ written) c)))
  | None => Done (capture data c)
  end.

Definition set_complete (c : codec) : codec :=
  let f := framing_ c in set_framing (Framing (body_kind_ f) (remaining_ f) (decoder_ f) (chunk_framing_ f) true (origin_reusable_ f)) c.
Definition last_chunk : bytes := lit "0" ++ crlf ++ crlf.
Definition finish_body (c : codec) : outcome codec :=
  match compressor_ (coding_ c) with
  | Some (encoder, pending) =>
      bind (encoder_finish encoder) (fun written => Done (set_complete (set_compressor None (emit last_chunk (append_chunk (pending ++ written) c)))))
  | None => Done (set_complete c)
  end.

Definition set_decoder (decoder : chunked_decoder) (rest : bytes) (c : codec) : codec :=
  let f := framing_ c in set_framing (Framing (body_kind_ f) (remaining_ f) (Some decoder) rest (complete_ f) (origin_reusable_ f)) c.
(** The loop over the chunks of [input] from where it is; [fuel] bounds the steps. *)
Fixpoint chunk_loop (fuel : nat) (decoder : chunked_decoder) (input : bytes) (c : codec) : outcome codec :=
  match fuel with
  | O => Failed
  | S fuel =>
      let '(step, decoder) := decode_chunk decoder input in
      match step with
      | BodyChunk data consumed => bind (retain data c) (chunk_loop fuel decoder (drop consumed input))
      | ChunkComplete consumed => if (consumed =? length input)%nat then bind (finish_body c) (fun c => Done (set_decoder decoder [] c)) else Failed
      | ChunkFailure => Failed
      | ChunkNeedMore consumed => Done (set_decoder decoder (drop consumed input) c)
      end
  end.
Definition consume_chunked (data : bytes) (c : codec) : outcome codec :=
  match decoder_ (framing_ c) with
  | Some decoder => let input := chunk_framing_ (framing_ c) ++ data in chunk_loop (S (length input)) decoder input c
  | None => Failed
  end.

Definition spend (n : Z) (c : codec) : codec :=
  let f := framing_ c in set_framing (Framing (body_kind_ f) (remaining_ f - n) (decoder_ f) (chunk_framing_ f) (complete_ f) (origin_reusable_ f)) c.
Definition advance (n : Z) (c : codec) : codec :=
  let r := ranges_ c in set_ranges (Ranges (range_response_ r) (origin_range_ r) (range_offset_ r + n)) c.
(** What a known-length body emits of some data: what the active range takes of them, or all. *)
Definition relay (data : bytes) (c : codec) : codec :=
  if compressed_ (coding_ c) then c
  else
    match active_range c with
    | Some range => let '(taken, range) := consume range data (range_offset_ (ranges_ c)) in advance (size data) (set_active_range range (emit taken c))
    | None => emit data c
    end.
Definition consume_body (data : bytes) (c : codec) : outcome codec :=
  if complete c then (if empty data then Done c else Failed)
  else
    match body_kind_ (framing_ c) with
    | known_length =>
        if remaining_ (framing_ c) <? size data then Failed
        else
          bind (retain data (spend (size data) c)) (fun c =>
          let c := relay data c in
          if remaining_ (framing_ c) =? 0 then finish_body c else Done c)
    | chunked => consume_chunked data (if compressed_ (coding_ c) then c else emit data c)
    | close_delimited => bind (retain data c) (fun c => Done (if compressed_ (coding_ c) then c else emit data c))
    | tunnel => Done (emit data c)
    | kind_none => if empty data then Done c else Failed
    end.
Definition consume_eof (c : codec) : outcome codec := if eof_completes_response c then finish_body c else Failed.

(** * The head *)

Section Head.
Context (config : setup).

Definition hop_by_hop_names : list bytes := [lit "Connection"; lit "Keep-Alive"; lit "Proxy-Connection"; lit "TE"; lit "Transfer-Encoding"; lit "Upgrade"].
Definition hop_by_hop (name : bytes) : bool := existsb (ascii_equal name) hop_by_hop_names.

(** A 64-bit set of field positions. *)
Definition all_fields (n : nat) : Z := if (n =? 64)%nat then two64 - 1 else Z.shiftl 1 (Z.of_nat n) - 1.
(** [countr_zero] of a value that is not zero; [fuel] bounds the positions. *)
Fixpoint countr_zero (fuel : nat) (value : Z) : nat :=
  match fuel with
  | O => O
  | S fuel => if Z.testbit value 0 then O else S (countr_zero fuel (Z.shiftr value 1))
  end.
(** The loop over the set bits of [remaining]. *)
Fixpoint nominate_loop (fuel : nat) (fields : headers_view) (option : bytes) (remaining nominated : Z) : Z :=
  match fuel with
  | O => nominated
  | S fuel =>
      if remaining =? 0 then nominated
      else
        let index := countr_zero 64 remaining in
        let nominated := match fields !! index with
          | Some (name, _) => if ascii_equal option name then Z.lor nominated (Z.shiftl 1 (Z.of_nat index)) else nominated
          | None => nominated
          end in
        nominate_loop fuel fields option (Z.land remaining (remaining - 1)) nominated
  end.
Fixpoint options_loop (fuel : nat) (fields : headers_view) (value : bytes) (nominated : Z) : Z :=
  match fuel with
  | O => nominated
  | S fuel =>
      if empty value then nominated
      else
        let comma := find_char "," value in
        let option := trim_ows (upto comma value) in
        let nominated := if empty option then nominated
          else nominate_loop 64 fields option (Z.ldiff (all_fields (length fields)) nominated) nominated in
        match comma with Some comma => options_loop fuel fields (drop (S comma) value) nominated | None => nominated end
  end.
Definition connection_fields (head : client_response_head) : Z :=
  let fields := response_headers_ head in
  fold_left (fun nominated '(name, value) =>
    if ascii_equal name (lit "Connection") then options_loop (S (length value)) fields value nominated else nominated) fields 0.

Definition route_headers : list header_mutation :=
  match response_route_ config with Some route => pol_response_headers route | None => [] end.
Definition routed (name : bytes) : bool := existsb (fun mutation => ascii_equal name (mutation_name mutation)) route_headers.
Definition mutation_values (name : bytes) : list bytes := map mutation_value (List.filter (fun mutation => ascii_equal (mutation_name mutation) name) route_headers).
Definition field_values (head : client_response_head) (name : bytes) : list bytes := map snd (List.filter (fun '(n, _) => ascii_equal n name) (response_headers_ head)).

(** The one value of a field, the route's if it sets one. *)
Definition response_validator (head : client_response_head) (name : bytes) : bytes :=
  let values := match mutation_values name with [] => field_values head name | values => values end in
  match values with [value] => value | _ => [] end.
Definition is_date_condition (condition : bytes) : bool := negb (starts_with condition [chr 34]) && negb (starts_with condition (lit "W/")).
Definition allows_client_range (condition : option bytes) (head : client_response_head) : bool :=
  match condition with
  | None => true
  | Some condition =>
      let modified := if is_date_condition condition then parse_http_date (response_validator head (lit "Last-Modified")) else None in
      let strong_date := match modified with
        | Some modified => match parse_http_date (response_validator head (lit "Date")) with Some date => 60 <=? date - modified | None => false end
        | None => false
        end in
      if_range_allows condition (response_validator head (lit "ETag")) modified strong_date
  end.
Definition append_value (value text : bytes) : bytes := (if empty value then [] else value ++ lit ", ") ++ text.
Definition response_header (head : client_response_head) (name : bytes) : bytes :=
  fold_left append_value (match mutation_values name with [] => field_values head name | values => values end) [].

(** ** The framing of the body *)

Definition framing_reuse (framing : body_framing) : bool := match framing with KnownLength _ reuse => reuse | ChunkedBody reuse => reuse end.
Definition plan_allows_reuse (plan : response_plan) : bool :=
  match plan with
  | WithoutContent reuse => reuse
  | WithContent framing => framing_reuse framing
  | ZeroContent (Some framing) => framing_reuse framing
  | _ => false
  end.
(** A known length, of the content or of what a response without content stands for. *)
Definition plan_length (plan : response_plan) : option Z :=
  match plan with WithContent (KnownLength n _) | ZeroContent (Some (KnownLength n _)) => Some n | _ => None end.
Definition configure_body (tunnelled : bool) (plan : response_plan) (c : codec) : codec :=
  let f := framing_ c in
  let with_kind kind remaining decoder complete := Framing kind remaining decoder (chunk_framing_ f) complete (plan_allows_reuse plan) in
  set_framing
    (if tunnelled then with_kind tunnel (remaining_ f) (decoder_ f) (complete_ f)
     else match plan_length plan with
       | Some n => with_kind known_length n (decoder_ f) (n =? 0)
       | None =>
           match plan with
           | WithContent (ChunkedBody _) | ZeroContent (Some (ChunkedBody _)) => with_kind chunked (remaining_ f) (Some new_decoder) (complete_ f)
           | CloseDelimited | ZeroContent _ => with_kind close_delimited (remaining_ f) (decoder_ f) (complete_ f)
           | _ => with_kind kind_none (remaining_ f) (decoder_ f) true
           end
       end) c.

(** ** Ranges *)

Definition rule_configured (setting : bytes) : bool := match codec_rule_ config with Some r => configured r setting | None => false end.
Definition strong_etags : bool :=
  match codec_rule_ config with Some r => match settings_ r with Some s => strong_etags_ s | None => false end | None => false end.
(** Whether strong validators are weakened: the rule configures etags and does not keep strong ones. *)
Definition weakens_etags : bool := rule_configured (lit "etag") && negb strong_etags.
Definition weakened (etag : bytes) : bytes := if weakens_etags && starts_with etag [chr 34] then lit "W/" ++ etag else etag.

Definition with_origin (origin : origin_range_request) (c : codec) : codec :=
  set_ranges (Ranges (range_response_ (ranges_ c)) (Some origin) (range_offset_ (ranges_ c))) c.
(** [range.response_.emplace(...)]. *)
Definition emplace_response (matches : bool) (total : Z) (head : client_response_head) (r : origin_range_request) : origin_range_request :=
  set_origin_response (new_response (if matches then client_range_ r else []) total true (response_header head (lit "Content-Type")) (random_ config)) r.
Definition set_full_response (r : origin_range_request) : origin_range_request :=
  OriginRangeRequest (client_range_ r) (if_range_ r) (origin_response_ r) (range_total_ r) (etag_ r) (has_validator_ r) (head_started_ r) true
    (passthrough_ r) (range_first_ r) (range_last_ r).
Definition set_passthrough (r : origin_range_request) : origin_range_request :=
  OriginRangeRequest (client_range_ r) (if_range_ r) (origin_response_ r) (range_total_ r) (etag_ r) (has_validator_ r) (head_started_ r) (full_response_ r)
    true (range_first_ r) (range_last_ r).
Definition set_head_started (r : origin_range_request) : origin_range_request :=
  OriginRangeRequest (client_range_ r) (if_range_ r) (origin_response_ r) (range_total_ r) (etag_ r) (has_validator_ r) true (full_response_ r)
    (passthrough_ r) (range_first_ r) (range_last_ r).
Definition set_part (total : Z) (etag : bytes) (r : origin_range_request) : origin_range_request :=
  OriginRangeRequest (client_range_ r) (if_range_ r) (origin_response_ r) (Some total) etag true (head_started_ r) (full_response_ r)
    (passthrough_ r) (range_first_ r) (range_last_ r).

(** A part the origin sent is the one that was asked for, of the object the earlier parts are of. *)
Definition part_expected (range : origin_range_request) (parsed : origin_content_range) (length : Z) (etag : bytes) : bool :=
  (CacheRange.first_ parsed =? range_first_ range) && (CacheRange.last_ parsed =? Z.min (range_last_ range) (CacheRange.total_ parsed - 1)) &&
  (length =? CacheRange.last_ parsed - CacheRange.first_ parsed + 1) &&
  match range_total_ range with Some total => total =? CacheRange.total_ parsed | None => true end &&
  (negb (has_validator_ range) || (etag_ range == etag)).
Definition configure_origin_range (range : origin_range_request) (head : client_response_head) (plan : response_plan) (c : codec) : outcome codec :=
  let encoding := response_header head (lit "Content-Encoding") in
  if negb (response_status_ head =? 206) then
    if head_started_ range then Failed
    else
      let range := set_full_response range in
      match plan_length plan with
      | Some length =>
          if (response_status_ head =? 200) && empty encoding
          then Done (with_origin (emplace_response (allows_client_range (if_range_ range) head) length head range) c)
          else Done (with_origin range c)
      | None => Done (with_origin range c)
      end
  else if negb (empty encoding) && negb (encoding == lit "identity") then
    if head_started_ range then Failed else Done (stop_cache_capture (with_origin (set_passthrough range) c))
  else
    match parse_origin_content_range (response_header head (lit "Content-Range")), plan with
    | Some parsed, WithContent (KnownLength length _) =>
        let etag := weakened (response_header head (lit "ETag")) in
        if empty (response_header head (lit "Transfer-Encoding")) && part_expected range parsed length etag then
          let range := set_part (CacheRange.total_ parsed) etag range in
          let range := match origin_response_ range with
            | Some _ => range
            | None => emplace_response (allows_client_range (if_range_ range) head) (CacheRange.total_ parsed) head range
            end in
          Done (set_ranges (Ranges (range_response_ (ranges_ c)) (Some range) (CacheRange.first_ parsed)) c)
        else Failed
    | _, _ => Failed
    end.

Definition configure_client_range (head : client_response_head) (plan : response_plan) (c : codec) : codec :=
  match plan_length plan with
  | Some length =>
      if negb (empty (client_range_header_ config)) && (response_status_ head =? 200) && empty (response_header head (lit "Content-Encoding")) &&
         allows_client_range (client_if_range_ config) head
      then set_ranges (Ranges (Some (new_response (client_range_header_ config) length false (response_header head (lit "Content-Type")) (random_ config)))
             (origin_range_ (ranges_ c)) (range_offset_ (ranges_ c))) c
      else c
  | None => c
  end.

(** ** Compression *)

Definition replaced (k : caching) (for_cache : bool) (name : bytes) : bool :=
  negb for_cache && ascii_equal name (lit "Cloudflare-CDN-Cache-Control") ||
  strip_set_cookie_ k && ascii_equal name (lit "Set-Cookie") ||
  negb for_cache && negb (browser_cache_ttl_ k =? 0) && (ascii_equal name (lit "Cache-Control") || ascii_equal name (lit "Expires")) ||
  negb (empty (cache_status_ k)) && ascii_equal name (lit "X-Cache") ||
  hsts_enabled_ config && ascii_equal name (lit "Strict-Transport-Security") ||
  routed name.

Definition no_content (plan : response_plan) : bool := match plan with WithoutContent _ | ZeroContent _ => true | _ => false end.
Definition varied (k : caching) (head : client_response_head) : bytes :=
  let origin := map snd (List.filter (fun '(name, _) => ascii_equal name (lit "Vary") && negb (replaced k false name)) (response_headers_ head)) in
  let vary := fold_left append_value (origin ++ mutation_values (lit "Vary")) [] in
  let tokens := cache_tokens vary in
  if bool_decide (lit "accept-encoding" ∈ tokens) || bool_decide (lit "*" ∈ tokens) then vary else append_value vary (lit "Accept-Encoding").
Definition start_encoder (choice : http_content_coding) (vary : bytes) (c : codec) : codec :=
  let plain := set_coding (Coding (compressor_ (coding_ c)) (compressed_ (coding_ c)) (content_encoding_ (coding_ c)) vary) c in
  if bool_decide (choice = identity) then plain
  else
    match bind (new_encoder choice) (fun encoder => encoder_write encoder []) with
    | Done (written, encoder) => set_coding (Coding (Some (encoder, written)) true (http_content_coding_token choice) vary) c
    | _ => plain
    end.
Definition configure_compression (head : client_response_head) (plan : response_plan) (c : codec) : codec :=
  match active_range c, compression_ config with
  | None, Some (website, target, accept_encoding) =>
      if rule_configured (lit "etag") && strong_etags || tunnel_ c || no_content plan then c
      else
        let transfer := response_header head (lit "Transfer-Encoding") in
        if negb (empty transfer) && negb (ascii_equal (trim_ows transfer) (lit "chunked")) then stop_cache_capture c
        else
          let length := match plan with WithContent (KnownLength length _) => Some length | _ => None end in
          let '(choice, vary) := select_response_compression website target accept_encoding (response_status_ head) length (response_header head) in
          start_encoder choice (if vary then varied (caching_ c) head else vary_ (coding_ c)) c
  | _, _ => c
  end.

(** ** The fields of the head *)

Definition body_fields : list bytes :=
  [lit "Content-Length"; lit "Transfer-Encoding"; lit "Trailer"; lit "Content-Encoding"; lit "Content-MD5"; lit "Digest"; lit "Content-Digest";
   lit "Repr-Digest"; lit "Accept-Ranges"].
(** [representation_field]: the field that is emitted, if one is. *)
Definition representation_field (k : caching) (d : coding) (name value : bytes) : option (bytes * bytes) :=
  if weakens_etags && ascii_equal name (lit "ETag") && starts_with value [chr 34] then Some (name, lit "W/" ++ value)
  else if strip_set_cookie_ k && ascii_equal name (lit "Set-Cookie") then None
  else if negb (empty (vary_ d)) && ascii_equal name (lit "Vary") then None
  else if compressed_ d then
    if existsb (ascii_equal name) body_fields then None
    else if ascii_equal name (lit "ETag") && starts_with value [chr 34] then Some (name, lit "W/" ++ value)
    else Some (name, value)
  else Some (name, value).
Definition representation_fields (d : coding) : headers_view :=
  (if empty (vary_ d) then [] else [(lit "Vary", vary_ d)]) ++ (if compressed_ d then [(lit "Content-Encoding", content_encoding_ d)] else []).

(** The fields with whether they are nominated: the loops shift the set along. *)
Fixpoint marked (fields : headers_view) (nominations : Z) : list (bytes * bytes * bool) :=
  match fields with
  | [] => []
  | field :: fields => (field, negb (Z.land nominations 1 =? 0)) :: marked fields (Z.shiftr nominations 1)
  end.

Definition informational_fields (head : client_response_head) : headers_view :=
  omap (fun '(name, value, nominated) =>
    if negb (hop_by_hop name) && negb (ascii_equal name (lit "Content-Length")) && negb nominated then Some (name, value) else None)
    (marked (response_headers_ head) (connection_fields head)).

Definition range_fields : list bytes := [lit "Content-Length"; lit "Content-Range"; lit "Content-Type"].
(** Whether a field of the origin is left out of the client's head. *)
Definition dropped (c : codec) (status : Z) (name : bytes) (nominated : bool) : bool :=
  let upgrade_field := tunnel_ c && (ascii_equal name (lit "Connection") || ascii_equal name (lit "Upgrade")) in
  let framing_field := ascii_equal name (lit "Transfer-Encoding") in
  let framing_forbidden := (status <? 200) || (status =? 204) in
  present (active_range c) && existsb (ascii_equal name) range_fields ||
  framing_forbidden && (framing_field || ascii_equal name (lit "Content-Length")) ||
  negb upgrade_field && negb framing_field && (hop_by_hop name || nominated) ||
  replaced (caching_ c) false name.
Definition origin_fields (c : codec) (head : client_response_head) (nominations : Z) : headers_view :=
  omap (fun '(name, value, nominated) =>
    if dropped c (response_status_ head) name nominated then None else representation_field (caching_ c) (coding_ c) name value)
    (marked (response_headers_ head) nominations).
Definition routed_fields (k : caching) (d : coding) : headers_view :=
  omap (fun mutation =>
    if ascii_equal (mutation_name mutation) (lit "Cloudflare-CDN-Cache-Control") then None
    else representation_field k d (mutation_name mutation) (mutation_value mutation)) route_headers.
Definition range_head_fields (c : codec) : headers_view :=
  match active_range c with
  | Some range =>
      [(lit "Content-Length", dec (body_length_ range))] ++
      (if empty (content_type range) then [] else [(lit "Content-Type", content_type range)]) ++
      (if empty (content_range range) then [] else [(lit "Content-Range", content_range range)])
  | None => []
  end.
Definition closing_fields (c : codec) : headers_view :=
  let ttl := browser_cache_ttl_ (caching_ c) in
  (if 0 <? ttl then [(lit "Cache-Control", lit "public, max-age=" ++ dec ttl)]
   else if ttl =? -2 then [(lit "Cache-Control", lit "public, max-age=0")]
   else if ttl <? 0 then [(lit "Cache-Control", lit "no-store")] else []) ++
  (if empty (cache_status_ (caching_ c)) then [] else [(lit "X-Cache", cache_status_ (caching_ c))]) ++
  (if tunnel_ c then [] else (lit "Connection", lit "close") ::
    (if hsts_enabled_ config then [(lit "Strict-Transport-Security", lit "max-age=31536000")] else [])).
Definition head_fields (c : codec) (head : client_response_head) (nominations : Z) : headers_view :=
  origin_fields c head nominations ++ routed_fields (caching_ c) (coding_ c) ++ representation_fields (coding_ c) ++
  (if compressed_ (coding_ c) then [(lit "Transfer-Encoding", lit "chunked")] else []) ++ range_head_fields c ++ closing_fields c.

Definition field_line (field : bytes * bytes) : bytes := fst field ++ lit ": " ++ snd field ++ crlf.
Definition status_line (status : Z) : bytes := lit "HTTP/1.1 " ++ dec status ++ lit " " ++ reason_phrase status ++ crlf.
Definition head_text (status : Z) (fields : headers_view) : bytes := status_line status ++ concat (map field_line fields) ++ crlf.
Definition append_informational_head (head : client_response_head) (c : codec) : codec := emit (head_text (response_status_ head) (informational_fields head)) c.
Definition append_head (head : client_response_head) (nominations : Z) (c : codec) : codec :=
  emit (head_text (client_status_code c) (head_fields c head nominations)) c.

(** ** Capture for the cache *)

Definition captured_fields (k : caching) (d : coding) (head : client_response_head) (nominations : Z) : cache_headers :=
  omap (fun '(name, value, nominated) =>
    if hop_by_hop name || nominated || ascii_equal name (lit "Content-Length") || ascii_equal name (lit "Trailer") || replaced k true name then None
    else representation_field k d name value) (marked (response_headers_ head) nominations) ++
  omap (fun mutation => representation_field k d (mutation_name mutation) (mutation_value mutation)) route_headers ++
  representation_fields d.

Definition set_browser_ttl (ttl : Z) (c : codec) : codec :=
  let k := caching_ c in set_caching (Caching (capture_enabled_ k) (captured_ k) (capture_output_ k) (strip_set_cookie_ k) ttl (cache_status_ k) (cache_bypass_reason_ k)) c.
Definition set_captured (captured : option cache_response_head) (c : codec) : codec :=
  let k := caching_ c in set_caching (Caching (capture_enabled_ k) captured (capture_output_ k) (strip_set_cookie_ k) (browser_cache_ttl_ k) (cache_status_ k) (cache_bypass_reason_ k)) c.
Definition set_bypass (reason status : bytes) (c : codec) : codec :=
  let k := caching_ c in set_caching (Caching (capture_enabled_ k) (captured_ k) (capture_output_ k) (strip_set_cookie_ k) (browser_cache_ttl_ k) status reason) c.
Definition strip_cookies (captured : cache_response_head) (ttl : Z) (c : codec) : codec :=
  let k := caching_ c in
  set_caching (Caching (capture_enabled_ k) (Some captured) (capture_output_ k) true ttl (cache_status_ k) (cache_bypass_reason_ k)) c.

Definition without_cookies (head : cache_response_head) : cache_response_head :=
  mk_head (head_status_ head) (List.filter (fun '(name, _) => negb (ascii_equal name (lit "Set-Cookie"))) (head_headers_ head)).
Definition capture_head (head : client_response_head) (nominations : Z) (c : codec) : codec :=
  if capture_enabled_ (caching_ c) then
    let captured := mk_head (response_status_ head) (captured_fields (caching_ c) (coding_ c) head nominations) in
    let c := set_captured (Some captured) c in
    match codec_rule_ config with
    | None => c
    | Some r =>
        let reason := if response_status_ head =? 304 then cache_bypass_reason_ (caching_ c)
          else response_bypass_reason r captured (cache_authorization_ config) (cache_target_ config) in
        let c :=
          if response_status_ head =? 304 then c
          else if empty reason then set_bypass reason (cache_status_ (caching_ c)) c
          else stop_cache_capture (set_bypass reason (lit "BYPASS") c) in
        if present (captured_ (caching_ c)) && (overrides_origin r (response_status_ head) || negb (cache_origin_control r (head_headers_ captured)))
        then strip_cookies (without_cookies captured) (cache_browser_ttl (wall_clock_ config) r (without_cookies captured)) c
        else c
    end
  else c.

(** ** The last head of a response *)

Definition event_stream (head : client_response_head) : bool := is_event_stream_content_type (response_header head (lit "Content-Type")).
Definition never_cached (head : client_response_head) (c : codec) : codec :=
  if tunnel_ c || event_stream head then
    let reason := if tunnel_ c then lit "origin_upgrade" else lit "origin_event_stream" in
    let status := if empty (cache_status_ (caching_ c)) then [] else lit "BYPASS" in
    set_browser_ttl 0 (stop_cache_capture (set_bypass reason status c))
  else c.
Definition browser_ttl (head : client_response_head) (c : codec) : codec :=
  match codec_rule_ config with
  | Some r => if tunnel_ c || event_stream head then c else set_browser_ttl (cache_browser_ttl (wall_clock_ config) r (mk_head (response_status_ head) (response_headers_ head))) c
  | None => c
  end.
Definition start_head (head : client_response_head) (plan : response_plan) (c : codec) : codec :=
  let tunnelled := match plan with ProtocolUpgrade => true | _ => false end in
  configure_body tunnelled plan
    (Codec (parser_ c) (head_bytes_ c) (head_offset_ c) (Some (response_status_ head)) tunnelled (framing_ c) (ranges_ c) (caching_ c) (coding_ c) (output_ c)).
Definition emit_head (head : client_response_head) (nominations : Z) (c : codec) : codec :=
  match origin_range_ (ranges_ c) with
  | Some range => if head_started_ range then c else
      let c := append_head head nominations c in with_origin (set_head_started range) c
  | None => append_head head nominations c
  end.
Definition final_head (head : client_response_head) (plan : response_plan) (c : codec) : outcome codec :=
  let c := start_head head plan c in
  bind (match origin_range_ (ranges_ c) with Some range => configure_origin_range range head plan c | None => Done c end) (fun c =>
  let c := browser_ttl head (configure_compression head plan (never_cached head (configure_client_range head plan c))) in
  let nominations := connection_fields head in
  let c := capture_head head nominations c in
  let c := if routed (lit "Cache-Control") then set_browser_ttl 0 c else c in
  Done (emit_head head nominations c)).

Definition max_head_bytes : Z := 1024 * 1024.
Definition release_head (c : codec) : codec := set_head (parser_ c) [] 0 c.
(** Whether the head is complete, with the codec. *)
Fixpoint head_loop (fuel : nat) (c : codec) : outcome (bool * codec) :=
  match fuel with
  | O => Failed
  | S fuel =>
      let '(result, parser) := parse_response (parser_ c) (drop (head_offset_ c) (head_bytes_ c)) in
      let c := set_head parser (head_bytes_ c) (head_offset_ c) c in
      match result with
      | HeadNeedMore => if max_head_bytes <=? size (head_bytes_ c) then Failed else Done (false, c)
      | HeadFailure => Failed
      | HeadParsed head consumed plan =>
          let c := set_head parser (head_bytes_ c) (head_offset_ c + consumed) c in
          match plan with
          | Informational =>
              let c := if forward_informational_ config then append_informational_head head c else c in
              let c := if (head_offset_ c =? length (head_bytes_ c))%nat then release_head c else c in
              if forward_informational_ config || empty (head_bytes_ c) then Done (false, c) else head_loop fuel c
          | _ =>
              bind (final_head head plan c) (fun c =>
              bind (consume_body (drop (head_offset_ c) (head_bytes_ c)) c) (fun c => Done (true, release_head c)))
          end
      end
  end.
Definition consume_head (data : bytes) (c : codec) : outcome (bool * codec) :=
  let c := set_head (parser_ c) (head_bytes_ c ++ data) (head_offset_ c) c in
  head_loop (S (length (head_bytes_ c))) c.

End Head.
End Codec.

(** * The set of nominated fields *)

Lemma testbit_split a b n i : 0 <= n -> 0 <= b < 2 ^ n -> 0 <= i -> Z.testbit (a * 2 ^ n + b) i = if i <? n then Z.testbit b i else Z.testbit a (i - n).
Proof.
  intros Hn Hb Hi. rewrite <- lor_shiftl_add by done. rewrite Z.lor_spec, Z.shiftl_spec by done.
  destruct (Z.ltb_spec i n) as [Hlt|Hge]; [by rewrite Z.testbit_neg_r by lia|].
  replace (Z.testbit b i) with false; [by rewrite orb_false_r|]. symmetry. destruct (decide (b = 0)) as [->|]; [by rewrite Z.testbit_0_l|].
  apply Z.bits_above_log2; [lia|]. apply Z.log2_lt_pow2; [lia|]. apply (Z.lt_le_trans _ (2 ^ n)); [lia|]. apply Z.pow_le_mono_r; lia.
Qed.

Lemma countr_zero_spec fuel value : 0 < value < 2 ^ Z.of_nat fuel ->
  let j := countr_zero fuel value in exists m, value = m * 2 ^ (Z.of_nat j + 1) + 2 ^ Z.of_nat j /\ (j < fuel)%nat.
Proof.
  revert value. induction fuel as [|fuel IH]; intros value Hv; [cbn in Hv; lia|]. cbn [countr_zero]. destruct (Z.testbit value 0) eqn:Eb.
  - exists (value / 2). split; [|lia]. change (Z.of_nat 0 + 1) with 1. change (2 ^ 1) with 2. change (2 ^ Z.of_nat 0) with 1.
    rewrite Z.bit0_odd in Eb. pose proof (Zmod_odd value) as Hm. rewrite Eb in Hm. pose proof (Z.div_mod value 2 ltac:(lia)). lia.
  - rewrite Z.shiftr_div_pow2 by lia. change (2 ^ 1) with 2. assert (Hm : value mod 2 = 0).
    { rewrite Z.bit0_odd in Eb. by rewrite Zmod_odd, Eb. }
    pose proof (Z.div_mod value 2 ltac:(lia)) as Hd. rewrite Nat2Z.inj_succ, Z.pow_succ_r in Hv by lia.
    destruct (IH (value / 2)) as (m & Em & Hj); [lia|]. exists m. split; [|lia].
    rewrite Nat2Z.inj_succ. unfold Z.succ. rewrite (Z.pow_add_r 2 (Z.of_nat (countr_zero fuel (value / 2)) + 1) 1), (Z.pow_add_r 2 (Z.of_nat (countr_zero fuel (value / 2))) 1) by lia.
    rewrite Z.pow_add_r in Em by lia. lia.
Qed.

(** The lowest set bit and what is left without it. *)
Lemma lowest_bit value : 0 < value < 2 ^ 64 ->
  let j := Z.of_nat (countr_zero 64 value) in
  0 <= j < 64 /\ (forall i, 0 <= i -> Z.testbit value i = (j =? i) || Z.testbit (Z.land value (value - 1)) i) /\
  (forall i, 0 <= i <= j -> Z.testbit (Z.land value (value - 1)) i = false) /\ 0 <= Z.land value (value - 1) < 2 ^ 64.
Proof.
  intros Hv. cbv zeta. destruct (countr_zero_spec 64 value Hv) as (m & Em & Hj). set (j := Z.of_nat (countr_zero 64 value)) in *.
  assert (Hj' : 0 <= j < 64) by lia. assert (Hpow : 0 < 2 ^ j) by (apply Z.pow_pos_nonneg; lia).
  assert (Hdouble : 2 ^ (j + 1) = 2 * 2 ^ j) by (rewrite Z.pow_add_r by lia; lia).
  assert (Hbits : forall i, 0 <= i -> Z.testbit value i = if i <? j + 1 then j =? i else Z.testbit m (i - (j + 1))).
  { intros i Hi. rewrite Em, testbit_split by lia. destruct (Z.ltb_spec i (j + 1)); [|done]. rewrite Z.pow2_bits_eqb by lia. done. }
  assert (Hbits' : forall i, 0 <= i -> Z.testbit (value - 1) i = if i <? j + 1 then i <? j else Z.testbit m (i - (j + 1))).
  { intros i Hi. replace (value - 1) with (m * 2 ^ (j + 1) + (2 ^ j - 1)) by lia. rewrite testbit_split by lia. destruct (Z.ltb_spec i (j + 1)); [|done].
    replace (2 ^ j - 1) with (Z.ones j) by (rewrite Z.ones_equiv; lia).
    destruct (Z.ltb_spec i j); [by rewrite Z.ones_spec_low by lia|by rewrite Z.ones_spec_high by lia]. }
  assert (Hland : Z.land value (value - 1) = m * 2 ^ (j + 1)).
  { apply Z.bits_inj'. intros i Hi. rewrite Z.land_spec, Hbits, Hbits' by done. rewrite <- (Z.add_0_r (m * 2 ^ (j + 1))), testbit_split, Z.testbit_0_l by lia.
    destruct (Z.ltb_spec i (j + 1)), (Z.eqb_spec j i), (Z.ltb_spec i j); try lia; try done; by destruct (Z.testbit m _). }
  split; [done|]. split_and!.
  - intros i Hi. rewrite Z.land_spec, Hbits, Hbits' by done. destruct (Z.ltb_spec i (j + 1)), (Z.eqb_spec j i), (Z.ltb_spec i j); try lia; try done;
      by destruct (Z.testbit m _).
  - intros i Hi. rewrite Z.land_spec, Hbits, Hbits' by lia. destruct (Z.ltb_spec i (j + 1)), (Z.eqb_spec j i), (Z.ltb_spec i j); try lia; done.
  - rewrite Hland, Hdouble. rewrite Hdouble in Em. assert (0 <= m) by (clear - Em Hv Hpow; nia). nia.
  - rewrite Hland. lia.
Qed.

Section Nominated.
Context (fields : headers_view).

Definition names_field (option : bytes) (i : nat) : bool := match fields !! i with Some (name, _) => ascii_equal option name | None => false end.

Lemma nominate_loop_spec fuel option remaining nominated k i : 0 <= remaining < 2 ^ 64 -> (64 <= fuel + k)%nat ->
  (forall i, 0 <= i < Z.of_nat k -> Z.testbit remaining i = false) ->
  Z.testbit (nominate_loop fuel fields option remaining nominated) (Z.of_nat i) =
    Z.testbit nominated (Z.of_nat i) || Z.testbit remaining (Z.of_nat i) && names_field option i.
Proof.
  revert remaining nominated k. induction fuel as [|fuel IH]; intros remaining nominated k Hr Hk Hlow; cbn [nominate_loop].
  - assert (Hb : Z.testbit remaining (Z.of_nat i) = false).
    { destruct (decide (i < k)%nat); [apply Hlow; lia|]. destruct (decide (remaining = 0)) as [->|]; [apply Z.testbit_0_l|].
      apply Z.bits_above_log2; [lia|]. apply Z.log2_lt_pow2; [lia|]. apply (Z.lt_le_trans _ (2 ^ 64)); [lia|]. apply Z.pow_le_mono_r; lia. }
    by rewrite Hb, orb_false_r.
  - destruct (Z.eqb_spec remaining 0) as [->|Hne]; [by rewrite Z.testbit_0_l, orb_false_r|].
    destruct (lowest_bit remaining ltac:(lia)) as (Hj & Hsplit & Hclear & Hrest). set (j := countr_zero 64 remaining) in *.
    assert (Hkj : (k <= j)%nat).
    { destruct (decide (k <= j)%nat); [done|]. assert (Hf : Z.testbit remaining (Z.of_nat j) = false) by (apply Hlow; lia).
      rewrite Hsplit, Z.eqb_refl in Hf by lia. done. }
    rewrite (IH _ _ (S j)); [|done|lia|intros x Hx; apply Hclear; lia]. rewrite (Hsplit (Z.of_nat i)) by lia.
    assert (Hset : Z.testbit (match fields !! j with Some (name, _) => if ascii_equal option name then Z.lor nominated (Z.shiftl 1 (Z.of_nat j)) else nominated | None => nominated end) (Z.of_nat i)
      = Z.testbit nominated (Z.of_nat i) || (Z.of_nat j =? Z.of_nat i) && names_field option j).
    { unfold names_field. destruct (fields !! j) as [[name value]|]; [|by rewrite andb_false_r, orb_false_r].
      destruct (ascii_equal option name); [|by rewrite andb_false_r, orb_false_r]. rewrite Z.lor_spec, andb_true_r. f_equal.
      rewrite Z.shiftl_mul_pow2, Z.mul_1_l, Z.pow2_bits_eqb by lia. done. }
    rewrite Hset. destruct (Z.eqb_spec (Z.of_nat j) (Z.of_nat i)) as [Hji|Hji].
    + apply Nat2Z.inj in Hji as <-. rewrite (Hclear (Z.of_nat j)) by lia. cbn [andb orb]. by rewrite orb_false_r.
    + cbn [andb orb]. by rewrite orb_false_r.
Qed.

Lemma all_fields_bits n i : (n <= 64)%nat -> 0 <= i -> Z.testbit (all_fields n) i = (i <? Z.of_nat n).
Proof.
  intros Hn Hi. unfold all_fields. destruct (Nat.eqb_spec n 64) as [->|]; [change (two64 - 1) with (Z.ones 64)|rewrite Z.shiftl_mul_pow2, Z.mul_1_l by lia; change (2 ^ Z.of_nat n - 1) with (Z.pred (2 ^ Z.of_nat n)); rewrite <- Z.ones_equiv].
  - change (Z.of_nat 64) with 64. destruct (Z.ltb_spec i 64); [by rewrite Z.ones_spec_low by lia|by rewrite Z.ones_spec_high by lia].
  - destruct (Z.ltb_spec i (Z.of_nat n)); [by rewrite Z.ones_spec_low by lia|by rewrite Z.ones_spec_high by lia].
Qed.

Lemma bits_bound x n : 0 <= x -> 0 <= n -> (forall i, n <= i -> Z.testbit x i = false) -> x < 2 ^ n.
Proof.
  intros Hx Hn Hbits. destruct (Z.lt_ge_cases x (2 ^ n)) as [|Hge]; [done|]. pose proof (Z.pow_pos_nonneg 2 n ltac:(lia) Hn).
  pose proof (Z.bit_log2 x ltac:(lia)) as Hb. rewrite Hbits in Hb; [done|]. apply Z.log2_le_pow2; lia.
Qed.

(** A value of Connection names a field when one of its parts does. *)
Definition named_by (value : bytes) (i : nat) : bool :=
  existsb (fun part => negb (empty (trim_ows part)) && names_field (trim_ows part) i) (split_on "," value).

Lemma options_loop_spec fuel value nominated i : (length fields <= 64)%nat -> (i < length fields)%nat -> (length value < fuel)%nat ->
  Z.testbit (options_loop fuel fields value nominated) (Z.of_nat i) = Z.testbit nominated (Z.of_nat i) || named_by value i.
Proof.
  intros Hfields Hi. revert value nominated. induction fuel as [|fuel IH]; intros value nominated Hfuel; [lia|]. cbn [options_loop].
  destruct value as [|c value]; cbn [empty]; [by rewrite orb_false_r|]. unfold named_by. rewrite split_on_step.
  set (part := upto (find_char "," (c :: value)) (c :: value)).
  set (step := if empty (trim_ows part) then nominated else _).
  assert (Hstep : Z.testbit step (Z.of_nat i) = Z.testbit nominated (Z.of_nat i) || negb (empty (trim_ows part)) && names_field (trim_ows part) i).
  { subst step. destruct (empty (trim_ows part)); [by rewrite orb_false_r|]. cbn [negb andb].
    assert (Hpos : 0 <= Z.ldiff (all_fields (length fields)) nominated).
    { apply Z.ldiff_nonneg. left. unfold all_fields. destruct (_ =? 64)%nat; [done|]. rewrite Z.shiftl_mul_pow2 by lia. pose proof (Z.pow_pos_nonneg 2 (Z.of_nat (length fields)) ltac:(lia) ltac:(lia)). lia. }
    rewrite (nominate_loop_spec 64 _ _ _ 0); [|split; [done|]|lia|lia].
    - rewrite Z.ldiff_spec, all_fields_bits by lia. destruct (Z.ltb_spec (Z.of_nat i) (Z.of_nat (length fields))); [|lia]. by destruct (Z.testbit nominated _).
    - apply bits_bound; [done|lia|]. intros x Hx. rewrite Z.ldiff_spec, all_fields_bits by lia. destruct (Z.ltb_spec x (Z.of_nat (length fields))); [lia|done]. }
  destruct (find_char "," (c :: value)) as [n|] eqn:E; cbn [existsb]; cbn [upto] in part; fold part.
  - rewrite IH by (rewrite length_drop; cbn [length] in *; lia). unfold named_by. by rewrite Hstep, orb_assoc.
  - by rewrite Hstep, orb_false_r.
Qed.

Definition nominated_in (l : headers_view) (i : nat) : bool := existsb (fun '(name, value) => ascii_equal name (lit "Connection") && named_by value i) l.
Lemma connection_fold_spec l nominated i : (length fields <= 64)%nat -> (i < length fields)%nat ->
  Z.testbit (fold_left (fun nominated '(name, value) =>
    if ascii_equal name (lit "Connection") then options_loop (S (length value)) fields value nominated else nominated) l nominated) (Z.of_nat i)
  = Z.testbit nominated (Z.of_nat i) || nominated_in l i.
Proof.
  intros Hfields Hi. revert nominated. induction l as [|[name value] l IH]; intros nominated; cbn [fold_left nominated_in existsb]; [by rewrite orb_false_r|].
  rewrite IH. destruct (ascii_equal name (lit "Connection")); cbn [andb]; [|done]. rewrite options_loop_spec by (done || lia). by rewrite orb_assoc.
Qed.
End Nominated.

(** Whether the Connection fields of a head name its field [i]. *)
Definition nominated (head : client_response_head) (i : nat) : bool := nominated_in (response_headers_ head) (response_headers_ head) i.
Lemma connection_fields_bits head i : (length (response_headers_ head) <= 64)%nat -> (i < length (response_headers_ head))%nat ->
  Z.testbit (connection_fields head) (Z.of_nat i) = nominated head i.
Proof. intros Hl Hi. unfold connection_fields. cbv zeta. rewrite connection_fold_spec by done. by rewrite Z.testbit_0_l. Qed.

Lemma marked_lookup fields nominations i field flag :
  marked fields nominations !! i = Some (field, flag) <-> fields !! i = Some field /\ flag = Z.testbit nominations (Z.of_nat i).
Proof.
  revert nominations i. induction fields as [|x fields IH]; intros nominations [|i]; cbn [marked lookup list_lookup]; try by (split; [|intros [? ?]]).
  - assert (Hbit : negb (Z.land nominations 1 =? 0) = Z.testbit nominations 0).
    { change 1 with (Z.ones 1). rewrite Z.land_ones by lia. change (2 ^ 1) with 2. rewrite Zmod_odd, Z.bit0_odd. by destruct (Z.odd nominations). }
    change (Z.of_nat 0) with 0. rewrite Hbit. split; [by intros [= -> <-]|by intros [[= ->] ->]].
  - rewrite IH, Z.shiftr_spec by lia. by rewrite Nat2Z.inj_succ, <- Z.add_1_r.
Qed.
Lemma marked_elem fields nominations field flag : (field, flag) ∈ marked fields nominations <->
  exists i, fields !! i = Some field /\ flag = Z.testbit nominations (Z.of_nat i).
Proof. rewrite list_elem_of_lookup. by setoid_rewrite marked_lookup. Qed.

(** * The client's head *)

Lemma values_app name a b : RouteRules.header_values name (a ++ b) = RouteRules.header_values name a ++ RouteRules.header_values name b.
Proof. unfold RouteRules.header_values. by rewrite List.filter_app, map_app. Qed.
Lemma values_none name l : (forall field, field ∈ l -> ascii_equal (fst field) name = false) -> RouteRules.header_values name l = [].
Proof.
  unfold RouteRules.header_values. induction l as [|[n v] l IH]; [done|]. intros Hl. cbn [List.filter]. pose proof (Hl (n, v) ltac:(left)) as Hn. cbn [fst] in Hn.
  rewrite Hn. apply IH. intros field Hf. apply Hl. by right.
Qed.
Lemma ascii_equal_trans_l a b c : ascii_equal a b = true -> ascii_equal a c = ascii_equal b c.
Proof. intros E%ascii_equal_spec. apply eq_bool_prop_intro. rewrite !Is_true_true, !ascii_equal_spec. by rewrite E. Qed.

Section Heads.
Context `{ResponseLibrary} `{HttpDate} `{CodingLibrary} (config : setup).

(** What the representation makes of a field keeps its name. *)
Lemma representation_field_name k d name value field : representation_field config k d name value = Some field ->
  fst field = name /\ (snd field = value \/ snd field = lit "W/" ++ value).
Proof. unfold representation_field. repeat case_match; try done; intros [= <-]; (split; [done|]); cbn; tauto. Qed.

Lemma origin_fields_in c head field : (length (response_headers_ head) <= 64)%nat ->
  field ∈ origin_fields config c head (connection_fields head) ->
  exists i value, response_headers_ head !! i = Some (fst field, value) /\ (snd field = value \/ snd field = lit "W/" ++ value) /\
    dropped config c (response_status_ head) (fst field) (nominated head i) = false /\
    representation_field config (caching_ c) (coding_ c) (fst field) value = Some field.
Proof.
  intros Hl Hf. unfold origin_fields in Hf. apply list_elem_of_omap in Hf as ([[name value] flag] & Hin & He).
  apply marked_elem in Hin as (i & Hi & ->). assert (Hlt : (i < length (response_headers_ head))%nat) by by eapply lookup_lt_Some.
  rewrite connection_fields_bits in He by done. destruct (dropped _ _ _ _ _) eqn:Ed; [done|].
  pose proof (representation_field_name _ _ _ _ _ He) as [Hn Hv]. exists i, value. by rewrite Hn.
Qed.
Lemma routed_fields_in k d field : field ∈ routed_fields config k d ->
  exists mutation, mutation ∈ route_headers config /\ fst field = mutation_name mutation /\ representation_field config k d (mutation_name mutation) (mutation_value mutation) = Some field.
Proof.
  intros Hf. unfold routed_fields in Hf. apply list_elem_of_omap in Hf as (mutation & Hin & He). destruct (ascii_equal _ _); [done|].
  pose proof (representation_field_name _ _ _ _ _ He) as [Hn _]. eauto.
Qed.
Lemma routed_none name k d : routed config name = false -> RouteRules.header_values name (routed_fields config k d) = [].
Proof.
  intros Hr. apply values_none. intros field (mutation & Hin & -> & _)%routed_fields_in. apply not_true_iff_false. intros He.
  apply not_true_iff_false in Hr. apply Hr, existsb_exists. exists mutation. rewrite <- list_elem_of_In, ascii_equal_sym. done.
Qed.

(** A compressed head takes none of the fields that describe the body. *)
Lemma representation_no_body k d name value : compressed_ d = true -> existsb (ascii_equal name) body_fields = true -> representation_field config k d name value = None.
Proof.
  intros Hc Hb. unfold representation_field. rewrite Hc, Hb. assert (He : ascii_equal name (lit "ETag") = false).
  { apply not_true_iff_false. intros He. apply existsb_exists in Hb as (n & Hin & Hn). rewrite (ascii_equal_trans_l _ _ _ He) in Hn.
    cbn in Hin. repeat destruct Hin as [<-|Hin]; done. }
  rewrite He, andb_false_r. cbn [andb]. by repeat case_match.
Qed.
Lemma body_field name n : In n body_fields -> ascii_equal name n = true -> existsb (ascii_equal name) body_fields = true.
Proof. intros Hn He. apply existsb_exists. eauto. Qed.

Lemma representation_fields_names d name : ascii_equal (lit "Vary") name = false -> ascii_equal (lit "Content-Encoding") name = false ->
  RouteRules.header_values name (representation_fields d) = [].
Proof.
  intros Hv He. unfold representation_fields. rewrite values_app. unfold RouteRules.header_values.
  destruct (empty (vary_ d)), (compressed_ d); cbn [List.filter map app]; rewrite ?Hv, ?He; done.
Qed.
Lemma range_head_names c name : Forall (fun n => ascii_equal n name = false) range_fields -> RouteRules.header_values name (range_head_fields c) = [].
Proof.
  intros Hn. apply values_none. intros field Hf. unfold range_head_fields in Hf. destruct (active_range c) as [r|]; [|by apply elem_of_nil in Hf].
  rewrite Forall_forall in Hn. apply Hn. rewrite !elem_of_app in Hf. destruct Hf as [->%list_elem_of_singleton|[Hf|Hf]]; [by apply (bool_decide_unpack _)| |].
  - destruct (empty _); [by apply elem_of_nil in Hf|]. apply list_elem_of_singleton in Hf as ->. by apply (bool_decide_unpack _).
  - destruct (empty _); [by apply elem_of_nil in Hf|]. apply list_elem_of_singleton in Hf as ->. by apply (bool_decide_unpack _).
Qed.
Lemma origin_dropped c head name : (length (response_headers_ head) <= 64)%nat ->
  (forall n flag, ascii_equal n name = true -> dropped config c (response_status_ head) n flag = true) ->
  RouteRules.header_values name (origin_fields config c head (connection_fields head)) = [].
Proof.
  intros Hl Hd. apply values_none. intros field (i & value & _ & _ & Hdrop & _)%origin_fields_in; [|done].
  apply not_true_iff_false. intros He. rewrite Hd in Hdrop; done.
Qed.

Lemma replaced_dropped c status name flag : replaced config (caching_ c) false name = true -> dropped config c status name flag = true.
Proof. intros Hr. unfold dropped. cbv zeta. by rewrite Hr, !orb_true_r. Qed.

Definition closing_names : list bytes := [lit "Cache-Control"; lit "X-Cache"; lit "Connection"; lit "Strict-Transport-Security"].
Definition own_names : list bytes := [lit "Vary"; lit "Content-Encoding"; lit "Transfer-Encoding"] ++ range_fields ++ closing_names.

(** The one value of a field that only [closing_fields] sets. *)
Lemma closing_only c head name : (length (response_headers_ head) <= 64)%nat -> In name closing_names -> routed config name = false ->
  (forall n flag, ascii_equal n name = true -> dropped config c (response_status_ head) n flag = true) ->
  RouteRules.header_values name (head_fields config c head (connection_fields head)) = RouteRules.header_values name (closing_fields config c).
Proof.
  intros Hl Hn Hr Hd. unfold head_fields. rewrite !values_app, origin_dropped, routed_none by done.
  rewrite representation_fields_names, range_head_names by (cbn in Hn; repeat destruct Hn as [<-|Hn]; try done; repeat constructor).
  cbn [app]. assert (Ht : RouteRules.header_values name (if compressed_ (coding_ c) then [(lit "Transfer-Encoding", lit "chunked")] else []) = []).
  { destruct (compressed_ (coding_ c)); [|done]. cbn in Hn. repeat destruct Hn as [<-|Hn]; done. }
  by rewrite Ht.
Qed.

Lemma hop_name_dropped c status n flag name : tunnel_ c = false -> In name hop_by_hop_names -> ascii_equal name (lit "Transfer-Encoding") = false ->
  ascii_equal n name = true -> dropped config c status n flag = true.
Proof.
  intros Ht Hn Hte He. unfold dropped. rewrite Ht. cbn [andb negb]. assert (Hh : hop_by_hop n = true) by (apply existsb_exists; eauto).
  rewrite Hh, (ascii_equal_trans_l _ _ _ He), Hte. cbn [orb negb andb]. by rewrite !orb_true_r.
Qed.


(** A compressed response is framed by fresh chunks alone: whatever framing the origin or the route
    names, the client sees one Transfer-Encoding and no Content-Length. *)
Theorem compressed_framing c head : (length (response_headers_ head) <= 64)%nat -> compressed_ (coding_ c) = true -> active_range c = None ->
  let fields := head_fields config c head (connection_fields head) in
  RouteRules.header_values (lit "Transfer-Encoding") fields = [lit "chunked"] /\ RouteRules.header_values (lit "Content-Length") fields = [] /\
  RouteRules.header_values (lit "Content-Encoding") fields = [content_encoding_ (coding_ c)].
Proof.
  intros Hl Hc Ha. cbv zeta.
  assert (Hnone : forall name, In name body_fields -> RouteRules.header_values name (origin_fields config c head (connection_fields head)) = [] /\
    RouteRules.header_values name (routed_fields config (caching_ c) (coding_ c)) = []).
  { intros name Hn. split; apply values_none; intros field Hf; apply not_true_iff_false; intros He.
    - apply origin_fields_in in Hf as (i & value & _ & _ & _ & Hrep); [|done]. rewrite representation_no_body in Hrep; [done|done|by eapply body_field].
    - apply routed_fields_in in Hf as (mutation & _ & Hn' & Hrep). rewrite Hn' in He. rewrite representation_no_body in Hrep; [done|done|by eapply body_field]. }
  unfold head_fields. rewrite !values_app, Hc. unfold range_head_fields. rewrite Ha. unfold representation_fields. rewrite Hc, !values_app.
  assert (Hclosing : forall name, In name body_fields -> RouteRules.header_values name (closing_fields config c) = []).
  { intros name Hn. apply values_none. intros field Hf. unfold closing_fields in Hf. cbv zeta in Hf.
    assert (Hall : Forall (fun field => fst field ∈ closing_names) (closing_fields config c)).
    { unfold closing_fields. cbv zeta. repeat (apply Forall_app; split); [repeat case_match|destruct (empty _)|destruct (tunnel_ c), (hsts_enabled_ config)]; repeat constructor; by apply (bool_decide_unpack _). }
    rewrite Forall_forall in Hall. specialize (Hall field Hf). apply list_elem_of_In in Hall. cbn in Hall. cbn in Hn.
    repeat destruct Hall as [<-|Hall]; try done; repeat destruct Hn as [<-|Hn]; done. }
  split_and!.
  - destruct (Hnone (lit "Transfer-Encoding")) as [-> ->]; [by right; left|]. rewrite Hclosing by (by right; left). by destruct (empty (vary_ _)).
  - destruct (Hnone (lit "Content-Length")) as [-> ->]; [by left|]. rewrite Hclosing by (by left). by destruct (empty (vary_ _)).
  - destruct (Hnone (lit "Content-Encoding")) as [-> ->]; [by do 3 right; left|]. rewrite Hclosing by (by do 3 right; left). by destruct (empty (vary_ _)).
Qed.
End Heads.

(** * Bodies *)

Section Bodies.
Context `{ResponseLibrary} `{HttpDate} `{CodingLibrary}.

(** The pieces of a body, one read after the other. *)
Fixpoint feed_body (pieces : list bytes) (c : codec) : outcome codec :=
  match pieces with [] => Done c | piece :: pieces => bind (consume_body piece c) (feed_body pieces) end.

Definition capture_of (c : codec) : bytes := capture_output_ (caching_ c).
Definition capturing (c : codec) : bool := present (captured_ (caching_ c)).
Definition when (condition : bool) (data : bytes) : bytes := if condition then data else [].

Lemma capture_spec data c : capture_of (capture data c) = capture_of c ++ when (capturing c) data /\ capturing (capture data c) = capturing c /\
  output_ (capture data c) = output_ c /\ framing_ (capture data c) = framing_ c /\ ranges_ (capture data c) = ranges_ c /\ coding_ (capture data c) = coding_ c.
Proof.
  unfold capture_of, capturing, capture. destruct (captured_ (caching_ c)) eqn:E; cbn; rewrite ?E; cbn; [done|]. by rewrite app_nil_r.
Qed.

(** A body of known length with [n] bytes to come, as it is. *)
Record relaying (c : codec) (n : Z) : Prop := Relaying {
  relaying_kind : body_kind_ (framing_ c) = known_length; relaying_left : remaining_ (framing_ c) = n; relaying_done : complete c = (n =? 0);
  relaying_plain : compressor_ (coding_ c) = None; relaying_same : compressed_ (coding_ c) = false }.

Lemma relay_spec data c : framing_ (relay data c) = framing_ c /\ coding_ (relay data c) = coding_ c /\ caching_ (relay data c) = caching_ c.
Proof.
  unfold relay. destruct (compressed_ _); [done|]. destruct (active_range c) as [r|]; [|done]. destruct (consume _ _ _) as [taken r'].
  unfold set_active_range. by repeat case_match.
Qed.

(** One piece of it. *)
Lemma consume_relayed c n data : relaying c n -> 0 <= n ->
  if n <? size data then consume_body data c = Failed
  else exists c', consume_body data c = Done c' /\ relaying c' (n - size data) /\ capture_of c' = capture_of c ++ when (capturing c) data /\ capturing c' = capturing c /\
    (n <> 0 -> let relayed := relay data (capture data (spend (size data) c)) in output_ c' = output_ relayed /\ ranges_ c' = ranges_ relayed) /\
    (n = 0 -> data = [] /\ c' = c).
Proof.
  intros [Hk Hl Hd Hp Hs] Hn. assert (Hsize : 0 <= size data) by (unfold size; lia). unfold consume_body. rewrite Hd, Hk, Hl.
  destruct (Z.eqb_spec n 0) as [->|Hne].
  - destruct data as [|x data]; [|done]. cbn. exists c. split; [done|]. split; [by split|]. split; [by destruct (capturing c); rewrite app_nil_r|]. done.
  - destruct (Z.ltb_spec n (size data)) as [|Hle]; [done|]. unfold retain. change (coding_ (spend (size data) c)) with (coding_ c). rewrite Hp. cbn [bind].
    destruct (capture_spec data (spend (size data) c)) as (Hcap & Hcg & _ & Hf & _ & Hc). change (capture_of (spend (size data) c)) with (capture_of c) in Hcap.
    change (capturing (spend (size data) c)) with (capturing c) in *. change (coding_ (spend (size data) c)) with (coding_ c) in Hc.
    set (captured := capture data (spend (size data) c)) in *. destruct (relay_spec data captured) as (Rf & Rc & Rk). set (relayed := relay data captured) in *.
    assert (Hrem : framing_ relayed = framing_ (spend (size data) c)) by by rewrite Rf, Hf.
    assert (Hcod : coding_ relayed = coding_ c) by by rewrite Rc, Hc.
    assert (Hcapr : capture_of relayed = capture_of c ++ when (capturing c) data) by (unfold capture_of in *; by rewrite Rk).
    assert (Hcgr : capturing relayed = capturing c) by (unfold capturing in *; by rewrite Rk).
    rewrite Hrem. cbn [spend set_framing framing_ remaining_]. rewrite Hl. destruct (Z.eqb_spec (n - size data) 0) as [Hz|Hz].
    + unfold finish_body. rewrite Hcod, Hp. exists (set_complete relayed). split; [done|]. split; [|done].
      split; try done; unfold complete, set_complete; cbn; rewrite ?Hrem, ?Hcod; cbn; rewrite ?Hl; try done. by rewrite Hz.
    + exists relayed. split; [done|]. split; [|done]. split; unfold complete; rewrite ?Hrem, ?Hcod; cbn; rewrite ?Hl; try done.
      unfold complete in Hd. rewrite Hd. destruct (Z.eqb_spec n 0), (Z.eqb_spec (n - size data) 0); done || lia.
Qed.

Lemma output_plain data c n : active_range c = None -> compressed_ (coding_ c) = false ->
  let relayed := relay data (capture data (spend n c)) in output_ relayed = output_ c ++ data /\ active_range relayed = None.
Proof.
  intros Ha Hs. cbv zeta. destruct (capture_spec data (spend n c)) as (_ & _ & Ho & _ & Hr & Hc). unfold relay. rewrite Hc. cbn [spend set_framing coding_]. rewrite Hs.
  assert (Ha' : active_range (capture data (spend n c)) = None) by (unfold active_range in *; by rewrite Hr). rewrite Ha'. cbn [emit output_]. by rewrite Ho.
Qed.

(** C27. A body of known length that is relayed as it is: however it arrives, the client gets exactly
    its bytes and so does the cache, the response is complete with the last of them, and a byte more
    is an error. *)
Theorem relay_exact pieces : forall c n, relaying c n -> 0 <= n -> active_range c = None ->
  if n <? size (concat pieces) then feed_body pieces c = Failed
  else exists c', feed_body pieces c = Done c' /\ output_ c' = output_ c ++ concat pieces /\ capture_of c' = capture_of c ++ when (capturing c) (concat pieces) /\
    complete c' = (size (concat pieces) =? n).
Proof.
  induction pieces as [|piece pieces IH]; intros c n Hc Hn Ha; cbn [concat feed_body].
  - change (size []) with 0. destruct (Z.ltb_spec n 0); [lia|]. exists c. split; [done|]. split; [by rewrite app_nil_r|].
    split; [destruct (capturing c); by rewrite app_nil_r|]. rewrite (relaying_done c n Hc). apply eq_bool_prop_intro. rewrite !Is_true_true, !Z.eqb_eq. lia.
  - assert (Hsize : size (piece ++ concat pieces) = size piece + size (concat pieces)) by (unfold size; rewrite length_app; lia).
    assert (0 <= size (concat pieces)) by (unfold size; lia). pose proof (consume_relayed c n piece Hc Hn) as Hstep. rewrite Hsize.
    destruct (Z.ltb_spec n (size piece)) as [Hlt|Hle].
    + rewrite Hstep. destruct (Z.ltb_spec n (size piece + size (concat pieces))); [done|lia].
    + destruct Hstep as (c1 & -> & Hc1 & Hcap & Hcg & Hout & Hzero). cbn [bind].
      assert (Hplain : output_ c1 = output_ c ++ piece /\ active_range c1 = None).
      { destruct (decide (n = 0)) as [Hz|Hz]; [destruct (Hzero Hz) as [-> ->]; by rewrite app_nil_r|]. destruct (Hout Hz) as [Ho Hr].
        destruct (output_plain piece c (size piece) Ha (relaying_same c n Hc)) as [Hp Hq]. split; [by rewrite Ho|]. unfold active_range in *. by rewrite Hr. }
      destruct Hplain as [Ho Ha1]. specialize (IH c1 (n - size piece) Hc1 ltac:(lia) Ha1).
      destruct (Z.ltb_spec (n - size piece) (size (concat pieces))), (Z.ltb_spec n (size piece + size (concat pieces))); try lia; [done|].
      destruct IH as (c2 & Hf & Ho2 & Hcap2 & Hd2). exists c2. split; [done|]. split; [by rewrite Ho2, Ho, app_assoc|]. split.
      * rewrite Hcap2, Hcap, Hcg, <- app_assoc. by destruct (capturing c).
      * rewrite Hd2. apply eq_bool_prop_intro. rewrite !Is_true_true, !Z.eqb_eq. lia.
Qed.

Lemma output_ranged data c n r : active_range c = Some r -> compressed_ (coding_ c) = false ->
  let relayed := relay data (capture data (spend n c)) in
  output_ relayed = output_ c ++ fst (consume r data (range_offset_ (ranges_ c))) /\ active_range relayed = Some (snd (consume r data (range_offset_ (ranges_ c)))) /\
  range_offset_ (ranges_ relayed) = range_offset_ (ranges_ c) + size data.
Proof.
  intros Ha Hs. cbv zeta. destruct (capture_spec data (spend n c)) as (_ & _ & Ho & _ & Hr & Hc). unfold relay. rewrite Hc. cbn [spend set_framing coding_]. rewrite Hs.
  assert (Ha' : active_range (capture data (spend n c)) = Some r) by (unfold active_range in *; by rewrite Hr). rewrite Ha'. rewrite Hr.
  change (ranges_ (spend n c)) with (ranges_ c) in *. change (output_ (spend n c)) with (output_ c) in Ho.
  destruct (consume r data (range_offset_ (ranges_ c))) as [taken r'] eqn:E. cbn [fst snd].
  unfold set_active_range. cbn [emit ranges_]. rewrite Hr. unfold active_range in Ha. change (ranges_ (spend n c)) with (ranges_ c).
  destruct (origin_range_ (ranges_ c)) as [origin|] eqn:Eo; [destruct (origin_response_ origin) as [x|] eqn:Ex|]; cbn; rewrite ?Ho, ?Ex; done.
Qed.

Lemma ranged_feed pieces : forall c n r, relaying c n -> active_range c = Some r -> Forall (fun piece => piece <> []) pieces -> size (concat pieces) <= n ->
  exists c', feed_body pieces c = Done c' /\ output_ c' = output_ c ++ fst (feed r pieces (range_offset_ (ranges_ c))) /\
    capture_of c' = capture_of c ++ when (capturing c) (concat pieces) /\ complete c' = (size (concat pieces) =? n).
Proof.
  induction pieces as [|piece pieces IH]; intros c n r Hc Ha Hne Hn; cbn [concat feed_body feed].
  - exists c. split; [done|]. split; [by rewrite app_nil_r|]. split; [destruct (capturing c); by rewrite app_nil_r|].
    rewrite (relaying_done c n Hc). apply eq_bool_prop_intro. rewrite !Is_true_true, !Z.eqb_eq. cbn [concat] in *. unfold size. cbn [length]. lia.
  - assert (Hsize : size (piece ++ concat pieces) = size piece + size (concat pieces)) by (unfold size; rewrite length_app; lia).
    cbn [concat] in Hn. rewrite Hsize in Hn |- *. assert (0 <= size (concat pieces)) by (unfold size; lia). apply Forall_cons in Hne as [Hp Hne].
    assert (0 < size piece) by (destruct piece; [done|unfold size; cbn [length]; lia]).
    pose proof (consume_relayed c n piece Hc ltac:(lia)) as Hstep. destruct (Z.ltb_spec n (size piece)); [lia|].
    destruct Hstep as (c1 & -> & Hc1 & Hcap & Hcg & Hout & _). cbn [bind]. destruct (Hout ltac:(lia)) as [Ho Hr].
    destruct (output_ranged piece c (size piece) r Ha (relaying_same c n Hc)) as (Ho' & Ha' & Hoff).
    destruct (consume r piece (range_offset_ (ranges_ c))) as [out r1]. cbn [fst snd] in *. rewrite <- Hr in Hoff.
    destruct (IH c1 (n - size piece) r1 Hc1) as (c2 & Hf & Ho2 & Hcap2 & Hd2); [unfold active_range in *; by rewrite Hr|done|lia|].
    exists c2. split; [done|]. rewrite Hoff in Ho2. destruct (feed r1 pieces (range_offset_ (ranges_ c) + size piece)) as [rest r2]. cbn [fst] in *. split; [by rewrite Ho2, Ho, Ho', <- app_assoc|]. split.
    + rewrite Hcap2, Hcap, Hcg, <- app_assoc. by destruct (capturing c).
    + rewrite Hd2. apply eq_bool_prop_intro. rewrite !Is_true_true, !Z.eqb_eq. lia.
Qed.

(** C28. A range the client asked for is cut out of the origin's whole response on the way: however the
    body arrives, the client gets the body of the range response and the cache the whole object. *)
Theorem ranged_relay body c request partial ctype random pieces : is_u64 (size body) ->
  relaying c (size body) -> active_range c = Some (new_response request (size body) partial ctype random) -> range_offset_ (ranges_ c) = 0 ->
  Forall (fun piece => piece <> []) pieces -> concat pieces = body ->
  exists c', feed_body pieces c = Done c' /\ complete c' = true /\ capture_of c' = capture_of c ++ when (capturing c) body /\
    output_ c' = output_ c ++ client_body body (new_response request (size body) partial ctype random).
Proof.
  intros Hu Hc Ha Hoff Hne Hcat. destruct (ranged_feed pieces c _ _ Hc Ha Hne) as (c' & Hf & Ho & Hcap & Hd); [rewrite Hcat; lia|].
  rewrite Hcat in Hcap, Hd. exists c'. split; [done|]. split; [by rewrite Hd, Z.eqb_refl|]. split; [done|]. rewrite Ho, Hoff.
  pose proof (feed_whole body Hu request partial ctype random pieces Hcat) as Hw. cbv zeta in Hw.
  destruct (feed _ pieces 0) as [out r']. cbn [fst]. by destruct Hw as [-> _].
Qed.

(** ** Compressed bodies *)

(** What the codec has emitted and captured since some point: chunks of some pieces, and the last chunk. *)
Record streamed (c c' : codec) (pieces : list bytes) : Prop := Streamed {
  streamed_output : output_ c' = output_ c ++ concat (map chunk_text pieces) ++ when (complete c' && negb (complete c)) last_chunk;
  streamed_capture : capture_of c' = capture_of c ++ when (capturing c) (concat pieces); streamed_capturing : capturing c' = capturing c;
  streamed_pieces : Forall (fun piece => piece <> []) pieces; streamed_compressed : compressed_ (coding_ c') = compressed_ (coding_ c);
  streamed_kind : body_kind_ (framing_ c') = body_kind_ (framing_ c);
  streamed_order : complete c = true -> complete c' = true;
  streamed_encoder : complete c' = negb (present (compressor_ (coding_ c'))) }.

Definition encoding (c : codec) : Prop := compressed_ (coding_ c) = true /\ complete c = negb (present (compressor_ (coding_ c))).

Lemma streamed_refl c : encoding c -> streamed c c [].
Proof.
  intros [Hc He]. split; try done; cbn; [|by destruct (capturing c); rewrite app_nil_r]. destruct (complete c); by rewrite app_nil_r.
Qed.
Lemma streamed_trans c1 c2 c3 p q : streamed c1 c2 p -> streamed c2 c3 q -> (complete c2 = true -> q = []) -> streamed c1 c3 (p ++ q).
Proof.
  intros [O1 C1 G1 P1 D1 K1 N1 E1] [O2 C2 G2 P2 D2 K2 N2 E2] Hq. split; try congruence; auto.
  - rewrite O2, O1, map_app, concat_app, <- !app_assoc. f_equal. f_equal. destruct (complete c2) eqn:Ed; cbn [negb andb] in *.
    + rewrite (Hq eq_refl), (N2 eq_refl). cbn [map concat app andb negb when]. by rewrite app_nil_r.
    + rewrite !andb_true_r. destruct (complete c1); [pose proof (N1 eq_refl); congruence|]. cbn [negb when app]. by rewrite ?andb_true_r.
  - rewrite C2, C1, G1, <- app_assoc, concat_app. by destruct (capturing c1).
  - by apply Forall_app.
Qed.

Lemma append_chunk_spec data c : output_ (append_chunk data c) = output_ c ++ concat (map chunk_text (if empty data then [] else [data])) /\
  capture_of (append_chunk data c) = capture_of c ++ when (capturing c) data /\ capturing (append_chunk data c) = capturing c /\
  framing_ (append_chunk data c) = framing_ c /\ coding_ (append_chunk data c) = coding_ c.
Proof.
  destruct (capture_spec data c) as (Hc & Hg & Ho & Hf & _ & Hd). unfold append_chunk. destruct (empty data); cbn [map concat]; [by rewrite app_nil_r|].
  cbn [emit output_ framing_ coding_]. rewrite Ho, app_nil_r. done.
Qed.
Lemma piece_of (data : bytes) : concat (if empty data then [] else [data]) = data /\ Forall (fun piece => piece <> []) (if empty data then [] else [data]).
Proof. destruct data as [|x data]; cbn; [done|]. rewrite app_nil_r. split; [done|]. by constructor. Qed.

Lemma retain_streamed data c c' : encoding c -> complete c = false -> retain data c = Done c' -> complete c' = false /\ exists pieces, streamed c c' pieces.
Proof.
  intros [Hc He] Hd. unfold retain. destruct (compressor_ (coding_ c)) as [[encoder pending]|] eqn:Ec; [|rewrite Hd in He; done].
  destruct (encoder_write encoder data) as [[written encoder']| |]; cbn [bind]; try done. intros [= <-].
  destruct (append_chunk_spec (pending ++ written) c) as (Ho & Hcap & Hg & Hf & Hcod). destruct (piece_of (pending ++ written)) as [Hp Hne].
  assert (Hcomp : complete (set_compressor (Some (encoder', [])) (append_chunk (pending ++ written) c)) = false) by (unfold complete in *; cbn; by rewrite Hf).
  split; [done|]. exists (if empty (pending ++ written) then [] else [pending ++ written]).
  split; try done; unfold complete, capture_of, capturing in *; cbn; rewrite ?Hf, ?Hcod, ?Hd; cbn; rewrite ?app_nil_r; try done. by rewrite Hp.
Qed.
Lemma finish_streamed c c' : encoding c -> complete c = false -> finish_body c = Done c' -> complete c' = true /\ exists pieces, streamed c c' pieces.
Proof.
  intros [Hc He] Hd. unfold finish_body. destruct (compressor_ (coding_ c)) as [[encoder pending]|] eqn:Ec; [|rewrite Hd in He; done].
  destruct (encoder_finish encoder) as [written| |]; cbn [bind]; try done. intros [= <-].
  destruct (append_chunk_spec (pending ++ written) c) as (Ho & Hcap & Hg & Hf & Hcod). destruct (piece_of (pending ++ written)) as [Hp Hne].
  split; [done|]. exists (if empty (pending ++ written) then [] else [pending ++ written]).
  split; try done; unfold complete, capture_of, capturing in *; cbn; rewrite ?Hf, ?Hcod, ?Hd, ?Ho; cbn [andb negb when]; rewrite <- ?app_assoc; try done. by rewrite Hp.
Qed.
Lemma streamed_encoding c c' pieces : encoding c -> streamed c c' pieces -> encoding c'.
Proof. intros [Hc _] Hs. split; [by rewrite (streamed_compressed _ _ _ Hs)|apply (streamed_encoder _ _ _ Hs)]. Qed.

(** Changes the stream does not see. *)
Lemma streamed_same c c1 c2 pieces : output_ c1 = output_ c -> caching_ c1 = caching_ c -> coding_ c1 = coding_ c -> complete c1 = complete c ->
  body_kind_ (framing_ c1) = body_kind_ (framing_ c) -> streamed c1 c2 pieces -> streamed c c2 pieces.
Proof.
  intros Ho Hk Hd Hf Hb [O C G P D K N E]. unfold capture_of, capturing in *. split; unfold capture_of, capturing; rewrite <- ?Ho, <- ?Hk, <- ?Hd, <- ?Hf, <- ?Hb; done.
Qed.

Lemma chunk_loop_streamed fuel : forall decoder input c c', encoding c -> complete c = false -> chunk_loop fuel decoder input c = Done c' ->
  exists pieces, streamed c c' pieces.
Proof.
  induction fuel as [|fuel IH]; intros decoder input c c' He Hd; [done|]. cbn [chunk_loop]. destruct (decode_chunk decoder input) as [[data consumed|consumed| |consumed] decoder'].
  - destruct (retain data c) as [c1| |] eqn:Er; cbn [bind]; try done. intros Hl. destruct (retain_streamed _ _ _ He Hd Er) as (Hd1 & p & Hp).
    destruct (IH _ _ _ _ (streamed_encoding _ _ _ He Hp) Hd1 Hl) as (q & Hq). exists (p ++ q). eapply streamed_trans; [done|done|congruence].
  - destruct (_ =? _)%nat; [|done]. destruct (finish_body c) as [c1| |] eqn:Ef; cbn [bind]; try done. intros [= <-].
    destruct (finish_streamed _ _ He Hd Ef) as (Hd1 & p & [O C G P D K N E]). exists p. by split.
  - done.
  - intros [= <-]. exists []. pose proof (streamed_refl c He) as [O C G P D K N E]. by split.
Qed.

Lemma consume_streamed data c c' : encoding c -> body_kind_ (framing_ c) <> tunnel -> consume_body data c = Done c' ->
  exists pieces, streamed c c' pieces /\ (complete c = true -> pieces = []).
Proof.
  intros He Hk. unfold consume_body. destruct (complete c) eqn:Ed.
  { destruct (empty data); [|done]. intros [= <-]. exists []. split; [by apply streamed_refl|done]. }
  assert (Hdone : forall pieces, complete c = true -> pieces = ([] : list bytes)) by (intros ?; congruence). rewrite Ed in Hdone.
  destruct (body_kind_ (framing_ c)) eqn:Ekind; try done.
  - destruct (empty data); [|done]. intros [= <-]. exists []. split; [by apply streamed_refl|done].
  - destruct (_ <? _); [done|]. destruct (retain data (spend (size data) c)) as [c1| |] eqn:Er; cbn [bind]; try done.
    assert (He1 : encoding (spend (size data) c)) by exact He. destruct (retain_streamed _ _ _ He1 Ed Er) as (Hd1 & p & Hp).
    assert (Hc1 : streamed c c1 p) by (eapply streamed_same; [..|exact Hp]; done).
    assert (Hr : relay data c1 = c1) by (unfold relay; destruct He as [Hx _]; by rewrite (streamed_compressed _ _ _ Hc1), Hx).
    rewrite Hr. destruct (_ =? 0); [|intros [= <-]; eauto]. intros Hf.
    destruct (finish_streamed _ _ (streamed_encoding _ _ _ He Hc1) Hd1 Hf) as (_ & q & Hq). exists (p ++ q). split; [|done]. eapply streamed_trans; [done|done|congruence].
  - destruct He as [Hx Hy]. rewrite Hx. unfold consume_chunked. destruct (decoder_ (framing_ c)) as [decoder|]; [|done]. cbv zeta. intros Hl.
    destruct (chunk_loop_streamed _ _ _ _ _ (conj Hx Hy) Ed Hl) as (p & Hp). eauto.
  - destruct (retain data c) as [c1| |] eqn:Er; cbn [bind]; try done. destruct (retain_streamed _ _ _ He Ed Er) as (Hd1 & p & Hp).
    rewrite (streamed_compressed _ _ _ Hp). destruct He as [-> _]. intros [= <-]. eauto.
Qed.

Lemma feed_streamed pieces : forall c c', encoding c -> body_kind_ (framing_ c) <> tunnel -> feed_body pieces c = Done c' ->
  exists chunks, streamed c c' chunks /\ (complete c = true -> chunks = []).
Proof.
  induction pieces as [|piece pieces IH]; intros c c' He Hk; cbn [feed_body].
  - intros [= <-]. exists []. split; [by apply streamed_refl|done].
  - destruct (consume_body piece c) as [c1| |] eqn:E; cbn [bind]; try done. intros Hf. destruct (consume_streamed _ _ _ He Hk E) as (p & Hp & Hp0).
    destruct (IH c1 c' (streamed_encoding _ _ _ He Hp)) as (q & Hq & Hq0); [by rewrite (streamed_kind _ _ _ Hp)|done|].
    exists (p ++ q). split; [by eapply streamed_trans|]. intros Hc. rewrite (Hp0 Hc), (Hq0 (streamed_order _ _ _ Hp Hc)). done.
Qed.
End Bodies.

(** The reference reading of a chunked body without trailers. *)
Definition is_hex_digit (c : ascii) : bool := is_digit c || in_range "a" "f" c.
Definition hex_digit_number (c : ascii) : Z := if is_digit c then code c - 48 else code c - 87.
Definition hex_number (digits : bytes) : Z := fold_left (fun n c => n * 16 + hex_digit_number c) digits 0.
Fixpoint dechunk (fuel : nat) (text : bytes) : option bytes :=
  match fuel with
  | O => None
  | S fuel =>
      let '(digits, rest) := take_while is_hex_digit text in
      if empty digits || negb (starts_with rest crlf) then None
      else
        let n := Z.to_nat (hex_number digits) in
        let rest := drop 2 rest in
        if (n =? 0)%nat then if rest == crlf then Some [] else None
        else if starts_with (drop n rest) crlf then app (take n rest) <$> dechunk fuel (drop (n + 2) rest) else None
  end.

Lemma hex_loop_spec fuel n digits : (0 < fuel)%nat -> 0 <= n < 16 ^ Z.of_nat fuel ->
  exists ds, hex_loop fuel n digits = ds ++ digits /\ ds <> [] /\ Forall (fun c => is_hex_digit c = true) ds /\ hex_number ds = n.
Proof.
  assert (Hall : forallb (fun n => let c := hex_digit_text (Z.of_nat n) in is_hex_digit c && (hex_digit_number c =? Z.of_nat n)) (seq 0 16) = true) by by vm_compute.
  assert (Hdigit : forall n, 0 <= n < 16 -> is_hex_digit (hex_digit_text n) = true /\ hex_digit_number (hex_digit_text n) = n).
  { intros m Hm. rewrite forallb_forall in Hall. specialize (Hall (Z.to_nat m) ltac:(apply in_seq; lia)). cbv zeta in Hall.
    rewrite Z2Nat.id, andb_true_iff, Z.eqb_eq in Hall by lia. done. }
  revert n digits. induction fuel as [|fuel IH]; intros n digits Hf Hn; [lia|]. cbn [hex_loop]. pose proof (Z.mod_pos_bound n 16 ltac:(lia)) as Hm.
  destruct (Hdigit (n mod 16) Hm) as [Hh Hv]. destruct (Z.ltb_spec n 16) as [Hlt|Hge].
  - exists [hex_digit_text (n mod 16)]. split; [done|]. split; [done|]. split; [by constructor|]. unfold hex_number. cbn [fold_left]. rewrite Hv. rewrite Z.mod_small; lia.
  - rewrite Nat2Z.inj_succ, Z.pow_succ_r in Hn by lia. destruct fuel as [|fuel]; [cbn in Hn; lia|].
    destruct (IH (n / 16) (hex_digit_text (n mod 16) :: digits)) as (ds & -> & Hne & Hx & Hd); [lia|Z.to_euclidean_division_equations; lia|].
    exists (ds ++ [hex_digit_text (n mod 16)]). split; [by rewrite <- app_assoc|]. split; [by destruct ds|]. split; [apply Forall_app; by repeat constructor|].
    unfold hex_number in *. rewrite fold_left_app. cbn [fold_left]. rewrite Hd, Hv. pose proof (Z.div_mod n 16 ltac:(lia)). lia.
Qed.
Lemma hex_text_spec n : 0 <= n < two64 -> hex_text n <> [] /\ Forall (fun c => is_hex_digit c = true) (hex_text n) /\ hex_number (hex_text n) = n.
Proof.
  intros Hn. destruct (hex_loop_spec 16 n []) as (ds & E & Hds); [lia|exact Hn|]. unfold hex_text. rewrite E, app_nil_r. done.
Qed.
Lemma take_hex digits rest : Forall (fun c => is_hex_digit c = true) digits -> take_while is_hex_digit (digits ++ crlf ++ rest) = (digits, crlf ++ rest).
Proof. induction 1 as [|c digits Hc _ IH]; [done|]. cbn [app take_while]. by rewrite Hc, IH. Qed.

Definition small (piece : bytes) : Prop := piece <> [] /\ size piece < two64.
Lemma dechunk_chunk fuel piece rest : small piece -> dechunk (S fuel) (chunk_text piece ++ rest) = app piece <$> dechunk fuel rest.
Proof.
  intros [Hne Hs]. assert (Hpos : 0 < size piece) by (destruct piece; [done|unfold size; cbn [length]; lia]).
  destruct (hex_text_spec (size piece) ltac:(lia)) as (Hn & Hx & Hv). unfold chunk_text. rewrite <- !app_assoc. cbn [dechunk]. rewrite take_hex by done.
  rewrite starts_with_app, Hv. destruct (hex_text (size piece)) as [|h digits] eqn:E; [done|]. cbn [empty negb orb].
  change (drop 2 (crlf ++ piece ++ crlf ++ rest)) with (piece ++ crlf ++ rest).
  assert (Hlen : Z.to_nat (size piece) = length piece) by (unfold size; lia). rewrite Hlen. destruct (Nat.eqb_spec (length piece) 0); [destruct piece; done|].
  rewrite drop_app_length, starts_with_app, take_app_length. f_equal. f_equal. rewrite app_assoc.
  replace (length piece + 2)%nat with (length (piece ++ crlf)) by by rewrite length_app. apply drop_app_length.
Qed.
Lemma dechunk_chunks pieces fuel : Forall small pieces -> (length pieces < fuel)%nat ->
  dechunk fuel (concat (map chunk_text pieces) ++ last_chunk) = Some (concat pieces).
Proof.
  intros Hs. revert fuel. induction Hs as [|piece pieces Hp _ IH]; intros [|fuel] Hf; cbn [length] in Hf; try lia; [by vm_compute|].
  cbn [map concat]. rewrite <- app_assoc, dechunk_chunk by done. by rewrite IH by lia.
Qed.

Section Streams.
Context `{ResponseLibrary} `{HttpDate} `{CodingLibrary}.

(** A compressed response is a well-formed chunked body, and decoding it gives what the cache
    captured: the client and the cache get the same bytes, whatever the encoder makes of the origin's. *)
Theorem compressed_stream c c' pieces : compressed_ (coding_ c) = true -> present (compressor_ (coding_ c)) = true -> complete c = false ->
  body_kind_ (framing_ c) <> tunnel -> feed_body pieces c = Done c' ->
  exists chunks, output_ c' = output_ c ++ concat (map chunk_text chunks) ++ when (complete c') last_chunk /\
    (capturing c = true -> capture_of c' = capture_of c ++ concat chunks) /\
    (complete c' = true -> Forall (fun chunk => size chunk < two64) chunks ->
       dechunk (S (length chunks)) (drop (length (output_ c)) (output_ c')) = Some (concat chunks)).
Proof.
  intros Hc Hp Hd Hk Hf. destruct (feed_streamed pieces c c') as (chunks & [O C G P D K N E] & _); [split; [done|by rewrite Hp, Hd]|done|done|].
  rewrite Hd in O. cbn [negb] in O. rewrite andb_true_r in O. exists chunks. split; [done|]. split; [intros Hcap; by rewrite C, Hcap|].
  intros Hcomp Hsmall. rewrite O, drop_app_length, Hcomp. cbn [when]. apply dechunk_chunks; [|lia].
  rewrite Forall_forall in P, Hsmall |- *. intros chunk Hin. split; [by apply P|by apply Hsmall].
Qed.

(** ** Termination *)

(** What the library documents of its steps: a head and a chunk take at least a byte. *)
Class LibraryProgress := {
  head_progress : forall parser data head consumed plan parser', parse_response parser data = (HeadParsed head consumed plan, parser') -> (0 < consumed <= length data)%nat;
  chunk_progress : forall decoder input data consumed decoder', decode_chunk decoder input = (BodyChunk data consumed, decoder') -> (0 < consumed <= length input)%nat }.

Lemma chunk_loop_enough `{LibraryProgress} fuel : forall more decoder input c, (length input < fuel)%nat ->
  chunk_loop (fuel + more) decoder input c = chunk_loop fuel decoder input c.
Proof.
  induction fuel as [|fuel IH]; intros more decoder input c Hf; [lia|]. cbn [Nat.add chunk_loop].
  destruct (decode_chunk decoder input) as [[data consumed|consumed| |consumed] decoder'] eqn:E; try done. apply chunk_progress in E.
  destruct (retain data c); cbn [bind]; try done. apply IH. rewrite length_drop. lia.
Qed.

Lemma capture_head_bytes config head nominations c : head_bytes_ (capture_head config head nominations c) = head_bytes_ c.
Proof. unfold capture_head. by repeat case_match. Qed.

Lemma head_loop_enough `{LibraryProgress} config fuel : forall more c, (length (head_bytes_ c) - head_offset_ c < fuel)%nat ->
  head_loop config (fuel + more) c = head_loop config fuel c.
Proof.
  induction fuel as [|fuel IH]; intros more c Hf; [lia|]. cbn [Nat.add head_loop].
  destruct (parse_response (parser_ c) (drop (head_offset_ c) (head_bytes_ c))) as [[|head consumed plan|] parser] eqn:E; try done.
  apply head_progress in E as [Hpos Hle]. rewrite length_drop in Hle. destruct plan; try done.
  set (c1 := if forward_informational_ config then _ else _). assert (Hc1 : head_bytes_ c1 = head_bytes_ c /\ head_offset_ c1 = (head_offset_ c + consumed)%nat).
  { subst c1. by destruct (forward_informational_ config). }
  destruct Hc1 as [Hb Ho]. set (c2 := if (head_offset_ c1 =? length (head_bytes_ c1))%nat then release_head c1 else c1).
  destruct (forward_informational_ config || empty (head_bytes_ c2)) eqn:Ef; [done|]. apply IH.
  subst c2. rewrite Hb, Ho in *. destruct (_ =? _)%nat; [cbn; lia|]. rewrite Hb, Ho. lia.
Qed.

(** C29. Reading a response terminates: the bounds the model puts on its loops are never reached, so
    that no number of steps beyond them changes the result. *)
Theorem reading_terminates `{LibraryProgress} config data c more :
  (let c := set_head (parser_ c) (head_bytes_ c ++ data) (head_offset_ c) c in head_loop config (S (length (head_bytes_ c)) + more) c) = consume_head config data c /\
  (forall decoder, decoder_ (framing_ c) = Some decoder ->
     let input := chunk_framing_ (framing_ c) ++ data in chunk_loop (S (length input) + more) decoder input c = consume_chunked data c).
Proof.
  split.
  - cbv zeta. unfold consume_head. cbv zeta. apply head_loop_enough. lia.
  - intros decoder Hd. cbv zeta. unfold consume_chunked. rewrite Hd. cbv zeta. apply chunk_loop_enough. lia.
Qed.
End Streams.

(** * A library to run the codec with *)

Definition sample_end : bytes := crlf ++ crlf.
Definition sample_head : client_response_head :=
  ClientResponseHead 200 [(lit "Content-Type", lit "text/html"); (lit "Connection", lit "X-Hop, keep-alive"); (lit "X-Hop", lit "1"); (lit "Keep-Alive", lit "5");
    (lit "Content-Length", lit "10"); (lit "X-Cache", lit "HIT"); (lit "Strict-Transport-Security", lit "max-age=0")].
(** A parser that knows one head, a decoder that passes bytes on and an encoder that brackets what it is given. *)
Definition toy_library : ResponseLibrary := {|
  response_parser := unit;
  parse_response := fun _ data => match find_sub sample_end data with
    | Some n => (HeadParsed sample_head (n + 4) (WithContent (KnownLength 10 true)), tt) | None => (HeadNeedMore, tt) end;
  chunked_decoder := unit; new_decoder := tt;
  decode_chunk := fun _ data => if empty data then (ChunkNeedMore 0, tt) else (BodyChunk data (length data), tt);
  content_encoder := unit; new_encoder := fun _ => Done tt;
  encoder_write := fun _ data => Done (if empty data then [] else lit "<" ++ data ++ lit ">", tt); encoder_finish := fun _ => Done (lit "!");
  reason_phrase := fun _ => lit "OK"; if_range_allows := fun _ _ _ _ => true |}.
Definition toy_dates : HttpDate := fun _ => None.

Definition start_framing (kind : body_kind) (n : Z) : @framing toy_library := Framing (H := toy_library) kind n None [] (n =? 0) true.
Definition start_codec (kind : body_kind) (n : Z) (compressor : option (unit * bytes)) (range : option cache_range_response) (status : bytes) : @codec toy_library :=
  Codec (H := toy_library) tt [] 0 None false (start_framing kind n) (Ranges range None 0)
    (Caching true (Some (mk_head 200 [])) [] false 0 status []) (Coding (H := toy_library) compressor (present compressor) (lit "gzip") []) [].
Definition toy_setup (hsts : bool) : setup := Setup hsts None None None [] false [] None true 0 [].

Definition toy_consume := consume_head (H := toy_library) (H0 := toy_dates) (H1 := sample_library).
Example toy_response :
  match toy_consume (toy_setup true) (lit "head" ++ sample_end ++ lit "0123456789") (start_codec kind_none 0 None None (lit "MISS")) with
  | Done (true, c) => output_ c = lit "HTTP/1.1 200 OK" ++ crlf ++ lit "Content-Type: text/html" ++ crlf ++ lit "Content-Length: 10" ++ crlf ++
      lit "X-Cache: MISS" ++ crlf ++ lit "Connection: close" ++ crlf ++ lit "Strict-Transport-Security: max-age=31536000" ++ crlf ++ crlf ++ lit "0123456789" /\
      complete c = true /\ origin_reusable c = true
  | _ => False
  end.
Proof. by vm_compute. Qed.

Definition toy_state : @codec toy_library := start_codec known_length 10 None None (lit "MISS").
Lemma relay_exact_witness :
  exists c, feed_body (H := toy_library) [lit "0123"; lit "456789"] toy_state = Done c /\ output_ c = lit "0123456789" /\ complete c = true.
Proof.
  pose proof (relay_exact (H := toy_library) [lit "0123"; lit "456789"] toy_state 10) as Hr. destruct Hr as (c & Hf & Ho & _ & Hd);
    [by split|lia|done|]. exists c. split; [done|]. split; [exact Ho|exact Hd].
Defined.
Lemma ranged_relay_witness :
  exists c, feed_body (H := toy_library) [lit "0123"; lit "456789"] (start_codec known_length 10 None (Some (new_response (lit "bytes=2-5") 10 false [] [])) []) = Done c /\
    output_ c = lit "2345" /\ capture_of c = lit "0123456789".
Proof.
  destruct (ranged_relay (H := toy_library) (lit "0123456789") (start_codec known_length 10 None (Some (new_response (lit "bytes=2-5") 10 false [] [])) [])
    (lit "bytes=2-5") false [] [] [lit "0123"; lit "456789"]) as (c & Hf & _ & Hcap & Ho); [by vm_compute|by split|done|done|by repeat constructor|done|].
  exists c. split; [done|]. split; [rewrite Ho; by vm_compute|exact Hcap].
Defined.
Definition toy_compressing : @codec toy_library := start_codec known_length 10 (Some (tt, lit "[")) None [].
Lemma compressed_stream_witness :
  exists c, feed_body (H := toy_library) [lit "0123"; lit "456789"] toy_compressing = Done c /\ complete c = true /\
    exists chunks, dechunk (S (length chunks)) (drop (length (output_ toy_compressing)) (output_ c)) = Some (concat chunks) /\ capture_of c = concat chunks.
Proof.
  destruct (feed_body (H := toy_library) [lit "0123"; lit "456789"] toy_compressing) as [c| |] eqn:E; [|by vm_compute in E..].
  exists c. split; [done|]. assert (Hc : complete c = true) by (vm_compute in E; injection E as <-; done). split; [done|].
  destruct (compressed_stream (H := toy_library) toy_compressing c [lit "0123"; lit "456789"]) as (chunks & Ho & Hcap & Hd); [done|done|done|done|done|].
  exists chunks. split; [|exact (Hcap eq_refl)]. apply Hd; [done|]. apply Forall_forall. intros chunk Hin.
  assert (Hle : (length chunk <= length (concat chunks))%nat).
  { clear - Hin. induction chunks as [|x chunks IH]; [by apply elem_of_nil in Hin|]. cbn [concat]. rewrite length_app. apply elem_of_cons in Hin as [->|Hin]; [lia|]. specialize (IH Hin). lia. }
  assert (Hcat : capture_of c = concat chunks) by exact (Hcap eq_refl). rewrite <- Hcat in Hle. vm_compute in E. injection E as <-.
  unfold size. cbn in Hle. unfold two64. lia.
Defined.
Lemma compressed_framing_witness :
  let fields := head_fields (H := toy_library) (toy_setup true) toy_compressing sample_head (connection_fields sample_head) in
  RouteRules.header_values (lit "Transfer-Encoding") fields = [lit "chunked"] /\ RouteRules.header_values (lit "Content-Length") fields = [].
Proof.
  cbv zeta. destruct (compressed_framing (H := toy_library) (toy_setup true) toy_compressing sample_head) as (Ht & Hl & _);
    [apply (bool_decide_unpack _); by vm_compute|done|done|]. split; [exact Ht|exact Hl].
Defined.

Lemma find_sub_bound sub s n : find_sub sub s = Some n -> (n + length sub <= length s)%nat.
Proof.
  revert n. induction s as [|c s IH]; intros n; cbn [find_sub]; destruct (starts_with _ sub) eqn:E; try done.
  1, 2: intros [= <-]; apply starts_with_spec in E as (r & E); apply (f_equal length) in E; rewrite length_app in E; lia.
  intros (m & Em & ->)%fmap_Some. apply IH in Em. cbn [length]. lia.
Qed.
Lemma toy_progress : @LibraryProgress toy_library.
Proof.
  split.
  - intros [] data head consumed plan []. cbn [parse_response toy_library]. destruct (find_sub sample_end data) as [n|] eqn:E; [|done]. intros [= <- <- <-].
    apply find_sub_bound in E. change (length sample_end) with 4%nat in E. lia.
  - intros [] input data consumed []. cbn [decode_chunk toy_library]. destruct input as [|x input]; [done|]. cbn [empty]. intros [= <- <-]. cbn [length]. lia.
Defined.
Lemma reading_terminates_witness :
  let c := toy_state in
  head_loop (H := toy_library) (H0 := toy_dates) (H1 := sample_library) (toy_setup true) (S 3 + 100) (set_head (H := toy_library) tt (lit "hea") 0 c) =
  consume_head (H := toy_library) (H0 := toy_dates) (H1 := sample_library) (toy_setup true) (lit "hea") c.
Proof.
  cbv zeta. pose proof (toy_progress) as Hp.
  exact (proj1 (reading_terminates (H := toy_library) (H0 := toy_dates) (H1 := sample_library) (H2 := Hp) (toy_setup true) (lit "hea") toy_state 100)).
Defined.
