(* ===== verification/RequestReader.v ===== *)
(** The reader of downstream requests: src/node/data/http1_request_reader.h.

    [consume] takes the connection's buffer and gives it back with what was not taken; views into
    buffers are copies. The head parser and the chunk decoder are the library's: interfaces. *)
From S2P Require Import Prelude OriginResponse.
Open Scope Z_scope.

Inductive http1_request_read_status := need_more | complete | bad_request | too_large.
#[export] Instance read_status_eq_dec : EqDecision http1_request_read_status.
Proof. solve_decision. Defined.

(** What the library makes of a head: how many bytes it takes, the request and the plan of its body. *)
Inductive request_body_plan := NoBody | KnownBody (content_length : Z) | ChunkedRequest.
Inductive request_head_result (request : Type) := HeadPending | HeadRefused | HeadReady (header_bytes : nat) (r : request) (plan : request_body_plan).
Arguments HeadPending {request}. Arguments HeadRefused {request}. Arguments HeadReady {request}.
Class RequestLibrary := {
  request_type : Type; request_parser : Type; new_request_parser : request_parser;
  parse_request : request_parser -> bytes -> nat -> request_head_result request_type * request_parser; send_continue : request_type -> bool;
  request_decoder : Type; new_request_decoder : request_decoder; decode_request : request_decoder -> bytes -> chunk_step * request_decoder;
  default_max_buffered_body_bytes : Z }.

Section Reader.
Context `{RequestLibrary}.

Record http1_request_reader := Reader {
  parser_ : request_parser; max_request_bytes_ : Z; request_ : option request_type; head_bytes_ : bytes; header_search_offset_ : nat; header_bytes_ : Z; known_length_ : option Z;
  decoder_ : option request_decoder; chunked_bytes_ : Z; decoded_body_ : bytes; decoded_body_exceeded_ : bool; body_ : bytes; unconsumed_bytes_ : bytes;
  message_bytes_ : Z }.
Definition new_reader (max_request_bytes : Z) : http1_request_reader := Reader new_request_parser max_request_bytes None [] 0 0 None None 0 [] false [] [] 0.

Definition has_body (r : http1_request_reader) : bool := present (known_length_ r) || present (decoder_ r).
Definition expects_continue (r : http1_request_reader) : bool :=
  if header_bytes_ r =? 0 then false else match request_ r with Some request => send_continue request | None => false end.
Definition body (r : http1_request_reader) : option bytes := if decoded_body_exceeded_ r then None else Some (body_ r).

(** The head with the bytes that came so far. *)
Definition with_head (head : bytes) (offset : nat) (r : http1_request_reader) : http1_request_reader :=
  Reader (parser_ r) (max_request_bytes_ r) (request_ r) head offset (header_bytes_ r) (known_length_ r) (decoder_ r) (chunked_bytes_ r) (decoded_body_ r)
    (decoded_body_exceeded_ r) (body_ r) (unconsumed_bytes_ r) (message_bytes_ r).
Definition with_parser (parser : request_parser) (r : http1_request_reader) : http1_request_reader :=
  Reader parser (max_request_bytes_ r) (request_ r) (head_bytes_ r) (header_search_offset_ r) (header_bytes_ r) (known_length_ r) (decoder_ r) (chunked_bytes_ r)
    (decoded_body_ r) (decoded_body_exceeded_ r) (body_ r) (unconsumed_bytes_ r) (message_bytes_ r).
Definition with_plan (request : request_type) (header_bytes : Z) (known : option Z) (decoder : option request_decoder) (r : http1_request_reader) : http1_request_reader :=
  Reader (parser_ r) (max_request_bytes_ r) (Some request) (head_bytes_ r) (header_search_offset_ r) header_bytes known decoder (chunked_bytes_ r) (decoded_body_ r)
    (decoded_body_exceeded_ r) (body_ r) (unconsumed_bytes_ r) (message_bytes_ r).
(** The status, the reader and the buffer. *)
Definition reading : Type := http1_request_read_status * http1_request_reader * bytes.

Definition consume_head (r : http1_request_reader) (buffer : bytes) : reading :=
  let r := with_head (head_bytes_ r ++ buffer) (header_search_offset_ r) r in
  let '(result, parser) := parse_request (parser_ r) (head_bytes_ r) (header_search_offset_ r) in
  let r := with_parser parser r in
  match result with
  | HeadRefused => (bad_request, r, [])
  | HeadPending =>
      if max_request_bytes_ r <=? size (head_bytes_ r) then (too_large, r, [])
      else (need_more, with_head (head_bytes_ r) (length (head_bytes_ r)) r, [])
  | HeadReady header_bytes request plan =>
      let kept := with_head (take header_bytes (head_bytes_ r)) (header_search_offset_ r) r in
      let rest := drop header_bytes (head_bytes_ r) in
      let n := Z.of_nat header_bytes in
      match plan with
      | KnownBody content_length =>
          if default_max_buffered_body_bytes <? content_length then (bad_request, with_plan request n None None r, [])
          else if max_request_bytes_ r <? n + content_length then (too_large, with_plan request n None None r, [])
          else (complete, with_plan request n (Some content_length) None kept, rest)
      | ChunkedRequest => (complete, with_plan request n None (Some new_request_decoder) kept, rest)
      | NoBody => (complete, with_plan request n None None kept, rest)
      end
  end.

Definition with_body (content rest : bytes) (message_bytes : Z) (r : http1_request_reader) : http1_request_reader :=
  Reader (parser_ r) (max_request_bytes_ r) (request_ r) (head_bytes_ r) (header_search_offset_ r) (header_bytes_ r) (known_length_ r) (decoder_ r) (chunked_bytes_ r)
    (decoded_body_ r) (decoded_body_exceeded_ r) content rest message_bytes.
Definition append_decoded (data : bytes) (r : http1_request_reader) : http1_request_reader :=
  let with_decoded decoded exceeded :=
    Reader (parser_ r) (max_request_bytes_ r) (request_ r) (head_bytes_ r) (header_search_offset_ r) (header_bytes_ r) (known_length_ r) (decoder_ r) (chunked_bytes_ r)
      decoded exceeded (body_ r) (unconsumed_bytes_ r) (message_bytes_ r) in
  if decoded_body_exceeded_ r then r
  else if max_request_bytes_ r - size (decoded_body_ r) <? size data then with_decoded [] true
  else with_decoded (decoded_body_ r ++ data) false.
Definition with_chunk (decoder : request_decoder) (consumed : nat) (r : http1_request_reader) : http1_request_reader :=
  Reader (parser_ r) (max_request_bytes_ r) (request_ r) (head_bytes_ r) (header_search_offset_ r) (header_bytes_ r) (known_length_ r) (Some decoder)
    (chunked_bytes_ r + Z.of_nat consumed) (decoded_body_ r) (decoded_body_exceeded_ r) (body_ r) (unconsumed_bytes_ r) (message_bytes_ r).

(** The loop over the chunks of the buffer from where it is; [fuel] bounds the steps, and [None] is to run out of it. *)
Fixpoint decode_loop (fuel : nat) (decoder : request_decoder) (buffer : bytes) (r : http1_request_reader) : option reading :=
  match fuel with
  | O => None
  | S fuel =>
      match decode_request decoder buffer with
      | (BodyChunk data consumed, decoder) => decode_loop fuel decoder (drop consumed buffer) (with_chunk decoder consumed (append_decoded data r))
      | (ChunkComplete consumed, decoder) =>
          let r := with_chunk decoder consumed r in
          let rest := drop consumed buffer in
          Some (complete, with_body (decoded_body_ r) rest (header_bytes_ r + chunked_bytes_ r) r, rest)
      | (ChunkFailure, decoder) => Some (bad_request, with_chunk decoder 0 r, buffer)
      | (ChunkNeedMore consumed, decoder) =>
          let r := with_chunk decoder consumed r in
          let rest := drop consumed buffer in
          Some (if max_request_bytes_ r <=? header_bytes_ r + chunked_bytes_ r + size rest then too_large else need_more, r, rest)
      end
  end.

Definition consume_body (r : http1_request_reader) (buffer : bytes) : option reading :=
  match known_length_ r, decoder_ r with
  | Some n, _ =>
      if size buffer <? n then Some (need_more, r, buffer)
      else Some (complete, with_body (take (Z.to_nat n) buffer) (drop (Z.to_nat n) buffer) (header_bytes_ r + n) r, buffer)
  | None, None => Some (complete, with_body [] buffer (header_bytes_ r) r, buffer)
  | None, Some decoder => decode_loop (S (length buffer)) decoder buffer r
  end.
Definition consume (r : http1_request_reader) (buffer : bytes) : option reading :=
  if header_bytes_ r =? 0 then
    match consume_head r buffer with
    | (complete, r, buffer) => consume_body r buffer
    | refused => Some refused
    end
  else consume_body r buffer.

End Reader.

(** * Framing *)

Section Framing.
Context `{RequestLibrary}.

(** What the library documents: a head and a chunk take at least a byte, and nothing takes more than there is. *)
Class RequestLaws := {
  head_takes : forall parser data offset n request plan, (parse_request parser data offset).1 = HeadReady n request plan -> (0 < n <= length data)%nat;
  length_positive : forall parser data offset n request length, (parse_request parser data offset).1 = HeadReady n request (KnownBody length) -> 0 <= length;
  body_limit : 0 <= default_max_buffered_body_bytes;
  chunk_takes : forall decoder input data consumed decoder', decode_request decoder input = (BodyChunk data consumed, decoder') -> (0 < consumed <= length input)%nat;
  end_takes : forall decoder input consumed decoder', decode_request decoder input = (ChunkComplete consumed, decoder') -> (consumed <= length input)%nat;
  wait_takes : forall decoder input consumed decoder', decode_request decoder input = (ChunkNeedMore consumed, decoder') -> (consumed <= length input)%nat }.

(** A reader that waits, after all the bytes of [received], with its buffer: every byte is in the head,
    taken for the body or still in the buffer, and fewer than the limit are held. *)
Inductive waiting (r : http1_request_reader) (received buffer : bytes) : Prop :=
  | waiting_head : header_bytes_ r = 0 -> chunked_bytes_ r = 0 -> known_length_ r = None -> decoder_ r = None -> head_bytes_ r = received -> buffer = [] -> (size received < max_request_bytes_ r \/ received = []) -> waiting r received buffer
  | waiting_known n : 0 < header_bytes_ r -> size (head_bytes_ r) = header_bytes_ r -> known_length_ r = Some n -> decoder_ r = None -> received = head_bytes_ r ++ buffer ->
      size buffer < n -> header_bytes_ r + n <= max_request_bytes_ r -> waiting r received buffer
  | waiting_chunked decoder taken : 0 < header_bytes_ r -> size (head_bytes_ r) = header_bytes_ r -> known_length_ r = None -> decoder_ r = Some decoder ->
      received = head_bytes_ r ++ taken ++ buffer -> size taken = chunked_bytes_ r -> size received < max_request_bytes_ r -> waiting r received buffer.

(** What a complete reading has taken: the head, the framed content and what belongs to the next message. *)
Record framed (r : http1_request_reader) (received content : bytes) : Prop := Framed {
  framed_all : received = head_bytes_ r ++ content ++ unconsumed_bytes_ r;
  framed_size : message_bytes_ r = size (head_bytes_ r ++ content); framed_head : header_bytes_ r = size (head_bytes_ r);
  framed_known : forall n, known_length_ r = Some n -> body_ r = content /\ size content = n;
  framed_none : known_length_ r = None -> decoder_ r = None -> content = [] /\ body_ r = [];
  framed_chunked : present (decoder_ r) = true -> body_ r = decoded_body_ r }.

(** The decoded body stays within the limit, or is given up. *)
Definition bounded (r : http1_request_reader) : Prop := size (decoded_body_ r) <= max_request_bytes_ r.

Lemma append_decoded_spec data r : bounded r -> bounded (append_decoded data r) /\ header_bytes_ (append_decoded data r) = header_bytes_ r /\
  head_bytes_ (append_decoded data r) = head_bytes_ r /\ max_request_bytes_ (append_decoded data r) = max_request_bytes_ r /\
  known_length_ (append_decoded data r) = known_length_ r /\ chunked_bytes_ (append_decoded data r) = chunked_bytes_ r.
Proof.
  intros Hb. unfold append_decoded, bounded in *. destruct (decoded_body_exceeded_ r); [done|].
  destruct (Z.ltb_spec (max_request_bytes_ r - size (decoded_body_ r)) (size data)); cbn; (split; [|done]); unfold size in *; rewrite ?length_app; cbn; lia.
Qed.

Lemma decode_loop_spec `{RequestLaws} fuel : forall decoder buffer r received taken, (length buffer < fuel)%nat ->
  bounded r -> 0 < header_bytes_ r -> size (head_bytes_ r) = header_bytes_ r -> known_length_ r = None ->
  received = head_bytes_ r ++ taken ++ buffer -> size taken = chunked_bytes_ r ->
  exists status r' buffer', decode_loop fuel decoder buffer r = Some (status, r', buffer') /\ bounded r' /\ max_request_bytes_ r' = max_request_bytes_ r /\
    (status = need_more -> waiting r' received buffer') /\ (status = complete -> exists content, framed r' received content).
Proof.
  induction fuel as [|fuel IH]; intros decoder buffer r received taken Hf Hb Hpos Hh Hk Hr Ht; [lia|]. cbn [decode_loop].
  assert (Hsplit : forall consumed, (consumed <= length buffer)%nat -> received = head_bytes_ r ++ (taken ++ take consumed buffer) ++ drop consumed buffer /\
    size (taken ++ take consumed buffer) = chunked_bytes_ r + Z.of_nat consumed).
  { intros consumed Hc. split; [rewrite <- app_assoc, take_drop; done|]. rewrite <- Ht. unfold size. rewrite length_app, length_take. lia. }
  destruct (decode_request decoder buffer) as [[data consumed|consumed| |consumed] decoder'] eqn:E.
  - apply chunk_takes in E as Hc. destruct (Hsplit consumed ltac:(lia)) as [Hr' Ht']. destruct (append_decoded_spec data r Hb) as (Hb' & Eh & Ehb & Em & Ek & Ec).
    destruct (IH decoder' (drop consumed buffer) (with_chunk decoder' consumed (append_decoded data r)) received (taken ++ take consumed buffer)) as (status & r' & buffer' & HE & Hrest);
      cbn; rewrite ?Eh, ?Ehb, ?Ek, ?Ec; try done; [rewrite length_drop; lia|].
    exists status, r', buffer'. split; [done|]. cbn in Hrest. by rewrite Em in Hrest.
  - apply end_takes in E as Hc. destruct (Hsplit consumed Hc) as [Hr' Ht']. eexists _, _, _. split; [done|]. split; [done|]. split; [done|]. split; [done|]. intros _.
    exists (taken ++ take consumed buffer). split; cbn; try done.
    + unfold size in *. rewrite !length_app in *. lia.
    + by rewrite Hk.
  - eexists _, _, _. split; [done|]. done.
  - apply wait_takes in E as Hc. destruct (Hsplit consumed Hc) as [Hr' Ht']. eexists _, _, _. split; [done|]. split; [done|]. split; [done|].
    cbn. destruct (Z.leb_spec (max_request_bytes_ r) (header_bytes_ r + (chunked_bytes_ r + Z.of_nat consumed) + size (drop consumed buffer))) as [|Hlt]; [done|].
    split; [|done]. intros _. eapply (waiting_chunked _ _ _ decoder' (taken ++ take consumed buffer)); cbn; try done.
    rewrite Hr' at 1. unfold size in *. rewrite !length_app in *. lia.
Qed.

Lemma consume_body_spec `{RequestLaws} r m received buffer : max_request_bytes_ r = m -> bounded r -> 0 < header_bytes_ r -> size (head_bytes_ r) = header_bytes_ r ->
  match known_length_ r with Some n => 0 <= n /\ header_bytes_ r + n <= max_request_bytes_ r /\ decoder_ r = None | None => True end ->
  (exists taken, received = head_bytes_ r ++ taken ++ buffer /\ if decoder_ r then size taken = chunked_bytes_ r else taken = []) ->
  exists status r' buffer', consume_body r buffer = Some (status, r', buffer') /\ bounded r' /\ max_request_bytes_ r' = m /\
    (status = need_more -> waiting r' received buffer') /\ (status = complete -> exists content, framed r' received content).
Proof.
  intros <- Hb Hpos Hh Hk (taken & Hr & Ht). unfold consume_body. destruct (known_length_ r) as [n|] eqn:Ek; [destruct Hk as (Hn0 & Hmax & Hdec)|destruct (decoder_ r) as [decoder|] eqn:Ed].
  - rewrite Hdec in Ht. rewrite Ht in Hr. cbn [app] in Hr. destruct (Z.ltb_spec (size buffer) n) as [Hlt|Hge].
    + eexists _, _, _. split; [done|]. split; [done|]. split; [done|]. split; [|done]. intros _. by eapply waiting_known.
    + eexists _, _, _. split; [done|]. split; [done|]. split; [done|]. split; [done|]. intros _. exists (take (Z.to_nat n) buffer).
      assert (Hlen : size (take (Z.to_nat n) buffer) = n) by (unfold size in *; rewrite length_take; lia).
      split; cbn; try done; rewrite ?Ek; try done.
      * by rewrite take_drop.
      * rewrite <- Hh. unfold size in *. rewrite length_app. lia.
      * by intros m [= <-].
      * by rewrite Hdec.
  - destruct (decode_loop_spec (S (length buffer)) decoder buffer r received taken) as (status & r' & buffer' & HE & Hrest); try done; [lia|].
    exists status, r', buffer'. by split.
  - rewrite Ht in Hr. eexists _, _, _. split; [done|]. split; [done|]. split; [done|]. split; [done|]. intros _. exists []. split; cbn; rewrite ?Ek, ?Ed; try done.
    by rewrite app_nil_r.
Qed.

(** One read. *)
Lemma consume_spec `{RequestLaws} r received buffer data : waiting r received buffer -> bounded r ->
  exists status r' buffer', consume r (buffer ++ data) = Some (status, r', buffer') /\ bounded r' /\ max_request_bytes_ r' = max_request_bytes_ r /\
    (status = need_more -> waiting r' (received ++ data) buffer') /\ (status = complete -> exists content, framed r' (received ++ data) content).
Proof.
  intros Hw Hb. unfold consume. destruct Hw as [Hz Hc Hk Hd Hh -> _|n Hpos Hh Hk Hd Hr Hlt Hmax|decoder taken Hpos Hh Hk Hd Hr Ht _].
  - rewrite Hz. cbn [Z.eqb app]. unfold consume_head. cbv zeta. cbn [with_head parser_ head_bytes_ header_search_offset_ max_request_bytes_]. rewrite Hh.
    destruct (parse_request (parser_ r) (received ++ data) (header_search_offset_ r)) as [result parser] eqn:E. apply (f_equal fst) in E. cbn [fst] in E. cbn [with_parser with_head head_bytes_ header_search_offset_ max_request_bytes_].
    destruct result as [| |n request plan].
    + destruct (Z.leb_spec (max_request_bytes_ r) (size (received ++ data))); eexists _, _, _; (split; [done|]); (split; [done|]); (split; [done|]); [done|].
      split; [|done]. intros _. apply waiting_head; try done. by left.
    + by eexists _, _, _.
    + apply head_takes in E as Hn. assert (Hsize : size (take n (received ++ data)) = Z.of_nat n) by (unfold size; rewrite length_take; lia).
      assert (Hall : received ++ data = take n (received ++ data) ++ drop n (received ++ data)) by by rewrite take_drop.
      destruct plan as [|length|].
      * apply consume_body_spec; cbn; try done; [lia|by exists []].
      * apply length_positive in E as Hlen. destruct (Z.ltb_spec default_max_buffered_body_bytes length); [by eexists _, _, _|].
        destruct (Z.ltb_spec (max_request_bytes_ r) (Z.of_nat n + length)) as [|Hle]; [by eexists _, _, _|].
        apply consume_body_spec; cbn; try done; [lia|by exists []].
      * apply consume_body_spec; cbn; try done; [lia|]. exists []. by rewrite Hc.
  - destruct (Z.eqb_spec (header_bytes_ r) 0); [lia|]. apply consume_body_spec; try done; rewrite ?Hk, ?Hd.
    + assert (0 <= size buffer) by (unfold size; lia). split; [lia|done].
    + exists []. split; [|done]. by rewrite Hr, <- app_assoc.
  - destruct (Z.eqb_spec (header_bytes_ r) 0); [lia|]. apply consume_body_spec; try done; [by rewrite Hk|]. exists taken. rewrite Hd. split; [|done].
    by rewrite Hr, <- !app_assoc.
Qed.

(** ** A connection *)

(** The reads of a connection until the reader stops waiting. *)
Fixpoint feed_reads (r : http1_request_reader) (buffer : bytes) (reads : list bytes) : option reading :=
  match reads with
  | [] => Some (need_more, r, buffer)
  | data :: reads =>
      match consume r (buffer ++ data) with
      | Some (need_more, r, buffer) => feed_reads r buffer reads
      | result => result
      end
  end.

Lemma feed_reads_spec `{RequestLaws} reads : forall r received buffer, waiting r received buffer -> bounded r ->
  exists status r' buffer' seen rest, feed_reads r buffer reads = Some (status, r', buffer') /\ reads = seen ++ rest /\ bounded r' /\ max_request_bytes_ r' = max_request_bytes_ r /\
    (status = need_more -> rest = [] /\ waiting r' (received ++ concat seen) buffer') /\ (status = complete -> exists content, framed r' (received ++ concat seen) content).
Proof.
  induction reads as [|data reads IH]; intros r received buffer Hw Hb; cbn [feed_reads].
  - eexists _, _, _, [], []. split; [done|]. split; [done|]. split; [done|]. split; [done|]. cbn [concat]. rewrite app_nil_r. done.
  - destruct (consume_spec r received buffer data Hw Hb) as (status & r1 & buffer1 & -> & Hb1 & Hm & Hwait & Hdone).
    destruct status; try (by eexists _, _, _, [data], reads; cbn [concat app]; rewrite app_nil_r; split_and!).
    destruct (IH r1 (received ++ data) buffer1 (Hwait eq_refl) Hb1) as (status & r2 & buffer2 & seen & rest & HE & -> & Hb2 & Hm2 & Hw2 & Hd2).
    exists status, r2, buffer2, (data :: seen), rest. cbn [concat]. rewrite app_assoc. split; [done|]. split; [done|]. split; [done|]. split; [congruence|]. done.
Qed.
Lemma new_reader_waiting m : waiting (new_reader m) [] [].
Proof. apply waiting_head; try done. by right. Qed.


(** A reader never holds more than the request limit while it waits, however little a client
    sends at a time, and a decoded body never outgrows it; every sequence of reads has a result. *)
Theorem request_memory_bounded `{RequestLaws} m reads : 0 <= m ->
  exists status r buffer, feed_reads (new_reader m) [] reads = Some (status, r, buffer) /\ size (decoded_body_ r) <= m /\
    (status = need_more -> size (head_bytes_ r) + size buffer <= m).
Proof.
  intros Hm. destruct (feed_reads_spec reads (new_reader m) [] [] (new_reader_waiting m)) as (status & r & buffer & seen & rest & HE & Hs & Hb & Hmax & Hw & _).
  { unfold bounded. by cbn. }
  cbn in Hmax. exists status, r, buffer. split; [done|]. split; [unfold bounded in Hb; by rewrite Hmax in Hb|]. intros Hn. destruct (Hw Hn) as [_ Hwait].
  destruct Hwait as [_ _ _ _ Hh -> Hlt|n _ Hh _ _ Hr Hlt Hle|decoder taken _ Hh _ _ Hr Ht Hlt].
  - rewrite Hh. destruct Hlt as [Hlt| ->]; [change (size []) with 0; lia|done].
  - rewrite Hh. lia.
  - rewrite Hr in Hlt. unfold size in *. rewrite !length_app in Hlt. lia.
Qed.
End Framing.

(** A library that ends a head at the first dot, with a digit before it for the length of the body. *)
Definition dot_library : RequestLibrary := {|
  request_type := unit; request_parser := unit; new_request_parser := tt;
  parse_request := fun _ data _ => (match find_char "." data with
    | Some n => HeadReady (S n) tt (match nth (n - 1) data zero with c => if is_digit c then KnownBody (code c - 48) else NoBody end)
    | None => HeadPending end, tt);
  send_continue := fun _ => false; request_decoder := unit; new_request_decoder := tt;
  decode_request := fun _ data => if empty data then (ChunkNeedMore 0, tt) else (BodyChunk data (length data), tt);
  default_max_buffered_body_bytes := 1024 |}.
Lemma dot_laws : @RequestLaws dot_library.
Proof.
  assert (Hhead : forall parser data offset n request plan, (parse_request (RequestLibrary := dot_library) parser data offset).1 = HeadReady n request plan ->
    (0 < n <= length data)%nat /\ forall length, plan = KnownBody length -> 0 <= length).
  { intros parser data offset n request plan. cbn [fst parse_request dot_library]. destruct (find_char "." data) as [k|] eqn:E; [|done]. apply find_char_lt in E.
    cbv zeta. destruct (is_digit (nth (k - 1) data zero)) eqn:Ed; intros [= <- <- <-]; (split; [lia|]); [|done]. intros length [= <-].
    unfold is_digit, in_range in Ed. apply andb_true_iff in Ed as [Ed%Z.leb_le _]. change (code "0") with 48 in Ed. lia. }
  split.
  - intros parser data offset n request plan E. by apply (Hhead parser data offset n request plan).
  - intros parser data offset n request length E. by apply (Hhead parser data offset n request (KnownBody length) E).
  - done.
  - intros decoder input data consumed decoder'. cbn [decode_request dot_library]. destruct input as [|c input]; [done|]. cbn [empty]. intros [= <- <- _]. cbn [length]. lia.
  - intros decoder input consumed decoder'. cbn [decode_request dot_library]. by destruct (empty input).
  - intros decoder input consumed decoder'. cbn [decode_request dot_library]. destruct (empty input); [|done]. intros [= <- _]. lia.
Defined.

Definition dot_reads : list bytes := [lit "GET 4"; lit ".bo"; lit "dyGET 0."].
Lemma request_memory_bounded_witness :
  exists status r buffer, feed_reads (H := dot_library) (new_reader (H := dot_library) 100) [] dot_reads = Some (status, r, buffer) /\ size (decoded_body_ r) <= 100.
Proof.
  destruct (request_memory_bounded (H := dot_library) (H0 := dot_laws) 100 dot_reads ltac:(lia)) as (status & r & buffer & Hf & Hd & _). eauto.
Defined.
