(* ===== verification/XdbDatabase.v ===== *)
(** The address database of the service: src/service/features/geoip/xdb_database.h and location.h.

    A file is its size and its bytes; a byte read outside it is the outer [None]. *)
From S2P Require Import Prelude MatchList.
Open Scope Z_scope.

(** * Locations *)

Record ip_location := IpLocation { country_ : bytes; display_ : bytes; asn_ : bytes; as_name_ : bytes }.
#[export] Instance ip_location_eq_dec : EqDecision ip_location.
Proof. solve_decision. Defined.

Definition is_unknown_location_part (value : bytes) : bool :=
  empty value || (value == lit "0") || (value == lit "未知") || (value == lit "未知地区").
Definition is_asn (value : bytes) : bool :=
  match value with
  | a :: s :: digits => (3 <=? size value) && (a == "A"%char) && (s == "S"%char) && forallb is_digit digits
  | _ => false
  end.
Definition continents : list bytes :=
  map lit ["亚洲"; "欧洲"; "非洲"; "北美洲"; "南美洲"; "大洋洲"; "南极洲"; "Asia"; "Europe"; "Africa"; "North America"; "South America"; "Oceania"; "Antarctica"]%string.

(** The loop over the details of a place: two at most, each new. *)
Fixpoint details_loop (country : bytes) (parts selected : list bytes) (display : bytes) : bytes :=
  match parts with
  | [] => display
  | part :: parts =>
      if (2 <=? size selected) then display
      else if is_unknown_location_part part || (part == country) || bool_decide (part ∈ selected) then details_loop country parts selected display
      else details_loop country parts (selected ++ [part]) (display ++ lit " · " ++ part)
  end.
Definition part_at (parts : list bytes) (i : nat) : bytes := nth i parts [].
Definition parse_location (value : bytes) : option ip_location :=
  let parts := split_on "|" value in
  let country_index := if bool_decide (part_at parts 0 ∈ continents) then 1%nat else 0%nat in
  let current_five_field := (country_index =? 0)%nat && (size parts =? 5) && (is_unknown_location_part (part_at parts 3) || is_asn (part_at parts 3)) in
  let has_as_metadata := current_five_field && (is_asn (part_at parts 3) || negb (is_unknown_location_part (part_at parts 4))) in
  let has_country := (country_index <? length parts)%nat && negb (is_unknown_location_part (part_at parts country_index)) in
  if negb has_country && negb has_as_metadata then None
  else
    let country := if has_country then part_at parts country_index else [] in
    let display := if has_country then part_at parts country_index else lit "未知地区" in
    let asn := if current_five_field && is_asn (part_at parts 3) then part_at parts 3 else [] in
    let as_name := if current_five_field && negb (is_unknown_location_part (part_at parts 4)) then part_at parts 4 else [] in
    let rest := drop (S country_index) parts in
    let rest := if has_country then (if current_five_field then take 2 rest else rest) else [] in
    Some (IpLocation country (details_loop country rest [] display) asn as_name).

(** * The reader *)

Record xdb_file := XdbFile { file_size : Z; file_byte : Z -> Z }.
Definition file_ok (f : xdb_file) : Prop := forall i, byte (file_byte f i).
Definition byte_at (f : xdb_file) (i : Z) : option Z := if (0 <=? i) && (i <? file_size f) then Some (file_byte f i) else None.

Definition xdb_header_length : Z := 256.
Definition xdb_vector_length : Z := 256 * 256 * 8.
Definition xdb_content_offset : Z := xdb_header_length + xdb_vector_length.
Definition xdb_maximum_region_length : Z := 16 * 1024.

Definition read_little_endian16 (f : xdb_file) (i : Z) : option Z :=
  a ← byte_at f i; b ← byte_at f (i + 1); Some (Z.lor a (Z.shiftl b 8)).
Definition read_little_endian32 (f : xdb_file) (i : Z) : option Z :=
  a ← byte_at f i; b ← byte_at f (i + 1); c ← byte_at f (i + 2); d ← byte_at f (i + 3);
  Some (Z.lor (Z.lor (Z.lor a (Z.shiftl b 8)) (Z.shiftl c 16)) (Z.shiftl d 24)).
(** The text of [length] bytes from [i]. *)
Fixpoint text_at (f : xdb_file) (i : Z) (length : nat) : option bytes :=
  match length with
  | O => Some []
  | S length => c ← byte_at f i; text ← text_at f (i + 1) length; Some (chr c :: text)
  end.

Record xdb_reader := XdbReader { content_ : xdb_file; ip_version_ : Z; address_length_ : Z; record_length_ : Z; index_start_ : Z; index_end_ : Z }.

(** [open] of a file that could be read whole. *)
Definition open (content : xdb_file) (expected_ip_version : Z) : option (option xdb_reader) :=
  if file_size content <? xdb_content_offset then Some None
  else
    ip_version ← read_little_endian16 content 16;
    pointer_bytes ← read_little_endian16 content 18;
    index_start ← read_little_endian32 content 8;
    index_end ← read_little_endian32 content 12;
    let address_length := if ip_version =? 4 then 4 else 16 in
    let record_length := address_length * 2 + 2 + 4 in
    Some (if negb (ip_version =? expected_ip_version) || negb (pointer_bytes =? 4) || (index_start <? xdb_content_offset) || (index_end <? index_start) ||
             (file_size content <? index_end + record_length) || negb ((index_end - index_start) mod record_length =? 0)
          then None else Some (XdbReader content ip_version address_length record_length index_start index_end)).

(** The stored byte that is the [index]th of an address. *)
Definition stored_at (r : xdb_reader) (index : Z) : Z := if ip_version_ r =? 4 then address_length_ r - 1 - index else index.
(** The loop of [compare] over what is left of the address. *)
Fixpoint compare_loop (r : xdb_reader) (address : list Z) (stored index : Z) (count : nat) {struct count} : option Z :=
  match count, address with
  | O, _ => Some 0
  | S count, a :: address =>
      database_byte ← byte_at (content_ r) (stored + stored_at r index);
      if a <? database_byte then Some (-1)
      else if database_byte <? a then Some 1
      else compare_loop r address stored (index + 1) count
  | S _, [] => None
  end.
Definition compare (r : xdb_reader) (address : list Z) (stored : Z) : option Z := compare_loop r address stored 0 (Z.to_nat (address_length_ r)).

(** The location a record points to. *)
Definition region_of (r : xdb_reader) (record : Z) : option (option bytes) :=
  region_length ← read_little_endian16 (content_ r) (record + address_length_ r * 2);
  region_offset ← read_little_endian32 (content_ r) (record + address_length_ r * 2 + 2);
  if (region_length =? 0) || (xdb_maximum_region_length <? region_length) || (file_size (content_ r) <? region_offset) ||
     (file_size (content_ r) - region_offset <? region_length)
  then Some None
  else text ← text_at (content_ r) region_offset (Z.to_nat region_length); Some (Some text).

(** [while (lower <= upper)]; [fuel] bounds the steps, and running out of it is also the outer [None]. *)
Fixpoint search_loop (fuel : nat) (r : xdb_reader) (address : list Z) (left lower upper : Z) : option (option ip_location) :=
  match fuel with
  | O => None
  | S fuel =>
      if upper <? lower then Some None
      else
        let middle := lower + (upper - lower) / 2 in
        let record := left + middle * record_length_ r in
        left_comparison ← compare r address record;
        right_comparison ← compare r address (record + address_length_ r);
        if left_comparison <? 0 then
          if middle =? 0 then Some None else search_loop fuel r address left lower (middle - 1)
        else if 0 <? right_comparison then search_loop fuel r address left (middle + 1) upper
        else text ← region_of r record; Some (text ≫= parse_location)
  end.
(** The bucket of an address: the first and the last of its records, [None] when the file has none. *)
Definition bucket_of (r : xdb_reader) (address : list Z) : option (option (Z * Z)) :=
  a ← address !! 0%nat; b ← address !! 1%nat;
  let bucket := xdb_header_length + (a * 256 + b) * 8 in
  left ← read_little_endian32 (content_ r) bucket;
  right ← read_little_endian32 (content_ r) (bucket + 4);
  Some (if (left =? 0) || (right =? 0) || (right <? left) || (left <? index_start_ r) || (index_end_ r <? right) ||
           negb ((left - index_start_ r) mod record_length_ r =? 0) || (file_size (content_ r) <? right + record_length_ r) ||
           negb ((right - left) mod record_length_ r =? 0)
        then None else Some (left, right)).
Definition lookup (r : xdb_reader) (address : list Z) : option (option ip_location) :=
  bucket ← bucket_of r address;
  match bucket with
  | None => Some None
  | Some (low, high) =>
      let upper := (high - low) / record_length_ r in
      search_loop (S (S (Z.to_nat upper))) r address low 0 upper
  end.

(** What a visitor is given of a record: the version, the ends of the range and the country. *)
Definition country_range : Type := Z * list Z * list Z * bytes.
Fixpoint address_at (r : xdb_reader) (stored index : Z) (count : nat) : option (list Z) :=
  match count with
  | O => Some []
  | S count => a ← byte_at (content_ r) (stored + stored_at r index); rest ← address_at r stored (index + 1) count; Some (a :: rest)
  end.
Definition visit_record (r : xdb_reader) (record : Z) : option (list country_range) :=
  region ← region_of r record;
  match region ≫= parse_location with
  | Some location =>
      if empty (country_ location) then Some []
      else
        first ← address_at r record 0 (Z.to_nat (address_length_ r));
        last ← address_at r (record + address_length_ r) 0 (Z.to_nat (address_length_ r));
        Some [(ip_version_ r, first, last, country_ location)]
  | None => Some []
  end.
(** [for (offset = index_start_; offset <= index_end_; offset += record_length_)], in the order of the calls. *)
Fixpoint visit_loop (fuel : nat) (r : xdb_reader) (offset : Z) : option (list country_range) :=
  match fuel with
  | O => None
  | S fuel =>
      if index_end_ r <? offset then Some []
      else visited ← visit_record r offset; rest ← visit_loop fuel r (offset + record_length_ r); Some (visited ++ rest)
  end.
Definition visit_countries (r : xdb_reader) : option (list country_range) := visit_loop (S (S (Z.to_nat (index_end_ r - index_start_ r)))) r (index_start_ r).

(** * The database *)

Section Database.
Context `{Asio}.

(** The sixteen bytes, zero after those of an IPv4 address. *)
Definition parse_address (value : bytes) (expected_ip_version : Z) : option (list Z) :=
  match make_address value with
  | None => None
  | Some a =>
      if ((expected_ip_version =? 4) && negb (is_v4 a)) || ((expected_ip_version =? 6) && is_v4 a) then None
      else Some (address_bytes a ++ replicate (16 - length (address_bytes a)) 0)
  end.
Record xdb_database := XdbDatabase { ipv4_ : option xdb_reader; ipv6_ : option xdb_reader }.
Definition database_lookup (d : xdb_database) (ip : bytes) : option (option ip_location) :=
  if empty ip || (64 <? size ip) then Some None
  else match parse_address ip 4 with
  | Some ipv4 => match ipv4_ d with Some r => lookup r ipv4 | None => Some None end
  | None =>
      match parse_address ip 6 with
      | Some ipv6 => match ipv6_ d with Some r => lookup r ipv6 | None => Some None end
      | None => Some None
      end
  end.
Definition country (d : xdb_database) (ip : bytes) : option (option bytes) :=
  location ← database_lookup d ip;
  Some (match location with Some l => if empty (country_ l) then None else Some (country_ l) | None => None end).
End Database.

(** * Reads stay in the file *)

Record reader_ok (r : xdb_reader) : Prop := {
  ok_file : file_ok (content_ r);
  ok_address : address_length_ r = (if ip_version_ r =? 4 then 4 else 16);
  ok_record : record_length_ r = address_length_ r * 2 + 6;
  ok_index : xdb_content_offset <= index_start_ r <= index_end_ r /\ index_end_ r + record_length_ r <= file_size (content_ r);
  ok_aligned : (index_end_ r - index_start_ r) mod record_length_ r = 0 }.
Definition address_ok (address : list Z) : Prop := length address = 16%nat /\ Forall byte address.

Lemma byte_at_ok f i : file_ok f -> 0 <= i < file_size f -> byte_at f i = Some (file_byte f i) /\ byte (file_byte f i).
Proof. intros Hf Hi. split; [|apply Hf]. unfold byte_at. by rewrite (proj2 (Z.leb_le 0 i)), (proj2 (Z.ltb_lt i _)) by lia. Qed.
(** Reads the byte at the head of the goal's first [byte_at]. *)
Ltac read_byte Hf :=
  match goal with |- context [byte_at ?f ?i] =>
    let E := fresh "E" in let B := fresh "B" in
    destruct (byte_at_ok f i Hf) as [E B]; [lia|rewrite E; clear E; cbn [mbind option_bind]] end.
Lemma lor_byte a b n : byte a -> byte b -> 0 <= n -> 0 <= Z.lor a (Z.shiftl b n).
Proof. unfold byte. intros Ha Hb Hn. apply Z.lor_nonneg. split; [lia|]. apply Z.shiftl_nonneg. lia. Qed.
Lemma read16_ok f i : file_ok f -> 0 <= i -> i + 2 <= file_size f -> exists v, read_little_endian16 f i = Some v /\ 0 <= v.
Proof. intros Hf Hi Hs. unfold read_little_endian16. read_byte Hf. read_byte Hf. eexists. split; [done|]. by apply lor_byte. Qed.
Lemma read32_ok f i : file_ok f -> 0 <= i -> i + 4 <= file_size f -> exists v, read_little_endian32 f i = Some v /\ 0 <= v.
Proof.
  intros Hf Hi Hs. unfold read_little_endian32. do 4 read_byte Hf. eexists. split; [done|]. unfold byte in *.
  repeat (apply Z.lor_nonneg; split); try lia; apply Z.shiftl_nonneg; lia.
Qed.
Lemma text_at_ok f n : file_ok f -> forall i, 0 <= i -> i + Z.of_nat n <= file_size f -> exists text, text_at f i n = Some text /\ length text = n.
Proof.
  intros Hf. induction n as [|n IH]; intros i Hi Hs; cbn [text_at]; [by exists []|]. read_byte Hf.
  destruct (IH (i + 1)) as (text & -> & Hl); [lia|lia|]. eexists. split; [done|]. cbn. by rewrite Hl.
Qed.

(** What [open] checks. *)
Lemma open_ok content version result : file_ok content -> open content version = Some (Some result) -> reader_ok result /\ ip_version_ result = version.
Proof.
  intros Hf. unfold open. destruct (Z.ltb_spec (file_size content) xdb_content_offset) as [|Hsize]; [done|]. unfold xdb_content_offset, xdb_header_length, xdb_vector_length in Hsize.
  destruct (read16_ok content 16 Hf) as (v & -> & _); [lia..|]. destruct (read16_ok content 18 Hf) as (p & -> & _); [lia..|].
  destruct (read32_ok content 8 Hf) as (s & -> & _); [lia..|]. destruct (read32_ok content 12 Hf) as (e & -> & _); [lia..|]. cbn [mbind option_bind]. cbv zeta.
  destruct (_ || _) eqn:E; [done|]. intros [= <-]. rewrite !orb_false_iff in E. destruct E as [[[[[E1 _] E2] E3] E4] E5].
  split; [split|]; cbn; try done; reflect_bool; try lia.
Qed.

(** ** Addresses as numbers *)

Fixpoint be (l : list Z) : Z := match l with [] => 0 | a :: l => a * 256 ^ Z.of_nat (length l) + be l end.
Lemma be_range l : Forall byte l -> 0 <= be l < 256 ^ Z.of_nat (length l).
Proof.
  induction 1 as [|a l Ha Hl IH]; cbn [be length]; [done|]. rewrite Nat2Z.inj_succ, Z.pow_succ_r by lia. unfold byte in Ha. nia.
Qed.
Lemma be_compare a b l m : length l = length m -> Forall byte l -> Forall byte m -> a < b -> be (a :: l) < be (b :: m).
Proof. intros E Hl Hm Hab. cbn [be]. rewrite E. pose proof (be_range l Hl) as H1'. pose proof (be_range m Hm). rewrite E in H1'. nia. Qed.

Fixpoint stored_from (r : xdb_reader) (stored index : Z) (count : nat) : list Z :=
  match count with O => [] | S count => file_byte (content_ r) (stored + stored_at r index) :: stored_from r stored (index + 1) count end.
Definition stored_address (r : xdb_reader) (stored : Z) : list Z := stored_from r stored 0 (Z.to_nat (address_length_ r)).
Definition address_value (r : xdb_reader) (address : list Z) : Z := be (take (Z.to_nat (address_length_ r)) address).
Definition record_start (r : xdb_reader) (record : Z) : Z := be (stored_address r record).
Definition record_end (r : xdb_reader) (record : Z) : Z := be (stored_address r (record + address_length_ r)).
Definition sign (c : Datatypes.comparison) : Z := match c with Lt => -1 | Eq => 0 | Gt => 1 end.

Lemma stored_from_length r stored count : forall index, length (stored_from r stored index count) = count.
Proof. induction count as [|count IH]; intros index; cbn; [done|by rewrite IH]. Qed.
Lemma stored_from_bytes r stored count : file_ok (content_ r) -> forall index, Forall byte (stored_from r stored index count).
Proof. intros Hf. induction count as [|count IH]; intros index; cbn; constructor; [apply Hf|apply IH]. Qed.
Lemma stored_at_range r index : reader_ok r -> 0 <= index < address_length_ r -> 0 <= stored_at r index < address_length_ r.
Proof. intros _ Hi. unfold stored_at. destruct (_ =? _); lia. Qed.

Lemma compare_loop_spec r stored count : reader_ok r -> 0 <= stored -> stored + address_length_ r <= file_size (content_ r) -> forall address index, 0 <= index ->
  index + Z.of_nat count <= address_length_ r -> (count <= length address)%nat -> Forall byte address ->
  compare_loop r address stored index count = Some (sign (be (take count address) ?= be (stored_from r stored index count))).
Proof.
  intros Hr H0 Hs. induction count as [|count IH]; intros address index Hi Hc Hl Hb; cbn [compare_loop]; [done|].
  destruct address as [|a address]; [cbn in Hl; lia|]. inversion Hb as [|? ? Ha Hb']; subst. cbn [length] in Hl.
  destruct (stored_at_range r index Hr) as [S1 S2]; [lia|]. destruct (byte_at_ok (content_ r) (stored + stored_at r index) (ok_file r Hr)) as [E B]; [lia|].
  rewrite E. cbn [mbind option_bind take stored_from]. set (d := file_byte (content_ r) (stored + stored_at r index)) in *.
  assert (Hlen : length (take count address) = length (stored_from r stored (index + 1) count)) by (rewrite stored_from_length, length_take; lia).
  assert (Ht : Forall byte (take count address)) by (by apply Forall_take). pose proof (stored_from_bytes r stored count (ok_file r Hr) (index + 1)) as Hd.
  destruct (Z.ltb_spec a d) as [Hlt|Hge]; [|destruct (Z.ltb_spec d a) as [Hgt|Hle]].
  - by rewrite (proj2 (Z.compare_lt_iff _ _) (be_compare a d _ _ Hlen Ht Hd Hlt)).
  - by rewrite (proj2 (Z.compare_gt_iff _ _) (be_compare d a _ _ (eq_sym Hlen) Hd Ht Hgt)).
  - assert (a = d) as -> by lia. rewrite IH by (done || lia). cbn [be]. rewrite Hlen, Z.add_compare_mono_l. done.
Qed.

Lemma compare_spec r address stored : reader_ok r -> address_ok address -> 0 <= stored -> stored + address_length_ r <= file_size (content_ r) ->
  compare r address stored = Some (sign (address_value r address ?= be (stored_address r stored))).
Proof.
  intros Hr [Hl Hb] H0 Hs. unfold compare, address_value, stored_address. pose proof (ok_address r Hr) as Ha.
  apply compare_loop_spec; try done; destruct (ip_version_ r =? 4); rewrite Ha in *; lia.
Qed.
Lemma sign_less a b : (sign (a ?= b) <? 0) = (a <? b).
Proof. unfold Z.ltb. by destruct (a ?= b). Qed.
Lemma sign_greater a b : (0 <? sign (a ?= b)) = (b <? a).
Proof. unfold Z.ltb at 2. rewrite Z.compare_antisym. by destruct (b ?= a). Qed.
Lemma region_of_ok r record : reader_ok r -> 0 <= record -> record + record_length_ r <= file_size (content_ r) -> exists region, region_of r record = Some region.
Proof.
  intros Hr H0 Hs. pose proof (ok_record r Hr) as El. pose proof (ok_address r Hr) as Ea. assert (0 < address_length_ r) by (destruct (ip_version_ r =? 4); lia). unfold region_of.
  destruct (read16_ok (content_ r) (record + address_length_ r * 2) (ok_file r Hr)) as (n & -> & Hn); [lia..|].
  destruct (read32_ok (content_ r) (record + address_length_ r * 2 + 2) (ok_file r Hr)) as (o & -> & Ho); [lia..|]. cbn [mbind option_bind].
  destruct (_ || _) eqn:E; [by eexists|]. rewrite !orb_false_iff in E. destruct E as [[[E1 E2] E3] E4]. reflect_bool.
  destruct (text_at_ok (content_ r) (Z.to_nat n) (ok_file r Hr) o) as (text & -> & _); [lia|lia|]. by eexists.
Qed.

(** * The search *)

(** A run of records: [count + 1] of them from [first], all inside the file. *)
Record run_ok (r : xdb_reader) (first count : Z) : Prop := { run_first : 0 <= first; run_count : 0 <= count; run_size : first + (count + 1) * record_length_ r <= file_size (content_ r) }.
Definition record_at (r : xdb_reader) (first i : Z) : Z := first + i * record_length_ r.
Definition holds (r : xdb_reader) (address : list Z) (record : Z) : bool :=
  (record_start r record <=? address_value r address) && (address_value r address <=? record_end r record).
(** The records of a run follow one another and do not overlap. *)
Definition sorted (r : xdb_reader) (first count : Z) : Prop :=
  (forall i, 0 <= i <= count -> record_start r (record_at r first i) <= record_end r (record_at r first i)) /\
  (forall i j, 0 <= i < j -> j <= count -> record_end r (record_at r first i) < record_start r (record_at r first j)).
Definition located (r : xdb_reader) (record : Z) : option (option ip_location) := text ← region_of r record; Some (text ≫= parse_location).

Lemma record_in_run r first count i : reader_ok r -> run_ok r first count -> 0 <= i <= count ->
  0 <= record_at r first i /\ record_at r first i + record_length_ r <= file_size (content_ r).
Proof.
  intros Hr [H1' H2' H3'] Hi. unfold record_at. pose proof (ok_record r Hr). pose proof (ok_address r Hr). assert (0 < record_length_ r) by (destruct (ip_version_ r =? 4); lia). nia.
Qed.

(** One step of the search, with its comparisons decided. *)
Lemma search_step r address first count fuel lower upper : reader_ok r -> address_ok address -> run_ok r first count -> 0 <= lower -> lower <= upper -> upper <= count ->
  let middle := lower + (upper - lower) / 2 in let record := record_at r first middle in
  lower <= middle <= upper /\
  search_loop (S fuel) r address first lower upper =
    (if address_value r address <? record_start r record then (if middle =? 0 then Some None else search_loop fuel r address first lower (middle - 1))
     else if record_end r record <? address_value r address then search_loop fuel r address first (middle + 1) upper
     else located r record).
Proof.
  intros Hr Ha Hrun Hl Hlu Hu middle record. assert (Hm : lower <= middle <= upper) by (unfold middle; Z.to_euclidean_division_equations; lia). split; [done|].
  destruct (record_in_run r first count middle Hr Hrun) as [R1 R2]; [lia|]. fold record in R1, R2. pose proof (ok_record r Hr) as El. pose proof (ok_address r Hr) as Ea.
  assert (0 < address_length_ r) by (destruct (ip_version_ r =? 4); lia). cbn [search_loop]. rewrite (proj2 (Z.ltb_ge upper lower)) by lia. fold middle. change (first + middle * record_length_ r) with record.
  rewrite !compare_spec by (done || lia). cbn [mbind option_bind]. by rewrite sign_less, sign_greater.
Qed.

(** Whatever is in the file, the search ends without leaving it. *)
Lemma search_loop_safe r address first count fuel : reader_ok r -> address_ok address -> run_ok r first count -> forall lower upper, 0 <= lower -> upper <= count ->
  (Z.to_nat (upper - lower + 1) < fuel)%nat -> is_Some (search_loop fuel r address first lower upper).
Proof.
  intros Hr Ha Hrun. induction fuel as [|fuel IH]; intros lower upper Hl Hu Hf; [lia|]. destruct (Z.le_gt_cases lower upper) as [Hlu|Hgt].
  - destruct (search_step r address first count fuel lower upper) as [Hm ->]; try done. cbv zeta in Hm. set (middle := lower + (upper - lower) / 2) in *.
    destruct (_ <? _); [destruct (Z.eqb_spec middle 0); [by eexists|apply IH; lia]|]. destruct (_ <? _); [apply IH; lia|].
    destruct (record_in_run r first count middle Hr Hrun) as [R1 R2]; [lia|]. unfold located. destruct (region_of_ok r (record_at r first middle) Hr R1 R2) as [region ->]. by eexists.
  - cbn [search_loop]. rewrite (proj2 (Z.ltb_lt upper lower)) by lia. by eexists.
Qed.

Lemma holds_spec r address record : holds r address record = true <-> record_start r record <= address_value r address <= record_end r record.
Proof. unfold holds. rewrite andb_true_iff, !Z.leb_le. done. Qed.
(** In a sorted run an address is in one record at most. *)
Lemma holds_order r address first count i j : sorted r first count -> 0 <= i <= count -> 0 <= j <= count -> holds r address (record_at r first i) = true ->
  (record_end r (record_at r first j) < address_value r address -> j < i) /\ (address_value r address < record_start r (record_at r first j) -> i < j).
Proof.
  intros [Hself Hnext] Hi Hj [H1' H2']%holds_spec. split; intros Hlt.
  - destruct (Z.lt_trichotomy j i) as [?|[->|Hgt]]; [done|lia|]. pose proof (Hnext i j ltac:(lia) ltac:(lia)). pose proof (Hself j ltac:(lia)). lia.
  - destruct (Z.lt_trichotomy i j) as [?|[->|Hgt]]; [done|lia|]. pose proof (Hnext j i ltac:(lia) ltac:(lia)). pose proof (Hself j ltac:(lia)). lia.
Qed.
Lemma holds_unique r address first count i j : sorted r first count -> 0 <= i <= count -> 0 <= j <= count ->
  holds r address (record_at r first i) = true -> holds r address (record_at r first j) = true -> i = j.
Proof.
  intros [_ Hnext] Hi Hj [H1' H2']%holds_spec [H3' H4']%holds_spec. destruct (Z.lt_trichotomy i j) as [Hlt|[?|Hgt]]; [|done|].
  - pose proof (Hnext i j ltac:(lia) ltac:(lia)). lia.
  - pose proof (Hnext j i ltac:(lia) ltac:(lia)). lia.
Qed.

(** In a sorted run the search gives the record that holds the address. *)
Lemma search_loop_exact r address first count fuel : reader_ok r -> address_ok address -> run_ok r first count -> sorted r first count -> forall lower upper, 0 <= lower -> upper <= count ->
  (Z.to_nat (upper - lower + 1) < fuel)%nat -> (forall i, 0 <= i <= count -> holds r address (record_at r first i) = true -> lower <= i <= upper) ->
  (forall i, 0 <= i <= count -> holds r address (record_at r first i) = true -> search_loop fuel r address first lower upper = located r (record_at r first i)) /\
  ((forall i, 0 <= i <= count -> holds r address (record_at r first i) = false) -> search_loop fuel r address first lower upper = Some None).
Proof.
  intros Hr Ha Hrun Hsort. induction fuel as [|fuel IH]; intros lower upper Hl Hu Hf Hin; [lia|]. destruct (Z.le_gt_cases lower upper) as [Hlu|Hgt].
  - destruct (search_step r address first count fuel lower upper) as [Hm ->]; try done. cbv zeta in Hm. set (middle := lower + (upper - lower) / 2) in *.
    assert (Hmc : 0 <= middle <= count) by lia.
    destruct (Z.ltb_spec (address_value r address) (record_start r (record_at r first middle))) as [Hlt|Hge].
    + assert (Hin' : forall i, 0 <= i <= count -> holds r address (record_at r first i) = true -> lower <= i <= middle - 1).
      { intros i Hi Hh. pose proof (Hin i Hi Hh). pose proof (proj2 (holds_order r address first count i middle Hsort Hi Hmc Hh) Hlt). lia. }
      destruct (Z.eqb_spec middle 0) as [E|]; [|apply IH; (done || lia)]. split; [|done]. intros i Hi Hh. pose proof (Hin' i Hi Hh). lia.
    + destruct (Z.ltb_spec (record_end r (record_at r first middle)) (address_value r address)) as [Hlt|Hge2].
      * apply IH; [lia|lia|lia|]. intros i Hi Hh. pose proof (Hin i Hi Hh). pose proof (proj1 (holds_order r address first count i middle Hsort Hi Hmc Hh) Hlt). lia.
      * assert (Hh : holds r address (record_at r first middle) = true) by (apply holds_spec; lia). split; [|intros Hno; by rewrite Hno in Hh].
        intros i Hi Hhi. by rewrite (holds_unique r address first count i middle Hsort Hi Hmc Hhi Hh).
  - cbn [search_loop]. rewrite (proj2 (Z.ltb_lt upper lower)) by lia. split; [|done]. intros i Hi Hh. pose proof (Hin i Hi Hh). lia.
Qed.

(** ** A lookup *)

Lemma bucket_of_ok r address : reader_ok r -> address_ok address -> exists bucket, bucket_of r address = Some bucket /\
  forall low high, bucket = Some (low, high) -> run_ok r low ((high - low) / record_length_ r) /\ 0 < record_length_ r.
Proof.
  intros Hr [Hl Hb]. destruct address as [|a [|b address]]; try done. inversion Hb as [|? ? Ha Hb']; subst. inversion Hb' as [|? ? Hb1 _]; subst. unfold bucket_of.
  change ((a :: b :: address) !! 0%nat) with (Some a). change ((a :: b :: address) !! 1%nat) with (Some b). cbn [mbind option_bind]. cbv zeta.
  pose proof (ok_index r Hr) as [[Hi1 Hi2] Hi3]. pose proof (ok_record r Hr) as El. pose proof (ok_address r Hr) as Ea. assert (0 < record_length_ r) by (destruct (ip_version_ r =? 4); lia).
  unfold xdb_content_offset, xdb_header_length, xdb_vector_length, byte in *.
  destruct (read32_ok (content_ r) (256 + (a * 256 + b) * 8) (ok_file r Hr)) as (low & -> & Hlow); [lia..|].
  destruct (read32_ok (content_ r) (256 + (a * 256 + b) * 8 + 4) (ok_file r Hr)) as (high & -> & Hhigh); [lia..|]. cbn [mbind option_bind].
  eexists. split; [done|]. intros low' high'. destruct (_ || _) eqn:E; [done|]. intros [= <- <-]. rewrite !orb_false_iff in E. destruct E as [[[[[[[E1 E2] E3] E4] E5] E6] E7] E8]. reflect_bool.
  split; [|done]. split; [done|apply Z.div_pos; lia|]. pose proof (Z.mul_div_le (high - low) (record_length_ r) ltac:(lia)). nia.
Qed.

(** The records of a bucket, searched from the first to the last. *)
Definition bucket_records (r : xdb_reader) (low high : Z) : list Z := map (fun i => record_at r low i) (seqZ 0 ((high - low) / record_length_ r + 1)).
Definition linear_lookup (r : xdb_reader) (address : list Z) : option (option ip_location) :=
  bucket ← bucket_of r address;
  match bucket with
  | None => Some None
  | Some (low, high) => match List.find (holds r address) (bucket_records r low high) with Some record => located r record | None => Some None end
  end.
Definition bucket_sorted (r : xdb_reader) (address : list Z) : Prop :=
  forall low high, bucket_of r address = Some (Some (low, high)) -> sorted r low ((high - low) / record_length_ r).

(** Whatever a file holds, a reader that opened it looks an address up within the bytes of the
    file, in as many steps as its bucket has records at most. *)
Theorem lookup_in_bounds content version r address : file_ok content -> open content version = Some (Some r) -> address_ok address -> is_Some (lookup r address).
Proof.
  intros Hf Hopen Ha. destruct (open_ok content version r Hf Hopen) as [Hr _]. unfold lookup. destruct (bucket_of_ok r address Hr Ha) as (bucket & -> & Hb). cbn [mbind option_bind].
  destruct bucket as [[low high]|]; [|by eexists]. destruct (Hb low high eq_refl) as [Hrun _]. apply (search_loop_safe r address low ((high - low) / record_length_ r)); try done. lia.
Qed.

(** When the records of the bucket follow one another, the binary search finds the location of the
    record that holds the address, and nothing when none does, as a search from the first to the
    last record would. *)
Theorem lookup_exact content version r address : file_ok content -> open content version = Some (Some r) -> address_ok address -> bucket_sorted r address ->
  lookup r address = linear_lookup r address.
Proof.
  intros Hf Hopen Ha Hsort. destruct (open_ok content version r Hf Hopen) as [Hr _]. unfold lookup, linear_lookup. destruct (bucket_of_ok r address Hr Ha) as (bucket & Eb & Hb). rewrite Eb. cbn [mbind option_bind].
  destruct bucket as [[low high]|]; [|done]. destruct (Hb low high eq_refl) as [Hrun _]. specialize (Hsort low high Eb). set (count := (high - low) / record_length_ r) in *. cbv zeta.
  destruct (search_loop_exact r address low count (S (S (Z.to_nat count))) Hr Ha Hrun Hsort 0 count) as [Hfound Hnone]; [lia|lia|lia|by intros|].
  unfold bucket_records. fold count. destruct (List.find (holds r address) (map (fun i => record_at r low i) (seqZ 0 (count + 1)))) as [record|] eqn:E.
  - apply find_some in E as [Hin Hh]. apply in_map_iff in Hin as (i & <- & Hi). apply list_elem_of_In, elem_of_seqZ in Hi. apply Hfound; [lia|done].
  - apply Hnone. intros i Hi. apply (find_none _ _ E). apply in_map_iff. exists i. split; [done|]. apply list_elem_of_In, elem_of_seqZ. lia.
Qed.

(** ** A database *)

Section DatabaseTheory.
Context `{AsioLaws}.

Lemma parse_address_ok value version address : parse_address value version = Some address -> address_ok address.
Proof.
  unfold parse_address. destruct (make_address value) as [a|]; [|done]. destruct (_ || _); [done|]. intros [= <-]. pose proof (bytes_range a) as Hb.
  assert (length (address_bytes a) <= 16)%nat as Hl by (destruct (is_v4 a) eqn:E; [rewrite (v4_bytes a E)|rewrite (v6_bytes a E)]; lia).
  split; [rewrite length_app, length_replicate; lia|]. apply Forall_app. split; [done|]. by apply Forall_replicate.
Qed.
(** The readers of a database are files that were opened. *)
Definition opened (reader : option xdb_reader) (version : Z) : Prop :=
  forall r, reader = Some r -> exists content, file_ok content /\ open content version = Some (Some r).

(** C38. A lookup of any text in any pair of files that were opened is within the bytes of the files and
    ends; what is no address, or of a version without a file, has no location. *)
Theorem database_in_bounds d ip : opened (ipv4_ d) 4 -> opened (ipv6_ d) 6 -> exists location, database_lookup d ip = Some location /\
  (location <> None -> exists a, make_address ip = Some a /\ is_Some (if is_v4 a then ipv4_ d else ipv6_ d)).
Proof.
  intros H4' H6'. unfold database_lookup. destruct (_ || _); [by exists None|].
  assert (Hlook : forall reader version address, opened reader version -> address_ok address -> exists location,
    match reader with Some r => lookup r address | None => Some None end = Some location /\ (location <> None -> is_Some reader)).
  { intros reader version address Hr Ha. destruct reader as [r|]; [|by exists None]. destruct (Hr r eq_refl) as (content & Hf & Ho).
    destruct (lookup_in_bounds content version r address Hf Ho Ha) as [location E]. exists location. split; [done|by eexists]. }
  destruct (parse_address ip 4) as [address|] eqn:E4; [|destruct (parse_address ip 6) as [address|] eqn:E6; [|by exists None]].
  - destruct (Hlook (ipv4_ d) 4 address H4' (parse_address_ok _ _ _ E4)) as (location & El & Hd). exists location. split; [done|]. intros Hn.
    unfold parse_address in E4. destruct (make_address ip) as [a|]; [|done]. exists a. split; [done|]. destruct (is_v4 a); [by apply Hd|done].
  - destruct (Hlook (ipv6_ d) 6 address H6' (parse_address_ok _ _ _ E6)) as (location & El & Hd). exists location. split; [done|]. intros Hn.
    unfold parse_address in E6. destruct (make_address ip) as [a|]; [|done]. exists a. split; [done|]. destruct (is_v4 a); [done|by apply Hd].
Qed.
End DatabaseTheory.

(** * Visiting *)

Definition index_records (r : xdb_reader) : list Z := map (fun i => record_at r (index_start_ r) i) (seqZ 0 ((index_end_ r - index_start_ r) / record_length_ r + 1)).

Lemma address_at_ok r stored count : reader_ok r -> 0 <= stored -> stored + address_length_ r <= file_size (content_ r) -> forall index, 0 <= index ->
  index + Z.of_nat count <= address_length_ r -> address_at r stored index count = Some (stored_from r stored index count).
Proof.
  intros Hr H0 Hs. induction count as [|count IH]; intros index Hi Hc; cbn [address_at stored_from]; [done|]. destruct (stored_at_range r index Hr) as [S1 S2]; [lia|].
  destruct (byte_at_ok (content_ r) (stored + stored_at r index) (ok_file r Hr)) as [-> _]; [lia|]. cbn [mbind option_bind]. by rewrite IH by lia.
Qed.
(** A record visited: its range in address order, when it has a country. *)
Lemma visit_record_ok r record : reader_ok r -> 0 <= record -> record + record_length_ r <= file_size (content_ r) ->
  visit_record r record = (region ← region_of r record;
    Some (match region ≫= parse_location with
          | Some location => if empty (country_ location) then [] else [(ip_version_ r, stored_address r record, stored_address r (record + address_length_ r), country_ location)]
          | None => [] end)).
Proof.
  intros Hr H0 Hs. pose proof (ok_record r Hr) as El. pose proof (ok_address r Hr) as Ea. assert (0 < address_length_ r) by (destruct (ip_version_ r =? 4); lia).
  unfold visit_record, stored_address. destruct (region_of r record) as [region|]; [|done]. cbn [mbind option_bind]. destruct (region ≫= parse_location) as [location|]; [|done].
  destruct (empty (country_ location)); [done|]. rewrite !address_at_ok by (done || lia). done.
Qed.
Lemma visit_loop_exact r fuel : reader_ok r -> forall k, 0 <= k <= (index_end_ r - index_start_ r) / record_length_ r + 1 -> (Z.to_nat ((index_end_ r - index_start_ r) / record_length_ r + 1 - k) < fuel)%nat ->
  exists visited, mapM (visit_record r) (map (fun i => record_at r (index_start_ r) i) (seqZ k ((index_end_ r - index_start_ r) / record_length_ r + 1 - k))) = Some visited /\
    visit_loop fuel r (record_at r (index_start_ r) k) = Some (concat visited).
Proof.
  intros Hr. pose proof (ok_index r Hr) as [Hi Hsize]. pose proof (ok_aligned r Hr) as Hal. pose proof (ok_record r Hr) as El. pose proof (ok_address r Hr) as Ea. assert (0 < record_length_ r) as Hpos by (destruct (ip_version_ r =? 4); lia).
  set (count := (index_end_ r - index_start_ r) / record_length_ r). assert (Hend : index_end_ r = index_start_ r + count * record_length_ r) by (unfold count; Z.to_euclidean_division_equations; lia).
  clearbody count. unfold xdb_content_offset, xdb_header_length, xdb_vector_length in Hi. induction fuel as [|fuel IH]; intros k Hk Hf; [lia|]. cbn [visit_loop]. rewrite Hend.
  destruct (Z.le_gt_cases k count) as [Hle|Hgt].
  - rewrite (proj2 (Z.ltb_ge _ _)) by (unfold record_at; nia). rewrite (seqZ_cons k) by lia. cbn [map mapM]. replace (Z.pred (count + 1 - k)) with (count + 1 - Z.succ k) by lia.
    rewrite visit_record_ok by (unfold record_at; (done || nia)). destruct (region_of_ok r (record_at r (index_start_ r) k) Hr) as [region ->]; [unfold record_at; nia..|]. cbn [mbind option_bind].
    destruct (IH (Z.succ k)) as (visited & Em & Ev); [lia|lia|]. replace (record_at r (index_start_ r) k + record_length_ r) with (record_at r (index_start_ r) (Z.succ k)) by (unfold record_at; lia).
    rewrite Em, Ev. cbn [mbind option_bind]. by eexists.
  - rewrite (proj2 (Z.ltb_lt _ _)) by (unfold record_at; nia). replace (count + 1 - k) with 0 by lia. by exists [].
Qed.

(** The visitor of an opened file is called for every record of the index that names a country, in
    the order of the index, with the ends of its range in address order; the loop ends. *)
Theorem visit_exact content version r : file_ok content -> open content version = Some (Some r) ->
  exists visited, mapM (visit_record r) (index_records r) = Some visited /\ visit_countries r = Some (concat visited) /\
    forall record, record ∈ index_records r -> index_start_ r <= record <= index_end_ r.
Proof.
  intros Hf Hopen. destruct (open_ok content version r Hf Hopen) as [Hr _]. pose proof (ok_index r Hr) as [Hi Hsize]. pose proof (ok_record r Hr) as El. pose proof (ok_address r Hr) as Ea.
  assert (0 < record_length_ r) as Hpos by (destruct (ip_version_ r =? 4); lia). unfold visit_countries, index_records.
  assert (0 <= (index_end_ r - index_start_ r) / record_length_ r <= index_end_ r - index_start_ r) as Hc by (split; [apply Z.div_pos; lia|apply Z.div_le_upper_bound; nia]).
  destruct (visit_loop_exact r (S (S (Z.to_nat (index_end_ r - index_start_ r)))) Hr 0) as (visited & Em & Ev); [lia|lia|]. replace (record_at r (index_start_ r) 0) with (index_start_ r) in Ev by (unfold record_at; lia).
  rewrite Z.sub_0_r in Em. exists visited. split; [done|]. split; [done|].
  intros record (i & -> & Hin)%list_elem_of_fmap. apply elem_of_seqZ in Hin. unfold record_at. pose proof (Z.mul_div_le (index_end_ r - index_start_ r) (record_length_ r) Hpos). nia.
Qed.

(** * Witnesses *)

(** A file of the given texts at their places, and zeros. *)
Fixpoint placed (segments : list (Z * list Z)) (i : Z) : Z :=
  match segments with
  | [] => 0
  | (start, content) :: segments => if (start <=? i) && (i <? start + size content) then nth (Z.to_nat (i - start)) content 0 mod 256 else placed segments i
  end.
Lemma placed_ok size segments : file_ok (XdbFile size (placed segments)).
Proof.
  intros i. cbn. induction segments as [|[start content] segments IH]; cbn [placed]; [done|]. destruct (_ && _); [|done]. unfold byte. apply Z.mod_pos_bound. lia.
Qed.
Definition text (s : string) : list Z := map code (lit s).
(** Two records of 1.2.0.0/16, from 1.2.0.0 and from 1.2.4.0. *)
Definition sample_xdb : xdb_file := XdbFile 524700 (placed
  [(8, [0; 1; 8; 0; 14; 1; 8; 0; 4; 0; 4; 0]); (256 + 258 * 8, [0; 1; 8; 0; 14; 1; 8; 0]);
   (524544, [0; 0; 2; 1; 255; 3; 2; 1; 6; 0; 60; 1; 8; 0] ++ [0; 4; 2; 1; 255; 255; 2; 1; 20; 0; 80; 1; 8; 0]);
   (524604, text "Brazil"); (524624, text "Chile|0|0|AS64500|Ex")]).
Definition sample_reader : xdb_reader := XdbReader sample_xdb 4 4 14 524544 524558.
Definition sample_address : list Z := [1; 2; 9; 7] ++ replicate 12 0.
Lemma sample_open : open sample_xdb 4 = Some (Some sample_reader).
Proof. reflexivity. Qed.
Lemma sample_address_ok : address_ok sample_address.
Proof. by apply (bool_decide_unpack (length sample_address = 16%nat /\ Forall (fun z => 0 <= z < 256) sample_address)). Qed.
Lemma sample_sorted : bucket_sorted sample_reader sample_address.
Proof.
  intros low high Hb. assert (E : bucket_of sample_reader sample_address = Some (Some (524544, 524558))) by by vm_compute. rewrite E in Hb. injection Hb as <- <-.
  change ((524558 - 524544) / record_length_ sample_reader) with 1. split.
  - intros i Hi. assert (i = 0 \/ i = 1) as [->| ->] by lia; vm_compute; intros [=].
  - intros i j Hi Hj. assert (i = 0 /\ j = 1) as [-> ->] by lia. by vm_compute.
Qed.

Definition sample_database : xdb_database := XdbDatabase (Some sample_reader) None.
Lemma database_in_bounds_witness : exists location, database_lookup (H := dotted_quads) sample_database (lit "1.2.9.7") = Some location /\ location <> None.
Proof.
  destruct (database_in_bounds (H := dotted_quads) (H0 := dotted_quads_laws) sample_database (lit "1.2.9.7")) as (location & E & _).
  - intros r [= <-]. exists sample_xdb. split; [apply placed_ok|apply sample_open].
  - done.
  - exists location. split; [done|]. intros ->. by vm_compute in E.
Defined.
Lemma lookup_exact_witness : lookup sample_reader sample_address = Some (Some (IpLocation (lit "Chile") (lit "Chile") (lit "AS64500") (lit "Ex"))).
Proof. rewrite (lookup_exact sample_xdb 4 sample_reader sample_address (placed_ok _ _) sample_open sample_address_ok sample_sorted). by vm_compute. Defined.
Lemma visit_exact_witness :
  exists visited, visit_countries sample_reader = Some (concat visited) /\ concat visited = [(4, [1; 2; 0; 0], [1; 2; 3; 255], lit "Brazil"); (4, [1; 2; 4; 0], [1; 2; 255; 255], lit "Chile")].
Proof.
  destruct (visit_exact sample_xdb 4 sample_reader (placed_ok _ _) sample_open) as (visited & Hm & Hv & _). exists visited. split; [done|].
  assert (E : mapM (visit_record sample_reader) (index_records sample_reader) = Some [[(4, [1; 2; 0; 0], [1; 2; 3; 255], lit "Brazil")]; [(4, [1; 2; 4; 0], [1; 2; 255; 255], lit "Chile")]]) by by vm_compute.
  rewrite E in Hm. by injection Hm as <-.
Defined.
