(* ===== verification/AccessLog.v ===== *)
(** Access log records, from a request to what the service accepts: src/node/data/access_log_capture.h,
    the records of src/node/runtime/log_producer.h and the checks of
    src/service/features/log_ingest/envelope.h.

    The clocks and the random bytes are arguments; messages are records of their fields. *)
From S2P Require Import Prelude RoutePolicy Hex RouteMatch.
Open Scope Z_scope.

(** * The bounds both sides share: src/node/proto/log_contract.h *)

Definition max_website_id_bytes : Z := 36.
Definition max_client_ip_bytes : Z := 64.
Definition max_protocol_bytes : Z := 16.
Definition max_method_bytes : Z := 32.
Definition max_host_bytes : Z := 253.
Definition max_target_bytes : Z := 2048.
Definition max_user_agent_bytes : Z := 512.
Definition max_referer_bytes : Z := 512.
Definition max_request_headers_bytes : Z := 32 * 1024.
Definition max_request_body_bytes : Z := 512 * 1024.
Definition max_tls_fingerprint_bytes : Z := 128.
Definition max_response_headers_bytes : Z := 32 * 1024.
Definition max_query_string_bytes : Z := 2048.
Definition max_cookies_bytes : Z := 16 * 1024.
Definition max_node_level_bytes : Z := 16.
Definition max_node_category_bytes : Z := 64.
Definition max_node_message_bytes : Z := 2000.
Definition max_request_bytes : Z := 2 * 1024 * 1024.
Definition max_response_bytes : Z := 1024 * 1024 * 1024 * 1024.
Definition max_duration_ms : Z := 24 * 60 * 60 * 1000.
Definition max_connection_duration_ms : Z := 365 * 24 * 60 * 60 * 1000.
Definition max_connection_bytes : Z := 1024 * 1024 * 1024 * 1024.

(** * What the capture hands to the producer *)

Record access_record := AccessRecord {
  website_id_ : bytes; client_ip_ : bytes; protocol_ : bytes; method_ : bytes; host_ : bytes; target_ : bytes; status_code_ : Z; request_bytes_ : Z; response_bytes_ : Z;
  duration_ms_ : Z; user_agent_ : bytes; referer_ : bytes; request_headers_ : bytes; request_body_ : bytes; request_body_truncated_ : bool; tls_fingerprint_ : bytes;
  response_headers_ : bytes; query_string_ : bytes; cookies_ : bytes; cache_status_ : bytes; cache_reason_ : bytes; cache_revalidated_ : bool; request_type_ : bytes;
  started_unix_ms_ : Z; first_byte_ms_ : option Z; end_reason_ : bytes; waf_anomaly_score_ : option Z }.

(** The messages of src/node/proto/edge_control.proto. *)
Record access_log := AccessLog {
  id : bytes; occurred_unix_ms : Z; website_id : bytes; client_ip : bytes; protocol : bytes; method : bytes; host : bytes; target : bytes; status_code : Z;
  response_bytes : Z; duration_ms : Z; user_agent : bytes; referer : bytes; request_headers : bytes; request_body : bytes; request_body_truncated : bool;
  tls_fingerprint : bytes; response_headers : bytes; query_string : bytes; cookies : bytes; request_bytes : Z; cache_status : bytes; cache_reason : bytes;
  cache_revalidated : bool; request_type : bytes; started_unix_ms : Z; first_byte_ms : option Z; end_reason : bytes; total_duration_ms : option Z;
  total_request_bytes : option Z; total_response_bytes : option Z; waf_anomaly_score : option Z }.
Record node_log := NodeLog { node_log_id : bytes; node_log_occurred_unix_ms : Z; level : bytes; category : bytes; message : bytes }.
Inductive log_event := AccessEvent (value : access_log) | NodeEvent (value : node_log).

(** * The producer's records: src/node/runtime/log_producer.h *)

(** The sixteen bytes; [random] is what [RAND_bytes] gave when it succeeded. *)
Definition uuid_bytes (random : option bytes) (now_ms : Z) : bytes :=
  match random with
  | Some value => value
  | None => map (fun index => chr (Z.land (Z.shiftr now_ms (Z.of_nat (index mod 8) * 8)) 255)) (seq 0 16)
  end.
Definition with_version (value : bytes) : bytes :=
  alter (fun c => chr (Z.lor (Z.land (code c) 15) 64)) 6%nat (alter (fun c => chr (Z.lor (Z.land (code c) 63) 128)) 8%nat value).
Definition substr (s : bytes) (from count : nat) : bytes := take count (drop from s).
Definition uuid (random : option bytes) (now_ms : Z) : bytes :=
  let hex := hex_encode (with_version (uuid_bytes random now_ms)) in
  substr hex 0 8 ++ lit "-" ++ substr hex 8 4 ++ lit "-" ++ substr hex 12 4 ++ lit "-" ++ substr hex 16 4 ++ lit "-" ++ substr hex 20 12.

Definition bounded (value : bytes) (maximum : Z) : bytes := take (Z.to_nat maximum) value.
Definition printable_char (ch : ascii) : ascii :=
  if (code ch =? 10) || (code ch =? 13) || (code ch =? 9) || ((32 <=? code ch) && (code ch <=? 126)) then ch else "."%char.
Definition printable (value : bytes) (maximum : Z) : bytes := map printable_char (bounded value maximum).

Definition clamp (r : access_record) : access_record :=
  AccessRecord (bounded (website_id_ r) max_website_id_bytes) (bounded (client_ip_ r) max_client_ip_bytes) (bounded (protocol_ r) max_protocol_bytes)
    (bounded (method_ r) max_method_bytes) (bounded (host_ r) max_host_bytes) (bounded (target_ r) max_target_bytes) (Z.max 100 (Z.min 999 (status_code_ r)))
    (Z.min (request_bytes_ r) max_request_bytes) (Z.min (response_bytes_ r) max_response_bytes) (Z.min (duration_ms_ r) max_duration_ms)
    (bounded (user_agent_ r) max_user_agent_bytes) (bounded (referer_ r) max_referer_bytes) (printable (request_headers_ r) max_request_headers_bytes)
    (printable (request_body_ r) max_request_body_bytes) (request_body_truncated_ r || (max_request_body_bytes <? size (request_body_ r)))
    (bounded (tls_fingerprint_ r) max_tls_fingerprint_bytes) (printable (response_headers_ r) max_response_headers_bytes)
    (printable (query_string_ r) max_query_string_bytes) (printable (cookies_ r) max_cookies_bytes) (cache_status_ r) (cache_reason_ r) (cache_revalidated_ r)
    (request_type_ r) (started_unix_ms_ r) (first_byte_ms_ r) (end_reason_ r) (waf_anomaly_score_ r).

Definition access_event (random : option bytes) (now_ms : Z) (r : access_record) : log_event :=
  let total_duration := Z.min (duration_ms_ r) max_connection_duration_ms in
  let total_request := Z.min (request_bytes_ r) max_connection_bytes in
  let total_response := Z.min (response_bytes_ r) max_connection_bytes in
  let r := clamp r in
  let typed := negb (empty (request_type_ r)) in
  AccessEvent (AccessLog (uuid random now_ms) now_ms (website_id_ r) (client_ip_ r) (protocol_ r) (method_ r) (host_ r) (target_ r) (status_code_ r) (response_bytes_ r)
    (duration_ms_ r) (user_agent_ r) (referer_ r) (request_headers_ r) (request_body_ r) (request_body_truncated_ r) (tls_fingerprint_ r) (response_headers_ r)
    (query_string_ r) (cookies_ r) (request_bytes_ r) (cache_status_ r) (cache_reason_ r) (cache_revalidated_ r) (request_type_ r)
    (if typed then started_unix_ms_ r else 0) (if typed then (fun ms => Z.min ms total_duration) <$> first_byte_ms_ r else None) (if typed then end_reason_ r else [])
    (if typed then Some total_duration else None) (if typed then Some total_request else None) (if typed then Some total_response else None) (waf_anomaly_score_ r)).
Definition node_event (random : option bytes) (now_ms : Z) (level category message : bytes) : log_event :=
  NodeEvent (NodeLog (uuid random now_ms) now_ms (bounded level max_node_level_bytes) (bounded category max_node_category_bytes) (bounded message max_node_message_bytes)).

(** * The service's checks: src/service/common/uuid.h and src/service/features/log_ingest/envelope.h *)

Definition is_xdigit (ch : ascii) : bool := is_digit ch || in_range "a" "f" ch || in_range "A" "F" ch.
Fixpoint parse_uuid_from (index : nat) (input : bytes) : option bytes :=
  match input with
  | [] => Some []
  | ch :: input =>
      if (index =? 8)%nat || (index =? 13)%nat || (index =? 18)%nat || (index =? 23)%nat then
        if ch != "-"%char then None else cons ch <$> parse_uuid_from (S index) input
      else if negb (is_xdigit ch) then None else cons (lower_ascii ch) <$> parse_uuid_from (S index) input
  end.
Definition parse_uuid (input : option bytes) : option bytes :=
  match input with
  | Some input => if negb (size input =? 36) then None else parse_uuid_from 0 input
  | None => None
  end.

Definition within (value : bytes) (maximum : Z) : bool := size value <=? maximum.
Definition is_uuid (value : bytes) : bool := present (parse_uuid (Some value)).
Definition valid_log_level (value : bytes) : bool := (value == lit "info") || (value == lit "warning") || (value == lit "error").
Definition one_of (value : bytes) (allowed : list string) : bool := existsb (fun a => value == lit a) allowed.
Definition within_total (value : option Z) (maximum : Z) : bool := match value with Some v => v <=? maximum | None => true end.
Definition valid_access (v : access_log) : bool :=
  is_uuid (id v) && is_uuid (website_id v) && (0 <? occurred_unix_ms v) && within (client_ip v) max_client_ip_bytes &&
  negb (empty (protocol v)) && within (protocol v) max_protocol_bytes && negb (empty (method v)) && within (method v) max_method_bytes &&
  negb (empty (host v)) && within (host v) max_host_bytes && negb (empty (target v)) && within (target v) max_target_bytes &&
  (100 <=? status_code v) && (status_code v <=? 999) && (request_bytes v <=? max_request_bytes) && (response_bytes v <=? max_response_bytes) &&
  (duration_ms v <=? max_duration_ms) && within_total (total_duration_ms v) max_connection_duration_ms &&
  within_total (total_request_bytes v) max_connection_bytes && within_total (total_response_bytes v) max_connection_bytes &&
  within_total (first_byte_ms v) (match total_duration_ms v with Some total => total | None => duration_ms v end) &&
  (empty (request_type v) || one_of (request_type v) ["http"; "sse"; "websocket"]%string) &&
  (empty (end_reason v) ||
   one_of (end_reason v) ["completed"; "client_closed"; "origin_closed"; "client_error"; "origin_error"; "protocol_error"; "timeout"; "shutdown"]%string) &&
  within (user_agent v) max_user_agent_bytes && within (referer v) max_referer_bytes && within (request_headers v) max_request_headers_bytes &&
  within (request_body v) max_request_body_bytes && within (tls_fingerprint v) max_tls_fingerprint_bytes && within (response_headers v) max_response_headers_bytes &&
  within (query_string v) max_query_string_bytes && within (cookies v) max_cookies_bytes && (size (cache_reason v) <=? 64) &&
  (negb (cache_revalidated v) || one_of (cache_status v) ["hit_memory"; "hit_disk"]%string) &&
  (empty (cache_status v) || one_of (cache_status v) ["hit_memory"; "hit_disk"; "miss"; "bypass"]%string).
Definition valid_node_log (v : node_log) : bool :=
  is_uuid (node_log_id v) && (0 <? node_log_occurred_unix_ms v) && valid_log_level (level v) && negb (empty (category v)) &&
  within (category v) max_node_category_bytes && within (message v) max_node_message_bytes && negb (empty (message v)).
Definition valid_event (event : log_event) : bool := match event with AccessEvent v => valid_access v | NodeEvent v => valid_node_log v end.

(** * Identifiers *)

Lemma xdigit_hex c : is_xdigit (hex_digit (Z.shiftr (code c) 4)) = true /\ is_xdigit (hex_digit (Z.land (code c) 15)) = true.
Proof.
  pose proof (forall_chars (fun c => is_xdigit (hex_digit (Z.shiftr (code c) 4)) && is_xdigit (hex_digit (Z.land (code c) 15))) eq_refl c) as E.
  cbv beta in E. by apply andb_true_iff in E.
Qed.
Lemma hex_encode_xdigits value : Forall (fun c => is_xdigit c = true) (hex_encode value).
Proof.
  induction value as [|c value IH]; [done|]. destruct (xdigit_hex c) as [E1 E2].
  change (hex_encode (c :: value)) with (hex_digit (Z.shiftr (code c) 4) :: hex_digit (Z.land (code c) 15) :: hex_encode value). by repeat constructor.
Qed.

Definition hyphen_at (index : nat) : bool := (index =? 8)%nat || (index =? 13)%nat || (index =? 18)%nat || (index =? 23)%nat.
Lemma parse_hex index a b : Forall (fun c => is_xdigit c = true) a -> (forall k, (index <= k < index + length a)%nat -> hyphen_at k = false) ->
  present (parse_uuid_from index (a ++ b)) = present (parse_uuid_from (index + length a) b).
Proof.
  revert index. induction a as [|c a IH]; intros index Ha Hk; cbn [app length]; [by rewrite Nat.add_0_r|]. apply Forall_cons in Ha as [Hc Ha].
  cbn [parse_uuid_from]. fold (hyphen_at index). rewrite (Hk index), Hc by (cbn; lia). cbn [negb].
  rewrite <- (Nat.add_succ_comm index (length a)), <- (IH (S index) Ha) by (intros k Hr; apply Hk; cbn; lia). by destruct (parse_uuid_from (S index) (a ++ b)).
Qed.
Lemma parse_hyphen index b : hyphen_at index = true -> present (parse_uuid_from index (lit "-" ++ b)) = present (parse_uuid_from (S index) b).
Proof. intros E. change (lit "-" ++ b) with ("-"%char :: b). cbn [parse_uuid_from]. fold (hyphen_at index). rewrite E. by destruct (parse_uuid_from (S index) b). Qed.

Definition random_ok (random : option bytes) : Prop := match random with Some value => length value = 16%nat | None => True end.
Lemma uuid_length random now_ms : random_ok random -> length (uuid_bytes random now_ms) = 16%nat.
Proof. by destruct random. Qed.
Lemma substr_xdigits s from count : Forall (fun c => is_xdigit c = true) s -> Forall (fun c => is_xdigit c = true) (substr s from count).
Proof. intros Hs. by apply Forall_take, Forall_drop. Qed.
Lemma substr_length s from count : (from + count <= length s)%nat -> length (substr s from count) = count.
Proof. intros Hs. unfold substr. rewrite length_take, length_drop. lia. Qed.
Lemma parse_segment index hex from count b : Forall (fun c => is_xdigit c = true) hex -> (from + count <= length hex)%nat ->
  forallb (fun k => negb (hyphen_at k)) (seq index count) = true ->
  present (parse_uuid_from index (substr hex from count ++ b)) = present (parse_uuid_from (index + count) b).
Proof.
  intros Hx Hl Hs. assert (E := substr_length hex from count Hl). rewrite parse_hex, E; [done|by apply substr_xdigits|].
  intros k Hk. rewrite forallb_forall in Hs. apply negb_true_iff, Hs, in_seq. lia.
Qed.
Lemma uuid_is_uuid random now_ms : random_ok random -> is_uuid (uuid random now_ms) = true.
Proof.
  intros Hr. unfold uuid. set (value := with_version (uuid_bytes random now_ms)). pose proof (hex_encode_xdigits value) as Hx. pose proof (hex_encode_length value) as Hl.
  assert (length value = 16%nat) as Hv by (unfold value, with_version; by rewrite !length_alter, uuid_length).
  rewrite Hv in Hl. set (hex := hex_encode value) in *. clearbody hex. clear value Hv. unfold is_uuid, parse_uuid.
  match goal with |- context [size ?s] => assert (size s = 36) as -> by (unfold size; rewrite !length_app, !substr_length by lia; done) end. cbn [negb Z.eqb Pos.eqb].
  rewrite <- (app_nil_r (substr hex 20 12)).
  repeat (rewrite parse_segment by (done || lia); try rewrite parse_hyphen by done). done.
Qed.

(** * What the node writes, the service accepts *)

Lemma bounded_size value maximum : 0 <= maximum -> size (bounded value maximum) <= maximum.
Proof. intros Hm. unfold size, bounded. rewrite length_take. lia. Qed.
Lemma within_bounded value maximum : 0 <= maximum -> within (bounded value maximum) maximum = true.
Proof. intros Hm. apply Z.leb_le, bounded_size, Hm. Qed.
Lemma within_printable value maximum : 0 <= maximum -> within (printable value maximum) maximum = true.
Proof. intros Hm. unfold within, printable, size. rewrite length_map. apply Z.leb_le, bounded_size, Hm. Qed.
Lemma bounded_nonempty value maximum : 0 < maximum -> empty value = false -> empty (bounded value maximum) = false.
Proof. intros Hm. unfold bounded. destruct value as [|c value]; [done|]. by destruct (Z.to_nat maximum) eqn:E; [lia|]. Qed.
Lemma bounded_id value maximum : size value <= maximum -> bounded value maximum = value.
Proof. intros Hm. unfold bounded, size in *. apply take_ge. lia. Qed.
Lemma is_uuid_size value : is_uuid value = true -> size value = 36.
Proof. unfold is_uuid, parse_uuid. by destruct (Z.eqb_spec (size value) 36). Qed.
Lemma printable_char_ascii c : 9 <= code (printable_char c) <= 126.
Proof.
  pose proof (forall_chars (fun c => (9 <=? code (printable_char c)) && (code (printable_char c) <=? 126)) eq_refl c) as E. cbv beta in E. reflect_bool. lia.
Qed.
Lemma printable_ascii value maximum : Forall (fun c => 9 <= code c <= 126) (printable value maximum).
Proof. unfold printable. apply Forall_map, Forall_true. intros c. apply printable_char_ascii. Qed.

(** The records a capture makes: of a website, of a request that was read, with the words of the two sides. *)
Record loggable (r : access_record) : Prop := {
  logs_website : is_uuid (website_id_ r) = true;
  logs_protocol : empty (protocol_ r) = false; logs_method : empty (method_ r) = false; logs_host : empty (host_ r) = false; logs_target : empty (target_ r) = false;
  logs_type : empty (request_type_ r) || one_of (request_type_ r) ["http"; "sse"; "websocket"]%string = true;
  logs_end : empty (end_reason_ r) ||
    one_of (end_reason_ r) ["completed"; "client_closed"; "origin_closed"; "client_error"; "origin_error"; "protocol_error"; "timeout"; "shutdown"]%string = true;
  logs_reason : size (cache_reason_ r) <= 64;
  logs_revalidated : negb (cache_revalidated_ r) || one_of (cache_status_ r) ["hit_memory"; "hit_disk"]%string = true;
  logs_cache : empty (cache_status_ r) || one_of (cache_status_ r) ["hit_memory"; "hit_disk"; "miss"; "bypass"]%string = true }.

(** Every access record of a captured request, whatever bytes the client put in it and however long
    they are, becomes an event the service accepts: identifiers are UUIDs, texts and counters are
    within the shared bounds, and the optional counters are consistent. *)
Lemma event_of_loggable random now_ms r : random_ok random -> 0 < now_ms -> loggable r -> valid_event (access_event random now_ms r) = true.
Proof.
  intros Hr Hn [Hw Hp Hm Hh Ht Hty He Hre Hrev Hc]. unfold access_event, valid_event, valid_access, clamp.
  cbn [id occurred_unix_ms website_id client_ip protocol method host target status_code response_bytes duration_ms user_agent referer request_headers request_body
    request_body_truncated tls_fingerprint response_headers query_string cookies request_bytes cache_status cache_reason cache_revalidated request_type started_unix_ms
    first_byte_ms end_reason total_duration_ms total_request_bytes total_response_bytes waf_anomaly_score
    website_id_ client_ip_ protocol_ method_ host_ target_ status_code_ request_bytes_ response_bytes_ duration_ms_ user_agent_ referer_ request_headers_ request_body_
    request_body_truncated_ tls_fingerprint_ response_headers_ query_string_ cookies_ cache_status_ cache_reason_ cache_revalidated_ request_type_ started_unix_ms_
    first_byte_ms_ end_reason_ waf_anomaly_score_].
  rewrite (bounded_id (website_id_ r)) by (rewrite is_uuid_size; [done|exact Hw]).
  rewrite !within_bounded, !within_printable, !bounded_nonempty, (uuid_is_uuid random now_ms Hr), Hw, Hty, Hrev, Hc by done.
  rewrite (proj2 (Z.ltb_lt 0 now_ms) Hn), (proj2 (Z.leb_le (size (cache_reason_ r)) 64) Hre).
  rewrite (proj2 (Z.leb_le 100 (Z.max 100 (Z.min 999 (status_code_ r))))), (proj2 (Z.leb_le (Z.max 100 (Z.min 999 (status_code_ r))) 999)) by lia.
  rewrite (proj2 (Z.leb_le (Z.min (request_bytes_ r) _) _)), (proj2 (Z.leb_le (Z.min (response_bytes_ r) _) _)), (proj2 (Z.leb_le (Z.min (duration_ms_ r) _) _)) by apply Z.le_min_r.
  destruct (empty (request_type_ r)); cbn [negb andb orb]; [done|]. cbn [within_total].
  rewrite !(proj2 (Z.leb_le _ _)) by apply Z.le_min_r. rewrite He. destruct (first_byte_ms_ r) as [ms|]; [|done]. cbn [fmap option_fmap option_map within_total].
  by rewrite (proj2 (Z.leb_le _ _)) by apply Z.le_min_r.
Qed.

(** A node event of a known level, with a category and a message, is accepted too. *)
Lemma node_event_accepted random now_ms level category message : random_ok random -> 0 < now_ms -> valid_log_level level = true -> empty category = false -> empty message = false ->
  valid_event (node_event random now_ms level category message) = true.
Proof.
  intros Hr Hn Hl Hc Hm. unfold node_event, valid_event, valid_node_log. cbn [node_log_id node_log_occurred_unix_ms AccessLog.level AccessLog.category AccessLog.message].
  rewrite (uuid_is_uuid random now_ms Hr), (proj2 (Z.ltb_lt 0 now_ms) Hn), !within_bounded, !bounded_nonempty by done.
  rewrite (bounded_id level); [by rewrite Hl|]. unfold valid_log_level in Hl. rewrite !orb_true_iff, !bool_decide_eq_true in Hl.
  by destruct Hl as [[-> | ->] | ->].
Qed.

(** The header blocks are made printable, but the user agent and the referer are only cut: the text of
    an event can be no UTF-8, which a [string] field of the message must be. *)
Definition sample_record (agent : bytes) : access_record :=
  AccessRecord (lit "0f8fad5b-d9cb-469f-a165-70867728950e") (lit "192.0.2.7") (lit "https") (lit "GET") (lit "example.com") (lit "/") 200 0 512 3 agent [] [] [] false [] [] [] []
    (lit "miss") (lit "cache_empty") false (lit "http") 1700000000000 (Some 5) (lit "completed") None.
Lemma sample_loggable agent : loggable (sample_record agent).
Proof. split; by vm_compute. Qed.
Example user_agent_not_utf8 : exists v, access_event None 1700000000000 (sample_record (lit "agent" ++ [chr 255])) = AccessEvent v /\ valid_access v = true /\ valid_utf8 (user_agent v) = false.
Proof. eexists. split; [reflexivity|]. by vm_compute. Qed.
