(* ===== verification/AccessCapture.v ===== *)
(** The access log of one request: src/node/data/access_log_capture.h.

    The capture is a state; its steps are the calls of the session. Clock readings are in nanoseconds
    (steady) and are arguments; a parsed request is the answers of the parser's accessors. *)
From S2P Require Import Prelude RoutePolicy CacheControl AccessLog.
Open Scope Z_scope.

Record parsed_request := ParsedRequest {
  parsed_method : bytes; parsed_target : bytes; parsed_headers : list (bytes * bytes); parsed_header : bytes -> option bytes;
  parsed_has_body : bool; parsed_body : option bytes }.
(** The fields of a website that the log reads. *)
Record website_logging := WebsiteLogging {
  logged_id : bytes; access_log_enabled : bool; access_log_response_headers : bool; access_log_client_abort : bool; access_log_status_code_ranges : list bytes;
  access_log_query_params : bool; access_log_cookies : bool; access_log_referer : bool; access_log_user_agent : bool; access_log_request_headers : bool;
  access_log_request_body : bool }.

Record access_log_capture := Capture {
  started_at_ : Z; started_unix_ms_ : Z; first_byte_ms_ : option Z; waf_anomaly_score_ : option Z; request_type_ : bytes; response_status_ : Z; website_id_ : bytes;
  method_ : bytes; target_ : bytes; host_ : bytes; request_body_bytes_ : Z; user_agent_ : bytes; referer_ : bytes; request_headers_ : bytes; request_body_ : bytes;
  response_headers_ : bytes; query_string_ : bytes; cookies_ : bytes; tls_fingerprint_ : bytes; cache_status_ : bytes; cache_reason_ : bytes;
  status_code_ranges_ : list bool; secure_ : bool; enabled_ : bool; response_headers_enabled_ : bool; client_abort_enabled_ : bool; request_body_truncated_ : bool;
  recorded_ : bool; cache_revalidated_ : bool }.
Definition new_capture (secure : bool) (tls_fingerprint : bytes) (now unix_ms : Z) : access_log_capture :=
  Capture now unix_ms None None (lit "http") 0 [] [] [] [] 0 [] [] [] [] [] [] [] tls_fingerprint (lit "bypass") (lit "not_evaluated")
    [true; true; true; true; true] secure false false false false false false.

Definition elapsed_ms (c : access_log_capture) (now : Z) : Z :=
  let value := (now - started_at_ c) ÷ 1000000 in if value <? 0 then 0 else value.
Definition streaming (c : access_log_capture) : bool := request_type_ c != lit "http".
Definition final_status (c : access_log_capture) : Z := if response_status_ c =? 0 then 499 else response_status_ c.

Definition request (parsed : parsed_request) (host : bytes) (c : access_log_capture) : access_log_capture :=
  Capture (started_at_ c) (started_unix_ms_ c) (first_byte_ms_ c) (waf_anomaly_score_ c) (request_type_ c) (response_status_ c) (website_id_ c)
    (parsed_method parsed) (parsed_target parsed) host (request_body_bytes_ c) (user_agent_ c) (referer_ c) (request_headers_ c) (request_body_ c)
    (response_headers_ c) (query_string_ c) (cookies_ c) (tls_fingerprint_ c) (cache_status_ c) (cache_reason_ c)
    (status_code_ranges_ c) (secure_ c) (enabled_ c) (response_headers_enabled_ c) (client_abort_enabled_ c) (request_body_truncated_ c) (recorded_ c) (cache_revalidated_ c).
Definition with_progress (first_byte waf : option Z) (type : bytes) (status body_bytes : Z) (c : access_log_capture) : access_log_capture :=
  Capture (started_at_ c) (started_unix_ms_ c) first_byte waf type status (website_id_ c)
    (method_ c) (target_ c) (host_ c) body_bytes (user_agent_ c) (referer_ c) (request_headers_ c) (request_body_ c)
    (response_headers_ c) (query_string_ c) (cookies_ c) (tls_fingerprint_ c) (cache_status_ c) (cache_reason_ c)
    (status_code_ranges_ c) (secure_ c) (enabled_ c) (response_headers_enabled_ c) (client_abort_enabled_ c) (request_body_truncated_ c) (recorded_ c) (cache_revalidated_ c).
Definition first_byte (now : Z) (c : access_log_capture) : access_log_capture :=
  match first_byte_ms_ c with
  | Some _ => c
  | None => with_progress (Some (elapsed_ms c now)) (waf_anomaly_score_ c) (request_type_ c) (response_status_ c) (request_body_bytes_ c) c
  end.
Definition websocket (c : access_log_capture) : access_log_capture :=
  with_progress (first_byte_ms_ c) (waf_anomaly_score_ c) (lit "websocket") (response_status_ c) (request_body_bytes_ c) c.
Definition response_status (value : Z) (c : access_log_capture) : access_log_capture :=
  with_progress (first_byte_ms_ c) (waf_anomaly_score_ c) (request_type_ c) value (request_body_bytes_ c) c.
Definition request_bytes (count : Z) (c : access_log_capture) : access_log_capture :=
  with_progress (first_byte_ms_ c) (waf_anomaly_score_ c) (request_type_ c) (response_status_ c) (u64 (request_body_bytes_ c + count)) c.
Definition waf_anomaly_score (value : option Z) (c : access_log_capture) : access_log_capture :=
  with_progress (first_byte_ms_ c) value (request_type_ c) (response_status_ c) (request_body_bytes_ c) c.
Definition cache_status (value reason : bytes) (revalidated : bool) (c : access_log_capture) : access_log_capture :=
  Capture (started_at_ c) (started_unix_ms_ c) (first_byte_ms_ c) (waf_anomaly_score_ c) (request_type_ c) (response_status_ c) (website_id_ c)
    (method_ c) (target_ c) (host_ c) (request_body_bytes_ c) (user_agent_ c) (referer_ c) (request_headers_ c) (request_body_ c)
    (response_headers_ c) (query_string_ c) (cookies_ c) (tls_fingerprint_ c) value reason
    (status_code_ranges_ c) (secure_ c) (enabled_ c) (response_headers_enabled_ c) (client_abort_enabled_ c) (request_body_truncated_ c) (recorded_ c) revalidated.

(** ** What is taken of a request *)

Definition append_bounded (result value : bytes) (maximum : Z) : bytes :=
  if size result <? maximum then result ++ take (Z.to_nat (maximum - size result)) value else result.
Fixpoint request_lines (maximum : Z) (headers : list (bytes * bytes)) (result : bytes) : bytes :=
  match headers with
  | [] => result
  | (name, value) :: headers =>
      let result := append_bounded (append_bounded (append_bounded (append_bounded result name maximum) (lit ": ") maximum) value maximum) [chr 10] maximum in
      if maximum <=? size result then result else request_lines maximum headers result
  end.
Definition request_header_block (parsed : parsed_request) : bytes := request_lines max_request_headers_bytes (parsed_headers parsed) [].
Definition query_string (target : bytes) : bytes :=
  match find_char "?" target with
  | None => []
  | Some question => let rest := drop (S question) target in upto (find_char "#" rest) rest
  end.

(** The ranges [1xx] to [5xx] of the policy. *)
Definition range_of (value : bytes) : option nat :=
  match value with
  | c :: _ => if (size value =? 3) && (code "1" <=? code c) && (code c <=? code "5") && ends_with value (lit "xx") then Some (Z.to_nat (code c - code "1")) else None
  | [] => None
  end.
Definition apply_status_code_ranges (ranges : list bytes) : list bool :=
  if empty ranges then repeat true 5
  else fold_left (fun set value => match range_of value with Some i => <[i:=true]> set | None => set end) ranges (repeat false 5).
Definition status_code_enabled (c : access_log_capture) (status_code : Z) : bool :=
  if status_code =? 499 then client_abort_enabled_ c
  else let range := status_code / 100 in (1 <=? range) && (range <=? 5) && nth (Z.to_nat (range - 1)) (status_code_ranges_ c) false.

(** A field that the policy keeps and the request has, or what was there. *)
Definition kept (enabled : bool) (value : option bytes) (before : bytes) : bytes := if enabled then match value with Some v => v | None => before end else before.
Definition capture_request (parsed : parsed_request) (w : website_logging) (c : access_log_capture) : access_log_capture :=
  let takes_body := access_log_request_body w && parsed_has_body parsed && present (parsed_body parsed) in
  let content := match parsed_body parsed with Some b => b | None => [] end in
  Capture (started_at_ c) (started_unix_ms_ c) (first_byte_ms_ c) (waf_anomaly_score_ c) (request_type_ c) (response_status_ c) (website_id_ c)
    (method_ c) (target_ c) (host_ c) (size content)
    (kept (access_log_user_agent w) (parsed_header parsed (lit "User-Agent")) (user_agent_ c)) (kept (access_log_referer w) (parsed_header parsed (lit "Referer")) (referer_ c))
    (if access_log_request_headers w then request_header_block parsed else request_headers_ c)
    (if takes_body then bounded content max_request_body_bytes else request_body_ c) (response_headers_ c)
    (if access_log_query_params w then query_string (parsed_target parsed) else query_string_ c)
    (kept (access_log_cookies w) (parsed_header parsed (lit "Cookie")) (cookies_ c)) (tls_fingerprint_ c) (cache_status_ c) (cache_reason_ c)
    (status_code_ranges_ c) (secure_ c) (enabled_ c) (response_headers_enabled_ c) (client_abort_enabled_ c)
    (if takes_body then max_request_body_bytes <? size content else request_body_truncated_ c) (recorded_ c) (cache_revalidated_ c).
Definition with_policy (id : bytes) (enabled response_headers client_abort : bool) (ranges : list bool) (c : access_log_capture) : access_log_capture :=
  Capture (started_at_ c) (started_unix_ms_ c) (first_byte_ms_ c) (waf_anomaly_score_ c) (request_type_ c) (response_status_ c) id
    (method_ c) (target_ c) (host_ c) (request_body_bytes_ c) (user_agent_ c) (referer_ c) (request_headers_ c) (request_body_ c)
    (response_headers_ c) (query_string_ c) (cookies_ c) (tls_fingerprint_ c) (cache_status_ c) (cache_reason_ c)
    ranges (secure_ c) enabled response_headers client_abort (request_body_truncated_ c) (recorded_ c) (cache_revalidated_ c).
Definition website (parsed : parsed_request) (w : website_logging) (c : access_log_capture) : access_log_capture :=
  if negb (access_log_enabled w) then with_policy (logged_id w) false (response_headers_enabled_ c) (client_abort_enabled_ c) (status_code_ranges_ c) c
  else capture_request parsed w
    (with_policy (logged_id w) true (access_log_response_headers w) (access_log_client_abort w) (apply_status_code_ranges (access_log_status_code_ranges w)) c).

(** ** What is taken of a response *)

Definition crlf : bytes := [chr 13; chr 10].
(** Field lines of a head, without the status line. *)
Definition response_fields (wire : bytes) : bytes :=
  match find_sub (crlf ++ crlf) wire, find_sub crlf wire with
  | Some head_end, Some status_line_end =>
      if (head_end <? status_line_end + 2)%nat then [] else substr wire (status_line_end + 2) (head_end - status_line_end - 2)
  | _, _ => []
  end.
(** The lines of a block, as both loops cut them; [fuel] bounds the steps. *)
Fixpoint block_lines (fuel : nat) (block : bytes) : list bytes :=
  match fuel with
  | O => []
  | S fuel =>
      if empty block then []
      else match find_sub crlf block with
           | None => [block]
           | Some line_end => take line_end block :: block_lines fuel (drop (line_end + 2) block)
           end
  end.
Definition lines_of (block : bytes) : list bytes := block_lines (S (length block)) block.

Definition event_stream_line (line : bytes) : bool :=
  match find_char ":" line with
  | Some colon => ascii_equal (take colon line) (lit "Content-Type") && is_event_stream_content_type (drop (S colon) line)
  | None => false
  end.
Definition header_line (maximum : Z) (result line : bytes) : bytes :=
  let result := match find_char ":" line with
    | None => append_bounded result line maximum
    | Some colon => append_bounded (append_bounded (append_bounded result (take colon line) maximum) (lit ": ") maximum) (trim_ows (drop (S colon) line)) maximum
    end in
  append_bounded result [chr 10] maximum.
Fixpoint header_lines (maximum : Z) (lines : list bytes) (result : bytes) : bytes :=
  match lines with
  | [] => result
  | line :: lines => if size result <? maximum then header_lines maximum lines (header_line maximum result line) else result
  end.
Definition header_block (block : bytes) (maximum : Z) : bytes := header_lines maximum (lines_of block) [].

Definition with_response (type headers : bytes) (c : access_log_capture) : access_log_capture :=
  Capture (started_at_ c) (started_unix_ms_ c) (first_byte_ms_ c) (waf_anomaly_score_ c) type (response_status_ c) (website_id_ c)
    (method_ c) (target_ c) (host_ c) (request_body_bytes_ c) (user_agent_ c) (referer_ c) (request_headers_ c) (request_body_ c)
    headers (query_string_ c) (cookies_ c) (tls_fingerprint_ c) (cache_status_ c) (cache_reason_ c)
    (status_code_ranges_ c) (secure_ c) (enabled_ c) (response_headers_enabled_ c) (client_abort_enabled_ c) (request_body_truncated_ c) (recorded_ c) (cache_revalidated_ c).
Definition response_head (wire : bytes) (c : access_log_capture) : access_log_capture :=
  let fields := response_fields wire in
  let type := if existsb event_stream_line (lines_of fields) then lit "sse" else request_type_ c in
  let headers := if negb (response_headers_enabled_ c) || negb (empty (response_headers_ c)) then response_headers_ c else header_block fields max_response_headers_bytes in
  with_response type headers c.

(** ** The record *)

Definition mark_recorded (c : access_log_capture) : access_log_capture :=
  Capture (started_at_ c) (started_unix_ms_ c) (first_byte_ms_ c) (waf_anomaly_score_ c) (request_type_ c) (response_status_ c) (website_id_ c)
    (method_ c) (target_ c) (host_ c) (request_body_bytes_ c) (user_agent_ c) (referer_ c) (request_headers_ c) (request_body_ c)
    (response_headers_ c) (query_string_ c) (cookies_ c) (tls_fingerprint_ c) (cache_status_ c) (cache_reason_ c)
    (status_code_ranges_ c) (secure_ c) (enabled_ c) (response_headers_enabled_ c) (client_abort_enabled_ c) (request_body_truncated_ c) true (cache_revalidated_ c).
Definition recorded_access (c : access_log_capture) (status_code response_bytes : Z) (client_ip end_reason : bytes) (now : Z) : access_record :=
  AccessRecord (website_id_ c) client_ip (if secure_ c then lit "https" else lit "http") (method_ c) (host_ c) (target_ c) status_code (request_body_bytes_ c) response_bytes
    (elapsed_ms c now) (user_agent_ c) (referer_ c) (request_headers_ c) (request_body_ c) (request_body_truncated_ c) (tls_fingerprint_ c) (response_headers_ c)
    (query_string_ c) (cookies_ c) (cache_status_ c) (cache_reason_ c) (cache_revalidated_ c) (request_type_ c) (started_unix_ms_ c) (first_byte_ms_ c) end_reason
    (waf_anomaly_score_ c).
Definition recorded_status (c : access_log_capture) (status_code : Z) : Z :=
  if streaming c && negb (response_status_ c =? 0) then response_status_ c else status_code.
Definition record (status_code response_bytes : Z) (client_ip end_reason : bytes) (now : Z) (c : access_log_capture) : access_log_capture * option access_record :=
  let status_code := recorded_status c status_code in
  if recorded_ c || negb (enabled_ c) || empty (website_id_ c) || negb (status_code_enabled c status_code) then (c, None)
  else (mark_recorded c, Some (recorded_access c status_code response_bytes client_ip end_reason now)).

(** ** The calls of a session *)

Inductive capture_call :=
  | Request (parsed : parsed_request) (host : bytes)
  | FirstByte (now : Z)
  | WebSocket
  | ResponseStatus (value : Z)
  | RequestBytes (count : Z)
  | OfWebsite (parsed : parsed_request) (w : website_logging)
  | WafScore (value : option Z)
  | CacheStatus (value reason : bytes) (revalidated : bool)
  | ResponseHead (wire : bytes)
  | RecordOf (status_code response_bytes : Z) (client_ip end_reason : bytes) (now : Z).
Definition run_call (call : capture_call) (c : access_log_capture) : access_log_capture * option access_record :=
  match call with
  | Request parsed host => (request parsed host c, None)
  | FirstByte now => (first_byte now c, None)
  | WebSocket => (websocket c, None)
  | ResponseStatus value => (response_status value c, None)
  | RequestBytes count => (request_bytes count c, None)
  | OfWebsite parsed w => (website parsed w c, None)
  | WafScore value => (waf_anomaly_score value c, None)
  | CacheStatus value reason revalidated => (cache_status value reason revalidated c, None)
  | ResponseHead wire => (response_head wire c, None)
  | RecordOf status_code response_bytes client_ip end_reason now => record status_code response_bytes client_ip end_reason now c
  end.
Fixpoint run_calls (calls : list capture_call) (c : access_log_capture) : list access_record :=
  match calls with
  | [] => []
  | call :: calls => let '(c, made) := run_call call c in match made with Some r => r :: run_calls calls c | None => run_calls calls c end
  end.

(** * One record at most *)

Lemma recorded_stays call c : recorded_ c = true -> recorded_ (run_call call c).1 = true /\ (run_call call c).2 = None.
Proof.
  intros Hr. destruct call; cbn [run_call fst snd]; try done.
  - unfold first_byte. by destruct (first_byte_ms_ c).
  - unfold website. by destruct (access_log_enabled w).
  - unfold record. by rewrite Hr.
Qed.
Lemma no_record_after calls : forall c, recorded_ c = true -> run_calls calls c = [].
Proof.
  induction calls as [|call calls IH]; intros c Hr; [done|]. cbn [run_calls]. destruct (recorded_stays call c Hr) as [H1' H2'].
  destruct (run_call call c) as [c' made]. cbn in H1', H2'. subst made. by apply IH.
Qed.
Lemma made_is_recorded call c r : (run_call call c).2 = Some r -> recorded_ (run_call call c).1 = true.
Proof. destruct call; cbn [run_call fst snd]; try done. unfold record. by destruct (_ || _). Qed.

(** A request is recorded at most once, whatever the session calls and in whatever order. *)
Lemma one_record_at_most calls : forall c, (length (run_calls calls c) <= 1)%nat.
Proof.
  induction calls as [|call calls IH]; intros c; cbn [run_calls]; [cbn; lia|]. destruct (run_call call c) as [c' made] eqn:E. destruct made as [r|]; [|apply IH].
  rewrite no_record_after; [done|]. pose proof (made_is_recorded call c r) as Hr. rewrite E in Hr. by apply Hr.
Qed.
(** Invariants of the capture reach every record that is made. *)
Lemma record_invariant (I : access_log_capture -> Prop) (P : access_record -> Prop) (ok : capture_call -> Prop) :
  (forall call c, ok call -> I c -> I (run_call call c).1) -> (forall call c r, ok call -> I c -> (run_call call c).2 = Some r -> P r) ->
  forall calls c r, Forall ok calls -> I c -> r ∈ run_calls calls c -> P r.
Proof.
  intros Hstep Hrec. induction calls as [|call calls IH]; intros c r Hok Hc Hr; cbn [run_calls] in Hr; [by apply not_elem_of_nil in Hr|].
  apply Forall_cons in Hok as [Hcall Hok]. specialize (Hstep call c Hcall Hc). specialize (Hrec call c). destruct (run_call call c) as [c' made]. cbn [fst snd] in *.
  destruct made as [r'|]; [apply elem_of_cons in Hr as [->|Hr]; [by apply Hrec|]|]; by apply (IH c').
Qed.

(** * The policy of the website *)

Definition status_wanted (w : website_logging) (status_code : Z) : Prop :=
  if decide (status_code = 499) then access_log_client_abort w = true
  else 100 <= status_code < 600 /\ (access_log_status_code_ranges w = [] \/ (digit (status_code / 100) :: lit "xx") ∈ access_log_status_code_ranges w).

Lemma range_of_spec value i : range_of value = Some i <-> (i < 5)%nat /\ value = digit (Z.of_nat i + 1) :: lit "xx".
Proof.
  unfold range_of. destruct value as [|c value]; [split; [done|by intros [_ ?]]|]. change (code "1") with 49. change (code "5") with 53. split.
  - destruct (_ && _) eqn:E; [|done]. intros [= <-]. rewrite !andb_true_iff in E. destruct E as [[[E1 E2] E3] E4]. reflect_bool. split; [lia|].
    apply ends_with_spec in E4 as (front & E4). assert (length (c :: value) = 3%nat) as El by (unfold size in E1; lia). rewrite E4 in El. rewrite length_app in El.
    destruct front as [|d [|? ?]]; cbn in El; try lia. injection E4 as -> ->. change (lit "xx") with ("x"%char :: "x"%char :: []). f_equal.
    unfold digit. rewrite <- (chr_code d) at 1. f_equal. lia.
  - intros [Hi [= -> ->]]. assert (code (digit (Z.of_nat i + 1)) = 49 + Z.of_nat i) as -> by (unfold digit; rewrite code_chr; lia). unfold size. cbn [length].
    rewrite (proj2 (Z.leb_le 49 _)), (proj2 (Z.leb_le _ 53)) by lia.
    assert (ends_with (digit (Z.of_nat i + 1) :: lit "xx") (lit "xx") = true) as Ee by (apply ends_with_spec; by exists [digit (Z.of_nat i + 1)]).
    change (Z.of_nat 3 =? 3) with true. cbn [andb]. change ["x"%char; "x"%char] with (lit "xx"). rewrite Ee. f_equal. lia.
Qed.
Lemma ranges_fold ranges : forall set i, length set = 5%nat -> (i < 5)%nat ->
  (nth i (fold_left (fun set value => match range_of value with Some k => <[k:=true]> set | None => set end) ranges set) false = true <->
   nth i set false = true \/ (digit (Z.of_nat i + 1) :: lit "xx") ∈ ranges).
Proof.
  induction ranges as [|value ranges IH]; intros set i Hl Hi; cbn [fold_left]; [rewrite elem_of_nil; tauto|].
  rewrite IH by (destruct (range_of value); rewrite ?length_insert; done). rewrite elem_of_cons. destruct (range_of value) as [k|] eqn:E.
  - apply range_of_spec in E as [Hk ->]. destruct (decide (i = k)) as [->|Hne].
    + rewrite (nth_lookup (<[k:=true]> set)), list_lookup_insert_eq by lia. cbn. tauto.
    + rewrite !nth_lookup, list_lookup_insert_ne by done. split; [tauto|]. intros [?|[[= E]|?]]; [tauto| |tauto]. exfalso. apply Hne.
      apply (f_equal code) in E. unfold digit in E. rewrite !code_chr in E by lia. lia.
  - split; [tauto|]. intros [?|[Ev|?]]; [tauto| |tauto]. exfalso. assert (range_of value = Some i) as E' by (by apply range_of_spec). by rewrite E in E'.
Qed.
Lemma status_enabled_wanted w c status_code : client_abort_enabled_ c = access_log_client_abort w -> status_code_ranges_ c = apply_status_code_ranges (access_log_status_code_ranges w) ->
  status_code_enabled c status_code = true -> status_wanted w status_code.
Proof.
  intros Ha Hr. unfold status_code_enabled, status_wanted. destruct (Z.eqb_spec status_code 499) as [->|Hne]; [by rewrite decide_True, Ha|]. rewrite decide_False by done.
  cbv zeta. rewrite !andb_true_iff, Hr. intros [[H1' H2'] H3']. reflect_bool. split; [Z.to_euclidean_division_equations; lia|].
  unfold apply_status_code_ranges in H3'. destruct (access_log_status_code_ranges w) as [|range ranges]; [by left|]. right. cbn [empty] in H3'.
  apply ranges_fold in H3'; [|done|lia]. rewrite Z2Nat.id in H3' by lia. replace (status_code / 100 - 1 + 1) with (status_code / 100) in H3' by lia.
  destruct H3' as [H3'|H3']; [|done]. by rewrite nth_repeat in H3'.
Qed.

(** What is captured of a website is what its policy allows. *)
Record allowed (w : website_logging) (c : access_log_capture) : Prop := {
  allowed_policy : enabled_ c = true -> access_log_enabled w = true /\ website_id_ c = logged_id w /\ client_abort_enabled_ c = access_log_client_abort w /\
    status_code_ranges_ c = apply_status_code_ranges (access_log_status_code_ranges w);
  allowed_headers : response_headers_enabled_ c = true -> access_log_response_headers w = true;
  allowed_response : access_log_response_headers w = false -> response_headers_ c = [];
  allowed_query : access_log_query_params w = false -> query_string_ c = [];
  allowed_cookies : access_log_cookies w = false -> cookies_ c = [];
  allowed_referer : access_log_referer w = false -> referer_ c = [];
  allowed_agent : access_log_user_agent w = false -> user_agent_ c = [];
  allowed_request : access_log_request_headers w = false -> request_headers_ c = [];
  allowed_body : access_log_request_body w = false -> request_body_ c = [] }.
Definition of_website (w : website_logging) (call : capture_call) : Prop := match call with OfWebsite _ w' => w' = w | _ => True end.

Lemma allowed_website w parsed c : allowed w c -> allowed w (website parsed w c).
Proof.
  intros [Hp Hh Hr Hq Hc Hf Ha Hrq Hb]. unfold website. destruct (access_log_enabled w) eqn:Ee; split; cbn; auto.
  - intros E. rewrite E. by apply Hq.
  - intros E. rewrite E. by apply Hc.
  - intros E. rewrite E. by apply Hf.
  - intros E. rewrite E. by apply Ha.
  - intros E. rewrite E. by apply Hrq.
  - intros E. rewrite E. by apply Hb.
  - done.
Qed.
Lemma allowed_step w call c : of_website w call -> allowed w c -> allowed w (run_call call c).1.
Proof.
  intros Hw Hc. destruct call; cbn [run_call fst of_website] in *; try (destruct Hc; by split).
  - unfold first_byte. destruct (first_byte_ms_ c); [done|]. destruct Hc; by split.
  - subst. by apply allowed_website.
  - unfold response_head. destruct Hc as [Hp Hh Hr Hq Hck Hf Ha Hrq Hb]. split; cbn; try done. intros E. specialize (Hr E).
    destruct (response_headers_enabled_ c); [by rewrite (Hh eq_refl) in E|done].
  - unfold record. destruct (_ || _); [done|]. destruct Hc; by split.
Qed.


(** * From a session to the service *)

Definition cache_words : list string := ["hit_memory"; "hit_disk"; "miss"; "bypass"]%string.
Definition end_words : list string :=
  ["completed"; "client_closed"; "origin_closed"; "client_error"; "origin_error"; "protocol_error"; "timeout"; "shutdown"]%string.
(** What a session passes: a request that was read, a website with a UUID, and the words of the two sides. *)
Definition session_call (call : capture_call) : Prop :=
  match call with
  | Request parsed host => empty (parsed_method parsed) = false /\ empty (parsed_target parsed) = false /\ empty host = false
  | OfWebsite _ w => is_uuid (logged_id w) = true
  | CacheStatus value reason revalidated =>
      one_of value cache_words = true /\ size reason <= 64 /\ (revalidated = true -> one_of value ["hit_memory"; "hit_disk"]%string = true)
  | RecordOf _ _ _ end_reason _ => one_of end_reason end_words = true
  | _ => True
  end.
(** The request is known before its website is. *)
Fixpoint request_first (seen : bool) (calls : list capture_call) : bool :=
  match calls with
  | [] => true
  | Request _ _ :: calls => request_first true calls
  | OfWebsite _ _ :: calls => seen && request_first seen calls
  | _ :: calls => request_first seen calls
  end.
Definition seen_after (seen : bool) (call : capture_call) : bool := match call with Request _ _ => true | _ => seen end.
Definition request_known (c : access_log_capture) : bool := negb (empty (method_ c)) && negb (empty (target_ c)) && negb (empty (host_ c)).
Record capture_ok (seen : bool) (c : access_log_capture) : Prop := {
  capture_request_ : seen = true -> request_known c = true;
  capture_website : website_id_ c <> [] -> seen = true /\ is_uuid (website_id_ c) = true;
  capture_type : one_of (request_type_ c) ["http"; "sse"; "websocket"]%string = true;
  capture_cache : one_of (cache_status_ c) cache_words = true /\ size (cache_reason_ c) <= 64 /\
    (cache_revalidated_ c = true -> one_of (cache_status_ c) ["hit_memory"; "hit_disk"]%string = true) }.

Lemma capture_ok_step seen call calls c : session_call call -> request_first seen (call :: calls) = true -> capture_ok seen c ->
  capture_ok (seen_after seen call) (run_call call c).1 /\ request_first (seen_after seen call) calls = true.
Proof.
  intros Hcall Hseen Hc. destruct call; cbn [run_call fst session_call request_first seen_after] in *; (split; [|by try (apply andb_true_iff in Hseen as [_ Hseen])]);
    try (destruct Hc as [Hq Hw Ht Hk]; split; by try assumption).
  - destruct Hc as [Hq Hw Ht Hk]. destruct Hcall as (E1 & E2 & E3). split; cbn; try done.
    + intros _. unfold request_known. cbn. by rewrite E1, E2, E3.
    + intros Hn. split; [done|by apply Hw].
  - unfold first_byte. destruct (first_byte_ms_ c); [done|]. destruct Hc as [Hq Hw Ht Hk]; by split.
  - apply andb_true_iff in Hseen as [-> _]. unfold website. destruct Hc as [Hq Hw Ht Hk]. destruct (access_log_enabled w); split; cbn; done.
  - unfold response_head. destruct Hc as [Hq Hw Ht Hk]. split; cbn; try done. by destruct (existsb _ _).
  - unfold record. destruct (_ || _); [done|]. destruct Hc as [Hq Hw Ht Hk]; by split.
Qed.
Lemma one_of_either value words : one_of value words = true -> empty value || one_of value words = true.
Proof. intros ->. by rewrite orb_true_r. Qed.
Lemma recorded_loggable seen c status_code response_bytes client_ip end_reason now r : capture_ok seen c -> one_of end_reason end_words = true ->
  (record status_code response_bytes client_ip end_reason now c).2 = Some r -> loggable r.
Proof.
  intros [Hq Hw Ht (Hk1 & Hk2 & Hk3)] He. unfold record. destruct (_ || _) eqn:E; [done|]. intros [= <-]. rewrite !orb_false_iff in E. destruct E as [[_ Ew] _].
  destruct (Hw ltac:(by intros Ei; rewrite Ei in Ew)) as [-> Hu]. specialize (Hq eq_refl). unfold request_known in Hq. rewrite !andb_true_iff, !negb_true_iff in Hq.
  destruct Hq as [[Hm Htg] Hh]. unfold recorded_access.
  split; try done; try (by apply one_of_either).
  - by destruct (secure_ c).
  - change (negb (cache_revalidated_ c) || one_of (cache_status_ c) ["hit_memory"; "hit_disk"]%string = true). destruct (cache_revalidated_ c); [by apply Hk3|done].
Qed.

(** Whatever a client sends and an origin answers, the event of every session's record is accepted by
    the service. *)
Theorem session_events_accepted secure tls started unix calls random now_ms r :
  Forall session_call calls -> request_first false calls = true -> random_ok random -> 0 < now_ms ->
  r ∈ run_calls calls (new_capture secure tls started unix) -> valid_event (access_event random now_ms r) = true.
Proof.
  intros Hcalls Hfirst Hr Hn. assert (Hc : capture_ok false (new_capture secure tls started unix)) by (by split).
  revert Hcalls Hfirst Hc. generalize (new_capture secure tls started unix), false. induction calls as [|call calls IH]; intros c seen Hcalls Hfirst Hc Hin; cbn [run_calls] in Hin.
  { by apply not_elem_of_nil in Hin. }
  apply Forall_cons in Hcalls as [Hcall Hcalls]. destruct (capture_ok_step seen call calls c Hcall Hfirst Hc) as [Hc' Hf'].
  destruct (run_call call c) as [c' made] eqn:E. cbn [fst] in Hc'. destruct made as [r'|]; [|by apply (IH c' (seen_after seen call))].
  apply elem_of_cons in Hin as [->|Hin]; [|by apply (IH c' (seen_after seen call))]. apply event_of_loggable; [done|done|].
  destruct call; cbn [run_call] in E; try done. apply (recorded_loggable seen c status_code response_bytes client_ip end_reason now); [done|done|]. by rewrite E.
Qed.

(** * Bounds of what is kept *)

Lemma append_bounded_size result value maximum : size result <= maximum -> size (append_bounded result value maximum) <= maximum.
Proof. intros Hr. unfold append_bounded. destruct (Z.ltb_spec (size result) maximum); [|done]. unfold size in *. rewrite length_app, length_take. lia. Qed.
Lemma header_lines_size maximum lines : forall result, size result <= maximum -> size (header_lines maximum lines result) <= maximum.
Proof.
  induction lines as [|line lines IH]; intros result Hr; cbn [header_lines]; [done|]. destruct (_ <? _); [|done]. apply IH. unfold header_line.
  destruct (find_char ":" line); by repeat apply append_bounded_size.
Qed.
Lemma request_lines_size maximum headers : forall result, size result <= maximum -> size (request_lines maximum headers result) <= maximum.
Proof.
  induction headers as [|[name value] headers IH]; intros result Hr; cbn [request_lines]; [done|]. cbv zeta.
  match goal with |- context [maximum <=? size ?s] => assert (size s <= maximum) as Hs by (by repeat apply append_bounded_size); destruct (maximum <=? size s); [done|by apply IH] end.
Qed.
(** The blocks of headers never exceed their bounds, however long the heads are. *)
Lemma header_blocks_bounded parsed block : size (request_header_block parsed) <= max_request_headers_bytes /\ size (header_block block max_response_headers_bytes) <= max_response_headers_bytes.
Proof. split; [by apply request_lines_size|by apply header_lines_size]. Qed.

(** The fuel of the cut into lines is enough: the lines are those of any larger fuel. *)
Lemma block_lines_fuel fuel : forall block, (length block < fuel)%nat -> block_lines (S fuel) block = block_lines fuel block.
Proof.
  induction fuel as [|fuel IH]; intros block Hl; [lia|]. cbn [block_lines]. destruct block as [|c block]; [done|]. cbn [empty].
  destruct (find_sub crlf (c :: block)) as [line_end|]; [|done]. f_equal.
  assert (length (drop (line_end + 2) (c :: block)) < fuel)%nat as Hd by (rewrite length_drop; cbn [length] in *; lia). by rewrite <- (IH _ Hd).
Qed.

(** * Witnesses *)

Definition sample_parsed : parsed_request :=
  ParsedRequest (lit "GET") (lit "/a?token=1") [(lit "Cookie", lit "sid=7")] (fun name => if name == lit "Cookie" then Some (lit "sid=7") else None) false None.
Definition sample_website : website_logging :=
  WebsiteLogging (lit "0f8fad5b-d9cb-469f-a165-70867728950e") true true false [lit "2xx"] true false true true false true.
Definition sample_session : list capture_call :=
  [Request sample_parsed (lit "example.com"); OfWebsite sample_parsed sample_website; CacheStatus (lit "miss") (lit "cache_empty") false;
   ResponseHead (lit "HTTP/1.1 200 OK" ++ crlf ++ lit "Server: x" ++ crlf ++ crlf); FirstByte 7000000; RecordOf 200 512 (lit "192.0.2.7") (lit "completed") 9000000;
   RecordOf 200 512 (lit "192.0.2.7") (lit "client_error") 9000000].
Definition sample_made : access_record :=
  AccessRecord (lit "0f8fad5b-d9cb-469f-a165-70867728950e") (lit "192.0.2.7") (lit "https") (lit "GET") (lit "example.com") (lit "/a?token=1") 200 0 512 9 [] [] [] [] false
    (lit "tls") (lit "Server: x" ++ [chr 10]) (lit "token=1") [] (lit "miss") (lit "cache_empty") false (lit "http") 1700000000000 (Some 7) (lit "completed") None.
Lemma sample_records : run_calls sample_session (new_capture true (lit "tls") 0 1700000000000) = [sample_made].
Proof. by vm_compute. Qed.
Lemma session_events_accepted_witness : valid_event (access_event None 1700000000000 sample_made) = true.
Proof.
  apply (session_events_accepted true (lit "tls") 0 1700000000000 sample_session).
  - repeat constructor; by vm_compute.
  - done.
  - done.
  - done.
  - rewrite sample_records. by apply list_elem_of_singleton.
Defined.
