(* ===== verification/LogProducer.v ===== *)
(** The staging of log events on a worker: [log_batch] and [producer_state] of
    src/node/runtime/log_producer.h.

    The channel to the control worker and the event loop are the library's: what they answer is an
    argument. The sizes of messages are those of the generated code, an interface with the law of the
    protocol buffers' encoding. *)
From S2P Require Import Prelude RoutePolicy Hex AccessLog.
Open Scope Z_scope.

Definition max_delivery_events : Z := 512.
Definition max_delivery_bytes : Z := 1024 * 1024.
Definition node_identity_wire_bytes : Z := 128.

(** The loop over the seven-bit groups of a length; ten groups are enough for 64 bits. *)
Fixpoint length_bytes (fuel : nat) (value size : Z) : Z :=
  match fuel with
  | O => size
  | S fuel => if 128 <=? value then length_bytes fuel (Z.shiftr value 7) (size + 1) else size
  end.
Definition event_wire_bytes (bytes : Z) : Z := length_bytes 10 bytes 2 + bytes.

(** [ByteSizeLong] of an event and of a delivery: a field is its tag, its length and its content. *)
Class LogSizes := { event_size : log_event -> Z; delivery_size : bytes -> list log_event -> Z }.
Definition wire_of `{LogSizes} (event : log_event) : Z := event_wire_bytes (event_size event).
Definition wire_sum `{LogSizes} (events : list log_event) : Z := foldr (fun event total => wire_of event + total) 0 events.
Class LogSizesLaws `{LogSizes} := {
  event_size_nonneg : forall event, 0 <= event_size event < two64;
  delivery_size_spec : forall id events,
    delivery_size id events = (if empty id then 0 else length_bytes 10 (size id) 2 + size id) + wire_sum events }.

(** ** Staging *)

Section Producer.
Context `{LogSizes}.

(** The constructor of [log_batch] throws when this fails. *)
Definition log_batch_ok (events : list log_event) : bool :=
  negb (empty events) && (size events <=? max_delivery_events) && (delivery_size [] events <=? max_delivery_bytes - node_identity_wire_bytes).

Record producer_state := Producer { pending_ : list log_event; wire_bytes_ : Z; dropped_events_ : Z; published_events_ : Z; flush_scheduled_ : bool }.
Definition new_producer : producer_state := Producer [] node_identity_wire_bytes 0 0 false.

(** The answer of the call, the state and the batch that was handed over, if one was; [Throws] is the constructor's. *)
Definition produced : Type := bool * producer_state * option (list log_event).
Definition flush (accepted : bool) (p : producer_state) : throwing produced :=
  if empty (pending_ p) then Returns (true, p, None)
  else
    let count := size (pending_ p) in
    if negb (log_batch_ok (pending_ p)) then Throws (lit "invalid node log batch")
    else if negb accepted then Returns (false, Producer [] node_identity_wire_bytes (u64 (dropped_events_ p + count)) (published_events_ p) (flush_scheduled_ p), None)
    else Returns (true, Producer [] node_identity_wire_bytes (dropped_events_ p) (u64 (published_events_ p + count)) (flush_scheduled_ p), Some (pending_ p)).

(** [accepted] is what the channel answers, [posted] what the event loop answers. *)
Definition append (accepted posted : bool) (event : log_event) (p : producer_state) : throwing produced :=
  let bytes := wire_of event in
  if max_delivery_bytes - node_identity_wire_bytes <? bytes then
    Returns (false, Producer (pending_ p) (wire_bytes_ p) (u64 (dropped_events_ p + 1)) (published_events_ p) (flush_scheduled_ p), None)
  else
    throwing_bind (if max_delivery_bytes <? wire_bytes_ p + bytes then flush accepted p else Returns (true, p, None)) (fun '(_, p, first) =>
    let p := Producer (pending_ p ++ [event]) (wire_bytes_ p + bytes) (dropped_events_ p) (published_events_ p) (flush_scheduled_ p) in
    if size (pending_ p) =? max_delivery_events then
      throwing_bind (flush accepted p) (fun '(sent, p, second) => Returns (sent, p, match first with Some _ => first | None => second end))
    else if flush_scheduled_ p then Returns (true, p, first)
    else if posted then Returns (true, Producer (pending_ p) (wire_bytes_ p) (dropped_events_ p) (published_events_ p) true, first)
    else Returns (false, Producer [] node_identity_wire_bytes (u64 (dropped_events_ p + size (pending_ p))) (published_events_ p) false, first)).
(** The task that [append] posts. *)
Definition run_scheduled (accepted : bool) (p : producer_state) : throwing produced :=
  flush accepted (Producer (pending_ p) (wire_bytes_ p) (dropped_events_ p) (published_events_ p) false).

Inductive producer_call := Append (accepted posted : bool) (event : log_event) | Scheduled (accepted : bool) | Flush (accepted : bool).
Definition produce (call : producer_call) (p : producer_state) : throwing produced :=
  match call with
  | Append accepted posted event => append accepted posted event p
  | Scheduled accepted => run_scheduled accepted p
  | Flush accepted => flush accepted p
  end.
(** The batches handed over by a history of calls. *)
Fixpoint produce_all (calls : list producer_call) (p : producer_state) : throwing (producer_state * list (list log_event)) :=
  match calls with
  | [] => Returns (p, [])
  | call :: calls =>
      throwing_bind (produce call p) (fun '(_, p, batch) =>
      throwing_bind (produce_all calls p) (fun '(p, batches) => Returns (p, match batch with Some b => b :: batches | None => batches end)))
  end.

(** ** Nothing is duplicated or reordered, and what is dropped is counted *)

Context {laws : LogSizesLaws}.

Lemma length_bytes_le fuel : forall value n, n <= length_bytes fuel value n.
Proof. induction fuel as [|fuel IH]; intros value n; cbn [length_bytes]; [lia|]. destruct (128 <=? value); [|lia]. pose proof (IH (Z.shiftr value 7) (n + 1)). lia. Qed.
Lemma wire_of_pos event : 0 < wire_of event.
Proof. unfold wire_of, event_wire_bytes. pose proof (length_bytes_le 10 (event_size event) 2). pose proof (event_size_nonneg event). lia. Qed.
Lemma wire_sum_app a b : wire_sum (a ++ b) = wire_sum a + wire_sum b.
Proof. induction a as [|event a IH]; [done|]. cbn [app wire_sum foldr] in *. unfold wire_sum in *. lia. Qed.
Lemma wire_sum_nonneg a : 0 <= wire_sum a.
Proof. induction a as [|event a IH]; [done|]. pose proof (wire_of_pos event). unfold wire_sum in *. cbn [foldr]. lia. Qed.
Lemma wire_sum_one event : wire_sum [event] = wire_of event.
Proof. unfold wire_sum. cbn. lia. Qed.

Record producer_ok (p : producer_state) : Prop := {
  staged_bytes : wire_bytes_ p = node_identity_wire_bytes + wire_sum (pending_ p); staged_fit : wire_bytes_ p <= max_delivery_bytes;
  staged_events : size (pending_ p) < max_delivery_events }.
Lemma new_producer_ok : producer_ok new_producer.
Proof. by split. Qed.

(** What a call makes of the staged events and of its own. *)
Record conserves (input : list log_event) (p p' : producer_state) (batch : option (list log_event)) : Prop := {
  conserves_order : sublist (default [] batch ++ pending_ p') (pending_ p ++ input);
  conserves_batch : match batch with Some events => log_batch_ok events = true | None => True end;
  conserves_published : published_events_ p' = u64 (published_events_ p + size (default [] batch));
  conserves_dropped : dropped_events_ p' = u64 (dropped_events_ p + (size (pending_ p ++ input) - size (default [] batch ++ pending_ p'))) }.

Definition counters_ok (p : producer_state) : Prop := is_u64 (dropped_events_ p) /\ is_u64 (published_events_ p).
Lemma u64_same z : is_u64 z -> u64 (z + 0) = z.
Proof. intros Hz. unfold u64. rewrite Z.add_0_r. by apply Z.mod_small. Qed.

(** A staged batch is one the constructor takes, also with one event more than the invariant has. *)
Lemma staged_batch_ok events : events <> [] -> size events <= max_delivery_events -> node_identity_wire_bytes + wire_sum events <= max_delivery_bytes -> log_batch_ok events = true.
Proof.
  intros Hn Hs Hw. unfold log_batch_ok. rewrite delivery_size_spec. cbn [empty].
  by rewrite (proj2 (Z.leb_le (size events) max_delivery_events)), (proj2 (Z.leb_le (0 + wire_sum events) _)) by lia; destruct events.
Qed.
Lemma flush_exact accepted p : node_identity_wire_bytes + wire_sum (pending_ p) <= max_delivery_bytes -> size (pending_ p) <= max_delivery_events ->
  wire_bytes_ p = node_identity_wire_bytes + wire_sum (pending_ p) -> counters_ok p ->
  exists sent p' batch, flush accepted p = Returns (sent, p', batch) /\ conserves [] p p' batch /\ counters_ok p' /\ pending_ p' = [] /\ wire_bytes_ p' = node_identity_wire_bytes.
Proof.
  intros Hw Hs Hb [Hd Hp]. unfold flush. destruct (pending_ p) as [|event events] eqn:E; cbn [empty].
  - exists true, p, None. split; [done|]. split; [split|]; cbn [default app]; rewrite ?E; cbn [app]; try done.
    + by rewrite u64_same.
    + by rewrite Z.sub_diag, u64_same.
  - rewrite (staged_batch_ok (event :: events)) by (done || by rewrite <- E). cbn [negb]. destruct accepted; cbn [negb].
    + do 3 eexists. split; [done|]. split; [split|]; cbn [default pending_ published_events_ dropped_events_]; rewrite ?E, ?app_nil_r; try done.
      * by apply staged_batch_ok.
      * by rewrite Z.sub_diag, u64_same.
      * split; [|done]. split; [done|apply u64_range].
    + do 3 eexists. split; [done|]. split; [split|]; cbn [default pending_ published_events_ dropped_events_ app]; rewrite ?E, ?app_nil_r; try done.
      * apply sublist_nil_l.
      * by rewrite u64_same.
      * split; [|done]. split; [apply u64_range|done].
Qed.
Definition either (first second : option (list log_event)) : option (list log_event) := match first with Some _ => first | None => second end.
Lemma conserves_trans i1 i2 p1 p2 p3 first second : conserves i1 p1 p2 first -> conserves i2 p2 p3 second -> first = None \/ second = None ->
  conserves (i1 ++ i2) p1 p3 (either first second).
Proof.
  intros [O1 B1 P1 D1] [O2 B2 P2 D2] Hone.
  assert (E : default [] (either first second) = default [] first ++ default [] second) by (destruct Hone as [-> | ->]; [done|]; by destruct first; cbn; rewrite ?app_nil_r).
  assert (size (default [] (either first second) ++ pending_ p3) = size (default [] first) + size (default [] second) + size (pending_ p3)) as Es.
  { rewrite E. unfold size. rewrite !length_app. lia. }
  split.
  - rewrite E, <- app_assoc. etransitivity; [apply sublist_app; [reflexivity|exact O2]|]. rewrite !app_assoc. by apply sublist_app.
  - by destruct first.
  - rewrite P2, P1, u64_add. f_equal. rewrite E. unfold size. rewrite length_app. lia.
  - rewrite D2, D1, u64_add, Es. f_equal. unfold size in *. rewrite !length_app in *. lia.
Qed.
Lemma conserves_stage p p' event : pending_ p' = pending_ p ++ [event] -> dropped_events_ p' = dropped_events_ p -> published_events_ p' = published_events_ p -> counters_ok p ->
  conserves [event] p p' None.
Proof.
  intros Ep Ed Eu [Hd Hp]. split; cbn [default app].
  - by rewrite Ep.
  - done.
  - by rewrite Eu, u64_same.
  - by rewrite Ed, Ep, Z.sub_diag, u64_same.
Qed.

Lemma producer_ok_flush accepted p : producer_ok p -> counters_ok p ->
  exists sent p' batch, flush accepted p = Returns (sent, p', batch) /\ conserves [] p p' batch /\ counters_ok p' /\ producer_ok p' /\ pending_ p' = [] /\ wire_bytes_ p' = node_identity_wire_bytes.
Proof.
  intros [Hb Hw Hs] Hc. destruct (flush_exact accepted p) as (sent & p' & batch & E & Hcv & Hc' & Ep & Ew); [lia|lia|done|done|].
  exists sent, p', batch. split; [done|]. split; [done|]. split; [done|]. split; [|done]. split; rewrite ?Ep, ?Ew; done.
Qed.
(** The part of [append] after the batch before has left: the event is staged, and what happens then. *)
Lemma append_staged accepted (posted : bool) event p : producer_ok p -> counters_ok p -> wire_bytes_ p + wire_of event <= max_delivery_bytes ->
  let staged := Producer (pending_ p ++ [event]) (wire_bytes_ p + wire_of event) (dropped_events_ p) (published_events_ p) (flush_scheduled_ p) in
  forall first, (size (pending_ p) + 1 = max_delivery_events -> first = None) ->
  exists sent p' batch, (if size (pending_ staged) =? max_delivery_events then
      throwing_bind (flush accepted staged) (fun '(sent, p, second) => Returns (sent, p, match first with Some _ => first | None => second end))
    else if flush_scheduled_ staged then Returns (true, staged, first)
    else if posted then Returns (true, Producer (pending_ staged) (wire_bytes_ staged) (dropped_events_ staged) (published_events_ staged) true, first)
    else Returns (false, Producer [] node_identity_wire_bytes (u64 (dropped_events_ staged + size (pending_ staged))) (published_events_ staged) false, first)) =
      Returns (sent, p', either first batch) /\ conserves [event] p p' batch /\ (first = None \/ batch = None) /\ producer_ok p' /\ counters_ok p'.
Proof.
  intros [Hb Hw Hs] Hc Hfit staged first Hfirst. assert (Hst : conserves [event] p staged None) by (by apply conserves_stage).
  assert (size (pending_ staged) = size (pending_ p) + 1) as Esz by (unfold staged, size; cbn [pending_]; rewrite length_app; cbn; lia).
  assert (wire_bytes_ staged = node_identity_wire_bytes + wire_sum (pending_ staged)) as Ewb by (unfold staged; cbn [pending_ wire_bytes_]; rewrite wire_sum_app, wire_sum_one; lia).
  assert (wire_bytes_ staged <= max_delivery_bytes) as Hfit' by done.
  destruct (Z.eqb_spec (size (pending_ staged)) max_delivery_events) as [Efull|Hroom].
  - destruct (flush_exact accepted staged) as (sent & p' & batch & E & Hcv & Hc' & Ep & Ew); [lia|lia|done|done|]. rewrite E. cbn [throwing_bind].
    exists sent, p', batch. rewrite (Hfirst ltac:(lia)). split; [done|]. split; [by apply (conserves_trans [event] [] p staged p' None batch); [| |left]|].
    split; [by left|]. split; [|done]. split; rewrite ?Ep, ?Ew; done.
  - assert (producer_ok staged) as Hok by (split; [done..|lia]). destruct (flush_scheduled_ staged); [|destruct posted]; do 2 eexists; exists None.
    + split; [by destruct first|]. split; [done|]. split; [by right|]. by split.
    + split; [by destruct first|]. split; [by apply conserves_stage|]. split; [by right|]. split; [by destruct Hok|done].
    + split; [by destruct first|]. split; [|split; [by right|split; [by split|split; [apply u64_range|apply Hc]]]].
      split; cbn [default app pending_ published_events_ dropped_events_]; [apply sublist_nil_l|done|by rewrite u64_same by apply Hc|].
      unfold staged. cbn [pending_ dropped_events_]. f_equal. change (size []) with 0. lia.
Qed.
Lemma append_exact accepted posted event p : producer_ok p -> counters_ok p ->
  exists sent p' batch, append accepted posted event p = Returns (sent, p', batch) /\ conserves [event] p p' batch /\ producer_ok p' /\ counters_ok p'.
Proof.
  intros Hok Hc. pose proof (wire_of_pos event) as Hpos. unfold append. destruct (Z.ltb_spec (max_delivery_bytes - node_identity_wire_bytes) (wire_of event)) as [Hbig|Hfits].
  - do 3 eexists. split; [done|]. split; [|split; [by destruct Hok|split; [apply u64_range|apply Hc]]]. destruct Hc as [Hd Hp].
    split; cbn [default app pending_ published_events_ dropped_events_]; [by apply sublist_inserts_r|done|by rewrite u64_same|].
    f_equal. unfold size. rewrite length_app. cbn. lia.
  - destruct (Z.ltb_spec max_delivery_bytes (wire_bytes_ p + wire_of event)) as [Hover|Hroom].
    + destruct (producer_ok_flush accepted p Hok Hc) as (s1 & p1 & b1 & E1 & C1 & Hc1 & Hok1 & Ep1 & Ew1). rewrite E1. cbn [throwing_bind].
      destruct (append_staged accepted posted event p1 Hok1 Hc1) with (first := b1) as (s2 & p2 & b2 & E2 & C2 & Hone & Hok2 & Hc2); [lia|rewrite Ep1; by intros ?|].
      cbv zeta in E2. exists s2, p2, (either b1 b2). split; [exact E2|]. split; [|done]. by apply (conserves_trans [] [event] p p1 p2).
    + cbn [throwing_bind]. destruct (append_staged accepted posted event p Hok Hc Hroom None) as (s2 & p2 & b2 & E2 & C2 & _ & Hok2 & Hc2); [done|].
      cbv zeta in E2. by exists s2, p2, b2.
Qed.

Definition appended (calls : list producer_call) : list log_event := flat_map (fun call => match call with Append _ _ event => [event] | _ => [] end) calls.
Lemma produce_exact call p : producer_ok p -> counters_ok p ->
  exists sent p' batch, produce call p = Returns (sent, p', batch) /\ conserves (appended [call]) p p' batch /\ producer_ok p' /\ counters_ok p'.
Proof.
  intros Hok Hc. destruct call as [accepted posted event|accepted|accepted]; cbn [produce appended flat_map app].
  - by apply append_exact.
  - unfold run_scheduled. set (q := Producer (pending_ p) (wire_bytes_ p) (dropped_events_ p) (published_events_ p) false).
    destruct (producer_ok_flush accepted q) as (s & p' & b & E & [C1 C2 C3 C4] & Hc' & Hok' & _); [by destruct Hok|done|]. by exists s, p', b.
  - destruct (producer_ok_flush accepted p Hok Hc) as (s & p' & b & E & C & Hc' & Hok' & _). by exists s, p', b.
Qed.
(** C34. Whatever the channel and the event loop answer, logging never throws; every batch handed over is
    one the delivery takes, within 512 events and a megabyte with the node's name; the batches and
    what is still staged are the events logged, in order, none twice; and every other event is counted as dropped. *)
Theorem producer_exact calls : exists p batches, produce_all calls new_producer = Returns (p, batches) /\ Forall (fun b => log_batch_ok b = true) batches /\
  sublist (concat batches ++ pending_ p) (appended calls) /\ published_events_ p = u64 (size (concat batches)) /\
  dropped_events_ p = u64 (size (appended calls) - size (concat batches ++ pending_ p)).
Proof.
  enough (Hgen : forall p0, producer_ok p0 -> counters_ok p0 -> exists p batches, produce_all calls p0 = Returns (p, batches) /\ Forall (fun b => log_batch_ok b = true) batches /\
    sublist (concat batches ++ pending_ p) (pending_ p0 ++ appended calls) /\ published_events_ p = u64 (published_events_ p0 + size (concat batches)) /\
    dropped_events_ p = u64 (dropped_events_ p0 + (size (pending_ p0 ++ appended calls) - size (concat batches ++ pending_ p)))) by (apply (Hgen new_producer); by repeat split).
  induction calls as [|call calls IH]; intros p0 Hok Hc; cbn [produce_all].
  - exists p0, []. split; [done|]. split; [done|]. destruct Hc as [Hd Hp]. cbn [concat app appended flat_map]. rewrite app_nil_r, Z.sub_diag. by rewrite !u64_same.
  - destruct (produce_exact call p0 Hok Hc) as (sent & p1 & batch & E & [O B P D] & Hok1 & Hc1). destruct (IH p1 Hok1 Hc1) as (p & batches & E' & Hb & Ho & Hp & Hd).
    rewrite E. cbn [throwing_bind]. rewrite E'. cbn [throwing_bind]. do 2 eexists. split; [done|].
    assert (Ea : appended (call :: calls) = appended [call] ++ appended calls) by (unfold appended; cbn [flat_map]; by rewrite app_nil_r).
    assert (Eb : concat (match batch with Some b => b :: batches | None => batches end) = default [] batch ++ concat batches) by (by destruct batch).
    rewrite Ea, Eb. split; [destruct batch; [by constructor|done]|]. split; [|split].
    + rewrite <- app_assoc. etransitivity; [apply sublist_app; [reflexivity|exact Ho]|]. rewrite !app_assoc. by apply sublist_app.
    + rewrite Hp, P, u64_add. f_equal. unfold size. rewrite length_app. lia.
    + rewrite Hd, D, u64_add. f_equal. unfold size. rewrite !length_app. lia.
Qed.
End Producer.

(** * Witness *)

(** Sizes of two kinds of events: small ones and ones of nearly a megabyte. *)
Definition two_sizes : LogSizes := {|
  event_size := fun event => match event with NodeEvent _ => 100 | AccessEvent _ => 1000000 end;
  delivery_size := fun id events => (if empty id then 0 else length_bytes 10 (size id) 2 + size id) +
    foldr (fun event total => event_wire_bytes (match event with NodeEvent _ => 100 | AccessEvent _ => 1000000 end) + total) 0 events |}.
Lemma two_sizes_laws : LogSizesLaws (H := two_sizes).
Proof. split; [|done]. intros event. cbn. unfold two64. destruct event; lia. Qed.
Definition small_event (text : string) : log_event := node_event None 1700000000000 (lit "info") (lit "runtime") (lit text).
Definition large_event : log_event := access_event None 1700000000000 (sample_record (lit "agent")).
Definition sample_calls : list producer_call :=
  [Append true true (small_event "a"); Append true true large_event; Append true true large_event; Append false true large_event; Scheduled true; Append true false (small_event "b")].
Lemma producer_exact_witness : exists p batches, produce_all (H := two_sizes) sample_calls new_producer = Returns (p, batches) /\
  batches = [[small_event "a"; large_event]; [large_event]] /\ dropped_events_ p = 2.
Proof.
  destruct (producer_exact (H := two_sizes) (laws := two_sizes_laws) sample_calls) as (p & batches & E & _).
  exists p, batches. split; [exact E|]. vm_compute in E. injection E as <- <-. by vm_compute.
Defined.
