(* ===== verification/LogDelivery.v ===== *)
(** The delivery of log batches to the service: src/node/control/log_delivery.h and channel_log.h.

    The coroutines are cut at their suspensions: a system is the object's state with the place each
    coroutine waits at, and a step resumes one of them with what it waited for. The channels of one
    value that wake a coroutine are the library's, an interface with its laws. *)
From S2P Require Import Prelude RoutePolicy Hex AccessLog LogProducer.
Open Scope Z_scope.

(** * Failures of the channel: channel_log.h *)

Inductive failure_code :=
  | Timeout | Cancelled | ResolveFailed | ConnectFailed | HandshakeRejected | IoError | Closing | InvalidConfig | InvalidState | TlsFailed | ProtocolError | MessageTooLarge.
Inductive channel_failure_kind := transient | permanent.
Definition classify_channel_failure (c : failure_code) : channel_failure_kind :=
  match c with
  | Timeout | Cancelled | ResolveFailed | ConnectFailed | HandshakeRejected | IoError | Closing => transient
  | InvalidConfig | InvalidState | TlsFailed | ProtocolError | MessageTooLarge => permanent
  end.
Definition websocket_failure (c : failure_code) (what : bytes) : channel_failure_kind :=
  match c with
  | ProtocolError => if what == lit "WebSocket transport ended before peer Close" then transient else classify_channel_failure c
  | _ => classify_channel_failure c
  end.
Definition count_failure (failure_count : Z) : Z := Z.min (failure_count + 1) 6.
Definition retry_delay (failure_count : Z) : Z :=
  let exponent := if failure_count =? 0 then 0 else failure_count - 1 in Z.min (Z.shiftl 1 exponent) 30.

(** * The state *)

(** A channel of one value: what is sent while it holds one is refused. *)
Class Wakeups := { wakeup : Type; quiet : wakeup; send : wakeup -> wakeup; holds : wakeup -> bool; consume : wakeup -> wakeup }.
Class WakeupsLaws `{Wakeups} := {
  quiet_holds : holds quiet = false; send_holds : forall w, holds (send w) = true; consume_holds : forall w, holds (consume w) = false }.

Inductive source_id := DataLogs | ControlLogs.
#[export] Instance source_id_eq_dec : EqDecision source_id.
Proof. solve_decision. Defined.

Section Delivery.
Context `{LogSizes} `{Wakeups}.

Record queued_batch := QueuedBatch { value_ : list log_event; next_event_ : nat }.
Record batch_source := Source {
  pending_ : list queued_batch; waiting_ : option (list log_event); space_ : wakeup; maximum_events_ : Z; maximum_bytes_ : Z; retained_events_ : Z; retained_bytes_ : Z;
  received_events_ : Z; acknowledged_events_ : Z; closed_ : bool }.
Definition new_source (events bytes : Z) : batch_source := Source [] None quiet events bytes 0 0 0 0 false.
Record in_flight_delivery := InFlight { node_id_ : bytes; events_ : list log_event; source_ : source_id; event_count_ : Z; event_bytes_ : Z }.
Record log_delivery := Delivery { data_ : batch_source; control_ : batch_source; ready_ : wakeup; in_flight_ : option in_flight_delivery; failure_count_ : Z }.
Definition new_delivery : log_delivery := Delivery (new_source 8192 (64 * 1024 * 1024)) (new_source 1024 (8 * 1024 * 1024)) quiet None 0.

Definition source_of (id : source_id) (d : log_delivery) : batch_source := match id with DataLogs => data_ d | ControlLogs => control_ d end.
Definition set_source (id : source_id) (s : batch_source) (d : log_delivery) : log_delivery :=
  match id with
  | DataLogs => Delivery s (control_ d) (ready_ d) (in_flight_ d) (failure_count_ d)
  | ControlLogs => Delivery (data_ d) s (ready_ d) (in_flight_ d) (failure_count_ d)
  end.
Definition raise_ready (d : log_delivery) : log_delivery := Delivery (data_ d) (control_ d) (send (ready_ d)) (in_flight_ d) (failure_count_ d).
Definition set_in_flight (f : option in_flight_delivery) (d : log_delivery) : log_delivery := Delivery (data_ d) (control_ d) (ready_ d) f (failure_count_ d).

(** * Receiving: [receive_source] *)

Definition batch_bytes (batch : list log_event) : Z := foldr (fun event total => event_size event + total) 0 batch.
Definition fits (batch : list log_event) (s : batch_source) : bool :=
  negb ((maximum_events_ s <? retained_events_ s + size batch) || (maximum_bytes_ s <? retained_bytes_ s + batch_bytes batch)).
Inductive receive_place := NotStarted | AtReceive | AtSpace | Threw.

Definition with_waiting (batch : list log_event) (s : batch_source) : batch_source :=
  Source (pending_ s) (Some batch) (space_ s) (maximum_events_ s) (maximum_bytes_ s) (retained_events_ s) (retained_bytes_ s) (u64 (received_events_ s + size batch))
    (acknowledged_events_ s) (closed_ s).
Definition push_batch (batch : list log_event) (s : batch_source) : batch_source :=
  Source (pending_ s ++ [QueuedBatch batch 0]) None (space_ s) (maximum_events_ s) (maximum_bytes_ s) (retained_events_ s + size batch) (retained_bytes_ s + batch_bytes batch)
    (received_events_ s) (acknowledged_events_ s) (closed_ s).
Definition with_closed (s : batch_source) : batch_source :=
  Source (pending_ s) (waiting_ s) (space_ s) (maximum_events_ s) (maximum_bytes_ s) (retained_events_ s) (retained_bytes_ s) (received_events_ s) (acknowledged_events_ s) true.
Definition take_space (s : batch_source) : batch_source :=
  Source (pending_ s) (waiting_ s) (consume (space_ s)) (maximum_events_ s) (maximum_bytes_ s) (retained_events_ s) (retained_bytes_ s) (received_events_ s) (acknowledged_events_ s) (closed_ s).

(** From the capacity check to the next suspension: the source, the place and whether the sender is woken. *)
Definition admit_batch (stop : bool) (batch : list log_event) (s : batch_source) : batch_source * receive_place * bool :=
  if negb (fits batch s) then (s, AtSpace, false)
  else if stop then (s, NotStarted, false)
  else (push_batch batch s, AtReceive, true).
Definition start_receiving (stop : bool) (s : batch_source) : batch_source * receive_place * bool :=
  if stop then (s, NotStarted, false) else match waiting_ s with Some batch => admit_batch stop batch s | None => (s, AtReceive, false) end.
(** What the channel of batches gave: nothing when it ended or stopped; [Some None] is an empty pointer. *)
Definition received (stop : bool) (answer : option (option (list log_event))) (s : batch_source) : batch_source * receive_place * bool :=
  match answer with
  | None => (if stop then s else with_closed s, NotStarted, true)
  | Some None => (s, Threw, false)
  | Some (Some batch) => admit_batch stop batch (with_waiting batch s)
  end.
Definition space_wakes (stop got : bool) (s : batch_source) : batch_source * receive_place * bool :=
  if negb got then (s, NotStarted, false)
  else match waiting_ s with Some batch => admit_batch stop batch (take_space s) | None => (s, Threw, false) end.

(** * Sending: [run] and [prepare_delivery] *)

(** [count] is how many events more the delivery takes; [None] is an event read past the end of its batch. *)
Fixpoint prepare_loop (count : nat) (pending : list queued_batch) (events : list log_event) (event_bytes wire_bytes : Z) : option (list queued_batch * list log_event * Z) :=
  match count, pending with
  | O, _ | _, [] => Some (pending, events, event_bytes)
  | S count, batch :: rest =>
      match value_ batch !! next_event_ batch with
      | None => None
      | Some event =>
          if max_delivery_bytes <? wire_bytes + wire_of event then Some (pending, events, event_bytes)
          else
            let next := S (next_event_ batch) in
            prepare_loop count (if (next =? length (value_ batch))%nat then rest else QueuedBatch (value_ batch) next :: rest)
              (events ++ [event]) (event_bytes + event_size event) (wire_bytes + wire_of event)
      end
  end.
Definition with_pending (pending : list queued_batch) (s : batch_source) : batch_source :=
  Source pending (waiting_ s) (space_ s) (maximum_events_ s) (maximum_bytes_ s) (retained_events_ s) (retained_bytes_ s) (received_events_ s) (acknowledged_events_ s) (closed_ s).
Definition prepare_delivery (id : source_id) (node_id : bytes) (d : log_delivery) : option log_delivery :=
  '(pending, events, event_bytes) ← prepare_loop (Z.to_nat max_delivery_events) (pending_ (source_of id d)) [] 0 (delivery_size node_id []);
  Some (set_in_flight (Some (InFlight node_id events id (size events) event_bytes)) (set_source id (with_pending pending (source_of id d)) d)).

Definition acknowledge_source (f : in_flight_delivery) (s : batch_source) : batch_source :=
  Source (pending_ s) (waiting_ s) (send (space_ s)) (maximum_events_ s) (maximum_bytes_ s) (retained_events_ s - event_count_ f) (retained_bytes_ s - event_bytes_ f)
    (received_events_ s) (u64 (acknowledged_events_ s + event_count_ f)) (closed_ s).
Definition acknowledged (f : in_flight_delivery) (d : log_delivery) : log_delivery :=
  let d := set_in_flight None (set_source (source_ f) (acknowledge_source f (source_of (source_ f) d)) d) in
  Delivery (data_ d) (control_ d) (ready_ d) (in_flight_ d) 0.
Definition failed (d : log_delivery) : log_delivery := Delivery (data_ d) (control_ d) (ready_ d) (in_flight_ d) (count_failure (failure_count_ d)).
Definition take_ready (d : log_delivery) : log_delivery := Delivery (data_ d) (control_ d) (consume (ready_ d)) (in_flight_ d) (failure_count_ d).

Inductive run_place := NoSession | AtReady | AtReply | AtSleep.
(** What leaves the node, and what is acknowledged. *)
Inductive delivery_output := SentOut (f : in_flight_delivery) | AckedOut (f : in_flight_delivery).
Definition ran : Type := log_delivery * run_place * list delivery_output.
(** The request of a delivery; [refused]: the stream did not take it. *)
Definition attempt (refused : bool) (f : in_flight_delivery) (d : log_delivery) : ran :=
  if refused then (failed d, AtSleep, []) else (d, AtReply, [SentOut f]).
(** The loop of [run] from its head to the next suspension. *)
Definition run_loop (stop refused : bool) (node_id : bytes) (d : log_delivery) : option ran :=
  if stop then Some (d, NoSession, [])
  else match in_flight_ d with
  | Some f => Some (attempt refused f d)
  | None =>
      let source := match pending_ (control_ d), pending_ (data_ d) with _ :: _, _ => Some ControlLogs | [], _ :: _ => Some DataLogs | [], [] => None end in
      match source with
      | None => Some (d, if closed_ (data_ d) && closed_ (control_ d) then NoSession else AtReady, [])
      | Some id =>
          d ← prepare_delivery id node_id d;
          match in_flight_ d with Some f => Some (attempt refused f d) | None => None end
      end
  end.
Definition replied (acked stop refused : bool) (node_id : bytes) (d : log_delivery) : option ran :=
  match in_flight_ d with
  | None => None
  | Some f =>
      if acked then '(d, place, out) ← run_loop stop refused node_id (acknowledged f d); Some (d, place, AckedOut f :: out)
      else if stop then Some (d, NoSession, []) else Some (failed d, AtSleep, [])
  end.

(** [queued_events]: what producers say they published and staged, against what was received and acknowledged. *)
Definition outstanding (s : batch_source) (published queued : Z) : Z := u64 (Z.max published (received_events_ s) - acknowledged_events_ s + queued).
Definition queued_events (d : log_delivery) (data control : Z * Z) : Z := u64 (outstanding (data_ d) data.1 data.2 + outstanding (control_ d) control.1 control.2).

(** * The system *)

Record system := System { delivery : log_delivery; data_place : receive_place; control_place : receive_place; place : run_place; session_node : bytes }.
Definition new_system : system := System new_delivery NotStarted NotStarted NoSession [].
Definition place_of (id : source_id) (s : system) : receive_place := match id with DataLogs => data_place s | ControlLogs => control_place s end.
Inductive resumption :=
  | StartReceiving (id : source_id) (stop : bool)
  | Received (id : source_id) (stop : bool) (answer : option (option (list log_event)))
  | SpaceWakes (id : source_id) (stop got : bool)
  | StartSession (node_id : bytes) (stop refused : bool)
  | ReadyWakes (stop got refused : bool)
  | Replied (acked stop refused : bool)
  | Slept (stop refused : bool).
Definition receiving (id : source_id) (r : batch_source * receive_place * bool) (s : system) : system :=
  let '(source, at_, woken) := r in
  let d := set_source id source (delivery s) in
  let d := if woken then raise_ready d else d in
  match id with
  | DataLogs => System d at_ (control_place s) (place s) (session_node s)
  | ControlLogs => System d (data_place s) at_ (place s) (session_node s)
  end.
Definition running (node_id : bytes) (r : option ran) (s : system) : option (system * list delivery_output) :=
  '(d, at_, out) ← r; Some (System d (data_place s) (control_place s) at_ node_id, out).
(** A coroutine is resumed where it waits, with what is there; [None] is no step, or undefined behaviour. *)
Definition resume (r : resumption) (s : system) : option (system * list delivery_output) :=
  match r with
  | StartReceiving id stop =>
      match place_of id s with NotStarted => Some (receiving id (start_receiving stop (source_of id (delivery s))) s, []) | _ => None end
  | Received id stop answer =>
      match place_of id s with AtReceive => Some (receiving id (received stop answer (source_of id (delivery s))) s, []) | _ => None end
  | SpaceWakes id stop got =>
      match place_of id s with
      | AtSpace => if got && negb (holds (space_ (source_of id (delivery s)))) then None
                   else Some (receiving id (space_wakes stop got (source_of id (delivery s))) s, [])
      | _ => None
      end
  | StartSession node_id stop refused => match place s with NoSession => running node_id (run_loop stop refused node_id (delivery s)) s | _ => None end
  | ReadyWakes stop got refused =>
      match place s with
      | AtReady =>
          if negb got then Some (System (delivery s) (data_place s) (control_place s) NoSession (session_node s), [])
          else if holds (ready_ (delivery s)) then running (session_node s) (run_loop stop refused (session_node s) (take_ready (delivery s))) s
          else None
      | _ => None
      end
  | Replied acked stop refused => match place s with AtReply => running (session_node s) (replied acked stop refused (session_node s) (delivery s)) s | _ => None end
  | Slept stop refused =>
      match place s with AtSleep => running (session_node s) (run_loop stop refused (session_node s) (delivery s)) s | _ => None end
  end.
(** The histories, with what was received of each source and what went out. *)
Definition receipt (id : source_id) (r : resumption) : list log_event :=
  match r with Received id' _ (Some (Some batch)) => if bool_decide (id' = id) then batch else [] | _ => [] end.

(** * Nothing is lost, duplicated or reordered *)

Context {sizes : LogSizesLaws} {wakeups : WakeupsLaws}.

(** What the library and the sessions give: batches that were constructed, and node identities of a few bytes. *)
Definition resumption_ok (r : resumption) : Prop :=
  match r with
  | Received _ _ (Some answer) => exists batch, answer = Some batch /\ log_batch_ok batch = true
  | StartSession node_id _ _ => size node_id <= 126
  | _ => True
  end.
Inductive reachable : list resumption -> list delivery_output -> system -> Prop :=
  | reachable_start : reachable [] [] new_system
  | reachable_step rs outs s r s' out : reachable rs outs s -> resumption_ok r -> resume r s = Some (s', out) -> reachable (rs ++ [r]) (outs ++ out) s'.

Definition receipts (id : source_id) (rs : list resumption) : list log_event := flat_map (receipt id) rs.
Definition acked_of (id : source_id) (out : delivery_output) : list log_event := match out with AckedOut f => if bool_decide (source_ f = id) then events_ f else [] | SentOut _ => [] end.
Definition acked_events (id : source_id) (outs : list delivery_output) : list log_event := flat_map (acked_of id) outs.
Definition queued (pending : list queued_batch) : list log_event := flat_map (fun b => drop (next_event_ b) (value_ b)) pending.
Definition flying (id : source_id) (flight : option in_flight_delivery) : list log_event :=
  match flight with Some f => if bool_decide (source_ f = id) then events_ f else [] | None => [] end.
(** The events of a source that the object holds, oldest first. *)
Definition held (id : source_id) (d : log_delivery) : list log_event :=
  flying id (in_flight_ d) ++ queued (pending_ (source_of id d)) ++ default [] (waiting_ (source_of id d)).

(** ** Sizes *)

Lemma batch_bytes_app a b : batch_bytes (a ++ b) = batch_bytes a + batch_bytes b.
Proof. induction a as [|event a IH]; [done|]. cbn [app batch_bytes foldr] in *. unfold batch_bytes in *. lia. Qed.
Lemma batch_bytes_nonneg a : 0 <= batch_bytes a.
Proof. induction a as [|event a IH]; [done|]. pose proof (event_size_nonneg event). unfold batch_bytes in *. cbn [foldr]. lia. Qed.
Lemma wire_sum_in event events : event ∈ events -> wire_of event <= wire_sum events.
Proof.
  induction events as [|e events IH]; intros Hin; [by apply not_elem_of_nil in Hin|]. pose proof (wire_of_pos e). pose proof (wire_sum_nonneg events).
  change (wire_sum (e :: events)) with (wire_of e + wire_sum events). apply elem_of_cons in Hin as [->|Hin]; [lia|]. specialize (IH Hin). lia.
Qed.
Lemma log_batch_ok_spec events : log_batch_ok events = true -> events <> [] /\ size events <= max_delivery_events /\ wire_sum events <= max_delivery_bytes - node_identity_wire_bytes.
Proof.
  unfold log_batch_ok. rewrite delivery_size_spec. cbn [empty]. rewrite !andb_true_iff. intros [[He Hs] Hw]. reflect_bool. split; [by intros ->|]. split; [done|lia].
Qed.
Lemma batch_bytes_wire events : batch_bytes events <= wire_sum events.
Proof.
  induction events as [|e events IH]; [done|]. change (wire_sum (e :: events)) with (wire_of e + wire_sum events). change (batch_bytes (e :: events)) with (event_size e + batch_bytes events).
  unfold wire_of, event_wire_bytes. pose proof (length_bytes_le 10 (event_size e) 2). lia.
Qed.
Lemma node_identity node_id : size node_id <= 126 -> delivery_size node_id [] <= node_identity_wire_bytes.
Proof.
  intros Hs. rewrite delivery_size_spec. unfold node_identity_wire_bytes. destruct (empty node_id); [done|]. cbn [length_bytes].
  rewrite (proj2 (Z.leb_gt 128 (size node_id))) by lia. change (wire_sum []) with 0. lia.
Qed.

(** ** One delivery *)

Definition batch_ok (b : queued_batch) : Prop := log_batch_ok (value_ b) = true /\ (next_event_ b < length (value_ b))%nat.
Lemma queued_cons b pending : queued (b :: pending) = drop (next_event_ b) (value_ b) ++ queued pending.
Proof. done. Qed.
Record prepared (count : nat) (pending pending' : list queued_batch) (wire_bytes : Z) (more : list log_event) : Prop := {
  prepared_order : more ++ queued pending' = queued pending;
  prepared_batches : Forall batch_ok pending';
  prepared_count : (length more <= count)%nat;
  prepared_wire : wire_bytes <= max_delivery_bytes -> wire_bytes + wire_sum more <= max_delivery_bytes;
  prepared_some : pending <> [] -> count <> 0%nat -> wire_bytes <= node_identity_wire_bytes -> more <> [] }.
Lemma prepare_loop_exact count : forall pending events event_bytes wire_bytes, Forall batch_ok pending ->
  exists pending' more, prepare_loop count pending events event_bytes wire_bytes = Some (pending', events ++ more, event_bytes + batch_bytes more) /\
    prepared count pending pending' wire_bytes more.
Proof.
  assert (Hstop : forall count pending wire_bytes, Forall batch_ok pending -> (pending = [] \/ count = 0%nat \/ ~ wire_bytes <= node_identity_wire_bytes) -> prepared count pending pending wire_bytes []).
  { intros count' pending wire_bytes Hb Hend. split; [done|done|cbn; lia|cbn; lia|]. intros H1' H2' H3'. by destruct Hend as [?|[?|?]]. }
  induction count as [|count IH]; intros pending events event_bytes wire_bytes Hb; cbn [prepare_loop].
  - exists pending, []. rewrite app_nil_r, Z.add_0_r. split; [done|]. apply Hstop; auto.
  - destruct pending as [|b pending]; [exists [], []; rewrite app_nil_r, Z.add_0_r; split; [done|]; apply Hstop; auto|].
    apply Forall_cons in Hb as [[Hb Hn] Hbs]. destruct (lookup_lt_is_Some_2 (value_ b) (next_event_ b) Hn) as [event Ee]. rewrite Ee.
    assert (wire_of event <= max_delivery_bytes - node_identity_wire_bytes) as Hw by (destruct (log_batch_ok_spec _ Hb) as (_ & _ & Hw); pose proof (wire_sum_in event (value_ b) (list_elem_of_lookup_2 _ _ _ Ee)); lia).
    destruct (Z.ltb_spec max_delivery_bytes (wire_bytes + wire_of event)) as [Hover|Hroom].
    + exists (b :: pending), []. rewrite app_nil_r, Z.add_0_r. split; [done|]. apply Hstop; [by constructor|]. right. right. lia.
    + cbv zeta. set (rest := if (S (next_event_ b) =? length (value_ b))%nat then pending else QueuedBatch (value_ b) (S (next_event_ b)) :: pending).
      assert (queued (b :: pending) = event :: queued rest /\ Forall batch_ok rest) as [Eq Hrest].
      { rewrite queued_cons, (drop_S _ _ _ Ee). unfold rest. destruct (Nat.eqb_spec (S (next_event_ b)) (length (value_ b))) as [El|El].
        - by rewrite El, drop_all.
        - split; [done|]. constructor; [split; [done|cbn; lia]|done]. }
      destruct (IH rest (events ++ [event]) (event_bytes + event_size event) (wire_bytes + wire_of event) Hrest) as (pending' & more & E & [P1 P2 P3 P4 P5]).
      exists pending', (event :: more). rewrite E, <- app_assoc. split; [by rewrite <- Z.add_assoc|].
      split; [by rewrite Eq, <- P1|done|cbn; lia| |done]. intros _. change (wire_sum (event :: more)) with (wire_of event + wire_sum more). specialize (P4 ltac:(lia)). lia.
Qed.

(** ** One source *)

Definition capacity (id : source_id) : Z * Z := match id with DataLogs => (8192, 64 * 1024 * 1024) | ControlLogs => (1024, 8 * 1024 * 1024) end.
Record source_ok (id : source_id) (flight : list log_event) (at_ : receive_place) (s : batch_source) : Prop := {
  source_capacity : (maximum_events_ s, maximum_bytes_ s) = capacity id;
  source_batches : Forall batch_ok (pending_ s);
  source_waiting : forall batch, waiting_ s = Some batch -> log_batch_ok batch = true;
  source_place : match at_ with
    | AtReceive => waiting_ s = None
    | AtSpace => exists batch, waiting_ s = Some batch /\ (fits batch s = false \/ holds (space_ s) = true)
    | NotStarted => True
    | Threw => False
    end;
  source_events : retained_events_ s = size (flight ++ queued (pending_ s)) /\ retained_events_ s <= maximum_events_ s;
  source_bytes : retained_bytes_ s = batch_bytes (flight ++ queued (pending_ s)) /\ retained_bytes_ s <= maximum_bytes_ s }.

(** What a resumption of a receiver makes of its source: the batch is added to what is held, and the
    sender is woken when there is something new for it. *)
Record receives (id : source_id) (flight new : list log_event) (s : batch_source) (r : batch_source * receive_place * bool) : Prop := {
  receives_ok : source_ok id flight r.1.2 r.1.1;
  receives_order : queued (pending_ r.1.1) ++ default [] (waiting_ r.1.1) = queued (pending_ s) ++ default [] (waiting_ s) ++ new;
  receives_counted : received_events_ r.1.1 = u64 (received_events_ s + size new) /\ acknowledged_events_ r.1.1 = acknowledged_events_ s;
  receives_quietly : r.2 = false -> pending_ r.1.1 = pending_ s /\ closed_ r.1.1 = closed_ s }.

Lemma queued_app a b : queued (a ++ b) = queued a ++ queued b.
Proof. apply flat_map_app. Qed.
Lemma queued_fresh batch : queued [QueuedBatch batch 0] = batch.
Proof. unfold queued. cbn. apply app_nil_r. Qed.
Lemma source_ok_idle id flight at_ s : source_ok id flight at_ s -> source_ok id flight NotStarted s.
Proof. intros [Hc Hb Hw Hp He Hy]. by split. Qed.
Lemma admit_batch_exact id flight stop batch s : source_ok id flight NotStarted s -> waiting_ s = Some batch -> is_u64 (received_events_ s) -> receives id flight [] s (admit_batch stop batch s).
Proof.
  intros Hok Hwait Hu. destruct Hok as [Hc Hb Hw Hp [He1 He2] [Hy1 Hy2]]. pose proof (Hw batch Hwait) as Hbatch. unfold admit_batch. destruct (fits batch s) eqn:Ef; cbn [negb].
  - unfold fits in Ef. apply negb_true_iff, orb_false_iff in Ef as [Ef1 Ef2]. reflect_bool.
    assert (queued (pending_ s ++ [QueuedBatch batch 0]) = queued (pending_ s) ++ batch) as Eq by (by rewrite queued_app, queued_fresh).
    destruct stop; (split; cbn [fst snd push_batch pending_ waiting_ default received_events_ acknowledged_events_ closed_]; [|rewrite ?Hwait, ?app_nil_r; cbn [default]; try done|by rewrite u64_same|done]).
    + by split.
    + split; cbn [push_batch pending_ waiting_ maximum_events_ maximum_bytes_ retained_events_ retained_bytes_]; try done.
      * apply Forall_app. split; [done|]. constructor; [|done]. split; [done|]. cbn. destruct (log_batch_ok_spec _ Hbatch) as [Hne _]. destruct batch; [done|cbn; lia].
      * rewrite Eq, app_assoc, size_app. lia.
      * rewrite Eq, app_assoc, batch_bytes_app. lia.
  - split; cbn [fst snd]; [|by rewrite app_nil_r|by rewrite u64_same|done]. split; try done. exists batch. auto.
Qed.
Lemma start_receiving_exact id flight stop s : source_ok id flight NotStarted s -> is_u64 (received_events_ s) -> receives id flight [] s (start_receiving stop s).
Proof.
  intros Hok Hu. unfold start_receiving. destruct stop; [split; cbn [fst snd]; [done|by rewrite app_nil_r|by rewrite u64_same|done]|].
  destruct (waiting_ s) as [batch|] eqn:Ew; [by apply admit_batch_exact|]. split; cbn [fst snd]; [|by rewrite app_nil_r|by rewrite u64_same|done]. destruct Hok; by split.
Qed.
Lemma received_exact id flight stop answer s : source_ok id flight AtReceive s -> is_u64 (received_events_ s) -> resumption_ok (Received id stop answer) ->
  receives id flight (receipt id (Received id stop answer)) s (received stop answer s).
Proof.
  intros Hok Hu Ha. pose proof (source_place id flight AtReceive s Hok) as Hn. cbn in Hn. destruct answer as [answer|]; cbn [resumption_ok received receipt] in *.
  - destruct Ha as (batch & -> & Hb). rewrite bool_decide_eq_true_2 by done.
    assert (Hw : source_ok id flight NotStarted (with_waiting batch s)) by (destruct Hok as [Hc Hbs Hwt Hp He Hy]; split; try done; cbn; intros b [= <-]; done).
    destruct (admit_batch_exact id flight stop batch (with_waiting batch s) Hw eq_refl) as [R1 R2 [R3 R3'] R4]; [by apply u64_range|].
    split; [done| | |done].
    + rewrite R2. cbn [with_waiting pending_ waiting_ default]. by rewrite Hn, app_nil_r.
    + split; [|done]. rewrite R3. cbn [with_waiting received_events_]. rewrite u64_add. f_equal. change (size []) with 0. lia.
  - destruct stop; (split; cbn [fst snd with_closed pending_ waiting_ received_events_ acknowledged_events_]; [|by rewrite app_nil_r|by rewrite u64_same|done]).
    + by apply (source_ok_idle id flight AtReceive).
    + destruct Hok; by split.
Qed.
Lemma space_wakes_exact id flight stop got s : source_ok id flight AtSpace s -> is_u64 (received_events_ s) -> receives id flight [] s (space_wakes stop got s).
Proof.
  intros Hok Hu. destruct (source_place id flight AtSpace s Hok) as (batch & Hw & _). unfold space_wakes. destruct got; cbn [negb].
  - rewrite Hw. destruct (admit_batch_exact id flight stop batch (take_space s)) as [R1 R2 R3 R4]; [destruct Hok; by split|done|done|by split].
  - split; cbn [fst snd]; [by apply (source_ok_idle id flight AtSpace)|by rewrite app_nil_r|by rewrite u64_same|done].
Qed.

(** ** The whole object *)

(** What goes out: a delivery is sent, again until it is acknowledged, and only then is there another one. *)
Inductive outbox : list delivery_output -> option in_flight_delivery -> Prop :=
  | outbox_start : outbox [] None
  | outbox_first outs f : outbox outs None -> outbox (outs ++ [SentOut f]) (Some f)
  | outbox_again outs f : outbox outs (Some f) -> outbox (outs ++ [SentOut f]) (Some f)
  | outbox_acked outs f : outbox outs (Some f) -> outbox (outs ++ [AckedOut f]) None.

Record flight_ok (f : in_flight_delivery) : Prop := {
  flight_some : events_ f <> []; flight_events : size (events_ f) <= max_delivery_events; flight_size : delivery_size (node_id_ f) (events_ f) <= max_delivery_bytes;
  flight_count : event_count_ f = size (events_ f); flight_bytes : event_bytes_ f = batch_bytes (events_ f) }.
Definition output_ok (out : delivery_output) : Prop := match out with SentOut f | AckedOut f => flight_ok f end.

Record core_ok (rs : list resumption) (outs : list delivery_output) (at_ : source_id -> receive_place) (d : log_delivery) : Prop := {
  core_source : forall id, source_ok id (flying id (in_flight_ d)) (at_ id) (source_of id d);
  core_order : forall id, receipts id rs = acked_events id outs ++ held id d;
  core_counts : forall id, received_events_ (source_of id d) = u64 (size (receipts id rs)) /\ acknowledged_events_ (source_of id d) = u64 (size (acked_events id outs));
  core_flight : forall f, in_flight_ d = Some f -> flight_ok f;
  core_outputs : Forall output_ok outs;
  core_outbox : outbox outs None \/ exists f, in_flight_ d = Some f /\ outbox outs (Some f) }.
Definition nothing_pending (d : log_delivery) : Prop := pending_ (data_ d) = [] /\ pending_ (control_ d) = [].
Definition run_place_ok (outs : list delivery_output) (p : run_place) (d : log_delivery) : Prop :=
  match p with
  | NoSession => True
  | AtReady => in_flight_ d = None /\ (holds (ready_ d) = true \/ nothing_pending d /\ (closed_ (data_ d) && closed_ (control_ d)) = false)
  | AtReply => exists f, in_flight_ d = Some f /\ outbox outs (Some f)
  | AtSleep => is_Some (in_flight_ d)
  end.

Lemma source_of_set id id' src d : source_of id (set_source id' src d) = if bool_decide (id' = id) then src else source_of id d.
Proof. by destruct id, id'. Qed.
Lemma in_flight_set id src d : in_flight_ (set_source id src d) = in_flight_ d.
Proof. by destruct id. Qed.
Lemma acked_app id a b : acked_events id (a ++ b) = acked_events id a ++ acked_events id b.
Proof. apply flat_map_app. Qed.

(** Whether a delivery is of a source, in the goal and the hypotheses. *)
Ltac case_source f i :=
  destruct (decide (source_ f = i)) as [?Hsrc|?Hsrc];
  [subst i; rewrite ?(bool_decide_eq_true_2 (source_ f = source_ f) eq_refl) in *|rewrite ?(bool_decide_eq_false_2 (source_ f = i) Hsrc) in *].
Lemma core_failed rs outs at_ d : core_ok rs outs at_ d -> core_ok rs outs at_ (failed d).
Proof. by intros [C1 C2 C3 C4 C5 C6]; split. Qed.
Lemma core_take_ready rs outs at_ d : core_ok rs outs at_ d -> core_ok rs outs at_ (take_ready d).
Proof. by intros [C1 C2 C3 C4 C5 C6]; split. Qed.
Lemma core_acknowledged rs outs at_ d f : core_ok rs outs at_ d -> in_flight_ d = Some f -> outbox outs (Some f) -> core_ok rs (outs ++ [AckedOut f]) at_ (acknowledged f d).
Proof.
  intros [C1 C2 C3 C4 C5 C6] Ef Ho. pose proof (C4 f Ef) as Hf. pose proof (flight_count f Hf) as Ec. pose proof (flight_bytes f Hf) as Eb.
  assert (Esrc : forall id, source_of id (acknowledged f d) = if bool_decide (source_ f = id) then acknowledge_source f (source_of id d) else source_of id d).
  { intros id. unfold acknowledged. destruct (source_ f), id; done. }
  assert (Eflight : in_flight_ (acknowledged f d) = None) by done.
  split.
  - intros id. rewrite Eflight, Esrc. cbn [flying]. specialize (C1 id). rewrite Ef in C1. cbn [flying] in C1. case_source f id; [|done].
    destruct C1 as [S1 S2 S3 S4 [S5 S5'] [S6 S6']]. rewrite size_app in S5. rewrite batch_bytes_app in S6. pose proof (batch_bytes_nonneg (events_ f)).
    assert (0 <= size (events_ f)) by (unfold size; lia). split; cbn [acknowledge_source pending_ waiting_ maximum_events_ maximum_bytes_ retained_events_ retained_bytes_ app]; try done.
    + destruct (at_ (source_ f)); try done. destruct S4 as (batch & Hw & _). exists batch. split; [done|]. right. cbn. apply send_holds.
    + cbn. lia.
    + cbn. lia.
  - intros id. rewrite (C2 id), acked_app. unfold held. rewrite Eflight, Esrc, Ef. cbn [flying acked_events flat_map acked_of]. rewrite app_nil_r.
    case_source f id; by rewrite <- !app_assoc.
  - intros id. rewrite Esrc, acked_app. destruct (C3 id) as [R1 R2]. cbn [acked_events flat_map acked_of]. rewrite app_nil_r.
    case_source f id; cbn [acknowledge_source received_events_ acknowledged_events_]; [|by rewrite app_nil_r].
    split; [done|]. rewrite R2, u64_add, size_app. f_equal. lia.
  - by rewrite Eflight.
  - apply Forall_app. split; [done|]. by constructor.
  - left. by constructor.
Qed.

Lemma core_prepare rs outs at_ d id node_id : core_ok rs outs at_ d -> in_flight_ d = None -> pending_ (source_of id d) <> [] -> size node_id <= 126 ->
  exists d' f, prepare_delivery id node_id d = Some d' /\ in_flight_ d' = Some f /\ core_ok rs outs at_ d'.
Proof.
  intros [C1 C2 C3 C4 C5 C6] En Hp Hnode. pose proof (node_identity node_id Hnode) as Hid. unfold prepare_delivery.
  destruct (prepare_loop_exact (Z.to_nat max_delivery_events) (pending_ (source_of id d)) [] 0 (delivery_size node_id []) (source_batches _ _ _ _ (C1 id))) as (pending & more & E & [P1 P2 P3 P4 P5]).
  rewrite E. cbn [mbind option_bind app]. do 2 eexists. split; [done|]. split; [done|].
  set (f := InFlight node_id more id (size more) (0 + batch_bytes more)). set (d' := set_in_flight _ _).
  assert (Esrc : forall id', source_of id' d' = if bool_decide (id = id') then with_pending pending (source_of id' d) else source_of id' d) by (intros id'; unfold d'; destruct id, id'; done).
  assert (Hf : flight_ok f).
  { split; cbn; try done.
    - apply P5; [done|done|exact Hid].
    - unfold size, max_delivery_events in *. lia.
    - rewrite delivery_size_spec. rewrite delivery_size_spec in P4, Hid. change (wire_sum []) with 0 in *. unfold node_identity_wire_bytes, max_delivery_bytes in *. lia. }
  split.
  - intros id'. rewrite Esrc. specialize (C1 id'). rewrite En in C1. cbn [flying] in C1. change (flying id' (in_flight_ d')) with (if bool_decide (id = id') then more else []).
    destruct (decide (id = id')) as [<-|Hne].
    + rewrite !bool_decide_eq_true_2 by done. destruct C1 as [S1 S2 S3 S4 S5 S6]. split; cbn [with_pending pending_ waiting_ maximum_events_ maximum_bytes_ retained_events_ retained_bytes_]; try done; by rewrite P1.
    + by rewrite !bool_decide_eq_false_2 by done.
  - intros id'. rewrite (C2 id'). f_equal. unfold held. rewrite Esrc, En. change (flying id' (in_flight_ d')) with (if bool_decide (id = id') then more else []). cbn [flying app].
    destruct (decide (id = id')) as [<-|Hne]; [rewrite !bool_decide_eq_true_2 by done|by rewrite !bool_decide_eq_false_2 by done]. cbn [with_pending pending_ waiting_]. by rewrite app_assoc, P1.
  - intros id'. rewrite Esrc. destruct (bool_decide (id = id')); apply C3.
  - intros f' [= <-]. exact Hf.
  - done.
  - destruct C6 as [?|(f' & E' & _)]; [by left|]. by rewrite En in E'.
Qed.
Lemma core_attempt rs outs at_ d f refused : core_ok rs outs at_ d -> in_flight_ d = Some f ->
  let r := attempt refused f d in core_ok rs (outs ++ r.2) at_ r.1.1 /\ run_place_ok (outs ++ r.2) r.1.2 r.1.1.
Proof.
  intros Hc Ef. unfold attempt. destruct refused; cbn [fst snd].
  - rewrite app_nil_r. split; [by apply core_failed|]. by exists f.
  - destruct Hc as [C1 C2 C3 C4 C5 C6]. assert (outbox (outs ++ [SentOut f]) (Some f)) as Ho by (destruct C6 as [Ho|(f' & E' & Ho)]; [by constructor|rewrite Ef in E'; injection E' as <-; by apply outbox_again]).
    split; [|by exists f]. split; try done.
    + intros id. rewrite (C2 id), acked_app. cbn [acked_events flat_map acked_of]. by rewrite !app_nil_r.
    + intros id. rewrite acked_app. cbn [acked_events flat_map acked_of]. by rewrite !app_nil_r.
    + apply Forall_app. split; [done|]. constructor; [by apply C4|done].
    + right. by exists f.
Qed.
Definition run_result_ok (rs : list resumption) (outs : list delivery_output) (at_ : source_id -> receive_place) (r : option ran) : Prop :=
  exists d p out, r = Some (d, p, out) /\ core_ok rs (outs ++ out) at_ d /\ run_place_ok (outs ++ out) p d.
Lemma run_loop_exact rs outs at_ d stop refused node_id : core_ok rs outs at_ d -> size node_id <= 126 -> run_result_ok rs outs at_ (run_loop stop refused node_id d).
Proof.
  intros Hc Hn. unfold run_loop. destruct stop; [exists d, NoSession, []; by rewrite app_nil_r|].
  assert (Hattempt : forall d' f, core_ok rs outs at_ d' -> in_flight_ d' = Some f -> run_result_ok rs outs at_ (Some (attempt refused f d'))).
  { intros d' f Hc' Ef. destruct (core_attempt rs outs at_ d' f refused Hc' Ef) as [A1 A2]. destruct (attempt refused f d') as [[d2 p] out]. by exists d2, p, out. }
  assert (Hprepare : forall id, in_flight_ d = None -> pending_ (source_of id d) <> [] ->
    run_result_ok rs outs at_ (d ← prepare_delivery id node_id d; match in_flight_ d with Some f => Some (attempt refused f d) | None => None end)).
  { intros id En Hp. destruct (core_prepare rs outs at_ d id node_id Hc En Hp Hn) as (d' & f & E & Ef & Hc'). rewrite E. cbn [mbind option_bind]. rewrite Ef. by apply Hattempt. }
  destruct (in_flight_ d) as [f|] eqn:Ef; [by apply Hattempt|]. cbv zeta.
  destruct (pending_ (control_ d)) as [|b control] eqn:Ec; [destruct (pending_ (data_ d)) as [|b data] eqn:Ed|].
  - do 3 eexists. split; [done|]. rewrite app_nil_r. split; [done|]. destruct (closed_ (data_ d) && closed_ (control_ d)) eqn:Ecl; [done|].
    split; [done|]. right. by split.
  - apply Hprepare; [done|]. cbn. by rewrite Ed.
  - apply Hprepare; [done|]. cbn. by rewrite Ec.
Qed.

(** ** Every step *)

Record system_ok (rs : list resumption) (outs : list delivery_output) (s : system) : Prop := {
  system_core : core_ok rs outs (fun id => place_of id s) (delivery s); system_place : run_place_ok outs (place s) (delivery s); system_node : size (session_node s) <= 126 }.

Lemma receipts_app id a b : receipts id (a ++ b) = receipts id a ++ receipts id b.
Proof. apply flat_map_app. Qed.
Lemma receipts_one id r : receipts id [r] = receipt id r.
Proof. apply app_nil_r. Qed.
Lemma core_silent rs outs at_ d r : core_ok rs outs at_ d -> (forall id, receipt id r = []) -> core_ok (rs ++ [r]) outs at_ d.
Proof. intros [C1 C2 C3 C4 C5 C6] Hr. split; try done; intros id; by rewrite receipts_app, receipts_one, Hr, app_nil_r. Qed.

(** A receiver's step, from what it makes of its source. *)
Lemma receiving_exact rs outs s r id new result : system_ok rs outs s -> receives id (flying id (in_flight_ (delivery s))) new (source_of id (delivery s)) result ->
  receipt id r = new -> (forall id', id' <> id -> receipt id' r = []) -> system_ok (rs ++ [r]) (outs ++ []) (receiving id result s).
Proof.
  intros [[C1 C2 C3 C4 C5 C6] Hp Hn] [R1 R2 [R3 R3'] R4] Hnew Hother. destruct result as [[src at_] woken]. cbn [fst snd] in *. rewrite app_nil_r.
  set (s' := receiving id (src, at_, woken) s).
  assert (Esrc : forall id', source_of id' (delivery s') = if bool_decide (id = id') then src else source_of id' (delivery s)) by (intros id'; unfold s', receiving; destruct id, id', woken; done).
  assert (Eplace : forall id', place_of id' s' = if bool_decide (id = id') then at_ else place_of id' s) by (intros id'; unfold s', receiving; destruct id, id'; done).
  assert (Eflight : in_flight_ (delivery s') = in_flight_ (delivery s)) by (unfold s', receiving; destruct id, woken; done).
  assert (place s' = place s /\ session_node s' = session_node s) as [Erun Enode] by (unfold s', receiving; by destruct id).
  assert (Eready : holds (ready_ (delivery s')) = if woken then true else holds (ready_ (delivery s))) by (unfold s', receiving; destruct id, woken; cbn; by rewrite ?send_holds).
  split; [split| |by rewrite Enode].
  - intros id'. rewrite Esrc, Eplace, Eflight. destruct (decide (id = id')) as [<-|Hne]; [by rewrite !bool_decide_eq_true_2|by rewrite !bool_decide_eq_false_2].
  - intros id'. rewrite receipts_app, receipts_one, (C2 id'). unfold held. rewrite Esrc, Eflight.
    destruct (decide (id = id')) as [<-|Hne]; [rewrite !bool_decide_eq_true_2 by done; by rewrite Hnew, R2, <- !app_assoc|].
    rewrite !bool_decide_eq_false_2, (Hother id') by done. by rewrite app_nil_r.
  - intros id'. rewrite receipts_app, receipts_one, Esrc. destruct (C3 id') as [D1 D2]. destruct (decide (id = id')) as [<-|Hne].
    + rewrite !bool_decide_eq_true_2 by done. rewrite R3, R3', D1, u64_add, Hnew, size_app. done.
    + rewrite !bool_decide_eq_false_2, (Hother id'), app_nil_r by done. done.
  - by rewrite Eflight.
  - done.
  - by rewrite Eflight.
  - rewrite Erun. unfold run_place_ok in *. destruct (place s); [done| |by rewrite Eflight|by rewrite Eflight]. rewrite Eflight, Eready. destruct Hp as [Hp1 Hp2]. split; [done|]. destruct woken; [by left|].
    destruct Hp2 as [?|[[Hd Hcn] Hcl]]; [by left|]. right. destruct (R4 eq_refl) as [Q1 Q2]. unfold nothing_pending.
    pose proof (Esrc DataLogs) as E1. pose proof (Esrc ControlLogs) as E2. cbn [source_of] in E1, E2.
    destruct id; [rewrite bool_decide_eq_true_2 in E1 by done; rewrite bool_decide_eq_false_2 in E2 by done|rewrite bool_decide_eq_false_2 in E1 by done; rewrite bool_decide_eq_true_2 in E2 by done];
      rewrite E1, E2, Q1, Q2; cbn; auto.
Qed.
(** A step of the sender, from what its loop makes of the object. *)
Lemma running_exact rs outs s r result node_id : run_result_ok rs outs (fun id => place_of id s) result -> (forall id, receipt id r = []) -> size node_id <= 126 ->
  exists s' out, running node_id result s = Some (s', out) /\ system_ok (rs ++ [r]) (outs ++ out) s' /\ session_node s' = node_id.
Proof.
  intros (d & p & out & -> & Hc & Hp) Hr Hn. exists (System d (data_place s) (control_place s) p node_id), out. split; [done|]. split; [|done]. split; [|exact Hp|exact Hn].
  apply (core_silent _ _ _ _ r) in Hc; [|done]. destruct Hc as [C1 C2 C3 C4 C5 C6]. by split.
Qed.
Lemma replied_exact rs outs at_ d acked stop refused node_id : core_ok rs outs at_ d -> run_place_ok outs AtReply d -> size node_id <= 126 ->
  run_result_ok rs outs at_ (replied acked stop refused node_id d).
Proof.
  intros Hc (f & Ef & Ho) Hn. unfold replied. rewrite Ef. destruct acked.
  - destruct (run_loop_exact rs (outs ++ [AckedOut f]) at_ (acknowledged f d) stop refused node_id) as (d' & p & out & E & Hc' & Hp); [by apply core_acknowledged|done|].
    rewrite E. cbn [mbind option_bind]. exists d', p, (AckedOut f :: out). rewrite <- app_assoc in Hc', Hp. by split.
  - destruct stop; do 3 eexists; (split; [done|]); rewrite app_nil_r; [by split|]. split; [by apply core_failed|by exists f].
Qed.
Lemma system_ok_step rs outs s r s' out : system_ok rs outs s -> resumption_ok r -> resume r s = Some (s', out) -> system_ok (rs ++ [r]) (outs ++ out) s'.
Proof.
  intros Hs Hr. pose proof Hs as [Hc Hp Hn]. pose proof (fun id => core_source _ _ _ _ Hc id) as Hsrc. cbv beta in Hsrc.
  assert (Hu : forall id, is_u64 (received_events_ (source_of id (delivery s)))) by (intros id; rewrite (proj1 (core_counts _ _ _ _ Hc id)); apply u64_range).
  assert (Hsilent : forall (result : option ran) node_id, run_result_ok rs outs (fun id => place_of id s) result -> (forall id, receipt id r = []) -> size node_id <= 126 ->
    running node_id result s = Some (s', out) -> system_ok (rs ++ [r]) (outs ++ out) s').
  { intros result node_id Hres Hrec Hnode E. destruct (running_exact rs outs s r result node_id Hres Hrec Hnode) as (s2 & out2 & E2 & Hok & _). rewrite E2 in E. by injection E as <- <-. }
  destruct r as [id stop|id stop answer|id stop got|node_id stop refused|stop got refused|acked stop refused|stop refused]; cbn [resume].
  - destruct (place_of id s) eqn:Ep; try done. intros [= <- <-]. apply (receiving_exact rs outs s _ id []); [done| |done|done].
    apply start_receiving_exact; [|done]. specialize (Hsrc id). by rewrite Ep in Hsrc.
  - destruct (place_of id s) eqn:Ep; try done. intros [= <- <-]. apply (receiving_exact rs outs s _ id (receipt id (Received id stop answer))); [done| |done|].
    + apply received_exact; [|done|done]. specialize (Hsrc id). by rewrite Ep in Hsrc.
    + intros id' Hne. unfold receipt. destruct answer as [[batch|]|]; [|done..]. by rewrite bool_decide_eq_false_2.
  - destruct (place_of id s) eqn:Ep; try done. destruct (_ && _); [done|]. intros [= <- <-]. apply (receiving_exact rs outs s _ id []); [done| |done|done].
    apply space_wakes_exact; [|done]. specialize (Hsrc id). by rewrite Ep in Hsrc.
  - destruct (place s) eqn:Ep; try done. intros E. by apply (Hsilent _ node_id (run_loop_exact rs outs _ (delivery s) stop refused node_id Hc Hr)).
  - destruct (place s) eqn:Ep; try done. destruct got; cbn [negb].
    + destruct (holds (ready_ (delivery s))); [|done]. intros E.
      apply (Hsilent _ (session_node s) (run_loop_exact rs outs _ (take_ready (delivery s)) stop refused (session_node s) (core_take_ready _ _ _ _ Hc) Hn)); done.
    + intros [= <- <-]. rewrite app_nil_r. split; [|done|done]. apply (core_silent _ _ _ _ (ReadyWakes stop false refused)) in Hc; [|done].
      destruct Hc as [C1 C2 C3 C4 C5 C6]. by split.
  - destruct (place s) eqn:Ep; try done. intros E. apply (Hsilent _ (session_node s) (replied_exact rs outs _ (delivery s) acked stop refused (session_node s) Hc Hp Hn)); done.
  - destruct (place s) eqn:Ep; try done. intros E. apply (Hsilent _ (session_node s) (run_loop_exact rs outs _ (delivery s) stop refused (session_node s) Hc Hn)); done.
Qed.
Lemma new_system_ok : system_ok [] [] new_system.
Proof.
  split; [split|done|done]; try done; try (by intros id; destruct id).
  left. constructor.
Qed.
Lemma reachable_ok rs outs s : reachable rs outs s -> system_ok rs outs s.
Proof. induction 1 as [|rs outs s r s' out _ IH Hr E]; [apply new_system_ok|by apply (system_ok_step rs outs s r)]. Qed.

(** C6. Whatever the channels, the stream, the service and the stop requests do: of each source, the
    events that were received are those acknowledged, then those in flight, those queued and the batch
    that waits for room, in this order: none is lost, duplicated or overtaken across reconnections. *)
Theorem delivery_exact rs outs s id : reachable rs outs s -> receipts id rs = acked_events id outs ++ held id (delivery s).
Proof. intros Hs. apply (core_order _ _ _ _ (system_core _ _ _ (reachable_ok rs outs s Hs))). Qed.

(** What a delivery carries and what the queues hold is bounded: one event at least and 512 at most,
    a megabyte with the node's name; a source never holds more than its capacity beside one batch; and
    a delivery is sent again unchanged until it is acknowledged, before any other. *)
Theorem deliveries_bounded rs outs s : reachable rs outs s ->
  (forall f, SentOut f ∈ outs -> events_ f <> [] /\ size (events_ f) <= max_delivery_events /\ delivery_size (node_id_ f) (events_ f) <= max_delivery_bytes) /\
  (forall id, let kept := flying id (in_flight_ (delivery s)) ++ queued (pending_ (source_of id (delivery s))) in
    size kept <= (capacity id).1 /\ batch_bytes kept <= (capacity id).2) /\
  (exists current, outbox outs current).
Proof.
  intros Hs. destruct (reachable_ok rs outs s Hs) as [[C1 C2 C3 C4 C5 C6] Hp Hn]. split; [|split].
  - intros f Hf. rewrite Forall_forall in C5. destruct (C5 _ Hf) as [F1 F2 F3 F4 F5]. done.
  - intros id. destruct (C1 id) as [S1 S2 S3 S4 [S5 S5'] [S6 S6']]. cbv zeta. rewrite <- S5, <- S6, <- S1. done.
  - destruct C6 as [?|(f & _ & ?)]; eauto.
Qed.

(** * Nobody sleeps on work *)

Lemma empty_source_fits id at_ src batch : source_ok id [] at_ src -> pending_ src = [] -> log_batch_ok batch = true -> fits batch src = true.
Proof.
  intros [S1 S2 S3 S4 [S5 _] [S6 _]] Ep Hb. rewrite Ep in S5, S6. change (retained_events_ src = 0) in S5. change (retained_bytes_ src = 0) in S6.
  destruct (log_batch_ok_spec batch Hb) as (_ & Hs & Hw). pose proof (batch_bytes_wire batch). unfold fits. rewrite S5, S6.
  unfold max_delivery_events, max_delivery_bytes, node_identity_wire_bytes in *. apply negb_true_iff, orb_false_iff.
  destruct id; injection S1 as Em Ey; rewrite Em, Ey; split; apply Z.ltb_ge; lia.
Qed.
(** C31. No wakeup is lost: when the sender sleeps and no wakeup is left for it, nothing is in flight or queued
    and a source may still give something; and a receiver that waits for room then has a wakeup. *)
Theorem no_lost_wakeup rs outs s : reachable rs outs s -> place s = AtReady -> holds (ready_ (delivery s)) = false ->
  in_flight_ (delivery s) = None /\ nothing_pending (delivery s) /\ (closed_ (data_ (delivery s)) && closed_ (control_ (delivery s))) = false /\
  forall id, place_of id s = AtSpace -> holds (space_ (source_of id (delivery s))) = true.
Proof.
  intros Hs Hat Hno. destruct (reachable_ok rs outs s Hs) as [Hc Hp Hn]. rewrite Hat in Hp. destruct Hp as [En [Hh|[Hpend Hcl]]]; [by rewrite Hno in Hh|].
  split; [done|]. split; [done|]. split; [done|]. intros id Hid. pose proof (core_source _ _ _ _ Hc id) as Hsrc. cbv beta in Hsrc. rewrite Hid, En in Hsrc. cbn [flying] in Hsrc.
  destruct (source_place _ _ _ _ Hsrc) as (batch & Hw & [Hf|Hh]); [|done]. exfalso.
  rewrite (empty_source_fits id AtSpace _ batch Hsrc) in Hf; [done| |by apply (source_waiting _ _ _ _ Hsrc)]. destruct Hpend, id; done.
Qed.

Fixpoint resume_all (rs : list resumption) (s : system) : option (system * list delivery_output) :=
  match rs with
  | [] => Some (s, [])
  | r :: rs => '(s, out) ← resume r s; '(s, outs) ← resume_all rs s; Some (s, out ++ outs)
  end.
Lemma run_loop_place d node_id d' p out : run_loop false false node_id d = Some (d', p, out) -> p = AtReply \/ nothing_pending d' /\ in_flight_ d' = None.
Proof.
  unfold run_loop. destruct (in_flight_ d) as [f|] eqn:Ef; [intros [= <- <- <-]; by left|]. cbv zeta.
  assert (Hprepare : forall id, (d ← prepare_delivery id node_id d; match in_flight_ d with Some f => Some (attempt false f d) | None => None end) = Some (d', p, out) -> p = AtReply).
  { intros id. destruct (prepare_delivery id node_id d) as [d2|]; [|done]. cbn [mbind option_bind]. destruct (in_flight_ d2); [|done]. by intros [= <- <- <-]. }
  destruct (pending_ (control_ d)) as [|b control] eqn:Ec; [destruct (pending_ (data_ d)) as [|b data] eqn:Ed|].
  - intros [= <- <- <-]. right. by split.
  - intros E. left. by apply (Hprepare DataLogs).
  - intros E. left. by apply (Hprepare ControlLogs).
Qed.
Definition held_count (s : system) : nat := (length (held DataLogs (delivery s)) + length (held ControlLogs (delivery s)))%nat.
(** An acknowledgement takes at least an event off what is held, and the sender goes on. *)
Lemma acknowledgement_step rs outs s : system_ok rs outs s -> place s = AtReply ->
  exists s' out, resume (Replied true false false) s = Some (s', out) /\ system_ok (rs ++ [Replied true false false]) (outs ++ out) s' /\
    (held_count s' < held_count s)%nat /\ (place s' = AtReply \/ nothing_pending (delivery s') /\ in_flight_ (delivery s') = None).
Proof.
  intros Hok Hat. pose proof Hok as [Hc Hp Hn]. rewrite Hat in Hp.
  destruct (running_exact rs outs s (Replied true false false) _ (session_node s) (replied_exact rs outs _ (delivery s) true false false (session_node s) Hc Hp Hn)) as (s' & out & E & Hok' & _); [done|done|].
  exists s', out. cbn [resume]. rewrite Hat. split; [done|]. split; [done|]. destruct Hp as (f & Ef & _). unfold replied in E. rewrite Ef in E.
  destruct (run_loop false false (session_node s) (acknowledged f (delivery s))) as [[[d p] out']|] eqn:Er; [|done]. injection E as <- <-. split; [|by apply run_loop_place in Er].
  assert (Hlen : forall id, (length (acked_of id (AckedOut f)) + length (held id d) <= length (held id (delivery s)))%nat).
  { intros id. pose proof (core_order _ _ _ _ (system_core _ _ _ Hok') id) as E1. pose proof (core_order _ _ _ _ Hc id) as E2. cbn [delivery] in E1.
    rewrite receipts_app, receipts_one, app_nil_r, E2 in E1. rewrite acked_app, <- app_assoc in E1. apply app_inv_head in E1. rewrite E1.
    change (acked_events id (AckedOut f :: out')) with (acked_of id (AckedOut f) ++ acked_events id out'). rewrite !length_app. lia. }
  assert (0 < length (acked_of (source_ f) (AckedOut f)))%nat as Hpos.
  { cbn [acked_of]. rewrite bool_decide_eq_true_2 by done. pose proof (flight_some _ (core_flight _ _ _ _ Hc f Ef)). destruct (events_ f); [done|cbn; lia]. }
  pose proof (Hlen DataLogs). pose proof (Hlen ControlLogs). unfold held_count. cbn [delivery]. destruct (source_ f); lia.
Qed.
(** C32. While the service acknowledges, everything queued leaves: from any reachable state in which a delivery
    is on its way, as many acknowledgements as there are events, at most, leave nothing in flight and nothing queued. *)
Theorem acknowledgements_drain rs outs s : reachable rs outs s -> place s = AtReply ->
  exists k s' out, (k <= held_count s)%nat /\ resume_all (repeat (Replied true false false) k) s = Some (s', out) /\ nothing_pending (delivery s') /\ in_flight_ (delivery s') = None.
Proof.
  intros Hs Hat. apply reachable_ok in Hs. remember (held_count s) as n eqn:En. revert rs outs s Hs Hat En.
  induction n as [n IH] using lt_wf_ind. intros rs outs s Hs Hat ->. destruct (acknowledgement_step rs outs s Hs Hat) as (s' & out & E & Hs' & Hlt & [Hat'|[Hn Hf]]).
  - destruct (IH _ Hlt _ _ s' Hs' Hat' eq_refl) as (k & s2 & out2 & Hk & E2 & Hdone). exists (S k), s2, (out ++ out2). cbn [repeat resume_all]. rewrite E. cbn [mbind option_bind].
    rewrite E2. cbn [mbind option_bind]. split; [lia|done].
  - exists 1%nat, s', (out ++ []). cbn [repeat resume_all]. rewrite E. cbn [mbind option_bind]. split; [lia|done].
Qed.

(** The number that is reported is at least what is held and staged, as long as the counters do not wrap. *)
Lemma queued_events_bound rs outs s data control : reachable rs outs s -> 0 <= data.2 -> 0 <= control.2 ->
  Z.max data.1 (size (receipts DataLogs rs)) + data.2 + Z.max control.1 (size (receipts ControlLogs rs)) + control.2 < two64 ->
  size (held DataLogs (delivery s)) + data.2 + size (held ControlLogs (delivery s)) + control.2 <= queued_events (delivery s) data control.
Proof.
  intros Hs Hd Hc Hmax. pose proof (reachable_ok rs outs s Hs) as [Hcore _ _]. unfold queued_events, outstanding.
  destruct (core_counts _ _ _ _ Hcore DataLogs) as [R1 A1]. destruct (core_counts _ _ _ _ Hcore ControlLogs) as [R2 A2]. cbn [source_of] in *. rewrite R1, A1, R2, A2.
  pose proof (f_equal size (core_order _ _ _ _ Hcore DataLogs)) as O1. pose proof (f_equal size (core_order _ _ _ _ Hcore ControlLogs)) as O2. rewrite size_app in O1, O2.
  assert (forall l : list log_event, 0 <= size l) as Hnn by (intros l; unfold size; lia).
  pose proof (Hnn (acked_events DataLogs outs)). pose proof (Hnn (acked_events ControlLogs outs)). pose proof (Hnn (held DataLogs (delivery s))). pose proof (Hnn (held ControlLogs (delivery s))).
  assert (forall z, 0 <= z < two64 -> u64 z = z) as Hu by (intros z Hz; unfold u64; by apply Z.mod_small). 
  assert (size (receipts DataLogs rs) < two64) by lia. assert (size (receipts ControlLogs rs) < two64) by lia.
  rewrite !(Hu (size _)) by lia. idtac. rewrite (Hu (_ + data.2)), (Hu (_ + control.2)) by lia. rewrite Hu by lia. lia.
Qed.

Lemma resume_all_reachable more : forall rs outs s s' out, reachable rs outs s -> Forall resumption_ok more -> resume_all more s = Some (s', out) -> reachable (rs ++ more) (outs ++ out) s'.
Proof.
  induction more as [|r more IH]; intros rs outs s s' out Hs Hok E; cbn [resume_all] in E.
  - injection E as <- <-. by rewrite !app_nil_r.
  - apply Forall_cons in Hok as [Hr Hok]. destruct (resume r s) as [[s1 out1]|] eqn:E1; [|done]. cbn [mbind option_bind] in E.
    destruct (resume_all more s1) as [[s2 out2]|] eqn:E2; [|done]. injection E as <- <-.
    pose proof (IH _ _ _ _ _ (reachable_step rs outs s r s1 out1 Hs Hr E1) Hok E2) as Hf. by rewrite <- !app_assoc in Hf.
Qed.
End Delivery.

(** The delay between attempts is one second at least and half a minute at most. *)
Lemma retry_delay_bounds failures : 0 <= failures <= 6 -> 1 <= retry_delay failures <= 30 /\ 0 <= count_failure failures <= 6.
Proof.
  intros Hf. split; [|unfold count_failure; lia]. assert (Hin : failures ∈ seqZ 0 7) by (apply elem_of_seqZ; lia). revert Hin.
  apply (Forall_forall (fun f => 1 <= retry_delay f <= 30)). repeat constructor; by vm_compute.
Qed.

(** * Witnesses *)

Definition flags : Wakeups := {| wakeup := bool; quiet := false; send := fun _ => true; holds := fun w => w; consume := fun _ => false |}.
Lemma flags_laws : WakeupsLaws (H := flags).
Proof. by split. Qed.
Section Samples.
#[local] Existing Instance two_sizes.
#[local] Existing Instance flags.
#[local] Existing Instance two_sizes_laws.
#[local] Existing Instance flags_laws.
Definition sample_batch : list log_event := [small_event "a"; large_event; small_event "b"; large_event].
Definition sample_resumptions : list resumption :=
  [StartReceiving DataLogs false; StartReceiving ControlLogs false; Received DataLogs false (Some (Some [small_event "a"; large_event]));
   Received DataLogs false (Some (Some [large_event; small_event "b"])); StartSession (lit "node-1") false false; Replied false false false; Slept false false].
Definition sample_system : system := default new_system (fst <$> resume_all sample_resumptions new_system).
Definition sample_outs : list delivery_output := default [] (snd <$> resume_all sample_resumptions new_system).
Lemma sample_reachable : reachable sample_resumptions sample_outs sample_system.
Proof.
  apply (resume_all_reachable sample_resumptions [] [] new_system); [constructor| |by vm_compute].
  repeat (constructor; [first [exact I | by vm_compute | eexists; split; [reflexivity|by vm_compute]]|]). constructor.
Qed.
Lemma delivery_exact_witness : held DataLogs (delivery sample_system) = [small_event "a"; large_event; large_event; small_event "b"].
Proof. pose proof (delivery_exact sample_resumptions sample_outs sample_system DataLogs sample_reachable) as E. by vm_compute in E |- *. Defined.
Lemma deliveries_bounded_witness : forall f, SentOut f ∈ sample_outs -> events_ f <> [].
Proof. destruct (deliveries_bounded sample_resumptions sample_outs sample_system sample_reachable) as [Hf _]. intros f Hin. by apply Hf. Defined.
Definition idle_resumptions : list resumption := [StartReceiving DataLogs false; StartSession (lit "node-1") false false].
Definition idle_system : system := default new_system (fst <$> resume_all idle_resumptions new_system).
Lemma idle_reachable : reachable idle_resumptions [] idle_system.
Proof. apply (resume_all_reachable idle_resumptions [] [] new_system); [constructor| |by vm_compute]. repeat (constructor; [first [exact I | by vm_compute]|]). constructor. Qed.
Lemma no_lost_wakeup_witness : in_flight_ (delivery idle_system) = None.
Proof. apply (no_lost_wakeup idle_resumptions [] idle_system idle_reachable); by vm_compute. Defined.
Lemma acknowledgements_drain_witness : exists k s' out, (k <= 4)%nat /\ resume_all (repeat (Replied true false false) k) sample_system = Some (s', out) /\ nothing_pending (delivery s').
Proof.
  destruct (acknowledgements_drain sample_resumptions sample_outs sample_system sample_reachable) as (k & s' & out & Hk & E & Hn & _); [by vm_compute|].
  exists k, s', out. assert (held_count sample_system = 4%nat) as Hc by (by vm_compute). rewrite Hc in Hk. by split.
Defined.
End Samples.
