(* ===== verification/DnsRecord.v ===== *)
(** Domain names and DNS records of the service: src/service/common/domain_name.h and, under
    src/service/features/dns, record_model.h, record_name_policy.h, record_reconciliation.h,
    provider_error.h and the record comparisons of cloudflare.h and aliyun.h. *)
From S2P Require Import Prelude RoutePolicy MatchList.
Open Scope Z_scope.

(** * Domain names: domain_name.h *)

Fixpoint drop_dots (reversed : bytes) : bytes :=
  match reversed with
  | c :: rest => if c == "."%char then drop_dots rest else reversed
  | [] => []
  end.
Definition normalize_domain_name (value : bytes) : bytes := map lower_ascii (rev (drop_dots (rev value))).

Definition is_alpha (ch : ascii) : bool := is_lower ch || is_upper ch.
Definition is_alnum (ch : ascii) : bool := is_alpha ch || is_digit ch.
Definition front (label : bytes) : ascii := hd zero label.
Definition back (label : bytes) : ascii := List.last label zero.
Definition is_valid_dns_label (label : bytes) (letters_only : bool) : bool :=
  if empty label || (63 <? size label) then false
  else if letters_only then (if size label <? 2 then false else forallb is_alpha label)
  else if negb (is_alnum (front label)) || negb (is_alnum (back label)) then false
  else forallb (fun ch => is_alnum ch || (ch == "-"%char)) label.

(** The loop over the labels; [fuel] bounds the steps, one for each label. *)
Fixpoint hostname_loop (fuel : nat) (value : bytes) (label_count : nat) : bool :=
  match fuel with
  | O => false
  | S fuel =>
      if empty value then false
      else
        let dot := find_char "." value in
        let is_last := negb (present dot) in
        if negb (is_valid_dns_label (upto dot value) is_last) then false
        else if is_last then (2 <=? S label_count)%nat
        else
          let value := after dot value in
          if empty value then false else hostname_loop fuel value (S label_count)
  end.
Definition is_hostname (value : bytes) (allow_wildcard : bool) : bool :=
  if empty value || (253 <? size value) then false
  else if starts_with value (lit "*.") then (if negb allow_wildcard then false else hostname_loop (S (length value)) (drop 2 value) 0)
  else hostname_loop (S (length value)) value 0.

Definition certificate_covers_hostname (certificate_domain hostname : bytes) : bool :=
  let certificate := normalize_domain_name certificate_domain in
  let host := normalize_domain_name hostname in
  if empty certificate || empty host then false
  else if certificate == host then true
  else if negb (starts_with certificate (lit "*.")) || starts_with host (lit "*.") then false
  else
    let base := drop 2 certificate in
    let suffix := lit "." ++ base in
    if (size host <=? size suffix) || negb (ends_with host suffix) then false
    else negb (present (find_char "." (take (length host - length suffix) host))).
Definition domain_belongs_to_zone (hostname zone_domain : bytes) : bool :=
  let host := normalize_domain_name hostname in
  let zone := normalize_domain_name zone_domain in
  let host := if starts_with host (lit "*.") then drop 2 host else host in
  negb (empty host) && negb (empty zone) && ((host == zone) || ((size zone <? size host) && ends_with host (lit "." ++ zone))).

(** * Records: record_model.h and provider_error.h *)

Record provider_zone := ProviderZone { zone_id_ : bytes; zone_name_ : bytes; zone_status_ : bytes }.
Record provider_record := ProviderRecord {
  id_ : bytes; type_ : bytes; name_ : bytes; content_ : bytes; ttl_ : Z; priority_ : option Z; proxied_ : bool; line_code_ : bytes }.
#[export] Instance provider_record_eq_dec : EqDecision provider_record.
Proof. solve_decision. Defined.
Record provider_line := ProviderLine { code_ : bytes; line_name_ : bytes; display_name_ : bytes }.
Inductive provider_error_code :=
  | credential_invalid | authorization_failed | upstream_failed | zone_not_found | dns_failed | record_conflict | record_name_conflict | record_not_found.
#[export] Instance provider_error_code_eq_dec : EqDecision provider_error_code.
Proof. solve_decision. Defined.
Definition permanent_code (c : provider_error_code) : bool :=
  match c with credential_invalid | authorization_failed | zone_not_found | record_conflict => true | _ => false end.

(** * Names at a provider: record_name_policy.h *)

Definition dns_name_equals (left_ right_ : bytes) : bool := map lower_ascii left_ == map lower_ascii right_.
Definition is_subdomain (name domain : bytes) : bool :=
  (size domain <? size name) && ends_with name domain && (nth (length name - length domain - 1) name zero == "."%char).
Definition strip_one_dot (name : bytes) : bytes := if ends_with name (lit ".") then removelast name else name.
Definition at_apex (name : bytes) : bytes := if empty name then lit "@" else name.
Definition relative_to (name domain : bytes) : bytes := if is_subdomain name domain then take (length name - length domain - 1) name else name.
Definition remote_record_name (fully_qualified : bool) (name domain : bytes) : bytes :=
  let result := strip_one_dot name in
  if fully_qualified then
    if result == lit "@" then domain
    else if dns_name_equals result domain || is_subdomain result domain then result
    else result ++ lit "." ++ domain
  else if (result == lit "@") || dns_name_equals result domain then lit "@"
  else at_apex (relative_to result domain).
Definition local_record_name (fully_qualified : bool) (name domain : bytes) : bytes :=
  if negb fully_qualified then at_apex name
  else
    let result := strip_one_dot name in
    if dns_name_equals result domain then lit "@" else at_apex (relative_to result domain).

(** * The decision for one record: record_reconciliation.h *)

Inductive record_reconciliation_action := reuse | update | create.
#[export] Instance reconciliation_action_eq_dec : EqDecision record_reconciliation_action.
Proof. solve_decision. Defined.
(** A plan, or the conflict that the client throws. *)
Definition reconciliation_plan : Type := option (record_reconciliation_action * option provider_record).

Section Plan.
Context (matches_identity matches_desired : provider_record -> bool).
Definition take_over (record : provider_record) : reconciliation_plan := Some (if matches_desired record then reuse else update, Some record).
(** The loop over the records for the only one of the same identity. *)
Fixpoint identity_loop (records : list provider_record) (exact : option provider_record) : reconciliation_plan :=
  match records with
  | [] => match exact with Some record => take_over record | None => Some (create, None) end
  | record :: records =>
      if negb (matches_identity record) then identity_loop records exact
      else match exact with
           | Some e => if id_ e != id_ record then None else identity_loop records (Some record)
           | None => identity_loop records (Some record)
           end
  end.
Definition plan_record_reconciliation (remote_records : list provider_record) (known_remote_record_id : bytes) : reconciliation_plan :=
  match (if empty known_remote_record_id then None else List.find (fun record => id_ record == known_remote_record_id) remote_records) with
  | Some record => take_over record
  | None => identity_loop remote_records None
  end.
End Plan.

(** * The clients' comparisons: cloudflare.h and aliyun.h *)

(** [operator==] of two addresses is the library's. *)
Class AddressEquality `{Asio} := address_equal : address -> address -> bool.
Section Clients.
Context `{AddressEquality}.
Definition proxiable (type : bytes) : bool := (type == lit "A") || (type == lit "AAAA") || (type == lit "CNAME").
Definition host_equals (left_ right_ : bytes) : bool := strip_one_dot (map lower_ascii left_) == strip_one_dot (map lower_ascii right_).
Definition ip_address_equals (left_ right_ : bytes) : bool :=
  match make_address left_, make_address right_ with Some a, Some b => address_equal a b | _, _ => false end.
Definition content_equals (type left_ right_ : bytes) : bool :=
  if (type == lit "A") || (type == lit "AAAA") then ip_address_equals left_ right_
  else if (type == lit "CNAME") || (type == lit "MX") then host_equals left_ right_
  else left_ == right_.

Inductive dns_provider_client := Cloudflare | Aliyun.
Definition fully_qualified_ (c : dns_provider_client) : bool := match c with Cloudflare => true | Aliyun => false end.
Definition minimum_record_ttl (c : dns_provider_client) : Z := match c with Cloudflare => 1 | Aliyun => 600 end.
Definition supports_routing_lines (c : dns_provider_client) : bool := match c with Cloudflare => false | Aliyun => true end.
Definition same_identity (c : dns_provider_client) (remote desired : provider_record) : bool :=
  match c with
  | Cloudflare => (type_ remote == type_ desired) && host_equals (name_ remote) (name_ desired) && content_equals (type_ desired) (content_ remote) (content_ desired)
  | Aliyun => (type_ remote == type_ desired) && (map lower_ascii (name_ remote) == map lower_ascii (name_ desired)) && (content_ remote == content_ desired) &&
              (line_code_ remote == line_code_ desired)
  end.
Definition matches_desired (c : dns_provider_client) (remote desired : provider_record) : bool :=
  if negb (same_identity c remote desired) || negb (ttl_ remote =? ttl_ desired) then false
  else match c with
  | Cloudflare =>
      if (type_ desired == lit "MX") && (priority_ remote != priority_ desired) then false
      else negb (proxiable (type_ desired)) || Bool.eqb (proxied_ remote) (proxied_ desired)
  | Aliyun => (type_ desired != lit "MX") || (priority_ remote == priority_ desired)
  end.
(** The record a provider is asked for; its id is the provider's. *)
Definition driver_plan (c : dns_provider_client) (remote_record_id : bytes) (desired : provider_record) (remote_records : list provider_record) : reconciliation_plan :=
  plan_record_reconciliation (fun record => same_identity c record desired) (fun record => matches_desired c record desired) remote_records remote_record_id.
End Clients.

(** * Names *)

Lemma hostname_loop_spec fuel : forall s k, (length s < fuel)%nat ->
  hostname_loop fuel s k = forallb (fun l => is_valid_dns_label l false) (removelast (split_on "." s)) && is_valid_dns_label (List.last (split_on "." s) []) true && (2 <=? k + length (split_on "." s))%nat.
Proof.
  induction fuel as [|fuel IH]; intros s k Hl; [lia|]. cbn [hostname_loop]. destruct s as [|c s]; [cbn; by rewrite ?andb_false_r|]. cbn [empty]. cbv zeta.
  rewrite (split_on_step "." (c :: s)). destruct (find_char "." (c :: s)) as [n|] eqn:E; cbn [present negb upto after].
  - pose proof (find_char_lt _ _ _ E) as Hn. set (a := take n (c :: s)). set (b := drop (S n) (c :: s)).
    assert (length b < length (c :: s))%nat as Hb by (by apply drop_S_lt). clearbody a b.
    pose proof (split_on_not_nil "." b) as Hne. destruct (is_valid_dns_label a false) eqn:Ev; cbn [negb].
    + destruct b as [|d b]; [cbn; by rewrite Ev|]. cbn [empty]. rewrite IH by lia.
      destruct (split_on "." (d :: b)) as [|p parts] eqn:Ep; [done|]. cbn [removelast List.last forallb length]. rewrite Ev. cbn [andb]. do 2 f_equal. lia.
    + destruct (split_on "." b) as [|p parts]; [done|]. cbn [removelast forallb]. by rewrite Ev.
  - cbn [removelast forallb List.last length upto andb]. destruct (is_valid_dns_label (c :: s) true); cbn [negb andb]; [|done].
    f_equal. lia.
Qed.

(** A label that is valid has no dot, and is not a wildcard. *)
Lemma label_no_dot label letters : is_valid_dns_label label letters = true -> "."%char ∉ label /\ label <> lit "*" /\ label <> [].
Proof.
  unfold is_valid_dns_label. destruct label as [|c label]; [done|]. cbn [empty orb]. destruct (_ <? _); [done|]. intros Hv.
  assert (forallb (fun ch => is_alnum ch || (ch == "-"%char)) (c :: label) = true) as Hall.
  { destruct letters.
    - destruct (_ <? _); [done|]. rewrite forallb_forall in Hv |- *. intros x Hx. unfold is_alnum. by rewrite (Hv x Hx).
    - by destruct (negb _ || negb _). }
  rewrite forallb_forall in Hall. split; [|split; [|done]].
  - intros Hin. apply list_elem_of_In in Hin. by specialize (Hall _ Hin).
  - intros E. rewrite E in Hall. specialize (Hall "*"%char (or_introl eq_refl)). done.
Qed.

Definition hostname_labels (labels : list bytes) (last : bytes) : Prop :=
  labels <> [] /\ Forall (fun l => is_valid_dns_label l false = true) labels /\ is_valid_dns_label last true = true.
Lemma hostname_parts s : hostname_loop (S (length s)) s 0 = true <-> exists labels last, hostname_labels labels last /\ s = join (lit ".") (labels ++ [last]).
Proof.
  rewrite hostname_loop_spec by lia. rewrite !andb_true_iff, Nat.leb_le. split.
  - intros [[Hl Hlast] Hlen]. pose proof (split_on_not_nil "." s) as Hne. exists (removelast (split_on "." s)), (List.last (split_on "." s) []).
    rewrite <- (app_removelast_last [] Hne). split; [|symmetry; apply join_split]. split; [|split; [by apply forallb_Forall|done]].
    destruct (split_on "." s) as [|p [|q parts]]; [done|cbn in Hlen; lia|done].
  - intros (labels & last & (Hne & Hl & Hlast) & ->). change (lit ".") with ["."%char]. rewrite split_join.
    + rewrite removelast_last, last_last. split; [split; [by apply forallb_Forall|done]|]. rewrite length_app. destruct labels; [done|cbn; lia].
    + by destruct labels.
    + apply Forall_app. split; [|by constructor; [apply (label_no_dot last true)|]]. eapply Forall_impl; [exact Hl|]. intros l Hv. by apply (label_no_dot l false).
Qed.
Lemma join_cons l labels last : join (lit ".") ((l :: labels) ++ [last]) = l ++ lit "." ++ join (lit ".") (labels ++ [last]).
Proof. cbn [app join]. by destruct (labels ++ [last]) eqn:E; [destruct labels|]. Qed.

(** A hostname is two labels or more of 63 characters at most, joined by dots and within 253
    characters, whose last one is letters only; a wildcard may stand before them where it is allowed. *)
Theorem is_hostname_exact value allow_wildcard : is_hostname value allow_wildcard = true <->
  size value <= 253 /\ exists labels last, hostname_labels labels last /\
    (value = join (lit ".") (labels ++ [last]) \/ allow_wildcard = true /\ value = lit "*." ++ join (lit ".") (labels ++ [last])).
Proof.
  unfold is_hostname. assert (Hplain : forall labels last, hostname_labels labels last -> starts_with (join (lit ".") (labels ++ [last])) (lit "*.") = false /\ join (lit ".") (labels ++ [last]) <> []).
  { intros labels last (Hne & Hl & _). destruct labels as [|l labels]; [done|]. apply Forall_cons in Hl as [Hl _]. destruct (label_no_dot _ _ Hl) as (Hd & Hs & Hn). rewrite join_cons.
    destruct l as [|c l]; [done|]. split; [|done]. apply not_true_iff_false. intros (r & E)%starts_with_spec. cbn [app] in E. injection E as -> E.
    destruct l as [|d l]; [done|]. injection E as -> _. set_solver. }
  assert (Hfuel : forall s fuel, (length s < fuel)%nat -> hostname_loop fuel s 0 = hostname_loop (S (length s)) s 0) by (intros s fuel Hf; rewrite !hostname_loop_spec by lia; done).
  destruct value as [|c value]; [cbn; split; [done|]; intros (_ & labels & last & Hl & [E|[_ E]]); [by destruct (Hplain labels last Hl)|done]|].
  cbn [empty orb]. destruct (Z.ltb_spec 253 (size (c :: value))); [split; [done|lia]|]. destruct (starts_with (c :: value) (lit "*.")) eqn:Es.
  - apply starts_with_spec in Es as (r & Er). rewrite Er. change (drop 2 (lit "*." ++ r)) with r. rewrite Hfuel by (change (lit "*.") with ["*"%char; "."%char]; rewrite length_app; cbn; lia).
    destruct allow_wildcard; cbn [negb].
    + rewrite hostname_parts. split.
      * intros (labels & last & Hl & ->). split; [by rewrite <- Er|]. exists labels, last. auto.
      * intros (_ & labels & last & Hl & [E|[_ E]]); exists labels, last; (split; [done|]); [|by apply app_inv_head in E].
        destruct (Hplain labels last Hl) as [Hp _]. rewrite <- E in Hp. by rewrite (proj2 (starts_with_spec _ _) (ex_intro _ r eq_refl)) in Hp.
    + split; [done|]. intros (_ & labels & last & Hl & [E|[[=] _]]). destruct (Hplain labels last Hl) as [Hp _]. rewrite <- E in Hp. by rewrite starts_with_app in Hp.
  - rewrite hostname_parts. split.
    + intros (labels & last & Hl & E). split; [done|]. exists labels, last. auto.
    + intros (_ & labels & last & Hl & [E|[_ E]]); [by exists labels, last|]. rewrite E, starts_with_app in Es. done.
Qed.

(** A certificate covers its own name, and a wildcard certificate the names one label longer than its
    base; case and trailing dots never matter, and no wildcard name is covered by another. *)
Theorem certificate_covers_exact certificate host : certificate_covers_hostname certificate host = true <->
  normalize_domain_name host <> [] /\ (normalize_domain_name certificate = normalize_domain_name host \/
    exists base label, normalize_domain_name certificate = lit "*." ++ base /\ normalize_domain_name host = label ++ lit "." ++ base /\ label <> [] /\ label <> lit "*" /\ "."%char ∉ label).
Proof.
  unfold certificate_covers_hostname. cbv zeta. generalize (normalize_domain_name certificate), (normalize_domain_name host). intros c h.
  destruct c as [|a c]; [split; [done|]; intros (Hn & [E|(base & label & E & _)]); [by subst|done]|]. destruct h as [|b h]; [split; [done|]; by intros [? _]|].
  cbn [empty orb]. destruct (bool_decide_reflect (a :: c = b :: h)) as [->|Hne]; [split; [auto|done]|].
  destruct (starts_with (a :: c) (lit "*.")) eqn:Ec; cbn [negb orb].
  2: { split; [done|]. intros (_ & [?|(base & label & E & _)]); [done|]. rewrite E, starts_with_app in Ec. done. }
  apply starts_with_spec in Ec as (base & Ebase). rewrite Ebase. change (drop 2 (lit "*." ++ base)) with base.
  assert (Hin : forall base', lit "*." ++ base = lit "*." ++ base' -> base' = base) by (intros base' E; by apply app_inv_head in E).
  destruct (starts_with (b :: h) (lit "*.")) eqn:Eh.
  { split; [done|]. intros (_ & [E|(base' & label & _ & E & Hl & Hs & Hd)]); [congruence|]. apply starts_with_spec in Eh as (r & Eh). rewrite Eh in E.
    destruct label as [|d label]; [done|]. injection E as <- E. destruct label as [|d label]; [done|]. injection E as <- _. set_solver. }
  assert (Hsplit : forall label, b :: h = label ++ lit "." ++ base -> take (length (b :: h) - length (lit "." ++ base)) (b :: h) = label).
  { intros label ->. rewrite !length_app. replace (length label + (length (lit ".") + length base) - (length (lit ".") + length base))%nat with (length label) by lia. by rewrite take_app_length. }
  destruct (Z.leb_spec (size (b :: h)) (size (lit "." ++ base))) as [Hle|Hlt]; cbn [orb].
  { split; [done|]. intros (_ & [E|(base' & label & E1 & E2 & Hl & _)]); [congruence|]. apply Hin in E1 as ->. rewrite E2, size_app in Hle. destruct label; [done|]. unfold size in Hle. cbn in Hle. lia. }
  destruct (ends_with (b :: h) (lit "." ++ base)) eqn:Ee; cbn [negb].
  2: { split; [done|]. intros (_ & [E|(base' & label & E1 & E2 & _)]); [congruence|]. apply Hin in E1 as ->. apply not_true_iff_false in Ee. destruct Ee. apply ends_with_spec. by exists label. }
  apply ends_with_spec in Ee as (label & El). rewrite (Hsplit label El). rewrite negb_true_iff. split.
  - intros Hp. split; [done|]. right. exists base, label. split; [done|]. split; [done|]. split; [intros ->; rewrite El in Hlt; cbn [app] in Hlt; lia|]. split.
    + intros ->. rewrite El in Eh. change (lit "*" ++ lit "." ++ base) with (lit "*." ++ base) in Eh. by rewrite starts_with_app in Eh.
    + apply find_char_None. by destruct (find_char "." label).
  - intros (_ & [E|(base' & label' & E1 & E2 & Hl & Hs & Hd)]); [congruence|]. apply Hin in E1 as ->. rewrite El in E2. apply app_inv_tail in E2 as ->. apply find_char_None in Hd. by rewrite Hd.
Qed.

Lemma ends_with_dot_no s : ends_with s (lit ".") = false -> strip_one_dot s = s.
Proof. intros E. unfold strip_one_dot. by rewrite E. Qed.
Lemma ends_with_app_dot a d : ends_with d (lit ".") = false -> d <> [] -> ends_with (a ++ d) (lit ".") = false.
Proof.
  intros Hd Hn. apply not_true_iff_false. intros (r & E)%ends_with_spec. apply not_true_iff_false in Hd. apply Hd, ends_with_spec.
  destruct (exists_last Hn) as (d' & c & ->). rewrite app_assoc in E. apply app_inj_tail in E as [_ ->]. by exists d'.
Qed.
(** Whether a name lies in the zone. *)
Definition in_zone (name domain : bytes) : bool := dns_name_equals name domain || is_subdomain name domain.
Lemma subdomain_of l d : is_subdomain (l ++ lit "." ++ d) d = true /\ take (length (l ++ lit "." ++ d) - length d - 1) (l ++ lit "." ++ d) = l.
Proof.
  assert (length (l ++ lit "." ++ d) - length d - 1 = length l)%nat as El by (rewrite !length_app; change (length (lit ".")) with 1%nat; lia). rewrite El. split; [|by rewrite take_app_length].
  unfold is_subdomain. rewrite El. rewrite (proj2 (Z.ltb_lt _ _)) by (rewrite !size_app; change (size (lit ".")) with 1; unfold size; lia).
  rewrite (proj2 (ends_with_spec _ _)) by (exists (l ++ lit "."); by rewrite <- app_assoc). rewrite app_nth2 by lia. by rewrite Nat.sub_diag.
Qed.
Lemma equals_length a b : dns_name_equals a b = true -> length a = length b.
Proof. unfold dns_name_equals. intros E. apply bool_decide_eq_true in E. apply (f_equal length) in E. by rewrite !length_map in E. Qed.
Lemma longer_not_equal l d : dns_name_equals (l ++ lit "." ++ d) d = false.
Proof. apply not_true_iff_false. intros E%equals_length. rewrite !length_app in E. change (length (lit ".")) with 1%nat in E. lia. Qed.

(** A record below the zone has one name at a provider that takes full names and one at a provider that
    takes relative names, whichever of the two it is given, and the same local name back from either;
    the apex is the zone's name or "@" and comes back as "@". *)
Theorem record_names_roundtrip domain label : domain <> [] -> ends_with domain (lit ".") = false -> domain <> lit "@" ->
  label <> [] -> label <> lit "@" -> ends_with label (lit ".") = false -> in_zone label domain = false ->
  let full := label ++ lit "." ++ domain in
  (forall name, name = label \/ name = full -> remote_record_name true name domain = full /\ remote_record_name false name domain = label) /\
  local_record_name true full domain = label /\ local_record_name false label domain = label /\
  (forall name, name = lit "@" \/ name = domain -> remote_record_name true name domain = domain /\ remote_record_name false name domain = lit "@") /\
  local_record_name true domain domain = lit "@".
Proof.
  intros Hd Hdd Hda Hl Hla Hld Hz full. unfold in_zone in Hz. apply orb_false_iff in Hz as [Hz1 Hz2]. destruct (subdomain_of label domain) as [Hs Ht]. fold full in Hs, Ht.
  assert (strip_one_dot full = full) as Ef by (apply ends_with_dot_no; unfold full; rewrite app_assoc; by apply ends_with_app_dot).
  assert (dns_name_equals full domain = false) as En by apply longer_not_equal.
  assert (dns_name_equals domain domain = true) as Eq by (unfold dns_name_equals; by apply bool_decide_eq_true).
  assert (bool_decide (full = lit "@") = false) as Eat.
  { apply bool_decide_eq_false. intros E. apply (f_equal length) in E. unfold full in E. rewrite !length_app in E. change (length (lit "@")) with 1%nat in E. change (length (lit ".")) with 1%nat in E. destruct label; [done|cbn in E; lia]. }
  assert (at_apex label = label) as Ea by (by destruct label).
  split; [|split; [|split; [done|split]]].
  - intros name [-> | ->]; unfold remote_record_name; cbv zeta.
    + rewrite (ends_with_dot_no label Hld), (bool_decide_eq_false_2 _ Hla), Hz1, Hz2. cbn [orb]. split; [done|]. unfold relative_to. by rewrite Hz2.
    + rewrite Ef, Eat, En, Hs. cbn [orb]. split; [done|]. unfold relative_to. by rewrite Hs, Ht.
  - unfold local_record_name. cbn [negb]. cbv zeta. rewrite Ef, En. unfold relative_to. by rewrite Hs, Ht.
  - intros name [-> | ->]; unfold remote_record_name; cbv zeta; [done|]. by rewrite (ends_with_dot_no domain Hdd), (bool_decide_eq_false_2 _ Hda), Eq.
  - unfold local_record_name. cbn [negb]. cbv zeta. by rewrite (ends_with_dot_no domain Hdd), Eq.
Qed.

(** * The decision for a record *)

Section PlanTheory.
Context (matches_identity matches_desired : provider_record -> bool).
(** What a plan means: which record is taken over, and that nothing else could be meant. *)
Definition plan_means (remote_records : list provider_record) (known : option provider_record) (plan : reconciliation_plan) : Prop :=
  match plan with
  | None => known = None /\ exists a b, a ∈ remote_records /\ b ∈ remote_records /\ matches_identity a = true /\ matches_identity b = true /\ id_ a <> id_ b
  | Some (action, None) => action = create /\ known = None /\ forall record, record ∈ remote_records -> matches_identity record = false
  | Some (action, Some record) =>
      record ∈ remote_records /\ action = (if matches_desired record then reuse else update) /\
      (known = Some record \/ known = None /\ matches_identity record = true /\ forall other, other ∈ remote_records -> matches_identity other = true -> id_ other = id_ record)
  end.
Lemma identity_loop_means records : forall seen exact,
  match exact with
  | Some e => e ∈ seen /\ matches_identity e = true /\ forall other, other ∈ seen -> matches_identity other = true -> id_ other = id_ e
  | None => forall record, record ∈ seen -> matches_identity record = false
  end -> plan_means (seen ++ records) None (identity_loop matches_identity matches_desired records exact).
Proof.
  induction records as [|record records IH]; intros seen exact Hseen; cbn [identity_loop].
  - rewrite app_nil_r. destruct exact as [e|]; [|done]. unfold take_over. destruct Hseen as (H1' & H2' & H3'). split; [done|]. split; [done|]. right. done.
  - replace (seen ++ record :: records) with ((seen ++ [record]) ++ records) by (by rewrite <- app_assoc).
    destruct (matches_identity record) eqn:Em; cbn [negb].
    + destruct exact as [e|].
      * destruct Hseen as (H1' & H2' & H3'). destruct (bool_decide_reflect (id_ e = id_ record)) as [Ei|Hne]; cbn [negb].
        -- apply IH. split; [set_solver|]. split; [done|]. intros other [Ho|Ho%list_elem_of_singleton]%elem_of_app Hm; [|by subst]. rewrite <- Ei. by apply H3'.
        -- split; [done|]. exists e, record. repeat split; set_solver.
      * apply IH. split; [set_solver|]. split; [done|]. intros other [Ho|Ho%list_elem_of_singleton]%elem_of_app Hm; [|by subst]. by rewrite (Hseen other Ho) in Hm.
    + apply IH. destruct exact as [e|].
      * destruct Hseen as (H1' & H2' & H3'). split; [set_solver|]. split; [done|]. intros other [Ho|Ho%list_elem_of_singleton]%elem_of_app Hm; [by apply H3'|]. subst. by rewrite Em in Hm.
      * intros other [Ho|Ho%list_elem_of_singleton]%elem_of_app; [by apply Hseen|by subst].
Qed.
Definition known_record (remote_records : list provider_record) (known : bytes) : option provider_record :=
  if empty known then None else List.find (fun record => id_ record == known) remote_records.
(** The record that is known by its id is taken over when the provider still has it, otherwise the
    only one of the same identity; two of them are a conflict, none is a record to create. *)
Lemma plan_exact remote_records known :
  plan_means remote_records (known_record remote_records known) (plan_record_reconciliation matches_identity matches_desired remote_records known).
Proof.
  unfold plan_record_reconciliation. fold (known_record remote_records known). destruct (known_record remote_records known) as [record|] eqn:E.
  - unfold take_over, plan_means. split; [|auto]. unfold known_record in E. destruct (empty known); [done|]. apply find_some in E as [E _]. by apply list_elem_of_In.
  - apply (identity_loop_means remote_records []). by intros r Hr%not_elem_of_nil.
Qed.
End PlanTheory.

Lemma record_names_roundtrip_witness : remote_record_name true (lit "www") (lit "example.com") = lit "www.example.com" /\ local_record_name true (lit "www.example.com") (lit "example.com") = lit "www".
Proof.
  destruct (record_names_roundtrip (lit "example.com") (lit "www") ltac:(done) ltac:(by vm_compute) ltac:(done) ltac:(done) ltac:(done) ltac:(by vm_compute) ltac:(by vm_compute)) as (Hremote & Hlocal & _).
  split; [by apply Hremote; left|exact Hlocal].
Defined.
