(* ===== verification/DnsSync.v ===== *)
(** The synchronization of a hosted zone: under src/service/features/dns_sync, model.h,
    reconciliation.h, attempt_detail.h, snapshot.h and sync_engine.h, with the driver of
    src/service/features/dns/driver.h.

    The provider's and the database's answers come from a world that the calls go through; trace texts
    are not modelled. An unordered set is iterated in some order, an interface. *)
From S2P Require Import Prelude RoutePolicy MatchList DnsRecord.
Open Scope Z_scope.

(** * Data: model.h *)

Record zone_record_data := ZoneRecord {
  local_id_ : bytes; record_type_ : bytes; record_name_ : bytes; record_content_ : bytes; record_ttl_ : Z; record_priority_ : option Z; record_proxied_ : bool; record_line_ : bytes }.
#[export] Instance zone_record_eq_dec : EqDecision zone_record_data.
Proof. solve_decision. Defined.
Abbreviation zone_config_data := (list zone_record_data).
Record zone_record_runtime_data := RecordState {
  state_id_ : option bytes; remote_record_id_ : option bytes; sync_status_ : option bytes; synced_revision_ : option Z; last_error_ : option bytes; managed_ : bool }.

(** * Decisions: reconciliation.h *)

(** [emplace]: what is there stays. *)
Definition emplace {V} (k : bytes) (v : V) (m : gmap bytes V) : gmap bytes V := match m !! k with Some _ => m | None => <[k := v]> m end.
Record record_changes := RecordChanges { writes_ : zone_config_data; removals_ : zone_config_data }.
Definition records_by_id (records : zone_config_data) : gmap bytes zone_record_data := fold_left (fun m record => emplace (local_id_ record) record m) records ∅.
Definition ids_of (records : zone_config_data) : gset bytes := list_to_set (map local_id_ records).
Definition plan_record_changes (previous requested : zone_config_data) : record_changes :=
  let before := records_by_id previous in
  let retained := ids_of requested in
  RecordChanges (List.filter (fun record => match before !! local_id_ record with None => true | Some found => found != record end) requested)
    (List.filter (fun record => negb (bool_decide (local_id_ record ∈ retained))) previous).

Section Zone.
Context (names : bool) (domain : bytes).
Definition remote_name (name : bytes) : bytes := normalize_domain_name (remote_record_name names name domain).
Definition to_remote_record (record : zone_record_data) : provider_record :=
  ProviderRecord [] (record_type_ record) (remote_record_name names (record_name_ record) domain) (record_content_ record) (record_ttl_ record) (record_priority_ record)
    (record_proxied_ record) (record_line_ record).
Definition collect_remote_ids_by_local_id (states : list zone_record_runtime_data) : gmap bytes bytes :=
  fold_left (fun m state => match state_id_ state, remote_record_id_ state with Some id, Some remote => emplace id remote m | _, _ => m end) states ∅.

(** The remote ids of the managed states, of the records still desired or of the others. *)
Definition managed_ids (active : gset bytes) (keep : bool) (states : list zone_record_runtime_data) : gset bytes :=
  list_to_set (omap (fun state =>
    match managed_ state, state_id_ state, remote_record_id_ state with
    | true, Some id, Some remote => if Bool.eqb (bool_decide (id ∈ active)) keep then Some remote else None
    | _, _, _ => None
    end) states).
Definition cluster_record (cluster_hostnames : gset bytes) (record : provider_record) : bool :=
  ((type_ record == lit "A") || (type_ record == lit "AAAA")) && bool_decide (remote_name (name_ record) ∈ cluster_hostnames).
Definition expected (desired : zone_config_data) (record : provider_record) : bool :=
  existsb (fun wanted => (record_type_ wanted == type_ record) && (record_content_ wanted == content_ record) && (record_line_ wanted == line_code_ record) &&
    (remote_name (record_name_ wanted) == remote_name (name_ record))) desired.
Definition cluster_ids (desired : zone_config_data) (cluster_hostnames : gset bytes) (keep : bool) (remote : list provider_record) : gset bytes :=
  list_to_set (map id_ (List.filter (fun record => cluster_record cluster_hostnames record && Bool.eqb (expected desired record) keep) remote)).
Definition obsolete_system_record_ids (previous : list zone_record_runtime_data) (desired : zone_config_data) (remote : list provider_record) (cluster_hostnames : gset bytes) : gset bytes :=
  let active_ids := ids_of desired in
  let retained := managed_ids active_ids true previous ∪ cluster_ids desired cluster_hostnames true remote in
  let obsolete := managed_ids active_ids false previous ∪ cluster_ids desired cluster_hostnames false remote in
  obsolete ∖ retained.

Record unsynced_record := Unsynced { unsynced_id_ : bytes; unsynced_name_ : bytes; unsynced_type_ : bytes; error_ : bytes }.
Definition coexists_with_cname (type : bytes) (zone_apex : bool) : bool := zone_apex && ((type == lit "MX") || (type == lit "TXT")).
Definition blocks (record other : zone_record_data) (zone_apex : bool) : bool :=
  negb ((local_id_ other == local_id_ record) || (record_line_ other != record_line_ record) || (remote_name (record_name_ other) != remote_name (record_name_ record)) ||
        coexists_with_cname (record_type_ other) zone_apex ||
        ((record_type_ other == lit "CNAME") && (normalize_domain_name (record_content_ other) == normalize_domain_name (record_content_ record)))).
(** The types of the blocking records, each once, in their order. *)
Definition blocking_types (record : zone_record_data) (zone_apex : bool) (desired : zone_config_data) : list bytes :=
  fold_left (fun types other => if blocks record other zone_apex && negb (bool_decide (record_type_ other ∈ types)) then types ++ [record_type_ other] else types) desired [].
Definition local_name_of (record : zone_record_data) : bytes := local_record_name names (remote_record_name names (record_name_ record) domain) domain.
Definition blocked_error (local_name : bytes) (types : list bytes) : bytes :=
  lit "主机记录 " ++ local_name ++ lit " 已有 " ++ join (lit "、") types ++ lit " 记录，不能再添加 CNAME；请删除或修改这些记录，或把该网站域名改为外部解析".
Definition find_blocked_website_records (desired : zone_config_data) (website_record_ids : gset bytes) : list unsynced_record :=
  omap (fun record =>
    if (record_type_ record != lit "CNAME") || negb (bool_decide (local_id_ record ∈ website_record_ids)) then None
    else
      let local_name := local_name_of record in
      match blocking_types record (local_name == lit "@") desired with
      | [] => None
      | types => Some (Unsynced (local_id_ record) local_name (record_type_ record) (blocked_error local_name types))
      end) desired.
Definition unsynced_records_error (records : list unsynced_record) : bytes :=
  match records with
  | [] => []
  | first :: rest =>
      let subject := unsynced_name_ first ++ lit " " ++ unsynced_type_ first ++ lit "：" ++ error_ first in
      if empty rest then lit "1 条记录未同步：" ++ subject else dec (size records) ++ lit " 条记录未同步，首条 " ++ subject
  end.
End Zone.

(** * What an attempt has done: attempt_detail.h *)

Record attempt_record := AttemptRecord {
  attempt_name_ : bytes; attempt_type_ : bytes; attempt_line_ : bytes; attempt_content_ : bytes; attempt_ttl_ : Z; attempt_priority_ : option Z; attempt_proxied_ : bool }.
Definition to_attempt_record (names : bool) (domain : bytes) (record : provider_record) : attempt_record :=
  AttemptRecord (local_record_name names (name_ record) domain) (type_ record) (line_code_ record) (content_ record) (ttl_ record) (priority_ record) (proxied_ record).
Definition local_attempt_record (record : zone_record_data) : attempt_record :=
  AttemptRecord (record_name_ record) (record_type_ record) (record_line_ record) (record_content_ record) (record_ttl_ record) (record_priority_ record) (record_proxied_ record).
Definition detail_list_items : Z := 50.
Record zone_sync_attempt := Attempt {
  created_ : list attempt_record; updated_ : list (attempt_record * attempt_record); deleted_ : list attempt_record;
  created_count_ : Z; updated_count_ : Z; deleted_count_ : Z; unchanged_count_ : Z }.
Definition new_attempt : zone_sync_attempt := Attempt [] [] [] 0 0 0 0.
Definition push_bounded {A} (l : list A) (a : A) : list A := if size l <? detail_list_items then l ++ [a] else l.
Definition record_created (r : attempt_record) (a : zone_sync_attempt) : zone_sync_attempt :=
  Attempt (push_bounded (created_ a) r) (updated_ a) (deleted_ a) (created_count_ a + 1) (updated_count_ a) (deleted_count_ a) (unchanged_count_ a).
Definition record_updated (before after : attempt_record) (a : zone_sync_attempt) : zone_sync_attempt :=
  Attempt (created_ a) (push_bounded (updated_ a) (before, after)) (deleted_ a) (created_count_ a) (updated_count_ a + 1) (deleted_count_ a) (unchanged_count_ a).
Definition record_deleted (r : attempt_record) (a : zone_sync_attempt) : zone_sync_attempt :=
  Attempt (created_ a) (updated_ a) (push_bounded (deleted_ a) r) (created_count_ a) (updated_count_ a) (deleted_count_ a + 1) (unchanged_count_ a).
Definition record_unchanged (a : zone_sync_attempt) : zone_sync_attempt :=
  Attempt (created_ a) (updated_ a) (deleted_ a) (created_count_ a) (updated_count_ a) (deleted_count_ a) (unchanged_count_ a + 1).
Definition attempt_changed (a : zone_sync_attempt) : bool := negb (created_count_ a =? 0) || negb (updated_count_ a =? 0) || negb (deleted_count_ a =? 0).

(** * The engine: sync_engine.h *)

Inductive failure := ProviderFailure (code : provider_error_code) (what : bytes) | RuntimeFailure (what : bytes).
(** The provider and the database: every call may change them, and may fail. *)
Class DnsWorld := {
  world : Type;
  renew_running_lease : world -> world * bool;
  update_record : dns_provider_client -> bytes -> bytes -> bytes -> provider_record -> world -> world * (bytes + failure);
  create_record : dns_provider_client -> bytes -> bytes -> provider_record -> world -> world * (bytes + failure);
  delete_record : dns_provider_client -> bytes -> bytes -> world -> world * option failure }.
(** The order in which a set is iterated. *)
Class SetOrder := { iterate : gset bytes -> list bytes; iterate_perm : forall s, iterate s ≡ₚ elements s }.
(** The changes that a provider is asked for. *)
Inductive provider_call := CallDelete (id : bytes) | CallUpdate (id : bytes) (record : provider_record) | CallCreate (record : provider_record).

Section Outcomes.
Context `{DnsWorld}.
Record sync_state := Sync { world_ : world; calls_ : list provider_call; attempt_ : zone_sync_attempt }.
Inductive outcome (A : Type) := Done (a : A) (s : sync_state) | Failed (f : failure) (s : sync_state).
End Outcomes.
Arguments Done {_ _}. Arguments Failed {_ _}.
Section Steps.
Context `{DnsWorld}.
Definition state_of {A} (o : outcome A) : sync_state := match o with Done _ s | Failed _ s => s end.
Definition then_ {A B} (o : outcome A) (f : A -> sync_state -> outcome B) : outcome B := match o with Done a s => f a s | Failed e s => Failed e s end.
Definition with_world (w : world) (s : sync_state) : sync_state := Sync w (calls_ s) (attempt_ s).
Definition call (c : provider_call) (w : world) (s : sync_state) : sync_state := Sync w (calls_ s ++ [c]) (attempt_ s).
Definition note (f : zone_sync_attempt -> zone_sync_attempt) (s : sync_state) : sync_state := Sync (world_ s) (calls_ s) (f (attempt_ s)).
Definition require_lease (s : sync_state) : outcome unit :=
  let '(w, held) := renew_running_lease (world_ s) in
  if held then Done tt (with_world w s) else Failed (RuntimeFailure (lit "DNS 同步标记 lease 已失效")) (with_world w s).
End Steps.

Section Engine.
Context `{AddressEquality} `{DnsWorld} `{SetOrder}.
Context (client : dns_provider_client) (zone_id domain : bytes).
Let names : bool := fully_qualified_ client.

Definition find_record (id : bytes) (records : list provider_record) : option provider_record := List.find (fun record => id_ record == id) records.
Definition erase_record (id : bytes) (records : list provider_record) : list provider_record := List.filter (fun record => id_ record != id) records.
(** [delete_obsolete_remote_records]: the records that are left. *)
Fixpoint delete_obsolete (obsolete : list bytes) (remote : list provider_record) (s : sync_state) : outcome (list provider_record) :=
  match obsolete with
  | [] => Done remote s
  | id :: obsolete =>
      match find_record id remote with
      | None => delete_obsolete obsolete remote s
      | Some found =>
          then_ (require_lease s) (fun _ s =>
            let '(w, failed) := delete_record client zone_id id (world_ s) in
            let s := call (CallDelete id) w s in
            match failed with
            | Some f => Failed f s
            | None => delete_obsolete obsolete (erase_record id remote) (note (record_deleted (to_attempt_record names domain found)) s)
            end)
      end
  end.

(** The driver's [reconcile_record]. *)
Record reconciled_record := Reconciled { action_ : record_reconciliation_action; remote_id_ : bytes; previous_ : option provider_record }.
Definition duplicate_records : failure :=
  ProviderFailure record_conflict (match client with
    | Cloudflare => lit "Cloudflare 中存在多条相同 DNS 记录，无法安全接管"
    | Aliyun => lit "阿里云 DNS 中存在多条相同线路解析记录，无法安全接管"
    end).
Definition reconcile_record (known : bytes) (desired : provider_record) (remote : list provider_record) (s : sync_state) : outcome reconciled_record :=
  match driver_plan client known desired remote with
  | None => Failed duplicate_records s
  | Some (reuse, Some record) => Done (Reconciled reuse (id_ record) (Some record)) s
  | Some (update, Some record) =>
      let '(w, result) := update_record client zone_id domain (id_ record) desired (world_ s) in
      let s := call (CallUpdate (id_ record) desired) w s in
      match result with inl id => Done (Reconciled update id (Some record)) s | inr f => Failed f s end
  | Some (action, previous) =>
      let '(w, result) := create_record client zone_id domain desired (world_ s) in
      let s := call (CallCreate desired) w s in
      match result with inl id => Done (Reconciled action id previous) s | inr f => Failed f s end
  end.

Definition previous_synced_revision (states : list zone_record_runtime_data) (id : bytes) : Z :=
  match List.find (fun state => bool_decide (state_id_ state = Some id)) states with
  | Some state => default 0 (synced_revision_ state)
  | None => 0
  end.
Definition place_resolved (resolved : provider_record) (remote : list provider_record) : list provider_record :=
  match list_find (fun record => id_ record = id_ resolved) remote with
  | Some (i, _) => <[i := resolved]> remote
  | None => remote ++ [resolved]
  end.
Definition with_id (id : bytes) (r : provider_record) : provider_record :=
  ProviderRecord id (type_ r) (name_ r) (content_ r) (ttl_ r) (priority_ r) (proxied_ r) (line_code_ r).
Definition note_reconciled (managed : zone_record_data) (r : reconciled_record) (a : zone_sync_attempt) : zone_sync_attempt :=
  match action_ r, previous_ r with
  | reuse, _ => record_unchanged a
  | update, Some previous => record_updated (to_attempt_record names domain previous) (local_attempt_record managed) a
  | _, _ => record_created (local_attempt_record managed) a
  end.
(** What one desired record comes to: its provider record, or the reason it stays behind. *)
Definition reconcile_one (known : gmap bytes bytes) (blocked : list unsynced_record) (managed : zone_record_data) (remote : list provider_record) (s : sync_state) :
    outcome (reconciled_record + bytes) :=
  then_ (require_lease s) (fun _ s =>
    match List.find (fun held => unsynced_id_ held == local_id_ managed) blocked with
    | Some held => Done (inr (error_ held)) s
    | None =>
        match reconcile_record (default [] (known !! local_id_ managed)) (to_remote_record names domain managed) remote s with
        | Done r s => Done (inl r) s
        | Failed (ProviderFailure record_name_conflict what) s => Done (inr what) s
        | Failed f s => Failed f s
        end
    end).
Record reconciled_zone := ReconciledZone { states_ : list zone_record_runtime_data; unsynced_ : list unsynced_record; remote_ : list provider_record }.
Definition synced_state (managed : zone_record_data) (remote_id : bytes) (revision : Z) : zone_record_runtime_data :=
  RecordState (Some (local_id_ managed)) (Some remote_id) (Some (lit "synced")) (Some revision) None true.
Definition failed_state (known : gmap bytes bytes) (runtime : list zone_record_runtime_data) (managed : zone_record_data) (error : bytes) : zone_record_runtime_data :=
  RecordState (Some (local_id_ managed)) (known !! local_id_ managed) (Some (lit "failed")) (Some (previous_synced_revision runtime (local_id_ managed))) (Some error) true.
(** [reconcile_zone_records] over the desired records. *)
Fixpoint reconcile_loop (known : gmap bytes bytes) (runtime : list zone_record_runtime_data) (blocked : list unsynced_record) (revision : Z)
    (desired : zone_config_data) (z : reconciled_zone) (s : sync_state) : outcome reconciled_zone :=
  match desired with
  | [] => Done z s
  | managed :: desired =>
      then_ (reconcile_one known blocked managed (remote_ z) s) (fun result s =>
        match result with
        | inr error =>
            reconcile_loop known runtime blocked revision desired
              (ReconciledZone (states_ z ++ [failed_state known runtime managed error])
                (unsynced_ z ++ [Unsynced (local_id_ managed) (local_name_of names domain managed) (record_type_ managed) error]) (remote_ z)) s
        | inl r =>
            reconcile_loop known runtime blocked revision desired
              (ReconciledZone (states_ z ++ [synced_state managed (remote_id_ r) revision]) (unsynced_ z)
                (place_resolved (with_id (remote_id_ r) (to_remote_record names domain managed)) (remote_ z)))
              (note (note_reconciled managed r) s)
        end)
  end.

(** A remote CNAME of the same owner and line is taken over when it is the only one. *)
Definition same_owner (record : zone_record_data) (remote : provider_record) : bool :=
  (type_ remote == lit "CNAME") && (line_code_ remote == record_line_ record) && (remote_name names domain (name_ remote) == remote_name names domain (record_name_ record)).
Definition cname_candidate (record : zone_record_data) (remote : list provider_record) : option provider_record :=
  match List.filter (same_owner record) remote with [candidate] => Some candidate | _ => None end.
Definition adopt_cnames (desired : zone_config_data) (remote : list provider_record) (known : gmap bytes bytes) : gmap bytes bytes :=
  fold_left (fun known record =>
    if (record_type_ record != lit "CNAME") || present (known !! local_id_ record) then known
    else match cname_candidate record remote with Some candidate => emplace (local_id_ record) (id_ candidate) known | None => known end) desired known.
(** The desired records and those of the provider that are no record's own. *)
Definition observed_record (r : provider_record) : zone_record_data :=
  ZoneRecord (id_ r) (type_ r) (name_ r) (content_ r) (ttl_ r) (priority_ r) (proxied_ r) (line_code_ r).
Definition managed_remote_ids (desired : zone_config_data) (known : gmap bytes bytes) : gset bytes := list_to_set (omap (fun record => known !! local_id_ record) desired).
Definition observed (desired : zone_config_data) (known : gmap bytes bytes) (remote : list provider_record) : zone_config_data :=
  desired ++ map observed_record (List.filter (fun record => negb (bool_decide (id_ record ∈ managed_remote_ids desired known))) remote).

Record zone_sync_state := ZoneSync {
  runtime_ : list zone_record_runtime_data; desired_ : zone_config_data; website_record_ids_ : gset bytes; cluster_hostnames_ : gset bytes; revision_ : Z; zone_deleted_ : bool }.
Definition short_ttl : failure := RuntimeFailure (lit "DNS 配置中的 TTL 低于当前服务商允许的最小值").
(** [sync_zone] from the loaded state and the provider's records to what is persisted. *)
Definition sync_zone (z : zone_sync_state) (remote : list provider_record) (s : sync_state) : outcome reconciled_zone :=
  if existsb (fun record => record_ttl_ record <? minimum_record_ttl client) (desired_ z) then Failed short_ttl s
  else
    let known := adopt_cnames (desired_ z) remote (collect_remote_ids_by_local_id (runtime_ z)) in
    let obsolete := obsolete_system_record_ids names domain (runtime_ z) (if zone_deleted_ z then [] else desired_ z) remote (cluster_hostnames_ z) in
    then_ (delete_obsolete (iterate obsolete) remote s) (fun remote s =>
      let blocked := find_blocked_website_records names domain (observed (desired_ z) known remote) (website_record_ids_ z) in
      if zone_deleted_ z then Done (ReconciledZone [] [] remote) s
      else reconcile_loop known (runtime_ z) blocked (revision_ z) (desired_ z) (ReconciledZone [] [] remote) s).
End Engine.

(** * What is persisted: snapshot.h *)

Definition editable_record_type (type : bytes) : bool := (type == lit "A") || (type == lit "AAAA") || (type == lit "CNAME") || (type == lit "TXT") || (type == lit "MX").
(** SHA-256, of thirty-two bytes, and a sort by a key, are the library's. *)
Class Digest := { sha256 : bytes -> list Z }.
Class SortById := { sort_by : forall A, (A -> option bytes) -> list A -> list A; sort_by_perm : forall A key (l : list A), sort_by A key l ≡ₚ l }.

Section Snapshot.
Context `{Digest} `{SortById}.
Definition hex_lower (n : Z) : ascii := nth (Z.to_nat n) (lit "0123456789abcdef") zero.
Definition snapshot_record_id (zone_id remote_id : bytes) : bytes :=
  let digest := sha256 (zone_id ++ lit ":" ++ remote_id) in
  let digest := alter (fun b => Z.lor (Z.land b 15) 128) 6%nat (alter (fun b => Z.lor (Z.land b 63) 128) 8%nat digest) in
  concat (imap (fun index b =>
    (if (index =? 4)%nat || (index =? 6)%nat || (index =? 8)%nat || (index =? 10)%nat then lit "-" else []) ++ [hex_lower (Z.shiftr b 4); hex_lower (Z.land b 15)])
    (take 16 digest)).

Record zone_line_runtime_data := LineState { line_code : option bytes; line_name : option bytes; line_display_name : option bytes; line_status : option bytes }.
Record zone_snapshot := Snapshot { snapshot_records_ : zone_config_data; snapshot_states_ : list zone_record_runtime_data; snapshot_lines_ : list zone_line_runtime_data }.
Definition previous_ids (previous : list zone_record_runtime_data) : gmap bytes bytes :=
  fold_left (fun m state => match managed_ state, state_id_ state, remote_record_id_ state with false, Some id, Some remote => emplace remote id m | _, _, _ => m end) previous ∅.
Definition snapshot_id (zone_id : bytes) (previous : gmap bytes bytes) (remote : provider_record) : bytes :=
  match previous !! id_ remote with Some id => id | None => snapshot_record_id zone_id (id_ remote) end.
Definition snapshot_kept (managed : gset bytes) (remote : provider_record) : bool := negb (bool_decide (id_ remote ∈ managed)) && editable_record_type (type_ remote).
Definition snapshot_error (remote_records : list provider_record) : option bytes :=
  if 10000 <? size remote_records then Some (lit "远程 DNS 记录超过单个域名可管理上限")
  else if existsb (fun record => empty (id_ record)) remote_records || negb (bool_decide (NoDup (map id_ remote_records))) then Some (lit "远程 DNS 记录 ID 为空或重复")
  else None.
Definition capture_zone_snapshot (names : bool) (zone_id domain : bytes) (remote_records : list provider_record) (lines : list provider_line)
    (previous managed_states : list zone_record_runtime_data) (revision : Z) : throwing zone_snapshot :=
  match snapshot_error remote_records with
  | Some message => Throws message
  | None =>
      let managed := list_to_set (omap remote_record_id_ managed_states) in
      let previous := previous_ids previous in
      let kept := List.filter (snapshot_kept managed) remote_records in
      let record_of remote := ZoneRecord (snapshot_id zone_id previous remote) (type_ remote) (local_record_name names (name_ remote) domain) (content_ remote) (ttl_ remote)
        (priority_ remote) (proxied_ remote) (line_code_ remote) in
      let state_of remote := RecordState (Some (snapshot_id zone_id previous remote)) (Some (id_ remote)) (Some (lit "synced")) (Some revision) None false in
      Returns (Snapshot (sort_by _ (fun r => Some (local_id_ r)) (map record_of kept)) (sort_by _ state_id_ (managed_states ++ map state_of kept))
        (map (fun line => LineState (Some (code_ line)) (Some (line_name_ line)) (Some (display_name_ line)) (Some (lit "enabled"))) lines))
  end.
End Snapshot.

(** * What a change request writes *)

Lemma records_by_id_lookup records id : records_by_id records !! id = List.find (fun record => local_id_ record == id) records.
Proof.
  unfold records_by_id. enough (Hgen : forall m, fold_left (fun m record => emplace (local_id_ record) record m) records m !! id =
    match m !! id with Some r => Some r | None => List.find (fun record => local_id_ record == id) records end) by (by rewrite Hgen, lookup_empty).
  induction records as [|record records IH]; intros m; cbn [fold_left List.find]; [by destruct (m !! id)|]. rewrite IH. unfold emplace.
  destruct (bool_decide_reflect (local_id_ record = id)) as [<-|Hne].
  - destruct (m !! local_id_ record) eqn:E; [by rewrite E|by rewrite lookup_insert_eq].
  - destruct (m !! local_id_ record) eqn:E; [done|by rewrite lookup_insert_ne].
Qed.
Lemma find_unique {A} (key : A -> bytes) (l : list A) a : NoDup (map key l) -> a ∈ l -> List.find (fun x => key x == key a) l = Some a.
Proof.
  induction l as [|x l IH]; intros Hn Ha; [by apply not_elem_of_nil in Ha|]. cbn [map] in Hn. apply NoDup_cons in Hn as [Hx Hn]. cbn [List.find].
  apply elem_of_cons in Ha as [->|Ha]; [by rewrite bool_decide_eq_true_2|]. rewrite bool_decide_eq_false_2; [by apply IH|]. intros E. apply Hx. rewrite E. by apply (list_elem_of_fmap_2 key).
Qed.
Lemma find_none_key {A} (key : A -> bytes) (l : list A) k : List.find (fun x => key x == k) l = None <-> k ∉ map key l.
Proof.
  induction l as [|x l IH]; cbn [List.find map]; [split; [intros _; apply not_elem_of_nil|done]|]. rewrite not_elem_of_cons. destruct (bool_decide_reflect (key x = k)) as [->|Hne].
  - split; [done|by intros [? _]].
  - rewrite IH. split; [intros ?; split; [congruence|done]|by intros [_ ?]].
Qed.
(** A change request writes the records that it adds or changes, removes those it drops, and leaves the
    unchanged ones to what was done with them at the provider. *)
Theorem record_changes_exact previous requested record : NoDup (map local_id_ previous) ->
  (record ∈ writes_ (plan_record_changes previous requested) <-> record ∈ requested /\ record ∉ previous) /\
  (record ∈ removals_ (plan_record_changes previous requested) <-> record ∈ previous /\ local_id_ record ∉ map local_id_ requested).
Proof.
  intros Hn. unfold plan_record_changes. cbn [writes_ removals_]. split.
  - rewrite list_elem_of_In, filter_In, <- list_elem_of_In, records_by_id_lookup. apply and_iff_compat_l.
    destruct (List.find (fun r => local_id_ r == local_id_ record) previous) as [found|] eqn:E.
    + apply find_some in E as [Hin Hid]. apply list_elem_of_In in Hin. apply bool_decide_eq_true in Hid. rewrite negb_true_iff, bool_decide_eq_false. split.
      * intros Hne Hr. pose proof (find_unique local_id_ previous record Hn Hr) as E1. pose proof (find_unique local_id_ previous found Hn Hin) as E2. rewrite Hid in E2. congruence.
      * intros Hno ->. done.
    + split; [|done]. intros _ Hr. apply find_none_key in E. apply E. by apply (list_elem_of_fmap_2 local_id_).
  - rewrite list_elem_of_In, filter_In, <- list_elem_of_In. apply and_iff_compat_l. unfold ids_of. by rewrite negb_true_iff, bool_decide_eq_false, elem_of_list_to_set.
Qed.

(** * What is held back *)

Section Blocked.
Context (names : bool) (domain : bytes).
Lemma blocking_types_spec record apex desired type : type ∈ blocking_types names domain record apex desired <->
  exists other, other ∈ desired /\ blocks names domain record other apex = true /\ record_type_ other = type.
Proof.
  unfold blocking_types. set (step := fun types other => if blocks names domain record other apex && negb (bool_decide (record_type_ other ∈ types)) then types ++ [record_type_ other] else types).
  enough (Hgen : forall types, type ∈ fold_left step desired types <-> type ∈ types \/ exists other, other ∈ desired /\ blocks names domain record other apex = true /\ record_type_ other = type)
    by (rewrite Hgen; split; [intros [Hn%not_elem_of_nil|?]; done|auto]).
  induction desired as [|other desired IH]; intros types; cbn [fold_left]; [split; [auto|]; intros [?|(o & Ho%not_elem_of_nil & _)]; done|]. rewrite IH.
  assert (Hstep : type ∈ step types other <-> type ∈ types \/ blocks names domain record other apex = true /\ record_type_ other = type).
  { unfold step. destruct (blocks names domain record other apex); cbn [andb]; [|naive_solver]. destruct (bool_decide_reflect (record_type_ other ∈ types)) as [Hin|Hin]; cbn [negb]; [naive_solver|].
    rewrite elem_of_app, list_elem_of_singleton. naive_solver. }
  rewrite Hstep. setoid_rewrite elem_of_cons. naive_solver.
Qed.
Lemma blocking_types_nil record apex desired : blocking_types names domain record apex desired = [] <-> forall other, other ∈ desired -> blocks names domain record other apex = false.
Proof.
  split.
  - intros E other Ho. apply not_true_iff_false. intros Hb. assert (record_type_ other ∈ blocking_types names domain record apex desired) as Hin by (apply blocking_types_spec; eauto).
    rewrite E in Hin. by apply not_elem_of_nil in Hin.
  - intros Hall. destruct (blocking_types names domain record apex desired) as [|t types] eqn:E; [done|]. exfalso.
    assert (t ∈ blocking_types names domain record apex desired) as (other & Ho & Hb & _)%blocking_types_spec by (rewrite E; set_solver). by rewrite Hall in Hb.
Qed.
(** Whether the other records let a record stand at its name. *)
Definition is_blocked (desired : zone_config_data) (website_record_ids : gset bytes) (record : zone_record_data) : Prop :=
  record_type_ record = lit "CNAME" /\ local_id_ record ∈ website_record_ids /\
  exists other, other ∈ desired /\ blocks names domain record other (local_name_of names domain record == lit "@") = true.
(** Exactly the website CNAMEs are held back whose name another record of their line has, one that a
    CNAME cannot stand beside and that does not say the same. *)
Lemma blocked_exact desired website_record_ids id : id ∈ map unsynced_id_ (find_blocked_website_records names domain desired website_record_ids) <->
  exists record, record ∈ desired /\ local_id_ record = id /\ is_blocked desired website_record_ids record.
Proof.
  unfold find_blocked_website_records. rewrite list_elem_of_fmap. setoid_rewrite list_elem_of_omap. split.
  - intros (u & -> & record & Hin & E). exists record. split; [done|]. destruct (_ || _) eqn:Et; [done|]. rewrite orb_false_iff, !negb_false_iff, !bool_decide_eq_true in Et. destruct Et as [Et Hw].
    destruct (blocking_types _ _ _ _ _) as [|t types] eqn:Eb; [done|]. injection E as <-. split; [done|]. split; [done|]. split; [done|].
    assert (t ∈ blocking_types names domain record (local_name_of names domain record == lit "@") desired) as (other & Ho & Hb & _)%blocking_types_spec by (rewrite Eb; set_solver). by exists other.
  - intros (record & Hin & <- & Et & Hw & other & Ho & Hb).
    destruct (blocking_types names domain record (local_name_of names domain record == lit "@") desired) as [|t types] eqn:Eb.
    + apply (proj1 (blocking_types_nil _ _ _) Eb) in Ho. by rewrite Ho in Hb.
    + exists (Unsynced (local_id_ record) (local_name_of names domain record) (record_type_ record) (blocked_error (local_name_of names domain record) (t :: types))).
      split; [done|]. exists record. split; [done|]. rewrite (bool_decide_eq_true_2 _ Et), (bool_decide_eq_true_2 _ Hw). cbn [negb orb]. by rewrite Eb.
Qed.
End Blocked.

(** * What the engine deletes *)

Section EngineTheory.
Context `{AddressEquality} `{DnsWorld} `{SetOrder}.
Context (client : dns_provider_client) (zone_id domain : bytes).
Abbreviation names := (fully_qualified_ client).

Lemma require_lease_calls s : calls_ (state_of (require_lease s)) = calls_ s /\ attempt_ (state_of (require_lease s)) = attempt_ s.
Proof. unfold require_lease. destruct (renew_running_lease (world_ s)) as [w held]. by destruct held. Qed.
Definition left_after (ids : list bytes) (remote : list provider_record) : list provider_record := List.filter (fun record => negb (bool_decide (id_ record ∈ ids))) remote.
Lemma left_after_cons id ids remote : left_after (id :: ids) remote = left_after ids (erase_record id remote).
Proof.
  unfold left_after, erase_record. induction remote as [|r remote IH]; [done|]. cbn [List.filter].
  destruct (bool_decide_reflect (id_ r = id)) as [<-|Hne]; cbn [negb].
  - rewrite bool_decide_eq_true_2 by set_solver. cbn [negb]. exact IH.
  - cbn [List.filter]. destruct (bool_decide_reflect (id_ r ∈ ids)) as [Hin|Hin].
    + rewrite bool_decide_eq_true_2 by set_solver. cbn [negb]. exact IH.
    + rewrite bool_decide_eq_false_2 by set_solver. cbn [negb]. by rewrite IH.
Qed.
Lemma erase_absent id remote : find_record id remote = None -> erase_record id remote = remote.
Proof.
  unfold find_record, erase_record. rewrite find_none_key. induction remote as [|r remote IH]; [done|]. cbn [map List.filter]. rewrite not_elem_of_cons. intros [Hne Hn].
  rewrite bool_decide_eq_false_2 by done. cbn [negb]. by rewrite IH.
Qed.
Lemma delete_obsolete_exact ids : forall remote s, let o := delete_obsolete client zone_id domain ids remote s in
  (exists added, calls_ (state_of o) = calls_ s ++ map CallDelete added /\ forall id, id ∈ added -> id ∈ ids /\ id ∈ map id_ remote) /\
  (forall remaining s', o = Done remaining s' -> remaining = left_after ids remote).
Proof.
  induction ids as [|id ids IH]; intros remote s; cbn [delete_obsolete]; cbv zeta.
  - split; [exists []; rewrite app_nil_r; split; [done|]; by intros id Hin%not_elem_of_nil|]. intros remaining s' [= -> _].
    unfold left_after. induction remaining as [|r l IHl]; [done|]. cbn [List.filter]. rewrite bool_decide_eq_false_2 by apply not_elem_of_nil. cbn [negb]. by rewrite <- IHl.
  - destruct (find_record id remote) as [found|] eqn:Ef.
    + destruct (find_some _ _ Ef) as [Hin Hid]. apply list_elem_of_In in Hin. apply bool_decide_eq_true in Hid.
      assert (id ∈ map id_ remote) as Hidin by (rewrite <- Hid; by apply (list_elem_of_fmap_2 id_)).
      pose proof (require_lease_calls s) as [Ec _]. destruct (require_lease s) as [[] s1|f s1]; cbn [then_ state_of] in *.
      2: { split; [exists []; rewrite app_nil_r, Ec; split; [done|]; by intros id' Hi%not_elem_of_nil|done]. }
      destruct (delete_record client zone_id id (world_ s1)) as [w failed]. destruct failed as [f|]; cbn [state_of].
      * split; [|done]. exists [id]. cbn [call calls_]. rewrite Ec. split; [done|]. intros id' ->%list_elem_of_singleton. set_solver.
      * match goal with |- context [delete_obsolete _ _ _ ids (erase_record id remote) ?st] => destruct (IH (erase_record id remote) st) as [(added & Ea & Hadded) Hdone] end.
        cbn [note call calls_] in Ea. split.
        -- exists (id :: added). rewrite Ea, Ec, <- app_assoc. split; [done|]. intros id' [->|Hi]%elem_of_cons; [set_solver|]. destruct (Hadded id' Hi) as [? Hr]. split; [set_solver|].
           apply list_elem_of_fmap in Hr as (r & -> & Hr). apply (list_elem_of_fmap_2 id_). unfold erase_record in Hr. apply list_elem_of_In, filter_In in Hr as [Hr _]. by apply list_elem_of_In.
        -- intros remaining s' E. rewrite left_after_cons. by apply (Hdone remaining s').
    + destruct (IH remote s) as [(added & Ea & Hadded) Hdone]. split; [exists added; split; [done|]; intros id' Hi; destruct (Hadded id' Hi); set_solver|].
      intros remaining s' E. rewrite left_after_cons, erase_absent by done. by apply (Hdone remaining s').
Qed.

Definition is_delete (c : provider_call) : bool := match c with CallDelete _ => true | _ => false end.
Lemma reconcile_one_calls known blocked managed remote s : exists added, calls_ (state_of (reconcile_one client zone_id domain known blocked managed remote s)) = calls_ s ++ added /\
  Forall (fun c => is_delete c = false) added.
Proof.
  unfold reconcile_one. pose proof (require_lease_calls s) as [Ec _]. destruct (require_lease s) as [[] s1|f s1]; cbn [then_ state_of] in *; [|exists []; by rewrite app_nil_r].
  destruct (List.find _ blocked) as [held|]; [exists []; by rewrite app_nil_r|].
  assert (exists added, calls_ (state_of (reconcile_record client zone_id domain (default [] (known !! local_id_ managed)) (to_remote_record names domain managed) remote s1)) = calls_ s1 ++ added /\
    Forall (fun c => is_delete c = false) added) as (added & Ea & Hadded).
  { unfold reconcile_record. destruct (driver_plan _ _ _ _) as [[action [record|]]|]; [destruct action| |exists []; by rewrite app_nil_r].
    - exists []. by rewrite app_nil_r.
    - destruct (update_record _ _ _ _ _ _) as [w r]. destruct r; eexists [_]; cbn; by split; [|repeat constructor].
    - destruct (create_record _ _ _ _ _) as [w r]. destruct r; eexists [_]; cbn; by split; [|repeat constructor].
    - assert (forall (action : record_reconciliation_action), exists added, calls_ (state_of (let '(w, result) := create_record client zone_id domain (to_remote_record names domain managed) (world_ s1) in
        let s := call (CallCreate (to_remote_record names domain managed)) w s1 in
        match result with inl id => Done (Reconciled action id None) s | inr f => Failed f s end)) = calls_ s1 ++ added /\ Forall (fun c => is_delete c = false) added) as Hc.
      { intros a. destruct (create_record _ _ _ _ _) as [w r]. destruct r; eexists [_]; cbn; by split; [|repeat constructor]. }
      destruct action; apply Hc. }
  exists added. rewrite <- Ec. split; [|done]. rewrite <- Ea. destruct (reconcile_record _ _ _ _ _ _ _) as [r s2|f s2]; [done|]. destruct f as [code what|what]; [by destruct code|done].
Qed.
Lemma reconcile_loop_calls known runtime blocked revision desired : forall z s,
  exists added, calls_ (state_of (reconcile_loop client zone_id domain known runtime blocked revision desired z s)) = calls_ s ++ added /\ Forall (fun c => is_delete c = false) added.
Proof.
  induction desired as [|managed desired IH]; intros z s; cbn [reconcile_loop]; [exists []; by rewrite app_nil_r|].
  destruct (reconcile_one_calls known blocked managed (remote_ z) s) as (a1 & E1 & H1'). destruct (reconcile_one _ _ _ _ _ _ _ s) as [result s1|f s1]; cbn [then_ state_of] in *; [|by exists a1].
  destruct result as [r|error].
  - match goal with |- context [reconcile_loop _ _ _ _ _ _ _ desired ?z' ?s'] => destruct (IH z' s') as (a2 & E2 & H2') end.
    exists (a1 ++ a2). rewrite E2. cbn [note calls_]. rewrite E1, <- app_assoc. split; [done|]. by apply Forall_app.
  - match goal with |- context [reconcile_loop _ _ _ _ _ _ _ desired ?z' ?s'] => destruct (IH z' s') as (a2 & E2 & H2') end.
    exists (a1 ++ a2). rewrite E2, E1, <- app_assoc. split; [done|]. by apply Forall_app.
Qed.

(** ** Only what is FlexEdge's own is deleted *)

Definition desired_now (z : zone_sync_state) : zone_config_data := if zone_deleted_ z then [] else desired_ z.
(** A state of a business record that was written under this id. *)
Definition written_as (z : zone_sync_state) (id : bytes) (state : zone_record_runtime_data) (local : bytes) : Prop :=
  state ∈ runtime_ z /\ managed_ state = true /\ state_id_ state = Some local /\ remote_record_id_ state = Some id.
Definition stale_cluster_record (z : zone_sync_state) (record : provider_record) : Prop :=
  cluster_record names domain (cluster_hostnames_ z) record = true /\ expected names domain (desired_now z) record = false.
Lemma managed_ids_spec active keep states id : id ∈ managed_ids active keep states <->
  exists state local, state ∈ states /\ managed_ state = true /\ state_id_ state = Some local /\ remote_record_id_ state = Some id /\ bool_decide (local ∈ active) = keep.
Proof.
  unfold managed_ids. rewrite elem_of_list_to_set, list_elem_of_omap. split.
  - intros (state & Hin & E). exists state. destruct (managed_ state); [|done]. destruct (state_id_ state) as [local|]; [|done]. destruct (remote_record_id_ state) as [remote|]; [|done].
    exists local. destruct (Bool.eqb _ keep) eqn:Ek; [|done]. injection E as ->. by apply eqb_prop in Ek.
  - intros (state & local & Hin & Hm & Hl & Hr & Hk). exists state. split; [done|]. rewrite Hm, Hl, Hr, Hk. by rewrite eqb_reflx.
Qed.
Lemma cluster_ids_spec desired hosts keep remote id : id ∈ cluster_ids names domain desired hosts keep remote <->
  exists record, record ∈ remote /\ id_ record = id /\ cluster_record names domain hosts record = true /\ expected names domain desired record = keep.
Proof.
  unfold cluster_ids. rewrite elem_of_list_to_set, list_elem_of_fmap. split.
  - intros (record & -> & Hin). apply list_elem_of_In, filter_In in Hin as [Hin [Hc Hk]%andb_true_iff]. exists record. apply list_elem_of_In in Hin. by apply eqb_prop in Hk.
  - intros (record & Hin & <- & Hc & Hk). exists record. split; [done|]. apply list_elem_of_In, filter_In. split; [by apply list_elem_of_In|]. rewrite Hc, Hk. by rewrite eqb_reflx.
Qed.
Lemma ids_of_spec desired local : local ∈ ids_of desired <-> local ∈ map local_id_ desired.
Proof. apply elem_of_list_to_set. Qed.
Lemma obsolete_exact z remote id : id ∈ obsolete_system_record_ids names domain (runtime_ z) (desired_now z) remote (cluster_hostnames_ z) <->
  ((exists state local, written_as z id state local /\ local ∉ map local_id_ (desired_now z)) \/ (exists record, record ∈ remote /\ id_ record = id /\ stale_cluster_record z record)) /\
  (forall state local, written_as z id state local -> local ∉ map local_id_ (desired_now z)) /\
  (forall record, record ∈ remote -> id_ record = id -> cluster_record names domain (cluster_hostnames_ z) record = true -> expected names domain (desired_now z) record = false).
Proof.
  unfold obsolete_system_record_ids. rewrite elem_of_difference, !elem_of_union, !managed_ids_spec, !cluster_ids_spec. unfold written_as, stale_cluster_record. split.
  - intros [Hob Hre]. split; [|split].
    + destruct Hob as [(state & local & ? & ? & ? & ? & Hk)|(record & ? & ? & ? & ?)]; [left; exists state, local|right; by exists record]. split; [done|].
      apply bool_decide_eq_false in Hk. by rewrite ids_of_spec in Hk.
    + intros state local (? & ? & ? & ?) Hl. apply Hre. left. exists state, local. repeat (split; [done|]). apply bool_decide_eq_true. by rewrite ids_of_spec.
    + intros record ? ? ?. apply not_true_iff_false. intros ?. apply Hre. right. by exists record.
  - intros (Hob & Hs & Hc). split.
    + destruct Hob as [(state & local & (? & ? & ? & ?) & Hl)|(record & ? & ? & ? & ?)]; [left; exists state, local|right; by exists record]. repeat (split; [done|]).
      apply bool_decide_eq_false. by rewrite ids_of_spec.
    + intros [(state & local & ? & ? & ? & ? & Hk)|(record & ? & ? & Hcl & He)].
      * apply bool_decide_eq_true in Hk. rewrite ids_of_spec in Hk. by apply (Hs state local).
      * by rewrite (Hc record) in He.
Qed.
(** The calls of an attempt: deletions of obsolete records of the provider, then the rest. *)
Lemma sync_zone_calls z remote s : exists deleted others, calls_ (state_of (sync_zone client zone_id domain z remote s)) = calls_ s ++ map CallDelete deleted ++ others /\
  Forall (fun c => is_delete c = false) others /\
  forall id, id ∈ deleted -> id ∈ map id_ remote /\ id ∈ obsolete_system_record_ids names domain (runtime_ z) (desired_now z) remote (cluster_hostnames_ z).
Proof.
  unfold sync_zone. destruct (existsb _ _); [exists [], []; rewrite app_nil_r; split; [done|]; split; [done|]; by intros id Hi%not_elem_of_nil|]. cbv zeta. fold (desired_now z).
  set (obsolete := obsolete_system_record_ids names domain (runtime_ z) (desired_now z) remote (cluster_hostnames_ z)).
  destruct (delete_obsolete_exact (iterate obsolete) remote s) as [(deleted & Ed & Hd) _].
  assert (Hdel : forall id, id ∈ deleted -> id ∈ map id_ remote /\ id ∈ obsolete).
  { intros id Hi. destruct (Hd id Hi) as [Ho Hr]. split; [done|]. rewrite (iterate_perm obsolete) in Ho. by apply elem_of_elements in Ho. }
  destruct (delete_obsolete _ _ _ (iterate obsolete) remote s) as [left s1|f s1]; cbn [then_ state_of] in *; [|exists deleted, []; by rewrite app_nil_r].
  destruct (zone_deleted_ z); [exists deleted, []; by rewrite app_nil_r|].
  match goal with |- context [reconcile_loop _ _ _ ?k ?r ?b ?v ?d ?z' ?s'] => destruct (reconcile_loop_calls k r b v d z' s') as (others & E & Ho) end.
  exists deleted, others. rewrite E, Ed, <- app_assoc. by split.
Qed.

(** C13. An attempt asks the provider to delete a record only if it is there and is FlexEdge's own: written for a
    business record that is wanted no more, or an address at a hostname of the cluster that no record
    asks for; never one that was written for a record still wanted. The user's own records stay. *)
Theorem deletions_safe z remote s id : CallDelete id ∈ calls_ (state_of (sync_zone client zone_id domain z remote s)) -> CallDelete id ∉ calls_ s ->
  (exists record, record ∈ remote /\ id_ record = id) /\
  ((exists state local, written_as z id state local /\ local ∉ map local_id_ (desired_now z)) \/ (exists record, record ∈ remote /\ id_ record = id /\ stale_cluster_record z record)) /\
  (forall state local, written_as z id state local -> local ∉ map local_id_ (desired_now z)).
Proof.
  intros Hin Hs. destruct (sync_zone_calls z remote s) as (deleted & others & E & Ho & Hd). rewrite E in Hin. apply elem_of_app in Hin as [Hin|Hin]; [done|]. apply elem_of_app in Hin as [Hin|Hin].
  - apply list_elem_of_fmap in Hin as (id' & [= <-] & Hi). destruct (Hd id Hi) as [Hr Hob]. apply obsolete_exact in Hob as (H1' & H2' & H3').
    apply list_elem_of_fmap in Hr as (record & -> & Hr). by split; [exists record|].
  - rewrite Forall_forall in Ho. by specialize (Ho _ Hin).
Qed.

(** * A second attempt has nothing to do *)

(** ** What a loop without failures did *)

Abbreviation resolved d rid := (with_id rid (to_remote_record names domain d)).
Definition takes (known : gmap bytes bytes) (d : zone_record_data) (remote : list provider_record) (rid : bytes) : Prop :=
  match driver_plan client (default [] (known !! local_id_ d)) (to_remote_record names domain d) remote with
  | Some (create, _) => True
  | Some (_, Some record) => rid = id_ record
  | Some (_, None) => True
  | None => False
  end.
Definition unheld (blocked : list unsynced_record) (d : zone_record_data) : Prop := local_id_ d ∉ map unsynced_id_ blocked.
Inductive reconciled_all (known : gmap bytes bytes) (blocked : list unsynced_record) : zone_config_data -> list bytes -> list provider_record -> list provider_record -> Prop :=
  | reconciled_nil remote : reconciled_all known blocked [] [] remote remote
  | reconciled_cons d desired rid rids remote remote' : unheld blocked d -> takes known d remote rid ->
      reconciled_all known blocked desired rids (place_resolved (resolved d rid) remote) remote' -> reconciled_all known blocked (d :: desired) (rid :: rids) remote remote'.

(** A provider updates a record in its place. *)
Definition update_in_place : Prop := forall zone dom id r w w' id', update_record client zone dom id r w = (w', inl id') -> id' = id.
Lemma held_none blocked d : List.find (fun held => unsynced_id_ held == local_id_ d) blocked = None <-> unheld blocked d.
Proof. apply (find_none_key unsynced_id_). Qed.
Lemma reconcile_one_done (Hupd : update_in_place) known blocked d remote s r s' : reconcile_one client zone_id domain known blocked d remote s = Done (inl r) s' ->
  unheld blocked d /\ takes known d remote (remote_id_ r).
Proof.
  unfold reconcile_one. destruct (require_lease s) as [[] s1|]; cbn [then_]; [|done]. destruct (List.find _ blocked) as [held|] eqn:Eh; [done|]. apply held_none in Eh.
  unfold takes. destruct (reconcile_record _ _ _ _ _ _ _) as [r' s2|f s2] eqn:Er; [|destruct f as [code what|what]; [by destruct code|done]]. intros [= <- <-]. split; [done|].
  unfold reconcile_record in Er. destruct (driver_plan _ _ _ _) as [[action [record|]]|]; [destruct action| |done].
  - by injection Er as <- <-.
  - destruct (update_record _ _ _ _ _ _) as [w [id|f]] eqn:Eu; [|done]. injection Er as <- <-. cbn. by apply Hupd in Eu.
  - done.
  - destruct action; destruct (create_record _ _ _ _ _) as [w [id|f]]; done.
Qed.
Lemma reconcile_loop_done (Hupd : update_in_place) known runtime blocked revision desired : forall z s z' s',
  reconcile_loop client zone_id domain known runtime blocked revision desired z s = Done z' s' -> unsynced_ z' = [] ->
  unsynced_ z = [] /\ exists rids, states_ z' = states_ z ++ zip_with (fun d rid => synced_state d rid revision) desired rids /\ reconciled_all known blocked desired rids (remote_ z) (remote_ z').
Proof.
  induction desired as [|d desired IH]; intros z s z' s' E Hun; cbn [reconcile_loop] in E.
  - injection E as <- <-. split; [done|]. exists []. rewrite app_nil_r. split; [done|constructor].
  - destruct (reconcile_one client zone_id domain known blocked d (remote_ z) s) as [[r|error] s1|f s1] eqn:E1; cbn [then_] in E; [| |done].
    + destruct (reconcile_one_done Hupd _ _ _ _ _ _ _ E1) as [Hb Ht]. destruct (IH _ _ _ _ E Hun) as (H1' & rids & H2' & H3'). cbn [unsynced_ states_ remote_] in *. split; [done|].
      exists (remote_id_ r :: rids). split; [by rewrite H2', <- app_assoc|by constructor].
    + destruct (IH _ _ _ _ E Hun) as (H1' & _). cbn [unsynced_] in H1'. by destruct (unsynced_ z).
Qed.

(** ** The provider's records after it *)

Lemma place_resolved_elem r remote r' : r' ∈ place_resolved r remote -> r' = r \/ r' ∈ remote.
Proof.
  unfold place_resolved. destruct (list_find _ remote) as [[i x]|].
  - intros [j Hj]%list_elem_of_lookup_1. destruct (decide (i = j)) as [->|Hne].
    + apply list_lookup_insert_Some in Hj as [(_ & -> & _)|[Hne _]]; [by left|done].
    + rewrite list_lookup_insert_ne in Hj by done. right. by apply list_elem_of_lookup_2 in Hj.
  - rewrite elem_of_app, list_elem_of_singleton. tauto.
Qed.
Lemma place_resolved_ids r remote : id_ r ∈ map id_ (place_resolved r remote) /\ (forall id, id ∈ map id_ remote -> id ∈ map id_ (place_resolved r remote)).
Proof.
  unfold place_resolved. destruct (list_find _ remote) as [[i x]|] eqn:E.
  - apply list_find_Some in E as (Hi & Hx & _). assert (Em : map id_ (<[i := r]> remote) = map id_ remote).
    { change (map id_) with (fmap (M := list) id_). rewrite list_fmap_insert. apply list_insert_id. by rewrite list_lookup_fmap, Hi, <- Hx. }
    rewrite Em. split; [|done]. rewrite <- Hx. apply (list_elem_of_fmap_2 id_). by apply list_elem_of_lookup_2 in Hi.
  - rewrite map_app. split; [set_solver|]. intros id Hid. set_solver.
Qed.
Lemma find_record_lookup id remote r : find_record id remote = Some r <-> exists i, list_find (fun x => id_ x = id) remote = Some (i, r).
Proof.
  unfold find_record. induction remote as [|x remote IH]; cbn [List.find list_find]; [split; [done|by intros [? ?]]|].
  destruct (bool_decide_reflect (id_ x = id)) as [He|Hne].
  - rewrite decide_True by done. split; [intros [= ->]; by exists 0%nat|by intros (i & [= _ ->])].
  - rewrite decide_False by done. rewrite IH. split; intros (i & E).
    + exists (S i). by rewrite E.
    + destruct (list_find _ remote) as [[j y]|]; [|done]. injection E as <- ->. by exists j.
Qed.
Lemma place_resolved_find r remote : find_record (id_ r) (place_resolved r remote) = Some r /\ (forall id, id <> id_ r -> find_record id (place_resolved r remote) = find_record id remote).
Proof.
  unfold place_resolved. induction remote as [|x remote [IH1 IH2]]; cbn [list_find].
  - cbn. rewrite bool_decide_eq_true_2 by done. split; [done|]. intros id Hne. by rewrite bool_decide_eq_false_2.
  - destruct (decide (id_ x = id_ r)) as [Ex|Hx].
    + cbn [insert list_insert find_record List.find]. unfold find_record. cbn [List.find]. rewrite bool_decide_eq_true_2 by done. split; [done|]. intros id Hne.
      rewrite !bool_decide_eq_false_2 by congruence. done.
    + destruct (list_find (fun record => id_ record = id_ r) remote) as [[i y]|]; cbn [fmap option_fmap option_map prod_map insert list_insert app];
        unfold find_record in *; cbn [List.find]; rewrite bool_decide_eq_false_2 by done; (split; [done|]; intros id Hne; destruct (bool_decide (id_ x = id)); [done|by apply IH2]).
Qed.
Lemma place_resolved_same r remote : find_record (id_ r) remote = Some r -> place_resolved r remote = remote.
Proof.
  intros (i & E)%find_record_lookup. unfold place_resolved. rewrite E. apply list_insert_id. by apply list_find_Some in E as (Hi & _).
Qed.

Lemma reconciled_length known blocked desired rids remote remote' : reconciled_all known blocked desired rids remote remote' -> length rids = length desired.
Proof. induction 1 as [|d desired rid rids remote remote' _ _ _ IH]; [done|]. cbn. by rewrite IH. Qed.
(** Each record is where it was written, unless another one was written there. *)
Lemma reconciled_find known blocked desired rids remote remote' : reconciled_all known blocked desired rids remote remote' -> NoDup rids ->
  (forall id, id ∉ rids -> find_record id remote' = find_record id remote) /\
  (forall d rid, (d, rid) ∈ zip desired rids -> find_record rid remote' = Some (resolved d rid)).
Proof.
  induction 1 as [remote|d desired rid rids remote remote' _ _ _ IH]; intros Hn; [split; [done|]; by intros d rid Hi%not_elem_of_nil|].
  apply NoDup_cons in Hn as [Hrid Hn]. destruct (IH Hn) as [IH1 IH2]. destruct (place_resolved_find (resolved d rid) remote) as [P1 P2]. cbn [id_ with_id] in P1, P2. split.
  - intros id [Hne Hid]%not_elem_of_cons. rewrite IH1 by done. by apply P2.
  - intros d' rid' [[= -> ->]|Hi]%elem_of_cons; [by rewrite IH1|by apply IH2].
Qed.
Lemma reconciled_from known blocked desired rids remote remote' : reconciled_all known blocked desired rids remote remote' ->
  forall r, r ∈ remote' -> id_ r ∈ rids \/ r ∈ remote.
Proof.
  induction 1 as [remote|d desired rid rids remote remote' _ _ _ IH]; intros r Hr; [by right|]. destruct (IH r Hr) as [?|Hp]; [left; set_solver|].
  apply place_resolved_elem in Hp as [->|?]; [left; set_solver|by right].
Qed.
(** A record that is known by its id and is there is written in its place. *)
Lemma reconciled_known known blocked desired rids remote remote' : reconciled_all known blocked desired rids remote remote' ->
  forall d id, d ∈ desired -> known !! local_id_ d = Some id -> id <> [] -> id ∈ map id_ remote -> id ∈ rids.
Proof.
  induction 1 as [remote|d desired rid rids remote remote' _ Ht _ IH]; intros d' id Hd Hk Hne Hid; [by apply not_elem_of_nil in Hd|]. apply elem_of_cons in Hd as [->|Hd].
  - unfold takes, driver_plan, plan_record_reconciliation in Ht. rewrite Hk in Ht. change (default [] (Some id)) with id in Ht. destruct id as [|c id]; [done|]. cbn [empty] in Ht.
    destruct (List.find (fun record => id_ record == c :: id) remote) as [record|] eqn:Ef; [|by apply (find_none_key id_) in Ef].
    apply find_some in Ef as [_ Ei]. apply bool_decide_eq_true in Ei. unfold take_over in Ht. rewrite <- Ei. destruct (matches_desired client record _); subst rid; set_solver.
  - apply elem_of_cons. right. apply (IH d' id); try done. by apply place_resolved_ids.
Qed.

(** ** The second attempt *)

Lemma collect_lookup states id : collect_remote_ids_by_local_id states !! id =
  head (omap (fun state => match state_id_ state, remote_record_id_ state with Some i, Some r => if bool_decide (i = id) then Some r else None | _, _ => None end) states).
Proof.
  unfold collect_remote_ids_by_local_id. set (step := fun m state => match state_id_ state, remote_record_id_ state with Some id, Some remote => emplace id remote m | _, _ => m end).
  set (pick := fun state => match state_id_ state, remote_record_id_ state with Some i, Some r => if bool_decide (i = id) then Some r else None | _, _ => None end).
  enough (Hgen : forall m : gmap bytes bytes, fold_left step states m !! id = match m !! id with Some r => Some r | None => head (omap pick states) end) by (by rewrite Hgen, lookup_empty).
  induction states as [|state states IH]; intros m; cbn [fold_left omap list_omap]; [by destruct (m !! id)|]. rewrite IH.
  unfold step, pick, emplace. destruct (state_id_ state) as [i|]; [|done]. destruct (remote_record_id_ state) as [r|]; [|done].
  destruct (bool_decide_reflect (i = id)) as [->|Hne]; cbn [head].
  - destruct (m !! id) eqn:Em; [by rewrite Em|by rewrite lookup_insert_eq].
  - destruct (m !! i); [done|by rewrite lookup_insert_ne].
Qed.
Lemma collect_Some states id r : collect_remote_ids_by_local_id states !! id = Some r -> exists state, state ∈ states /\ state_id_ state = Some id /\ remote_record_id_ state = Some r.
Proof.
  rewrite collect_lookup. intros E. apply head_Some_elem_of in E. apply list_elem_of_omap in E as (state & Hin & E). exists state. split; [done|].
  destruct (state_id_ state) as [i|]; [|done]. destruct (remote_record_id_ state) as [r'|]; [|done]. destruct (bool_decide_reflect (i = id)) as [->|]; [|done]. by injection E as ->.
Qed.
Lemma collect_unique states id r : (exists state, state ∈ states /\ state_id_ state = Some id /\ remote_record_id_ state = Some r) ->
  (forall state, state ∈ states -> state_id_ state = Some id -> remote_record_id_ state = Some r) -> collect_remote_ids_by_local_id states !! id = Some r.
Proof.
  intros (state & Hin & Hid & Hr) Huniq. destruct (collect_remote_ids_by_local_id states !! id) as [r'|] eqn:E.
  - apply collect_Some in E as (state' & Hin' & Hid' & Hr'). rewrite (Huniq state' Hin' Hid') in Hr'. by rewrite Hr'.
  - rewrite collect_lookup in E. assert (r ∈ omap (fun state => match state_id_ state, remote_record_id_ state with Some i, Some r => if bool_decide (i = id) then Some r else None | _, _ => None end) states) as Ho.
    { apply list_elem_of_omap. exists state. split; [done|]. by rewrite Hid, Hr, bool_decide_eq_true_2. }
    destruct (omap _ states); [by apply not_elem_of_nil in Ho|done].
Qed.
Lemma emplace_lookup {V} (k k' : bytes) (v x : V) (m : gmap bytes V) : m !! k' = Some x -> emplace k v m !! k' = Some x.
Proof. intros E. unfold emplace. destruct (m !! k) eqn:Ek; [done|]. rewrite lookup_insert_ne; [done|congruence]. Qed.
Lemma adopt_keeps desired remote : forall known id r, known !! id = Some r -> adopt_cnames client domain desired remote known !! id = Some r.
Proof.
  unfold adopt_cnames. induction desired as [|d desired IH]; intros known id r E; cbn [fold_left]; [done|]. apply IH. destruct (_ || _); [done|].
  destruct (cname_candidate _ _ _ _); [by apply emplace_lookup|done].
Qed.
Lemma adopt_present desired remote known : (forall d, d ∈ desired -> is_Some (known !! local_id_ d)) -> adopt_cnames client domain desired remote known = known.
Proof.
  unfold adopt_cnames. induction desired as [|d desired IH]; intros Hall; cbn [fold_left]; [done|]. destruct (Hall d) as [r E]; [set_solver|]. rewrite E. cbn [present]. rewrite orb_true_r.
  apply IH. intros d' Hd'. apply Hall. set_solver.
Qed.
Lemma delete_absent ids remote s : (forall id, id ∈ ids -> id ∉ map id_ remote) -> delete_obsolete client zone_id domain ids remote s = Done remote s.
Proof.
  induction ids as [|id ids IH]; intros Hall; cbn [delete_obsolete]; [done|]. assert (find_record id remote = None) as -> by (apply (find_none_key id_), Hall; set_solver).
  apply IH. intros id' Hi. apply Hall. set_solver.
Qed.

(** The provider takes a record to say what was written: its addresses are addresses. *)
Definition says_itself (d : zone_record_data) : Prop := forall rid, matches_desired client (resolved d rid) (to_remote_record names domain d) = true.
Definition lease_holds : Prop := forall w, (renew_running_lease w).2 = true.
Lemma reconcile_loop_quiet (Hlease : lease_holds) known runtime blocked revision remote desired : forall rids z s, remote_ z = remote -> length rids = length desired ->
  (forall d rid, (d, rid) ∈ zip desired rids -> unheld blocked d /\ known !! local_id_ d = Some rid /\ rid <> [] /\ find_record rid remote = Some (resolved d rid) /\ says_itself d) ->
  exists z' s', reconcile_loop client zone_id domain known runtime blocked revision desired z s = Done z' s' /\ z' = ReconciledZone (states_ z ++ zip_with (fun d rid => synced_state d rid revision) desired rids) (unsynced_ z) remote /\
    calls_ s' = calls_ s /\ attempt_changed (attempt_ s') = attempt_changed (attempt_ s).
Proof.
  induction desired as [|d desired IH]; intros rids z s Hz Hlen Hall; destruct rids as [|rid rids]; try done; cbn [reconcile_loop].
  - exists z, s. split; [done|]. split; [|done]. destruct z. cbn in *. by rewrite app_nil_r, Hz.
  - destruct (Hall d rid) as (Hb & Hk & Hne & Hf & Hself); [set_solver|].
    assert (exists s1, reconcile_one client zone_id domain known blocked d (remote_ z) s = Done (inl (Reconciled reuse rid (Some (resolved d rid)))) s1 /\ calls_ s1 = calls_ s /\ attempt_ s1 = attempt_ s)
      as (s1 & E1 & Ec & Ea).
    { unfold reconcile_one. pose proof (require_lease_calls s) as [Ec Ea]. unfold require_lease in *. specialize (Hlease (world_ s)). destruct (renew_running_lease (world_ s)) as [w held]. cbn in Hlease. subst held.
      cbn [then_ state_of] in *. rewrite (proj2 (held_none blocked d) Hb), Hk. change (default [] (Some rid)) with rid. unfold reconcile_record, driver_plan, plan_record_reconciliation.
      destruct rid as [|c rid]; [done|]. cbn [empty]. rewrite Hz. unfold find_record in Hf. rewrite Hf. unfold take_over. rewrite Hself. by eexists. }
    rewrite E1. cbn [then_ remote_id_]. rewrite Hz, (place_resolved_same (resolved d rid) remote Hf).
    destruct (IH rids (ReconciledZone (states_ z ++ [synced_state d rid revision]) (unsynced_ z) remote) (note (note_reconciled client domain d (Reconciled reuse rid (Some (resolved d rid)))) s1)) as (z' & s' & E & Ez & Ecalls & Eat).
    + done.
    + by injection Hlen.
    + intros d' rid' Hi. apply Hall. set_solver.
    + exists z', s'. split; [exact E|]. split; [rewrite Ez; cbn [states_ unsynced_]; by rewrite <- app_assoc|]. split; [by rewrite Ecalls|]. rewrite Eat. cbn [note attempt_ note_reconciled action_]. by rewrite Ea.
Qed.

(** What a zone, the records of its provider and what the database keeps of an attempt are like. *)
Record zone_ok (z : zone_sync_state) (remote : list provider_record) : Prop := {
  zone_live : zone_deleted_ z = false;
  zone_records : NoDup (map local_id_ (desired_ z));
  zone_states : NoDup (omap state_id_ (runtime_ z));
  zone_remote : NoDup (map id_ remote) /\ [] ∉ map id_ remote;
  zone_contents : forall d, d ∈ desired_ z -> says_itself d }.
(** The states of the next attempt are those of this one and of records that are no business record. *)
Definition carries_over (z : zone_sync_state) (states runtime : list zone_record_runtime_data) : Prop :=
  exists others, runtime ≡ₚ states ++ others /\ forall state, state ∈ others -> managed_ state = false /\ forall d, d ∈ desired_ z -> state_id_ state <> Some (local_id_ d).
Definition with_runtime (runtime : list zone_record_runtime_data) (z : zone_sync_state) : zone_sync_state :=
  ZoneSync runtime (desired_ z) (website_record_ids_ z) (cluster_hostnames_ z) (revision_ z) (zone_deleted_ z).
Abbreviation known_of z remote := (adopt_cnames client domain (desired_ z) remote (collect_remote_ids_by_local_id (runtime_ z))).
Abbreviation obsolete_of z remote := (obsolete_system_record_ids names domain (runtime_ z) (desired_now z) remote (cluster_hostnames_ z)).
Abbreviation blocked_of z known remote := (find_blocked_website_records names domain (observed (desired_ z) known remote) (website_record_ids_ z)).

(** A successful attempt, in terms of what its loop did. *)
Lemma attempt_done (Hupd : update_in_place) z remote s states remote' s1 : zone_deleted_ z = false -> sync_zone client zone_id domain z remote s = Done (ReconciledZone states [] remote') s1 ->
  existsb (fun record => record_ttl_ record <? minimum_record_ttl client) (desired_ z) = false /\
  exists rids, let remaining := left_after (iterate (obsolete_of z remote)) remote in
    states = zip_with (fun d rid => synced_state d rid (revision_ z)) (desired_ z) rids /\
    reconciled_all (known_of z remote) (blocked_of z (known_of z remote) remaining) (desired_ z) rids remaining remote'.
Proof.
  intros Hlive. unfold sync_zone. destruct (existsb _ _); [done|]. cbv zeta. fold (desired_now z). destruct (delete_obsolete_exact (iterate (obsolete_of z remote)) remote s) as [_ Hdel].
  destruct (delete_obsolete _ _ _ _ remote s) as [remaining s'|f s']; cbn [then_]; [|done]. rewrite (Hdel remaining s' eq_refl), Hlive. intros E. split; [done|].
  destruct (reconcile_loop_done Hupd _ _ _ _ _ _ _ _ _ E eq_refl) as (_ & rids & Es & Hr). exists rids. by split.
Qed.
Lemma synced_elem desired rids revision state : length rids = length desired -> state ∈ zip_with (fun d rid => synced_state d rid revision) desired rids ->
  exists d rid, (d, rid) ∈ zip desired rids /\ state = synced_state d rid revision.
Proof.
  revert rids. induction desired as [|d desired IH]; intros [|rid rids] Hl Hin; try done; try by apply not_elem_of_nil in Hin. cbn [zip_with] in Hin. apply elem_of_cons in Hin as [->|Hin].
  - exists d, rid. split; [set_solver|done].
  - destruct (IH rids ltac:(by injection Hl) Hin) as (d' & rid' & Hz & ->). exists d', rid'. split; [set_solver|done].
Qed.
Lemma synced_remote_ids desired : forall rids revision, length rids = length desired -> map remote_record_id_ (zip_with (fun d rid => synced_state d rid revision) desired rids) = map Some rids.
Proof. induction desired as [|d desired IH]; intros [|rid rids] revision Hl; try done. cbn [zip_with map]. f_equal. apply IH. by injection Hl. Qed.
Lemma elem_of_synced desired rids revision d rid : (d, rid) ∈ zip desired rids -> synced_state d rid revision ∈ zip_with (fun d rid => synced_state d rid revision) desired rids.
Proof.
  revert rids. induction desired as [|d' desired IH]; intros [|rid' rids] Hin; try by apply not_elem_of_nil in Hin. cbn [zip zip_with] in *. apply elem_of_cons in Hin as [[= -> ->]|Hin]; [set_solver|].
  apply elem_of_cons. right. by apply IH.
Qed.
Lemma zip_elem_l (desired : zone_config_data) (rids : list bytes) d : length rids = length desired -> d ∈ desired -> exists rid, (d, rid) ∈ zip desired rids.
Proof.
  revert rids. induction desired as [|d' desired IH]; intros [|rid rids] Hl Hin; try done; try by apply not_elem_of_nil in Hin. cbn [zip zip_with]. apply elem_of_cons in Hin as [->|Hin].
  - exists rid. set_solver.
  - destruct (IH rids ltac:(by injection Hl) Hin) as [rid' ?]. exists rid'. set_solver.
Qed.
Lemma zip_elem_r (desired : zone_config_data) (rids : list bytes) rid : length rids = length desired -> rid ∈ rids -> exists d, (d, rid) ∈ zip desired rids.
Proof.
  revert rids. induction desired as [|d' desired IH]; intros [|rid' rids] Hl Hin; try done; try by apply not_elem_of_nil in Hin. cbn [zip zip_with]. apply elem_of_cons in Hin as [->|Hin].
  - exists d'. set_solver.
  - destruct (IH rids ltac:(by injection Hl) Hin) as [d ?]. exists d. set_solver.
Qed.
Lemma zip_elem_d (desired : zone_config_data) (rids : list bytes) d rid : (d, rid) ∈ zip desired rids -> d ∈ desired /\ rid ∈ rids.
Proof. intros Hin. split; [by apply elem_of_zip_l in Hin|by apply elem_of_zip_r in Hin]. Qed.
Lemma zip_unique (desired : zone_config_data) (rids : list bytes) d d' rid rid' : NoDup (map local_id_ desired) -> (d, rid) ∈ zip desired rids -> (d', rid') ∈ zip desired rids -> local_id_ d = local_id_ d' -> rid = rid'.
Proof.
  revert rids. induction desired as [|e desired IH]; intros [|r rids] Hn H1' H2' E; try by apply not_elem_of_nil in H1'. cbn [map] in Hn. apply NoDup_cons in Hn as [He Hn]. cbn [zip zip_with] in *.
  apply elem_of_cons in H1' as [[= -> ->]|H1']; apply elem_of_cons in H2' as [[= -> ->]|H2']; [done| | |by apply (IH rids)]; exfalso; apply He.
  - rewrite E. apply (list_elem_of_fmap_2 local_id_). by apply elem_of_zip_l in H2'.
  - rewrite <- E. apply (list_elem_of_fmap_2 local_id_). by apply elem_of_zip_l in H1'.
Qed.

Lemma left_after_elem ids remote r : r ∈ left_after ids remote <-> r ∈ remote /\ id_ r ∉ ids.
Proof. unfold left_after. rewrite list_elem_of_In, filter_In, <- list_elem_of_In. by rewrite negb_true_iff, bool_decide_eq_false. Qed.
Lemma state_unique states st st' id : NoDup (omap state_id_ states) -> st ∈ states -> st' ∈ states -> state_id_ st = Some id -> state_id_ st' = Some id -> st = st'.
Proof.
  induction states as [|x states IH]; intros Hn H1' H2' E1 E2; [by apply not_elem_of_nil in H1'|]. cbn [omap list_omap] in Hn.
  apply elem_of_cons in H1' as [->|H1']; apply elem_of_cons in H2' as [->|H2']; [done| | |].
  - rewrite E1 in Hn. apply NoDup_cons in Hn as [Hno _]. exfalso. apply Hno, list_elem_of_omap. by exists st'.
  - rewrite E2 in Hn. apply NoDup_cons in Hn as [Hno _]. exfalso. apply Hno, list_elem_of_omap. by exists st.
  - apply IH; try done. destruct (state_id_ x); [by apply NoDup_cons in Hn as [_ Hn]|done].
Qed.
(** A record is known by the id that a state of it has. *)
Lemma known_written z remote id state local : NoDup (omap state_id_ (runtime_ z)) -> written_as z id state local -> known_of z remote !! local = Some id.
Proof.
  intros Hn (Hin & _ & Hl & Hr). apply adopt_keeps, collect_unique; [by exists state|]. intros state' Hin' Hl'. by rewrite (state_unique _ state' state local Hn Hin' Hin Hl' Hl).
Qed.

Section Again.
Context (z : zone_sync_state) (remote remote' : list provider_record) (rids : list bytes) (runtime : list zone_record_runtime_data).
Abbreviation remaining := (left_after (iterate (obsolete_of z remote)) remote).
Abbreviation states := (zip_with (fun d rid => synced_state d rid (revision_ z)) (desired_ z) rids).
Context (Hok : zone_ok z remote) (Hdone : reconciled_all (known_of z remote) (blocked_of z (known_of z remote) remaining) (desired_ z) rids remaining remote')
  (Hdistinct : NoDup rids) (Hnamed : [] ∉ rids) (Hcarry : carries_over z states runtime).

Lemma again_live : desired_now z = desired_ z.
Proof. unfold desired_now. by rewrite (zone_live _ _ Hok). Qed.
Lemma again_length : length rids = length (desired_ z).
Proof. apply (reconciled_length _ _ _ _ _ _ Hdone). Qed.
Lemma again_known d rid : (d, rid) ∈ zip (desired_ z) rids -> collect_remote_ids_by_local_id runtime !! local_id_ d = Some rid.
Proof.
  intros Hz. destruct Hcarry as (others & Hperm & Hothers). apply collect_unique.
  - exists (synced_state d rid (revision_ z)). split; [|done]. rewrite Hperm. apply elem_of_app. left. by apply elem_of_synced.
  - intros state Hin Hid. rewrite Hperm in Hin. apply elem_of_app in Hin as [Hin|Hin].
    + destruct (synced_elem _ _ _ _ again_length Hin) as (d' & rid' & Hz' & ->). cbn in *. injection Hid as Hid. by rewrite (zip_unique _ _ d' d rid' rid (zone_records _ _ Hok) Hz' Hz Hid).
    + destruct (Hothers state Hin) as [_ Hno]. destruct (zip_elem_d _ _ _ _ Hz) as [Hd _]. by apply Hno in Hid.
Qed.
Lemma again_remaining r : r ∈ remaining -> r ∈ remote /\ id_ r <> [] /\ id_ r ∉ obsolete_of z remote.
Proof.
  intros [Hr Ho]%left_after_elem. split; [done|]. split.
  - intros E. destruct (zone_remote _ _ Hok) as [_ Hno]. apply Hno. rewrite <- E. by apply (list_elem_of_fmap_2 id_).
  - rewrite (iterate_perm (obsolete_of z remote)) in Ho. by rewrite elem_of_elements in Ho.
Qed.
(** A record known for a business record was written in its place. *)
Lemma again_known_first d r : d ∈ desired_ z -> r ∈ remaining -> known_of z remote !! local_id_ d = Some (id_ r) -> id_ r ∈ rids.
Proof.
  intros Hd Hr Hk. destruct (again_remaining r Hr) as (_ & Hne & _). apply (reconciled_known _ _ _ _ _ _ Hdone d (id_ r)); try done. by apply (list_elem_of_fmap_2 id_).
Qed.
Lemma again_adopted : known_of (with_runtime runtime z) remote' = collect_remote_ids_by_local_id runtime.
Proof. apply adopt_present. intros d Hd. destruct (zip_elem_l _ _ d again_length Hd) as [rid Hz]. exists rid. by apply again_known. Qed.
(** What was left of the provider's records holds nothing obsolete. *)
Lemma again_obsolete id : id ∈ obsolete_of (with_runtime runtime z) remote' -> id ∉ map id_ remote'.
Proof.
  intros Hob Hid. apply list_elem_of_fmap in Hid as (r & -> & Hr). apply (obsolete_exact (with_runtime runtime z)) in Hob as (Hwhy & Hno & Hexp).
  assert (Enow : desired_now (with_runtime runtime z) = desired_ z) by (unfold desired_now; cbn; by rewrite (zone_live _ _ Hok)). rewrite Enow in *.
  assert (Hnot : forall d, d ∈ desired_ z -> local_id_ d ∈ map local_id_ (desired_ z)) by (intros d Hd; by apply (list_elem_of_fmap_2 local_id_)).
  assert (Hrids : id_ r ∉ rids).
  { intros Hin. destruct (zip_elem_r _ _ _ again_length Hin) as [d Hz]. destruct (zip_elem_d _ _ _ _ Hz) as [Hd _]. apply (Hno (synced_state d (id_ r) (revision_ z)) (local_id_ d)); [|by apply Hnot].
    destruct Hcarry as (others & Hperm & _). split; [|done]. cbn [runtime_ with_runtime]. rewrite Hperm. apply elem_of_app. left. by apply elem_of_synced. }
  assert (Hfrom : forall r', r' ∈ remote' -> id_ r' = id_ r -> r' ∈ remaining) by (intros r' Hr' Ei; destruct (reconciled_from _ _ _ _ _ _ Hdone r' Hr'); [by rewrite Ei in *|done]).
  destruct Hwhy as [(state & local & (Hin & Hm & Hl & Hri) & Hout)|(r' & Hr' & Ei & Hcl & He)].
  - destruct Hcarry as (others & Hperm & Hothers). cbn [runtime_ with_runtime] in Hin. rewrite Hperm in Hin. apply elem_of_app in Hin as [Hin|Hin].
    + destruct (synced_elem _ _ _ _ again_length Hin) as (d & rid & Hz & ->). destruct (zip_elem_d _ _ _ _ Hz) as [Hd _]. injection Hl as <-. by apply Hout, Hnot.
    + destruct (Hothers state Hin) as [Hun _]. by rewrite Hun in Hm.
  - specialize (Hfrom r' Hr' Ei). destruct (again_remaining r' Hfrom) as (Hr1 & Hne & Hkeep). rewrite Enow in He. cbn [cluster_hostnames_ with_runtime] in Hcl.
    apply Hkeep. apply obsolete_exact. rewrite again_live. split; [right; exists r'; unfold stale_cluster_record; by rewrite again_live|]. split.
    + intros state local Hw Hl. apply list_elem_of_fmap in Hl as (d & -> & Hd). apply Hrids. rewrite <- Ei. apply (again_known_first d r' Hd Hfrom). by apply (known_written z remote (id_ r') state _ (zone_states _ _ Hok)).
    + intros r2 Hr2 Ei2 _. assert (r2 = r') as ->; [|done]. destruct (zone_remote _ _ Hok) as [Hn _].
      pose proof (find_unique id_ remote r2 Hn Hr2) as F2. pose proof (find_unique id_ remote r' Hn Hr1) as F1. rewrite Ei2 in F2. congruence.
Qed.
(** And nothing that would hold a record back. *)
Lemma again_observed record : record ∈ observed (desired_ z) (collect_remote_ids_by_local_id runtime) remote' -> record ∈ observed (desired_ z) (known_of z remote) remaining.
Proof.
  unfold observed. rewrite !elem_of_app. intros [?|Hin]; [by left|right]. apply list_elem_of_fmap in Hin as (r & -> & Hr). apply (list_elem_of_fmap_2 observed_record).
  apply list_elem_of_In, filter_In in Hr as [Hr Hm]. apply list_elem_of_In in Hr. apply negb_true_iff, bool_decide_eq_false in Hm. unfold managed_remote_ids in Hm. rewrite elem_of_list_to_set, list_elem_of_omap in Hm.
  assert (id_ r ∉ rids) as Hrids by (intros Hi; destruct (zip_elem_r _ _ _ again_length Hi) as [d Hz]; apply Hm; exists d; split; [by apply (zip_elem_d _ _ _ _ Hz)|by apply again_known]).
  destruct (reconciled_from _ _ _ _ _ _ Hdone r Hr) as [?|Hrem]; [done|].
  apply list_elem_of_In, filter_In. split; [by apply list_elem_of_In|]. apply negb_true_iff, bool_decide_eq_false. unfold managed_remote_ids. rewrite elem_of_list_to_set, list_elem_of_omap.
  intros (d & Hd & Hk). apply Hrids. by apply (again_known_first d r).
Qed.
Lemma again_unheld d : d ∈ desired_ z -> unheld (blocked_of z (known_of z remote) remaining) d -> unheld (blocked_of z (collect_remote_ids_by_local_id runtime) remote') d.
Proof.
  unfold unheld. intros Hd Hun Hin. apply Hun. apply blocked_exact in Hin as (record & Hr & Hl & Ht & Hw & other & Ho & Hb). apply blocked_exact. exists record.
  split; [by apply again_observed|]. split; [done|]. split; [done|]. split; [done|]. exists other. split; [by apply again_observed|done].
Qed.
Lemma all_unheld known blocked desired ids from to d : reconciled_all known blocked desired ids from to -> d ∈ desired -> unheld blocked d.
Proof. induction 1 as [|d' desired' rid ids' from' to' Hu _ _ IH]; intros Hd; [by apply not_elem_of_nil in Hd|]. apply elem_of_cons in Hd as [->|Hd]; [done|by apply IH]. Qed.
End Again.

(** Once an attempt left no record behind, the next one, with the states it wrote and the records it left,
    asks the provider for nothing and comes to the same: synchronization converges. *)
Theorem second_attempt_quiet z remote s states remote' s1 runtime s2 : update_in_place -> lease_holds -> zone_ok z remote ->
  sync_zone client zone_id domain z remote s = Done (ReconciledZone states [] remote') s1 ->
  NoDup (map remote_record_id_ states) -> Some [] ∉ map remote_record_id_ states -> carries_over z states runtime ->
  exists s3, sync_zone client zone_id domain (with_runtime runtime z) remote' s2 = Done (ReconciledZone states [] remote') s3 /\
    calls_ s3 = calls_ s2 /\ attempt_changed (attempt_ s3) = attempt_changed (attempt_ s2).
Proof.
  intros Hupd Hlease Hok E Hd Hn Hcarry. pose proof (zone_live _ _ Hok) as Hlive. destruct (attempt_done Hupd z remote s states remote' s1 Hlive E) as (Httl & rids & Es & Hdone).
  pose proof (reconciled_length _ _ _ _ _ _ Hdone) as Hlen.
  assert (Em : map remote_record_id_ states = map Some rids) by (rewrite Es; by apply synced_remote_ids).
  rewrite Em in Hd, Hn. apply NoDup_fmap_1 in Hd. assert ([] ∉ rids) as Hnamed by (intros Hi; apply Hn; by apply (list_elem_of_fmap_2 Some)).
  unfold sync_zone at 1. cbn [desired_ with_runtime zone_deleted_ runtime_ cluster_hostnames_ website_record_ids_ revision_]. rewrite Httl, Hlive. cbv zeta.
  rewrite Es in Hcarry. pose proof (again_obsolete z remote remote' rids runtime Hok Hdone Hcarry) as Hobs. unfold desired_now in Hobs. cbn [desired_ with_runtime zone_deleted_ runtime_ cluster_hostnames_] in Hobs. rewrite Hlive in Hobs.
  rewrite delete_absent by (intros id Hid; rewrite (iterate_perm _) in Hid; apply elem_of_elements in Hid; by apply Hobs). cbn [then_].
  pose proof (again_adopted z remote remote' rids runtime Hok Hdone Hcarry) as Eknown. cbn [desired_ with_runtime runtime_] in Eknown. rewrite Eknown.
  destruct (reconciled_find _ _ _ _ _ _ Hdone Hd) as [_ Hfind].
  destruct (reconcile_loop_quiet Hlease (collect_remote_ids_by_local_id runtime) runtime (blocked_of z (collect_remote_ids_by_local_id runtime) remote') (revision_ z) remote' (desired_ z) rids (ReconciledZone [] [] remote') s2)
    as (z' & s3 & E3 & Ez & Hc & Ha); [done|done| |].
  - intros d rid Hz. destruct (zip_elem_d _ _ _ _ Hz) as [Hdd Hrr]. split; [apply (again_unheld z remote remote' rids runtime Hok Hdone Hcarry d Hdd); by apply (all_unheld _ _ _ _ _ _ d Hdone)|].
    split; [by apply (again_known z remote remote' rids runtime Hok Hdone Hcarry)|]. split; [intros ->; by apply Hnamed|]. split; [by apply Hfind|by apply (zone_contents _ _ Hok)].
  - exists s3. rewrite E3, Ez, Es. by cbn [states_ unsynced_ app].
Qed.
End EngineTheory.

(** * Witnesses *)

(** A provider that numbers its records. *)
Definition numbered : DnsWorld := {|
  world := Z; renew_running_lease := fun w => (w, true);
  update_record := fun _ _ _ id _ w => (w, inl id);
  create_record := fun _ _ _ _ w => (w + 1, inl (lit "r" ++ dec w));
  delete_record := fun _ _ _ w => (w, None) |}.
Definition in_order : SetOrder.
Proof. refine {| iterate := elements |}. done. Defined.
Definition same_bytes : @AddressEquality dotted_quads := fun a b => bool_decide (address_bytes (Asio := dotted_quads) a = address_bytes (Asio := dotted_quads) b).
Section Samples.
#[local] Existing Instance dotted_quads.
#[local] Existing Instance same_bytes.
#[local] Existing Instance numbered.
#[local] Existing Instance in_order.
Definition sample_domain : bytes := lit "example.com".
Definition sample_records : zone_config_data :=
  [ZoneRecord (lit "a1") (lit "A") (lit "www") (lit "192.0.2.1") 600 None false (lit "default");
   ZoneRecord (lit "c1") (lit "CNAME") (lit "shop") (lit "edge.example.net") 600 None false (lit "default")].
Definition sample_zone : zone_sync_state :=
  ZoneSync [RecordState (Some (lit "old")) (Some (lit "9")) (Some (lit "synced")) (Some 1) None true] sample_records {[ lit "c1" ]} {[ lit "www.example.com" ]} 2 false.
Definition sample_remote : list provider_record :=
  [ProviderRecord (lit "9") (lit "A") (lit "old") (lit "192.0.2.9") 600 None false (lit "default");
   ProviderRecord (lit "5") (lit "TXT") (lit "@") (lit "v=spf1 -all") 600 None false (lit "default");
   ProviderRecord (lit "7") (lit "CNAME") (lit "shop") (lit "before.example.net") 600 None false (lit "default")].
Definition sample_states : list zone_record_runtime_data :=
  [synced_state (nth 0 sample_records (ZoneRecord [] [] [] [] 0 None false [])) (lit "r100") 2; synced_state (nth 1 sample_records (ZoneRecord [] [] [] [] 0 None false [])) (lit "7") 2].
Definition sample_left : list provider_record :=
  [ProviderRecord (lit "5") (lit "TXT") (lit "@") (lit "v=spf1 -all") 600 None false (lit "default");
   ProviderRecord (lit "7") (lit "CNAME") (lit "shop") (lit "edge.example.net") 600 None false (lit "default");
   ProviderRecord (lit "r100") (lit "A") (lit "www") (lit "192.0.2.1") 600 None false (lit "default")].
Definition sample_calls_made : list provider_call :=
  [CallDelete (lit "9"); CallCreate (ProviderRecord [] (lit "A") (lit "www") (lit "192.0.2.1") 600 None false (lit "default"));
   CallUpdate (lit "7") (ProviderRecord [] (lit "CNAME") (lit "shop") (lit "edge.example.net") 600 None false (lit "default"))].
Definition sample_start : sync_state := @Sync numbered 100 [] new_attempt.
Definition first_attempt : outcome reconciled_zone := sync_zone Aliyun (lit "z") sample_domain sample_zone sample_remote sample_start.
Lemma first_attempt_done : exists s, first_attempt = Done (ReconciledZone sample_states [] sample_left) s /\ calls_ s = sample_calls_made.
Proof. eexists. by vm_compute. Qed.
Lemma deletions_safe_witness : exists record, record ∈ sample_remote /\ id_ record = lit "9".
Proof.
  destruct first_attempt_done as (s & E & Ec). unfold first_attempt in E.
  destruct (deletions_safe Aliyun (lit "z") sample_domain sample_zone sample_remote sample_start (lit "9")) as [Hr _]; [|by apply not_elem_of_nil|exact Hr].
  rewrite E. cbn [state_of]. rewrite Ec. apply elem_of_cons. by left.
Defined.
Lemma sample_zone_ok : zone_ok Aliyun sample_domain sample_zone sample_remote.
Proof.
  split.
  - done.
  - by apply (bool_decide_unpack _).
  - by apply (bool_decide_unpack _).
  - split; by apply (bool_decide_unpack _).
  - intros d Hd. apply list_elem_of_In in Hd. destruct Hd as [<-|[<-|[]]]; intros rid; by vm_compute.
Qed.
Lemma second_attempt_quiet_witness : exists s3, sync_zone Aliyun (lit "z") sample_domain (with_runtime sample_states sample_zone) sample_left sample_start =
  Done (ReconciledZone sample_states [] sample_left) s3 /\ calls_ s3 = [] /\ attempt_changed (attempt_ s3) = false.
Proof.
  destruct first_attempt_done as (s & E & _).
  apply (second_attempt_quiet Aliyun (lit "z") sample_domain sample_zone sample_remote sample_start sample_states sample_left s sample_states sample_start).
  - intros zone dom id r w w' id' [= _ ->]. done.
  - intros w. done.
  - apply sample_zone_ok.
  - exact E.
  - by apply (bool_decide_unpack _).
  - by apply (bool_decide_unpack _).
  - exists []. split; [by rewrite app_nil_r|]. intros state Hs. by apply not_elem_of_nil in Hs.
Defined.
End Samples.
Lemma record_changes_exact_witness :
  let before := [ZoneRecord (lit "a") (lit "A") (lit "www") (lit "192.0.2.1") 600 None false (lit "default"); ZoneRecord (lit "b") (lit "A") (lit "api") (lit "192.0.2.2") 600 None false (lit "default")] in
  forall record, record ∉ writes_ (plan_record_changes before before).
Proof.
  intros before record Hw. destruct (record_changes_exact before before record) as [Hwrites _]; [by apply (bool_decide_unpack _)|]. by apply Hwrites in Hw as [? ?].
Defined.
