(* ===== verification/WebsiteInput.v ===== *)
(** A website's configuration as the console sends it: model.h, transport.h, mapper.h and
    validation.h of src/service/features/website_config, and website_schema.h and website_types.h of
    src/service/domains/website.

    Every field of an input may be missing. The validator collects the errors of an input; the mapper
    turns an input into the configuration that is stored. The texts of the messages are left out. *)
From S2P Require Import AccessLog DnsRecord Prelude RoutePolicy RouteMatch SecurityPolicy WebsiteValidation.
Open Scope Z_scope.

(** * Inputs: transport.h *)

Record domain_input := DomainInput { in_domain_id : option bytes; in_hostname : option bytes; in_dns_mode : option bytes }.
Record origin_input := OriginInput {
  in_origin_id : option bytes; in_group : option bytes; in_protocol : option bytes; in_host : option bytes;
  in_port : option Z; in_role : option bytes; in_weight : option Z; in_origin_status : option bytes }.
Record header_input := HeaderInput { in_header_name : option bytes; in_header_value : option bytes }.
Record condition_input := ConditionInput { in_source : option bytes; in_name : option bytes; in_op : option bytes; in_value : option bytes }.
Record rule_input := RuleInput {
  in_rule_id : option bytes; in_rule_name : option bytes; in_description : option bytes; in_hostnames : option (list bytes);
  in_conditions : option (list condition_input); in_rewrite_mode : option bytes; in_query_mode : option bytes; in_query_string : option bytes;
  in_rule_status : option bytes; in_match_type : option bytes; in_path : option bytes; in_methods : option (list bytes); in_action : option bytes;
  in_rewrite_path : option bytes; in_redirect_url : option bytes; in_redirect_status : option Z; in_origin_group : option bytes;
  in_request_headers : option (list header_input); in_response_headers : option (list header_input) }.
Record health_input := HealthInput {
  in_health_enabled : option bool; in_health_path : option bytes; in_health_interval : option Z; in_health_timeout : option Z;
  in_health_status : option Z; in_healthy_threshold : option Z; in_unhealthy_threshold : option Z }.
Record log_input := LogInput {
  in_log_enabled : option bool; in_log_request_headers : option bool; in_log_request_body : option bool; in_log_response_headers : option bool;
  in_log_query_params : option bool; in_log_cookies : option bool; in_log_referer : option bool; in_log_user_agent : option bool;
  in_log_status_code_ranges : option (list bytes); in_log_client_abort : option bool }.
Record compression_input := CompressionInput {
  in_compression_enabled : option bool; in_compression_min_bytes : option Z; in_compression_max_bytes : option Z;
  in_compression_algorithms : option (list bytes); in_compression_mime_types : option (list bytes); in_compression_extensions : option (list bytes);
  in_compression_excluded_extensions : option (list bytes) }.
(** The fields of [website_config_input], those of one panel of the console in a record of their own. *)
Record config_input := ConfigInput {
  in_security_policy_id : option bytes; in_cache_enabled : option bool; in_cache_policy_id : option bytes; in_config_name : option bytes;
  in_domains : option (list domain_input); in_origins : option (list origin_input); in_default_origin_group : option bytes;
  in_origin_host_header : option bytes; in_origin_http_version : option bytes; in_connect_timeout : option Z; in_read_timeout : option Z;
  in_pass_client_ip : option bool; in_health : health_input; in_log : log_input; in_https_enabled : option bool;
  in_certificate_ids : option (list bytes); in_minimum_tls_version : option bytes; in_force_https : option bool; in_hsts_enabled : option bool;
  in_compression : compression_input; in_route_rules : option (list rule_input) }.
Record save_input := SaveInput { in_status : option bytes; in_config : option config_input }.

(** * Stored configurations: model.h *)

Record domain_data := DomainData { domain_id_ : bytes; hostname_ : bytes; dns_mode_ : bytes }.
Record origin_data := OriginData {
  origin_id_ : bytes; group_ : bytes; protocol_ : bytes; host_ : bytes; port_ : Z; role_ : bytes; weight_ : Z; origin_status_ : bytes }.
Record header_data := HeaderData { header_name_ : bytes; header_value_ : bytes }.
Record condition_data := ConditionData { source_ : bytes; condition_name_ : bytes; op_ : bytes; value_ : bytes }.
Record rule_data := RuleData {
  rule_id_ : bytes; rule_name_ : bytes; description_ : bytes; hostnames_ : list bytes; conditions_ : list condition_data; rewrite_mode_ : bytes;
  query_mode_ : bytes; query_string_ : bytes; rule_status_ : bytes; match_type_ : bytes; path_ : bytes; methods_ : list bytes; action_ : bytes;
  rewrite_path_ : bytes; redirect_url_ : bytes; redirect_status_ : Z; origin_group_ : bytes; request_headers_ : list header_data;
  response_headers_ : list header_data }.
Record log_data := LogData {
  log_enabled_ : bool; log_request_headers_ : bool; log_request_body_ : bool; log_response_headers_ : bool; log_query_params_ : bool; log_cookies_ : bool;
  log_referer_ : bool; log_user_agent_ : bool; log_status_code_ranges_ : list bytes; log_client_abort_ : bool }.
Record config_data := ConfigData {
  cache_enabled_ : bool; cache_policy_id_ : bytes; security_policy_id_ : bytes; config_name_ : option bytes; domains_ : list domain_data;
  origins_ : list origin_data; default_origin_group_ : bytes; origin_host_header_ : bytes; origin_http_version_ : bytes; connect_timeout_ : Z;
  read_timeout_ : Z; pass_client_ip_ : bool; health_ : health_check; log_ : log_data; https_enabled_ : bool; certificate_ids_ : list bytes;
  minimum_tls_version_ : bytes; force_https_ : bool; hsts_enabled_ : bool; compression_ : response_compression; route_rules_ : list rule_data }.
Record save_data := SaveData { save_status_ : bytes; save_config_ : config_data }.

(** * The mapper: mapper.h *)

Definition text_or (o : option bytes) (d : bytes) : bytes := match o with Some s => s | None => d end.
Definition items_or {A} (o : option (list A)) : list A := match o with Some l => l | None => [] end.

Definition normalize_domain (i : domain_input) : option domain_data :=
  id ← in_domain_id i; h ← in_hostname i; m ← in_dns_mode i; Some (DomainData id h m).
Definition normalize_origin (i : origin_input) : option origin_data :=
  id ← in_origin_id i; g ← in_group i; p ← in_protocol i; h ← in_host i; port ← in_port i; r ← in_role i; w ← in_weight i; s ← in_origin_status i;
  Some (OriginData id g p h port r w s).
Definition normalize_header (i : header_input) : option header_data :=
  name ← in_header_name i; value ← in_header_value i; Some (HeaderData name value).
Definition normalize_condition (i : condition_input) : option condition_data :=
  source ← in_source i; name ← in_name i; op ← in_op i; value ← in_value i; Some (ConditionData source name op value).
Definition normalize_rule (i : rule_input) : option rule_data :=
  id ← in_rule_id i; status ← in_rule_status i; match_type ← in_match_type i; path ← in_path i; methods ← in_methods i; action ← in_action i;
  rewrite_path ← in_rewrite_path i; redirect_url ← in_redirect_url i; redirect_status ← in_redirect_status i;
  request_headers ← in_request_headers i; response_headers ← in_response_headers i;
  conditions ← mapM normalize_condition (items_or (in_conditions i));
  request_headers ← mapM normalize_header request_headers;
  response_headers ← mapM normalize_header response_headers;
  Some (RuleData id (text_or (in_rule_name i) []) (text_or (in_description i) []) (map hostname (items_or (in_hostnames i))) conditions
    (text_or (in_rewrite_mode i) (if empty rewrite_path then lit "none" else lit "replace_path")) (text_or (in_query_mode i) (lit "preserve"))
    (text_or (in_query_string i) []) status match_type path methods action rewrite_path redirect_url redirect_status (text_or (in_origin_group i) [])
    request_headers response_headers).

Inductive route_origin_reference_status := valid_reference | redirect_forbids_origin_group | missing_enabled_origin_group.
#[export] Instance reference_status_eq_dec : EqDecision route_origin_reference_status.
Proof. solve_decision. Defined.
Definition collect_enabled_origin_groups (origins : list origin_data) : list bytes :=
  map group_ (List.filter (fun o => origin_status_ o == lit "enabled") origins).
Definition check_route_origin_reference (action origin_group : bytes) (enabled_origin_groups : list bytes) : route_origin_reference_status :=
  if (action == lit "redirect") && negb (empty origin_group) then redirect_forbids_origin_group
  else if (action == lit "proxy") && negb (bool_decide (origin_group ∈ enabled_origin_groups)) then missing_enabled_origin_group
  else valid_reference.

Definition normalize_health (i : health_input) : option health_check :=
  e ← in_health_enabled i; p ← in_health_path i; n ← in_health_interval i; t ← in_health_timeout i; s ← in_health_status i;
  h ← in_healthy_threshold i; u ← in_unhealthy_threshold i; Some (HealthCheck e p n t s h u).
Definition normalize_log (i : log_input) : option log_data :=
  e ← in_log_enabled i; a ← in_log_request_headers i; b ← in_log_request_body i; c ← in_log_response_headers i; d ← in_log_query_params i;
  f ← in_log_cookies i; g ← in_log_referer i; h ← in_log_user_agent i; r ← in_log_status_code_ranges i; j ← in_log_client_abort i;
  Some (LogData e a b c d f g h r j).
Definition normalize_compression (i : compression_input) : option response_compression :=
  e ← in_compression_enabled i; mn ← in_compression_min_bytes i; mx ← in_compression_max_bytes i; a ← in_compression_algorithms i;
  m ← in_compression_mime_types i; x ← in_compression_extensions i; y ← in_compression_excluded_extensions i; Some (ResponseCompression e mn mx a m x y).
Definition normalize_config (i : config_input) : option config_data :=
  domains ← in_domains i; origins ← in_origins i; group ← in_default_origin_group i; header ← in_origin_host_header i;
  connect ← in_connect_timeout i; read ← in_read_timeout i; pass ← in_pass_client_ip i; health ← normalize_health (in_health i); log ← normalize_log (in_log i);
  https ← in_https_enabled i; certificates ← in_certificate_ids i; tls ← in_minimum_tls_version i; force ← in_force_https i; hsts ← in_hsts_enabled i;
  compression ← normalize_compression (in_compression i); rules ← in_route_rules i;
  domains ← mapM normalize_domain domains; origins ← mapM normalize_origin origins; rules ← mapM normalize_rule rules;
  let groups := collect_enabled_origin_groups origins in
  if negb (bool_decide (group ∈ groups)) then None
  else if existsb (fun r => negb (bool_decide (check_route_origin_reference (action_ r) (origin_group_ r) groups = valid_reference))) rules then None
  else Some (ConfigData (match in_cache_enabled i with Some b => b | None => false end) (text_or (in_cache_policy_id i) []) (text_or (in_security_policy_id i) [])
    (in_config_name i) domains origins group header (text_or (in_origin_http_version i) (lit "auto")) connect read pass health log https certificates tls force hsts
    compression rules).
Definition normalize_save (i : save_input) : option save_data :=
  status ← in_status i; config ← in_config i; data ← normalize_config config; Some (SaveData status data).

(** ** What is stored *)

Definition domain_output (d : domain_data) : domain_input := DomainInput (Some (domain_id_ d)) (Some (hostname_ d)) (Some (dns_mode_ d)).
Definition origin_output (o : origin_data) : origin_input :=
  OriginInput (Some (origin_id_ o)) (Some (group_ o)) (Some (protocol_ o)) (Some (host_ o)) (Some (port_ o)) (Some (role_ o)) (Some (weight_ o)) (Some (origin_status_ o)).
Definition header_output (h : header_data) : header_input := HeaderInput (Some (header_name_ h)) (Some (header_value_ h)).
Definition condition_output (c : condition_data) : condition_input := ConditionInput (Some (source_ c)) (Some (condition_name_ c)) (Some (op_ c)) (Some (value_ c)).
Definition rule_output (r : rule_data) : rule_input :=
  RuleInput (Some (rule_id_ r)) (Some (rule_name_ r)) (Some (description_ r)) (Some (hostnames_ r)) (Some (map condition_output (conditions_ r)))
    (Some (rewrite_mode_ r)) (Some (query_mode_ r)) (Some (query_string_ r)) (Some (rule_status_ r)) (Some (match_type_ r)) (Some (path_ r))
    (Some (methods_ r)) (Some (action_ r)) (Some (rewrite_path_ r)) (Some (redirect_url_ r)) (Some (redirect_status_ r)) (Some (origin_group_ r))
    (Some (map header_output (request_headers_ r))) (Some (map header_output (response_headers_ r))).
Definition health_output (h : health_check) : health_input :=
  HealthInput (Some (health_check_enabled h)) (Some (health_check_path h)) (Some (health_check_interval_seconds h)) (Some (health_check_timeout_seconds h))
    (Some (health_check_expected_status h)) (Some (healthy_threshold h)) (Some (unhealthy_threshold h)).
Definition log_output (l : log_data) : log_input :=
  LogInput (Some (log_enabled_ l)) (Some (log_request_headers_ l)) (Some (log_request_body_ l)) (Some (log_response_headers_ l)) (Some (log_query_params_ l))
    (Some (log_cookies_ l)) (Some (log_referer_ l)) (Some (log_user_agent_ l)) (Some (log_status_code_ranges_ l)) (Some (log_client_abort_ l)).
Definition compression_output (c : response_compression) : compression_input :=
  CompressionInput (Some (compression_enabled c)) (Some (compression_min_bytes c)) (Some (compression_max_bytes c)) (Some (compression_algorithms c))
    (Some (compression_mime_types c)) (Some (compression_extensions c)) (Some (compression_excluded_extensions c)).
(** [to_output]; the output has the fields of the input, all of them there but the name. *)
Definition to_output (d : config_data) : config_input :=
  ConfigInput (Some (security_policy_id_ d)) (Some (cache_enabled_ d)) (Some (cache_policy_id_ d)) (config_name_ d) (Some (map domain_output (domains_ d)))
    (Some (map origin_output (origins_ d))) (Some (default_origin_group_ d)) (Some (origin_host_header_ d)) (Some (origin_http_version_ d))
    (Some (connect_timeout_ d)) (Some (read_timeout_ d)) (Some (pass_client_ip_ d)) (health_output (health_ d)) (log_output (log_ d))
    (Some (https_enabled_ d)) (Some (certificate_ids_ d)) (Some (minimum_tls_version_ d)) (Some (force_https_ d)) (Some (hsts_enabled_ d))
    (compression_output (compression_ d)) (Some (map rule_output (route_rules_ d))).

(** The JSON texts of configurations; the library reads back what it wrote. *)
Class ConfigJson := { to_json : config_input -> bytes; from_json : bytes -> option config_input }.
Class ConfigJsonLaws `{ConfigJson} := { json_roundtrip i : from_json (to_json i) = Some i }.
Definition parse_stored `{ConfigJson} (json : bytes) : option config_data := input ← from_json json; normalize_config input.

(** * The validator: validation.h *)

(** [ruvia::validator]: it collects errors, and [throw_if_invalid] throws when there is one. The
    library checks presence, ranges and lengths itself. *)
Class RuviaValidator := {
  validator : Type;
  new_validator : validator;
  add_error : validator -> bytes -> bytes -> validator;
  required : validator -> bool -> bytes -> validator;
  in_limits : validator -> option Z -> bytes -> Z -> Z -> validator;
  max_length : validator -> option bytes -> bytes -> Z -> validator;
  valid : validator -> bool
}.
Class RuviaLaws `{RuviaValidator} := {
  new_valid : valid new_validator = true;
  add_valid v path code : valid (add_error v path code) = false;
  required_valid v present path : valid (required v present path) = valid v && present;
  limits_valid v x path lo hi : valid (in_limits v x path lo hi) = valid v && match x with Some x => (lo <=? x) && (x <=? hi) | None => true end;
  length_valid v x path n : valid (max_length v x path n) = true -> valid v = true
}.
(** [asio::ip::make_address_v4] accepts the text. *)
Class AsioV4 := is_ipv4_address : bytes -> bool.

Section Validator.
Context `{RuviaValidator} `{AsioV4} `{Re2}.

Definition add_when (condition : bool) (path code : bytes) (v : validator) : validator := if condition then add_error v path code else v.
(** The field is there and its value passes the test. *)
Definition when {A} (field : option A) (test : A -> bool) : bool := match field with Some x => test x | None => false end.
Definition missing {A} (field : option A) : bool := negb (present field).
Definition at_field (path : bytes) (name : string) : bytes := path ++ lit "." ++ lit name.
Definition field_path (prefix name : bytes) : bytes := (if empty prefix then [] else prefix ++ lit ".") ++ name.
Definition at_index (name : string) (index : nat) : bytes := lit name ++ lit "[" ++ dec (Z.of_nat index) ++ lit "]".
Definition valid_uuid (id : option bytes) : bool := present (parse_uuid id).
Definition valid_status (status : option bytes) : bool := when status (one_of ["enabled"; "disabled"]).

Definition is_origin_host (value : bytes) : bool := is_ipv4_address value || is_hostname value false.
Definition is_origin_host_header (value : bytes) : bool := (value == lit "$host") || is_hostname value false.
Definition is_website_name (value : bytes) : bool := negb (empty value).
Definition is_origin_group (value : bytes) : bool := negb (empty value) && (size value <=? 100) && negb (existsb iscntrl value).
Definition valid_compression_algorithms (values : list bytes) : bool := negb (empty values) && distinct_loop compression_algorithm Datatypes.id [] values.
Definition valid_compression_values (kind : compression_match_kind) (values : list bytes) : bool :=
  (size values <=? max_response_compression_match_values) && distinct_loop (compression_match_value kind) Datatypes.id [] values.
Definition valid_access_log_status_code_ranges (values : list bytes) : bool := negb (empty values) && distinct_loop access_log_status_code_range Datatypes.id [] values.
Definition valid_route_methods (values : list bytes) : bool := (size values <=? max_route_methods) && distinct_loop route_method Datatypes.id [] values.
Definition valid_header (h : header_input) : bool :=
  match in_header_name h, in_header_value h with
  | Some name, Some value => route_header_name name && route_header_value value
  | _, _ => false
  end.
Definition valid_route_header_set (headers : list header_input) : bool :=
  distinct_loop valid_header (fun h => map lower_ascii (text_or (in_header_name h) [])) [] headers.

Definition validate_domain_input (value : domain_input) (path : bytes) (v : validator) : validator :=
  let v := add_when (negb (valid_uuid (in_domain_id value))) (at_field path "id") (lit "format") v in
  let v := if negb (when (in_hostname value) (fun h => negb (empty h))) then add_error v (at_field path "hostname") (lit "required")
           else add_when (negb (when (in_hostname value) (fun h => is_hostname h true))) (at_field path "hostname") (lit "format") v in
  add_when (negb (when (in_dns_mode value) (one_of ["managed"; "external"]))) (at_field path "dns_mode") (lit "enum") v.

Definition validate_origin_input (value : origin_input) (path : bytes) (v : validator) : validator :=
  let v := add_when (negb (valid_uuid (in_origin_id value))) (at_field path "id") (lit "format") v in
  let v := add_when (negb (when (in_group value) is_origin_group)) (at_field path "group") (lit "format") v in
  let v := add_when (negb (when (in_protocol value) (one_of ["http"; "https"]))) (at_field path "protocol") (lit "enum") v in
  let v := if negb (when (in_host value) (fun h => negb (empty h))) then add_error v (at_field path "host") (lit "required")
           else add_when (when (in_host value) (fun h => (253 <? size h) || negb (is_origin_host h))) (at_field path "host") (lit "format") v in
  let v := add_when (negb (when (in_port value) (fun p => (1 <=? p) && (p <=? 65535)))) (at_field path "port") (lit "range") v in
  let v := add_when (negb (when (in_role value) (one_of ["primary"; "backup"]))) (at_field path "role") (lit "enum") v in
  let v := add_when (negb (when (in_weight value) (fun w => (1 <=? w) && (w <=? 100)))) (at_field path "weight") (lit "range") v in
  add_when (negb (valid_status (in_origin_status value))) (at_field path "status") (lit "enum") v.

Definition validate_metadata_and_hostnames (value : rule_input) (path : bytes) (v : validator) : validator :=
  let v := add_when (when (in_rule_name value) (fun n => negb (clean_text n max_route_name_bytes))) (at_field path "name") (lit "format") v in
  let v := add_when (when (in_description value) (fun d => max_route_description_bytes <? size d)) (at_field path "description") (lit "format") v in
  let v := add_when (when (in_hostnames value) (fun hs => max_route_hostnames <? size hs)) (at_field path "hostnames") (lit "format") v in
  let v := add_when (when (in_hostnames value) (fun hs => negb (distinct_loop exact_hostname hostname [] hs))) (at_field path "hostnames") (lit "format") v in
  let v := add_when (negb (valid_uuid (in_rule_id value))) (at_field path "id") (lit "format") v in
  add_when (negb (valid_status (in_rule_status value))) (at_field path "status") (lit "enum") v.

Definition valid_condition_input (c : condition_input) : bool :=
  match in_source c, in_name c, in_op c, in_value c with
  | Some source, Some name, Some op, Some text => condition_options source name op text
  | _, _, _, _ => false
  end.
Fixpoint validate_conditions (conditions : list condition_input) (path : bytes) (index : nat) (v : validator) : validator :=
  match conditions with
  | [] => v
  | c :: conditions =>
      validate_conditions conditions path (S index)
        (add_when (negb (valid_condition_input c)) (path ++ lit ".conditions." ++ dec (Z.of_nat index) ++ lit ".name") (lit "format") v)
  end.
(** With the compiled pattern of a regular-expression rule. *)
Definition validate_match_and_headers (value : rule_input) (path : bytes) (v : validator) : option re2 * validator :=
  let v := add_when (negb (when (in_match_type value) valid_match_type)) (at_field path "match_type") (lit "enum") v in
  let is_regex := when (in_match_type value) (fun t => t == lit "regex") in
  let is_suffix := when (in_match_type value) (fun t => t == lit "suffix") in
  let pattern := if is_regex then p ← in_path value; compile_pattern p else None in
  let v :=
    if is_regex then add_when (missing pattern) (at_field path "path") (lit "format") v
    else if is_suffix then add_when (negb (when (in_path value) route_suffix)) (at_field path "path") (lit "format") v
    else add_when (negb (when (in_path value) route_path)) (at_field path "path") (lit "format") v in
  let v :=
    match in_conditions value with
    | Some conditions =>
        validate_conditions conditions path 0 (add_when (max_route_conditions <? size conditions) (at_field path "conditions") (lit "format") v)
    | None => v
    end in
  let v := add_when (negb (when (in_methods value) valid_route_methods)) (at_field path "methods") (lit "format") v in
  let v := add_when (when (in_request_headers value) (fun h => max_route_headers <? size h)) (at_field path "request_headers") (lit "too_big") v in
  let v := add_when (when (in_response_headers value) (fun h => max_route_headers <? size h)) (at_field path "response_headers") (lit "too_big") v in
  (pattern, v).

(** The checks of the action, once the four fields they read are there. *)
Definition validate_rewrite (value : rule_input) (path : bytes) (pattern : option re2) (action rewrite_path redirect_url : bytes) (status : Z) (group : bytes)
    (v : validator) : validator :=
  let v := add_when
    (match pattern with
     | Some p => negb (capture_template rewrite_path (Z.of_nat (re2_groups p))) || negb (capture_template redirect_url (Z.of_nat (re2_groups p)))
     | None => false
     end) (at_field path (if action == lit "proxy" then "rewrite_path" else "redirect_url")) (lit "format") v in
  let mode := text_or (in_rewrite_mode value) [] in
  let query := text_or (in_query_mode value) [] in
  let query_text := text_or (in_query_string value) [] in
  let v := add_when (negb (rewrite_mode mode)) (at_field path "rewrite_mode") (lit "enum") v in
  let v := add_when (negb (query_mode query)) (at_field path "query_mode") (lit "enum") v in
  let v := add_when (negb (query_string query_text) || ((query != lit "replace") && negb (empty query_text))) (at_field path "query_string") (lit "format") v in
  let v := add_when (((mode == lit "none") || (mode == lit "strip_prefix")) && negb (empty rewrite_path)) (at_field path "rewrite_path") (lit "format") v in
  let v := add_when (((mode == lit "replace_path") || (mode == lit "replace_prefix")) && empty rewrite_path) (at_field path "rewrite_path") (lit "required") v in
  let v := add_when
    (((mode == lit "strip_prefix") || (mode == lit "replace_prefix")) &&
     (negb (when (in_match_type value) (fun t => t == lit "prefix")) || negb (when (in_path value) path_only) ||
      ((mode == lit "replace_prefix") && negb (path_only rewrite_path)))) (at_field path "rewrite_mode") (lit "format") v in
  let v := add_when ((action == lit "redirect") && negb (empty mode) && (mode != lit "none")) (at_field path "rewrite_mode") (lit "format") v in
  if action == lit "rewrite" then
    add_when
      ((negb (empty rewrite_path) && negb (path_only rewrite_path)) || negb (empty redirect_url) || negb (status =? 0) || negb (empty group) ||
       when (in_request_headers value) (fun h => negb (empty h)) || when (in_response_headers value) (fun h => negb (empty h))) path (lit "format") v
  else if action == lit "proxy" then
    add_when ((negb (empty rewrite_path) && negb (path_only rewrite_path)) || negb (empty redirect_url) || negb (status =? 0) || negb (is_origin_group group)) path (lit "format") v
  else
    add_when (negb (route_redirect_url redirect_url) || negb (redirect_status status) || negb (empty rewrite_path) || negb (empty group)) path (lit "format") v.
Definition validate_action_and_rewrite (value : rule_input) (path : bytes) (pattern : option re2) (v : validator) : validator :=
  match in_action value with
  | Some action =>
      if negb (one_of ["proxy"; "redirect"; "rewrite"] action) then add_error v (at_field path "action") (lit "enum")
      else
        match in_rewrite_path value, in_redirect_url value, in_redirect_status value, in_origin_group value with
        | Some rewrite_path, Some redirect_url, Some status, Some group => validate_rewrite value path pattern action rewrite_path redirect_url status group v
        | _, _, _, _ => v
        end
  | None => add_error v (at_field path "action") (lit "enum")
  end.
Definition validate_rule_input (value : rule_input) (path : bytes) (v : validator) : validator :=
  let v := validate_metadata_and_hostnames value path v in
  let '(pattern, v) := validate_match_and_headers value path v in
  validate_action_and_rewrite value path pattern v.

(** ** Sets *)

Definition uuid_key (id : option bytes) : bytes := text_or (parse_uuid id) [].
Definition valid_domain_set (domains : list domain_input) : bool :=
  distinct_loop (fun d => valid_uuid (in_domain_id d) && present (in_hostname d)) (fun d => uuid_key (in_domain_id d)) [] domains &&
  distinct_loop (fun _ => true) (fun d => map lower_ascii (text_or (in_hostname d) [])) [] domains.
Definition has_status (o : origin_input) : bool := when (in_origin_status o) (fun s => s == lit "enabled").
Definition has_primary (o : origin_input) : bool := has_status o && when (in_role o) (fun r => r == lit "primary").
Definition groups_of (test : origin_input -> bool) (origins : list origin_input) : gset bytes :=
  list_to_set (map (fun o => text_or (in_group o) []) (List.filter test origins)).
Definition valid_origin_set (origins : list origin_input) : bool :=
  distinct_loop (fun o => valid_uuid (in_origin_id o) && present (in_group o)) (fun o => uuid_key (in_origin_id o)) [] origins &&
  negb (bool_decide (groups_of has_status origins = ∅)) && bool_decide (groups_of has_status origins = groups_of has_primary origins).
Definition valid_rule_headers (r : rule_input) : bool :=
  valid_uuid (in_rule_id r) && when (in_request_headers r) valid_route_header_set && when (in_response_headers r) valid_route_header_set && present (in_origin_group r).
Definition valid_route_rule_set (rules : list rule_input) : bool := distinct_loop valid_rule_headers (fun r => uuid_key (in_rule_id r)) [] rules.
Definition has_unique_certificate_ids (values : list bytes) : bool :=
  distinct_loop (fun id => valid_uuid (Some id)) (fun id => uuid_key (Some id)) [] values.

(** ** Panels *)

Definition require_field {A} (prefix : bytes) (value : option A) (name : string) (v : validator) : validator :=
  required v (present value) (field_path prefix (lit name)).
Definition require_bounded_field (prefix : bytes) (value : option Z) (name : string) (minimum maximum : Z) (v : validator) : validator :=
  let path := field_path prefix (lit name) in
  in_limits (required v (present value) path) value path minimum maximum.
Definition add_if_invalid {A} (prefix : bytes) (value : option A) (name : string) (predicate : A -> bool) (code : string) (v : validator) : validator :=
  add_when (when value (fun x => negb (predicate x))) (field_path prefix (lit name)) (lit code) v.
Fixpoint validate_each {A} (check : A -> bytes -> validator -> validator) (prefix : bytes) (name : string) (index : nat) (values : list A) (v : validator) : validator :=
  match values with
  | [] => v
  | value :: values => validate_each check prefix name (S index) values (check value (field_path prefix (at_index name index)) v)
  end.

Definition validate_domains (body : config_input) (prefix : bytes) (v : validator) : validator :=
  let v := require_field prefix (in_domains body) "domains" v in
  match in_domains body with
  | None => v
  | Some domains =>
      let v := add_when (empty domains) (field_path prefix (lit "domains")) (lit "too_small") v in
      let v := add_when (100 <? size domains) (field_path prefix (lit "domains")) (lit "too_big") v in
      let v := add_if_invalid prefix (in_domains body) "domains" valid_domain_set "custom" v in
      validate_each validate_domain_input prefix "domains" 0 domains v
  end.
Definition validate_origins (body : config_input) (prefix : bytes) (v : validator) : validator :=
  let v := require_field prefix (in_origins body) "origins" v in
  let v :=
    match in_origins body with
    | None => v
    | Some origins =>
        let v := add_when (empty origins) (field_path prefix (lit "origins")) (lit "too_small") v in
        let v := add_when (100 <? size origins) (field_path prefix (lit "origins")) (lit "too_big") v in
        let v := add_if_invalid prefix (in_origins body) "origins" valid_origin_set "custom" v in
        validate_each validate_origin_input prefix "origins" 0 origins v
    end in
  let v := require_field prefix (in_default_origin_group body) "default_origin_group" v in
  let v := max_length v (in_default_origin_group body) (field_path prefix (lit "default_origin_group")) 100 in
  let v := add_if_invalid prefix (in_default_origin_group body) "default_origin_group" is_origin_group "custom" v in
  let v := add_when (when (in_origin_http_version body) (fun version => negb (one_of ["auto"; "http1"; "http2"] version))) (field_path prefix (lit "origin_http_version")) (lit "enum") v in
  let v := require_field prefix (in_origin_host_header body) "origin_host_header" v in
  let v := max_length v (in_origin_host_header body) (field_path prefix (lit "origin_host_header")) 253 in
  let v := add_if_invalid prefix (in_origin_host_header body) "origin_host_header" is_origin_host_header "custom" v in
  let v := require_bounded_field prefix (in_connect_timeout body) "origin_connect_timeout_seconds" 1 300 v in
  let v := require_bounded_field prefix (in_read_timeout body) "origin_read_timeout_seconds" 1 600 v in
  require_field prefix (in_pass_client_ip body) "pass_client_ip" v.
Definition validate_health_check (body : config_input) (prefix : bytes) (v : validator) : validator :=
  let h := in_health body in
  let v := require_field prefix (in_health_enabled h) "health_check_enabled" v in
  let v := require_field prefix (in_health_path h) "health_check_path" v in
  let v := add_if_invalid prefix (in_health_path h) "health_check_path" route_path "custom" v in
  let v := require_bounded_field prefix (in_health_interval h) "health_check_interval_seconds" 1 3600 v in
  let v := require_bounded_field prefix (in_health_timeout h) "health_check_timeout_seconds" 1 300 v in
  let v := require_bounded_field prefix (in_health_status h) "health_check_expected_status" 100 599 v in
  let v := require_bounded_field prefix (in_healthy_threshold h) "healthy_threshold" 1 10 v in
  require_bounded_field prefix (in_unhealthy_threshold h) "unhealthy_threshold" 1 10 v.
Definition validate_access_log_input (body : config_input) (prefix : bytes) (v : validator) : validator :=
  let l := in_log body in
  let v := require_field prefix (in_log_enabled l) "access_log_enabled" v in
  let v := require_field prefix (in_log_request_headers l) "access_log_request_headers" v in
  let v := require_field prefix (in_log_request_body l) "access_log_request_body" v in
  let v := require_field prefix (in_log_response_headers l) "access_log_response_headers" v in
  let v := require_field prefix (in_log_query_params l) "access_log_query_params" v in
  let v := require_field prefix (in_log_cookies l) "access_log_cookies" v in
  let v := require_field prefix (in_log_referer l) "access_log_referer" v in
  let v := require_field prefix (in_log_user_agent l) "access_log_user_agent" v in
  let v := require_field prefix (in_log_status_code_ranges l) "access_log_status_code_ranges" v in
  let v := add_if_invalid prefix (in_log_status_code_ranges l) "access_log_status_code_ranges" valid_access_log_status_code_ranges "custom" v in
  require_field prefix (in_log_client_abort l) "access_log_client_abort" v.
Definition max_website_certificates : Z := 20.
Definition validate_https (body : config_input) (prefix : bytes) (v : validator) : validator :=
  let v := require_field prefix (in_https_enabled body) "https_enabled" v in
  let v := require_field prefix (in_certificate_ids body) "certificate_ids" v in
  let v := add_when (when (in_certificate_ids body) (fun ids => max_website_certificates <? size ids)) (field_path prefix (lit "certificate_ids")) (lit "too_big") v in
  let v := add_if_invalid prefix (in_certificate_ids body) "certificate_ids" has_unique_certificate_ids "custom" v in
  let v := require_field prefix (in_minimum_tls_version body) "minimum_tls_version" v in
  let v := add_if_invalid prefix (in_minimum_tls_version body) "minimum_tls_version" (one_of ["1.2"; "1.3"]) "regex" v in
  let v := require_field prefix (in_force_https body) "force_https" v in
  require_field prefix (in_hsts_enabled body) "hsts_enabled" v.
Definition validate_compression (body : config_input) (prefix : bytes) (v : validator) : validator :=
  let c := in_compression body in
  let max_path := field_path prefix (lit "response_compression_max_bytes") in
  let v := require_field prefix (in_compression_enabled c) "response_compression_enabled" v in
  let v := require_bounded_field prefix (in_compression_min_bytes c) "response_compression_min_bytes" min_response_compression_bytes max_response_compression_min_bytes v in
  let v := require_field prefix (in_compression_max_bytes c) "response_compression_max_bytes" v in
  let v := add_when (when (in_compression_max_bytes c) (fun x => x <? 0)) max_path (lit "too_small") v in
  let v := add_when (when (in_compression_max_bytes c) (fun x => max_response_compression_bytes <? x)) max_path (lit "too_big") v in
  let v := require_field prefix (in_compression_algorithms c) "response_compression_algorithms" v in
  let v := add_if_invalid prefix (in_compression_algorithms c) "response_compression_algorithms" valid_compression_algorithms "custom" v in
  let v := require_field prefix (in_compression_mime_types c) "response_compression_mime_types" v in
  let v := add_if_invalid prefix (in_compression_mime_types c) "response_compression_mime_types" (valid_compression_values mime_type) "custom" v in
  let v := require_field prefix (in_compression_extensions c) "response_compression_extensions" v in
  let v := add_if_invalid prefix (in_compression_extensions c) "response_compression_extensions" (valid_compression_values extension) "custom" v in
  let v := require_field prefix (in_compression_excluded_extensions c) "response_compression_excluded_extensions" v in
  let v := add_if_invalid prefix (in_compression_excluded_extensions c) "response_compression_excluded_extensions" (valid_compression_values extension) "custom" v in
  add_when (match in_compression_min_bytes c, in_compression_max_bytes c with Some mn, Some mx => negb (mx =? 0) && (mx <? mn) | _, _ => false end) max_path (lit "range") v.
Definition validate_route_rules_input (body : config_input) (prefix : bytes) (v : validator) : validator :=
  let v := require_field prefix (in_route_rules body) "route_rules" v in
  match in_route_rules body with
  | None => v
  | Some rules =>
      let v := add_when (max_route_rules <? size rules) (field_path prefix (lit "route_rules")) (lit "too_big") v in
      let v := add_if_invalid prefix (in_route_rules body) "route_rules" valid_route_rule_set "custom" v in
      validate_each validate_rule_input prefix "route_rules" 0 rules v
  end.

(** [collect_enabled_origin_groups] of the inputs. *)
Definition collect_input_groups (origins : list origin_input) : list bytes :=
  omap (fun o => if has_status o then in_group o else None) origins.
Definition validate_reference (groups : list bytes) (r : rule_input) (path : bytes) (v : validator) : validator :=
  match in_action r, in_origin_group r with
  | Some action, Some group =>
      match check_route_origin_reference action group groups with
      | redirect_forbids_origin_group => add_error v (at_field path "origin_group") (lit "forbidden")
      | missing_enabled_origin_group => add_error v (at_field path "origin_group") (lit "reference")
      | valid_reference => v
      end
  | _, _ => v
  end.
Definition validate_origin_references (body : config_input) (prefix : bytes) (v : validator) : validator :=
  match in_origins body, in_default_origin_group body, in_route_rules body with
  | Some origins, Some group, Some rules =>
      let groups := collect_input_groups origins in
      let v := add_when (negb (bool_decide (group ∈ groups))) (field_path prefix (lit "default_origin_group")) (lit "reference") v in
      validate_each (validate_reference groups) prefix "route_rules" 0 rules v
  | _, _, _ => v
  end.

(** [website_config_rules::validate_nested] *)
Definition validate_config_input (body : config_input) (prefix : bytes) (v : validator) : validator :=
  let v := max_length v (in_config_name body) (field_path prefix (lit "name")) 100 in
  let v := add_if_invalid prefix (in_config_name body) "name" is_website_name "custom" v in
  let v := validate_domains body prefix v in
  let v := validate_origins body prefix v in
  let v := validate_health_check body prefix v in
  let v := validate_access_log_input body prefix v in
  let v := validate_https body prefix v in
  let v := validate_compression body prefix v in
  let v := validate_route_rules_input body prefix v in
  validate_origin_references body prefix v.
Definition validate_website_save_input (body : save_input) (v : validator) : validator :=
  let v := required v (present (in_status body)) (lit "status") in
  let v := add_when (when (in_status body) (fun s => negb (one_of ["enabled"; "disabled"] s))) (lit "status") (lit "regex") v in
  let v := required v (present (in_config body)) (lit "config") in
  match in_config body with
  | Some config => validate_config_input config (lit "config") v
  | None => v
  end.
End Validator.

(** * What the validator accepts *)

Section Accepted.
Context `{RuviaValidator} `{!RuviaLaws} `{AsioV4} `{Re2}.

Lemma valid_add_when c path code v : valid (add_when c path code v) = valid v && negb c.
Proof. destruct c; cbn; [by rewrite add_valid, andb_false_r|by rewrite andb_true_r]. Qed.
Lemma valid_require {A} prefix (value : option A) name v : valid (require_field prefix value name v) = valid v && present value.
Proof. apply required_valid. Qed.
Lemma valid_bounded prefix value name lo hi v :
  valid (require_bounded_field prefix value name lo hi v) = valid v && present value && match value with Some x => (lo <=? x) && (x <=? hi) | None => true end.
Proof. unfold require_bounded_field. by rewrite limits_valid, required_valid. Qed.
Lemma valid_add_if {A} prefix (value : option A) name predicate code v :
  valid (add_if_invalid prefix value name predicate code v) = valid v && negb (when value (fun x => negb (predicate x))).
Proof. apply valid_add_when. Qed.
Lemma valid_each {A} (check : A -> bytes -> validator -> validator) (P : A -> Prop) :
  (forall x path v, valid (check x path v) = true -> valid v = true /\ P x) ->
  forall prefix name values index v, valid (validate_each check prefix name index values v) = true -> valid v = true /\ Forall P values.
Proof.
  intros Hc prefix name values. induction values as [|x values IH]; intros index v; cbn [validate_each]; [by split|].
  intros [Hv Hall]%IH. apply Hc in Hv as [Hv Hx]. by split; [|constructor].
Qed.
Lemma valid_else (c : bool) path code v w : valid (if c then add_error v path code else w) = negb c && valid w.
Proof. destruct c; cbn [negb andb]; [apply add_valid|done]. Qed.
Ltac split_hypotheses := repeat match goal with H : _ /\ _ |- _ => destruct H end.
Ltac accepted H :=
  cbv zeta in H; repeat (rewrite ?valid_add_when, ?valid_else, ?valid_require, ?valid_bounded, ?valid_add_if, ?andb_true_iff, ?negb_true_iff in H); split_hypotheses.

Record domain_facts (i : domain_input) : Prop := {
  df_id : valid_uuid (in_domain_id i) = true;
  df_hostname : exists h, in_hostname i = Some h /\ is_hostname h true = true;
  df_mode : present (in_dns_mode i) = true
}.
Lemma domain_accepted i path v : valid (validate_domain_input i path v) = true -> valid v = true /\ domain_facts i.
Proof.
  unfold validate_domain_input. intros Hv. accepted Hv. rewrite negb_false_iff in *. split; [done|].
  destruct (in_hostname i) as [h|] eqn:Eh; [|done]. split; [done|by eauto|]. by destruct (in_dns_mode i).
Qed.

Record origin_facts (i : origin_input) : Prop := {
  of_id : valid_uuid (in_origin_id i) = true;
  of_group : when (in_group i) is_origin_group = true;
  of_protocol : when (in_protocol i) (one_of ["http"; "https"]) = true;
  of_host : when (in_host i) (fun h => negb (empty h)) = true;
  of_port : when (in_port i) (fun p => (1 <=? p) && (p <=? 65535)) = true;
  of_role : when (in_role i) (one_of ["primary"; "backup"]) = true;
  of_weight : when (in_weight i) (fun w => (1 <=? w) && (w <=? 100)) = true;
  of_status : valid_status (in_origin_status i) = true
}.
Lemma origin_accepted i path v : valid (validate_origin_input i path v) = true -> valid v = true /\ origin_facts i.
Proof.
  unfold validate_origin_input. intros Hv. accepted Hv. rewrite negb_false_iff in *. split; [done|]. by split.
Qed.

(** What the checks of the action leave. *)
Definition rewrite_facts (i : rule_input) (pattern : option re2) (action rewrite_path redirect_url : bytes) (status : Z) (group : bytes) : Prop :=
  let mode := text_or (in_rewrite_mode i) [] in
  let query := text_or (in_query_mode i) [] in
  (forall p, pattern = Some p -> capture_template rewrite_path (Z.of_nat (re2_groups p)) = true /\ capture_template redirect_url (Z.of_nat (re2_groups p)) = true) /\
  rewrite_mode mode = true /\ query_mode query = true /\ query_string (text_or (in_query_string i) []) = true /\
  (query != lit "replace") && negb (empty (text_or (in_query_string i) [])) = false /\
  ((mode == lit "none") || (mode == lit "strip_prefix")) && negb (empty rewrite_path) = false /\
  ((mode == lit "replace_path") || (mode == lit "replace_prefix")) && empty rewrite_path = false /\
  (((mode == lit "strip_prefix") || (mode == lit "replace_prefix")) &&
     (negb (when (in_match_type i) (fun t => t == lit "prefix")) || negb (when (in_path i) path_only) ||
      ((mode == lit "replace_prefix") && negb (path_only rewrite_path)))) = false /\
  (action == lit "redirect") && negb (empty mode) && (mode != lit "none") = false /\
  (if action == lit "rewrite" then
     (negb (empty rewrite_path) && negb (path_only rewrite_path)) || negb (empty redirect_url) || negb (status =? 0) || negb (empty group) ||
       when (in_request_headers i) (fun h => negb (empty h)) || when (in_response_headers i) (fun h => negb (empty h))
   else if action == lit "proxy" then
     (negb (empty rewrite_path) && negb (path_only rewrite_path)) || negb (empty redirect_url) || negb (status =? 0) || negb (is_origin_group group)
   else negb (route_redirect_url redirect_url) || negb (redirect_status status) || negb (empty rewrite_path) || negb (empty group)) = false.
Lemma rewrite_accepted i path pattern action rewrite_path redirect_url status group v :
  valid (validate_rewrite i path pattern action rewrite_path redirect_url status group v) = true ->
  valid v = true /\ rewrite_facts i pattern action rewrite_path redirect_url status group.
Proof.
  intros Hv. unfold validate_rewrite in Hv. cbv zeta in Hv. unfold rewrite_facts. cbv zeta.
  assert (forall p, match pattern with Some p => negb (capture_template rewrite_path (Z.of_nat (re2_groups p))) || negb (capture_template redirect_url (Z.of_nat (re2_groups p))) | None => false end = false ->
    pattern = Some p -> capture_template rewrite_path (Z.of_nat (re2_groups p)) = true /\ capture_template redirect_url (Z.of_nat (re2_groups p)) = true) as Hpattern.
  { intros p Hp ->. apply orb_false_iff in Hp as [H1'%negb_false_iff H2'%negb_false_iff]. done. }
  destruct (action == lit "rewrite"); [|destruct (action == lit "proxy")]; accepted Hv;
    repeat match goal with Hq : negb (query_string _) || _ = false |- _ => apply orb_false_iff in Hq as [?%negb_false_iff ?] end;
    repeat match goal with Hq : negb (rewrite_mode _) = false |- _ => apply negb_false_iff in Hq | Hq : negb (query_mode _) = false |- _ => apply negb_false_iff in Hq end;
    (split; [done|]; split_and!; [by auto|done..]).
Qed.

Definition pattern_of (i : rule_input) : option re2 := if when (in_match_type i) (fun t => t == lit "regex") then p ← in_path i; compile_pattern p else None.
Record rule_facts (i : rule_input) : Prop := {
  rf_id : valid_uuid (in_rule_id i) = true;
  rf_status : valid_status (in_rule_status i) = true;
  rf_name : when (in_rule_name i) (fun n => negb (clean_text n max_route_name_bytes)) = false;
  rf_description : when (in_description i) (fun d => max_route_description_bytes <? size d) = false;
  rf_hostnames_size : when (in_hostnames i) (fun hs => max_route_hostnames <? size hs) = false;
  rf_hostnames : when (in_hostnames i) (fun hs => negb (distinct_loop exact_hostname hostname [] hs)) = false;
  rf_match_type : when (in_match_type i) valid_match_type = true;
  rf_path :
    (if when (in_match_type i) (fun t => t == lit "regex") then present (pattern_of i)
     else if when (in_match_type i) (fun t => t == lit "suffix") then when (in_path i) route_suffix
     else when (in_path i) route_path) = true;
  rf_conditions_size : when (in_conditions i) (fun cs => max_route_conditions <? size cs) = false;
  rf_conditions : Forall (fun c => valid_condition_input c = true) (items_or (in_conditions i));
  rf_methods : when (in_methods i) valid_route_methods = true;
  rf_request_headers : when (in_request_headers i) (fun h => max_route_headers <? size h) = false;
  rf_response_headers : when (in_response_headers i) (fun h => max_route_headers <? size h) = false;
  rf_action : when (in_action i) (one_of ["proxy"; "redirect"; "rewrite"]) = true;
  rf_rewrite : forall action rewrite_path redirect_url status group,
    in_action i = Some action -> in_rewrite_path i = Some rewrite_path -> in_redirect_url i = Some redirect_url -> in_redirect_status i = Some status ->
    in_origin_group i = Some group -> rewrite_facts i (pattern_of i) action rewrite_path redirect_url status group
}.

Lemma conditions_accepted conditions path : forall index v,
  valid (validate_conditions conditions path index v) = true -> valid v = true /\ Forall (fun c => valid_condition_input c = true) conditions.
Proof.
  induction conditions as [|c conditions IH]; intros index v; cbn [validate_conditions]; [by split|]. intros [Hv Hall]%IH. accepted Hv.
  rewrite negb_false_iff in *. by split; [|constructor].
Qed.
Lemma metadata_accepted i path v :
  valid (validate_metadata_and_hostnames i path v) = true ->
  valid v = true /\ valid_uuid (in_rule_id i) = true /\ valid_status (in_rule_status i) = true /\
  when (in_rule_name i) (fun n => negb (clean_text n max_route_name_bytes)) = false /\
  when (in_description i) (fun d => max_route_description_bytes <? size d) = false /\
  when (in_hostnames i) (fun hs => max_route_hostnames <? size hs) = false /\
  when (in_hostnames i) (fun hs => negb (distinct_loop exact_hostname hostname [] hs)) = false.
Proof. unfold validate_metadata_and_hostnames. intros Hv. accepted Hv. rewrite negb_false_iff in *. by split_and!. Qed.

Lemma match_accepted i path v pattern v' :
  validate_match_and_headers i path v = (pattern, v') -> valid v' = true ->
  valid v = true /\ pattern = pattern_of i /\ when (in_match_type i) valid_match_type = true /\
  (if when (in_match_type i) (fun t => t == lit "regex") then present (pattern_of i)
   else if when (in_match_type i) (fun t => t == lit "suffix") then when (in_path i) route_suffix else when (in_path i) route_path) = true /\
  when (in_conditions i) (fun cs => max_route_conditions <? size cs) = false /\ Forall (fun c => valid_condition_input c = true) (items_or (in_conditions i)) /\
  when (in_methods i) valid_route_methods = true /\
  when (in_request_headers i) (fun h => max_route_headers <? size h) = false /\ when (in_response_headers i) (fun h => max_route_headers <? size h) = false.
Proof.
  unfold validate_match_and_headers. cbv zeta. fold (pattern_of i). intros [<- <-]%pair_equal_spec Hv. accepted Hv. rewrite negb_false_iff in *.
  assert (forall w, valid (match in_conditions i with Some cs => validate_conditions cs path 0 (add_when (max_route_conditions <? size cs) (at_field path "conditions") (lit "format") w) | None => w end) = true ->
    valid w = true /\ when (in_conditions i) (fun cs => max_route_conditions <? size cs) = false /\ Forall (fun c => valid_condition_input c = true) (items_or (in_conditions i))) as Hconditions.
  { intros w. destruct (in_conditions i) as [cs|]; [|intros Hw; split_and!; [done|done|constructor]]. intros [Hw Hall]%conditions_accepted. accepted Hw. by split_and!. }
  match goal with Hc : valid (match in_conditions i with Some _ => _ | None => _ end) = true |- _ => apply Hconditions in Hc as (Hw & Hsize & Hall) end.
  destruct (when (in_match_type i) (fun t => t == lit "regex")); [|destruct (when (in_match_type i) (fun t => t == lit "suffix"))];
    accepted Hw; unfold missing in *; rewrite negb_false_iff in *; by split_and!.
Qed.

Lemma rule_accepted i path v : valid (validate_rule_input i path v) = true -> valid v = true /\ rule_facts i.
Proof.
  unfold validate_rule_input. cbv zeta. destruct (validate_match_and_headers i path _) as [pattern w] eqn:Em. intros Hv.
  assert (valid w = true /\ when (in_action i) (one_of ["proxy"; "redirect"; "rewrite"]) = true /\
    (forall action rewrite_path redirect_url status group, in_action i = Some action -> in_rewrite_path i = Some rewrite_path -> in_redirect_url i = Some redirect_url ->
       in_redirect_status i = Some status -> in_origin_group i = Some group -> rewrite_facts i pattern action rewrite_path redirect_url status group)) as (Hw & Ha & Hr).
  { unfold validate_action_and_rewrite in Hv. destruct (in_action i) as [action|]; [|by rewrite add_valid in Hv].
    accepted Hv. rewrite negb_false_iff in *. cbn [when].
    destruct (in_rewrite_path i) as [rp|], (in_redirect_url i) as [ru|], (in_redirect_status i) as [st|], (in_origin_group i) as [g|];
      try (split; [done|]; split; [done|]; by intros).
    match goal with Hx : valid (validate_rewrite _ _ _ _ _ _ _ _ _) = true |- _ => apply rewrite_accepted in Hx as [Hw Hf] end.
    split; [done|]. split; [done|]. intros. by simplify_eq. }
  destruct (match_accepted _ _ _ _ _ Em Hw) as (Hm & -> & ? & ? & ? & ? & ? & ? & ?). apply metadata_accepted in Hm as (? & ? & ? & ? & ? & ? & ?).
  split; [done|]. by split.
Qed.

Definition bounded_field (o : option Z) (lo hi : Z) : Prop := exists x, o = Some x /\ lo <= x <= hi.
Lemma bounded_intro (o : option Z) lo hi : present o = true -> match o with Some x => (lo <=? x) && (x <=? hi) | None => true end = true -> bounded_field o lo hi.
Proof. destruct o as [x|]; [|done]. intros _ Hx. exists x. split; [done|]. reflect_bool. lia. Qed.

Record domains_facts (i : config_input) : Prop := {
  ds_domains : exists domains, in_domains i = Some domains /\ domains <> [] /\ Forall domain_facts domains
}.
Lemma domains_accepted body prefix v : valid (validate_domains body prefix v) = true -> valid v = true /\ domains_facts body.
Proof.
  unfold validate_domains. cbv zeta. destruct (in_domains body) as [domains|] eqn:Ed.
  - intros [Hv Hall]%(valid_each _ _ domain_accepted). accepted Hv. split; [done|]. split. exists domains. split; [done|]. by destruct domains.
  - intros Hv. accepted Hv. done.
Qed.

Record origins_facts (i : config_input) : Prop := {
  os_origins : exists origins, in_origins i = Some origins /\ valid_origin_set origins = true /\ Forall origin_facts origins;
  os_group : when (in_default_origin_group i) is_origin_group = true;
  os_version : when (in_origin_http_version i) (fun version => negb (one_of ["auto"; "http1"; "http2"] version)) = false;
  os_header : present (in_origin_host_header i) = true;
  os_connect : bounded_field (in_connect_timeout i) 1 300;
  os_read : bounded_field (in_read_timeout i) 1 600;
  os_pass : present (in_pass_client_ip i) = true
}.
Lemma when_valid {A} (o : option A) test : present o = true -> when o (fun x => negb (test x)) = false -> when o test = true.
Proof. destruct o; [|done]. cbn. by rewrite negb_false_iff. Qed.
Lemma origin_list_accepted body prefix v :
  valid (match in_origins body with
    | None => v
    | Some origins =>
        validate_each validate_origin_input prefix "origins" 0 origins
          (add_if_invalid prefix (in_origins body) "origins" valid_origin_set "custom"
            (add_when (100 <? size origins) (field_path prefix (lit "origins")) (lit "too_big")
              (add_when (empty origins) (field_path prefix (lit "origins")) (lit "too_small") v)))
    end) = true ->
  present (in_origins body) = true -> valid v = true /\ exists origins, in_origins body = Some origins /\ valid_origin_set origins = true /\ Forall origin_facts origins.
Proof.
  destruct (in_origins body) as [origins|]; [|done]. intros [Hv Hall]%(valid_each _ _ origin_accepted) _. accepted Hv. split; [done|].
  exists origins. split_and!; [done| |done]. match goal with Hs : when (Some origins) _ = false |- _ => cbn in Hs; by apply negb_false_iff in Hs end.
Qed.
Lemma origins_accepted body prefix v : valid (validate_origins body prefix v) = true -> valid v = true /\ origins_facts body.
Proof.
  unfold validate_origins. intros Hv. accepted Hv.
  match goal with Hx : valid (max_length _ _ _ 253) = true |- _ => apply length_valid in Hx; accepted Hx end.
  match goal with Hx : valid (max_length _ _ _ 100) = true |- _ => apply length_valid in Hx; accepted Hx end.
  match goal with Hx : valid (match in_origins body with Some _ => _ | None => _ end) = true |- _ => rename Hx into Horigins end.
  assert (present (in_origins body) = true) as Hp.
  { destruct (in_origins body); [done|]. accepted Horigins. done. }
  apply origin_list_accepted in Horigins as [Hx Ho]; [|done]. accepted Hx. split; [done|].
  split; [done|by apply when_valid|done|done|by apply bounded_intro|by apply bounded_intro|done].
Qed.

Record health_facts (i : health_input) : Prop := {
  hf_enabled : present (in_health_enabled i) = true;
  hf_path : when (in_health_path i) route_path = true;
  hf_interval : bounded_field (in_health_interval i) 1 3600;
  hf_timeout : bounded_field (in_health_timeout i) 1 300;
  hf_status : bounded_field (in_health_status i) 100 599;
  hf_healthy : bounded_field (in_healthy_threshold i) 1 10;
  hf_unhealthy : bounded_field (in_unhealthy_threshold i) 1 10
}.
Lemma health_accepted body prefix v : valid (validate_health_check body prefix v) = true -> valid v = true /\ health_facts (in_health body).
Proof.
  unfold validate_health_check. intros Hv. accepted Hv. split; [done|].
  split; try (by apply bounded_intro); try done. by apply when_valid.
Qed.

Record log_facts (i : log_input) : Prop := {
  lf_log : present (normalize_log i) = true;
  lf_ranges : when (in_log_status_code_ranges i) valid_access_log_status_code_ranges = true
}.
Lemma log_accepted body prefix v : valid (validate_access_log_input body prefix v) = true -> valid v = true /\ log_facts (in_log body).
Proof.
  unfold validate_access_log_input. intros Hv. accepted Hv. split; [done|]. split; [|by apply when_valid].
  unfold normalize_log. destruct (in_log body) as [a b c d e f g h r j]. cbn in *.
  destruct a; [|done]. destruct b; [|done]. destruct c; [|done]. destruct d; [|done]. destruct e; [|done]. destruct f; [|done].
  destruct g; [|done]. destruct h; [|done]. destruct r; [|done]. by destruct j.
Qed.

Record https_facts (i : config_input) : Prop := {
  tf_enabled : present (in_https_enabled i) = true;
  tf_certificates : present (in_certificate_ids i) = true;
  tf_version : when (in_minimum_tls_version i) (one_of ["1.2"; "1.3"]) = true;
  tf_force : present (in_force_https i) = true;
  tf_hsts : present (in_hsts_enabled i) = true
}.
Lemma https_accepted body prefix v : valid (validate_https body prefix v) = true -> valid v = true /\ https_facts body.
Proof. unfold validate_https. intros Hv. accepted Hv. split; [done|]. split; try done. by apply when_valid. Qed.

Record compression_facts (i : compression_input) : Prop := {
  cf_enabled : present (in_compression_enabled i) = true;
  cf_min : bounded_field (in_compression_min_bytes i) min_response_compression_bytes max_response_compression_min_bytes;
  cf_max : bounded_field (in_compression_max_bytes i) 0 max_response_compression_bytes;
  cf_algorithms : when (in_compression_algorithms i) valid_compression_algorithms = true;
  cf_mime_types : when (in_compression_mime_types i) (valid_compression_values mime_type) = true;
  cf_extensions : when (in_compression_extensions i) (valid_compression_values extension) = true;
  cf_excluded : when (in_compression_excluded_extensions i) (valid_compression_values extension) = true;
  cf_order : match in_compression_min_bytes i, in_compression_max_bytes i with Some mn, Some mx => negb (mx =? 0) && (mx <? mn) | _, _ => false end = false
}.
Lemma compression_accepted body prefix v : valid (validate_compression body prefix v) = true -> valid v = true /\ compression_facts (in_compression body).
Proof.
  unfold validate_compression. intros Hv. accepted Hv. split; [done|].
  split; try done; try (by apply when_valid); try (by apply bounded_intro).
  destruct (in_compression_max_bytes (in_compression body)) as [x|]; [|done]. exists x. split; [done|]. cbn [when] in *. lia.
Qed.

Lemma rules_accepted body prefix v :
  valid (validate_route_rules_input body prefix v) = true ->
  valid v = true /\ exists rules, in_route_rules body = Some rules /\ size rules <= max_route_rules /\ valid_route_rule_set rules = true /\ Forall rule_facts rules.
Proof.
  unfold validate_route_rules_input. cbv zeta. destruct (in_route_rules body) as [rules|] eqn:Er.
  - intros [Hv Hall]%(valid_each _ _ rule_accepted). accepted Hv. split; [done|]. exists rules. split_and!; [done|lia| |done].
    match goal with Hs : when (Some rules) _ = false |- _ => cbn in Hs; by apply negb_false_iff in Hs end.
  - intros Hv. accepted Hv. done.
Qed.

Definition reference_ok (groups : list bytes) (r : rule_input) : Prop :=
  forall action group, in_action r = Some action -> in_origin_group r = Some group -> check_route_origin_reference action group groups = valid_reference.
Lemma references_accepted body prefix v :
  valid (validate_origin_references body prefix v) = true ->
  valid v = true /\ forall origins group rules, in_origins body = Some origins -> in_default_origin_group body = Some group -> in_route_rules body = Some rules ->
    group ∈ collect_input_groups origins /\ Forall (reference_ok (collect_input_groups origins)) rules.
Proof.
  unfold validate_origin_references. destruct (in_origins body) as [origins|], (in_default_origin_group body) as [group|], (in_route_rules body) as [rules|];
    try (intros Hv; split; [exact Hv|]; by intros).
  cbv zeta. intros [Hv Hall]%(valid_each _ (reference_ok (collect_input_groups origins))).
  - accepted Hv. rewrite negb_false_iff in *. split; [done|]. intros ? ? ? [= <-] [= <-] [= <-]. split; [by eapply bool_decide_eq_true_1|done].
  - intros r path w Hw. unfold validate_reference in Hw. unfold reference_ok. destruct (in_action r) as [action|]; [|split; [done|by intros]].
    destruct (in_origin_group r) as [g|]; [|split; [done|by intros]]. destruct (check_route_origin_reference action g _) eqn:E; [|by rewrite add_valid in Hw..].
    split; [done|]. intros ? ? [= <-] [= <-]. done.
Qed.

(** ** An accepted input *)

Record input_facts (i : config_input) : Prop := {
  if_domains : domains_facts i;
  if_origins : origins_facts i;
  if_health : health_facts (in_health i);
  if_log : log_facts (in_log i);
  if_https : https_facts i;
  if_compression : compression_facts (in_compression i);
  if_rules : exists rules, in_route_rules i = Some rules /\ size rules <= max_route_rules /\ valid_route_rule_set rules = true /\ Forall rule_facts rules;
  if_references : forall origins group rules, in_origins i = Some origins -> in_default_origin_group i = Some group -> in_route_rules i = Some rules ->
    group ∈ collect_input_groups origins /\ Forall (reference_ok (collect_input_groups origins)) rules
}.
Lemma input_accepted status i : valid (validate_website_save_input (SaveInput status (Some i)) new_validator) = true -> present status = true /\ input_facts i.
Proof.
  unfold validate_website_save_input, validate_config_input. cbv zeta. cbn [in_config in_status present]. intros Hv.
  apply references_accepted in Hv as [Hv Hrefs]. apply rules_accepted in Hv as [Hv Hrules]. apply compression_accepted in Hv as [Hv Hcompression].
  apply https_accepted in Hv as [Hv Hhttps]. apply log_accepted in Hv as [Hv Hlog]. apply health_accepted in Hv as [Hv Hhealth].
  apply origins_accepted in Hv as [Hv Horigins]. apply domains_accepted in Hv as [Hv Hdomains]. accepted Hv.
  match goal with Hx : valid (max_length _ _ _ _) = true |- _ => apply length_valid in Hx; rewrite required_valid in Hx; apply andb_true_iff in Hx as [Hx _]; accepted Hx end.
  match goal with Hx : valid (required _ _ _) = true |- _ => rewrite required_valid in Hx; apply andb_true_iff in Hx as [_ Hx] end.
  split; [done|]. by split.
Qed.
End Accepted.
