(* ===== verification/WebsitePublish.v ===== *)
(** Publishing a website: src/service/features/node_dispatch/protocol.h (the website object of a
    release).

    The stored configuration becomes the website the nodes are sent, checked with the nodes' own
    rules. What the console's validator accepts passes them and compiles on the nodes. *)
From S2P Require Import DnsRecord Prelude RoutePolicy RouteMatch OriginSelection CachePolicy RouteProgram SecurityPolicy WebsiteValidation WebsiteInput.
Open Scope Z_scope.

Record available_certificate := AvailableCertificate { certificate_id_ : bytes; certificate_domains_ : list bytes; certificate_chain_pem_ : bytes; private_key_envelope_ : bytes }.
Record website_source := WebsiteSource {
  source_id_ : bytes; source_revision_ : Z; source_enabled_ : bool; config_json_ : bytes; source_cache_ : option policy; source_security_ : option security_policy }.

(** Sealing the certificate into an object of the release: the digest of the object, or the error
    when the private key cannot be opened. *)
Class ReleaseObjects := { certificate_object : available_certificate -> throwing bytes }.
Class ReleaseLaws `{ReleaseObjects} := { digest_present c digest : certificate_object c = Returns digest -> digest <> [] }.

Inductive object_kind := certificate_kind | website_kind.
(** The certificates already in the release, by identifier, and the references of its manifest. *)
Record release := Release { certificate_digests : gmap bytes bytes; references : list (object_kind * bytes) }.

Section Publish.
Context `{ReleaseObjects} `{ConfigJson} `{Re2} `{MatchList.Asio} `{SecurityLibraries}.

Definition ensure_certificate (source : available_certificate) (r : release) : throwing (bytes * release) :=
  match certificate_digests r !! certificate_id_ source with
  | Some digest => Returns (digest, r)
  | None =>
      throwing_bind (certificate_object source) (fun digest =>
      Returns (digest, Release (<[certificate_id_ source := digest]> (certificate_digests r)) (references r ++ [(certificate_kind, digest)])))
  end.
Definition covers (hostname : bytes) (c : available_certificate) : bool := existsb (fun name => certificate_covers_hostname name hostname) (certificate_domains_ c).
(** One turn of the loop over the domains, with the domains so far and whether one is served over HTTPS. *)
Definition append_domain (configured_https : bool) (available : option (list available_certificate)) (state : list domain * bool * release) (input : domain_data) :
    throwing (list domain * bool * release) :=
  let '(domains, effective, r) := state in
  let name := hostname_ input in
  match (if configured_https then certificates ← available; List.find (covers name) certificates else None) with
  | Some certificate =>
      throwing_bind (ensure_certificate certificate r) (fun '(digest, r) => Returns (domains ++ [Domain name true digest], true, r))
  | None => Returns (domains ++ [Domain name false []], effective, r)
  end.
Definition append_website_domains (available : option (list available_certificate)) (config : config_data) (r : release) : throwing (list domain * bool * release) :=
  throwing_fold (append_domain (https_enabled_ config) available) ([], false, r) (domains_ config).

(** [static_cast<std::uint32_t>] *)
Definition u32 (z : Z) : Z := z mod 4294967296.
Definition publish_origin (o : origin_data) : published_origin :=
  PublishedOrigin (mk_website_origin (origin_id_ o) (group_ o) (role_ o) (u32 (weight_ o)) (origin_status_ o == lit "enabled")) (host_ o) (u32 (port_ o)) (protocol_ o).
Definition publish_header (h : header_data) : header_mutation := mk_mutation (header_name_ h) (header_value_ h).
Definition publish_condition (c : condition_data) : route_condition := mk_condition (source_ c) (condition_name_ c) (op_ c) (value_ c).
Definition publish_rule (r : rule_data) : published_rule :=
  PublishedRule
    (mk_route (rule_id_ r) (rule_status_ r == lit "enabled") (match_type_ r) (path_ r) (methods_ r) (action_ r) (rewrite_path_ r) (redirect_url_ r)
      (u32 (redirect_status_ r)) (map publish_header (request_headers_ r)) (map publish_header (response_headers_ r)) [] (origin_group_ r) (hostnames_ r)
      (rewrite_mode_ r) (query_mode_ r) (query_string_ r) (map publish_condition (conditions_ r))) (rule_name_ r) (description_ r).
Definition publish_health (h : health_check) : health_check :=
  HealthCheck (health_check_enabled h) (health_check_path h) (u32 (health_check_interval_seconds h)) (u32 (health_check_timeout_seconds h))
    (u32 (health_check_expected_status h)) (u32 (healthy_threshold h)) (u32 (unhealthy_threshold h)).
Definition publish_compression (c : response_compression) : response_compression :=
  ResponseCompression (compression_enabled c) (u32 (compression_min_bytes c)) (u32 (compression_max_bytes c)) (compression_algorithms c)
    (compression_mime_types c) (compression_extensions c) (compression_excluded_extensions c).
Definition publish_log (l : log_data) : log_fields :=
  LogFields (log_enabled_ l) (log_request_headers_ l) (log_request_body_ l) (log_response_headers_ l) (log_query_params_ l) (log_cookies_ l) (log_referer_ l)
    (log_user_agent_ l) (log_client_abort_ l).
Definition publish_website (source : website_source) (config : config_data) (domains : list domain) (effective_https : bool) : published_website :=
  PublishedWebsite (source_id_ source) (source_revision_ source) (source_enabled_ source) domains (map publish_origin (origins_ config)) (default_origin_group_ config)
    (origin_host_header_ config) (origin_http_version_ config) (u32 (connect_timeout_ config)) (u32 (read_timeout_ config)) (pass_client_ip_ config)
    (publish_health (health_ config)) (publish_log (log_ config)) (log_status_code_ranges_ (log_ config))
    effective_https (minimum_tls_version_ config) (effective_https && force_https_ config) (effective_https && hsts_enabled_ config)
    (publish_compression (compression_ config)) (map publish_rule (route_rules_ config)) (source_security_ source) (to_proto <$> source_cache_ source).
Definition build_website_object (source : website_source) (available : option (list available_certificate)) (r : release) : throwing (published_website * release) :=
  match parse_stored (config_json_ source) with
  | None => Throws (lit "website release source is invalid")
  | Some config =>
      throwing_bind (append_website_domains available config r) (fun '(domains, effective_https, r) =>
      let website := publish_website source config domains effective_https in
      throwing_bind (validate_website website) (fun _ => Returns (website, r)))
  end.
End Publish.

(** * Rules *)

Section Rules.
Context `{RuviaValidator} `{!RuviaLaws} `{AsioV4} `{Re2} `{MatchList.Asio} `{SecurityLibraries}.

Record normalized_rule (i : rule_input) (d : rule_data) : Prop := {
  nr_id : in_rule_id i = Some (rule_id_ d);
  nr_status : in_rule_status i = Some (rule_status_ d);
  nr_match_type : in_match_type i = Some (match_type_ d);
  nr_path : in_path i = Some (path_ d);
  nr_methods : in_methods i = Some (methods_ d);
  nr_action : in_action i = Some (action_ d);
  nr_rewrite_path : in_rewrite_path i = Some (rewrite_path_ d);
  nr_redirect_url : in_redirect_url i = Some (redirect_url_ d);
  nr_redirect_status : in_redirect_status i = Some (redirect_status_ d);
  nr_request : exists hs, in_request_headers i = Some hs /\ Forall2 (fun x y => normalize_header x = Some y) hs (request_headers_ d);
  nr_response : exists hs, in_response_headers i = Some hs /\ Forall2 (fun x y => normalize_header x = Some y) hs (response_headers_ d);
  nr_conditions : Forall2 (fun x y => normalize_condition x = Some y) (items_or (in_conditions i)) (conditions_ d);
  nr_name : rule_name_ d = text_or (in_rule_name i) [];
  nr_description : description_ d = text_or (in_description i) [];
  nr_hostnames : hostnames_ d = map hostname (items_or (in_hostnames i));
  nr_rewrite_mode : rewrite_mode_ d = text_or (in_rewrite_mode i) (if empty (rewrite_path_ d) then lit "none" else lit "replace_path");
  nr_query_mode : query_mode_ d = text_or (in_query_mode i) (lit "preserve");
  nr_query_string : query_string_ d = text_or (in_query_string i) [];
  nr_group : origin_group_ d = text_or (in_origin_group i) []
}.
Lemma normalize_rule_spec i d : normalize_rule i = Some d <-> normalized_rule i d.
Proof.
  unfold normalize_rule. split.
  - intros Hn. destruct i as [id name desc hosts conds mode query qs status mt path methods action rp ru rs group rqh rsh]. cbn in Hn.
    destruct id as [id|]; [|done]. destruct status as [status|]; [|done]. destruct mt as [mt|]; [|done]. destruct path as [path|]; [|done].
    destruct methods as [methods|]; [|done]. destruct action as [action|]; [|done]. destruct rp as [rp|]; [|done]. destruct ru as [ru|]; [|done].
    destruct rs as [rs|]; [|done]. destruct rqh as [rqh|]; [|done]. destruct rsh as [rsh|]; [|done]. cbn [mbind option_bind] in Hn.
    apply bind_Some in Hn as (conditions & Hc & Hn). apply bind_Some in Hn as (rq & Hrq & Hn). apply bind_Some in Hn as (rsp & Hrs & Hn).
    apply mapM_Some in Hc, Hrq, Hrs. injection Hn as <-. split; cbn; try done; by eexists.
  - intros []. destruct nr_request0 as (rqh & Erq & Hrq), nr_response0 as (rsh & Ers & Hrs).
    rewrite nr_id0, nr_status0, nr_match_type0, nr_path0, nr_methods0, nr_action0, nr_rewrite_path0, nr_redirect_url0, nr_redirect_status0, Erq, Ers. cbn [mbind option_bind].
    apply mapM_Some in nr_conditions0, Hrq, Hrs. rewrite nr_conditions0. cbn [mbind option_bind]. rewrite Hrq. cbn [mbind option_bind]. rewrite Hrs. cbn [mbind option_bind].
    destruct d. cbn in *. by subst.
Qed.

Lemma headers_publish hs ds :
  valid_route_header_set hs = true -> size hs <= max_route_headers -> Forall2 (fun x y => normalize_header x = Some y) hs ds -> route_headers (map publish_header ds) = true.
Proof.
  unfold valid_route_header_set, route_headers. rewrite !distinct_loop_nil. intros [Hall Hdup] Hsize Hn. apply andb_true_iff. split.
  { apply Z.leb_le. apply Forall2_length in Hn. unfold size in *. rewrite length_map. lia. }
  apply distinct_loop_nil. assert (Hkeys : map (fun h => map lower_ascii (text_or (in_header_name h) [])) hs = map (fun h => map lower_ascii (mutation_name h)) (map publish_header ds)).
  { clear -Hn. induction Hn as [|h d hs ds Hh _ IH]; [done|]. cbn [map]. f_equal; [|done]. unfold normalize_header in Hh.
    destruct (in_header_name h) as [n|], (in_header_value h) as [x|]; cbn in Hh; simplify_eq. done. }
  split; [|by rewrite <- Hkeys]. clear -Hall Hn. induction Hn as [|h d hs ds Hh _ IH]; [constructor|]. apply Forall_cons in Hall as [Hv Hall].
  cbn [map]. constructor; [|by apply IH]. unfold valid_header in Hv. unfold normalize_header in Hh.
  destruct (in_header_name h) as [n|], (in_header_value h) as [x|]; cbn in Hh; simplify_eq. done.
Qed.
Lemma conditions_publish cs ds :
  Forall (fun c => valid_condition_input c = true) cs -> Forall2 (fun x y => normalize_condition x = Some y) cs ds ->
  check_all (fun c => ensure (valid_condition c) "invalid route condition") (map publish_condition ds) = Returns tt /\ size ds = size cs.
Proof.
  intros Hall Hn. split; [|by unfold size; rewrite (Forall2_length _ _ _ Hn)]. apply check_all_spec.
  induction Hn as [|c d cs ds Hc _ IH]; [constructor|]. apply Forall_cons in Hall as [Hv Hall]. cbn [map]. constructor; [|by apply IH].
  apply ensure_returns. unfold valid_condition_input in Hv. unfold normalize_condition in Hc.
  destruct (in_source c), (in_name c), (in_op c), (in_value c); cbn in Hc; simplify_eq. done.
Qed.
Lemma hostnames_publish hs :
  distinct_loop exact_hostname hostname [] hs = true -> distinct_loop exact_hostname hostname [] (map hostname hs) = true.
Proof.
  rewrite !distinct_loop_nil. intros [Hall Hdup]. split.
  - apply Forall_map. eapply Forall_impl; [exact Hall|]. intros h Hh. by apply hostname_normal.
  - assert (map hostname (map hostname hs) = map hostname hs) as ->; [|done]. rewrite map_map. apply map_ext_in. intros h Hh%list_elem_of_In.
    rewrite Forall_forall in Hall. by apply hostname_normal, Hall.
Qed.

(** The stored modes are the console's, the missing ones filled in. *)
Definition stored_mode (i : rule_input) (rewrite_path : bytes) : bytes := text_or (in_rewrite_mode i) (if empty rewrite_path then lit "none" else lit "replace_path").
Lemma stored_mode_cases i rewrite_path :
  (stored_mode i rewrite_path = text_or (in_rewrite_mode i) []) \/
  (text_or (in_rewrite_mode i) [] = [] /\ empty rewrite_path = true /\ stored_mode i rewrite_path = lit "none") \/
  (text_or (in_rewrite_mode i) [] = [] /\ empty rewrite_path = false /\ stored_mode i rewrite_path = lit "replace_path").
Proof. unfold stored_mode. destruct (in_rewrite_mode i) as [m|]; cbn [text_or]; [by left|]. right. destruct (empty rewrite_path); [by left|by right]. Qed.

Section Rule.
Context (i : rule_input) (d : rule_data) (Hfacts : rule_facts i) (Hn : normalized_rule i d) (Hheaders : valid_rule_headers i = true).

Lemma rule_group : in_origin_group i = Some (origin_group_ d).
Proof. rewrite (nr_group _ _ Hn). unfold valid_rule_headers in Hheaders. rewrite !andb_true_iff in Hheaders. destruct Hheaders as [_ Hg]. by destruct (in_origin_group i). Qed.
Lemma rule_rewrite_facts : rewrite_facts i (pattern_of i) (action_ d) (rewrite_path_ d) (redirect_url_ d) (redirect_status_ d) (origin_group_ d).
Proof. apply (rf_rewrite _ Hfacts); try apply Hn. apply rule_group. Qed.

Lemma pattern_publishes : validate_route_pattern (route (publish_rule d)) = Returns tt.
Proof.
  unfold validate_route_pattern. cbn [publish_rule route r_match_type r_path r_rewrite_path r_redirect_url]. destruct (match_type_ d == lit "regex") eqn:Em; [|done].
  pose proof (rf_path _ Hfacts) as Hp. pose proof rule_rewrite_facts as [Hpattern _]. unfold pattern_of in Hp, Hpattern.
  rewrite (nr_match_type _ _ Hn), (nr_path _ _ Hn) in Hp, Hpattern. cbn [when] in Hp, Hpattern. rewrite Em in Hp, Hpattern. cbn [mbind option_bind] in Hp, Hpattern.
  destruct (compile_pattern (path_ d)) as [p|]; [|done]. destruct (Hpattern p eq_refl) as [-> ->]. done.
Qed.

Lemma policy_publishes : invalid_route_policy (publish_rule d) = false.
Proof.
  pose proof rule_rewrite_facts as (_ & Hmode & Hquery & Hqs & Hqr & Hnone & Hreplace & Hprefix & Hredirect & _).
  unfold invalid_route_policy. cbn [publish_rule route route_name route_description r_rewrite_mode r_hostnames r_query_mode r_query_string r_rewrite_path r_match_type r_path r_action].
  rewrite (nr_rewrite_mode _ _ Hn), (nr_query_mode _ _ Hn), (nr_query_string _ _ Hn), (nr_name _ _ Hn), (nr_description _ _ Hn), (nr_hostnames _ _ Hn).
  fold (stored_mode i (rewrite_path_ d)). rewrite (nr_match_type _ _ Hn), (nr_path _ _ Hn) in Hprefix. cbn [when] in Hprefix.
  assert (clean_text (text_or (in_rule_name i) []) max_route_name_bytes = true) as ->.
  { pose proof (rf_name _ Hfacts) as Hx. destruct (in_rule_name i); [|done]. by apply negb_false_iff in Hx. }
  assert ((max_route_description_bytes <? size (text_or (in_description i) [])) = false) as ->.
  { pose proof (rf_description _ Hfacts) as Hx. by destruct (in_description i). }
  assert ((max_route_hostnames <? size (map hostname (items_or (in_hostnames i)))) = false) as ->.
  { pose proof (rf_hostnames_size _ Hfacts) as Hx. destruct (in_hostnames i); [|done]. unfold size in *. by rewrite length_map. }
  assert (query_mode (text_or (in_query_mode i) (lit "preserve")) = true) as -> by (by destruct (in_query_mode i)).
  assert ((text_or (in_query_mode i) (lit "preserve") != lit "replace") && negb (empty (text_or (in_query_string i) [])) = false) as -> by (by destruct (in_query_mode i)).
  rewrite Hqs. cbn [negb orb].
  destruct (stored_mode_cases i (rewrite_path_ d)) as [->|[(Hm & He & ->)|(Hm & He & ->)]].
  - rewrite Hmode, Hnone, Hreplace, Hprefix. cbn [negb orb]. exact Hredirect.
  - rewrite He. cbn [negb orb andb]. rewrite !andb_false_r. change (lit "none" == lit "replace_path") with false. change (lit "none" == lit "replace_prefix") with false.
    change (lit "none" == lit "strip_prefix") with false. change (lit "none" != lit "none") with false. change (rewrite_mode (lit "none")) with true.
    rewrite ?andb_false_r. done.
  - rewrite He. change (rewrite_mode (lit "replace_path")) with true. change (lit "replace_path" == lit "none") with false.
    change (lit "replace_path" == lit "strip_prefix") with false. change (lit "replace_path" == lit "replace_prefix") with false.
    cbn [negb orb andb]. pose proof rule_rewrite_facts as Hall. destruct Hall as (_ & _ & _ & _ & _ & _ & _ & _ & _ & Hlast).
    destruct (action_ d == lit "redirect") eqn:Ea; [|done]. exfalso. apply bool_decide_eq_true in Ea. rewrite Ea in Hlast.
    change (lit "redirect" == lit "rewrite") with false in Hlast. change (lit "redirect" == lit "proxy") with false in Hlast. cbv iota in Hlast.
    rewrite !orb_false_iff in Hlast. destruct Hlast as [[_ Hlast] _]. by rewrite He in Hlast.
Qed.

Lemma fields_publish (ids : gset bytes) : rule_id_ d ∉ ids -> invalid_route_rule ids (route (publish_rule d)) = false.
Proof.
  intros Hid. unfold invalid_route_rule.
  cbn [publish_rule route r_id r_match_type r_path r_methods r_action r_request_headers r_response_headers].
  pose proof (rf_id _ Hfacts) as Huuid. rewrite (nr_id _ _ Hn) in Huuid.
  assert (empty (rule_id_ d) = false) as -> by (by destruct (rule_id_ d)). rewrite (bool_decide_eq_false_2 _ Hid).
  pose proof (rf_match_type _ Hfacts) as Hm. rewrite (nr_match_type _ _ Hn) in Hm. cbn [when] in Hm. rewrite Hm.
  pose proof (rf_path _ Hfacts) as Hp. rewrite (nr_match_type _ _ Hn), (nr_path _ _ Hn) in Hp. cbn [when] in Hp.
  pose proof (rf_methods _ Hfacts) as Hmethods. rewrite (nr_methods _ _ Hn) in Hmethods. cbn [when] in Hmethods.
  change (valid_route_methods (methods_ d)) with (route_methods (methods_ d)) in Hmethods. rewrite Hmethods.
  pose proof (rf_action _ Hfacts) as Ha. rewrite (nr_action _ _ Hn) in Ha. cbn [when] in Ha. unfold one_of in Ha. cbn [existsb] in Ha.
  assert (((action_ d != lit "proxy") && (action_ d != lit "redirect") && (action_ d != lit "rewrite")) = false) as ->.
  { destruct (action_ d == lit "proxy"); [done|]. destruct (action_ d == lit "redirect"); [done|]. by destruct (action_ d == lit "rewrite"). }
  unfold valid_rule_headers in Hheaders. rewrite !andb_true_iff in Hheaders. destruct Hheaders as [[[_ Hrq] Hrs] _].
  destruct (nr_request _ _ Hn) as (rq & Erq & Fq), (nr_response _ _ Hn) as (rs & Ers & Fs). rewrite Erq in Hrq. rewrite Ers in Hrs. cbn [when] in Hrq, Hrs.
  pose proof (rf_request_headers _ Hfacts) as Sq. pose proof (rf_response_headers _ Hfacts) as Ss. rewrite Erq in Sq. rewrite Ers in Ss. cbn [when] in Sq, Ss.
  rewrite (headers_publish rq), (headers_publish rs) by (done || (unfold size in *; lia)). cbn [negb orb]. rewrite !orb_false_r.
  destruct (match_type_ d == lit "regex") eqn:Er; cbn [negb andb].
  - destruct (match_type_ d == lit "suffix") eqn:Es; [|done]. apply bool_decide_eq_true in Er, Es. by rewrite Er in Es.
  - destruct (match_type_ d == lit "suffix"); by rewrite Hp.
Qed.

Lemma action_publishes w : (action_ d = lit "proxy" -> route_origin_group (route (publish_rule d)) w = true) -> validate_route_action w (route (publish_rule d)) = Returns tt.
Proof.
  intros Hw. pose proof rule_rewrite_facts as (_ & _ & _ & _ & _ & _ & _ & _ & _ & Hlast). unfold validate_route_action, invalid_rewrite_path.
  cbn [publish_rule route] in Hw |- *. cbn [r_action r_origin_ids r_origin_group r_redirect_url r_redirect_status r_request_headers r_response_headers r_rewrite_path].
  destruct (nr_request _ _ Hn) as (rq & Erq & Fq), (nr_response _ _ Hn) as (rs & Ers & Fs). rewrite Erq, Ers in Hlast. cbn [when] in Hlast.
  destruct (action_ d == lit "rewrite") eqn:Er; [|destruct (action_ d == lit "proxy") eqn:Ep]; rewrite !orb_false_iff in Hlast; apply ensure_returns, negb_true_iff; rewrite !orb_false_iff.
  - destruct Hlast as [[[[[Hrp Hru] Hst] Hg] Hq] Hs]. apply negb_false_iff, Z.eqb_eq in Hst. rewrite Hst. destruct rq; [|done]. destruct rs; [|done].
    apply Forall2_nil_inv_l in Fq, Fs. rewrite Fq, Fs. split_and!; done.
  - destruct Hlast as [[[Hrp Hru] Hst] Hg]. apply negb_false_iff, Z.eqb_eq in Hst. apply bool_decide_eq_true in Ep. rewrite (Hw Ep), Hst. split_and!; done.
  - destruct Hlast as [[[Hru Hst] Hrp] Hg].
    assert (u32 (redirect_status_ d) = redirect_status_ d) as ->.
    { unfold u32. apply Z.mod_small. unfold redirect_status in Hst. apply negb_false_iff in Hst. reflect_bool. lia. }
    split_and!; done.
Qed.

Lemma rule_publishes (w : published_website) (ids : gset bytes) :
  rule_id_ d ∉ ids -> (action_ d = lit "proxy" -> route_origin_group (route (publish_rule d)) w = true) ->
  validate_route_rule w ids (publish_rule d) = Returns ({[rule_id_ d]} ∪ ids).
Proof.
  intros Hid Hw. unfold validate_route_rule. cbv zeta. rewrite pattern_publishes. cbn [throwing_bind].
  destruct (conditions_publish _ _ (rf_conditions _ Hfacts) (nr_conditions _ _ Hn)) as [Hc Hsize].
  change (r_conditions (route (publish_rule d))) with (map publish_condition (conditions_ d)).
  change (r_hostnames (route (publish_rule d))) with (hostnames_ d). change (r_id (route (publish_rule d))) with (rule_id_ d).
  assert ((max_route_conditions <? size (map publish_condition (conditions_ d))) = false) as ->.
  { pose proof (rf_conditions_size _ Hfacts) as Hx. unfold size in *. rewrite length_map.
    destruct (in_conditions i); cbn [when items_or] in *; [by rewrite Hsize|]. by rewrite Hsize. }
  rewrite Hc. cbn [throwing_bind]. rewrite policy_publishes.
  assert (distinct_loop exact_hostname hostname [] (hostnames_ d) = true) as ->.
  { rewrite (nr_hostnames _ _ Hn). pose proof (rf_hostnames _ Hfacts) as Hx. destruct (in_hostnames i); cbn [when items_or] in *; [|done].
    apply hostnames_publish. by apply negb_false_iff. }
  cbn [ensure throwing_bind]. rewrite (fields_publish ids Hid), (action_publishes w Hw). done.
Qed.
End Rule.
End Rules.

(** * Origins and domains *)

Lemma normalize_domain_output i d : normalize_domain i = Some d <-> i = domain_output d.
Proof.
  split; [|intros ->; by destruct d]. unfold normalize_domain. destruct i as [[id|] [h|] [m|]]; cbn; try done. by intros [= <-].
Qed.
Lemma normalize_origin_output i d : normalize_origin i = Some d <-> i = origin_output d.
Proof.
  split; [|intros ->; by destruct d]. unfold normalize_origin. destruct i as [[id|] [g|] [p|] [h|] [port|] [r|] [w|] [s|]]; cbn; try done. by intros [= <-].
Qed.
Lemma normalize_health_output i d : normalize_health i = Some d <-> i = health_output d.
Proof.
  split; [|intros ->; by destruct d]. unfold normalize_health. destruct i as [[e|] [p|] [n|] [t|] [s|] [h|] [u|]]; cbn; try done. by intros [= <-].
Qed.
Lemma normalize_log_output i d : normalize_log i = Some d <-> i = log_output d.
Proof.
  split; [|intros ->; by destruct d]. unfold normalize_log. destruct i as [[a|] [b|] [c|] [e|] [f|] [g|] [h|] [k|] [r|] [j|]]; cbn; try done. by intros [= <-].
Qed.
Lemma normalize_compression_output i d : normalize_compression i = Some d <-> i = compression_output d.
Proof.
  split; [|intros ->; by destruct d]. unfold normalize_compression. destruct i as [[e|] [mn|] [mx|] [a|] [m|] [x|] [y|]]; cbn; try done. by intros [= <-].
Qed.
Lemma mapM_output {A B} (f : A -> option B) (g : B -> A) (Hf : forall i d, f i = Some d <-> i = g d) xs ds : mapM f xs = Some ds <-> xs = map g ds.
Proof.
  rewrite mapM_Some. split.
  - induction 1 as [|i d xs ds Hi _ IH]; [done|]. cbn [map]. apply Hf in Hi. by subst.
  - intros ->. induction ds as [|d ds IH]; [constructor|]. cbn [map]. constructor; [by apply Hf|done].
Qed.

Definition group_set (test : origin_data -> bool) (os : list origin_data) : gset bytes := list_to_set (map group_ (List.filter test os)).
Definition enabled_data (o : origin_data) : bool := origin_status_ o == lit "enabled".
Definition primary_data (o : origin_data) : bool := enabled_data o && (role_ o == lit "primary").
Lemma groups_of_output (os : list origin_data) :
  groups_of has_status (map origin_output os) = group_set enabled_data os /\ groups_of has_primary (map origin_output os) = group_set primary_data os.
Proof.
  unfold groups_of, group_set. split; f_equal; induction os as [|o os IH]; try done; cbn [map List.filter].
  - change (has_status (origin_output o)) with (enabled_data o). destruct (enabled_data o); cbn [map]; by rewrite IH.
  - change (has_primary (origin_output o)) with (primary_data o). destruct (primary_data o); cbn [map]; by rewrite IH.
Qed.
Lemma collect_groups_output (os : list origin_data) : collect_input_groups (map origin_output os) = map group_ (List.filter enabled_data os).
Proof.
  unfold collect_input_groups. induction os as [|o os IH]; [done|]. cbn [map List.filter omap list_omap]. change (has_status (origin_output o)) with (enabled_data o).
  change (in_group (origin_output o)) with (Some (group_ o)). destruct (enabled_data o); cbn [map]; by rewrite <- IH.
Qed.
Lemma group_set_in test (os : list origin_data) g : g ∈ group_set test os <-> exists o, o ∈ os /\ test o = true /\ group_ o = g.
Proof.
  unfold group_set. rewrite elem_of_list_to_set, list_elem_of_fmap. setoid_rewrite list_elem_of_In. setoid_rewrite filter_In. setoid_rewrite <- list_elem_of_In. naive_solver.
Qed.

Section Origins.
Context `{AsioV4}.

Lemma group_default g : is_origin_group g = true -> or_default g = g.
Proof. unfold is_origin_group, or_default. by destruct g. Qed.
Lemma u32_small z : 0 <= z < 4294967296 -> u32 z = z.
Proof. apply Z.mod_small. Qed.

Lemma origin_publishes o state :
  origin_facts (origin_output o) ->
  validate_origin state (publish_origin o) =
    Returns (if enabled_data o then ({[group_ o]} ∪ fst state, if role_ o == lit "primary" then {[group_ o]} ∪ snd state else snd state) else state).
Proof.
  intros [Hid Hg Hp Hh Hport Hr Hw Hs]. destruct state as [eg pg]. unfold validate_origin.
  cbn [publish_origin origin enabled origin_id origin_host origin_port origin_protocol role weight group]. fold (enabled_data o).
  destruct (enabled_data o); cbn [negb]; [|done]. cbn [origin_output in_origin_id in_group in_protocol in_host in_port in_role in_weight when] in *.
  assert (empty (origin_id_ o) = false) as -> by (by destruct (origin_id_ o)). apply negb_true_iff in Hh. rewrite Hh, Hp, Hr. reflect_bool.
  rewrite (u32_small (port_ o)), (u32_small (weight_ o)), (group_default _ Hg) by lia.
  rewrite (proj2 (Z.eqb_neq (port_ o) 0)), (proj2 (Z.ltb_ge 65535 (port_ o))), (proj2 (Z.eqb_neq (weight_ o) 0)) by lia. done.
Qed.
Lemma union_move (x : bytes) (s t : gset bytes) : s ∪ ({[x]} ∪ t) = {[x]} ∪ s ∪ t.
Proof. set_solver. Qed.
Lemma origins_fold (os : list origin_data) : forall eg pg : gset bytes,
  Forall (fun o => origin_facts (origin_output o)) os ->
  exists eg' pg', throwing_fold validate_origin (eg, pg) (map publish_origin os) = Returns (eg', pg') /\ eg' = group_set enabled_data os ∪ eg /\ pg' = group_set primary_data os ∪ pg.
Proof.
  induction os as [|o os IH]; intros eg pg Hall; cbn [map throwing_fold].
  { exists eg, pg. unfold group_set. cbn. by rewrite !(left_id_L ∅ (∪)). }
  apply Forall_cons in Hall as [Ho Hall]. rewrite origin_publishes by done. cbn [throwing_bind fst snd].
  assert (forall test, group_set test (o :: os) = (if test o then {[group_ o]} ∪ group_set test os else group_set test os)) as Hcons.
  { intros test. unfold group_set. cbn [List.filter]. by destruct (test o). }
  rewrite !Hcons. change (primary_data o) with (enabled_data o && (role_ o == lit "primary")). destruct (enabled_data o); cbn [andb].
  - destruct (IH ({[group_ o]} ∪ eg) (if role_ o == lit "primary" then {[group_ o]} ∪ pg else pg) Hall) as (eg' & pg' & -> & -> & ->).
    do 2 eexists. split; [done|]. rewrite union_move. 
    destruct (role_ o == lit "primary"); rewrite ?union_move; done.
  - destruct (IH eg pg Hall) as (eg' & pg' & -> & -> & ->). do 2 eexists. done.
Qed.
End Origins.

(** A host name of the console has a name left when it is normalized. *)
Lemma hostname_shorter h : (length (hostname h) <= length h)%nat.
Proof.
  unfold hostname. rewrite length_map. unfold strip_dot. assert (length (upto (find_char ":" h) h) <= length h)%nat.
  { unfold upto. destruct (find_char ":" h); [|done]. rewrite length_take. lia. }
  destruct (ends_with _ _); [rewrite length_take|]; lia.
Qed.
Lemma hostname_front c h : c <> ":"%char -> c <> "."%char -> hostname (c :: h) <> [].
Proof.
  intros Hc Hd. unfold hostname. assert (exists rest, upto (find_char ":" (c :: h)) (c :: h) = c :: rest) as [rest ->].
  { unfold find_char. cbn [find_if]. assert ((c == ":"%char) = false) as -> by (by apply bool_decide_eq_false). destruct (find_if _ h) as [n|]; cbn; eauto. }
  assert (strip_dot (c :: rest) <> []) as Hs; [|by destruct (strip_dot (c :: rest))]. unfold strip_dot. destruct (ends_with (c :: rest) (lit ".")) eqn:E; [|done].
  apply ends_with_spec in E as [r Hr]. destruct rest as [|x rest]; [|done]. destruct r as [|y r]; [by injection Hr as ->|]. by destruct r.
Qed.
Lemma loop_front fuel value n : hostname_loop fuel value n = true -> exists c rest, value = c :: rest /\ c <> ":"%char /\ c <> "."%char.
Proof.
  destruct fuel as [|fuel]; [done|]. cbn [hostname_loop]. destruct value as [|c rest]; [done|]. cbn [empty].
  destruct (negb (is_valid_dns_label _ _)) eqn:El; [done|]. intros _. exists c, rest. split; [done|]. apply negb_false_iff in El.
  assert (forall label b, is_valid_dns_label label b = true -> exists x l, label = x :: l /\ is_alnum x = true) as Hlabel.
  { intros label b Hl. unfold is_valid_dns_label in Hl. destruct label as [|x l]; [done|]. exists x, l. split; [done|]. cbn [empty orb] in Hl. destruct (63 <? _); [done|].
    destruct b; [destruct (size _ <? 2); [done|]; cbn [forallb] in Hl; apply andb_true_iff in Hl as [Hl _]; unfold is_alnum; by rewrite Hl|].
    destruct (negb _ || _)%bool eqn:E; [done|]. apply orb_false_iff in E as [E _]. by apply negb_false_iff in E. }
  apply Hlabel in El as (x & l & Hx & Ha). assert (x = c) as ->.
  { unfold upto in Hx. destruct (find_char "." (c :: rest)) as [[|n']|]; cbn in Hx; by simplify_eq. }
  split; intros ->; by vm_compute in Ha.
Qed.
Lemma is_hostname_normal h : is_hostname h true = true -> hostname h <> [] /\ size (hostname h) <= 253.
Proof.
  unfold is_hostname. destruct (empty h || (253 <? size h)) eqn:E; [done|]. apply orb_false_iff in E as [_ Hs]. intros Hh. pose proof (hostname_shorter h) as Hl. split; [|unfold size in *; lia].
  destruct (starts_with h (lit "*.")) eqn:Ew.
  - apply starts_with_spec in Ew as [r ->]. by apply hostname_front.
  - apply loop_front in Hh as (c & rest & -> & Hc & Hd). by apply hostname_front.
Qed.

(** * Configurations *)

Section Configs.
Context `{RuviaValidator} `{!RuviaLaws} `{AsioV4} `{Re2}.

(** The fields of a rule that the validator does not ask for and the mapper does. *)
Definition rewritable (r : rule_input) : bool := present (in_rewrite_path r) && present (in_redirect_url r) && present (in_redirect_status r).

Lemma mapM_total {A B} (f : A -> option B) l : Forall (fun x => is_Some (f x)) l -> exists k, mapM f l = Some k /\ Forall2 (fun x y => f x = Some y) l k.
Proof.
  induction 1 as [|x l [y Hy] _ (k & Hk & Hf)]; [exists []; by split; [|constructor]|]. exists (y :: k). cbn. rewrite Hy. cbn. rewrite Hk. cbn. split; [done|]. by constructor.
Qed.
Lemma headers_normalize hs : valid_route_header_set hs = true -> exists ds, Forall2 (fun x y => normalize_header x = Some y) hs ds.
Proof.
  unfold valid_route_header_set. rewrite distinct_loop_nil. intros [Hall _]. destruct (mapM_total normalize_header hs) as (ds & _ & Hd); [|by exists ds].
  eapply Forall_impl; [exact Hall|]. intros [[n|] [x|]]; cbn; try done; by eexists.
Qed.
Lemma rule_normalizes r : rule_facts r -> valid_rule_headers r = true -> rewritable r = true -> exists d, normalize_rule r = Some d.
Proof.
  intros Hf Hh Hr. unfold valid_rule_headers in Hh. unfold rewritable in Hr. rewrite !andb_true_iff in Hh. rewrite !andb_true_iff in Hr.
  destruct Hh as [[[Hid Hq] Hs] Hg], Hr as [[Hrp Hru] Hrs]. destruct (mapM_total normalize_condition (items_or (in_conditions r))) as (conditions & _ & Hc).
  { eapply Forall_impl; [apply (rf_conditions _ Hf)|]. intros [[a|] [b|] [c|] [e|]]; cbn; try done; by eexists. }
  pose proof (rf_status _ Hf) as Hstatus. pose proof (rf_match_type _ Hf) as Hm. pose proof (rf_path _ Hf) as Hp. pose proof (rf_methods _ Hf) as Hmethods.
  pose proof (rf_action _ Hf) as Ha. unfold pattern_of in Hp.
  destruct r as [[id|] name desc hosts conds mode query qs [status|] [mt|] path [methods|] [action|] [rp|] [ru|] [rs|] group [rqh|] [rsh|]]; try done.
  assert (exists p, path = Some p) as [p ->].
  { destruct path as [p|]; [by exists p|]. cbn in Hp. destruct (_ == _); [done|]. by destruct (_ == _). }
  cbn [when in_request_headers in_response_headers] in Hq, Hs. destruct (headers_normalize rqh Hq) as [rq Hrq], (headers_normalize rsh Hs) as [rsp Hrsp].
  eexists (RuleData id _ _ _ conditions _ _ _ status mt p methods action rp ru rs _ rq rsp). apply normalize_rule_spec. split; cbn; try done; by eexists.
Qed.

Record normalized_config (i : config_input) (d : config_data) : Prop := {
  nc_domains : in_domains i = Some (map domain_output (domains_ d));
  nc_origins : in_origins i = Some (map origin_output (origins_ d));
  nc_group : in_default_origin_group i = Some (default_origin_group_ d);
  nc_version : origin_http_version_ d = text_or (in_origin_http_version i) (lit "auto");
  nc_connect : in_connect_timeout i = Some (connect_timeout_ d);
  nc_read : in_read_timeout i = Some (read_timeout_ d);
  nc_health : in_health i = health_output (health_ d);
  nc_log : in_log i = log_output (log_ d);
  nc_tls : in_minimum_tls_version i = Some (minimum_tls_version_ d);
  nc_compression : in_compression i = compression_output (compression_ d);
  nc_rules : exists rules, in_route_rules i = Some rules /\ Forall2 (fun x y => normalize_rule x = Some y) rules (route_rules_ d);
  nc_default : default_origin_group_ d ∈ map group_ (List.filter enabled_data (origins_ d));
  nc_references : Forall (fun r => check_route_origin_reference (action_ r) (origin_group_ r) (map group_ (List.filter enabled_data (origins_ d))) = valid_reference) (route_rules_ d)
}.

Lemma present_some {A} (o : option A) : present o = true -> exists x, o = Some x.
Proof. destruct o as [x|]; [by exists x|done]. Qed.
Lemma when_some {A} (o : option A) test : when o test = true -> exists x, o = Some x /\ test x = true.
Proof. destruct o as [x|]; [by exists x|done]. Qed.

Lemma origins_normalize origins : Forall origin_facts origins -> exists ds, origins = map origin_output ds.
Proof.
  intros Hall. destruct (mapM_total normalize_origin origins) as (ds & Hd & _); [|exists ds; by apply (mapM_output _ _ normalize_origin_output)].
  eapply Forall_impl; [exact Hall|]. intros [[a|] [b|] [c|] [e|] [f|] [g|] [h|] [j|]] []; cbn in *; try done; try by eexists.
Qed.
Lemma domains_normalize domains : Forall domain_facts domains -> exists ds, domains = map domain_output ds.
Proof.
  intros Hall. destruct (mapM_total normalize_domain domains) as (ds & Hd & _); [|exists ds; by apply (mapM_output _ _ normalize_domain_output)].
  eapply Forall_impl; [exact Hall|]. intros [[a|] [b|] [c|]] [Hid (h & Hh & _) Hm]; cbn in *; try done; try by eexists.
Qed.
Lemma health_normalizes i : health_facts i -> exists d, normalize_health i = Some d.
Proof.
  intros [He (p & Ep & _)%when_some (n & En & _) (t & Et & _) (s & Es & _) (h & Eh & _) (u & Eu & _)]. apply present_some in He as [e Ee].
  unfold normalize_health. rewrite Ee, Ep, En, Et, Es, Eh, Eu. cbn. eauto.
Qed.
Lemma compression_normalizes i : compression_facts i -> exists d, normalize_compression i = Some d.
Proof.
  intros [He (mn & Emn & _) (mx & Emx & _) (a & Ea & _)%when_some (m & Em & _)%when_some (x & Ex & _)%when_some (y & Ey & _)%when_some _].
  apply present_some in He as [e Ee]. unfold normalize_compression. rewrite Ee, Emn, Emx, Ea, Em, Ex, Ey. cbn. eauto.
Qed.

Lemma references_hold rules data groups :
  Forall (reference_ok groups) rules -> Forall (fun r => valid_rule_headers r = true) rules -> Forall2 (fun x y => normalize_rule x = Some y) rules data ->
  Forall (fun r => check_route_origin_reference (action_ r) (origin_group_ r) groups = valid_reference) data.
Proof.
  intros Hrefs Hheaders Hn. induction Hn as [|r d rules data Hd _ IH]; [constructor|]. apply Forall_cons in Hrefs as [Hr Hrefs], Hheaders as [Hh Hheaders].
  constructor; [|by apply IH]. apply normalize_rule_spec in Hd. apply Hr; [apply (nr_action _ _ Hd)|by apply rule_group].
Qed.

Lemma rules_normalize rules :
  Forall rule_facts rules -> Forall (fun r => valid_rule_headers r = true) rules -> Forall (fun r => rewritable r = true) rules ->
  exists data, mapM normalize_rule rules = Some data /\ Forall2 (fun x y => normalize_rule x = Some y) rules data.
Proof.
  rewrite !Forall_forall. intros Hf Hh Hr. apply mapM_total, Forall_forall. intros r Hin. destruct (rule_normalizes r) as [d Hd]; [by auto..|]. by exists d.
Qed.

(** An accepted input whose rules have all their fields is turned into a configuration. *)
Lemma config_normalizes i :
  input_facts i -> (forall rules, in_route_rules i = Some rules -> Forall (fun r => rewritable r = true) rules) -> exists d, normalize_config i = Some d /\ normalized_config i d.
Proof.
  intros [[(domains & Ed & _ & Hd)] [(origins & Eo & Ho & Hof) Hg Hv Hh (connect & Ec & _) (read & Er & _) Hp] Hhealth [Hlog _] [Hte Htc Htv Htf Hths] Hcomp (rules & Erules & _ & Hset & Hrf) Hrefs] Hrw.
  destruct (domains_normalize domains Hd) as [dd ->]. destruct (origins_normalize origins Hof) as [od ->].
  apply when_some in Hg as (group & Eg & _). apply present_some in Hh as [header Eh]. apply present_some in Hp as [pass Ep].
  destruct (health_normalizes _ Hhealth) as [health Ehealth]. apply present_some in Hlog as [log Elog]. apply present_some in Hte as [https Ete].
  apply present_some in Htc as [certificates Etc]. apply when_some in Htv as (tls & Etv & _). apply present_some in Htf as [force Etf]. apply present_some in Hths as [hsts Eths].
  destruct (compression_normalizes _ Hcomp) as [compression Ecomp]. apply distinct_loop_nil in Hset as [Hheaders _].
  destruct (rules_normalize rules Hrf Hheaders (Hrw rules Erules)) as (data & Edata & Hdata). destruct (Hrefs _ _ _ Eo Eg Erules) as [Hdefault Href].
  rewrite collect_groups_output in Hdefault, Href. pose proof (references_hold _ _ _ Href Hheaders Hdata) as Href'.
  unfold normalize_config. rewrite Ed, Eo, Eg, Eh, Ec, Er, Ep, Ehealth, Elog, Ete, Etc, Etv, Etf, Eths, Ecomp, Erules. cbn [mbind option_bind].
  rewrite (proj2 (mapM_output _ _ normalize_domain_output _ _) eq_refl). cbn [mbind option_bind].
  rewrite (proj2 (mapM_output _ _ normalize_origin_output _ _) eq_refl). cbn [mbind option_bind]. rewrite Edata. cbn [mbind option_bind].
  change (collect_enabled_origin_groups od) with (map group_ (List.filter enabled_data od)). rewrite bool_decide_eq_true_2 by done. cbn [negb].
  assert (existsb (fun r => negb (bool_decide (check_route_origin_reference (action_ r) (origin_group_ r) (map group_ (List.filter enabled_data od)) = valid_reference))) data = false) as ->.
  { apply existsb_false. eapply Forall_impl; [exact Href'|]. intros r Hr. by apply negb_false_iff, bool_decide_eq_true. }
  eexists. split; [done|]. apply normalize_health_output in Ehealth. apply normalize_log_output in Elog. apply normalize_compression_output in Ecomp.
  split; cbn; try done. by exists rules.
Qed.

(** What is stored is read back: the names of the hosts are normalized once. *)
Lemma rule_reads_back r d : rule_facts r -> normalize_rule r = Some d -> normalize_rule (rule_output d) = Some d.
Proof.
  intros Hf Hn%normalize_rule_spec. apply normalize_rule_spec. split; cbn; try done.
  - eexists. split; [done|]. induction (request_headers_ d) as [|[] hs IH]; cbn; by constructor.
  - eexists. split; [done|]. induction (response_headers_ d) as [|[] hs IH]; cbn; by constructor.
  - induction (conditions_ d) as [|[] cs IH]; cbn; by constructor.
  - rewrite (nr_hostnames _ _ Hn), map_map. apply map_ext_in. intros h Hh%list_elem_of_In. pose proof (rf_hostnames _ Hf) as Hx.
    destruct (in_hostnames r) as [hs|]; [|by apply not_elem_of_nil in Hh]. cbn [when items_or] in *. apply negb_false_iff, distinct_loop_nil in Hx as [Hall _].
    rewrite Forall_forall in Hall. symmetry. by apply hostname_normal, Hall.
Qed.
Lemma config_reads_back i d : input_facts i -> normalized_config i d -> normalize_config (to_output d) = Some d.
Proof.
  intros Hi Hn. destruct (if_rules _ Hi) as (rules & Erules & _ & _ & Hrf). destruct (nc_rules _ _ Hn) as (rules' & Erules' & Hdata). rewrite Erules in Erules'. injection Erules' as <-.
  assert (mapM normalize_rule (map rule_output (route_rules_ d)) = Some (route_rules_ d)) as Hrules.
  { apply mapM_Some. revert Hrf Hdata. generalize (route_rules_ d). clear. intros l Hrf Hdata. induction Hdata as [|r dd rules data Hr _ IH]; [constructor|]. apply Forall_cons in Hrf as [Hr' Hrf]. cbn [map]. constructor; [by eapply rule_reads_back|by apply IH]. }
  unfold normalize_config, to_output. cbn [in_domains in_origins in_default_origin_group in_origin_host_header in_connect_timeout in_read_timeout in_pass_client_ip in_health in_log
    in_https_enabled in_certificate_ids in_minimum_tls_version in_force_https in_hsts_enabled in_compression in_route_rules mbind option_bind].
  rewrite (proj2 (normalize_health_output _ _) eq_refl), (proj2 (normalize_log_output _ _) eq_refl). cbn [mbind option_bind]. rewrite (proj2 (normalize_compression_output _ _) eq_refl). cbn [mbind option_bind].
  rewrite (proj2 (mapM_output _ _ normalize_domain_output _ _) eq_refl). cbn [mbind option_bind].
  rewrite (proj2 (mapM_output _ _ normalize_origin_output _ _) eq_refl). cbn [mbind option_bind]. rewrite Hrules. cbn [mbind option_bind].
  change (collect_enabled_origin_groups (origins_ d)) with (map group_ (List.filter enabled_data (origins_ d))). rewrite bool_decide_eq_true_2 by apply (nc_default _ _ Hn). cbn [negb].
  assert (existsb (fun r => negb (bool_decide (check_route_origin_reference (action_ r) (origin_group_ r) (map group_ (List.filter enabled_data (origins_ d))) = valid_reference))) (route_rules_ d) = false) as ->.
  { apply existsb_false. eapply Forall_impl; [apply (nc_references _ _ Hn)|]. intros r Hr. by apply negb_false_iff, bool_decide_eq_true. }
  cbn. by destruct d.
Qed.
End Configs.

(** * The published website passes the nodes' checks *)

Section Published.
Context `{ReleaseObjects} `{!ReleaseLaws} `{ConfigJson} `{!ConfigJsonLaws} `{RuviaValidator} `{!RuviaLaws} `{AsioV4} `{Re2} `{MatchList.Asio} `{SecurityLibraries}.

(** ** Domains *)

Definition release_ok (r : release) : Prop := forall id digest, certificate_digests r !! id = Some digest -> digest <> [].
(** Every certificate of the website can be sealed. *)
Definition certificates_open (available : option (list available_certificate)) : Prop :=
  forall certificates c, available = Some certificates -> c ∈ certificates -> exists digest, certificate_object c = Returns digest.
Lemma ensure_certificate_ok available certificates c r :
  certificates_open available -> available = Some certificates -> c ∈ certificates -> release_ok r ->
  exists digest r', ensure_certificate c r = Returns (digest, r') /\ digest <> [] /\ release_ok r'.
Proof.
  intros Hopen Ha Hin Hr. unfold ensure_certificate. destruct (certificate_digests r !! certificate_id_ c) as [digest|] eqn:E.
  - exists digest, r. split; [done|]. split; [by eapply Hr|done].
  - destruct (Hopen certificates c Ha Hin) as [digest Ed]. rewrite Ed. cbn [throwing_bind]. do 2 eexists. split; [done|]. split; [by eapply digest_present|].
    intros id d. cbn. intros [[_ <-]|[_ Hl]]%lookup_insert_Some; [by eapply digest_present|by eapply Hr].
Qed.

Definition domain_ok (d : domain) : Prop := hostname (domain_hostname d) <> [] /\ size (hostname (domain_hostname d)) <= 253 /\ (domain_https d = true -> certificate_digest d <> []).
Lemma append_domains_ok configured available inputs : certificates_open available -> Forall (fun d => domain_facts (domain_output d)) inputs ->
  forall domains effective r, release_ok r -> Forall domain_ok domains -> effective = existsb domain_https domains ->
  exists domains' r', throwing_fold (append_domain configured available) (domains, effective, r) inputs = Returns (domains', existsb domain_https domains', r') /\
    Forall domain_ok domains' /\ map domain_hostname domains' = map domain_hostname domains ++ map hostname_ inputs.
Proof.
  intros Hopen Hall. induction Hall as [|d inputs Hd Hall IH]; intros domains effective r Hr Hok ->; cbn [throwing_fold].
  { exists domains, r. split_and!; [done|done|]. cbn. by rewrite app_nil_r. }
  destruct Hd as [_ (h & [= <-] & Hh) _]. apply is_hostname_normal in Hh as [Hne Hsize]. unfold append_domain at 1.
  destruct (if configured then _ else None) as [c|] eqn:Ec.
  - assert (exists certificates, available = Some certificates /\ c ∈ certificates) as (certificates & Ha & Hin).
    { destruct configured; [|done]. destruct available as [certificates|]; [|done]. cbn in Ec. apply find_some in Ec as [Hin _]. exists certificates. split; [done|]. by apply list_elem_of_In. }
    destruct (ensure_certificate_ok _ _ _ _ Hopen Ha Hin Hr) as (digest & r' & -> & Hdigest & Hr'). cbn [throwing_bind].
    destruct (IH (domains ++ [Domain (hostname_ d) true digest]) true r' Hr') as (domains' & r'' & -> & Hok' & Hlen).
    + apply Forall_app. split; [done|]. constructor; [|done]. by split_and!.
    + rewrite existsb_app. cbn. by rewrite orb_true_r.
    + do 2 eexists. split; [done|]. split; [done|]. by rewrite Hlen, map_app, <- app_assoc.
  - cbn [throwing_bind]. destruct (IH (domains ++ [Domain (hostname_ d) false []]) (existsb domain_https domains) r Hr) as (domains' & r' & -> & Hok' & Hlen).
    + apply Forall_app. split; [done|]. constructor; [|done]. by split_and!.
    + rewrite existsb_app. cbn. by rewrite orb_false_r.
    + do 2 eexists. split; [done|]. split; [done|]. by rewrite Hlen, map_app, <- app_assoc.
Qed.
Lemma domains_publish (w : published_website) l : Forall domain_ok l -> (forall d, d ∈ l -> domain_https d = true -> https_enabled w = true) ->
  forall has, throwing_fold (validate_domain w) has l = Returns (has || existsb domain_https l).
Proof.
  induction 1 as [|d l (Hne & Hsize & Hdigest) _ IH]; intros Hw has; cbn [throwing_fold existsb]; [by rewrite orb_false_r|].
  unfold validate_domain at 1. assert (empty (hostname (domain_hostname d)) = false) as -> by (by destruct (hostname (domain_hostname d))).
  unfold max_hostname_bytes. rewrite (proj2 (Z.ltb_ge 253 _)) by lia. cbn [orb].
  assert (domain_https d && negb (https_enabled w) = false) as ->.
  { destruct (domain_https d) eqn:E; [|done]. rewrite (Hw d) by (done || by left). done. }
  assert (domain_https d && empty (certificate_digest d) = false) as ->.
  { destruct (domain_https d); [|done]. specialize (Hdigest eq_refl). by destruct (certificate_digest d). }
  cbn [throwing_bind]. rewrite IH; [by rewrite orb_assoc|]. intros d' Hd'. apply Hw. by right.
Qed.

(** ** The other panels *)

Lemma health_publishes i : health_facts i -> forall d, i = health_output d -> invalid_health_check (publish_health d) = false.
Proof.
  intros [_ Hp (x1 & E1 & H1') (x2 & E2 & H2') (x3 & E3 & H3') (x4 & E4 & H4') (x5 & E5 & H5')] d ->. cbn in *. simplify_eq.
  unfold route_path in Hp. reflect_bool. unfold invalid_health_check, publish_health.
  cbn [health_check_enabled health_check_path health_check_interval_seconds health_check_timeout_seconds health_check_expected_status healthy_threshold unhealthy_threshold].
  rewrite !u32_small by lia. destruct (health_check_enabled d); [|done]. cbn [andb]. rewrite !orb_false_iff.
  repeat split; try lia; try (by apply negb_false_iff). by destruct (health_check_path d).
Qed.
Lemma match_values_publish kind values : valid_compression_values kind values = true -> validate_compression_match_values values kind = Returns tt.
Proof.
  unfold valid_compression_values, validate_compression_match_values. intros [Hs Hd]%andb_true_iff. apply Z.leb_le in Hs.
  rewrite (proj2 (Z.ltb_ge _ _) Hs). by apply ensure_returns.
Qed.
Lemma compression_publishes i (w : published_website) : compression_facts i -> forall d, i = compression_output d -> compression w = publish_compression d -> validate_response_compression w = Returns tt.
Proof.
  intros [_ (mn & E1 & H1') (mx & E2 & H2') Ha Hm Hx Hy Ho] d -> Hw. cbn in E1, E2, Ho. simplify_eq. unfold validate_response_compression. rewrite Hw.
  cbn [compression_output in_compression_algorithms in_compression_mime_types in_compression_extensions in_compression_excluded_extensions when] in Ha, Hm, Hx, Hy.
  unfold valid_compression_algorithms in Ha. apply andb_true_iff in Ha as [Hne Ha]. cbn [publish_compression compression_enabled compression_min_bytes compression_max_bytes
    compression_algorithms compression_mime_types compression_extensions compression_excluded_extensions].
  unfold min_response_compression_bytes, max_response_compression_min_bytes, max_response_compression_bytes in *.
  rewrite !u32_small, Ho, (proj2 (Z.ltb_ge _ 256)), (proj2 (Z.ltb_ge (1024 * 1024) _)), (proj2 (Z.ltb_ge (64 * 1024 * 1024) _)) by lia. apply negb_true_iff in Hne. rewrite Hne.
  cbn [orb andb]. rewrite andb_false_r, (proj2 (ensure_returns _ _) Ha). cbn [throwing_bind].
  rewrite (match_values_publish _ _ Hm), (match_values_publish _ _ Hx), (match_values_publish _ _ Hy). done.
Qed.
Lemma basics_publish source i d domains effective :
  input_facts i -> normalized_config i d -> source_id_ source <> [] -> 0 < source_revision_ source -> domains <> [] ->
  validate_website_basics (publish_website source d domains effective) = Returns tt.
Proof.
  intros Hi Hn Hid Hrev Hne. unfold validate_website_basics. cbn [publish_website origin_http_version published_id published_revision WebsiteValidation.domains
    origin_connect_timeout_seconds origin_read_timeout_seconds health force_https hsts_enabled https_enabled minimum_tls_version].
  destruct (if_origins _ Hi) as [_ _ Hversion _ (connect & Ec & Hc) (read & Er & Hrd) _].
  rewrite (nc_connect _ _ Hn) in Ec. rewrite (nc_read _ _ Hn) in Er. injection Ec as <-. injection Er as <-. rewrite (nc_version _ _ Hn).
  assert (negb (empty (text_or (in_origin_http_version i) (lit "auto"))) && negb (one_of ["auto"; "http1"; "http2"] (text_or (in_origin_http_version i) (lit "auto"))) = false) as ->.
  { destruct (in_origin_http_version i) as [version|]; [|done]. cbn [when text_or] in *. rewrite Hversion. apply andb_false_r. }
  assert (empty (source_id_ source) = false) as -> by (by destruct (source_id_ source)). rewrite (proj2 (Z.leb_gt _ _) Hrev).
  assert (empty domains = false) as -> by (by destruct domains). cbn [orb]. rewrite !u32_small by lia.
  rewrite (proj2 (Z.eqb_neq (connect_timeout_ d) 0)), (proj2 (Z.eqb_neq (read_timeout_ d) 0)) by lia. cbn [orb].
  rewrite (health_publishes _ (if_health _ Hi) _ (nc_health _ _ Hn)).
  assert ((effective && force_https_ d) && negb effective = false) as -> by (by destruct effective, (force_https_ d)).
  assert ((effective && hsts_enabled_ d) && negb effective = false) as -> by (by destruct effective, (hsts_enabled_ d)).
  destruct (if_https _ Hi) as [_ _ Htls _ _]. rewrite (nc_tls _ _ Hn) in Htls. cbn [when] in Htls. unfold one_of in Htls. cbn [existsb] in Htls.
  assert (effective && (minimum_tls_version_ d != lit "1.2") && (minimum_tls_version_ d != lit "1.3") = false) as ->.
  { destruct effective; [|done]. cbn [andb]. destruct (minimum_tls_version_ d == lit "1.2"); [done|]. by destruct (minimum_tls_version_ d == lit "1.3"). }
  destruct (if_log _ Hi) as [_ Hranges]. rewrite (nc_log _ _ Hn) in Hranges. cbn [log_output in_log_status_code_ranges when] in Hranges.
  unfold valid_access_log_status_code_ranges in Hranges. apply andb_true_iff in Hranges as [_ Hranges]. unfold validate_access_log. cbn [publish_website status_code_ranges].
  rewrite (proj2 (ensure_returns _ _) Hranges). cbn [throwing_bind]. by apply (compression_publishes _ _ (if_compression _ Hi) _ (nc_compression _ _ Hn)).
Qed.

(** ** Rules and origins *)

Lemma parse_uuid_injective_ids rules data :
  Forall2 (fun x y => normalize_rule x = Some y) rules data -> NoDup (map (fun r => uuid_key (in_rule_id r)) rules) -> NoDup (map rule_id_ data).
Proof.
  intros Hn Hd. assert (map (fun r => uuid_key (in_rule_id r)) rules = map (fun d => uuid_key (Some (rule_id_ d))) data) as E.
  { clear Hd. induction Hn as [|r d rules data Hr _ IH]; [done|]. cbn [map]. rewrite IH. f_equal. apply normalize_rule_spec in Hr. by rewrite (nr_id _ _ Hr). }
  rewrite E in Hd. apply (NoDup_fmap_1 (fun id => uuid_key (Some id))). change (@fmap list list_fmap) with @map. by rewrite map_map.
Qed.
Lemma rules_fold (w : published_website) rules data :
  Forall2 (fun x y => normalize_rule x = Some y) rules data -> Forall rule_facts rules -> Forall (fun r => valid_rule_headers r = true) rules ->
  Forall (fun d => action_ d = lit "proxy" -> route_origin_group (route (publish_rule d)) w = true) data -> NoDup (map rule_id_ data) ->
  forall ids : gset bytes, (forall d, d ∈ data -> rule_id_ d ∉ ids) -> exists ids', throwing_fold (validate_route_rule w) ids (map publish_rule data) = Returns ids'.
Proof.
  induction 1 as [|r d rules data Hr _ IH]; intros Hf Hh Hw Hnd ids Hids; cbn [map throwing_fold]; [eauto|].
  apply Forall_cons in Hf as [Hf Hfs], Hh as [Hh Hhs], Hw as [Hw Hws]. cbn [map] in Hnd. apply NoDup_cons in Hnd as [Hin Hnd].
  rewrite (rule_publishes r d Hf (proj1 (normalize_rule_spec _ _) Hr) Hh w ids); [|apply Hids; by left|done]. cbn [throwing_bind].
  apply IH; [done..|]. intros d' Hd'. apply not_elem_of_union. split; [|apply Hids; by right].
  intros E%elem_of_singleton. apply Hin. rewrite <- E. change (rule_id_ d' ∈ rule_id_ <$> data). apply list_elem_of_fmap. by exists d'.
Qed.

Lemma groups_with_primary (os : list origin_data) :
  valid_origin_set (map origin_output os) = true -> group_set enabled_data os <> ∅ /\ group_set enabled_data os = group_set primary_data os.
Proof.
  unfold valid_origin_set. destruct (groups_of_output os) as [-> ->]. intros [[_ Hne]%andb_true_iff Hsame]%andb_true_iff.
  apply negb_true_iff, bool_decide_eq_false in Hne. by apply bool_decide_eq_true in Hsame.
Qed.
Lemma enabled_groups_in (os : list origin_data) g : g ∈ map group_ (List.filter enabled_data os) -> g ∈ group_set enabled_data os.
Proof. intros Hg. unfold group_set. by apply elem_of_list_to_set. Qed.
Lemma proxy_group source (d : config_data) domains effective (r : rule_data) :
  Forall (fun o => origin_facts (origin_output o)) (origins_ d) -> valid_origin_set (map origin_output (origins_ d)) = true ->
  check_route_origin_reference (action_ r) (origin_group_ r) (map group_ (List.filter enabled_data (origins_ d))) = valid_reference ->
  action_ r = lit "proxy" -> is_origin_group (origin_group_ r) = true -> route_origin_group (route (publish_rule r)) (publish_website source d domains effective) = true.
Proof.
  intros Hall Hset%groups_with_primary Href Ha Hg. destruct Hset as [_ Hsame]. unfold check_route_origin_reference in Href. rewrite Ha in Href.
  change (lit "proxy" == lit "redirect") with false in Href. change (lit "proxy" == lit "proxy") with true in Href. cbn [andb] in Href.
  destruct (bool_decide _) eqn:Ein in Href; [|done]. apply bool_decide_eq_true, enabled_groups_in in Ein. rewrite Hsame in Ein.
  apply group_set_in in Ein as (o & Hin & Ho & Eg). unfold route_origin_group. cbn [publish_rule route r_origin_ids r_origin_group negb empty].
  assert (empty (origin_group_ r) = false) as -> by (unfold is_origin_group in Hg; by destruct (origin_group_ r)).
  apply existsb_exists. exists (publish_origin o). split; [apply list_elem_of_In; cbn [publish_website origins]; by apply list_elem_of_fmap_2|].
  unfold primary_data in Ho. apply andb_true_iff in Ho as [He Hr]. cbn [publish_origin origin group enabled role]. rewrite Hr. fold (enabled_data o). rewrite He, Eg.
  rewrite (group_default _ Hg), !andb_true_r. by apply bool_decide_eq_true.
Qed.

Lemma rule_proxy_group i d : rule_facts i -> normalized_rule i d -> valid_rule_headers i = true -> action_ d = lit "proxy" -> is_origin_group (origin_group_ d) = true.
Proof.
  intros Hf Hn Hh Ha. pose proof (rule_rewrite_facts i d Hf Hn Hh) as (_ & _ & _ & _ & _ & _ & _ & _ & _ & Hlast). rewrite Ha in Hlast.
  change (lit "proxy" == lit "rewrite") with false in Hlast. change (lit "proxy" == lit "proxy") with true in Hlast. cbv iota in Hlast.
  rewrite !orb_false_iff in Hlast. destruct Hlast as [_ Hlast]. by apply negb_false_iff.
Qed.

Lemma rules_publish source i d domains effective : input_facts i -> normalized_config i d -> validate_route_rules (publish_website source d domains effective) = Returns tt.
Proof.
  intros Hi Hn. destruct (if_rules _ Hi) as (rules & Erules & Hsize & Hset & Hf). destruct (nc_rules _ _ Hn) as (rules' & Erules' & Hdata).
  rewrite Erules in Erules'. injection Erules' as <-. apply distinct_loop_nil in Hset as [Hh Hd]. destruct (if_origins _ Hi) as [(origins & Eo & Hos & Hof) _ _ _ _ _ _].
  rewrite (nc_origins _ _ Hn) in Eo. injection Eo as <-. apply (proj1 (Forall_map _ _ _)) in Hof. unfold validate_route_rules. cbn [publish_website WebsiteValidation.rules].
  assert ((max_route_rules <? size (map publish_rule (route_rules_ d))) = false) as ->.
  { apply Z.ltb_ge. unfold size in *. rewrite length_map, <- (Forall2_length _ _ _ Hdata). done. }
  set (w := publish_website source d domains effective).
  destruct (rules_fold w rules (route_rules_ d) Hdata Hf Hh) with (ids := ∅ : gset bytes) as [ids Hids]; [| |set_solver|by rewrite Hids].
  - pose proof (nc_references _ _ Hn) as Hrefs. revert Hrefs Hdata Hf Hh. generalize (route_rules_ d). clear -Hof Hos. intros data Hrefs Hdata Hf Hh.
    induction Hdata as [|r x rules data Hr _ IH]; [constructor|]. apply Forall_cons in Hrefs as [Href Hrefs], Hf as [Hf Hfs], Hh as [Hh Hhs].
    constructor; [|by apply IH]. intros Ha. apply normalize_rule_spec in Hr. by apply proxy_group, (rule_proxy_group r).
  - by eapply parse_uuid_injective_ids.
Qed.
Lemma origins_publish source i d domains effective : input_facts i -> normalized_config i d -> validate_website_origins (publish_website source d domains effective) = Returns tt.
Proof.
  intros Hi Hn. destruct (if_origins _ Hi) as [(origins & Eo & Hos & Hof) Hg _ _ _ _ _]. rewrite (nc_origins _ _ Hn) in Eo. injection Eo as <-.
  apply (proj1 (Forall_map _ _ _)) in Hof. rewrite (nc_group _ _ Hn) in Hg. cbn [when] in Hg. apply groups_with_primary in Hos as [Hne Hsame].
  unfold validate_website_origins. cbn [publish_website WebsiteValidation.origins default_group].
  destruct (origins_fold (origins_ d) ∅ ∅ Hof) as (eg & pg & -> & -> & ->). cbn [throwing_bind]. rewrite !(right_id_L ∅ (∪)), <- Hsame.
  apply ensure_returns, negb_true_iff. rewrite !orb_false_iff, (bool_decide_eq_false_2 _ Hne). rewrite (bool_decide_eq_true_2 (group_set enabled_data _ = _)) by done.
  rewrite (group_default _ Hg), bool_decide_eq_true_2 by (apply enabled_groups_in, (nc_default _ _ Hn)). done.
Qed.
Lemma website_domains_publish source d domains : Forall domain_ok domains -> validate_website_domains (publish_website source d domains (existsb domain_https domains)) = Returns tt.
Proof.
  intros Hok. unfold validate_website_domains. cbn [publish_website WebsiteValidation.domains https_enabled].
  rewrite domains_publish; [|done|].
  - cbn [throwing_bind orb]. apply ensure_returns. by destruct (existsb domain_https domains).
  - intros x Hx Ehttps. cbn [publish_website https_enabled]. apply existsb_exists. exists x. by rewrite <- list_elem_of_In.
Qed.

Lemma website_publishes source i d available r :
  input_facts i -> normalized_config i d -> source_id_ source <> [] -> 0 < source_revision_ source ->
  match source_security_ source with Some p => validate_security p = Returns tt | None => True end ->
  match source_cache_ source with Some p => CachePolicy.validate (from_proto (to_proto p)) = [] /\ policy_id_ p <> [] /\ 1 <= CachePolicy.revision_ p | None => True end ->
  certificates_open available -> release_ok r ->
  exists domains effective r', append_website_domains available d r = Returns (domains, effective, r') /\
    map domain_hostname domains = map hostname_ (domains_ d) /\ validate_website (publish_website source d domains effective) = Returns tt /\
    validate_route_rules (publish_website source d domains effective) = Returns tt.
Proof.
  intros Hi Hn Hid Hrev Hs Hc Ha Hr. destruct (if_domains _ Hi) as [(inputs & Ed & Hne & Hd)]. rewrite (nc_domains _ _ Hn) in Ed. injection Ed as <-.
  apply (proj1 (Forall_map _ _ _)) in Hd.
  destruct (append_domains_ok (https_enabled_ d) available (domains_ d) Ha Hd [] false r Hr) as (domains & r' & E & Hok & Hlen); [constructor|done|].
  exists domains, (existsb domain_https domains), r'. split; [exact E|]. split; [done|].
  assert (domains <> []) as Hdne by (destruct domains; [by destruct (domains_ d)|done]).
  set (w := publish_website source d domains (existsb domain_https domains)).
  assert (validate_route_rules w = Returns tt) as Hrules by (by eapply rules_publish). split; [|done]. unfold validate_website.
  assert (match security_ w with Some policy => validate_security policy | None => Returns tt end = Returns tt) as ->.
  { unfold w. cbn [publish_website security_]. by destruct (source_security_ source). }
  assert (match response_cache w with
     | Some policy => ensure (negb (negb (empty (CachePolicy.validate (from_proto policy))) || empty (pb_id policy) || (pb_revision policy <? 1))) "invalid response cache policy"
     | None => Returns tt end = Returns tt) as ->.
  { unfold w. cbn [publish_website response_cache]. destruct (source_cache_ source) as [p|]; [|done]. destruct Hc as (Hv & Hcid & Hcr). cbn [fmap option_fmap option_map].
    apply ensure_returns. rewrite Hv. change (pb_id (to_proto p)) with (policy_id_ p). change (pb_revision (to_proto p)) with (CachePolicy.revision_ p).
    rewrite (proj2 (Z.ltb_ge _ _)) by lia. by destruct (policy_id_ p). }
  cbn [throwing_bind]. destruct (published_enabled w); [|done]. cbn [negb]. unfold w in Hrules |- *. rewrite (basics_publish source i d) by done. cbn [throwing_bind]. rewrite Hrules. cbn [throwing_bind].
  rewrite (origins_publish source i d) by done. cbn [throwing_bind]. by apply website_domains_publish.
Qed.

Lemma accepted_input status i : valid (validate_website_save_input (SaveInput (Some status) (Some i)) new_validator) = true -> input_facts i.
Proof. intros [_ Hi]%input_accepted. exact Hi. Qed.

(** The rules of an input have a rewrite path, a redirect target and a redirect status. *)
Definition all_rewritable (i : config_input) : Prop := Forall (fun r => rewritable r = true) (items_or (in_route_rules i)).
Lemma normalized_rewritable i d : normalize_config i = Some d -> all_rewritable i.
Proof.
  unfold normalize_config, all_rewritable. intros Hn.
  repeat match type of Hn with (_ ← ?o; _) = Some _ => let x := fresh "x" in let E := fresh "E" in destruct o as [x|] eqn:E; cbn [mbind option_bind] in Hn; [|discriminate Hn] end.
  cbn [items_or]. match goal with Hm : mapM normalize_rule _ = Some _ |- _ => apply mapM_Some in Hm; clear -Hm; induction Hm as [|r d rules data Hr _ IH]; [constructor|] end.
  constructor; [|done]. apply normalize_rule_spec in Hr. unfold rewritable. by rewrite (nr_rewrite_path _ _ Hr), (nr_redirect_url _ _ Hr), (nr_redirect_status _ _ Hr).
Qed.
Lemma accepted_normalizes i : input_facts i -> all_rewritable i -> exists d, normalize_config i = Some d /\ normalized_config i d.
Proof. intros Hi Hr. apply config_normalizes; [done|]. intros rules E. unfold all_rewritable in Hr. by rewrite E in Hr. Qed.

(** ** Theorems *)

(** An input that the console's validator accepts is turned into a configuration exactly when
    each of its rules carries a rewrite path, a redirect target and a redirect status, which the
    validator does not ask for; and the configuration that is stored reads back as itself, names of
    hosts included. *)
Theorem accepted_input_is_stored status i :
  valid (validate_website_save_input (SaveInput (Some status) (Some i)) new_validator) = true ->
  (is_Some (normalize_save (SaveInput (Some status) (Some i))) <-> all_rewritable i) /\
  (forall data, normalize_save (SaveInput (Some status) (Some i)) = Some data ->
     save_status_ data = status /\ parse_stored (to_json (to_output (save_config_ data))) = Some (save_config_ data)).
Proof.
  intros Hi%accepted_input. unfold normalize_save. cbn [in_status in_config mbind option_bind]. split.
  - split; [intros [data E]|intros Hr].
    + destruct (normalize_config i) as [d|] eqn:Ed; [|done]. by eapply normalized_rewritable.
    + destruct (accepted_normalizes i Hi Hr) as (d & -> & _). by eexists.
  - intros data E. destruct (normalize_config i) as [d|] eqn:Ed; [|done]. cbn in E. injection E as <-. cbn. split; [done|].
    unfold parse_stored. rewrite json_roundtrip. cbn [mbind option_bind]. destruct (accepted_normalizes i Hi (normalized_rewritable i d Ed)) as (d' & Ed' & Hn).
    rewrite Ed in Ed'. injection Ed' as <-. by eapply config_reads_back.
Qed.

(** C7. What the console accepts, the nodes serve: a configuration stored from an accepted input is
    published without an error whatever certificates the website has, as long as they can be opened
    and the policies attached to it are valid; the published website passes the checks of the node
    protocol, has the domains of the configuration, and its route rules compile on a data worker. *)
Theorem accepted_website_publishes status i data source available r :
  valid (validate_website_save_input (SaveInput (Some status) (Some i)) new_validator) = true ->
  normalize_save (SaveInput (Some status) (Some i)) = Some data ->
  config_json_ source = to_json (to_output (save_config_ data)) -> source_id_ source <> [] -> 0 < source_revision_ source ->
  match source_security_ source with Some p => validate_security p = Returns tt | None => True end ->
  match source_cache_ source with Some p => CachePolicy.validate (from_proto (to_proto p)) = [] /\ policy_id_ p <> [] /\ 1 <= CachePolicy.revision_ p | None => True end ->
  certificates_open available -> release_ok r ->
  exists w r' routes,
    build_website_object source available r = Returns (w, r') /\ validate_website w = Returns tt /\
    map domain_hostname (WebsiteValidation.domains w) = map hostname_ (domains_ (save_config_ data)) /\ compile_website_routes (routed w) = Returns routes.
Proof.
  intros Hi%accepted_input En Ej Hid Hrev Hs Hc Ha Hr. unfold normalize_save in En. cbn [in_status in_config mbind option_bind] in En.
  destruct (normalize_config i) as [d|] eqn:Ed; [|done]. cbn in En. injection En as <-. cbn [save_config_] in *.
  destruct (accepted_normalizes i Hi (normalized_rewritable i d Ed)) as (d' & Ed' & Hn). rewrite Ed in Ed'. injection Ed' as <-.
  destruct (website_publishes source i d available r) as (domains & effective & r' & E & Hmap & Hv & Hrules); [done..|].
  destruct (validated_routes_compile _ Hrules) as [routes Hroutes]. exists (publish_website source d domains effective), r', routes.
  split; [|by split]. unfold build_website_object, parse_stored. rewrite Ej, json_roundtrip. cbn [mbind option_bind]. rewrite (config_reads_back i d Hi Hn), E.
  cbn [throwing_bind]. by rewrite Hv.
Qed.
End Published.

(** * Witnesses *)

Section Samples.
#[local] Existing Instance text_engine.
#[local] Existing Instance MatchList.dotted_quads.
#[local] Existing Instance sample_libraries.

(** A validator that keeps the errors. *)
#[local] Instance error_list : RuviaValidator := {|
  validator := list (bytes * bytes);
  new_validator := [];
  add_error v path code := v ++ [(path, code)];
  required v present path := if present then v else v ++ [(path, lit "required")];
  in_limits v x path lo hi := if match x with Some x => (lo <=? x) && (x <=? hi) | None => true end then v else v ++ [(path, lit "range")];
  max_length v x path n := if match x with Some x => size x <=? n | None => true end then v else v ++ [(path, lit "too_big")];
  valid := empty
|}.
#[local] Instance error_list_laws : RuviaLaws.
Proof.
  split; [done|..]; cbn.
  - intros v path code. by destruct v.
  - intros v [] path; [by rewrite andb_true_r|]. by destruct v.
  - intros v x path lo hi. destruct (match x with Some _ => _ | None => _ end); [by rewrite andb_true_r|]. by destruct v.
  - intros v x path n. destruct (match x with Some _ => _ | None => _ end); [done|]. by destruct v.
Qed.
#[local] Instance sample_v4 : AsioV4 := fun text => text == lit "10.0.0.1".

(** Inputs have a numbering, and the text of an input is its number in binary. *)
#[local] Instance domain_input_eq_dec : EqDecision domain_input.
Proof. solve_decision. Defined.
#[local] Program Instance domain_input_countable : Countable domain_input :=
  inj_countable' (fun x => (in_domain_id x, in_hostname x, in_dns_mode x))
    (fun '(a0, a1, a2) => DomainInput a0 a1 a2) _.
Next Obligation. by intros []. Qed.
#[local] Instance origin_input_eq_dec : EqDecision origin_input.
Proof. solve_decision. Defined.
#[local] Program Instance origin_input_countable : Countable origin_input :=
  inj_countable' (fun x => (in_origin_id x, in_group x, in_protocol x, in_host x, in_port x, in_role x, in_weight x, in_origin_status x))
    (fun '(a0, a1, a2, a3, a4, a5, a6, a7) => OriginInput a0 a1 a2 a3 a4 a5 a6 a7) _.
Next Obligation. by intros []. Qed.
#[local] Instance header_input_eq_dec : EqDecision header_input.
Proof. solve_decision. Defined.
#[local] Program Instance header_input_countable : Countable header_input :=
  inj_countable' (fun x => (in_header_name x, in_header_value x))
    (fun '(a0, a1) => HeaderInput a0 a1) _.
Next Obligation. by intros []. Qed.
#[local] Instance condition_input_eq_dec : EqDecision condition_input.
Proof. solve_decision. Defined.
#[local] Program Instance condition_input_countable : Countable condition_input :=
  inj_countable' (fun x => (in_source x, in_name x, in_op x, in_value x))
    (fun '(a0, a1, a2, a3) => ConditionInput a0 a1 a2 a3) _.
Next Obligation. by intros []. Qed.
#[local] Instance rule_input_eq_dec : EqDecision rule_input.
Proof. solve_decision. Defined.
#[local] Program Instance rule_input_countable : Countable rule_input :=
  inj_countable' (fun x => (in_rule_id x, in_rule_name x, in_description x, in_hostnames x, in_conditions x, in_rewrite_mode x, in_query_mode x, in_query_string x, in_rule_status x, in_match_type x, in_path x, in_methods x, in_action x, in_rewrite_path x, in_redirect_url x, in_redirect_status x, in_origin_group x, in_request_headers x, in_response_headers x))
    (fun '(a0, a1, a2, a3, a4, a5, a6, a7, a8, a9, a10, a11, a12, a13, a14, a15, a16, a17, a18) => RuleInput a0 a1 a2 a3 a4 a5 a6 a7 a8 a9 a10 a11 a12 a13 a14 a15 a16 a17 a18) _.
Next Obligation. by intros []. Qed.
#[local] Instance health_input_eq_dec : EqDecision health_input.
Proof. solve_decision. Defined.
#[local] Program Instance health_input_countable : Countable health_input :=
  inj_countable' (fun x => (in_health_enabled x, in_health_path x, in_health_interval x, in_health_timeout x, in_health_status x, in_healthy_threshold x, in_unhealthy_threshold x))
    (fun '(a0, a1, a2, a3, a4, a5, a6) => HealthInput a0 a1 a2 a3 a4 a5 a6) _.
Next Obligation. by intros []. Qed.
#[local] Instance log_input_eq_dec : EqDecision log_input.
Proof. solve_decision. Defined.
#[local] Program Instance log_input_countable : Countable log_input :=
  inj_countable' (fun x => (in_log_enabled x, in_log_request_headers x, in_log_request_body x, in_log_response_headers x, in_log_query_params x, in_log_cookies x, in_log_referer x, in_log_user_agent x, in_log_status_code_ranges x, in_log_client_abort x))
    (fun '(a0, a1, a2, a3, a4, a5, a6, a7, a8, a9) => LogInput a0 a1 a2 a3 a4 a5 a6 a7 a8 a9) _.
Next Obligation. by intros []. Qed.
#[local] Instance compression_input_eq_dec : EqDecision compression_input.
Proof. solve_decision. Defined.
#[local] Program Instance compression_input_countable : Countable compression_input :=
  inj_countable' (fun x => (in_compression_enabled x, in_compression_min_bytes x, in_compression_max_bytes x, in_compression_algorithms x, in_compression_mime_types x, in_compression_extensions x, in_compression_excluded_extensions x))
    (fun '(a0, a1, a2, a3, a4, a5, a6) => CompressionInput a0 a1 a2 a3 a4 a5 a6) _.
Next Obligation. by intros []. Qed.
#[local] Instance config_input_eq_dec : EqDecision config_input.
Proof. solve_decision. Defined.
#[local] Program Instance config_input_countable : Countable config_input :=
  inj_countable' (fun x => (in_security_policy_id x, in_cache_enabled x, in_cache_policy_id x, in_config_name x, in_domains x, in_origins x, in_default_origin_group x, in_origin_host_header x, in_origin_http_version x, in_connect_timeout x, in_read_timeout x, in_pass_client_ip x, in_health x, in_log x, in_https_enabled x, in_certificate_ids x, in_minimum_tls_version x, in_force_https x, in_hsts_enabled x, in_compression x, in_route_rules x))
    (fun '(a0, a1, a2, a3, a4, a5, a6, a7, a8, a9, a10, a11, a12, a13, a14, a15, a16, a17, a18, a19, a20) => ConfigInput a0 a1 a2 a3 a4 a5 a6 a7 a8 a9 a10 a11 a12 a13 a14 a15 a16 a17 a18 a19 a20) _.
Next Obligation. by intros []. Qed.
Fixpoint binary (p : positive) : bytes := match p with xH => [] | xO p => "0"%char :: binary p | xI p => "1"%char :: binary p end.
Fixpoint number (text : bytes) : positive := match text with [] => xH | c :: text => if Ascii.eqb c "0" then xO (number text) else xI (number text) end.
Lemma number_binary p : number (binary p) = p.
Proof. induction p as [p IH|p IH|]; cbn; by rewrite ?IH. Qed.
#[local] Instance numbered_json : ConfigJson := {| to_json i := binary (encode i); from_json text := decode (number text) |}.
#[local] Instance numbered_json_laws : ConfigJsonLaws.
Proof. split. intros i. cbn. by rewrite number_binary, decode_encode. Qed.

Definition given (s : string) : option bytes := Some (lit s).
Definition sample_rule_input (rewrite_path : option bytes) : rule_input :=
  RuleInput (given "11111111-1111-1111-1111-111111111111") (given "api") None (Some [lit "WWW.Example.com"]) (Some [ConditionInput (given "header") (given "X-Debug") (given "absent") (Some [])])
    (given "replace_prefix") None None (given "enabled") (given "prefix") (given "/api") (Some [lit "GET"]) (given "proxy") rewrite_path (Some []) (Some 0) (given "eu")
    (Some [HeaderInput (given "X-Edge") (given "1")]) (Some []).
Definition sample_input (rewrite_path : option bytes) : config_input :=
  ConfigInput None None None (given "site")
    (Some [DomainInput (given "22222222-2222-2222-2222-222222222222") (given "www.example.com") (given "managed")])
    (Some [OriginInput (given "33333333-3333-3333-3333-333333333333") (given "eu") (given "https") (given "10.0.0.1") (Some 443) (given "primary") (Some 10) (given "enabled")])
    (given "eu") (given "$host") None (Some 5) (Some 60) (Some true)
    (HealthInput (Some true) (given "/health") (Some 10) (Some 5) (Some 200) (Some 2) (Some 3))
    (LogInput (Some true) (Some false) (Some false) (Some false) (Some true) (Some false) (Some true) (Some true) (Some [lit "5xx"; lit "4xx"]) (Some false))
    (Some true) (Some [lit "44444444-4444-4444-4444-444444444444"]) (given "1.2") (Some true) (Some false)
    (CompressionInput (Some true) (Some 1024) (Some 0) (Some [lit "br"; lit "gzip"]) (Some [lit "text/*"]) (Some [lit ".js"]) (Some []))
    (Some [sample_rule_input rewrite_path]).
Definition sample_save (rewrite_path : option bytes) : save_input := SaveInput (given "enabled") (Some (sample_input rewrite_path)).
Lemma sample_accepted rewrite_path : rewrite_path = None \/ rewrite_path = given "/v2" -> valid (validate_website_save_input (sample_save rewrite_path) new_validator) = true.
Proof. intros [->| ->]; by vm_compute. Qed.

(** A rule without a rewrite path is accepted, and the input is not turned into a configuration. *)
Lemma accepted_input_is_stored_witness :
  valid (validate_website_save_input (sample_save None) new_validator) = true /\ normalize_save (sample_save None) = None /\
  is_Some (normalize_save (sample_save (given "/v2"))).
Proof.
  split; [exact (sample_accepted None (or_introl eq_refl))|]. split.
  - destruct (accepted_input_is_stored (lit "enabled") (sample_input None) (sample_accepted None (or_introl eq_refl))) as [[Hs _] _].
    change (sample_save None) with (SaveInput (Some (lit "enabled")) (Some (sample_input None))).
    destruct (normalize_save (SaveInput (Some (lit "enabled")) (Some (sample_input None)))) as [d|]; [|reflexivity].
    pose proof (Hs (ex_intro _ d eq_refl)) as Hr. apply Forall_cons in Hr as [Hr _]. vm_compute in Hr. discriminate Hr.
  - apply (accepted_input_is_stored (lit "enabled") (sample_input (given "/v2")) (sample_accepted _ (or_intror eq_refl))). repeat constructor.
Defined.

#[local] Instance sealed_certificates : ReleaseObjects :=
  { certificate_object c := if empty (private_key_envelope_ c) then Throws (lit "certificate private key") else Returns (lit "sha256:" ++ certificate_id_ c) }.
#[local] Instance sealed_certificates_laws : ReleaseLaws.
Proof. split. intros c digest. cbn. destruct (empty _); [done|]. by intros [= <-]. Qed.
Definition sample_certificate : available_certificate := AvailableCertificate (lit "44444444-4444-4444-4444-444444444444") [lit "*.example.com"] (lit "pem") (lit "envelope").
Definition sample_data : save_data :=
  match normalize_save (sample_save (given "/v2")) with Some d => d | None => SaveData [] (ConfigData false [] [] None [] [] [] [] [] 0 0 false (HealthCheck false [] 0 0 0 0 0)
    (LogData false false false false false false false false [] false) false [] [] false false (ResponseCompression false 0 0 [] [] [] []) []) end.
Definition sample_source : website_source := WebsiteSource (lit "site") 4 true (to_json (to_output (save_config_ sample_data))) None (Some sample_policy).
Lemma sample_normalized : normalize_save (sample_save (given "/v2")) = Some sample_data.
Proof. by vm_compute. Qed.
Lemma sample_certificates_open : certificates_open (Some [sample_certificate]).
Proof. intros certificates c [= <-] ->%list_elem_of_singleton. by eexists. Qed.
Lemma accepted_website_publishes_witness :
  exists w r' routes, build_website_object sample_source (Some [sample_certificate]) (Release ∅ []) = Returns (w, r') /\ validate_website w = Returns tt /\
    map domain_hostname (WebsiteValidation.domains w) = map hostname_ (domains_ (save_config_ sample_data)) /\ compile_website_routes (routed w) = Returns routes.
Proof.
  apply (accepted_website_publishes (lit "enabled") (sample_input (given "/v2")) sample_data).
  - exact (sample_accepted _ (or_intror eq_refl)).
  - exact sample_normalized.
  - reflexivity.
  - discriminate.
  - reflexivity.
  - exact sample_valid.
  - exact I.
  - exact sample_certificates_open.
  - intros id digest E. cbn in E. apply lookup_empty_Some in E. destruct E.
Defined.
End Samples.
