(* ===== verification/SyncTask.v ===== *)
(** Sync tasks of the management service: src/service/features/sync_runtime/state.h and worker.h,
    with the inspections of src/service/features/website_dns/maintenance.h and dns_sync/maintenance.h.

    A sync task (a marker) is one row of [sys_sync_task] per resource. Every operation of the source is
    a few SQL statements of one transaction; here it is a function of the tables, and an exception
    (which rolls the transaction back) is [Throws]. The statements are read as PostgreSQL defines them:
    an UPDATE changes the rows its WHERE clause holds of, all assignments read the old row, [now()] is
    the start of the transaction, and a new row that breaks a CHECK constraint of the schema
    (src/service/config/schema.h) is an error. Instants are microseconds. *)
From S2P Require Import Prelude Utf8.
Open Scope Z_scope.

(** * Resources and operations *)

Inductive marker_resource_type := provider | dns_zone | certificate | website.
Inductive marker_operation := verify | sync | remove | issue | renew_ | apply_.
#[export] Instance marker_resource_type_eq_dec : EqDecision marker_resource_type.
Proof. solve_decision. Defined.
#[export] Instance marker_operation_eq_dec : EqDecision marker_operation.
Proof. solve_decision. Defined.

Definition marker_operation_name (operation : marker_operation) : bytes :=
  match operation with
  | verify => lit "verify" | sync => lit "sync" | remove => lit "delete" | issue => lit "issue" | renew_ => lit "renew" | apply_ => lit "apply"
  end.
Definition parse_marker_operation (operation : bytes) : option marker_operation :=
  if operation == lit "verify" then Some verify
  else if operation == lit "sync" then Some sync
  else if operation == lit "delete" then Some remove
  else if operation == lit "issue" then Some issue
  else if operation == lit "renew" then Some renew_
  else if operation == lit "apply" then Some apply_
  else None.
Definition require_marker_operation (operation : bytes) : throwing marker_operation :=
  match parse_marker_operation operation with Some parsed => Returns parsed | None => Throws (lit "invalid sync marker operation") end.
Definition supports_marker_operation (resource_type : marker_resource_type) (operation : marker_operation) : bool :=
  match resource_type with
  | provider => bool_decide (operation = verify)
  | dns_zone => bool_decide (operation = sync) || bool_decide (operation = remove)
  | certificate => bool_decide (operation = issue) || bool_decide (operation = renew_)
  | website => bool_decide (operation = apply_)
  end.

(** The live resources a notification names (src/service/features/live_resource/query_key.h). *)
Inductive resource := nodes | clusters | websites | dns_zones | providers | certificates | tasks | overview | access_history |
  overview_traffic | security_history.
#[export] Instance resource_eq_dec : EqDecision resource.
Proof. solve_decision. Defined.

Record marker_type := mk_marker_type {
  type_resource_type_ : marker_resource_type;
  name_ : bytes;
  column_ : bytes;
  work_type_ : bytes;
  resource_ : resource;
  table_ : bytes;
  version_column_ : bytes;
  deleted_operation_ : option marker_operation;
  claim_changes_resource_ : bool;
  claims_per_round_ : nat
}.
Definition marker_types : list marker_type := [
  mk_marker_type provider (lit "provider") (lit "provider_id") (lit "provider-verification") providers (lit "sys_provider")
    (lit "verification_generation") None false 8;
  mk_marker_type dns_zone (lit "dns_zone") (lit "dns_zone_id") (lit "dns-sync") dns_zones (lit "sys_dns_zone")
    (lit "desired_revision") (Some remove) true 32;
  mk_marker_type certificate (lit "certificate") (lit "certificate_id") (lit "certificate") certificates (lit "sys_certificate")
    (lit "issuance_revision") None true 4;
  mk_marker_type website (lit "website") (lit "website_id") (lit "website-dispatch") websites (lit "sys_website")
    (lit "revision") None false 8].
Definition describe (resource_type : marker_resource_type) : throwing marker_type :=
  match List.find (fun type => bool_decide (type_resource_type_ type = resource_type)) marker_types with
  | Some type => Returns type
  | None => Throws (lit "unsupported sync marker resource type")
  end.
Definition parse_marker_resource_type (name : bytes) : option marker_resource_type :=
  type_resource_type_ <$> List.find (fun type => name_ type == name) marker_types.

(** * The tables *)

Record sync_task := mk_task {
  tenant_id_ : bytes;
  resource_type_ : marker_resource_type;
  resource_id_ : bytes;
  operation_ : marker_operation;
  version_ : Z;
  processed_version_ : Z;
  is_done_ : bool;
  is_ok_ : bool;
  error_ : bytes;
  count_fails_ : Z;
  next_attempt_at_ : Z;
  lease_owner_ : option bytes;
  lease_until_ : option Z;
  wait_task_id_ : option bytes;
  wait_version_ : option Z;
  created_at_ : Z;
  updated_at_ : Z
}.
Record sync_event := mk_event {
  event_id_ : Z;
  event_tenant_ : bytes;
  event_task_ : bytes;
  event_resource_type_ : marker_resource_type;
  event_resource_ : bytes;
  event_operation_ : marker_operation;
  event_version_ : Z;
  event_outcome_ : bytes;
  event_error_ : bytes;
  attempt_ : Z;
  started_at_ : option Z;
  duration_ms_ : Z;
  detail_ : bytes;
  emitted_at_ : Z
}.
(** The rows by their primary key, the events in the order of their identifiers, and the next one. *)
Record sync_tables := mk_tables { tasks_ : gmap bytes sync_task; events_ : list sync_event; next_event_ : Z }.

(** The CHECK constraints of [sys_sync_task]; the other columns' types hold by construction. *)
Definition task_check (t : sync_task) : bool :=
  (0 <=? count_fails_ t) && bool_decide (lease_owner_ t = None <-> lease_until_ t = None) &&
  supports_marker_operation (resource_type_ t) (operation_ t) && (negb (is_ok_ t) || is_done_ t) &&
  (0 <? version_ t) && (0 <=? processed_version_ t) && (processed_version_ t <=? version_ t) &&
  bool_decide (wait_task_id_ t = None <-> wait_version_ t = None).
(** The characters of a text, as [varchar] counts them. *)
Definition characters (s : bytes) : Z := size (List.filter (fun c => negb (continues c)) s).
Definition columns_fit (t : sync_task) : bool := (characters (error_ t) <=? 1000) && (count_fails_ t <=? 2147483647).
(** The message of an error of the database, which is not part of the repository. *)
Definition database_error : bytes := [].
(** A row an INSERT or UPDATE makes. *)
Definition write_task (db : sync_tables) (id : bytes) (t : sync_task) : throwing sync_tables :=
  if task_check t && columns_fit t then Returns (mk_tables (<[id := t]> (tasks_ db)) (events_ db) (next_event_ db)) else Throws database_error.

Definition second : Z := 1000000.
Definition now_plus (now duration : Z) : Z := now + duration * second.
Definition retry_delay_seconds : Z := 15.
Definition lease_duration : Z := 60.
Definition wait_settle_delay : Z := 10.
(** The text of the recovered attempt's error ("the lease timed out, recovered for retry"). *)
Definition lease_recovery_retry_error : bytes := lit "同步租约超时，已回收重试".

(** Assignments of groups of columns. *)
Definition set_result (done ok : bool) (error : bytes) (fails : Z) (t : sync_task) : sync_task :=
  mk_task (tenant_id_ t) (resource_type_ t) (resource_id_ t) (operation_ t) (version_ t) (processed_version_ t) done ok error fails
    (next_attempt_at_ t) (lease_owner_ t) (lease_until_ t) (wait_task_id_ t) (wait_version_ t) (created_at_ t) (updated_at_ t).
Definition set_processed (processed : Z) (t : sync_task) : sync_task :=
  mk_task (tenant_id_ t) (resource_type_ t) (resource_id_ t) (operation_ t) (version_ t) processed (is_done_ t) (is_ok_ t) (error_ t)
    (count_fails_ t) (next_attempt_at_ t) (lease_owner_ t) (lease_until_ t) (wait_task_id_ t) (wait_version_ t) (created_at_ t) (updated_at_ t).
Definition set_lease (owner : option bytes) (until : option Z) (t : sync_task) : sync_task :=
  mk_task (tenant_id_ t) (resource_type_ t) (resource_id_ t) (operation_ t) (version_ t) (processed_version_ t) (is_done_ t) (is_ok_ t) (error_ t)
    (count_fails_ t) (next_attempt_at_ t) owner until (wait_task_id_ t) (wait_version_ t) (created_at_ t) (updated_at_ t).
Definition set_wait (task : option bytes) (version : option Z) (t : sync_task) : sync_task :=
  mk_task (tenant_id_ t) (resource_type_ t) (resource_id_ t) (operation_ t) (version_ t) (processed_version_ t) (is_done_ t) (is_ok_ t) (error_ t)
    (count_fails_ t) (next_attempt_at_ t) (lease_owner_ t) (lease_until_ t) task version (created_at_ t) (updated_at_ t).
Definition set_times (next updated : Z) (t : sync_task) : sync_task :=
  mk_task (tenant_id_ t) (resource_type_ t) (resource_id_ t) (operation_ t) (version_ t) (processed_version_ t) (is_done_ t) (is_ok_ t) (error_ t)
    (count_fails_ t) next (lease_owner_ t) (lease_until_ t) (wait_task_id_ t) (wait_version_ t) (created_at_ t) updated.

(** * Queueing work *)

(** src/service/features/background/queued_work.h. *)
Record queued_work := mk_work { changed_ : list bytes; claims_ : list bytes }.
Definition work_changed (resource_id : bytes) (work : queued_work) : queued_work :=
  if empty resource_id || bool_decide (resource_id ∈ changed_ work) then work else mk_work (changed_ work ++ [resource_id]) (claims_ work).
Definition work_claim (work_type : bytes) (work : queued_work) : queued_work :=
  if bool_decide (work_type ∈ claims_ work) then work else mk_work (changed_ work) (claims_ work ++ [work_type]).

Definition same_resource (tenant_id : bytes) (resource_type : marker_resource_type) (resource_id : bytes) (t : sync_task) : bool :=
  (tenant_id_ t == tenant_id) && bool_decide (resource_type_ t = resource_type) && (resource_id_ t == resource_id).
(** The row of a resource: the unique index allows one. *)
Definition find_marker (db : sync_tables) (tenant_id : bytes) (resource_type : marker_resource_type) (resource_id : bytes) : option (bytes * sync_task) :=
  List.find (fun row => same_resource tenant_id resource_type resource_id (snd row)) (map_to_list (tasks_ db)).

Definition new_task (now : Z) (tenant_id : bytes) (resource_type : marker_resource_type) (resource_id : bytes) (operation : marker_operation) (version : Z) : sync_task :=
  mk_task tenant_id resource_type resource_id operation version 0 false false [] 0 now None None None None now now.
(** The assignments of ON CONFLICT: [reset] columns change when the queued version is at least the
    row's, the lease columns when it is above. *)
Definition requeued (now : Z) (operation : marker_operation) (version : Z) (t : sync_task) : sync_task :=
  let reset := version_ t <=? version in
  let unlease := version_ t <? version in
  mk_task (tenant_id_ t) (resource_type_ t) (resource_id_ t) (if reset then operation else operation_ t) (Z.max (version_ t) version)
    (if reset then 0 else processed_version_ t) (if reset then false else is_done_ t) (if reset then false else is_ok_ t)
    (if reset then [] else error_ t) (if reset then 0 else count_fails_ t) (if reset then now else next_attempt_at_ t)
    (if unlease then None else lease_owner_ t) (if unlease then None else lease_until_ t)
    (if reset then None else wait_task_id_ t) (if reset then None else wait_version_ t) (created_at_ t) (if reset then now else updated_at_ t).

(** [fresh] is the identifier [gen_random_uuid] gives. *)
Definition upsert_marker (now : Z) (fresh : bytes) (tenant_id : bytes) (resource_type : marker_resource_type) (resource_id : bytes)
    (operation : marker_operation) (version : Z) (work : queued_work) (db : sync_tables) : throwing (sync_tables * queued_work * bytes) :=
  if version <=? 0 then Throws (lit "sync marker version must be positive")
  else if negb (supports_marker_operation resource_type operation) then Throws (lit "sync marker operation is not valid for this resource")
  else
    throwing_bind (describe resource_type) (fun type =>
      throwing_bind
        match find_marker db tenant_id resource_type resource_id with
        | Some (id, t) => Returns (id, requeued now operation version t)
        | None =>
            if present (tasks_ db !! fresh) then Throws database_error
            else Returns (fresh, new_task now tenant_id resource_type resource_id operation version)
        end (fun '(id, row) =>
      throwing_bind (write_task db id row) (fun db => Returns (db, work_changed resource_id (work_claim (work_type_ type) work), id)))).

Definition marker_version_exists (tenant_id : bytes) (resource_type : marker_resource_type) (resource_id : bytes) (version : Z) (db : sync_tables) : bool :=
  existsb (fun row => same_resource tenant_id resource_type resource_id (snd row) && (version_ (snd row) =? version)) (map_to_list (tasks_ db)).

Definition remove_marker (tenant_id : bytes) (resource_type : marker_resource_type) (resource_id : bytes) (work : queued_work) (db : sync_tables) :
    sync_tables * queued_work :=
  let kept := filter (fun row => same_resource tenant_id resource_type resource_id (snd row) = false) (tasks_ db) in
  (mk_tables kept (events_ db) (next_event_ db),
   if present (find_marker db tenant_id resource_type resource_id) then work_changed resource_id work else work).

(** * Leases *)

Record marker_reference := mk_reference {
  ref_tenant_ : bytes; ref_marker_ : bytes; ref_version_ : Z; ref_resource_type_ : marker_resource_type; ref_resource_ : bytes }.
Record running_marker_lease := mk_lease { marker_ : marker_reference; owner_ : bytes; started_ : option Z }.
Definition make_running_lease (tenant_id marker_id : bytes) (version : Z) (owner : bytes) (started : option Z) (resource_type : marker_resource_type)
    (resource_id : bytes) : throwing running_marker_lease :=
  if empty tenant_id || empty marker_id || empty owner || (version <=? 0) then Throws (lit "invalid running marker lease")
  else Returns (mk_lease (mk_reference tenant_id marker_id version resource_type resource_id) owner started).

(** The row a lease names, at its version and under its owner. *)
Definition leased (lease : running_marker_lease) (t : sync_task) : bool :=
  (tenant_id_ t == ref_tenant_ (marker_ lease)) && (version_ t =? ref_version_ (marker_ lease)) &&
  bool_decide (lease_owner_ t = Some (owner_ lease)).
Definition lease_live (now : Z) (t : sync_task) : bool := match lease_until_ t with Some until => now <? until | None => false end.
Definition lease_expired (now : Z) (t : sync_task) : bool := match lease_until_ t with Some until => until <=? now | None => false end.

(** An UPDATE of the one row a lease names, with the condition on the row. *)
Definition update_leased (lease : running_marker_lease) (condition : sync_task -> bool) (change : sync_task -> sync_task) (db : sync_tables) :
    throwing (sync_tables * bool) :=
  match tasks_ db !! ref_marker_ (marker_ lease) with
  | Some t =>
      if leased lease t && condition t
      then throwing_bind (write_task db (ref_marker_ (marker_ lease)) (change t)) (fun db => Returns (db, true))
      else Returns (db, false)
  | None => Returns (db, false)
  end.

Definition renew_running_lease (now : Z) (lease : running_marker_lease) (db : sync_tables) : throwing (sync_tables * bool) :=
  update_leased lease (lease_live now) (fun t => set_lease (lease_owner_ t) (Some (now_plus now lease_duration)) t) db.

(** * Results *)

Inductive result_kind := recorded | removed | quiet | stale.
Inductive quiet_action := complete | release | inspect.
Inductive failure_count := accumulate | restart.
Inductive attempt_outcome := completed | retryable_failure | terminal_failure | waiting.
#[export] Instance result_kind_eq_dec : EqDecision result_kind.
Proof. solve_decision. Defined.
#[export] Instance attempt_outcome_eq_dec : EqDecision attempt_outcome.
Proof. solve_decision. Defined.

Record attempt_result := mk_result { outcome_ : attempt_outcome; result_error_ : bytes; result_task_ : bytes; result_version_ : Z }.
Definition result_completed : attempt_result := mk_result completed [] [] 0.
Definition result_retry (error : bytes) : attempt_result := mk_result retryable_failure error [] 0.
Definition result_failed (error : bytes) : attempt_result := mk_result terminal_failure error [] 0.
Definition result_waiting (task_id : bytes) (version : Z) : throwing attempt_result :=
  if empty task_id || (version <=? 0) then Throws (lit "invalid sync marker wait") else Returns (mk_result waiting [] task_id version).

(** The row an attempt's result leaves. *)
Definition settled (now interval : Z) (version : Z) (result : attempt_result) (counter : failure_count) (t : sync_task) : sync_task :=
  let case outcome := bool_decide (outcome_ result = outcome) in
  let finished := case completed || case terminal_failure in
  let fails :=
    if case retryable_failure || case terminal_failure then match counter with restart => 1 | accumulate => count_fails_ t + 1 end else 0 in
  let next :=
    if case retryable_failure then now_plus now retry_delay_seconds else now_plus now (if finished then interval else 0) in
  set_times next now
    (set_wait (if case waiting then Some (result_task_ result) else None) (if case waiting then Some (result_version_ result) else None)
      (set_lease None None
        (set_processed (if finished then version else processed_version_ t)
          (set_result finished (case completed) (result_error_ result) fails t)))).

Record marker_waiter := mk_waiter { waiter_type_ : marker_resource_type; waiter_resource_ : bytes }.
Record task_result := mk_task_result { kind_ : result_kind; result_event_ : option Z }.
Definition result_changed (result : task_result) : bool := match kind_ result with recorded | removed => true | quiet | stale => false end.

Inductive phase := open | writing | ready | committed.
#[export] Instance phase_eq_dec : EqDecision phase.
Proof. solve_decision. Defined.
Record running_result_writer := mk_writer {
  lease_ : running_marker_lease;
  settled_check_interval_ : Z;
  result_ : option task_result;
  resumed_ : list marker_waiter;
  trace_required_ : bool;
  phase_ : phase
}.
Definition new_writer (lease : running_marker_lease) (interval : Z) : running_result_writer := mk_writer lease interval None [] false open.

Definition apply_result (now : Z) (w : running_result_writer) (result : attempt_result) (counter : failure_count) (db : sync_tables) :
    throwing (sync_tables * bool) :=
  update_leased (lease_ w) (lease_live now) (settled now (settled_check_interval_ w) (ref_version_ (marker_ (lease_ w))) result counter) db.

(** The waiters [resume] releases: all of them on a removal. *)
Definition resumable (lease : running_marker_lease) (all : bool) (t : sync_task) : bool :=
  (tenant_id_ t == ref_tenant_ (marker_ lease)) && bool_decide (wait_task_id_ t = Some (ref_marker_ (marker_ lease))) &&
  (all || match wait_version_ t with Some version => version <=? ref_version_ (marker_ lease) | None => false end).
Definition resumed_row (now : Z) (t : sync_task) : sync_task := set_times (now_plus now wait_settle_delay) now (set_wait None None t).
Definition resume (now : Z) (lease : running_marker_lease) (all : bool) (db : sync_tables) : sync_tables * list marker_waiter :=
  let released := filter (fun row => resumable lease all (snd row) = true) (tasks_ db) in
  (mk_tables ((fun t => if resumable lease all t then resumed_row now t else t) <$> tasks_ db) (events_ db) (next_event_ db),
   map (fun row => mk_waiter (resource_type_ (snd row)) (resource_id_ (snd row))) (map_to_list released)).

(** * Events *)

Definition event_outcome_completed : bytes := lit "completed".
Definition event_outcome_failed : bytes := lit "failed".
Definition event_outcome_progressed : bytes := lit "progressed".

(** SQL's [left(text, n)]: the first characters. *)
Fixpoint left_characters (n : nat) (s : bytes) : bytes :=
  match s with
  | [] => []
  | c :: s' => if continues c then c :: left_characters n s' else match n with O => [] | S n' => c :: left_characters n' s' end
  end.
(** One more than the newest retained attempt of the sequence. *)
Definition next_attempt_number (tenant task resource_id : bytes) (version : Z) (events : list sync_event) : Z :=
  match List.find (fun e => (event_tenant_ e == tenant) && (event_task_ e == task) && (event_resource_ e == resource_id) && (event_version_ e =? version)) (rev events) with
  | Some e => attempt_ e + 1
  | None => 1
  end.
(** The instant the attempt started, on the database's clock; [elapsed] is in milliseconds. *)
Definition attempt_started_at (emitted_at : Z) (elapsed : option Z) : option Z := (fun ms => emitted_at - ms * 1000) <$> elapsed.

(** The row the INSERT ... SELECT finds for the event: the one the transition just wrote. *)
Definition event_source (lease : running_marker_lease) (outcome : attempt_outcome) (t : sync_task) : bool :=
  let case o := bool_decide (outcome = o) in
  (tenant_id_ t == ref_tenant_ (marker_ lease)) && (version_ t =? ref_version_ (marker_ lease)) &&
  Bool.eqb (is_done_ t) (case completed || case terminal_failure) && Bool.eqb (is_ok_ t) (case completed) &&
  (if case retryable_failure || case terminal_failure then 0 <? count_fails_ t else if case waiting then present (wait_task_id_ t) else true).
(** Milliseconds on the monotonic clock since an attempt started, when that is known. *)
Definition elapsed_milliseconds (steady : Z) (started : option Z) : option Z :=
  (fun started => if steady - started <? 0 then 0 else Z.quot (steady - started) 1000000) <$> started.
Definition append_event `{JsonDetail} (clock steady : Z) (lease : running_marker_lease) (outcome : attempt_outcome) (detail : bytes)
    (db : sync_tables) : sync_tables * option Z :=
  match tasks_ db !! ref_marker_ (marker_ lease) with
  | Some t =>
      if event_source lease outcome t then
        let elapsed := elapsed_milliseconds steady (started_ lease) in
        let event := mk_event (next_event_ db) (tenant_id_ t) (ref_marker_ (marker_ lease)) (resource_type_ t) (resource_id_ t) (operation_ t) (version_ t)
          match outcome with
          | retryable_failure | terminal_failure => event_outcome_failed
          | waiting => event_outcome_progressed
          | completed => event_outcome_completed
          end
          (left_characters 1000 (error_ t))
          (next_attempt_number (tenant_id_ t) (ref_marker_ (marker_ lease)) (resource_id_ t) (version_ t) (events_ db))
          (attempt_started_at clock elapsed) (default 0 elapsed) (accepted_detail detail) clock in
        (mk_tables (tasks_ db) (events_ db ++ [event]) (next_event_ db + 1), Some (next_event_ db))
      else (db, None)
  | None => (db, None)
  end.

(** * The result writer *)

Definition require_open (w : running_result_writer) : throwing running_result_writer :=
  if bool_decide (phase_ w = open) then Returns (mk_writer (lease_ w) (settled_check_interval_ w) (result_ w) (resumed_ w) (trace_required_ w) writing)
  else Throws (lit "sync result writer already finalized").
Definition finish (kind : result_kind) (event : option Z) (resumed : list marker_waiter) (trace : bool) (w : running_result_writer) : running_result_writer :=
  mk_writer (lease_ w) (settled_check_interval_ w) (Some (mk_task_result kind event)) resumed trace ready.

Definition record `{JsonDetail} (now clock steady : Z) (result : attempt_result) (detail : bytes) (counter : failure_count)
    (w : running_result_writer) (db : sync_tables) : throwing (sync_tables * running_result_writer) :=
  throwing_bind (require_open w) (fun w =>
  throwing_bind (apply_result now w result counter db) (fun '(db, applied) =>
    if negb applied then Returns (db, finish stale None (resumed_ w) (trace_required_ w) w)
    else
      let '(db, event_id) := append_event clock steady (lease_ w) (outcome_ result) detail db in
      match event_id with
      | None => Throws (lit "sync marker result event was not recorded")
      | Some _ =>
          let '(db, resumed) :=
            match outcome_ result with completed | terminal_failure => resume now (lease_ w) false db | _ => (db, resumed_ w) end in
          Returns (db, finish recorded event_id resumed true w)
      end)).

Definition remove_task (now : Z) (w : running_result_writer) (db : sync_tables) : throwing (sync_tables * running_result_writer) :=
  throwing_bind (require_open w) (fun w =>
    let id := ref_marker_ (marker_ (lease_ w)) in
    match tasks_ db !! id with
    | Some t =>
        if leased (lease_ w) t && lease_live now t then
          let '(db, resumed) := resume now (lease_ w) true (mk_tables (delete id (tasks_ db)) (events_ db) (next_event_ db)) in
          Returns (db, finish removed None resumed (trace_required_ w) w)
        else Returns (db, finish stale None (resumed_ w) (trace_required_ w) w)
    | None => Returns (db, finish stale None (resumed_ w) (trace_required_ w) w)
    end).

(** The row a release or an inspection leaves. *)
Definition released_row (now interval : Z) (due : bool) (t : sync_task) : sync_task :=
  set_times (if due then now else if 0 <? interval then now + interval * second else next_attempt_at_ t) (if due then now else updated_at_ t) (set_lease None None t).
Definition quiet_result (now : Z) (action : quiet_action) (w : running_result_writer) (db : sync_tables) : throwing (sync_tables * running_result_writer) :=
  throwing_bind (require_open w) (fun w =>
    match action with
    | complete =>
        throwing_bind (apply_result now w result_completed accumulate db) (fun '(db, applied) =>
          if negb applied then Returns (db, finish stale None (resumed_ w) (trace_required_ w) w)
          else let '(db, resumed) := resume now (lease_ w) false db in Returns (db, finish quiet None resumed (trace_required_ w) w))
    | release | inspect =>
        throwing_bind (update_leased (lease_ w) (lease_live now)
            (released_row now (settled_check_interval_ w) match action with release => true | _ => false end) db) (fun '(db, released) =>
          Returns (db, finish (if released then quiet else stale) None (resumed_ w) (trace_required_ w) w))
    end).

(** The row a recovered lease leaves: a failed attempt, to be tried again. *)
Definition recovered_row (now : Z) (t : sync_task) : sync_task :=
  set_times (now_plus now retry_delay_seconds) now
    (set_lease None None (set_result false false lease_recovery_retry_error (count_fails_ t + 1) t)).
Definition recover_expired `{JsonDetail} (now clock steady : Z) (w : running_result_writer) (db : sync_tables) : throwing (sync_tables * running_result_writer) :=
  throwing_bind (require_open w) (fun w =>
  throwing_bind (update_leased (lease_ w) (lease_expired now) (recovered_row now) db) (fun '(db, recovered) =>
    if negb recovered then Returns (db, finish stale None (resumed_ w) (trace_required_ w) w)
    else
      let '(db, event_id) := append_event clock steady (lease_ w) retryable_failure detail_none_json db in
      match event_id with
      | None => Throws (lit "recovered sync marker result was not recorded")
      | Some _ => Returns (db, finish recorded event_id (resumed_ w) (trace_required_ w) w)
      end)).

(** * Committing a result *)

(** What a commit tells the subscribers (src/service/features/live_resource/notifications.h). *)
Record resource_notification := mk_notification {
  notification_tenant_ : bytes;
  changes_ : list (resource * bytes);
  task_attempts_ : list (bytes * Z);
  node_config_ : bool
}.
Definition changed (value : resource) (id : bytes) (n : resource_notification) : resource_notification :=
  if bool_decide ((value, id) ∈ changes_ n) then n
  else mk_notification (notification_tenant_ n) (changes_ n ++ [(value, id)]) (task_attempts_ n) (node_config_ n).
Definition task_attempt (task_id : bytes) (event_id : Z) (n : resource_notification) : resource_notification :=
  mk_notification (notification_tenant_ n) (changes_ n) (task_attempts_ n ++ [(task_id, event_id)]) (node_config_ n).
Definition marker_changed (resource_type : marker_resource_type) (resource_id : bytes) (n : resource_notification) : throwing resource_notification :=
  throwing_bind (describe resource_type) (fun type => Returns (changed (resource_ type) resource_id (changed tasks resource_id n))).

(** [commit_bound] up to the database's COMMIT: the notification that is queued with it, whether its
    delivery waits for the trace of the attempt, and the event whose trace is stored after it. *)
Definition commit_bound (trace node_config : bool) (caused : option queued_work) (w : running_result_writer) :
    throwing (running_result_writer * resource_notification * option Z) :=
  match result_ w with
  | Some result =>
      if negb (bool_decide (phase_ w = ready)) || (trace_required_ w && negb trace) then Throws (lit "sync result writer cannot commit")
      else
        let w' := mk_writer (lease_ w) (settled_check_interval_ w) (result_ w) (resumed_ w) (trace_required_ w) committed in
        let empty_notification := mk_notification (ref_tenant_ (marker_ (lease_ w))) [] [] false in
        let stored := if trace then result_event_ result else None in
        if negb (result_changed result) then Returns (w', empty_notification, stored)
        else
          let n := match result_event_ result with
                   | Some event => task_attempt (ref_resource_ (marker_ (lease_ w))) event empty_notification
                   | None => empty_notification
                   end in
          throwing_bind (marker_changed (ref_resource_type_ (marker_ (lease_ w))) (ref_resource_ (marker_ (lease_ w))) n) (fun n =>
          throwing_bind (throwing_fold (fun n waiter => marker_changed (waiter_type_ waiter) (waiter_resource_ waiter) n) n (resumed_ w)) (fun n =>
            let n := if node_config then mk_notification (notification_tenant_ n) (changes_ n) (task_attempts_ n) true else n in
            let n := match caused with Some work => fold_left (fun n id => changed tasks id n) (changed_ work) n | None => n end in
            Returns (w', n, stored)))
  | None => Throws (lit "sync result writer cannot commit")
  end.

(** * Claims *)

(** What a claim reads of the marker's aggregate row: its version and whether it is deleted. *)
Record subject := mk_subject { subject_version_ : Z; deleted_ : bool }.
Definition aggregates := marker_resource_type -> bytes -> bytes -> option subject.

Definition claimable (now : Z) (subjects : aggregates) (type : marker_type) (t : sync_task) : bool :=
  bool_decide (resource_type_ t = type_resource_type_ type) && negb (is_done_ t) && (next_attempt_at_ t <=? now) &&
  negb (present (lease_until_ t)) && negb (present (wait_task_id_ t)) &&
  match subjects (resource_type_ t) (tenant_id_ t) (resource_id_ t) with
  | None => false
  | Some s =>
      (version_ t =? subject_version_ s) &&
      (negb (deleted_ s) || match deleted_operation_ type with Some operation => bool_decide (operation_ t = operation) | None => false end)
  end.

(** ORDER BY and LIMIT 1: the first row of an order. *)
Fixpoint first_row (before : bytes * sync_task -> bytes * sync_task -> bool) (rows : list (bytes * sync_task)) : option (bytes * sync_task) :=
  match rows with
  | [] => None
  | row :: rows => match first_row before rows with Some other => if before row other then Some row else Some other | None => Some row end
  end.
Definition lexicographic (a b : Z) (rest : bool) : bool := (a <? b) || ((a =? b) && rest).
(** ORDER BY next_attempt_at, updated_at. *)
Definition due_before (a b : bytes * sync_task) : bool :=
  lexicographic (next_attempt_at_ (snd a)) (next_attempt_at_ (snd b)) (updated_at_ (snd a) <=? updated_at_ (snd b)).

Record claimed_marker := mk_claimed {
  claimed_id_ : bytes; claimed_tenant_ : bytes; claimed_resource_ : bytes; claimed_operation_ : marker_operation;
  claimed_version_ : Z; failures_ : Z; claimed_at_ : Z }.

(** The UPDATE of a claim. [locked] rows are held by another transaction and are skipped. *)
Definition claim_row (now : Z) (owner : bytes) (t : sync_task) : sync_task :=
  set_times (next_attempt_at_ t) now (set_lease (Some owner) (Some (now_plus now lease_duration)) t).
Definition claim_marker (now steady : Z) (subjects : aggregates) (locked : bytes -> bool) (owner : bytes) (resource_type : marker_resource_type)
    (db : sync_tables) : throwing (sync_tables * option (claimed_marker * resource_notification)) :=
  throwing_bind (describe resource_type) (fun type =>
    match first_row due_before (List.filter (fun row => claimable now subjects type (snd row) && negb (locked (fst row))) (map_to_list (tasks_ db))) with
    | None => Returns (db, None)
    | Some (id, t) =>
        throwing_bind (write_task db id (claim_row now owner t)) (fun db =>
          let n := changed tasks (resource_id_ t) (mk_notification (tenant_id_ t) [] [] false) in
          Returns (db, Some (mk_claimed id (tenant_id_ t) (resource_id_ t) (operation_ t) (version_ t) (count_fails_ t) steady,
            if claim_changes_resource_ type then changed (resource_ type) (resource_id_ t) n else n)))
    end).

(** An inspection borrows the lease of a settled task (claim_due_check of the websites and the zones);
    [due] is what the query asks besides the version of the aggregate, [before] its order. *)
Definition inspectable (subjects : aggregates) (due : sync_task -> bool) (resource_type : marker_resource_type) (t : sync_task) : bool :=
  bool_decide (resource_type_ t = resource_type) && is_done_ t && negb (present (lease_until_ t)) && negb (present (wait_task_id_ t)) &&
  match subjects (resource_type_ t) (tenant_id_ t) (resource_id_ t) with
  | Some s => (version_ t =? subject_version_ s) && negb (deleted_ s)
  | None => false
  end && due t.
Definition claim_due_check (now : Z) (subjects : aggregates) (due : sync_task -> bool) (before : bytes * sync_task -> bytes * sync_task -> bool)
    (locked : bytes -> bool) (owner : bytes) (resource_type : marker_resource_type) (db : sync_tables) : throwing (sync_tables * option (bytes * sync_task)) :=
  match first_row before (List.filter (fun row => inspectable subjects due resource_type (snd row) && negb (locked (fst row))) (map_to_list (tasks_ db))) with
  | None => Returns (db, None)
  | Some (id, t) =>
      throwing_bind (write_task db id (set_lease (Some owner) (Some (now_plus now lease_duration)) t)) (fun db => Returns (db, Some (id, t)))
  end.
Definition id_before (a b : bytes * sync_task) : bool := match bytes_compare (fst a) (fst b) with Gt => false | _ => true end.
(** The websites': the schedule is the task's own. *)
Definition website_due_check (now : Z) (subjects : aggregates) (locked : bytes -> bool) (owner : bytes) (db : sync_tables) :=
  claim_due_check now subjects (fun t => next_attempt_at_ t <=? now)
    (fun a b => lexicographic (next_attempt_at_ (snd a)) (next_attempt_at_ (snd b)) (id_before a b)) locked owner website db.
(** The zones': [next_check] of a zone and its sort key are the zone's, [verified] its provider's state. *)
Definition zone_due_check (now : Z) (subjects : aggregates) (verified : bytes -> bool) (next_check sort : bytes -> Z) (locked : bytes -> bool)
    (owner : bytes) (db : sync_tables) :=
  claim_due_check now subjects (fun t => verified (resource_id_ t) && (next_check (resource_id_ t) <=? now))
    (fun a b => lexicographic (next_check (resource_id_ (snd a))) (next_check (resource_id_ (snd b)))
                  (sort (resource_id_ (snd a)) <=? sort (resource_id_ (snd b)))) locked owner dns_zone db.

(** * Maintenance *)

(** ORDER BY lease_until, id. *)
Definition expires_before (a b : bytes * sync_task) : bool :=
  lexicographic (default 0 (lease_until_ (snd a))) (default 0 (lease_until_ (snd b))) (id_before a b).
(** [recover_stale_running]: one transaction for each row of the scan, which takes at most 32. *)
Definition expired_leases (now : Z) (resource_type : marker_resource_type) (db : sync_tables) : list (bytes * sync_task) :=
  merge_sort (fun a b => Is_true (expires_before a b))
    (List.filter (fun row => bool_decide (resource_type_ (snd row) = resource_type) && lease_expired now (snd row)) (map_to_list (tasks_ db))).
Definition recover_row `{JsonDetail} (now clock steady : Z) (resource_type : marker_resource_type) (db : sync_tables) (row : bytes * sync_task) :
    throwing sync_tables :=
  let '(id, t) := row in
  throwing_bind (make_running_lease (tenant_id_ t) id (version_ t) (default [] (lease_owner_ t)) None resource_type (resource_id_ t)) (fun lease =>
  throwing_bind (recover_expired now clock steady (new_writer lease 0) db) (fun '(db, w) =>
  throwing_bind (commit_bound false false None w) (fun _ => Returns db))).
Definition recover_stale_running `{JsonDetail} (now clock steady : Z) (resource_type : marker_resource_type) (db : sync_tables) : throwing sync_tables :=
  throwing_fold (recover_row now clock steady resource_type) db (take 32 (expired_leases now resource_type db)).

(** Whether the awaited task still has the awaited version before it. *)
Definition still_awaited (db : sync_tables) (t : sync_task) : bool :=
  match wait_task_id_ t, wait_version_ t with
  | Some task, Some version =>
      match tasks_ db !! task with
      | Some awaited => (tenant_id_ awaited == tenant_id_ t) && (processed_version_ awaited <? version)
      | None => false
      end
  | _, _ => false
  end.
Definition stale_waiter (resource_type : marker_resource_type) (db : sync_tables) (t : sync_task) : bool :=
  bool_decide (resource_type_ t = resource_type) && present (wait_task_id_ t) && negb (still_awaited db t).
Definition resume_stale_waiters (now : Z) (resource_type : marker_resource_type) (db : sync_tables) : sync_tables :=
  mk_tables ((fun t => if stale_waiter resource_type db t then resumed_row now t else t) <$> tasks_ db) (events_ db) (next_event_ db).

(** Attempts older than seven days leave the history. *)
Definition prune_result_events (now : Z) (db : sync_tables) : sync_tables :=
  mk_tables (tasks_ db) (List.filter (fun e => negb (emitted_at_ e <? now - 604800 * second)) (events_ db)) (next_event_ db).
