(* ===== verification/SyncRuntime.v ===== *)
(** Sync tasks under any interleaving of the workers' transactions
    (src/service/features/sync_runtime/state.h and worker.h): what every sequence of operations keeps
    true of the tables, the fence of the leases, and that maintenance loses no task.

    The statements of one transaction take effect together, at its commit: the rows it changed stay
    locked until then. An interleaving is therefore a list of operations, each a whole transaction. *)
From S2P Require Import Prelude Utf8 SyncTask.
Open Scope Z_scope.

(** * The operations *)

Inductive sync_operation :=
| Upsert (now : Z) (fresh tenant : bytes) (type : marker_resource_type) (resource_id : bytes) (operation : marker_operation) (version : Z)
| RemoveMarker (tenant : bytes) (type : marker_resource_type) (resource_id : bytes)
| RenewLease (now : Z) (lease : running_marker_lease)
| Record (now clock steady : Z) (lease : running_marker_lease) (interval : Z) (result : attempt_result) (detail : bytes) (counter : failure_count)
| RemoveTask (now : Z) (lease : running_marker_lease)
| Quiet (now : Z) (lease : running_marker_lease) (interval : Z) (action : quiet_action)
| Claim (now steady : Z) (subjects : aggregates) (locked : bytes -> bool) (owner : bytes) (type : marker_resource_type)
| Inspect (now : Z) (subjects : aggregates) (due : sync_task -> bool) (before : bytes * sync_task -> bytes * sync_task -> bool)
    (locked : bytes -> bool) (owner : bytes) (type : marker_resource_type)
| Recover (now clock steady : Z) (lease : running_marker_lease)
| ResumeStale (now : Z) (type : marker_resource_type)
| Prune (now : Z).

Definition committed_tables {A} (db : sync_tables) (result : throwing (sync_tables * A)) : sync_tables :=
  match result with Returns (db', _) => db' | Throws _ => db end.

Section Operations.
Context `{JsonDetail}.

(** The tables after a transaction; one that throws is rolled back. *)
Definition perform (db : sync_tables) (op : sync_operation) : sync_tables :=
  match op with
  | Upsert now fresh tenant type rid operation version =>
      match upsert_marker now fresh tenant type rid operation version (mk_work [] []) db with Returns (db', _, _) => db' | Throws _ => db end
  | RemoveMarker tenant type rid => fst (remove_marker tenant type rid (mk_work [] []) db)
  | RenewLease now lease => committed_tables db (renew_running_lease now lease db)
  | Record now clock steady lease interval result detail counter =>
      committed_tables db (record now clock steady result detail counter (new_writer lease interval) db)
  | RemoveTask now lease => committed_tables db (remove_task now (new_writer lease 0) db)
  | Quiet now lease interval action => committed_tables db (quiet_result now action (new_writer lease interval) db)
  | Claim now steady subjects locked owner type => committed_tables db (claim_marker now steady subjects locked owner type db)
  | Inspect now subjects due before locked owner type => committed_tables db (claim_due_check now subjects due before locked owner type db)
  | Recover now clock steady lease => committed_tables db (recover_expired now clock steady (new_writer lease 0) db)
  | ResumeStale now type => resume_stale_waiters now type db
  | Prune now => prune_result_events now db
  end.
Definition perform_all (db : sync_tables) (ops : list sync_operation) : sync_tables := fold_left perform ops db.

(** * What the statements do *)

Lemma throwing_bind_inv {A B} (x : throwing A) (f : A -> throwing B) b : throwing_bind x f = Returns b -> exists a, x = Returns a /\ f a = Returns b.
Proof. destruct x; [eauto|done]. Qed.

Lemma write_task_inv db id t db' : write_task db id t = Returns db' ->
  db' = mk_tables (<[id := t]> (tasks_ db)) (events_ db) (next_event_ db) /\ task_check t = true /\ columns_fit t = true.
Proof. unfold write_task. destruct (task_check t && columns_fit t) eqn:E; [|done]. apply andb_true_iff in E as [? ?]. by intros [= <-]. Qed.

Lemma update_leased_inv lease condition change db db' b : update_leased lease condition change db = Returns (db', b) ->
  (b = false /\ db' = db) \/
  (b = true /\ exists t, tasks_ db !! ref_marker_ (marker_ lease) = Some t /\ leased lease t = true /\ condition t = true /\
     task_check (change t) = true /\ columns_fit (change t) = true /\
     db' = mk_tables (<[ref_marker_ (marker_ lease) := change t]> (tasks_ db)) (events_ db) (next_event_ db)).
Proof.
  unfold update_leased. destruct (tasks_ db !! _) as [t|]; [|intros [= <- <-]; by left].
  destruct (leased lease t && condition t) eqn:E; [|intros [= <- <-]; by left]. apply andb_true_iff in E as [? ?].
  intros (db1 & (-> & ? & ?)%write_task_inv & [= <- <-])%throwing_bind_inv. right. eauto 10.
Qed.

(** The identity of a task, which no statement changes. *)
Definition resource_key (t : sync_task) : bytes * marker_resource_type * bytes := (tenant_id_ t, resource_type_ t, resource_id_ t).

(** Who holds a task, and for which tenant and version. *)
Definition owner_at (db : sync_tables) (id : bytes) : option (bytes * Z * bytes) :=
  t ← tasks_ db !! id; o ← lease_owner_ t; Some (tenant_id_ t, version_ t, o).

(** The moves of one row: everything the operations do is made of these. *)
Inductive row_move (owner : option bytes) : option sync_task -> option sync_task -> Prop :=
| Absent : row_move owner None None
| Gone t : row_move owner (Some t) None
| Inserted t : lease_owner_ t = None -> row_move owner None (Some t)
| Changed t t' : resource_key t' = resource_key t -> version_ t' = version_ t /\ lease_owner_ t' = lease_owner_ t \/ lease_owner_ t' = None ->
    row_move owner (Some t) (Some t')
| Taken t t' o : owner = Some o -> resource_key t' = resource_key t -> version_ t' = version_ t -> lease_owner_ t = None -> lease_owner_ t' = Some o ->
    row_move owner (Some t) (Some t').

Lemma row_move_refl owner r : row_move owner r r.
Proof. destruct r; constructor; [done|by left]. Qed.

(** The owner an operation may give a lease to. *)
Definition taker (op : sync_operation) : option bytes :=
  match op with Claim _ _ _ _ owner _ | Inspect _ _ _ _ _ owner _ => Some owner | _ => None end.

Lemma insert_moves owner db id t' : row_move owner (tasks_ db !! id) (Some t') ->
  forall i, row_move owner (tasks_ db !! i) (<[id := t']> (tasks_ db) !! i).
Proof. intros Hm i. destruct (decide (id = i)) as [->|]; [by rewrite lookup_insert_eq|rewrite lookup_insert_ne by done; apply row_move_refl]. Qed.

Lemma fmap_moves owner (f : sync_task -> sync_task) db : (forall t, resource_key (f t) = resource_key t /\ version_ (f t) = version_ t /\ lease_owner_ (f t) = lease_owner_ t) ->
  forall i, row_move owner (tasks_ db !! i) ((f <$> tasks_ db) !! i).
Proof.
  intros Hf i. rewrite lookup_fmap. destruct (tasks_ db !! i) as [t|]; constructor; destruct (Hf t) as (? & ? & ?); [done|by left].
Qed.

(** ** The results *)

Definition lease_id (lease : running_marker_lease) : bytes := ref_marker_ (marker_ lease).

(** What is known of a new event. *)
Definition appended (db : sync_tables) (id : bytes) (e : sync_event) : Prop :=
  event_id_ e = next_event_ db /\ event_task_ e = id /\ (Forall (fun e => 0 < attempt_ e) (events_ db) -> 0 < attempt_ e).
Lemma append_event_inv clock steady lease outcome detail db db' event :
  append_event clock steady lease outcome detail db = (db', event) ->
  (event = None /\ db' = db) \/
  (exists e, event = Some (next_event_ db) /\ db' = mk_tables (tasks_ db) (events_ db ++ [e]) (next_event_ db + 1) /\
     appended db (lease_id lease) e).
Proof.
  unfold append_event. destruct (tasks_ db !! _) as [t|]; [|intros [= <- <-]; by left].
  destruct (event_source lease outcome t); intros [= <- <-]; [right|by left]. eexists. split_and!; [done..|].
  split_and!; [done..|]. cbn [attempt_]. unfold next_attempt_number. intros Hall. destruct (List.find _ _) as [e|] eqn:E; [|lia].
  apply find_some in E as [Hin%in_rev _]. apply list_elem_of_In in Hin. rewrite Forall_forall in Hall. specialize (Hall e Hin). cbn beta in Hall. lia.
Qed.

(** The rows a resumption leaves. *)
Definition resume_row (now : Z) (lease : running_marker_lease) (all : bool) (t : sync_task) : sync_task :=
  if resumable lease all t then resumed_row now t else t.
Lemma resume_tables now lease all db : fst (resume now lease all db) = mk_tables (resume_row now lease all <$> tasks_ db) (events_ db) (next_event_ db).
Proof. done. Qed.

Definition finished (outcome : attempt_outcome) : bool := match outcome with completed | terminal_failure => true | _ => false end.

Lemma record_inv now clock steady result detail counter w db db' w' : record now clock steady result detail counter w db = Returns (db', w') ->
  phase_ w = open /\
  ((db' = db /\ result_ w' = Some (mk_task_result stale None)) \/
   exists t e, tasks_ db !! lease_id (lease_ w) = Some t /\ leased (lease_ w) t = true /\ lease_live now t = true /\
     let t' := settled now (settled_check_interval_ w) (ref_version_ (marker_ (lease_ w))) result counter t in
     task_check t' = true /\ columns_fit t' = true /\ appended db (lease_id (lease_ w)) e /\
     db' = mk_tables ((fun t => if finished (outcome_ result) then resume_row now (lease_ w) false t else t) <$> <[lease_id (lease_ w) := t']> (tasks_ db))
             (events_ db ++ [e]) (next_event_ db + 1) /\
     result_ w' = Some (mk_task_result recorded (Some (next_event_ db)))).
Proof.
  unfold record. intros (w1 & Hopen & Hr)%throwing_bind_inv. unfold require_open in Hopen.
  destruct (bool_decide (phase_ w = open)) eqn:Ep; [|done]. apply bool_decide_eq_true in Ep. injection Hopen as <-. cbn [lease_ settled_check_interval_] in Hr.
  apply throwing_bind_inv in Hr as ([db1 applied] & Happ & Hr). unfold apply_result in Happ. cbn [lease_ settled_check_interval_] in Happ. split; [done|].
  destruct (update_leased_inv _ _ _ _ _ _ Happ) as [(-> & ->)|(-> & t & Ht & Hl & Hc & Hk & Hf & ->)]; cbn [negb] in Hr.
  { injection Hr as <- <-. by left. }
  right. destruct (append_event _ _ _ _ _ _) as [db2 event] eqn:Ee.
  destruct (append_event_inv _ _ _ _ _ _ _ _ Ee) as [(-> & _)|(e & -> & -> & He)]; [done|]. cbn [next_event_ events_ tasks_] in *.
  exists t, e. unfold lease_id. destruct (outcome_ result) eqn:Eo; injection Hr as <- <-; cbn [finished]; rewrite ?map_fmap_id; split_and!; done.
Qed.
Lemma remove_task_inv now w db db' w' : remove_task now w db = Returns (db', w') ->
  (db' = db /\ result_ w' = Some (mk_task_result stale None)) \/
  exists t, tasks_ db !! lease_id (lease_ w) = Some t /\ leased (lease_ w) t = true /\ lease_live now t = true /\
    db' = mk_tables (resume_row now (lease_ w) true <$> delete (lease_id (lease_ w)) (tasks_ db)) (events_ db) (next_event_ db) /\
    result_ w' = Some (mk_task_result removed None).
Proof.
  unfold remove_task. intros (w1 & Hopen & Hr)%throwing_bind_inv. unfold require_open in Hopen.
  destruct (bool_decide (phase_ w = open)); [|done]. injection Hopen as <-. cbn [lease_] in Hr.
  destruct (tasks_ db !! ref_marker_ (marker_ (lease_ w))) as [t|] eqn:Et; [|injection Hr as <- <-; by left].
  destruct (leased (lease_ w) t && lease_live now t) eqn:E; [|injection Hr as <- <-; by left]. apply andb_true_iff in E as [? ?].
  injection Hr as <- <-. right. by exists t.
Qed.

Lemma quiet_inv now action w db db' w' : quiet_result now action w db = Returns (db', w') ->
  (db' = db /\ result_ w' = Some (mk_task_result stale None)) \/
  exists t t', tasks_ db !! lease_id (lease_ w) = Some t /\ leased (lease_ w) t = true /\ lease_live now t = true /\
    task_check t' = true /\ columns_fit t' = true /\ result_ w' = Some (mk_task_result quiet None) /\
    match action with
    | complete =>
        t' = settled now (settled_check_interval_ w) (ref_version_ (marker_ (lease_ w))) result_completed accumulate t /\
        db' = mk_tables (resume_row now (lease_ w) false <$> <[lease_id (lease_ w) := t']> (tasks_ db)) (events_ db) (next_event_ db)
    | _ =>
        t' = released_row now (settled_check_interval_ w) match action with release => true | _ => false end t /\
        db' = mk_tables (<[lease_id (lease_ w) := t']> (tasks_ db)) (events_ db) (next_event_ db)
    end.
Proof.
  unfold quiet_result. intros (w1 & Hopen & Hr)%throwing_bind_inv. unfold require_open in Hopen.
  destruct (bool_decide (phase_ w = open)); [|done]. injection Hopen as <-. cbn [lease_ settled_check_interval_ resumed_ trace_required_] in Hr.
  destruct action; apply throwing_bind_inv in Hr as ([db1 done_] & Happ & Hr); unfold apply_result in Happ; cbn [lease_ settled_check_interval_] in Happ;
    (destruct (update_leased_inv _ _ _ _ _ _ Happ) as [(-> & ->)|(-> & t & Ht & Hl & Hc & Hk & Hf & ->)]; injection Hr as <- <-; [by left|right; eauto 12]).
Qed.

Lemma recover_inv now clock steady w db db' w' : recover_expired now clock steady w db = Returns (db', w') ->
  (db' = db /\ result_ w' = Some (mk_task_result stale None)) \/
  exists t e, tasks_ db !! lease_id (lease_ w) = Some t /\ leased (lease_ w) t = true /\ lease_expired now t = true /\
    task_check (recovered_row now t) = true /\ columns_fit (recovered_row now t) = true /\ appended db (lease_id (lease_ w)) e /\
    db' = mk_tables (<[lease_id (lease_ w) := recovered_row now t]> (tasks_ db)) (events_ db ++ [e]) (next_event_ db + 1) /\
    result_ w' = Some (mk_task_result recorded (Some (next_event_ db))).
Proof.
  unfold recover_expired. intros (w1 & Hopen & Hr)%throwing_bind_inv. unfold require_open in Hopen.
  destruct (bool_decide (phase_ w = open)); [|done]. injection Hopen as <-. cbn [lease_ resumed_ trace_required_] in Hr.
  apply throwing_bind_inv in Hr as ([db1 done_] & Happ & Hr).
  destruct (update_leased_inv _ _ _ _ _ _ Happ) as [(-> & ->)|(-> & t & Ht & Hl & Hc & Hk & Hf & ->)]; cbn [negb] in Hr; [injection Hr as <- <-; by left|].
  right. destruct (append_event _ _ _ _ _ _) as [db2 event] eqn:Ee.
  destruct (append_event_inv _ _ _ _ _ _ _ _ Ee) as [(-> & _)|(e & -> & -> & He)]; [done|]. injection Hr as <- <-. exists t, e. by split_and!.
Qed.

Lemma describe_total type : exists m, describe type = Returns m /\ type_resource_type_ m = type /\ In m marker_types.
Proof. destruct type; eexists; (split_and!; [reflexivity|done|cbn; tauto]). Qed.

(** What the first row of an order is. *)
Lemma first_row_in before rows row : first_row before rows = Some row -> In row rows.
Proof.
  revert row. induction rows as [|r rows IH]; intros row; cbn [first_row]; [done|]. destruct (first_row before rows) as [other|]; [|intros [= <-]; by left].
  destruct (before r other); intros [= <-]; [by left|right; by apply IH].
Qed.
Lemma first_row_none before rows : first_row before rows = None -> rows = [].
Proof. destruct rows; cbn; [done|]. by repeat case_match. Qed.

Lemma in_rows db id t P : In (id, t) (List.filter P (map_to_list (tasks_ db))) -> tasks_ db !! id = Some t /\ P (id, t) = true.
Proof. intros [Hin ?]%filter_In. split; [|done]. by apply elem_of_map_to_list, list_elem_of_In. Qed.

Lemma claim_inv now steady subjects locked owner type db db' claimed : claim_marker now steady subjects locked owner type db = Returns (db', claimed) ->
  (db' = db /\ claimed = None) \/
  exists id t m n, describe type = Returns m /\ tasks_ db !! id = Some t /\ claimable now subjects m t = true /\ locked id = false /\
    task_check (claim_row now owner t) = true /\ columns_fit (claim_row now owner t) = true /\
    db' = mk_tables (<[id := claim_row now owner t]> (tasks_ db)) (events_ db) (next_event_ db) /\
    claimed = Some (mk_claimed id (tenant_id_ t) (resource_id_ t) (operation_ t) (version_ t) (count_fails_ t) steady, n).
Proof.
  unfold claim_marker. destruct (describe_total type) as (m & -> & _). cbn [throwing_bind].
  destruct (first_row _ _) as [[id t]|] eqn:E; [|intros [= <- <-]; by left]. apply first_row_in, in_rows in E as [Ht Hp]. cbn [fst snd] in Hp.
  apply andb_true_iff in Hp as [Hp Hlocked%negb_true_iff]. intros (db1 & (-> & ? & ?)%write_task_inv & [= <- <-])%throwing_bind_inv.
  right. eauto 15.
Qed.

Lemma inspect_inv now subjects due before locked owner type db db' claimed : claim_due_check now subjects due before locked owner type db = Returns (db', claimed) ->
  (db' = db /\ claimed = None) \/
  exists id t, tasks_ db !! id = Some t /\ inspectable subjects due type t = true /\ locked id = false /\
    let t' := set_lease (Some owner) (Some (now_plus now lease_duration)) t in
    task_check t' = true /\ columns_fit t' = true /\
    db' = mk_tables (<[id := t']> (tasks_ db)) (events_ db) (next_event_ db) /\ claimed = Some (id, t).
Proof.
  unfold claim_due_check. destruct (first_row _ _) as [[id t]|] eqn:E; [|intros [= <- <-]; by left]. apply first_row_in, in_rows in E as [Ht Hp]. cbn [fst snd] in Hp.
  apply andb_true_iff in Hp as [Hp Hlocked%negb_true_iff]. intros (db1 & (-> & ? & ?)%write_task_inv & [= <- <-])%throwing_bind_inv.
  right. eauto 15.
Qed.

Lemma find_marker_some db tenant type rid id t : find_marker db tenant type rid = Some (id, t) ->
  tasks_ db !! id = Some t /\ resource_key t = (tenant, type, rid).
Proof.
  unfold find_marker. intros [Hin Hsame]%find_some. apply list_elem_of_In, elem_of_map_to_list in Hin. split; [done|].
  unfold same_resource in Hsame. cbn [snd] in Hsame. reflect_bool. unfold resource_key. congruence.
Qed.
Lemma find_marker_none db tenant type rid : find_marker db tenant type rid = None -> forall id t, tasks_ db !! id = Some t -> resource_key t <> (tenant, type, rid).
Proof.
  unfold find_marker. intros Hnone id t Ht Hkey. apply elem_of_map_to_list, list_elem_of_In in Ht. pose proof (find_none _ _ Hnone _ Ht) as Hs.
  cbn [snd] in Hs. unfold resource_key in Hkey. injection Hkey as <- <- <-. unfold same_resource in Hs. by rewrite !bool_decide_true in Hs.
Qed.

Lemma upsert_inv now fresh tenant type rid operation version work db db' work' id : upsert_marker now fresh tenant type rid operation version work db = Returns (db', work', id) ->
  0 < version /\ supports_marker_operation type operation = true /\
  exists t', task_check t' = true /\ columns_fit t' = true /\ db' = mk_tables (<[id := t']> (tasks_ db)) (events_ db) (next_event_ db) /\
    ((exists t, find_marker db tenant type rid = Some (id, t) /\ t' = requeued now operation version t) \/
     (find_marker db tenant type rid = None /\ id = fresh /\ tasks_ db !! fresh = None /\ t' = new_task now tenant type rid operation version)).
Proof.
  unfold upsert_marker. destruct (Z.leb_spec version 0) as [|Hv]; [done|]. destruct (supports_marker_operation type operation); [|done]. cbn [negb].
  destruct (describe_total type) as (m & -> & _). cbn [throwing_bind]. intros ([i row] & Hrow & Hw)%throwing_bind_inv.
  apply throwing_bind_inv in Hw as (db1 & (-> & Hk & Hf)%write_task_inv & [= <- <- <-]). split_and!; [done..|]. exists row. split_and!; [done..|].
  destruct (find_marker db tenant type rid) as [[i0 t]|]; [injection Hrow as -> <-; left; eauto|].
  destruct (tasks_ db !! fresh) eqn:Ef; [done|]. injection Hrow as <- <-. by right.
Qed.

(** ** The moves of the rows *)

Lemma leased_owner lease t : leased lease t = true -> lease_owner_ t = Some (owner_ lease) /\ version_ t = ref_version_ (marker_ lease) /\ tenant_id_ t = ref_tenant_ (marker_ lease).
Proof. unfold leased. intros Hl. by reflect_bool. Qed.

Lemma resumed_move now lease all t : resource_key (resume_row now lease all t) = resource_key t /\ version_ (resume_row now lease all t) = version_ t /\
  lease_owner_ (resume_row now lease all t) = lease_owner_ t.
Proof. unfold resume_row. by destruct (resumable lease all t). Qed.

Lemma row_move_map owner r r' (f : sync_task -> sync_task) : (forall t, resource_key (f t) = resource_key t /\ version_ (f t) = version_ t /\ lease_owner_ (f t) = lease_owner_ t) ->
  row_move owner r r' -> row_move owner r (f <$> r').
Proof.
  intros Hf [ |t|t Ht|t t' Hk Ho|t t' o Hown Hk Hv Hn Hs]; cbn; [constructor..| | |]; destruct (Hf t) as (Hfk & Hfv & Hfo) || idtac.
  - constructor. congruence.
  - destruct (Hf t') as (Hk' & Hv' & Ho'). constructor; [congruence|]. rewrite Ho', Hv'. tauto.
  - destruct (Hf t') as (Hk' & Hv' & Ho'). by apply (Taken owner t _ o); congruence.
Qed.

Lemma finished_move now lease (b : bool) t : let f := fun t => if b then resume_row now lease false t else t in
  resource_key (f t) = resource_key t /\ version_ (f t) = version_ t /\ lease_owner_ (f t) = lease_owner_ t.
Proof. destruct b; [apply resumed_move|done]. Qed.

(** Checked rows have an owner exactly when they have a lease. *)
Lemma check_lease t : task_check t = true -> lease_until_ t = None -> lease_owner_ t = None.
Proof. unfold task_check. intros Hc Hu. rewrite !andb_true_iff, !bool_decide_eq_true in Hc. tauto. Qed.

Ltac moved := apply insert_moves; match goal with E : tasks_ _ !! _ = Some _ |- _ => rewrite E end.

Lemma perform_moves db op : map_Forall (fun _ t => task_check t = true) (tasks_ db) ->
  forall i, row_move (taker op) (tasks_ db !! i) (tasks_ (perform db op) !! i).
Proof.
  intros Hok i. destruct op as [now fresh tenant type rid operation version|tenant type rid|now lease|now clock steady lease interval result detail counter|now lease|
    now lease interval action|now steady subjects locked owner type|now subjects due before locked owner type|now clock steady lease|now type|now]; cbn [perform taker].
  - destruct (upsert_marker _ _ _ _ _ _ _ _ _) as [[[db' work'] id]|] eqn:E; [|apply row_move_refl].
    destruct (upsert_inv _ _ _ _ _ _ _ _ _ _ _ _ E) as (_ & _ & t' & _ & _ & -> & [(t & Hfind & ->)|(_ & -> & Hfresh & ->)]); apply insert_moves.
    + destruct (find_marker_some _ _ _ _ _ _ Hfind) as [-> _]. constructor; [done|]. cbn [requeued version_ lease_owner_].
      destruct (Z.ltb_spec (version_ t) version); [by right|left; split; [lia|done]].
    + rewrite Hfresh. by constructor.
  - unfold remove_marker. cbn [fst tasks_]. destruct (filter _ (tasks_ db) !! i) as [t|] eqn:E.
    + apply map_lookup_filter_Some in E as [-> _]. apply row_move_refl.
    + destruct (tasks_ db !! i); constructor.
  - destruct (renew_running_lease _ _ _) as [[db' b]|] eqn:E; [|apply row_move_refl]. cbn [committed_tables].
    destruct (update_leased_inv _ _ _ _ _ _ E) as [(_ & ->)|(_ & t & Ht & _ & _ & _ & _ & ->)]; [apply row_move_refl|]. moved. constructor; [done|by left].
  - destruct (record _ _ _ _ _ _ _ _) as [[db' w']|] eqn:E; [|apply row_move_refl]. cbn [committed_tables].
    destruct (record_inv _ _ _ _ _ _ _ _ _ _ E) as (_ & [(-> & _)|(t & e & Ht & _ & _ & _ & _ & _ & -> & _)]); [apply row_move_refl|].
    cbn [tasks_]. rewrite lookup_fmap. apply row_move_map; [intros; apply finished_move|]. moved. constructor; [done|by right].
  - destruct (remove_task _ _ _) as [[db' w']|] eqn:E; [|apply row_move_refl]. cbn [committed_tables].
    destruct (remove_task_inv _ _ _ _ _ E) as [(-> & _)|(t & Ht & _ & _ & -> & _)]; [apply row_move_refl|]. cbn [tasks_]. rewrite lookup_fmap.
    apply row_move_map; [intros; apply resumed_move|]. destruct (decide (lease_id lease = i)) as [<-|Hne].
    + cbn [lease_ new_writer] in Ht |- *. rewrite lookup_delete_eq, Ht. constructor.
    + rewrite lookup_delete_ne by done. apply row_move_refl.
  - destruct (quiet_result _ _ _ _) as [[db' w']|] eqn:E; [|apply row_move_refl]. cbn [committed_tables].
    destruct (quiet_inv _ _ _ _ _ _ E) as [(-> & _)|(t & t' & Ht & _ & _ & _ & _ & _ & Hact)]; [apply row_move_refl|].
    destruct action; destruct Hact as [-> ->]; cbn [tasks_]; [|moved; constructor; [done|by right]..].
    rewrite lookup_fmap. apply row_move_map; [intros; apply resumed_move|]. moved. constructor; [done|by right].
  - destruct (claim_marker _ _ _ _ _ _ _) as [[db' c]|] eqn:E; [|apply row_move_refl]. cbn [committed_tables].
    destruct (claim_inv _ _ _ _ _ _ _ _ _ E) as [(-> & _)|(id & t & m & n & _ & Ht & Hclaim & _ & _ & _ & -> & _)]; [apply row_move_refl|]. moved.
    apply (Taken _ _ _ owner); try done. apply check_lease; [by apply (Hok id)|]. unfold claimable in Hclaim. rewrite !andb_true_iff in Hclaim.
    destruct Hclaim as [[[_ Hu] _] _]. by destruct (lease_until_ t).
  - destruct (claim_due_check _ _ _ _ _ _ _ _) as [[db' c]|] eqn:E; [|apply row_move_refl]. cbn [committed_tables].
    destruct (inspect_inv _ _ _ _ _ _ _ _ _ _ E) as [(-> & _)|(id & t & Ht & Hclaim & _ & _ & _ & -> & _)]; [apply row_move_refl|]. moved.
    apply (Taken _ _ _ owner); try done. apply check_lease; [by apply (Hok id)|]. unfold inspectable in Hclaim. rewrite !andb_true_iff in Hclaim.
    destruct Hclaim as [[[[_ Hu] _] _] _]. by destruct (lease_until_ t).
  - destruct (recover_expired _ _ _ _ _) as [[db' w']|] eqn:E; [|apply row_move_refl]. cbn [committed_tables].
    destruct (recover_inv _ _ _ _ _ _ _ E) as [(-> & _)|(t & e & Ht & _ & _ & _ & _ & _ & -> & _)]; [apply row_move_refl|]. moved. constructor; [done|by right].
  - apply (fmap_moves _ (fun t => if stale_waiter type db t then resumed_row now t else t)). intros t. by destruct (stale_waiter type db t).
  - apply row_move_refl.
Qed.
(** * The tables are always well formed *)

Definition task_ok (t : sync_task) : Prop :=
  task_check t = true /\ columns_fit t = true /\ (is_done_ t = true -> processed_version_ t = version_ t) /\
  (lease_owner_ t <> None -> wait_task_id_ t = None).
Definition events_ok (events : list sync_event) (next : Z) : Prop :=
  Forall (fun e => event_id_ e < next) events /\ StronglySorted (fun a b => event_id_ a < event_id_ b) events /\ Forall (fun e => 0 < attempt_ e) events.
Record tables_ok (db : sync_tables) : Prop := {
  ok_tasks : map_Forall (fun _ t => task_ok t) (tasks_ db);
  ok_unique : forall i j t u, tasks_ db !! i = Some t -> tasks_ db !! j = Some u -> resource_key t = resource_key u -> i = j;
  ok_events : events_ok (events_ db) (next_event_ db)
}.

Lemma tables_checked db : tables_ok db -> map_Forall (fun _ t => task_check t = true) (tasks_ db).
Proof. intros Hok i t Ht. by apply (ok_tasks db Hok i). Qed.

Lemma events_append events next e : events_ok events next -> event_id_ e = next -> 0 < attempt_ e -> events_ok (events ++ [e]) (next + 1).
Proof.
  intros (Hlt & Hsorted & Hpos) He Ha. split_and!.
  - apply Forall_app. split; [eapply Forall_impl; [exact Hlt|]; intros x Hx; simpl in Hx |- *; lia|]. constructor; [lia|done].
  - clear Hpos Ha. induction Hsorted as [|a l Hs IH Hl]; cbn [app]; [repeat constructor|]. apply Forall_cons in Hlt as [Hhead Hlt].
    constructor; [by apply IH|]. apply Forall_app. split; [done|]. constructor; [lia|done].
  - apply Forall_app. split; [done|]. by constructor.
Qed.
Lemma events_filter P events next : events_ok events next -> events_ok (List.filter P events) next.
Proof.
  assert (Hf : forall Q : sync_event -> Prop, Forall Q events -> Forall Q (List.filter P events)).
  { intros Q Hall. rewrite List.Forall_forall in *. intros e [He _]%filter_In. by apply Hall. }
  intros (Hlt & Hs & Hpos). split_and!; [by apply Hf| |by apply Hf]. clear Hf Hlt Hpos. induction Hs as [|a l Hs IH Hl]; cbn [List.filter]; [constructor|].
  destruct (P a); [|done]. constructor; [done|]. rewrite List.Forall_forall in *. intros e [He _]%filter_In. by apply Hl.
Qed.

Lemma ok_insert db id t t' events next : tables_ok db -> tasks_ db !! id = Some t -> resource_key t' = resource_key t -> task_ok t' -> events_ok events next ->
  tables_ok (mk_tables (<[id := t']> (tasks_ db)) events next).
Proof.
  intros Hok Ht Hkey Ht' Hev. split; cbn [tasks_ events_ next_event_]; [by apply map_Forall_insert_2; [|apply Hok]| |done].
  assert (Hback : forall i u, <[id := t']> (tasks_ db) !! i = Some u -> exists u0, tasks_ db !! i = Some u0 /\ resource_key u = resource_key u0).
  { intros i u. destruct (decide (id = i)) as [<-|]; [rewrite lookup_insert_eq; intros [= <-]; by exists t|rewrite lookup_insert_ne by done; eauto]. }
  intros i j u v (u0 & Hu & Eu)%Hback (v0 & Hv & Ev)%Hback Hk. apply (ok_unique db Hok i j u0 v0 Hu Hv). congruence.
Qed.
Lemma ok_fmap db (f : sync_task -> sync_task) : (forall t, task_ok t -> task_ok (f t) /\ resource_key (f t) = resource_key t) -> tables_ok db ->
  tables_ok (mk_tables (f <$> tasks_ db) (events_ db) (next_event_ db)).
Proof.
  intros Hf Hok. split; cbn [tasks_ events_ next_event_]; [| |apply Hok].
  - intros i t (u & <- & Hu)%lookup_fmap_Some. apply Hf, (ok_tasks db Hok i u Hu).
  - intros i j t u (t0 & <- & Ht)%lookup_fmap_Some (u0 & <- & Hu)%lookup_fmap_Some Hk. apply (ok_unique db Hok i j t0 u0 Ht Hu).
    rewrite <- (proj2 (Hf t0 (ok_tasks db Hok i t0 Ht))), Hk. apply Hf, (ok_tasks db Hok j u0 Hu).
Qed.
Lemma ok_filter (db : sync_tables) (m : gmap bytes sync_task) : (forall i t, m !! i = Some t -> tasks_ db !! i = Some t) -> tables_ok db ->
  tables_ok (mk_tables m (events_ db) (next_event_ db)).
Proof.
  intros Hm Hok. split; cbn [tasks_ events_ next_event_]; [|intros; eapply (ok_unique db Hok); eauto|apply Hok].
  intros i t Ht. apply (ok_tasks db Hok i), Hm, Ht.
Qed.

(** ** The rows the statements write *)

Lemma settled_ok now interval version result counter t : version_ t = version -> task_check (settled now interval version result counter t) = true ->
  columns_fit (settled now interval version result counter t) = true -> task_ok (settled now interval version result counter t).
Proof.
  intros Hv Hc Hf. split_and!; try done. cbn. intros Hdone. rewrite Hdone. by rewrite Hv.
Qed.
Lemma requeued_ok now operation version t : task_ok t -> task_check (requeued now operation version t) = true -> columns_fit (requeued now operation version t) = true ->
  task_ok (requeued now operation version t).
Proof.
  intros (_ & _ & Hd & Hl) Hc Hf. split_and!; try done; cbn.
  - destruct (Z.leb_spec (version_ t) version); [done|]. intros Hdone. rewrite Z.max_l by lia. by apply Hd.
  - destruct (Z.leb_spec (version_ t) version); [done|]. destruct (Z.ltb_spec (version_ t) version); [lia|done].
Qed.
Lemma resumed_ok now t : task_ok t -> task_ok (resumed_row now t).
Proof.
  intros (Hc & Hf & Hd & Hl). split_and!; try done. revert Hc. unfold task_check. cbn. rewrite !andb_true_iff, !bool_decide_eq_true. tauto.
Qed.
Lemma lease_ok owner until t : task_ok t -> wait_task_id_ t = None -> task_check (set_lease owner until t) = true -> task_ok (set_lease owner until t).
Proof. intros (_ & Hf & Hd & _) Hw Hc. by split_and!. Qed.
Lemma released_ok now interval due t : task_ok t -> task_check (released_row now interval due t) = true -> task_ok (released_row now interval due t).
Proof. intros (_ & Hf & Hd & _) Hc. by split_and!. Qed.

Lemma resume_row_ok now lease all t : task_ok t -> task_ok (resume_row now lease all t) /\ resource_key (resume_row now lease all t) = resource_key t.
Proof. intros Ht. unfold resume_row. destruct (resumable lease all t); [split; [by apply resumed_ok|done]|done]. Qed.
Lemma ok_resume now lease all m events next : tables_ok (mk_tables m events next) -> tables_ok (mk_tables (resume_row now lease all <$> m) events next).
Proof. apply (ok_fmap (mk_tables m events next)), resume_row_ok. Qed.

Lemma upsert_ok now fresh tenant type rid operation version work db db' work' id :
  upsert_marker now fresh tenant type rid operation version work db = Returns (db', work', id) -> tables_ok db -> tables_ok db'.
Proof.
  intros E Hok. destruct (upsert_inv _ _ _ _ _ _ _ _ _ _ _ _ E) as (_ & _ & t' & Hc & Hf & -> & [(t & Hfind & ->)|(Hnone & -> & Hfresh & ->)]).
  - destruct (find_marker_some _ _ _ _ _ _ Hfind) as [Ht _]. eapply ok_insert; [done..| |apply Hok]. apply requeued_ok; [by apply (ok_tasks db Hok id)|done..].
  - split; cbn [tasks_ events_ next_event_]; [apply map_Forall_insert_2; [|apply Hok]| |apply Hok]; [by split_and!|].
    pose proof (find_marker_none _ _ _ _ Hnone) as Hn. intros i j t u.
    destruct (decide (fresh = i)) as [<-|Hi]; [rewrite lookup_insert_eq; intros [= <-]|rewrite lookup_insert_ne by done; intros Ht];
      (destruct (decide (fresh = j)) as [<-|Hj]; [rewrite lookup_insert_eq; intros [= <-]|rewrite lookup_insert_ne by done; intros Hu]); [done| | |].
    + intros Hk. exfalso. by apply (Hn j u).
    + intros Hk. exfalso. by apply (Hn i t).
    + by apply (ok_unique db Hok).
Qed.

Lemma record_ok now clock steady result detail counter w db db' w' : record now clock steady result detail counter w db = Returns (db', w') ->
  tables_ok db -> tables_ok db'.
Proof.
  intros E Hok. destruct (record_inv _ _ _ _ _ _ _ _ _ _ E) as (_ & [(-> & _)|(t & e & Ht & Hl & _ & Hc & Hf & (He & _ & Ha) & -> & _)]); [done|].
  assert (Hins : tables_ok (mk_tables (<[lease_id (lease_ w) := settled now (settled_check_interval_ w) (ref_version_ (marker_ (lease_ w))) result counter t]> (tasks_ db))
    (events_ db ++ [e]) (next_event_ db + 1))).
  { eapply ok_insert; [done..| |apply events_append; [apply Hok|done|apply Ha, Hok]]. apply settled_ok; [by apply leased_owner in Hl as (_ & ? & _)|done..]. }
  destruct (finished (outcome_ result)); [by apply (ok_resume now (lease_ w) false)|]. by rewrite map_fmap_id.
Qed.

Lemma quiet_ok now action w db db' w' : quiet_result now action w db = Returns (db', w') -> tables_ok db -> tables_ok db'.
Proof.
  intros E Hok. destruct (quiet_inv _ _ _ _ _ _ E) as [(-> & _)|(t & t' & Ht & Hl & _ & Hc & Hf & _ & Hact)]; [done|].
  pose proof (ok_tasks db Hok _ _ Ht) as Hrow. destruct action; destruct Hact as [-> ->].
  - apply ok_resume. eapply ok_insert; [done..| |apply Hok]. apply settled_ok; [by apply leased_owner in Hl as (_ & ? & _)|done..].
  - eapply ok_insert; [done..| |apply Hok]. by apply released_ok.
  - eapply ok_insert; [done..| |apply Hok]. by apply released_ok.
Qed.

Lemma tables_step_ok db op : tables_ok db -> tables_ok (perform db op).
Proof.
  intros Hok. destruct op as [now fresh tenant type rid operation version|tenant type rid|now lease|now clock steady lease interval result detail counter|now lease|
    now lease interval action|now steady subjects locked owner type|now subjects due before locked owner type|now clock steady lease|now type|now]; cbn [perform].
  - destruct (upsert_marker _ _ _ _ _ _ _ _ _) as [[[db' work'] id]|] eqn:E; [|done]. by eapply upsert_ok.
  - apply ok_filter; [|done]. intros i t. by intros [? _]%map_lookup_filter_Some.
  - destruct (renew_running_lease _ _ _) as [[db' b]|] eqn:E; [|done]. cbn [committed_tables].
    destruct (update_leased_inv _ _ _ _ _ _ E) as [(_ & ->)|(_ & t & Ht & Hl & _ & Hc & _ & ->)]; [done|].
    eapply ok_insert; [done..| |apply Hok]. pose proof (ok_tasks db Hok _ _ Ht) as Hrow. apply lease_ok; [done| |done]. apply Hrow. by destruct (leased_owner _ _ Hl) as (-> & _).
  - destruct (record _ _ _ _ _ _ _ _) as [[db' w']|] eqn:E; [|done]. by eapply record_ok.
  - destruct (remove_task _ _ _) as [[db' w']|] eqn:E; [|done]. cbn [committed_tables].
    destruct (remove_task_inv _ _ _ _ _ E) as [(-> & _)|(t & Ht & _ & _ & -> & _)]; [done|]. apply ok_resume, ok_filter; [|done].
    intros i u. by intros [_ ?]%lookup_delete_Some.
  - destruct (quiet_result _ _ _ _) as [[db' w']|] eqn:E; [|done]. by eapply quiet_ok.
  - destruct (claim_marker _ _ _ _ _ _ _) as [[db' c]|] eqn:E; [|done]. cbn [committed_tables].
    destruct (claim_inv _ _ _ _ _ _ _ _ _ E) as [(-> & _)|(id & t & m & n & _ & Ht & Hclaim & _ & Hc & _ & -> & _)]; [done|].
    eapply ok_insert; [done..| |apply Hok]. pose proof (ok_tasks db Hok _ _ Ht) as (_ & Hf & Hd & _). split_and!; try done.
    intros _. cbn. unfold claimable in Hclaim. rewrite !andb_true_iff in Hclaim. destruct Hclaim as [[_ Hw] _]. by destruct (wait_task_id_ t).
  - destruct (claim_due_check _ _ _ _ _ _ _ _) as [[db' c]|] eqn:E; [|done]. cbn [committed_tables].
    destruct (inspect_inv _ _ _ _ _ _ _ _ _ _ E) as [(-> & _)|(id & t & Ht & Hclaim & _ & Hc & _ & -> & _)]; [done|].
    eapply ok_insert; [done..| |apply Hok]. pose proof (ok_tasks db Hok _ _ Ht) as Hrow. apply lease_ok; [done| |done].
    unfold inspectable in Hclaim. rewrite !andb_true_iff in Hclaim. destruct Hclaim as [[[_ Hw] _] _]. by destruct (wait_task_id_ t).
  - destruct (recover_expired _ _ _ _ _) as [[db' w']|] eqn:E; [|done]. cbn [committed_tables].
    destruct (recover_inv _ _ _ _ _ _ _ E) as [(-> & _)|(t & e & Ht & _ & _ & Hc & Hf & (He & _ & Ha) & -> & _)]; [done|].
    eapply ok_insert; [done..| |apply events_append; [apply Hok|done|apply Ha, Hok]]. by split_and!.
  - apply ok_fmap; [|done]. intros t Ht. destruct (stale_waiter type db t); [split; [by apply resumed_ok|done]|done].
  - split; [apply Hok..|]. apply events_filter, Hok.
Qed.

Lemma tables_all_ok db ops : tables_ok db -> tables_ok (perform_all db ops).
Proof. unfold perform_all. revert db. induction ops as [|op ops IH]; intros db Hok; cbn [fold_left]; [done|]. by apply IH, tables_step_ok. Qed.

Definition empty_tables : sync_tables := mk_tables ∅ [] 1.
Lemma empty_ok : tables_ok empty_tables.
Proof. split; [done..|]. split_and!; [done|constructor|done]. Qed.

(** C16. Whatever transactions the workers run, in whatever order and at whatever times, the tables stay
    well formed: every row meets the CHECK constraints of the schema and its column widths, a finished
    task has processed the version it is at, a leased task waits for nothing, a resource has one task,
    and the events are in the order of their identifiers with positive attempt numbers. *)
Theorem tables_always_ok ops : tables_ok (perform_all empty_tables ops).
Proof. apply tables_all_ok, empty_ok. Qed.

(** * Leases *)

Definition held (lease : running_marker_lease) (db : sync_tables) : bool :=
  match tasks_ db !! lease_id lease with Some t => leased lease t | None => false end.

Lemma held_step lease db op : tables_ok db -> taker op <> Some (owner_ lease) -> held lease (perform db op) = true -> held lease db = true.
Proof.
  intros Hok Htaker. unfold held. pose proof (perform_moves db op (tables_checked db Hok) (lease_id lease)) as Hm.
  destruct Hm as [ |t|t Ho|t t' Hk Ho|t t' o Hown Hk Hv Hn Hs]; try done; intros Hl; destruct (leased_owner _ _ Hl) as (Hlo & Hlv & Hlt).
  - congruence.
  - destruct Ho as [[Hv Ho]|Ho]; [|congruence]. unfold resource_key in Hk. injection Hk as Hkt _ _. unfold leased.
    by rewrite <- Hkt, <- Hv, <- Ho, Hlt, Hlv, Hlo, Z.eqb_refl, !bool_decide_true.
  - congruence.
Qed.
Lemma held_all lease db ops : tables_ok db -> Forall (fun op => taker op <> Some (owner_ lease)) ops -> held lease db = false -> held lease (perform_all db ops) = false.
Proof.
  intros Hok Hall. revert db Hok. induction Hall as [|op ops Hop _ IH]; intros db Hok Hheld; cbn [perform_all fold_left]; [done|].
  apply IH; [by apply tables_step_ok|]. destruct (held lease (perform db op)) eqn:E; [|done]. apply held_step in E; congruence.
Qed.

Lemma not_held_update lease condition change db : held lease db = false -> update_leased lease condition change db = Returns (db, false).
Proof. unfold held, update_leased, lease_id. destruct (tasks_ db !! _) as [t|]; [|done]. by intros ->. Qed.

Lemma require_open_new lease interval : require_open (new_writer lease interval) = Returns (mk_writer lease interval None [] false writing).
Proof. done. Qed.
Ltac opened := rewrite require_open_new; cbn [throwing_bind lease_ settled_check_interval_].

(** The operations of the lease's holder. *)
Definition by_lease (lease : running_marker_lease) (op : sync_operation) : bool :=
  match op with
  | RenewLease _ l | Record _ _ _ l _ _ _ _ | RemoveTask _ l | Quiet _ l _ _ | Recover _ _ _ l => bool_decide (lease_id l = lease_id lease) &&
      (owner_ l == owner_ lease) && (ref_version_ (marker_ l) =? ref_version_ (marker_ lease)) && (ref_tenant_ (marker_ l) == ref_tenant_ (marker_ lease))
  | _ => false
  end.

Lemma held_same l lease db : lease_id l = lease_id lease -> owner_ l = owner_ lease -> ref_version_ (marker_ l) = ref_version_ (marker_ lease) ->
  ref_tenant_ (marker_ l) = ref_tenant_ (marker_ lease) -> held l db = held lease db.
Proof. intros Hi Ho Hv Ht. unfold held, leased. by rewrite Hi, Ho, Hv, Ht. Qed.

Lemma by_lease_stale lease db op : held lease db = false -> by_lease lease op = true -> perform db op = db.
Proof.
  intros Hheld Hby. destruct op; try done; cbn [by_lease] in Hby; reflect_bool;
    match goal with l : running_marker_lease |- _ =>
      match l with lease => fail 1 | _ => assert (Hl : held l db = false) by (rewrite (held_same l lease) by done; done) end end; cbn [perform].
  - unfold renew_running_lease. by rewrite not_held_update.
  - unfold record, apply_result. opened. by rewrite not_held_update.
  - unfold remove_task. opened. unfold held, lease_id in Hl. destruct (tasks_ db !! _) as [t|]; [|done]. by rewrite Hl.
  - unfold quiet_result, apply_result. opened. destruct action; by rewrite not_held_update.
  - unfold recover_expired. opened. by rewrite not_held_update.
Qed.

(** The lease is a fence. Once a worker's lease on a task is gone (it expired and was recovered, the
    task was queued at a newer version or removed, or its result was recorded), nothing the worker
    still does under that lease changes the tables, whatever the other workers do in between, until
    the worker claims a task again; the result is reported as stale. *)
Theorem lost_lease_is_stale lease db ops now clock steady interval result detail counter op :
  tables_ok db -> held lease db = false -> Forall (fun op => taker op <> Some (owner_ lease)) ops ->
  let db' := perform_all db ops in
  (by_lease lease op = true -> perform db' op = db') /\
  exists w, record now clock steady result detail counter (new_writer lease interval) db' = Returns (db', w) /\
    result_ w = Some (mk_task_result stale None).
Proof.
  intros Hok Hheld Hall db'. pose proof (held_all lease db ops Hok Hall Hheld) as Hlost. fold db' in Hlost. split.
  - by apply by_lease_stale.
  - unfold record, apply_result. opened. rewrite not_held_update by done. by eexists.
Qed.

(** * Claims and results *)

Definition claimed_step (id : bytes) (db db' : sync_tables) : nat := if negb (present (owner_at db id)) && present (owner_at db' id) then 1 else 0.
Definition recorded_step (id : bytes) (db db' : sync_tables) : nat :=
  if next_event_ db <? next_event_ db' then match last (events_ db') with Some e => if event_task_ e == id then 1 else 0 | None => 0 end else 0%nat.
(** A count over the steps of a history. *)
Fixpoint count_steps (f : sync_tables -> sync_tables -> nat) (db : sync_tables) (ops : list sync_operation) : nat :=
  match ops with [] => 0 | op :: ops => f db (perform db op) + count_steps f (perform db op) ops end.
Definition holding (db : sync_tables) (id : bytes) : nat := if present (owner_at db id) then 1 else 0.

Lemma owner_leased lease db t : tasks_ db !! lease_id lease = Some t -> leased lease t = true -> present (owner_at db (lease_id lease)) = true.
Proof. intros Ht Hl. unfold owner_at. rewrite Ht. cbn. by destruct (leased_owner _ _ Hl) as (-> & _). Qed.

(** An event is only recorded by giving up the lease of its task. *)
Lemma recorded_frees db op id : tables_ok db -> recorded_step id db (perform db op) = 1%nat ->
  present (owner_at db id) = true /\ present (owner_at (perform db op) id) = false.
Proof.
  intros Hok Hrec. assert (Hsame : forall db', next_event_ db' = next_event_ db -> recorded_step id db db' = 0%nat).
  { intros db' Hn. unfold recorded_step. by rewrite Hn, Z.ltb_irrefl. }
  assert (Hlast : forall m evs e, recorded_step id db (mk_tables m (evs ++ [e]) (next_event_ db + 1)) = 1%nat -> event_task_ e = id).
  { intros m evs e. unfold recorded_step. cbn [next_event_ events_]. rewrite last_snoc. destruct (_ <? _); [|done].
    destruct (event_task_ e == id) eqn:E; [|done]. intros _. by apply bool_decide_eq_true in E. }
  destruct op as [now fresh tenant type rid operation version|tenant type rid|now lease|now clock steady lease interval result detail counter|now lease|
    now lease interval action|now steady subjects locked owner type|now subjects due before locked owner type|now clock steady lease|now type|now]; cbn [perform] in *;
    try (by rewrite Hsame in Hrec by done).
  - destruct (upsert_marker _ _ _ _ _ _ _ _ _) as [[[db' work'] i]|] eqn:E; [|by rewrite Hsame in Hrec by done].
    destruct (upsert_inv _ _ _ _ _ _ _ _ _ _ _ _ E) as (_ & _ & t' & _ & _ & -> & _). by rewrite Hsame in Hrec by done.
  - destruct (renew_running_lease _ _ _) as [[db' b]|] eqn:E; cbn [committed_tables] in *; [|by rewrite Hsame in Hrec by done].
    destruct (update_leased_inv _ _ _ _ _ _ E) as [(_ & ->)|(_ & t & _ & _ & _ & _ & _ & ->)]; by rewrite Hsame in Hrec by done.
  - destruct (record _ _ _ _ _ _ _ _) as [[db' w']|] eqn:E; cbn [committed_tables] in *; [|by rewrite Hsame in Hrec by done].
    destruct (record_inv _ _ _ _ _ _ _ _ _ _ E) as (_ & [(-> & _)|(t & e & Ht & Hl & _ & _ & _ & (_ & He & _) & -> & _)]); [by rewrite Hsame in Hrec by done|].
    apply Hlast in Hrec as <-. rewrite He. split; [by eapply owner_leased|]. unfold owner_at. cbn [tasks_]. rewrite lookup_fmap, lookup_insert_eq. cbn.
    by destruct (finished (outcome_ result)); [unfold resume_row; destruct (resumable _ _ _)|].
  - destruct (remove_task _ _ _) as [[db' w']|] eqn:E; cbn [committed_tables] in *; [|by rewrite Hsame in Hrec by done].
    destruct (remove_task_inv _ _ _ _ _ E) as [(-> & _)|(t & _ & _ & _ & -> & _)]; by rewrite Hsame in Hrec by done.
  - destruct (quiet_result _ _ _ _) as [[db' w']|] eqn:E; cbn [committed_tables] in *; [|by rewrite Hsame in Hrec by done].
    destruct (quiet_inv _ _ _ _ _ _ E) as [(-> & _)|(t & t' & _ & _ & _ & _ & _ & _ & Hact)]; [by rewrite Hsame in Hrec by done|].
    destruct action; destruct Hact as [_ ->]; by rewrite Hsame in Hrec by done.
  - destruct (claim_marker _ _ _ _ _ _ _) as [[db' c]|] eqn:E; cbn [committed_tables] in *; [|by rewrite Hsame in Hrec by done].
    destruct (claim_inv _ _ _ _ _ _ _ _ _ E) as [(-> & _)|(i & t & m & n & _ & _ & _ & _ & _ & _ & -> & _)]; by rewrite Hsame in Hrec by done.
  - destruct (claim_due_check _ _ _ _ _ _ _ _) as [[db' c]|] eqn:E; cbn [committed_tables] in *; [|by rewrite Hsame in Hrec by done].
    destruct (inspect_inv _ _ _ _ _ _ _ _ _ _ E) as [(-> & _)|(i & t & _ & _ & _ & _ & _ & -> & _)]; by rewrite Hsame in Hrec by done.
  - destruct (recover_expired _ _ _ _ _) as [[db' w']|] eqn:E; cbn [committed_tables] in *; [|by rewrite Hsame in Hrec by done].
    destruct (recover_inv _ _ _ _ _ _ _ E) as [(-> & _)|(t & e & Ht & Hl & _ & _ & _ & (_ & He & _) & -> & _)]; [by rewrite Hsame in Hrec by done|].
    apply Hlast in Hrec as <-. rewrite He. split; [by eapply owner_leased|]. unfold owner_at. cbn [tasks_]. by rewrite lookup_insert_eq.
Qed.

(** C15. Every attempt is recorded at most once. Over any history of the workers, a task's recorded
    results, recovered leases included, are at most the claims of the task (with the one that was
    running at the start), and one fewer while an attempt is running. *)
Theorem one_result_per_claim id db ops : tables_ok db ->
  (count_steps (recorded_step id) db ops + holding (perform_all db ops) id <= holding db id + count_steps (claimed_step id) db ops)%nat.
Proof.
  revert db. induction ops as [|op ops IH]; intros db Hok; cbn [count_steps perform_all fold_left]; [lia|].
  specialize (IH (perform db op) (tables_step_ok db op Hok)). change (fold_left perform ops (perform db op)) with (perform_all (perform db op) ops).
  assert (Hstep : (recorded_step id db (perform db op) + holding (perform db op) id <= holding db id + claimed_step id db (perform db op))%nat); [|lia].
  assert (Hone : recorded_step id db (perform db op) = 0%nat \/ recorded_step id db (perform db op) = 1%nat).
  { unfold recorded_step. repeat case_match; tauto. }
  unfold holding, claimed_step. destruct Hone as [->|Hone].
  - destruct (present (owner_at db id)); destruct (present (owner_at (perform db op) id)); cbn; lia.
  - rewrite Hone. destruct (recorded_frees db op id Hok Hone) as [-> ->]. cbn. lia.
Qed.

(** * Recording a result *)

(** Evaluates the tests of a known outcome. *)
Ltac decide_outcomes := repeat first [rewrite bool_decide_true by done | rewrite bool_decide_false by discriminate]; cbn [orb andb negb].

(** A result the writer may record: its text fits its column, and a wait names what it waits for. *)
Definition recordable (result : attempt_result) (t : sync_task) : Prop :=
  characters (result_error_ result) <= 1000 /\ count_fails_ t < 2147483647.

Lemma check_inv t : task_check t = true <->
  0 <= count_fails_ t /\ (lease_owner_ t = None <-> lease_until_ t = None) /\ supports_marker_operation (resource_type_ t) (operation_ t) = true /\
  (is_ok_ t = true -> is_done_ t = true) /\ 0 < version_ t /\ 0 <= processed_version_ t <= version_ t /\ (wait_task_id_ t = None <-> wait_version_ t = None).
Proof.
  unfold task_check. rewrite !andb_true_iff, !bool_decide_eq_true, orb_true_iff, negb_true_iff, !Z.leb_le, Z.ltb_lt.
  destruct (is_ok_ t), (is_done_ t); intuition congruence.
Qed.

Lemma settled_check now interval result counter t : task_check t = true -> task_check (settled now interval (version_ t) result counter t) = true.
Proof.
  rewrite !check_inv. intros (Hf & _ & Hs & _ & Hv & Hp & _). cbn.
  destruct (outcome_ result), counter; split_and!; try done; decide_outcomes; try done; lia.
Qed.
Lemma settled_fits now interval version result counter t : recordable result t -> 0 <= count_fails_ t ->
  columns_fit (settled now interval version result counter t) = true.
Proof.
  intros [He Hc] H0. unfold columns_fit. rewrite andb_true_iff, !Z.leb_le. cbn. split; [done|]. destruct (outcome_ result), counter; decide_outcomes; lia.
Qed.
Lemma settled_source lease now interval result counter t : leased lease t = true -> task_check t = true ->
  event_source lease (outcome_ result) (settled now interval (ref_version_ (marker_ lease)) result counter t) = true.
Proof.
  intros Hl (Hf & _)%check_inv. destruct (leased_owner _ _ Hl) as (_ & Hv & Ht). unfold event_source. cbn. rewrite Ht, Hv, bool_decide_true, Z.eqb_refl by done.
  destruct (outcome_ result), counter; decide_outcomes; try done; apply Z.ltb_lt; lia.
Qed.

(** The row an update of a live lease writes. *)
Lemma update_leased_hit lease condition change db t : tasks_ db !! lease_id lease = Some t -> leased lease t = true -> condition t = true ->
  task_check (change t) = true -> columns_fit (change t) = true ->
  update_leased lease condition change db = Returns (mk_tables (<[lease_id lease := change t]> (tasks_ db)) (events_ db) (next_event_ db), true).
Proof. unfold update_leased, lease_id. intros -> -> -> Hc Hf. unfold write_task. cbn [andb]. by rewrite Hc, Hf. Qed.

Lemma resume_when outcome now lease db r :
  match outcome with completed | terminal_failure => resume now lease false db | _ => (db, r) end =
  (mk_tables ((fun u => if finished outcome then resume_row now lease false u else u) <$> tasks_ db) (events_ db) (next_event_ db),
   if finished outcome then snd (resume now lease false db) else r).
Proof. by destruct outcome, db; cbn; rewrite ?map_fmap_id. Qed.

Definition outcome_text (outcome : attempt_outcome) : bytes :=
  match outcome with completed => event_outcome_completed | waiting => event_outcome_progressed | _ => event_outcome_failed end.

Lemma resumable_spec lease u : resumable lease false u = true <->
  tenant_id_ u = ref_tenant_ (marker_ lease) /\ wait_task_id_ u = Some (lease_id lease) /\
  exists version, wait_version_ u = Some version /\ version <= ref_version_ (marker_ lease).
Proof.
  unfold resumable. rewrite !andb_true_iff, !bool_decide_eq_true. destruct (wait_version_ u) as [v|]; cbn [orb].
  - rewrite Z.leb_le. split; [intros [[? ?] ?]; eauto|intros (? & ? & w & [= <-] & ?); done].
  - split; [by intros [_ ?]|by intros (_ & _ & w & ? & _)].
Qed.

(** A worker that still holds its lease always gets its result recorded, in one transaction: the task's
    row takes the outcome, its retry time and its failure count and is released; one event with the
    next identifier, the outcome and the next attempt number joins the history; and when the attempt
    finished the task, every task that waited for this version, and no other, is due again after the
    settling delay. Nothing else in the tables changes. *)
Theorem record_complete now clock steady lease interval result detail counter db t :
  tables_ok db -> tasks_ db !! lease_id lease = Some t -> leased lease t = true -> lease_live now t = true -> recordable result t ->
  exists tasks' e w,
    record now clock steady result detail counter (new_writer lease interval) db =
      Returns (mk_tables tasks' (events_ db ++ [e]) (next_event_ db + 1), w) /\
    result_ w = Some (mk_task_result recorded (Some (next_event_ db))) /\ event_id_ e = next_event_ db /\
    event_task_ e = lease_id lease /\ event_version_ e = version_ t /\ event_outcome_ e = outcome_text (outcome_ result) /\
    attempt_ e = next_attempt_number (tenant_id_ t) (lease_id lease) (resource_id_ t) (version_ t) (events_ db) /\
    tasks' !! lease_id lease = Some (settled now interval (version_ t) result counter t) /\
    forall id u, id <> lease_id lease ->
      let waits := finished (outcome_ result) = true /\ tenant_id_ u = tenant_id_ t /\ wait_task_id_ u = Some (lease_id lease) /\
                   exists version, wait_version_ u = Some version /\ version <= version_ t in
      (tasks_ db !! id = None -> tasks' !! id = None) /\
      (tasks_ db !! id = Some u -> waits -> tasks' !! id = Some (resumed_row now u)) /\
      (tasks_ db !! id = Some u -> ~ waits -> tasks' !! id = Some u).
Proof.
  intros Hok Ht Hl Hlive Hrec. pose proof (ok_tasks db Hok _ _ Ht) as (Hcheck & _). destruct (leased_owner _ _ Hl) as (_ & Hv & Htenant).
  pose proof (settled_check now interval result counter t Hcheck) as Hc. rewrite Hv in Hc.
  assert (Hf : columns_fit (settled now interval (ref_version_ (marker_ lease)) result counter t) = true).
  { apply settled_fits; [done|]. by apply check_inv in Hcheck as [? _]. }
  unfold record, apply_result. opened. rewrite (update_leased_hit lease (lease_live now) _ db t) by done. cbn [throwing_bind negb]. cbv beta iota.
  unfold append_event. cbn [tasks_ events_ next_event_]. change (ref_marker_ (marker_ lease)) with (lease_id lease). rewrite lookup_insert_eq.
  rewrite (settled_source lease) by done. rewrite resume_when. cbv beta iota zeta. rewrite Hv.
  eexists _, _, _. split; [reflexivity|]. cbn [tasks_]. split_and!; try done.
  - cbn. by rewrite Hv.
  - rewrite lookup_fmap, lookup_insert_eq. cbn [fmap option_fmap option_map]. destruct (finished (outcome_ result)) eqn:Ef; [|done].
    unfold resume_row, resumable. assert (wait_task_id_ (settled now interval (ref_version_ (marker_ lease)) result counter t) = None) as ->; [|by rewrite andb_false_r].
    cbn. by destruct (outcome_ result); decide_outcomes.
  - intros id u Hid. cbv zeta. rewrite lookup_fmap, lookup_insert_ne by done.
    split_and!; [by intros ->|..]; intros ->; cbn [fmap option_fmap option_map]; unfold resume_row;
      (destruct (finished (outcome_ result)) eqn:Ef; [|intros Hw; first [reflexivity|by destruct Hw]]); destruct (resumable lease false u) eqn:Er; intros Hw; try reflexivity; exfalso.
    + destruct Hw as (_ & Hw). apply not_true_iff_false in Er. apply Er, resumable_spec. by rewrite <- Htenant.
    + apply Hw. split; [done|]. apply resumable_spec in Er. by rewrite Htenant.
Qed.

(** * Maintenance *)

(** What the columns of a row are never: the empty text. *)
Definition named (id : bytes) (t : sync_task) : Prop := id <> [] /\ tenant_id_ t <> [] /\ lease_owner_ t <> Some [].

Lemma recovered_check now t : task_check t = true -> task_check (recovered_row now t) = true.
Proof. rewrite !check_inv. intros (Hf & _ & Hs & _ & Hv & Hp & Hw). cbn. split_and!; try done; try lia; tauto. Qed.
Lemma recovered_fits now t : count_fails_ t < 2147483647 -> columns_fit (recovered_row now t) = true.
Proof. intros Hf. unfold columns_fit. rewrite andb_true_iff, !Z.leb_le. split; [by vm_compute|cbn; lia]. Qed.

Lemma marker_changed_total type id n : exists n', marker_changed type id n = Returns n'.
Proof. unfold marker_changed. destruct (describe_total type) as (m & -> & _). by eexists. Qed.
(** A writer that is ready can commit, with the trace its result requires. *)
Lemma commit_ready w result : result_ w = Some result -> phase_ w = ready -> trace_required_ w = false -> exists r, commit_bound false false None w = Returns r.
Proof.
  unfold commit_bound. intros -> -> ->. rewrite bool_decide_true by done. cbn [negb orb andb]. destruct (result_changed result); [|by eexists]. cbn [negb].
  set (n := match result_event_ result with Some _ => _ | None => _ end). destruct (marker_changed_total (ref_resource_type_ (marker_ (lease_ w))) (ref_resource_ (marker_ (lease_ w))) n) as (n1 & ->).
  cbn [throwing_bind]. destruct (throwing_fold_total (fun n waiter => marker_changed (waiter_type_ waiter) (waiter_resource_ waiter) n) n1 (resumed_ w)) as (n2 & ->).
  { intros. apply marker_changed_total. }
  cbn [throwing_bind]. by eexists.
Qed.

(** Recovering one expired row changes that row only. *)
Lemma recover_row_spec now clock steady type db id t : tasks_ db !! id = Some t -> task_check t = true -> named id t -> count_fails_ t < 2147483647 ->
  lease_expired now t = true ->
  exists events next, recover_row now clock steady type db (id, t) = Returns (mk_tables (<[id := recovered_row now t]> (tasks_ db)) events next).
Proof.
  intros Ht Hc (Hid & Htenant & Howner) Hf Hexp. pose proof Hc as (H0 & Hlease & _ & _ & Hv & _)%check_inv. unfold recover_row, make_running_lease.
  destruct (lease_owner_ t) as [owner|] eqn:Eo.
  2: { unfold lease_expired in Hexp. by rewrite (proj1 Hlease eq_refl) in Hexp. }
  change (default [] (Some owner)) with owner. assert (Hguard : empty (tenant_id_ t) || empty id || empty owner || (version_ t <=? 0) = false).
  { destruct (tenant_id_ t), id, owner; try done. by apply Z.leb_gt. }
  rewrite Hguard. cbn [throwing_bind]. unfold recover_expired. opened.
  rewrite (update_leased_hit _ (lease_expired now) (recovered_row now) db t); cycle 1.
  { done. }
  { unfold leased. cbn. by rewrite Eo, !bool_decide_true, Z.eqb_refl. }
  { done. }
  { by apply recovered_check. }
  { by apply recovered_fits. }
  cbn [throwing_bind negb]. cbv beta iota. unfold append_event. cbn [tasks_ events_ next_event_ marker_ ref_marker_ lease_id]. rewrite lookup_insert_eq.
  assert (Hsource : event_source (mk_lease (mk_reference (tenant_id_ t) id (version_ t) type (resource_id_ t)) owner None) retryable_failure (recovered_row now t) = true).
  { unfold event_source. cbn. rewrite bool_decide_true, Z.eqb_refl by done. decide_outcomes. apply Z.ltb_lt. lia. }
  rewrite Hsource. cbv beta iota zeta. cbn [throwing_bind tasks_]. destruct (commit_ready (finish recorded (Some (next_event_ db)) [] false
    (mk_writer (mk_lease (mk_reference (tenant_id_ t) id (version_ t) type (resource_id_ t)) owner None) 0 None [] false writing))
    (mk_task_result recorded (Some (next_event_ db)))) as (r & Hr); [done..|].
  cbn [resumed_ trace_required_]. rewrite Hr. cbn [throwing_bind]. eauto.
Qed.

(** Recovering a list of rows. *)
Lemma recover_rows now clock steady type rows db :
  NoDup (map fst rows) ->
  Forall (fun row => tasks_ db !! fst row = Some (snd row) /\ task_check (snd row) = true /\ named (fst row) (snd row) /\
    count_fails_ (snd row) < 2147483647 /\ lease_expired now (snd row) = true) rows ->
  exists db', throwing_fold (recover_row now clock steady type) db rows = Returns db' /\
    forall id, tasks_ db' !! id = if decide (id ∈ map fst rows) then recovered_row now <$> tasks_ db !! id else tasks_ db !! id.
Proof.
  revert db. induction rows as [|[id t] rows IH]; intros db Hnd Hall; cbn [throwing_fold map fst] in *; [by exists db|].
  apply NoDup_cons in Hnd as [Hid Hnd]. apply Forall_cons in Hall as [(Ht & Hc & Hn & Hf & He) Hall]. cbn [fst snd] in *.
  destruct (recover_row_spec now clock steady type db id t) as (events & next & ->); try done. cbn [throwing_bind].
  destruct (IH (mk_tables (<[id := recovered_row now t]> (tasks_ db)) events next)) as (db' & -> & Hdb'); [done| |].
  { rewrite List.Forall_forall in Hall |- *. intros row Hrow. destruct (Hall row Hrow) as (Ht' & Hrest). split; [|done]. cbn [tasks_].
    rewrite lookup_insert_ne; [done|]. intros ->. apply Hid. by apply list_elem_of_In, in_map. }
  exists db'. split; [done|]. intros i. rewrite Hdb'. cbn [tasks_]. destruct (decide (id = i)) as [<-|Hne].
  - rewrite decide_False by done. rewrite decide_True by (by left). by rewrite lookup_insert_eq, Ht.
  - rewrite lookup_insert_ne by done. destruct (decide (i ∈ map fst rows)) as [Hin|Hin].
    + by rewrite decide_True by (by right).
    + rewrite decide_False; [done|]. intros [->|]%elem_of_cons; done.
Qed.

Lemma expired_spec now type db : NoDup (map fst (expired_leases now type db)) /\
  forall id t, In (id, t) (expired_leases now type db) <-> tasks_ db !! id = Some t /\ resource_type_ t = type /\ lease_expired now t = true.
Proof.
  unfold expired_leases. set (rows := List.filter _ _). assert (Hp : merge_sort (fun a b => Is_true (expires_before a b)) rows ≡ₚ rows) by apply merge_sort_Permutation.
  split.
  - assert (Hnd : NoDup (map fst rows)).
    { subst rows. eapply sublist_NoDup; [apply (NoDup_fst_map_to_list (tasks_ db))|].
      generalize (map_to_list (tasks_ db)). intros l. induction l as [|x l IH]; [done|]. cbn [List.filter fmap list_fmap].
      destruct (_ && _); cbn [map]; [by apply sublist_skip|by apply sublist_cons]. }
    change (NoDup (fst <$> merge_sort (fun a b => Is_true (expires_before a b)) rows)). by rewrite Hp.
  - intros id t. rewrite <- list_elem_of_In, Hp. subst rows. rewrite list_elem_of_In, filter_In, <- list_elem_of_In, elem_of_map_to_list. cbn [snd].
    rewrite andb_true_iff, bool_decide_eq_true. tauto.
Qed.

(** A task nobody holds and that waits for nothing is claimed as soon as it is due, while its aggregate
    is still at its version. *)
Definition claimable_when_due (type : marker_resource_type) (t : sync_task) : Prop :=
  forall m later subjects s, describe type = Returns m -> next_attempt_at_ t <= later ->
    subjects (resource_type_ t) (tenant_id_ t) (resource_id_ t) = Some s -> subject_version_ s = version_ t ->
    (deleted_ s = false \/ deleted_operation_ m = Some (operation_ t)) -> claimable later subjects m t = true.

Lemma idle_claimable type t : resource_type_ t = type -> is_done_ t = false -> lease_until_ t = None -> wait_task_id_ t = None -> claimable_when_due type t.
Proof.
  intros Ht Hd Hl Hw m later subjects s Hm Hlater Hs Hv Hdel. destruct (describe_total type) as (m' & Hm' & Htype & _). rewrite Hm in Hm'. injection Hm' as <-.
  unfold claimable. rewrite Ht, Htype, Hd, Hl, Hw, bool_decide_true by done. rewrite Ht in Hs. rewrite Hs, Hv, Z.eqb_refl. apply Z.leb_le in Hlater. rewrite Hlater.
  cbn. destruct Hdel as [-> | ->]; [done|]. by rewrite bool_decide_true, orb_true_r.
Qed.

Lemma still_awaited_resumed now type db t : still_awaited (resume_stale_waiters now type db) t = still_awaited db t.
Proof.
  unfold still_awaited, resume_stale_waiters. cbn [tasks_]. destruct (wait_task_id_ t) as [task|]; [|done]. destruct (wait_version_ t); [|done].
  rewrite lookup_fmap. destruct (tasks_ db !! task) as [u|]; [|done]. cbn. by destruct (stale_waiter type db u).
Qed.

(** What one resource's maintenance leaves of a row. *)
Lemma maintained_row now now2 type db1 t0 t1 : task_ok t0 -> resource_type_ t0 = type -> is_done_ t0 = false ->
  t1 = (if lease_expired now t0 then recovered_row now t0 else t0) ->
  let t := if stale_waiter type db1 t1 then resumed_row now2 t1 else t1 in
  is_done_ t = false /\ (lease_live now t = true \/ still_awaited db1 t = true \/
    next_attempt_at_ t <= Z.max (next_attempt_at_ t0) (Z.max (now_plus now retry_delay_seconds) (now_plus now2 wait_settle_delay)) /\ claimable_when_due type t).
Proof.
  intros Hok Htype Hdone ->.
  assert (Hone : forall u, resource_type_ u = type -> is_done_ u = false ->
    lease_until_ u = None \/ lease_live now u = true -> next_attempt_at_ u <= Z.max (next_attempt_at_ t0) (now_plus now retry_delay_seconds) ->
    let t := if stale_waiter type db1 u then resumed_row now2 u else u in
    is_done_ t = false /\ (lease_live now t = true \/ still_awaited db1 t = true \/
      next_attempt_at_ t <= Z.max (next_attempt_at_ t0) (Z.max (now_plus now retry_delay_seconds) (now_plus now2 wait_settle_delay)) /\ claimable_when_due type t)).
  { intros u Hu Hd Hl Hn. destruct (stale_waiter type db1 u) eqn:Es; cbv zeta.
    - split; [done|]. destruct Hl as [Hl|Hl]; [|by left]. right; right. split; [cbn; lia|]. by apply idle_claimable.
    - split; [done|]. destruct Hl as [Hl|Hl]; [|by left]. right. unfold stale_waiter in Es. rewrite Hu, bool_decide_true in Es by done.
      destruct (wait_task_id_ u) eqn:Ew; cbn [present andb] in Es; [left; by apply negb_false_iff|]. right. split; [lia|]. by apply idle_claimable. }
  destruct (lease_expired now t0) eqn:Ee; cbv zeta; apply Hone; try done.
  - by left.
  - cbn. lia.
  - unfold lease_expired, lease_live in *. destruct (lease_until_ t0); [right; apply Z.leb_gt in Ee; by apply Z.ltb_lt|by left].
  - lia.
Qed.

(** C14. Maintenance loses no task. When a worker stops, stalls or misses a wakeup, one round of the scans of
    a resource type (at most 32 expired leases, whatever their owners did) keeps every task of it and
    leaves no expired lease, and every unfinished one is then held by a lease that still runs, or waits
    for a task that exists and has not processed the awaited version, or is claimed as soon as its next
    attempt is due: no later than it was scheduled, or than the retry and settling delays from now. *)
Theorem maintenance_loses_no_task now clock steady now2 type db :
  tables_ok db -> map_Forall (fun id t => named id t /\ count_fails_ t < 2147483647) (tasks_ db) ->
  (length (expired_leases now type db) <= 32)%nat ->
  exists db1, recover_stale_running now clock steady type db = Returns db1 /\
    let db2 := resume_stale_waiters now2 type db1 in
    forall id t0, tasks_ db !! id = Some t0 ->
      exists t, tasks_ db2 !! id = Some t /\ resource_key t = resource_key t0 /\ version_ t = version_ t0 /\
        (resource_type_ t0 = type -> lease_expired now t = false /\
          (is_done_ t0 = false -> is_done_ t = false /\ (lease_live now t = true \/ still_awaited db2 t = true \/
            next_attempt_at_ t <= Z.max (next_attempt_at_ t0) (Z.max (now_plus now retry_delay_seconds) (now_plus now2 wait_settle_delay)) /\
            claimable_when_due type t))).
Proof.
  intros Hok Hnamed Hlen. destruct (expired_spec now type db) as [Hnd Hspec]. unfold recover_stale_running. rewrite take_ge by done.
  destruct (recover_rows now clock steady type (expired_leases now type db) db Hnd) as (db1 & Hrec & Hdb1).
  { apply List.Forall_forall. intros [id t] (Ht & _ & He)%Hspec. cbn [fst snd]. destruct (Hnamed id t Ht) as [? ?]. destruct (ok_tasks db Hok id t Ht). by split_and!. }
  exists db1. split; [done|]. intros id t0 Ht0.
  assert (Ht1 : exists t1, tasks_ db1 !! id = Some t1 /\ resource_key t1 = resource_key t0 /\ version_ t1 = version_ t0 /\
    (resource_type_ t0 = type -> t1 = if lease_expired now t0 then recovered_row now t0 else t0)).
  { rewrite Hdb1, Ht0. destruct (decide (id ∈ map fst (expired_leases now type db))) as [Hin|Hout].
    - apply list_elem_of_In, in_map_iff in Hin as ([i t] & Hi & Hin). cbn [fst] in Hi. subst i. apply Hspec in Hin as (Ht & Htype & He).
      assert (t = t0) as -> by congruence. eexists. split; [reflexivity|]. split_and!; try done. intros _. by rewrite He.
    - exists t0. split_and!; try done. intros Htype. destruct (lease_expired now t0) eqn:He; [|done]. exfalso. apply Hout.
      apply list_elem_of_In, in_map_iff. exists (id, t0). split; [done|]. by apply Hspec. }
  destruct Ht1 as (t1 & Ht1 & Hkey & Hver & Heq). exists (if stale_waiter type db1 t1 then resumed_row now2 t1 else t1).
  split_and!; try (by destruct (stale_waiter type db1 t1)).
  - unfold resume_stale_waiters. cbn [tasks_]. by rewrite lookup_fmap, Ht1.
  - intros Htype. specialize (Heq Htype). split.
    + assert (lease_expired now t1 = false) as Hnone by (rewrite Heq; destruct (lease_expired now t0) eqn:E; done). by destruct (stale_waiter type db1 t1).
    + intros Hdone. rewrite still_awaited_resumed. apply (maintained_row now now2 type db1 t0 t1); try done. by apply (ok_tasks db Hok id).
Qed.

(** * Coalescing *)

Lemma find_marker_unique db id t : tables_ok db -> tasks_ db !! id = Some t -> find_marker db (tenant_id_ t) (resource_type_ t) (resource_id_ t) = Some (id, t).
Proof.
  intros Hok Ht. destruct (find_marker db _ _ _) as [[i u]|] eqn:E.
  - destruct (find_marker_some _ _ _ _ _ _ E) as [Hu Hk]. assert (i = id) as -> by (apply (ok_unique db Hok i id u t Hu Ht); done). congruence.
  - by destruct (find_marker_none _ _ _ _ E id t Ht).
Qed.

Lemma requeued_check now operation version t : task_check t = true -> supports_marker_operation (resource_type_ t) operation = true -> 0 < version ->
  task_check (requeued now operation version t) = true.
Proof.
  rewrite !check_inv. intros (Hf & Hl & Hs & Hd & Hv & Hp & Hw) Hop Hversion. cbn.
  destruct (Z.leb_spec (version_ t) version); destruct (Z.ltb_spec (version_ t) version); split_and!; try done; try lia; intuition.
Qed.
Lemma requeued_fits now operation version t : columns_fit t = true -> columns_fit (requeued now operation version t) = true.
Proof. unfold columns_fit. rewrite !andb_true_iff. intros [? ?]. cbn. by destruct (version_ t <=? version). Qed.

(** Queueing at a version the task has: the row is reset or left alone. *)
Lemma upsert_existing now fresh operation version work db id t : tables_ok db -> tasks_ db !! id = Some t ->
  supports_marker_operation (resource_type_ t) operation = true -> 0 < version ->
  exists work', upsert_marker now fresh (tenant_id_ t) (resource_type_ t) (resource_id_ t) operation version work db =
    Returns (mk_tables (<[id := requeued now operation version t]> (tasks_ db)) (events_ db) (next_event_ db), work', id).
Proof.
  intros Hok Ht Hop Hv. unfold upsert_marker. destruct (Z.leb_spec version 0); [lia|]. rewrite Hop. cbn [negb].
  destruct (describe_total (resource_type_ t)) as (m & -> & _). cbn [throwing_bind]. rewrite (find_marker_unique db id t) by done. cbn [throwing_bind].
  unfold write_task. destruct (ok_tasks db Hok id t Ht) as (Hc & Hf & _). rewrite requeued_check, requeued_fits by done. cbn [andb throwing_bind]. by eexists.
Qed.

Lemma requeued_order now1 op1 v1 now2 op2 v2 t : v1 < v2 ->
  requeued now1 op1 v1 (requeued now2 op2 v2 t) = requeued now2 op2 v2 (requeued now1 op1 v1 t).
Proof.
  intros Hv. unfold requeued. cbn.
  destruct (Z.leb_spec (version_ t) v1), (Z.ltb_spec (version_ t) v1), (Z.leb_spec (version_ t) v2), (Z.ltb_spec (version_ t) v2); try lia;
    repeat match goal with |- context [Z.max ?a ?b] => (rewrite (Z.max_l a b) by lia) || (rewrite (Z.max_r a b) by lia) end;
    repeat match goal with
    | |- context [?a <=? ?b] => (rewrite (proj2 (Z.leb_le a b)) by lia) || (rewrite (proj2 (Z.leb_gt a b)) by lia)
    | |- context [?a <? ?b] => (rewrite (proj2 (Z.ltb_lt a b)) by lia) || (rewrite (proj2 (Z.ltb_ge a b)) by lia)
    end; done.
Qed.

(** Queued work coalesces to the newest version whatever order it arrives in: queueing a task of a
    resource at two different versions, even while an attempt runs, gives the same tables in both orders. *)
Theorem upsert_order_independent now1 fresh1 op1 v1 now2 fresh2 op2 v2 db id t :
  tables_ok db -> tasks_ db !! id = Some t ->
  supports_marker_operation (resource_type_ t) op1 = true -> supports_marker_operation (resource_type_ t) op2 = true ->
  0 < v1 -> 0 < v2 -> v1 <> v2 ->
  perform_all db [Upsert now1 fresh1 (tenant_id_ t) (resource_type_ t) (resource_id_ t) op1 v1; Upsert now2 fresh2 (tenant_id_ t) (resource_type_ t) (resource_id_ t) op2 v2] =
  perform_all db [Upsert now2 fresh2 (tenant_id_ t) (resource_type_ t) (resource_id_ t) op2 v2; Upsert now1 fresh1 (tenant_id_ t) (resource_type_ t) (resource_id_ t) op1 v1] /\
  exists t', tasks_ (perform_all db [Upsert now1 fresh1 (tenant_id_ t) (resource_type_ t) (resource_id_ t) op1 v1; Upsert now2 fresh2 (tenant_id_ t) (resource_type_ t) (resource_id_ t) op2 v2]) !! id = Some t' /\
    version_ t' = Z.max (version_ t) (Z.max v1 v2).
Proof.
  intros Hok Ht Hop1 Hop2 Hv1 Hv2 Hne.
  assert (Hboth : forall nowa fresha opa va nowb freshb opb vb, supports_marker_operation (resource_type_ t) opa = true -> supports_marker_operation (resource_type_ t) opb = true ->
    0 < va -> 0 < vb ->
    perform_all db [Upsert nowa fresha (tenant_id_ t) (resource_type_ t) (resource_id_ t) opa va; Upsert nowb freshb (tenant_id_ t) (resource_type_ t) (resource_id_ t) opb vb] =
    mk_tables (<[id := requeued nowb opb vb (requeued nowa opa va t)]> (tasks_ db)) (events_ db) (next_event_ db)).
  { intros nowa fresha opa va nowb freshb opb vb Ha Hb Hva Hvb. unfold perform_all. cbn [fold_left perform].
    destruct (upsert_existing nowa fresha opa va (mk_work [] []) db id t) as (w1 & E1); try done. rewrite E1.
    pose proof (upsert_ok _ _ _ _ _ _ _ _ _ _ _ _ E1 Hok) as Hok1.
    destruct (upsert_existing nowb freshb opb vb (mk_work [] []) (mk_tables (<[id := requeued nowa opa va t]> (tasks_ db)) (events_ db) (next_event_ db)) id (requeued nowa opa va t)) as (w2 & E2);
      [done|by cbn [tasks_]; rewrite lookup_insert_eq|done|done|]. cbn [requeued tenant_id_ resource_type_ resource_id_] in E2. rewrite E2. cbn [tasks_ events_ next_event_].
    by rewrite insert_insert_eq. }
  rewrite !Hboth by done. split.
  - destruct (Z.lt_total v1 v2) as [Hlt|[|Hlt]]; [by rewrite (requeued_order now1 op1 v1 now2 op2 v2)|done|by rewrite (requeued_order now2 op2 v2 now1 op1 v1)].
  - eexists. cbn [tasks_]. rewrite lookup_insert_eq. split; [reflexivity|]. cbn. lia.
Qed.

(** * The choice of a claim *)

Lemma first_row_least rows row : first_row due_before rows = Some row -> Forall (fun other => next_attempt_at_ (snd row) <= next_attempt_at_ (snd other)) rows.
Proof.
  revert row. induction rows as [|r rows IH]; intros row; cbn [first_row]; [done|]. destruct (first_row due_before rows) as [other|] eqn:E.
  - specialize (IH other eq_refl). unfold due_before, lexicographic. destruct (Z.ltb_spec (next_attempt_at_ (snd r)) (next_attempt_at_ (snd other))); cbn [orb].
    + intros [= <-]. constructor; [done|]. eapply Forall_impl; [exact IH|]. intros o Ho. simpl in Ho |- *. lia.
    + destruct (Z.eqb_spec (next_attempt_at_ (snd r)) (next_attempt_at_ (snd other))); cbn [andb]; [destruct (_ <=? _)|]; intros [= <-]; constructor; try lia;
        (eapply Forall_impl; [exact IH|]; intros o Ho; simpl in Ho |- *; lia).
  - intros [= <-]. constructor; [done|]. apply first_row_none in E as ->. constructor.
Qed.

(** A claim takes the task that has been due the longest. When it takes one, that task was unfinished,
    due, unleased and waiting for nothing, at the version of a live aggregate, no other claimable task
    was due earlier (rows other workers hold apart), and the worker now holds its lease for 60 seconds;
    when it takes none there was none to take. *)
Theorem claim_takes_earliest now steady subjects locked owner type db db' claimed : tables_ok db ->
  claim_marker now steady subjects locked owner type db = Returns (db', claimed) ->
  match claimed with
  | None => db' = db /\ forall id t m, describe type = Returns m -> tasks_ db !! id = Some t -> claimable now subjects m t = true -> locked id = true
  | Some (c, _) =>
      exists t m, describe type = Returns m /\ tasks_ db !! claimed_id_ c = Some t /\ claimable now subjects m t = true /\ claimed_version_ c = version_ t /\
        lease_owner_ t = None /\ tasks_ db' = <[claimed_id_ c := claim_row now owner t]> (tasks_ db) /\
        (forall until, until < now_plus now lease_duration -> lease_live until (claim_row now owner t) = true) /\
        forall id u, tasks_ db !! id = Some u -> claimable now subjects m u = true -> locked id = false -> next_attempt_at_ t <= next_attempt_at_ u
  end.
Proof.
  intros Hok. unfold claim_marker. destruct (describe_total type) as (m & -> & _). cbn [throwing_bind].
  set (rows := List.filter _ _). assert (Hrows : forall id u, tasks_ db !! id = Some u -> claimable now subjects m u = true -> locked id = false -> In (id, u) rows).
  { intros id u Hu Hc Hl. apply filter_In. rewrite <- list_elem_of_In, elem_of_map_to_list. cbn [fst snd]. by rewrite Hc, Hl. }
  destruct (first_row due_before rows) as [[id t]|] eqn:E.
  - pose proof (first_row_in _ _ _ E) as Hin. apply in_rows in Hin as [Ht Hp]. cbn [fst snd] in Hp. apply andb_true_iff in Hp as [Hp _].
    intros (db1 & (-> & _ & _)%write_task_inv & [= <- <-])%throwing_bind_inv. exists t, m. split_and!; try done.
    + apply check_lease; [by apply (ok_tasks db Hok id)|]. unfold claimable in Hp. rewrite !andb_true_iff in Hp. destruct Hp as [[[_ Hu] _] _]. by destruct (lease_until_ t).
    + intros instant Hlt. by apply Z.ltb_lt.
    + intros i u Hu Hc Hl. pose proof (first_row_least _ _ E) as Hleast. rewrite List.Forall_forall in Hleast. apply (Hleast (i, u)). by apply Hrows.
  - intros [= <- <-]. split; [done|]. intros id t m' [= <-] Ht Hc. destruct (locked id) eqn:El; [done|]. apply first_row_none in E. specialize (Hrows id t Ht Hc El).
    by rewrite E in Hrows.
Qed.

(** * The writer's protocol *)

(** The four results a writer can write. *)
Inductive writes (w : running_result_writer) (db : sync_tables) : throwing (sync_tables * running_result_writer) -> Prop :=
| WritesRecord now clock steady result detail counter : writes w db (record now clock steady result detail counter w db)
| WritesRemoval now : writes w db (remove_task now w db)
| WritesQuiet now action : writes w db (quiet_result now action w db)
| WritesRecovery now clock steady : writes w db (recover_expired now clock steady w db).

Lemma finish_ready kind event resumed trace w : phase_ (finish kind event resumed trace w) = ready.
Proof. done. Qed.

(** A writer is used once: it writes one result while it is open and is ready then, it commits only when
    ready (with the trace of the attempt when the result has one to store) and is committed then; every
    other use throws, so that no second result reaches the transaction and nothing is committed twice. *)
Theorem writer_protocol w db outcome : writes w db outcome ->
  (phase_ w <> open -> outcome = Throws (lit "sync result writer already finalized")) /\
  (forall db' w', outcome = Returns (db', w') -> phase_ w' = ready) /\
  (forall trace node_config caused w' n stored, commit_bound trace node_config caused w = Returns (w', n, stored) ->
     phase_ w = ready /\ phase_ w' = committed /\ (trace_required_ w = true -> trace = true)).
Proof.
  intros Hw. split_and!.
  - intros Hp. assert (Ho : require_open w = Throws (lit "sync result writer already finalized")) by (unfold require_open; by rewrite bool_decide_false).
    by destruct Hw; unfold record, remove_task, quiet_result, recover_expired; rewrite Ho.
  - intros db' w' Hr. destruct Hw; subst; unfold record, remove_task, quiet_result, recover_expired in Hr; apply throwing_bind_inv in Hr as (w1 & _ & Hr).
    + apply throwing_bind_inv in Hr as ([db1 b] & _ & Hr). destruct (negb b); [by injection Hr as _ <-|].
      destruct (append_event _ _ _ _ _ _) as [db2 [event|]]; [|done]. rewrite resume_when in Hr. by injection Hr as _ <-.
    + repeat (case_match; [|by injection Hr as _ <-]). destruct (resume _ _ _ _). by injection Hr as _ <-.
    + destruct action; apply throwing_bind_inv in Hr as ([db1 b] & _ & Hr); [|by injection Hr as _ <-..]. destruct (negb b); [by injection Hr as _ <-|].
      destruct (resume _ _ _ _). by injection Hr as _ <-.
    + apply throwing_bind_inv in Hr as ([db1 b] & _ & Hr). destruct (negb b); [by injection Hr as _ <-|].
      destruct (append_event _ _ _ _ _ _) as [db2 [event|]]; [by injection Hr as _ <-|done].
  - intros trace node_config caused w' n stored. unfold commit_bound. destruct (result_ w) as [result|]; [|done].
    destruct (negb (bool_decide (phase_ w = ready)) || (trace_required_ w && negb trace)) eqn:E; [done|]. apply orb_false_iff in E as [Ep%negb_false_iff Et].
    apply bool_decide_eq_true in Ep. intros Hr.
    assert (phase_ w' = committed) as ->.
    { destruct (negb (result_changed result)); [by injection Hr as <- _ _|]. apply throwing_bind_inv in Hr as (n1 & _ & Hr).
      apply throwing_bind_inv in Hr as (n2 & _ & Hr). by injection Hr as <- _ _. }
    split_and!; [done..|]. intros Hreq. rewrite Hreq in Et. by destruct trace.
Qed.

End Operations.

(** * Examples *)

(** A reader of details that knows one document. *)
Definition sample_json : JsonDetail := fun text => if text == detail_none_json then Some (Some (lit "none"), Some false) else None.

Definition sample_subjects : aggregates := fun type tenant id =>
  if id == lit "zone" then Some (mk_subject 1 false) else if id == lit "cert" then Some (mk_subject 2 false) else None.
Definition unlocked (id : bytes) : bool := false.
Definition alice : bytes := lit "alice".
Definition bob : bytes := lit "bob".
Definition lease_of (owner marker : bytes) (version : Z) (type : marker_resource_type) (resource_id : bytes) : running_marker_lease :=
  mk_lease (mk_reference (lit "t") marker version type resource_id) owner (Some 1).
Definition zone_lease : running_marker_lease := lease_of alice (lit "zone-task") 1 dns_zone (lit "zone").
Definition cert_lease : running_marker_lease := lease_of bob (lit "cert-task") 2 certificate (lit "cert").
(** A zone and a certificate are queued; the zone's task runs, and the certificate's waits for it. *)
Definition sample_history : list sync_operation := [
  Upsert 0 (lit "zone-task") (lit "t") dns_zone (lit "zone") sync 1;
  Upsert 0 (lit "cert-task") (lit "t") certificate (lit "cert") issue 2;
  Claim (1 * second) 1 sample_subjects unlocked alice dns_zone;
  Claim (1 * second) 1 sample_subjects unlocked bob certificate;
  Record (2 * second) 0 2 cert_lease 0 (mk_result waiting [] (lit "zone-task") 1) detail_none_json accumulate].
Definition sample_tables : sync_tables := @perform_all sample_json empty_tables sample_history.
Lemma sample_ok : tables_ok sample_tables.
Proof. apply tables_all_ok, empty_ok. Qed.
Definition row_of (db : sync_tables) (id : bytes) : sync_task := default (new_task 0 [] website [] apply_ 1) (tasks_ db !! id).

Lemma record_complete_witness :
  exists tasks' e w, @record sample_json (5 * second) 0 5 result_completed detail_none_json accumulate (new_writer zone_lease 0) sample_tables =
      Returns (mk_tables tasks' (events_ sample_tables ++ [e]) 3, w) /\ attempt_ e = 1 /\
    wait_task_id_ (row_of sample_tables (lit "cert-task")) = Some (lit "zone-task") /\
    wait_task_id_ (row_of (mk_tables tasks' [] 0) (lit "cert-task")) = None.
Proof.
  destruct (@record_complete sample_json (5 * second) 0 5 zone_lease 0 result_completed detail_none_json accumulate sample_tables (row_of sample_tables (lit "zone-task")) sample_ok)
    as (tasks' & e & w & Hr & _ & _ & _ & _ & _ & Ha & _ & Hothers); [by vm_compute..|split; by vm_compute|].
  exists tasks', e, w. split_and!; [exact Hr|rewrite Ha; by vm_compute|by vm_compute|].
  destruct (Hothers (lit "cert-task") (row_of sample_tables (lit "cert-task")) ltac:(by_decision)) as (_ & Hresumed & _).
  assert (Hrow : tasks' !! lit "cert-task" = Some (resumed_row (5 * second) (row_of sample_tables (lit "cert-task")))).
  { apply Hresumed; [by vm_compute|]. split_and!; [by vm_compute..|]. exists 1. split; [by vm_compute|by vm_compute]. }
  unfold row_of at 1. cbn [tasks_]. by rewrite Hrow.
Defined.

Definition recovered_tables : sync_tables := @perform sample_json sample_tables (Recover (100 * second) 0 100 zone_lease).
Lemma lost_lease_is_stale_witness :
  held zone_lease recovered_tables = false /\
  held (lease_of bob (lit "zone-task") 1 dns_zone (lit "zone"))
    (@perform_all sample_json recovered_tables [Claim (200 * second) 200 sample_subjects unlocked bob dns_zone]) = true /\
  exists w, @record sample_json (201 * second) 0 201 result_completed detail_none_json accumulate (new_writer zone_lease 0)
      (@perform_all sample_json recovered_tables [Claim (200 * second) 200 sample_subjects unlocked bob dns_zone]) =
    Returns (@perform_all sample_json recovered_tables [Claim (200 * second) 200 sample_subjects unlocked bob dns_zone], w) /\
    result_ w = Some (mk_task_result stale None).
Proof.
  split; [by vm_compute|]. split; [by vm_compute|].
  destruct (@lost_lease_is_stale sample_json zone_lease recovered_tables [Claim (200 * second) 200 sample_subjects unlocked bob dns_zone]
    (201 * second) 0 201 0 result_completed detail_none_json accumulate (Prune 0)) as [_ Hstale];
    [apply tables_step_ok, sample_ok|by vm_compute|repeat constructor; by_decision|exact Hstale].
Defined.

Lemma one_result_per_claim_witness :
  (@count_steps sample_json (recorded_step (lit "cert-task")) empty_tables sample_history = 1 /\
   @count_steps sample_json (claimed_step (lit "cert-task")) empty_tables sample_history = 1 /\
   @count_steps sample_json (recorded_step (lit "zone-task")) empty_tables sample_history + holding sample_tables (lit "zone-task") <=
   0 + @count_steps sample_json (claimed_step (lit "zone-task")) empty_tables sample_history)%nat.
Proof. split; [by vm_compute|]. split; [by vm_compute|]. apply (@one_result_per_claim sample_json (lit "zone-task") empty_tables sample_history empty_ok). Defined.

Lemma maintenance_loses_no_task_witness :
  lease_expired (100 * second) (row_of sample_tables (lit "zone-task")) = true /\
  exists db1 t, @recover_stale_running sample_json (100 * second) 0 100 dns_zone sample_tables = Returns db1 /\
    tasks_ (resume_stale_waiters (100 * second) dns_zone db1) !! lit "zone-task" = Some t /\ lease_expired (100 * second) t = false.
Proof.
  split; [by vm_compute|].
  destruct (@maintenance_loses_no_task sample_json (100 * second) 0 100 (100 * second) dns_zone sample_tables sample_ok) as (db1 & Hr & Hall).
  - by_decision.
  - vm_compute. lia.
  - destruct (Hall (lit "zone-task") (row_of sample_tables (lit "zone-task"))) as (t & Ht & _ & _ & Hlease); [by vm_compute|].
    exists db1, t. split_and!; [exact Hr|exact Ht|]. by destruct (Hlease ltac:(by vm_compute)) as [-> _].
Defined.

Lemma upsert_order_independent_witness :
  version_ (row_of (@perform_all sample_json sample_tables [Upsert 9 [] (lit "t") dns_zone (lit "zone") remove 5; Upsert 8 [] (lit "t") dns_zone (lit "zone") sync 4]) (lit "zone-task")) = 5.
Proof.
  destruct (@upsert_order_independent sample_json 9 [] remove 5 8 [] sync 4 sample_tables (lit "zone-task") (row_of sample_tables (lit "zone-task")) sample_ok)
    as (_ & t' & Ht' & Hv); [by vm_compute..|lia|lia|lia|].
  assert (Hrow : row_of (@perform_all sample_json sample_tables [Upsert 9 [] (lit "t") dns_zone (lit "zone") remove 5; Upsert 8 [] (lit "t") dns_zone (lit "zone") sync 4]) (lit "zone-task") = t').
  { change (tasks_ (@perform_all sample_json sample_tables [Upsert 9 [] (lit "t") dns_zone (lit "zone") remove 5; Upsert 8 [] (lit "t") dns_zone (lit "zone") sync 4]) !! lit "zone-task" = Some t') in Ht'.
    unfold row_of. by rewrite Ht'. }
  rewrite Hrow, Hv. by vm_compute.
Defined.

Definition due_tables : sync_tables := @perform_all sample_json empty_tables (take 2 sample_history).
Lemma claim_takes_earliest_witness :
  exists db' c n, claim_marker (1 * second) 1 sample_subjects unlocked alice dns_zone due_tables = Returns (db', Some (c, n)) /\ claimed_id_ c = lit "zone-task" /\
    claimed_version_ c = version_ (row_of due_tables (lit "zone-task")).
Proof.
  destruct (claim_marker (1 * second) 1 sample_subjects unlocked alice dns_zone due_tables) as [[db' [[c n]|]]|] eqn:E.
  - pose proof (claim_takes_earliest (1 * second) 1 sample_subjects unlocked alice dns_zone due_tables db' (Some (c, n)) (tables_all_ok _ _ empty_ok) E) as (t & m & _ & Ht & _ & Hv & _).
    assert (Hc : claimed_id_ c = lit "zone-task").
    { assert (Hid : match claim_marker (1 * second) 1 sample_subjects unlocked alice dns_zone due_tables with Returns (_, Some (c, _)) => claimed_id_ c | _ => [] end = lit "zone-task") by by vm_compute.
      by rewrite E in Hid. }
    exists db', c, n. split_and!; [done|exact Hc|]. rewrite Hv. rewrite Hc in Ht. unfold row_of. by rewrite Ht.
  - exfalso. assert (Hn : match claim_marker (1 * second) 1 sample_subjects unlocked alice dns_zone due_tables with Returns (_, None) => false | _ => true end = true) by by vm_compute.
    by rewrite E in Hn.
  - exfalso. assert (Hn : match claim_marker (1 * second) 1 sample_subjects unlocked alice dns_zone due_tables with Throws _ => false | _ => true end = true) by by vm_compute.
    by rewrite E in Hn.
Defined.

Lemma writer_protocol_witness :
  @writes sample_json (new_writer zone_lease 0) sample_tables (remove_task (5 * second) (new_writer zone_lease 0) sample_tables) /\
  phase_ (match remove_task (5 * second) (new_writer zone_lease 0) sample_tables with Returns (_, w) => w | Throws _ => new_writer zone_lease 0 end) = ready.
Proof.
  assert (Hw : @writes sample_json (new_writer zone_lease 0) sample_tables (remove_task (5 * second) (new_writer zone_lease 0) sample_tables)) by constructor.
  split; [exact Hw|]. destruct (@writer_protocol sample_json _ _ _ Hw) as (_ & Hready & _).
  destruct (remove_task (5 * second) (new_writer zone_lease 0) sample_tables) as [[db' w]|] eqn:E; [by apply (Hready db' w)|].
  exfalso. assert (Hn : match remove_task (5 * second) (new_writer zone_lease 0) sample_tables with Throws _ => false | _ => true end = true) by by vm_compute.
  by rewrite E in Hn.
Defined.
